(* ===== verification/_CoqProject ===== *)
-Q . S2P
Prelude.v
Bytes.v
Str.v
Cursor.v
Plan.v
Settled.v
Paths.v
IpText.v
PlanWire.v
ControlWire.v
PrivWire.v
PrivAddr.v
Factory.v
Egress.v
Mesh.v
TunPool.v
TunBroker.v
PlanBuild.v
BpfAcl.v
Patch.v
B64.v
Sshsig.v
Verify.v
BinderWire.v
SpawnVerb.v
Registry.v
DbusWire.v
Dbus.v
Source.v
SourceSig.v
MeshBus.v
DbusBroker.v
DbusFacade.v
Resolve.v
ControlSocket.v
Translate.v
Compile.v
Text.v
Proxy.v
AuditTime.v
AuditLog.v
AuditSinks.v
Node0.v
Substitute.v
View.v
Landlock.v
Construct.v
Init.v
Config.v
EtcFiles.v
BringUp.v
