(* ===== verification/Prelude.v ===== *)
(** A verification of the confinement core of Project Kennel.

    * The program

    Kennel runs a workload in a "kennel": a set of namespaces, mounts, Landlock,
    seccomp and BPF filters built from a signed policy.  Its Rust crates are under
    [src/src/crates].

    - The compiler [kennel-lib-compile] turns a source policy, the templates it
      derives from and the fragments it includes into one settled policy, which
      the policy library [kennel-lib-policy] signs and later verifies.
    - The daemon [kenneld] loads a settled policy, turns it into an enforcement plan
      ([kennel-lib-spawn/src/plan.rs]), keeps the registry of running kennels,
      serves the command line over a control socket ([kennel-lib-control]), decides
      each TCP egress request, answers the [SPAWN] verb of a kennel, and runs the
      service mesh with its rendezvous buses.
    - The privileged helper [kennel-privhelper] does what needs capabilities: it
      adds addresses, fills and attaches the BPF maps, and its factory
      ([construct.rs]) receives the construction half of the plan with a few file
      descriptors and hands them to [kennel-bin-init].  It does not trust the
      daemon: every byte it reads is checked.
    - The tun broker [kennel-tun-broker] carries UDP egress: it answers the
      workload's DNS queries with synthetic addresses and forwards the flows to
      them, behind the stateless check of [kennel-facade/src/tun.rs].
    - The D-Bus broker [kennel-dbus-broker] mediates a kennel's calls to the session
      and system buses by the rules of its policy.
    - Inside a kennel, [facade-socks5] speaks SOCKS5 and HTTP to the workload and
      asks the daemon for each connection.
    - Every part reports to the audit stream of [kennel-lib-audit]; what it shows of
      the workload is escaped by [kennel-lib-text] and [kennel-lib-term].

    The parts meet in byte formats (plan and halves, control messages, privhelper
    requests and egress payloads, binder transactions, D-Bus frames, IPv6 frames),
    in descriptors passed beside them, in the signed settled policy, and in the
    catalogue the supervisor drives and the broker reads.

    * The files

    Shared: [Prelude] (this file: results as a monad, machine integers, lists),
    [Bytes] (bytes, integers on the wire, slices, UTF-8), [Str] and [Paths] (what
    the code uses of [str] and [std::path]), [IpText] (the address parser), [Cursor]
    (the bounds-checked reader all decoders share and the class [WireCodec] of an
    encoder, a decoder and the well-formedness they agree on; record decoders are
    proved against the instances of their fields), [B64], [Sshsig] (base64 and the
    SSH signature format).

    Policies, from the author to the daemon:
    - [Source]: [source.rs], the sections, lists and validation of a source policy.
    - [SourceSig]: [source_sig.rs], which artefacts are trusted and at what tier;
      [Config]: [kennel-lib-config], the layers that configure a deployment, with the
      trust contexts of [kennel-cli/src/shared.rs] and the scan of [enablement.rs].
    - [Resolve]: [resolve.rs], the chain of templates and its fold.
    - [ControlSocket]: [kennel-lib-control/src/socket.rs], the socket no policy may
      grant.
    - [Translate]: [translate.rs] and the audit section, source to settled.
    - [Compile]: [compile.rs] with [ssh.rs], [unix.rs], [dev.rs], [identity.rs],
      [spawn.rs], [lock.rs] and [lint.rs].
    - [Settled]: [kennel-lib-policy/src/settled.rs], the settled policy.
    - [Patch]: [patch.rs], [variant.rs], what a spawn may change in a template.
    - [Verify]: the invariants and the gate a settled policy passes to be loaded.

    Enforcement:
    - [Plan], [PlanBuild]: [kennel-lib-spawn/src/plan.rs], the plan and its
      construction from a policy; [PlanWire]: its codec [wire.rs].
    - [BpfAcl]: the maps the helper fills and the programs of [src/src/bpf].
    - [PrivWire], [PrivAddr], [Factory]: the helper's wire format, its address
      authority, and the hand-off from the daemon to the factory and the init.
    - [Substitute]: [kennel-lib-spawn/src/lib.rs], the runtime variables of a policy,
      and [mesh_rendezvous.rs]; [View]: the mounts of a kennel, the overlay of an
      image and the pivot.
    - [Construct]: [construct.rs], the helper and its child as two processes that
      meet at two pipes; [Landlock]: [kennel-lib-landlock], rulesets and what each
      ABI of the kernel makes of them; [Init]: [kennel-bin-init], the seal of a
      workload and the supervise loop.
    - [EtcFiles]: [etc.rs], the files of a kennel's [/etc], and [libresolve.rs], the
      loaders of a binary; [BringUp]: [kenneld/src/lib.rs], the daemon's side of the
      construction, from the plan to the release of the init, and the teardown.
    - [Egress]: [inet/allow.rs], [inet.rs], [netaddr.rs].
    - [TunPool], [TunBroker]: the UDP broker and the facade's check.

    The daemon and its services:
    - [ControlWire]: the control protocol; [BinderWire]: the binder transactions.
    - [Registry]: [server.rs], [ctx.rs], [cgroup.rs]; [SpawnVerb]: [spawn.rs].
    - [Mesh]: [readiness.rs], [catalogue.rs], [broker.rs], [supervisor.rs];
      [MeshBus]: [mesh.rs], [mesh_bus.rs] and the compiler's checks of a mesh.
    - [DbusWire], [Dbus], [DbusBroker], [DbusFacade]: the D-Bus mediation.
    - [Text]: the escaping of untrusted text, the terminal filter, the environment
      of an image; [Proxy]: the SOCKS5 and HTTP endpoint.
    - [AuditTime], [AuditLog], [AuditSinks]: time stamps and identifiers; events,
      records and the writer; the sinks and the daemon's events.
    - [Node0]: [binder.rs], [inbound.rs], [tun_sink.rs], the verbs a kennel transacts.

    * How the code is modelled

    A [w]-bit integer is a [Z] with its bound stated where it matters and its
    wrapping or saturation written out.  Strings, paths and byte vectors are lists
    of bytes.  [Result] is [result], [Option] is [option]; error messages are
    constructors that carry what the message names.  A reader is a cursor threaded
    by a monad, the fold of two policies a writer of warnings, the translation an
    error monad with a log of tokens.  Hash maps are [gmap]s; tree maps whose order
    shows are sorted lists.  State that code mutates is threaded explicitly;
    concurrent code is a step relation: the registry's threads, the spawn counter,
    the activation guard, the life of a rendezvous bus, the factory and its child.
    Mounts are a table, newest first, that a path is looked up in, and an overlay is
    the layers its options name; credentials follow setresuid(2) and capabilities(7);
    a pipe is at its end when no process holds a write end; a system call fails when
    an arbitrary function of the step says so, and a transaction to a tun broker may
    have no answer.

    Other crates and the kernel are parameters, with what the code relies on stated
    as laws where a theorem needs them: Ed25519 and SHA-512 ([Crypto]), the TOML
    text of an artefact ([Toml], [SourceToml]), the artefacts by name, the D-Bus
    marshaller and decoder, the binder calls, the resolver, the DNS packet library,
    [connect], the poller, the interface index and the netlink answer, the ELF reader,
    the files of the host ([Machine]) and its paths and links ([HostFs]), the ABI of
    Landlock and what it opens ([LandlockHost]), what the calls of a bring-up answer.

    Loops whose length the input bounds recurse on it.  Those that it does not have
    fuel: the chain walk, whose depth the code itself limits to 16; the supervision
    loop, for which [max_attempts + 1] turns are proved enough; the checksum's carry
    loop, for which three are; the scan for a free descriptor, for which the size of
    the table is; the decimal printer, with 20 digits for a 64-bit number.

    * What is proved

    - Policies: resolution succeeds exactly on finite verified chains and returns
      their fold; the denials of the entry, of every ancestor and of every fragment
      are in the settled policy; which paths a chain grants; who may provide a
      reserved name; no settled grant, taken as it is written, is the control socket or
      a directory above it; which source fields the settled policy does not depend on;
      fragments only add; what is compiled is loaded by the daemon; the spawn grant is pinned to
      documents the daemon accepts; the gate accepts exactly the trusted documents
      that meet the invariants; a patch changes exactly what its variants admit.
    - Enforcement: the exact Landlock rights of a plan, no execution under a
      writable grant, the view, the kernel's verdict on every connection of a
      host-mode kennel, the addresses the daemon pins for every policy and every
      resolver, the deny floor.
    - Privileged side: the exact set of addresses the helper acts on, the
      confinement of the one-shot helper for any input, the descriptors at their
      numbers after the exec whatever numbers they had.  Under every interleaving the
      child does nothing before its maps are written and acknowledged, and the init
      runs only when the whole kennel was built; each privileged act has the identity it should; the two processes end.
    - Bring-up: the init is released last, with its delegates and node 0 in place; what
      is added to a plan is read-only and lets nothing be both written and executed; a
      failed start and a stop give back what was taken; a bring-up whose calls succeed
      returns.  The accounts and names of the synthetic [/etc] resolve inside the kennel.
    - Deployment: the layers and their order, the longest reserved namespace governs,
      system directories are root-owned, the first verified provider of a link is taken.
    - The kennel: the host is served in the view at or below where a grant leads, and
      in the layers of its image, and is written at or below a writable grant or in the
      image's upper; the masks are on top; the operator's home does not show under its
      own name and its grants are under the masked user's.  A workload that runs is
      sealed whole, with the Landlock layer its kernel's ABI makes of the plan; a
      facade is started at most five times in ten seconds.
    - Wire formats: round trips, decoders that accept only well-formed values from
      any bytes, streams of messages received in order, handshakes.
    - Daemon: no two kennels share a context or a name, no child outlives its
      parent, a spawn builds exactly the admitted instance and never more than the
      granted number, supervision terminates, the broker takes the preferred
      candidate, consumers are policed by their own policy.  On a kennel's node 0:
      descriptors only to what its policy grants, the cgroup touched for the init's
      notice only, an expired kennel thawed or killed, every call answered in time but
      for the delivery to a tun broker that does not reply.
    - UDP egress: every datagram goes to an address resolved for a granted name and
      port, a synthetic address never stands for two names.
    - D-Bus: a session's traffic on the bus is exactly the admitted calls, and a
      kennel receives only what its rules let through.
    - Proxy: the host and port asked of the daemon are those of the client's request,
      however it arrives, and the head sent on is the client's.
    - Audit: an event is one line of JSON that reads back as its fields, with nothing
      live in it; time stamps are the calendar's and read back; the level filter
      passes the first allow of a target; a failed sink is reported to the others;
      queues deliver in order; rotation keeps what was written and retention the
      newest files.

    Some theorems state behaviour that departs from what the code documents, among
    them: increments over a section the template lacks are dropped; several source
    fields have no effect on the settled policy; an additive fragment can set the
    working directory's grant; unsigned artefacts are not pinned by the lockfile; a
    globbed grant passes the control-socket check; the IPv4-mapped form of a refused
    address is pinned; a stop can end another kennel; the last registration of a
    name on a bus wins; an idle reap lets a second supervision thread start; a
    request body that arrives with its head is not forwarded; two rotations in one
    second lose events; a denied spawn with a long template name is not audited;
    any kennel can register as the tun broker of all, and one that does not reply
    holds its consumers; below ABI 4 Landlock restricts no port; a conduit that bounced waits
    for a registration; the spawn listing stays that of the first query; a time to
    live of zero passes the gate and sets no deadline; a writable file system mounted
    under a read-only grant stays writable in the view; a placeholder in the
    environment shows the operator's home; key directories of a user count as the
    system's; a host key named as a vendor key has the vendor tier; a failed start
    does not wait for the init it constructed.

    * What is not modelled

    System calls beyond what the tables and step functions above keep of them
    (sockets, seccomp and BPF installation, mount options) and process plumbing; the
    TOML text; cryptography.  Still to come: the daemon's bastion and tripwire; the
    compiler's diff, risk and threat reports; the command line. *)

From stdpp Require Export base tactics list numbers option strings sets.
From Stdlib Require Export Lia ZArith.

Global Set Default Goal Selector "!".

(** * Results: the [Result<A, E>] of the Rust code *)

Inductive result (E A : Type) : Type :=
  | Ok (a : A)
  | Err (e : E).
Arguments Ok {E A} a.
Arguments Err {E A} e.

Global Instance result_ret E : MRet (result E) := fun A a => Ok a.
Global Instance result_bind E : MBind (result E) :=
  fun A B f m => match m with Ok a => f a | Err e => Err e end.
Global Instance result_fmap E : FMap (result E) :=
  fun A B f m => match m with Ok a => Ok (f a) | Err e => Err e end.

(** [Option::ok_or]. *)
Definition ok_or {E A} (e : E) (o : option A) : result E A :=
  match o with Some a => Ok a | None => Err e end.

(** [Result::ok]. *)
Definition result_ok {E A} (r : result E A) : option A :=
  match r with Ok a => Some a | Err _ => None end.

Definition is_ok {E A} (r : result E A) : bool :=
  match r with Ok _ => true | Err _ => false end.

Global Instance ok_inj {E A} : Inj (=) (=) (@Ok E A).
Proof. by intros ?? [=]. Qed.

Lemma bind_Ok {E A B} (m : result E A) (f : A -> result E B) b :
  (m ≫= f) = Ok b -> exists a, m = Ok a /\ f a = Ok b.
Proof. destruct m as [a|e]; cbn; [by exists a|done]. Qed.

Global Instance result_eq_dec {E A} `{EqDecision E} `{EqDecision A} :
  EqDecision (result E A).
Proof. solve_decision. Defined.

(** * Tactics *)

(** Split every [if]/[match] scrutinee of a hypothesis or of the goal. *)
Ltac case_split :=
  repeat (case_match; simplify_eq/=; try done).

(** Turn boolean comparisons on [Z] into propositions and close with [lia]. *)
Ltac zbool :=
  repeat match goal with
  | H : _ && _ = true |- _ => apply andb_true_iff in H as [? ?]
  | H : _ && _ = false |- _ => apply andb_false_iff in H as [?|?]
  | H : _ || _ = true |- _ => apply orb_true_iff in H as [?|?]
  | H : _ || _ = false |- _ => apply orb_false_iff in H as [? ?]
  | H : negb _ = true |- _ => apply negb_true_iff in H
  | H : negb _ = false |- _ => apply negb_false_iff in H
  | H : (_ <=? _)%Z = true |- _ => apply Z.leb_le in H
  | H : (_ <=? _)%Z = false |- _ => apply Z.leb_gt in H
  | H : (_ <? _)%Z = true |- _ => apply Z.ltb_lt in H
  | H : (_ <? _)%Z = false |- _ => apply Z.ltb_ge in H
  | H : (_ =? _)%Z = true |- _ => apply Z.eqb_eq in H
  | H : (_ =? _)%Z = false |- _ => apply Z.eqb_neq in H
  end.

(** * Machine integers *)

Open Scope Z_scope.

Definition u8_max : Z := 255.
Definition u16_max : Z := 65535.
Definition u32_max : Z := 4294967295.
Definition u64_max : Z := 18446744073709551615.
(** [usize] is 64 bits wide on every supported target. *)
Definition usize_max : Z := u64_max.

Definition in_u8 (v : Z) : Prop := 0 <= v <= u8_max.
Definition in_u16 (v : Z) : Prop := 0 <= v <= u16_max.
Definition in_u32 (v : Z) : Prop := 0 <= v <= u32_max.
Definition in_u64 (v : Z) : Prop := 0 <= v <= u64_max.
Definition in_i32 (v : Z) : Prop := - 2147483648 <= v <= 2147483647.
Definition in_i64 (v : Z) : Prop := - 9223372036854775808 <= v <= 9223372036854775807.

Global Instance in_u8_dec v : Decision (in_u8 v) := and_dec _ _.
Global Instance in_u16_dec v : Decision (in_u16 v) := and_dec _ _.
Global Instance in_u32_dec v : Decision (in_u32 v) := and_dec _ _.
Global Instance in_u64_dec v : Decision (in_u64 v) := and_dec _ _.
Global Instance in_i32_dec v : Decision (in_i32 v) := and_dec _ _.
Global Instance in_i64_dec v : Decision (in_i64 v) := and_dec _ _.

(** Discharge a width obligation. *)
Ltac in_range :=
  unfold in_u8, in_u16, in_u32, in_u64, in_i32, in_i64, usize_max, u8_max, u16_max, u32_max,
    u64_max in *; lia.

(** [saturating_add] / [saturating_mul] at the type whose maximum is [mx];
    [saturating_sub] on unsigned values. *)
Definition sat_add (mx a b : Z) : Z := Z.min mx (a + b).
Definition sat_mul (mx a b : Z) : Z := Z.min mx (a * b).
Definition sat_sub (a b : Z) : Z := Z.max 0 (a - b).

(** [u32::try_from(n).unwrap_or(u32::MAX)] on a non-negative [n]. *)
Definition sat_u32 (n : Z) : Z := Z.min u32_max n.

Lemma sat_u32_small n : n <= u32_max -> sat_u32 n = n.
Proof. unfold sat_u32; lia. Qed.

(** * Lists *)

Abbreviation blen l := (Z.of_nat (length l)).

Lemma blen_app {A} (l k : list A) : blen (l ++ k) = blen l + blen k.
Proof. rewrite length_app. lia. Qed.

Lemma take_app_exact {A} (l k : list A) n : n = length l -> take n (l ++ k) = l.
Proof. intros ->. apply take_app_length. Qed.

Lemma drop_app_exact {A} (l k : list A) n : n = length l -> drop n (l ++ k) = k.
Proof. intros ->. apply drop_app_length. Qed.

Lemma Forall_flat_map {A B} (P : B -> Prop) (f : A -> list B) (l : list A) :
  Forall (fun x => Forall P (f x)) l -> Forall P (flat_map f l).
Proof. induction 1; cbn; [constructor|]. by apply Forall_app. Qed.
