(* ===== verification/Bytes.v ===== *)
(** Bytes, fixed-width integers on the wire, slices and UTF-8.

    A byte is a [Z] between 0 and 255 ([bytes_ok] states it of a list); a Rust
    [String], [Path] or [Vec<u8>] is the list of its bytes.  The file models
    what the codecs use of the Rust standard library: [to_le_bytes] and
    [to_be_bytes] with their inverses, two's complement, [slice::get] on a
    range, [str::from_utf8] and [String::from_utf8_lossy]. *)

From S2P Require Import Prelude.

Abbreviation bytes := (list Z).

Definition byte_ok (b : Z) : Prop := 0 <= b <= 255.
Definition bytes_ok (bs : bytes) : Prop := Forall byte_ok bs.

Global Instance byte_ok_dec b : Decision (byte_ok b) := and_dec _ _.
Global Instance bytes_ok_dec bs : Decision (bytes_ok bs).
Proof. unfold bytes_ok. apply _. Defined.

(** The bytes of an ASCII literal. *)
Definition ascii_bytes (s : string) : bytes :=
  map (fun c => Z.of_N (Ascii.N_of_ascii c)) (String.list_ascii_of_string s).

Lemma ascii_bytes_ok s : bytes_ok (ascii_bytes s).
Proof.
  unfold ascii_bytes, bytes_ok. apply Forall_map, Forall_forall. intros c _. cbn. unfold byte_ok.
  pose proof (Ascii.N_ascii_bounded c). lia.
Qed.

(** ** Integers as bytes *)

Fixpoint le_bytes (n : nat) (v : Z) : bytes :=
  match n with
  | O => []
  | S n => v mod 256 :: le_bytes n (v / 256)
  end.

Fixpoint le_val (bs : bytes) : Z :=
  match bs with
  | [] => 0
  | b :: bs => b + 256 * le_val bs
  end.

Definition be_bytes (n : nat) (v : Z) : bytes := rev (le_bytes n v).
Definition be_val (bs : bytes) : Z := le_val (rev bs).

(** The byte order of the host, for [to_ne_bytes] / [from_ne_bytes]. *)
Inductive endian : Type := LittleEndian | BigEndian.

Definition ne_bytes (en : endian) (n : nat) (v : Z) : bytes :=
  match en with LittleEndian => le_bytes n v | BigEndian => be_bytes n v end.
Definition ne_val (en : endian) (bs : bytes) : Z :=
  match en with LittleEndian => le_val bs | BigEndian => be_val bs end.

(** Two's complement of a [w]-bit signed value, and back. *)
Definition to_twos (w v : Z) : Z := v mod 2 ^ w.
Definition of_twos (w u : Z) : Z := if u <? 2 ^ (w - 1) then u else u - 2 ^ w.

Lemma length_le_bytes n v : length (le_bytes n v) = n.
Proof. revert v; induction n; intros v; cbn; auto. Qed.

Lemma length_ne_bytes en n v : length (ne_bytes en n v) = n.
Proof.
  destruct en; cbn; [|unfold be_bytes; rewrite length_rev]; apply length_le_bytes.
Qed.

Lemma le_val_bytes n v : 0 <= v < 256 ^ Z.of_nat n -> le_val (le_bytes n v) = v.
Proof.
  revert v; induction n as [|n IH]; intros v Hv; cbn -[Z.pow] in *.
  - change (256 ^ 0) with 1 in Hv. lia.
  - rewrite IH.
    + pose proof (Z.div_mod v 256). lia.
    + rewrite Nat2Z.inj_succ, Z.pow_succ_r in Hv by lia.
      split; [apply Z.div_pos; lia | apply Z.div_lt_upper_bound; lia].
Qed.

Lemma ne_val_bytes en n v : 0 <= v < 256 ^ Z.of_nat n -> ne_val en (ne_bytes en n v) = v.
Proof.
  intros Hv. destruct en; cbn; [|unfold be_val, be_bytes; rewrite rev_involutive];
    by apply le_val_bytes.
Qed.

Lemma le_bytes_ok n v : bytes_ok (le_bytes n v).
Proof.
  unfold bytes_ok. revert v; induction n; intros v; cbn; constructor; auto.
  unfold byte_ok. pose proof (Z.mod_pos_bound v 256). lia.
Qed.

Lemma bytes_ok_rev bs : bytes_ok bs -> bytes_ok (rev bs).
Proof. apply Forall_rev. Qed.

Lemma le_val_bound bs : bytes_ok bs -> 0 <= le_val bs < 256 ^ blen bs.
Proof.
  induction 1 as [|b bs Hb _ IH]; cbn -[Z.pow Z.of_nat]; [done|].
  rewrite Nat2Z.inj_succ, Z.pow_succ_r by lia. unfold byte_ok in Hb. lia.
Qed.

Lemma le_bytes_val bs : bytes_ok bs -> le_bytes (length bs) (le_val bs) = bs.
Proof.
  induction 1 as [|b bs Hb _ IH]; cbn; [done|]. unfold byte_ok in Hb.
  rewrite (Z.mul_comm 256), Z.div_add, Z.mod_add by lia.
  rewrite Z.mod_small, Z.div_small by lia. by rewrite Z.add_0_l, IH.
Qed.

Lemma ne_val_bound en bs : bytes_ok bs -> 0 <= ne_val en bs < 256 ^ blen bs.
Proof.
  intros H. destruct en; cbn; [by apply le_val_bound|].
  unfold be_val. rewrite <- (length_rev bs). by apply le_val_bound, bytes_ok_rev.
Qed.

Lemma ne_bytes_ok en n v : bytes_ok (ne_bytes en n v).
Proof. destruct en; cbn; [|apply bytes_ok_rev]; apply le_bytes_ok. Qed.

Lemma length_be_bytes n v : length (be_bytes n v) = n.
Proof. unfold be_bytes. by rewrite length_rev, length_le_bytes. Qed.

Lemma be_bytes_ok n v : bytes_ok (be_bytes n v).
Proof. apply bytes_ok_rev, le_bytes_ok. Qed.

Lemma be_val_inj bs cs :
  bytes_ok bs -> bytes_ok cs -> length bs = length cs -> be_val bs = be_val cs -> bs = cs.
Proof.
  intros Hb Hc Hl Hv. rewrite <- (rev_involutive bs), <- (rev_involutive cs). f_equal.
  unfold be_val in Hv.
  rewrite <- (le_bytes_val (rev bs)), <- (le_bytes_val (rev cs)) by by apply bytes_ok_rev.
  rewrite !length_rev. congruence.
Qed.

Lemma ne_bytes_val en bs : bytes_ok bs -> ne_bytes en (length bs) (ne_val en bs) = bs.
Proof.
  intros H. destruct en; cbn; [by apply le_bytes_val|].
  unfold be_bytes, be_val. rewrite <- (length_rev bs), le_bytes_val.
  - apply rev_involutive.
  - by apply bytes_ok_rev.
Qed.

Lemma be_val_be_bytes n v : 0 <= v < 256 ^ Z.of_nat n -> be_val (be_bytes n v) = v.
Proof. intros H. apply (ne_val_bytes BigEndian n v H). Qed.

Lemma be_bytes_be_val bs : bytes_ok bs -> be_bytes (length bs) (be_val bs) = bs.
Proof. apply (ne_bytes_val BigEndian bs). Qed.

Lemma be_val_bound bs : bytes_ok bs -> 0 <= be_val bs < 256 ^ blen bs.
Proof. apply (ne_val_bound BigEndian bs). Qed.

Lemma of_to_twos w v :
  0 < w -> - 2 ^ (w - 1) <= v < 2 ^ (w - 1) -> of_twos w (to_twos w v) = v.
Proof.
  intros Hw Hv. unfold of_twos, to_twos.
  assert (2 ^ w = 2 * 2 ^ (w - 1)) as E.
  { rewrite <- Z.pow_succ_r by lia. f_equal; lia. }
  destruct (Z.le_gt_cases 0 v).
  - rewrite Z.mod_small by lia. destruct (Z.ltb_spec v (2 ^ (w - 1))); lia.
  - rewrite <- (Z.mod_add v 1 (2 ^ w)) by lia.
    rewrite Z.mod_small by lia. destruct (Z.ltb_spec (v + 1 * 2 ^ w) (2 ^ (w - 1))); lia.
Qed.

Lemma of_twos_bound w u :
  0 < w -> 0 <= u < 2 ^ w -> - 2 ^ (w - 1) <= of_twos w u < 2 ^ (w - 1).
Proof.
  intros Hw Hu. unfold of_twos.
  assert (2 ^ w = 2 * 2 ^ (w - 1)) as E.
  { rewrite <- Z.pow_succ_r by lia. f_equal; lia. }
  destruct (Z.ltb_spec u (2 ^ (w - 1))); lia.
Qed.

(** ** Slices *)

(** [buf.get(s..e)]. *)
Definition get_range (buf : bytes) (s e : Z) : option bytes :=
  if (0 <=? s) && (s <=? e) && (e <=? blen buf)
  then Some (take (Z.to_nat (e - s)) (drop (Z.to_nat s) buf))
  else None.

(** [buf.get(s..)]. *)
Definition get_from (buf : bytes) (s : Z) : option bytes := get_range buf s (blen buf).

Lemma get_range_app pre bs suf :
  get_range (pre ++ bs ++ suf) (blen pre) (blen pre + blen bs) = Some bs.
Proof.
  unfold get_range. rewrite !blen_app.
  rewrite !(proj2 (Z.leb_le _ _)) by lia. cbn.
  rewrite drop_app_exact by lia. by rewrite take_app_exact by lia.
Qed.

(** [get_range_app] with the split and the offsets as equations. *)
Lemma get_range_eq buf pre bs suf s e :
  buf = pre ++ bs ++ suf -> s = blen pre -> e = s + blen bs -> get_range buf s e = Some bs.
Proof. intros -> -> ->. apply get_range_app. Qed.

Lemma get_from_eq buf pre suf s : buf = pre ++ suf -> s = blen pre -> get_from buf s = Some suf.
Proof.
  intros -> ->. apply (get_range_eq _ pre suf []); [by rewrite app_nil_r|done|].
  by rewrite blen_app.
Qed.

Lemma get_range_Some buf s e bs :
  get_range buf s e = Some bs ->
  0 <= s <= e /\ e <= blen buf /\ blen bs = e - s /\ exists pre suf,
    buf = pre ++ bs ++ suf /\ blen pre = s.
Proof.
  unfold get_range. case_match; intros [=<-]. zbool.
  rewrite length_take, length_drop. repeat split; try lia.
  exists (take (Z.to_nat s) buf), (drop (Z.to_nat (e - s)) (drop (Z.to_nat s) buf)).
  rewrite !take_drop, length_take. split; [done | lia].
Qed.

Lemma get_range_extend buf s e bs suf :
  get_range buf s e = Some bs -> get_range (buf ++ suf) s e = Some bs.
Proof.
  intros (Hs & He & Hl & pre & suf' & -> & Hp)%get_range_Some.
  subst s. replace e with (blen pre + blen bs) by lia.
  rewrite <- !app_assoc. apply get_range_app.
Qed.

Lemma get_range_ok buf s e bs :
  bytes_ok buf -> get_range buf s e = Some bs -> bytes_ok bs.
Proof.
  intros Hok (_ & _ & _ & pre & suf & -> & _)%get_range_Some.
  by apply Forall_app in Hok as [_ [? _]%Forall_app].
Qed.

(** ** UTF-8 *)

Definition cont_byte (b : Z) : bool := (128 <=? b) && (b <=? 191).

(** The second byte a three- or four-byte lead admits (no overlong forms, no
    surrogates, nothing above U+10FFFF). *)
Definition second_ok3 (b0 b1 : Z) : bool :=
  if b0 =? 224 then (160 <=? b1) && (b1 <=? 191)
  else if b0 =? 237 then (128 <=? b1) && (b1 <=? 159)
  else cont_byte b1.
Definition second_ok4 (b0 b1 : Z) : bool :=
  if b0 =? 240 then (144 <=? b1) && (b1 <=? 191)
  else if b0 =? 244 then (128 <=? b1) && (b1 <=? 143)
  else cont_byte b1.

(** The sequence length a lead byte announces; 0 for a byte that is no lead. *)
Definition utf8_width (b : Z) : Z :=
  if b <=? 127 then 1
  else if (194 <=? b) && (b <=? 223) then 2
  else if (224 <=? b) && (b <=? 239) then 3
  else if (240 <=? b) && (b <=? 244) then 4
  else 0.

(** Whether [core::str::from_utf8] accepts the bytes. *)
Fixpoint utf8_ok (bs : bytes) : bool :=
  match bs with
  | [] => true
  | b0 :: t0 =>
      let w := utf8_width b0 in
      if w =? 1 then utf8_ok t0
      else match t0 with
      | [] => false
      | b1 :: t1 =>
          if w =? 2 then cont_byte b1 && utf8_ok t1
          else match t1 with
          | [] => false
          | b2 :: t2 =>
              if w =? 3 then second_ok3 b0 b1 && cont_byte b2 && utf8_ok t2
              else match t2 with
              | [] => false
              | b3 :: t3 =>
                  if w =? 4
                  then second_ok4 b0 b1 && cont_byte b2 && cont_byte b3 && utf8_ok t3
                  else false
              end
          end
      end
  end.

(** [String::from_utf8] / [core::str::from_utf8]. *)
Definition from_utf8 (bs : bytes) : option bytes :=
  if utf8_ok bs then Some bs else None.

(** U+FFFD, the replacement character. *)
Definition replacement : bytes := [239; 191; 189].

(** [to_string_lossy]: the identity on valid UTF-8; each maximal ill-formed
    subsequence becomes one replacement character. *)
Fixpoint to_string_lossy (bs : bytes) : bytes :=
  match bs with
  | [] => []
  | b0 :: t0 =>
      let w := utf8_width b0 in
      if w =? 1 then b0 :: to_string_lossy t0
      else if w =? 0 then replacement ++ to_string_lossy t0
      else match t0 with
      | [] => replacement
      | b1 :: t1 =>
          if w =? 2 then
            if cont_byte b1 then b0 :: b1 :: to_string_lossy t1
            else replacement ++ to_string_lossy t0
          else if negb (if w =? 3 then second_ok3 b0 b1 else second_ok4 b0 b1)
          then replacement ++ to_string_lossy t0
          else match t1 with
          | [] => replacement
          | b2 :: t2 =>
              if negb (cont_byte b2) then replacement ++ to_string_lossy t1
              else if w =? 3 then b0 :: b1 :: b2 :: to_string_lossy t2
              else match t2 with
              | [] => replacement
              | b3 :: t3 =>
                  if cont_byte b3 then b0 :: b1 :: b2 :: b3 :: to_string_lossy t3
                  else replacement ++ to_string_lossy t2
              end
          end
      end
  end.

Lemma utf8_width_cases b :
  utf8_width b = 0 \/ utf8_width b = 1 \/ utf8_width b = 2 \/ utf8_width b = 3 \/
  utf8_width b = 4.
Proof. unfold utf8_width. repeat case_match; auto 10. Qed.

(** Strong induction on the length, used where a character spans several bytes. *)
Lemma bytes_len_ind (P : bytes -> Prop) :
  (forall bs, (forall k, (length k < length bs)%nat -> P k) -> P bs) -> forall bs, P bs.
Proof.
  intros H bs. remember (length bs) as n eqn:E. revert bs E.
  induction n as [n IH] using lt_wf_ind; intros bs ->. apply H; intros k Hk. by eapply IH.
Qed.

Lemma to_string_lossy_id bs : utf8_ok bs = true -> to_string_lossy bs = bs.
Proof.
  induction bs as [bs IH] using bytes_len_ind; intros Hv.
  destruct bs as [|b0 t0]; [done|]. cbn in Hv |- *.
  assert (forall b t, (length t < length (b0 :: t0))%nat -> utf8_ok t = true ->
    b :: to_string_lossy t = b :: t) as IH' by (intros; f_equal; auto).
  destruct (utf8_width_cases b0) as [E|[E|[E|[E|E]]]]; rewrite E in *; cbn in Hv |- *.
  - by destruct t0 as [|? [|? [|? ?]]].
  - by apply IH'; [cbn; lia|].
  - destruct t0 as [|b1 t1]; [done|]. apply andb_true_iff in Hv as [-> Hv].
    f_equal. by apply IH'; [cbn; lia|].
  - destruct t0 as [|b1 [|b2 t2]]; [done..|].
    apply andb_true_iff in Hv as [[-> ->]%andb_true_iff Hv]. cbn.
    do 2 f_equal. by apply IH'; [cbn; lia|].
  - destruct t0 as [|b1 [|b2 [|b3 t3]]]; [done..|].
    apply andb_true_iff in Hv as [[[-> ->]%andb_true_iff ->]%andb_true_iff Hv]. cbn.
    do 3 f_equal. by apply IH'; [cbn; lia|].
Qed.

Lemma utf8_ok_ascii bs : Forall (fun b => 0 <= b <= 127) bs -> utf8_ok bs = true.
Proof.
  induction 1 as [|b bs Hb _ IH]; [done|]. cbn. unfold utf8_width.
  by rewrite (proj2 (Z.leb_le b 127)) by lia.
Qed.

Lemma from_utf8_Some bs s : from_utf8 bs = Some s <-> s = bs /\ utf8_ok bs = true.
Proof. unfold from_utf8. destruct (utf8_ok bs); split; intros; destruct_and?; simplify_eq; done. Qed.

(** A boolean fact about a byte, checked on all 256 of them. *)
Lemma byte_forall (P : Z -> bool) :
  forallb P (map Z.of_nat (seq 0 256)) = true -> forall b, byte_ok b -> P b = true.
Proof.
  intros H b Hb. rewrite forallb_forall in H. apply H. unfold byte_ok in Hb.
  apply in_map_iff. exists (Z.to_nat b). split; [lia|]. apply in_seq. lia.
Qed.

Lemma be_val_cons b bs : be_val (b :: bs) = b * 256 ^ blen bs + be_val bs.
Proof.
  unfold be_val. cbn [rev]. rewrite <- (length_rev bs). generalize (rev bs) as l.
  induction l as [|x l IH]; cbn -[Z.pow Z.of_nat]; [lia|].
  rewrite IH, Nat2Z.inj_succ, Z.pow_succ_r by lia. lia.
Qed.

Global Arguments le_bytes : simpl never.
Global Arguments le_val : simpl never.
Global Arguments to_twos : simpl never.
Global Arguments of_twos : simpl never.
