(* ===== verification/Str.v ===== *)
(** The operations of [str] that the policy code uses, on byte lists.

    A Rust [str] is the list of its UTF-8 bytes.  [split], [rsplit_once],
    [strip_prefix], [strip_suffix], [contains] and [trim_end_matches] are used by
    the code with ASCII separators only, where byte and character operations
    agree; [trim] and [split_whitespace] recognise every character of
    [char::is_whitespace] by its encoding.  [parse_uint] is [str::parse] at an
    unsigned type: an optional [+], then digits, within the maximum. *)

From S2P Require Import Prelude Bytes.

Definition is_nil {A} (l : list A) : bool := match l with [] => true | _ => false end.
Definition is_none {A} (o : option A) : bool := match o with None => true | _ => false end.

(** The first [Some] of a chain of [or_else]. *)
Definition or_else {A} (a b : option A) : option A := match a with Some _ => a | None => b end.

(** ** Prefixes and suffixes *)

Fixpoint strip_prefix (p s : bytes) : option bytes :=
  match p, s with
  | [], s => Some s
  | a :: p, b :: s => if a =? b then strip_prefix p s else None
  | _ :: _, [] => None
  end.
Definition starts_with (p s : bytes) : bool := negb (is_none (strip_prefix p s)).

(** [s.strip_suffix(p)]. *)
Definition strip_suffix (p s : bytes) : option bytes :=
  if (blen p <=? blen s) && bool_decide (drop (length s - length p) s = p)
  then Some (take (length s - length p) s) else None.
Definition ends_with (p s : bytes) : bool := negb (is_none (strip_suffix p s)).

(** [trim_start_matches] and [trim_end_matches] on a byte test. *)
Fixpoint trim_start_matches (c : Z -> bool) (s : bytes) : bytes :=
  match s with b :: t => if c b then trim_start_matches c t else s | [] => [] end.
Definition trim_end_matches (c : Z -> bool) (s : bytes) : bytes :=
  rev (trim_start_matches c (rev s)).

(** ** Splitting *)

(** [split(c)]: the pieces between separators, at least one. *)
Fixpoint split_on (c : Z) (s : bytes) : list bytes :=
  match s with
  | [] => [[]]
  | b :: t =>
      if b =? c then [] :: split_on c t
      else match split_on c t with
           | p :: ps => (b :: p) :: ps
           | [] => [[b]]
           end
  end.

(** [join] on the separator; [""] for no pieces. *)
Fixpoint join_with (c : Z) (ps : list bytes) : bytes :=
  match ps with
  | [] => []
  | [p] => p
  | p :: ps => p ++ c :: join_with c ps
  end.

(** [split_once(c)]: around the first [c]. *)
Fixpoint split_once (c : Z) (s : bytes) : option (bytes * bytes) :=
  match s with
  | [] => None
  | b :: t =>
      if b =? c then Some ([], t)
      else match split_once c t with Some (l, r) => Some (b :: l, r) | None => None end
  end.

(** [rsplit_once(c)]: around the last [c]. *)
Fixpoint rsplit_once (c : Z) (s : bytes) : option (bytes * bytes) :=
  match s with
  | [] => None
  | b :: t =>
      match rsplit_once c t with
      | Some (l, r) => Some (b :: l, r)
      | None => if b =? c then Some ([], t) else None
      end
  end.

(** [contains(c)] and [matches(c).count()]. *)
Definition has_byte (c : Z) (s : bytes) : bool := existsb (Z.eqb c) s.
Definition count_byte (c : Z) (s : bytes) : nat := length (List.filter (Z.eqb c) s).

(** ** White space *)

Definition space1 (a : Z) : bool := (a =? 32) || ((9 <=? a) && (a <=? 13)).
Definition space2 (a b : Z) : bool := (a =? 194) && ((b =? 133) || (b =? 160)).
Definition space3 (a b c : Z) : bool :=
  ((a =? 225) && (b =? 154) && (c =? 128)) ||
  ((a =? 226) && (b =? 128) &&
    (((128 <=? c) && (c <=? 138)) || (c =? 168) || (c =? 169) || (c =? 175))) ||
  ((a =? 226) && (b =? 129) && (c =? 159)) ||
  ((a =? 227) && (b =? 128) && (c =? 128)).

(** [trim_start]; [sp2] and [sp3] recognise the encodings in reading order. *)
Fixpoint trim_front (sp2 : Z -> Z -> bool) (sp3 : Z -> Z -> Z -> bool) (s : bytes) : bytes :=
  match s with
  | [] => []
  | a :: t =>
      if space1 a then trim_front sp2 sp3 t
      else match t with
      | b :: t1 =>
          if sp2 a b then trim_front sp2 sp3 t1
          else match t1 with
          | c :: t2 => if sp3 a b c then trim_front sp2 sp3 t2 else s
          | [] => s
          end
      | [] => s
      end
  end.
Definition trim (s : bytes) : bytes :=
  rev (trim_front (fun b a => space2 a b) (fun c b a => space3 a b c)
         (rev (trim_front space2 space3 s))).

(** [split_whitespace]: the maximal runs without white space; [cur] is the run
    being read, reversed. *)
Definition flush (cur : bytes) (rest : list bytes) : list bytes :=
  match cur with [] => rest | _ => rev cur :: rest end.
Fixpoint split_ws (cur s : bytes) : list bytes :=
  match s with
  | [] => flush cur []
  | a :: t =>
      if space1 a then flush cur (split_ws [] t)
      else match t with
      | b :: t1 =>
          if space2 a b then flush cur (split_ws [] t1)
          else match t1 with
          | c :: t2 => if space3 a b c then flush cur (split_ws [] t2) else split_ws (a :: cur) t
          | [] => split_ws (a :: cur) t
          end
      | [] => split_ws (a :: cur) t
      end
  end.
Definition split_whitespace (s : bytes) : list bytes := split_ws [] s.

(** ** Decimal numbers *)

Definition is_digit (b : Z) : bool := (48 <=? b) && (b <=? 57).

Fixpoint parse_digits (mx acc : Z) (s : bytes) : option Z :=
  match s with
  | [] => Some acc
  | b :: t =>
      if is_digit b then
        let acc := 10 * acc + (b - 48) in
        if acc <=? mx then parse_digits mx acc t else None
      else None
  end.

(** [str::parse] at the unsigned type with maximum [mx]. *)
Definition parse_uint (mx : Z) (s : bytes) : option Z :=
  match s with
  | [] => None
  | b :: t => if b =? 43 then match t with [] => None | _ => parse_digits mx 0 t end
              else parse_digits mx 0 s
  end.

(** Printing: decimal digits, most significant first; 20 are enough for 64 bits. *)
Fixpoint dec_digits (fuel : nat) (n : Z) : bytes :=
  match fuel with
  | O => []
  | S fuel => (if n <? 10 then [] else dec_digits fuel (n / 10)) ++ [48 + n mod 10]
  end.
Definition dec (n : Z) : bytes := dec_digits 20 n.

Definition SLASH : Z := 47.
Definition STAR : Z := 42.
Definition DOT : Z := 46.
Definition COLON : Z := 58.

(** * Lemmas *)

Lemma strip_prefix_Some p s r : strip_prefix p s = Some r <-> s = p ++ r.
Proof.
  revert s; induction p as [|a p IH]; intros [|b s]; cbn; split; try done; try congruence.
  - destruct (Z.eqb_spec a b) as [->|]; [|done]. intros ->%IH. done.
  - intros [= -> ->]. rewrite Z.eqb_refl. by apply IH.
Qed.

Lemma starts_with_true p s : starts_with p s = true <-> exists r, s = p ++ r.
Proof.
  unfold starts_with. destruct (strip_prefix p s) as [r|] eqn:E; cbn.
  - apply strip_prefix_Some in E. split; [by exists r|done].
  - split; [done|]. intros [r Hr]. apply strip_prefix_Some in Hr. congruence.
Qed.

Lemma strip_suffix_Some p s r : strip_suffix p s = Some r <-> s = r ++ p.
Proof.
  unfold strip_suffix. destruct (Z.leb_spec (blen p) (blen s)) as [Hl|Hl]; cbn.
  - case_bool_decide as E.
    + split; [intros [= <-]|intros ->].
      * rewrite <- (take_drop (length s - length p) s) at 1. by rewrite E.
      * rewrite length_app. replace (length r + length p - length p)%nat with (length r) by lia.
        by rewrite take_app_length.
    + split; [done|]. intros ->. exfalso. apply E. rewrite length_app.
      replace (length r + length p - length p)%nat with (length r) by lia.
      apply drop_app_length.
  - split; [done|]. intros ->. rewrite blen_app in Hl. lia.
Qed.

Lemma trim_start_matches_app c s : exists p,
  s = p ++ trim_start_matches c s /\ Forall (fun b => c b = true) p.
Proof.
  induction s as [|b s [p [E H]]]; cbn; [by exists []|].
  destruct (c b) eqn:Ec; [|by exists []]. exists (b :: p). split; [by rewrite E at 1|by constructor].
Qed.

Lemma trim_end_matches_app c s : exists p,
  s = trim_end_matches c s ++ p /\ Forall (fun b => c b = true) p.
Proof.
  destruct (trim_start_matches_app c (rev s)) as [p [E H]]. exists (rev p). split.
  - unfold trim_end_matches. rewrite <- rev_app_distr, <- E. by rewrite rev_involutive.
  - by apply Forall_rev.
Qed.

(** Splitting and joining are inverse. *)
Lemma split_on_not_nil c s : split_on c s <> [].
Proof. destruct s as [|b s]; cbn; [done|]. destruct (b =? c); [done|]. by destruct (split_on c s). Qed.

Lemma join_split c s : join_with c (split_on c s) = s.
Proof.
  induction s as [|b s IH]; [done|]. cbn. pose proof (split_on_not_nil c s) as Hn.
  destruct (Z.eqb_spec b c) as [->|].
  - destruct (split_on c s) as [|q qs]; [done|]. cbn [join_with app]. by f_equal.
  - destruct (split_on c s) as [|q [|q' qs]]; [done|cbn in *; by rewrite IH|].
    cbn [join_with app] in *. by rewrite IH.
Qed.

Lemma split_on_free c s : Forall (fun p => has_byte c p = false) (split_on c s).
Proof.
  induction s as [|b s IH]; cbn; [by repeat constructor|].
  destruct (Z.eqb_spec b c); [by constructor|].
  destruct (split_on c s) as [|q qs]; cbn.
  - constructor; [|done]. cbn. by rewrite (proj2 (Z.eqb_neq c b)) by done.
  - apply Forall_cons_1 in IH as [Hq Hqs]. constructor; [|done]. cbn.
    rewrite (proj2 (Z.eqb_neq c b)) by done. done.
Qed.

Lemma split_on_app c p s : has_byte c p = false -> split_on c (p ++ c :: s) = p :: split_on c s.
Proof.
  induction p as [|b p IH]; cbn; [by rewrite Z.eqb_refl|]. intros [Hb Hp]%orb_false_iff.
  rewrite Z.eqb_sym in Hb. rewrite Hb. by rewrite IH.
Qed.

Lemma split_on_single c p : has_byte c p = false -> split_on c p = [p].
Proof.
  induction p as [|b p IH]; cbn; [done|]. intros [Hb Hp]%orb_false_iff.
  rewrite Z.eqb_sym in Hb. rewrite Hb. by rewrite IH.
Qed.

Lemma split_join c ps :
  ps <> [] -> Forall (fun p => has_byte c p = false) ps -> split_on c (join_with c ps) = ps.
Proof.
  intros Hn. induction 1 as [|p ps Hp Hps IH]; [done|]. destruct ps as [|q ps].
  - cbn. by apply split_on_single.
  - change (join_with c (p :: q :: ps)) with (p ++ c :: join_with c (q :: ps)).
    rewrite split_on_app by done. by rewrite IH.
Qed.

Lemma has_byte_app c p q : has_byte c (p ++ q) = has_byte c p || has_byte c q.
Proof. apply existsb_app. Qed.

Lemma split_on_app_last c p q :
  split_on c (p ++ c :: q) = split_on c p ++ split_on c q.
Proof.
  induction p as [|b p IH]; cbn; [by rewrite Z.eqb_refl|]. destruct (Z.eqb_spec b c) as [->|].
  - by rewrite IH.
  - rewrite IH. pose proof (split_on_not_nil c p). by destruct (split_on c p).
Qed.

Lemma rsplit_once_Some c s l r :
  rsplit_once c s = Some (l, r) <-> s = l ++ c :: r /\ has_byte c r = false.
Proof.
  revert l r. induction s as [|b s IH]; intros l r; cbn.
  - split; [done|]. intros [E _]. by destruct l.
  - destruct (rsplit_once c s) as [[l' r']|] eqn:E.
    + pose proof (proj1 (IH l' r') eq_refl) as [-> Hr']. split.
      * intros [= <- <-]. done.
      * intros [Eq Hr]. destruct l as [|b' l]; cbn in Eq.
        -- injection Eq as -> <-. rewrite has_byte_app in Hr. cbn in Hr.
           rewrite Z.eqb_refl, orb_true_r in Hr. done.
        -- injection Eq as -> Eq. specialize (proj2 (IH l r)). intros H. rewrite Eq in H.
           specialize (H (conj eq_refl Hr)). by simplify_eq.
    + destruct (Z.eqb_spec b c) as [->|Hb]; split.
      * intros [= <- <-]. split; [done|]. clear -E. revert E. induction s as [|b s IH]; [done|].
        cbn. destruct (rsplit_once c s) as [[? ?]|]; [done|].
        destruct (Z.eqb_spec b c); [done|]. intros _. rewrite (proj2 (Z.eqb_neq c b)) by done.
        by apply IH.
      * intros [Eq Hr]. destruct l as [|b' l]; cbn in Eq; [by simplify_eq|].
        injection Eq as <- ->. by specialize (proj2 (IH l r) (conj eq_refl Hr)).
      * done.
      * intros [Eq Hr]. destruct l as [|b' l]; cbn in Eq; [congruence|].
        injection Eq as <- ->. by specialize (proj2 (IH l r) (conj eq_refl Hr)).
Qed.

Lemma parse_digits_bound mx acc s v :
  0 <= acc <= mx -> parse_digits mx acc s = Some v -> 0 <= v <= mx.
Proof.
  revert acc; induction s as [|b s IH]; intros acc Ha; cbn; [by intros [= <-]|].
  destruct (is_digit b) eqn:Ed; [|done]. unfold is_digit in Ed. zbool.
  destruct (Z.leb_spec (10 * acc + (b - 48)) mx); [|done]. apply IH. lia.
Qed.

Lemma parse_uint_bound mx s v : 0 <= mx -> parse_uint mx s = Some v -> 0 <= v <= mx.
Proof.
  intros Hm. unfold parse_uint. destruct s as [|b t]; [done|].
  destruct (b =? 43); [destruct t; [done|]|]; apply parse_digits_bound; lia.
Qed.

Lemma parse_digits_app mx acc s t :
  parse_digits mx acc (s ++ t) =
    match parse_digits mx acc s with Some v => parse_digits mx v t | None => None end.
Proof.
  revert acc; induction s as [|b s IH]; intros acc; cbn; [done|].
  destruct (is_digit b); [|done]. destruct (_ <=? mx); [apply IH|done].
Qed.

Lemma parse_dec_digits fuel mx n :
  0 <= n <= mx -> n < 10 ^ Z.of_nat fuel -> (0 < fuel)%nat ->
  parse_digits mx 0 (dec_digits fuel n) = Some n.
Proof.
  revert n; induction fuel as [|fuel IH]; intros n Hn Hf Hp; [lia|]. cbn [dec_digits].
  rewrite Nat2Z.inj_succ, Z.pow_succ_r in Hf by lia.
  pose proof (Z.div_mod n 10) as Hd. pose proof (Z.mod_pos_bound n 10) as Hm.
  assert (forall a, a = n / 10 -> parse_digits mx a [48 + n mod 10] = Some n) as Hl.
  { intros a ->. cbn. unfold is_digit. rewrite !(proj2 (Z.leb_le _ _)) by lia. cbn. f_equal. lia. }
  destruct (Z.ltb_spec n 10).
  - rewrite app_nil_l. apply Hl. symmetry. apply Z.div_small. lia.
  - rewrite parse_digits_app. destruct fuel as [|fuel]; [lia|]. rewrite IH; [by apply Hl| | |lia].
    + pose proof (Z.div_pos n 10). pose proof (Z.div_le_upper_bound n 10 mx). lia.
    + apply Z.div_lt_upper_bound; lia.
Qed.

Lemma dec_digits_ascii fuel n : 0 <= n -> Forall (fun b => is_digit b = true) (dec_digits fuel n).
Proof.
  revert n; induction fuel as [|fuel IH]; intros n Hn; cbn; [done|].
  pose proof (Z.mod_pos_bound n 10). apply Forall_app. split.
  - destruct (n <? 10); [done|]. apply IH. apply Z.div_pos; lia.
  - constructor; [|done]. unfold is_digit. rewrite !(proj2 (Z.leb_le _ _)) by lia. done.
Qed.

(** Printing and parsing a machine integer. *)
Lemma parse_uint_dec mx n : 0 <= n <= mx -> mx <= u64_max -> parse_uint mx (dec n) = Some n.
Proof.
  intros Hn Hm. assert (parse_digits mx 0 (dec n) = Some n) as H.
  { apply parse_dec_digits; [lia| |lia]. apply (Z.le_lt_trans _ u64_max); [lia|done]. }
  pose proof (dec_digits_ascii 20 n ltac:(lia)) as Ha. fold (dec n) in Ha.
  unfold parse_uint. destruct (dec n) as [|b t] eqn:E; [by apply app_eq_nil in E as [_ ?]|].
  apply Forall_cons_1 in Ha as [Hb _].
  destruct (Z.eqb_spec b 43) as [->|]; [done|]. done.
Qed.
