(* ===== verification/Cursor.v ===== *)
(** The bounds-checked cursor the wire decoders share.

    [kennel-lib-spawn/src/wire.rs], [kennel-lib-control/src/control.rs] and
    [kennel-lib-binder/src/proto.rs] each define a private [Reader] over a byte
    slice with the same [take]; they differ in the errors it reports.  This file
    models the cursor once, with the errors as arguments, as a state-and-error
    monad, and gives the three notions the codec theorems are stated with:

    - [decodes p bs v]: [p] reads exactly [bs], wherever it stands in a buffer,
      and returns [v];
    - [yields p P]: whatever [p] returns satisfies [P] and stays in the buffer;
    - [stable p]: appending bytes to the buffer does not change a success.

    [WireCodec] is the contract an encoder and a decoder of one type keep; the
    codecs of larger types are proved against the codecs of their parts. *)

From S2P Require Import Prelude Bytes.

Record reader : Type := Reader { rd_buf : bytes; rd_pos : Z }.

Definition parser (E A : Type) : Type := reader -> result E (A * reader).

Global Instance parser_ret E : MRet (parser E) := fun A a r => Ok (a, r).
Global Instance parser_bind E : MBind (parser E) :=
  fun A B f p r => match p r with Ok (a, r') => f a r' | Err e => Err e end.

Definition p_fail {E A} (e : E) : parser E A := fun _ => Err e.

(** [opt.ok_or(e)?] inside a decoder. *)
Definition p_ok_or {E A} (e : E) (o : option A) : parser E A :=
  match o with Some a => mret a | None => p_fail e end.

(** [Reader::take]: [ovf] is the error of an overflowing end offset, [short]
    that of a buffer that ends before it. *)
Definition cursor_take {E} (ovf short : E) (n : Z) : parser E bytes := fun r =>
  let e := rd_pos r + n in
  if usize_max <? e then Err ovf
  else match get_range (rd_buf r) (rd_pos r) e with
       | Some s => Ok (s, Reader (rd_buf r) e)
       | None => Err short
       end.

(** [for _ in 0..n { v.push(p(r)?) }]. *)
Fixpoint p_vec {E A} (n : nat) (p : parser E A) : parser E (list A) :=
  match n with
  | O => mret []
  | S n => x ← p; xs ← p_vec n p; mret (x :: xs)
  end.

(** [if r.bool()? { Some(p(r)?) } else { None }]. *)
Definition p_opt {E A} (flag : parser E bool) (p : parser E A) : parser E (option A) :=
  b ← flag; if (b : bool) then (x ← p; mret (Some x)) else mret None.

(** ** Specifications *)

Definition decodes {E A} (p : parser E A) (bs : bytes) (v : A) : Prop :=
  forall pre suf,
    blen (pre ++ bs ++ suf) <= usize_max ->
    p (Reader (pre ++ bs ++ suf) (blen pre)) =
      Ok (v, Reader (pre ++ bs ++ suf) (blen pre + blen bs)).

Definition reader_ok (r : reader) : Prop :=
  bytes_ok (rd_buf r) /\ 0 <= rd_pos r <= blen (rd_buf r).

Definition yields {E A} (p : parser E A) (P : A -> Prop) : Prop :=
  forall r v r', reader_ok r -> p r = Ok (v, r') ->
    P v /\ reader_ok r' /\ rd_buf r' = rd_buf r /\ rd_pos r <= rd_pos r'.

Definition extend (suf : bytes) (r : reader) : reader :=
  Reader (rd_buf r ++ suf) (rd_pos r).

Definition stable {E A} (p : parser E A) : Prop :=
  forall suf r v r', p r = Ok (v, r') -> p (extend suf r) = Ok (v, extend suf r').

Class WireCodec {E A} (put : A -> bytes) (get : parser E A) (ok : A -> Prop) : Prop := {
  codec_decodes : forall v, ok v -> decodes get (put v) v;
  codec_yields : yields get ok;
  codec_stable : stable get;
}.
Global Hint Mode WireCodec + + - + - : typeclass_instances.

(** ** Composition *)

Create HintDb codec discriminated.

Section combinators.
Context {E : Type}.
Implicit Types (pre suf : bytes).

Lemma decodes_ret {A} (v : A) : decodes (E := E) (mret v) [] v.
Proof. intros pre suf _. cbn. by rewrite Z.add_0_r. Qed.

Lemma decodes_bind {A B} (p : parser E A) (f : A -> parser E B) b1 b2 v w :
  decodes p b1 v -> decodes (f v) b2 w -> decodes (p ≫= f) (b1 ++ b2) w.
Proof.
  intros H1 H2 pre suf Hlen. unfold mbind, parser_bind.
  rewrite <- app_assoc in *. rewrite H1 by done.
  specialize (H2 (pre ++ b1) suf).
  rewrite <- !app_assoc, (blen_app pre b1) in H2. rewrite H2 by done.
  rewrite (blen_app b1 b2). do 3 f_equal. lia.
Qed.

(** The last field of a record: nothing follows its bytes. *)
Lemma decodes_last {A B} (p : parser E A) (g : A -> B) bs v :
  decodes p bs v -> decodes (p ≫= fun x => mret (g x)) bs (g v).
Proof.
  intros H pre suf Hlen. unfold mbind, parser_bind. by rewrite H.
Qed.

Lemma decodes_last_eq {A B} (p : parser E A) (g : A -> B) bs v w :
  decodes p bs v -> g v = w -> decodes (p ≫= fun x => mret (g x)) bs w.
Proof. intros H <-. by apply decodes_last. Qed.

Lemma decodes_ok_or {A B} (e : E) (o : option A) (f : A -> parser E B) bs v w :
  o = Some v -> decodes (f v) bs w -> decodes (p_ok_or e o ≫= f) bs w.
Proof. by intros ->. Qed.

Lemma decodes_take (ovf short : E) bs : decodes (cursor_take ovf short (blen bs)) bs bs.
Proof.
  intros pre suf Hlen. unfold cursor_take; cbn. rewrite !blen_app in Hlen.
  rewrite (proj2 (Z.ltb_ge _ _)) by lia. by rewrite get_range_app.
Qed.

(** A fixed-width field: [n] bytes, then a function of them. *)
Lemma decodes_take_map {A} (ovf short : E) n (g : bytes -> A) bs v :
  blen bs = n -> g bs = v ->
  decodes (s ← cursor_take ovf short n; mret (g s)) bs v.
Proof. intros <- <-. apply (decodes_last _ g), decodes_take. Qed.

(** A one-byte field. *)
Lemma decodes_take_head (ovf short : E) b :
  decodes (s ← cursor_take ovf short 1; p_ok_or short (head s)) [b] b.
Proof.
  rewrite <- (app_nil_r [b]). eapply decodes_bind; [apply (decodes_take _ _ [b])|].
  apply decodes_ret.
Qed.

Lemma decodes_vec {A} (p : parser E A) (enc : A -> bytes) (l : list A) :
  Forall (fun x => decodes p (enc x) x) l ->
  decodes (p_vec (length l) p) (flat_map enc l) l.
Proof.
  induction 1 as [|x l Hx _ IH]; cbn; [apply decodes_ret|].
  eapply decodes_bind; [done|]. by apply (decodes_last _ (fun xs => x :: xs)).
Qed.

Lemma decodes_opt {A} (flag : parser E bool) (bt bf : bytes) (p : parser E A) enc (o : option A) :
  decodes flag bt true -> decodes flag bf false ->
  (forall x, o = Some x -> decodes p (enc x) x) ->
  decodes (p_opt flag p) (match o with None => bf | Some x => bt ++ enc x end) o.
Proof.
  intros Ht Hf Hx. destruct o as [x|]; unfold p_opt.
  - eapply decodes_bind; [done|]. by apply (decodes_last _ Some), Hx.
  - rewrite <- (app_nil_r bf). eapply decodes_bind; [done|]. apply decodes_ret.
Qed.

Lemma yields_weaken {A} (p : parser E A) (P Q : A -> Prop) :
  yields p P -> (forall v, P v -> Q v) -> yields p Q.
Proof. intros H HPQ r v r' Hr Hp. destruct (H r v r' Hr Hp). auto. Qed.

Lemma yields_ret {A} (v : A) (P : A -> Prop) : P v -> yields (E := E) (mret v) P.
Proof. intros Hv r w r' Hr [= <- <-]. split_and!; try done; apply Hr. Qed.

Lemma yields_fail {A} (e : E) (P : A -> Prop) : yields (p_fail e) P.
Proof. by intros r v r' _ [=]. Qed.

Lemma yields_bind {A B} (p : parser E A) (f : A -> parser E B) P Q :
  yields p P -> (forall v, P v -> yields (f v) Q) -> yields (p ≫= f) Q.
Proof.
  intros Hp Hf r w r' Hr. unfold mbind, parser_bind.
  destruct (p r) as [[v r1]|] eqn:E1; [|done]. intros H2.
  destruct (Hp _ _ _ Hr E1) as (Hv & Hr1 & Hb1 & Hm1).
  destruct (Hf v Hv _ _ _ Hr1 H2) as (Hw & Hr' & Hb2 & Hm2).
  split_and!; [done..|congruence|lia].
Qed.

Lemma yields_ok_or {A} (e : E) (o : option A) (P : A -> Prop) :
  (forall v, o = Some v -> P v) -> yields (p_ok_or e o) P.
Proof. intros H. destruct o; cbn; [apply yields_ret; auto | apply yields_fail]. Qed.

Lemma yields_take (ovf short : E) n :
  yields (cursor_take ovf short n) (fun bs => bytes_ok bs /\ blen bs = n).
Proof.
  intros [buf pos] bs r' [Hok Hpos] H. unfold cursor_take in H; cbn in *.
  case_match; [done|]. destruct (get_range buf pos (pos + n)) eqn:G; simplify_eq/=.
  pose proof (get_range_ok _ _ _ _ Hok G).
  apply get_range_Some in G as (? & ? & ? & _).
  unfold reader_ok; cbn. split_and!; try done; lia.
Qed.

Lemma yields_take_map {A} (ovf short : E) n (g : bytes -> A) (P : A -> Prop) :
  (forall bs, bytes_ok bs -> blen bs = n -> P (g bs)) ->
  yields (s ← cursor_take ovf short n; mret (g s)) P.
Proof. intros H. eapply yields_bind; [apply yields_take|]. intros bs [??]. apply yields_ret; auto. Qed.

Lemma yields_take_head (ovf short : E) :
  yields (s ← cursor_take ovf short 1; p_ok_or short (head s)) byte_ok.
Proof.
  eapply yields_bind; [apply yields_take|]; intros bs [Hok Hl].
  apply yields_ok_or; intros b Hb. destruct bs; [done|]. injection Hb as ->. by inversion Hok.
Qed.

Lemma yields_vec {A} n (p : parser E A) P :
  yields p P -> yields (p_vec n p) (fun l => length l = n /\ Forall P l).
Proof.
  intros Hp. induction n as [|n IH]; cbn; [by apply yields_ret|].
  eapply yields_bind; [done|]; intros x Hx.
  eapply yields_bind; [done|]; intros xs [<- Hxs]. apply yields_ret. auto.
Qed.

Lemma yields_opt {A} (flag : parser E bool) (p : parser E A) P :
  yields flag (fun _ => True) -> yields p P ->
  yields (p_opt flag p) (fun o => forall x, o = Some x -> P x).
Proof.
  intros Hf Hp. eapply yields_bind; [done|]; intros [] _.
  - eapply yields_bind; [done|]; intros x Hx. apply yields_ret. naive_solver.
  - by apply yields_ret.
Qed.

Lemma stable_ret {A} (v : A) : stable (E := E) (mret v).
Proof. by intros suf r w r' [= <- <-]. Qed.

Lemma stable_fail {A} (e : E) : stable (A := A) (p_fail e).
Proof. by intros suf r w r' [=]. Qed.

Lemma stable_bind {A B} (p : parser E A) (f : A -> parser E B) :
  stable p -> (forall v, stable (f v)) -> stable (p ≫= f).
Proof.
  intros Hp Hf suf r w r'. unfold mbind, parser_bind.
  destruct (p r) as [[v r1]|] eqn:E1; [|done]. intros H2.
  rewrite (Hp _ _ _ _ E1). by apply Hf.
Qed.

Lemma stable_ok_or {A} (e : E) (o : option A) : stable (p_ok_or e o).
Proof. destruct o; cbn; [apply stable_ret | apply stable_fail]. Qed.

Lemma stable_take (ovf short : E) n : stable (cursor_take ovf short n).
Proof.
  intros suf [buf pos] bs r'. unfold cursor_take; cbn.
  case_match; [done|]. destruct (get_range buf pos (pos + n)) eqn:G; [|done].
  rewrite (get_range_extend _ _ _ _ suf G). by intros [= <- <-].
Qed.

Lemma stable_vec {A} n (p : parser E A) : stable p -> stable (p_vec n p).
Proof.
  intros Hp. induction n; cbn; [apply stable_ret|].
  apply stable_bind; [done|]; intros x. apply stable_bind; [done|]; intros; apply stable_ret.
Qed.

Lemma stable_opt {A} (flag : parser E bool) (p : parser E A) :
  stable flag -> stable p -> stable (p_opt flag p).
Proof.
  intros Hf Hp. apply stable_bind; [done|]; intros [].
  - apply stable_bind; [done|]; intros; apply stable_ret.
  - apply stable_ret.
Qed.

(** ** Codecs of pairs, vectors and options *)

Lemma codec_vec {A} (put : A -> bytes) (get : parser E A) (ok : A -> Prop) (l : list A) :
  WireCodec put get ok -> Forall ok l ->
  decodes (p_vec (length l) get) (flat_map put l) l.
Proof.
  intros C Hl. apply decodes_vec. eapply Forall_impl; [done|].
  intros x Hx. by apply codec_decodes.
Qed.

End combinators.

#[export] Hint Resolve yields_ret yields_fail stable_ret stable_fail stable_bind stable_ok_or
  stable_take stable_vec stable_opt : codec.

(** Running a whole-buffer decoder: the parse starts at offset 0 and, where the
    code checks it, must end at the end of the buffer. *)
Definition run_exact {E A} (trailing : E) (p : parser E A) (buf : bytes) : result E A :=
  match p (Reader buf 0) with
  | Ok (v, r) => if rd_pos r =? blen buf then Ok v else Err trailing
  | Err e => Err e
  end.

Definition run_prefix {E A} (p : parser E A) (buf : bytes) : result E A :=
  match p (Reader buf 0) with Ok (v, _) => Ok v | Err e => Err e end.

Section running.
Context {E A : Type} (trailing : E) (p : parser E A).

Lemma run_exact_decodes bs v :
  decodes p bs v -> blen bs <= usize_max -> run_exact trailing p bs = Ok v.
Proof.
  intros H Hl. unfold run_exact. specialize (H [] []); cbn in H.
  rewrite app_nil_r in H. change (Z.of_nat 0) with 0 in H. rewrite H by done. cbn. by rewrite Z.eqb_refl.
Qed.

Lemma run_prefix_decodes bs suf v :
  decodes p bs v -> blen (bs ++ suf) <= usize_max -> run_prefix p (bs ++ suf) = Ok v.
Proof.
  intros H Hl. unfold run_prefix. specialize (H [] suf); cbn in H.
  change (Z.of_nat 0) with 0 in H. by rewrite H.
Qed.

Lemma run_exact_yields P buf v :
  yields p P -> bytes_ok buf -> run_exact trailing p buf = Ok v -> P v.
Proof.
  intros Hy Hok. unfold run_exact. destruct (p (Reader buf 0)) as [[w r]|] eqn:Ep; [|done].
  case_match; [|done]. intros [= <-]. eapply Hy; [|done]. split; cbn; [done|lia].
Qed.

Lemma run_prefix_yields P buf v :
  yields p P -> bytes_ok buf -> run_prefix p buf = Ok v -> P v.
Proof.
  intros Hy Hok. unfold run_prefix. destruct (p (Reader buf 0)) as [[w r]|] eqn:Ep; [|done].
  intros [= <-]. eapply Hy; [|done]. split; cbn; [done|lia].
Qed.

(** The buffers an exact decoder accepts are prefix-free: an accepted buffer
    followed by anything is refused as trailing garbage. *)
Lemma run_exact_prefix_free buf suf v :
  stable p -> suf <> [] ->
  run_exact trailing p buf = Ok v -> run_exact trailing p (buf ++ suf) = Err trailing.
Proof.
  intros Hs Hne. unfold run_exact.
  destruct (p (Reader buf 0)) as [[w r]|] eqn:Ep; [|done].
  pose proof (Hs suf _ _ _ Ep) as Ep'. unfold extend in Ep'; cbn in Ep'. rewrite Ep'; cbn.
  destruct (rd_pos r =? blen buf) eqn:El; [|done]; intros _. zbool.
  rewrite (proj2 (Z.eqb_neq _ _)); [done|].
  rewrite blen_app. destruct suf; [done|]. cbn. lia.
Qed.

End running.
