(* ===== verification/Plan.v ===== *)
(** The enforcement plan: the data [kennel-lib-spawn/src/plan.rs] defines.

    [Plan] is what [kenneld] builds from a settled policy; [Supervision] is the
    half [kennel-bin-init] pulls, [ConstructionHalf] the half the privileged
    factory parses.  The flag sets are the [bitflags!] types of
    [kennel-lib-syscall] and [kennel-lib-landlock], as their bits; a path or a
    string is the list of its bytes; a fixed-size array is a list whose length
    the well-formedness predicate fixes.

    [plan_ok], [supervision_ok] and [construction_ok] are the invariants of
    these types: machine integers in range, flag sets without unknown bits,
    strings of valid UTF-8, and every length within the bounds the decoder
    enforces. *)

From S2P Require Import Prelude Bytes.

(** ** IP addresses ([std::net::IpAddr]) *)

Inductive ip_addr : Type :=
  | V4 (octets : bytes)
  | V6 (octets : bytes).

Global Instance ip_addr_eq_dec : EqDecision ip_addr.
Proof. solve_decision. Defined.

Definition octets (a : ip_addr) : bytes :=
  match a with V4 o => o | V6 o => o end.

Definition ip_ok (a : ip_addr) : Prop :=
  bytes_ok (octets a) /\ length (octets a) = match a with V4 _ => 4%nat | V6 _ => 16%nat end.

Global Instance ip_ok_dec a : Decision (ip_ok a) := and_dec _ _.

(** ** Flag sets *)

(** [Namespaces]: MOUNT, PID, IPC, NET, USER, UTS, CGROUP at bits 0..6. *)
Definition NS_ALL : Z := 127.
(** [AccessFs]: sixteen rights at bits 0..15. *)
Definition ACCESS_FS_ALL : Z := 65535.
(** [AccessNet]: [BIND_TCP], [CONNECT_TCP]. *)
Definition ACCESS_NET_ALL : Z := 3.

(** [from_bits_truncate]: [bits & Self::all()]. *)
Definition ns_from_bits_truncate (b : Z) : Z := Z.land b NS_ALL.
Definition fs_from_bits_truncate (b : Z) : Z := Z.land b ACCESS_FS_ALL.
Definition net_from_bits_truncate (b : Z) : Z := Z.land b ACCESS_NET_ALL.

(** ** Resource limits *)

Inductive Resource : Type :=
  | RLIMIT_AS | RLIMIT_CORE | RLIMIT_CPU | RLIMIT_DATA | RLIMIT_FSIZE | RLIMIT_LOCKS
  | RLIMIT_MEMLOCK | RLIMIT_MSGQUEUE | RLIMIT_NICE | RLIMIT_NOFILE | RLIMIT_NPROC
  | RLIMIT_RTPRIO | RLIMIT_RTTIME | RLIMIT_SIGPENDING | RLIMIT_STACK
  | RLIMIT_RSS.

Global Instance Resource_eq_dec : EqDecision Resource.
Proof. solve_decision. Defined.

Definition resource_by_name (name : bytes) : option Resource :=
  if decide (name = ascii_bytes "as") then Some RLIMIT_AS
  else if decide (name = ascii_bytes "core") then Some RLIMIT_CORE
  else if decide (name = ascii_bytes "cpu") then Some RLIMIT_CPU
  else if decide (name = ascii_bytes "data") then Some RLIMIT_DATA
  else if decide (name = ascii_bytes "fsize") then Some RLIMIT_FSIZE
  else if decide (name = ascii_bytes "locks") then Some RLIMIT_LOCKS
  else if decide (name = ascii_bytes "memlock") then Some RLIMIT_MEMLOCK
  else if decide (name = ascii_bytes "msgqueue") then Some RLIMIT_MSGQUEUE
  else if decide (name = ascii_bytes "nice") then Some RLIMIT_NICE
  else if decide (name = ascii_bytes "nofile") then Some RLIMIT_NOFILE
  else if decide (name = ascii_bytes "nproc") then Some RLIMIT_NPROC
  else if decide (name = ascii_bytes "rtprio") then Some RLIMIT_RTPRIO
  else if decide (name = ascii_bytes "rttime") then Some RLIMIT_RTTIME
  else if decide (name = ascii_bytes "sigpending") then Some RLIMIT_SIGPENDING
  else if decide (name = ascii_bytes "stack") then Some RLIMIT_STACK
  else None.

Definition resource_name (r : Resource) : option bytes :=
  match r with
  | RLIMIT_AS => Some (ascii_bytes "as")
  | RLIMIT_CORE => Some (ascii_bytes "core")
  | RLIMIT_CPU => Some (ascii_bytes "cpu")
  | RLIMIT_DATA => Some (ascii_bytes "data")
  | RLIMIT_FSIZE => Some (ascii_bytes "fsize")
  | RLIMIT_LOCKS => Some (ascii_bytes "locks")
  | RLIMIT_MEMLOCK => Some (ascii_bytes "memlock")
  | RLIMIT_MSGQUEUE => Some (ascii_bytes "msgqueue")
  | RLIMIT_NICE => Some (ascii_bytes "nice")
  | RLIMIT_NOFILE => Some (ascii_bytes "nofile")
  | RLIMIT_NPROC => Some (ascii_bytes "nproc")
  | RLIMIT_RTPRIO => Some (ascii_bytes "rtprio")
  | RLIMIT_RTTIME => Some (ascii_bytes "rttime")
  | RLIMIT_SIGPENDING => Some (ascii_bytes "sigpending")
  | RLIMIT_STACK => Some (ascii_bytes "stack")
  | RLIMIT_RSS => None
  end.

Lemma resource_name_by_name r name :
  resource_name r = Some name -> resource_by_name name = Some r.
Proof. destruct r; cbn; intros [= <-]; vm_compute; done. Qed.

Lemma resource_by_name_named name r :
  resource_by_name name = Some r -> resource_name r = Some name.
Proof.
  unfold resource_by_name.
  repeat (destruct (decide _); [intros [= <-]; subst; done|]). done.
Qed.

(** ** Enumerations *)

(** [kennel_lib_syscall::seccomp::Action]. *)
Inductive Action : Type :=
  | Act_Allow | Act_Errno (e : Z) | Act_KillProcess | Act_KillThread | Act_Trap | Act_Log.

(** [kennel_lib_policy::TtlAction]. *)
Inductive TtlAction : Type := Ttl_Exit | Ttl_Warn | Ttl_Renew.

Inductive Persistence : Type := Discard | Persist.

(** ** Structures *)

Record BindMount : Type := {
  bm_source : bytes; bm_target : bytes; bm_writable : bool; bm_exclusive : bool;
  bm_redirected : bool;
}.

Record EtcOverlay : Type := { eo_source : bytes; eo_view_path : bytes }.

Record ImageRoot : Type := {
  ir_image : bytes;
  ir_persistence : Persistence;
  ir_store_upper : option (bytes * bytes);
  ir_readonly : list bytes;
  ir_writable : list bytes;
}.

Record ShimView : Type := {
  sv_shim_root : bytes;
  sv_binds : list BindMount;
  sv_dev_allow : list bytes;
  sv_tmp_size_mib : Z;
  sv_proc_hidepid : bool;
  sv_binder : bool;
  sv_mask_paths : list bytes;
  sv_mask_dir_paths : list bytes;
  sv_image : option ImageRoot;
  sv_etc_overlays : list EtcOverlay;
}.

Record AuxProcess : Type := { aux_path : bytes; aux_args : list bytes }.

(** One LPM map entry: key bytes and value bytes. *)
Definition LpmV4Entry : Type := bytes * bytes.
Definition LpmV6Entry : Type := bytes * bytes.

Record Plan : Type := {
  pl_namespaces : Z;
  pl_cgroup : bytes;
  pl_cgroup_join : bool;
  pl_view : option ShimView;
  pl_new_root : option bytes;
  pl_landlock_fs : list (bytes * Z);
  pl_landlock_net : list (Z * Z);
  pl_seccomp_deny : list Z;
  pl_seccomp_deny_action : Action;
  pl_bpf_allow_v4 : list LpmV4Entry;
  pl_bpf_deny_v4 : list LpmV4Entry;
  pl_bpf_allow_v6 : list LpmV6Entry;
  pl_bpf_deny_v6 : list LpmV6Entry;
  pl_bpf_bind_allow_v4 : list LpmV4Entry;
  pl_bpf_bind_deny_v4 : list LpmV4Entry;
  pl_bpf_bind_allow_v6 : list LpmV6Entry;
  pl_bpf_bind_deny_v6 : list LpmV6Entry;
  pl_bpf_meta : bytes;
  pl_bind_allowed_ports : list Z;
  pl_file_binds : list (bytes * bytes);
  pl_supplementary_groups : option (list Z);
  pl_ulimits : list (Resource * Z * Z);
  pl_interactive_return_fd : option Z;
  pl_workload_fd : option Z;
  pl_stdio_fds : option (Z * Z * Z);
  pl_aux : list AuxProcess;
  pl_ttl_seconds : option Z;
  pl_ttl_action : TtlAction;
  pl_hostname : option bytes;
}.

Record Supervision : Type := {
  su_program : bytes;
  su_argv : list bytes;
  su_env : list (bytes * bytes);
  su_cwd : option bytes;
  su_drop_uid : Z;
  su_drop_gid : Z;
  su_groups : option (list Z);
  su_landlock_fs : list (bytes * Z);
  su_landlock_net : list (Z * Z);
  su_seccomp_deny : list Z;
  su_seccomp_deny_action : Action;
  su_ulimits : list (Resource * Z * Z);
  su_aux : list AuxProcess;
  su_interactive : bool;
  su_workload_fd_pinned : bool;
  su_stdio_injected : bool;
  su_ttl_seconds : option Z;
  su_log_level : Z;
}.

Record LoopbackAddr : Type := { lb_addr : ip_addr; lb_prefix : Z }.

Record ConstructionHalf : Type := {
  ch_namespaces : Z;
  ch_cgroup : bytes;
  ch_cgroup_join : bool;
  ch_view : option ShimView;
  ch_new_root : option bytes;
  ch_file_binds : list (bytes * bytes);
  ch_granted_gids : list Z;
  ch_lo : bool;
  ch_ctx : Z;
  ch_loopback : list LoopbackAddr;
  ch_tun : bool;
  ch_hostname : option bytes;
  ch_pty_fd_present : bool;
  ch_workload_fd_present : bool;
  ch_stdio_present : bool;
}.

(** ** Invariants *)

(** The bounds the wire imposes ([wire.rs]: [MAX_ENTRIES], [MAX_BLOB]). *)
Definition MAX_ENTRIES : Z := 65536.
Definition MAX_BLOB : Z := 65536.

Definition blob_ok (b : bytes) : Prop := bytes_ok b /\ blen b <= MAX_BLOB.
Definition str_ok (s : bytes) : Prop := blob_ok s /\ utf8_ok s = true.
Definition fixed_ok (n : Z) (b : bytes) : Prop := bytes_ok b /\ blen b = n.
Definition vec_ok {A} (ok : A -> Prop) (l : list A) : Prop :=
  blen l <= MAX_ENTRIES /\ Forall ok l.
Definition opt_ok {A} (ok : A -> Prop) (o : option A) : Prop :=
  match o with Some x => ok x | None => True end.
Definition pair_ok {A B} (okA : A -> Prop) (okB : B -> Prop) (x : A * B) : Prop :=
  okA x.1 /\ okB x.2.

Definition ns_ok (b : Z) : Prop := 0 <= b <= NS_ALL.
Definition access_fs_ok (b : Z) : Prop := 0 <= b <= ACCESS_FS_ALL.
Definition access_net_ok (b : Z) : Prop := 0 <= b <= ACCESS_NET_ALL.
Definition action_ok (a : Action) : Prop :=
  match a with Act_Errno e => in_u16 e | _ => True end.
Definition ulimit_ok (x : Resource * Z * Z) : Prop :=
  let '(r, soft, hard) := x in r <> RLIMIT_RSS /\ in_u64 soft /\ in_u64 hard.
Definition aux_ok (a : AuxProcess) : Prop :=
  str_ok (aux_path a) /\ vec_ok str_ok (aux_args a).
Definition bind_ok (b : BindMount) : Prop := str_ok (bm_source b) /\ str_ok (bm_target b).
Definition overlay_ok (o : EtcOverlay) : Prop :=
  str_ok (eo_source o) /\ str_ok (eo_view_path o).
Definition image_ok (i : ImageRoot) : Prop :=
  str_ok (ir_image i) /\ opt_ok (pair_ok str_ok str_ok) (ir_store_upper i) /\
  vec_ok str_ok (ir_readonly i) /\ vec_ok str_ok (ir_writable i).
Definition view_ok (v : ShimView) : Prop :=
  str_ok (sv_shim_root v) /\ vec_ok bind_ok (sv_binds v) /\
  vec_ok str_ok (sv_dev_allow v) /\ in_u32 (sv_tmp_size_mib v) /\
  vec_ok str_ok (sv_mask_paths v) /\ vec_ok str_ok (sv_mask_dir_paths v) /\
  opt_ok image_ok (sv_image v) /\ vec_ok overlay_ok (sv_etc_overlays v).
Definition lpm_v4_ok : LpmV4Entry -> Prop := pair_ok (fixed_ok 8) (fixed_ok 8).
Definition lpm_v6_ok : LpmV6Entry -> Prop := pair_ok (fixed_ok 20) (fixed_ok 8).
Definition loopback_ok (l : LoopbackAddr) : Prop := ip_ok (lb_addr l) /\ in_u8 (lb_prefix l).

Definition plan_ok (p : Plan) : Prop :=
  ns_ok (pl_namespaces p) /\ str_ok (pl_cgroup p) /\ opt_ok view_ok (pl_view p) /\
  opt_ok str_ok (pl_new_root p) /\
  vec_ok (pair_ok str_ok access_fs_ok) (pl_landlock_fs p) /\
  vec_ok (pair_ok in_u16 access_net_ok) (pl_landlock_net p) /\
  vec_ok in_i64 (pl_seccomp_deny p) /\ action_ok (pl_seccomp_deny_action p) /\
  vec_ok lpm_v4_ok (pl_bpf_allow_v4 p) /\ vec_ok lpm_v4_ok (pl_bpf_deny_v4 p) /\
  vec_ok lpm_v6_ok (pl_bpf_allow_v6 p) /\ vec_ok lpm_v6_ok (pl_bpf_deny_v6 p) /\
  vec_ok lpm_v4_ok (pl_bpf_bind_allow_v4 p) /\ vec_ok lpm_v4_ok (pl_bpf_bind_deny_v4 p) /\
  vec_ok lpm_v6_ok (pl_bpf_bind_allow_v6 p) /\ vec_ok lpm_v6_ok (pl_bpf_bind_deny_v6 p) /\
  fixed_ok 64 (pl_bpf_meta p) /\ vec_ok in_u16 (pl_bind_allowed_ports p) /\
  vec_ok (pair_ok str_ok str_ok) (pl_file_binds p) /\
  opt_ok (vec_ok in_u32) (pl_supplementary_groups p) /\ vec_ok ulimit_ok (pl_ulimits p) /\
  vec_ok aux_ok (pl_aux p) /\ opt_ok in_u64 (pl_ttl_seconds p) /\
  opt_ok str_ok (pl_hostname p).

Definition supervision_ok (s : Supervision) : Prop :=
  str_ok (su_program s) /\ vec_ok str_ok (su_argv s) /\
  vec_ok (pair_ok str_ok str_ok) (su_env s) /\ opt_ok str_ok (su_cwd s) /\
  in_u32 (su_drop_uid s) /\ in_u32 (su_drop_gid s) /\ opt_ok (vec_ok in_u32) (su_groups s) /\
  vec_ok (pair_ok str_ok access_fs_ok) (su_landlock_fs s) /\
  vec_ok (pair_ok in_u16 access_net_ok) (su_landlock_net s) /\
  vec_ok in_i64 (su_seccomp_deny s) /\ action_ok (su_seccomp_deny_action s) /\
  vec_ok ulimit_ok (su_ulimits s) /\ vec_ok aux_ok (su_aux s) /\
  opt_ok in_u64 (su_ttl_seconds s) /\ in_u8 (su_log_level s).

Definition construction_ok (c : ConstructionHalf) : Prop :=
  ns_ok (ch_namespaces c) /\ str_ok (ch_cgroup c) /\ opt_ok view_ok (ch_view c) /\
  opt_ok str_ok (ch_new_root c) /\ vec_ok (pair_ok str_ok str_ok) (ch_file_binds c) /\
  vec_ok in_u32 (ch_granted_gids c) /\ in_u16 (ch_ctx c) /\
  vec_ok loopback_ok (ch_loopback c) /\ opt_ok str_ok (ch_hostname c).

(** The plan as the receiver sees it: descriptors do not survive a byte stream. *)
Definition without_fds (p : Plan) : Plan := {|
  pl_namespaces := pl_namespaces p; pl_cgroup := pl_cgroup p;
  pl_cgroup_join := pl_cgroup_join p; pl_view := pl_view p; pl_new_root := pl_new_root p;
  pl_landlock_fs := pl_landlock_fs p; pl_landlock_net := pl_landlock_net p;
  pl_seccomp_deny := pl_seccomp_deny p; pl_seccomp_deny_action := pl_seccomp_deny_action p;
  pl_bpf_allow_v4 := pl_bpf_allow_v4 p; pl_bpf_deny_v4 := pl_bpf_deny_v4 p;
  pl_bpf_allow_v6 := pl_bpf_allow_v6 p; pl_bpf_deny_v6 := pl_bpf_deny_v6 p;
  pl_bpf_bind_allow_v4 := pl_bpf_bind_allow_v4 p; pl_bpf_bind_deny_v4 := pl_bpf_bind_deny_v4 p;
  pl_bpf_bind_allow_v6 := pl_bpf_bind_allow_v6 p; pl_bpf_bind_deny_v6 := pl_bpf_bind_deny_v6 p;
  pl_bpf_meta := pl_bpf_meta p; pl_bind_allowed_ports := pl_bind_allowed_ports p;
  pl_file_binds := pl_file_binds p; pl_supplementary_groups := pl_supplementary_groups p;
  pl_ulimits := pl_ulimits p; pl_interactive_return_fd := None; pl_workload_fd := None;
  pl_stdio_fds := None; pl_aux := pl_aux p; pl_ttl_seconds := pl_ttl_seconds p;
  pl_ttl_action := pl_ttl_action p; pl_hostname := pl_hostname p |}.

Global Instance blob_ok_dec b : Decision (blob_ok b). Proof. unfold blob_ok; apply _. Defined.
Global Instance str_ok_dec s : Decision (str_ok s). Proof. unfold str_ok; apply _. Defined.
Global Instance fixed_ok_dec n b : Decision (fixed_ok n b).
Proof. unfold fixed_ok; apply _. Defined.
Global Instance vec_ok_dec {A} (ok : A -> Prop) `{!forall x, Decision (ok x)} l :
  Decision (vec_ok ok l).
Proof. unfold vec_ok; apply _. Defined.
Global Instance opt_ok_dec {A} (ok : A -> Prop) `{!forall x, Decision (ok x)} o :
  Decision (opt_ok ok o).
Proof. destruct o; cbn; apply _. Defined.
Global Instance pair_ok_dec {A B} (okA : A -> Prop) (okB : B -> Prop)
  `{!forall x, Decision (okA x)} `{!forall x, Decision (okB x)} x : Decision (pair_ok okA okB x).
Proof. unfold pair_ok; apply _. Defined.
Global Instance ns_ok_dec b : Decision (ns_ok b) := and_dec _ _.
Global Instance access_fs_ok_dec b : Decision (access_fs_ok b) := and_dec _ _.
Global Instance access_net_ok_dec b : Decision (access_net_ok b) := and_dec _ _.
Global Instance action_ok_dec a : Decision (action_ok a).
Proof. destruct a; cbn; apply _. Defined.
Global Instance ulimit_ok_dec x : Decision (ulimit_ok x).
Proof. destruct x as [[? ?] ?]; cbn; apply _. Defined.
Global Instance aux_ok_dec a : Decision (aux_ok a). Proof. unfold aux_ok; apply _. Defined.
Global Instance bind_ok_dec b : Decision (bind_ok b). Proof. unfold bind_ok; apply _. Defined.
Global Instance overlay_ok_dec b : Decision (overlay_ok b).
Proof. unfold overlay_ok; apply _. Defined.
Global Instance image_ok_dec b : Decision (image_ok b). Proof. unfold image_ok; apply _. Defined.
Global Instance view_ok_dec b : Decision (view_ok b). Proof. unfold view_ok; apply _. Defined.
Global Instance lpm_v4_ok_dec b : Decision (lpm_v4_ok b). Proof. unfold lpm_v4_ok; apply _. Defined.
Global Instance lpm_v6_ok_dec b : Decision (lpm_v6_ok b). Proof. unfold lpm_v6_ok; apply _. Defined.
Global Instance loopback_ok_dec b : Decision (loopback_ok b).
Proof. unfold loopback_ok; apply _. Defined.
Global Instance plan_ok_dec p : Decision (plan_ok p). Proof. unfold plan_ok; apply _. Defined.
Global Instance supervision_ok_dec s : Decision (supervision_ok s).
Proof. unfold supervision_ok; apply _. Defined.
Global Instance construction_ok_dec c : Decision (construction_ok c).
Proof. unfold construction_ok; apply _. Defined.
(** ** Flag sets: truncation is the identity on known bits and removes the rest *)

Lemma truncate_known k b : 0 <= k -> 0 <= b < 2 ^ k -> Z.land b (Z.ones k) = b.
Proof. intros. rewrite Z.land_ones, Z.mod_small; lia. Qed.

Lemma truncate_bound k b : 0 <= k -> 0 <= Z.land b (Z.ones k) < 2 ^ k.
Proof. intros. rewrite Z.land_ones by lia. apply Z.mod_pos_bound. lia. Qed.

Lemma ns_truncate_id b : ns_ok b -> ns_from_bits_truncate b = b.
Proof. intros [??]. unfold NS_ALL in *. apply (truncate_known 7); lia. Qed.
Lemma fs_truncate_id b : access_fs_ok b -> fs_from_bits_truncate b = b.
Proof. intros [??]. unfold ACCESS_FS_ALL in *. apply (truncate_known 16); lia. Qed.
Lemma net_truncate_id b : access_net_ok b -> net_from_bits_truncate b = b.
Proof. intros [??]. unfold ACCESS_NET_ALL in *. apply (truncate_known 2); lia. Qed.

Lemma ns_truncate_ok b : ns_ok (ns_from_bits_truncate b).
Proof.
  pose proof (truncate_bound 7 b). unfold ns_ok, ns_from_bits_truncate, NS_ALL.
  change (Z.ones 7) with 127 in *. lia.
Qed.
Lemma fs_truncate_ok b : access_fs_ok (fs_from_bits_truncate b).
Proof.
  pose proof (truncate_bound 16 b). unfold access_fs_ok, fs_from_bits_truncate, ACCESS_FS_ALL.
  change (Z.ones 16) with 65535 in *. lia.
Qed.
Lemma net_truncate_ok b : access_net_ok (net_from_bits_truncate b).
Proof.
  pose proof (truncate_bound 2 b). unfold access_net_ok, net_from_bits_truncate, ACCESS_NET_ALL.
  change (Z.ones 2) with 3 in *. lia.
Qed.
