(* ===== verification/Settled.v ===== *)
(** The settled policy: the signed artefact of [kennel-lib-policy/src/settled.rs].

    Every type of the artefact with its fields in the source's order (strings
    are byte lists, tree maps are lists of pairs in key order), and the functions the file defines on
    them: the advisory warnings for exec denies, the overlay of audit settings,
    the defaults and the emptiness tests that decide what the canonical form
    omits.  The components that consume the policy import these types: the egress
    decision, the mesh, the policy gate, the patcher and the plan builder. *)

From S2P Require Import Prelude Bytes Str Plan.

(** ** Network *)

Inductive PolicyNetMode : Type := PmNone | PmConstrained | PmUnconstrained | PmHost.
Global Instance PolicyNetMode_eq_dec : EqDecision PolicyNetMode.
Proof. solve_decision. Defined.

Inductive Protocol : Type := ProtoAny | ProtoTcp | ProtoUdp.
Global Instance Protocol_eq_dec : EqDecision Protocol.
Proof. solve_decision. Defined.

Record NetRule : Type := {
  nr_cidr : bytes; nr_prefix_len : Z; nr_port_min : Z; nr_port_max : Z; nr_protocol : Protocol;
}.
Record NameRule : Type := { nn_name : bytes; nn_ports : list Z; nn_protocol : Protocol }.

Global Instance NetRule_eq_dec : EqDecision NetRule.
Proof. solve_decision. Defined.
Global Instance NameRule_eq_dec : EqDecision NameRule.
Proof. solve_decision. Defined.

Record ProxyListen : Type := { px_offset : Z; px_port : Z }.
Definition proxy_default : ProxyListen := {| px_offset := 1; px_port := 1080 |}.
Definition proxy_disabled : ProxyListen := {| px_offset := 0; px_port := 0 |}.
Definition proxy_is_disabled (p : ProxyListen) : bool := px_offset p =? 0.

Record NetPolicy : Type := {
  np_mode : PolicyNetMode;
  np_udp : bool;
  np_bind_port_min : Z;
  np_bind_allowed_ports : list Z;
  np_proxy : ProxyListen;
  np_allow : list NetRule;
  np_allow_names : list NameRule;
  np_udp_allow_names : list NameRule;
  np_deny_invariant : list NetRule;
  np_deny_author : list NetRule;
  np_bpf_connect_allow : list NetRule;
  np_bpf_connect_deny : list NetRule;
  np_bpf_bind_allow : list NetRule;
  np_bpf_bind_deny : list NetRule;
}.

Definition MAX_BIND_PORTS : Z := 8.
Definition MAX_BPF_ALLOW_PER_FAMILY : Z := 1024.
Definition MAX_BPF_DENY_PER_FAMILY : Z := 256.

(** ** Filesystem and execution *)

Record TmpPolicy : Type := { tp_writable : bool; tp_size_mib : Z }.
Record DevPolicy : Type := { dv_allow : list bytes }.
Inductive CwdGrant : Type := CwdNone | CwdRead | CwdWrite.
Definition cwd_grant_is_none (g : CwdGrant) : bool := match g with CwdNone => true | _ => false end.
Record CwdPolicy : Type := { cw_grant : CwdGrant; cw_required : list bytes }.
Definition cwd_default : CwdPolicy := {| cw_grant := CwdNone; cw_required := [] |}.
Definition cwd_is_default (c : CwdPolicy) : bool :=
  cwd_grant_is_none (cw_grant c) && is_nil (cw_required c).

Record FsRedirect : Type := { rd_path : bytes; rd_source : bytes }.

Record FsPolicy : Type := {
  fs_home_shadow : bool;
  fs_read : list bytes;
  fs_write : list bytes;
  fs_exclusive : list bytes;
  fs_home_persist : list bytes;
  fs_home_readonly : bool;
  fs_redirect : list FsRedirect;
  fs_cwd : CwdPolicy;
  fs_tmp : TmpPolicy;
  fs_dev : DevPolicy;
}.

Record ExecPolicy : Type := {
  ex_deny_setuid : bool;
  ex_deny_setgid : bool;
  ex_deny_setcap : bool;
  ex_deny_writable : bool;
  ex_allow : list bytes;
  ex_deny : list bytes;
  ex_path : list bytes;
  ex_shell : bytes;
  ex_loaders : list bytes;
}.

Definition default_shell : bytes := ascii_bytes "/bin/sh".
Definition is_default_shell (s : bytes) : bool := bool_decide (s = default_shell).

(** ** Globs *)

(** [e.strip_suffix("/**").or_else(|| e.strip_suffix("/*")).unwrap_or(e)], the glob
    strip that several components apply to a grant. *)
Definition strip_glob (entry : bytes) : bytes :=
  default entry (or_else (strip_suffix (ascii_bytes "/**") entry)
                         (strip_suffix (ascii_bytes "/*") entry)).

(** ** Exec deny warnings *)

Definition glob_covers (allow deny : bytes) : bool :=
  match or_else (strip_suffix (ascii_bytes "/**") allow)
          (or_else (strip_suffix (ascii_bytes "/*") allow)
            (or_else (strip_suffix (ascii_bytes "**") allow)
                     (strip_suffix (ascii_bytes "*") allow))) with
  | Some root =>
      let root := trim_end_matches (Z.eqb SLASH) root in
      negb (is_nil root) && (bool_decide (deny = root) || starts_with (root ++ [SLASH]) deny)
  | None => false
  end.

(** The message, as what it names: the deny, and the allowed directory it is in. *)
Inductive DenyWarning : Type :=
  | AdvisoryPermissive (deny : bytes)
  | AdvisoryInside (deny dir : bytes).

Definition is_exec_wildcard (entry : bytes) : bool :=
  bool_decide (trim entry = ascii_bytes "**") || bool_decide (trim entry = ascii_bytes "/**").

Definition deny_warnings (e : ExecPolicy) : list DenyWarning :=
  let permissive := existsb is_exec_wildcard (ex_allow e) in
  omap (fun d =>
    if permissive then Some (AdvisoryPermissive d)
    else match List.find (fun a => glob_covers a d) (ex_allow e) with
         | Some dir => Some (AdvisoryInside d dir)
         | None => None
         end) (ex_deny e).

(** ** The other rule sets *)

Record ProcPolicy : Type := { pr_hidepid : bool }.
Record CapPolicy : Type := { cap_no_new_privs : bool }.
Inductive SeccompAction : Type := ScErrno | ScKillThread | ScKillProcess.
Record SeccompPolicy : Type := { sc_deny_action : SeccompAction; sc_deny : list bytes }.
Record LifecyclePolicy : Type := { lc_ttl_seconds : option Z; lc_ttl_action : TtlAction }.
Record TtyPolicy : Type := { tt_filter_terminal_escapes : bool }.
Inductive OnChangeAction : Type := OcWarn | OcFreeze | OcKill.
Record TrustPolicy : Type := { tr_manifest : bool; tr_on_change : OnChangeAction }.
Definition tty_default : TtyPolicy := {| tt_filter_terminal_escapes := true |}.
Definition trust_default : TrustPolicy := {| tr_manifest := true; tr_on_change := OcWarn |}.

Record EffectivePolicy : Type := {
  ep_net : NetPolicy;
  ep_fs : FsPolicy;
  ep_exec : ExecPolicy;
  ep_proc : ProcPolicy;
  ep_cap : CapPolicy;
  ep_seccomp : SeccompPolicy;
  ep_lifecycle : LifecyclePolicy;
  ep_tty : TtyPolicy;
  ep_trust : TrustPolicy;
}.

(** ** Runtime inputs *)

Record SshGrant : Type := {
  sg_dest : bytes; sg_options : list bytes; sg_public_key : bytes; sg_key_file : bytes }.
Record SshRuntime : Type := { sr_allow_headless : bool; sr_grants : list SshGrant }.
Definition ssh_is_empty (s : SshRuntime) : bool :=
  negb (sr_allow_headless s) && is_nil (sr_grants s).

Record UnixSocket : Type := {
  us_name : bytes; us_real : bytes; us_shim : bytes; us_env : option bytes }.
Record UnixRuntime : Type := { ur_sockets : list UnixSocket }.
Definition unix_is_empty (u : UnixRuntime) : bool := is_nil (ur_sockets u).

Record DbusBusRuntime : Type := {
  db_talk : list bytes; db_call : list bytes; db_broadcast : list bytes; db_own : list bytes;
  db_deny_talk : list bytes }.
Record DbusRuntime : Type := {
  du_audit_level : option bytes; du_session : option DbusBusRuntime;
  du_system : option DbusBusRuntime }.
Definition dbus_is_empty (d : DbusRuntime) : bool := is_none (du_session d) && is_none (du_system d).

Inductive Shape : Type := AfUnix | DbusName | BinderConnector.
Global Instance Shape_eq_dec : EqDecision Shape.
Proof. solve_decision. Defined.

Record ProvideRuntime : Type := {
  pv_name : bytes; pv_shape : Shape; pv_endpoint : bytes; pv_key : option bytes;
}.
Record ConsumeRuntime : Type := {
  cn_name : bytes; cn_shape : Shape; cn_at : option bytes; cn_env : list bytes;
  cn_key : option bytes; cn_required : bool }.
Record MeshRuntime : Type := { mr_provides : list ProvideRuntime; mr_consumes : list ConsumeRuntime }.
Definition mesh_is_empty (m : MeshRuntime) : bool := is_nil (mr_provides m) && is_nil (mr_consumes m).

Inductive RestartPolicy : Type := Always | OnFailure | Never.
Record ServiceRuntime : Type := { sv_restart : RestartPolicy; sv_backoff_ms : Z; sv_max_attempts : Z }.

Definition DEFAULT_USER : bytes := ascii_bytes "kennel".
Definition DEFAULT_GROUP : bytes := ascii_bytes "kennel".
Record IdentityRuntime : Type := {
  id_user : bytes; id_group : bytes; id_groups : list bytes; id_hostname : option bytes }.
Definition identity_default : IdentityRuntime :=
  {| id_user := DEFAULT_USER; id_group := DEFAULT_GROUP; id_groups := []; id_hostname := None |}.
Definition identity_is_empty (i : IdentityRuntime) : bool :=
  bool_decide (id_user i = DEFAULT_USER) && bool_decide (id_group i = DEFAULT_GROUP) &&
  is_nil (id_groups i) && is_none (id_hostname i).

Record ResolvedArtifact : Type := {
  ra_name : bytes; ra_signing_key_id : bytes; ra_signature : bytes }.
Record Provenance : Type := {
  pn_compiler_version : bytes; pn_schema_version : Z; pn_threat_catalogue_version : bytes;
  pn_resolved_artifacts : list ResolvedArtifact }.

Inductive AuditSinkKind : Type := SinkFile | SinkJournald | SinkSyslog | SinkStdout.
Definition sink_token (k : AuditSinkKind) : bytes :=
  ascii_bytes match k with
              | SinkFile => "file" | SinkJournald => "journald"
              | SinkSyslog => "syslog" | SinkStdout => "stdout" end.

Record AuditFileConfig : Type := {
  af_dir : option bytes; af_rotate_at_bytes : option Z; af_compress_after_seconds : option Z;
  af_retain_count : option Z }.
Definition audit_file_is_empty (c : AuditFileConfig) : bool :=
  is_none (af_dir c) && is_none (af_rotate_at_bytes c) && is_none (af_compress_after_seconds c) &&
  is_none (af_retain_count c).
Definition audit_file_overlay (self over : AuditFileConfig) : AuditFileConfig := {|
  af_dir := or_else (af_dir over) (af_dir self);
  af_rotate_at_bytes := or_else (af_rotate_at_bytes over) (af_rotate_at_bytes self);
  af_compress_after_seconds :=
    or_else (af_compress_after_seconds over) (af_compress_after_seconds self);
  af_retain_count := or_else (af_retain_count over) (af_retain_count self) |}.

Record AuditRuntime : Type := {
  au_sinks : list AuditSinkKind; au_network_level : option bytes;
  au_filesystem_level : option bytes; au_exec_level : option bytes; au_unix_level : option bytes;
  au_dbus_level : option bytes; au_syslog_facility : option bytes; au_file : AuditFileConfig }.
Definition audit_is_empty (a : AuditRuntime) : bool :=
  is_nil (au_sinks a) && is_none (au_network_level a) && is_none (au_filesystem_level a) &&
  is_none (au_exec_level a) && is_none (au_unix_level a) && is_none (au_dbus_level a) &&
  is_none (au_syslog_facility a) && audit_file_is_empty (au_file a).
Definition audit_overlay (self over : AuditRuntime) : AuditRuntime := {|
  au_sinks := if is_nil (au_sinks over) then au_sinks self else au_sinks over;
  au_network_level := or_else (au_network_level over) (au_network_level self);
  au_filesystem_level := or_else (au_filesystem_level over) (au_filesystem_level self);
  au_exec_level := or_else (au_exec_level over) (au_exec_level self);
  au_unix_level := or_else (au_unix_level over) (au_unix_level self);
  au_dbus_level := or_else (au_dbus_level over) (au_dbus_level self);
  au_syslog_facility := or_else (au_syslog_facility over) (au_syslog_facility self);
  au_file := audit_file_overlay (au_file self) (au_file over) |}.

(** The tree maps of the artefact: pairs in key order. *)
Record EnvRuntime : Type := { en_vars : list (bytes * bytes) }.
Record UlimitsRuntime : Type := { ul_limits : list (bytes * bytes) }.

Definition ULIMIT_RESOURCES : list bytes :=
  map ascii_bytes ["as"; "core"; "cpu"; "data"; "fsize"; "locks"; "memlock"; "msgqueue"; "nice";
                   "nofile"; "nproc"; "rtprio"; "rttime"; "sigpending"; "stack"]%string.

Record WorkloadRuntime : Type := {
  wl_argv : list bytes; wl_cwd : option bytes; wl_pinned : bool; wl_allowed_args : bool;
  wl_sha256 : list bytes }.
Record RootfsRuntime : Type := {
  rf_path : bytes; rf_image : bytes; rf_persistence : bytes; rf_readonly : list bytes;
  rf_writable : list bytes }.
Record SpawnTemplate : Type := {
  st_template : bytes; st_signing_key_id : bytes; st_signature : bytes;
  st_mutable_narrow : list bytes }.
Record SpawnGrant : Type := { sp_max_instances : Z; sp_allow : list SpawnTemplate }.

(** [Variant] ([variant.rs]): the flat form of one mutable-field constraint. *)
Record Variant : Type := {
  va_field : bytes; va_one_of : list bytes; va_pool : list bytes; va_pool_max : Z;
  va_pattern : list bytes; va_relpath_under : bytes; va_freeform : bool; va_reason : bytes }.

Record SettledPolicy : Type := {
  sp_settled_schema_version : Z;
  sp_name : bytes;
  sp_deferred_substitutions : list bytes;
  sp_framework_invariants_asserted : list bytes;
  sp_effective_policy : EffectivePolicy;
  sp_provenance : Provenance;
  sp_ssh : SshRuntime;
  sp_unix : UnixRuntime;
  sp_identity : IdentityRuntime;
  sp_mesh : MeshRuntime;
  sp_service : option ServiceRuntime;
  sp_dbus : DbusRuntime;
  sp_audit : AuditRuntime;
  sp_env : EnvRuntime;
  sp_ulimits : UlimitsRuntime;
  sp_workload : WorkloadRuntime;
  sp_rootfs : RootfsRuntime;
  sp_spawn : option SpawnGrant;
  sp_manifest : list Variant;
}.
Definition env_is_empty (e : EnvRuntime) : bool := is_nil (en_vars e).
Definition ulimits_is_empty (u : UlimitsRuntime) : bool := is_nil (ul_limits u).
Definition workload_is_empty (w : WorkloadRuntime) : bool := is_nil (wl_argv w).
Definition rootfs_is_empty (r : RootfsRuntime) : bool := is_nil (rf_path r).
