(* ===== verification/Paths.v ===== *)
(** Paths: what the code uses of [std::path] on Unix.

    A path is its bytes; [components] is the iterator of the same name, which
    collapses repeated separators and drops [.] except at the start of a relative
    path.  Equality, order and [starts_with] compare components; [strip_prefix]
    and [join] produce bytes, so both are modelled on bytes and related to
    components by the lemmas below. *)

From S2P Require Import Prelude Bytes Str.

Inductive component : Type := RootDir | CurDir | ParentDir | Normal (s : bytes).

Global Instance component_eq_dec : EqDecision component.
Proof. solve_decision. Defined.

(** A piece between separators that is no component. *)
Definition skip_seg (s : bytes) : bool := is_nil s || bool_decide (s = [DOT]).
Definition comp_of (s : bytes) : component :=
  if bool_decide (s = [DOT; DOT]) then ParentDir else Normal s.
Definition body_components (ss : list bytes) : list component :=
  map comp_of (List.filter (fun s => negb (skip_seg s)) ss).

Definition is_absolute (p : bytes) : bool := match p with b :: _ => b =? SLASH | [] => false end.

(** [include_cur_dir]: a relative path whose first piece is [.]. *)
Definition leading_dot (p : bytes) : bool :=
  match split_on SLASH p with s :: _ => bool_decide (s = [DOT]) | [] => false end.

Definition components (p : bytes) : list component :=
  match p with
  | [] => []
  | b :: t =>
      if b =? SLASH then RootDir :: body_components (split_on SLASH t)
      else (if leading_dot p then [CurDir] else []) ++ body_components (split_on SLASH p)
  end.

(** [==] on paths. *)
Definition path_eqb (p q : bytes) : bool := bool_decide (components p = components q).

(** [Path::starts_with]. *)
Definition path_starts_with (p base : bytes) : bool :=
  bool_decide (components base `prefix_of` components p).

(** The pieces left after [k] components, and [Components::as_path] of them. *)
Fixpoint drop_comps (k : nat) (ss : list bytes) : list bytes :=
  match k, ss with
  | O, _ => ss
  | S _, [] => []
  | S k', s :: ss => if skip_seg s then drop_comps k ss else drop_comps k' ss
  end.
Fixpoint trim_left (ss : list bytes) : list bytes :=
  match ss with s :: t => if skip_seg s then trim_left t else ss | [] => [] end.
Definition trim_right (ss : list bytes) : list bytes := rev (trim_left (rev ss)).
Definition as_path (ss : list bytes) : bytes := join_with SLASH (trim_right (trim_left ss)).

(** [Path::strip_prefix]; [None] is its error. *)
Definition path_strip_prefix (p base : bytes) : option bytes :=
  if path_starts_with p base then
    match length (components base), p with
    | O, b :: t =>
        Some (if b =? SLASH then SLASH :: join_with SLASH (trim_right (split_on SLASH t))
              else match split_on SLASH p with
                   | s :: ss => if leading_dot p then join_with SLASH (s :: trim_right ss)
                                else join_with SLASH (trim_right (s :: ss))
                   | [] => []
                   end)
    | O, [] => Some []
    | S k, b :: t =>
        Some (if b =? SLASH then as_path (drop_comps k (split_on SLASH t))
              else as_path (drop_comps (if leading_dot p then k else S k) (split_on SLASH p)))
    | S _, [] => None
    end
  else None.

(** [Path::join]. *)
Definition path_join (p q : bytes) : bytes :=
  if is_absolute q then q
  else match last p with
       | None => q
       | Some b => if b =? SLASH then p ++ q else p ++ SLASH :: q
       end.

(** [components().any(|c| c == Component::ParentDir)]. *)
Definition has_parent_dir (p : bytes) : bool :=
  existsb (fun c => bool_decide (c = ParentDir)) (components p).

(** * Components of what the operations build *)

Lemma body_components_app ss ts :
  body_components (ss ++ ts) = body_components ss ++ body_components ts.
Proof. unfold body_components. by rewrite List.filter_app, map_app. Qed.

Lemma body_components_cons s ss :
  body_components (s :: ss) =
    if skip_seg s then body_components ss else comp_of s :: body_components ss.
Proof. unfold body_components. cbn. by destruct (skip_seg s). Qed.

Lemma body_components_skip ss :
  Forall (fun s => skip_seg s = true) ss -> body_components ss = [].
Proof. induction 1 as [|s ss Hs _ IH]; [done|]. by rewrite body_components_cons, Hs. Qed.

Lemma drop_comps_components k ss :
  body_components (drop_comps k ss) = drop k (body_components ss).
Proof.
  revert k; induction ss as [|s ss IH]; intros [|k]; cbn [drop_comps]; [done..|].
  rewrite body_components_cons. destruct (skip_seg s); [apply IH|]. cbn [drop]. apply IH.
Qed.

Lemma trim_left_app ss : exists ts,
  ss = ts ++ trim_left ss /\ Forall (fun s => skip_seg s = true) ts.
Proof.
  induction ss as [|s ss [ts [E H]]]; cbn; [by exists []|].
  destruct (skip_seg s) eqn:Es; [|by exists []].
  exists (s :: ts). split; [by rewrite E at 1|by constructor].
Qed.

Lemma trim_right_app ss : exists ts,
  ss = trim_right ss ++ ts /\ Forall (fun s => skip_seg s = true) ts.
Proof.
  destruct (trim_left_app (rev ss)) as [ts [E H]]. exists (rev ts). split; [|by apply Forall_rev].
  unfold trim_right. by rewrite <- rev_app_distr, <- E, rev_involutive.
Qed.

Lemma trim_components ss : body_components (trim_right (trim_left ss)) = body_components ss.
Proof.
  destruct (trim_left_app ss) as [l [El Hl]]. destruct (trim_right_app (trim_left ss)) as [r [Er Hr]].
  rewrite El at 2. rewrite Er at 2. rewrite !body_components_app.
  rewrite (body_components_skip l), (body_components_skip r) by done. by rewrite app_nil_r.
Qed.

Lemma trim_left_head ss : match trim_left ss with s :: _ => skip_seg s = false | [] => True end.
Proof. induction ss as [|s ss IH]; cbn; [done|]. by destruct (skip_seg s) eqn:E. Qed.

Lemma trimmed_head ss :
  match trim_right (trim_left ss) with s :: _ => skip_seg s = false | [] => True end.
Proof.
  pose proof (trim_left_head ss) as H. destruct (trim_right_app (trim_left ss)) as [r [Er Hr]].
  destruct (trim_right (trim_left ss)) as [|s t]; [done|]. rewrite Er in H. done.
Qed.

Lemma components_relative p :
  is_absolute p = false ->
  components p = (if leading_dot p then [CurDir] else []) ++ body_components (split_on SLASH p).
Proof. destruct p as [|b p]; cbn -[leading_dot split_on]; [done|]. by intros ->. Qed.

(** A joined list of separator-free pieces whose first is a component. *)
Lemma components_joined ss :
  Forall (fun s => has_byte SLASH s = false) ss ->
  match ss with s :: _ => skip_seg s = false | [] => True end ->
  components (join_with SLASH ss) = body_components ss /\
  is_absolute (join_with SLASH ss) = false /\ leading_dot (join_with SLASH ss) = false.
Proof.
  intros Hf Hh. destruct ss as [|s ss]; [done|].
  assert (is_absolute (join_with SLASH (s :: ss)) = false) as Ha.
  { apply Forall_cons_1 in Hf as [Hs _]. destruct s as [|b s]; [done|].
    apply orb_false_iff in Hs as [Hb _]. destruct ss; cbn; by rewrite Z.eqb_sym. }
  assert (leading_dot (join_with SLASH (s :: ss)) = false) as Hd.
  { unfold leading_dot. rewrite split_join by done. apply orb_false_iff in Hh as [_ Hh]. done. }
  split_and!; [|done..]. rewrite components_relative, Hd, split_join by done. done.
Qed.

Lemma trimmed_free ss :
  Forall (fun s => has_byte SLASH s = false) ss ->
  Forall (fun s => has_byte SLASH s = false) (trim_right (trim_left ss)).
Proof.
  intros H. destruct (trim_left_app ss) as [l [El _]].
  destruct (trim_right_app (trim_left ss)) as [r [Er _]].
  rewrite El in H. apply Forall_app in H as [_ H]. rewrite Er in H. by apply Forall_app in H as [? _].
Qed.

Lemma drop_comps_free k ss :
  Forall (fun s => has_byte SLASH s = false) ss ->
  Forall (fun s => has_byte SLASH s = false) (drop_comps k ss).
Proof.
  intros H. revert k; induction H as [|s ss Hs Hss IH]; intros [|k]; cbn; [by constructor..|].
  destruct (skip_seg s); apply IH.
Qed.

Lemma as_path_components ss :
  Forall (fun s => has_byte SLASH s = false) ss ->
  components (as_path ss) = body_components ss /\
  is_absolute (as_path ss) = false /\ leading_dot (as_path ss) = false.
Proof.
  intros H. unfold as_path. rewrite <- (trim_components ss).
  apply components_joined; [by apply trimmed_free|apply trimmed_head].
Qed.

(** Stripping a non-empty base leaves the other components, as a relative path. *)
Lemma path_strip_prefix_components p base :
  components base <> [] -> path_starts_with p base = true ->
  exists r, path_strip_prefix p base = Some r /\
    components p = components base ++ components r /\
    is_absolute r = false /\ leading_dot r = false.
Proof.
  intros Hb Hs. unfold path_strip_prefix. rewrite Hs.
  apply bool_decide_eq_true in Hs as [c Hc].
  destruct (components base) as [|c0 cs] eqn:Eb; [done|]. cbn [length].
  destruct p as [|b t]; [done|].
  assert (drop (S (length cs)) (components (b :: t)) = c) as Hd.
  { rewrite Hc. cbn [drop app]. apply drop_app_length. }
  assert (forall k ss, Forall (fun s => has_byte SLASH s = false) ss ->
    body_components (drop_comps k ss) = c ->
    exists r, Some (as_path (drop_comps k ss)) = Some r /\
      components (b :: t) = (c0 :: cs) ++ components r /\
      is_absolute r = false /\ leading_dot r = false) as Hk.
  { intros k ss Hss Hk. exists (as_path (drop_comps k ss)).
    destruct (as_path_components (drop_comps k ss)) as (E & Ha & Hl); [by apply drop_comps_free|].
    split_and!; [done| |done..]. by rewrite E, Hk. }
  cbn [components] in Hd. destruct (b =? SLASH).
  - apply Hk; [apply split_on_free|]. by rewrite drop_comps_components.
  - apply Hk; [apply split_on_free|]. rewrite drop_comps_components.
    destruct (leading_dot (b :: t)); done.
Qed.

Lemma path_strip_prefix_None p base :
  path_starts_with p base = false -> path_strip_prefix p base = None.
Proof. intros H. unfold path_strip_prefix. by rewrite H. Qed.

(** Appending pieces after a separator. *)
Lemma components_slash p q :
  components (p ++ SLASH :: q) =
    (if is_nil p then [RootDir] else components p) ++ body_components (split_on SLASH q).
Proof.
  destruct p as [|b t]; [done|]. cbn [is_nil app]. unfold components.
  change (b :: t ++ SLASH :: q) with ((b :: t) ++ SLASH :: q). unfold leading_dot.
  destruct (b =? SLASH) eqn:E.
  - by rewrite split_on_app_last, body_components_app.
  - rewrite split_on_app_last, body_components_app, app_assoc.
    destruct (split_on SLASH (b :: t)) eqn:Es; [by apply split_on_not_nil in Es|]. done.
Qed.

(** Joining appends components when the right side is a plain relative path. *)
Lemma path_join_components p q :
  is_absolute q = false -> leading_dot q = false ->
  components (path_join p q) = components p ++ components q.
Proof.
  intros Ha Hl. unfold path_join. rewrite Ha.
  assert (components q = body_components (split_on SLASH q)) as Eq.
  { by rewrite components_relative, Hl. }
  destruct (last p) as [b|] eqn:El.
  - apply last_Some in El as [p' ->]. destruct (Z.eqb_spec b SLASH) as [->|].
    + rewrite <- app_assoc. change ([SLASH] ++ q) with (SLASH :: q). destruct p' as [|b' p'].
      * cbn. by rewrite Eq.
      * rewrite (components_slash _ q), (components_slash _ []), Eq. cbn [split_on is_nil].
        by rewrite app_nil_r.
    + rewrite components_slash, Eq. by destruct p'.
  - apply last_None in El as ->. done.
Qed.

Lemma body_components_slashes z :
  Forall (fun b => (SLASH =? b) = true) z -> body_components (split_on SLASH z) = [].
Proof.
  intros Hz. apply body_components_skip. induction Hz as [|b z Hb _ IH]; [by repeat constructor|].
  cbn. rewrite Z.eqb_sym, Hb. by constructor.
Qed.

(** Trailing separators do not count, unless there is nothing else. *)
Lemma components_trim_end p :
  p <> [] ->
  components p = if is_nil (trim_end_matches (Z.eqb SLASH) p) then [RootDir]
                 else components (trim_end_matches (Z.eqb SLASH) p).
Proof.
  intros Hp. destruct (trim_end_matches_app (Z.eqb SLASH) p) as (z & Ez & Hz).
  rewrite Ez at 1. destruct z as [|b z].
  - rewrite app_nil_r in *. destruct (is_nil _) eqn:E; [|done]. by destruct (trim_end_matches _ p).
  - apply Forall_cons_1 in Hz as [Hb%Z.eqb_eq Hz]. subst b.
    by rewrite components_slash, (body_components_slashes z), app_nil_r.
Qed.

Lemma components_abs p : is_absolute p = true -> exists cs, components p = RootDir :: cs.
Proof. destruct p as [|b t]; cbn -[split_on]; [done|]. intros ->. by eexists. Qed.

(** ** [starts_with] as an order on paths up to spelling *)

Lemma path_starts_with_prefix p base :
  path_starts_with p base = true <-> components base `prefix_of` components p.
Proof. apply bool_decide_eq_true. Qed.

Lemma path_starts_with_refl p : path_starts_with p p = true.
Proof. apply path_starts_with_prefix. done. Qed.

Lemma path_starts_with_trans p q r :
  path_starts_with p q = true -> path_starts_with q r = true -> path_starts_with p r = true.
Proof. rewrite !path_starts_with_prefix. intros. by etrans. Qed.

Lemma path_eqb_eq p q : path_eqb p q = true <-> components p = components q.
Proof. apply bool_decide_eq_true. Qed.

(** Two paths equal as paths: an equivalence coarser than equality of bytes. *)
Definition path_equiv (p q : bytes) : Prop := components p = components q.

Global Instance path_equiv_equivalence : Equivalence path_equiv.
Proof. split; unfold path_equiv; [by intros ?|by intros ? ? ->|by intros ? ? ? -> ->]. Qed.

Global Instance path_starts_with_proper :
  Proper (path_equiv ==> path_equiv ==> eq) path_starts_with.
Proof. intros p p' Hp q q' Hq. unfold path_starts_with. by rewrite Hp, Hq. Qed.

Global Instance path_eqb_proper : Proper (path_equiv ==> path_equiv ==> eq) path_eqb.
Proof. intros p p' Hp q q' Hq. unfold path_eqb. by rewrite Hp, Hq. Qed.

Global Instance has_parent_dir_proper : Proper (path_equiv ==> eq) has_parent_dir.
Proof. intros p p' Hp. unfold has_parent_dir. by rewrite Hp. Qed.

(** A separator-free name other than [.] and [..] is one component. *)
Definition one_component (s : bytes) : Prop :=
  has_byte SLASH s = false /\ s <> [] /\ s <> [DOT] /\ s <> [DOT; DOT].

Lemma one_component_components s :
  one_component s -> components s = [Normal s] /\ is_absolute s = false /\ leading_dot s = false.
Proof.
  intros (Hs & Hn & Hd & Hdd).
  assert (is_absolute s = false) as Ha.
  { destruct s as [|b s]; [done|]. cbn in Hs |- *. apply orb_false_iff in Hs as [Hs _]. by rewrite Z.eqb_sym. }
  assert (leading_dot s = false) as Hl
    by (unfold leading_dot; rewrite split_on_single by done; by apply bool_decide_eq_false).
  split; [|done]. rewrite components_relative, Hl by done. rewrite split_on_single by done.
  unfold body_components. cbn. unfold skip_seg, comp_of.
  assert (is_nil s = false) as -> by (by destruct s).
  rewrite (bool_decide_eq_false_2 (s = [DOT])) by done. cbn.
  by rewrite (bool_decide_eq_false_2 (s = [DOT; DOT])) by done.
Qed.
