(* ===== verification/IpText.v ===== *)
(** Textual IP addresses: [FromStr] of [Ipv4Addr], [Ipv6Addr] and [IpAddr].

    The parser of [core::net], with its greedy digit reader, its limits on the
    number of digits and its treatment of [::] and of an embedded IPv4 tail.  The
    components take the address parser as an argument where no theorem depends on
    it; the plan builder and the examples use this one. *)

From S2P Require Import Prelude Bytes Str Plan.

(** A reader: the value and the rest, or [None] with the position unchanged. *)
Abbreviation reader A := (bytes -> option (A * bytes)).

Definition read_given_char (c : Z) : reader unit := fun s =>
  match s with b :: t => if b =? c then Some ((), t) else None | [] => None end.

Definition hex_digit (b : Z) : option Z :=
  if is_digit b then Some (b - 48)
  else if (97 <=? b) && (b <=? 102) then Some (b - 87)
  else if (65 <=? b) && (b <=? 70) then Some (b - 55)
  else None.
Definition digit (radix b : Z) : option Z :=
  match hex_digit b with Some d => if d <? radix then Some d else None | None => None end.

(** [read_number]: at most [max_digits] digits; no leading zero unless [zero_prefix]. *)
Fixpoint read_digits (radix mx : Z) (rem : nat) (acc : Z) (s : bytes) {struct s} : option (Z * bytes) :=
  match s with
  | [] => Some (acc, [])
  | b :: t =>
      match digit radix b with
      | None => Some (acc, s)
      | Some d =>
          match rem with
          | O => None
          | S rem => if mx <? radix * acc + d then None
                      else read_digits radix mx rem (radix * acc + d) t
          end
      end
  end.
Definition read_number (radix mx : Z) (max_digits : nat) (zero_prefix : bool) : reader Z := fun s =>
  match s with
  | [] => None
  | b :: t =>
      match digit radix b with
      | None => None
      | Some _ =>
          match read_digits radix mx max_digits 0 s with
          | None => None
          | Some (v, r) =>
              if negb zero_prefix && (b =? 48) && (1 <? blen s - blen r) then None else Some (v, r)
          end
      end
  end.

Definition read_separator {A} (sep : Z) (index : nat) (inner : reader A) : reader A := fun s =>
  match index with
  | O => inner s
  | S _ => match read_given_char sep s with Some (_, t) => inner t | None => None end
  end.

Definition read_octet (i : nat) : reader Z := read_separator DOT i (read_number 10 255 3 false).

Definition read_ipv4_addr : reader bytes := fun s =>
  match read_octet 0 s with
  | None => None
  | Some (a, s) =>
    match read_octet 1 s with
    | None => None
    | Some (b, s) =>
      match read_octet 2 s with
      | None => None
      | Some (c, s) =>
        match read_octet 3 s with Some (d, s) => Some ([a; b; c; d], s) | None => None end
      end
    end
  end.

(** [read_groups] into a slice of [limit] groups from index [i]: the 16-bit groups
    read, whether an IPv4 tail was, and the rest. *)
Fixpoint read_groups (limit i : nat) (s : bytes) : list Z * bool * bytes :=
  match limit with
  | O => ([], false, s)
  | S limit' =>
      let group :=
        match read_separator COLON i (read_number 16 65535 4 true) s with
        | None => ([], false, s)
        | Some (g, t) => let '(gs, v4, r) := read_groups limit' (S i) t in (g :: gs, v4, r)
        end in
      match limit', read_separator COLON i read_ipv4_addr s with
      | S _, Some ([a; b; c; d], t) => ([256 * a + b; 256 * c + d], true, t)
      | _, _ => group
      end
  end.

Definition group_octets (gs : list Z) : bytes := flat_map (fun g => [g / 256; g mod 256]) gs.

Definition read_ipv6_addr : reader bytes := fun s =>
  let '(head, head_ipv4, s) := read_groups 8 0 s in
  if Nat.eqb (length head) 8 then Some (group_octets head, s)
  else if head_ipv4 then None
  else match read_given_char COLON s with
  | None => None
  | Some (_, s) =>
    match read_given_char COLON s with
    | None => None
    | Some (_, s) =>
        let '(tail, _, s) := read_groups (8 - (length head + 1)) 0 s in
        Some (group_octets (head ++ replicate (8 - length head - length tail) 0 ++ tail), s)
    end
  end.

(** The whole string must be read. *)
Definition parse_with {A} (r : reader A) (s : bytes) : option A :=
  match r s with Some (a, []) => Some a | _ => None end.

Definition parse_ipv4 (s : bytes) : option bytes :=
  if 15 <? blen s then None else parse_with read_ipv4_addr s.
Definition parse_ipv6 (s : bytes) : option bytes := parse_with read_ipv6_addr s.
Definition parse_ip (s : bytes) : option ip_addr :=
  match parse_ipv4 s with
  | Some o => Some (V4 o)
  | None => match parse_ipv6 s with Some o => Some (V6 o) | None => None end
  end.

(** * Every address read is well-formed *)

Lemma digit_bound radix b d : digit radix b = Some d -> 0 <= d < radix.
Proof.
  unfold digit, hex_digit, is_digit. intros H.
  repeat case_match; simplify_eq; zbool; lia.
Qed.

Lemma read_digits_bound radix mx rem acc s v r :
  0 <= acc <= mx -> read_digits radix mx rem acc s = Some (v, r) -> 0 <= v <= mx.
Proof.
  revert rem acc; induction s as [|b s IH]; intros rem acc Ha; cbn; [by intros [= <- <-]|].
  destruct (digit radix b) as [d|] eqn:E; [|by intros [= <- <-]]. apply digit_bound in E.
  destruct rem as [|rem]; [done|]. destruct (Z.ltb_spec mx (radix * acc + d)); [done|].
  apply IH. nia.
Qed.

Lemma read_number_bound radix mx n zp s v r :
  0 <= mx -> read_number radix mx n zp s = Some (v, r) -> 0 <= v <= mx.
Proof.
  intros Hm. unfold read_number. destruct s as [|b s]; [done|]. destruct (digit radix b); [|done].
  destruct (read_digits radix mx n 0 (b :: s)) as [[v' r']|] eqn:E; [|done].
  apply read_digits_bound in E; [|lia]. case_match; [done|]. by intros [= <- <-].
Qed.

Lemma read_separator_bound mx sep i (inner : reader Z) s v r :
  (forall s v r, inner s = Some (v, r) -> 0 <= v <= mx) ->
  read_separator sep i inner s = Some (v, r) -> 0 <= v <= mx.
Proof.
  intros Hi. destruct i; cbn; [apply Hi|].
  destruct (read_given_char sep s) as [[_ t]|]; [apply Hi|done].
Qed.

Lemma read_octet_ok i s v r : read_octet i s = Some (v, r) -> byte_ok v.
Proof.
  apply (read_separator_bound 255). intros s' v' r'. by apply read_number_bound.
Qed.

Lemma read_ipv4_ok s o r : read_ipv4_addr s = Some (o, r) -> bytes_ok o /\ length o = 4%nat.
Proof.
  unfold read_ipv4_addr.
  destruct (read_octet 0 s) as [[a s1]|] eqn:E1; [|done].
  destruct (read_octet 1 s1) as [[b s2]|] eqn:E2; [|done].
  destruct (read_octet 2 s2) as [[c s3]|] eqn:E3; [|done].
  destruct (read_octet 3 s3) as [[d s4]|] eqn:E4; [|done]. intros [= <- <-].
  split; [|done]. repeat constructor; (eapply read_octet_ok; eassumption).
Qed.

Lemma read_groups_ok limit i s gs v4 r :
  read_groups limit i s = (gs, v4, r) ->
  Forall in_u16 gs /\ (length gs <= limit)%nat.
Proof.
  revert i s gs v4 r; induction limit as [|limit IH]; intros i s gs v4 r; cbn [read_groups].
  { by intros [= <- <- <-]. }
  set (group := match read_separator COLON i (read_number 16 65535 4 true) s with
    | Some (g, t) => let '(gs0, v5, r0) := read_groups limit (S i) t in (g :: gs0, v5, r0)
    | None => ([], false, s) end).
  assert (group = (gs, v4, r) -> Forall in_u16 gs /\ (length gs <= S limit)%nat) as Hg.
  { unfold group. destruct (read_separator COLON i _ s) as [[g t]|] eqn:E.
    - destruct (read_groups limit (S i) t) as [[gs' v'] r'] eqn:Er. apply IH in Er as [Hf Hl].
      intros [= <- <- <-]. split; [constructor; [|done]|cbn; lia].
      eapply (read_separator_bound 65535) in E; [in_range|]. intros s' v'' r''.
      by apply read_number_bound.
    - intros [= <- <- <-]. split; [constructor|cbn; lia]. }
  destruct limit as [|limit]; [exact Hg|].
  destruct (read_separator COLON i read_ipv4_addr s) as [[o t]|] eqn:E; [|exact Hg].
  assert (bytes_ok o /\ length o = 4%nat) as [Hb Hl].
  { destruct i; cbn in E; [by eapply read_ipv4_ok|].
    destruct (read_given_char COLON s) as [[_ t']|]; [by eapply read_ipv4_ok|done]. }
  destruct o as [|a [|b [|c [|d [|? ?]]]]]; try done. intros [= <- <- <-].
  split; [|cbn; lia]. unfold bytes_ok, byte_ok in Hb. rewrite !Forall_cons in *.
  destruct Hb as (?&?&?&?&_). split; [in_range|split; [in_range|constructor]].
Qed.

Lemma group_octets_ok gs :
  Forall in_u16 gs -> bytes_ok (group_octets gs) /\ length (group_octets gs) = (2 * length gs)%nat.
Proof.
  induction 1 as [|g gs Hg _ [IH1 IH2]]; [split; [constructor|done]|].
  change (group_octets (g :: gs)) with (g / 256 :: g mod 256 :: group_octets gs). split.
  - apply Forall_cons; split; [|apply Forall_cons; split; [|done]]; unfold byte_ok.
    + split; [apply Z.div_pos; in_range|]. apply Z.lt_succ_r, Z.div_lt_upper_bound; in_range.
    + pose proof (Z.mod_pos_bound g 256). lia.
  - cbn [length]. lia.
Qed.

Lemma read_ipv6_ok s o r : read_ipv6_addr s = Some (o, r) -> bytes_ok o /\ length o = 16%nat.
Proof.
  unfold read_ipv6_addr. destruct (read_groups 8 0 s) as [[head v4] s1] eqn:E1.
  apply read_groups_ok in E1 as [Hh Hl]. destruct (Nat.eqb_spec (length head) 8) as [E8|E8].
  { intros [= <- <-]. destruct (group_octets_ok head) as [? ->]; [done|]. rewrite E8. done. }
  destruct v4; [done|]. destruct (read_given_char COLON s1) as [[_ s2]|]; [|done].
  destruct (read_given_char COLON s2) as [[_ s3]|]; [|done].
  destruct (read_groups _ 0 s3) as [[tail v4'] s4] eqn:E2. apply read_groups_ok in E2 as [Ht Hl2].
  intros [= <- <-]. destruct (group_octets_ok
    (head ++ replicate (8 - length head - length tail) 0 ++ tail)) as [? ->].
  - apply Forall_app; split; [done|]. apply Forall_app; split; [|done].
    apply Forall_replicate. in_range.
  - split; [done|]. rewrite !length_app, length_replicate. lia.
Qed.

Lemma parse_ip_ok s a : parse_ip s = Some a -> ip_ok a.
Proof.
  unfold parse_ip, parse_ipv4, parse_ipv6, parse_with.
  destruct (if 15 <? blen s then None else _) as [o|] eqn:E.
  - intros [= <-]. destruct (15 <? blen s); [done|].
    destruct (read_ipv4_addr s) as [[o' [|]]|] eqn:E'; simplify_eq. by apply read_ipv4_ok in E'.
  - destruct (read_ipv6_addr s) as [[o [|]]|] eqn:E'; try done. intros [= <-].
    by apply read_ipv6_ok in E'.
Qed.

Example parse_ip_examples :
  parse_ip (ascii_bytes "169.254.169.254") = Some (V4 [169; 254; 169; 254]) /\
  parse_ip (ascii_bytes "010.0.0.1") = None /\
  parse_ip (ascii_bytes "fd00:ec2::254") =
    Some (V6 [253; 0; 14; 194; 0; 0; 0; 0; 0; 0; 0; 0; 0; 0; 2; 84]) /\
  parse_ip (ascii_bytes "::ffff:1.2.3.4") =
    Some (V6 [0; 0; 0; 0; 0; 0; 0; 0; 0; 0; 255; 255; 1; 2; 3; 4]) /\
  parse_ip (ascii_bytes "1::2::3") = None.
Proof. by vm_compute. Qed.
