(* ===== verification/PlanWire.v ===== *)
(** The plan codec, [kennel-lib-spawn/src/wire.rs].

    The writer half is modelled as the bytes each call appends ([Writer] is an
    append-only buffer), the reader half with the cursor of [Cursor], in the
    order of the source.  The well-formedness predicates say what a value must
    satisfy for its encoding to be readable; the decoders produce nothing else.

    Theorems: the three round trips, the bounds of everything a decoder
    returns, and the refusal of trailing and of truncated input. *)

From S2P Require Import Prelude Bytes Cursor Plan.

Inductive PlanWireError : Type := Truncated | TooLarge | BadTag | BadString | BadResource.

(** ** Writer *)

Definition w_u8 (v : Z) : bytes := [v].
Definition w_bool (v : bool) : bytes := [if v then 1 else 0].
Definition w_u16 (v : Z) : bytes := le_bytes 2 v.
Definition w_u32 (v : Z) : bytes := le_bytes 4 v.
Definition w_u64 (v : Z) : bytes := le_bytes 8 v.
Definition w_i64 (v : Z) : bytes := le_bytes 8 (to_twos 64 v).
Definition w_bytes (b : bytes) : bytes := w_u32 (sat_u32 (blen b)) ++ b.
Definition w_fixed (b : bytes) : bytes := b.
Definition w_path (p : bytes) : bytes := w_bytes p.
Definition w_count (n : Z) : bytes := w_u32 (sat_u32 n).

(** [w.count(v.len()); for x in v { put(x) }]. *)
Definition w_vec {A} (put : A -> bytes) (l : list A) : bytes :=
  w_count (blen l) ++ flat_map put l.
(** [None => w.bool(false), Some(x) => { w.bool(true); put(x) }]. *)
Definition w_opt {A} (put : A -> bytes) (o : option A) : bytes :=
  match o with None => w_bool false | Some x => w_bool true ++ put x end.

(** ** Reader *)

Abbreviation rd A := (parser PlanWireError A).

Definition r_take (n : Z) : rd bytes := cursor_take TooLarge Truncated n.

Definition r_u8 : rd Z :=
  s ← r_take 1; p_ok_or Truncated (head s).
Definition r_bool : rd bool :=
  b ← r_u8; if b =? 0 then mret false else if b =? 1 then mret true else p_fail BadTag.
Definition r_u16 : rd Z := s ← r_take 2; mret (le_val s).
Definition r_u32 : rd Z := s ← r_take 4; mret (le_val s).
Definition r_u64 : rd Z := s ← r_take 8; mret (le_val s).
Definition r_i64 : rd Z := s ← r_take 8; mret (of_twos 64 (le_val s)).
Definition r_fixed (n : Z) : rd bytes := r_take n.
Definition r_bytes : rd bytes :=
  len ← r_u32; if MAX_BLOB <? len then p_fail TooLarge else r_take len.
Definition r_path : rd bytes :=
  b ← r_bytes; p_ok_or BadString (from_utf8 b).
Definition r_count : rd Z :=
  n ← r_u32; if MAX_ENTRIES <? n then p_fail TooLarge else mret n.

(** [for _ in 0..r.count()? { v.push(get(r)?) }]. *)
Definition r_vec {A} (get : rd A) : rd (list A) := n ← r_count; p_vec (Z.to_nat n) get.
Definition r_opt {A} (get : rd A) : rd (option A) := p_opt r_bool get.

Definition get_string : rd bytes := b ← r_bytes; p_ok_or BadString (from_utf8 b).

(** ** Enumerations *)

Definition put_action (a : Action) : bytes :=
  match a with
  | Act_Allow => w_u8 0
  | Act_Errno e => w_u8 1 ++ w_u16 e
  | Act_KillProcess => w_u8 2
  | Act_KillThread => w_u8 3
  | Act_Trap => w_u8 4
  | Act_Log => w_u8 5
  end.

Definition get_action : rd Action :=
  t ← r_u8;
  if t =? 0 then mret Act_Allow
  else if t =? 1 then (e ← r_u16; mret (Act_Errno e))
  else if t =? 2 then mret Act_KillProcess
  else if t =? 3 then mret Act_KillThread
  else if t =? 4 then mret Act_Trap
  else if t =? 5 then mret Act_Log
  else p_fail BadTag.

Definition put_opt_str (v : option bytes) : bytes := w_opt w_bytes v.
Definition get_opt_str : rd (option bytes) := r_opt get_string.

Definition ttl_action_byte (a : TtlAction) : Z :=
  match a with Ttl_Exit => 0 | Ttl_Warn => 1 | Ttl_Renew => 2 end.
Definition ttl_action_from_byte (b : Z) : TtlAction :=
  if b =? 1 then Ttl_Warn else if b =? 2 then Ttl_Renew else Ttl_Exit.

Definition persistence_byte (p : Persistence) : Z :=
  match p with Discard => 0 | Persist => 1 end.
Definition get_persistence : rd Persistence :=
  b ← r_u8; if b =? 0 then mret Discard else if b =? 1 then mret Persist else p_fail BadTag.

(** ** Elements of the vectors *)

Definition put_fs_rule (x : bytes * Z) : bytes := w_path x.1 ++ w_u64 x.2.
Definition get_fs_rule : rd (bytes * Z) :=
  path ← r_path; a ← r_u64; mret (path, fs_from_bits_truncate a).

Definition put_net_rule (x : Z * Z) : bytes := w_u16 x.1 ++ w_u64 x.2.
Definition get_net_rule : rd (Z * Z) :=
  port ← r_u16; a ← r_u64; mret (port, net_from_bits_truncate a).

Definition put_pair (x : bytes * bytes) : bytes := w_path x.1 ++ w_path x.2.
Definition get_pair : rd (bytes * bytes) := a ← r_path; b ← r_path; mret (a, b).

(** [resource_name(r).unwrap_or("")]. *)
Definition put_ulimit (x : Resource * Z * Z) : bytes :=
  let '(r, soft, hard) := x in
  w_bytes (default [] (resource_name r)) ++ w_u64 soft ++ w_u64 hard.
Definition get_ulimit : rd (Resource * Z * Z) :=
  name ← get_string;
  r ← p_ok_or BadResource (resource_by_name name);
  soft ← r_u64; hard ← r_u64; mret (r, soft, hard).

Definition put_aux (a : AuxProcess) : bytes := w_path (aux_path a) ++ w_vec w_bytes (aux_args a).
Definition get_aux : rd AuxProcess :=
  path ← r_path; args ← r_vec get_string; mret {| aux_path := path; aux_args := args |}.

Definition put_lpm (x : bytes * bytes) : bytes := w_fixed x.1 ++ w_fixed x.2.
Definition put_lpm_v4 (l : list LpmV4Entry) : bytes := w_vec put_lpm l.
Definition put_lpm_v6 (l : list LpmV6Entry) : bytes := w_vec put_lpm l.
Definition get_lpm_v4 : rd (list LpmV4Entry) :=
  r_vec (k ← r_fixed 8; v ← r_fixed 8; mret (k, v)).
Definition get_lpm_v6 : rd (list LpmV6Entry) :=
  r_vec (k ← r_fixed 20; v ← r_fixed 8; mret (k, v)).

Definition get_file_binds : rd (list (bytes * bytes)) := r_vec get_pair.

(** ** The view *)

Definition put_bind (b : BindMount) : bytes :=
  w_path (bm_source b) ++ w_path (bm_target b) ++ w_bool (bm_writable b) ++
  w_bool (bm_exclusive b) ++ w_bool (bm_redirected b).
Definition get_bind : rd BindMount :=
  source ← r_path; target ← r_path; writable ← r_bool; exclusive ← r_bool;
  redirected ← r_bool;
  mret {| bm_source := source; bm_target := target; bm_writable := writable;
          bm_exclusive := exclusive; bm_redirected := redirected |}.

Definition put_image (i : ImageRoot) : bytes :=
  w_path (ir_image i) ++ w_u8 (persistence_byte (ir_persistence i)) ++
  w_opt put_pair (ir_store_upper i) ++ w_vec w_path (ir_readonly i) ++
  w_vec w_path (ir_writable i).
Definition get_image : rd ImageRoot :=
  image ← r_path; persistence ← get_persistence; store_upper ← r_opt get_pair;
  readonly ← r_vec r_path; writable ← r_vec r_path;
  mret {| ir_image := image; ir_persistence := persistence; ir_store_upper := store_upper;
          ir_readonly := readonly; ir_writable := writable |}.

Definition put_overlay (o : EtcOverlay) : bytes := w_path (eo_source o) ++ w_path (eo_view_path o).
Definition get_overlay : rd EtcOverlay :=
  s ← r_path; v ← r_path; mret {| eo_source := s; eo_view_path := v |}.

Definition put_view (v : ShimView) : bytes :=
  w_path (sv_shim_root v) ++
  w_vec put_bind (sv_binds v) ++
  w_vec w_path (sv_dev_allow v) ++
  w_u32 (sv_tmp_size_mib v) ++
  w_bool (sv_proc_hidepid v) ++
  w_bool (sv_binder v) ++
  w_vec w_path (sv_mask_paths v) ++
  w_vec w_path (sv_mask_dir_paths v) ++
  w_opt put_image (sv_image v) ++
  w_vec put_overlay (sv_etc_overlays v).

Definition get_view : rd ShimView :=
  shim_root ← r_path;
  binds ← r_vec get_bind;
  dev_allow ← r_vec r_path;
  tmp_size_mib ← r_u32;
  proc_hidepid ← r_bool;
  binder ← r_bool;
  mask_paths ← r_vec r_path;
  mask_dir_paths ← r_vec r_path;
  image ← r_opt get_image;
  etc_overlays ← r_vec get_overlay;
  mret {| sv_shim_root := shim_root; sv_binds := binds; sv_dev_allow := dev_allow;
          sv_tmp_size_mib := tmp_size_mib; sv_proc_hidepid := proc_hidepid;
          sv_binder := binder; sv_mask_paths := mask_paths;
          sv_mask_dir_paths := mask_dir_paths; sv_image := image;
          sv_etc_overlays := etc_overlays |}.

(** ** Plan *)

Record Bpf : Type := {
  b_allow_v4 : list LpmV4Entry; b_deny_v4 : list LpmV4Entry;
  b_allow_v6 : list LpmV6Entry; b_deny_v6 : list LpmV6Entry;
  b_bind_allow_v4 : list LpmV4Entry; b_bind_deny_v4 : list LpmV4Entry;
  b_bind_allow_v6 : list LpmV6Entry; b_bind_deny_v6 : list LpmV6Entry;
}.

Definition get_bpf_acls : rd Bpf :=
  allow_v4 ← get_lpm_v4; deny_v4 ← get_lpm_v4; allow_v6 ← get_lpm_v6; deny_v6 ← get_lpm_v6;
  bind_allow_v4 ← get_lpm_v4; bind_deny_v4 ← get_lpm_v4;
  bind_allow_v6 ← get_lpm_v6; bind_deny_v6 ← get_lpm_v6;
  mret {| b_allow_v4 := allow_v4; b_deny_v4 := deny_v4; b_allow_v6 := allow_v6;
          b_deny_v6 := deny_v6; b_bind_allow_v4 := bind_allow_v4;
          b_bind_deny_v4 := bind_deny_v4; b_bind_allow_v6 := bind_allow_v6;
          b_bind_deny_v6 := bind_deny_v6 |}.

Definition is_some {A} (o : option A) : bool := match o with Some _ => true | None => false end.

Definition encode_plan (p : Plan) : bytes :=
  w_u32 (pl_namespaces p) ++
  w_path (pl_cgroup p) ++
  w_bool (pl_cgroup_join p) ++
  w_opt put_view (pl_view p) ++
  w_opt w_path (pl_new_root p) ++
  w_vec put_fs_rule (pl_landlock_fs p) ++
  w_vec put_net_rule (pl_landlock_net p) ++
  w_vec w_i64 (pl_seccomp_deny p) ++
  put_action (pl_seccomp_deny_action p) ++
  put_lpm_v4 (pl_bpf_allow_v4 p) ++
  put_lpm_v4 (pl_bpf_deny_v4 p) ++
  put_lpm_v6 (pl_bpf_allow_v6 p) ++
  put_lpm_v6 (pl_bpf_deny_v6 p) ++
  put_lpm_v4 (pl_bpf_bind_allow_v4 p) ++
  put_lpm_v4 (pl_bpf_bind_deny_v4 p) ++
  put_lpm_v6 (pl_bpf_bind_allow_v6 p) ++
  put_lpm_v6 (pl_bpf_bind_deny_v6 p) ++
  w_fixed (pl_bpf_meta p) ++
  w_vec w_u16 (pl_bind_allowed_ports p) ++
  w_vec put_pair (pl_file_binds p) ++
  w_opt (w_vec w_u32) (pl_supplementary_groups p) ++
  w_vec put_ulimit (pl_ulimits p) ++
  w_bool (is_some (pl_interactive_return_fd p)) ++
  w_bool (is_some (pl_stdio_fds p)) ++
  w_vec put_aux (pl_aux p) ++
  w_opt w_u64 (pl_ttl_seconds p) ++
  w_u8 (ttl_action_byte (pl_ttl_action p)) ++
  put_opt_str (pl_hostname p).

Definition get_plan : rd (Plan * bool) :=
  ns ← r_u32;
  cgroup ← r_path;
  cgroup_join ← r_bool;
  view ← r_opt get_view;
  new_root ← r_opt r_path;
  landlock_fs ← r_vec get_fs_rule;
  landlock_net ← r_vec get_net_rule;
  seccomp_deny ← r_vec r_i64;
  seccomp_deny_action ← get_action;
  bpf ← get_bpf_acls;
  bpf_meta ← r_fixed 64;
  bind_allowed_ports ← r_vec r_u16;
  file_binds ← get_file_binds;
  supplementary_groups ← r_opt (r_vec r_u32);
  ulimits ← r_vec get_ulimit;
  interactive ← r_bool;
  _stdio_present ← r_bool;
  aux ← r_vec get_aux;
  ttl_seconds ← r_opt r_u64;
  ttl ← r_u8;
  hostname ← get_opt_str;
  mret ({| pl_namespaces := ns_from_bits_truncate ns; pl_cgroup := cgroup;
           pl_cgroup_join := cgroup_join; pl_view := view; pl_new_root := new_root;
           pl_landlock_fs := landlock_fs; pl_landlock_net := landlock_net;
           pl_seccomp_deny := seccomp_deny; pl_seccomp_deny_action := seccomp_deny_action;
           pl_bpf_allow_v4 := b_allow_v4 bpf; pl_bpf_deny_v4 := b_deny_v4 bpf;
           pl_bpf_allow_v6 := b_allow_v6 bpf; pl_bpf_deny_v6 := b_deny_v6 bpf;
           pl_bpf_bind_allow_v4 := b_bind_allow_v4 bpf;
           pl_bpf_bind_deny_v4 := b_bind_deny_v4 bpf;
           pl_bpf_bind_allow_v6 := b_bind_allow_v6 bpf;
           pl_bpf_bind_deny_v6 := b_bind_deny_v6 bpf;
           pl_bpf_meta := bpf_meta; pl_bind_allowed_ports := bind_allowed_ports;
           pl_file_binds := file_binds; pl_supplementary_groups := supplementary_groups;
           pl_ulimits := ulimits; pl_interactive_return_fd := None; pl_workload_fd := None;
           pl_stdio_fds := None; pl_aux := aux; pl_ttl_seconds := ttl_seconds;
           pl_ttl_action := ttl_action_from_byte ttl; pl_hostname := hostname |},
        interactive).

Definition decode_plan (buf : bytes) : result PlanWireError (Plan * bool) :=
  run_exact TooLarge get_plan buf.

(** ** Supervision *)

Definition encode_supervision (s : Supervision) : bytes :=
  w_path (su_program s) ++
  w_vec w_bytes (su_argv s) ++
  w_vec (fun kv => w_bytes kv.1 ++ w_bytes kv.2) (su_env s) ++
  w_opt w_path (su_cwd s) ++
  w_u32 (su_drop_uid s) ++
  w_u32 (su_drop_gid s) ++
  w_opt (w_vec w_u32) (su_groups s) ++
  w_vec put_fs_rule (su_landlock_fs s) ++
  w_vec put_net_rule (su_landlock_net s) ++
  w_vec w_i64 (su_seccomp_deny s) ++
  put_action (su_seccomp_deny_action s) ++
  w_vec put_ulimit (su_ulimits s) ++
  w_vec put_aux (su_aux s) ++
  w_bool (su_interactive s) ++
  w_bool (su_workload_fd_pinned s) ++
  w_bool (su_stdio_injected s) ++
  w_opt w_u64 (su_ttl_seconds s) ++
  w_u8 (su_log_level s).

Definition get_env_pair : rd (bytes * bytes) := k ← get_string; v ← get_string; mret (k, v).

Definition get_supervision : rd Supervision :=
  program ← r_path;
  argv ← r_vec get_string;
  env ← r_vec get_env_pair;
  cwd ← r_opt r_path;
  drop_uid ← r_u32;
  drop_gid ← r_u32;
  groups ← r_opt (r_vec r_u32);
  landlock_fs ← r_vec get_fs_rule;
  landlock_net ← r_vec get_net_rule;
  seccomp_deny ← r_vec r_i64;
  seccomp_deny_action ← get_action;
  ulimits ← r_vec get_ulimit;
  aux ← r_vec get_aux;
  interactive ← r_bool;
  workload_fd_pinned ← r_bool;
  stdio_injected ← r_bool;
  ttl_seconds ← r_opt r_u64;
  log_level ← r_u8;
  mret {| su_program := program; su_argv := argv; su_env := env; su_cwd := cwd;
          su_drop_uid := drop_uid; su_drop_gid := drop_gid; su_groups := groups;
          su_landlock_fs := landlock_fs; su_landlock_net := landlock_net;
          su_seccomp_deny := seccomp_deny; su_seccomp_deny_action := seccomp_deny_action;
          su_ulimits := ulimits; su_aux := aux; su_interactive := interactive;
          su_workload_fd_pinned := workload_fd_pinned; su_stdio_injected := stdio_injected;
          su_ttl_seconds := ttl_seconds; su_log_level := log_level |}.

Definition decode_supervision (buf : bytes) : result PlanWireError Supervision :=
  run_exact TooLarge get_supervision buf.

(** ** Construction half *)

Definition put_loopback (l : LoopbackAddr) : bytes :=
  w_bytes (octets (lb_addr l)) ++ w_u8 (lb_prefix l).

Definition get_loopback : rd LoopbackAddr :=
  o ← r_bytes;
  addr ← (if blen o =? 4 then mret (V4 o)
          else if blen o =? 16 then mret (V6 o)
          else p_fail BadTag);
  prefix ← r_u8;
  mret {| lb_addr := addr; lb_prefix := prefix |}.

Definition encode_construction (c : ConstructionHalf) : bytes :=
  w_u32 (ch_namespaces c) ++
  w_path (ch_cgroup c) ++
  w_bool (ch_cgroup_join c) ++
  w_opt put_view (ch_view c) ++
  w_opt w_path (ch_new_root c) ++
  w_vec put_pair (ch_file_binds c) ++
  w_vec w_u32 (ch_granted_gids c) ++
  w_bool (ch_lo c) ++
  w_u16 (ch_ctx c) ++
  w_vec put_loopback (ch_loopback c) ++
  w_bool (ch_tun c) ++
  put_opt_str (ch_hostname c) ++
  w_bool (ch_pty_fd_present c) ++
  w_bool (ch_workload_fd_present c) ++
  w_bool (ch_stdio_present c).

Definition get_construction : rd ConstructionHalf :=
  ns ← r_u32;
  cgroup ← r_path;
  cgroup_join ← r_bool;
  view ← r_opt get_view;
  new_root ← r_opt r_path;
  file_binds ← r_vec get_pair;
  granted_gids ← r_vec r_u32;
  lo ← r_bool;
  ctx ← r_u16;
  loopback ← r_vec get_loopback;
  tun ← r_bool;
  hostname ← get_opt_str;
  pty ← r_bool;
  workload ← r_bool;
  stdio ← r_bool;
  mret {| ch_namespaces := ns_from_bits_truncate ns; ch_cgroup := cgroup;
          ch_cgroup_join := cgroup_join; ch_view := view; ch_new_root := new_root;
          ch_file_binds := file_binds; ch_granted_gids := granted_gids; ch_lo := lo;
          ch_ctx := ctx; ch_loopback := loopback; ch_tun := tun; ch_hostname := hostname;
          ch_pty_fd_present := pty; ch_workload_fd_present := workload;
          ch_stdio_present := stdio |}.

Definition decode_construction (buf : bytes) : result PlanWireError ConstructionHalf :=
  run_exact TooLarge get_construction buf.

(** * Codec proofs *)

(** Fixed-width little-endian integers. *)
Lemma take_decodes bs n v :
  blen bs = n -> bs = v -> decodes (r_take n) bs v.
Proof. intros <- <-. apply decodes_take. Qed.

Lemma le_decodes (n : nat) (f : Z -> Z) v u :
  0 <= u < 256 ^ Z.of_nat n -> f u = v ->
  decodes (E := PlanWireError) (s ← r_take (Z.of_nat n); mret (f (le_val s))) (le_bytes n u) v.
Proof.
  intros Hu <-. pattern u at 2. rewrite <- (le_val_bytes n u Hu).
  apply (decodes_last _ (fun s => f (le_val s))). apply take_decodes; [|done].
  by rewrite length_le_bytes.
Qed.

Lemma le_yields (n : nat) (f : Z -> Z) (P : Z -> Prop) :
  (forall u, 0 <= u < 256 ^ Z.of_nat n -> P (f u)) ->
  yields (E := PlanWireError) (s ← r_take (Z.of_nat n); mret (f (le_val s))) P.
Proof.
  intros H. eapply yields_bind; [apply yields_take|]; intros bs [Hok Hl].
  apply yields_ret, H. rewrite <- Hl. by apply le_val_bound.
Qed.

Lemma le_stable (n : Z) (f : Z -> Z) :
  stable (E := PlanWireError) (s ← r_take n; mret (f (le_val s))).
Proof. unfold r_take. auto with codec. Qed.

Global Instance codec_u16 : WireCodec w_u16 r_u16 in_u16.
Proof.
  unfold in_u16, u16_max. split; [intros v Hv|..].
  - apply (le_decodes 2 id); [lia|done].
  - apply (le_yields 2 id). unfold id; lia.
  - apply (le_stable 2 id).
Qed.

Global Instance codec_u32 : WireCodec w_u32 r_u32 in_u32.
Proof.
  unfold in_u32, u32_max. split; [intros v Hv|..].
  - apply (le_decodes 4 id); [lia|done].
  - apply (le_yields 4 id). unfold id; lia.
  - apply (le_stable 4 id).
Qed.

Global Instance codec_u64 : WireCodec w_u64 r_u64 in_u64.
Proof.
  unfold in_u64, u64_max. split; [intros v Hv|..].
  - apply (le_decodes 8 id); [lia|done].
  - apply (le_yields 8 id). unfold id; lia.
  - apply (le_stable 8 id).
Qed.

Global Instance codec_i64 : WireCodec w_i64 r_i64 in_i64.
Proof.
  unfold in_i64. split; [intros v Hv|..].
  - apply (le_decodes 8 (of_twos 64)); [apply (Z.mod_pos_bound v (2 ^ 64)); lia|].
    apply of_to_twos; lia.
  - apply (le_yields 8 (of_twos 64)); intros u Hu.
    pose proof (of_twos_bound 64 u). lia.
  - apply (le_stable 8 (of_twos 64)).
Qed.

Global Instance codec_u8 : WireCodec w_u8 r_u8 in_u8.
Proof.
  split; [intros v Hv|..].
  - unfold w_u8, r_u8. rewrite <- (app_nil_r [v]).
    eapply decodes_bind; [by apply take_decodes|]. apply decodes_ret.
  - eapply yields_bind; [apply yields_take|]; intros bs [Hok Hl].
    apply yields_ok_or; intros b Hb. destruct bs; [done|]. injection Hb as ->.
    by inversion Hok.
  - unfold r_u8, r_take. auto with codec.
Qed.

(** A tag read with [r_u8] followed by a dispatch. *)
Lemma tag_decodes {A} (t : Z) (f : Z -> rd A) bs v :
  in_u8 t -> decodes (f t) bs v -> decodes (r_u8 ≫= f) (w_u8 t ++ bs) v.
Proof. intros Ht. eapply decodes_bind. by apply codec_decodes. Qed.

Lemma tag_decodes_nil {A} (t : Z) (f : Z -> rd A) v :
  in_u8 t -> decodes (f t) [] v -> decodes (r_u8 ≫= f) (w_u8 t) v.
Proof. intros Ht. rewrite <- (app_nil_r (w_u8 t)). by apply tag_decodes. Qed.

Global Instance codec_bool : WireCodec w_bool r_bool (fun _ => True).
Proof.
  split; [intros v _|..].
  - unfold r_bool. destruct v; (apply tag_decodes_nil; [cbn; in_range|apply decodes_ret]).
  - eapply yields_bind; [apply codec_yields|]; intros b _.
    repeat case_match; auto with codec.
  - apply stable_bind; [apply codec_stable|]; intros b. repeat case_match; auto with codec.
Qed.

Global Instance codec_blob : WireCodec w_bytes r_bytes blob_ok.
Proof.
  split; [intros v [Hok Hl]|..].
  - unfold w_bytes, r_bytes. unfold MAX_BLOB in *. rewrite sat_u32_small by (unfold u32_max; lia).
    eapply decodes_bind; [apply codec_decodes; unfold in_u32, u32_max; lia|].
    cbn. rewrite (proj2 (Z.ltb_ge _ _)) by done. by apply take_decodes.
  - eapply yields_bind; [apply codec_yields|]; intros n _.
    case_match; [apply yields_fail|]. zbool.
    eapply yields_weaken; [apply yields_take|]. intros bs [? <-]. by split.
  - apply stable_bind; [apply codec_stable|]; intros n.
    case_match; [apply stable_fail|apply stable_take].
Qed.

Global Instance codec_str : WireCodec w_bytes get_string str_ok.
Proof.
  split; [intros v [Hv Hu]|..].
  - unfold get_string. rewrite <- (app_nil_r (w_bytes v)).
    eapply decodes_bind; [by apply codec_decodes|].
    unfold from_utf8. rewrite Hu. apply decodes_ret.
  - eapply yields_bind; [apply codec_yields|]; intros b Hb.
    apply yields_ok_or; intros s [-> ?]%from_utf8_Some. by split.
  - apply stable_bind; [apply codec_stable|]; auto with codec.
Qed.

Global Instance codec_path : WireCodec w_path r_path str_ok := codec_str.

Global Instance codec_fixed n : WireCodec w_fixed (r_fixed n) (fixed_ok n).
Proof.
  split; [intros v [Hv <-]|..].
  - by apply take_decodes.
  - apply yields_take.
  - apply stable_take.
Qed.

Global Instance codec_count : WireCodec w_count r_count (fun n => 0 <= n <= MAX_ENTRIES).
Proof.
  split; [intros v Hv|..].
  - unfold w_count, r_count, MAX_ENTRIES in *. rewrite sat_u32_small by (unfold u32_max; lia).
    rewrite <- (app_nil_r (w_u32 v)).
    eapply decodes_bind; [apply codec_decodes; unfold in_u32, u32_max; lia|].
    cbn. rewrite (proj2 (Z.ltb_ge _ _)) by lia. apply decodes_ret.
  - eapply yields_bind; [apply codec_yields|]; intros n [Hn _].
    case_match; [apply yields_fail|]. zbool. by apply yields_ret.
  - apply stable_bind; [apply codec_stable|]; intros n. case_match; auto with codec.
Qed.

Section containers.
Context {A : Type} (put : A -> bytes) (get : rd A) (ok : A -> Prop).
Context {C : WireCodec put get ok}.

Global Instance codec_w_vec : WireCodec (w_vec put) (r_vec get) (vec_ok ok).
Proof.
  split; [intros l [Hl Hok]|..].
  - eapply decodes_bind; [apply codec_decodes; cbv beta; lia|]. cbn. rewrite Nat2Z.id.
    by eapply codec_vec.
  - eapply yields_bind; [apply codec_yields|]; intros n Hn.
    eapply yields_weaken; [apply yields_vec, codec_yields|].
    intros l [Hl ?]. cbn in Hn. split; [lia|done].
  - apply stable_bind; [apply codec_stable|]; intros n. apply stable_vec, codec_stable.
Qed.

Global Instance codec_w_opt : WireCodec (w_opt put) (r_opt get) (opt_ok ok).
Proof.
  split; [intros o Ho|..].
  - apply decodes_opt; [by apply codec_decodes..|]. intros x ->. by apply codec_decodes.
  - eapply yields_weaken; [apply yields_opt; apply codec_yields|].
    intros [x|] Hx; cbn; auto.
  - apply stable_opt; apply codec_stable.
Qed.
End containers.

(** ** Records *)

(** Walk a record decoder field by field. *)
Ltac codec_fields :=
  repeat (first
    [ eapply decodes_bind; [by apply codec_decodes|]
    | eapply decodes_last; by apply codec_decodes ]; cbv beta).

Ltac codec_yields_step :=
  eapply yields_bind; [apply codec_yields|]; intros ? ?.
Ltac codec_stable_all :=
  repeat (apply stable_bind; [apply codec_stable|]; intros ?); auto with codec.

Global Instance codec_action : WireCodec put_action get_action action_ok.
Proof.
  split; [intros v Hv|..].
  - destruct v; unfold put_action, get_action; first
      [ apply tag_decodes_nil; [in_range|]; apply decodes_ret
      | apply tag_decodes; [in_range|]; apply (decodes_last _ Act_Errno); by apply codec_decodes ].
  - eapply yields_bind; [apply codec_yields|]; intros t _.
    repeat case_match; auto with codec; try by apply yields_ret.
    eapply yields_bind; [apply codec_yields|]; intros e He. by apply yields_ret.
  - apply stable_bind; [apply codec_stable|]; intros t.
    repeat case_match; auto with codec. codec_stable_all.
Qed.

Global Instance codec_opt_str : WireCodec put_opt_str get_opt_str (opt_ok str_ok).
Proof. apply codec_w_opt, codec_str. Qed.

Global Instance codec_persistence :
  WireCodec (fun p => w_u8 (persistence_byte p)) get_persistence (fun _ => True).
Proof.
  split; [intros v _|..].
  - destruct v; (apply tag_decodes_nil; [cbn; in_range|apply decodes_ret]).
  - eapply yields_bind; [apply codec_yields|]; intros t _.
    repeat case_match; auto with codec.
  - apply stable_bind; [apply codec_stable|]; intros t. repeat case_match; auto with codec.
Qed.

Global Instance codec_fs_rule : WireCodec put_fs_rule get_fs_rule (pair_ok str_ok access_fs_ok).
Proof.
  split; [intros [p a] [Hp Ha]; cbn [fst snd aux_path aux_args] in *|..].
  - eapply decodes_bind; [by apply codec_decodes|].
    eapply decodes_last_eq; [|by rewrite (fs_truncate_id a Ha)]. apply codec_decodes.
    unfold access_fs_ok, ACCESS_FS_ALL in *; in_range.
  - do 2 codec_yields_step. apply yields_ret. split; [done|apply fs_truncate_ok].
  - codec_stable_all.
Qed.

Global Instance codec_net_rule : WireCodec put_net_rule get_net_rule (pair_ok in_u16 access_net_ok).
Proof.
  split; [intros [p a] [Hp Ha]; cbn [fst snd aux_path aux_args] in *|..].
  - eapply decodes_bind; [by apply codec_decodes|].
    eapply decodes_last_eq; [|by rewrite (net_truncate_id a Ha)]. apply codec_decodes.
    unfold access_net_ok, ACCESS_NET_ALL in *; in_range.
  - do 2 codec_yields_step. apply yields_ret. split; [done|apply net_truncate_ok].
  - codec_stable_all.
Qed.

Global Instance codec_pair : WireCodec put_pair get_pair (pair_ok str_ok str_ok).
Proof.
  split; [intros [a b] [Ha Hb]; cbn [fst snd] in *|..].
  - codec_fields.
  - do 2 codec_yields_step. by apply yields_ret.
  - codec_stable_all.
Qed.

Global Instance codec_env_pair :
  WireCodec (fun kv => w_bytes kv.1 ++ w_bytes kv.2) get_env_pair (pair_ok str_ok str_ok).
Proof. apply codec_pair. Qed.

Global Instance codec_ulimit : WireCodec put_ulimit get_ulimit ulimit_ok.
Proof.
  split; [intros [[r soft] hard] (Hr & Hs & Hh)|..].
  - destruct (resource_name r) as [name|] eqn:En; [|by destruct r].
    unfold put_ulimit. rewrite En. eapply decodes_bind.
    { apply codec_decodes. apply (bool_decide_unpack _). by destruct r; simplify_eq/=. }
    eapply decodes_ok_or; [by apply resource_name_by_name|]. codec_fields.
  - codec_yields_step. eapply yields_bind.
    { apply yields_ok_or; intros r Hr. exact (resource_by_name_named _ _ Hr). }
    intros r Hr. do 2 codec_yields_step. apply yields_ret. split_and!; [|done..].
    intros ->. done.
  - codec_stable_all. apply stable_bind; [auto with codec|]; intros. codec_stable_all.
Qed.

Global Instance codec_aux : WireCodec put_aux get_aux aux_ok.
Proof.
  split; [intros [p a] [Hp Ha]; cbn [fst snd aux_path aux_args] in *|..].
  - codec_fields.
  - do 2 codec_yields_step. by apply yields_ret.
  - codec_stable_all.
Qed.

Global Instance codec_bind_mount : WireCodec put_bind get_bind bind_ok.
Proof.
  split; [intros [s t w e r] [Hs Ht]; cbn in Hs, Ht|..].
  - unfold put_bind, get_bind; cbn [bm_source bm_target bm_writable bm_exclusive bm_redirected].
    codec_fields.
  - do 5 codec_yields_step. by apply yields_ret.
  - codec_stable_all.
Qed.

Global Instance codec_overlay : WireCodec put_overlay get_overlay overlay_ok.
Proof.
  split; [intros [s v] [Hs Hv]; cbn in Hs, Hv|..].
  - unfold put_overlay, get_overlay; cbn [eo_source eo_view_path]. codec_fields.
  - do 2 codec_yields_step. by apply yields_ret.
  - codec_stable_all.
Qed.

Global Instance codec_image : WireCodec put_image get_image image_ok.
Proof.
  split; [intros [i p s r w] (Hi & Hs & Hr & Hw); cbn in Hi, Hs, Hr, Hw|..].
  - unfold put_image, get_image.
    cbn [ir_image ir_persistence ir_store_upper ir_readonly ir_writable].
    eapply decodes_bind; [by apply codec_decodes|].
    eapply decodes_bind; [by apply (codec_decodes (put := fun p => w_u8 (persistence_byte p)))|].
    codec_fields.
  - do 5 codec_yields_step. by apply yields_ret.
  - codec_stable_all.
Qed.

(** The fields of a record one by one; the last returns the record, which
    eta-expansion shows to be the one encoded. *)
Ltac codec_record v :=
  repeat (eapply decodes_bind; [by apply codec_decodes|]; cbv beta);
  eapply decodes_last_eq; [by apply codec_decodes|by destruct v].

Global Instance codec_view : WireCodec put_view get_view view_ok.
Proof.
  split; [intros v Hv; unfold view_ok in Hv; destruct_and! Hv|..].
  - unfold put_view, get_view. codec_record v.
  - do 10 codec_yields_step. by apply yields_ret.
  - codec_stable_all.
Qed.

Global Instance codec_lpm_v4 : WireCodec put_lpm_v4 get_lpm_v4 (vec_ok lpm_v4_ok).
Proof.
  apply codec_w_vec. split; [intros [k v] [Hk Hv]; cbn [fst snd] in *|..].
  - codec_fields.
  - do 2 codec_yields_step. by apply yields_ret.
  - codec_stable_all.
Qed.

Global Instance codec_lpm_v6 : WireCodec put_lpm_v6 get_lpm_v6 (vec_ok lpm_v6_ok).
Proof.
  apply codec_w_vec. split; [intros [k v] [Hk Hv]; cbn [fst snd] in *|..].
  - codec_fields.
  - do 2 codec_yields_step. by apply yields_ret.
  - codec_stable_all.
Qed.

Global Instance codec_loopback : WireCodec put_loopback get_loopback loopback_ok.
Proof.
  split; [intros [a p] [[Ha Hl] Hp]; cbn in Hp|..].
  - eapply decodes_bind.
    { apply codec_decodes. split; [done|]. destruct a; cbn in *; unfold MAX_BLOB; lia. }
    unfold mbind at 1. rewrite <- (app_nil_l (w_u8 _)). eapply decodes_bind.
    { destruct a; cbn in Hl |- *; rewrite Hl; apply decodes_ret. }
    eapply decodes_last_eq; [by apply codec_decodes|done].
  - eapply yields_bind; [apply codec_yields|]; intros o [Ho _].
    apply (yields_bind _ _ ip_ok).
    { repeat case_match; zbool; [apply yields_ret..|apply yields_fail];
        (split; [done|cbn; lia]). }
    intros a Ha. codec_yields_step. by apply yields_ret.
  - apply stable_bind; [apply codec_stable|]; intros o.
    apply stable_bind; [repeat case_match; auto with codec|]; intros a. codec_stable_all.
Qed.

Definition bpf_ok (b : Bpf) : Prop :=
  vec_ok lpm_v4_ok (b_allow_v4 b) /\ vec_ok lpm_v4_ok (b_deny_v4 b) /\
  vec_ok lpm_v6_ok (b_allow_v6 b) /\ vec_ok lpm_v6_ok (b_deny_v6 b) /\
  vec_ok lpm_v4_ok (b_bind_allow_v4 b) /\ vec_ok lpm_v4_ok (b_bind_deny_v4 b) /\
  vec_ok lpm_v6_ok (b_bind_allow_v6 b) /\ vec_ok lpm_v6_ok (b_bind_deny_v6 b).

(** The eight ACL vectors as [encode_plan] writes them. *)
Definition put_bpf_acls (b : Bpf) : bytes :=
  put_lpm_v4 (b_allow_v4 b) ++ put_lpm_v4 (b_deny_v4 b) ++
  put_lpm_v6 (b_allow_v6 b) ++ put_lpm_v6 (b_deny_v6 b) ++
  put_lpm_v4 (b_bind_allow_v4 b) ++ put_lpm_v4 (b_bind_deny_v4 b) ++
  put_lpm_v6 (b_bind_allow_v6 b) ++ put_lpm_v6 (b_bind_deny_v6 b).

Global Instance codec_bpf : WireCodec put_bpf_acls get_bpf_acls bpf_ok.
Proof.
  split; [intros b Hb; unfold bpf_ok in Hb; destruct_and! Hb|..].
  - unfold put_bpf_acls, get_bpf_acls. codec_record b.
  - do 8 codec_yields_step. by apply yields_ret.
  - codec_stable_all.
Qed.

Lemma ns_u32 n : ns_ok n -> in_u32 n.
Proof. unfold ns_ok, NS_ALL. in_range. Qed.

Lemma get_construction_decodes c :
  construction_ok c -> decodes get_construction (encode_construction c) c.
Proof.
  intros Hc. unfold construction_ok in Hc. destruct_and! Hc.
  unfold get_construction, encode_construction.
  eapply decodes_bind; [by apply codec_decodes, ns_u32|]; cbv beta.
  rewrite ns_truncate_id by done. codec_record c.
Qed.

Lemma get_construction_yields : yields get_construction construction_ok.
Proof.
  unfold get_construction. do 15 codec_yields_step. apply yields_ret.
  unfold construction_ok; cbn. split_and!; try done. apply ns_truncate_ok.
Qed.

Lemma get_construction_stable : stable get_construction.
Proof. unfold get_construction. codec_stable_all. Qed.

Lemma get_supervision_decodes s :
  supervision_ok s -> decodes get_supervision (encode_supervision s) s.
Proof.
  intros Hs. unfold supervision_ok in Hs. destruct_and! Hs.
  unfold get_supervision, encode_supervision. codec_record s.
Qed.

Lemma get_supervision_yields : yields get_supervision supervision_ok.
Proof.
  unfold get_supervision. do 18 codec_yields_step. apply yields_ret.
  unfold supervision_ok; cbn. split_and!; done.
Qed.

Lemma get_supervision_stable : stable get_supervision.
Proof. unfold get_supervision. codec_stable_all. Qed.

Lemma ttl_action_byte_inv a : ttl_action_from_byte (ttl_action_byte a) = a.
Proof. by destruct a. Qed.

Definition plan_bpf (p : Plan) : Bpf :=
  {| b_allow_v4 := pl_bpf_allow_v4 p; b_deny_v4 := pl_bpf_deny_v4 p;
     b_allow_v6 := pl_bpf_allow_v6 p; b_deny_v6 := pl_bpf_deny_v6 p;
     b_bind_allow_v4 := pl_bpf_bind_allow_v4 p; b_bind_deny_v4 := pl_bpf_bind_deny_v4 p;
     b_bind_allow_v6 := pl_bpf_bind_allow_v6 p; b_bind_deny_v6 := pl_bpf_bind_deny_v6 p |}.

Lemma put_plan_bpf p rest :
  put_lpm_v4 (pl_bpf_allow_v4 p) ++ put_lpm_v4 (pl_bpf_deny_v4 p) ++
  put_lpm_v6 (pl_bpf_allow_v6 p) ++ put_lpm_v6 (pl_bpf_deny_v6 p) ++
  put_lpm_v4 (pl_bpf_bind_allow_v4 p) ++ put_lpm_v4 (pl_bpf_bind_deny_v4 p) ++
  put_lpm_v6 (pl_bpf_bind_allow_v6 p) ++ put_lpm_v6 (pl_bpf_bind_deny_v6 p) ++ rest =
  put_bpf_acls (plan_bpf p) ++ rest.
Proof. unfold put_bpf_acls; cbn [plan_bpf b_allow_v4 b_deny_v4 b_allow_v6 b_deny_v6
  b_bind_allow_v4 b_bind_deny_v4 b_bind_allow_v6 b_bind_deny_v6]. by rewrite <- !app_assoc. Qed.

Lemma ttl_byte_u8 a : in_u8 (ttl_action_byte a).
Proof. destruct a; cbn; in_range. Qed.

Lemma get_plan_decodes p :
  plan_ok p ->
  decodes get_plan (encode_plan p) (without_fds p, is_some (pl_interactive_return_fd p)).
Proof.
  intros Hp. unfold plan_ok in Hp. destruct_and! Hp.
  assert (bpf_ok (plan_bpf p)) by (unfold bpf_ok; cbn; split_and!; done).
  unfold get_plan, encode_plan. rewrite put_plan_bpf.
  eapply decodes_bind; [by apply codec_decodes, ns_u32|]; cbv beta.
  rewrite ns_truncate_id by done.
  do 19 (eapply decodes_bind; [first [by apply codec_decodes|apply codec_decodes, ttl_byte_u8]|];
    cbv beta).
  eapply decodes_last_eq; [by apply codec_decodes|]. by rewrite ttl_action_byte_inv.
Qed.

Lemma get_plan_yields :
  yields get_plan (fun v => plan_ok v.1 /\ without_fds v.1 = v.1).
Proof.
  unfold get_plan. do 9 codec_yields_step.
  eapply yields_bind; [apply codec_yields|]; intros bpf Hbpf.
  unfold bpf_ok in Hbpf. destruct_and! Hbpf.
  do 11 codec_yields_step. apply yields_ret. split; [|done].
  unfold plan_ok; cbn. split_and!; try done. apply ns_truncate_ok.
Qed.

Lemma get_plan_stable : stable get_plan.
Proof. unfold get_plan. codec_stable_all. Qed.

(** * Properties *)

(** C38: The plan and its two halves survive the wire: what the privileged side
    decodes from the bytes the daemon wrote is the same plan, field for field,
    without its file descriptors, with the flag saying whether an interactive
    descriptor was set; [kennel-bin-init] decodes the supervision half the daemon
    encoded, and the privileged factory the construction half.  The bounds are the
    wire's own: strings are valid UTF-8 and within [MAX_BLOB] bytes, lists within
    [MAX_ENTRIES], flags and numbers of their types, no resource limit on [RSS], and
    the whole no longer than a [usize]. *)
Theorem plan_wire_roundtrip (p : Plan) (s : Supervision) (c : ConstructionHalf) :
  plan_ok p -> blen (encode_plan p) <= usize_max ->
  supervision_ok s -> blen (encode_supervision s) <= usize_max ->
  construction_ok c -> blen (encode_construction c) <= usize_max ->
  decode_plan (encode_plan p) = Ok (without_fds p, is_some (pl_interactive_return_fd p)) /\
  decode_supervision (encode_supervision s) = Ok s /\
  decode_construction (encode_construction c) = Ok c.
Proof.
  intros Hp Lp Hs Ls Hc Lc. split_and!; apply run_exact_decodes; try done.
  - by apply get_plan_decodes.
  - by apply get_supervision_decodes.
  - by apply get_construction_decodes.
Qed.

(** C33: The privileged factory's decoder accepts only well-formed halves: from
    any bytes whatever, an accepted construction half has its flags within the
    known namespaces, its strings valid UTF-8, every length within
    [MAX_ENTRIES] and [MAX_BLOB] and every address of 4 or 16 octets; and it is
    a half the encoder can write and the decoder read back. *)
Theorem decode_construction_ok (buf : bytes) (c : ConstructionHalf) :
  bytes_ok buf -> decode_construction buf = Ok c ->
  construction_ok c /\
  (blen (encode_construction c) <= usize_max ->
   decode_construction (encode_construction c) = Ok c).
Proof.
  intros Hb Hd. assert (construction_ok c).
  { by eapply run_exact_yields; [apply get_construction_yields| |]. }
  split; [done|]. by apply run_exact_decodes, get_construction_decodes.
Qed.

(** An accepted plan is well formed whatever bytes it came from, and carries
    no descriptor: the decoder never turns bytes of the stream into a file
    descriptor number. *)
Theorem decode_plan_ok (buf : bytes) (p : Plan) (interactive : bool) :
  bytes_ok buf -> decode_plan buf = Ok (p, interactive) ->
  plan_ok p /\ pl_interactive_return_fd p = None /\ pl_workload_fd p = None /\
  pl_stdio_fds p = None.
Proof.
  intros Hb Hd.
  destruct (run_exact_yields _ _ _ _ _ get_plan_yields Hb Hd) as [Hok Hfd].
  cbn in *. rewrite <- Hfd. cbn. by rewrite Hfd.
Qed.

(** The three wire formats are prefix-free: a blob a decoder accepts,
    followed by anything at all, is refused, so nothing rides behind a plan. *)
Theorem wire_prefix_free (buf suf : bytes) :
  suf <> [] ->
  (is_ok (decode_plan buf) -> decode_plan (buf ++ suf) = Err TooLarge) /\
  (is_ok (decode_supervision buf) -> decode_supervision (buf ++ suf) = Err TooLarge) /\
  (is_ok (decode_construction buf) -> decode_construction (buf ++ suf) = Err TooLarge).
Proof.
  intros Hne. unfold decode_plan, decode_supervision, decode_construction.
  split_and!; intros Hok; match type of Hok with Is_true (is_ok ?r) => destruct r eqn:E; [|done] end;
    eapply run_exact_prefix_free; try done;
    auto using get_plan_stable, get_supervision_stable, get_construction_stable.
Qed.

(** ** Witnesses *)

Definition sample_view : ShimView := {|
  sv_shim_root := ascii_bytes "/run/kennel/1";
  sv_binds := [{| bm_source := ascii_bytes "/usr"; bm_target := ascii_bytes "/usr";
                  bm_writable := false; bm_exclusive := false; bm_redirected := true |}];
  sv_dev_allow := [ascii_bytes "null"]; sv_tmp_size_mib := 64; sv_proc_hidepid := true;
  sv_binder := true; sv_mask_paths := [ascii_bytes "/proc/kcore"]; sv_mask_dir_paths := [];
  sv_image := Some {| ir_image := ascii_bytes "/img"; ir_persistence := Persist;
                      ir_store_upper := Some (ascii_bytes "/u", ascii_bytes "/w");
                      ir_readonly := []; ir_writable := [ascii_bytes "/var"] |};
  sv_etc_overlays := [{| eo_source := ascii_bytes "/h"; eo_view_path := ascii_bytes "/etc/hosts" |}]
|}.

Definition sample_plan : Plan := {|
  pl_namespaces := 127; pl_cgroup := ascii_bytes "/sys/fs/cgroup/k"; pl_cgroup_join := true;
  pl_view := Some sample_view; pl_new_root := Some (ascii_bytes "/root");
  pl_landlock_fs := [(ascii_bytes "/usr", 13)]; pl_landlock_net := [(443, 2)];
  pl_seccomp_deny := [101; -1]; pl_seccomp_deny_action := Act_Errno 1;
  pl_bpf_allow_v4 := [(replicate 8 1, replicate 8 2)]; pl_bpf_deny_v4 := [];
  pl_bpf_allow_v6 := [(replicate 20 3, replicate 8 4)]; pl_bpf_deny_v6 := [];
  pl_bpf_bind_allow_v4 := []; pl_bpf_bind_deny_v4 := [];
  pl_bpf_bind_allow_v6 := []; pl_bpf_bind_deny_v6 := [];
  pl_bpf_meta := replicate 64 0; pl_bind_allowed_ports := [8080];
  pl_file_binds := [(ascii_bytes "/a", ascii_bytes "/b")];
  pl_supplementary_groups := Some [27]; pl_ulimits := [(RLIMIT_NOFILE, 1024, 4096)];
  pl_interactive_return_fd := Some 5; pl_workload_fd := Some 6; pl_stdio_fds := None;
  pl_aux := [{| aux_path := ascii_bytes "/bin/x"; aux_args := [ascii_bytes "-v"] |}];
  pl_ttl_seconds := Some 3600; pl_ttl_action := Ttl_Renew;
  pl_hostname := Some (ascii_bytes "kennel") |}.

Definition sample_supervision : Supervision := {|
  su_program := ascii_bytes "/bin/sh"; su_argv := [ascii_bytes "sh"];
  su_env := [(ascii_bytes "HOME", ascii_bytes "/home/u")]; su_cwd := Some (ascii_bytes "/");
  su_drop_uid := 1000; su_drop_gid := 1000; su_groups := Some [27];
  su_landlock_fs := [(ascii_bytes "/usr", 13)]; su_landlock_net := [(443, 2)];
  su_seccomp_deny := [101]; su_seccomp_deny_action := Act_KillProcess;
  su_ulimits := [(RLIMIT_CORE, 0, 0)]; su_aux := []; su_interactive := true;
  su_workload_fd_pinned := false; su_stdio_injected := true; su_ttl_seconds := None;
  su_log_level := 2 |}.

Definition sample_construction : ConstructionHalf := {|
  ch_namespaces := 95; ch_cgroup := ascii_bytes "/sys/fs/cgroup/k"; ch_cgroup_join := false;
  ch_view := Some sample_view; ch_new_root := None;
  ch_file_binds := [(ascii_bytes "/a", ascii_bytes "/b")]; ch_granted_gids := [27];
  ch_lo := true; ch_ctx := 7;
  ch_loopback := [{| lb_addr := V6 (253 :: replicate 15 1); lb_prefix := 64 |}];
  ch_tun := true; ch_hostname := Some (ascii_bytes "kennel"); ch_pty_fd_present := true;
  ch_workload_fd_present := false; ch_stdio_present := false |}.

Lemma plan_wire_roundtrip_witness :
  decode_plan (encode_plan sample_plan) = Ok (without_fds sample_plan, true) /\
  decode_supervision (encode_supervision sample_supervision) = Ok sample_supervision /\
  decode_construction (encode_construction sample_construction) = Ok sample_construction.
Proof.
  apply (plan_wire_roundtrip sample_plan sample_supervision sample_construction);
    apply (bool_decide_unpack _); by vm_compute.
Defined.

Lemma decode_construction_ok_witness : construction_ok sample_construction.
Proof.
  apply (decode_construction_ok (encode_construction sample_construction) sample_construction).
  - apply (bool_decide_unpack _). by vm_compute.
  - by vm_compute.
Defined.

Lemma decode_plan_ok_witness : plan_ok (without_fds sample_plan).
Proof.
  apply (decode_plan_ok (encode_plan sample_plan) (without_fds sample_plan) true).
  - apply (bool_decide_unpack _). by vm_compute.
  - by vm_compute.
Defined.

Lemma wire_prefix_free_witness :
  decode_construction (encode_construction sample_construction ++ [0]) = Err TooLarge.
Proof. apply (wire_prefix_free (encode_construction sample_construction) [0]); by vm_compute. Defined.
