(* ===== verification/ControlWire.v ===== *)
(** The control-socket protocol, [kennel-lib-control/src/control.rs].

    [Request] and [Response] with their codecs, the length-prefixed framing and
    the version handshake that opens every connection.  Integers travel in the
    host's byte order, so the codecs are parameterised by it ([en]); nothing in
    the theorems depends on which one it is.  A [PathBuf] is its bytes, and goes
    through [to_string_lossy] on the way out as in the source.

    A socket is a [duplex]: the bytes still to be read and the bytes written so
    far.  Transport failures other than end of stream are outside the model.

    Theorems: round trips of requests and responses through [decode] and
    through a framed stream (several messages in a row included), the bounds of
    whatever a decoder accepts, the frame cap, and the outcome of the handshake
    for every pair of versions. *)

From S2P Require Import Prelude Bytes Cursor.

Definition MAX_MESSAGE : Z := 1048576.
Definition MAX_STRING : Z := 65536.
Definition MAX_COUNT : Z := 4096.

Record StartRequest : Type := {
  sr_policy : bytes; sr_kennel : bytes; sr_argv : list bytes; sr_cwd : bytes; sr_term : bytes;
  sr_interactive : bool; sr_force : bool; sr_watch_paths : list bytes;
  sr_oci_config : option bytes;
}.

Inductive Request : Type :=
  | Req_Start (req : StartRequest)
  | Req_Stop (kennel : bytes)
  | Req_List
  | Req_AuthorizedKeys (key : bytes)
  | Req_Attach (kennel : bytes)
  | Req_Resize (kennel : bytes) (rows cols : Z)
  | Req_PromptReply (id : Z) (answer : bytes)
  | Req_DaemonReload
  | Req_Mesh
  | Req_Version.

Record ConsumedCapability : Type := { cc_name : bytes; cc_shape : bytes; cc_required : bool }.

Record KennelInfo : Type := {
  ki_kennel : bytes; ki_ctx : Z; ki_pid : Z; ki_running : bool; ki_attached : bool;
  ki_consumed : list ConsumedCapability;
}.

Record MeshProvider : Type := {
  mp_capability : bytes; mp_provider : bytes; mp_shape : bytes; mp_tier : bytes;
  mp_enablement : bytes; mp_readiness : bytes;
}.

Inductive Response : Type :=
  | Resp_Started (ctx pid : Z) (filter_escapes : bool)
  | Resp_Stopped
  | Resp_Listing (kennels : list KennelInfo)
  | Resp_Exited (code : Z)
  | Resp_AuthorizedKeys (lines : list bytes)
  | Resp_Attached (ctx pid : Z) (filter_escapes : bool)
  | Resp_Detached (reason : bytes)
  | Resp_Prompt (id : Z) (prompt : bytes)
  | Resp_Error (message : bytes)
  | Resp_Reloaded (catalogued : Z)
  | Resp_Mesh (providers : list MeshProvider)
  | Resp_Version (build : bytes) (schema_version min_schema_version : Z).

Inductive WireError : Type := Truncated | BadTag | BadString | TooLarge.

Abbreviation crd A := (parser WireError A).

Section control.
(** The byte order of the host both ends run on. *)
Context (en : endian).

(** ** Primitives *)

Definition put_u8 (v : Z) : bytes := [v].
Definition put_bool (b : bool) : bytes := put_u8 (if b then 1 else 0).
Definition put_u16 (v : Z) : bytes := ne_bytes en 2 v.
Definition put_u32 (v : Z) : bytes := ne_bytes en 4 v.
Definition put_i32 (v : Z) : bytes := ne_bytes en 4 (to_twos 32 v).
Definition put_str (s : bytes) : bytes := put_u32 (sat_u32 (blen s)) ++ s.
(** A [u32] element count, then each element. *)
Definition put_list {A} (put : A -> bytes) (items : list A) : bytes :=
  put_u32 (sat_u32 (blen items)) ++ flat_map put items.
Definition put_strs (items : list bytes) : bytes := put_list put_str items.
Definition put_path (p : bytes) : bytes := put_str (to_string_lossy p).

Definition rd_take (n : Z) : crd bytes := cursor_take Truncated Truncated n.
Definition rd_u8 : crd Z := s ← rd_take 1; p_ok_or Truncated (head s).
Definition rd_flag : crd bool := b ← rd_u8; mret (negb (b =? 0)).
Definition rd_u16 : crd Z := s ← rd_take 2; mret (ne_val en s).
Definition rd_u32_len : crd Z := s ← rd_take 4; mret (ne_val en s).
Definition rd_u32 : crd Z := s ← rd_take 4; mret (ne_val en s).
(** [u32::try_from(r.u32_len()?).unwrap_or(u32::MAX)]. *)
Definition rd_u32_sat : crd Z := n ← rd_u32_len; mret (sat_u32 n).
Definition rd_i32 : crd Z := s ← rd_take 4; mret (of_twos 32 (ne_val en s)).
Definition rd_string : crd bytes :=
  n ← rd_u32_len;
  if MAX_STRING <? n then p_fail TooLarge
  else bs ← rd_take n; p_ok_or BadString (from_utf8 bs).
(** A count within [MAX_COUNT], then that many elements. *)
Definition rd_list {A} (get : crd A) : crd (list A) :=
  n ← rd_u32_len;
  if MAX_COUNT <? n then p_fail TooLarge else p_vec (Z.to_nat n) get.
Definition rd_strings : crd (list bytes) := rd_list rd_string.

(** ** Requests *)

Definition put_oci_config (o : option bytes) : bytes :=
  match o with None => put_u8 0 | Some p => put_u8 1 ++ put_path p end.

Definition put_start (req : StartRequest) : bytes :=
  put_path (sr_policy req) ++ put_str (sr_kennel req) ++ put_strs (sr_argv req) ++
  put_path (sr_cwd req) ++ put_str (sr_term req) ++ put_bool (sr_interactive req) ++
  put_bool (sr_force req) ++ put_list put_path (sr_watch_paths req) ++
  put_oci_config (sr_oci_config req).

Definition request_encode (r : Request) : bytes :=
  match r with
  | Req_Start req => put_u8 1 ++ put_start req
  | Req_Stop kennel => put_u8 2 ++ put_str kennel
  | Req_List => put_u8 3
  | Req_AuthorizedKeys key => put_u8 4 ++ put_str key
  | Req_Attach kennel => put_u8 5 ++ put_str kennel
  | Req_Resize kennel rows cols => put_u8 6 ++ put_str kennel ++ put_u16 rows ++ put_u16 cols
  | Req_PromptReply id answer => put_u8 7 ++ put_u32 id ++ put_str answer
  | Req_DaemonReload => put_u8 8
  | Req_Mesh => put_u8 9
  | Req_Version => put_u8 10
  end.

Definition get_start : crd StartRequest :=
  policy ← rd_string; kennel ← rd_string; argv ← rd_strings; cwd ← rd_string;
  term ← rd_string; interactive ← rd_flag; force ← rd_flag; watch_paths ← rd_strings;
  oci_config ← p_opt rd_flag rd_string;
  mret {| sr_policy := policy; sr_kennel := kennel; sr_argv := argv; sr_cwd := cwd;
          sr_term := term; sr_interactive := interactive; sr_force := force;
          sr_watch_paths := watch_paths; sr_oci_config := oci_config |}.

Definition get_request : crd Request :=
  t ← rd_u8;
  if t =? 1 then (req ← get_start; mret (Req_Start req))
  else if t =? 2 then (kennel ← rd_string; mret (Req_Stop kennel))
  else if t =? 3 then mret Req_List
  else if t =? 4 then (key ← rd_string; mret (Req_AuthorizedKeys key))
  else if t =? 5 then (kennel ← rd_string; mret (Req_Attach kennel))
  else if t =? 6 then
    (kennel ← rd_string; rows ← rd_u16; cols ← rd_u16; mret (Req_Resize kennel rows cols))
  else if t =? 7 then (id ← rd_u32_sat; answer ← rd_string; mret (Req_PromptReply id answer))
  else if t =? 8 then mret Req_DaemonReload
  else if t =? 9 then mret Req_Mesh
  else if t =? 10 then mret Req_Version
  else p_fail BadTag.

(** [Request::decode]: bytes after the last field are not looked at. *)
Definition request_decode (body : bytes) : result WireError Request := run_prefix get_request body.

(** ** Responses *)

Definition put_consumed (c : ConsumedCapability) : bytes :=
  put_str (cc_name c) ++ put_str (cc_shape c) ++ put_bool (cc_required c).

Definition put_kennel_info (k : KennelInfo) : bytes :=
  put_str (ki_kennel k) ++ put_u16 (ki_ctx k) ++ put_u32 (ki_pid k) ++
  put_bool (ki_running k) ++ put_bool (ki_attached k) ++
  put_list put_consumed (ki_consumed k).

Definition put_mesh_provider (p : MeshProvider) : bytes :=
  put_str (mp_capability p) ++ put_str (mp_provider p) ++ put_str (mp_shape p) ++
  put_str (mp_tier p) ++ put_str (mp_enablement p) ++ put_str (mp_readiness p).

Definition response_encode (r : Response) : bytes :=
  match r with
  | Resp_Started ctx pid fe => put_u8 0 ++ put_u16 ctx ++ put_u32 pid ++ put_bool fe
  | Resp_Stopped => put_u8 1
  | Resp_Listing kennels => put_u8 2 ++ put_list put_kennel_info kennels
  | Resp_Exited code => put_u8 3 ++ put_i32 code
  | Resp_AuthorizedKeys lines => put_u8 5 ++ put_strs lines
  | Resp_Error message => put_u8 4 ++ put_str message
  | Resp_Attached ctx pid fe => put_u8 6 ++ put_u16 ctx ++ put_u32 pid ++ put_bool fe
  | Resp_Detached reason => put_u8 7 ++ put_str reason
  | Resp_Prompt id prompt => put_u8 8 ++ put_u32 id ++ put_str prompt
  | Resp_Reloaded catalogued => put_u8 9 ++ put_u32 catalogued
  | Resp_Mesh providers => put_u8 10 ++ put_list put_mesh_provider providers
  | Resp_Version build v m => put_u8 11 ++ put_str build ++ put_u32 v ++ put_u32 m
  end.

Definition get_consumed : crd ConsumedCapability :=
  name ← rd_string; shape ← rd_string; required ← rd_flag;
  mret {| cc_name := name; cc_shape := shape; cc_required := required |}.

Definition get_kennel_info : crd KennelInfo :=
  kennel ← rd_string; ctx ← rd_u16; pid ← rd_u32_sat; running ← rd_flag; attached ← rd_flag;
  consumed ← rd_list get_consumed;
  mret {| ki_kennel := kennel; ki_ctx := ctx; ki_pid := pid; ki_running := running;
          ki_attached := attached; ki_consumed := consumed |}.

Definition get_mesh_provider : crd MeshProvider :=
  capability ← rd_string; provider ← rd_string; shape ← rd_string; tier ← rd_string;
  enablement ← rd_string; readiness ← rd_string;
  mret {| mp_capability := capability; mp_provider := provider; mp_shape := shape;
          mp_tier := tier; mp_enablement := enablement; mp_readiness := readiness |}.

Definition get_response : crd Response :=
  t ← rd_u8;
  if t =? 0 then (ctx ← rd_u16; pid ← rd_u32_sat; fe ← rd_flag; mret (Resp_Started ctx pid fe))
  else if t =? 1 then mret Resp_Stopped
  else if t =? 2 then (kennels ← rd_list get_kennel_info; mret (Resp_Listing kennels))
  else if t =? 3 then (code ← rd_i32; mret (Resp_Exited code))
  else if t =? 4 then (message ← rd_string; mret (Resp_Error message))
  else if t =? 5 then (lines ← rd_strings; mret (Resp_AuthorizedKeys lines))
  else if t =? 6 then
    (ctx ← rd_u16; pid ← rd_u32_sat; fe ← rd_flag; mret (Resp_Attached ctx pid fe))
  else if t =? 7 then (reason ← rd_string; mret (Resp_Detached reason))
  else if t =? 8 then (id ← rd_u32_sat; prompt ← rd_string; mret (Resp_Prompt id prompt))
  else if t =? 9 then (catalogued ← rd_u32_sat; mret (Resp_Reloaded catalogued))
  else if t =? 10 then (providers ← rd_list get_mesh_provider; mret (Resp_Mesh providers))
  else if t =? 11 then
    (build ← rd_string; v ← rd_u32; m ← rd_u32; mret (Resp_Version build v m))
  else p_fail BadTag.

Definition response_decode (body : bytes) : result WireError Response :=
  run_prefix get_response body.

(** ** Well-formed messages *)

Definition cstr_ok (s : bytes) : Prop :=
  bytes_ok s /\ blen s <= MAX_STRING /\ utf8_ok s = true.
Definition clist_ok {A} (ok : A -> Prop) (l : list A) : Prop :=
  blen l <= MAX_COUNT /\ Forall ok l.
Definition copt_ok {A} (ok : A -> Prop) (o : option A) : Prop :=
  match o with Some x => ok x | None => True end.

Definition start_ok (r : StartRequest) : Prop :=
  cstr_ok (sr_policy r) /\ cstr_ok (sr_kennel r) /\ clist_ok cstr_ok (sr_argv r) /\
  cstr_ok (sr_cwd r) /\ cstr_ok (sr_term r) /\ clist_ok cstr_ok (sr_watch_paths r) /\
  copt_ok cstr_ok (sr_oci_config r).

Definition request_ok (r : Request) : Prop :=
  match r with
  | Req_Start req => start_ok req
  | Req_Stop s | Req_AuthorizedKeys s | Req_Attach s => cstr_ok s
  | Req_Resize s rows cols => cstr_ok s /\ in_u16 rows /\ in_u16 cols
  | Req_PromptReply id s => in_u32 id /\ cstr_ok s
  | _ => True
  end.

Definition consumed_ok (c : ConsumedCapability) : Prop :=
  cstr_ok (cc_name c) /\ cstr_ok (cc_shape c).
Definition kennel_info_ok (k : KennelInfo) : Prop :=
  cstr_ok (ki_kennel k) /\ in_u16 (ki_ctx k) /\ in_u32 (ki_pid k) /\
  clist_ok consumed_ok (ki_consumed k).
Definition mesh_provider_ok (p : MeshProvider) : Prop :=
  cstr_ok (mp_capability p) /\ cstr_ok (mp_provider p) /\ cstr_ok (mp_shape p) /\
  cstr_ok (mp_tier p) /\ cstr_ok (mp_enablement p) /\ cstr_ok (mp_readiness p).

Definition response_ok (r : Response) : Prop :=
  match r with
  | Resp_Started ctx pid _ | Resp_Attached ctx pid _ => in_u16 ctx /\ in_u32 pid
  | Resp_Stopped => True
  | Resp_Listing kennels => clist_ok kennel_info_ok kennels
  | Resp_Exited code => in_i32 code
  | Resp_AuthorizedKeys lines => clist_ok cstr_ok lines
  | Resp_Detached s | Resp_Error s => cstr_ok s
  | Resp_Prompt id s => in_u32 id /\ cstr_ok s
  | Resp_Reloaded n => in_u32 n
  | Resp_Mesh providers => clist_ok mesh_provider_ok providers
  | Resp_Version build v m => cstr_ok build /\ in_u32 v /\ in_u32 m
  end.

(** ** Streams *)

Record duplex : Type := Duplex { dx_in : bytes; dx_out : bytes }.

Inductive io_error : Type := UnexpectedEof | InvalidData | OtherError.

(** A computation over a socket: what it returns and the socket it leaves. *)
Definition sio (E A : Type) : Type := duplex -> result E A * duplex.

Definition sio_ret {E A} (a : A) : sio E A := fun s => (Ok a, s).
Definition sio_err {E A} (e : E) : sio E A := fun s => (Err e, s).
Definition sio_bind {E A B} (m : sio E A) (f : A -> sio E B) : sio E B := fun s =>
  match m s with (Ok a, s') => f a s' | (Err e, s') => (Err e, s') end.
Definition sio_lift {E A} (r : result E A) : sio E A := fun s => (r, s).
Definition sio_map_err {E E' A} (g : E -> E') (m : sio E A) : sio E' A := fun s =>
  match m s with (Ok a, s') => (Ok a, s') | (Err e, s') => (Err (g e), s') end.

Definition write_all (bs : bytes) : sio io_error unit := fun s =>
  (Ok tt, Duplex (dx_in s) (dx_out s ++ bs)).
(** On a short stream [read_exact] has consumed what there was. *)
Definition read_exact (n : Z) : sio io_error bytes := fun s =>
  if n <=? blen (dx_in s)
  then (Ok (take (Z.to_nat n) (dx_in s)), Duplex (drop (Z.to_nat n) (dx_in s)) (dx_out s))
  else (Err UnexpectedEof, Duplex [] (dx_out s)).

Definition write_frame (body : bytes) : sio io_error unit :=
  if u32_max <? blen body then sio_err OtherError
  else sio_bind (write_all (put_u32 (blen body))) (fun _ => write_all body).

Definition read_frame : sio io_error bytes :=
  sio_bind (read_exact 4) (fun len_buf =>
  let len := ne_val en len_buf in
  if MAX_MESSAGE <? len then sio_err InvalidData else read_exact len).

(** [.map_err(|e| io::Error::new(InvalidData, ..))] on a decode result. *)
Definition decoded {A} (r : result WireError A) : result io_error A :=
  match r with Ok a => Ok a | Err _ => Err InvalidData end.

Definition send_request (r : Request) : sio io_error unit := write_frame (request_encode r).
Definition recv_request : sio io_error Request :=
  sio_bind read_frame (fun body => sio_lift (decoded (request_decode body))).
Definition send_response (r : Response) : sio io_error unit := write_frame (response_encode r).
Definition recv_response : sio io_error Response :=
  sio_bind read_frame (fun body => sio_lift (decoded (response_decode body))).

(** ** The version handshake *)

Record Preamble : Type := { pr_schema_version : Z; pr_build : bytes }.

Definition preamble_encode (p : Preamble) : bytes :=
  put_u32 (pr_schema_version p) ++ put_str (pr_build p).
Definition get_preamble : crd Preamble :=
  v ← rd_u32; b ← rd_string; mret {| pr_schema_version := v; pr_build := b |}.
Definition preamble_decode (body : bytes) : result WireError Preamble :=
  run_prefix get_preamble body.

Inductive Verdict : Type :=
  | Compatible
  | Incompatible (daemon_schema client_schema : Z) (daemon_build : bytes).

Definition verdict_encode (v : Verdict) : bytes :=
  match v with
  | Compatible => put_u8 0
  | Incompatible d c b => put_u8 1 ++ put_u32 d ++ put_u32 c ++ put_str b
  end.
Definition get_verdict : crd Verdict :=
  t ← rd_u8;
  if t =? 0 then mret Compatible
  else if t =? 1 then (d ← rd_u32; c ← rd_u32; b ← rd_string; mret (Incompatible d c b))
  else p_fail BadTag.
Definition verdict_decode (body : bytes) : result WireError Verdict := run_prefix get_verdict body.

Record VersionSkew : Type := {
  vs_daemon_schema : Z; vs_client_schema : Z; vs_daemon_build : bytes;
}.
Inductive HandshakeError : Type := HsIo (e : io_error) | HsSkew (s : VersionSkew).

Definition client_handshake (schema_version : Z) (build : bytes) : sio HandshakeError unit :=
  sio_bind (sio_map_err HsIo (write_frame (preamble_encode
    {| pr_schema_version := schema_version; pr_build := build |}))) (fun _ =>
  sio_bind (sio_map_err HsIo read_frame) (fun body =>
  sio_bind (sio_map_err HsIo (sio_lift (decoded (verdict_decode body)))) (fun verdict =>
  match verdict with
  | Compatible => sio_ret tt
  | Incompatible d c b =>
      sio_err (HsSkew {| vs_daemon_schema := d; vs_client_schema := c; vs_daemon_build := b |})
  end))).

Definition server_handshake (schema_version : Z) (build : bytes) : sio io_error bool :=
  sio_bind read_frame (fun body =>
  sio_bind (sio_lift (decoded (preamble_decode body))) (fun preamble =>
  if schema_version <? pr_schema_version preamble then
    sio_bind (write_frame (verdict_encode
      (Incompatible schema_version (pr_schema_version preamble) build))) (fun _ => sio_ret false)
  else sio_bind (write_frame (verdict_encode Compatible)) (fun _ => sio_ret true))).

(** Both ends over a socket pair.  The client writes before it reads, so what
    the daemon reads is what the client writes with nothing to read; what the
    client reads is what the daemon then wrote. *)
Definition run_handshake (cs : Z) (cb : bytes) (ds : Z) (db : bytes) :
    result HandshakeError unit * result io_error bool :=
  let c_out := dx_out (client_handshake cs cb (Duplex [] [])).2 in
  let server := server_handshake ds db (Duplex c_out []) in
  let client := client_handshake cs cb (Duplex (dx_out server.2) []) in
  (client.1, server.1).

(** * Codec proofs *)

Ltac stable_all :=
  repeat first
    [ solve [apply codec_stable] | apply stable_bind; [|intros ?] | apply stable_ok_or | apply stable_take
    | apply stable_ret | apply stable_fail | case_match ].

Lemma ne_decodes (n : nat) (g : bytes -> Z) u v :
  g (ne_bytes en n u) = v ->
  decodes (E := WireError) (s ← rd_take (Z.of_nat n); mret (g s)) (ne_bytes en n u) v.
Proof. intros. apply decodes_take_map; [|done]. by rewrite length_ne_bytes. Qed.

Lemma ne_yields (n : nat) (f : Z -> Z) (P : Z -> Prop) :
  (forall u, 0 <= u < 256 ^ Z.of_nat n -> P (f u)) ->
  yields (E := WireError) (s ← rd_take (Z.of_nat n); mret (f (ne_val en s))) P.
Proof.
  intros H. apply yields_take_map. intros bs Hok Hl. apply H. rewrite <- Hl.
  by apply ne_val_bound.
Qed.

Global Instance ccodec_u16 : WireCodec put_u16 rd_u16 in_u16.
Proof.
  split; [intros v Hv|..|stable_all].
  - apply (ne_decodes 2). apply ne_val_bytes. in_range.
  - apply (ne_yields 2 id). unfold id. in_range.
Qed.

Global Instance ccodec_u32 : WireCodec put_u32 rd_u32 in_u32.
Proof.
  split; [intros v Hv|..|stable_all].
  - apply (ne_decodes 4). apply ne_val_bytes. in_range.
  - apply (ne_yields 4 id). unfold id. in_range.
Qed.

Global Instance ccodec_u32_len : WireCodec put_u32 rd_u32_len in_u32.
Proof. apply ccodec_u32. Qed.

Global Instance ccodec_u32_sat : WireCodec put_u32 rd_u32_sat in_u32.
Proof.
  split; [intros v Hv|..|stable_all].
  - eapply decodes_last_eq; [by apply codec_decodes|]. apply sat_u32_small. in_range.
  - eapply yields_bind; [apply codec_yields|]; intros n Hn. apply yields_ret.
    unfold sat_u32. in_range.
Qed.

Global Instance ccodec_i32 : WireCodec put_i32 rd_i32 in_i32.
Proof.
  split; [intros v Hv|..|stable_all].
  - apply (ne_decodes 4 (fun s => of_twos 32 (ne_val en s))). rewrite ne_val_bytes.
    + apply of_to_twos; in_range.
    + apply (Z.mod_pos_bound v (2 ^ 32)). lia.
  - apply (ne_yields 4 (of_twos 32)); intros u Hu.
    pose proof (of_twos_bound 32 u). in_range.
Qed.

Global Instance ccodec_u8 : WireCodec put_u8 rd_u8 in_u8.
Proof.
  split; [intros v Hv; apply decodes_take_head|apply yields_take_head|stable_all].
Qed.

Global Instance ccodec_flag : WireCodec put_bool rd_flag (fun _ => True).
Proof.
  split; [intros v _|..|stable_all].
  - eapply (decodes_last_eq _ _ _ (if v then 1 else 0)); [|by destruct v].
    apply (codec_decodes (put := put_u8) (if v then 1 else 0)). destruct v; in_range.
  - eapply yields_bind; [apply codec_yields|]; intros. by apply yields_ret.
Qed.

Global Instance ccodec_str : WireCodec put_str rd_string cstr_ok.
Proof.
  split; [intros s (Hb & Hl & Hu)|..|stable_all].
  - unfold put_str, rd_string. unfold MAX_STRING in *.
    rewrite sat_u32_small by in_range.
    eapply decodes_bind; [apply codec_decodes; in_range|]. cbv beta.
    rewrite (proj2 (Z.ltb_ge _ _)) by lia.
    rewrite <- (app_nil_r s) at 2. eapply decodes_bind; [apply decodes_take|].
    unfold from_utf8. rewrite Hu. apply decodes_ret.
  - eapply yields_bind; [apply codec_yields|]; intros n Hn.
    case_match; [apply yields_fail|]. zbool.
    eapply yields_bind; [apply yields_take|]; intros bs [Hb Hl].
    apply yields_ok_or; intros s [-> ?]%from_utf8_Some. split_and!; [done|lia|done].
Qed.

Global Instance ccodec_path : WireCodec put_path rd_string cstr_ok.
Proof.
  split; [intros s Hs|apply codec_yields|apply codec_stable].
  unfold put_path. rewrite to_string_lossy_id by apply Hs. by apply codec_decodes.
Qed.

Global Instance ccodec_list {A} (put : A -> bytes) (get : crd A) ok :
  WireCodec put get ok -> WireCodec (put_list put) (rd_list get) (clist_ok ok).
Proof.
  intros C. split; [intros l [Hl Hok]|..].
  - unfold put_list, rd_list, MAX_COUNT in *. rewrite sat_u32_small by in_range.
    eapply decodes_bind; [apply codec_decodes; in_range|]. cbv beta.
    rewrite (proj2 (Z.ltb_ge _ _)) by lia. rewrite Nat2Z.id. by eapply codec_vec.
  - eapply yields_bind; [apply codec_yields|]; intros n Hn.
    case_match; [apply yields_fail|]. zbool.
    eapply yields_weaken; [apply yields_vec, codec_yields|].
    intros l [Hl ?]. split; [|done]. unfold MAX_COUNT in *. in_range.
  - stable_all. apply stable_vec, codec_stable.
Qed.

Global Instance ccodec_strs : WireCodec put_strs rd_strings (clist_ok cstr_ok).
Proof. apply ccodec_list, _. Qed.

Global Instance ccodec_watch : WireCodec (put_list put_path) rd_strings (clist_ok cstr_ok).
Proof. apply ccodec_list, _. Qed.

Global Instance ccodec_oci :
  WireCodec put_oci_config (p_opt rd_flag rd_string) (copt_ok cstr_ok).
Proof.
  split; [intros o Ho; unfold put_oci_config|..].
  - apply decodes_opt; [by apply (codec_decodes (put := put_bool) true)
      |by apply (codec_decodes (put := put_bool) false)|].
    intros x ->. by apply codec_decodes.
  - eapply yields_weaken; [apply yields_opt; apply codec_yields|].
    intros [x|] Hx; cbn; auto.
  - apply stable_opt; apply codec_stable.
Qed.

(** The fields of a record in order. *)
Ltac field_step := eapply decodes_bind; [by apply codec_decodes|]; cbv beta.
Ltac record_decodes v :=
  repeat field_step; eapply decodes_last_eq; [by apply codec_decodes|by destruct v].
Ltac yields_step := eapply yields_bind; [apply codec_yields|]; intros ? ?.
Ltac record_yields := repeat yields_step; apply yields_ret; by cbn.

Global Instance ccodec_start : WireCodec put_start get_start start_ok.
Proof.
  split; [intros r Hr; unfold start_ok in Hr; destruct_and! Hr|..|stable_all].
  - unfold put_start, get_start. record_decodes r.
  - unfold get_start. record_yields.
Qed.

Global Instance ccodec_consumed : WireCodec put_consumed get_consumed consumed_ok.
Proof.
  split; [intros r Hr; unfold consumed_ok in Hr; destruct_and! Hr|..|stable_all].
  - unfold put_consumed, get_consumed. record_decodes r.
  - unfold get_consumed. record_yields.
Qed.

Global Instance ccodec_kennel_info : WireCodec put_kennel_info get_kennel_info kennel_info_ok.
Proof.
  split; [intros r Hr; unfold kennel_info_ok in Hr; destruct_and! Hr|..|stable_all].
  - unfold put_kennel_info, get_kennel_info. record_decodes r.
  - unfold get_kennel_info. record_yields.
Qed.

Global Instance ccodec_mesh_provider :
  WireCodec put_mesh_provider get_mesh_provider mesh_provider_ok.
Proof.
  split; [intros r Hr; unfold mesh_provider_ok in Hr; destruct_and! Hr|..|stable_all].
  - unfold put_mesh_provider, get_mesh_provider. record_decodes r.
  - unfold get_mesh_provider. record_yields.
Qed.

Lemma op_decodes {A} (t : Z) (f : Z -> crd A) bs v :
  in_u8 t -> decodes (f t) bs v -> decodes (rd_u8 ≫= f) (put_u8 t ++ bs) v.
Proof. intros Ht. eapply decodes_bind. by apply codec_decodes. Qed.

Lemma op_decodes_nil {A} (t : Z) (f : Z -> crd A) v :
  in_u8 t -> decodes (f t) [] v -> decodes (rd_u8 ≫= f) (put_u8 t) v.
Proof. intros Ht. rewrite <- (app_nil_r (put_u8 t)). by apply op_decodes. Qed.

(** A tagged message: the tag, then the fields of its variant. *)
Ltac message_decodes :=
  first [ apply op_decodes_nil; [in_range|]; apply decodes_ret
        | apply op_decodes; [in_range|]; cbn [Z.eqb Pos.eqb];
          repeat (eapply decodes_bind; [by apply codec_decodes|]; cbv beta);
          eapply decodes_last_eq; [by apply codec_decodes|done] ].
Ltac message_yields :=
  yields_step; repeat case_match; first [apply yields_fail | record_yields].

Global Instance ccodec_request : WireCodec request_encode get_request request_ok.
Proof.
  split; [intros r Hr|unfold get_request; message_yields|unfold get_request; stable_all].
  unfold get_request. destruct r; cbn [request_ok request_encode] in *; destruct_and?;
    message_decodes.
Qed.

Global Instance ccodec_response : WireCodec response_encode get_response response_ok.
Proof.
  split; [intros r Hr|unfold get_response; message_yields|unfold get_response; stable_all].
  unfold get_response. destruct r; cbn [response_ok response_encode] in *; destruct_and?;
    message_decodes.
Qed.

Definition preamble_ok (p : Preamble) : Prop := in_u32 (pr_schema_version p) /\ cstr_ok (pr_build p).
Definition verdict_ok (v : Verdict) : Prop :=
  match v with Compatible => True | Incompatible d c b => in_u32 d /\ in_u32 c /\ cstr_ok b end.

Global Instance ccodec_preamble : WireCodec preamble_encode get_preamble preamble_ok.
Proof.
  split; [intros r Hr; unfold preamble_ok in Hr; destruct_and! Hr|..|stable_all].
  - unfold preamble_encode, get_preamble. record_decodes r.
  - unfold get_preamble. record_yields.
Qed.

Global Instance ccodec_verdict : WireCodec verdict_encode get_verdict verdict_ok.
Proof.
  split; [intros r Hr|unfold get_verdict; message_yields|unfold get_verdict; stable_all].
  unfold get_verdict. destruct r; cbn [verdict_ok verdict_encode] in *; destruct_and?;
    message_decodes.
Qed.

(** ** Streams *)

Lemma read_exact_app bs rest out :
  read_exact (blen bs) (Duplex (bs ++ rest) out) = (Ok bs, Duplex rest out).
Proof.
  unfold read_exact; cbn. rewrite blen_app, (proj2 (Z.leb_le _ _)) by lia.
  by rewrite Nat2Z.id, take_app_length, drop_app_length.
Qed.

(** What [write_frame] appends. *)
Definition frame (body : bytes) : bytes := put_u32 (blen body) ++ body.

Lemma write_frame_ok body s :
  blen body <= u32_max -> write_frame body s = (Ok tt, Duplex (dx_in s) (dx_out s ++ frame body)).
Proof.
  intros H. unfold write_frame. rewrite (proj2 (Z.ltb_ge _ _)) by lia.
  unfold sio_bind, write_all, frame; cbn. by rewrite <- app_assoc.
Qed.

Lemma read_frame_frame body rest out :
  blen body <= u32_max ->
  read_frame (Duplex (frame body ++ rest) out) =
    if blen body <=? MAX_MESSAGE then (Ok body, Duplex rest out)
    else (Err InvalidData, Duplex (body ++ rest) out).
Proof.
  intros H. unfold read_frame, sio_bind, frame. rewrite <- app_assoc.
  pose proof (read_exact_app (put_u32 (blen body)) (body ++ rest) out) as E.
  replace (blen (put_u32 (blen body))) with 4 in E
    by (unfold put_u32; by rewrite length_ne_bytes).
  rewrite E; cbv iota beta zeta. unfold put_u32. rewrite ne_val_bytes by in_range.
  destruct (Z.leb_spec (blen body) MAX_MESSAGE).
  - rewrite (proj2 (Z.ltb_ge _ _)) by lia. apply read_exact_app.
  - by rewrite (proj2 (Z.ltb_lt _ _)) by lia.
Qed.

Lemma message_u32 n : n <= MAX_MESSAGE -> n <= u32_max.
Proof. unfold MAX_MESSAGE; in_range. Qed.
Lemma message_usize n : n <= MAX_MESSAGE -> n <= usize_max.
Proof. unfold MAX_MESSAGE; in_range. Qed.

(** A message a codec writes, received from the front of a stream. *)
Lemma recv_codec {A} (put : A -> bytes) (get : crd A) ok v rest out :
  WireCodec put get ok -> ok v -> blen (put v) <= MAX_MESSAGE ->
  sio_bind read_frame (fun body => sio_lift (decoded (run_prefix get body)))
    (Duplex (frame (put v) ++ rest) out) = (Ok v, Duplex rest out).
Proof.
  intros C Hv Hl. unfold sio_bind. rewrite read_frame_frame by by apply message_u32.
  rewrite (proj2 (Z.leb_le _ _)) by done. unfold sio_lift.
  rewrite <- (app_nil_r (put v)), run_prefix_decodes with (v := v); [done|..].
  - by apply codec_decodes.
  - rewrite app_nil_r. by apply message_usize.
Qed.

(** Sending, then receiving, a sequence of messages. *)
Fixpoint send_all {A} (send : A -> sio io_error unit) (l : list A) : sio io_error unit :=
  match l with [] => sio_ret tt | x :: l => sio_bind (send x) (fun _ => send_all send l) end.
Fixpoint recv_n {A} (recv : sio io_error A) (n : nat) : sio io_error (list A) :=
  match n with
  | O => sio_ret []
  | S n => sio_bind recv (fun x => sio_bind (recv_n recv n) (fun xs => sio_ret (x :: xs)))
  end.

Lemma send_all_frames {A} (put : A -> bytes) (l : list A) s :
  Forall (fun v => blen (put v) <= u32_max) l ->
  send_all (fun v => write_frame (put v)) l s =
    (Ok tt, Duplex (dx_in s) (dx_out s ++ flat_map (fun v => frame (put v)) l)).
Proof.
  intros Hl. revert s. induction Hl as [|v l Hv _ IH]; intros [i o]; cbn.
  - by rewrite app_nil_r.
  - unfold sio_bind. rewrite write_frame_ok by done. rewrite IH; cbn. by rewrite app_assoc.
Qed.

Lemma recv_n_frames {A} (put : A -> bytes) (get : crd A) ok (l : list A) rest out :
  WireCodec put get ok -> Forall (fun v => ok v /\ blen (put v) <= MAX_MESSAGE) l ->
  recv_n (sio_bind read_frame (fun body => sio_lift (decoded (run_prefix get body)))) (length l)
    (Duplex (flat_map (fun v => frame (put v)) l ++ rest) out) = (Ok l, Duplex rest out).
Proof.
  intros C. induction 1 as [|v l [Hv Hl] _ IH]; [done|]. cbn [flat_map length recv_n].
  unfold sio_bind at 1. rewrite <- app_assoc, (recv_codec _ _ _ _ _ _ C Hv Hl).
  unfold sio_bind at 1. by rewrite IH.
Qed.

(** * Properties *)

(** A decoded request is the encoded one, whatever bytes follow it in the
    body (which the decoder does not look at), and so is a decoded response. *)
Theorem control_roundtrip (q : Request) (r : Response) (junk : bytes) :
  (request_ok q -> blen (request_encode q ++ junk) <= usize_max ->
   request_decode (request_encode q ++ junk) = Ok q) /\
  (response_ok r -> blen (response_encode r ++ junk) <= usize_max ->
   response_decode (response_encode r ++ junk) = Ok r).
Proof. split; intros Hok Hl; (apply run_prefix_decodes; [by apply codec_decodes|done]). Qed.

(** The framed stream is a faithful queue: requests sent one after the other
    over a socket are received in order, each exactly once, and the reader is
    left at the first byte after the last of them; the daemon's responses
    likewise. *)
Theorem control_stream (lq : list Request) (lr : list Response) (rest out : bytes) (c : duplex) :
  Forall (fun q => request_ok q /\ blen (request_encode q) <= MAX_MESSAGE) lq ->
  Forall (fun r => response_ok r /\ blen (response_encode r) <= MAX_MESSAGE) lr ->
  (let '(sent, c') := send_all send_request lq c in
   sent = Ok tt /\ dx_in c' = dx_in c /\
   exists wire, dx_out c' = dx_out c ++ wire /\
   recv_n recv_request (length lq) (Duplex (wire ++ rest) out) = (Ok lq, Duplex rest out)) /\
  (let '(sent, c') := send_all send_response lr c in
   sent = Ok tt /\ dx_in c' = dx_in c /\
   exists wire, dx_out c' = dx_out c ++ wire /\
   recv_n recv_response (length lr) (Duplex (wire ++ rest) out) = (Ok lr, Duplex rest out)).
Proof.
  intros Hq Hr. split; unfold send_request, recv_request, request_decode, send_response,
    recv_response, response_decode; rewrite send_all_frames.
  - split_and!; [done..|]. eexists; split; [done|]. eapply recv_n_frames; [apply _|done].
  - eapply Forall_impl; [done|]. cbv beta. intros q [_ ?]. by apply message_u32.
  - split_and!; [done..|]. eexists; split; [done|]. eapply recv_n_frames; [apply _|done].
  - eapply Forall_impl; [done|]. cbv beta. intros q [_ ?]. by apply message_u32.
Qed.

(** Whatever frame a peer sends, the daemon either refuses it or gets a
    well-formed request (strings valid UTF-8 and at most [MAX_STRING] bytes,
    lists of at most [MAX_COUNT] elements, integers in range); a client likewise
    for responses. *)
Theorem control_decode_ok (body : bytes) :
  bytes_ok body ->
  (forall q, request_decode body = Ok q -> request_ok q) /\
  (forall r, response_decode body = Ok r -> response_ok r).
Proof. intros Hb. split; intros v; (apply run_prefix_yields; [apply codec_yields|done]). Qed.

(** The frame cap on every branch: a body over [u32::MAX] is not written at
    all; a body within [MAX_MESSAGE] is read back whole, leaving what follows;
    one that is larger is refused as invalid before any of it is read. *)
Theorem frame_cap (body rest out : bytes) (c : duplex) :
  let '(sent, c') := write_frame body c in
  if u32_max <? blen body then sent = Err OtherError /\ c' = c
  else sent = Ok tt /\ exists wire, dx_out c' = dx_out c ++ wire /\
    read_frame (Duplex (wire ++ rest) out) =
      (if blen body <=? MAX_MESSAGE then (Ok body, Duplex rest out)
       else (Err InvalidData, Duplex (body ++ rest) out)).
Proof.
  destruct (Z.ltb_spec u32_max (blen body)).
  - unfold write_frame. by rewrite (proj2 (Z.ltb_lt _ _)).
  - rewrite write_frame_ok by done. split; [done|]. eexists; split; [done|].
    by apply read_frame_frame.
Qed.

Lemma small_frame {A} (put : A -> bytes) (get : crd A) ok v rest out :
  WireCodec put get ok -> ok v -> blen (put v) <= MAX_MESSAGE ->
  exists body, read_frame (Duplex (frame (put v) ++ rest) out) = (Ok body, Duplex rest out) /\
    decoded (run_prefix get body) = Ok v.
Proof.
  intros C Hv Hl. exists (put v). rewrite read_frame_frame by by apply message_u32.
  rewrite (proj2 (Z.leb_le _ _)) by done. split; [done|].
  rewrite <- (app_nil_r (put v)), run_prefix_decodes with (v := v); [done|..].
  - by apply codec_decodes.
  - rewrite app_nil_r. by apply message_usize.
Qed.

Lemma put_str_len s : blen s <= MAX_STRING -> blen (put_str s) <= MAX_STRING + 4.
Proof. intros. unfold put_str, put_u32. rewrite blen_app, length_ne_bytes. lia. Qed.

Lemma preamble_small v b : blen b <= MAX_STRING ->
  blen (preamble_encode {| pr_schema_version := v; pr_build := b |}) <= MAX_MESSAGE.
Proof.
  intros H%put_str_len. unfold preamble_encode, put_u32; cbn [pr_schema_version pr_build].
  rewrite blen_app, length_ne_bytes. unfold MAX_STRING, MAX_MESSAGE in *. lia.
Qed.

Lemma verdict_small v : verdict_ok v -> blen (verdict_encode v) <= MAX_MESSAGE.
Proof.
  destruct v as [|d c b]; [done|]. intros (_ & _ & _ & H%put_str_len & _). cbn [verdict_encode].
  unfold put_u32, put_u8. rewrite !blen_app, !length_ne_bytes.
  unfold MAX_STRING, MAX_MESSAGE in *; cbn. lia.
Qed.

(** What the client makes of a verdict. *)
Definition client_outcome (v : Verdict) : result HandshakeError unit :=
  match v with
  | Compatible => Ok tt
  | Incompatible d c b =>
      Err (HsSkew {| vs_daemon_schema := d; vs_client_schema := c; vs_daemon_build := b |})
  end.

Lemma client_preamble cs cb :
  cstr_ok cb ->
  dx_out (client_handshake cs cb (Duplex [] [])).2 =
    frame (preamble_encode {| pr_schema_version := cs; pr_build := cb |}).
Proof.
  intros (_ & Hcb & _). unfold client_handshake, sio_bind, sio_map_err.
  rewrite write_frame_ok by by apply message_u32, preamble_small. by cbn [read_frame dx_in dx_out].
Qed.

Lemma client_handshake_run cs cb v :
  cstr_ok cb -> verdict_ok v ->
  (client_handshake cs cb (Duplex (frame (verdict_encode v)) [])).1 = client_outcome v.
Proof.
  intros (_ & Hcb & _) Hv. unfold client_handshake, sio_bind at 1, sio_map_err at 1.
  rewrite write_frame_ok by by apply message_u32, preamble_small. cbn [dx_in dx_out].
  unfold sio_bind at 1, sio_map_err at 1. rewrite <- (app_nil_r (frame _)).
  destruct (small_frame _ _ _ v [] ([] ++ frame (preamble_encode
    {| pr_schema_version := cs; pr_build := cb |})) ccodec_verdict Hv (verdict_small v Hv))
    as (body & -> & Hd).
  unfold sio_bind, sio_map_err, sio_lift, verdict_decode. rewrite Hd. by destruct v.
Qed.

Lemma server_handshake_run cs cb ds db :
  in_u32 cs -> in_u32 ds -> cstr_ok cb -> cstr_ok db ->
  let v := if ds <? cs then Incompatible ds cs db else Compatible in
  server_handshake ds db
    (Duplex (frame (preamble_encode {| pr_schema_version := cs; pr_build := cb |})) []) =
  (Ok (negb (ds <? cs)), Duplex [] (frame (verdict_encode v))).
Proof.
  intros Hcs Hds Hcb Hdb v. unfold server_handshake, sio_bind at 1.
  rewrite <- (app_nil_r (frame _)).
  destruct (small_frame _ _ _ {| pr_schema_version := cs; pr_build := cb |} [] [] ccodec_preamble)
    as (body & -> & Hd); [done|by apply preamble_small, Hcb|].
  unfold sio_bind at 1, sio_lift, preamble_decode. rewrite Hd. cbn [pr_schema_version].
  assert (verdict_ok v) as Hv by (unfold v; case_match; by cbn).
  unfold v in *. destruct (ds <? cs);
    unfold sio_bind; by rewrite write_frame_ok by by apply message_u32, verdict_small.
Qed.

(** The outcome of the version handshake, for every pair of versions: client
    and daemon agree to proceed exactly when the client's settled-policy schema
    is not newer than the daemon's; otherwise the daemon refuses and the client
    gets the typed skew with both versions and the daemon's build, never a parse
    error. *)
Theorem handshake_outcome (cs ds : Z) (cb db : bytes) :
  in_u32 cs -> in_u32 ds -> cstr_ok cb -> cstr_ok db ->
  run_handshake cs cb ds db =
    if cs <=? ds then (Ok tt, Ok true)
    else (Err (HsSkew {| vs_daemon_schema := ds; vs_client_schema := cs; vs_daemon_build := db |}),
          Ok false).
Proof.
  intros Hcs Hds Hcb Hdb. unfold run_handshake. cbv zeta.
  rewrite client_preamble, server_handshake_run by done.
  cbn [snd fst dx_out]. rewrite client_handshake_run; [|done|case_match; by cbn].
  rewrite (Z.leb_antisym ds cs). by destruct (ds <? cs).
Qed.
End control.

(** ** Witnesses *)

Definition sample_start : Request := Req_Start {|
  sr_policy := ascii_bytes "/etc/kennel/ai.policy"; sr_kennel := ascii_bytes "ai";
  sr_argv := [ascii_bytes "python3"; ascii_bytes "agent.py"]; sr_cwd := ascii_bytes "/home/dev";
  sr_term := ascii_bytes "xterm"; sr_interactive := true; sr_force := false;
  sr_watch_paths := [ascii_bytes "/home/dev/Makefile"];
  sr_oci_config := Some (ascii_bytes "/img/config.json") |}.

Definition sample_listing : Response := Resp_Listing [{|
  ki_kennel := ascii_bytes "ai"; ki_ctx := 3; ki_pid := 4711; ki_running := true;
  ki_attached := false;
  ki_consumed := [{| cc_name := ascii_bytes "vault"; cc_shape := ascii_bytes "af-unix";
                     cc_required := true |}] |}].

Global Instance cstr_ok_dec s : Decision (cstr_ok s).
Proof. unfold cstr_ok; apply _. Defined.
Global Instance clist_ok_dec {A} (ok : A -> Prop) `{!forall x, Decision (ok x)} l :
  Decision (clist_ok ok l).
Proof. unfold clist_ok; apply _. Defined.
Global Instance copt_ok_dec {A} (ok : A -> Prop) `{!forall x, Decision (ok x)} o :
  Decision (copt_ok ok o).
Proof. destruct o; cbn; apply _. Defined.
Global Instance request_ok_dec r : Decision (request_ok r).
Proof. destruct r; cbn; unfold start_ok; apply _. Defined.
Global Instance consumed_ok_dec c : Decision (consumed_ok c).
Proof. unfold consumed_ok; apply _. Defined.
Global Instance kennel_info_ok_dec k : Decision (kennel_info_ok k).
Proof. unfold kennel_info_ok; apply _. Defined.
Global Instance mesh_provider_ok_dec p : Decision (mesh_provider_ok p).
Proof. unfold mesh_provider_ok; apply _. Defined.
Global Instance response_ok_dec r : Decision (response_ok r).
Proof. destruct r; cbn; apply _. Defined.

Lemma control_roundtrip_witness :
  request_decode BigEndian (request_encode BigEndian sample_start ++ [7]) = Ok sample_start /\
  response_decode LittleEndian (response_encode LittleEndian sample_listing) = Ok sample_listing.
Proof.
  split.
  - apply (control_roundtrip BigEndian sample_start sample_listing [7]);
      apply (bool_decide_unpack _); by vm_compute.
  - rewrite <- (app_nil_r (response_encode _ _)).
    apply (control_roundtrip LittleEndian sample_start sample_listing []);
      apply (bool_decide_unpack _); by vm_compute.
Defined.

Lemma control_stream_witness :
  exists wire, dx_out (send_all (send_request LittleEndian) [sample_start; Req_List]
    (Duplex [] [])).2 = wire /\
  recv_n (recv_request LittleEndian) 2 (Duplex (wire ++ [9]) []) =
    (Ok [sample_start; Req_List], Duplex [9] []).
Proof.
  pose proof (control_stream LittleEndian [sample_start; Req_List] [sample_listing; Resp_Exited (-1)]
    [9] [] (Duplex [] [])) as H.
  destruct (send_all (send_request _) _ _) as [sent c']. destruct H as [(_ & _ & wire & Hw & Hr) _].
  - apply (bool_decide_unpack _). by vm_compute.
  - apply (bool_decide_unpack _). by vm_compute.
  - exists wire. by rewrite <- Hr.
Defined.

Lemma control_decode_ok_witness : request_ok (Req_Resize (ascii_bytes "ai") 24 80).
Proof.
  apply (control_decode_ok LittleEndian
    (request_encode LittleEndian (Req_Resize (ascii_bytes "ai") 24 80))).
  - apply (bool_decide_unpack _). by vm_compute.
  - by vm_compute.
Defined.

Lemma handshake_outcome_witness :
  run_handshake LittleEndian 3 (ascii_bytes "cli") 1 (ascii_bytes "daemon-1.2.3") =
    (Err (HsSkew {| vs_daemon_schema := 1; vs_client_schema := 3;
                    vs_daemon_build := ascii_bytes "daemon-1.2.3" |}), Ok false).
Proof.
  apply (handshake_outcome LittleEndian 3 1 (ascii_bytes "cli") (ascii_bytes "daemon-1.2.3"));
    apply (bool_decide_unpack _); by vm_compute.
Defined.
