(* ===== verification/PrivWire.v ===== *)
(** The privileged helper's wire format, [kennel-privhelper/src/wire.rs].

    The fixed 38-byte [Request], the 6-byte [Response] and the self-describing
    [EgressPayload] tail of the construct datagram.  Slices are taken with
    [get_range], which fails out of range as [slice::get] does; offsets are
    computed the way the source computes them.  Integers are in the host's byte
    order [en].

    Theorems: the three round trips, and the bounds of an accepted payload. *)

From S2P Require Import Prelude Bytes Plan.

Definition REQUEST_LEN : Z := 38.
Definition RESPONSE_LEN : Z := 6.
Definition INTERFACE_FIELD : nat := 16.
Definition META_LEN : Z := 64.
Definition PRIV_MAX_ENTRIES : Z := 8192.
Definition MAX_BIND_PORTS : Z := 8.
Definition MAX_PIN_ID : Z := 256.

Inductive Op : Type := DelAddr.
Definition op_to_byte (o : Op) : Z := match o with DelAddr => 2 end.
Definition op_from_byte (b : Z) : option Op := if b =? 2 then Some DelAddr else None.

Inductive Status : Type := StOk | StRefused | StProtocol | StInternal.
Definition status_to_byte (s : Status) : Z :=
  match s with StOk => 0 | StRefused => 1 | StProtocol => 2 | StInternal => 3 end.
Definition status_from_byte (b : Z) : option Status :=
  if b =? 0 then Some StOk else if b =? 1 then Some StRefused
  else if b =? 2 then Some StProtocol else if b =? 3 then Some StInternal else None.

Record Request : Type := {
  rq_op : Op; rq_ctx : Z; rq_addr : ip_addr; rq_prefix : Z; rq_interface : bytes;
}.

Inductive PrivWireError : Type := BadLength | BadOp | BadFamily | BadString.

Record Response : Type := { rs_status : Status; rs_refusal : Z; rs_errno : Z }.

Definition resp_ok : Response := {| rs_status := StOk; rs_refusal := 0; rs_errno := 0 |}.
Definition resp_refused (code : Z) : Response :=
  {| rs_status := StRefused; rs_refusal := code; rs_errno := 0 |}.
Definition resp_protocol : Response :=
  {| rs_status := StProtocol; rs_refusal := 0; rs_errno := 0 |}.
Definition resp_internal (errno : Z) : Response :=
  {| rs_status := StInternal; rs_refusal := 0; rs_errno := errno |}.

Record EgressPayload : Type := {
  eg_meta : bytes;
  eg_allow_v4 : list (bytes * bytes); eg_deny_v4 : list (bytes * bytes);
  eg_allow_v6 : list (bytes * bytes); eg_deny_v6 : list (bytes * bytes);
  eg_bind_allow_v4 : list (bytes * bytes); eg_bind_deny_v4 : list (bytes * bytes);
  eg_bind_allow_v6 : list (bytes * bytes); eg_bind_deny_v6 : list (bytes * bytes);
  eg_bind_allowed_ports : list Z;
  eg_pin_id : bytes;
}.

(** ** Fixed-size string fields *)

(** [pad_field]: zipping truncates a longer source and leaves NULs after a
    shorter one. *)
Definition pad_field (n : nat) (src : bytes) : bytes :=
  take n src ++ replicate (n - length src) 0.

(** The prefix before the first NUL. *)
Fixpoint until_nul (field : bytes) : bytes :=
  match field with
  | [] => []
  | b :: t => if b =? 0 then [] else b :: until_nul t
  end.

Definition read_string (field : bytes) : result PrivWireError bytes :=
  ok_or BadString (from_utf8 (until_nul field)).

Section priv_wire.
Context (en : endian).

(** ** Request *)

Definition request_encode (r : Request) : bytes :=
  [op_to_byte (rq_op r)] ++
  (match rq_addr r with
   | V4 o => [4; rq_prefix r; 0] ++ ne_bytes en 2 (rq_ctx r) ++ o ++ replicate 12 0
   | V6 o => [6; rq_prefix r; 0] ++ ne_bytes en 2 (rq_ctx r) ++ o
   end) ++
  pad_field INTERFACE_FIELD (rq_interface r).

Definition request_decode (buf : bytes) : result PrivWireError Request :=
  if negb (blen buf =? REQUEST_LEN) then Err BadLength else
  op ← ok_or BadOp (head buf ≫= op_from_byte);
  family ← ok_or BadLength (buf !! 1%nat);
  prefix ← ok_or BadLength (buf !! 2%nat);
  ctx ← ok_or BadLength (ne_val en <$> get_range buf 4 6);
  addr16 ← ok_or BadLength (get_range buf 6 22);
  addr ← (if family =? 4 then V4 <$> ok_or BadLength (get_range addr16 0 4)
          else if family =? 6 then Ok (V6 addr16)
          else Err BadFamily);
  field ← ok_or BadLength (get_range buf 22 38);
  interface ← read_string field;
  mret {| rq_op := op; rq_ctx := ctx; rq_addr := addr; rq_prefix := prefix;
          rq_interface := interface |}.

(** ** Response *)

Definition response_encode (r : Response) : bytes :=
  [status_to_byte (rs_status r); rs_refusal r] ++ ne_bytes en 4 (to_twos 32 (rs_errno r)).

Definition response_decode (buf : bytes) : result PrivWireError Response :=
  if negb (blen buf =? RESPONSE_LEN) then Err BadLength else
  status ← ok_or BadOp (head buf ≫= status_from_byte);
  refusal ← ok_or BadLength (buf !! 1%nat);
  errno ← ok_or BadLength ((fun s => of_twos 32 (ne_val en s)) <$> get_range buf 2 6);
  mret {| rs_status := status; rs_refusal := refusal; rs_errno := errno |}.

(** ** Egress payload *)

Definition put_count (n : Z) : bytes := ne_bytes en 4 (sat_u32 n).
Definition put_entry (e : bytes * bytes) : bytes := e.1 ++ e.2.

Definition egress_encode (p : EgressPayload) : bytes :=
  eg_meta p ++
  flat_map put_count [blen (eg_allow_v4 p); blen (eg_deny_v4 p);
                      blen (eg_allow_v6 p); blen (eg_deny_v6 p)] ++
  flat_map put_entry (eg_allow_v4 p ++ eg_deny_v4 p) ++
  flat_map put_entry (eg_allow_v6 p ++ eg_deny_v6 p) ++
  flat_map put_count [blen (eg_bind_allow_v4 p); blen (eg_bind_deny_v4 p);
                      blen (eg_bind_allow_v6 p); blen (eg_bind_deny_v6 p)] ++
  flat_map put_entry (eg_bind_allow_v4 p ++ eg_bind_deny_v4 p) ++
  flat_map put_entry (eg_bind_allow_v6 p ++ eg_bind_deny_v6 p) ++
  put_count (blen (eg_bind_allowed_ports p)) ++
  flat_map (ne_bytes en 2) (eg_bind_allowed_ports p) ++
  put_count (blen (eg_pin_id p)) ++ eg_pin_id p.

(** [chunks_exact(k)]: the full chunks of [k] bytes, a shorter rest dropped. *)
Fixpoint chunks (n k : nat) (l : bytes) : list bytes :=
  match n with O => [] | S n => take k l :: chunks n k (drop k l) end.
Definition chunks_exact (k : nat) (l : bytes) : list bytes := chunks (length l / k) k l.

(** The ports, and the bytes they took. *)
Definition read_bind_ports (bs : bytes) : result PrivWireError (list Z * Z) :=
  match get_range bs 0 4 with
  | None => Ok ([], 0)
  | Some count_bytes =>
      let n := ne_val en count_bytes in
      if MAX_BIND_PORTS <? n then Err BadLength else
      region ← ok_or BadLength (get_range bs 4 (n * 2 + 4));
      mret (map (ne_val en) (chunks_exact 2 region), n * 2 + 4)
  end.

Definition read_pin_id (bs : bytes) : result PrivWireError bytes :=
  match get_range bs 0 4 with
  | None => Ok []
  | Some len_bytes =>
      let n := ne_val en len_bytes in
      if MAX_PIN_ID <? n then Err BadLength else
      region ← ok_or BadLength (get_range bs 4 (n + 4));
      ok_or BadString (from_utf8 region)
  end.

(** [read_v4_entries] ([kl] = 8) and [read_v6_entries] ([kl] = 20): [n] entries
    of a [kl]-byte key and an 8-byte value from the front of [bs]. *)
Definition read_entries (kl : nat) (bs : bytes) (n : Z) :
    result PrivWireError (list (bytes * bytes) * Z) :=
  let span := n * (Z.of_nat kl + 8) in
  if usize_max <? span then Err BadLength else
  region ← ok_or BadLength (get_range bs 0 span);
  mret (map (fun c => (take kl c, drop kl c)) (chunks_exact (kl + 8) region), span).
Definition read_v4_entries := read_entries 8.
Definition read_v6_entries := read_entries 20.

Definition read_count (bs : bytes) (off : Z) : result PrivWireError Z :=
  raw ← ok_or BadLength (ne_val en <$> get_range bs off (off + 4));
  if PRIV_MAX_ENTRIES <? raw then Err BadLength else mret raw.

(** The four entry vectors that share one block, and the bytes they took. *)
Definition read_block (rest : bytes) (n1 n2 n3 n4 : Z) :
    result PrivWireError (list (bytes * bytes) * list (bytes * bytes) *
                          list (bytes * bytes) * list (bytes * bytes) * Z) :=
  '(a4, used) ← read_v4_entries rest n1;
  let off := used in
  s ← ok_or BadLength (get_from rest off);
  '(d4, used) ← read_v4_entries s n2;
  let off := off + used in
  s ← ok_or BadLength (get_from rest off);
  '(a6, used) ← read_v6_entries s n3;
  let off := off + used in
  s ← ok_or BadLength (get_from rest off);
  '(d6, used) ← read_v6_entries s n4;
  mret (a4, d4, a6, d6, off + used).

Definition egress_decode (buf : bytes) : result PrivWireError EgressPayload :=
  meta ← ok_or BadLength (get_range buf 0 META_LEN);
  n_allow_v4 ← read_count buf META_LEN;
  n_deny_v4 ← read_count buf (META_LEN + 4);
  n_allow_v6 ← read_count buf (META_LEN + 8);
  n_deny_v6 ← read_count buf (META_LEN + 12);
  rest ← ok_or BadLength (get_from buf (META_LEN + 16));
  '(allow_v4, deny_v4, allow_v6, deny_v6, off) ←
    read_block rest n_allow_v4 n_deny_v4 n_allow_v6 n_deny_v6;
  acl ← ok_or BadLength (get_from rest off);
  n_bind_allow_v4 ← read_count acl 0;
  n_bind_deny_v4 ← read_count acl 4;
  n_bind_allow_v6 ← read_count acl 8;
  n_bind_deny_v6 ← read_count acl 12;
  acl_rest ← ok_or BadLength (get_from acl 16);
  '(bind_allow_v4, bind_deny_v4, bind_allow_v6, bind_deny_v6, acl_off) ←
    read_block acl_rest n_bind_allow_v4 n_bind_deny_v4 n_bind_allow_v6 n_bind_deny_v6;
  let ports_tail := default [] (get_from rest (off + 16 + acl_off)) in
  '(bind_allowed_ports, used) ← read_bind_ports ports_tail;
  pin_id ← read_pin_id (default [] (get_from ports_tail used));
  mret {| eg_meta := meta; eg_allow_v4 := allow_v4; eg_deny_v4 := deny_v4;
          eg_allow_v6 := allow_v6; eg_deny_v6 := deny_v6;
          eg_bind_allow_v4 := bind_allow_v4; eg_bind_deny_v4 := bind_deny_v4;
          eg_bind_allow_v6 := bind_allow_v6; eg_bind_deny_v6 := bind_deny_v6;
          eg_bind_allowed_ports := bind_allowed_ports; eg_pin_id := pin_id |}.

(** ** Well-formed messages *)

Definition iface_ok (s : bytes) : Prop :=
  bytes_ok s /\ (length s <= INTERFACE_FIELD)%nat /\ Forall (fun b => b <> 0) s /\ utf8_ok s = true.
Definition request_ok (r : Request) : Prop :=
  ip_ok (rq_addr r) /\ in_u16 (rq_ctx r) /\ in_u8 (rq_prefix r) /\ iface_ok (rq_interface r).
Definition response_ok (r : Response) : Prop := in_u8 (rs_refusal r) /\ in_i32 (rs_errno r).

Definition entry_ok (kl : nat) (e : bytes * bytes) : Prop :=
  bytes_ok e.1 /\ bytes_ok e.2 /\ length e.1 = kl /\ length e.2 = 8%nat.
Definition entries_ok (kl : nat) (l : list (bytes * bytes)) : Prop :=
  blen l <= PRIV_MAX_ENTRIES /\ Forall (entry_ok kl) l.
Definition pin_ok (s : bytes) : Prop := bytes_ok s /\ blen s <= MAX_PIN_ID /\ utf8_ok s = true.
Definition ports_ok (l : list Z) : Prop := blen l <= MAX_BIND_PORTS /\ Forall in_u16 l.

Definition egress_ok (p : EgressPayload) : Prop :=
  (bytes_ok (eg_meta p) /\ blen (eg_meta p) = META_LEN) /\
  entries_ok 8 (eg_allow_v4 p) /\ entries_ok 8 (eg_deny_v4 p) /\
  entries_ok 20 (eg_allow_v6 p) /\ entries_ok 20 (eg_deny_v6 p) /\
  entries_ok 8 (eg_bind_allow_v4 p) /\ entries_ok 8 (eg_bind_deny_v4 p) /\
  entries_ok 20 (eg_bind_allow_v6 p) /\ entries_ok 20 (eg_bind_deny_v6 p) /\
  ports_ok (eg_bind_allowed_ports p) /\ pin_ok (eg_pin_id p).

(** ** Fixed fields *)

Lemma length_pad_field n s : length (pad_field n s) = n.
Proof. unfold pad_field. rewrite length_app, length_take, length_replicate. lia. Qed.

Lemma until_nul_app s t : Forall (fun b => b <> 0) s -> until_nul (s ++ t) = s ++ until_nul t.
Proof. induction 1; cbn; [done|]. case_match; zbool; [done|]. by f_equal. Qed.

Lemma until_nul_pad n s :
  (length s <= n)%nat -> Forall (fun b => b <> 0) s -> until_nul (pad_field n s) = s.
Proof.
  intros Hl Hs. unfold pad_field. rewrite take_ge, until_nul_app by done.
  destruct (n - length s)%nat; cbn; by rewrite app_nil_r.
Qed.

Lemma read_string_pad s :
  iface_ok s -> read_string (pad_field INTERFACE_FIELD s) = Ok s.
Proof.
  intros (_ & Hl & Hn & Hu). unfold read_string. rewrite until_nul_pad by done.
  unfold from_utf8. by rewrite Hu.
Qed.

(** An offset or a split of a fixed layout; [Hl] gives the length of a field. *)
Ltac layout Hl :=
  first [ reflexivity
        | try match goal with |- ?b = _ => is_var b; unfold b end;
          by rewrite <- ?app_assoc, ?app_nil_r
        | rewrite ?blen_app, ?length_app, ?length_ne_bytes, ?length_pad_field, ?Hl; done ].

(** The bytes of a request, given its 16-byte address field. *)
Lemma request_decode_layout fam prefix ctx addr16 iface addr :
  in_u16 ctx -> length addr16 = 16%nat -> iface_ok iface ->
  (if fam =? 4 then V4 <$> ok_or BadLength (get_range addr16 0 4)
   else if fam =? 6 then Ok (V6 addr16) else Err BadFamily) = Ok addr ->
  request_decode ([2; fam; prefix; 0] ++ ne_bytes en 2 ctx ++ addr16 ++
    pad_field INTERFACE_FIELD iface) =
  Ok {| rq_op := DelAddr; rq_ctx := ctx; rq_addr := addr; rq_prefix := prefix;
        rq_interface := iface |}.
Proof.
  intros Hctx Hl Hi Ha. unfold request_decode.
  set (buf := [2; fam; prefix; 0] ++ _).
  assert (blen buf = REQUEST_LEN) as ->.
  { unfold buf. rewrite !length_app, length_ne_bytes, length_pad_field, Hl. done. }
  cbn [Z.eqb negb REQUEST_LEN Pos.eqb].
  rewrite (get_range_eq buf [2; fam; prefix; 0] (ne_bytes en 2 ctx)
    (addr16 ++ pad_field INTERFACE_FIELD iface) 4 6) by layout Hl.
  rewrite (get_range_eq buf ([2; fam; prefix; 0] ++ ne_bytes en 2 ctx) addr16
    (pad_field INTERFACE_FIELD iface) 6 22) by layout Hl.
  rewrite (get_range_eq buf ([2; fam; prefix; 0] ++ ne_bytes en 2 ctx ++ addr16)
    (pad_field INTERFACE_FIELD iface) [] 22 38) by layout Hl.
  cbn -[read_string pad_field get_range ne_val]. unfold mbind, result_bind in *.
  rewrite Ha, read_string_pad by done.
  by rewrite ne_val_bytes by in_range.
Qed.

Lemma chunks_flat_map {A} (enc : A -> bytes) k (l : list A) :
  Forall (fun x => length (enc x) = k) l -> chunks (length l) k (flat_map enc l) = map enc l.
Proof.
  induction 1 as [|x l Hx _ IH]; cbn; [done|].
  rewrite take_app_exact, drop_app_exact by done. by rewrite IH.
Qed.

Lemma length_flat_map_const {A} (enc : A -> bytes) k (l : list A) :
  Forall (fun x => length (enc x) = k) l -> length (flat_map enc l) = (length l * k)%nat.
Proof. induction 1; cbn; [done|]. rewrite length_app. lia. Qed.

Lemma chunks_exact_flat_map {A} (enc : A -> bytes) k (l : list A) :
  k <> 0%nat -> Forall (fun x => length (enc x) = k) l ->
  chunks_exact k (flat_map enc l) = map enc l.
Proof.
  intros Hk Hl. unfold chunks_exact. rewrite (length_flat_map_const _ k) by done.
  rewrite Nat.div_mul by done. by apply chunks_flat_map.
Qed.

Lemma entry_len kl l : Forall (entry_ok kl) l ->
  Forall (fun x => length (put_entry x) = (kl + 8)%nat) l.
Proof.
  intros Hl. eapply Forall_impl; [done|]. intros e (_ & _ & H1 & H2). unfold put_entry. rewrite length_app. lia.
Qed.

Lemma ne_val_count n : 0 <= n <= u32_max -> ne_val en (put_count n) = n.
Proof. intros. unfold put_count. rewrite sat_u32_small, ne_val_bytes; in_range. Qed.

Lemma split_entries kl l :
  Forall (entry_ok kl) l ->
  map (fun x => (take kl (put_entry x), drop kl (put_entry x))) l = l.
Proof.
  induction 1 as [|[k v] l (_ & _ & Hk & _) _ IH]; [done|]. cbn in *. rewrite IH. f_equal.
  unfold put_entry; cbn. by rewrite take_app_exact, drop_app_exact.
Qed.

Lemma read_entries_app kl l rest :
  (kl <= 20)%nat -> entries_ok kl l ->
  read_entries kl (flat_map put_entry l ++ rest) (blen l) =
    Ok (l, blen (flat_map put_entry l)).
Proof.
  intros Hkl [Hn Hl]. unfold read_entries.
  pose proof (length_flat_map_const _ _ _ (entry_len _ _ Hl)) as Hlen.
  assert (blen l * (Z.of_nat kl + 8) = blen (flat_map put_entry l)) as -> by lia.
  assert (length l * (kl + 8) <= length l * 28)%nat by nia.
  rewrite (proj2 (Z.ltb_ge _ _)) by (unfold PRIV_MAX_ENTRIES in *; in_range).
  rewrite (get_range_eq _ [] (flat_map put_entry l) rest) by (done || lia).
  cbn [ok_or mbind result_bind mret result_ret].
  unfold mbind, result_bind. rewrite chunks_exact_flat_map by (lia || by apply entry_len).
  rewrite map_map. unfold mret, result_ret. do 2 f_equal. by apply split_entries.
Qed.

Lemma read_count_at buf pre n suf off :
  buf = pre ++ put_count n ++ suf -> off = blen pre -> 0 <= n <= PRIV_MAX_ENTRIES ->
  read_count buf off = Ok n.
Proof.
  intros -> -> Hn. unfold read_count, put_count, PRIV_MAX_ENTRIES in *.
  rewrite sat_u32_small by in_range.
  rewrite (get_range_eq _ pre (ne_bytes en 4 n) suf) by (done || by rewrite length_ne_bytes).
  cbn. rewrite ne_val_bytes by in_range. by rewrite (proj2 (Z.ltb_ge _ _)) by lia.
Qed.

Lemma length_put_count n : length (put_count n) = 4%nat.
Proof. apply length_ne_bytes. Qed.

Lemma read_block_app l1 l2 l3 l4 rest :
  entries_ok 8 l1 -> entries_ok 8 l2 -> entries_ok 20 l3 -> entries_ok 20 l4 ->
  let block := flat_map put_entry (l1 ++ l2) ++ flat_map put_entry (l3 ++ l4) in
  read_block (block ++ rest) (blen l1) (blen l2) (blen l3) (blen l4) =
    Ok (l1, l2, l3, l4, blen block).
Proof.
  intros H1 H2 H3 H4 block. unfold block. rewrite !flat_map_app, <- !app_assoc.
  unfold read_block, read_v4_entries, read_v6_entries, mbind, result_bind.
  rewrite read_entries_app by (lia || done).
  erewrite get_from_eq by done. cbn [ok_or].
  rewrite read_entries_app by (lia || done).
  rewrite (get_from_eq _ (flat_map put_entry l1 ++ flat_map put_entry l2)
    (flat_map put_entry l3 ++ flat_map put_entry l4 ++ rest))
    by first [by rewrite <- app_assoc | rewrite blen_app; lia]. cbn [ok_or].
  rewrite read_entries_app by (lia || done).
  rewrite (get_from_eq _ (flat_map put_entry l1 ++ flat_map put_entry l2 ++
      flat_map put_entry l3) (flat_map put_entry l4 ++ rest))
    by first [by rewrite <- !app_assoc | rewrite !blen_app; lia]. cbn [ok_or].
  rewrite read_entries_app by (lia || done). rewrite !blen_app.
  cbn [mret result_ret]. unfold mret, result_ret. do 2 f_equal. lia.
Qed.

Lemma read_bind_ports_app l rest :
  ports_ok l ->
  read_bind_ports (put_count (blen l) ++ flat_map (ne_bytes en 2) l ++ rest) =
    Ok (l, blen (put_count (blen l) ++ flat_map (ne_bytes en 2) l)).
Proof.
  intros [Hn Hl]. unfold read_bind_ports, MAX_BIND_PORTS in *.
  assert (Forall (fun x => length (ne_bytes en 2 x) = 2%nat) l) as H2
    by (apply Forall_true; intros; apply length_ne_bytes).
  pose proof (length_flat_map_const _ _ _ H2) as Hlen.
  rewrite (get_range_eq _ [] (put_count (blen l)) (flat_map (ne_bytes en 2) l ++ rest))
    by (done || by rewrite length_put_count).
  rewrite ne_val_count by in_range.
  rewrite (proj2 (Z.ltb_ge _ _)) by lia.
  rewrite (get_range_eq _ (put_count (blen l)) (flat_map (ne_bytes en 2) l) rest)
    by first [done | rewrite ?length_put_count; lia].
  cbn [ok_or]. unfold mbind, result_bind, mret, result_ret.
  rewrite chunks_exact_flat_map by (done || lia). rewrite map_map, blen_app, length_put_count.
  do 2 f_equal; [|lia]. clear Hlen Hn H2. induction Hl as [|p l Hp _ IH]; [done|].
  cbn. rewrite IH, ne_val_bytes by in_range. done.
Qed.

Lemma read_pin_id_app s :
  pin_ok s -> read_pin_id (put_count (blen s) ++ s) = Ok s.
Proof.
  intros (_ & Hl & Hu). unfold read_pin_id, MAX_PIN_ID in *.
  rewrite (get_range_eq _ [] (put_count (blen s)) s) by (done || by rewrite length_put_count).
  rewrite ne_val_count by in_range.
  rewrite (proj2 (Z.ltb_ge _ _)) by lia.
  rewrite (get_range_eq _ (put_count (blen s)) s [])
    by first [by rewrite app_nil_r | rewrite ?length_put_count; lia].
  cbn [ok_or]. unfold mbind, result_bind, from_utf8. by rewrite Hu.
Qed.

Lemma request_decode_encode (r : Request) :
  request_ok r ->
  blen (request_encode r) = REQUEST_LEN /\ request_decode (request_encode r) = Ok r.
Proof.
  intros ([Ha Hl] & Hc & Hp & Hi). destruct r as [[] ctx addr prefix iface].
  cbn in Ha, Hl, Hc, Hp, Hi.
  assert (exists fam addr16, request_encode
      {| rq_op := DelAddr; rq_ctx := ctx; rq_addr := addr; rq_prefix := prefix;
         rq_interface := iface |} =
      [2; fam; prefix; 0] ++ ne_bytes en 2 ctx ++ addr16 ++ pad_field INTERFACE_FIELD iface /\
      length addr16 = 16%nat /\
      (if fam =? 4 then V4 <$> ok_or BadLength (get_range addr16 0 4)
       else if fam =? 6 then Ok (V6 addr16) else Err BadFamily) = Ok addr)
    as (fam & addr16 & -> & Hl16 & Hfam).
  { destruct addr as [o|o]; cbn in Hl.
    - exists 4, (o ++ replicate 12 0). split_and!.
      + unfold request_encode; cbn -[pad_field ne_bytes]. by rewrite <- !app_assoc.
      + rewrite length_app, Hl. done.
      + cbn. rewrite (get_range_eq _ [] o (replicate 12 0)) by (done || lia). done.
    - exists 6, o. split_and!; [|done..].
      unfold request_encode; cbn -[pad_field ne_bytes]. by rewrite <- !app_assoc. }
  split; [|by apply request_decode_layout].
  rewrite !length_app, length_ne_bytes, length_pad_field, Hl16. done.
Qed.

(** * Properties *)

Lemma response_decode_encode (r : Response) :
  response_ok r ->
  blen (response_encode r) = RESPONSE_LEN /\ response_decode (response_encode r) = Ok r.
Proof.
  intros [Hr He]. destruct r as [st rf er]; cbn in Hr, He.
  unfold response_encode, response_decode; cbn [rs_status rs_refusal rs_errno].
  rewrite !length_app, length_ne_bytes. split; [done|]. cbn [Z.eqb negb].
  rewrite (get_range_eq _ [status_to_byte st; rf] (ne_bytes en 4 (to_twos 32 er)) [])
    by first [by rewrite ?app_nil_r | by rewrite length_ne_bytes].
  cbn -[ne_val ne_bytes]. rewrite ne_val_bytes by (apply (Z.mod_pos_bound er (2 ^ 32)); lia).
  rewrite of_to_twos by in_range. by destruct st.
Qed.

(** Requests survive the fixed 38-byte layout, and responses of every status
    the fixed 6-byte one. *)
Theorem priv_wire_roundtrip (q : Request) (r : Response) :
  request_ok q -> response_ok r ->
  (blen (request_encode q) = REQUEST_LEN /\ request_decode (request_encode q) = Ok q) /\
  (blen (response_encode r) = RESPONSE_LEN /\ response_decode (response_encode r) = Ok r).
Proof. intros Hq Hr. split; [by apply request_decode_encode|by apply response_decode_encode]. Qed.

Lemma read_header (l1 l2 l3 l4 : list (bytes * bytes)) buf pre rest off :
  buf = pre ++ flat_map put_count [blen l1; blen l2; blen l3; blen l4] ++ rest ->
  off = blen pre ->
  blen l1 <= PRIV_MAX_ENTRIES -> blen l2 <= PRIV_MAX_ENTRIES ->
  blen l3 <= PRIV_MAX_ENTRIES -> blen l4 <= PRIV_MAX_ENTRIES ->
  read_count buf off = Ok (blen l1) /\ read_count buf (off + 4) = Ok (blen l2) /\
  read_count buf (off + 8) = Ok (blen l3) /\ read_count buf (off + 12) = Ok (blen l4) /\
  get_from buf (off + 16) = Some rest.
Proof.
  intros -> -> H1 H2 H3 H4. cbn [flat_map]. rewrite !app_nil_r.
  split_and!.
  - eapply (read_count_at _ pre); [by rewrite <- !app_assoc|done|lia].
  - eapply (read_count_at _ (pre ++ put_count (blen l1)));
      [by rewrite <- !app_assoc|rewrite !blen_app, !length_put_count; lia|lia].
  - eapply (read_count_at _ (pre ++ put_count (blen l1) ++ put_count (blen l2)));
      [by rewrite <- !app_assoc|rewrite !blen_app, !length_put_count; lia|lia].
  - eapply (read_count_at _ (pre ++ put_count (blen l1) ++ put_count (blen l2) ++
      put_count (blen l3)));
      [by rewrite <- !app_assoc|rewrite !blen_app, !length_put_count; lia|lia].
  - eapply (get_from_eq _ (pre ++ put_count (blen l1) ++ put_count (blen l2) ++
      put_count (blen l3) ++ put_count (blen l4)));
      [by rewrite <- !app_assoc|rewrite !blen_app, !length_put_count; lia].
Qed.

(** The payload up to the bind-port tail, and the tail. *)
Definition egress_head (p : EgressPayload) : bytes :=
  eg_meta p ++
  flat_map put_count [blen (eg_allow_v4 p); blen (eg_deny_v4 p);
                      blen (eg_allow_v6 p); blen (eg_deny_v6 p)] ++
  (flat_map put_entry (eg_allow_v4 p ++ eg_deny_v4 p) ++
   flat_map put_entry (eg_allow_v6 p ++ eg_deny_v6 p)) ++
  flat_map put_count [blen (eg_bind_allow_v4 p); blen (eg_bind_deny_v4 p);
                      blen (eg_bind_allow_v6 p); blen (eg_bind_deny_v6 p)] ++
  (flat_map put_entry (eg_bind_allow_v4 p ++ eg_bind_deny_v4 p) ++
   flat_map put_entry (eg_bind_allow_v6 p ++ eg_bind_deny_v6 p)).
Definition egress_tail (p : EgressPayload) : bytes :=
  put_count (blen (eg_bind_allowed_ports p)) ++
  flat_map (ne_bytes en 2) (eg_bind_allowed_ports p) ++
  put_count (blen (eg_pin_id p)) ++ eg_pin_id p.

Lemma egress_encode_split p : egress_encode p = egress_head p ++ egress_tail p.
Proof. unfold egress_encode, egress_head, egress_tail. by rewrite <- !app_assoc. Qed.

Definition with_tail (p : EgressPayload) (ports : list Z) (pin : bytes) : EgressPayload :=
  {| eg_meta := eg_meta p; eg_allow_v4 := eg_allow_v4 p; eg_deny_v4 := eg_deny_v4 p;
     eg_allow_v6 := eg_allow_v6 p; eg_deny_v6 := eg_deny_v6 p;
     eg_bind_allow_v4 := eg_bind_allow_v4 p; eg_bind_deny_v4 := eg_bind_deny_v4 p;
     eg_bind_allow_v6 := eg_bind_allow_v6 p; eg_bind_deny_v6 := eg_bind_deny_v6 p;
     eg_bind_allowed_ports := ports; eg_pin_id := pin |}.

Ltac entries_bound := match goal with H : entries_ok _ ?l |- blen ?l <= _ => apply H end.

Lemma egress_decode_head p tail :
  egress_ok p ->
  egress_decode (egress_head p ++ tail) =
    ('(ports, used) ← read_bind_ports tail;
     pin ← read_pin_id (default [] (get_from tail used));
     mret (with_tail p ports pin)).
Proof.
  intros Hp. unfold egress_ok in Hp. destruct_and! Hp. unfold egress_head.
  set (counts := flat_map put_count [blen (eg_allow_v4 p); _; _; _]).
  set (bcounts := flat_map put_count [blen (eg_bind_allow_v4 p); _; _; _]).
  set (block := flat_map put_entry (eg_allow_v4 p ++ _) ++ _).
  set (bblock := flat_map put_entry (eg_bind_allow_v4 p ++ _) ++ _).
  rewrite <- !app_assoc. unfold egress_decode, mbind, result_bind.
  rewrite (get_range_eq _ [] (eg_meta p) (counts ++ block ++ bcounts ++ bblock ++ tail))
    by (done || lia). cbn [ok_or].
  edestruct (read_header (eg_allow_v4 p) (eg_deny_v4 p) (eg_allow_v6 p) (eg_deny_v6 p)
    (eg_meta p ++ counts ++ block ++ bcounts ++ bblock ++ tail) (eg_meta p)
    (block ++ bcounts ++ bblock ++ tail) META_LEN) as (-> & -> & -> & -> & ->);
    [done|done|entries_bound..|]. cbn [ok_or].
  unfold block at 1. rewrite read_block_app by done. fold block.
  rewrite (get_from_eq _ block (bcounts ++ bblock ++ tail)) by done. cbn [ok_or].
  edestruct (read_header (eg_bind_allow_v4 p) (eg_bind_deny_v4 p) (eg_bind_allow_v6 p)
    (eg_bind_deny_v6 p) (bcounts ++ bblock ++ tail) [] (bblock ++ tail) 0)
    as (Hn1 & Hn2 & Hn3 & Hn4 & Hn5); [done|done|entries_bound..|].
  rewrite Z.add_0_l in Hn2, Hn3, Hn4, Hn5. rewrite Hn1, Hn2, Hn3, Hn4, Hn5. cbn [ok_or].
  unfold bblock at 1. rewrite read_block_app by done. fold bblock.
  rewrite (get_from_eq _ (block ++ bcounts ++ bblock) tail); [done|by rewrite <- !app_assoc|].
  rewrite !blen_app. unfold bcounts. cbn [flat_map].
  rewrite !blen_app, !length_put_count. cbn. lia.
Qed.

Lemma egress_decode_encode (p : EgressPayload) :
  egress_ok p -> egress_decode (egress_encode p) = Ok p.
Proof.
  intros Hp. rewrite egress_encode_split, egress_decode_head by done. unfold egress_ok in Hp.
  unfold egress_tail, mbind, result_bind. rewrite read_bind_ports_app by apply Hp.
  rewrite (get_from_eq _ (put_count (blen (eg_bind_allowed_ports p)) ++
    flat_map (ne_bytes en 2) (eg_bind_allowed_ports p))
    (put_count (blen (eg_pin_id p)) ++ eg_pin_id p)) by (by rewrite <- ?app_assoc).
  cbn [from_option id]. rewrite read_pin_id_app by apply Hp. by destruct p.
Qed.

(** The egress payload survives the wire: the BPF maps the factory writes are
    the ones the daemon computed, block by block, with the bind ports and the
    pin id. *)
Theorem egress_roundtrip (p : EgressPayload) :
  egress_ok p -> egress_decode (egress_encode p) = Ok p.
Proof. apply egress_decode_encode. Qed.

(** A payload that stops before the bind-port tail (fewer than four bytes of
    it left) is accepted, with an empty port allowlist and no pin id.  The
    receiving BPF program reads an empty allowlist as any port at or above the
    floor, so this is the permissive reading. *)
Theorem egress_absent_tail (p : EgressPayload) (cut : bytes) :
  egress_ok p -> blen cut < 4 -> egress_decode (egress_head p ++ cut) = Ok (with_tail p [] []).
Proof.
  intros Hp Hc. rewrite egress_decode_head by done. unfold read_bind_ports, mbind, result_bind.
  assert (forall bs, blen bs < 4 -> get_range bs 0 4 = None) as Hnone.
  { intros bs Hb. unfold get_range. by rewrite (proj2 (Z.leb_gt 4 (blen bs))). }
  rewrite Hnone by done. rewrite (get_from_eq cut [] cut) by done. cbn [from_option id].
  unfold read_pin_id. by rewrite Hnone.
Qed.
End priv_wire.

(** ** Witnesses *)

Global Instance iface_ok_dec s : Decision (iface_ok s).
Proof. unfold iface_ok; apply _. Defined.
Global Instance request_ok_dec r : Decision (request_ok r).
Proof. unfold request_ok; apply _. Defined.
Global Instance response_ok_dec r : Decision (response_ok r).
Proof. unfold response_ok; apply _. Defined.
Global Instance entries_ok_dec kl l : Decision (entries_ok kl l).
Proof. unfold entries_ok, entry_ok; apply _. Defined.
Global Instance egress_ok_dec p : Decision (egress_ok p).
Proof. unfold egress_ok, ports_ok, pin_ok; apply _. Defined.

Definition sample_priv_request : Request := {|
  rq_op := DelAddr; rq_ctx := 258; rq_addr := V4 [127; 0; 0; 2]; rq_prefix := 28;
  rq_interface := ascii_bytes "kennel-ai" |}.

Definition sample_egress : EgressPayload := {|
  eg_meta := replicate 64 1;
  eg_allow_v4 := [(replicate 8 2, replicate 8 3)]; eg_deny_v4 := [];
  eg_allow_v6 := [(replicate 20 4, replicate 8 5); (replicate 20 6, replicate 8 7)];
  eg_deny_v6 := []; eg_bind_allow_v4 := []; eg_bind_deny_v4 := [(replicate 8 8, replicate 8 9)];
  eg_bind_allow_v6 := []; eg_bind_deny_v6 := []; eg_bind_allowed_ports := [8080; 8443];
  eg_pin_id := ascii_bytes "ai-coding" |}.

Lemma priv_wire_roundtrip_witness :
  request_decode BigEndian (request_encode BigEndian sample_priv_request) = Ok sample_priv_request /\
  response_decode BigEndian (response_encode BigEndian (resp_internal (-13))) = Ok (resp_internal (-13)).
Proof.
  destruct (priv_wire_roundtrip BigEndian sample_priv_request (resp_internal (-13))) as [[_ H1] [_ H2]];
    [apply (bool_decide_unpack _); by vm_compute..|]. exact (conj H1 H2).
Defined.

Lemma egress_roundtrip_witness :
  egress_decode LittleEndian (egress_encode LittleEndian sample_egress) = Ok sample_egress.
Proof.
  apply (egress_roundtrip LittleEndian sample_egress). apply (bool_decide_unpack _). by vm_compute.
Defined.

Lemma egress_absent_tail_witness :
  egress_decode LittleEndian (egress_head LittleEndian sample_egress ++ [2; 0; 0]) =
  Ok (with_tail sample_egress [] []).
Proof.
  apply (egress_absent_tail LittleEndian sample_egress [2; 0; 0]).
  - apply (bool_decide_unpack _). by vm_compute.
  - by vm_compute.
Defined.
