(* ===== verification/PrivAddr.v ===== *)
(** The privileged helper's address authority: [kennel-privhelper/src/addr.rs],
    [validate.rs], [exec.rs], the one-shot path of [main.rs], and the
    [kennel-privhelper-net] sub-helper it delegates to.

    The helper derives the caller's reserved subnet from the kernel-trusted real
    uid; a request names a context and an address, and only an address of that
    user's own /64 for that context reaches a netlink call.  The sub-helper's
    exit status, the deployment configuration and the kernel's answers are
    parameters; the netlink requests issued are a trace.

    Theorems: [validate_addr] accepts exactly the addresses the forward builder
    makes, the refusals in the source's order, disjointness of the tun and the
    loopback /64s, isolation of any two users with uids below 65536, and that no
    bytes on stdin make the helper touch an address outside the caller's own
    subnet. *)

From S2P Require Import Prelude Bytes Str Plan PrivWire.

(** ** addr.rs *)

Definition V6_PREFIX : Z := 64.
Definition KENNEL_ULA : bytes := [107; 110].
Definition FNV_OFFSET : Z := 2166136261.
Definition FNV_PRIME : Z := 16777619.

(** One FNV-1a round at 32 bits. *)
Definition fnv_step (h b : Z) : Z := (Z.lxor h b * FNV_PRIME) mod 2 ^ 32.

Definition uid_subnet (uid : Z) : bytes :=
  drop 1 (be_bytes 4 (fold_left fnv_step (le_bytes 4 uid) FNV_OFFSET)).

Definition loopback_v6 (uid ctx host : Z) : bytes :=
  [253] ++ KENNEL_ULA ++ uid_subnet uid ++ be_bytes 2 ctx ++ be_bytes 8 host.

Definition TUN_CTX_FLIP : Z := 32768.
Definition TUN_HOST : Z := 1.
Definition TUN_RESOLVER_HOST : Z := 2.

Definition tun_addr (op_uid kennel_ctx : Z) : bytes :=
  loopback_v6 op_uid (Z.lxor kennel_ctx TUN_CTX_FLIP) TUN_HOST.
Definition tun_resolver_addr (op_uid kennel_ctx : Z) : bytes :=
  loopback_v6 op_uid (Z.lxor kennel_ctx TUN_CTX_FLIP) TUN_RESOLVER_HOST.

(** ** validate.rs *)

Definition IFNAME_MAX : Z := 15.
Definition IFACE_PREFIX : bytes := ascii_bytes "kennel-".

Record AddrRequest : Type := {
  ar_ctx : Z; ar_interface : bytes; ar_addr : ip_addr; ar_prefix : Z;
}.

Inductive Refusal : Type :=
  | BadPrefix (expected got : Z)
  | AddrOutOfScope
  | InterfaceNotAllowed
  | InterfaceNameTooLong.

Definition id_byte (b : Z) : bool :=
  ((97 <=? b) && (b <=? 122)) || ((48 <=? b) && (b <=? 57)) || (b =? 45).

Definition validate_interface (interface : bytes) : result Refusal unit :=
  if decide (interface = ascii_bytes "lo") then Ok tt else
  match strip_prefix IFACE_PREFIX interface with
  | None => Err InterfaceNotAllowed
  | Some id =>
      if IFNAME_MAX <? blen interface then Err InterfaceNameTooLong
      else if decide (id = []) then Err InterfaceNotAllowed
      else if forallb id_byte id then Ok tt else Err InterfaceNotAllowed
  end.

(** The scope is the caller's uid. *)
Definition validate_addr (req : AddrRequest) (scope_uid : Z) : result Refusal unit :=
  _ ← validate_interface (ar_interface req);
  match ar_addr req with
  | V4 _ => Err AddrOutOfScope
  | V6 o =>
      if negb (ar_prefix req =? V6_PREFIX) then Err (BadPrefix V6_PREFIX (ar_prefix req)) else
      match o with
      | b0 :: b1 :: b2 :: b3 :: b4 :: b5 :: b6 :: b7 :: _ =>
          if (b0 =? 253) && bool_decide ([b1; b2] = KENNEL_ULA) &&
             bool_decide ([b3; b4; b5] = uid_subnet scope_uid) &&
             (be_val [b6; b7] =? ar_ctx req)
          then Ok tt else Err AddrOutOfScope
      | _ => Err AddrOutOfScope (* an IPv6 address has 16 octets *)
      end
  end.

(** ** The network sub-helper, [bin/privhelper-net.rs] *)

Inductive NetOp : Type := NetAdd | NetDel.
(** The arguments [{add|del} <ctx> <addr> <prefix>] the caller passes. *)
Record NetArgs : Type := { na_op : NetOp; na_ctx : Z; na_addr : ip_addr; na_prefix : Z }.
(** A netlink request on the host's [lo]. *)
Record NetReq : Type := { nr_op : NetOp; nr_addr : ip_addr; nr_prefix : Z }.

(** [run], after [parse_args]: the exit code and the netlink requests issued.
    [if_index] and the kernel's answer are the environment's. *)
Definition net_run (real_uid : Z) (if_index_ok : bool) (kernel : NetReq -> bool)
    (a : NetArgs) : Z * list NetReq :=
  let req := {| ar_ctx := na_ctx a; ar_interface := ascii_bytes "lo";
                ar_addr := na_addr a; ar_prefix := na_prefix a |} in
  match validate_addr req real_uid with
  | Err _ => (1, [])
  | Ok _ =>
      if if_index_ok then
        let r := {| nr_op := na_op a; nr_addr := na_addr a; nr_prefix := na_prefix a |} in
        (if kernel r then 0 else 3, [r])
      else (3, [])
  end.

(** ** exec.rs *)

Definition refusal_code (r : Refusal) : Z :=
  match r with
  | BadPrefix _ _ => 1 | AddrOutOfScope => 2
  | InterfaceNotAllowed => 3 | InterfaceNameTooLong => 4
  end.
Definition REFUSAL_NO_SCOPE : Z := 100.

(** What [Command::status] returned: an exit code, or a spawn failure with its
    errno if it has one. *)
Inductive CmdStatus : Type := Exited (code : Z) | SpawnFailed (errno : option Z).

Section exec.
(** Whether the deployment configuration loads, and the sub-helper: its status
    and the netlink requests it issued. *)
Context (deployment_ok : bool) (net_helper : NetArgs -> CmdStatus * list NetReq).

Definition perform_addr (req : Request) (scope : Z) : Response * list NetReq :=
  let areq := {| ar_ctx := rq_ctx req; ar_interface := rq_interface req;
                 ar_addr := rq_addr req; ar_prefix := rq_prefix req |} in
  match validate_addr areq scope with
  | Err r => (resp_refused (refusal_code r), [])
  | Ok _ =>
      if deployment_ok then
        let '(status, reqs) := net_helper {| na_op := NetDel; na_ctx := rq_ctx req;
          na_addr := rq_addr req; na_prefix := rq_prefix req |} in
        (match status with
         | Exited code => if code =? 0 then resp_ok else resp_internal 0
         | SpawnFailed e => resp_internal (default 0 e)
         end, reqs)
      else (resp_internal 0, [])
  end.

Definition perform (req : Request) (scope : option Z) : Response * list NetReq :=
  match scope with
  | None => (resp_refused REFUSAL_NO_SCOPE, [])
  | Some scope => match rq_op req with DelAddr => perform_addr req scope end
  end.

(** ** main.rs, the one-shot path: the response bytes, the exit code and the
    netlink requests issued for what arrived on stdin. *)
Definition respond (en : endian) (r : Response) : bytes * Z :=
  (response_encode en r, status_to_byte (rs_status r)).

Definition one_shot (en : endian) (real_uid : Z) (stdin : option bytes) :
    bytes * Z * list NetReq :=
  match stdin with
  | None => (respond en resp_protocol, [])
  | Some buf =>
      let head := default buf (get_range buf 0 REQUEST_LEN) in
      match request_decode en head with
      | Err _ => (respond en resp_protocol, [])
      | Ok request =>
          let '(r, reqs) := perform request (Some real_uid) in (respond en r, reqs)
      end
  end.
End exec.

(** The sub-helper run as its own process by the same user. *)
Definition spawn_net_run (real_uid : Z) (if_index_ok : bool) (kernel : NetReq -> bool)
    (a : NetArgs) : CmdStatus * list NetReq :=
  let '(code, reqs) := net_run real_uid if_index_ok kernel a in (Exited code, reqs).

(** * Addresses *)

Lemma length_uid_subnet uid : length (uid_subnet uid) = 3%nat.
Proof. unfold uid_subnet. rewrite length_drop, length_be_bytes. done. Qed.

Lemma loopback_v6_ok uid ctx host : ip_ok (V6 (loopback_v6 uid ctx host)).
Proof.
  split; cbn [octets].
  - unfold loopback_v6, uid_subnet, bytes_ok. rewrite !Forall_app. split_and!.
    3: apply Forall_drop.
    3-5: apply (ne_bytes_ok BigEndian).
    all: apply (bool_decide_unpack _); by vm_compute.
  - unfold loopback_v6. rewrite !length_app, length_uid_subnet, !length_be_bytes. done.
Qed.

(** Accepted exactly when of the shape the forward builder produces. *)
Lemma scope_octets uid ctx o :
  bytes_ok o -> length o = 16%nat -> in_u16 ctx ->
  (exists host, in_u64 host /\ o = loopback_v6 uid ctx host) <->
  match o with
  | b0 :: b1 :: b2 :: b3 :: b4 :: b5 :: b6 :: b7 :: _ =>
      b0 = 253 /\ [b1; b2] = KENNEL_ULA /\ [b3; b4; b5] = uid_subnet uid /\ be_val [b6; b7] = ctx
  | _ => False
  end.
Proof.
  intros Ho Hl Hc. destruct o as [|o0 [|o1 [|o2 [|o3 [|o4 [|o5 [|o6 [|o7 o]]]]]]]]; try done.
  unfold loopback_v6. pose proof (length_uid_subnet uid) as Hs.
  destruct (uid_subnet uid) as [|s0 [|s1 [|s2 [|]]]]; try done.
  pose proof (length_be_bytes 2 ctx) as Hb.
  assert (be_val (be_bytes 2 ctx) = ctx) as Hv by (apply (ne_val_bytes BigEndian); in_range).
  destruct (be_bytes 2 ctx) as [|c0 [|c1 [|]]] eqn:Ec; try done. cbn [app KENNEL_ULA].
  split.
  - intros (host & _ & [= -> -> -> -> -> -> -> -> ->]). by split_and!.
  - intros (-> & [= -> ->] & [= -> -> ->] & Hctx). exists (be_val o).
    unfold bytes_ok in Ho. do 8 (apply Forall_cons_1 in Ho as [? Ho]). rename Ho into Hok.
    assert (length o = 8%nat) as Ho8 by (cbn in Hl; lia). split.
    + pose proof (ne_val_bound BigEndian o Hok) as Hbd. rewrite Ho8 in Hbd. cbn in Hbd. in_range.
    + assert (be_bytes 2 (be_val [o6; o7]) = [o6; o7]).
      { apply (ne_bytes_val BigEndian [o6; o7]). do 2 (apply Forall_cons_2; [done|]). apply Forall_nil_2. }
      pose proof (ne_bytes_val BigEndian o Hok) as Hr. rewrite Ho8 in Hr.
      cbn [ne_bytes ne_val] in Hr. rewrite Hr. congruence.
Qed.

(** ** FNV-1a on the low 24 bits *)

Lemma be_bytes_drop1 h : drop 1 (be_bytes 4 h) = rev (le_bytes 3 h).
Proof. done. Qed.

Lemma le_bytes3_inj h k : le_bytes 3 h = le_bytes 3 k -> h mod 2 ^ 24 = k mod 2 ^ 24.
Proof.
  unfold le_bytes. intros [= H0 H1 H2]. change (2 ^ 24) with 16777216.
  rewrite !Zdiv_Zdiv in H2 by lia. cbn in H2. Z.to_euclidean_division_equations. lia.
Qed.

Lemma lxor_byte_mod h b n :
  0 <= b < 2 ^ 8 -> 8 <= n -> Z.lxor h b mod 2 ^ n = Z.lxor (h mod 2 ^ n) b.
Proof.
  intros Hb Hn. apply Z.bits_inj'; intros i Hi.
  destruct (Z.lt_ge_cases i n) as [Hlt|Hge].
  - rewrite Z.mod_pow2_bits_low, !Z.lxor_spec, Z.mod_pow2_bits_low by lia. done.
  - rewrite Z.lxor_spec, !Z.mod_pow2_bits_high by lia.
    rewrite (Z.bits_above_log2 b i); [done|lia|].
    destruct (Z.eq_dec b 0) as [->|]; [cbn; lia|]. apply Z.log2_lt_pow2; [lia|].
    apply Z.lt_le_trans with (2 ^ 8); [lia|]. apply Z.pow_le_mono_r; lia.
Qed.

Definition fnv24 (s b : Z) : Z := (Z.lxor s b * FNV_PRIME) mod 2 ^ 24.

Lemma fnv_step_24 h b : 0 <= b < 2 ^ 8 -> fnv_step h b mod 2 ^ 24 = fnv24 (h mod 2 ^ 24) b.
Proof.
  intros Hb. unfold fnv_step, fnv24. rewrite <- lxor_byte_mod by lia.
  rewrite Zmult_mod_idemp_l. apply (Z.mod_mod_divide _ (2 ^ 32) (2 ^ 24)). by exists (2 ^ 8).
Qed.

Lemma fnv_fold_24 l h :
  bytes_ok l -> fold_left fnv_step l h mod 2 ^ 24 = fold_left fnv24 l (h mod 2 ^ 24).
Proof.
  intros Hl. revert h. induction Hl as [|b l Hb _ IH]; intros h; cbn [fold_left]; [done|].
  rewrite IH, fnv_step_24; [done|]. unfold byte_ok in Hb. lia.
Qed.

Lemma fnv24_bound s b : 0 <= fnv24 s b < 2 ^ 24.
Proof. apply Z.mod_pos_bound. lia. Qed.

Lemma lxor_byte_bound s b : 0 <= s < 2 ^ 24 -> byte_ok b -> 0 <= Z.lxor s b < 2 ^ 24.
Proof.
  intros Hs Hb. unfold byte_ok in Hb.
  pose proof (lxor_byte_mod s b 24) as H. rewrite (Z.mod_small s) in H by lia.
  rewrite <- H by lia. apply Z.mod_pos_bound. lia.
Qed.

(** [FNV_PRIME] is odd, so a round loses nothing of the 24 bits. *)
Lemma fnv24_inj s b s' b' :
  0 <= s < 2 ^ 24 -> 0 <= s' < 2 ^ 24 -> byte_ok b -> byte_ok b' ->
  fnv24 s b = fnv24 s' b' -> Z.lxor s b = Z.lxor s' b'.
Proof.
  intros Hs Hs' Hb Hb' H. unfold fnv24 in H.
  pose proof (lxor_byte_bound s b Hs Hb) as B1. pose proof (lxor_byte_bound s' b' Hs' Hb') as B2.
  revert B1 B2 H. generalize (Z.lxor s b) (Z.lxor s' b'). intros x y Hx Hy H.
  assert (forall z, z * FNV_PRIME * 10241179 mod 2 ^ 24 = z mod 2 ^ 24) as Hinv.
  { intros z. rewrite <- Z.mul_assoc, <- Zmult_mod_idemp_r. replace (FNV_PRIME * 10241179 mod 2 ^ 24) with 1 by reflexivity.
    by rewrite Z.mul_1_r. }
  rewrite <- (Z.mod_small x (2 ^ 24)), <- (Z.mod_small y (2 ^ 24)) by lia.
  rewrite <- (Hinv x), <- (Hinv y), <- (Zmult_mod_idemp_l (x * _)), <- (Zmult_mod_idemp_l (y * _)).
  by rewrite H.
Qed.

Lemma lxor_byte_high s b : byte_ok b -> Z.shiftr (Z.lxor s b) 8 = Z.shiftr s 8.
Proof.
  intros Hb. rewrite Z.shiftr_lxor.
  rewrite (Z.shiftr_div_pow2 b), (Z.div_small b) by (unfold byte_ok in Hb; lia). apply Z.lxor_0_r.
Qed.

(** After the first byte the upper 16 bits already tell all 256 values apart. *)
Definition first_rounds : list Z :=
  map (fun b => Z.shiftr (fnv24 (FNV_OFFSET mod 2 ^ 24) (Z.of_nat b)) 8) (seq 0 256).

Lemma first_rounds_nodup : NoDup first_rounds.
Proof. apply (bool_decide_unpack _). by vm_compute. Qed.

Lemma first_round_inj b b' :
  byte_ok b -> byte_ok b' ->
  Z.shiftr (fnv24 (FNV_OFFSET mod 2 ^ 24) b) 8 = Z.shiftr (fnv24 (FNV_OFFSET mod 2 ^ 24) b') 8 ->
  b = b'.
Proof.
  intros Hb Hb' H. unfold byte_ok in *.
  assert (forall c, 0 <= c <= 255 -> first_rounds !! Z.to_nat c =
    Some (Z.shiftr (fnv24 (FNV_OFFSET mod 2 ^ 24) c) 8)) as L.
  { intros c Hc. unfold first_rounds. rewrite list_lookup_fmap, lookup_seq_lt by lia. cbn -[Z.shiftr fnv24].
    by rewrite Z2Nat.id by lia. }
  assert (Z.to_nat b = Z.to_nat b'); [|lia].
  eapply (NoDup_lookup first_rounds); [apply first_rounds_nodup|by apply L|].
  rewrite H. by apply L.
Qed.

Lemma uid_subnet_inj u v :
  0 <= u < 65536 -> 0 <= v < 65536 -> uid_subnet u = uid_subnet v -> u = v.
Proof.
  intros Hu Hv H. unfold uid_subnet in H. rewrite !be_bytes_drop1 in H.
  apply rev_inj, le_bytes3_inj in H. rewrite !fnv_fold_24 in H by apply le_bytes_ok.
  assert (forall w, 0 <= w < 65536 -> le_bytes 4 w = [w mod 256; w / 256; 0; 0]) as L.
  { intros w Hw. unfold le_bytes. rewrite !Zdiv_Zdiv by lia.
    rewrite (Z.mod_small (w / 256)), (Z.div_small w (256 * 256)), (Z.div_small w (256 * 256 * 256));
      cbn; try lia; [done|]. Z.to_euclidean_division_equations; lia. }
  rewrite !L in H by done. cbn [fold_left] in H.
  assert (forall w, 0 <= w < 65536 -> byte_ok (w mod 256) /\ byte_ok (w / 256)) as B.
  { intros w Hw. unfold byte_ok. Z.to_euclidean_division_equations. lia. }
  destruct (B u Hu) as [Bu0 Bu1], (B v Hv) as [Bv0 Bv1].
  assert (byte_ok 0) as B0 by done.
  do 2 (apply fnv24_inj in H; [|apply fnv24_bound|apply fnv24_bound|done|done];
    rewrite !Z.lxor_0_r in H).
  apply fnv24_inj in H; [|apply fnv24_bound|apply fnv24_bound|done|done].
  assert (u mod 256 = v mod 256) as H0.
  { apply first_round_inj; [done..|]. apply (f_equal (fun x => Z.shiftr x 8)) in H.
    by rewrite !lxor_byte_high in H. }
  rewrite H0 in H. apply (f_equal (Z.lxor (fnv24 (FNV_OFFSET mod 2 ^ 24) (v mod 256)))) in H.
  rewrite <- !Z.lxor_assoc, Z.lxor_nilpotent, !Z.lxor_0_l in H.
  rewrite (Z.div_mod u 256), (Z.div_mod v 256) by lia. lia.
Qed.

(** * Properties *)

(** An interface the helper may act on. *)
Definition interface_allowed (s : bytes) : Prop :=
  s = ascii_bytes "lo" \/
  exists id, s = IFACE_PREFIX ++ id /\ id <> [] /\ blen s <= IFNAME_MAX /\ forallb id_byte id = true.

Lemma validate_interface_ok s : validate_interface s = Ok tt <-> interface_allowed s.
Proof.
  unfold validate_interface, interface_allowed. destruct (decide (s = _)); [naive_solver|].
  destruct (strip_prefix IFACE_PREFIX s) as [id|] eqn:E.
  - apply strip_prefix_Some in E as ->. split.
    + intros H. right. exists id. by repeat case_match; zbool.
    + intros [?|(id' & Hid & Hne & Hl & Hb)]; [done|]. apply app_inv_head in Hid as <-.
      rewrite (proj2 (Z.ltb_ge _ _)) by done. rewrite decide_False by done. by rewrite Hb.
  - split; [done|]. intros [?|(id & -> & _)]; [done|].
    by rewrite (proj2 (strip_prefix_Some _ _ id) eq_refl) in E.
Qed.

Lemma validate_addr_ok req uid :
  ip_ok (ar_addr req) -> in_u16 (ar_ctx req) ->
  validate_addr req uid = Ok tt <->
  interface_allowed (ar_interface req) /\ ar_prefix req = 64 /\
  exists host, in_u64 host /\ ar_addr req = V6 (loopback_v6 uid (ar_ctx req) host).
Proof.
  intros [Ho Hl] Hc. rewrite <- validate_interface_ok. unfold validate_addr, mbind, result_bind.
  destruct (validate_interface _) as [[]|]; [|naive_solver].
  destruct (ar_addr req) as [o|o]; [naive_solver|]. cbn in Ho, Hl. unfold V6_PREFIX.
  transitivity (ar_prefix req = 64 /\ match o with
    | b0 :: b1 :: b2 :: b3 :: b4 :: b5 :: b6 :: b7 :: _ =>
        b0 = 253 /\ [b1; b2] = KENNEL_ULA /\ [b3; b4; b5] = uid_subnet uid /\
        be_val [b6; b7] = ar_ctx req
    | _ => False end).
  - destruct (Z.eqb_spec (ar_prefix req) 64); cbn [negb]; [|split; [done|by intros [? _]]].
    destruct o as [|b0 [|b1 [|b2 [|b3 [|b4 [|b5 [|b6 [|b7 o]]]]]]]]; try by split; [|intros [_ []]].
    case_match eqn:E.
    + rewrite !andb_true_iff, !bool_decide_eq_true, !Z.eqb_eq in E. naive_solver.
    + split; [done|]. intros (_ & H1 & H2 & H3 & H4). apply not_true_iff_false in E as [].
      by rewrite !andb_true_iff, !bool_decide_eq_true, !Z.eqb_eq.
  - rewrite <- (scope_octets uid (ar_ctx req) o Ho Hl Hc). naive_solver.
Qed.

Lemma loopback_v6_inj u c h u' c' h' :
  in_u16 c -> in_u16 c' -> in_u64 h -> in_u64 h' ->
  loopback_v6 u c h = loopback_v6 u' c' h' -> uid_subnet u = uid_subnet u' /\ c = c' /\ h = h'.
Proof.
  intros Hc Hc' Hh Hh' H. unfold loopback_v6 in H. do 2 apply app_inv_head in H.
  apply app_inj_1 in H as [Hs H]; [|by rewrite !length_uid_subnet].
  apply app_inj_1 in H as [H1 H2]; [|by rewrite !length_be_bytes].
  split_and!; [done|..].
  - rewrite <- (ne_val_bytes BigEndian 2 c), <- (ne_val_bytes BigEndian 2 c') by in_range.
    cbn [ne_bytes]. by rewrite H1.
  - rewrite <- (ne_val_bytes BigEndian 8 h), <- (ne_val_bytes BigEndian 8 h') by in_range.
    cbn [ne_bytes]. by rewrite H2.
Qed.

Lemma flip_u16 c : in_u16 c -> in_u16 (Z.lxor c TUN_CTX_FLIP) /\ Z.lxor c TUN_CTX_FLIP <> c.
Proof.
  intros Hc. split.
  - assert (0 <= Z.lxor c TUN_CTX_FLIP < 2 ^ 16); [|in_range]. split.
    { apply Z.lxor_nonneg. unfold TUN_CTX_FLIP. in_range. }
    destruct (Z.eq_dec (Z.lxor c TUN_CTX_FLIP) 0) as [->|]; [lia|].
    apply Z.log2_lt_pow2; [pose proof (proj2 (Z.lxor_nonneg c TUN_CTX_FLIP)); unfold TUN_CTX_FLIP in *; in_range|].
    eapply Z.le_lt_trans; [apply Z.log2_lxor; unfold TUN_CTX_FLIP; in_range|].
    apply Z.max_lub_lt; [|done].
    destruct (Z.eq_dec c 0) as [->|]; [done|]. apply Z.log2_lt_pow2; in_range.
  - intros H. apply (f_equal (Z.lxor c)) in H.
    rewrite <- Z.lxor_assoc, Z.lxor_nilpotent, Z.lxor_0_l in H. done.
Qed.

(** The helper accepts an address request exactly when the interface is [lo]
    or a well-formed [kennel-<id>] name, the prefix is 64 and the address is one
    the forward builder makes for the caller's own uid and the requested
    context: nothing outside the caller's per-kennel /64 passes, and all of it
    does. *)
Theorem validate_addr_exact (req : AddrRequest) (uid : Z) :
  ip_ok (ar_addr req) -> in_u16 (ar_ctx req) ->
  validate_addr req uid = Ok tt <->
  interface_allowed (ar_interface req) /\ ar_prefix req = 64 /\
  exists host, in_u64 host /\ ar_addr req = V6 (loopback_v6 uid (ar_ctx req) host).
Proof. apply validate_addr_ok. Qed.

(** The tun's /64 never meets the loopback /64 of the same kennel: no
    loopback address of the kennel equals its tun address or its resolver's, and
    the two tun addresses differ from each other. *)
Theorem tun_loopback_disjoint (uid ctx host : Z) :
  in_u16 ctx -> in_u64 host ->
  loopback_v6 uid ctx host <> tun_addr uid ctx /\
  loopback_v6 uid ctx host <> tun_resolver_addr uid ctx /\
  tun_addr uid ctx <> tun_resolver_addr uid ctx.
Proof.
  intros Hc Hh. destruct (flip_u16 ctx Hc) as [Hf Hne].
  unfold tun_addr, tun_resolver_addr, TUN_HOST, TUN_RESOLVER_HOST.
  split_and!; intros H; apply loopback_v6_inj in H as (_ & ? & ?); try done; in_range.
Qed.

(** Users do not share addresses: for any two distinct uids below 65536, an
    address the helper would act on for one is refused for the other, whatever
    the contexts asked for. *)
Theorem user_isolation (u v : Z) (req : AddrRequest) (ctx' : Z) :
  0 <= u < 65536 -> 0 <= v < 65536 -> u <> v ->
  ip_ok (ar_addr req) -> in_u16 (ar_ctx req) -> in_u16 ctx' ->
  validate_addr req u = Ok tt ->
  validate_addr {| ar_ctx := ctx'; ar_interface := ar_interface req; ar_addr := ar_addr req;
                   ar_prefix := ar_prefix req |} v <> Ok tt.
Proof.
  intros Hu Hv Hne Hip Hc Hc' Hok Hok'.
  apply validate_addr_ok in Hok as (_ & _ & h & Hh & Ha); [|done..].
  apply validate_addr_ok in Hok' as (_ & _ & h' & Hh' & Ha'); [|done..].
  cbn [ar_addr ar_ctx] in Ha'. rewrite Ha in Ha'. apply (f_equal octets) in Ha'.
  cbn [octets] in Ha'. apply loopback_v6_inj in Ha' as (Hs & _); [|done..].
  by apply Hne, uid_subnet_inj.
Qed.

(** What the sub-helper issues is in the caller's own subnet. *)
Definition in_own_subnet (uid : Z) (r : NetReq) : Prop :=
  nr_prefix r = 64 /\
  exists ctx host, in_u16 ctx /\ in_u64 host /\ nr_addr r = V6 (loopback_v6 uid ctx host).

Lemma net_run_confined uid ifi kernel a :
  ip_ok (na_addr a) -> in_u16 (na_ctx a) ->
  Forall (in_own_subnet uid) (net_run uid ifi kernel a).2.
Proof.
  intros Hip Hc. unfold net_run. set (req := {| ar_ctx := _ |}).
  destruct (validate_addr req uid) as [[]|] eqn:E; [|constructor].
  apply validate_addr_ok in E as (_ & Hp & host & Hh & Ha); [|done..].
  destruct ifi; [|constructor]. apply Forall_singleton. split; [done|]. by exists (na_ctx a), host.
Qed.

Lemma get_range_fixed buf a b bs :
  bytes_ok buf -> get_range buf a b = Some bs -> bytes_ok bs /\ blen bs = b - a.
Proof.
  intros Hb H. split; [by eapply get_range_ok|]. by apply get_range_Some in H as (_ & _ & ? & _).
Qed.

(** Whatever bytes a request is decoded from, its address has the octets of its
    family and its context is 16 bits wide. *)
Lemma request_decode_fields en buf r :
  bytes_ok buf -> request_decode en buf = Ok r -> ip_ok (rq_addr r) /\ in_u16 (rq_ctx r).
Proof.
  intros Hb H. unfold request_decode, mbind, result_bind in H. case_match; [done|].
  destruct (option_bind _ _ _ _) as [op|]; cbn [ok_or] in H; [|done].
  destruct (buf !! 1%nat) as [family|]; cbn [ok_or] in H; [|done].
  destruct (buf !! 2%nat) as [prefix|]; cbn [ok_or] in H; [|done].
  destruct (get_range buf 4 6) as [cb|] eqn:Ec; cbn [ok_or fmap option_fmap option_map] in H; [|done].
  destruct (get_range buf 6 22) as [a16|] eqn:Ea; cbn [ok_or] in H; [|done].
  apply get_range_fixed in Ec as [Hcb Hcl], Ea as [Ha Hal]; [|done..].
  assert (in_u16 (ne_val en cb)) as Hctx.
  { pose proof (ne_val_bound en cb Hcb) as B. rewrite Hcl in B. cbn in B. in_range. }
  match type of H with match ?a with _ => _ end = _ =>
    assert (forall x, a = Ok x -> ip_ok x) as Hx; [|destruct a as [addr|]; [|done]] end.
  { intros x Hx. repeat case_match; try done.
    - destruct (get_range a16 0 4) as [q|] eqn:Eq; simplify_eq/=.
      apply get_range_fixed in Eq as [??]; [|done]. split; [done|cbn; lia].
    - injection Hx as <-. split; [done|cbn; lia]. }
  specialize (Hx addr eq_refl).
  destruct (get_range buf 22 38); cbn [ok_or] in H; [|done].
  destruct (read_string _); [|done]. by injection H as <-.
Qed.

Lemma perform_confined uid dep ifi kernel req :
  ip_ok (rq_addr req) -> in_u16 (rq_ctx req) ->
  Forall (in_own_subnet uid) (perform dep (spawn_net_run uid ifi kernel) req (Some uid)).2.
Proof.
  intros Hip Hc. unfold perform, perform_addr. destruct (rq_op req).
  case_match; [|constructor]. destruct dep; [|constructor]. unfold spawn_net_run.
  pose proof (net_run_confined uid ifi kernel {| na_op := NetDel; na_ctx := rq_ctx req;
    na_addr := rq_addr req; na_prefix := rq_prefix req |} Hip Hc) as Hf.
  by destruct (net_run _ _ _ _) as [code reqs].
Qed.

(** Nothing a caller writes on the helper's stdin makes it touch an address
    outside the caller's own subnet: whatever the bytes, whatever the
    deployment, the interface lookup and the kernel answer, every netlink
    request issued on the caller's behalf is for an address of the caller's
    per-kennel /64s, with prefix 64. *)
Theorem one_shot_confined (en : endian) (uid : Z) (deployment_ok if_index_ok : bool)
    (kernel : NetReq -> bool) (stdin : bytes) :
  bytes_ok stdin ->
  Forall (in_own_subnet uid)
    (one_shot deployment_ok (spawn_net_run uid if_index_ok kernel) en uid (Some stdin)).2.
Proof.
  intros Hb. unfold one_shot.
  set (head := default stdin _). assert (bytes_ok head) as Hh.
  { unfold head. destruct (get_range stdin 0 REQUEST_LEN) eqn:E; [|done].
    by eapply get_range_ok. }
  destruct (request_decode en head) as [req|] eqn:E; [|constructor].
  apply request_decode_fields in E as [Hip Hc]; [|done].
  pose proof (perform_confined uid deployment_ok if_index_ok kernel req Hip Hc) as Hf.
  by destruct (perform _ _ _ _).
Qed.

Lemma validate_addr_lo req uid :
  validate_addr req uid = Ok tt ->
  validate_addr {| ar_ctx := ar_ctx req; ar_interface := ascii_bytes "lo";
                   ar_addr := ar_addr req; ar_prefix := ar_prefix req |} uid = Ok tt.
Proof.
  unfold validate_addr, mbind, result_bind. destruct (validate_interface (ar_interface req)); [|done].
  cbn [ar_interface ar_addr ar_prefix ar_ctx].
  by rewrite (proj2 (validate_interface_ok _) (or_introl eq_refl)).
Qed.

Lemma one_shot_head r junk :
  blen r = REQUEST_LEN -> default (r ++ junk) (get_range (r ++ junk) 0 REQUEST_LEN) = r.
Proof. intros H. by rewrite (get_range_eq _ [] r junk) by (done || lia). Qed.

(** A well-formed teardown request is carried out or refused, and the caller
    is told which: the helper answers ok with exit code 0 and issues exactly the
    one delete asked for when the address is in the caller's subnet, and answers
    with the refusal's code and exit code 1, issuing nothing, when it is not. *)
Theorem one_shot_outcome (en : endian) (uid : Z) (r : Request) (junk : bytes) :
  request_ok r ->
  one_shot true (spawn_net_run uid true (fun _ => true)) en uid (Some (request_encode en r ++ junk))
  = match validate_addr {| ar_ctx := rq_ctx r; ar_interface := rq_interface r;
                           ar_addr := rq_addr r; ar_prefix := rq_prefix r |} uid with
    | Ok _ => (response_encode en resp_ok, 0,
               [{| nr_op := NetDel; nr_addr := rq_addr r; nr_prefix := rq_prefix r |}])
    | Err e => (response_encode en (resp_refused (refusal_code e)), 1, [])
    end.
Proof.
  intros Hr. destruct (request_decode_encode en r Hr) as [Hl Hd].
  unfold one_shot. rewrite one_shot_head, Hd by done.
  unfold perform, perform_addr. destruct (rq_op r).
  destruct (validate_addr _ uid) as [[]|] eqn:E; [|done].
  apply validate_addr_lo in E. unfold spawn_net_run, net_run. cbn [na_ctx na_addr na_prefix na_op].
  cbn [ar_ctx ar_addr ar_prefix] in E. by rewrite E.
Qed.

(** ** Witnesses *)

Definition sample_request : Request := {|
  rq_op := DelAddr; rq_ctx := 7; rq_addr := V6 (loopback_v6 1000 7 1); rq_prefix := 64;
  rq_interface := ascii_bytes "kennel-ai" |}.

Definition sample_areq : AddrRequest := {|
  ar_ctx := 7; ar_interface := ascii_bytes "lo"; ar_addr := V6 (loopback_v6 1000 7 1);
  ar_prefix := 64 |}.

Lemma validate_addr_exact_witness :
  interface_allowed (ar_interface sample_areq) /\ ar_prefix sample_areq = 64 /\
  exists host, in_u64 host /\ ar_addr sample_areq = V6 (loopback_v6 1000 7 host).
Proof.
  apply (validate_addr_exact sample_areq 1000).
  - apply loopback_v6_ok.
  - apply (bool_decide_unpack _). by vm_compute.
  - by vm_compute.
Defined.

Lemma tun_loopback_disjoint_witness : loopback_v6 1000 7 1 <> tun_addr 1000 7.
Proof. apply (tun_loopback_disjoint 1000 7 1); apply (bool_decide_unpack _); by vm_compute. Defined.

Lemma user_isolation_witness :
  validate_addr {| ar_ctx := 9; ar_interface := ascii_bytes "lo";
                   ar_addr := V6 (loopback_v6 1000 7 1); ar_prefix := 64 |} 1001 <> Ok tt.
Proof.
  apply (user_isolation 1000 1001 sample_areq 9); try lia.
  - apply loopback_v6_ok.
  - apply (bool_decide_unpack _). by vm_compute.
  - apply (bool_decide_unpack _). by vm_compute.
  - by vm_compute.
Defined.

Lemma one_shot_confined_witness :
  Forall (in_own_subnet 1000) (one_shot true (spawn_net_run 1000 true (fun _ => true)) LittleEndian
    1000 (Some (request_encode LittleEndian sample_request))).2.
Proof.
  apply (one_shot_confined LittleEndian 1000 true true (fun _ => true)).
  apply (bool_decide_unpack _). by vm_compute.
Defined.

Lemma one_shot_outcome_witness :
  one_shot true (spawn_net_run 1001 true (fun _ => true)) LittleEndian 1001
    (Some (request_encode LittleEndian sample_request ++ [])) =
  (response_encode LittleEndian (resp_refused 2), 1, []).
Proof.
  rewrite (one_shot_outcome LittleEndian 1001 sample_request []).
  - by vm_compute.
  - apply (bool_decide_unpack _). by vm_compute.
Defined.
