(* ===== verification/Factory.v ===== *)
(** The hand-off from [kenneld] to the privileged factory and on to
    [kennel-bin-init]: [kenneld/src/lib.rs] ([construction_half_from]),
    [kennel-privhelper/src/client.rs] ([construct_kennel], the datagram),
    [kennel-privhelper/src/construct.rs] (receiving it, the descriptors, the
    identity maps) and the descriptor primitives of
    [kennel-lib-syscall/src/fd.rs].

    A descriptor table maps numbers to open files with their close-on-exec flag.
    [F_DUPFD_CLOEXEC], [dup2], [F_SETFD] and [close] act on it as the manual
    pages say; [limit] is the process's descriptor limit.

    Theorems: the factory recovers the half, the egress tail and each descriptor
    the daemon sent; what it does with a datagram over its receive buffer; every
    descriptor lands at its fixed number whatever numbers the sources had, and
    nothing else leaks into [kennel-bin-init]; the identity maps contain host
    root, the operator and the granted groups, and nothing else. *)

From S2P Require Import Prelude Bytes Str Cursor Plan PlanWire.
From stdpp Require Import gmap.
Open Scope Z_scope.

(** ** The datagram *)

Definition RECV_CAP : Z := 262144.

(** [construction_half_from]. *)
Definition construction_half_from (plan : Plan) (ctx : Z) (loopback : list LoopbackAddr)
    (lo_up tun : bool) : ConstructionHalf := {|
  ch_namespaces := pl_namespaces plan; ch_cgroup := pl_cgroup plan;
  ch_cgroup_join := pl_cgroup_join plan; ch_view := pl_view plan;
  ch_new_root := pl_new_root plan; ch_file_binds := pl_file_binds plan;
  ch_granted_gids := default [] (pl_supplementary_groups plan);
  ch_lo := lo_up; ch_ctx := ctx; ch_loopback := loopback; ch_tun := tun;
  ch_hostname := pl_hostname plan;
  ch_pty_fd_present := is_some (pl_interactive_return_fd plan);
  ch_workload_fd_present := is_some (pl_workload_fd plan);
  ch_stdio_present := is_some (pl_stdio_fds plan) |}.

(** What [construct_kennel] sends: [[u32 ch_len][construction-half][egress]] and
    the descriptors in their fixed order. *)
Definition construct_data (construction_half : bytes) (egress : option bytes) : bytes :=
  le_bytes 4 (sat_u32 (blen construction_half)) ++ construction_half ++ default [] egress.

Definition construct_fds {A} (pty_fd workload_fd : option A) (stdio_fds : option (A * A * A)) :
    list A :=
  option_list pty_fd ++ option_list workload_fd ++
  match stdio_fds with Some (i, o, e) => [i; o; e] | None => [] end.

Inductive ConstructError : Type :=
  | MissingLength | ShortDatagram | HalfDecode (e : PlanWireError) | MissingFd.

Definition pop_flagged_fd {A} (fds : list A) (present : bool) :
    result ConstructError (option A * list A) :=
  if present then match fds with [] => Err MissingFd | f :: fds => Ok (Some f, fds) end
  else Ok (None, fds).

Definition pop_stdio_fds {A} (fds : list A) (present : bool) :
    result ConstructError (option (A * A * A) * list A) :=
  if present then
    match fds with
    | i :: o :: e :: fds => Ok (Some (i, o, e), fds)
    | _ => Err MissingFd
    end
  else Ok (None, fds).

Record Received (A : Type) : Type := {
  rc_half : ConstructionHalf; rc_egress : bytes; rc_pty : option A; rc_workload : option A;
  rc_stdio : option (A * A * A); rc_left : list A;
}.
Arguments rc_half {A}. Arguments rc_egress {A}. Arguments rc_pty {A}.
Arguments rc_workload {A}. Arguments rc_stdio {A}. Arguments rc_left {A}.

(** The start of [construct]: [recvmsg] fills a buffer of [RECV_CAP] bytes, the
    rest of a longer datagram is discarded by the kernel. *)
Definition factory_receive {A} (data : bytes) (fds : list A) :
    result ConstructError (Received A) :=
  let msg := take (Z.to_nat RECV_CAP) data in
  ch_len ← ok_or MissingLength (le_val <$> get_range msg 0 4);
  let ch_end := sat_add usize_max 4 ch_len in
  ch_bytes ← ok_or ShortDatagram (get_range msg 4 ch_end);
  let egress_bytes := default [] (get_from msg ch_end) in
  half ← match decode_construction ch_bytes with Ok h => Ok h | Err e => Err (HalfDecode e) end;
  '(pty, fds) ← pop_flagged_fd fds (ch_pty_fd_present half);
  '(workload, fds) ← pop_flagged_fd fds (ch_workload_fd_present half);
  '(stdio, fds) ← pop_stdio_fds fds (ch_stdio_present half);
  mret {| rc_half := half; rc_egress := egress_bytes; rc_pty := pty; rc_workload := workload;
          rc_stdio := stdio; rc_left := fds |}.

(** ** Descriptor tables *)

(** Number |-> open file and its close-on-exec flag. *)
Abbreviation fd_table F := (gmap Z (F * bool)).

Section fds.
(** Open files; two descriptors can share one. *)
Context {F : Type}.

Definition fdm (A : Type) : Type := fd_table F -> option (A * fd_table F).
Definition fd_ret {A} (a : A) : fdm A := fun t => Some (a, t).
Definition fd_bind {A B} (m : fdm A) (f : A -> fdm B) : fdm B := fun t =>
  match m t with Some (a, t') => f a t' | None => None end.

Fixpoint first_free (fuel : nat) (t : fd_table F) (base : Z) : Z :=
  match fuel with
  | O => base
  | S fuel => match t !! base with Some _ => first_free fuel t (base + 1) | None => base end
  end.

(** [dup_above] ([fcntl(F_DUPFD_CLOEXEC)]): the lowest free number at or above
    [base], close-on-exec. *)
Definition dup_above (limit : Z) (src base : Z) : fdm Z := fun t =>
  match t !! src with
  | None => None
  | Some (f, _) =>
      let n := first_free (size t) t base in
      if n <? limit then Some (n, <[n := (f, true)]> t) else None
  end.

(** [dup_onto]: [dup2], or clearing close-on-exec when the number is already
    right. *)
Definition dup_onto (limit : Z) (src dst : Z) : fdm unit := fun t =>
  match t !! src with
  | None => None
  | Some (f, _) => if dst <? limit then Some (tt, <[dst := (f, false)]> t) else None
  end.

(** Dropping an [OwnedFd]. *)
Definition close_fd (n : Z) : fdm unit := fun t => Some (tt, delete n t).

Definition fd_opt {A B} (o : option A) (f : A -> fdm B) : fdm (option B) :=
  match o with
  | None => fd_ret None
  | Some a => fd_bind (f a) (fun b => fd_ret (Some b))
  end.

Definition PTY_RETURN_FD : Z := 3.
Definition BOOT_SYNC_FD : Z := 4.
Definition WORKLOAD_FD : Z := 5.
Definition INJECT_STDIN_FD : Z := 6.
Definition INJECT_STDOUT_FD : Z := 7.
Definition INJECT_STDERR_FD : Z := 8.
Definition TUN_FD : Z := 9.

Definition handoff_base : Z :=
  fold_left Z.max [BOOT_SYNC_FD; WORKLOAD_FD; INJECT_STDIN_FD; INJECT_STDOUT_FD;
                   INJECT_STDERR_FD; TUN_FD] PTY_RETURN_FD + 1.

Definition lift3 (limit : Z) (s : Z * Z * Z) : fdm (Z * Z * Z) :=
  let '(i, o, e) := s in
  fd_bind (dup_above limit i handoff_base) (fun i =>
  fd_bind (dup_above limit o handoff_base) (fun o =>
  fd_bind (dup_above limit e handoff_base) (fun e => fd_ret (i, o, e)))).

Definition place3 (limit : Z) (s : Z * Z * Z) : fdm unit :=
  let '(i, o, e) := s in
  fd_bind (dup_onto limit i INJECT_STDIN_FD) (fun _ =>
  fd_bind (dup_onto limit o INJECT_STDOUT_FD) (fun _ => dup_onto limit e INJECT_STDERR_FD)).

Definition close3 (s : Z * Z * Z) : fdm unit :=
  let '(i, o, e) := s in
  fd_bind (close_fd i) (fun _ => fd_bind (close_fd o) (fun _ => close_fd e)).

(** [place_handoff_fds]: lift every source above the target range, place them,
    and drop the lifted copies; the init binary's copy is returned. *)
Definition place_handoff_fds (limit : Z) (init_file init_sync : Z)
    (pty_fd workload_fd : option Z) (stdio_fds : option (Z * Z * Z)) (tun_fd : option Z) : fdm Z :=
  let up fd := dup_above limit fd handoff_base in
  fd_bind (up init_file) (fun init_file =>
  fd_bind (up init_sync) (fun init_sync =>
  fd_bind (fd_opt pty_fd up) (fun pty_hi =>
  fd_bind (fd_opt workload_fd up) (fun workload_hi =>
  fd_bind (fd_opt stdio_fds (lift3 limit)) (fun stdio_hi =>
  fd_bind (fd_opt tun_fd up) (fun tun_hi =>
  fd_bind (dup_onto limit init_sync BOOT_SYNC_FD) (fun _ =>
  fd_bind (fd_opt pty_hi (fun p => dup_onto limit p PTY_RETURN_FD)) (fun _ =>
  fd_bind (fd_opt workload_hi (fun w => dup_onto limit w WORKLOAD_FD)) (fun _ =>
  fd_bind (fd_opt stdio_hi (place3 limit)) (fun _ =>
  fd_bind (fd_opt tun_hi (fun t => dup_onto limit t TUN_FD)) (fun _ =>
  fd_bind (fd_opt tun_hi close_fd) (fun _ =>
  fd_bind (fd_opt stdio_hi close3) (fun _ =>
  fd_bind (fd_opt workload_hi close_fd) (fun _ =>
  fd_bind (fd_opt pty_hi close_fd) (fun _ =>
  fd_bind (close_fd init_sync) (fun _ =>
  fd_ret init_file)))))))))))))))).

(** [execve] closes the close-on-exec descriptors. *)
Definition exec_table (t : fd_table F) : fd_table F := filter (fun kv => kv.2.2 = false) t.
End fds.

(** ** Identity maps *)

(** One line of a map: an id mapped to itself, extent 1. *)
Definition map_line (id : Z) : bytes := dec id ++ [32] ++ dec id ++ [32; 49; 10].

Definition build_identity_maps (uid gid : Z) (granted : list Z) : bytes * bytes :=
  let uid_map := ascii_bytes "0 0 1" ++ [10] in
  let uid_map := if negb (uid =? 0) then uid_map ++ map_line uid else uid_map in
  let gid_map := ascii_bytes "0 0 1" ++ [10] in
  let gid_map := if negb (gid =? 0) then gid_map ++ map_line gid else gid_map in
  let gid_map := fold_left (fun m g =>
    if negb (g =? 0) && negb (g =? gid) then m ++ map_line g else m) granted gid_map in
  (uid_map, gid_map).

(** The ids with a line in each map. *)
Definition uid_map_ids (uid : Z) : list Z := 0 :: (if uid =? 0 then [] else [uid]).
Definition gid_map_ids (gid : Z) (granted : list Z) : list Z :=
  0 :: (if gid =? 0 then [] else [gid]) ++ filter (fun g => g <> 0 /\ g <> gid) granted.

Example identity_maps_ex :
  build_identity_maps 1000 1000 [1000; 0; 27] =
  (flat_map map_line [0; 1000], flat_map map_line [0; 1000; 27]) /\
  map_line 1000 = ascii_bytes "1000 1000 1" ++ [10].
Proof. by vm_compute. Qed.

(** * Descriptors *)

Section fd_lemmas.
Context {F : Type}.
Implicit Types (t : fd_table F) (f : F).

Lemma first_free_ge fuel t b : b <= first_free fuel t b.
Proof.
  revert b. induction fuel as [|fuel IH]; intros b; cbn; [lia|].
  case_match; [|lia]. specialize (IH (b + 1)). lia.
Qed.

Lemma first_free_full fuel t b x :
  t !! first_free fuel t b = Some x ->
  forall i, 0 <= i <= Z.of_nat fuel -> is_Some (t !! (b + i)).
Proof.
  revert b. induction fuel as [|fuel IH]; intros b H i Hi; cbn in H.
  - replace (b + i) with b by lia. by eexists.
  - destruct (t !! b) as [y|] eqn:E; [|congruence].
    destruct (decide (i = 0)) as [->|]; [rewrite Z.add_0_r; by eexists|].
    replace (b + i) with ((b + 1) + (i - 1)) by lia. apply IH; [done|lia].
Qed.

(** The scan always finds a free number: there are only [size t] taken ones. *)
Lemma first_free_None t b : t !! first_free (size t) t b = None.
Proof.
  destruct (t !! first_free (size t) t b) as [x|] eqn:E; [exfalso|done].
  pose proof (first_free_full _ _ _ _ E) as Hfull.
  assert (list_to_set (seqZ b (Z.of_nat (S (size t)))) ⊆@{gset Z} dom t) as Hsub.
  { apply elem_of_subseteq; intros k Hk. apply elem_of_list_to_set, elem_of_seqZ in Hk. apply elem_of_dom.
    replace k with (b + (k - b)) by lia. apply Hfull. lia. }
  apply subseteq_size in Hsub. rewrite size_list_to_set in Hsub by apply NoDup_seqZ.
  rewrite length_seqZ, size_dom in Hsub. lia.
Qed.

Lemma first_free_le fuel t b : first_free fuel t b <= b + Z.of_nat fuel.
Proof.
  revert b. induction fuel as [|fuel IH]; intros b; cbn; [lia|].
  case_match; [|lia]. specialize (IH (b + 1)). lia.
Qed.

(** Room for [k] more descriptors above the target range. *)
Definition room (limit : Z) (k : nat) t : Prop :=
  handoff_base + Z.of_nat (size t) + Z.of_nat k <= limit.

Lemma dup_above_run limit k t src f c :
  room limit (S k) t -> t !! src = Some (f, c) ->
  exists n, dup_above limit src handoff_base t = Some (n, <[n := (f, true)]> t) /\
    handoff_base <= n /\ t !! n = None /\ room limit k (<[n := (f, true)]> t).
Proof.
  intros Hr Hs. unfold dup_above. rewrite Hs.
  pose proof (first_free_None t handoff_base) as Hf.
  pose proof (first_free_ge (size t) t handoff_base). 
  pose proof (first_free_le (size t) t handoff_base).
  unfold room in *. rewrite (proj2 (Z.ltb_lt _ _)) by lia. eexists. split_and!; [done..|].
  rewrite map_size_insert_None by done. lia.
Qed.

Fixpoint lift_all (limit : Z) (l : list Z) : fdm (F := F) (list Z) :=
  match l with
  | [] => fd_ret []
  | s :: l => fd_bind (dup_above limit s handoff_base) (fun n =>
              fd_bind (lift_all limit l) (fun ns => fd_ret (n :: ns)))
  end.
Fixpoint place_all (limit : Z) (l : list (Z * Z)) : fdm (F := F) unit :=
  match l with
  | [] => fd_ret tt
  | (s, d) :: l => fd_bind (dup_onto limit s d) (fun _ => place_all limit l)
  end.
Fixpoint close_all (l : list Z) : fdm (F := F) unit :=
  match l with [] => fd_ret tt | s :: l => fd_bind (close_fd s) (fun _ => close_all l) end.

Lemma lift_all_run limit l t (fs : list F) :
  room limit (length l) t -> Forall2 (fun s f => exists c, t !! s = Some (f, c)) l fs ->
  exists ns t', lift_all limit l t = Some (ns, t') /\ NoDup ns /\
    Forall (fun n => handoff_base <= n /\ t !! n = None) ns /\
    Forall2 (fun n f => t' !! n = Some (f, true)) ns fs /\
    (forall n, n ∉ ns -> t' !! n = t !! n).
Proof.
  intros Hr Hl. revert t Hr Hl. revert fs. induction l as [|s l IH]; intros fs t Hr Hl.
  - apply Forall2_nil_inv_l in Hl as ->. exists [], t. by split_and!; try constructor.
  - apply Forall2_cons_inv_l in Hl as (f & fs' & [c Hs] & Hl & ->).
    destruct (dup_above_run _ _ _ _ _ _ Hr Hs) as (n & Hd & Hge & Hn & Hr').
    destruct (IH fs' (<[n := (f, true)]> t)) as (ns & t' & Hl' & Hnd & Hns & Hfs & Hrest); [done|..].
    { eapply Forall2_impl; [done|]. intros s' f' [c' H']. exists c'.
      rewrite lookup_insert_ne; [done|]. congruence. }
    assert (n ∉ ns) as Hnin.
    { intros Hin. rewrite Forall_forall in Hns. destruct (Hns n Hin) as [_ H].
      by rewrite lookup_insert_eq in H. }
    exists (n :: ns), t'. cbn [lift_all]. unfold fd_bind. rewrite Hd, Hl'.
    split_and!; [done|by constructor|..].
    + constructor; [done|]. eapply Forall_impl; [done|]. cbv beta. intros m [Hm Hm'].
      split; [done|]. rewrite lookup_insert_ne in Hm'; [done|]. intros <-.
      by rewrite lookup_insert_eq in Hm'.
    + constructor; [|done]. by rewrite Hrest, lookup_insert_eq.
    + intros m [Hm1 Hm2]%not_elem_of_cons. by rewrite Hrest, lookup_insert_ne.
Qed.

Lemma place_all_run limit l t (fs : list F) :
  handoff_base <= limit ->
  Forall (fun sd => handoff_base <= sd.1 /\ sd.2 < handoff_base) l -> NoDup l.*2 ->
  Forall2 (fun sd f => t !! sd.1 = Some (f, true)) l fs ->
  exists t', place_all limit l t = Some (tt, t') /\
    Forall2 (fun sd f => t' !! sd.2 = Some (f, false)) l fs /\
    (forall n, n ∉ l.*2 -> t' !! n = t !! n).
Proof.
  intros Hlim. revert t fs. induction l as [|[s d] l IH]; intros t fs Hb Hnd Hl.
  - apply Forall2_nil_inv_l in Hl as ->. by exists t.
  - apply Forall2_cons_inv_l in Hl as (f & fs' & Hs & Hl & ->). cbn in Hs, Hnd.
    apply Forall_cons in Hb as [[Hs1 Hd1] Hb]. apply NoDup_cons in Hnd as [Hdn Hnd]. cbn in Hs1, Hd1.
    destruct (IH (<[d := (f, false)]> t) fs') as (t' & Hp & Hfs & Hrest); [done..| |].
    { rewrite Forall2_lookup in Hl |- *. intros i. specialize (Hl i).
      inversion Hl as [[s' d'] f' Hsf Eq1 Eq2|]; constructor. cbn in *.
      symmetry in Eq1. apply Forall_lookup_1 with (i := i) (x := (s', d')) in Hb; [|done].
      rewrite lookup_insert_ne; [done|]. cbn in Hb. lia. }
    exists t'. cbn [place_all]. unfold fd_bind, dup_onto at 1. rewrite Hs, (proj2 (Z.ltb_lt _ _)) by lia. split_and!; [done|..].
    + constructor; [|done]. cbn. by rewrite Hrest, lookup_insert_eq.
    + intros n Hn. cbn in Hn. apply not_elem_of_cons in Hn as [Hn1 Hn2].
      by rewrite Hrest, lookup_insert_ne.
Qed.

Lemma close_all_run l t :
  exists t', close_all l t = Some (tt, t') /\
    (forall n, t' !! n = if decide (n ∈ l) then None else t !! n).
Proof.
  revert t. induction l as [|s l IH]; intros t; [by exists t|].
  destruct (IH (delete s t)) as (t' & Hc & Ht'). exists t'. split; [done|]. intros n. rewrite Ht'.
  destruct (decide (n ∈ l)); [by rewrite decide_True by (by right)|].
  destruct (decide (n = s)) as [->|].
  - rewrite decide_True by left. apply lookup_delete_eq.
  - rewrite decide_False by (by rewrite not_elem_of_cons). by rewrite lookup_delete_ne.
Qed.

(** The sources that travel besides the init binary, each with its number. *)
Definition opt_pair (d : Z) (o : option Z) : list (Z * Z) :=
  match o with Some s => [(s, d)] | None => [] end.
Definition handoff_pairs (init_sync : Z) (pty workload : option Z) (stdio : option (Z * Z * Z))
    (tun : option Z) : list (Z * Z) :=
  (init_sync, BOOT_SYNC_FD) :: opt_pair PTY_RETURN_FD pty ++ opt_pair WORKLOAD_FD workload ++
  match stdio with
  | Some (i, o, e) => [(i, INJECT_STDIN_FD); (o, INJECT_STDOUT_FD); (e, INJECT_STDERR_FD)]
  | None => []
  end ++ opt_pair TUN_FD tun.

(** Lifting, placing and closing as passes over that list. *)
Definition handoff_passes (limit init_file : Z) (l : list (Z * Z)) : fdm (F := F) Z :=
  fd_bind (dup_above limit init_file handoff_base) (fun n =>
  fd_bind (lift_all limit l.*1) (fun his =>
  fd_bind (place_all limit (zip his l.*2)) (fun _ =>
  fd_bind (close_all his) (fun _ => fd_ret n)))).

Lemma place_handoff_passes limit init sync pty workload stdio tun t :
  place_handoff_fds limit init sync pty workload stdio tun t =
  handoff_passes limit init (handoff_pairs sync pty workload stdio tun) t.
Proof.
  unfold place_handoff_fds, handoff_passes, handoff_pairs.
  destruct pty, workload, stdio as [[[i o] e]|], tun;
    cbn [opt_pair app fmap list_fmap fst snd lift_all fd_opt lift3 place3 close3].
  all: unfold fd_bind, fd_ret, close_fd.
  all: repeat (match goal with |- context [match ?d ?l ?s ?b ?t with _ => _ end] =>
    destruct (d l s b t) as [[? ?]|]; [|done] end;
    cbn [zip zip_with place_all close_all fd_opt lift3 place3 close3];
    unfold fd_bind, fd_ret, close_fd).
  all: do 2 f_equal; apply map_eq; intros k; rewrite !lookup_delete; repeat case_decide; done.
Qed.

Lemma handoff_targets sync pty workload stdio tun :
  let l := handoff_pairs sync pty workload stdio tun in
  NoDup l.*2 /\ Forall (fun sd => sd.2 < handoff_base) l.
Proof.
  unfold handoff_pairs. destruct pty, workload, stdio as [[[i o] e]|], tun; cbn; split;
    try (apply (bool_decide_unpack _); by vm_compute); repeat constructor; cbn; lia.
Qed.

Lemma Forall2_zip_lookup {A B C} (R : A * B -> C -> Prop) (la : list A) (lb : list B) (lc : list C) :
  length la = length lb ->
  (forall i a b c, la !! i = Some a -> lb !! i = Some b -> lc !! i = Some c -> R (a, b) c) ->
  length la = length lc -> Forall2 R (zip la lb) lc.
Proof.
  intros Hl HR Hlc. apply Forall2_same_length_lookup. split.
  - rewrite length_zip_with. lia.
  - intros i [a b] c Hz Hc. apply lookup_zip_with_Some in Hz as (a' & b' & [= <- <-] & Ha & Hb).
    by eapply HR.
Qed.

Lemma passes_run limit init t fi ci (l : list (Z * Z)) (fs : list F) :
  t !! init = Some (fi, ci) ->
  Forall2 (fun sd f => exists c, t !! sd.1 = Some (f, c)) l fs ->
  room limit (S (length l)) t -> NoDup l.*2 -> Forall (fun sd => sd.2 < handoff_base) l ->
  exists n t', handoff_passes limit init l t = Some (n, t') /\
    handoff_base <= n /\ t !! n = None /\ t' !! n = Some (fi, true) /\
    Forall2 (fun sd f => t' !! sd.2 = Some (f, false)) l fs /\
    (forall k, k <> n -> k ∉ l.*2 -> t' !! k = t !! k).
Proof.
  intros Hi Hl Hr Hnd Hd. pose proof (Forall2_length _ _ _ Hl) as Hlen.
  destruct (dup_above_run _ _ _ _ _ _ Hr Hi) as (n & Hdup & Hge & Hn & Hr').
  destruct (lift_all_run limit l.*1 (<[n := (fi, true)]> t) fs)
    as (his & t1 & Hlift & Hndh & Hhis & Hfs & Hrest).
  { by rewrite length_fmap. }
  { apply Forall2_fmap_l. eapply Forall2_impl; [done|]. intros [s d] f [c Hs]. exists c. cbn in *.
    rewrite lookup_insert_ne; [done|]. congruence. }
  assert (length his = length l) as Hlh by (by apply Forall2_length in Hfs; congruence).
  rewrite Forall_forall in Hd. rewrite Forall_forall in Hhis.
  destruct (place_all_run limit (zip his l.*2) t1 fs) as (t2 & Hplace & Hfs2 & Hrest2).
  - unfold room in Hr. lia.
  - apply Forall_forall. intros [h d] Hin.
    pose proof (elem_of_zip_l _ _ _ _ Hin) as H1. pose proof (elem_of_zip_r _ _ _ _ Hin) as H2.
    apply list_elem_of_fmap in H2 as (sd & -> & H2). cbn. split; [by apply Hhis|by apply Hd].
  - rewrite snd_zip by (rewrite length_fmap; lia). done.
  - apply Forall2_zip_lookup; [by rewrite length_fmap| |congruence].
    intros i a b c Ha Hb Hc. cbn. exact (Forall2_lookup_lr _ _ _ _ _ _ Hfs Ha Hc).
  - rewrite snd_zip in Hrest2 by (rewrite length_fmap; lia).
    destruct (close_all_run his t2) as (t3 & Hclose & Ht3).
    assert (forall d, d ∈ l.*2 -> d ∉ his) as Hdis.
    { intros d Hd1 Hd2. apply list_elem_of_fmap in Hd1 as (sd & -> & Hd1).
      pose proof (Hd _ Hd1). pose proof (Hhis _ Hd2). lia. }
    assert (n ∉ his) as Hnh.
    { intros Hin. destruct (Hhis _ Hin) as [_ H]. by rewrite lookup_insert_eq in H. }
    assert (n ∉ l.*2) as Hnt.
    { intros Hin. apply list_elem_of_fmap in Hin as (sd & -> & Hin). pose proof (Hd _ Hin). lia. }
    exists n, t3. unfold handoff_passes, fd_bind, fd_ret. rewrite Hdup, Hlift, Hplace, Hclose.
    split_and!; [done..| | |].
    + by rewrite Ht3, decide_False, Hrest2, Hrest, lookup_insert_eq.
    + apply Forall2_same_length_lookup. split; [done|]. intros i [s d] f Hsd Hf. cbn.
      rewrite Ht3, decide_False.
      * destruct (lookup_lt_is_Some_2 his i) as [h Hh];
          [apply lookup_lt_Some in Hsd; lia|].
        refine (Forall2_lookup_lr _ _ _ i (h, d) f Hfs2 _ Hf).
        apply lookup_zip_with_Some. exists h, d. split_and!; [done..|].
        by rewrite list_lookup_fmap, Hsd.
      * apply Hdis. apply list_elem_of_fmap. exists (s, d). split; [done|].
        by eapply list_elem_of_lookup_2.
    + intros k Hk Hkt. rewrite Ht3. destruct (decide (k ∈ his)) as [Hin|Hnin].
      * destruct (Hhis _ Hin) as [_ H]. by rewrite lookup_insert_ne in H.
      * by rewrite Hrest2, Hrest, lookup_insert_ne.
Qed.

Lemma exec_table_lookup t k :
  exec_table t !! k = match t !! k with Some (f, false) => Some (f, false) | _ => None end.
Proof.
  unfold exec_table. rewrite map_lookup_filter. destruct (t !! k) as [[f []]|] eqn:E; cbn.
  - by rewrite option_guard_False.
  - by rewrite option_guard_True.
  - done.
Qed.
End fd_lemmas.

(** * The datagram *)

Lemma construction_half_ok plan ctx lb lo tun :
  plan_ok plan -> in_u16 ctx -> vec_ok loopback_ok lb ->
  construction_ok (construction_half_from plan ctx lb lo tun).
Proof.
  intros Hp Hc Hl. unfold plan_ok in Hp. destruct_and! Hp. unfold construction_ok; cbn.
  split_and!; try done.
  match goal with H : opt_ok (vec_ok in_u32) ?o |- _ => destruct o; cbn in H |- *; [done|] end.
  by split.
Qed.

Lemma pop_flagged {A} (o : option A) fds :
  pop_flagged_fd (option_list o ++ fds) (is_some o) = Ok (o, fds).
Proof. by destruct o. Qed.

Lemma pop_stdio {A} (o : option (A * A * A)) fds :
  pop_stdio_fds (match o with Some (i, o, e) => [i; o; e] | None => [] end ++ fds) (is_some o) =
  Ok (o, fds).
Proof. by destruct o as [[[? ?] ?]|]. Qed.

(** The frame as the factory sees it: the half whole, the tail cut to what the
    buffer holds. *)
Lemma receive_frame {A} half egress (fds : list A) :
  construction_ok half -> 4 + blen (encode_construction half) <= RECV_CAP ->
  factory_receive (construct_data (encode_construction half) egress) fds =
  ('(pty, fds) ← pop_flagged_fd fds (ch_pty_fd_present half);
   '(workload, fds) ← pop_flagged_fd fds (ch_workload_fd_present half);
   '(stdio, fds) ← pop_stdio_fds fds (ch_stdio_present half);
   mret {| rc_half := half;
           rc_egress := take (Z.to_nat (RECV_CAP - (4 + blen (encode_construction half))))
                          (default [] egress);
           rc_pty := pty; rc_workload := workload; rc_stdio := stdio; rc_left := fds |}).
Proof.
  intros Hok Hl. unfold factory_receive, construct_data.
  set (h := encode_construction half) in *. set (eg := default [] egress).
  assert (blen h <= u32_max) as Hu by (unfold RECV_CAP in *; in_range).
  rewrite sat_u32_small by done.
  assert (take (Z.to_nat RECV_CAP) (le_bytes 4 (blen h) ++ h ++ eg) =
    le_bytes 4 (blen h) ++ h ++ take (Z.to_nat (RECV_CAP - (4 + blen h))) eg) as ->.
  { rewrite take_app_ge by (rewrite length_le_bytes; unfold RECV_CAP; lia).
    rewrite length_le_bytes, take_app_ge by lia. do 3 f_equal. lia. }
  set (eg' := take _ eg).
  rewrite (get_range_eq _ [] (le_bytes 4 (blen h)) (h ++ eg')) by (done || by rewrite length_le_bytes).
  cbn [fmap option_fmap option_map ok_or]. unfold mbind at 1, result_bind at 1.
  rewrite le_val_bytes by in_range. cbv zeta.
  assert (sat_add usize_max 4 (blen h) = 4 + blen h) as ->
    by (unfold sat_add; in_range).
  rewrite (get_range_eq _ (le_bytes 4 (blen h)) h eg') by (done || by rewrite length_le_bytes).
  cbn [ok_or]. unfold mbind at 1, result_bind at 1.
  rewrite (get_from_eq _ (le_bytes 4 (blen h) ++ h) eg')
    by (rewrite ?blen_app, ?length_le_bytes, <- ?app_assoc; done).
  unfold mbind at 1, result_bind at 1. unfold decode_construction, h.
  rewrite (run_exact_decodes TooLarge get_construction (encode_construction half) half);
    [done|by apply get_construction_decodes|].
  fold h. unfold RECV_CAP in *. in_range.
Qed.

(** * Properties *)

(** C24: The hand-off from the daemon to the factory.  For any plan within the
    wire's bounds, the factory decodes exactly the construction half the daemon
    built from the plan, attributes the pty, the workload binary and the three
    stdio descriptors to their roles in whatever combination they are present,
    and has none left over; the egress tail arrives whole if the datagram fits
    the receive buffer, and otherwise cut at the end of the buffer, without an
    error. *)
Theorem factory_handoff {A} (plan : Plan) (ctx : Z) (lb : list LoopbackAddr) (lo tun : bool)
    (egress : bytes) (pty workload : option A) (stdio : option (A * A * A)) :
  let half := construction_half_from plan ctx lb lo tun in
  let room := RECV_CAP - (4 + blen (encode_construction half)) in
  plan_ok plan -> in_u16 ctx -> vec_ok loopback_ok lb -> 0 <= room ->
  is_some pty = is_some (pl_interactive_return_fd plan) ->
  is_some workload = is_some (pl_workload_fd plan) ->
  is_some stdio = is_some (pl_stdio_fds plan) ->
  factory_receive (construct_data (encode_construction half) (Some egress))
    (construct_fds pty workload stdio) =
  Ok {| rc_half := half;
        rc_egress := if blen egress <=? room then egress else take (Z.to_nat room) egress;
        rc_pty := pty; rc_workload := workload; rc_stdio := stdio; rc_left := [] |}.
Proof.
  intros half room Hp Hc Hl Hroom H1 H2 H3.
  rewrite receive_frame; [|by apply construction_half_ok|subst room; lia].
  unfold construct_fds. subst half. cbn [ch_pty_fd_present ch_workload_fd_present ch_stdio_present
    construction_half_from]. rewrite <- H1, <- H2, <- H3.
  unfold mbind, result_bind. rewrite pop_flagged, pop_flagged.
  rewrite <- (app_nil_r (match stdio with Some _ => _ | None => _ end)), pop_stdio.
  cbn [from_option id]. fold room. unfold mret, result_ret. do 2 f_equal.
  case_match; [|done]. zbool. apply take_ge. lia.
Qed.

(** C23: Every descriptor reaches [kennel-bin-init] at its fixed number, whatever
    numbers the factory's own descriptors had (even if a source sat on another's
    target): with room in the table, placement succeeds; after the exec, each
    role's number holds that role's open file, every other number is as it would
    have been without the placement, and the lifted copies are gone.  The
    returned descriptor is the init binary's, close-on-exec. *)
Theorem handoff_fds_exact {F} (limit : Z) (t : fd_table F) (init sync : Z)
    (pty workload : option Z) (stdio : option (Z * Z * Z)) (tun : option Z)
    (fi : F) (ci : bool) (fs : list F) :
  let l := handoff_pairs sync pty workload stdio tun in
  t !! init = Some (fi, ci) ->
  Forall2 (fun sd f => exists c, t !! sd.1 = Some (f, c)) l fs ->
  room limit (S (length l)) t ->
  exists n t', place_handoff_fds limit init sync pty workload stdio tun t = Some (n, t') /\
    t' !! n = Some (fi, true) /\
    Forall2 (fun sd f => exec_table t' !! sd.2 = Some (f, false)) l fs /\
    (forall k, k ∉ l.*2 -> exec_table t' !! k = exec_table t !! k).
Proof.
  intros l Hi Hl Hr. destruct (handoff_targets sync pty workload stdio tun) as [Hnd Hd].
  destruct (passes_run limit init t fi ci l fs) as (n & t' & Hrun & Hge & Hn & Hn' & Hfs & Hrest);
    [done..|]. exists n, t'. rewrite place_handoff_passes. split_and!; [done..| |].
  - eapply Forall2_impl; [done|]. intros sd f H. by rewrite exec_table_lookup, H.
  - intros k Hk. rewrite !exec_table_lookup. destruct (decide (k = n)) as [->|Hne].
    + by rewrite Hn', Hn.
    + by rewrite Hrest.
Qed.

Lemma identity_lines uid gid granted :
  build_identity_maps uid gid granted =
  (flat_map map_line (uid_map_ids uid), flat_map map_line (gid_map_ids gid granted)).
Proof.
  assert (forall l m, fold_left (fun m g => if negb (g =? 0) && negb (g =? gid)
      then m ++ map_line g else m) l m =
    m ++ flat_map map_line (filter (fun g => g <> 0 /\ g <> gid) l)) as Hfold.
  { induction l as [|g l IH]; intros m; cbn [fold_left].
    - cbn. by rewrite app_nil_r.
    - rewrite IH, filter_cons. case_match eqn:E; zbool.
      + rewrite decide_True by done. cbn. by rewrite <- app_assoc.
      + rewrite decide_False by (by intros []). done.
      + rewrite decide_False by (by intros []). done. }
  unfold build_identity_maps, uid_map_ids, gid_map_ids. rewrite Hfold.
  destruct (uid =? 0), (gid =? 0); cbn [negb flat_map app]; by rewrite ?app_nil_r, <- ?app_assoc.
Qed.

(** The identity maps name host root, the operator and exactly the granted
    groups: an id has a line in the uid map iff it is 0 or the operator's uid,
    and in the gid map iff it is 0, the operator's gid or one of the granted
    gids; no id has two lines unless a granted gid is repeated. *)
Theorem identity_maps_exact (uid gid : Z) (granted : list Z) :
  build_identity_maps uid gid granted =
    (flat_map map_line (uid_map_ids uid), flat_map map_line (gid_map_ids gid granted)) /\
  (forall i, i ∈ uid_map_ids uid <-> i = 0 \/ i = uid) /\
  (forall i, i ∈ gid_map_ids gid granted <-> i = 0 \/ i = gid \/ i ∈ granted) /\
  NoDup (uid_map_ids uid) /\ (NoDup granted -> NoDup (gid_map_ids gid granted)).
Proof.
  split_and!; [apply identity_lines|..]; unfold uid_map_ids, gid_map_ids.
  - intros i. destruct (Z.eqb_spec uid 0); set_solver.
  - intros i. rewrite elem_of_cons, elem_of_app, list_elem_of_filter.
    destruct (Z.eqb_spec gid 0) as [E|E]; destruct (decide (i = 0)), (decide (i = gid)); set_solver.
  - destruct (Z.eqb_spec uid 0); repeat constructor; set_solver.
  - intros Hg. constructor.
    + rewrite elem_of_app, list_elem_of_filter. destruct (Z.eqb_spec gid 0) as [E|E]; set_solver.
    + apply NoDup_app. split_and!.
      * destruct (Z.eqb_spec gid 0) as [E|E]; repeat constructor; set_solver.
      * intros i Hi. rewrite list_elem_of_filter. destruct (Z.eqb_spec gid 0) as [E|E]; set_solver.
      * by apply NoDup_filter.
Qed.

(** ** Witnesses *)

Lemma factory_handoff_witness :
  factory_receive (construct_data (encode_construction (construction_half_from sample_plan 7 []
    true false)) (Some [1; 2; 3])) (construct_fds (Some 40) (Some 41) None) =
  Ok {| rc_half := construction_half_from sample_plan 7 [] true false; rc_egress := [1; 2; 3];
        rc_pty := Some 40; rc_workload := Some 41; rc_stdio := None; rc_left := [] |}.
Proof.
  apply (factory_handoff (A := Z) sample_plan 7 [] true false [1; 2; 3] (Some 40) (Some 41) None);
    try apply (bool_decide_unpack _); by vm_compute.
Defined.

(** The awkward case: the pty socket sits at the boot-sync number, the boot-sync
    socket at the workload's and the init binary at the pty's. *)
Definition clashing_table : fd_table Z :=
  list_to_map [(0, (100, true)); (1, (101, false)); (2, (102, false)); (3, (110, true));
               (4, (111, true)); (5, (112, true)); (10, (113, true))].

Lemma handoff_fds_exact_witness :
  exists n t', place_handoff_fds 1024 3 5 (Some 4) None None None clashing_table = Some (n, t') /\
    t' !! n = Some (110, true) /\
    Forall2 (fun sd f => exec_table t' !! sd.2 = Some (f, false)) [(5, 4); (4, 3)] [112; 111] /\
    (forall k, k ∉ [4; 3] -> exec_table t' !! k = exec_table clashing_table !! k).
Proof.
  apply (handoff_fds_exact 1024 clashing_table 3 5 (Some 4) None None None 110 true [112; 111]).
  - by vm_compute.
  - repeat constructor; exists true; by vm_compute.
  - unfold room. by vm_compute.
Defined.

Lemma identity_maps_exact_witness :
  build_identity_maps 1000 1000 [27; 44] =
    (flat_map map_line [0; 1000], flat_map map_line [0; 1000; 27; 44]) /\
  NoDup (gid_map_ids 1000 [27; 44]).
Proof.
  destruct (identity_maps_exact 1000 1000 [27; 44]) as (H & _ & _ & _ & Hn).
  split; [exact H|]. apply Hn. repeat constructor; set_solver.
Defined.
