(* ===== verification/Egress.v ===== *)
(** The egress decision: [kenneld/src/inet/allow.rs], [kenneld/src/inet.rs] and
    the address classification of [kennel-lib-policy/src/netaddr.rs].

    [kenneld] decides every outbound connection of a proxied kennel here and
    pins the vetted addresses.  Names and patterns are byte strings; an address
    is its octets.  The DNS resolver and [IpAddr]'s [FromStr] are parameters: no
    theorem depends on what they answer.

    Theorems: network membership is agreement of the leading bits; the name
    convention; the special-use predicate is the documented list of networks;
    what [decide] pins, on every branch and for every resolver; that a kennel
    without a network reaches nothing; and the gap for IPv4-mapped addresses. *)

From S2P Require Import Prelude Bytes Plan Settled.

Inductive Transport : Type := Tcp | Udp.
Inductive RuleProtocol : Type := PAny | PTcp | PUdp.

Global Instance Transport_eq_dec : EqDecision Transport.
Proof. solve_decision. Defined.

Definition admits (p : RuleProtocol) (t : Transport) : bool :=
  match p with PAny => true | PTcp => bool_decide (t = Tcp) | PUdp => bool_decide (t = Udp) end.

Inductive Destination : Type := DName (name : bytes) | DAddr (addr : ip_addr).

Record Cidr : Type := { cd_base : ip_addr; cd_prefix_len : Z }.

Definition family_bits (a : ip_addr) : Z := match a with V4 _ => 32 | V6 _ => 128 end.

(** [Cidr::new]; the error carries the maximum and the value. *)
Definition cidr_new (base : ip_addr) (prefix_len : Z) : result (Z * Z) Cidr :=
  if family_bits base <? prefix_len then Err (family_bits base, prefix_len)
  else Ok {| cd_base := base; cd_prefix_len := prefix_len |}.

Definition top_bits_mask (n : Z) : Z :=
  if n =? 1 then 128 else if n =? 2 then 192 else if n =? 3 then 224 else if n =? 4 then 240
  else if n =? 5 then 248 else if n =? 6 then 252 else if n =? 7 then 254 else 0.

Fixpoint octets_match (base addr : bytes) (bits_remaining : Z) : bool :=
  match base, addr with
  | b :: base, a :: addr =>
      if bits_remaining =? 0 then true
      else if 8 <=? bits_remaining then
        if b =? a then octets_match base addr (sat_sub bits_remaining 8) else false
      else
        let mask := top_bits_mask bits_remaining in Z.land b mask =? Z.land a mask
  | _, _ => true
  end.

Definition contains (c : Cidr) (addr : ip_addr) : bool :=
  match cd_base c, addr with
  | V4 base, V4 other => octets_match base other (cd_prefix_len c)
  | V6 base, V6 other => octets_match base other (cd_prefix_len c)
  | _, _ => false
  end.

Inductive Matcher : Type := MName (pattern : bytes) | MCidr (c : Cidr).
Record Rule : Type := { ru_matcher : Matcher; ru_ports : list Z; ru_protocol : RuleProtocol }.
Inductive DenyMatcher : Type := DmCidr (c : Cidr) | DmName (pattern : bytes).
Record DenyRule : Type := { dr_matcher : DenyMatcher; dr_ports : list Z }.
Inductive NetMode : Type := NmNone | NmConstrained | NmUnconstrained.
Record Ruleset : Type := { rs_mode : NetMode; rs_allow : list Rule; rs_deny : list DenyRule }.

Inductive DenyReason : Type := ModeNone | DeniedByRule | NotAllowed.
Inductive Decision' : Type := DecAllow | DecDeny (r : DenyReason).
Inductive RequestDecision : Type := RdAllow | RdResolve | RdDeny (r : DenyReason).

(** ** Names *)

Definition lower (b : Z) : Z := if (65 <=? b) && (b <=? 90) then b + 32 else b.
Definition eq_ignore_ascii_case (a b : bytes) : bool :=
  bool_decide (map lower a = map lower b).

(** [str::is_char_boundary]. *)
Definition char_boundary (s : bytes) (i : Z) : bool :=
  (i =? 0) || (i =? blen s) ||
  match s !! Z.to_nat i with Some b => negb ((128 <=? b) && (b <=? 191)) | None => false end.

(** [name.get(i..)] on a [str]. *)
Definition str_get_from (s : bytes) (i : Z) : option bytes :=
  if char_boundary s i then get_from s i else None.

Definition ends_with_label (name suffix : bytes) : bool :=
  (blen suffix <? blen name) &&
  match str_get_from name (sat_sub (blen name) (blen suffix)) with
  | Some tail => eq_ignore_ascii_case tail suffix
  | None => false
  end.

Definition name_matches (pattern name : bytes) : bool :=
  match pattern with
  | c :: apex =>
      if c =? 46 then eq_ignore_ascii_case name apex || ends_with_label name pattern
      else eq_ignore_ascii_case pattern name
  | [] => eq_ignore_ascii_case pattern name
  end.

Definition port_matches (ports : list Z) (port : Z) : bool :=
  match ports with [] => true | _ => bool_decide (port ∈ ports) end.

(** ** The ruleset *)

Definition denied_addr (rs : Ruleset) (addr : ip_addr) (port : Z) : bool :=
  existsb (fun rule =>
    match dr_matcher rule with DmCidr c => contains c addr | DmName _ => false end &&
    port_matches (dr_ports rule) port) (rs_deny rs).

Definition name_denied (rs : Ruleset) (name : bytes) (port : Z) : bool :=
  existsb (fun rule =>
    match dr_matcher rule with DmName p => name_matches p name | DmCidr _ => false end &&
    port_matches (dr_ports rule) port) (rs_deny rs).

Definition allow_addr_match (rs : Ruleset) (addr : ip_addr) (port : Z) (t : Transport) : bool :=
  existsb (fun rule =>
    match ru_matcher rule with MCidr c => contains c addr | MName _ => false end &&
    admits (ru_protocol rule) t && port_matches (ru_ports rule) port) (rs_allow rs).

Definition allow_name_match (rs : Ruleset) (name : bytes) (port : Z) (t : Transport) : bool :=
  existsb (fun rule =>
    match ru_matcher rule with MName p => name_matches p name | MCidr _ => false end &&
    admits (ru_protocol rule) t && port_matches (ru_ports rule) port) (rs_allow rs).

Definition decide_request (rs : Ruleset) (dest : Destination) (port : Z) (t : Transport) :
    RequestDecision :=
  match rs_mode rs with
  | NmNone => RdDeny ModeNone
  | mode =>
      match dest with
      | DAddr addr =>
          if denied_addr rs addr port then RdDeny DeniedByRule
          else match mode with
               | NmUnconstrained => RdAllow
               | _ => if allow_addr_match rs addr port t then RdAllow else RdDeny NotAllowed
               end
      | DName name =>
          if name_denied rs name port then RdDeny DeniedByRule
          else match mode with
               | NmUnconstrained => RdResolve
               | _ => if allow_name_match rs name port t then RdResolve else RdDeny NotAllowed
               end
      end
  end.

Definition decide_resolved (rs : Ruleset) (addr : ip_addr) (port : Z) (t : Transport) : Decision' :=
  if denied_addr rs addr port then DecDeny DeniedByRule else DecAllow.

(** ** Special-use addresses (netaddr.rs and the [std] predicates it uses) *)

Definition in_range_b (lo hi b : Z) : bool := (lo <=? b) && (b <=? hi).

Definition v4_is_private (o : bytes) : bool :=
  match o with
  | a :: b :: _ => (a =? 10) || ((a =? 172) && in_range_b 16 31 b) || ((a =? 192) && (b =? 168))
  | _ => false
  end.
Definition v4_is_loopback (o : bytes) : bool := match o with a :: _ => a =? 127 | _ => false end.
Definition v4_is_link_local (o : bytes) : bool :=
  match o with a :: b :: _ => (a =? 169) && (b =? 254) | _ => false end.
Definition v4_is_broadcast (o : bytes) : bool := bool_decide (o = [255; 255; 255; 255]).
Definition v4_is_documentation (o : bytes) : bool :=
  match o with
  | a :: b :: c :: _ =>
      ((a =? 192) && (b =? 0) && (c =? 2)) || ((a =? 198) && (b =? 51) && (c =? 100)) ||
      ((a =? 203) && (b =? 0) && (c =? 113))
  | _ => false
  end.
Definition v4_is_unspecified (o : bytes) : bool := bool_decide (o = [0; 0; 0; 0]).
Definition v4_is_multicast (o : bytes) : bool :=
  match o with a :: _ => in_range_b 224 239 a | [] => false end.
Definition is_cgnat (o : bytes) : bool :=
  match o with a :: b :: _ => (a =? 100) && in_range_b 64 127 b | _ => false end.

Definition v6_is_loopback (o : bytes) : bool := bool_decide (o = replicate 15 0 ++ [1]).
Definition v6_is_unspecified (o : bytes) : bool := bool_decide (o = replicate 16 0).
Definition v6_is_multicast (o : bytes) : bool := match o with a :: _ => a =? 255 | _ => false end.
Definition is_ula (o : bytes) : bool :=
  match o with a :: _ => Z.land a 254 =? 252 | [] => false end.
Definition is_v6_link_local (o : bytes) : bool :=
  match o with a :: b :: _ => (a =? 254) && (Z.land b 192 =? 128) | _ => false end.

Definition is_special_use (addr : ip_addr) : bool :=
  match addr with
  | V4 a => v4_is_private a || v4_is_loopback a || v4_is_link_local a || v4_is_broadcast a ||
            v4_is_documentation a || v4_is_unspecified a || v4_is_multicast a || is_cgnat a
  | V6 a => v6_is_loopback a || v6_is_unspecified a || v6_is_multicast a || is_ula a ||
            is_v6_link_local a
  end.

Definition is_nonroutable_egress (addr : ip_addr) : bool :=
  match addr with
  | V4 a => v4_is_loopback a || v4_is_link_local a || v4_is_unspecified a || v4_is_broadcast a ||
            v4_is_multicast a
  | V6 a => v6_is_loopback a || v6_is_unspecified a || v6_is_multicast a || is_v6_link_local a
  end.

(** ** The decision (inet.rs) *)

Record NetRuntime : Type := {
  nt_ruleset : Ruleset; nt_accept_private_resolved : bool; nt_host_services : list (ip_addr * Z);
}.

Definition net_mode (m : PolicyNetMode) : NetMode :=
  match m with
  | PmConstrained => NmConstrained
  | PmUnconstrained => NmUnconstrained
  | PmNone | PmHost => NmNone
  end.

(** [(port_min..=port_max).collect()]: nothing when the range is empty. *)
Definition port_range (lo hi : Z) : list Z :=
  map (fun i => lo + Z.of_nat i) (seq 0 (Z.to_nat (hi - lo + 1))).
Definition ports_for (port_min port_max : Z) : list Z :=
  if (port_min =? 0) && (port_max =? u16_max) then [] else port_range port_min port_max.

Definition rule_protocol (p : Protocol) : RuleProtocol :=
  match p with ProtoAny => PAny | ProtoTcp => PTcp | ProtoUdp => PUdp end.

Section from_policy.
(** [str::parse::<IpAddr>]. *)
Context (parse_ip : bytes -> option ip_addr).

Definition cidr_of (rule : NetRule) : option Cidr :=
  base ← parse_ip (nr_cidr rule); result_ok (cidr_new base (nr_prefix_len rule)).
Definition rule_from_cidr (rule : NetRule) : option Rule :=
  c ← cidr_of rule;
  Some {| ru_matcher := MCidr c; ru_ports := ports_for (nr_port_min rule) (nr_port_max rule);
          ru_protocol := rule_protocol (nr_protocol rule) |}.
Definition rule_from_name (rule : NameRule) : Rule :=
  {| ru_matcher := MName (nn_name rule); ru_ports := nn_ports rule;
     ru_protocol := rule_protocol (nn_protocol rule) |}.
Definition deny_from_cidr (rule : NetRule) : option DenyRule :=
  c ← cidr_of rule;
  Some {| dr_matcher := DmCidr c; dr_ports := ports_for (nr_port_min rule) (nr_port_max rule) |}.

Definition from_policy (net : NetPolicy) (host_services : list (ip_addr * Z)) : NetRuntime :=
  {| nt_ruleset := {|
       rs_mode := net_mode (np_mode net);
       rs_allow := omap rule_from_cidr (np_allow net) ++ map rule_from_name (np_allow_names net);
       rs_deny := omap deny_from_cidr (np_deny_invariant net ++ np_deny_author net) |};
     nt_accept_private_resolved := false;
     nt_host_services := host_services |}.
End from_policy.

Definition denied : NetRuntime :=
  {| nt_ruleset := {| rs_mode := NmNone; rs_allow := []; rs_deny := [] |};
     nt_accept_private_resolved := false; nt_host_services := [] |}.

Definition is_host_service (rt : NetRuntime) (addr : ip_addr) (port : Z) : bool :=
  existsb (fun s => bool_decide (s.1 = addr) && (s.2 =? port)) (nt_host_services rt).

Inductive InetDecision : Type := Pinned (addrs : list ip_addr) | Denied | Unreachable.

(** [resolver] is [None] where the resolver returns an error. *)
Definition decide_inet (rt : NetRuntime) (resolver : bytes -> option (list ip_addr))
    (dest : Destination) (port : Z) (t : Transport) : InetDecision :=
  let after_gate :=
    match decide_request (nt_ruleset rt) dest port t with
    | RdDeny _ => Denied
    | RdAllow => match dest with DAddr addr => Pinned [addr] | DName _ => Unreachable end
    | RdResolve =>
        match dest with
        | DName name =>
            match resolver name with
            | None => Unreachable
            | Some addrs =>
                let pinned := List.filter (fun addr =>
                  match decide_resolved (nt_ruleset rt) addr port t with
                  | DecAllow => true | DecDeny _ => false end &&
                  (nt_accept_private_resolved rt || negb (is_special_use addr))) addrs in
                match pinned with [] => Unreachable | _ => Pinned pinned end
            end
        | DAddr _ => Unreachable
        end
    end in
  match dest with
  | DAddr addr =>
      if is_host_service rt addr port then Pinned [addr]
      else if negb (nt_accept_private_resolved rt) && is_special_use addr then Denied
      else after_gate
  | DName _ => after_gate
  end.

(** * Networks *)

Lemma top_bits_land n b :
  1 <= n <= 7 -> byte_ok b -> Z.land b (top_bits_mask n) = b / 2 ^ (8 - n) * 2 ^ (8 - n).
Proof.
  intros Hn Hb. apply Z.eqb_eq.
  assert (n = 1 \/ n = 2 \/ n = 3 \/ n = 4 \/ n = 5 \/ n = 6 \/ n = 7) as Hc by lia.
  destruct_or! Hc; subst n; revert b Hb; apply byte_forall; by vm_compute.
Qed.

(** One more leading byte: the quotient by [2 ^ k] with [k] within the tail. *)
Lemma lead_byte_div b v m k :
  0 <= k <= 8 * m -> (b * 256 ^ m + v) / 2 ^ k = b * 2 ^ (8 * m - k) + v / 2 ^ k.
Proof.
  intros Hk. change 256 with (2 ^ 8). rewrite <- Z.pow_mul_r by lia.
  pose proof (Z.pow_pos_nonneg 2 k).
  replace (8 * m) with (8 * m - k + k) at 1 by lia. rewrite Z.pow_add_r, Z.mul_assoc by lia.
  rewrite Z.add_comm, Z.div_add by lia. lia.
Qed.

Lemma lead_byte_high b v m j :
  0 <= m -> 0 <= j -> 0 <= v < 256 ^ m -> (b * 256 ^ m + v) / 2 ^ (8 * m + j) = b / 2 ^ j.
Proof.
  intros Hm Hj Hv. change 256 with (2 ^ 8) in *. rewrite <- Z.pow_mul_r in * by lia.
  pose proof (Z.pow_pos_nonneg 2 (8 * m)). pose proof (Z.pow_pos_nonneg 2 j).
  rewrite Z.pow_add_r by lia. rewrite <- Z.div_div by lia.
  rewrite Z.add_comm, Z.div_add, (Z.div_small v) by lia. done.
Qed.

Lemma octets_match_prefix base addr p :
  bytes_ok base -> bytes_ok addr -> length base = length addr -> 0 <= p <= 8 * blen base ->
  octets_match base addr p =
    (be_val base / 2 ^ (8 * blen base - p) =? be_val addr / 2 ^ (8 * blen base - p)).
Proof.
  intros Hb. revert addr p. induction Hb as [|b base Hb Hbase IH]; intros [|a addr] p Ha Hl Hp;
    try done; cbn [octets_match].
  apply Forall_cons_1 in Ha as [Ha Haddr]. injection Hl as Hl.
  rewrite !be_val_cons, <- Hl. set (m := blen base) in *.
  pose proof (ne_val_bound BigEndian base Hbase) as B1. cbn [ne_val] in B1. fold m in B1.
  pose proof (ne_val_bound BigEndian addr Haddr) as B2. cbn [ne_val] in B2.
  rewrite <- Hl in B2. fold m in B2.
  assert (blen (b :: base) = m + 1) as Em by (cbn -[Z.of_nat]; unfold m; lia). rewrite Em in *.
  unfold byte_ok in *. destruct (Z.eqb_spec p 0) as [->|Hp0].
  { replace (8 * (m + 1) - 0) with (8 * m + 8) by lia.
    rewrite !lead_byte_high, !Z.div_small by lia. done. }
  destruct (Z.leb_spec 8 p).
  - replace (sat_sub p 8) with (p - 8) by (unfold sat_sub; lia).
    replace (8 * (m + 1) - p) with (8 * m - (p - 8)) by lia.
    rewrite !lead_byte_div by lia. set (k := 8 * m - (p - 8)).
    replace (8 * m - k) with (p - 8) by (unfold k; lia).
    assert (forall v, 0 <= v < 256 ^ m -> 0 <= v / 2 ^ k < 2 ^ (p - 8)) as B.
    { intros v Hv. split; [apply Z.div_pos; lia|]. apply Z.div_lt_upper_bound; [lia|].
      rewrite <- Z.pow_add_r by lia. unfold k. replace (8 * m - (p - 8) + (p - 8)) with (8 * m) by lia.
      rewrite Z.pow_mul_r by lia. apply Hv. }
    pose proof (B _ B1). pose proof (B _ B2). destruct (Z.eqb_spec b a) as [->|Hne].
    + rewrite IH by (done || lia). fold m k. apply eq_true_iff_eq. rewrite !Z.eqb_eq. lia.
    + symmetry. apply Z.eqb_neq. intros E. apply Hne. nia.
  - replace (8 * (m + 1) - p) with (8 * m + (8 - p)) by lia.
    rewrite !lead_byte_high by lia. rewrite !top_bits_land by (unfold byte_ok; lia).
    apply eq_true_iff_eq. rewrite !Z.eqb_eq. split; [|congruence]. intros E.
    apply Z.mul_cancel_r in E; [done|]. lia.
Qed.

(** ** Special-use space as networks *)

Definition net4 (a b c d p : Z) : Cidr := {| cd_base := V4 [a; b; c; d]; cd_prefix_len := p |}.
Definition net6 (o : bytes) (p : Z) : Cidr := {| cd_base := V6 o; cd_prefix_len := p |}.

(** The networks the documentation of [is_special_use] lists. *)
Definition SPECIAL_USE : list Cidr :=
  [net4 10 0 0 0 8; net4 172 16 0 0 12; net4 192 168 0 0 16; net4 127 0 0 0 8;
   net4 169 254 0 0 16; net4 255 255 255 255 32; net4 192 0 2 0 24; net4 198 51 100 0 24;
   net4 203 0 113 0 24; net4 0 0 0 0 32; net4 224 0 0 0 4; net4 100 64 0 0 10;
   net6 (replicate 15 0 ++ [1]) 128; net6 (replicate 16 0) 128; net6 (255 :: replicate 15 0) 8;
   net6 (252 :: replicate 15 0) 7; net6 (254 :: 128 :: replicate 14 0) 10].

Lemma octets_match_full a b n :
  length a = length b -> n = 8 * blen a -> octets_match a b n = bool_decide (a = b).
Proof.
  revert b n. induction a as [|x a IH]; intros [|y b] n Hl Hn; try done. cbn -[Z.of_nat] in *.
  injection Hl as Hl. destruct (Z.eqb_spec n 0); [lia|]. rewrite (proj2 (Z.leb_le 8 n)) by lia.
  destruct (Z.eqb_spec x y) as [->|Hne].
  - rewrite IH by (done || unfold sat_sub; lia). apply bool_decide_ext. naive_solver.
  - symmetry. apply bool_decide_eq_false. congruence.
Qed.

Lemma mask_range b :
  byte_ok b ->
  (Z.land 16 240 =? Z.land b 240) = in_range_b 16 31 b /\
  (Z.land 64 192 =? Z.land b 192) = in_range_b 64 127 b /\
  (Z.land 224 240 =? Z.land b 240) = in_range_b 224 239 b /\
  (Z.land 252 254 =? Z.land b 254) = (Z.land b 254 =? 252) /\
  (Z.land 128 192 =? Z.land b 192) = (Z.land b 192 =? 128).
Proof.
  intros Hb. split_and!; apply eqb_prop; revert b Hb; apply byte_forall; by vm_compute.
Qed.

Lemma bool_decide_eq_sym (x y : bytes) : bool_decide (x = y) = bool_decide (y = x).
Proof. apply bool_decide_ext. naive_solver. Qed.

Section short_prefixes.
Context (x y x2 y2 x3 y3 : Z) (l k : bytes).

Lemma om4 : octets_match (x :: l) (y :: k) 4 = (Z.land x 240 =? Z.land y 240).
Proof. done. Qed.
Lemma om7 : octets_match (x :: l) (y :: k) 7 = (Z.land x 254 =? Z.land y 254).
Proof. done. Qed.
Lemma om8 : octets_match (x :: l) (y :: k) 8 = (x =? y).
Proof. cbn. destruct (x =? y), l, k; done. Qed.
Lemma om10 : octets_match (x :: x2 :: l) (y :: y2 :: k) 10 =
  (x =? y) && (Z.land x2 192 =? Z.land y2 192).
Proof. cbn. by destruct (x =? y). Qed.
Lemma om12 : octets_match (x :: x2 :: l) (y :: y2 :: k) 12 =
  (x =? y) && (Z.land x2 240 =? Z.land y2 240).
Proof. cbn. by destruct (x =? y). Qed.
Lemma om16 : octets_match (x :: x2 :: l) (y :: y2 :: k) 16 = (x =? y) && (x2 =? y2).
Proof. cbn. destruct (x =? y), (x2 =? y2), l, k; done. Qed.
Lemma om24 : octets_match (x :: x2 :: x3 :: l) (y :: y2 :: y3 :: k) 24 =
  (x =? y) && (x2 =? y2) && (x3 =? y3).
Proof. cbn. destruct (x =? y), (x2 =? y2), (x3 =? y3), l, k; done. Qed.
End short_prefixes.

Lemma special_use_networks a :
  ip_ok a -> is_special_use a = existsb (fun c => contains c a) SPECIAL_USE.
Proof.
  intros [Ho Hl]. destruct a as [o|o]; cbn in Ho, Hl;
    cbn [is_special_use existsb SPECIAL_USE contains net4 net6 cd_base cd_prefix_len].
  - destruct o as [|a [|b [|c [|d [|]]]]]; try done.
    apply Forall_cons_1 in Ho as [Ha Ho]. apply Forall_cons_1 in Ho as [Hb _].
    destruct (mask_range a Ha) as (_ & _ & M3 & _ & _).
    destruct (mask_range b Hb) as (M1 & M2 & _ & _ & _).
    rewrite (octets_match_full [255; 255; 255; 255]), (octets_match_full [0; 0; 0; 0]) by done.
    rewrite !om8, !om12, !om16, !om24, !om4, !om10, M1, M2, M3.
    rewrite !(bool_decide_eq_sym _ [a; b; c; d]).
    rewrite !(Z.eqb_sym _ a), !(Z.eqb_sym _ b), !(Z.eqb_sym _ c).
    unfold v4_is_private, v4_is_loopback, v4_is_link_local, v4_is_broadcast, v4_is_documentation,
      v4_is_unspecified, v4_is_multicast, is_cgnat. rewrite !orb_false_r, <- !orb_assoc. done.
  - assert (exists a b o', o = a :: b :: o') as (a & b & o' & ->).
    { destruct o as [|a [|b o']]; try done. by exists a, b, o'. }
    apply Forall_cons_1 in Ho as [Ha Ho]. apply Forall_cons_1 in Ho as [Hb _].
    destruct (mask_range a Ha) as (_ & _ & _ & M4 & _).
    destruct (mask_range b Hb) as (_ & _ & _ & _ & M5).
    rewrite !octets_match_full by (done || by rewrite Hl).
    cbn [replicate]. rewrite om8, om7, om10, M4, M5.
    rewrite !(bool_decide_eq_sym _ (a :: b :: o')).
    rewrite !(Z.eqb_sym _ a). unfold v6_is_loopback, v6_is_unspecified, v6_is_multicast, is_ula,
      is_v6_link_local. rewrite !orb_false_r, <- !orb_assoc. done.
Qed.

(** ** Names *)

Lemma eq_ignore_case_true a b :
  eq_ignore_ascii_case a b = true <-> map lower a = map lower b.
Proof. apply bool_decide_eq_true. Qed.

Lemma lower_dot b : lower b = 46 -> b = 46.
Proof. unfold lower. case_match; zbool; lia. Qed.

Lemma ends_with_label_spec name apex :
  ends_with_label name (46 :: apex) = true <->
  exists pre, pre <> [] /\ map lower name = pre ++ map lower (46 :: apex).
Proof.
  unfold ends_with_label. set (suffix := 46 :: apex). rewrite andb_true_iff, Z.ltb_lt. split.
  - intros [Hl H]. unfold str_get_from in H.
    replace (sat_sub _ _) with (blen name - blen suffix) in H by (unfold sat_sub; lia).
    destruct (char_boundary name _); [|done].
    destruct (get_from name (blen name - blen suffix)) as [tail|] eqn:E; [|done].
    apply get_range_Some in E as (_ & _ & Ht & pre & suf & En & Hp).
    assert (suf = []) as ->.
    { apply nil_length_inv. rewrite En, !length_app in *. lia. }
    rewrite app_nil_r in En. apply eq_ignore_case_true in H. exists (map lower pre). split.
    + destruct pre; cbn in *; [lia|done].
    + by rewrite En, map_app, H.
  - intros (pre & Hne & Hn).
    assert (length name = length pre + length suffix)%nat as Hl.
    { rewrite <- (length_map lower name), Hn, length_app, length_map. done. }
    assert (0 < length pre)%nat by (destruct pre; [done|cbn; lia]).
    split; [lia|]. replace (sat_sub _ _) with (blen pre) by (unfold sat_sub; lia).
    pose proof (take_drop (length pre) name) as Hsplit.
    assert (map lower (drop (length pre) name) = map lower suffix) as Hd.
    { rewrite <- skipn_map, Hn. apply drop_app_length. }
    unfold str_get_from.
    rewrite (get_from_eq name (take (length pre) name) (drop (length pre) name))
      by (done || rewrite length_take; lia).
    assert (char_boundary name (blen pre) = true) as ->.
    { unfold char_boundary. rewrite Nat2Z.id, <- (Nat.add_0_r (length pre)), <- lookup_drop.
      destruct (drop (length pre) name) as [|b t]; [done|]. cbn in Hd. injection Hd as Hb _.
      apply lower_dot in Hb as ->. cbn. by rewrite orb_true_r. }
    by apply eq_ignore_case_true.
Qed.

(** ** Ports and policy rules *)

Lemma port_range_elem lo hi p : p ∈ port_range lo hi <-> lo <= p <= hi.
Proof.
  unfold port_range. rewrite list_elem_of_fmap. split.
  - intros (i & -> & Hi%elem_of_seq). lia.
  - intros Hp. exists (Z.to_nat (p - lo)). split; [lia|]. apply elem_of_seq. lia.
Qed.

Lemma ports_for_matches lo hi p :
  in_u16 p -> lo <= hi -> port_matches (ports_for lo hi) p = true <-> lo <= p <= hi.
Proof.
  intros Hp Hle. unfold ports_for. destruct ((lo =? 0) && (hi =? u16_max)) eqn:Eb.
  { zbool. subst. cbn. in_range. }
  pose proof (port_range_elem lo hi p) as E. pose proof (port_range_elem lo hi lo) as El.
  unfold port_matches. destruct (port_range lo hi) as [|q l].
  { destruct (not_elem_of_nil lo). apply El. lia. }
  rewrite bool_decide_eq_true. done.
Qed.

Lemma denied_by_policy parse net hs rule base a port :
  rule ∈ np_deny_invariant net ++ np_deny_author net ->
  parse (nr_cidr rule) = Some base -> nr_prefix_len rule <= family_bits base ->
  contains {| cd_base := base; cd_prefix_len := nr_prefix_len rule |} a = true ->
  in_u16 port -> nr_port_min rule <= port <= nr_port_max rule ->
  denied_addr (nt_ruleset (from_policy parse net hs)) a port = true.
Proof.
  intros Hin Hparse Hlen Hc Hp Hport. unfold denied_addr. cbn [nt_ruleset from_policy rs_deny].
  apply existsb_exists.
  exists {| dr_matcher := DmCidr {| cd_base := base; cd_prefix_len := nr_prefix_len rule |};
            dr_ports := ports_for (nr_port_min rule) (nr_port_max rule) |}. split.
  - apply list_elem_of_In, list_elem_of_omap. exists rule. split; [done|].
    unfold deny_from_cidr, cidr_of, cidr_new. rewrite Hparse. cbn.
    by rewrite (proj2 (Z.ltb_ge _ _)).
  - cbn. rewrite Hc. by apply ports_for_matches; [|lia|].
Qed.

(** * Properties *)

(** Network membership is agreement of the leading bits: for a base and an
    address of one family, [contains] holds exactly when the two, read as
    numbers, agree above the last [w - prefix] bits; across families it never
    holds. *)
Theorem cidr_contains_prefix (c : Cidr) (a : ip_addr) :
  ip_ok (cd_base c) -> ip_ok a -> 0 <= cd_prefix_len c <= family_bits (cd_base c) ->
  contains c a = true <->
  family_bits a = family_bits (cd_base c) /\
  be_val (octets (cd_base c)) / 2 ^ (family_bits a - cd_prefix_len c) =
  be_val (octets a) / 2 ^ (family_bits a - cd_prefix_len c).
Proof.
  intros [Hb Hlb] [Ha Hla] Hp. unfold contains.
  destruct (cd_base c) as [b|b], a as [a|a]; cbn in *; try (split; [done|by intros []]).
  all: rewrite octets_match_prefix by (done || congruence || lia); rewrite Hlb, Z.eqb_eq; cbn.
  all: split; [done|by intros []].
Qed.

(** The domain convention: a plain pattern matches that name only, whatever
    the ASCII case; a pattern with a leading dot matches the apex and the names
    that end in the dotted pattern after at least one more byte, so never a name
    that merely has the apex as a suffix. *)
Theorem name_matches_convention (pattern name : bytes) :
  name_matches pattern name = true <->
  (exists apex, pattern = 46 :: apex /\
     (map lower name = map lower apex \/
      exists pre, pre <> [] /\ map lower name = pre ++ [46] ++ map lower apex)) \/
  (head pattern <> Some 46 /\ map lower name = map lower pattern).
Proof.
  unfold name_matches. destruct pattern as [|c apex].
  - rewrite eq_ignore_case_true. naive_solver.
  - destruct (Z.eqb_spec c 46) as [->|].
    + rewrite orb_true_iff, eq_ignore_case_true, ends_with_label_spec. naive_solver.
    + rewrite eq_ignore_case_true. naive_solver.
Qed.

(** The special-use gate is the documented set: [is_special_use] holds of an
    address exactly when one of the networks its documentation lists contains
    it. *)
Theorem special_use_is_documented (a : ip_addr) :
  ip_ok a -> is_special_use a = existsb (fun c => contains c a) SPECIAL_USE.
Proof. apply special_use_networks. Qed.

(** An address past every gate that does not depend on how it was asked for. *)
Definition vetted (rt : NetRuntime) (port : Z) (a : ip_addr) : Prop :=
  rs_mode (nt_ruleset rt) <> NmNone /\ denied_addr (nt_ruleset rt) a port = false /\
  (nt_accept_private_resolved rt = true \/ is_special_use a = false).

(** The mode or an allow rule. *)
Definition authorised (rt : NetRuntime) (allow : bool) : Prop :=
  rs_mode (nt_ruleset rt) = NmUnconstrained \/ allow = true.

Lemma pinned_single a b : (exists l, Pinned [b] = Pinned l /\ a ∈ l) <-> a = b.
Proof.
  split; [by intros (l & [= <-] & ?%list_elem_of_singleton)|].
  intros ->. exists [b]. split; [done|]. by apply list_elem_of_singleton.
Qed.

Lemma decide_addr_pins rt resolver b port t a :
  (exists l, decide_inet rt resolver (DAddr b) port t = Pinned l /\ a ∈ l) <->
  a = b /\ (is_host_service rt b port = true \/
    vetted rt port b /\ authorised rt (allow_addr_match (nt_ruleset rt) b port t)).
Proof.
  unfold decide_inet, decide_request, vetted, authorised. cbv zeta.
  destruct (is_host_service rt b port); [rewrite pinned_single; naive_solver|].
  destruct (nt_accept_private_resolved rt), (is_special_use b); cbn [negb andb];
    destruct (rs_mode (nt_ruleset rt)), (denied_addr (nt_ruleset rt) b port),
      (allow_addr_match (nt_ruleset rt) b port t);
    rewrite ?pinned_single; naive_solver.
Qed.

Lemma decide_name_pins rt resolver n port t a :
  (exists l, decide_inet rt resolver (DName n) port t = Pinned l /\ a ∈ l) <->
  vetted rt port a /\ name_denied (nt_ruleset rt) n port = false /\
  authorised rt (allow_name_match (nt_ruleset rt) n port t) /\
  exists addrs, resolver n = Some addrs /\ a ∈ addrs.
Proof.
  unfold decide_inet, decide_request, vetted, authorised. cbv zeta.
  set (keep := fun addr => _ && _).
  assert ((exists l, match resolver n with
      | None => Unreachable
      | Some addrs => match List.filter keep addrs with [] => Unreachable | _ =>
          Pinned (List.filter keep addrs) end end = Pinned l /\ a ∈ l) <->
    keep a = true /\ exists addrs, resolver n = Some addrs /\ a ∈ addrs) as Hk.
  { destruct (resolver n) as [addrs|]; [|naive_solver].
    assert (a ∈ List.filter keep addrs <-> keep a = true /\ a ∈ addrs) as Hf.
    { rewrite !list_elem_of_In, filter_In. naive_solver. }
    destruct (List.filter keep addrs) as [|x l].
    { split; [naive_solver|]. intros (Hka & addrs' & [= <-] & Hin).
      destruct (not_elem_of_nil a). by apply Hf. }
    split; [intros (l' & [= <-] & Hin); naive_solver|naive_solver]. }
  assert (keep a = true <-> denied_addr (nt_ruleset rt) a port = false /\
    (nt_accept_private_resolved rt = true \/ is_special_use a = false)) as Hka.
  { unfold keep, decide_resolved. destruct (denied_addr _ a port); cbn; [naive_solver|].
    rewrite orb_true_iff, negb_true_iff. naive_solver. }
  destruct (rs_mode (nt_ruleset rt)); [naive_solver| |];
    (destruct (name_denied (nt_ruleset rt) n port); [naive_solver|]).
  - destruct (allow_name_match (nt_ruleset rt) n port t); [|naive_solver].
    rewrite Hk, Hka. naive_solver.
  - rewrite Hk, Hka. naive_solver.
Qed.

(** C1: What the daemon pins, exactly, for every resolver: an address asked for
    literally is pinned iff it is a sanctioned host service, or the kennel has a
    network, no deny rule covers it, it is not special-use, and the mode or an
    allow rule authorises it; an address for a name is pinned iff the resolver
    returned it for that name, the name is not denied, the name is authorised,
    and that address itself passes the deny rules and the special-use gate.
    Nothing a hostile resolver answers gets round the address checks. *)
Theorem decide_pins_exactly (rt : NetRuntime) (resolver : bytes -> option (list ip_addr))
    (dest : Destination) (port : Z) (t : Transport) (a : ip_addr) :
  (exists l, decide_inet rt resolver dest port t = Pinned l /\ a ∈ l) <->
  match dest with
  | DAddr b => a = b /\ (is_host_service rt b port = true \/
      vetted rt port b /\ authorised rt (allow_addr_match (nt_ruleset rt) b port t))
  | DName n =>
      vetted rt port a /\ name_denied (nt_ruleset rt) n port = false /\
      authorised rt (allow_name_match (nt_ruleset rt) n port t) /\
      exists addrs, resolver n = Some addrs /\ a ∈ addrs
  end.
Proof. destruct dest; [apply decide_name_pins|apply decide_addr_pins]. Qed.

(** The deny floor of the signed policy cannot be got round: for every deny
    rule of the policy, invariant or author's, whose literal parses, an address
    of its network on a port of its range is never pinned, in any mode, under
    any allow rules and any resolver, unless it is an exact host-service literal
    the client asked for by address. *)
Theorem policy_deny_floor (parse : bytes -> option ip_addr) (net : NetPolicy)
    (hs : list (ip_addr * Z)) (rule : NetRule) (base : ip_addr)
    (resolver : bytes -> option (list ip_addr)) (dest : Destination) (port : Z) (t : Transport)
    (l : list ip_addr) (a : ip_addr) :
  rule ∈ np_deny_invariant net ++ np_deny_author net ->
  parse (nr_cidr rule) = Some base -> nr_prefix_len rule <= family_bits base ->
  in_u16 port -> nr_port_min rule <= port <= nr_port_max rule ->
  contains {| cd_base := base; cd_prefix_len := nr_prefix_len rule |} a = true ->
  decide_inet (from_policy parse net hs) resolver dest port t = Pinned l -> a ∈ l ->
  dest = DAddr a /\ is_host_service (from_policy parse net hs) a port = true.
Proof.
  intros Hin Hparse Hlen Hport Hrange Hc Hd Ha.
  pose proof (denied_by_policy parse net hs rule base a port Hin Hparse Hlen Hc Hport Hrange) as Hden.
  assert (~ vetted (from_policy parse net hs) port a) as Hnv.
  { unfold vetted. rewrite Hden. by intros (_ & ? & _). }
  destruct dest as [n|b].
  - by destruct (proj1 (decide_name_pins _ _ _ _ _ _) (ex_intro _ l (conj Hd Ha))) as [? _].
  - destruct (proj1 (decide_addr_pins _ _ _ _ _ _) (ex_intro _ l (conj Hd Ha)))
      as (-> & [Hs|[? _]]); done.
Qed.

(** A kennel without a proxied network reaches nothing: under policy mode
    [none] or [host], and under the deny-all runtime, every request is refused
    unless it is an exact host-service literal. *)
Theorem no_network_denies (parse : bytes -> option ip_addr) (net : NetPolicy)
    (hs : list (ip_addr * Z)) (resolver : bytes -> option (list ip_addr)) (dest : Destination)
    (port : Z) (t : Transport) :
  np_mode net = PmNone \/ np_mode net = PmHost ->
  decide_inet denied resolver dest port t = Denied /\
  (decide_inet (from_policy parse net hs) resolver dest port t = Denied \/
   exists a, dest = DAddr a /\ is_host_service (from_policy parse net hs) a port = true).
Proof.
  intros Hm. split; [destruct dest; cbn; [done|by case_match]|].
  assert (net_mode (np_mode net) = NmNone) as Hn by (destruct Hm as [-> | ->]; done).
  unfold decide_inet, decide_request. cbn [nt_ruleset from_policy rs_mode]. rewrite Hn.
  destruct dest as [n|b]; [by left|].
  destruct (is_host_service _ b port) eqn:E; [right; eauto|left]. by case_match.
Qed.

(** The IPv4-mapped IPv6 form of an IPv4 address. *)
Definition v4_mapped (o : bytes) : ip_addr := V6 (replicate 10 0 ++ [255; 255] ++ o).

(** The gates look at the family as written: in [unconstrained] mode, with no
    IPv6 deny rule and no matching host service, the IPv4-mapped form of any IPv4
    address is pinned, including those whose plain form is special-use or
    covered by a deny rule. *)
Theorem v4_mapped_is_pinned (rt : NetRuntime) (resolver : bytes -> option (list ip_addr))
    (o : bytes) (port : Z) (t : Transport) :
  rs_mode (nt_ruleset rt) = NmUnconstrained ->
  Forall (fun r => match dr_matcher r with DmCidr c => family_bits (cd_base c) = 32 | _ => True end)
    (rs_deny (nt_ruleset rt)) ->
  nt_host_services rt = [] -> length o = 4%nat ->
  decide_inet rt resolver (DAddr (v4_mapped o)) port t = Pinned [v4_mapped o].
Proof.
  intros Hm Hd Hs Ho.
  assert (denied_addr (nt_ruleset rt) (v4_mapped o) port = false) as Hden.
  { unfold denied_addr. apply not_true_iff_false. rewrite existsb_exists. intros (r & Hr & Hx).
    rewrite Forall_forall in Hd. apply list_elem_of_In in Hr. specialize (Hd r Hr).
    destruct (dr_matcher r) as [c|]; [|done]. unfold contains, v4_mapped in Hx.
    by destruct (cd_base c). }
  assert (is_special_use (v4_mapped o) = false) as Hsp.
  { cbn. unfold v6_is_loopback, v6_is_unspecified. by rewrite !bool_decide_false. }
  unfold decide_inet, decide_request, is_host_service. rewrite Hs, Hsp, Hm, Hden. cbn.
  by rewrite andb_false_r.
Qed.

(** ** Witnesses *)

Definition sample_net (mode : PolicyNetMode) : NetPolicy := {|
  np_mode := mode; np_udp := false; np_bind_port_min := 0; np_bind_allowed_ports := [];
  np_proxy := proxy_default; np_allow := []; np_allow_names := []; np_udp_allow_names := [];
  np_deny_invariant := [{| nr_cidr := ascii_bytes "169.254.0.0"; nr_prefix_len := 16;
    nr_port_min := 0; nr_port_max := 65535; nr_protocol := ProtoAny |}];
  np_deny_author := []; np_bpf_connect_allow := []; np_bpf_connect_deny := [];
  np_bpf_bind_allow := []; np_bpf_bind_deny := [] |}.
Definition sample_parse (s : bytes) : option ip_addr := Some (V4 [169; 254; 0; 0]).
Definition metadata : bytes := [169; 254; 169; 254].

Lemma cidr_contains_prefix_witness :
  contains (net4 172 16 0 0 12) (V4 [172; 31; 255; 255]) = true <->
  32 = 32 /\ 2886729728 / 2 ^ 20 = 2887778303 / 2 ^ 20.
Proof.
  apply (cidr_contains_prefix (net4 172 16 0 0 12) (V4 [172; 31; 255; 255]));
    apply (bool_decide_unpack _); by vm_compute.
Defined.

Lemma special_use_witness : is_special_use (V4 [100; 64; 0; 1]) = true.
Proof.
  rewrite (special_use_is_documented (V4 [100; 64; 0; 1])); [by vm_compute|].
  apply (bool_decide_unpack _). by vm_compute.
Defined.

(** The one way past the floor: a sanctioned literal, here on port 22. *)
Lemma policy_deny_floor_witness :
  is_host_service (from_policy sample_parse (sample_net PmUnconstrained) [(V4 metadata, 22)]) (V4 metadata) 22 = true.
Proof.
  apply (policy_deny_floor sample_parse (sample_net PmUnconstrained) [(V4 metadata, 22)]
    {| nr_cidr := ascii_bytes "169.254.0.0"; nr_prefix_len := 16; nr_port_min := 0;
       nr_port_max := 65535; nr_protocol := ProtoAny |}
    (V4 [169; 254; 0; 0]) (fun _ => None) (DAddr (V4 metadata)) 22 Tcp [V4 metadata] (V4 metadata));
    try done; by apply list_elem_of_singleton.
Defined.

Lemma no_network_denies_witness :
  decide_inet denied (fun _ => None) (DAddr (V4 [1; 1; 1; 1])) 443 Tcp = Denied.
Proof.
  apply (no_network_denies sample_parse (sample_net PmHost) []). by right.
Defined.

Lemma v4_mapped_is_pinned_witness :
  decide_inet (from_policy sample_parse (sample_net PmUnconstrained) []) (fun _ => None) (DAddr (v4_mapped metadata))
    80 Tcp = Pinned [v4_mapped metadata] /\
  decide_inet (from_policy sample_parse (sample_net PmUnconstrained) []) (fun _ => None) (DAddr (V4 metadata)) 80 Tcp
    = Denied.
Proof.
  split; [|by vm_compute].
  apply (v4_mapped_is_pinned (from_policy sample_parse (sample_net PmUnconstrained) []) (fun _ => None) metadata 80);
    try done. repeat constructor.
Defined.
