(* ===== verification/Mesh.v ===== *)
(** The service mesh: the readiness machine
    ([kennel-lib-control/src/readiness.rs]), the catalogue
    ([kenneld/src/catalogue.rs]), the broker's decision
    ([kenneld/src/broker.rs]) and the supervisor
    ([kenneld/src/supervisor.rs]).

    The catalogue's maps are finite maps keyed by byte strings; the candidate
    order is the source's comparator (tier of the provider, then id).  The
    supervisor's loop takes what each run of the provider did as an input; its
    activation guard is a step system over the set of guarded names and the live
    supervision threads.

    Theorems: [Failed] is sticky under every event sequence; resolution finds
    every enabled provider of a name and no other, in tier order; the broker
    selects the least eligible candidate and never falls back past it; the
    restart budget bounds the supervisor, with every delay within the cap; the
    guard admits one live thread per provider until an idle reap, and two after
    one. *)

From S2P Require Import Prelude Bytes Plan Settled Cursor ControlWire.
From stdpp Require Import gmap sorting.
Open Scope Z_scope.

(** ** Readiness *)

Inductive Readiness : Type := Pending | Ready | Failed.
Inductive Event : Type :=
  | ConstructionSucceeded | ConstructionFailed | Restarting | IdleReaped | CrashLoopExhausted.

Global Instance Readiness_eq_dec : EqDecision Readiness.
Proof. solve_decision. Defined.

Definition on (r : Readiness) (e : Event) : option Readiness :=
  match r, e with
  | Pending, ConstructionSucceeded => Some Ready
  | Pending, ConstructionFailed | Pending, CrashLoopExhausted => Some Failed
  | Ready, Restarting | Ready, IdleReaped => Some Pending
  | Ready, CrashLoopExhausted => Some Failed
  | _, _ => None
  end.
Definition is_terminal (r : Readiness) : bool := match r with Failed => true | _ => false end.
Definition serves (r : Readiness) : bool := match r with Ready => true | _ => false end.

(** ** The catalogue *)

Inductive Tier : Type := User | Host.
Inductive Enablement : Type := Autorun | Ondemand.

Record EnabledProvider : Type := {
  ep_provider : bytes; ep_signing_key_id : bytes; ep_tier : Tier; ep_enablement : Enablement;
  ep_provides : list ProvideRuntime;
}.

Record CatalogueProvider : Type := {
  cp_signing_key_id : bytes; cp_tier : Tier; cp_enablement : Enablement;
  cp_readiness : Readiness; cp_offers : list ProvideRuntime;
}.

Record Candidate : Type := {
  ca_provider : bytes; ca_shape : Shape; ca_endpoint : bytes; ca_key : option bytes;
  ca_tier : Tier; ca_enablement : Enablement; ca_readiness : Readiness;
}.

Record Catalogue : Type := {
  ct_providers : gmap bytes CatalogueProvider;
  ct_by_name : gmap bytes (list bytes);
}.

(** [prov_map.get(id).map(|p| p.tier)] as a number: [None < User < Host]. *)
Definition tier_rank (provs : gmap bytes CatalogueProvider) (id : bytes) : Z :=
  match provs !! id with
  | None => 0
  | Some p => match cp_tier p with User => 1 | Host => 2 end
  end.

(** [String]'s order: bytewise, a prefix first. *)
Fixpoint bytes_leb (a b : bytes) : bool :=
  match a, b with
  | [], _ => true
  | _ :: _, [] => false
  | x :: a, y :: b => (x <? y) || ((x =? y) && bytes_leb a b)
  end.

(** [a] not after [b] under the sort's comparator. *)
Definition cand_leb (provs : gmap bytes CatalogueProvider) (a b : bytes) : bool :=
  (tier_rank provs a <? tier_rank provs b) ||
  ((tier_rank provs a =? tier_rank provs b) && bytes_leb a b).
Definition cand_le (provs : gmap bytes CatalogueProvider) (a b : bytes) : Prop :=
  cand_leb provs a b = true.

Global Instance cand_le_dec provs a b : Decision (cand_le provs a b).
Proof. unfold cand_le. apply _. Defined.

(** [Vec::dedup]. *)
Fixpoint dedup (l : list bytes) : list bytes :=
  match l with
  | x :: ((y :: _) as t) => if decide (x = y) then dedup t else x :: dedup t
  | l => l
  end.

Definition push_offer (id : bytes) (m : gmap bytes (list bytes)) (o : ProvideRuntime) :
    gmap bytes (list bytes) :=
  <[pv_name o := default [] (m !! pv_name o) ++ [id]]> m.

Definition catalogued (p : EnabledProvider) : CatalogueProvider := {|
  cp_signing_key_id := ep_signing_key_id p; cp_tier := ep_tier p;
  cp_enablement := ep_enablement p; cp_readiness := Pending; cp_offers := ep_provides p |}.

Definition add_provider (acc : gmap bytes CatalogueProvider * gmap bytes (list bytes))
    (p : EnabledProvider) : gmap bytes CatalogueProvider * gmap bytes (list bytes) :=
  (match ep_provides p with [] => acc.1 | _ => <[ep_provider p := catalogued p]> acc.1 end,
   fold_left (push_offer (ep_provider p)) (ep_provides p) acc.2).

Definition project (providers : list EnabledProvider) : Catalogue :=
  let '(prov_map, by_name) := fold_left add_provider providers (∅, ∅) in
  {| ct_providers := prov_map;
     ct_by_name := (fun ids => dedup (merge_sort (cand_le prov_map) ids)) <$> by_name |}.

Definition candidate_of (c : Catalogue) (name id : bytes) : option Candidate :=
  p ← ct_providers c !! id;
  offer ← List.find (fun o => bool_decide (pv_name o = name)) (cp_offers p);
  Some {| ca_provider := id; ca_shape := pv_shape offer; ca_endpoint := pv_endpoint offer;
          ca_key := pv_key offer; ca_tier := cp_tier p; ca_enablement := cp_enablement p;
          ca_readiness := cp_readiness p |}.

Definition resolve (c : Catalogue) (name : bytes) : list Candidate :=
  match ct_by_name c !! name with
  | None => []
  | Some ids => omap (candidate_of c name) ids
  end.

Definition with_readiness (p : CatalogueProvider) (r : Readiness) : CatalogueProvider := {|
  cp_signing_key_id := cp_signing_key_id p; cp_tier := cp_tier p;
  cp_enablement := cp_enablement p; cp_readiness := r; cp_offers := cp_offers p |}.

Definition set_readiness (c : Catalogue) (provider : bytes) (r : Readiness) :
    Catalogue * option Readiness :=
  match ct_providers c !! provider with
  | None => (c, None)
  | Some p => ({| ct_providers := <[provider := with_readiness p r]> (ct_providers c);
                  ct_by_name := ct_by_name c |}, Some r)
  end.

Definition apply_event (c : Catalogue) (provider : bytes) (e : Event) :
    Catalogue * option Readiness :=
  match ct_providers c !! provider with
  | None => (c, None)
  | Some p =>
      match on (cp_readiness p) e with
      | None => (c, None)
      | Some next => ({| ct_providers := <[provider := with_readiness p next]> (ct_providers c);
                         ct_by_name := ct_by_name c |}, Some next)
      end
  end.

Definition note_constructed (c : Catalogue) (provider : bytes) : Catalogue * option Readiness :=
  apply_event c provider ConstructionSucceeded.

Definition ondemand_provider_offers (c : Catalogue) (provider : bytes) : option (list bytes) :=
  p ← ct_providers c !! provider;
  match cp_enablement p with
  | Ondemand => Some (map pv_name (List.filter (fun o => bool_decide (pv_shape o = AfUnix)) (cp_offers p)))
  | Autorun => None
  end.

(** ** The broker *)

Record Selected : Type := {
  sl_provider : bytes; sl_shape : Shape; sl_tier : Tier; sl_key : option bytes; sl_endpoint : bytes;
}.

Inductive Decision' : Type :=
  | NoGrant | NoProvider | NotServing | BPending (s : Selected) | BReady (s : Selected).

Definition key_compatible (consume_key provider_key : option bytes) : bool :=
  bool_decide (consume_key = provider_key).

Definition eligible (consume : ConsumeRuntime) (c : Candidate) : bool :=
  bool_decide (ca_shape c = cn_shape consume) && key_compatible (cn_key consume) (ca_key c).

Definition selected_of (c : Candidate) : Selected := {|
  sl_provider := ca_provider c; sl_shape := ca_shape c; sl_tier := ca_tier c;
  sl_key := ca_key c; sl_endpoint := ca_endpoint c |}.

Definition broker_decide (consumes : list ConsumeRuntime) (c : Catalogue) (name : bytes) :
    Decision' :=
  match List.find (fun k => bool_decide (cn_name k = name)) consumes with
  | None => NoGrant
  | Some consume =>
      match List.find (eligible consume) (resolve c name) with
      | None => NoProvider
      | Some cand =>
          match ca_readiness cand with
          | Ready => BReady (selected_of cand)
          | Pending => BPending (selected_of cand)
          | Failed => NotServing
          end
      end
  end.

(** ** The supervisor *)

Definition BACKOFF_CAP_MS : Z := 30000.

Inductive RestartAction : Type := RestartAfter (delay_ms : Z) | Done | Fail.

(** [1u64.checked_shl(n).unwrap_or(u64::MAX)]. *)
Definition shl_or_max (n : Z) : Z := if n <? 64 then 2 ^ n else u64_max.

Definition backoff (initial_ms restarts_so_far : Z) : Z :=
  Z.min (sat_mul u64_max initial_ms (shl_or_max restarts_so_far)) BACKOFF_CAP_MS.

Definition on_exit (service : ServiceRuntime) (clean_exit : bool) (restarts_so_far : Z) :
    RestartAction :=
  let wants_restart := match sv_restart service with
    | Always => true | OnFailure => negb clean_exit | Never => false end in
  if negb wants_restart then (if clean_exit then Done else Fail)
  else if sv_max_attempts service <=? restarts_so_far then Fail
  else RestartAfter (backoff (sv_backoff_ms service) restarts_so_far).

(** What one run of the provider did: whether the construction sink was made, the
    responses read from it before it closed, and whether the provider was reaped
    as idle. *)
Record RunOutcome : Type := { ro_sink : bool; ro_responses : list Response; ro_reaped : bool }.

(** The supervision of one provider: its readiness, the restarts made, the delays
    slept.  An illegal event leaves the readiness as it is. *)
Record SupState : Type := { ss_readiness : Readiness; ss_restarts : Z; ss_delays : list Z }.

Definition raise (r : Readiness) (e : Event) : Readiness := default r (on r e).

(** The read loop over the sink: the readiness it leaves and whether the exit was
    clean.  The end of the list is the sink closing. *)
Fixpoint read_outcome (l : list Response) (r : Readiness) : Readiness * bool :=
  match l with
  | [] => (r, false)
  | Resp_Started _ _ _ :: l => read_outcome l (raise r ConstructionSucceeded)
  | Resp_Exited code :: _ => (r, code =? 0)
  | Resp_Error _ :: _ => (r, false)
  | _ :: l => read_outcome l r
  end.

(** One turn of the loop: [inl] goes round again, [inr] returns. *)
Definition supervise_turn (service : ServiceRuntime) (s : SupState) (o : RunOutcome) :
    SupState + SupState :=
  if negb (ro_sink o) then inr s else
  let '(r, clean) := read_outcome (ro_responses o) (ss_readiness s) in
  if ro_reaped o then
    inr {| ss_readiness := raise r IdleReaped; ss_restarts := ss_restarts s; ss_delays := ss_delays s |}
  else
    match on_exit service clean (ss_restarts s) with
    | RestartAfter delay =>
        inl {| ss_readiness := raise r Restarting;
               ss_restarts := sat_add u32_max (ss_restarts s) 1;
               ss_delays := ss_delays s ++ [delay] |}
    | Fail => inr {| ss_readiness := raise r CrashLoopExhausted; ss_restarts := ss_restarts s;
                     ss_delays := ss_delays s |}
    | Done => inr {| ss_readiness := raise r IdleReaped; ss_restarts := ss_restarts s;
                     ss_delays := ss_delays s |}
    end.

(** [supervise_provider], [fuel] turns of it; [run n] is what the [n]-th run did. *)
Fixpoint supervise (service : ServiceRuntime) (run : nat -> RunOutcome) (fuel n : nat)
    (s : SupState) : option SupState :=
  match fuel with
  | O => None
  | S fuel =>
      match supervise_turn service s (run n) with
      | inr s => Some s
      | inl s => supervise service run fuel (S n) s
      end
  end.

(** ** The activation guard *)

(** [Activator]: the guarded names, the activations past the guard that have not
    started their thread, and the live supervision threads. *)
Record ActState : Type := { ac_started : gset bytes; ac_spawning : list bytes; ac_live : list bytes }.

Section activator.
(** The enabled [ondemand] providers. *)
Context (ondemand : gset bytes).

Inductive act_step : ActState -> ActState -> Prop :=
  (** [activate], the name already guarded: nothing. *)
  | act_guarded s p : p ∈ ac_started s -> act_step s s
  (** [activate], past the guard. *)
  | act_insert s p : p ∉ ac_started s ->
      act_step s {| ac_started := {[p]} ∪ ac_started s; ac_spawning := p :: ac_spawning s;
                    ac_live := ac_live s |}
  (** [activate] continued: the thread is spawned for an [ondemand] provider. *)
  | act_spawn s p l k : ac_spawning s = l ++ p :: k -> p ∈ ondemand ->
      act_step s {| ac_started := ac_started s; ac_spawning := l ++ k;
                    ac_live := p :: ac_live s |}
  (** ... and the guard released for anything else. *)
  | act_release s p l k : ac_spawning s = l ++ p :: k -> p ∉ ondemand ->
      act_step s {| ac_started := ac_started s ∖ {[p]}; ac_spawning := l ++ k;
                    ac_live := ac_live s |}
  (** The supervision returned and the thread removes its entry. *)
  | act_return s p l k : ac_live s = l ++ p :: k ->
      act_step s {| ac_started := ac_started s ∖ {[p]}; ac_spawning := ac_spawning s;
                    ac_live := l ++ k |}.

(** [mark_idle_reaped]: the guard entry goes, the thread does not. *)
Inductive reap_step : ActState -> ActState -> Prop :=
  | act_reap s p : reap_step s {| ac_started := ac_started s ∖ {[p]};
                                  ac_spawning := ac_spawning s; ac_live := ac_live s |}.
End activator.

Definition act_init : ActState := {| ac_started := ∅; ac_spawning := []; ac_live := [] |}.

(** * Order of candidates *)

Lemma bytes_leb_refl a : bytes_leb a a = true.
Proof. induction a as [|x a IH]; cbn; [done|]. by rewrite Z.ltb_irrefl, Z.eqb_refl, IH. Qed.

Lemma bytes_leb_antisym a b : bytes_leb a b = true -> bytes_leb b a = true -> a = b.
Proof.
  revert b. induction a as [|x a IH]; intros [|y b]; cbn; try done.
  rewrite !orb_true_iff, !andb_true_iff, !Z.ltb_lt, !Z.eqb_eq. intros H1 H2.
  assert (x = y) as -> by lia. f_equal. apply IH; intuition lia.
Qed.

Lemma bytes_leb_total a b : bytes_leb a b = true \/ bytes_leb b a = true.
Proof.
  revert b. induction a as [|x a IH]; intros [|y b]; cbn; auto.
  rewrite !orb_true_iff, !andb_true_iff, !Z.ltb_lt, !Z.eqb_eq.
  destruct (Z.lt_total x y) as [?|[->|?]]; [auto| |auto].
  destruct (IH b); auto.
Qed.

Lemma bytes_leb_trans a b c : bytes_leb a b = true -> bytes_leb b c = true -> bytes_leb a c = true.
Proof.
  revert b c. induction a as [|x a IH]; intros [|y b] [|z c]; cbn; try done.
  rewrite !orb_true_iff, !andb_true_iff, !Z.ltb_lt, !Z.eqb_eq. intros H1 H2.
  destruct H1 as [?|[-> H1]], H2 as [?|[-> H2]]; [left; lia..|]. right. split; [done|]. by eapply IH.
Qed.

Section cand_order.
Context (provs : gmap bytes CatalogueProvider).

Global Instance cand_le_total : Total (cand_le provs).
Proof.
  intros a b. unfold cand_le, cand_leb. rewrite !orb_true_iff, !andb_true_iff, !Z.ltb_lt, !Z.eqb_eq.
  destruct (Z.lt_total (tier_rank provs a) (tier_rank provs b)) as [?|[E|?]]; [auto| |auto].
  rewrite E. destruct (bytes_leb_total a b); auto.
Qed.

Global Instance cand_le_trans : Transitive (cand_le provs).
Proof.
  intros a b c. unfold cand_le, cand_leb.
  rewrite !orb_true_iff, !andb_true_iff, !Z.ltb_lt, !Z.eqb_eq.
  intros [?|[E1 H1]] [?|[E2 H2]]; [left; lia..|]. right. split; [lia|].
  by eapply bytes_leb_trans.
Qed.

Lemma cand_le_antisym a b : cand_le provs a b -> cand_le provs b a -> a = b.
Proof.
  unfold cand_le, cand_leb. rewrite !orb_true_iff, !andb_true_iff, !Z.ltb_lt, !Z.eqb_eq.
  intros H1 H2. apply bytes_leb_antisym; intuition lia.
Qed.
End cand_order.

(** Strictly before: not after, and another provider. *)
Definition strictly {A} (R : A -> A -> Prop) (a b : A) : Prop := R a b /\ a <> b.

Lemma sorted_impl {A} (R S : relation A) l :
  (forall a b, R a b -> S a b) -> StronglySorted R l -> StronglySorted S l.
Proof.
  intros HRS. induction 1 as [|a l _ IH Hf]; constructor; [done|]. eapply Forall_impl; [done|auto].
Qed.

Lemma dedup_cons2 a b l :
  dedup (a :: b :: l) = if decide (a = b) then dedup (b :: l) else a :: dedup (b :: l).
Proof. done. Qed.

Lemma dedup_elem x l : x ∈ dedup l <-> x ∈ l.
Proof.
  induction l as [|a [|b l] IH]; [done|done|]. rewrite dedup_cons2.
  destruct (decide (a = b)) as [->|]; [rewrite IH; set_solver|].
  rewrite elem_of_cons, IH. set_solver.
Qed.

Lemma dedup_sorted (R : relation bytes) l :
  (forall a b, R a b -> R b a -> a = b) -> StronglySorted R l -> StronglySorted (strictly R) (dedup l).
Proof.
  intros Hanti. induction l as [|a [|b l] IH]; intros Hs; [by constructor|by repeat constructor|].
  apply StronglySorted_inv in Hs as [Hs Ha]. rewrite dedup_cons2.
  destruct (decide (a = b)) as [->|Hne]; [by apply IH|].
  constructor; [by apply IH|]. apply Forall_forall. intros x Hx. rewrite dedup_elem in Hx.
  rewrite Forall_forall in Ha. split; [by apply Ha|]. intros <-.
  apply Hne, Hanti; [by apply Ha; left|].
  apply StronglySorted_inv in Hs as [_ Hb]. rewrite Forall_forall in Hb.
  apply elem_of_cons in Hx as [->|Hx]; [by destruct Hne|by apply Hb].
Qed.

(** * The projection *)

Definition offers_of (n : bytes) (os : list ProvideRuntime) : list ProvideRuntime :=
  List.filter (fun o => bool_decide (pv_name o = n)) os.

Lemma push_offers_lookup id os m n :
  default [] (fold_left (push_offer id) os m !! n) =
  default [] (m !! n) ++ map (fun _ => id) (offers_of n os).
Proof.
  revert m. induction os as [|o os IH]; intros m; cbn [fold_left offers_of List.filter].
  - by rewrite app_nil_r.
  - rewrite IH. unfold push_offer. case_bool_decide as Hn.
    + subst n. rewrite lookup_insert_eq. cbn. by rewrite <- app_assoc.
    + by rewrite lookup_insert_ne.
Qed.

Lemma project_names ps acc n :
  default [] ((fold_left add_provider ps acc).2 !! n) =
  default [] (acc.2 !! n) ++
  flat_map (fun p => map (fun _ => ep_provider p) (offers_of n (ep_provides p))) ps.
Proof.
  revert acc. induction ps as [|p ps IH]; intros acc; cbn [fold_left flat_map].
  - by rewrite app_nil_r.
  - rewrite IH. cbn [snd add_provider]. rewrite push_offers_lookup. by rewrite <- app_assoc.
Qed.

Lemma project_names_elem ps n id :
  id ∈ default [] ((fold_left add_provider ps (∅, ∅)).2 !! n) <->
  exists p o, p ∈ ps /\ ep_provider p = id /\ o ∈ ep_provides p /\ pv_name o = n.
Proof.
  rewrite project_names. cbn. rewrite lookup_empty; cbn. rewrite list_elem_of_In, in_flat_map. split.
  - intros (p & Hp & Hid). apply in_map_iff in Hid as (o & <- & Ho).
    apply filter_In in Ho as [Ho Hn%bool_decide_eq_true]. rewrite <- !list_elem_of_In in *. eauto 10.
  - intros (p & o & Hp & <- & Ho & Hn). exists p. split; [by apply list_elem_of_In|].
    apply in_map_iff. exists o. split; [done|]. apply filter_In.
    split; [by apply list_elem_of_In|by apply bool_decide_eq_true].
Qed.

Lemma project_providers_other ps acc id :
  id ∉ map ep_provider ps -> (fold_left add_provider ps acc).1 !! id = acc.1 !! id.
Proof.
  revert acc. induction ps as [|p ps IH]; intros acc Hid; [done|]. cbn in Hid.
  apply not_elem_of_cons in Hid as [H1 H2]. cbn [fold_left]. rewrite IH by done.
  cbn. destruct (ep_provides p); [done|]. by rewrite lookup_insert_ne.
Qed.

Lemma project_providers ps acc p :
  NoDup (map ep_provider ps) -> p ∈ ps -> ep_provides p <> [] ->
  (fold_left add_provider ps acc).1 !! ep_provider p = Some (catalogued p).
Proof.
  revert acc. induction ps as [|q ps IH]; intros acc Hnd Hp Hne; [by apply not_elem_of_nil in Hp|].
  cbn [map] in Hnd. apply NoDup_cons in Hnd as [Hq Hnd]. cbn [fold_left].
  apply elem_of_cons in Hp as [->|Hp]; [|by apply IH].
  rewrite project_providers_other by done. cbn. destruct (ep_provides q) eqn:E; [done|].
  rewrite lookup_insert_eq. done.
Qed.

(** ** Invariant of a catalogue *)

(** Every name's candidate ids are strictly ordered. *)
Definition cat_ok (c : Catalogue) : Prop :=
  forall n ids, ct_by_name c !! n = Some ids ->
    StronglySorted (strictly (cand_le (ct_providers c))) ids.

Lemma project_ok ps : cat_ok (project ps).
Proof.
  intros n ids. unfold project. destruct (fold_left _ _ _) as [provs names]. cbn.
  rewrite lookup_fmap_Some. intros (l & <- & _). apply dedup_sorted; [apply cand_le_antisym|].
  apply (StronglySorted_merge_sort _).
Qed.

Definition run_events (c : Catalogue) (l : list (bytes * Event)) : Catalogue :=
  fold_left (fun c pe => (apply_event c pe.1 pe.2).1) l c.

Definition readiness_of (c : Catalogue) (p : bytes) : option Readiness :=
  cp_readiness <$> ct_providers c !! p.

(** An event changes one provider's readiness and nothing else. *)
Lemma apply_event_spec c p e :
  let c' := (apply_event c p e).1 in
  ct_by_name c' = ct_by_name c /\
  forall q, ct_providers c' !! q =
    if decide (q = p)
    then (fun x => with_readiness x (raise (cp_readiness x) e)) <$> ct_providers c !! q
    else ct_providers c !! q.
Proof.
  unfold apply_event, raise. destruct (ct_providers c !! p) as [x|] eqn:E; cbn.
  - destruct (on (cp_readiness x) e) as [r|] eqn:Eo; cbn; split; try done; intros q.
    + destruct (decide (q = p)) as [->|]; [|by rewrite lookup_insert_ne].
      by rewrite lookup_insert_eq, E; cbn; rewrite Eo.
    + destruct (decide (q = p)) as [->|]; [|done]. rewrite E; cbn. rewrite Eo. by destruct x.
  - split; [done|]. intros q. destruct (decide (q = p)) as [->|]; [|done]. by rewrite E.
Qed.

Lemma tier_rank_event c p e id :
  tier_rank (ct_providers (apply_event c p e).1) id = tier_rank (ct_providers c) id.
Proof.
  destruct (apply_event_spec c p e) as [_ H]. unfold tier_rank. rewrite H.
  case_decide; [|done]. by destruct (ct_providers c !! id).
Qed.

Lemma apply_event_ok c p e : cat_ok c -> cat_ok (apply_event c p e).1.
Proof.
  intros Hc n ids. destruct (apply_event_spec c p e) as [-> _]. intros Hi.
  specialize (Hc n ids Hi). revert Hc. apply sorted_impl.
  intros a b [H Hne]. split; [|done]. unfold cand_le, cand_leb in *. by rewrite !tier_rank_event.
Qed.

Lemma run_events_ok c l : cat_ok c -> cat_ok (run_events c l).
Proof.
  revert c. induction l as [|[p e] l IH]; intros c Hc; [done|]. cbn. by apply IH, apply_event_ok.
Qed.

(** The events addressed to one provider. *)
Definition events_for (p : bytes) (l : list (bytes * Event)) : list Event :=
  map snd (List.filter (fun pe => bool_decide (pe.1 = p)) l).

Lemma run_events_readiness c l p :
  readiness_of (run_events c l) p =
  (fun r => fold_left raise (events_for p l) r) <$> readiness_of c p.
Proof.
  revert c. induction l as [|[q e] l IH]; intros c.
  - unfold events_for; cbn. by destruct (readiness_of c p).
  - change (run_events c ((q, e) :: l)) with (run_events (apply_event c q e).1 l). rewrite IH.
    destruct (apply_event_spec c q e) as [_ H]. unfold readiness_of, events_for. rewrite H.
    cbn [List.filter fst]. destruct (decide (p = q)) as [->|Hne].
    + rewrite bool_decide_true by done. cbn. by destruct (ct_providers c !! q).
    + by rewrite bool_decide_false by done.
Qed.

Lemma raise_failed l : fold_left raise l Failed = Failed.
Proof. induction l as [|[] l IH]; done. Qed.

(** ** Candidates *)

Definition tier_num (t : Tier) : Z := match t with User => 1 | Host => 2 end.
(** Preference among candidates: per-user before per-host, then by id. *)
Definition preferred (a b : Candidate) : Prop :=
  (tier_num (ca_tier a) < tier_num (ca_tier b) \/
   (ca_tier a = ca_tier b /\ bytes_leb (ca_provider a) (ca_provider b) = true)) /\
  ca_provider a <> ca_provider b.

Lemma candidate_of_Some c n id x :
  candidate_of c n id = Some x -> ca_provider x = id /\ tier_rank (ct_providers c) id = tier_num (ca_tier x).
Proof.
  unfold candidate_of, tier_rank. destruct (ct_providers c !! id) as [p|]; cbn; [|done].
  destruct (List.find _ _); cbn; [|done]. intros [= <-]. cbn. by destruct (cp_tier p).
Qed.

Lemma resolve_sorted c n : cat_ok c -> StronglySorted preferred (resolve c n).
Proof.
  intros Hc. unfold resolve. destruct (ct_by_name c !! n) as [ids|] eqn:E; [|constructor].
  specialize (Hc n ids E). clear E. induction Hc as [|id ids Hs IH Hf]; [constructor|]. cbn.
  destruct (candidate_of c n id) as [x|] eqn:Ex; [|done]. constructor; [done|].
  apply Forall_forall. intros y Hy. apply list_elem_of_omap in Hy as (id' & Hid' & Ey).
  rewrite Forall_forall in Hf. destruct (Hf id' Hid') as [Hle Hne].
  apply candidate_of_Some in Ex as [<- Rx], Ey as [<- Ry]. split; [|done].
  unfold cand_le, cand_leb in Hle. rewrite Rx, Ry in Hle.
  rewrite orb_true_iff, andb_true_iff, Z.ltb_lt, Z.eqb_eq in Hle.
  destruct Hle as [?|[? ?]]; [by left|right]. split; [|done]. by destruct (ca_tier x), (ca_tier y).
Qed.

Lemma find_least {A} (R : relation A) (P : A -> bool) l x :
  StronglySorted R l -> List.find P l = Some x ->
  x ∈ l /\ P x = true /\ forall y, y ∈ l -> P y = true -> y = x \/ R x y.
Proof.
  induction 1 as [|a l Hs IH Hf]; cbn; [done|]. destruct (P a) eqn:Pa.
  - intros [= <-]. split_and!; [by left|done|]. intros y Hy Py.
    apply elem_of_cons in Hy as [->|Hy]; [by left|right]. rewrite Forall_forall in Hf. auto.
  - intros Hfind. destruct (IH Hfind) as (Hx & Px & Hleast). split_and!; [by right|done|].
    intros y Hy Py. apply elem_of_cons in Hy as [->|Hy]; [congruence|auto].
Qed.

(** * Properties *)

(** The catalogue runs the readiness machine of each provider on the events
    addressed to it and on no others, leaving membership alone; a provider that
    is [Failed] stays [Failed] whatever supervision events follow. *)
Theorem catalogue_runs_machine (c : Catalogue) (l : list (bytes * Event)) (p : bytes) :
  readiness_of (run_events c l) p =
    ((fun r => fold_left raise (events_for p l) r) <$> readiness_of c p) /\
  (readiness_of c p = Some Failed -> readiness_of (run_events c l) p = Some Failed) /\
  ct_by_name (run_events c l) = ct_by_name c.
Proof.
  split_and!; [apply run_events_readiness| |].
  - intros H. rewrite run_events_readiness, H. cbn. by rewrite raise_failed.
  - revert c. induction l as [|[q e] l IH]; intros c; [done|].
    change (run_events c ((q, e) :: l)) with (run_events (apply_event c q e).1 l). rewrite IH.
    apply apply_event_spec.
Qed.

(** Resolution finds every enabled provider of a name and nothing else: with
    distinct provider ids, the candidates of a name in a freshly projected
    catalogue are the providers with an offer of that name, each once, with its
    first such offer, all pending, per-user before per-host and then by id. *)
Theorem resolve_exact (ps : list EnabledProvider) (n : bytes) :
  NoDup (map ep_provider ps) ->
  StronglySorted preferred (resolve (project ps) n) /\
  forall x, x ∈ resolve (project ps) n <->
    exists p o, p ∈ ps /\
      List.find (fun o => bool_decide (pv_name o = n)) (ep_provides p) = Some o /\
      x = {| ca_provider := ep_provider p; ca_shape := pv_shape o; ca_endpoint := pv_endpoint o;
             ca_key := pv_key o; ca_tier := ep_tier p; ca_enablement := ep_enablement p;
             ca_readiness := Pending |}.
Proof.
  intros Hnd. split; [apply resolve_sorted, project_ok|]. intros x. unfold resolve, project.
  pose proof (project_names_elem ps n) as Hn.
  pose proof (fun p => project_providers ps (∅, ∅) p Hnd) as Hp.
  destruct (fold_left add_provider ps (∅, ∅)) as [provs names]. cbn in *. rewrite lookup_fmap.
  assert (forall id, id ∈ default [] ((fun ids => dedup (merge_sort (cand_le provs) ids)) <$>
    names !! n) <-> exists p o, p ∈ ps /\ ep_provider p = id /\ o ∈ ep_provides p /\ pv_name o = n)
    as Hids.
  { intros id. rewrite <- Hn. destruct (names !! n) as [ids|]; cbn; [|done].
    rewrite dedup_elem. by rewrite merge_sort_Permutation. }
  clear Hn. set (c := {| ct_providers := provs |}).
  assert (forall p, p ∈ ps -> candidate_of c n (ep_provider p) =
    (o ← List.find (fun o => bool_decide (pv_name o = n)) (ep_provides p);
     Some {| ca_provider := ep_provider p; ca_shape := pv_shape o; ca_endpoint := pv_endpoint o;
             ca_key := pv_key o; ca_tier := ep_tier p; ca_enablement := ep_enablement p;
             ca_readiness := Pending |}) \/ ep_provides p = []) as Hcand.
  { intros p Hin. destruct (decide (ep_provides p = [])); [by right|left].
    unfold candidate_of. cbn. by rewrite Hp. }
  transitivity (exists id, id ∈ default [] ((fun ids => dedup (merge_sort (cand_le provs) ids)) <$>
    names !! n) /\ candidate_of c n id = Some x).
  { destruct (names !! n) as [ids|]; cbn.
    - apply list_elem_of_omap.
    - split; [by intros ?%not_elem_of_nil|]. by intros (id & ?%not_elem_of_nil & _). }
  split.
  - intros (id & Hid & Hx). apply Hids in Hid as (p & o & Hin & <- & Ho & Hname).
    destruct (Hcand p Hin) as [Hc|He]; [|by rewrite He in Ho; apply not_elem_of_nil in Ho].
    rewrite Hc in Hx. destruct (List.find _ _) as [o'|] eqn:Ef; [|done]. injection Hx as <-. eauto.
  - intros (p & o & Hin & Hf & ->). destruct (find_some _ _ Hf) as [Ho Hname%bool_decide_eq_true].
    apply list_elem_of_In in Ho. exists (ep_provider p). split; [apply Hids; eauto 10|].
    destruct (Hcand p Hin) as [Hc|He]; [by rewrite Hc, Hf|].
    rewrite He in Ho. by apply not_elem_of_nil in Ho.
Qed.

(** C32: The broker connects a consumer only under its own signed grant, to the
    preferred eligible provider and to no other: without a [[consumes]] of the
    name it refuses; otherwise it picks the candidate that agrees on the shape
    and holds the identical key and comes before every other such candidate,
    and reports that one's readiness, serving only if it is [Ready] and never
    falling back to a candidate behind it. *)
Theorem broker_selects_preferred (ps : list EnabledProvider) (evs : list (bytes * Event))
    (consumes : list ConsumeRuntime) (n : bytes) :
  let c := run_events (project ps) evs in
  match List.find (fun k => bool_decide (cn_name k = n)) consumes with
  | None => broker_decide consumes c n = NoGrant
  | Some k =>
      (broker_decide consumes c n = NoProvider /\
       forall x, x ∈ resolve c n -> eligible k x = false) \/
      exists x, x ∈ resolve c n /\ ca_shape x = cn_shape k /\ ca_key x = cn_key k /\
        (forall y, y ∈ resolve c n -> eligible k y = true -> y = x \/ preferred x y) /\
        broker_decide consumes c n =
          match ca_readiness x with
          | Ready => BReady (selected_of x)
          | Pending => BPending (selected_of x)
          | Failed => NotServing
          end
  end.
Proof.
  intros c. unfold broker_decide. destruct (List.find _ consumes) as [k|]; [|done].
  assert (StronglySorted preferred (resolve c n)) as Hs
    by apply resolve_sorted, run_events_ok, project_ok.
  destruct (List.find (eligible k) (resolve c n)) as [x|] eqn:E.
  - right. exists x. destruct (find_least _ _ _ _ Hs E) as (Hx & He & Hleast).
    unfold eligible, key_compatible in He. rewrite andb_true_iff, !bool_decide_eq_true in He.
    destruct He as [Hsh Hk]. by split_and!.
  - left. split; [done|]. intros x Hx. eapply find_none; [done|]. by apply list_elem_of_In.
Qed.

(** ** Restarts *)

Lemma backoff_doubles initial n :
  0 <= initial -> 0 <= n -> backoff initial n = Z.min (initial * 2 ^ n) BACKOFF_CAP_MS.
Proof.
  intros Hi Hn. unfold backoff, sat_mul, shl_or_max, BACKOFF_CAP_MS, u64_max.
  destruct (Z.ltb_spec n 64); [lia|].
  assert (2 ^ 64 <= 2 ^ n) by (apply Z.pow_le_mono_r; lia).
  destruct (Z.eq_dec initial 0) as [->|]; [lia|]. nia.
Qed.

Lemma on_exit_restart service clean n d :
  on_exit service clean n = RestartAfter d ->
  n < sv_max_attempts service /\ d = backoff (sv_backoff_ms service) n.
Proof.
  unfold on_exit. intros H. destruct (negb _); [by destruct clean|].
  destruct (Z.leb_spec (sv_max_attempts service) n); [done|]. by injection H as <-.
Qed.

(** What holds of the supervision state at the head of the loop. *)
Definition sup_ok (service : ServiceRuntime) (s : SupState) : Prop :=
  0 <= ss_restarts s <= sv_max_attempts service /\
  ss_delays s = map (fun i => Z.min (sv_backoff_ms service * 2 ^ Z.of_nat i) BACKOFF_CAP_MS)
    (seq 0 (Z.to_nat (ss_restarts s))) /\
  ss_readiness s <> Ready.

Lemma supervise_turn_ok service s o :
  in_u32 (sv_max_attempts service) -> 0 <= sv_backoff_ms service -> sup_ok service s ->
  match supervise_turn service s o with
  | inr s' => sup_ok service s'
  | inl s' => sup_ok service s' /\ ss_restarts s' = ss_restarts s + 1
  end.
Proof.
  intros Hm Hb (Hr & Hd & Hn). unfold supervise_turn.
  destruct (ro_sink o); [|cbn; unfold sup_ok; auto]. cbn [negb].
  destruct (read_outcome _ _) as [r clean].
  destruct (ro_reaped o); [unfold sup_ok; cbn; split_and!; [lia|lia|done|by destruct r]|].
  destruct (on_exit service clean (ss_restarts s)) as [d| |] eqn:E.
  - apply on_exit_restart in E as [Hlt ->].
    replace (sat_add u32_max (ss_restarts s) 1) with (ss_restarts s + 1)
      by (unfold sat_add; in_range).
    split; [|done]. unfold sup_ok; cbn [ss_restarts ss_delays ss_readiness].
    split_and!; [lia|lia| |by destruct r].
    replace (Z.to_nat (ss_restarts s + 1)) with (S (Z.to_nat (ss_restarts s))) by lia.
    rewrite seq_S, map_app, <- Hd, Nat.add_0_l. cbn. rewrite Z2Nat.id by lia.
    by rewrite backoff_doubles by lia.
  - unfold sup_ok; cbn; split_and!; [lia|lia|done|by destruct r].
  - unfold sup_ok; cbn; split_and!; [lia|lia|done|by destruct r].
Qed.

Lemma supervise_ok service run fuel n s :
  in_u32 (sv_max_attempts service) -> 0 <= sv_backoff_ms service -> sup_ok service s ->
  sv_max_attempts service - ss_restarts s < Z.of_nat fuel ->
  exists s', supervise service run fuel n s = Some s' /\ sup_ok service s'.
Proof.
  intros Hm Hb. revert n s. induction fuel as [|fuel IH]; intros n s Hs Hf.
  { destruct Hs as [Hr _]. lia. }
  cbn. pose proof (supervise_turn_ok service s (run n) Hm Hb Hs) as Ht.
  destruct (supervise_turn service s (run n)) as [s'|s']; [|eauto].
  destruct Ht as [Ht Hr]. apply IH; [done|lia].
Qed.

Definition sup_init : SupState := {| ss_readiness := Pending; ss_restarts := 0; ss_delays := [] |}.

(** Supervision ends, within the restart budget: whatever the provider's runs
    do, the loop returns after at most [max_attempts] restarts; the delays slept
    are the initial delay doubled each time, none above 30 seconds; and the
    provider is not left marked ready. *)
Theorem supervision_bounded (service : ServiceRuntime) (run : nat -> RunOutcome) :
  in_u32 (sv_max_attempts service) -> 0 <= sv_backoff_ms service ->
  exists s, supervise service run (S (Z.to_nat (sv_max_attempts service))) 0 sup_init = Some s /\
    0 <= ss_restarts s <= sv_max_attempts service /\
    ss_delays s = map (fun i => Z.min (sv_backoff_ms service * 2 ^ Z.of_nat i) BACKOFF_CAP_MS)
      (seq 0 (Z.to_nat (ss_restarts s))) /\
    ss_readiness s <> Ready.
Proof.
  intros Hm Hb. apply supervise_ok; [done..| |].
  - unfold sup_ok, sup_init; cbn. split_and!; [done|in_range|done..].
  - cbn. in_range.
Qed.

Lemma supervision_bounded_witness :
  exists s, supervise {| sv_restart := Always; sv_backoff_ms := 500; sv_max_attempts := 3 |}
      (fun _ => {| ro_sink := true; ro_responses := [Resp_Started 1 9 false; Resp_Exited 1];
                   ro_reaped := false |}) 4 0 sup_init = Some s /\
    0 <= ss_restarts s <= 3 /\ ss_delays s = [500; 1000; 2000] /\ ss_readiness s <> Ready.
Proof.
  destruct (supervision_bounded {| sv_restart := Always; sv_backoff_ms := 500; sv_max_attempts := 3 |}
      (fun _ => {| ro_sink := true; ro_responses := [Resp_Started 1 9 false; Resp_Exited 1];
                   ro_reaped := false |})) as (s & Hs & Hr & Hd & Hn); [vm_compute; done..|].
  exists s. split_and!; [exact Hs|apply Hr|apply Hr| |exact Hn].
  vm_compute in Hs. by injection Hs as <-.
Defined.

(** A run that came up, served and then failed. *)
Definition served_then_failed (o : RunOutcome) : Prop :=
  ro_sink o = true /\ ro_reaped o = false /\
  exists ctx pid fe code l, ro_responses o = Resp_Started ctx pid fe :: Resp_Exited code :: l /\ code <> 0.

Lemma turn_served_then_failed service s o :
  sv_restart service <> Never -> served_then_failed o -> ss_readiness s = Pending ->
  supervise_turn service s o =
    if sv_max_attempts service <=? ss_restarts s
    then inr {| ss_readiness := Failed; ss_restarts := ss_restarts s; ss_delays := ss_delays s |}
    else inl {| ss_readiness := Pending; ss_restarts := sat_add u32_max (ss_restarts s) 1;
                ss_delays := ss_delays s ++ [backoff (sv_backoff_ms service) (ss_restarts s)] |}.
Proof.
  intros Hp (Hs & Hr & ctx & pid & fe & code & l & Hl & Hc) Hpend. unfold supervise_turn.
  rewrite Hs, Hr, Hl, Hpend. cbn. unfold on_exit.
  assert ((code =? 0) = false) as -> by lia.
  destruct (sv_restart service); cbn; try done; by destruct (_ <=? _).
Qed.

Lemma supervise_served_then_failed service run fuel n s :
  in_u32 (sv_max_attempts service) -> sv_restart service <> Never ->
  (forall i, served_then_failed (run i)) -> ss_readiness s = Pending ->
  0 <= ss_restarts s <= sv_max_attempts service ->
  sv_max_attempts service - ss_restarts s < Z.of_nat fuel ->
  exists s', supervise service run fuel n s = Some s' /\ ss_readiness s' = Failed /\
    ss_restarts s' = sv_max_attempts service.
Proof.
  intros Hm Hp Hrun. revert n s. induction fuel as [|fuel IH]; intros n s Hpend Hr Hf; [lia|].
  cbn [supervise]. rewrite turn_served_then_failed by done.
  destruct (Z.leb_spec (sv_max_attempts service) (ss_restarts s)).
  - eexists. split_and!; [done|done|]. cbn. lia.
  - apply IH; [done|..]; cbn [ss_restarts]; unfold sat_add; in_range.
Qed.

(** The restart budget is for the life of the supervision, not for a window of
    it: a restartable provider whose every run comes up, serves for however long
    and then exits with a failure is restarted exactly [max_attempts] times and
    then declared failed. *)
Theorem restart_budget_is_lifetime (service : ServiceRuntime) (run : nat -> RunOutcome) :
  in_u32 (sv_max_attempts service) -> sv_restart service <> Never ->
  (forall i, served_then_failed (run i)) ->
  exists s, supervise service run (S (Z.to_nat (sv_max_attempts service))) 0 sup_init = Some s /\
    ss_readiness s = Failed /\ ss_restarts s = sv_max_attempts service.
Proof.
  intros Hm Hp Hrun. apply supervise_served_then_failed; [done..| |]; cbn; in_range.
Qed.

Lemma restart_budget_is_lifetime_witness :
  exists s, supervise {| sv_restart := OnFailure; sv_backoff_ms := 500; sv_max_attempts := 2 |}
      (fun _ => {| ro_sink := true; ro_responses := [Resp_Started 1 9 false; Resp_Exited 1];
                   ro_reaped := false |}) 3 0 sup_init = Some s /\
    ss_readiness s = Failed /\ ss_restarts s = 2.
Proof.
  apply (restart_budget_is_lifetime
    {| sv_restart := OnFailure; sv_backoff_ms := 500; sv_max_attempts := 2 |}
    (fun _ => {| ro_sink := true; ro_responses := [Resp_Started 1 9 false; Resp_Exited 1];
                 ro_reaped := false |})); [vm_compute; done|done|].
  intros _. split_and!; [done..|]. by exists 1, 9, false, 1, [].
Defined.

(** ** The activation guard *)

(** One activation or thread per guarded name, none for any other. *)
Definition act_inv (s : ActState) : Prop :=
  NoDup (ac_spawning s ++ ac_live s) /\
  forall p, p ∈ ac_started s <-> p ∈ ac_spawning s ++ ac_live s.

Lemma act_inv_init : act_inv act_init.
Proof. split; [constructor|]. intros p. cbn. set_solver. Qed.

(** Dropping one entry of the list drops exactly that name. *)
Lemma NoDup_drop_mid (l k : list bytes) (p q : bytes) :
  NoDup (l ++ p :: k) -> NoDup (l ++ k) /\ (q ∈ l ++ k <-> q ∈ l ++ p :: k /\ q <> p).
Proof.
  intros H. assert (NoDup (p :: l ++ k)) as H2 by (by rewrite Permutation_middle).
  apply NoDup_cons in H2 as [Hp H2]. split; [done|]. set_solver.
Qed.

Lemma act_step_inv ond s s' : act_step ond s s' -> act_inv s -> act_inv s'.
Proof.
  intros Hstep [Hnd Hin].
  destruct Hstep as [s p Hp|s p Hp|s p l k Hl Hp|s p l k Hl Hp|s p l k Hl]; unfold act_inv; cbn.
  - done.
  - split.
    + constructor; [|done]. by rewrite <- Hin.
    + set_solver.
  - rewrite Hl in Hnd, Hin. split.
    + by rewrite <- Permutation_middle, app_comm_cons, (Permutation_middle l k p).
    + intros q. rewrite Hin. set_solver.
  - rewrite Hl in Hnd, Hin. rewrite <- app_assoc in *. cbn in *. split.
    + eapply (NoDup_drop_mid l (k ++ ac_live s) p p); done.
    + intros q. rewrite (proj2 (NoDup_drop_mid _ _ p q Hnd)). set_solver.
  - rewrite Hl in Hnd, Hin. rewrite app_assoc in Hnd. split.
    + rewrite app_assoc. eapply (NoDup_drop_mid _ _ p p); done.
    + intros q. rewrite app_assoc, (proj2 (NoDup_drop_mid _ _ p q Hnd)). set_solver.
Qed.

Lemma act_reachable_inv ond s : rtc (act_step ond) act_init s -> act_inv s.
Proof.
  intros H. assert (forall a, rtc (act_step ond) a s -> act_inv a -> act_inv s) as Hr.
  { intros a. induction 1; eauto using act_step_inv. }
  eapply Hr; [done|apply act_inv_init].
Qed.

(** Without an idle reap the activation guard does what it is for: in every
    state the activator can reach by any interleaving of consumes, thread starts
    and thread returns, each provider has at most one activation in flight or
    supervision thread, and a name is guarded exactly while it has one. *)
Theorem activation_single_thread (ondemand : gset bytes) (s : ActState) :
  rtc (act_step ondemand) act_init s ->
  NoDup (ac_spawning s ++ ac_live s) /\
  forall p, p ∈ ac_started s <-> p ∈ ac_spawning s ++ ac_live s.
Proof. apply act_reachable_inv. Qed.

(** One provider up, through its activation. *)
Definition sample_act : ActState :=
  {| ac_started := {[ [112] ]} ∪ ∅; ac_spawning := []; ac_live := [[112]] |}.

Lemma activation_single_thread_witness :
  NoDup (ac_spawning sample_act ++ ac_live sample_act) /\
  forall p, p ∈ ac_started sample_act <-> p ∈ ac_spawning sample_act ++ ac_live sample_act.
Proof.
  apply (activation_single_thread {[ [112] ]} sample_act).
  eapply rtc_l; [apply (act_insert _ act_init [112]); set_solver|].
  eapply rtc_l; [apply (act_spawn _ _ [112] [] []); [done|set_solver]|]. apply rtc_refl.
Defined.

(** One activation from cold, through to its thread, for a provider that has no
    guard entry. *)
Lemma act_cold (ond : gset bytes) s p :
  p ∈ ond -> p ∉ ac_started s -> ac_spawning s = [] ->
  rtc (act_step ond) s {| ac_started := {[p]} ∪ ac_started s; ac_spawning := [];
                          ac_live := p :: ac_live s |}.
Proof.
  intros Ho Hp Hs. eapply rtc_l; [by apply (act_insert _ s p)|]. rewrite Hs.
  eapply rtc_l; [by apply (act_spawn _ _ p [] [])|]. apply rtc_refl.
Qed.

(** An idle reap breaks the guard: for every [ondemand] provider, a consume,
    an idle reap of the running provider and another consume before the first
    thread has returned leave two supervision threads for it; and when the first
    of them returns, the name is no longer guarded although the second is live. *)
Theorem idle_reap_admits_second_thread (ondemand : gset bytes) (p : bytes) :
  p ∈ ondemand ->
  exists s1 s2 s3 s4,
    rtc (act_step ondemand) act_init s1 /\ reap_step s1 s2 /\
    rtc (act_step ondemand) s2 s3 /\ ac_live s3 = [p; p] /\
    act_step ondemand s3 s4 /\ ac_live s4 = [p] /\ p ∉ ac_started s4.
Proof.
  intros Ho. do 4 eexists. split_and!.
  - apply (act_cold _ _ p); [done|cbn; set_solver|done].
  - apply (act_reap _ p).
  - apply (act_cold _ _ p); [done|cbn; set_solver|done].
  - done.
  - by apply (act_return _ _ p [] [p]).
  - done.
  - cbn. set_solver.
Qed.

Lemma idle_reap_admits_second_thread_witness :
  exists s1 s2 s3 s4,
    rtc (act_step {[ [112] ]}) act_init s1 /\ reap_step s1 s2 /\
    rtc (act_step {[ [112] ]}) s2 s3 /\ ac_live s3 = [[112]; [112]] /\
    act_step {[ [112] ]} s3 s4 /\ ac_live s4 = [[112]] /\ [112] ∉ ac_started s4.
Proof. apply (idle_reap_admits_second_thread {[ [112] ]} [112]). set_solver. Defined.

(** ** Witnesses for the catalogue *)

Definition sample_offer : ProvideRuntime :=
  {| pv_name := [99]; pv_shape := AfUnix; pv_endpoint := [47; 115]; pv_key := None |}.
Definition sample_provider (id : Z) (t : Tier) : EnabledProvider :=
  {| ep_provider := [id]; ep_signing_key_id := [107]; ep_tier := t; ep_enablement := Ondemand;
     ep_provides := [sample_offer] |}.
Definition sample_providers : list EnabledProvider :=
  [sample_provider 98 Host; sample_provider 97 Host; sample_provider 122 User].

Lemma resolve_exact_witness :
  StronglySorted preferred (resolve (project sample_providers) [99]) /\
  map ca_provider (resolve (project sample_providers) [99]) = [[122]; [97]; [98]].
Proof.
  split; [|vm_compute; done]. apply (resolve_exact sample_providers [99]).
  cbn. repeat constructor; set_solver.
Defined.

Lemma catalogue_runs_machine_witness :
  readiness_of (run_events (project sample_providers)
    [([97], ConstructionFailed); ([98], ConstructionSucceeded); ([97], ConstructionSucceeded)]) [97] =
  Some Failed.
Proof.
  apply (catalogue_runs_machine
    (run_events (project sample_providers) [([97], ConstructionFailed)])
    [([98], ConstructionSucceeded); ([97], ConstructionSucceeded)] [97]).
  vm_compute. done.
Defined.
