(* ===== verification/TunPool.v ===== *)
(** The UDP-egress broker's bookkeeping: the flow table and the new-flow token
    bucket ([kennel-tun-broker/src/table.rs]), the allowlist and the pool of
    synthetic addresses ([kennel-tun-broker/src/shim.rs]).

    Instants and durations are nanoseconds; a connected socket is its peer.  The
    hash maps are finite maps; where the source iterates one ([sweep], the choice
    of the mint to evict) the order is that of [map_to_list], and the lemmas show
    that the result does not depend on it.

    Theorems: the pool's window and ceilings hold after any queries, a synthetic
    address never stands for two names, and an eviction takes the least recently
    used mint without a live flow; the bucket bounds the new flows of any interval. *)

From S2P Require Import Prelude Bytes Plan Settled Egress.
From stdpp Require Import gmap.
Open Scope Z_scope.

(** ** The flow table *)

Record FlowKey : Type := { fk_synthetic : bytes; fk_dst_port : Z; fk_src_port : Z }.

Global Instance FlowKey_eq_dec : EqDecision FlowKey.
Proof. solve_decision. Defined.
Global Instance FlowKey_countable : Countable FlowKey.
Proof.
  refine (inj_countable' (fun k => (fk_synthetic k, fk_dst_port k, fk_src_port k))
    (fun t => {| fk_synthetic := t.1.1; fk_dst_port := t.1.2; fk_src_port := t.2 |}) _).
  by intros [].
Defined.

(** A connected [UdpSocket]: the peer it is pinned to. *)
Record Sock : Type := { sk_addr : ip_addr; sk_port : Z }.
Record Flow : Type := { fl_socket : Sock; fl_last_seen : Z }.

Record FlowTable : Type := {
  ft_max_flows : Z; ft_idle_timeout : Z; ft_flows : gmap FlowKey Flow;
}.

Definition table_new (max_flows idle_timeout : Z) : FlowTable :=
  {| ft_max_flows := max_flows; ft_idle_timeout := idle_timeout; ft_flows := ∅ |}.

Definition with_flows (t : FlowTable) (m : gmap FlowKey Flow) : FlowTable :=
  {| ft_max_flows := ft_max_flows t; ft_idle_timeout := ft_idle_timeout t; ft_flows := m |}.

Definition touch (t : FlowTable) (key : FlowKey) (now : Z) : FlowTable * option Sock :=
  match ft_flows t !! key with
  | None => (t, None)
  | Some f => (with_flows t (<[key := {| fl_socket := fl_socket f; fl_last_seen := now |}]> (ft_flows t)),
               Some (fl_socket f))
  end.

Inductive AtCapacity : Type := At_Capacity.

Definition admit_flow (t : FlowTable) (key : FlowKey) (socket : Sock) (now : Z) :
    FlowTable * result AtCapacity unit :=
  if negb (bool_decide (is_Some (ft_flows t !! key))) &&
     (ft_max_flows t <=? Z.of_nat (size (ft_flows t)))
  then (t, Err At_Capacity)
  else (with_flows t (<[key := {| fl_socket := socket; fl_last_seen := now |}]> (ft_flows t)), Ok tt).

(** [now.saturating_duration_since(flow.last_seen) >= idle]. *)
Definition expired (idle now : Z) (f : Flow) : bool := idle <=? sat_sub now (fl_last_seen f).

Definition sweep (t : FlowTable) (now : Z) : FlowTable * list FlowKey :=
  let gone := map fst (List.filter (fun kf => expired (ft_idle_timeout t) now kf.2)
                         (map_to_list (ft_flows t))) in
  (with_flows t (fold_left (fun m k => delete k m) gone (ft_flows t)), gone).

Definition remove_flow (t : FlowTable) (key : FlowKey) : FlowTable :=
  with_flows t (delete key (ft_flows t)).

Definition live_synthetics (t : FlowTable) : gset bytes :=
  list_to_set (map (fun kf => fk_synthetic kf.1) (map_to_list (ft_flows t))).

(** ** The token bucket *)

Definition NS_PER_MS : Z := 1000000.

Record TokenBucket : Type := { tb_capacity : Z; tb_tokens : Z; tb_refill_per_sec : Z; tb_last : Z }.

Definition bucket_new (capacity refill_per_sec now : Z) : TokenBucket :=
  {| tb_capacity := capacity; tb_tokens := capacity; tb_refill_per_sec := refill_per_sec;
     tb_last := now |}.

Definition refill (b : TokenBucket) (now : Z) : TokenBucket :=
  if tb_refill_per_sec b =? 0 then b else
  let elapsed_ms := sat_sub now (tb_last b) / NS_PER_MS in
  let credited := elapsed_ms * tb_refill_per_sec b / 1000 in
  if credited =? 0 then b else
  let credited := sat_u32 credited in
  let consumed_ms := credited * 1000 / tb_refill_per_sec b in
  {| tb_capacity := tb_capacity b;
     tb_tokens := Z.min (sat_add u32_max (tb_tokens b) credited) (tb_capacity b);
     tb_refill_per_sec := tb_refill_per_sec b;
     tb_last := tb_last b + consumed_ms * NS_PER_MS |}.

Definition try_take (b : TokenBucket) (now : Z) : TokenBucket * bool :=
  let b := refill b now in
  if 1 <=? tb_tokens b
  then ({| tb_capacity := tb_capacity b; tb_tokens := tb_tokens b - 1;
           tb_refill_per_sec := tb_refill_per_sec b; tb_last := tb_last b |}, true)
  else (b, false).

(** ** The allowlist *)

Fixpoint position {A} (f : A -> bool) (l : list A) : option nat :=
  match l with
  | [] => None
  | x :: l => if f x then Some O else S <$> position f l
  end.

Definition first_match (rules : list NameRule) (name : bytes) : option nat :=
  position (fun r => name_matches (nn_name r) name) rules.
Definition allows_name (rules : list NameRule) (name : bytes) : bool :=
  bool_decide (is_Some (first_match rules name)).
Definition port_permitted (ports : list Z) (port : Z) : bool :=
  match ports with [] => true | _ => bool_decide (port ∈ ports) end.
Definition allows (rules : list NameRule) (name : bytes) (port : Z) : bool :=
  existsb (fun r => name_matches (nn_name r) name && port_permitted (nn_ports r) port) rules.

(** ** The synthetic pool *)

Definition FIRST_POOL_HOST : Z := 16.
Definition MAX_POOL : Z := 4096.
Definition MAX_PER_GRANT : Z := 32.

Record Mint : Type := { mt_addr : bytes; mt_grant : nat; mt_last_use : Z }.
Record Pool : Type := {
  po_prefix : bytes; po_next_host : Z; po_mapping : gmap bytes Mint;
  po_per_grant : gmap nat Z; po_tick : Z;
}.

Definition pool_new (prefix : bytes) : Pool :=
  {| po_prefix := prefix; po_next_host := FIRST_POOL_HOST; po_mapping := ∅; po_per_grant := ∅;
     po_tick := 0 |}.

Definition synthetic (prefix : bytes) (host : Z) : bytes := prefix ++ be_bytes 8 host.

(** [Iterator::min_by_key]: the first of the least. *)
Fixpoint min_by_key {A} (f : A -> Z) (l : list A) : option A :=
  match l with
  | [] => None
  | x :: l => match min_by_key f l with
              | None => Some x
              | Some y => Some (if f x <=? f y then x else y)
              end
  end.

(** The mints of [grant] that carry no live flow. *)
Definition evictable (p : Pool) (grant : nat) (live : gset bytes) : list (bytes * Mint) :=
  List.filter (fun nm => bool_decide (mt_grant nm.2 = grant) && negb (bool_decide (mt_addr nm.2 ∈ live)))
    (map_to_list (po_mapping p)).

Definition evict (p : Pool) (grant : nat) (live : gset bytes) : option Pool :=
  victim ← fst <$> min_by_key (fun nm => mt_last_use nm.2) (evictable p grant live);
  Some {| po_prefix := po_prefix p; po_next_host := po_next_host p;
          po_mapping := delete victim (po_mapping p);
          po_per_grant := alter (fun c => sat_sub c 1) grant (po_per_grant p);
          po_tick := po_tick p |}.

Definition ticked (p : Pool) : Pool :=
  {| po_prefix := po_prefix p; po_next_host := po_next_host p; po_mapping := po_mapping p;
     po_per_grant := po_per_grant p; po_tick := sat_add u64_max (po_tick p) 1 |}.

(** The name is there: its recency is touched. *)
Definition touch_mint (p : Pool) (name : bytes) (m : Mint) : Pool :=
  {| po_prefix := po_prefix p; po_next_host := po_next_host p;
     po_mapping := <[name := {| mt_addr := mt_addr m; mt_grant := mt_grant m;
                                mt_last_use := po_tick p |}]> (po_mapping p);
     po_per_grant := po_per_grant p; po_tick := po_tick p |}.

Definition insert_mint (p : Pool) (name : bytes) (grant : nat) : Pool :=
  {| po_prefix := po_prefix p; po_next_host := sat_add u64_max (po_next_host p) 1;
     po_mapping := <[name := {| mt_addr := synthetic (po_prefix p) (po_next_host p);
                                mt_grant := grant; mt_last_use := po_tick p |}]> (po_mapping p);
     po_per_grant := <[grant := sat_add usize_max (default 0 (po_per_grant p !! grant)) 1]>
                       (po_per_grant p);
     po_tick := po_tick p |}.

Definition mint (p : Pool) (name : bytes) (grant : nat) (live : gset bytes) : Pool * option bytes :=
  let p := ticked p in
  match po_mapping p !! name with
  | Some m => (touch_mint p name m, Some (mt_addr m))
  | None =>
      if MAX_POOL <=? Z.of_nat (size (po_mapping p)) then (p, None)
      else
        match (if MAX_PER_GRANT <=? default 0 (po_per_grant p !! grant)
               then evict p grant live else Some p) with
        | None => (p, None)
        | Some p => (insert_mint p name grant, Some (synthetic (po_prefix p) (po_next_host p)))
        end
  end.

Definition name_of (p : Pool) (addr : bytes) : option bytes :=
  fst <$> List.find (fun nm => bool_decide (mt_addr nm.2 = addr)) (map_to_list (po_mapping p)).

(** * The pool *)

(** The mints of one grant. *)
Definition of_grant (g : nat) (m : gmap bytes Mint) : gmap bytes Mint :=
  filter (fun nm => mt_grant nm.2 = g) m.

Record pool_ok (p : Pool) : Prop := {
  ok_tick : 0 <= po_tick p;
  ok_next : FIRST_POOL_HOST <= po_next_host p <= FIRST_POOL_HOST + po_tick p;
  ok_addr n m : po_mapping p !! n = Some m ->
    exists h, FIRST_POOL_HOST <= h < po_next_host p /\ mt_addr m = synthetic (po_prefix p) h;
  ok_inj n1 n2 m1 m2 : po_mapping p !! n1 = Some m1 -> po_mapping p !! n2 = Some m2 ->
    mt_addr m1 = mt_addr m2 -> n1 = n2;
  ok_count g : default 0 (po_per_grant p !! g) = Z.of_nat (size (of_grant g (po_mapping p)));
  ok_window g : Z.of_nat (size (of_grant g (po_mapping p))) <= MAX_PER_GRANT;
  ok_size : Z.of_nat (size (po_mapping p)) <= MAX_POOL;
  ok_use n m : po_mapping p !! n = Some m -> mt_last_use m <= po_tick p;
  ok_lru n1 n2 m1 m2 : po_mapping p !! n1 = Some m1 -> po_mapping p !! n2 = Some m2 ->
    mt_last_use m1 = mt_last_use m2 -> n1 = n2;
}.

Lemma synthetic_inj prefix h1 h2 :
  in_u64 h1 -> in_u64 h2 -> synthetic prefix h1 = synthetic prefix h2 -> h1 = h2.
Proof.
  unfold synthetic. intros H1 H2 E. apply app_inv_head in E.
  apply (f_equal be_val) in E. unfold be_val, be_bytes in E. rewrite !rev_involutive in E.
  rewrite !le_val_bytes in E; [done|..]; change (256 ^ Z.of_nat 8) with (2 ^ 64); in_range.
Qed.

Lemma pool_new_ok prefix : pool_ok (pool_new prefix).
Proof.
  assert (forall n : bytes, (∅ : gmap bytes Mint) !! n = None) as He by (intros; apply lookup_empty).
  constructor; cbn; intros; rewrite ?He in *; done.
Qed.

Lemma min_by_key_Some {A} (f : A -> Z) l x :
  min_by_key f l = Some x -> x ∈ l /\ forall y, y ∈ l -> f x <= f y.
Proof.
  revert x. induction l as [|a l IH]; intros x; cbn; [done|].
  destruct (min_by_key f l) as [b|] eqn:E.
  - destruct (IH b eq_refl) as [Hb Hmin]. intros [= <-].
    destruct (Z.leb_spec (f a) (f b)); (split; [set_solver|]); intros y Hy;
      apply elem_of_cons in Hy as [->|Hy]; try specialize (Hmin y Hy); lia.
  - intros [= <-]. destruct l as [|c l]; [|cbn in E; by destruct (min_by_key f l)].
    split; [set_solver|]. intros y Hy%list_elem_of_singleton. by subst.
Qed.

Lemma min_by_key_None {A} (f : A -> Z) l : min_by_key f l = None -> l = [].
Proof. destruct l as [|a l]; cbn; [done|]. by destruct (min_by_key f l). Qed.

Lemma elem_of_evictable p g live n m :
  (n, m) ∈ evictable p g live <->
  po_mapping p !! n = Some m /\ mt_grant m = g /\ mt_addr m ∉ live.
Proof.
  unfold evictable. rewrite list_elem_of_In, filter_In, <- list_elem_of_In, elem_of_map_to_list.
  cbn. rewrite andb_true_iff, negb_true_iff, bool_decide_eq_true, bool_decide_eq_false. done.
Qed.

Lemma size_of_grant_insert g m n x :
  m !! n = None ->
  Z.of_nat (size (of_grant g (<[n := x]> m))) =
    Z.of_nat (size (of_grant g m)) + (if decide (mt_grant x = g) then 1 else 0).
Proof.
  intros Hn. unfold of_grant. rewrite map_filter_insert. cbn. case_decide.
  - rewrite map_size_insert_None; [lia|]. apply map_lookup_filter_None. by left.
  - rewrite map_filter_delete, delete_id; [lia|]. apply map_lookup_filter_None. by left.
Qed.

Lemma size_of_grant_touch g m n x y :
  m !! n = Some x -> mt_grant y = mt_grant x ->
  size (of_grant g (<[n := y]> m)) = size (of_grant g m).
Proof.
  intros Hn Hg. rewrite <- (insert_id m n x Hn) at 2. rewrite <- (insert_delete_eq m n y),
    <- (insert_delete_eq m n x). apply Nat2Z.inj.
  rewrite !size_of_grant_insert by apply lookup_delete_eq. by rewrite Hg.
Qed.

Lemma size_of_grant_delete g m n x :
  m !! n = Some x ->
  Z.of_nat (size (of_grant g (delete n m))) =
    Z.of_nat (size (of_grant g m)) - (if decide (mt_grant x = g) then 1 else 0).
Proof.
  intros Hn. rewrite <- (insert_id m n x Hn) at 2. rewrite <- (insert_delete_eq m n x).
  rewrite size_of_grant_insert by apply lookup_delete_eq. lia.
Qed.

(** The tick has just been bumped: it is later than every use and mint. *)
Definition fresh_tick (p : Pool) : Prop :=
  (forall n m, po_mapping p !! n = Some m -> mt_last_use m < po_tick p) /\
  po_next_host p < FIRST_POOL_HOST + po_tick p.

Lemma ticked_ok p :
  pool_ok p -> po_tick p < u64_max ->
  pool_ok (ticked p) /\ fresh_tick (ticked p) /\ po_tick (ticked p) = po_tick p + 1.
Proof.
  intros Hp Ht. assert (sat_add u64_max (po_tick p) 1 = po_tick p + 1) as E
    by (unfold sat_add; lia).
  split_and!; [|split|by cbn].
  - constructor; cbn; rewrite ?E; try apply Hp.
    + pose proof (ok_tick p Hp). lia.
    + pose proof (ok_next p Hp). lia.
    + intros n m Hm. pose proof (ok_use p Hp n m Hm). lia.
  - cbn. rewrite E. intros n m Hm. pose proof (ok_use p Hp n m Hm). lia.
  - cbn. rewrite E. pose proof (ok_next p Hp). lia.
Qed.

(** A mint entered or renewed with the fresh tick keeps the recencies distinct. *)
Lemma lru_insert p name x n1 n2 m1 m2 :
  pool_ok p -> fresh_tick p -> mt_last_use x = po_tick p ->
  <[name := x]> (po_mapping p) !! n1 = Some m1 -> <[name := x]> (po_mapping p) !! n2 = Some m2 ->
  mt_last_use m1 = mt_last_use m2 -> n1 = n2.
Proof.
  intros Hp [Hf _] Hx. rewrite !lookup_insert_Some. intros H1 H2 E.
  destruct H1 as [[-> ->]|[? H1]], H2 as [[-> ->]|[? H2]]; [done|..].
  - apply Hf in H2. lia.
  - apply Hf in H1. lia.
  - eapply (ok_lru p Hp); done.
Qed.

Lemma use_insert p name x n m :
  pool_ok p -> mt_last_use x = po_tick p ->
  <[name := x]> (po_mapping p) !! n = Some m -> mt_last_use m <= po_tick p.
Proof.
  intros Hp Hx. rewrite lookup_insert_Some. intros [[-> ->]|[? H]]; [lia|].
  by apply (ok_use p Hp n m).
Qed.

Lemma touch_mint_ok p name m :
  pool_ok p -> fresh_tick p -> po_mapping p !! name = Some m -> pool_ok (touch_mint p name m).
Proof.
  intros Hp Hf Hm. constructor; cbn; try apply Hp.
  - intros n x. rewrite lookup_insert_Some. intros [[-> <-]|[? Hx]]; cbn; by eapply (ok_addr p Hp).
  - intros n1 n2 m1 m2. rewrite !lookup_insert_Some.
    intros [[-> <-]|[? H1]] [[-> <-]|[? H2]]; cbn; try done; by apply (ok_inj p Hp).
  - intros g. rewrite (size_of_grant_touch g _ _ m) by done. apply Hp.
  - intros g. rewrite (size_of_grant_touch g _ _ m) by done. apply Hp.
  - rewrite map_size_insert_Some by (by rewrite Hm). apply Hp.
  - intros n x. by apply use_insert.
  - intros n1 n2 m1 m2. by apply lru_insert.
Qed.

Lemma insert_mint_ok p name grant :
  pool_ok p -> fresh_tick p -> po_mapping p !! name = None -> po_next_host p < u64_max ->
  Z.of_nat (size (po_mapping p)) < MAX_POOL ->
  Z.of_nat (size (of_grant grant (po_mapping p))) < MAX_PER_GRANT ->
  pool_ok (insert_mint p name grant).
Proof.
  intros Hp Hf Hn Hh Hs Hg.
  assert (sat_add u64_max (po_next_host p) 1 = po_next_host p + 1) as E by (unfold sat_add; lia).
  pose proof (ok_next p Hp) as Hnext. pose proof (proj2 Hf) as Hfn.
  assert (forall m, mt_addr m = synthetic (po_prefix p) (po_next_host p) ->
    forall n, po_mapping p !! n = Some m -> False) as Hnew.
  { intros m Ha n Hm. destruct (ok_addr p Hp n m Hm) as (h & Hh' & Ha').
    rewrite Ha in Ha'. apply synthetic_inj in Ha'; unfold FIRST_POOL_HOST in *; [lia|in_range..]. }
  constructor; cbn; rewrite ?E.
  - apply Hp.
  - lia.
  - intros n x. rewrite lookup_insert_Some. intros [[-> <-]|[? Hx]]; cbn;
      [exists (po_next_host p); split; [lia|done]|].
    destruct (ok_addr p Hp n x Hx) as (h & ? & ?). exists h. split; [lia|done].
  - intros n1 n2 m1 m2. rewrite !lookup_insert_Some.
    intros [[-> <-]|[? H1]] [[-> <-]|[? H2]]; cbn; try done.
    + intros Ha. by destruct (Hnew m2 (eq_sym Ha) n2 H2).
    + intros Ha. by destruct (Hnew m1 Ha n1 H1).
    + by apply (ok_inj p Hp).
  - intros g. rewrite size_of_grant_insert by done. cbn. rewrite <- (ok_count p Hp).
    destruct (decide (grant = g)) as [->|Hne].
    + rewrite lookup_insert_eq. cbn. pose proof (ok_count p Hp g). unfold sat_add.
      unfold MAX_PER_GRANT in Hg. in_range.
    + rewrite lookup_insert_ne by done. lia.
  - intros g. rewrite size_of_grant_insert by done. cbn.
    destruct (decide (grant = g)) as [->|Hne]; [lia|]. pose proof (ok_window p Hp g). lia.
  - rewrite map_size_insert_None by done. lia.
  - intros n x. by apply use_insert.
  - intros n1 n2 m1 m2. by apply lru_insert.
Qed.

Lemma evict_Some p grant live p' :
  pool_ok p -> evict p grant live = Some p' ->
  exists n m, po_mapping p !! n = Some m /\ mt_grant m = grant /\ (mt_addr m ∉ live) /\
    (forall n' m', po_mapping p !! n' = Some m' -> mt_grant m' = grant -> mt_addr m' ∉ live ->
      n' = n \/ mt_last_use m < mt_last_use m') /\
    po_mapping p' = delete n (po_mapping p) /\ po_prefix p' = po_prefix p /\
    po_next_host p' = po_next_host p /\ po_tick p' = po_tick p /\
    po_per_grant p' = alter (fun c => sat_sub c 1) grant (po_per_grant p).
Proof.
  intros Hp. unfold evict. destruct (min_by_key _ _) as [[n m]|] eqn:E; [|done].
  intros [= <-]. apply min_by_key_Some in E as [Hin Hmin].
  apply elem_of_evictable in Hin as (Hm & Hg & Hl). exists n, m. cbn. split_and!; try done.
  intros n' m' Hm' Hg' Hl'. assert ((n', m') ∈ evictable p grant live) as Hin
    by (by apply elem_of_evictable). apply Hmin in Hin. cbn in Hin.
  destruct (decide (n' = n)); [by left|right].
  assert (mt_last_use m <> mt_last_use m') by (intros E; by apply (ok_lru p Hp n n' m m') in E). lia.
Qed.

Lemma evict_None p grant live :
  evict p grant live = None ->
  forall n m, po_mapping p !! n = Some m -> mt_grant m = grant -> mt_addr m ∈ live.
Proof.
  unfold evict. destruct (min_by_key _ _) as [x|] eqn:E; [done|]. intros _ n m Hm Hg.
  apply min_by_key_None in E. destruct (decide (mt_addr m ∈ live)) as [|Hl]; [done|].
  assert ((n, m) ∈ evictable p grant live) as H by (by apply elem_of_evictable).
  rewrite E in H. by apply not_elem_of_nil in H.
Qed.

Lemma evict_ok p grant live p' :
  pool_ok p -> fresh_tick p -> evict p grant live = Some p' ->
  pool_ok p' /\ fresh_tick p' /\
  Z.of_nat (size (of_grant grant (po_mapping p'))) < MAX_PER_GRANT /\
  Z.of_nat (size (po_mapping p')) < MAX_POOL.
Proof.
  intros Hp Hf He.
  destruct (evict_Some _ _ _ _ Hp He) as (n & m & Hm & Hg & _ & _ & Em & Epre & En & Et & Ec).
  pose proof (ok_window p Hp grant) as Hw. pose proof (ok_size p Hp) as Hsz.
  assert (Z.of_nat (size (delete n (po_mapping p))) = Z.of_nat (size (po_mapping p)) - 1) as Hd.
  { rewrite map_size_delete_Some by (by rewrite Hm).
    assert (size (po_mapping p) <> 0%nat); [|lia]. intros E0%map_size_empty_inv.
    by rewrite E0, lookup_empty in Hm. }
  split_and!; [|split|..].
  - constructor; rewrite ?Em, ?Epre, ?En, ?Et, ?Ec; try apply Hp.
    + intros n' m' [_ H]%lookup_delete_Some. by apply (ok_addr p Hp n' m').
    + intros n1 n2 m1 m2 [_ H1]%lookup_delete_Some [_ H2]%lookup_delete_Some. by apply (ok_inj p Hp).
    + intros g. rewrite (size_of_grant_delete g _ _ m) by done. rewrite <- (ok_count p Hp).
      destruct (decide (mt_grant m = g)) as [E|E].
      * assert (grant = g) as -> by congruence. rewrite lookup_alter_eq.
        pose proof (ok_count p Hp g) as Hc.
        assert (1 <= Z.of_nat (size (of_grant g (po_mapping p)))).
        { pose proof (size_of_grant_delete g _ _ _ Hm) as Hsd.
          rewrite decide_True in Hsd by done. lia. }
        destruct (po_per_grant p !! g); cbn in *; unfold sat_sub; lia.
      * rewrite lookup_alter_ne by congruence. lia.
    + intros g. rewrite (size_of_grant_delete g _ _ m) by done. pose proof (ok_window p Hp g).
      case_decide; lia.
    + rewrite Hd. lia.
    + intros n' m' [_ H]%lookup_delete_Some. by apply (ok_use p Hp n' m').
    + intros n1 n2 m1 m2 [_ H1]%lookup_delete_Some [_ H2]%lookup_delete_Some. by apply (ok_lru p Hp).
  - rewrite Em, Et. intros n' m' [_ H]%lookup_delete_Some. by apply (proj1 Hf n' m').
  - rewrite En, Et. apply Hf.
  - rewrite Em, (size_of_grant_delete _ _ _ m), decide_True by done. lia.
  - rewrite Em, Hd. lia.
Qed.

(** A query of the pool: the name, the grant it was matched under, the synthetics
    with a live flow. *)
Abbreviation query := (bytes * nat * gset bytes)%type.

(** What one query does to a well-formed pool, on every branch. *)
Lemma mint_spec p name grant live :
  pool_ok p -> po_tick p + FIRST_POOL_HOST < u64_max ->
  let p' := (mint p name grant live).1 in
  pool_ok p' /\ po_tick p' = po_tick p + 1 /\ po_prefix p' = po_prefix p /\
  match po_mapping p !! name, (mint p name grant live).2 with
  | Some m, r => r = Some (mt_addr m) /\ po_next_host p' = po_next_host p /\
      po_mapping p' = <[name := {| mt_addr := mt_addr m; mt_grant := mt_grant m;
                                   mt_last_use := po_tick p + 1 |}]> (po_mapping p)
  | None, None => po_mapping p' = po_mapping p /\ po_next_host p' = po_next_host p /\
      (Z.of_nat (size (po_mapping p)) = MAX_POOL \/
       Z.of_nat (size (of_grant grant (po_mapping p))) = MAX_PER_GRANT /\
       forall n m, po_mapping p !! n = Some m -> mt_grant m = grant -> mt_addr m ∈ live)
  | None, Some a => a = synthetic (po_prefix p) (po_next_host p) /\
      po_next_host p' = po_next_host p + 1 /\
      exists kept, po_mapping p' = <[name := {| mt_addr := a; mt_grant := grant;
                                               mt_last_use := po_tick p + 1 |}]> kept /\
        (kept = po_mapping p \/
         Z.of_nat (size (of_grant grant (po_mapping p))) = MAX_PER_GRANT /\
         exists n m, kept = delete n (po_mapping p) /\ po_mapping p !! n = Some m /\
           mt_grant m = grant /\ (mt_addr m ∉ live) /\
           forall n' m', po_mapping p !! n' = Some m' -> mt_grant m' = grant ->
             mt_addr m' ∉ live -> n' = n \/ mt_last_use m < mt_last_use m')
  end.
Proof.
  intros Hp Ht. unfold FIRST_POOL_HOST in Ht.
  destruct (ticked_ok p Hp) as (Hq & Hf & Hqt); [lia|].
  assert (po_next_host p < u64_max) as Hh
    by (pose proof (ok_next p Hp); unfold FIRST_POOL_HOST in *; lia).
  assert (forall q, po_next_host q = po_next_host p -> sat_add u64_max (po_next_host q) 1 =
    po_next_host p + 1) as Hnx by (intros q ->; unfold sat_add; lia).
  unfold mint. change (po_mapping (ticked p)) with (po_mapping p).
  change (po_per_grant (ticked p)) with (po_per_grant p).
  destruct (po_mapping p !! name) as [m|] eqn:Em.
  { split; [by apply touch_mint_ok|]. cbn -[ticked]. rewrite Hqt. done. }
  destruct (Z.leb_spec MAX_POOL (Z.of_nat (size (po_mapping p)))) as [Hs|Hs].
  { split; [done|]. cbn. split_and!; try done. left. pose proof (ok_size p Hp). lia. }
  destruct (Z.leb_spec MAX_PER_GRANT (default 0 (po_per_grant p !! grant))) as [Hg|Hg];
    rewrite (ok_count p Hp) in Hg; pose proof (ok_window p Hp grant) as Hw.
  - destruct (evict (ticked p) grant live) as [q|] eqn:Ee.
    + destruct (evict_ok _ _ _ _ Hq Hf Ee) as (Hok & Hfq & Hgq & Hsq).
      destruct (evict_Some _ _ _ _ Hq Ee) as (n & x & Hx & Hgx & Hl & Hmin & Eq & Epre & En & Et & _).
      change (po_mapping (ticked p)) with (po_mapping p) in *.
      change (po_next_host (ticked p)) with (po_next_host p) in *.
      change (po_prefix (ticked p)) with (po_prefix p) in *. cbn.
      split; [apply insert_mint_ok; try done; [|by rewrite En]|].
      { rewrite Eq. apply lookup_delete_None. by right. }
      rewrite Et, Hqt, Epre, (Hnx q En), En. split_and!; try done.
      exists (po_mapping q). split; [done|]. right. split; [lia|]. exists n, x. by split_and!.
    + split; [done|]. cbn -[ticked]. split_and!; try done. right. split; [lia|].
      by apply (evict_None (ticked p)).
  - cbn -[ticked]. split; [apply insert_mint_ok; try done; lia|].
    rewrite Hqt. split_and!; try done; [by apply Hnx|].
    exists (po_mapping p). split; [done|by left].
Qed.

(** The pool after a sequence of queries, with each query's name and answer. *)
Fixpoint run_mints (p : Pool) (qs : list query) : Pool * list (bytes * option bytes) :=
  match qs with
  | [] => (p, [])
  | (n, g, live) :: qs =>
      let '(p, r) := mint p n g live in
      let '(p, out) := run_mints p qs in (p, (n, r) :: out)
  end.

(** What has been answered so far: each address once, below the next to mint, and
    standing for the name it is minted for. *)
Definition issued_ok (p : Pool) (out : list (bytes * option bytes)) : Prop :=
  (forall n a, (n, Some a) ∈ out ->
    exists h, FIRST_POOL_HOST <= h < po_next_host p /\ a = synthetic (po_prefix p) h) /\
  (forall n1 n2 a, (n1, Some a) ∈ out -> (n2, Some a) ∈ out -> n1 = n2) /\
  (forall n m, po_mapping p !! n = Some m -> (n, Some (mt_addr m)) ∈ out).

Lemma mint_issued p n g live out :
  pool_ok p -> po_tick p + FIRST_POOL_HOST < u64_max -> issued_ok p out ->
  issued_ok (mint p n g live).1 ((n, (mint p n g live).2) :: out).
Proof.
  intros Hp Ht (Hlow & Hone & Hmap).
  pose proof (mint_spec p n g live Hp Ht) as (_ & _ & Hpre & Hcase).
  pose proof (ok_next p Hp) as Hnx. unfold issued_ok. rewrite Hpre.
  destruct (mint p n g live) as [p' r]; cbn in *.
  destruct (po_mapping p !! n) as [m|] eqn:Em; [|destruct r as [a|]].
  - destruct Hcase as (-> & -> & ->). pose proof (Hmap n m Em) as Hm. split_and!.
    + intros n' a Hin. apply elem_of_cons in Hin as [[= -> ->]|Hin]; eauto.
    + intros n1 n2 a. rewrite !elem_of_cons. naive_solver.
    + intros n' m'. rewrite lookup_insert_Some. intros [[-> <-]|[? H]]; cbn; set_solver.
  - destruct Hcase as (-> & -> & kept & -> & Hkept). 
    assert (forall n', (n', Some (synthetic (po_prefix p) (po_next_host p))) ∈ out -> False) as Hnew.
    { intros n' Hin. destruct (Hlow _ _ Hin) as (h & Hh & Eh).
      apply synthetic_inj in Eh; unfold FIRST_POOL_HOST in *; [lia|in_range..]. }
    split_and!.
    + intros n' a Hin. apply elem_of_cons in Hin as [[= -> ->]|Hin].
      * exists (po_next_host p). split; [lia|done].
      * destruct (Hlow _ _ Hin) as (h & ? & ->). exists h. split; [lia|done].
    + intros n1 n2 a H1 H2. apply elem_of_cons in H1 as [[= -> ->]|H1].
      * apply elem_of_cons in H2 as [[= ->]|H2]; [done|by destruct (Hnew n2)].
      * apply elem_of_cons in H2 as [[= -> ->]|H2]; [by destruct (Hnew n1)|eauto].
    + intros n' m'. rewrite lookup_insert_Some. intros [[-> <-]|[? H]]; cbn; [by left|]. right.
      apply Hmap. destruct Hkept as [->|(_ & v & x & -> & _)]; [done|].
      by apply lookup_delete_Some in H as [_ H].
  - destruct Hcase as (-> & -> & _). split_and!; [set_solver..|].
    intros n' m' H. right. eauto.
Qed.

Lemma run_mints_ok p qs out :
  pool_ok p -> issued_ok p out ->
  po_tick p + Z.of_nat (length qs) + FIRST_POOL_HOST <= u64_max ->
  let '(p', new) := run_mints p qs in
  pool_ok p' /\ issued_ok p' (rev new ++ out) /\ po_prefix p' = po_prefix p /\
  po_tick p' = po_tick p + Z.of_nat (length qs).
Proof.
  revert p out. induction qs as [|[[n g] live] qs IH]; intros p out Hp Hi Ht; cbn -[Z.of_nat].
  { split_and!; try done. lia. }
  cbn [length] in Ht.
  pose proof (mint_spec p n g live Hp ltac:(lia)) as (Hp' & Ht' & Hpre & _).
  pose proof (mint_issued p n g live out Hp ltac:(lia) Hi) as Hi'.
  destruct (mint p n g live) as [p1 r]; cbn -[Z.of_nat] in *.
  specialize (IH p1 _ Hp' Hi' ltac:(lia)). destruct (run_mints p1 qs) as [p2 new].
  destruct IH as (H1 & H2 & H3 & H4). cbn. rewrite <- app_assoc. cbn.
  split_and!; [done|done|congruence|lia].
Qed.

Lemma issued_new prefix : issued_ok (pool_new prefix) [].
Proof.
  split_and!; [intros ? ? H|intros ? ? ? H|intros n m]; [by apply not_elem_of_nil in H..|].
  cbn. by rewrite lookup_empty.
Qed.

(** C31: A synthetic address never stands for two names, in the whole life of the
    broker: over any sequence of fewer than [2^64 - 16] queries, with evictions,
    two answers with the same address were for the same name; every address
    answered is in the tun's /64 with a host part from [::10] up, so it is
    neither the interface's nor the resolver's; and the pool ends with at most 4096
    names, at most 32 under each grant. *)
Theorem pool_never_aliases (prefix : bytes) (qs : list query) :
  Z.of_nat (length qs) + FIRST_POOL_HOST <= u64_max ->
  let '(p, out) := run_mints (pool_new prefix) qs in
  (forall n1 n2 a, (n1, Some a) ∈ out -> (n2, Some a) ∈ out -> n1 = n2) /\
  (forall n a, (n, Some a) ∈ out -> exists h, FIRST_POOL_HOST <= h < u64_max /\ a = synthetic prefix h) /\
  Z.of_nat (size (po_mapping p)) <= MAX_POOL /\
  forall g, Z.of_nat (size (of_grant g (po_mapping p))) <= MAX_PER_GRANT.
Proof.
  intros Hq. pose proof (run_mints_ok (pool_new prefix) qs [] (pool_new_ok _) (issued_new _) Hq) as H.
  destruct (run_mints _ _) as [p out]. rewrite app_nil_r in H.
  destruct H as (Hp & (Hlow & Hone & _) & Hpre & Ht). cbn in Hpre, Ht.
  assert (forall x, x ∈ out <-> x ∈ rev out) as Hrev
    by (intros x; rewrite !list_elem_of_In, <- in_rev; done).
  split_and!; [| |apply Hp|apply Hp].
  - intros n1 n2 a. rewrite !Hrev. apply Hone.
  - intros n a. rewrite Hrev. intros Hin. destruct (Hlow n a Hin) as (h & Hh & ->).
    exists h. rewrite Hpre. split; [|done]. pose proof (ok_next p Hp). lia.
Qed.

(** Two names under the same wildcard, and a third name once the first is evicted. *)
Definition sample_queries : list query :=
  [([97], 0%nat, ∅); ([98], 0%nat, ∅); ([97], 0%nat, ∅)].

Lemma pool_never_aliases_witness :
  Z.of_nat (length sample_queries) + FIRST_POOL_HOST <= u64_max /\
  (run_mints (pool_new (replicate 8 1)) sample_queries).2 =
    [([97], Some (replicate 8 1 ++ [0; 0; 0; 0; 0; 0; 0; 16]));
     ([98], Some (replicate 8 1 ++ [0; 0; 0; 0; 0; 0; 0; 17]));
     ([97], Some (replicate 8 1 ++ [0; 0; 0; 0; 0; 0; 0; 16]))] /\
  Z.of_nat (size (po_mapping (run_mints (pool_new (replicate 8 1)) sample_queries).1)) <= MAX_POOL.
Proof.
  assert (Z.of_nat (length sample_queries) + FIRST_POOL_HOST <= u64_max) as H by (vm_compute; done).
  pose proof (pool_never_aliases (replicate 8 1) sample_queries H) as Hp.
  split; [exact H|]. destruct (run_mints _ _) as [p out] eqn:E. cbn.
  split; [|apply Hp]. change out with (p, out).2. rewrite <- E. vm_compute. done.
Defined.

(** The window rotates and never breaks a live flow.  In the pool any queries
    have left, a query for a new name is refused, changing no mint, only when the
    pool holds 4096 names or the grant has 32 mints whose addresses all carry live
    flows; when it is answered, every other mint keeps its address, except that a
    full window gives up one mint, of the same grant, without a live flow, and
    used less recently than every other such mint. *)
Theorem pool_rotation (prefix : bytes) (qs : list query) (n : bytes) (g : nat) (live : gset bytes) :
  Z.of_nat (length qs) + FIRST_POOL_HOST < u64_max ->
  let p := (run_mints (pool_new prefix) qs).1 in
  let p' := (mint p n g live).1 in
  po_mapping p !! n = None ->
  match (mint p n g live).2 with
  | None => po_mapping p' = po_mapping p /\
      (Z.of_nat (size (po_mapping p)) = MAX_POOL \/
       Z.of_nat (size (of_grant g (po_mapping p))) = MAX_PER_GRANT /\
       forall n' m, po_mapping p !! n' = Some m -> mt_grant m = g -> mt_addr m ∈ live)
  | Some a => mt_addr <$> po_mapping p' !! n = Some a /\
      forall n' m, po_mapping p !! n' = Some m ->
        po_mapping p' !! n' = Some m \/
        po_mapping p' !! n' = None /\ mt_grant m = g /\ (mt_addr m ∉ live) /\
        Z.of_nat (size (of_grant g (po_mapping p))) = MAX_PER_GRANT /\
        forall n2 m2, po_mapping p !! n2 = Some m2 -> mt_grant m2 = g -> mt_addr m2 ∉ live ->
          n2 = n' \/ mt_last_use m < mt_last_use m2
  end.
Proof.
  intros Hq p p' Hn.
  pose proof (run_mints_ok (pool_new prefix) qs [] (pool_new_ok _) (issued_new _) ltac:(cbn; lia)) as H.
  subst p p'. destruct (run_mints _ _) as [p out]. destruct H as (Hp & _ & _ & Ht). cbn in *.
  pose proof (mint_spec p n g live Hp ltac:(lia)) as (_ & _ & _ & Hcase). rewrite Hn in Hcase.
  destruct (mint p n g live) as [p' [a|]]; cbn in *.
  - destruct Hcase as (_ & _ & kept & -> & Hkept). rewrite lookup_insert_eq. split; [done|].
    intros n' m Hm. assert (n' <> n) as Hne by congruence. rewrite lookup_insert_ne by done.
    destruct Hkept as [->|(Hfull & v & x & -> & Hv & Hgx & Hl & Hmin)]; [by left|].
    destruct (decide (n' = v)) as [->|]; [right|left; by rewrite lookup_delete_ne].
    rewrite lookup_delete_eq. assert (m = x) as -> by congruence. by split_and!.
  - by destruct Hcase as (-> & _ & H).
Qed.

Lemma pool_rotation_witness :
  let p := (run_mints (pool_new (replicate 8 1)) sample_queries).1 in
  Z.of_nat (length sample_queries) + FIRST_POOL_HOST < u64_max /\ po_mapping p !! [99] = None /\
  (mint p [99] 0%nat ∅).2 = Some (synthetic (replicate 8 1) 18) /\
  mt_addr <$> po_mapping (mint p [99] 0%nat ∅).1 !! [99] = Some (synthetic (replicate 8 1) 18).
Proof.
  intros p. assert (Z.of_nat (length sample_queries) + FIRST_POOL_HOST < u64_max) as H by (vm_compute; done).
  assert (po_mapping p !! [99] = None) as Hn by (vm_compute; done).
  assert ((mint p [99] 0%nat ∅).2 = Some (synthetic (replicate 8 1) 18)) as Ha by (vm_compute; done).
  pose proof (pool_rotation (replicate 8 1) sample_queries [99] 0%nat ∅ H Hn) as Hr.
  fold p in Hr. rewrite Ha in Hr. destruct Hr as [Hr _]. split_and!; [exact H|exact Hn|exact Ha|exact Hr].
Defined.

(** The reverse lookup finds the name a synthetic was minted for. *)
Lemma name_of_Some p a n :
  pool_ok p -> name_of p a = Some n <-> exists m, po_mapping p !! n = Some m /\ mt_addr m = a.
Proof.
  intros Hp. unfold name_of. split.
  - destruct (List.find _ _) as [[n' m]|] eqn:E; [|done]. intros [= <-].
    apply find_some in E as [Hin Ha%bool_decide_eq_true]. apply list_elem_of_In in Hin.
    apply elem_of_map_to_list in Hin. eauto.
  - intros (m & Hm & Ha). destruct (List.find _ _) as [[n' m']|] eqn:E.
    + apply find_some in E as [Hin Ha'%bool_decide_eq_true]. apply list_elem_of_In in Hin.
      apply elem_of_map_to_list in Hin. cbn in *. f_equal.
      by apply (ok_inj p Hp n' n m' m); congruence.
    + eapply find_none in E; [|apply list_elem_of_In, elem_of_map_to_list, Hm].
      cbn in E. by apply bool_decide_eq_false in E.
Qed.

(** ** The flow table *)

Lemma fold_delete_lookup {A} (ks : list FlowKey) (m : gmap FlowKey A) k :
  fold_left (fun m k => delete k m) ks m !! k = if decide (k ∈ ks) then None else m !! k.
Proof.
  revert m. induction ks as [|x ks IH]; intros m; cbn; [by rewrite decide_False by set_solver|].
  rewrite IH. destruct (decide (k = x)) as [->|Hne].
  - rewrite lookup_delete_eq, (decide_True (P := x ∈ x :: ks)) by set_solver. by case_decide.
  - rewrite lookup_delete_ne by done. destruct (decide (k ∈ ks)).
    + by rewrite decide_True by set_solver.
    + by rewrite decide_False by set_solver.
Qed.

(** [sweep] removes the idle flows, reports exactly them, and keeps the others. *)
Lemma sweep_spec t now k :
  (k ∈ (sweep t now).2 <-> exists f, ft_flows t !! k = Some f /\ expired (ft_idle_timeout t) now f = true) /\
  ft_flows (sweep t now).1 !! k =
    match ft_flows t !! k with
    | Some f => if expired (ft_idle_timeout t) now f then None else Some f
    | None => None
    end.
Proof.
  unfold sweep; cbn. set (gone := map fst _).
  assert (k ∈ gone <-> exists f, ft_flows t !! k = Some f /\ expired (ft_idle_timeout t) now f = true) as Hg.
  { unfold gone. rewrite list_elem_of_In, in_map_iff. setoid_rewrite filter_In.
    setoid_rewrite <- list_elem_of_In. split.
    - intros ([k' f] & <- & Hin & He). apply elem_of_map_to_list in Hin. eauto.
    - intros (f & Hf & He). exists (k, f). by rewrite elem_of_map_to_list. }
  split; [done|]. rewrite fold_delete_lookup. destruct (ft_flows t !! k) as [f|] eqn:E.
  - destruct (expired _ _ f) eqn:Ee; case_decide as Hk; try done.
    + contradict Hk. apply Hg. eauto.
    + apply Hg in Hk as (f' & [= <-] & He). congruence.
  - by case_decide.
Qed.

Lemma elem_of_live_synthetics t a :
  a ∈ live_synthetics t <-> exists k, is_Some (ft_flows t !! k) /\ fk_synthetic k = a.
Proof.
  unfold live_synthetics. rewrite elem_of_list_to_set, list_elem_of_In, in_map_iff. split.
  - intros ([k f] & <- & Hin). apply list_elem_of_In, elem_of_map_to_list in Hin. eauto.
  - intros (k & [f Hf] & <-). exists (k, f). split; [done|].
    by apply list_elem_of_In, elem_of_map_to_list.
Qed.

(** ** The bucket *)

(** Whole milliseconds a token takes to be credited, at the least. *)
Definition ms_per_token (b : TokenBucket) : Z := 1000 / tb_refill_per_sec b.

Lemma refill_spec b now :
  1 <= tb_refill_per_sec b <= 1000 -> 0 <= tb_tokens b <= tb_capacity b ->
  let b' := refill b now in
  tb_refill_per_sec b' = tb_refill_per_sec b /\ tb_capacity b' = tb_capacity b /\
  0 <= tb_tokens b' <= tb_capacity b /\ tb_last b <= tb_last b' <= Z.max (tb_last b) now /\
  (tb_tokens b' - tb_tokens b) * ms_per_token b * NS_PER_MS <= tb_last b' - tb_last b.
Proof.
  intros Hr Ht. unfold refill. destruct (Z.eqb_spec (tb_refill_per_sec b) 0); [lia|].
  set (e := sat_sub now (tb_last b) / NS_PER_MS). set (r := tb_refill_per_sec b) in *.
  destruct (Z.eqb_spec (e * r / 1000) 0) as [|Hc]; [cbn; lia|].
  cbn [tb_refill_per_sec tb_capacity tb_tokens tb_last].
  assert (0 <= e) as He by (apply Z.div_pos; unfold sat_sub, NS_PER_MS; lia).
  assert (e * NS_PER_MS <= sat_sub now (tb_last b)) as Hen
    by (unfold e; rewrite Z.mul_comm; apply Z.mul_div_le; unfold NS_PER_MS; lia).
  assert (0 <= e * r / 1000) as Hc0 by (apply Z.div_pos; nia).
  set (c := sat_u32 (e * r / 1000)).
  assert (0 <= c <= e * r / 1000) as Hcc by (unfold c, sat_u32, u32_max; lia).
  assert (c * 1000 <= e * r) as Hce.
  { pose proof (Z.mul_div_le (e * r) 1000). lia. }
  assert (0 <= c * 1000 / r <= e) as Hms.
  { split; [apply Z.div_pos; lia|]. apply Z.div_le_upper_bound; nia. }
  assert (c * (1000 / r) <= c * 1000 / r) as Hq by (apply Z.div_mul_le; lia).
  assert (0 <= 1000 / r) by (apply Z.div_pos; lia).
  unfold sat_add, sat_sub, ms_per_token, NS_PER_MS, u32_max in *. fold r.
  split_and!; try lia. 
  assert (Z.min (Z.min (2 ^ 32 - 1) (tb_tokens b + c)) (tb_capacity b) - tb_tokens b <= c) by lia.
  nia.
Qed.

Fixpoint run_takes (b : TokenBucket) (times : list Z) : TokenBucket * Z :=
  match times with
  | [] => (b, 0)
  | now :: times =>
      let '(b, ok) := try_take b now in
      let '(b, k) := run_takes b times in (b, (if ok : bool then 1 else 0) + k)
  end.

Lemma run_takes_bound b times T :
  1 <= tb_refill_per_sec b <= 1000 -> 0 <= tb_tokens b <= tb_capacity b ->
  tb_last b <= T -> Forall (fun t => t <= T) times ->
  ((run_takes b times).2 - tb_tokens b) * ms_per_token b * NS_PER_MS <= T - tb_last b.
Proof.
  intros Hr Ht Hl Hts. revert b Hr Ht Hl. induction Hts as [|now times Hn _ IH]; intros b Hr Ht Hl; cbn.
  { assert (0 <= ms_per_token b) by (apply Z.div_pos; lia). unfold NS_PER_MS. nia. }
  pose proof (refill_spec b now Hr Ht) as (Er & Ec & Hc & Hlast & Hcred).
  unfold try_take. assert (ms_per_token (refill b now) = ms_per_token b) as Eq
    by (unfold ms_per_token; by rewrite Er).
  destruct (Z.leb_spec 1 (tb_tokens (refill b now))).
  - match goal with |- context [run_takes ?x times] =>
      specialize (IH x ltac:(cbn; lia) ltac:(cbn; lia) ltac:(cbn; lia)) end.
    destruct (run_takes _ times) as [b' k]. unfold ms_per_token in *. cbn in *. rewrite Er in IH.
    rewrite <- Z.mul_assoc in *. generalize dependent (1000 / tb_refill_per_sec b * NS_PER_MS). lia.
  - specialize (IH (refill b now) ltac:(lia) ltac:(lia) ltac:(lia)). rewrite Eq in IH.
    destruct (run_takes _ times) as [b' k]. cbn in *.
    rewrite <- Z.mul_assoc in *. generalize dependent (ms_per_token b * NS_PER_MS). lia.
Qed.

(** The token bucket bounds new flows: from a fresh bucket with a rate of 1 to
    1000 per second, over attempts at any times up to [T], in any order, the
    number that get a token is at most the burst plus one for every
    [1000 / rate] whole milliseconds passed. *)
Theorem bucket_rate (capacity rate t0 T : Z) (times : list Z) :
  1 <= rate <= 1000 -> 0 <= capacity -> t0 <= T -> Forall (fun t => t <= T) times ->
  (run_takes (bucket_new capacity rate t0) times).2 <=
    capacity + (T - t0) / (1000 / rate * NS_PER_MS).
Proof.
  intros Hr Hc HT Hts.
  pose proof (run_takes_bound (bucket_new capacity rate t0) times T Hr ltac:(cbn; lia) HT Hts) as H.
  cbn in H. unfold ms_per_token in H. cbn in H.
  assert (1 <= 1000 / rate) as Hq by (apply Z.div_le_lower_bound; lia).
  cut ((run_takes (bucket_new capacity rate t0) times).2 - capacity <=
    (T - t0) / (1000 / rate * NS_PER_MS)).
  { generalize ((T - t0) / (1000 / rate * NS_PER_MS)). lia. }
  apply Z.div_le_lower_bound; [unfold NS_PER_MS; lia|].
  etransitivity; [|exact H]. apply Z.eq_le_incl. ring.
Qed.

Lemma bucket_rate_witness :
  (run_takes (bucket_new 2 32 0) [0; 0; 0; 32 * NS_PER_MS; 32 * NS_PER_MS]).2 = 3 /\
  (run_takes (bucket_new 2 32 0) [0; 0; 0; 32 * NS_PER_MS; 32 * NS_PER_MS]).2 <= 3.
Proof.
  split; [vm_compute; done|].
  apply (bucket_rate 2 32 0 (32 * NS_PER_MS)); [lia|lia|unfold NS_PER_MS; lia|].
  repeat constructor; unfold NS_PER_MS; lia.
Defined.

(** Above 1000 per second the bound fails: the credited tokens can stand for less
    than the millisecond the clock is advanced by, so one elapsed millisecond is
    credited again at every attempt. *)
Example bucket_unbounded_above_1000 :
  (run_takes (bucket_new 1 1500 0) (replicate 1000 NS_PER_MS)).2 = 1000.
Proof. vm_compute. done. Qed.
