(* ===== verification/TunBroker.v ===== *)
(** The UDP-egress broker: frames ([kennel-tun-broker/src/forward.rs],
    [icmp.rs]), the shape check of the facade the frames pass through
    ([kennel-facade/src/tun.rs]), the dial gate ([flow.rs],
    [kennel-host-delegate/src/netproxy/udp.rs]), the naming shim's answer
    ([shim.rs] [respond]) and the event loop ([serve.rs]).

    The DNS packet library is a parameter: a parser of queries and a builder of
    replies.  What the resolver, the kernel's [connect], the poller and the
    sockets answer is an input of each step, so every theorem holds whatever they
    answer and whatever the workload sends.

    Theorems: every live flow goes to an address the resolver returned for the
    name the shim gave the synthetic to, under a grant of that name and port;
    the loop's token maps stay in step with the flow table, within its cap; every
    frame the broker emits passes the facade's check and its checksum verifies. *)

From S2P Require Import Prelude Bytes Plan Settled Egress TunPool.
From stdpp Require Import gmap.
Open Scope Z_scope.

(** ** Frames *)

Definition IPV6_HEADER : Z := 40.
Definition UDP_HEADER : Z := 8.
Definition NEXT_UDP : Z := 17.
Definition NEXT_ICMPV6 : Z := 58.

Record Route : Type := { ro_name : bytes; ro_dst_port : Z; ro_src_port : Z; ro_payload : bytes }.

Definition be16 (buf : bytes) (off : Z) : option Z := be_val <$> get_range buf off (off + 2).

Definition route (frame : bytes) (pool : Pool) : option Route :=
  nh ← frame !! 6%nat;
  if nh =? NEXT_UDP then
    dst ← get_range frame 24 IPV6_HEADER;
    name ← name_of pool dst;
    src_port ← be16 frame IPV6_HEADER;
    dst_port ← be16 frame (IPV6_HEADER + 2);
    payload ← get_from frame (IPV6_HEADER + UDP_HEADER);
    Some {| ro_name := name; ro_dst_port := dst_port; ro_src_port := src_port; ro_payload := payload |}
  else None.

(** [sum] and the big-endian words of a slice, an odd last byte padded; wrapping. *)
Fixpoint add_words (sum : Z) (bs : bytes) : Z :=
  match bs with
  | a :: b :: bs => add_words ((sum + (a * 256 + b)) mod 2 ^ 32) bs
  | [a] => (sum + a * 256) mod 2 ^ 32
  | [] => sum
  end.

(** [while sum >> 16 != 0]: at most two rounds for a 32-bit sum. *)
Fixpoint fold_carries (fuel : nat) (sum : Z) : Z :=
  match fuel with
  | O => sum
  | S fuel => if Z.shiftr sum 16 =? 0 then sum
              else fold_carries fuel ((Z.land sum 65535 + Z.shiftr sum 16) mod 2 ^ 32)
  end.

Definition checksum_v6 (src dst : bytes) (next_header : Z) (payload : bytes) : Z :=
  let sum := add_words 0 src in
  let sum := add_words sum dst in
  let sum := add_words sum (be_bytes 4 (sat_u32 (blen payload))) in
  let sum := add_words sum [0; 0; 0; next_header] in
  let sum := add_words sum payload in
  65535 - fold_carries 3 sum mod 2 ^ 16.

(** An IPv6 header, traffic class and flow label 0, hop limit 64. *)
Definition ipv6_header (payload_len next_header : Z) (src dst : bytes) : bytes :=
  [96; 0; 0; 0] ++ be_bytes 2 payload_len ++ [next_header; 64] ++ src ++ dst.

Definition udp_datagram (src_port dst_port udp_len checksum : Z) (payload : bytes) : bytes :=
  be_bytes 2 src_port ++ be_bytes 2 dst_port ++ be_bytes 2 udp_len ++ be_bytes 2 checksum ++ payload.

Definition build_udp_datagram (src dst : bytes) (src_port dst_port : Z) (payload : bytes) :
    option bytes :=
  let udp_len := UDP_HEADER + blen payload in
  if udp_len <=? u16_max then
    let checksum := checksum_v6 src dst NEXT_UDP (udp_datagram src_port dst_port udp_len 0 payload) in
    let checksum := if checksum =? 0 then 65535 else checksum in
    Some (ipv6_header udp_len NEXT_UDP src dst ++
          udp_datagram src_port dst_port udp_len checksum payload)
  else None.

Definition DEST_UNREACH : Z := 1.
Definition CODE_ADMIN_PROHIBITED : Z := 1.
Definition CODE_PORT_UNREACHABLE : Z := 4.
Definition ICMP6_HEADER : Z := 8.
Definition MIN_MTU : Z := 1280.
Definition QUOTE_ROOM : Z := MIN_MTU - IPV6_HEADER - ICMP6_HEADER.

Definition icmp_message (code checksum : Z) (quote : bytes) : bytes :=
  [DEST_UNREACH; code] ++ be_bytes 2 checksum ++ [0; 0; 0; 0] ++ quote.

Definition build_dest_unreachable (src dst : bytes) (code : Z) (invoking : bytes) : bytes :=
  let quote := default invoking (get_range invoking 0 QUOTE_ROOM) in
  let checksum := checksum_v6 src dst NEXT_ICMPV6 (icmp_message code 0 quote) in
  let icmp := icmp_message code checksum quote in
  ipv6_header (Z.min u16_max (blen icmp)) NEXT_ICMPV6 src dst ++ icmp.

(** ** The facade's shape check *)

Definition prefix64 (addr : bytes) : bytes := take 8 addr.

Record Ipv6Header : Type := {
  ih_payload_len : Z; ih_next_header : Z; ih_src : bytes; ih_dst : bytes;
}.

Definition parse_ipv6 (frame : bytes) : option Ipv6Header :=
  v ← frame !! 0%nat;
  if Z.shiftr v 4 =? 6 then
    len ← be_val <$> get_range frame 4 6;
    if IPV6_HEADER + len =? blen frame then
      nh ← frame !! 6%nat;
      src ← get_range frame 8 24;
      dst ← get_range frame 24 40;
      Some {| ih_payload_len := len; ih_next_header := nh; ih_src := src; ih_dst := dst |}
    else None
  else None.

Definition egress_ok (frame kennel_addr prefix : bytes) : bool :=
  match parse_ipv6 frame with
  | None => false
  | Some h =>
      (ih_next_header h =? NEXT_UDP) && bool_decide (ih_src h = kennel_addr) &&
      bool_decide (prefix64 (ih_dst h) = prefix) && negb (bool_decide (ih_dst h = kennel_addr)) &&
      (UDP_HEADER <=? ih_payload_len h)
  end.

Definition ingress_ok (frame kennel_addr prefix : bytes) : bool :=
  match parse_ipv6 frame with
  | None => false
  | Some h =>
      if negb (bool_decide (ih_dst h = kennel_addr)) || negb (bool_decide (prefix64 (ih_src h) = prefix))
      then false
      else if ih_next_header h =? NEXT_UDP then UDP_HEADER <=? ih_payload_len h
      else if ih_next_header h =? NEXT_ICMPV6 then
        (4 <=? ih_payload_len h) && bool_decide (frame !! 40%nat = Some 1) &&
        match frame !! 41%nat with Some c => bool_decide (c ∈ [1; 4]) | None => false end
      else false
  end.

(** ** The dial gate *)

(** The kind of an I/O error, as far as [dial] looks. *)
Inductive IoKind : Type := IoNotFound | IoOther.
(** The host network as one step sees it: [getaddrinfo] and [connect]. *)
Record Net : Type := {
  net_getaddrinfo : bytes -> result IoKind (list ip_addr);
  net_connect : ip_addr -> Z -> bool;
}.

Definition udp_resolve (net : Net) (name : bytes) : result IoKind (list ip_addr) :=
  addrs ← net_getaddrinfo net name;
  match addrs with [] => Err IoNotFound | _ => Ok addrs end.

Inductive FlowError : Type := NotAllowed | Unresolved | Rebound | Resolve | Dial.

Definition dial (allow : list NameRule) (net : Net) (name : bytes) (port : Z) :
    result FlowError Sock :=
  if negb (allows allow name port) then Err NotAllowed
  else if (port =? 53) || (port =? 5353) then Err NotAllowed
  else
    match udp_resolve net name with
    | Err IoNotFound => Err Unresolved
    | Err IoOther => Err Resolve
    | Ok addrs =>
        match List.filter (fun a => negb (is_nonroutable_egress a)) addrs with
        | [] => Err Rebound
        | addrs =>
            match List.find (fun a => net_connect net a port) addrs with
            | Some a => Ok {| sk_addr := a; sk_port := port |}
            | None => Err Dial
            end
        end
    end.

(** ** The broker *)

Record Broker : Type := {
  br_kennel_addr : bytes; br_resolver_addr : bytes; br_allow : list NameRule;
  br_pool : Pool; br_table : FlowTable; br_bucket : TokenBucket;
}.

Inductive Egress : Type :=
  | EgNothing | EgToFacade (frame : bytes) | EgNewFlow (key : FlowKey) (socket : Sock).
Inductive Ingress : Type :=
  | InNothing | InToFacade (frame : bytes) | InToFacadeAndEvict (frame : bytes).

Record Ceilings : Type := {
  ce_max_flows : Z; ce_new_flow_burst : Z; ce_new_flow_per_sec : Z; ce_idle_timeout : Z;
}.

Definition QTYPE_AAAA : Z := 28.
Definition RESOLVER_HOST : Z := 2.
Definition DNS_PORT : Z := 53.
Definition FLOW_CAP : Z := 65536.

Definition broker_new (kennel_addr : bytes) (allow : list NameRule) (c : Ceilings) (now : Z) : Broker :=
  let prefix := prefix64 kennel_addr in
  {| br_kennel_addr := kennel_addr; br_resolver_addr := synthetic prefix RESOLVER_HOST;
     br_allow := allow; br_pool := pool_new prefix;
     br_table := table_new (ce_max_flows c) (ce_idle_timeout c);
     br_bucket := bucket_new (ce_new_flow_burst c) (ce_new_flow_per_sec c) now |}.

Definition with_pool (b : Broker) (p : Pool) : Broker :=
  {| br_kennel_addr := br_kennel_addr b; br_resolver_addr := br_resolver_addr b;
     br_allow := br_allow b; br_pool := p; br_table := br_table b; br_bucket := br_bucket b |}.
Definition with_table (b : Broker) (t : FlowTable) : Broker :=
  {| br_kennel_addr := br_kennel_addr b; br_resolver_addr := br_resolver_addr b;
     br_allow := br_allow b; br_pool := br_pool b; br_table := t; br_bucket := br_bucket b |}.
Definition with_bucket (b : Broker) (k : TokenBucket) : Broker :=
  {| br_kennel_addr := br_kennel_addr b; br_resolver_addr := br_resolver_addr b;
     br_allow := br_allow b; br_pool := br_pool b; br_table := br_table b; br_bucket := k |}.

Definition route_synthetic (frame : bytes) : option bytes := get_range frame 24 40.
Definition is_udp_to (frame addr : bytes) : bool :=
  bool_decide (frame !! 6%nat = Some NEXT_UDP) && bool_decide (route_synthetic frame = Some addr).
Definition udp_payload_and_src_port (frame : bytes) : option (bytes * Z) :=
  src_port ← be_val <$> get_range frame 40 42;
  payload ← get_from frame 48;
  Some (payload, src_port).

Section broker.
(** [simple_dns]: a parsed query with a question, as its name, its type and the
    packet; and the bytes of a reply to it, with an AAAA answer or without. *)
Context {Q : Type} (dns_parse : bytes -> option (bytes * Z * Q))
  (dns_reply : Q -> option bytes -> option bytes).

Definition shim_respond (query : bytes) (allow : list NameRule) (pool : Pool) (live : gset bytes) :
    Pool * option bytes :=
  match dns_parse query with
  | None => (pool, None)
  | Some (name, qtype, q) =>
      if qtype =? QTYPE_AAAA then
        match first_match allow name with
        | None => (pool, dns_reply q None)
        | Some grant => let '(pool, addr) := mint pool name grant live in (pool, dns_reply q addr)
        end
      else (pool, dns_reply q None)
  end.

Definition on_query (b : Broker) (frame : bytes) : Broker * Egress :=
  match udp_payload_and_src_port frame with
  | None => (b, EgNothing)
  | Some (payload, src_port) =>
      let live := live_synthetics (br_table b) in
      let '(pool, reply) := shim_respond payload (br_allow b) (br_pool b) live in
      (with_pool b pool,
       match reply with
       | None => EgNothing
       | Some reply =>
           match build_udp_datagram (br_resolver_addr b) (br_kennel_addr b) DNS_PORT src_port reply with
           | None => EgNothing
           | Some f => EgToFacade f
           end
       end)
  end.

(** What is sent on a flow socket is returned beside the outcome. *)
Definition on_egress (b : Broker) (frame : bytes) (now : Z) (net : Net) :
    Broker * Egress * list (Sock * bytes) :=
  if is_udp_to frame (br_resolver_addr b) then (on_query b frame, [])
  else
    match route frame (br_pool b) with
    | None => (b, EgNothing, [])
    | Some r =>
        let key := {| fk_synthetic := default (br_kennel_addr b) (route_synthetic frame);
                      fk_dst_port := ro_dst_port r; fk_src_port := ro_src_port r |} in
        let '(t, sock) := touch (br_table b) key now in
        match sock with
        | Some sock => (with_table b t, EgNothing, [(sock, ro_payload r)])
        | None =>
            let '(k, taken) := try_take (br_bucket b) now in
            let b := with_bucket b k in
            if negb taken then (b, EgNothing, [])
            else
              match dial (br_allow b) net (ro_name r) (ro_dst_port r) with
              | Ok socket => (b, EgNewFlow key socket, [(socket, ro_payload r)])
              | Err Resolve => (b, EgNothing, [])
              | Err _ => (b, EgToFacade (build_dest_unreachable (fk_synthetic key)
                              (br_kennel_addr b) CODE_ADMIN_PROHIBITED frame), [])
              end
        end
    end.

(** What [recv] on a flow socket returned. *)
Inductive FlowRecv : Type := FrDatagram (payload : bytes) | FrRefused | FrError.

Definition on_flow_readable (b : Broker) (key : FlowKey) (now : Z) (r : FlowRecv) :
    Broker * Ingress :=
  let '(t, sock) := touch (br_table b) key now in
  match sock with
  | None => (b, InNothing)
  | Some _ =>
      (with_table b t,
       match r with
       | FrDatagram payload =>
           match build_udp_datagram (fk_synthetic key) (br_kennel_addr b) (fk_dst_port key)
                   (fk_src_port key) (take (Z.to_nat FLOW_CAP) payload) with
           | None => InNothing
           | Some f => InToFacade f
           end
       | FrRefused =>
           let invoking := default [] (build_udp_datagram (br_kennel_addr b) (fk_synthetic key)
                             (fk_src_port key) (fk_dst_port key) []) in
           InToFacadeAndEvict (build_dest_unreachable (fk_synthetic key) (br_kennel_addr b)
             CODE_PORT_UNREACHABLE invoking)
       | FrError => InNothing
       end)
  end.

(** ** The event loop *)

Record Loop : Type := {
  lp_broker : Broker; lp_next_token : Z;
  lp_token_key : gmap Z FlowKey; lp_key_token : gmap FlowKey Z;
  lp_facade : list bytes; lp_sent : list (Sock * bytes);
}.

(** What [recv] on the facade channel returned. *)
Inductive FacadeRecv : Type := FaFrame (frame : bytes) | FaClosed | FaWouldBlock | FaError.

(** One entry of a poll, with what the calls its handling makes will answer. *)
Inductive Ready : Type :=
  | RdFacade (hangup : bool) (r : FacadeRecv) (poll_ok : bool) (net : Net)
  | RdFlow (token : Z) (r : FlowRecv).

Definition loop_new (b : Broker) : Loop :=
  {| lp_broker := b; lp_next_token := 1; lp_token_key := ∅; lp_key_token := ∅; lp_facade := [];
     lp_sent := [] |}.

Definition set_broker (l : Loop) (b : Broker) : Loop :=
  {| lp_broker := b; lp_next_token := lp_next_token l; lp_token_key := lp_token_key l;
     lp_key_token := lp_key_token l; lp_facade := lp_facade l; lp_sent := lp_sent l |}.
Definition emit (l : Loop) (frame : bytes) : Loop :=
  {| lp_broker := lp_broker l; lp_next_token := lp_next_token l; lp_token_key := lp_token_key l;
     lp_key_token := lp_key_token l; lp_facade := lp_facade l ++ [frame]; lp_sent := lp_sent l |}.
Definition send_all (l : Loop) (s : list (Sock * bytes)) : Loop :=
  {| lp_broker := lp_broker l; lp_next_token := lp_next_token l; lp_token_key := lp_token_key l;
     lp_key_token := lp_key_token l; lp_facade := lp_facade l; lp_sent := lp_sent l ++ s |}.

(** Register a dialled flow: its token is spent, and kept if the poller and the
    table take it. *)
Definition register (l : Loop) (key : FlowKey) (socket : Sock) (now : Z) (poll_ok : bool) : Loop :=
  let token := lp_next_token l in
  let next := sat_add u64_max token 1 in
  let failed := {| lp_broker := lp_broker l; lp_next_token := next; lp_token_key := lp_token_key l;
                   lp_key_token := lp_key_token l; lp_facade := lp_facade l; lp_sent := lp_sent l |} in
  if negb poll_ok then failed else
  match admit_flow (br_table (lp_broker l)) key socket now with
  | (_, Err _) => failed
  | (t, Ok _) => {| lp_broker := with_table (lp_broker l) t; lp_next_token := next;
                    lp_token_key := <[token := key]> (lp_token_key l);
                    lp_key_token := <[key := token]> (lp_key_token l);
                    lp_facade := lp_facade l; lp_sent := lp_sent l |}
  end.

(** Release the token of an evicted flow. *)
Definition release_token (l : Loop) (key : FlowKey) : Loop :=
  match lp_key_token l !! key with
  | None => l
  | Some token => {| lp_broker := lp_broker l; lp_next_token := lp_next_token l;
                     lp_token_key := delete token (lp_token_key l);
                     lp_key_token := delete key (lp_key_token l);
                     lp_facade := lp_facade l; lp_sent := lp_sent l |}
  end.

(** One entry: [inl] goes on, [inr] leaves the loop. *)
Definition handle_ready (l : Loop) (now : Z) (r : Ready) : Loop + Loop :=
  match r with
  | RdFacade true _ _ _ => inr l
  | RdFacade false FaClosed _ _ | RdFacade false FaError _ _ => inr l
  | RdFacade false FaWouldBlock _ _ => inl l
  | RdFacade false (FaFrame frame) poll_ok net =>
      let '(b, out, sent) := on_egress (lp_broker l) frame now net in
      let l := send_all (set_broker l b) sent in
      inl match out with
          | EgNothing => l
          | EgToFacade f => emit l f
          | EgNewFlow key socket => register l key socket now poll_ok
          end
  | RdFlow token r =>
      match lp_token_key l !! token with
      | None => inl l
      | Some key =>
          let '(b, out) := on_flow_readable (lp_broker l) key now r in
          let l := set_broker l b in
          inl match out with
              | InNothing => l
              | InToFacade f => emit l f
              | InToFacadeAndEvict f =>
                  let l := emit l f in
                  release_token (set_broker l (with_table (lp_broker l)
                    (remove_flow (br_table (lp_broker l)) key))) key
              end
      end
  end.

Fixpoint handle_all (l : Loop) (now : Z) (rs : list Ready) : Loop + Loop :=
  match rs with
  | [] => inl l
  | r :: rs => match handle_ready l now r with
               | inl l => handle_all l now rs
               | inr l => inr l
               end
  end.

Definition sweep_loop (l : Loop) (now : Z) : Loop :=
  let '(t, gone) := sweep (br_table (lp_broker l)) now in
  fold_left release_token gone (set_broker l (with_table (lp_broker l) t)).

(** [run], over the polls it makes; it ends with them, or when it leaves. *)
Fixpoint run_loop (l : Loop) (polls : list (Z * list Ready)) : Loop :=
  match polls with
  | [] => l
  | (now, rs) :: polls =>
      match handle_all l now rs with
      | inl l => run_loop (sweep_loop l now) polls
      | inr l => l
      end
  end.
End broker.

(** * Frames *)

Lemma be_bytes_2 v : be_bytes 2 v = [v / 256 mod 256; v mod 256].
Proof. done. Qed.

Lemma be_val_bytes_2 v : 0 <= v <= u16_max -> be_val (be_bytes 2 v) = v.
Proof. intros H. apply (ne_val_bytes BigEndian). change (256 ^ Z.of_nat 2) with 65536. in_range. Qed.

(** A frame with a 40-byte header and a body of the stated length parses to its
    header fields. *)
Lemma parse_ipv6_header len nh src dst body :
  blen src = 16 -> blen dst = 16 -> len = blen body -> len <= u16_max ->
  parse_ipv6 (ipv6_header len nh src dst ++ body) =
    Some {| ih_payload_len := len; ih_next_header := nh; ih_src := src; ih_dst := dst |}.
Proof.
  intros Hs Hd Hl Hm. set (hd := [96; 0; 0; 0; len / 256 mod 256; len mod 256; nh; 64]).
  assert (ipv6_header len nh src dst ++ body = hd ++ src ++ dst ++ body) as E.
  { unfold ipv6_header. rewrite be_bytes_2. cbn. by rewrite <- app_assoc. }
  rewrite E. clear E. set (f := hd ++ src ++ dst ++ body).
  assert (f !! 0%nat = Some 96) as E0 by done. assert (f !! 6%nat = Some nh) as E6 by done.
  assert (get_range f 4 6 = Some (be_bytes 2 len)) as E4
    by (apply (get_range_eq f [96; 0; 0; 0] _ ([nh; 64] ++ src ++ dst ++ body)); done).
  assert (get_range f 8 24 = Some src) as Es
    by (apply (get_range_eq f hd _ (dst ++ body)); [done|done|lia]).
  assert (get_range f 24 40 = Some dst) as Ed
    by (apply (get_range_eq f (hd ++ src) _ body); [unfold f; by rewrite <- app_assoc|
        rewrite blen_app, Hs; done|lia]).
  assert (blen f = IPV6_HEADER + len) as Ef
    by (unfold f; rewrite !blen_app, Hs, Hd, Hl; unfold IPV6_HEADER; cbn [length hd]; lia).
  unfold parse_ipv6. rewrite E0. cbn [mbind option_bind]. change (Z.shiftr 96 4 =? 6) with true.
  rewrite E4. cbn [fmap option_fmap option_map mbind option_bind].
  rewrite be_val_bytes_2 by (rewrite Hl in *; in_range).
  rewrite Ef, Z.eqb_refl, E6. cbn [mbind option_bind]. rewrite Es. cbn [mbind option_bind].
  by rewrite Ed.
Qed.

(** ** Checksums *)

(** The unbounded sum of the words. *)
Fixpoint word_sum (bs : bytes) : Z :=
  match bs with
  | a :: b :: bs => a * 256 + b + word_sum bs
  | [a] => a * 256
  | [] => 0
  end.

(** Induction two bytes at a time. *)
Lemma pairs_ind (P : bytes -> Prop) :
  P [] -> (forall a, P [a]) -> (forall a b bs, P bs -> P (a :: b :: bs)) -> forall bs, P bs.
Proof.
  intros H0 H1 H2 bs. assert (P bs /\ forall a, P (a :: bs)) as [? _]; [|done].
  induction bs as [|b bs [IH IH']]; [auto|]. split; [apply IH'|]. intros a. by apply H2.
Qed.

Lemma word_sum_bound bs : bytes_ok bs -> 0 <= word_sum bs /\ 2 * word_sum bs <= 65535 * (blen bs + 1).
Proof.
  induction bs as [|a|a b bs IH] using pairs_ind; intros H; cbn -[Z.of_nat Z.mul].
  - lia.
  - apply Forall_cons in H as [Ha _]. unfold byte_ok in Ha. lia.
  - apply Forall_cons in H as [Ha H]. apply Forall_cons in H as [Hb H]. unfold byte_ok in *.
    specialize (IH H). cbn [length]. lia.
Qed.

Lemma word_sum_app bs rest :
  Nat.Even (length bs) -> word_sum (bs ++ rest) = word_sum bs + word_sum rest.
Proof.
  induction bs as [|a|a b bs IH] using pairs_ind; cbn -[Z.mul].
  - lia.
  - intros [k Hk]. lia.
  - intros [k Hk]. rewrite IH; [lia|]. exists (k - 1)%nat. lia.
Qed.

Lemma add_words_sum s bs :
  bytes_ok bs -> 0 <= s -> s + word_sum bs < 2 ^ 32 -> add_words s bs = s + word_sum bs.
Proof.
  revert s. induction bs as [|a|a b bs IH] using pairs_ind; intros s H Hs Hb; cbn -[Z.mul Z.pow] in *.
  - lia.
  - apply Forall_cons in H as [Ha _]. unfold byte_ok in Ha. apply Z.mod_small. lia.
  - apply Forall_cons in H as [Ha H]. apply Forall_cons in H as [Hb' H]. unfold byte_ok in *.
    pose proof (word_sum_bound bs H). rewrite Z.mod_small by lia. rewrite IH; [lia|done|lia|lia].
Qed.

(** The carry loop ends within two rounds, on a 16-bit value congruent to the sum
    modulo [2^16 - 1], and zero only for a zero sum. *)
Lemma fold_carries_spec s :
  0 <= s < 2 ^ 32 ->
  0 <= fold_carries 3 s < 2 ^ 16 /\ (65535 | s - fold_carries 3 s) /\ (fold_carries 3 s = 0 <-> s = 0).
Proof.
  assert (forall n s, 0 <= s < 2 ^ 32 ->
    fold_carries (S n) s = if s <? 65536 then s else fold_carries n (s mod 65536 + s / 65536)) as Hstep.
  { intros n x Hx. cbn. rewrite Z.shiftr_div_pow2 by lia.
    change 65535 with (Z.ones 16). rewrite Z.land_ones by lia. change (2 ^ 16) with 65536.
    pose proof (Z.mod_pos_bound x 65536). pose proof (Z.div_mod x 65536).
    destruct (Z.ltb_spec x 65536); [by rewrite (Z.div_small x) by lia|].
    assert (1 <= x / 65536) by (apply Z.div_le_lower_bound; lia).
    destruct (Z.eqb_spec (x / 65536) 0); [lia|]. by rewrite Z.mod_small by lia. }
  intros Hs. pose proof (Z.mod_pos_bound s 65536). pose proof (Z.div_mod s 65536).
  assert (s / 65536 < 65536) by (apply Z.div_lt_upper_bound; lia).
  assert (0 <= s / 65536) by (apply Z.div_pos; lia).
  rewrite (Hstep 2%nat) by lia. destruct (Z.ltb_spec s 65536).
  { split_and!; [lia|lia|exists 0; lia|done]. }
  set (s1 := s mod 65536 + s / 65536) in *.
  rewrite (Hstep 1%nat) by lia. destruct (Z.ltb_spec s1 65536).
  { split_and!; [lia|lia|exists (s / 65536); lia|lia]. }
  pose proof (Z.mod_pos_bound s1 65536). pose proof (Z.div_mod s1 65536).
  assert (s1 / 65536 = 1) as E1 by (symmetry; apply (Z.div_unique s1 65536 1 (s1 - 65536)); lia).
  rewrite (Hstep 0%nat) by lia. rewrite E1. destruct (Z.ltb_spec (s1 mod 65536 + 1) 65536); [|lia].
  split_and!; [lia|lia|exists (s / 65536 + 1); lia|lia].
Qed.

(** The sum the checksum is computed from. *)
Definition pseudo_sum (src dst : bytes) (nh : Z) (payload : bytes) : Z :=
  word_sum src + word_sum dst + word_sum (be_bytes 4 (sat_u32 (blen payload))) + nh + word_sum payload.

Lemma checksum_v6_eq src dst nh payload :
  bytes_ok src -> bytes_ok dst -> bytes_ok payload -> 0 <= nh <= 255 ->
  blen src = 16 -> blen dst = 16 -> blen payload <= u16_max ->
  0 <= pseudo_sum src dst nh payload < 2 ^ 32 - 65536 /\
  checksum_v6 src dst nh payload = 65535 - fold_carries 3 (pseudo_sum src dst nh payload).
Proof.
  intros Hs Hd Hp Hn Ls Ld Lp. set (len := be_bytes 4 (sat_u32 (blen payload))).
  assert (bytes_ok len) as Hl by apply (ne_bytes_ok BigEndian).
  assert (blen len = 4) as Ll by done.
  pose proof (word_sum_bound src Hs). pose proof (word_sum_bound dst Hd).
  pose proof (word_sum_bound len Hl). pose proof (word_sum_bound payload Hp).
  assert (word_sum [0; 0; 0; nh] = nh) as En by (cbn; lia).
  assert (bytes_ok [0; 0; 0; nh]) as Hok by (repeat constructor; unfold byte_ok; lia).
  assert (0 <= pseudo_sum src dst nh payload < 2 ^ 32 - 65536) as Hb
    by (unfold pseudo_sum; fold len; in_range).
  split; [done|]. unfold checksum_v6, pseudo_sum in *. fold len in Hb |- *. cbv zeta.
  rewrite (add_words_sum 0 src), (add_words_sum _ dst), (add_words_sum _ len),
    (add_words_sum _ [0; 0; 0; nh]), (add_words_sum _ payload); rewrite ?En; try done; try lia.
  rewrite !Z.add_0_l. f_equal. apply Z.mod_small. apply fold_carries_spec. lia.
Qed.

(** Putting the computed checksum (or, for a zero one, [ffff]) in a zeroed word
    makes the receiver's sum come out as zero. *)
Lemma checksum_fills src dst nh pre post c :
  let zeroed := pre ++ be_bytes 2 0 ++ post in
  let filled := pre ++ be_bytes 2 c ++ post in
  bytes_ok src -> bytes_ok dst -> bytes_ok zeroed -> 0 <= nh <= 255 ->
  blen src = 16 -> blen dst = 16 -> blen zeroed <= u16_max -> Nat.Even (length pre) ->
  0 < pseudo_sum src dst nh zeroed ->
  c = checksum_v6 src dst nh zeroed \/ checksum_v6 src dst nh zeroed = 0 /\ c = 65535 ->
  checksum_v6 src dst nh filled = 0.
Proof.
  intros zeroed filled Hs Hd Hz Hn Ls Ld Lz He Hpos Hc.
  destruct (checksum_v6_eq src dst nh zeroed) as [Hb E]; try done.
  destruct (fold_carries_spec (pseudo_sum src dst nh zeroed)) as (Hf & [k Hk] & Hf0); [lia|].
  assert (0 <= c <= u16_max) as Hc16 by in_range.
  assert (blen filled = blen zeroed) as Elen by (unfold filled, zeroed; rewrite !blen_app; done).
  assert (bytes_ok filled) as Hfil.
  { unfold filled, zeroed, bytes_ok in *. rewrite !Forall_app in *.
    split_and!; [apply Hz|apply (ne_bytes_ok BigEndian)|apply Hz]. }
  assert (word_sum (be_bytes 2 c) = c) as Ec.
  { rewrite be_bytes_2. cbn -[Z.mul Z.div Z.modulo]. pose proof (Z.div_mod c 256).
    rewrite (Z.mod_small (c / 256)); [lia|].
    split; [apply Z.div_pos; lia|apply Z.div_lt_upper_bound; in_range]. }
  assert (pseudo_sum src dst nh filled = pseudo_sum src dst nh zeroed + c) as Esum.
  { unfold pseudo_sum. rewrite Elen. unfold filled, zeroed.
    rewrite !(word_sum_app pre), !(word_sum_app (be_bytes 2 _)), Ec by (done || by exists 1%nat).
    change (word_sum (be_bytes 2 0)) with 0. lia. }
  destruct (checksum_v6_eq src dst nh filled) as [Hb' E']; try done; [by rewrite Elen|].
  rewrite E', Esum. destruct (fold_carries_spec (pseudo_sum src dst nh zeroed + c)) as (Hg & [j Hj] & Hg0);
    [in_range|].
  assert (fold_carries 3 (pseudo_sum src dst nh zeroed + c) <> 0) by (rewrite Hg0; lia).
  assert (exists i, fold_carries 3 (pseudo_sum src dst nh zeroed + c) = 65535 * i) as [i Hi].
  { destruct Hc as [->|[Hc0 ->]]; [exists (k - j + 1)|exists (k - j + 2)]; lia. }
  lia.
Qed.

(** ** Built frames *)

Lemma length_ipv6_header len nh src dst :
  blen src = 16 -> blen dst = 16 -> blen (ipv6_header len nh src dst) = 40.
Proof.
  intros Hs Hd. unfold ipv6_header. rewrite !blen_app, Hs, Hd, be_bytes_2. cbn [length]. lia.
Qed.

Lemma drop_ipv6_header len nh src dst body :
  blen src = 16 -> blen dst = 16 -> drop 40 (ipv6_header len nh src dst ++ body) = body.
Proof. intros. apply drop_app_length'. pose proof (length_ipv6_header len nh src dst). lia. Qed.

Lemma blen_udp_datagram sp dp len c payload : blen (udp_datagram sp dp len c payload) = 8 + blen payload.
Proof. unfold udp_datagram. rewrite !be_bytes_2. cbn [app length]. lia. Qed.

Lemma blen_icmp code c quote : blen (icmp_message code c quote) = 8 + blen quote.
Proof. unfold icmp_message. rewrite be_bytes_2. cbn [app length]. lia. Qed.

Lemma udp_datagram_ok sp dp len c payload : bytes_ok payload -> bytes_ok (udp_datagram sp dp len c payload).
Proof.
  intros Hp. unfold udp_datagram, bytes_ok. rewrite !Forall_app.
  split_and!; [apply (ne_bytes_ok BigEndian)..|done].
Qed.

Lemma word_sum_be2 v : 0 <= word_sum (be_bytes 2 v).
Proof. apply word_sum_bound, (ne_bytes_ok BigEndian). Qed.

(** A UDP frame the broker builds, from its parts. *)
Lemma build_udp_Some src dst sp dp payload f :
  build_udp_datagram src dst sp dp payload = Some f ->
  exists c, f = ipv6_header (8 + blen payload) NEXT_UDP src dst ++
                udp_datagram sp dp (8 + blen payload) c payload /\
    8 + blen payload <= u16_max /\
    let c0 := checksum_v6 src dst NEXT_UDP (udp_datagram sp dp (8 + blen payload) 0 payload) in
    (c = c0 \/ c0 = 0 /\ c = 65535).
Proof.
  unfold build_udp_datagram, UDP_HEADER. destruct (Z.leb_spec (8 + blen payload) u16_max); [|done].
  set (c0 := checksum_v6 _ _ _ _). intros <-%(inj Some).
  exists (if c0 =? 0 then 65535 else c0). split_and!; [reflexivity|done|]. cbv zeta.
  destruct (Z.eqb_spec c0 0); auto.
Qed.

Lemma udp_frame_ingress src dst sp dp payload f :
  blen src = 16 -> blen dst = 16 -> build_udp_datagram src dst sp dp payload = Some f ->
  ingress_ok f dst (prefix64 src) = true.
Proof.
  intros Hs Hd (c & -> & Hl & _)%build_udp_Some. unfold ingress_ok.
  rewrite parse_ipv6_header; [|done|done|by rewrite blen_udp_datagram|done]. cbn [ih_dst ih_src].
  rewrite !bool_decide_true by done. cbn. unfold UDP_HEADER. apply Z.leb_le. lia.
Qed.

Lemma udp_frame_checksum src dst sp dp payload f :
  bytes_ok src -> bytes_ok dst -> bytes_ok payload -> blen src = 16 -> blen dst = 16 ->
  build_udp_datagram src dst sp dp payload = Some f ->
  checksum_v6 src dst NEXT_UDP (drop 40 f) = 0.
Proof.
  intros Hs Hd Hp Ls Ld (c & -> & Hl & Hc)%build_udp_Some. rewrite drop_ipv6_header by done.
  set (len := 8 + blen payload) in *. set (pre := be_bytes 2 sp ++ be_bytes 2 dp ++ be_bytes 2 len).
  assert (forall c, udp_datagram sp dp len c payload = pre ++ be_bytes 2 c ++ payload) as E
    by (intros; unfold udp_datagram, pre; by rewrite <- !app_assoc).
  pose proof (udp_datagram_ok sp dp len 0 payload Hp) as Hz. rewrite !E in Hc. rewrite E in Hz |- *.
  eapply checksum_fills; try done.
  - rewrite <- E, blen_udp_datagram. done.
  - by exists 3%nat.
  - unfold pseudo_sum. pose proof (word_sum_bound src Hs). pose proof (word_sum_bound dst Hd).
    pose proof (word_sum_bound _ Hz).
    pose proof (word_sum_bound _ (ne_bytes_ok BigEndian 4 (sat_u32 (blen (pre ++ be_bytes 2 0 ++ payload))))).
    cbn [ne_bytes] in *. unfold NEXT_UDP. lia.
Qed.

Lemma udp_frame_route pool name src dst sp dp payload f :
  in_u16 sp -> in_u16 dp -> blen src = 16 -> blen dst = 16 ->
  build_udp_datagram src dst sp dp payload = Some f -> name_of pool dst = Some name ->
  route f pool = Some {| ro_name := name; ro_dst_port := dp; ro_src_port := sp; ro_payload := payload |}.
Proof.
  intros Hsp Hdp Ls Ld (c & -> & Hl & _)%build_udp_Some Hn.
  set (len := 8 + blen payload) in *. set (h := ipv6_header len NEXT_UDP src dst).
  assert (blen h = 40) as Lh by (by apply length_ipv6_header).
  set (f := h ++ udp_datagram sp dp len c payload).
  assert (f !! 6%nat = Some NEXT_UDP) as E6 by done.
  assert (get_range f 24 IPV6_HEADER = Some dst) as Ed.
  { apply (get_range_eq f ([96; 0; 0; 0] ++ be_bytes 2 len ++ [NEXT_UDP; 64] ++ src) _
      (udp_datagram sp dp len c payload)).
    - unfold f, h, ipv6_header. by rewrite <- !app_assoc.
    - rewrite !blen_app, Ls. done.
    - rewrite Ld. done. }
  assert (get_range f 40 42 = Some (be_bytes 2 sp)) as Es.
  { apply (get_range_eq f h _ (be_bytes 2 dp ++ be_bytes 2 len ++ be_bytes 2 c ++ payload)); done. }
  assert (get_range f 42 44 = Some (be_bytes 2 dp)) as Edp.
  { apply (get_range_eq f (h ++ be_bytes 2 sp) _ (be_bytes 2 len ++ be_bytes 2 c ++ payload)).
    - unfold f, udp_datagram. by rewrite <- !app_assoc.
    - rewrite blen_app, Lh. done.
    - done. }
  assert (get_from f 48 = Some payload) as Ep.
  { apply (get_from_eq f (h ++ be_bytes 2 sp ++ be_bytes 2 dp ++ be_bytes 2 len ++ be_bytes 2 c)).
    - unfold f, udp_datagram. by rewrite <- !app_assoc.
    - rewrite !blen_app, Lh. done. }
  unfold route. rewrite E6. cbn [mbind option_bind]. rewrite Z.eqb_refl, Ed. cbn [mbind option_bind].
  rewrite Hn. cbn [mbind option_bind]. unfold be16.
  change (IPV6_HEADER + 2) with 42. change (42 + 2) with 44. change (IPV6_HEADER + UDP_HEADER) with 48.
  change IPV6_HEADER with 40. change (40 + 2) with 42. rewrite Es, Edp, Ep. cbn.
  change (be_val [sp / 256 mod 256; sp mod 256]) with (be_val (be_bytes 2 sp)).
  change (be_val [dp / 256 mod 256; dp mod 256]) with (be_val (be_bytes 2 dp)).
  rewrite !be_val_bytes_2 by in_range. done.
Qed.

Lemma quote_spec invoking :
  default invoking (get_range invoking 0 QUOTE_ROOM) = take (Z.to_nat QUOTE_ROOM) invoking.
Proof.
  unfold get_range. destruct ((0 <=? 0) && (0 <=? QUOTE_ROOM) && (QUOTE_ROOM <=? blen invoking)) eqn:E; cbn.
  - done.
  - symmetry. apply take_ge. unfold QUOTE_ROOM, MIN_MTU, IPV6_HEADER, ICMP6_HEADER in *. cbn in E. lia.
Qed.

Lemma icmp_frame_ingress src dst code invoking :
  blen src = 16 -> blen dst = 16 -> code = CODE_ADMIN_PROHIBITED \/ code = CODE_PORT_UNREACHABLE ->
  ingress_ok (build_dest_unreachable src dst code invoking) dst (prefix64 src) = true /\
  blen (build_dest_unreachable src dst code invoking) <= MIN_MTU.
Proof.
  intros Hs Hd Hc. unfold build_dest_unreachable. rewrite quote_spec.
  set (q := take (Z.to_nat QUOTE_ROOM) invoking).
  assert (blen q <= QUOTE_ROOM) as Hq
    by (unfold q; rewrite length_take; unfold QUOTE_ROOM, MIN_MTU, IPV6_HEADER, ICMP6_HEADER; lia).
  set (c := checksum_v6 _ _ _ _). set (icmp := icmp_message code c q).
  assert (blen icmp = 8 + blen q) as Li by apply blen_icmp.
  unfold QUOTE_ROOM, MIN_MTU, IPV6_HEADER, ICMP6_HEADER in *.
  replace (Z.min u16_max (blen icmp)) with (blen icmp) by in_range.
  pose proof (length_ipv6_header (blen icmp) NEXT_ICMPV6 src dst Hs Hd) as Lh. split.
  - unfold ingress_ok. rewrite parse_ipv6_header; [|done|done|done|in_range]. cbn [ih_dst ih_src].
    rewrite !bool_decide_true by done. cbn [negb orb ih_next_header ih_payload_len].
    change (NEXT_ICMPV6 =? NEXT_UDP) with false. rewrite Z.eqb_refl. cbn iota.
    rewrite !lookup_app_r by lia.
    replace (40 - length (ipv6_header (blen icmp) NEXT_ICMPV6 src dst))%nat with 0%nat by lia.
    replace (41 - length (ipv6_header (blen icmp) NEXT_ICMPV6 src dst))%nat with 1%nat by lia.
    unfold icmp, icmp_message. cbn -[Z.leb be_bytes length]. fold icmp.
    rewrite (proj2 (Z.leb_le _ _)) by (unfold icmp, icmp_message in Li; cbn in Li |- *; lia).
    rewrite bool_decide_true by done. cbn. apply bool_decide_eq_true.
    destruct Hc as [->| ->]; set_solver.
  - rewrite blen_app, Lh. lia.
Qed.

Lemma icmp_frame_checksum src dst code invoking :
  bytes_ok src -> bytes_ok dst -> bytes_ok invoking -> 0 <= code <= 255 ->
  blen src = 16 -> blen dst = 16 ->
  checksum_v6 src dst NEXT_ICMPV6 (drop 40 (build_dest_unreachable src dst code invoking)) = 0.
Proof.
  intros Hs Hd Hi Hc Ls Ld. unfold build_dest_unreachable. rewrite drop_ipv6_header by done.
  rewrite quote_spec. set (q := take (Z.to_nat QUOTE_ROOM) invoking).
  assert (forall c, icmp_message code c q = [DEST_UNREACH; code] ++ be_bytes 2 c ++ ([0; 0; 0; 0] ++ q)) as E
    by done.
  assert (bytes_ok (icmp_message code 0 q)) as Hz.
  { unfold icmp_message, bytes_ok. rewrite !Forall_app. split_and!.
    - repeat constructor; unfold byte_ok, DEST_UNREACH; lia.
    - apply (ne_bytes_ok BigEndian).
    - repeat constructor; done.
    - by apply Forall_take. }
  assert (blen q <= QUOTE_ROOM) as Hq
    by (unfold q; rewrite length_take; unfold QUOTE_ROOM, MIN_MTU, IPV6_HEADER, ICMP6_HEADER; lia).
  pose proof (blen_icmp code 0 q) as Li. rewrite !E in *.
  eapply checksum_fills; try done; [|by exists 1%nat| |by left].
  - rewrite Li. unfold QUOTE_ROOM, MIN_MTU, IPV6_HEADER, ICMP6_HEADER in *. in_range.
  - unfold pseudo_sum. pose proof (word_sum_bound src Hs). pose proof (word_sum_bound dst Hd).
    pose proof (word_sum_bound _ Hz).
    match goal with |- context [word_sum (be_bytes 4 ?v)] =>
      pose proof (word_sum_bound _ (ne_bytes_ok BigEndian 4 v)) end.
    cbn [ne_bytes] in *. unfold NEXT_ICMPV6. lia.
Qed.

(** * The loop *)

Section loop.
Context {Q : Type} (dns_parse : bytes -> option (bytes * Z * Q))
  (dns_reply : Q -> option bytes -> option bytes).
(** The kennel's tun address, its grants, the flow cap, and the name and address
    pairs the resolver has answered with. *)
Context (K : bytes) (rules : list NameRule) (cap : Z) (answers : bytes -> ip_addr -> Prop).
Context (HK : blen K = 16).

(** A socket to an address the resolver gave for [name], on a port [name] is
    granted, which is not a DNS port; the address is routable. *)
Definition granted_for (name : bytes) (s : Sock) : Prop :=
  allows rules name (sk_port s) = true /\ sk_port s <> 53 /\ sk_port s <> 5353 /\
  answers name (sk_addr s) /\ is_nonroutable_egress (sk_addr s) = false.

Definition flow_ok (p : Pool) (k : FlowKey) (s : Sock) : Prop :=
  exists name m, po_mapping p !! name = Some m /\ mt_addr m = fk_synthetic k /\
    granted_for name s /\ sk_port s = fk_dst_port k.

Record broker_ok (n : Z) (b : Broker) : Prop := {
  bo_kennel : br_kennel_addr b = K;
  bo_resolver : br_resolver_addr b = synthetic (prefix64 K) RESOLVER_HOST;
  bo_allow : br_allow b = rules;
  bo_prefix : po_prefix (br_pool b) = prefix64 K;
  bo_pool : pool_ok (br_pool b);
  bo_tick : po_tick (br_pool b) <= n;
  bo_names nm m : po_mapping (br_pool b) !! nm = Some m -> first_match rules nm = Some (mt_grant m);
  bo_flows k f : ft_flows (br_table b) !! k = Some f -> flow_ok (br_pool b) k (fl_socket f);
  bo_cap : ft_max_flows (br_table b) = cap;
  bo_size : Z.of_nat (size (ft_flows (br_table b))) <= cap;
}.

Definition net_ok (net : Net) : Prop :=
  forall name l a, net_getaddrinfo net name = Ok l -> a ∈ l -> answers name a.

Definition frame_ok (f : bytes) : Prop := ingress_ok f K (prefix64 K) = true.

Lemma dial_granted net name port s :
  net_ok net -> dial rules net name port = Ok s -> granted_for name s /\ sk_port s = port.
Proof.
  intros Hnet. unfold dial. destruct (allows rules name port) eqn:Ea; [|done]. cbn [negb].
  destruct (Z.eqb_spec port 53); [done|]. destruct (Z.eqb_spec port 5353); [done|]. cbn [orb].
  unfold udp_resolve. destruct (net_getaddrinfo net name) as [l|[]] eqn:El; try done. cbn.
  destruct l as [|a0 l]; [done|]. set (all := a0 :: l) in *. cbn iota.
  destruct (List.filter _ all) as [|a1 l1] eqn:Ef; [done|].
  change (if net_connect net a1 port then Some a1 else _)
    with (List.find (fun a => net_connect net a port) (a1 :: l1)).
  destruct (List.find _ (a1 :: l1)) as [a|] eqn:Ec; [|done].
  intros [= <-]. cbn.
  apply find_some in Ec as [Hin _]. rewrite <- Ef in Hin. apply filter_In in Hin as [Hin Hr].
  apply list_elem_of_In in Hin. unfold granted_for. cbn. split_and!; try done.
  - by apply (Hnet name all).
  - by apply negb_true_iff.
Qed.

Lemma prefix64_synthetic h : prefix64 (synthetic (prefix64 K) h) = prefix64 K.
Proof.
  unfold prefix64, synthetic. rewrite take_app_le by (rewrite length_take; lia).
  rewrite take_take. f_equal.
Qed.

Lemma blen_synthetic h : blen (synthetic (prefix64 K) h) = 16.
Proof.
  unfold synthetic, prefix64. rewrite blen_app, length_take.
  change (length (be_bytes 8 h)) with 8%nat. lia.
Qed.

(** A minted address is in the tun's /64. *)
Lemma minted_in_64 n b nm m :
  broker_ok n b -> po_mapping (br_pool b) !! nm = Some m ->
  prefix64 (mt_addr m) = prefix64 K /\ blen (mt_addr m) = 16.
Proof.
  intros Hb Hm. destruct (ok_addr _ (bo_pool n b Hb) nm m Hm) as (h & _ & ->).
  rewrite (bo_prefix n b Hb). split; [apply prefix64_synthetic|apply blen_synthetic].
Qed.

Lemma broker_ok_mono n n' b : n <= n' -> broker_ok n b -> broker_ok n' b.
Proof. intros Hn []. constructor; try done. lia. Qed.

(** A query keeps every flow's mint: only mints without a live flow go. *)
Lemma mint_keeps_flows n b nm g :
  broker_ok n b -> n + FIRST_POOL_HOST < u64_max -> first_match rules nm = Some g ->
  broker_ok (n + 1) (with_pool b (mint (br_pool b) nm g (live_synthetics (br_table b))).1).
Proof.
  intros Hb Hn Hg. pose proof (bo_pool n b Hb) as Hp. pose proof (bo_tick n b Hb) as Ht.
  pose proof (mint_spec (br_pool b) nm g (live_synthetics (br_table b)) Hp ltac:(lia))
    as (Hp' & Ht' & Hpre & Hcase).
  assert (forall k f m, ft_flows (br_table b) !! k = Some f -> mt_addr m = fk_synthetic k ->
    mt_addr m ∈ live_synthetics (br_table b)) as Hlive
    by (intros k f m Hf ->; apply elem_of_live_synthetics; eauto).
  destruct (mint _ _ _ _) as [p' r]; cbn in *. constructor; cbn; try apply Hb; try done.
  - rewrite Hpre. apply Hb.
  - lia.
  - intros x m. destruct (po_mapping (br_pool b) !! nm) as [m0|] eqn:Em; [|destruct r as [a|]].
    + destruct Hcase as (_ & _ & ->). rewrite lookup_insert_Some.
      intros [[-> <-]|[? Hx]]; cbn; by eapply bo_names.
    + destruct Hcase as (_ & _ & kept & -> & Hk). rewrite lookup_insert_Some.
      intros [[-> <-]|[? Hx]]; cbn; [done|]. eapply bo_names; [done|].
      destruct Hk as [->|(_ & v & y & -> & _)]; [done|]. by apply lookup_delete_Some in Hx as [_ Hx].
    + destruct Hcase as (-> & _). by eapply bo_names.
  - intros k f Hf. destruct (bo_flows n b Hb k f Hf) as (name & m & Hm & Ha & Hgr & Hport).
    assert (exists m', po_mapping p' !! name = Some m' /\ mt_addr m' = mt_addr m) as (m' & Hm' & Ha').
    { destruct (po_mapping (br_pool b) !! nm) as [m0|] eqn:Em; [|destruct r as [a|]].
      - destruct Hcase as (_ & _ & ->). destruct (decide (name = nm)) as [->|].
        + rewrite lookup_insert_eq. eexists. split; [done|]. cbn. congruence.
        + rewrite lookup_insert_ne by done. eauto.
      - destruct Hcase as (_ & _ & kept & -> & Hk). exists m. split; [|done].
        rewrite lookup_insert_ne by congruence.
        destruct Hk as [->|(_ & v & y & -> & Hv & _ & Hnl & _)]; [done|].
        rewrite lookup_delete_ne; [done|]. intros ->. apply Hnl.
        assert (y = m) as -> by congruence. eauto.
      - destruct Hcase as (-> & _). eauto. }
    exists name, m'. split_and!; [done|congruence|done|done].
Qed.

Lemma on_query_ok n b frame b' out :
  broker_ok n b -> n + FIRST_POOL_HOST < u64_max ->
  on_query dns_parse dns_reply b frame = (b', out) ->
  broker_ok (n + 1) b' /\ br_table b' = br_table b /\
  match out with EgNothing => True | EgToFacade f => frame_ok f | EgNewFlow _ _ => False end.
Proof.
  intros Hb Hn. unfold on_query. destruct (udp_payload_and_src_port frame) as [[payload sp]|].
  2: { intros [= <- <-]. split_and!; try done. apply (broker_ok_mono n); [lia|done]. }
  assert (broker_ok (n + 1) (with_pool b
    (shim_respond dns_parse dns_reply payload (br_allow b) (br_pool b) (live_synthetics (br_table b))).1)) as Hb'.
  { assert (broker_ok (n + 1) b) as Hm by (apply (broker_ok_mono n); [lia|done]).
    assert (with_pool b (br_pool b) = b) as Eb by (by destruct b).
    unfold shim_respond. destruct (dns_parse payload) as [[[name qt] q]|]; [|by cbn [fst]; rewrite Eb].
    destruct (qt =? QTYPE_AAAA); [|by cbn [fst]; rewrite Eb]. rewrite (bo_allow n b Hb).
    destruct (first_match rules name) as [g|] eqn:Eg; [|by cbn [fst]; rewrite Eb].
    pose proof (mint_keeps_flows n b name g Hb Hn Eg) as H.
    by destruct (mint _ _ _ _) as [p r]. }
  destruct (shim_respond _ _ _ _ _ _) as [p reply]. cbn in Hb'. intros [= <- <-].
  split_and!; [done|done|]. destruct reply as [reply|]; [|done].
  destruct (build_udp_datagram _ _ _ _ _) as [f|] eqn:Ef; [|done].
  rewrite (bo_resolver n b Hb), (bo_kennel n b Hb) in Ef. unfold frame_ok.
  rewrite <- (prefix64_synthetic RESOLVER_HOST).
  eapply udp_frame_ingress; [apply blen_synthetic|done|done].
Qed.

(** Marking a flow seen changes neither the flows nor their sockets. *)
Lemma touch_ok n b key now :
  broker_ok n b -> broker_ok n (with_table b (touch (br_table b) key now).1).
Proof.
  intros Hb. unfold touch. destruct (ft_flows (br_table b) !! key) as [f|] eqn:Ef; cbn.
  2: { by destruct b. }
  constructor; cbn; try apply Hb.
  - intros k f'. rewrite lookup_insert_Some. intros [[-> <-]|[? H]]; cbn; by eapply bo_flows.
  - rewrite map_size_insert_Some by (by rewrite Ef). apply Hb.
Qed.

Lemma touch_Some t key now s :
  (touch t key now).2 = Some s -> exists f, ft_flows t !! key = Some f /\ fl_socket f = s.
Proof. unfold touch. destruct (ft_flows t !! key) as [f|]; [|done]. intros [= <-]. eauto. Qed.

Lemma touch_dom t key now k :
  is_Some (ft_flows (touch t key now).1 !! k) <-> is_Some (ft_flows t !! k).
Proof.
  unfold touch. destruct (ft_flows t !! key) as [f|] eqn:E; [|done]. cbn.
  rewrite lookup_insert_is_Some. destruct (decide (key = k)) as [->|]; [|naive_solver].
  rewrite E. naive_solver.
Qed.

Lemma route_Some frame pool r :
  route frame pool = Some r ->
  exists dst, route_synthetic frame = Some dst /\ name_of pool dst = Some (ro_name r).
Proof.
  unfold route, route_synthetic. intros (nh & _ & H)%bind_Some. destruct (nh =? NEXT_UDP); [|done].
  apply bind_Some in H as (dst & Hd & H). apply bind_Some in H as (name & Hn & H).
  apply bind_Some in H as (sp & _ & H). apply bind_Some in H as (dp & _ & H).
  apply bind_Some in H as (pl & _ & [= <-]). eauto.
Qed.

Definition sent_ok (s : Sock * bytes) : Prop := exists name, granted_for name s.1.

Lemma on_egress_ok n b frame now net b' out sent :
  broker_ok n b -> n + FIRST_POOL_HOST < u64_max -> net_ok net ->
  on_egress dns_parse dns_reply b frame now net = (b', out, sent) ->
  broker_ok (n + 1) b' /\ Forall sent_ok sent /\
  (forall k, is_Some (ft_flows (br_table b') !! k) <-> is_Some (ft_flows (br_table b) !! k)) /\
  match out with
  | EgNothing => True
  | EgToFacade f => frame_ok f
  | EgNewFlow k s => flow_ok (br_pool b') k s /\ ft_flows (br_table b') !! k = None
  end.
Proof.
  intros Hb Hn Hnet. assert (broker_ok (n + 1) b) as Hm by (apply (broker_ok_mono n); [lia|done]).
  unfold on_egress. destruct (is_udp_to frame (br_resolver_addr b)).
  { destruct (on_query _ _ _ _) as [b1 out1] eqn:Eq. intros [= <- <- <-].
    destruct (on_query_ok _ _ _ _ _ Hb Hn Eq) as (H1 & H2 & H3). rewrite H2. by destruct out1. }
  destruct (route frame (br_pool b)) as [r|] eqn:Er; [|intros [= <- <- <-]; by split_and!].
  apply route_Some in Er as (dst & Ed & Hname). rewrite Ed. change (default (br_kennel_addr b) (Some dst)) with dst.
  apply (name_of_Some _ _ _ (bo_pool n b Hb)) in Hname as (m & Hmap & Hdst).
  set (key := {| fk_synthetic := dst; fk_dst_port := ro_dst_port r; fk_src_port := ro_src_port r |}).
  pose proof (touch_ok _ _ key now Hm) as Ht. pose proof (touch_Some (br_table b) key now) as Hs.
  pose proof (touch_dom (br_table b) key now) as Hd.
  assert ((touch (br_table b) key now).2 = None -> ft_flows (br_table b) !! key = None) as Hnone
    by (unfold touch; by destruct (ft_flows (br_table b) !! key)).
  destruct (touch (br_table b) key now) as [t [s|]]; cbn in Ht, Hs, Hd, Hnone.
  { intros [= <- <- <-]. destruct (Hs s eq_refl) as (f & Hf & <-). split_and!; try done.
    constructor; [|done]. destruct (bo_flows n b Hb key f Hf) as (nm & _ & _ & _ & Hg & _). by exists nm. }
  clear Hs Hd Ht. destruct (try_take (br_bucket b) now) as [k taken].
  assert (broker_ok (n + 1) (with_bucket b k)) as Hk by (destruct Hm; by constructor).
  destruct taken; cbn [negb]; [|intros [= <- <- <-]; by split_and!].
  change (br_allow (with_bucket b k)) with (br_allow b). rewrite (bo_allow n b Hb).
  change (br_kennel_addr (with_bucket b k)) with (br_kennel_addr b). rewrite (bo_kennel n b Hb).
  assert (forall code inv, code = CODE_ADMIN_PROHIBITED \/ code = CODE_PORT_UNREACHABLE ->
    frame_ok (build_dest_unreachable (fk_synthetic key) K code inv)) as Hicmp.
  { intros code inv Hc. destruct (minted_in_64 _ _ _ _ Hb Hmap) as [H64 H16].
    unfold frame_ok. cbn. subst dst. rewrite <- H64. by apply icmp_frame_ingress. }
  destruct (dial rules net (ro_name r) (ro_dst_port r)) as [s|e] eqn:Edial.
  - intros [= <- <- <-]. destruct (dial_granted _ _ _ _ Hnet Edial) as [Hg Hp].
    split_and!; [done|constructor; [by exists (ro_name r)|done]|done| |by apply Hnone].
    exists (ro_name r), m. by split_and!.
  - assert (frame_ok (build_dest_unreachable (fk_synthetic key) K CODE_ADMIN_PROHIBITED frame)) as Hf
      by (apply Hicmp; by left).
    destruct e; intros E; apply pair_eq in E as [[<- <-]%pair_eq <-]; by split_and!.
Qed.

Lemma on_flow_readable_ok n b key now r b' out :
  broker_ok n b -> on_flow_readable b key now r = (b', out) ->
  broker_ok n b' /\
  (forall k, is_Some (ft_flows (br_table b') !! k) <-> is_Some (ft_flows (br_table b) !! k)) /\
  match out with InNothing => True | InToFacade f | InToFacadeAndEvict f => frame_ok f end.
Proof.
  intros Hb. unfold on_flow_readable. pose proof (touch_ok _ _ key now Hb) as Ht.
  pose proof (touch_Some (br_table b) key now) as Hs. pose proof (touch_dom (br_table b) key now) as Hd.
  destruct (touch (br_table b) key now) as [t [s|]]; cbn in Ht, Hs, Hd; [|intros [= <- <-]; by split_and!].
  destruct (Hs s eq_refl) as (f & Hf & _).
  destruct (bo_flows n b Hb key f Hf) as (nm & m & Hm & Ha & _).
  destruct (minted_in_64 _ _ _ _ Hb Hm) as [H64 H16]. rewrite Ha in H64, H16.
  rewrite (bo_kennel n b Hb). intros E. apply pair_eq in E as [<- <-].
  split_and!; [done|done|]. unfold frame_ok.
  rewrite <- H64. destruct r as [payload| |]; [|by apply icmp_frame_ingress; auto|done].
  destruct (build_udp_datagram _ _ _ _ _) as [fr|] eqn:Ef; [|done]. by eapply udp_frame_ingress.
Qed.

(** The loop's state, with flows in [stale] evicted from the table and their tokens
    still to be released. *)
Record loop_ok (stale : list FlowKey) (n : Z) (l : Loop) : Prop := {
  lo_broker : broker_ok n (lp_broker l);
  lo_inv t k : lp_token_key l !! t = Some k <-> lp_key_token l !! k = Some t;
  lo_has k : is_Some (ft_flows (br_table (lp_broker l)) !! k) -> is_Some (lp_key_token l !! k);
  lo_only k : is_Some (lp_key_token l !! k) ->
    is_Some (ft_flows (br_table (lp_broker l)) !! k) \/ k ∈ stale;
  lo_stale k : k ∈ stale -> ft_flows (br_table (lp_broker l)) !! k = None;
  lo_next : 1 <= lp_next_token l <= n + 1;
  lo_tok t k : lp_token_key l !! t = Some k -> 1 <= t < lp_next_token l;
  lo_facade_ok : Forall frame_ok (lp_facade l);
  lo_sent_ok : Forall sent_ok (lp_sent l);
}.

Lemma loop_ok_mono stale n n' l : n <= n' -> loop_ok stale n l -> loop_ok stale n' l.
Proof.
  intros Hn Hl. destruct Hl as [Hb]. constructor; try done.
  - by apply (broker_ok_mono n).
  - lia.
Qed.

(** Replacing the broker by one with the same flows. *)
Lemma set_broker_ok n n' l b sent :
  loop_ok [] n l -> n <= n' -> broker_ok n' b -> Forall sent_ok sent ->
  (forall k, is_Some (ft_flows (br_table b) !! k) <-> is_Some (ft_flows (br_table (lp_broker l)) !! k)) ->
  loop_ok [] n' (send_all (set_broker l b) sent).
Proof.
  intros Hl Hn Hb Hsent Hk. destruct Hl as [_ Hinv Hhas Honly _ Hnext Htok Hf Hs].
  constructor; cbn; try done.
  - intros k. rewrite Hk. apply Hhas.
  - intros k Hi. left. rewrite Hk. destruct (Honly k Hi) as [|H%not_elem_of_nil]; done.
  - intros k H%not_elem_of_nil. done.
  - lia.
  - by apply Forall_app.
Qed.

Lemma emit_ok stale n l f : loop_ok stale n l -> frame_ok f -> loop_ok stale n (emit l f).
Proof. intros []. constructor; cbn; try done. apply Forall_app. auto. Qed.

Lemma release_token_ok key stale n l :
  loop_ok (key :: stale) n l -> loop_ok stale n (release_token l key).
Proof.
  intros [Hb Hinv Hhas Honly Hstale Hnext Htok Hf Hs]. unfold release_token.
  destruct (lp_key_token l !! key) as [t|] eqn:Et.
  - constructor; cbn; try done.
    + intros t' k'. rewrite !lookup_delete_Some, Hinv. split; intros [H1 H2]; (split; [|done]); intros ->.
      * apply H1. congruence.
      * apply H1. apply Hinv in Et, H2. congruence.
    + intros k Hi. destruct (Hhas k Hi) as [t' Ht']. rewrite lookup_delete_ne; [by exists t'|].
      intros ->. rewrite Hstale in Hi by set_solver. by destruct Hi.
    + intros k [t' [Hne Ht']%lookup_delete_Some]. destruct (Honly k ltac:(eauto)) as [|Hin]; [by left|].
      set_solver.
    + intros k Hk. apply Hstale. set_solver.
    + intros t' k [_ H]%lookup_delete_Some. eauto.
  - constructor; try done.
    + intros k Hi. destruct (Honly k Hi) as [|Hin]; [by left|right].
      apply elem_of_cons in Hin as [->|]; [|done]. rewrite Et in Hi. by destruct Hi.
    + intros k Hk. apply Hstale. set_solver.
Qed.

Lemma release_all_ok gone n l : loop_ok gone n l -> loop_ok [] n (fold_left release_token gone l).
Proof.
  revert l. induction gone as [|k gone IH]; intros l Hl; [done|]. cbn. by apply IH, release_token_ok.
Qed.

(** A table with fewer flows keeps the broker's invariant. *)
Lemma shrink_table_ok n b t :
  broker_ok n b -> ft_max_flows t = ft_max_flows (br_table b) ->
  ft_flows t ⊆ ft_flows (br_table b) -> broker_ok n (with_table b t).
Proof.
  intros Hb Hm Hsub. constructor; cbn; try apply Hb.
  - intros k f Hf. apply (bo_flows n b Hb). by eapply lookup_weaken.
  - rewrite Hm. apply Hb.
  - pose proof (bo_size n b Hb). apply map_subseteq_size in Hsub. lia.
Qed.

(** Evicting flows from the table leaves their tokens stale. *)
Lemma evict_flows_ok n l t gone :
  loop_ok [] n l -> ft_max_flows t = ft_max_flows (br_table (lp_broker l)) ->
  (forall k, ft_flows t !! k =
    if decide (k ∈ gone) then None else ft_flows (br_table (lp_broker l)) !! k) ->
  loop_ok gone n (set_broker l (with_table (lp_broker l) t)).
Proof.
  intros [Hb Hinv Hhas Honly Hstale Hnext Htok Hf Hs] Hm Ht. constructor; cbn; try done.
  - apply shrink_table_ok; [done|done|]. apply map_subseteq_spec. intros k f. rewrite Ht. by case_decide.
  - intros k. rewrite Ht. case_decide; [by intros []|]. apply Hhas.
  - intros k Hi. rewrite Ht. case_decide; [by right|]. left.
    by destruct (Honly k Hi) as [|?%not_elem_of_nil].
  - intros k Hk. by rewrite Ht, decide_True.
Qed.

Lemma register_ok n l key s now poll_ok :
  loop_ok [] n l -> n + 1 < u64_max -> flow_ok (br_pool (lp_broker l)) key s ->
  ft_flows (br_table (lp_broker l)) !! key = None ->
  loop_ok [] (n + 1) (register l key s now poll_ok).
Proof.
  intros Hl Hn Hflow Hnone. pose proof Hl as [Hb Hinv Hhas Honly Hstale Hnext Htok Hf Hs].
  assert (sat_add u64_max (lp_next_token l) 1 = lp_next_token l + 1) as E by (unfold sat_add; lia).
  assert (broker_ok (n + 1) (lp_broker l)) as Hb1 by (apply (broker_ok_mono n); [lia|done]).
  assert (forall l', lp_broker l' = lp_broker l -> lp_next_token l' = lp_next_token l + 1 ->
    lp_token_key l' = lp_token_key l -> lp_key_token l' = lp_key_token l ->
    lp_facade l' = lp_facade l -> lp_sent l' = lp_sent l -> loop_ok [] (n + 1) l') as Hfail.
  { intros l' Eb En Et Ek Ef Es. constructor; rewrite ?Eb, ?En, ?Et, ?Ek, ?Ef, ?Es; try done; [lia|].
    intros t k H. apply Htok in H. lia. }
  unfold register. destruct poll_ok; cbn [negb]; [|by apply Hfail].
  unfold admit_flow. rewrite Hnone, bool_decide_false by (by intros []). cbn [negb andb].
  destruct (Z.leb_spec (ft_max_flows (br_table (lp_broker l)))
    (Z.of_nat (size (ft_flows (br_table (lp_broker l)))))); [by apply Hfail|].
  assert (lp_key_token l !! key = None) as Hkt.
  { destruct (lp_key_token l !! key) as [t|] eqn:Ek; [|done].
    destruct (Honly key ltac:(eauto)) as [[? ?]|?%not_elem_of_nil]; [congruence|done]. }
  assert (lp_token_key l !! lp_next_token l = None) as Hnew.
  { destruct (lp_token_key l !! lp_next_token l) as [k|] eqn:Ek; [|done]. apply Htok in Ek. lia. }
  constructor; cbn -[sat_add]; rewrite ?E; try done; [constructor; cbn; try apply Hb1|..].
  - intros k f. rewrite lookup_insert_Some. intros [[-> <-]|[? H']]; [done|]. by apply (bo_flows n _ Hb).
  - rewrite map_size_insert_None by done. pose proof (bo_cap n _ Hb). lia.
  - intros t k. rewrite !lookup_insert_Some. split; intros [[<- <-]|[Hne Hl']]; auto; right.
    + apply Hinv in Hl'. split; [congruence|done].
    + apply Hinv in Hl'. split; [congruence|done].
  - intros k. rewrite !lookup_insert_is_Some. intros [->|[Hne H']]; [by left|].
    destruct (decide (key = k)); [by left|right]. split; [done|by apply Hhas].
  - intros k. rewrite !lookup_insert_is_Some. intros [->|[Hne H']]; [by left; left|].
    destruct (Honly k H') as [|?%not_elem_of_nil]; [left|done].
    destruct (decide (key = k)); [by left|by right].
  - by intros k ?%not_elem_of_nil.
  - lia.
  - intros t k. rewrite lookup_insert_Some. intros [[<- <-]|[? H']]; [lia|]. apply Htok in H'. lia.
Qed.

Definition ready_ok (r : Ready) : Prop :=
  match r with RdFacade _ _ _ net => net_ok net | RdFlow _ _ => True end.

Lemma handle_ready_ok n l now r :
  loop_ok [] n l -> n + 1 + FIRST_POOL_HOST < u64_max -> ready_ok r ->
  match handle_ready dns_parse dns_reply l now r with
  | inl l' | inr l' => loop_ok [] (n + 2) l'
  end.
Proof.
  intros Hl Hn Hr. unfold FIRST_POOL_HOST in Hn.
  assert (loop_ok [] (n + 2) l) as Hl2 by (apply (loop_ok_mono [] n); [lia|done]).
  destruct r as [[] [frame| | |] poll_ok net|token r]; cbn; try done.
  - destruct (on_egress _ _ _ _ _ _) as [[b out] sent] eqn:Eo.
    destruct (on_egress_ok _ _ _ _ _ _ _ _ (lo_broker _ _ _ Hl) ltac:(unfold FIRST_POOL_HOST; lia) Hr Eo)
      as (Hb & Hs & Hk & Hout).
    pose proof (set_broker_ok n (n + 1) l b sent Hl ltac:(lia) Hb Hs Hk) as Hl1.
    destruct out as [|f|k s]; [| |].
    + apply (loop_ok_mono [] (n + 1)); [lia|done].
    + apply emit_ok; [|done]. apply (loop_ok_mono [] (n + 1)); [lia|done].
    + replace (n + 2) with (n + 1 + 1) by lia. apply register_ok; [done|lia|apply Hout|apply Hout].
  - destruct (lp_token_key l !! token) as [key|]; [|done].
    destruct (on_flow_readable _ _ _ _) as [b out] eqn:Eo.
    destruct (on_flow_readable_ok _ _ _ _ _ _ _ (lo_broker _ _ _ Hl2) Eo) as (Hb & Hk & Hout).
    pose proof (set_broker_ok (n + 2) (n + 2) l b [] Hl2 ltac:(lia) Hb ltac:(done) Hk) as Hl1.
    assert (loop_ok [] (n + 2) (set_broker l b)) as Hl3.
    { destruct Hl1. constructor; try done. cbn in *. by rewrite app_nil_r in *. }
    destruct out as [|f|f]; [done|by apply emit_ok|].
    apply release_token_ok, evict_flows_ok; [by apply emit_ok|done|].
    intros k. cbn. destruct (decide (k ∈ [key])) as [->%list_elem_of_singleton|Hne].
    + apply lookup_delete_eq.
    + rewrite lookup_delete_ne; [done|set_solver].
Qed.

Lemma handle_all_ok n l now rs :
  loop_ok [] n l -> n + 2 * Z.of_nat (length rs) + FIRST_POOL_HOST <= u64_max -> Forall ready_ok rs ->
  match handle_all dns_parse dns_reply l now rs with
  | inl l' | inr l' => loop_ok [] (n + 2 * Z.of_nat (length rs)) l'
  end.
Proof.
  intros Hl Hn Hr. revert n l Hl Hn. induction Hr as [|r rs Hr _ IH]; intros n l Hl Hn; cbn [handle_all].
  { by rewrite Z.add_0_r. }
  cbn [length] in *. pose proof (handle_ready_ok n l now r Hl ltac:(lia) Hr) as H1.
  destruct (handle_ready _ _ _ _ _) as [l'|l'].
  - replace (n + 2 * Z.of_nat (S (length rs))) with (n + 2 + 2 * Z.of_nat (length rs)) by lia.
    apply IH; [done|lia].
  - apply (loop_ok_mono [] (n + 2)); [lia|done].
Qed.

Lemma sweep_loop_ok n l now : loop_ok [] n l -> loop_ok [] n (sweep_loop l now).
Proof.
  intros Hl. unfold sweep_loop. pose proof (sweep_spec (br_table (lp_broker l)) now) as Hs.
  assert (ft_max_flows (sweep (br_table (lp_broker l)) now).1 = ft_max_flows (br_table (lp_broker l)))
    as Hm by done.
  destruct (sweep _ _) as [t gone]. cbn in *. apply release_all_ok, evict_flows_ok; [done..|].
  intros k. destruct (Hs k) as [Hg ->]. destruct (decide (k ∈ gone)) as [Hk|Hk].
  - apply Hg in Hk as (f & -> & ->). done.
  - destruct (ft_flows _ !! k) as [f|] eqn:Ef; [|done]. destruct (expired _ _ f) eqn:Ee; [|done].
    contradict Hk. apply Hg. eauto.
Qed.

(** How many entries a sequence of polls reports. *)
Definition entries (polls : list (Z * list Ready)) : Z := Z.of_nat (length (concat (map snd polls))).

Lemma run_loop_ok n l polls :
  loop_ok [] n l -> n + 2 * entries polls + FIRST_POOL_HOST <= u64_max ->
  Forall ready_ok (concat (map snd polls)) ->
  exists n', loop_ok [] n' (run_loop dns_parse dns_reply l polls).
Proof.
  revert n l. induction polls as [|[now rs] polls IH]; intros n l Hl Hn Hr; cbn [run_loop]; [eauto|].
  unfold entries in *. cbn in Hn, Hr. rewrite length_app in Hn. apply Forall_app in Hr as [Hr1 Hr2].
  pose proof (handle_all_ok n l now rs Hl ltac:(lia) Hr1) as H1.
  destruct (handle_all _ _ _ _ _) as [l'|l']; [|eauto].
  apply (IH (n + 2 * Z.of_nat (length rs)) (sweep_loop l' now)); [by apply sweep_loop_ok|lia|done].
Qed.

Lemma loop_new_ok allow c now :
  rules = allow -> cap = ce_max_flows c -> 0 <= cap -> loop_ok [] 0 (loop_new (broker_new K allow c now)).
Proof.
  intros <- Ec Hc.
  assert (broker_ok 0 (broker_new K rules c now)) as Hb.
  { constructor; cbn; done. }
  constructor; cbn; try done; by intros k [x Hx].
Qed.
End loop.

(** * Properties *)

(** What the resolver answered during a sequence of polls. *)
Definition resolved_in (polls : list (Z * list Ready)) (name : bytes) (a : ip_addr) : Prop :=
  exists hup rx pok net addrs, RdFacade hup rx pok net ∈ concat (map snd polls) /\
    net_getaddrinfo net name = Ok addrs /\ a ∈ addrs.

(** The loop's state after the polls, from a new broker. *)
Definition served {Q} (dns_parse : bytes -> option (bytes * Z * Q))
    (dns_reply : Q -> option bytes -> option bytes) (K : bytes) (rules : list NameRule)
    (c : Ceilings) (t0 : Z) (polls : list (Z * list Ready)) : Loop :=
  run_loop dns_parse dns_reply (loop_new (broker_new K rules c t0)) polls.

Lemma served_ok {Q} dns_parse dns_reply K rules c t0 polls :
  blen K = 16 -> 0 <= ce_max_flows c -> 2 * entries polls + FIRST_POOL_HOST <= u64_max ->
  exists n, loop_ok K rules (ce_max_flows c) (resolved_in polls) [] n
    (served (Q := Q) dns_parse dns_reply K rules c t0 polls).
Proof.
  intros HK Hc Hn. eapply (run_loop_ok dns_parse dns_reply K rules _ _ HK 0); [by apply loop_new_ok|done|].
  apply Forall_forall. intros [hup rx pok net|] Hr; [|done]. intros name l a Hl Ha.
  exists hup, rx, pok, net, l. done.
Qed.

(** C10: The broker sends only where policy lets it.  Whatever frames the workload
    sends, whatever the resolver, the network, the clock and the poller do:
    every datagram put on the host network goes to an address the resolver
    returned for some name, on a port that a grant allows for that name, never
    port 53 or 5353, and the address is not loopback, link-local, multicast,
    broadcast or unspecified; every live flow is such a socket, for the name whose
    synthetic address the workload sent to; there are never more flows than the
    cap; and every frame handed back passes the facade's ingress check. *)
Theorem broker_confined {Q} (dns_parse : bytes -> option (bytes * Z * Q))
    (dns_reply : Q -> option bytes -> option bytes) (K : bytes) (rules : list NameRule)
    (c : Ceilings) (t0 : Z) (polls : list (Z * list Ready)) :
  blen K = 16 -> 0 <= ce_max_flows c -> 2 * entries polls + FIRST_POOL_HOST <= u64_max ->
  let l := served dns_parse dns_reply K rules c t0 polls in
  let b := lp_broker l in
  (forall s payload, (s, payload) ∈ lp_sent l ->
    exists name, granted_for rules (resolved_in polls) name s) /\
  (forall k f, ft_flows (br_table b) !! k = Some f ->
    exists name m, po_mapping (br_pool b) !! name = Some m /\ mt_addr m = fk_synthetic k /\
      granted_for rules (resolved_in polls) name (fl_socket f) /\
      sk_port (fl_socket f) = fk_dst_port k) /\
  Z.of_nat (size (ft_flows (br_table b))) <= ce_max_flows c /\
  Forall (fun f => ingress_ok f K (prefix64 K) = true) (lp_facade l).
Proof.
  intros HK Hc Hn. destruct (served_ok dns_parse dns_reply K rules c t0 polls HK Hc Hn) as [n Hl].
  pose proof (lo_broker _ _ _ _ _ _ _ Hl) as Hb. split_and!.
  - intros s payload Hin. pose proof (lo_sent_ok _ _ _ _ _ _ _ Hl) as Hs.
    rewrite Forall_forall in Hs. apply (Hs _ Hin).
  - apply (bo_flows _ _ _ _ _ _ Hb).
  - apply (bo_size _ _ _ _ _ _ Hb).
  - apply (lo_facade_ok _ _ _ _ _ _ _ Hl).
Qed.

(** A socket's readiness is never attributed to another flow: after any polls,
    the token-to-flow and flow-to-token maps of the loop are inverse to each
    other, and the flows with a token are exactly the flows of the table, through
    dials, refusals and idle expiry. *)
Theorem broker_tokens_in_step {Q} (dns_parse : bytes -> option (bytes * Z * Q))
    (dns_reply : Q -> option bytes -> option bytes) (K : bytes) (rules : list NameRule)
    (c : Ceilings) (t0 : Z) (polls : list (Z * list Ready)) :
  blen K = 16 -> 0 <= ce_max_flows c -> 2 * entries polls + FIRST_POOL_HOST <= u64_max ->
  let l := served dns_parse dns_reply K rules c t0 polls in
  (forall t k, lp_token_key l !! t = Some k <-> lp_key_token l !! k = Some t) /\
  (forall k, is_Some (lp_key_token l !! k) <-> is_Some (ft_flows (br_table (lp_broker l)) !! k)).
Proof.
  intros HK Hc Hn. destruct (served_ok dns_parse dns_reply K rules c t0 polls HK Hc Hn) as [n Hl].
  split; [apply (lo_inv _ _ _ _ _ _ _ Hl)|]. intros k. split; [|apply (lo_has _ _ _ _ _ _ _ Hl)].
  intros Hk. by destruct (lo_only _ _ _ _ _ _ _ Hl k Hk) as [|?%not_elem_of_nil].
Qed.

(** The frames the broker builds are valid on the wire: a UDP frame passes the
    facade's check for the direction it is sent in, its checksum verifies at the
    receiver, and reading it back gives its ports and its payload; an ICMPv6
    unreachable passes the check, its checksum verifies, and it fits the 1280-byte
    MTU however long the frame it quotes. *)
Theorem built_frames_valid (src dst : bytes) (sp dp : Z) (payload invoking f : bytes) (code : Z)
    (pool : Pool) (name : bytes) :
  bytes_ok src -> bytes_ok dst -> bytes_ok payload -> bytes_ok invoking ->
  blen src = 16 -> blen dst = 16 -> in_u16 sp -> in_u16 dp ->
  code = CODE_ADMIN_PROHIBITED \/ code = CODE_PORT_UNREACHABLE ->
  build_udp_datagram src dst sp dp payload = Some f -> name_of pool dst = Some name ->
  ingress_ok f dst (prefix64 src) = true /\
  checksum_v6 src dst NEXT_UDP (drop 40 f) = 0 /\
  route f pool = Some {| ro_name := name; ro_dst_port := dp; ro_src_port := sp; ro_payload := payload |} /\
  let e := build_dest_unreachable src dst code invoking in
  ingress_ok e dst (prefix64 src) = true /\ checksum_v6 src dst NEXT_ICMPV6 (drop 40 e) = 0 /\
  blen e <= MIN_MTU.
Proof.
  intros Hs Hd Hp Hi Ls Ld Hsp Hdp Hc Hf Hn.
  destruct (icmp_frame_ingress src dst code invoking Ls Ld Hc) as [H1 H2]. split_and!; try done.
  - by apply (udp_frame_ingress src dst sp dp payload).
  - by apply (udp_frame_checksum src dst sp dp payload).
  - by apply (udp_frame_route pool name src dst sp dp payload).
  - cbv zeta. split_and!; [done| |done]. apply icmp_frame_checksum; try done.
    unfold CODE_ADMIN_PROHIBITED, CODE_PORT_UNREACHABLE in Hc. lia.
Qed.

(** ** A session *)

(** A kennel with one grant, [.a] on port 443; the resolver knows one address. *)
Definition sample_K : bytes := replicate 8 253 ++ [0; 0; 0; 0; 0; 0; 0; 1].
Definition sample_rules : list NameRule :=
  [{| nn_name := [46; 97]; nn_ports := [443]; nn_protocol := ProtoUdp |}].
Definition sample_ceilings : Ceilings :=
  {| ce_max_flows := 4; ce_new_flow_burst := 2; ce_new_flow_per_sec := 1; ce_idle_timeout := 1000000000 |}.
Definition sample_resolver : Net :=
  {| net_getaddrinfo := fun _ => Ok [V4 [127; 0; 0; 1]; V4 [93; 184; 216; 34]];
     net_connect := fun _ _ => true |}.
(** A query is its name; a reply is the answer. *)
Definition sample_dns (b : bytes) : option (bytes * Z * unit) := Some (b, 28, tt).
Definition sample_answer (_ : unit) (a : option bytes) : option bytes := Some (default [] a).
Definition sample_frame (dst : bytes) (dp : Z) (payload : bytes) : bytes :=
  default [] (build_udp_datagram sample_K dst 5000 dp payload).
(** A query for [x.a], then a datagram to the synthetic it was given. *)
Definition sample_polls : list (Z * list Ready) :=
  let prefix := prefix64 sample_K in
  [(0, [RdFacade false (FaFrame (sample_frame (synthetic prefix 2) 53 [120; 46; 97])) true sample_resolver]);
   (1, [RdFacade false (FaFrame (sample_frame (synthetic prefix 16) 443 [1; 2; 3])) true sample_resolver])].

Lemma broker_confined_witness :
  let l := served sample_dns sample_answer sample_K sample_rules sample_ceilings 0 sample_polls in
  lp_sent l = [({| sk_addr := V4 [93; 184; 216; 34]; sk_port := 443 |}, [1; 2; 3])] /\
  Z.of_nat (size (ft_flows (br_table (lp_broker l)))) <= 4 /\
  Forall (fun f => ingress_ok f sample_K (prefix64 sample_K) = true) (lp_facade l).
Proof.
  intros l. destruct (broker_confined sample_dns sample_answer sample_K sample_rules sample_ceilings 0
    sample_polls) as (_ & _ & Hs & Hf); [done|done|vm_compute; done|].
  split_and!; [vm_compute; done|exact Hs|exact Hf].
Defined.

Lemma broker_tokens_in_step_witness :
  let l := served sample_dns sample_answer sample_K sample_rules sample_ceilings 0 sample_polls in
  (forall t k, lp_token_key l !! t = Some k <-> lp_key_token l !! k = Some t) /\
  lp_token_key l !! 1 = Some {| fk_synthetic := synthetic (prefix64 sample_K) 16;
                                fk_dst_port := 443; fk_src_port := 5000 |}.
Proof.
  intros l. destruct (broker_tokens_in_step sample_dns sample_answer sample_K sample_rules
    sample_ceilings 0 sample_polls) as [H _]; [done|done|vm_compute; done|].
  split; [exact H|vm_compute; done].
Defined.

Lemma built_frames_valid_witness :
  let p := (mint (pool_new (prefix64 sample_K)) [120] 0%nat ∅).1 in
  let dst := synthetic (prefix64 sample_K) 16 in
  checksum_v6 sample_K dst NEXT_UDP (drop 40 (sample_frame dst 443 [1; 2; 3])) = 0 /\
  route (sample_frame dst 443 [1; 2; 3]) p =
    Some {| ro_name := [120]; ro_dst_port := 443; ro_src_port := 5000; ro_payload := [1; 2; 3] |}.
Proof.
  intros p dst.
  destruct (built_frames_valid sample_K dst 5000 443 [1; 2; 3] [] (sample_frame dst 443 [1; 2; 3])
    CODE_ADMIN_PROHIBITED p [120]) as (_ & H1 & H2 & _).
  - by apply (bool_decide_unpack (bytes_ok sample_K)).
  - by apply (bool_decide_unpack (bytes_ok dst)).
  - by apply (bool_decide_unpack (bytes_ok [1; 2; 3])).
  - constructor.
  - reflexivity.
  - reflexivity.
  - unfold in_u16, u16_max. lia.
  - unfold in_u16, u16_max. lia.
  - by left.
  - vm_compute. reflexivity.
  - vm_compute. reflexivity.
  - split; [exact H1|exact H2].
Defined.
