(* ===== verification/PlanBuild.v ===== *)
(** From policy to plan: the translation of [kennel-lib-spawn/src/plan.rs].

    [from_policy] builds the namespaces, the constructed view, the Landlock
    rules, the seccomp list, the BPF access lists and the resource limits of a
    kennel from its settled policy; [stamp_proxy] and [grant_cwd] add what the
    daemon learns later.  Blocks of the source's one long function are named
    definitions here ([collect_grants], [grant_block], [exec_gate], [dev_block],
    [tail_rules]), composed in the source's order with its early returns.  Every
    error is [SpawnError::InvalidPolicy]; the constructor keeps what the message
    names.

    The [libc] numbers, [RLIM_INFINITY] and the host's byte order are parameters. *)

From S2P Require Import Prelude Bytes Str Paths IpText Plan Settled.
From stdpp Require Import sorting.
Open Scope Z_scope.

(** ** Flags *)

Definition NS_MOUNT : Z := 1.
Definition NS_PID : Z := 2.
Definition NS_IPC : Z := 4.
Definition NS_NET : Z := 8.
Definition NS_USER : Z := 16.
Definition NS_UTS : Z := 32.

Definition FS_EXECUTE : Z := 1.
Definition FS_WRITE_FILE : Z := 2.
Definition FS_READ_FILE : Z := 4.
Definition FS_READ_DIR : Z := 8.
Definition FS_REMOVE_DIR : Z := 16.
Definition FS_REMOVE_FILE : Z := 32.
Definition FS_MAKE_DIR : Z := 128.
Definition FS_MAKE_REG : Z := 256.
Definition FS_MAKE_SOCK : Z := 512.
Definition FS_MAKE_FIFO : Z := 1024.
Definition FS_MAKE_SYM : Z := 4096.
Definition FS_REFER : Z := 8192.
Definition FS_TRUNCATE : Z := 16384.
Definition FS_IOCTL_DEV : Z := 32768.

Definition NET_BIND_TCP : Z := 1.
Definition NET_CONNECT_TCP : Z := 2.

(** [a | b | ...] *)
Definition flags (l : list Z) : Z := fold_right Z.lor 0 l.

Definition read_access (executable : bool) : Z :=
  let base := flags [FS_READ_FILE; FS_READ_DIR] in
  if executable then Z.lor base FS_EXECUTE else base.
Definition dev_access : Z := flags [FS_READ_FILE; FS_WRITE_FILE; FS_IOCTL_DEV].
Definition write_access : Z :=
  flags [FS_READ_FILE; FS_READ_DIR; FS_WRITE_FILE; FS_MAKE_REG; FS_MAKE_DIR; FS_MAKE_SYM;
         FS_MAKE_SOCK; FS_MAKE_FIFO; FS_REFER; FS_REMOVE_FILE; FS_REMOVE_DIR; FS_TRUNCATE].
Definition exec_access : Z := flags [FS_EXECUTE; FS_READ_FILE].

(** ** Constants *)

Definition EPERM : Z := 1.
Definition HOST_LIBEXEC_DIR : bytes := ascii_bytes "/usr/libexec/kennel".
Definition KENNEL_META_MAGIC : Z := 1263420748.
Definition KENNEL_ABI_VERSION : Z := 1.
Definition IPPROTO_TCP : Z := 6.
Definition IPPROTO_UDP : Z := 17.
Definition KENNEL_ALLOW_FLAG_PROXY : Z := 1.
Definition HOST_PREFIX_V4 : Z := 32.
Definition HOST_PREFIX_V6 : Z := 128.
Definition LOOPBACK_PREFIX_V4 : Z := 28.
Definition LOOPBACK_PREFIX_V6 : Z := 64.

Inductive SpawnError : Type :=
  | InvalidCidr (cidr : bytes)
  | UnknownUlimit (name : bytes)
  | BadUlimit (name value : bytes)
  | ExecUnderWritable (entry : bytes)
  | BadDevice (entry : bytes).

Global Instance SpawnError_eq_dec : EqDecision SpawnError.
Proof. solve_decision. Defined.

Record ProxyEndpoint : Type := { pe_v4 : option bytes; pe_v6 : bytes; pe_port : Z }.

(** ** Paths of the view *)

Definition glob_root (entry : bytes) : bytes := strip_glob entry.

Definition remap_target (path home shim_root : bytes) : bytes :=
  match path_strip_prefix path home with
  | Some rel => path_join shim_root rel
  | None => path
  end.

Definition is_special_mount (path : bytes) : bool :=
  path_starts_with path (ascii_bytes "/etc") || path_starts_with path (ascii_bytes "/proc").

Definition PROTECTED_ETC_FLOOR : list bytes :=
  map ascii_bytes ["passwd"; "group"; "hostname"; "ld.so.preload"; "ld.so.cache"; "ld.so.conf";
                   "ld.so.conf.d"]%string.

(** [c.as_os_str()]. *)
Definition comp_str (c : component) : bytes :=
  match c with RootDir => [SLASH] | CurDir => [DOT] | ParentDir => [DOT; DOT] | Normal s => s end.

Definition is_overlayable_etc_path (path : bytes) : bool :=
  if negb (path_starts_with path (ascii_bytes "/etc")) || path_eqb path (ascii_bytes "/etc")
  then false
  else if has_parent_dir path then false
  else if has_byte STAR (to_string_lossy path) then false
  else match path_strip_prefix path (ascii_bytes "/etc") with
       | Some rest =>
           match components rest with
           | c :: _ =>
               match from_utf8 (comp_str c) with
               | Some top => negb (bool_decide (top ∈ PROTECTED_ETC_FLOOR))
               | None => false
               end
           | [] => false
           end
       | None => false
       end.

Definition is_safe_dev_path (path : bytes) : bool :=
  path_starts_with path (ascii_bytes "/dev") && negb (path_eqb path (ascii_bytes "/dev")) &&
  negb (has_parent_dir path).

Definition persistence_from_settled (s : bytes) : Persistence :=
  if bool_decide (s = ascii_bytes "persist") then Persist else Discard.

(** ** Grants *)

(** One entry per path, writable as soon as one list says so. *)
Fixpoint add_grant (source : bytes) (writable : bool) (gs : list (bytes * bool)) :
    list (bytes * bool) :=
  match gs with
  | [] => [(source, writable)]
  | (s, w) :: gs =>
      if path_eqb s source then (s, w || writable) :: gs
      else (s, w) :: add_grant source writable gs
  end.
Definition requested (read write : list bytes) : list (bytes * bool) :=
  map (fun p => (p, false)) read ++ map (fun p => (p, true)) write.
Definition collect_grants (read write : list bytes) : list (bytes * bool) :=
  fold_left (fun gs g => add_grant (glob_root g.1) g.2 gs) (requested read write) [].

(** [sort_by_key(|(s, _)| s.len())]: stable, shortest first. *)
Fixpoint insert_by_len (x : bytes * bool) (gs : list (bytes * bool)) : list (bytes * bool) :=
  match gs with
  | [] => [x]
  | y :: gs => if blen x.1 <=? blen y.1 then x :: y :: gs else y :: insert_by_len x gs
  end.
Definition sort_by_len (gs : list (bytes * bool)) : list (bytes * bool) :=
  fold_right insert_by_len [] gs.

(** The redirect map: later entries replace earlier ones with an equal path. *)
Definition redirects (fs : FsPolicy) : list (bytes * bytes) :=
  map (fun r => (glob_root (rd_path r), glob_root (rd_source r))) (fs_redirect fs).
Definition redirect_get (rs : list (bytes * bytes)) (path : bytes) : option bytes :=
  match List.find (fun r => path_eqb r.1 path) (rev rs) with Some (_, s) => Some s | None => None end.

Section view.
Context (fs : FsPolicy) (home shim_root : bytes) (permissive_exec : bool).

Definition grant_rule (g : bytes * bool) : bytes * Z :=
  (remap_target g.1 home shim_root, if g.2 then write_access else read_access permissive_exec).

Definition grant_bind (g : bytes * bool) : option BindMount :=
  let '(granted, writable) := g in
  if is_special_mount granted then None
  else
    let exclusive := writable &&
      existsb (fun p => path_eqb (glob_root p) granted) (fs_exclusive fs) in
    let '(source, redirected) :=
      match redirect_get (redirects fs) granted with
      | Some src => (src, true)
      | None => (granted, false)
      end in
    Some {| bm_source := source; bm_target := remap_target granted home shim_root;
            bm_writable := writable; bm_exclusive := exclusive; bm_redirected := redirected |}.

Definition grant_block : list (bytes * Z) * list BindMount :=
  let gs := sort_by_len (collect_grants (fs_read fs) (fs_write fs)) in
  (map grant_rule gs, omap grant_bind gs).

(** The execution gate: allowed binaries, then their loaders. *)
Fixpoint exec_allow_rules (e : ExecPolicy) (allow : list bytes) : result SpawnError (list (bytes * Z)) :=
  match allow with
  | [] => Ok []
  | entry :: rest =>
      let root := glob_root entry in
      if ex_deny_writable e && existsb (fun w => path_starts_with root w) (fs_write fs)
      then Err (ExecUnderWritable entry)
      else rules ← exec_allow_rules e rest;
           Ok ((remap_target root home shim_root, exec_access) :: rules)
  end.
Definition exec_gate (e : ExecPolicy) : result SpawnError (list (bytes * Z)) :=
  if permissive_exec then Ok []
  else rules ← exec_allow_rules e (ex_allow e);
       Ok (rules ++ map (fun l => (remap_target l home shim_root, exec_access)) (ex_loaders e)).
End view.

Fixpoint dev_block (allow : list bytes) : result SpawnError (list (bytes * Z) * list bytes) :=
  match allow with
  | [] => Ok ([], [])
  | d :: rest =>
      let path := glob_root d in
      if negb (is_safe_dev_path path) then Err (BadDevice d)
      else '(rules, devs) ← dev_block rest; Ok ((path, dev_access) :: rules, path :: devs)
  end.

(** The rules that follow the device grants. *)
Definition tail_rules (policy : SettledPolicy) (shim_root : bytes) : list (bytes * Z) :=
  let fs := ep_fs (sp_effective_policy policy) in
  (if fs_home_readonly fs then [] else [(shim_root, write_access)]) ++
  (if tp_writable (fs_tmp fs)
   then [(ascii_bytes "/tmp", write_access); (ascii_bytes "/dev/shm", write_access)] else []) ++
  [(ascii_bytes "/",
    if is_nil (rf_path (sp_rootfs policy)) then FS_READ_DIR else Z.lor write_access FS_EXECUTE)] ++
  [(ascii_bytes "/dev/binderfs/binder", dev_access);
   (ascii_bytes "/dev/binderfs", FS_READ_DIR);
   (ascii_bytes "/dev/binderfs/features", Z.lor FS_READ_DIR FS_READ_FILE)].

Definition mask_blocks (policy : SettledPolicy) (binds : list BindMount) :
    list bytes * list bytes :=
  let writable := List.filter bm_writable binds in
  let '(files, dirs) :=
    if tr_manifest (ep_trust (sp_effective_policy policy))
    then (map (fun b => path_join (bm_target b) (ascii_bytes ".trust-manifest.json")) writable,
          map (fun b => path_join (bm_target b) (ascii_bytes ".trust-manifest.d")) writable)
    else ([], []) in
  (files, dirs ++ [HOST_LIBEXEC_DIR]).

Definition overlays (fs : FsPolicy) : list EtcOverlay :=
  map (fun view_path =>
         {| eo_source := default view_path (redirect_get (redirects fs) view_path);
            eo_view_path := view_path |})
      (List.filter is_overlayable_etc_path (fs_read fs)).

(** ** BPF values *)

Section encoding.
Context (en : endian).

Definition lpm_v4_key (addr : bytes) (prefix_len : Z) : bytes := ne_bytes en 4 prefix_len ++ addr.
Definition lpm_v6_key (addr : bytes) (prefix_len : Z) : bytes := ne_bytes en 4 prefix_len ++ addr.

Definition proto_byte (p : Protocol) : Z :=
  match p with ProtoAny => 0 | ProtoTcp => IPPROTO_TCP | ProtoUdp => IPPROTO_UDP end.
Definition allow_entry (port_min port_max : Z) (protocol : Protocol) (fl : Z) : bytes :=
  ne_bytes en 2 port_min ++ ne_bytes en 2 port_max ++ [proto_byte protocol; fl; 0; 0].

Definition meta_bytes (ctx : Z) : bytes :=
  ne_bytes en 4 KENNEL_META_MAGIC ++ ne_bytes en 2 KENNEL_ABI_VERSION ++ ne_bytes en 2 ctx ++
  replicate 56 0.

(** [if let Some(slot) = m.get_mut(s..e) { slot.copy_from_slice(v) }], with [v] of
    length [e - s]. *)
Definition write_slot (m : bytes) (s e : Z) (v : bytes) : bytes :=
  match get_range m s e with
  | Some _ => take (Z.to_nat s) m ++ v ++ drop (Z.to_nat e) m
  | None => m
  end.
Definition stamp_bind_port_min (meta : bytes) (min_port : Z) : bytes :=
  write_slot meta 14 16 (ne_bytes en 2 min_port).
Definition stamp_proxy_meta (meta : bytes) (endpoint : ProxyEndpoint) : bytes :=
  let v4 := default (replicate 4 0) (pe_v4 endpoint) in
  let m := write_slot meta 8 12 v4 in
  let m := write_slot m 12 14 (be_bytes 2 (pe_port endpoint)) in
  write_slot m 16 32 (pe_v6 endpoint).

Fixpoint encode (rules : list NetRule) : result SpawnError (list LpmV4Entry * list LpmV6Entry) :=
  match rules with
  | [] => Ok ([], [])
  | r :: rules =>
      let value := allow_entry (nr_port_min r) (nr_port_max r) (nr_protocol r) 0 in
      match parse_ipv4 (nr_cidr r) with
      | Some addr =>
          '(v4, v6) ← encode rules; Ok ((lpm_v4_key addr (nr_prefix_len r), value) :: v4, v6)
      | None =>
          match parse_ipv6 (nr_cidr r) with
          | Some addr =>
              '(v4, v6) ← encode rules; Ok (v4, (lpm_v6_key addr (nr_prefix_len r), value) :: v6)
          | None => Err (InvalidCidr (nr_cidr r))
          end
      end
  end.

Record BpfAcls : Type := {
  ba_allow_v4 : list LpmV4Entry; ba_allow_v6 : list LpmV6Entry;
  ba_deny_v4 : list LpmV4Entry; ba_deny_v6 : list LpmV6Entry;
  ba_bind_allow_v4 : list LpmV4Entry; ba_bind_allow_v6 : list LpmV6Entry;
  ba_bind_deny_v4 : list LpmV4Entry; ba_bind_deny_v6 : list LpmV6Entry;
}.

Definition connect_allow_rules (net : NetPolicy) : list NetRule :=
  if bool_decide (np_mode net = PmHost) then np_bpf_connect_allow net else [].
Definition connect_deny_rules (net : NetPolicy) : list NetRule :=
  np_deny_invariant net ++ np_bpf_connect_deny net ++ np_deny_author net.

Definition acls_from_policy (net : NetPolicy) : result SpawnError BpfAcls :=
  '(allow_v4, allow_v6) ← encode (connect_allow_rules net);
  '(deny_v4, deny_v6) ← encode (connect_deny_rules net);
  '(bind_allow_v4, bind_allow_v6) ← encode (np_bpf_bind_allow net);
  '(bind_deny_v4, bind_deny_v6) ← encode (np_bpf_bind_deny net);
  Ok {| ba_allow_v4 := allow_v4; ba_allow_v6 := allow_v6; ba_deny_v4 := deny_v4;
        ba_deny_v6 := deny_v6; ba_bind_allow_v4 := bind_allow_v4;
        ba_bind_allow_v6 := bind_allow_v6; ba_bind_deny_v4 := bind_deny_v4;
        ba_bind_deny_v6 := bind_deny_v6 |}.

Definition single_port_tcp_grants (rules : list NetRule) (access : Z) : list (Z * Z) :=
  map (fun r => (nr_port_min r, access))
      (List.filter (fun r =>
         match nr_protocol r with ProtoTcp | ProtoAny => true | ProtoUdp => false end &&
         (nr_port_min r =? nr_port_max r)) rules).

(** ** Resource limits *)

Section limits.
Context (RLIM_INFINITY : Z).

Definition ulimit_token (t : bytes) : option Z :=
  if bool_decide (t = ascii_bytes "unlimited") then Some RLIM_INFINITY else parse_uint u64_max t.

Definition parse_ulimit_value (name value : bytes) : result SpawnError (Z * Z) :=
  let bad := BadUlimit name value in
  match split_whitespace value with
  | [] => Err bad
  | [s] => soft ← ok_or bad (ulimit_token s); Ok (soft, soft)
  | s :: h :: rest =>
      soft ← ok_or bad (ulimit_token s);
      hard ← ok_or bad (ulimit_token h);
      match rest with [] => Ok (soft, hard) | _ => Err bad end
  end.

Fixpoint resolve_ulimits (limits : list (bytes * bytes)) :
    result SpawnError (list (Resource * Z * Z)) :=
  match limits with
  | [] => Ok []
  | (name, value) :: rest =>
      resource ← ok_or (UnknownUlimit name) (resource_by_name name);
      '(soft, hard) ← parse_ulimit_value name value;
      us ← resolve_ulimits rest;
      Ok ((resource, soft, hard) :: us)
  end.
End limits.

(** ** Seccomp *)

(** The names [syscall_number] knows; the numbers are [libc]'s. *)
Definition SYSCALLS : list bytes :=
  map ascii_bytes ["userfaultfd"; "perf_event_open"; "bpf"; "process_vm_readv";
    "process_vm_writev"; "kexec_load"; "kexec_file_load"; "mount"; "umount2"; "pivot_root";
    "swapon"; "swapoff"; "reboot"; "init_module"; "finit_module"; "delete_module"; "personality";
    "io_uring_setup"; "io_uring_enter"; "io_uring_register"; "fsopen"; "fsconfig"; "fsmount";
    "move_mount"; "open_tree"; "mount_setattr"; "open_by_handle_at"; "name_to_handle_at"; "ptrace";
    "add_key"; "keyctl"; "request_key"; "setns"; "unshare"]%string.
Definition syscall_number (SYS : bytes -> Z) (name : bytes) : option Z :=
  let name := if bool_decide (name = ascii_bytes "umount") then ascii_bytes "umount2" else name in
  if bool_decide (name ∈ SYSCALLS) then Some (SYS name) else None.
Definition seccomp_action (a : SeccompAction) : Action :=
  match a with
  | ScErrno => Act_Errno EPERM
  | ScKillThread => Act_KillThread
  | ScKillProcess => Act_KillProcess
  end.

(** ** The plan *)

Context (SYS : bytes -> Z) (RLIM_INFINITY : Z).

Definition plan_namespaces (policy : SettledPolicy) : Z :=
  let ns := flags [NS_USER; NS_MOUNT; NS_PID; NS_IPC] in
  let ns := if bool_decide (np_mode (ep_net (sp_effective_policy policy)) = PmHost) then ns
            else Z.lor ns NS_NET in
  if is_none (id_hostname (sp_identity policy)) then ns else Z.lor ns NS_UTS.

Definition image_root (policy : SettledPolicy) : option ImageRoot :=
  let r := sp_rootfs policy in
  if is_nil (rf_path r) then None
  else Some {| ir_image := rf_path r; ir_persistence := persistence_from_settled (rf_persistence r);
               ir_store_upper := None; ir_readonly := map glob_root (rf_readonly r);
               ir_writable := map glob_root (rf_writable r) |}.

Definition shim_root_of (policy : SettledPolicy) : bytes :=
  ascii_bytes "/home/" ++ id_user (sp_identity policy).
Definition permissive_exec (policy : SettledPolicy) : bool :=
  existsb is_exec_wildcard (ex_allow (ep_exec (sp_effective_policy policy))).

Definition landlock_net_of (net : NetPolicy) : list (Z * Z) :=
  (if bool_decide (np_mode net = PmHost)
   then single_port_tcp_grants (np_bpf_connect_allow net) NET_CONNECT_TCP else []) ++
  single_port_tcp_grants (np_bpf_bind_allow net) NET_BIND_TCP.

Definition from_policy (policy : SettledPolicy) (ctx : Z) (namespace home : bytes) :
    result SpawnError Plan :=
  let ep := sp_effective_policy policy in
  let shim_root := shim_root_of policy in
  let '(grant_rules, binds) := grant_block (ep_fs ep) home shim_root (permissive_exec policy) in
  exec_rules ← exec_gate (ep_fs ep) home shim_root (permissive_exec policy) (ep_exec ep);
  '(dev_rules, dev_allow) ← dev_block (dv_allow (fs_dev (ep_fs ep)));
  let '(mask_paths, mask_dir_paths) := mask_blocks policy binds in
  ulimits ← resolve_ulimits RLIM_INFINITY (ul_limits (sp_ulimits policy));
  acls ← acls_from_policy (ep_net ep);
  Ok {| pl_namespaces := plan_namespaces policy;
        pl_cgroup := ascii_bytes "/sys/fs/cgroup/" ++ namespace ++ [SLASH] ++ dec ctx;
        pl_cgroup_join := true;
        pl_view := Some {|
          sv_shim_root := shim_root; sv_binds := binds; sv_dev_allow := dev_allow;
          sv_tmp_size_mib := tp_size_mib (fs_tmp (ep_fs ep));
          sv_proc_hidepid := pr_hidepid (ep_proc ep); sv_binder := true;
          sv_mask_paths := mask_paths; sv_mask_dir_paths := mask_dir_paths;
          sv_image := image_root policy; sv_etc_overlays := overlays (ep_fs ep) |};
        pl_new_root := None;
        pl_landlock_fs := grant_rules ++ exec_rules ++ dev_rules ++ tail_rules policy shim_root;
        pl_landlock_net := landlock_net_of (ep_net ep);
        pl_seccomp_deny := omap (syscall_number SYS) (sc_deny (ep_seccomp ep));
        pl_seccomp_deny_action := seccomp_action (sc_deny_action (ep_seccomp ep));
        pl_bpf_allow_v4 := ba_allow_v4 acls; pl_bpf_deny_v4 := ba_deny_v4 acls;
        pl_bpf_allow_v6 := ba_allow_v6 acls; pl_bpf_deny_v6 := ba_deny_v6 acls;
        pl_bpf_bind_allow_v4 := ba_bind_allow_v4 acls; pl_bpf_bind_deny_v4 := ba_bind_deny_v4 acls;
        pl_bpf_bind_allow_v6 := ba_bind_allow_v6 acls; pl_bpf_bind_deny_v6 := ba_bind_deny_v6 acls;
        pl_bpf_meta := stamp_bind_port_min (meta_bytes ctx) (np_bind_port_min (ep_net ep));
        pl_bind_allowed_ports := np_bind_allowed_ports (ep_net ep);
        pl_file_binds := []; pl_supplementary_groups := None; pl_ulimits := ulimits;
        pl_interactive_return_fd := None; pl_workload_fd := None; pl_stdio_fds := None;
        pl_aux := []; pl_ttl_seconds := lc_ttl_seconds (ep_lifecycle ep);
        pl_ttl_action := lc_ttl_action (ep_lifecycle ep);
        pl_hostname := id_hostname (sp_identity policy) |}.

(** ** What the daemon adds to a built plan *)

(** The plan with the fields [stamp_proxy] and [grant_cwd] assign. *)
Definition plan_update (p : Plan) (view : option ShimView) (landlock_fs : list (bytes * Z))
    (landlock_net : list (Z * Z)) (allow_v4 : list LpmV4Entry) (allow_v6 : list LpmV6Entry)
    (bind_allow_v4 : list LpmV4Entry) (bind_allow_v6 : list LpmV6Entry) (meta : bytes) : Plan := {|
  pl_namespaces := pl_namespaces p; pl_cgroup := pl_cgroup p; pl_cgroup_join := pl_cgroup_join p;
  pl_view := view; pl_new_root := pl_new_root p; pl_landlock_fs := landlock_fs;
  pl_landlock_net := landlock_net; pl_seccomp_deny := pl_seccomp_deny p;
  pl_seccomp_deny_action := pl_seccomp_deny_action p;
  pl_bpf_allow_v4 := allow_v4; pl_bpf_deny_v4 := pl_bpf_deny_v4 p;
  pl_bpf_allow_v6 := allow_v6; pl_bpf_deny_v6 := pl_bpf_deny_v6 p;
  pl_bpf_bind_allow_v4 := bind_allow_v4; pl_bpf_bind_deny_v4 := pl_bpf_bind_deny_v4 p;
  pl_bpf_bind_allow_v6 := bind_allow_v6; pl_bpf_bind_deny_v6 := pl_bpf_bind_deny_v6 p;
  pl_bpf_meta := meta; pl_bind_allowed_ports := pl_bind_allowed_ports p;
  pl_file_binds := pl_file_binds p; pl_supplementary_groups := pl_supplementary_groups p;
  pl_ulimits := pl_ulimits p; pl_interactive_return_fd := pl_interactive_return_fd p;
  pl_workload_fd := pl_workload_fd p; pl_stdio_fds := pl_stdio_fds p; pl_aux := pl_aux p;
  pl_ttl_seconds := pl_ttl_seconds p; pl_ttl_action := pl_ttl_action p;
  pl_hostname := pl_hostname p |}.

Definition opt_entry (o : option bytes) (f : bytes -> LpmV4Entry) : list LpmV4Entry :=
  match o with Some a => [f a] | None => [] end.

Definition stamp_proxy (p : Plan) (e : ProxyEndpoint) : Plan :=
  let own_loopback := allow_entry 0 u16_max ProtoAny KENNEL_ALLOW_FLAG_PROXY in
  let any_port := allow_entry 0 u16_max ProtoAny 0 in
  plan_update p (pl_view p) (pl_landlock_fs p)
    (if existsb (fun g => g.1 =? pe_port e) (pl_landlock_net p) then pl_landlock_net p
     else pl_landlock_net p ++ [(pe_port e, NET_CONNECT_TCP)])
    (pl_bpf_allow_v4 p ++ opt_entry (pe_v4 e) (fun a => (lpm_v4_key a HOST_PREFIX_V4, own_loopback)))
    (pl_bpf_allow_v6 p ++ [(lpm_v6_key (pe_v6 e) HOST_PREFIX_V6, own_loopback)])
    (pl_bpf_bind_allow_v4 p ++
      opt_entry (pe_v4 e) (fun a => (lpm_v4_key a LOOPBACK_PREFIX_V4, any_port)))
    (pl_bpf_bind_allow_v6 p ++ [(lpm_v6_key (pe_v6 e) LOOPBACK_PREFIX_V6, any_port)])
    (stamp_proxy_meta (pl_bpf_meta p) e).
End encoding.

Definition view_with_bind (v : ShimView) (b : BindMount) : ShimView := {|
  sv_shim_root := sv_shim_root v; sv_binds := sv_binds v ++ [b]; sv_dev_allow := sv_dev_allow v;
  sv_tmp_size_mib := sv_tmp_size_mib v; sv_proc_hidepid := sv_proc_hidepid v;
  sv_binder := sv_binder v; sv_mask_paths := sv_mask_paths v;
  sv_mask_dir_paths := sv_mask_dir_paths v; sv_image := sv_image v;
  sv_etc_overlays := sv_etc_overlays v |}.

Definition grant_cwd (p : Plan) (host_dir : bytes) (writable : bool) : Plan :=
  let access := if writable then write_access else read_access false in
  plan_update p
    (option_map (fun v => view_with_bind v {| bm_source := host_dir; bm_target := host_dir;
       bm_writable := writable; bm_exclusive := false; bm_redirected := false |}) (pl_view p))
    (pl_landlock_fs p ++ [(host_dir, access)]) (pl_landlock_net p) (pl_bpf_allow_v4 p)
    (pl_bpf_allow_v6 p) (pl_bpf_bind_allow_v4 p) (pl_bpf_bind_allow_v6 p) (pl_bpf_meta p).

Definition redirected_source_within (p : Plan) (dir : bytes) : option bytes :=
  v ← pl_view p;
  List.find (fun src => path_starts_with src dir || path_starts_with dir src)
    (map bm_source (List.filter bm_redirected (sv_binds v))).

(** [Filter::denylist]: the rules, the action on a match and the one otherwise. *)
Definition seccomp_filter (p : Plan) : list Z * Action * Action :=
  (pl_seccomp_deny p, pl_seccomp_deny_action p, Act_Allow).

(** * The parts of a built plan *)

Section built.
Context (en : endian) (SYS : bytes -> Z) (RL : Z) (policy : SettledPolicy) (ctx : Z)
  (namespace home : bytes).
Let ep := sp_effective_policy policy.
Let shim := shim_root_of policy.
Let grants := grant_block (ep_fs ep) home shim (permissive_exec policy).

(** Everything a successful [from_policy] fixes, from its intermediate values. *)
Record built (p : Plan) (exec_rules dev_rules : list (bytes * Z)) (devs : list bytes)
    (acls : BpfAcls) (v : ShimView) : Prop := {
  bu_exec : exec_gate (ep_fs ep) home shim (permissive_exec policy) (ep_exec ep) = Ok exec_rules;
  bu_dev : dev_block (dv_allow (fs_dev (ep_fs ep))) = Ok (dev_rules, devs);
  bu_limits : resolve_ulimits RL (ul_limits (sp_ulimits policy)) = Ok (pl_ulimits p);
  bu_acls : acls_from_policy en (ep_net ep) = Ok acls;
  bu_landlock :
    pl_landlock_fs p = grants.1 ++ exec_rules ++ dev_rules ++ tail_rules policy shim;
  bu_view : pl_view p = Some v;
  bu_shim : sv_shim_root v = shim;
  bu_binds : sv_binds v = grants.2;
  bu_masks : (sv_mask_paths v, sv_mask_dir_paths v) = mask_blocks policy grants.2;
  bu_overlays : sv_etc_overlays v = overlays (ep_fs ep);
  bu_devs : sv_dev_allow v = devs;
  bu_net : pl_landlock_net p = landlock_net_of (ep_net ep);
  bu_lists : (pl_bpf_allow_v4 p, pl_bpf_allow_v6 p, pl_bpf_deny_v4 p, pl_bpf_deny_v6 p) =
    (ba_allow_v4 acls, ba_allow_v6 acls, ba_deny_v4 acls, ba_deny_v6 acls);
  bu_bind_lists : (pl_bpf_bind_allow_v4 p, pl_bpf_bind_allow_v6 p, pl_bpf_bind_deny_v4 p,
      pl_bpf_bind_deny_v6 p) =
    (ba_bind_allow_v4 acls, ba_bind_allow_v6 acls, ba_bind_deny_v4 acls, ba_bind_deny_v6 acls);
  bu_meta : pl_bpf_meta p =
    stamp_bind_port_min en (meta_bytes en ctx) (np_bind_port_min (ep_net ep));
  bu_ports : pl_bind_allowed_ports p = np_bind_allowed_ports (ep_net ep);
  bu_ns : pl_namespaces p = plan_namespaces policy;
  bu_action : pl_seccomp_deny_action p = seccomp_action (sc_deny_action (ep_seccomp ep));
  bu_seccomp : pl_seccomp_deny p = omap (syscall_number SYS) (sc_deny (ep_seccomp ep));
}.

Lemma from_policy_built p :
  from_policy en SYS RL policy ctx namespace home = Ok p ->
  exists exec_rules dev_rules devs acls v, built p exec_rules dev_rules devs acls v.
Proof.
  unfold from_policy. fold ep shim grants. destruct grants as [rules binds] eqn:Eg.
  intros (xr & Ex & H)%bind_Ok. apply bind_Ok in H as ((dr, devs) & Ed & H).
  destruct (mask_blocks policy binds) as [mf md] eqn:Em.
  apply bind_Ok in H as (us & Eu & H). apply bind_Ok in H as (acls & Ea & H).
  apply (inj Ok) in H as <-. exists xr, dr, devs, acls. eexists.
  split; try reflexivity; rewrite ?Eg; (assumption || reflexivity || (symmetry; exact Em)).
Qed.
End built.

(** * Grants *)

Section grants.
Implicit Types gs reqs : list (bytes * bool).

(** What the collected list says of the requests read so far. *)
Definition asked (reqs : list (bytes * bool)) (s : bytes) : bool :=
  existsb (fun r => r.2 && path_eqb s (glob_root r.1)) reqs.
Record collected reqs gs : Prop := {
  co_mode : forall g, g ∈ gs -> g.2 = asked reqs g.1;
  co_from : forall g, g ∈ gs -> exists r, r ∈ reqs /\ glob_root r.1 = g.1;
  co_all : forall r, r ∈ reqs -> exists g, g ∈ gs /\ path_eqb g.1 (glob_root r.1) = true;
  co_nodup : NoDup (map (fun g => components g.1) gs);
}.

Lemma asked_snoc reqs r s :
  asked (reqs ++ [r]) s = asked reqs s || (r.2 && path_eqb s (glob_root r.1)).
Proof. unfold asked. rewrite existsb_app. cbn. by rewrite orb_false_r. Qed.

Lemma asked_equiv reqs s t : components s = components t -> asked reqs s = asked reqs t.
Proof.
  intros E. unfold asked. induction reqs as [|r reqs IH]; cbn; [done|]. rewrite IH.
  unfold path_eqb. by rewrite E.
Qed.

Lemma add_grant_components source w gs :
  map (fun g => components g.1) (add_grant source w gs) =
    map (fun g => components g.1) gs ++
    (if existsb (fun g => path_eqb g.1 source) gs then [] else [components source]).
Proof.
  induction gs as [|[s w'] gs IH]; cbn; [done|].
  destruct (path_eqb s source); cbn; [by rewrite app_nil_r|]. by rewrite IH.
Qed.

Lemma elem_of_add_grant source w gs g :
  NoDup (map (fun g => components g.1) gs) -> g ∈ add_grant source w gs ->
  (g ∈ gs /\ path_eqb g.1 source = false) \/
  (exists w', (g.1, w') ∈ gs /\ path_eqb g.1 source = true /\ g.2 = w' || w) \/
  (g = (source, w) /\ forall x, x ∈ gs -> path_eqb x.1 source = false).
Proof.
  induction gs as [|[s w'] gs IH]; cbn; intros Hn.
  { rewrite list_elem_of_singleton. intros ->. right; right. split; [done|]. by intros x ?%elem_of_nil. }
  apply NoDup_cons in Hn as [Hs Hn].
  destruct (path_eqb s source) eqn:E; rewrite elem_of_cons.
  - intros [->|Hg].
    + right; left. exists w'. split_and!; [by left|done..].
    + left. split; [by right|]. apply not_true_iff_false. intros E'. apply Hs.
      apply path_eqb_eq in E, E'. apply list_elem_of_In, in_map_iff. exists g.
      split; [by rewrite E'|]. by apply list_elem_of_In.
  - intros [->|Hg]; [left; split; [by left|done]|].
    destruct (IH Hn Hg) as [[? ?]|[(w0 & ? & ? & ?)|[-> Hx]]].
    + left. split; [by right|done].
    + right; left. exists w0. split_and!; [by right|done..].
    + right; right. split; [done|]. intros x [->|Hx']%elem_of_cons; [done|]. by apply Hx.
Qed.

Lemma components_add_grant source w gs g :
  g ∈ gs \/ g.1 = source -> exists g', g' ∈ add_grant source w gs /\ components g'.1 = components g.1.
Proof.
  intros Hg. assert (components g.1 ∈ map (fun g => components g.1) (add_grant source w gs)) as H.
  { rewrite add_grant_components, elem_of_app. destruct Hg as [Hg| ->].
    - left. by apply (list_elem_of_fmap_2 (fun g => components g.1)).
    - destruct (existsb _ gs) eqn:E; [left|right; by left].
      apply existsb_exists in E as (x & Hx & E%path_eqb_eq). rewrite <- E.
      apply (list_elem_of_fmap_2 (fun g => components g.1)). by apply list_elem_of_In. }
  apply list_elem_of_fmap in H as (g' & E & Hg'). by exists g'.
Qed.

Lemma collected_add reqs gs r :
  collected reqs gs -> collected (reqs ++ [r]) (add_grant (glob_root r.1) r.2 gs).
Proof.
  intros [Hm Hf Ha Hn]. split.
  - intros g Hg. rewrite asked_snoc. apply elem_of_add_grant in Hg; [|done].
    destruct Hg as [[Hg ->]|[(w & Hg & -> & ->)|[-> Hx]]].
    + rewrite andb_false_r, orb_false_r. by apply Hm.
    + rewrite andb_true_r. specialize (Hm _ Hg). cbn in Hm. by rewrite Hm.
    + cbn. replace (path_eqb _ _) with true by (symmetry; by apply path_eqb_eq).
      rewrite andb_true_r. replace (asked reqs (glob_root r.1)) with false; [done|].
      symmetry. apply not_true_iff_false. intros H. apply existsb_exists in H as (r' & Hr' & E).
      apply andb_true_iff in E as [_ E%path_eqb_eq].
      destruct (Ha r') as (g & Hg & Eg%path_eqb_eq); [by apply list_elem_of_In|].
      specialize (Hx g Hg). rewrite (proj2 (path_eqb_eq _ _)) in Hx; [done|]. by rewrite Eg.
  - intros g Hg. apply elem_of_add_grant in Hg; [|done].
    destruct Hg as [[Hg _]|[(w & Hg & _)|[-> _]]].
    + destruct (Hf g Hg) as (r' & ? & ?). exists r'. by rewrite elem_of_app; auto.
    + destruct (Hf _ Hg) as (r' & ? & ?). exists r'. by rewrite elem_of_app; auto.
    + exists r. split; [|done]. apply elem_of_app. right. by left.
  - intros r' [Hr'| ->%list_elem_of_singleton]%elem_of_app.
    + destruct (Ha r' Hr') as (g & Hg & Eg%path_eqb_eq).
      destruct (components_add_grant (glob_root r.1) r.2 gs g) as (g' & ? & E); [by left|].
      exists g'. split; [done|]. apply path_eqb_eq. by rewrite E.
    + destruct (components_add_grant (glob_root r.1) r.2 gs (glob_root r.1, true)) as (g' & ? & E);
        [by right|]. exists g'. split; [done|]. by apply path_eqb_eq.
  - rewrite add_grant_components. destruct (existsb _ gs) eqn:E; [by rewrite app_nil_r|].
    apply NoDup_app. split_and!; [done| |apply NoDup_singleton].
    intros c Hc ->%list_elem_of_singleton. apply list_elem_of_fmap in Hc as (g & Ec & Hg).
    rewrite <- not_true_iff_false in E. apply E, existsb_exists. exists g.
    split; [by apply list_elem_of_In|]. by apply path_eqb_eq.
Qed.

Lemma collect_grants_collected read write :
  collected (requested read write) (collect_grants read write).
Proof.
  unfold collect_grants. induction (requested read write) as [|r reqs IH] using rev_ind.
  - split; try by intros ? ?%elem_of_nil. constructor.
  - rewrite fold_left_app. by apply collected_add.
Qed.

(** ** The order of the mounts *)

Lemma insert_by_len_perm x gs : insert_by_len x gs ≡ₚ x :: gs.
Proof.
  induction gs as [|y gs IH]; cbn; [done|]. destruct (_ <=? _); [done|]. rewrite IH. apply perm_swap.
Qed.

Lemma sort_by_len_perm gs : sort_by_len gs ≡ₚ gs.
Proof. induction gs as [|x gs IH]; cbn; [done|]. by rewrite insert_by_len_perm, IH. Qed.

Definition len_le (x y : bytes * bool) : Prop := blen x.1 <= blen y.1.

Lemma insert_by_len_sorted x gs : StronglySorted len_le gs -> StronglySorted len_le (insert_by_len x gs).
Proof.
  induction 1 as [|y gs Hs IH Hy]; cbn; [repeat constructor|].
  destruct (Z.leb_spec (blen x.1) (blen y.1)).
  - constructor; [by constructor|]. constructor; [done|].
    eapply Forall_impl; [exact Hy|]. unfold len_le. lia.
  - constructor; [done|]. rewrite insert_by_len_perm. constructor; [unfold len_le; lia|done].
Qed.

Lemma sort_by_len_sorted gs : StronglySorted len_le (sort_by_len gs).
Proof. induction gs as [|x gs IH]; cbn; [constructor|]. by apply insert_by_len_sorted. Qed.
End grants.

(** ** Where a granted path appears *)

Lemma remap_inside path home shim :
  components home <> [] -> path_starts_with path home = true ->
  components (remap_target path home shim) =
    components shim ++ drop (length (components home)) (components path).
Proof.
  intros Hh Hs. unfold remap_target.
  destruct (path_strip_prefix_components path home) as (r & -> & E & Ha & Hl); [done..|].
  rewrite path_join_components by done. by rewrite E, drop_app_length.
Qed.

Lemma remap_outside path home shim :
  path_starts_with path home = false -> remap_target path home shim = path.
Proof. intros H. unfold remap_target. by rewrite path_strip_prefix_None. Qed.

Lemma remap_equiv p q home shim :
  components home <> [] -> components p = components q ->
  components (remap_target p home shim) = components (remap_target q home shim).
Proof.
  intros Hh E. destruct (path_starts_with p home) eqn:Hs.
  - rewrite !remap_inside; [by rewrite E|done| |done..]. unfold path_starts_with in *. by rewrite <- E.
  - rewrite !remap_outside; [done| |done]. unfold path_starts_with in *. by rewrite <- E.
Qed.

Lemma remap_mono p q home shim :
  components home <> [] -> path_starts_with p home = path_starts_with q home ->
  path_starts_with p q = true ->
  path_starts_with (remap_target p home shim) (remap_target q home shim) = true.
Proof.
  intros Hh Hpq Hs. destruct (path_starts_with p home) eqn:Hp.
  - apply path_starts_with_prefix. rewrite !remap_inside by done. apply prefix_app.
    apply path_starts_with_prefix in Hs as [k ->]. rewrite drop_app_le; [by exists k|].
    symmetry in Hpq. apply path_starts_with_prefix, prefix_length in Hpq. done.
  - by rewrite !remap_outside.
Qed.

(** * Landlock *)

(** The rights Landlock gives on a path: the union over the rules at it or above. *)
Definition rights (rules : list (bytes * Z)) (path : bytes) : Z :=
  fold_right (fun r acc => if path_starts_with path r.1 then Z.lor r.2 acc else acc) 0 rules.

Definition grants_bit (k : Z) (path : bytes) (r : bytes * Z) : bool :=
  path_starts_with path r.1 && Z.testbit r.2 k.

Lemma rights_testbit rules path k :
  Z.testbit (rights rules path) k = existsb (grants_bit k path) rules.
Proof.
  unfold rights. induction rules as [|r rules IH]; cbn; [apply Z.testbit_0_l|].
  unfold grants_bit at 1. destruct (path_starts_with path r.1); [by rewrite Z.lor_spec, IH|done].
Qed.

Lemma no_bit k path rules :
  Forall (fun r => Z.testbit r.2 k = false) rules -> existsb (grants_bit k path) rules = false.
Proof.
  induction 1 as [|r rules Hr _ IH]; cbn; [done|]. unfold grants_bit at 1.
  by rewrite Hr, andb_false_r.
Qed.

Lemma all_bit k path {A} (f : A -> bytes) acc (l : list A) :
  Z.testbit acc k = true ->
  existsb (grants_bit k path) (map (fun x => (f x, acc)) l) =
    existsb (fun x => path_starts_with path (f x)) l.
Proof.
  intros H. induction l as [|x l IH]; cbn; [done|]. unfold grants_bit at 1. cbn.
  by rewrite H, andb_true_r, IH.
Qed.

Lemma exec_allow_rules_Ok fs home shim e allow rules :
  exec_allow_rules fs home shim e allow = Ok rules ->
  rules = map (fun x => (remap_target (glob_root x) home shim, exec_access)) allow /\
  (ex_deny_writable e = true -> forall x w, x ∈ allow -> w ∈ fs_write fs ->
     path_starts_with (glob_root x) w = false).
Proof.
  revert rules; induction allow as [|x allow IH]; intros rules; cbn [exec_allow_rules].
  { intros <-%(inj Ok). split; [done|]. by intros _ ? ? ?%elem_of_nil. }
  destruct (ex_deny_writable e && _) eqn:Ed; [done|].
  intros (rs & H & E)%bind_Ok. apply (inj Ok) in E as <-. destruct (IH rs H) as [-> Hw].
  split; [done|]. intros Hd y w [->|Hy]%elem_of_cons Hwr; [|by apply Hw].
  rewrite Hd in Ed. cbn in Ed. apply not_true_iff_false. intros Hx.
  rewrite <- not_true_iff_false in Ed. apply Ed, existsb_exists. exists w.
  split; [by apply list_elem_of_In|done].
Qed.

Lemma dev_block_Ok allow rules devs :
  dev_block allow = Ok (rules, devs) ->
  rules = map (fun d => (glob_root d, dev_access)) allow /\ devs = map glob_root allow /\
  Forall (fun d => is_safe_dev_path (glob_root d) = true) allow.
Proof.
  revert rules devs; induction allow as [|d allow IH]; intros rules devs; cbn [dev_block].
  { by intros [= <- <-]. }
  destruct (is_safe_dev_path (glob_root d)) eqn:Ed; cbn [negb]; [|done].
  intros ((rs, ds) & H & E)%bind_Ok. apply (inj Ok), pair_eq in E as [<- <-].
  destruct (IH rs ds H) as (-> & -> & Hf). by repeat constructor.
Qed.

(** Where a path is writable in the view a policy describes. *)
Definition view_writable (policy : SettledPolicy) (home path : bytes) : bool :=
  let fs := ep_fs (sp_effective_policy policy) in
  let shim := shim_root_of policy in
  existsb (fun w => path_starts_with path (remap_target (glob_root w) home shim)) (fs_write fs) ||
  existsb (fun d => path_starts_with path (glob_root d)) (dv_allow (fs_dev fs)) ||
  (negb (fs_home_readonly fs) && path_starts_with path shim) ||
  (tp_writable (fs_tmp fs) &&
    (path_starts_with path (ascii_bytes "/tmp") || path_starts_with path (ascii_bytes "/dev/shm"))) ||
  (negb (is_nil (rf_path (sp_rootfs policy))) && path_starts_with path (ascii_bytes "/")) ||
  path_starts_with path (ascii_bytes "/dev/binderfs/binder").

Definition view_executable (policy : SettledPolicy) (home path : bytes) : bool :=
  let ex := ep_exec (sp_effective_policy policy) in
  let shim := shim_root_of policy in
  existsb (fun e => path_starts_with path (remap_target (glob_root e) home shim)) (ex_allow ex) ||
  existsb (fun l => path_starts_with path (remap_target l home shim)) (ex_loaders ex).

(** The write bit of the grant rules, whatever the spelling and order of the lists. *)
Lemma grant_rules_write fs home shim perm path :
  components home <> [] ->
  existsb (grants_bit 1 path) (grant_block fs home shim perm).1 =
    existsb (fun w => path_starts_with path (remap_target (glob_root w) home shim)) (fs_write fs).
Proof.
  intros Hh. apply eq_true_iff_eq. rewrite !existsb_exists. cbn [grant_block fst].
  pose proof (collect_grants_collected (fs_read fs) (fs_write fs)) as [Hm Hf Ha _].
  assert (forall w, w ∈ fs_write fs <-> (w, true) ∈ requested (fs_read fs) (fs_write fs)) as Hr.
  { intros w. unfold requested. rewrite elem_of_app. split.
    - intros Hw. right. by apply (list_elem_of_fmap_2 (fun p => (p, true))).
    - intros [H|H]; apply list_elem_of_fmap in H as (x & [= ->] & H); done. }
  split.
  - intros (r & Hin & Hb). apply in_map_iff in Hin as (g & <- & Hg).
    apply list_elem_of_In in Hg. rewrite (sort_by_len_perm _) in Hg.
    apply andb_true_iff in Hb as [Hp Hb]. cbn [grant_rule fst snd] in Hp, Hb.
    rewrite (Hm g Hg) in Hb. destruct (asked _ g.1) eqn:Eq; [|by destruct perm].
    apply existsb_exists in Eq as ([w b] & Hw & [Hb' E%path_eqb_eq]%andb_true_iff).
    cbn in Hb', E. subst b. exists w. split; [by apply list_elem_of_In, Hr, list_elem_of_In|].
    apply path_starts_with_prefix. apply path_starts_with_prefix in Hp.
    rewrite <- (remap_equiv g.1 (glob_root w)) by done. done.
  - intros (w & Hw%list_elem_of_In & Hp).
    destruct (Ha (w, true)) as (g & Hg & E%path_eqb_eq); [by apply Hr|]. cbn in E.
    exists (grant_rule home shim perm g). split.
    + apply in_map, list_elem_of_In. by rewrite (sort_by_len_perm _).
    + unfold grants_bit. cbn [grant_rule fst snd]. apply andb_true_iff. split.
      * apply path_starts_with_prefix. apply path_starts_with_prefix in Hp.
        by rewrite (remap_equiv g.1 (glob_root w)).
      * rewrite (Hm g Hg). replace (asked _ g.1) with true; [done|]. symmetry.
        apply existsb_exists. exists (w, true). split; [by apply list_elem_of_In, Hr|].
        cbn. by apply path_eqb_eq.
Qed.

Lemma absolute_nonempty home : is_absolute home = true -> components home <> [].
Proof. intros [cs ->]%components_abs. done. Qed.

Lemma exec_rules_bits fs home shim perm e rules path :
  exec_gate fs home shim perm e = Ok rules ->
  existsb (grants_bit 1 path) rules = false /\
  (perm = false -> existsb (grants_bit 0 path) rules =
    existsb (fun x => path_starts_with path (remap_target (glob_root x) home shim)) (ex_allow e) ||
    existsb (fun l => path_starts_with path (remap_target l home shim)) (ex_loaders e)).
Proof.
  unfold exec_gate. destruct perm; [by intros <-%(inj Ok)|].
  intros (rs & [-> _]%exec_allow_rules_Ok & E)%bind_Ok. apply (inj Ok) in E as <-. split.
  - apply no_bit, Forall_app. split; apply Forall_map, Forall_true; intros x; done.
  - intros _. rewrite existsb_app. f_equal.
    + by apply (all_bit 0 path (fun x => remap_target (glob_root x) home shim)).
    + by apply (all_bit 0 path (fun l => remap_target l home shim)).
Qed.

Lemma grant_rules_no_exec fs home shim path :
  existsb (grants_bit 0 path) (grant_block fs home shim false).1 = false.
Proof. apply no_bit, Forall_map, Forall_true. intros [s w]. by destruct w. Qed.

Lemma tail_rules_write policy path :
  existsb (grants_bit 1 path) (tail_rules policy (shim_root_of policy)) =
  let fs := ep_fs (sp_effective_policy policy) in
  (negb (fs_home_readonly fs) && path_starts_with path (shim_root_of policy)) ||
  (tp_writable (fs_tmp fs) &&
    (path_starts_with path (ascii_bytes "/tmp") || path_starts_with path (ascii_bytes "/dev/shm"))) ||
  (negb (is_nil (rf_path (sp_rootfs policy))) && path_starts_with path (ascii_bytes "/")) ||
  path_starts_with path (ascii_bytes "/dev/binderfs/binder").
Proof.
  cbv zeta. unfold tail_rules. rewrite !existsb_app.
  generalize (shim_root_of policy) (ascii_bytes "/tmp") (ascii_bytes "/dev/shm") (ascii_bytes "/")
    (ascii_bytes "/dev/binderfs/binder") (ascii_bytes "/dev/binderfs")
    (ascii_bytes "/dev/binderfs/features").
  intros a b c d e f g. unfold grants_bit.
  destruct (fs_home_readonly _), (tp_writable _), (is_nil _); cbn -[path_starts_with];
    destruct (path_starts_with path a), (path_starts_with path b), (path_starts_with path c),
      (path_starts_with path d), (path_starts_with path e), (path_starts_with path f),
      (path_starts_with path g); done.
Qed.

Section landlock.
Context (en : endian) (SYS : bytes -> Z) (RL : Z) (policy : SettledPolicy) (ctx : Z)
  (namespace home : bytes) (p : Plan).
Hypothesis Hbuilt : from_policy en SYS RL policy ctx namespace home = Ok p.

Lemma landlock_write path :
  is_absolute home = true ->
  Z.testbit (rights (pl_landlock_fs p) path) 1 = view_writable policy home path.
Proof.
  intros Hh%absolute_nonempty.
  apply from_policy_built in Hbuilt as (xr & dr & devs & acls & v & B). destruct B.
  rewrite rights_testbit, bu_landlock0, !existsb_app.
  destruct (dev_block_Ok _ _ _ bu_dev0) as (-> & _ & _).
  destruct (exec_rules_bits _ _ _ _ _ _ path bu_exec0) as [-> _].
  rewrite grant_rules_write, tail_rules_write by done.
  rewrite (all_bit 1 path glob_root dev_access) by done. unfold view_writable. cbv zeta.
  by rewrite !orb_false_l, !orb_assoc.
Qed.

Lemma landlock_exec path :
  permissive_exec policy = false -> is_nil (rf_path (sp_rootfs policy)) = true ->
  Z.testbit (rights (pl_landlock_fs p) path) 0 = view_executable policy home path.
Proof.
  intros Hp Hi. apply from_policy_built in Hbuilt as (xr & dr & devs & acls & v & B). destruct B.
  rewrite rights_testbit, bu_landlock0, !existsb_app.
  destruct (dev_block_Ok _ _ _ bu_dev0) as (-> & _ & _).
  destruct (exec_rules_bits _ _ _ _ _ _ path bu_exec0) as [_ Hx].
  rewrite Hx by done. rewrite Hp, grant_rules_no_exec.
  rewrite (no_bit 0 path (map (fun d => (glob_root d, dev_access)) _))
    by (apply Forall_map, Forall_true; intros ?; reflexivity).
  rewrite (no_bit 0 path (tail_rules _ _)); [by rewrite !orb_false_r|].
  unfold tail_rules. rewrite Hi. repeat (apply Forall_app; split);
    repeat case_match; repeat constructor.
Qed.
End landlock.

(** C8: Under the rules of a built plan Landlock lets the workload write to a path
    exactly when it lies under a write grant (at its place in the view), a granted
    device, the constructed home unless read-only, the private [/tmp] and [/dev/shm]
    when writable, an OCI image root, or its binder device; and, without the
    explicit wildcard and outside an image root, execute it exactly when it lies
    under an allowlisted entry or one of the resolved loaders: reading never
    implies executing. *)
Theorem landlock_rights_exact en SYS RL policy ctx namespace home p path :
  from_policy en SYS RL policy ctx namespace home = Ok p ->
  is_absolute home = true ->
  Z.testbit (rights (pl_landlock_fs p) path) 1 = view_writable policy home path /\
  (permissive_exec policy = false -> is_nil (rf_path (sp_rootfs policy)) = true ->
   Z.testbit (rights (pl_landlock_fs p) path) 0 = view_executable policy home path).
Proof. intros H Hh. split; [by eapply landlock_write|]. intros. by eapply landlock_exec. Qed.

(** A kennel with [deny_writable] is never built with an allowlisted entry that
    lies under a write grant as the policy spells it: the translation refuses it,
    naming the first such entry. *)
Theorem exec_never_under_write_grant en SYS RL policy ctx namespace home p entry w :
  from_policy en SYS RL policy ctx namespace home = Ok p ->
  let ep := sp_effective_policy policy in
  ex_deny_writable (ep_exec ep) = true -> permissive_exec policy = false ->
  entry ∈ ex_allow (ep_exec ep) -> w ∈ fs_write (ep_fs ep) ->
  path_starts_with (glob_root entry) w = false.
Proof.
  intros (xr & dr & devs & acls & v & B)%from_policy_built ep Hd Hp He Hw.
  pose proof (bu_exec _ _ _ _ _ _ _ _ _ _ _ _ B) as Hx. rewrite Hp in Hx. unfold exec_gate in Hx.
  apply bind_Ok in Hx as (rs & [_ H]%exec_allow_rules_Ok & _). by apply H.
Qed.

(** The check of [deny_writable] compares against the grant as spelled, but a
    grant ending in [/**] or [/*] is bound and made writable at its root: an
    allowlisted binary under the root of a globbed write grant is accepted, and is
    then both writable and executable in the view. *)
Theorem globbed_write_grant_is_executable en SYS RL policy ctx namespace home p entry w :
  from_policy en SYS RL policy ctx namespace home = Ok p ->
  is_absolute home = true -> permissive_exec policy = false ->
  is_nil (rf_path (sp_rootfs policy)) = true ->
  let ep := sp_effective_policy policy in
  entry ∈ ex_allow (ep_exec ep) -> w ∈ fs_write (ep_fs ep) ->
  path_starts_with (glob_root entry) (glob_root w) = true ->
  path_starts_with (glob_root entry) home = path_starts_with (glob_root w) home ->
  let path := remap_target (glob_root entry) home (shim_root_of policy) in
  Z.testbit (rights (pl_landlock_fs p) path) 0 = true /\
  Z.testbit (rights (pl_landlock_fs p) path) 1 = true.
Proof.
  intros H Hh Hp Hi ep He Hw Hs Heq path. unfold path. split.
  all: erewrite ?landlock_write, ?landlock_exec by done.
  - unfold view_executable. apply orb_true_iff. left. apply existsb_exists. exists entry.
    split; [by apply list_elem_of_In|apply path_starts_with_refl].
  - unfold view_writable. rewrite !orb_true_iff. do 5 left. apply existsb_exists. exists w.
    split; [by apply list_elem_of_In|]. apply remap_mono; [by apply absolute_nonempty|done..].
Qed.

(** * The view *)

Lemma shim_root_components policy :
  exists cs, components (shim_root_of policy) = RootDir :: Normal (ascii_bytes "home") :: cs.
Proof.
  unfold shim_root_of. change (ascii_bytes "/home/" ++ id_user (sp_identity policy)) with
    (SLASH :: ascii_bytes "home" ++ SLASH :: id_user (sp_identity policy)).
  cbn [components]. rewrite Z.eqb_refl, split_on_app by done.
  rewrite body_components_cons. by eexists.
Qed.

(** A path outside [/etc] and [/proc] stays outside at its place in the view. *)
Lemma remap_not_special policy path home :
  components home <> [] -> is_special_mount path = false ->
  is_special_mount (remap_target path home (shim_root_of policy)) = false.
Proof.
  intros Hh Hs. destruct (path_starts_with path home) eqn:Hp; [|by rewrite remap_outside].
  destruct (shim_root_components policy) as [cs Es].
  unfold is_special_mount, path_starts_with. rewrite remap_inside, Es by done.
  apply orb_false_iff. split; apply bool_decide_eq_false; intros [k E]; done.
Qed.

Lemma grant_bind_Some fs home shim g b :
  grant_bind fs home shim g = Some b ->
  is_special_mount g.1 = false /\ bm_target b = remap_target g.1 home shim /\
  bm_writable b = g.2 /\
  (bm_source b, bm_redirected b) =
    match redirect_get (redirects fs) g.1 with Some s => (s, true) | None => (g.1, false) end.
Proof.
  destruct g as [s w]. unfold grant_bind. destruct (is_special_mount s) eqn:E; [done|].
  cbn [fst snd]. destruct (redirect_get (redirects fs) s); by intros [= <-].
Qed.

Lemma overlayable_spec path :
  is_overlayable_etc_path path = true ->
  exists top rest, components path = RootDir :: Normal (ascii_bytes "etc") :: top :: rest /\
    (comp_str top ∉ PROTECTED_ETC_FLOOR) /\ ParentDir ∉ components path.
Proof.
  unfold is_overlayable_etc_path. destruct (path_starts_with path (ascii_bytes "/etc")) eqn:Hs; [|done].
  destruct (path_eqb path _); [done|]. cbn [negb orb].
  destruct (has_parent_dir path) eqn:Hp; [done|]. destruct (has_byte STAR _); [done|].
  destruct (path_strip_prefix_components path (ascii_bytes "/etc")) as (r & -> & E & _); [done..|].
  destruct (components r) as [|top rest]; [done|].
  destruct (from_utf8 (comp_str top)) as [t|] eqn:Eu; [|done]. apply from_utf8_Some in Eu as [-> _].
  intros Hf. apply negb_true_iff, bool_decide_eq_false in Hf.
  exists top, rest. split_and!; [by rewrite E|done|].
  intros Hin. apply not_true_iff_false in Hp. apply Hp, existsb_exists. exists ParentDir.
  split; [by apply list_elem_of_In|]. by apply bool_decide_eq_true.
Qed.

Lemma safe_dev_spec path :
  is_safe_dev_path path = true ->
  exists c rest, components path = RootDir :: Normal (ascii_bytes "dev") :: c :: rest /\
    ParentDir ∉ components path.
Proof.
  unfold is_safe_dev_path. rewrite !andb_true_iff, !negb_true_iff. intros [[Hs He] Hp].
  apply path_starts_with_prefix in Hs as [k E].
  destruct k as [|c rest].
  - exfalso. rewrite app_nil_r in E. apply bool_decide_eq_false in He. done.
  - exists c, rest. split; [by rewrite E|]. intros Hin. apply not_true_iff_false in Hp.
    apply Hp, existsb_exists. exists ParentDir.
    split; [by apply list_elem_of_In|]. by apply bool_decide_eq_true.
Qed.

(** The constructed view keeps what the daemon built: no bind lands in [/etc] or
    [/proc]; each overlay of [/etc] is a path the policy reads, strictly inside
    [/etc], without [..], and never the identity or loader files nor anything beneath
    them, whatever the spelling; every device is strictly inside [/dev] without
    [..]; the host's helper directory is masked; and, with the trust manifest on, every
    writable bind has its manifest and blob store masked. *)
Theorem view_confined en SYS RL policy ctx namespace home p :
  from_policy en SYS RL policy ctx namespace home = Ok p -> is_absolute home = true ->
  exists v, pl_view p = Some v /\
    Forall (fun b => is_special_mount (bm_target b) = false) (sv_binds v) /\
    Forall (fun o => (eo_view_path o ∈ fs_read (ep_fs (sp_effective_policy policy))) /\
      exists top rest,
        components (eo_view_path o) = RootDir :: Normal (ascii_bytes "etc") :: top :: rest /\
        (comp_str top ∉ PROTECTED_ETC_FLOOR) /\ ParentDir ∉ components (eo_view_path o))
      (sv_etc_overlays v) /\
    Forall (fun d => exists c rest,
      components d = RootDir :: Normal (ascii_bytes "dev") :: c :: rest /\
      ParentDir ∉ components d) (sv_dev_allow v) /\
    (HOST_LIBEXEC_DIR ∈ sv_mask_dir_paths v) /\
    (tr_manifest (ep_trust (sp_effective_policy policy)) = true ->
     Forall (fun b => bm_writable b = true ->
       (path_join (bm_target b) (ascii_bytes ".trust-manifest.json") ∈ sv_mask_paths v) /\
       path_join (bm_target b) (ascii_bytes ".trust-manifest.d") ∈ sv_mask_dir_paths v)
       (sv_binds v)).
Proof.
  intros (xr & dr & devs & acls & v & B)%from_policy_built Hh%absolute_nonempty. destruct B.
  exists v. split; [done|]. rewrite bu_binds0, bu_overlays0, bu_devs0.
  pose proof (f_equal fst bu_masks0) as Emf. pose proof (f_equal snd bu_masks0) as Emd.
  cbn [fst snd] in Emf, Emd. rewrite Emf, Emd.
  destruct (dev_block_Ok _ _ _ bu_dev0) as (_ & -> & Hd). split_and!.
  - apply Forall_forall. intros b Hb. apply list_elem_of_omap in Hb as (g & _ & Hg).
    apply grant_bind_Some in Hg as (Hs & -> & _). by apply remap_not_special.
  - apply Forall_map, Forall_forall. intros x Hx%list_elem_of_In.
    apply filter_In in Hx as [Hx Ho]. cbn. split; [by apply list_elem_of_In|].
    by apply overlayable_spec.
  - apply Forall_map. eapply Forall_impl; [exact Hd|]. intros d. apply safe_dev_spec.
  - unfold mask_blocks. case_match; cbn; apply elem_of_app; right; by left.
  - intros Ht. unfold mask_blocks. rewrite Ht. cbn [fst snd]. apply Forall_forall. intros b Hb Hw.
    assert (b ∈ List.filter bm_writable (omap (grant_bind (ep_fs (sp_effective_policy policy)) home
      (shim_root_of policy)) (sort_by_len (collect_grants
        (fs_read (ep_fs (sp_effective_policy policy))) (fs_write (ep_fs (sp_effective_policy policy)))))))
      as Hf by (apply list_elem_of_In, filter_In; split; [by apply list_elem_of_In|done]).
    split; [|apply elem_of_app; left]; apply list_elem_of_In, in_map_iff; exists b;
      (split; [done|by apply list_elem_of_In]).
Qed.

(** ** Mount order *)

(** A path as the compiler writes it: a slash, then components joined by single ones. *)
Definition canonical (p : bytes) : Prop :=
  exists ss, p = SLASH :: join_with SLASH ss /\
    Forall (fun s => skip_seg s = false /\ has_byte SLASH s = false) ss.

Lemma comp_of_inj s t : comp_of s = comp_of t -> s = t.
Proof. unfold comp_of. do 2 case_bool_decide; congruence. Qed.

Lemma map_comp_of_inj ss ts : map comp_of ss = map comp_of ts -> ss = ts.
Proof.
  revert ts; induction ss as [|s ss IH]; intros [|t ts]; [done..|]. cbn. intros E.
  injection E as E1 E2. by rewrite (comp_of_inj _ _ E1), (IH _ E2).
Qed.

Lemma canonical_components ss :
  Forall (fun s => skip_seg s = false /\ has_byte SLASH s = false) ss ->
  components (SLASH :: join_with SLASH ss) = RootDir :: map comp_of ss.
Proof.
  intros H. cbn [components]. rewrite Z.eqb_refl. f_equal.
  destruct ss as [|s ss]; [done|].
  rewrite split_join; [|done|by eapply Forall_impl; [exact H|intros ? [_ ?]]].
  unfold body_components. f_equal. clear -H. induction H as [|x l [Hx _] _ IH]; cbn; [done|].
  rewrite Hx. cbn. by rewrite IH.
Qed.

Lemma join_longer ss s ts :
  s <> [] -> (length (join_with SLASH ss) < length (join_with SLASH (ss ++ s :: ts)))%nat.
Proof.
  intros Hs. induction ss as [|x ss IH].
  - destruct s as [|b s]; [done|]. destruct ts; cbn; lia.
  - destruct ss as [|y ss]; cbn [app join_with] in *; rewrite ?length_app; cbn [length]; [|lia].
    destruct ts; cbn; rewrite ?length_app; cbn; lia.
Qed.

Lemma ancestor_is_shorter a b :
  canonical a -> canonical b -> path_starts_with b a = true -> path_eqb b a = false ->
  blen a < blen b.
Proof.
  intros (sa & -> & Ha) (sb & -> & Hb) [k E]%path_starts_with_prefix Hne%bool_decide_eq_false.
  rewrite !canonical_components in * by done. injection E as E.
  assert (exists ts, sb = sa ++ ts /\ map comp_of ts = k) as (ts & -> & Ek).
  { apply map_eq_app in E as (l1 & l2 & -> & E1 & E2). exists l2. split; [|done]. f_equal.
    symmetry. by apply map_comp_of_inj. }
  destruct ts as [|t ts]; [exfalso; apply Hne; by rewrite app_nil_r|].
  apply Forall_app in Hb as [_ [[Ht _] _]%Forall_cons].
  cbn [length]. pose proof (join_longer sa t ts). destruct t; [done|]. specialize (H ltac:(done)). lia.
Qed.

Lemma asked_requested read write s :
  asked (requested read write) s = existsb (fun w => path_eqb s (glob_root w)) write.
Proof.
  unfold asked, requested. rewrite existsb_app. replace (existsb _ (map _ read)) with false.
  - cbn. induction write as [|w write IH]; cbn; [done|]. by rewrite IH.
  - symmetry. induction read as [|r read IH]; cbn; done.
Qed.

Lemma sorted_split (l1 l2 l3 : list (bytes * bool)) b a :
  StronglySorted len_le (l1 ++ b :: l2 ++ a :: l3) -> blen b.1 <= blen a.1.
Proof.
  induction l1 as [|x l1 IH]; cbn; intros [H Hf]%StronglySorted_inv; [|by apply IH].
  apply Forall_app in Hf as [_ [Ha _]%Forall_cons]. exact Ha.
Qed.

(** The binds of the view are one per granted path: every read or write grant is
    represented once whatever its spelling, writable exactly when some write grant
    names the path, at the same place in the view; and they are mounted shortest
    first, so that of two canonical paths the one above is never mounted after, and
    over, the one below. *)
Theorem binds_exact en SYS RL policy ctx namespace home p :
  from_policy en SYS RL policy ctx namespace home = Ok p ->
  let fs := ep_fs (sp_effective_policy policy) in
  exists v gs, pl_view p = Some v /\
    sv_binds v = omap (grant_bind fs home (shim_root_of policy)) gs /\
    NoDup (map (fun g => components g.1) gs) /\
    (forall r, r ∈ fs_read fs ++ fs_write fs -> exists g, g ∈ gs /\
       path_eqb g.1 (glob_root r) = true /\
       g.2 = existsb (fun w => path_eqb (glob_root r) (glob_root w)) (fs_write fs)) /\
    (forall g, g ∈ gs -> exists r, r ∈ fs_read fs ++ fs_write fs /\ glob_root r = g.1) /\
    (forall l1 below l2 above l3, gs = l1 ++ below :: l2 ++ above :: l3 ->
       canonical above.1 -> canonical below.1 -> path_starts_with below.1 above.1 = false).
Proof.
  intros (xr & dr & devs & acls & v & B)%from_policy_built fs. destruct B.
  pose proof (collect_grants_collected (fs_read fs) (fs_write fs)) as [Hm Hf Ha Hn].
  exists v, (sort_by_len (collect_grants (fs_read fs) (fs_write fs))).
  assert (forall r, r ∈ fs_read fs ++ fs_write fs <->
    exists w, (r, w) ∈ requested (fs_read fs) (fs_write fs)) as Hr.
  { intros r. unfold requested. setoid_rewrite elem_of_app.
    setoid_rewrite list_elem_of_fmap. split.
    - intros [H|H]; [exists false; left|exists true; right]; by exists r.
    - intros (w & [(x & [= -> _] & H)|(x & [= -> _] & H)]); auto. }
  split_and!; [done|by rewrite bu_binds0| | | |].
  - by rewrite (sort_by_len_perm _).
  - intros r (w & Hrw)%Hr. destruct (Ha _ Hrw) as (g & Hg & E). cbn in E. exists g.
    split_and!; [by rewrite (sort_by_len_perm _)|done|].
    rewrite (Hm g Hg), asked_requested. apply path_eqb_eq in E.
    clear -E. induction (fs_write fs) as [|y l IH]; cbn; [done|]. rewrite IH.
    unfold path_eqb. by rewrite E.
  - intros g Hg. rewrite (sort_by_len_perm _) in Hg. destruct (Hf g Hg) as ([r w] & Hrw & E).
    exists r. split; [apply Hr; by exists w|done].
  - intros l1 b l2 a l3 E Ca Cb. apply not_true_iff_false. intros Hs.
    pose proof (sort_by_len_sorted (collect_grants (fs_read fs) (fs_write fs))) as Hso.
    rewrite E in Hso. apply sorted_split in Hso.
    destruct (path_eqb b.1 a.1) eqn:Eq.
    + apply path_eqb_eq in Eq. rewrite <- (sort_by_len_perm _) in Hn. rewrite E in Hn.
      rewrite !map_app in Hn. cbn in Hn. apply NoDup_app in Hn as (_ & _ & Hn).
      apply NoDup_cons in Hn as [Hb _]. apply Hb. rewrite map_app, elem_of_app. right.
      cbn. rewrite <- Eq. by left.
    + pose proof (ancestor_is_shorter a.1 b.1 Ca Cb Hs Eq). lia.
Qed.

(** * Examples *)

Definition sample_rule (cidr : string) (len lo hi : Z) : NetRule :=
  {| nr_cidr := ascii_bytes cidr; nr_prefix_len := len; nr_port_min := lo; nr_port_max := hi;
     nr_protocol := ProtoAny |}.

(** The policy of [settled.rs]'s [sample_settled], with the lists that vary. *)
Definition sample_policy (mode : PolicyNetMode) (read write allow : list bytes)
    (connect_allow connect_deny : list NetRule) : SettledPolicy := {|
  sp_settled_schema_version := 5; sp_name := ascii_bytes "ai-coding";
  sp_deferred_substitutions := []; sp_framework_invariants_asserted := [];
  sp_effective_policy := {|
    ep_net := {| np_mode := mode; np_udp := false; np_bind_port_min := 1024;
      np_bind_allowed_ports := []; np_proxy := proxy_default; np_allow := [];
      np_allow_names := []; np_udp_allow_names := [];
      np_deny_invariant := [sample_rule "169.254.169.254" 32 0 65535]; np_deny_author := [];
      np_bpf_connect_allow := connect_allow; np_bpf_connect_deny := connect_deny;
      np_bpf_bind_allow := []; np_bpf_bind_deny := [] |};
    ep_fs := {| fs_home_shadow := true; fs_read := read; fs_write := write; fs_exclusive := [];
      fs_home_persist := []; fs_home_readonly := false; fs_redirect := []; fs_cwd := cwd_default;
      fs_tmp := {| tp_writable := true; tp_size_mib := 512 |};
      fs_dev := {| dv_allow := [ascii_bytes "/dev/null"; ascii_bytes "/dev/pts/**"] |} |};
    ep_exec := {| ex_deny_setuid := true; ex_deny_setgid := true; ex_deny_setcap := true;
      ex_deny_writable := true; ex_allow := allow; ex_deny := []; ex_path := [];
      ex_shell := default_shell; ex_loaders := [ascii_bytes "/lib64/ld-linux-x86-64.so.2"] |};
    ep_proc := {| pr_hidepid := true |}; ep_cap := {| cap_no_new_privs := true |};
    ep_seccomp := {| sc_deny_action := ScErrno; sc_deny := [ascii_bytes "bpf"; ascii_bytes "read"] |};
    ep_lifecycle := {| lc_ttl_seconds := Some 3600; lc_ttl_action := Ttl_Exit |};
    ep_tty := tty_default; ep_trust := trust_default |};
  sp_provenance := {| pn_compiler_version := ascii_bytes "0.0.0"; pn_schema_version := 5;
    pn_threat_catalogue_version := ascii_bytes "0.1"; pn_resolved_artifacts := [] |};
  sp_ssh := {| sr_allow_headless := false; sr_grants := [] |};
  sp_unix := {| ur_sockets := [] |}; sp_identity := identity_default;
  sp_mesh := {| mr_provides := []; mr_consumes := [] |}; sp_service := None;
  sp_dbus := {| du_audit_level := None; du_session := None; du_system := None |};
  sp_audit := {| au_sinks := []; au_network_level := None; au_filesystem_level := None;
    au_exec_level := None; au_unix_level := None; au_dbus_level := None;
    au_syslog_facility := None; au_file := {| af_dir := None; af_rotate_at_bytes := None;
      af_compress_after_seconds := None; af_retain_count := None |} |};
  sp_env := {| en_vars := [] |};
  sp_ulimits := {| ul_limits := [(ascii_bytes "nofile", ascii_bytes "1024 unlimited")] |};
  sp_workload := {| wl_argv := []; wl_cwd := None; wl_pinned := false; wl_allowed_args := false;
    wl_sha256 := [] |};
  sp_rootfs := {| rf_path := []; rf_image := []; rf_persistence := []; rf_readonly := [];
    rf_writable := [] |};
  sp_spawn := None; sp_manifest := [] |}.

Definition sample_home : bytes := ascii_bytes "/home/alice".
Definition sample_build (policy : SettledPolicy) : result SpawnError Plan :=
  from_policy LittleEndian (fun name => blen name) u64_max policy 7 (ascii_bytes "kennel-1000")
    sample_home.
(** The sample plan, for the policies below that build. *)
Definition sample_plan (policy : SettledPolicy) : Plan :=
  match sample_build policy with
  | Ok p => p
  | Err _ => plan_update {| pl_namespaces := 0; pl_cgroup := []; pl_cgroup_join := false;
      pl_view := None; pl_new_root := None; pl_landlock_fs := []; pl_landlock_net := [];
      pl_seccomp_deny := []; pl_seccomp_deny_action := Act_Allow; pl_bpf_allow_v4 := [];
      pl_bpf_deny_v4 := []; pl_bpf_allow_v6 := []; pl_bpf_deny_v6 := [];
      pl_bpf_bind_allow_v4 := []; pl_bpf_bind_deny_v4 := []; pl_bpf_bind_allow_v6 := [];
      pl_bpf_bind_deny_v6 := []; pl_bpf_meta := []; pl_bind_allowed_ports := [];
      pl_file_binds := []; pl_supplementary_groups := None; pl_ulimits := [];
      pl_interactive_return_fd := None; pl_workload_fd := None; pl_stdio_fds := None; pl_aux := [];
      pl_ttl_seconds := None; pl_ttl_action := Ttl_Exit; pl_hostname := None |}
      None [] [] [] [] [] [] []
  end.

Definition usr_policy : SettledPolicy :=
  sample_policy PmConstrained [ascii_bytes "/usr/**"; ascii_bytes "~x"; ascii_bytes "/etc/hosts"]
    [ascii_bytes "/home/alice/work"] [ascii_bytes "/usr/bin/python3"] [] [].
Definition glob_policy : SettledPolicy :=
  sample_policy PmConstrained [ascii_bytes "/opt/tool/**"] [ascii_bytes "/opt/tool/**"]
    [ascii_bytes "/opt/tool/run"] [] [].

Lemma landlock_rights_exact_witness :
  Z.testbit (rights (pl_landlock_fs (sample_plan usr_policy)) (ascii_bytes "/home/kennel/work/a")) 1 =
    view_writable usr_policy sample_home (ascii_bytes "/home/kennel/work/a") /\
  (permissive_exec usr_policy = false -> is_nil (rf_path (sp_rootfs usr_policy)) = true ->
   Z.testbit (rights (pl_landlock_fs (sample_plan usr_policy)) (ascii_bytes "/home/kennel/work/a")) 0 =
     view_executable usr_policy sample_home (ascii_bytes "/home/kennel/work/a")).
Proof.
  apply (landlock_rights_exact LittleEndian (fun name => blen name) u64_max usr_policy 7
    (ascii_bytes "kennel-1000") sample_home); by vm_compute.
Defined.

Lemma exec_never_under_write_grant_witness :
  path_starts_with (glob_root (ascii_bytes "/usr/bin/python3")) (ascii_bytes "/home/alice/work") =
    false.
Proof.
  apply (exec_never_under_write_grant LittleEndian (fun name => blen name) u64_max usr_policy 7
    (ascii_bytes "kennel-1000") sample_home (sample_plan usr_policy)).
  - by vm_compute.
  - by vm_compute.
  - by vm_compute.
  - by left.
  - by left.
Defined.

Lemma globbed_write_grant_is_executable_witness :
  ex_deny_writable (ep_exec (sp_effective_policy glob_policy)) = true /\
  Z.testbit (rights (pl_landlock_fs (sample_plan glob_policy)) (ascii_bytes "/opt/tool/run")) 0 = true /\
  Z.testbit (rights (pl_landlock_fs (sample_plan glob_policy)) (ascii_bytes "/opt/tool/run")) 1 = true.
Proof.
  split; [done|].
  apply (globbed_write_grant_is_executable LittleEndian (fun name => blen name) u64_max glob_policy 7
    (ascii_bytes "kennel-1000") sample_home (sample_plan glob_policy)
    (ascii_bytes "/opt/tool/run") (ascii_bytes "/opt/tool/**")).
  all: first [by left | by vm_compute].
Defined.

Lemma view_confined_witness : exists v, pl_view (sample_plan usr_policy) = Some v /\
  length (sv_binds v) = 3%nat /\ HOST_LIBEXEC_DIR ∈ sv_mask_dir_paths v.
Proof.
  destruct (view_confined LittleEndian (fun name => blen name) u64_max usr_policy 7
    (ascii_bytes "kennel-1000") sample_home (sample_plan usr_policy)) as (v & Hv & _ & _ & _ & H & _);
    [by vm_compute..|].
  exists v. split_and!; [done| |done].
  assert (length <$> (sv_binds <$> pl_view (sample_plan usr_policy)) = Some 3%nat) as Hl by by vm_compute.
  rewrite Hv in Hl. by injection Hl.
Defined.

Lemma binds_exact_witness : exists v gs, pl_view (sample_plan usr_policy) = Some v /\
  sv_binds v = omap (grant_bind (ep_fs (sp_effective_policy usr_policy)) sample_home
    (shim_root_of usr_policy)) gs /\ NoDup (map (fun g => components g.1) gs).
Proof.
  destruct (binds_exact LittleEndian (fun name => blen name) u64_max usr_policy 7
    (ascii_bytes "kennel-1000") sample_home (sample_plan usr_policy)) as (v & gs & H1 & H2 & H3 & _);
    [by vm_compute|]. by exists v, gs.
Defined.
