(* ===== verification/BpfAcl.v ===== *)
(** Host-mode egress: from the policy's network rules to the kernel's verdict.

    The daemon encodes a plan's access lists into an egress payload
    ([kenneld/src/lib.rs]); the sub-helper [privhelper-bpf.rs] decodes it, creates
    the maps, fills them and attaches the cgroup programs of [src/bpf], which
    decide each [connect], [sendmsg] and [bind].  All of it is modelled here except
    the program loading.

    The kernel's longest-prefix-match map is not part of the repository: it is the
    interface [LpmTrie] with the two documented laws the code relies on
    ([LpmTrieLaws]), and [ListTrie] is an implementation of it.  An array map is
    its one element, zero until written.

    Theorems: the verdict of [connect4]/[connect6] is an exact function of the
    policy's rules (every deny network wins at every port; among the allow networks
    the longest prefix, and of equal ones the last, decides alone); the keys match
    the addresses the daemon's own [Cidr] matches; the bind gate; and three
    consequences that differ from what the rules read like. *)

From S2P Require Import Prelude Bytes Str IpText Plan Settled Paths PlanBuild Egress PrivWire.

(** ** The kernel's maps *)

Class LpmTrie (T : Type) : Type := {
  lpm_create : Z -> Z -> T;                       (* address bytes, max_entries *)
  lpm_update : T -> bytes -> bytes -> option T;   (* [None]: the kernel refuses *)
  lpm_lookup : T -> bytes -> option bytes;        (* by a full-length address *)
}.

Section entries.
Context (en : endian).

(** The fields of a key: prefix length in host order, then the address. *)
Definition key_prefix (k : bytes) : Z := ne_val en (take 4 k).
Definition key_addr (k : bytes) : bytes := drop 4 k.

(** The first [key_prefix] bits of the key's address and of [addr] agree. *)
Definition key_matches (addr k : bytes) : bool :=
  let low := 2 ^ (8 * blen addr - key_prefix k) in
  (be_val (key_addr k) / low =? be_val addr / low).

(** One step of the search: a match at least as long as the best so far. *)
Definition better (addr : bytes) (best : option (bytes * bytes)) (e : bytes * bytes) :
    option (bytes * bytes) :=
  if key_matches addr e.1 &&
     match best with Some b => key_prefix b.1 <=? key_prefix e.1 | None => true end
  then Some e else best.
Definition longest (es : list (bytes * bytes)) (addr : bytes) : option bytes :=
  option_map snd (fold_left (better addr) es None).
End entries.

Fixpoint update_all {T} `{LpmTrie T} (t : T) (es : list (bytes * bytes)) : option T :=
  match es with
  | [] => Some t
  | (k, v) :: es => t ← lpm_update t k v; update_all t es
  end.

(** [BPF_MAP_TYPE_LPM_TRIE]: a lookup by a full-length key returns the value of the
    longest matching prefix, an update of a present prefix replaces its value, and
    a prefix longer than the key is refused. *)
Class LpmTrieLaws (en : endian) (T : Type) `{LpmTrie T} : Prop := {
  lpm_longest : forall width max es (t : T) addr,
    update_all (lpm_create width max) es = Some t -> blen addr = width ->
    lpm_lookup t addr = longest en es addr;
  lpm_refuses : forall width max es (t : T),
    update_all (lpm_create width max) es = Some t ->
    Forall (fun e => key_prefix en e.1 <= 8 * width) es;
}.

Record KennelMaps (T : Type) : Type := {
  km_meta : bytes; km_bind_subnet : bytes;
  km_allow_v4 : T; km_deny_v4 : T; km_allow_v6 : T; km_deny_v6 : T;
  km_bind_allow_v4 : T; km_bind_deny_v4 : T; km_bind_allow_v6 : T; km_bind_deny_v6 : T;
}.
Global Arguments km_meta {T}. Global Arguments km_bind_subnet {T}.
Global Arguments km_allow_v4 {T}. Global Arguments km_deny_v4 {T}.
Global Arguments km_allow_v6 {T}. Global Arguments km_deny_v6 {T}.
Global Arguments km_bind_allow_v4 {T}. Global Arguments km_bind_deny_v4 {T}.
Global Arguments km_bind_allow_v6 {T}. Global Arguments km_bind_deny_v6 {T}.

Section maps.
Context (en : endian) {T : Type} `{!LpmTrie T}.

(** [create_maps(KENNEL_MAPS)]. *)
Definition create_maps : KennelMaps T := {|
  km_meta := replicate 64 0; km_bind_subnet := replicate 44 0;
  km_allow_v4 := lpm_create 4 1024; km_deny_v4 := lpm_create 4 256;
  km_allow_v6 := lpm_create 16 1024; km_deny_v6 := lpm_create 16 256;
  km_bind_allow_v4 := lpm_create 4 1024; km_bind_deny_v4 := lpm_create 4 256;
  km_bind_allow_v6 := lpm_create 16 1024; km_bind_deny_v6 := lpm_create 16 256 |}.

(** The ports as the fixed array at offset 26. *)
Definition bind_subnet_value (meta : bytes) (allowed_ports : list Z) : option bytes :=
  v4_addr ← get_range meta 8 12;
  v6_addr ← get_range meta 16 32;
  let listed := take 8 allowed_ports in
  Some (v4_addr ++ ne_bytes en 4 28 ++ v6_addr ++ [64; blen listed] ++
        flat_map (ne_bytes en 2) listed ++ replicate (18 - 2 * length listed) 0).

(** [populate_maps]; [None] is the first update the kernel refuses. *)
Definition populate_maps (m : KennelMaps T) (p : EgressPayload) : option (KennelMaps T) :=
  let subnet := default (km_bind_subnet m)
    (bind_subnet_value (eg_meta p) (eg_bind_allowed_ports p)) in
  allow_v4 ← update_all (km_allow_v4 m) (eg_allow_v4 p);
  deny_v4 ← update_all (km_deny_v4 m) (eg_deny_v4 p);
  allow_v6 ← update_all (km_allow_v6 m) (eg_allow_v6 p);
  deny_v6 ← update_all (km_deny_v6 m) (eg_deny_v6 p);
  bind_allow_v4 ← update_all (km_bind_allow_v4 m) (eg_bind_allow_v4 p);
  bind_deny_v4 ← update_all (km_bind_deny_v4 m) (eg_bind_deny_v4 p);
  bind_allow_v6 ← update_all (km_bind_allow_v6 m) (eg_bind_allow_v6 p);
  bind_deny_v6 ← update_all (km_bind_deny_v6 m) (eg_bind_deny_v6 p);
  Some {| km_meta := eg_meta p; km_bind_subnet := subnet;
          km_allow_v4 := allow_v4; km_deny_v4 := deny_v4; km_allow_v6 := allow_v6;
          km_deny_v6 := deny_v6; km_bind_allow_v4 := bind_allow_v4;
          km_bind_deny_v4 := bind_deny_v4; km_bind_allow_v6 := bind_allow_v6;
          km_bind_deny_v6 := bind_deny_v6 |}.

(** ** The programs *)

Definition entry_permits (entry : bytes) (protocol port : Z) : bool :=
  match get_range entry 0 2, get_range entry 2 4, entry !! 4%nat with
  | Some lo, Some hi, Some proto =>
      negb (negb (proto =? 0) && negb (proto =? protocol)) &&
      (ne_val en lo <=? port) && (port <=? ne_val en hi)
  | _, _, _ => false
  end.

(** [kennel_decide_v4], [kennel_decide_v6] and their bind counterparts: deny first. *)
Definition decide_acl (deny allow : T) (addr : bytes) (port protocol : Z) : bool :=
  match lpm_lookup deny addr with
  | Some _ => false
  | None =>
      match lpm_lookup allow addr with
      | Some entry => entry_permits entry protocol port
      | None => false
      end
  end.

(** [connect4]/[connect6]: true is [KENNEL_ALLOW]. *)
Definition connect (m : KennelMaps T) (addr : ip_addr) (port protocol : Z) : bool :=
  match addr with
  | V4 a => decide_acl (km_deny_v4 m) (km_allow_v4 m) a port protocol
  | V6 a => decide_acl (km_deny_v6 m) (km_allow_v6 m) a port protocol
  end.

(** [sendmsg4]/[sendmsg6]: the same decision at [IPPROTO_UDP]. *)
Definition sendmsg (m : KennelMaps T) (addr : ip_addr) (port : Z) : bool :=
  connect m addr port IPPROTO_UDP.

(** The fields of [kennel_meta] and [bind_subnet] that the bind programs read. *)
Definition meta_bind_port_min (meta : bytes) : Z :=
  match get_range meta 14 16 with Some b => ne_val en b | None => 0 end.
Definition subnet_port (subnet : bytes) (i : nat) : option Z :=
  option_map (ne_val en) (get_range subnet (26 + 2 * Z.of_nat i) (28 + 2 * Z.of_nat i)).
Definition subnet_n_ports (subnet : bytes) : Z := default 0 (subnet !! 25%nat).
Definition port_listed (subnet : bytes) (port : Z) : bool :=
  existsb (fun i => (Z.of_nat i <? subnet_n_ports subnet) &&
                    bool_decide (subnet_port subnet i = Some port)) (seq 0 8).

Definition is_any (addr : bytes) : bool := forallb (Z.eqb 0) addr.

(** [bind4]/[bind6]: the verdict and the address the socket is bound to. *)
Definition bind_program (m : KennelMaps T) (addr : ip_addr) (port protocol : Z) : bool * ip_addr :=
  let subnet := km_bind_subnet m in
  if port =? 0 then (true, addr)
  else if negb (meta_bind_port_min (km_meta m) =? 0) && (port <? meta_bind_port_min (km_meta m))
  then (false, addr)
  else if negb (subnet_n_ports subnet =? 0) && negb (port_listed subnet port) then (false, addr)
  else
    match addr with
    | V4 a =>
        let effective := if is_any a then default a (get_range subnet 0 4) else a in
        (decide_acl (km_bind_deny_v4 m) (km_bind_allow_v4 m) effective port protocol, V4 effective)
    | V6 a =>
        let effective := if is_any a then default a (get_range subnet 8 24) else a in
        (decide_acl (km_bind_deny_v6 m) (km_bind_allow_v6 m) effective port protocol, V6 effective)
    end.

(** ** The pipeline *)

(** [bring_up] stamps the proxy wherever the deployment has one, [none] apart. *)
Definition loopback_endpoint (port : Z) : ProxyEndpoint :=
  {| pe_v4 := Some [127; 0; 0; 1]; pe_v6 := replicate 15 0 ++ [1]; pe_port := port |}.
Definition daemon_plan (proxy : bool) (net : NetPolicy) (p : Plan) : Plan :=
  if proxy && negb (bool_decide (np_mode net = PmNone))
  then stamp_proxy en p (loopback_endpoint (px_port (np_proxy net)))
  else p.

(** The payload the daemon ships for a [host]-mode plan. *)
Definition egress_payload (p : Plan) (id : bytes) : EgressPayload := {|
  eg_meta := pl_bpf_meta p; eg_allow_v4 := pl_bpf_allow_v4 p; eg_deny_v4 := pl_bpf_deny_v4 p;
  eg_allow_v6 := pl_bpf_allow_v6 p; eg_deny_v6 := pl_bpf_deny_v6 p;
  eg_bind_allow_v4 := pl_bpf_bind_allow_v4 p; eg_bind_deny_v4 := pl_bpf_bind_deny_v4 p;
  eg_bind_allow_v6 := pl_bpf_bind_allow_v6 p; eg_bind_deny_v6 := pl_bpf_bind_deny_v6 p;
  eg_bind_allowed_ports := pl_bind_allowed_ports p; eg_pin_id := id |}.
Definition egress_bytes (mode : PolicyNetMode) (p : Plan) (id : bytes) : bytes :=
  if bool_decide (mode = PmHost) then egress_encode en (egress_payload p id) else [].

Inductive AttachOutcome : Type :=
  | Attached (m : KennelMaps T)
  | AttachFailed (code : Z).

(** [main] and [attach_egress_programs]: the cgroup's owner must be the caller; the exit code
    is the status. [owner] is [None] where opening the cgroup or reading its owner fails; the
    programs' loading is the parameter [load_ok]. *)
Definition attach (owner : option Z) (real_uid : Z) (load_ok : bool) (stdin : bytes) : AttachOutcome :=
  match egress_decode en stdin with
  | Err _ => AttachFailed 2
  | Ok payload =>
      match owner with
      | None => AttachFailed 3
      | Some uid =>
          if negb (uid =? real_uid) then AttachFailed 1
          else match populate_maps create_maps payload with
               | None => AttachFailed 3
               | Some m => if load_ok then Attached m else AttachFailed 3
               end
      end
  end.
End maps.

(** [valid_pin_id]: the kennel-name grammar. *)
Definition valid_pin_id (id : bytes) : bool :=
  let ok c := ((97 <=? c) && (c <=? 122)) || is_digit c in
  if is_nil id || (64 <? blen id) then false
  else match id with c :: _ => ok c | [] => false end && forallb (fun c => ok c || (c =? 45)) id.

(** * Rules and keys *)

(** What the policy's rules say of an address. *)
Definition rule_covers (a : ip_addr) (r : NetRule) : bool :=
  match parse_ip (nr_cidr r) with
  | Some base => contains {| cd_base := base; cd_prefix_len := nr_prefix_len r |} a
  | None => false
  end.
Definition rule_admits (r : NetRule) (protocol port : Z) : bool :=
  match nr_protocol r with
  | ProtoAny => true
  | ProtoTcp => protocol =? IPPROTO_TCP
  | ProtoUdp => protocol =? IPPROTO_UDP
  end && (nr_port_min r <=? port) && (port <=? nr_port_max r).

(** The rule that decides: the longest prefix, the last of equal ones. *)
Definition prefer (a : ip_addr) (best : option NetRule) (r : NetRule) : option NetRule :=
  if rule_covers a r &&
     match best with Some b => nr_prefix_len b <=? nr_prefix_len r | None => true end
  then Some r else best.
Definition winning (rules : list NetRule) (a : ip_addr) : option NetRule :=
  fold_left (prefer a) rules None.

Definition acl_verdict (deny allow : list NetRule) (a : ip_addr) (port protocol : Z) : bool :=
  negb (existsb (rule_covers a) deny) &&
  match winning allow a with Some r => rule_admits r protocol port | None => false end.

Definition rule_typed (r : NetRule) : Prop :=
  in_u8 (nr_prefix_len r) /\ in_u16 (nr_port_min r) /\ in_u16 (nr_port_max r).

Global Instance rule_typed_dec r : Decision (rule_typed r).
Proof. unfold rule_typed. apply _. Defined.

Section keys.
Context (en : endian).

Definition rule_value (r : NetRule) : bytes :=
  allow_entry en (nr_port_min r) (nr_port_max r) (nr_protocol r) 0.

(** The map entry of a rule, in the maps of the family of [a]. *)
Definition rule_entry (a : ip_addr) (r : NetRule) : option (bytes * bytes) :=
  match a, parse_ip (nr_cidr r) with
  | V4 _, Some (V4 o) | V6 _, Some (V6 o) =>
      Some (ne_bytes en 4 (nr_prefix_len r) ++ o, rule_value r)
  | _, _ => None
  end.

Lemma encode_entries rules v4 v6 :
  encode en rules = Ok (v4, v6) ->
  (forall o, v4 = omap (rule_entry (V4 o)) rules) /\ (forall o, v6 = omap (rule_entry (V6 o)) rules).
Proof.
  revert v4 v6; induction rules as [|r rules IH]; intros v4 v6; cbn [encode].
  { by intros [= <- <-]. }
  assert (parse_ip (nr_cidr r) = match parse_ipv4 (nr_cidr r) with Some o => Some (V4 o)
    | None => match parse_ipv6 (nr_cidr r) with Some o => Some (V6 o) | None => None end end) as Ep
    by done.
  destruct (parse_ipv4 (nr_cidr r)) as [o|]; [|destruct (parse_ipv6 (nr_cidr r)) as [o|]; [|done]].
  all: intros ((w4, w6) & H & E)%bind_Ok; apply (inj Ok), pair_eq in E as [<- <-].
  all: destruct (IH w4 w6 H) as [H4 H6]; split; intros x; cbn; unfold rule_entry at 1; rewrite Ep.
  all: first [apply (H4 x) | apply (H6 x) | f_equal; apply (H4 x) | f_equal; apply (H6 x)].
Qed.

Lemma key_prefix_key p o : 0 <= p < 4294967296 -> key_prefix en (ne_bytes en 4 p ++ o) = p.
Proof.
  intros Hp. unfold key_prefix. rewrite take_app_exact by by rewrite length_ne_bytes.
  by apply ne_val_bytes.
Qed.

Lemma key_addr_key p o : key_addr (ne_bytes en 4 p ++ o) = o.
Proof. unfold key_addr. by rewrite drop_app_exact by by rewrite length_ne_bytes. Qed.

(** A key of the trie matches an address exactly when the daemon's network does. *)
Lemma key_matches_contains base a p :
  ip_ok base -> ip_ok a -> family_bits a = family_bits base -> 0 <= p <= family_bits base ->
  key_matches en (octets a) (ne_bytes en 4 p ++ octets base) =
    contains {| cd_base := base; cd_prefix_len := p |} a.
Proof.
  intros [Hb Hlb] [Ha Hla] Hf Hp. unfold key_matches. rewrite key_addr_key.
  assert (family_bits base <= 128) by (by destruct base). rewrite key_prefix_key by lia.
  unfold contains. destruct base as [b|b], a as [x|x]; try done; cbn [octets cd_base cd_prefix_len] in *.
  all: rewrite octets_match_prefix by (done || (rewrite Hlb, Hla; done) || (rewrite Hlb; cbn in *; lia)).
  all: by rewrite Hlb, Hla.
Qed.

Lemma rule_entry_covers a r e :
  ip_ok a -> rule_typed r -> rule_entry a r = Some e -> key_prefix en e.1 <= family_bits a ->
  key_matches en (octets a) e.1 = rule_covers a r /\ key_prefix en e.1 = nr_prefix_len r.
Proof.
  intros Ha (Hp & _) He Hk. unfold rule_entry in He. unfold rule_covers.
  destruct (parse_ip (nr_cidr r)) as [base|] eqn:Eb; [|by destruct a].
  assert (ip_ok base) as Hb by by apply (parse_ip_ok (nr_cidr r)).
  assert (0 <= nr_prefix_len r < 4294967296) as Hp32 by in_range.
  assert (family_bits a = family_bits base /\
          e = (ne_bytes en 4 (nr_prefix_len r) ++ octets base, rule_value r)) as [Hf ->].
  { destruct a, base; try done; by injection He as <-. }
  cbn [fst] in *. rewrite key_prefix_key in * by done. split; [|done].
  apply key_matches_contains; [done..|]. in_range.
Qed.

Lemma rule_entry_None a r : rule_entry a r = None -> rule_covers a r = false.
Proof.
  unfold rule_entry, rule_covers. destruct (parse_ip (nr_cidr r)) as [base|]; [|done].
  by destruct a, base.
Qed.

(** Searching the entries is choosing among the rules. *)
Lemma better_prefer a rules best :
  ip_ok a -> Forall rule_typed rules -> (forall b, best = Some b -> rule_typed b) ->
  Forall (fun e => key_prefix en e.1 <= family_bits a) (omap (rule_entry a) rules) ->
  (forall b, best = Some b -> exists e, rule_entry a b = Some e /\ key_prefix en e.1 = nr_prefix_len b) ->
  fold_left (better en (octets a)) (omap (rule_entry a) rules) (best ≫= rule_entry a) =
    fold_left (prefer a) rules best ≫= rule_entry a.
Proof.
  intros Ha. revert best; induction rules as [|r rules IH]; intros best Ht Hb Hk Hs; [done|].
  apply Forall_cons_1 in Ht as [Hr Ht]. cbn [omap list_omap fold_left].
  destruct (rule_entry a r) as [e|] eqn:Ee.
  - cbn in Hk. rewrite Ee in Hk. apply Forall_cons_1 in Hk as [Hke Hk].
    destruct (rule_entry_covers a r e Ha Hr Ee Hke) as [Em Ep]. cbn [fold_left].
    assert (better en (octets a) (best ≫= rule_entry a) e = prefer a best r ≫= rule_entry a) as ->.
    { unfold better, prefer. rewrite Em, Ep. destruct best as [b|]; cbn.
      - destruct (Hs b eq_refl) as (eb & Eb & Epb). rewrite Eb. cbn. rewrite Epb.
        destruct (rule_covers a r && _); cbn; by rewrite ?Ee, ?Eb.
      - destruct (rule_covers a r && true); cbn; by rewrite ?Ee. }
    assert (forall b, prefer a best r = Some b -> b = r \/ best = Some b) as Hpr.
    { intros b. unfold prefer. destruct (rule_covers a r && _); [intros [= <-]; by left|by right]. }
    apply IH; [done| |done|]; intros b [->|Eb]%Hpr; auto. by exists e.
  - cbn in Hk. rewrite Ee in Hk. unfold prefer at 2. rewrite (rule_entry_None a r Ee). cbn.
    by apply IH.
Qed.

Lemma longest_winning a rules :
  ip_ok a -> Forall rule_typed rules ->
  Forall (fun e => key_prefix en e.1 <= family_bits a) (omap (rule_entry a) rules) ->
  longest en (omap (rule_entry a) rules) (octets a) =
    option_map rule_value (winning rules a).
Proof.
  intros Ha Ht Hk. unfold longest. pose proof (better_prefer a rules None Ha Ht) as H. cbn in H.
  rewrite H by done. fold (winning rules a).
  assert (forall b, winning rules a = Some b -> rule_covers a b = true) as Hw.
  { unfold winning. assert (forall b, None = Some b -> rule_covers a b = true) as H0 by done.
    revert H0. generalize (@None NetRule). clear. induction rules as [|r rules IH]; [done|].
    intros best H0. cbn. apply IH. intros b. unfold prefer.
    destruct (rule_covers a r) eqn:E; cbn; [|apply H0]. case_match; [by intros [= <-]|apply H0]. }
  destruct (winning rules a) as [b|]; [|done]. cbn. specialize (Hw b eq_refl).
  destruct (rule_entry a b) as [e|] eqn:E; [|by rewrite (rule_entry_None _ _ E) in Hw].
  unfold rule_entry in E. destruct a, (parse_ip (nr_cidr b)) as [[o|o]|]; simplify_eq; done.
Qed.

Lemma winning_None rules a : winning rules a = None <-> existsb (rule_covers a) rules = false.
Proof.
  unfold winning. assert (forall best, fold_left (prefer a) rules best = None <->
    best = None /\ existsb (rule_covers a) rules = false) as H.
  { induction rules as [|r rules IH]; intros best; cbn; [split; [done|by intros [-> _]]|].
    rewrite IH. unfold prefer. destruct (rule_covers a r) eqn:E; cbn; [|done].
    split; [|by intros [_ ?]]. destruct best; cbn; [|by intros [? _]].
    case_match; by intros [? _]. }
  rewrite H. split; [by intros [_ ?]|done].
Qed.

Definition proto_admits (pr : Protocol) (protocol : Z) : bool :=
  match pr with
  | ProtoAny => true
  | ProtoTcp => protocol =? IPPROTO_TCP
  | ProtoUdp => protocol =? IPPROTO_UDP
  end.

Lemma winning_typed a rules r : Forall rule_typed rules -> winning rules a = Some r -> rule_typed r.
Proof.
  intros Ht. unfold winning.
  assert (forall best, (forall b, best = Some b -> rule_typed b) ->
    forall b, fold_left (prefer a) rules best = Some b -> rule_typed b) as H.
  { induction Ht as [|x l Hx _ IH]; intros best Hb b; cbn; [apply Hb|].
    apply IH. intros b'. unfold prefer. case_match; [by intros [= <-]|apply Hb]. }
  by apply (H None).
Qed.

Lemma entry_permits_allow min max pr fl protocol port :
  in_u16 min -> in_u16 max ->
  entry_permits en (allow_entry en min max pr fl) protocol port =
    proto_admits pr protocol && (min <=? port) && (port <=? max).
Proof.
  intros Hlo Hhi. unfold allow_entry, entry_permits.
  set (lo := ne_bytes en 2 min). set (hi := ne_bytes en 2 max).
  set (tail := [_; _; _; _]).
  assert (length lo = 2%nat /\ length hi = 2%nat) as [El Eh]
    by (unfold lo, hi; by rewrite !length_ne_bytes).
  rewrite (get_range_eq _ [] lo (hi ++ tail)) by (done || (rewrite El; done)).
  rewrite (get_range_eq _ lo hi tail) by (done || (rewrite ?El, ?Eh; done)).
  rewrite lookup_app_r, lookup_app_r by (rewrite ?El, ?Eh; lia). rewrite El, Eh. cbn.
  unfold lo, hi. rewrite !ne_val_bytes by (cbn; in_range).
  unfold proto_admits. destruct pr; cbn [proto_byte]; [done| |];
    rewrite (Z.eqb_sym _ protocol); unfold IPPROTO_TCP, IPPROTO_UDP;
    by destruct (protocol =? _).
Qed.

Lemma entry_permits_value r protocol port :
  rule_typed r -> entry_permits en (rule_value r) protocol port = rule_admits r protocol port.
Proof. intros (_ & Hlo & Hhi). by apply entry_permits_allow. Qed.
End keys.

(** * The access lists of a plan *)

Section acl.
Context (en : endian) {T : Type} `{!LpmTrie T} `{!LpmTrieLaws en T}.

Definition addr_bytes (a : ip_addr) : Z := match a with V4 _ => 4 | V6 _ => 16 end.

Lemma update_entries_lookup a rules max (t : T) :
  ip_ok a -> Forall rule_typed rules ->
  update_all (lpm_create (addr_bytes a) max) (omap (rule_entry en a) rules) = Some t ->
  lpm_lookup t (octets a) = option_map (rule_value en) (winning rules a).
Proof.
  intros Ha Ht Hu. rewrite (lpm_longest (addr_bytes a) max (omap (rule_entry en a) rules)).
  - apply longest_winning; [done..|]. pose proof (lpm_refuses _ _ _ _ Hu) as H.
    eapply Forall_impl; [exact H|]. intros e. cbn. by destruct a.
  - exact Hu.
  - destruct Ha as [_ Hl]. rewrite Hl. by destruct a.
Qed.

Lemma decide_acl_exact a deny allow md ma (td ta : T) port protocol :
  ip_ok a -> Forall rule_typed deny -> Forall rule_typed allow ->
  update_all (lpm_create (addr_bytes a) md) (omap (rule_entry en a) deny) = Some td ->
  update_all (lpm_create (addr_bytes a) ma) (omap (rule_entry en a) allow) = Some ta ->
  decide_acl en td ta (octets a) port protocol = acl_verdict deny allow a port protocol.
Proof.
  intros Ha Hd Hl Ed El. unfold decide_acl, acl_verdict.
  rewrite (update_entries_lookup a deny md) by done.
  rewrite (update_entries_lookup a allow ma) by done.
  destruct (winning deny a) as [r|] eqn:Ew; cbn.
  - replace (existsb (rule_covers a) deny) with true; [done|]. symmetry.
    apply not_false_iff_true. intros H%winning_None. congruence.
  - apply winning_None in Ew as ->. cbn.
    destruct (winning allow a) as [r|] eqn:Ea; cbn; [|done].
    apply entry_permits_value.
    by apply (winning_typed a allow).
Qed.
End acl.

(** The rules of a policy fit the wire and their machine types. *)
Definition rules_ok (rs : list NetRule) : Prop :=
  blen rs < PRIV_MAX_ENTRIES /\ Forall rule_typed rs.
Definition net_typed (net : NetPolicy) : Prop :=
  rules_ok (connect_allow_rules net) /\ rules_ok (connect_deny_rules net) /\
  rules_ok (np_bpf_bind_allow net) /\ rules_ok (np_bpf_bind_deny net) /\
  ports_ok (np_bind_allowed_ports net) /\ in_u16 (np_bind_port_min net).

Global Instance rules_ok_dec rs : Decision (rules_ok rs).
Proof. unfold rules_ok. apply _. Defined.
Global Instance ports_ok_dec l : Decision (ports_ok l).
Proof. unfold ports_ok. apply _. Defined.
Global Instance net_typed_dec net : Decision (net_typed net).
Proof. unfold net_typed. apply _. Defined.

Section payload.
Context (en : endian).

Lemma rule_value_ok r : bytes_ok (rule_value en r) /\ length (rule_value en r) = 8%nat.
Proof.
  unfold rule_value, allow_entry. split.
  - apply Forall_app; split; [apply ne_bytes_ok|]. apply Forall_app; split; [apply ne_bytes_ok|].
    destruct (nr_protocol r); by repeat constructor.
  - by rewrite !length_app, !length_ne_bytes.
Qed.

Lemma omap_length_le {A B} (f : A -> option B) (l : list A) : (length (omap f l) <= length l)%nat.
Proof. induction l as [|x l IH]; cbn; [done|]. destruct (f x); cbn; lia. Qed.

Lemma rule_entries_ok a rules :
  rules_ok rules -> ip_ok a ->
  entries_ok (4 + length (octets a)) (omap (rule_entry en a) rules).
Proof.
  intros [Hl _] [_ Ha]. split.
  - pose proof (omap_length_le (rule_entry en a) rules). lia.
  - apply Forall_forall. intros e (r & _ & He)%list_elem_of_omap. unfold rule_entry in He.
    destruct (rule_value_ok r) as [Hv Hvl].
    destruct (parse_ip (nr_cidr r)) as [base|] eqn:Eb; [|by destruct a].
    apply parse_ip_ok in Eb as [Hb Hbl].
    assert (length (octets base) = length (octets a) /\
      e = (ne_bytes en 4 (nr_prefix_len r) ++ octets base, rule_value en r)) as [El ->].
    { rewrite Ha, Hbl. destruct a, base; try done; by injection He as <-. }
    split_and!; cbn [fst snd]; [|done| |done].
    + apply Forall_app; split; [apply ne_bytes_ok|done].
    + rewrite length_app, length_ne_bytes, El. done.
Qed.

Lemma write_slot_ok m s e v :
  bytes_ok m -> bytes_ok v -> blen v = e - s -> 0 <= s ->
  bytes_ok (write_slot m s e v) /\ length (write_slot m s e v) = length m.
Proof.
  intros Hm Hv Hl Hs. unfold write_slot. destruct (get_range m s e) as [b|] eqn:E; [|done].
  apply get_range_Some in E as (? & ? & ? & _). split.
  - repeat (apply Forall_app; split); [by apply Forall_take|done|by apply Forall_drop].
  - rewrite !length_app, length_take, length_drop. lia.
Qed.

Lemma meta_ok ctx min :
  bytes_ok (stamp_bind_port_min en (meta_bytes en ctx) min) /\
  length (stamp_bind_port_min en (meta_bytes en ctx) min) = 64%nat.
Proof.
  assert (bytes_ok (meta_bytes en ctx) /\ length (meta_bytes en ctx) = 64%nat) as [Hm Hl].
  { unfold meta_bytes. split.
    - repeat (apply Forall_app; split); try apply ne_bytes_ok. apply Forall_replicate. done.
    - by rewrite !length_app, !length_ne_bytes, length_replicate. }
  unfold stamp_bind_port_min.
  destruct (write_slot_ok (meta_bytes en ctx) 14 16 (ne_bytes en 2 min)) as [? ->]; try done.
  - apply ne_bytes_ok.
  - by rewrite length_ne_bytes.
Qed.

Lemma stamp_proxy_meta_ok m e :
  bytes_ok m -> length m = 64%nat -> bytes_ok (default (replicate 4 0) (pe_v4 e)) ->
  length (default (replicate 4 0) (pe_v4 e)) = 4%nat -> bytes_ok (pe_v6 e) ->
  length (pe_v6 e) = 16%nat ->
  bytes_ok (stamp_proxy_meta m e) /\ length (stamp_proxy_meta m e) = 64%nat.
Proof.
  intros Hm Hl H4 L4 H6 L6. unfold stamp_proxy_meta.
  destruct (write_slot_ok m 8 12 (default (replicate 4 0) (pe_v4 e))) as [Hm1 Hl1]; [done..|lia|done|].
  edestruct (write_slot_ok _ 12 14 (be_bytes 2 (pe_port e)) Hm1) as [Hm2 Hl2];
    [apply be_bytes_ok|by rewrite length_be_bytes|done|].
  edestruct (write_slot_ok _ 16 32 (pe_v6 e) Hm2) as [Hm3 Hl3]; [done|lia|done|].
  split; [done|]. congruence.
Qed.

(** The entry lists of an encoded policy, by family. *)
Definition entries4 (rules : list NetRule) := omap (rule_entry en (V4 [])) rules.
Definition entries6 (rules : list NetRule) := omap (rule_entry en (V6 [])) rules.

Lemma rule_entry_family a r :
  rule_entry en a r = match a with V4 _ => rule_entry en (V4 []) r | V6 _ => rule_entry en (V6 []) r end.
Proof. by destruct a. Qed.

Lemma acls_entries net acls :
  acls_from_policy en net = Ok acls ->
  ba_allow_v4 acls = entries4 (connect_allow_rules net) /\
  ba_allow_v6 acls = entries6 (connect_allow_rules net) /\
  ba_deny_v4 acls = entries4 (connect_deny_rules net) /\
  ba_deny_v6 acls = entries6 (connect_deny_rules net) /\
  ba_bind_allow_v4 acls = entries4 (np_bpf_bind_allow net) /\
  ba_bind_allow_v6 acls = entries6 (np_bpf_bind_allow net) /\
  ba_bind_deny_v4 acls = entries4 (np_bpf_bind_deny net) /\
  ba_bind_deny_v6 acls = entries6 (np_bpf_bind_deny net).
Proof.
  unfold acls_from_policy.
  intros ((a4, a6) & Ea & H)%bind_Ok. apply bind_Ok in H as ((d4, d6) & Ed & H).
  apply bind_Ok in H as ((ba4, ba6) & Eba & H). apply bind_Ok in H as ((bd4, bd6) & Ebd & H).
  apply (inj Ok) in H as <-. cbn.
  apply encode_entries in Ea as [H1 H2]. apply encode_entries in Ed as [H3 H4].
  apply encode_entries in Eba as [H5 H6]. apply encode_entries in Ebd as [H7 H8].
  by rewrite (H1 []), (H2 []), (H3 []), (H4 []), (H5 []), (H6 []), (H7 []), (H8 []).
Qed.
End payload.

(** * Host-mode egress *)

Definition ep_net_of (policy : SettledPolicy) : NetPolicy := ep_net (sp_effective_policy policy).

Section host.
Context (en : endian) (SYS : bytes -> Z) (RL : Z) (policy : SettledPolicy) (ctx : Z)
  (namespace home : bytes) (p : Plan) (proxy : bool) (id : bytes).
Context (Hbuild : PlanBuild.from_policy en SYS RL policy ctx namespace home = Ok p)
  (Hnet : net_typed (ep_net_of policy)) (Hid : pin_ok id).
Let net := ep_net_of policy.
Let stamped := daemon_plan en proxy net p.
Let proxied := proxy && negb (bool_decide (np_mode net = PmNone)).

(** The entries [stamp_proxy] appends, of the family of [a]. *)
Definition loopback_of (a : ip_addr) : bytes :=
  match a with V4 _ => [127; 0; 0; 1] | V6 _ => replicate 15 0 ++ [1] end.
Definition loop_connect (a : ip_addr) : bytes * bytes :=
  (ne_bytes en 4 (family_bits a) ++ loopback_of a,
   allow_entry en 0 u16_max ProtoAny KENNEL_ALLOW_FLAG_PROXY).
Definition loop_bind_rules : list NetRule :=
  [ {| nr_cidr := ascii_bytes "127.0.0.1"; nr_prefix_len := 28; nr_port_min := 0;
       nr_port_max := u16_max; nr_protocol := ProtoAny |};
    {| nr_cidr := ascii_bytes "::1"; nr_prefix_len := 64; nr_port_min := 0;
       nr_port_max := u16_max; nr_protocol := ProtoAny |} ].
Definition bind_rules : list NetRule :=
  np_bpf_bind_allow net ++ if proxied then loop_bind_rules else [].

Lemma loop_bind_entries a :
  omap (rule_entry en a) loop_bind_rules =
    match a with
    | V4 _ => [(lpm_v4_key en [127; 0; 0; 1] 28, allow_entry en 0 u16_max ProtoAny 0)]
    | V6 _ => [(lpm_v6_key en (replicate 15 0 ++ [1]) 64, allow_entry en 0 u16_max ProtoAny 0)]
    end.
Proof.
  unfold loop_bind_rules. cbn [omap list_omap]. unfold rule_entry. cbn [nr_cidr].
  replace (parse_ip (ascii_bytes "127.0.0.1")) with (Some (V4 [127; 0; 0; 1])) by (by vm_compute).
  replace (parse_ip (ascii_bytes "::1")) with (Some (V6 (replicate 15 0 ++ [1]))) by (by vm_compute).
  by destruct a.
Qed.

(** The lists the daemon encodes, by the family of an address. *)
Definition payload_allow (a : ip_addr) := let e := egress_payload stamped id in
  match a with V4 _ => eg_allow_v4 e | V6 _ => eg_allow_v6 e end.
Definition payload_deny (a : ip_addr) := let e := egress_payload stamped id in
  match a with V4 _ => eg_deny_v4 e | V6 _ => eg_deny_v6 e end.
Definition payload_bind_allow (a : ip_addr) := let e := egress_payload stamped id in
  match a with V4 _ => eg_bind_allow_v4 e | V6 _ => eg_bind_allow_v6 e end.
Definition payload_bind_deny (a : ip_addr) := let e := egress_payload stamped id in
  match a with V4 _ => eg_bind_deny_v4 e | V6 _ => eg_bind_deny_v6 e end.

Lemma payload_lists a :
  payload_allow a = omap (rule_entry en a) (connect_allow_rules net) ++
    (if proxied then [loop_connect a] else []) /\
  payload_deny a = omap (rule_entry en a) (connect_deny_rules net) /\
  payload_bind_allow a = omap (rule_entry en a) bind_rules /\
  payload_bind_deny a = omap (rule_entry en a) (np_bpf_bind_deny net).
Proof.
  destruct (from_policy_built _ _ _ _ _ _ _ _ Hbuild) as (xr & dr & devs & acls & v & B).
  destruct B as [_ _ _ Hacls _ _ _ _ _ _ _ _ Hl Hbl _ _ _ _ _].
  apply acls_entries in Hacls. repeat (apply pair_eq in Hl as [Hl ?]).
  repeat (apply pair_eq in Hbl as [Hbl ?]).
  destruct_and! Hacls.
  unfold payload_allow, payload_deny, payload_bind_allow, payload_bind_deny, bind_rules.
  rewrite omap_app. unfold stamped, daemon_plan. fold proxied.
  assert (omap (rule_entry en a) (if proxied then loop_bind_rules else []) =
    if proxied then omap (rule_entry en a) loop_bind_rules else []) as -> by (by destruct proxied).
  rewrite loop_bind_entries.
  assert (forall rs, omap (rule_entry en a) rs = match a with V4 _ => entries4 en rs | V6 _ => entries6 en rs end)
    as Hf by (intros rs; destruct a; done).
  rewrite !Hf.
  destruct proxied, a; cbn; rewrite ?app_nil_r; split_and!; unfold net, ep_net_of;
    first [congruence | f_equal; first [congruence | done]].
Qed.

Lemma stamped_meta :
  bytes_ok (pl_bpf_meta stamped) /\ length (pl_bpf_meta stamped) = 64%nat.
Proof.
  destruct (from_policy_built _ _ _ _ _ _ _ _ Hbuild) as (xr & dr & devs & acls & v & B).
  pose proof (bu_meta _ _ _ _ _ _ _ _ _ _ _ _ B) as Em. unfold stamped, daemon_plan. fold proxied.
  destruct (meta_ok en ctx (np_bind_port_min net)) as [Hm Hl]. fold (ep_net_of policy) in Em.
  fold net in Em. rewrite <- Em in Hm, Hl.
  destruct proxied; [|done]. apply stamp_proxy_meta_ok; (done || by repeat constructor).
Qed.

Lemma payload_rules_ok a :
  ip_ok a ->
  entries_ok (4 + length (octets a)) (payload_allow a) /\
  entries_ok (4 + length (octets a)) (payload_deny a) /\
  entries_ok (4 + length (octets a)) (payload_bind_allow a) /\
  entries_ok (4 + length (octets a)) (payload_bind_deny a).
Proof.
  intros Ha. destruct (payload_lists a) as (-> & -> & -> & ->).
  destruct Hnet as (H1 & H2 & H3 & H4 & _). fold net in H1, H2, H3, H4.
  pose proof (rule_entries_ok en a _ H1 Ha) as [E1 E1'].
  pose proof (rule_entries_ok en a _ H3 Ha) as [E3 E3'].
  pose proof (omap_length_le (rule_entry en a) (connect_allow_rules net)).
  pose proof (omap_length_le (rule_entry en a) (np_bpf_bind_allow net)).
  unfold rules_ok in H1, H3. destruct Ha as [Ho Hl].
  split_and!; [|by apply rule_entries_ok..| |by apply rule_entries_ok].
  - split; [rewrite length_app; destruct proxied; cbn [length]; lia|].
    apply Forall_app; split; [done|]. destruct proxied; [|done]. apply Forall_singleton.
    unfold loop_connect. rewrite Hl. split_and!; cbn [fst snd].
    + apply Forall_app; split; [apply ne_bytes_ok|]. destruct a; by repeat constructor.
    + apply Forall_app; split; [apply ne_bytes_ok|]. apply Forall_app; split; [apply ne_bytes_ok|].
      by repeat constructor.
    + rewrite length_app, length_ne_bytes. by destruct a.
    + unfold allow_entry. by rewrite !length_app, !length_ne_bytes.
  - unfold bind_rules. rewrite omap_app. split.
    + rewrite length_app. destruct proxied; [rewrite loop_bind_entries; destruct a|]; cbn [length omap list_omap]; lia.
    + apply Forall_app; split; [done|]. destruct proxied; [|done].
      apply rule_entries_ok; [|done]. by apply (bool_decide_unpack _).
Qed.

Lemma payload_ok : egress_ok (egress_payload stamped id).
Proof.
  destruct (from_policy_built _ _ _ _ _ _ _ _ Hbuild) as (xr & dr & devs & acls & v & B).
  pose proof (bu_ports _ _ _ _ _ _ _ _ _ _ _ _ B) as Eports. fold (ep_net_of policy) in Eports.
  destruct stamped_meta as [Hm Hl].
  destruct (payload_rules_ok (V4 [0; 0; 0; 0])) as (H1 & H2 & H3 & H4); [by apply (bool_decide_unpack _)|].
  destruct (payload_rules_ok (V6 (replicate 16 0))) as (H5 & H6 & H7 & H8); [by apply (bool_decide_unpack _)|].
  assert (pl_bind_allowed_ports stamped = np_bind_allowed_ports net) as Ep.
  { unfold stamped, daemon_plan. case_match; exact Eports. }
  split; [split; [done|change (Z.of_nat (length (pl_bpf_meta stamped)) = 64); lia]|].
  split_and!; try done.
  cbn [eg_bind_allowed_ports egress_payload]. rewrite Ep. apply Hnet.
Qed.
End host.

(** ** The maps of an attached kennel *)

Section attached.
Context (en : endian) {T : Type} `{!LpmTrie T}.

Definition allow_map (m : KennelMaps T) (a : ip_addr) : T :=
  match a with V4 _ => km_allow_v4 m | V6 _ => km_allow_v6 m end.
Definition deny_map (m : KennelMaps T) (a : ip_addr) : T :=
  match a with V4 _ => km_deny_v4 m | V6 _ => km_deny_v6 m end.
Definition bind_allow_map (m : KennelMaps T) (a : ip_addr) : T :=
  match a with V4 _ => km_bind_allow_v4 m | V6 _ => km_bind_allow_v6 m end.
Definition bind_deny_map (m : KennelMaps T) (a : ip_addr) : T :=
  match a with V4 _ => km_bind_deny_v4 m | V6 _ => km_bind_deny_v6 m end.

Lemma populate_Some p m :
  populate_maps en create_maps p = Some m ->
  km_meta m = eg_meta p /\
  km_bind_subnet m =
    default (replicate 44 0) (bind_subnet_value en (eg_meta p) (eg_bind_allowed_ports p)) /\
  forall a,
    update_all (lpm_create (addr_bytes a) 1024)
      (match a with V4 _ => eg_allow_v4 p | V6 _ => eg_allow_v6 p end) = Some (allow_map m a) /\
    update_all (lpm_create (addr_bytes a) 256)
      (match a with V4 _ => eg_deny_v4 p | V6 _ => eg_deny_v6 p end) = Some (deny_map m a) /\
    update_all (lpm_create (addr_bytes a) 1024)
      (match a with V4 _ => eg_bind_allow_v4 p | V6 _ => eg_bind_allow_v6 p end) =
        Some (bind_allow_map m a) /\
    update_all (lpm_create (addr_bytes a) 256)
      (match a with V4 _ => eg_bind_deny_v4 p | V6 _ => eg_bind_deny_v6 p end) =
        Some (bind_deny_map m a).
Proof.
  unfold populate_maps, create_maps. cbn [km_meta km_bind_subnet km_allow_v4 km_deny_v4 km_allow_v6
    km_deny_v6 km_bind_allow_v4 km_bind_deny_v4 km_bind_allow_v6 km_bind_deny_v6].
  intros H. repeat (apply bind_Some in H as (? & ? & H)). apply (inj Some) in H as <-.
  split_and!; [done..|]. by intros [|].
Qed.

(** An attached helper decoded the payload, matched the owner and filled the maps. *)
Lemma attach_Attached owner uid load stdin m :
  attach en owner uid load stdin = Attached m ->
  owner = Some uid /\ load = true /\
  exists p, egress_decode en stdin = Ok p /\ populate_maps en create_maps p = Some m.
Proof.
  unfold attach. destruct (egress_decode en stdin) as [p|]; [|done].
  destruct owner as [u|]; [|done]. destruct (u =? uid) eqn:E; cbn; [|done].
  destruct (populate_maps en create_maps p) as [m'|] eqn:Ep; [|done]. destruct load; [|done].
  intros [= <-]. apply Z.eqb_eq in E as ->. split_and!; [done..|]. by exists p.
Qed.
End attached.

(** ** The verdicts *)

(** What the rules say of a host-mode connection: every deny network wins; the stamped proxy
    opens the loopback address; otherwise one allow rule decides. *)
Definition host_verdict (net : NetPolicy) (proxy : bool) (a : ip_addr) (port protocol : Z) : bool :=
  negb (existsb (rule_covers a) (connect_deny_rules net)) &&
  (if proxy && bool_decide (octets a = loopback_of a) then true
   else match winning (np_bpf_connect_allow net) a with
        | Some r => rule_admits r protocol port
        | None => false
        end).

(** ** Slots of the metadata and of the bind record *)

Lemma write_slot_length m s e v :
  blen v = e - s -> 0 <= s -> length (write_slot m s e v) = length m.
Proof.
  intros Hl Hs. unfold write_slot. destruct (get_range m s e) as [b|] eqn:E; [|done].
  apply get_range_Some in E as (? & ? & ? & _). rewrite !length_app, length_take, length_drop. lia.
Qed.

Lemma get_range_write_same m s e v :
  blen v = e - s -> 0 <= s -> s <= e <= blen m -> get_range (write_slot m s e v) s e = Some v.
Proof.
  intros Hv Hs He. unfold write_slot. unfold get_range at 2.
  rewrite !(proj2 (Z.leb_le _ _)) by lia. cbn [andb].
  apply (get_range_eq _ (take (Z.to_nat s) m) v (drop (Z.to_nat e) m)); [done| |lia].
  rewrite length_take. lia.
Qed.

(** A write elsewhere leaves a range alone. *)
Lemma get_range_write_other m s e v s' e' :
  blen v = e - s -> 0 <= s -> 0 <= s' -> e <= s' \/ e' <= s ->
  get_range (write_slot m s e v) s' e' = get_range m s' e'.
Proof.
  intros Hv Hs Hs' Hd. unfold write_slot. destruct (get_range m s e) as [b|] eqn:E; [|done].
  apply get_range_Some in E as (? & ? & ? & _).
  assert (blen (take (Z.to_nat s) m ++ v ++ drop (Z.to_nat e) m) = blen m) as Hl
    by (rewrite !length_app, length_take, length_drop; lia).
  unfold get_range. rewrite Hl. destruct ((0 <=? s') && (s' <=? e') && (e' <=? blen m)) eqn:Hc; [|done].
  apply andb_true_iff in Hc as [[_ Hc1%Z.leb_le]%andb_true_iff Hc2%Z.leb_le]. f_equal. apply list_eq. intros i.
  destruct (decide (i < Z.to_nat (e' - s'))%nat) as [Hi|Hi];
    [|rewrite !lookup_ge_None_2 by (rewrite length_take; lia); done].
  rewrite !lookup_take_lt, !lookup_drop by lia. destruct Hd as [Hd|Hd].
  - rewrite lookup_app_r by (rewrite length_take; lia).
    rewrite lookup_app_r by (rewrite length_take; lia).
    rewrite lookup_drop, length_take. f_equal. lia.
  - rewrite lookup_app_l by (rewrite length_take; lia). by rewrite lookup_take_lt by lia.
Qed.

Section slots.
Context (en : endian).

Lemma meta_zero ctx s e :
  8 <= s -> s <= e <= 64 -> get_range (meta_bytes en ctx) s e = Some (replicate (Z.to_nat (e - s)) 0).
Proof.
  intros Hs He. unfold meta_bytes.
  set (pre := ne_bytes en 4 KENNEL_META_MAGIC ++ ne_bytes en 2 KENNEL_ABI_VERSION ++ ne_bytes en 2 ctx).
  assert (length pre = 8%nat) as Hl by (unfold pre; by rewrite !length_app, !length_ne_bytes).
  apply (get_range_eq _ (pre ++ replicate (Z.to_nat (s - 8)) 0) _ (replicate (Z.to_nat (64 - e)) 0)).
  - unfold pre. rewrite <- !app_assoc, <- !replicate_add. do 4 f_equal. lia.
  - rewrite length_app, length_replicate. lia.
  - rewrite length_replicate. lia.
Qed.

(** What the helper reads of the metadata the daemon stamps. *)
Definition stamped_meta_of (proxied : bool) (ctx min port : Z) : bytes :=
  let meta := stamp_bind_port_min en (meta_bytes en ctx) min in
  if proxied then stamp_proxy_meta meta (loopback_endpoint port) else meta.

Lemma meta_slots proxied ctx min port :
  let meta := stamped_meta_of proxied ctx min port in
  get_range meta 14 16 = Some (ne_bytes en 2 min) /\
  get_range meta 8 12 = Some (if proxied then [127; 0; 0; 1] else replicate 4 0) /\
  get_range meta 16 32 = Some (if proxied then replicate 15 0 ++ [1] else replicate 16 0).
Proof.
  unfold stamped_meta_of. cbv zeta. destruct (meta_ok en ctx min) as [_ Hl].
  assert (forall s e, 16 <= s \/ e <= 14 -> 8 <= s -> s <= e <= 64 ->
    get_range (stamp_bind_port_min en (meta_bytes en ctx) min) s e =
      Some (replicate (Z.to_nat (e - s)) 0)) as Hz.
  { intros s e Hd Hs He. unfold stamp_bind_port_min.
    rewrite get_range_write_other by (rewrite ?length_ne_bytes; lia). by apply meta_zero. }
  assert (get_range (stamp_bind_port_min en (meta_bytes en ctx) min) 14 16 = Some (ne_bytes en 2 min)) as Hmin.
  { apply get_range_write_same; [by rewrite length_ne_bytes|done|].
    unfold meta_bytes. rewrite !length_app, !length_ne_bytes, length_replicate. lia. }
  destruct proxied; [|split_and!; [done|by apply (Hz 8 12); lia|by apply (Hz 16 32); lia]].
  unfold stamp_proxy_meta. cbn [pe_v4 pe_v6 pe_port loopback_endpoint from_option id].
  set (m0 := stamp_bind_port_min _ _ _) in *.
  set (m1 := write_slot m0 8 12 _). set (m2 := write_slot m1 12 14 _).
  assert (length m2 = 64%nat) as Hl2.
  { unfold m2, m1. rewrite !write_slot_length; rewrite ?length_be_bytes; done. }
  split_and!.
  - rewrite get_range_write_other by (cbn; lia). unfold m2. rewrite get_range_write_other
      by (rewrite ?length_be_bytes; lia). unfold m1. by rewrite get_range_write_other by (cbn; lia).
  - rewrite get_range_write_other by (cbn; lia). unfold m2. rewrite get_range_write_other
      by (rewrite ?length_be_bytes; lia). apply get_range_write_same; [done|done|lia].
  - apply get_range_write_same; [done|done|lia].
Qed.

Lemma subnet_fields meta v4 v6 ports :
  get_range meta 8 12 = Some v4 -> get_range meta 16 32 = Some v6 -> blen ports <= MAX_BIND_PORTS ->
  exists sub, bind_subnet_value en meta ports = Some sub /\
    get_range sub 0 4 = Some v4 /\ get_range sub 8 24 = Some v6 /\
    subnet_n_ports sub = blen ports /\
    forall i port, ports !! i = Some port -> in_u16 port -> subnet_port en sub i = Some port.
Proof.
  intros H4 H6 Hp. unfold bind_subnet_value. rewrite H4, H6. cbn [mbind option_bind].
  rewrite take_ge by (unfold MAX_BIND_PORTS in Hp; lia).
  apply get_range_Some in H4 as (_ & _ & L4 & _). apply get_range_Some in H6 as (_ & _ & L6 & _).
  set (tail := replicate _ 0). eexists. split; [done|]. set (l28 := ne_bytes en 4 28).
  assert (length l28 = 4%nat) as L28 by apply length_ne_bytes.
  set (listed := flat_map (ne_bytes en 2) ports). split_and!.
  - by apply (get_range_eq _ [] v4 (l28 ++ v6 ++ [64; blen ports] ++ listed ++ tail)).
  - apply (get_range_eq _ (v4 ++ l28) v6 ([64; blen ports] ++ listed ++ tail));
      [by rewrite <- !app_assoc|rewrite length_app; lia|lia].
  - unfold subnet_n_ports. do 3 (rewrite lookup_app_r by lia).
    by replace (25 - length v4 - length l28 - length v6)%nat with 1%nat by lia.
  - intros i port Hi Hport. unfold subnet_port. apply list_elem_of_split_length in Hi as (l1 & l2 & -> & ->).
    unfold listed. rewrite flat_map_app. cbn [flat_map].
    assert (length (flat_map (ne_bytes en 2) l1) = (2 * length l1)%nat) as Hl1.
    { clear. induction l1 as [|x l IH]; cbn; [done|]. rewrite length_app, length_ne_bytes. lia. }
    rewrite (get_range_eq _ (v4 ++ l28 ++ v6 ++ [64; blen (l1 ++ port :: l2)] ++
        flat_map (ne_bytes en 2) l1) (ne_bytes en 2 port) (flat_map (ne_bytes en 2) l2 ++ tail)).
    + cbn [option_map]. by rewrite ne_val_bytes by (cbn; in_range).
    + by rewrite <- !app_assoc.
    + rewrite !length_app, Hl1. cbn [length]. lia.
    + rewrite length_ne_bytes. lia.
Qed.

Lemma port_listed_exact sub ports port :
  subnet_n_ports sub = blen ports -> blen ports <= MAX_BIND_PORTS -> Forall in_u16 ports ->
  (forall i port, ports !! i = Some port -> in_u16 port -> subnet_port en sub i = Some port) ->
  port_listed en sub port = bool_decide (port ∈ ports).
Proof.
  intros Hn Hl Ht Hs. unfold port_listed. rewrite Hn. apply Bool.eq_iff_eq_true.
  rewrite existsb_exists, bool_decide_eq_true. split.
  - intros (i & _ & [Hi%Z.ltb_lt Hp%bool_decide_eq_true]%andb_true_iff).
    destruct (lookup_lt_is_Some_2 ports i) as [q Hq]; [lia|].
    rewrite (Hs i q Hq) in Hp by (by eapply Forall_lookup_1). simplify_eq.
    by eapply list_elem_of_lookup_2.
  - intros [i Hi]%list_elem_of_lookup. exists i. pose proof (lookup_lt_Some _ _ _ Hi).
    split; [apply in_seq; unfold MAX_BIND_PORTS in Hl; lia|].
    apply andb_true_intro. split; [apply Z.ltb_lt; lia|]. apply bool_decide_eq_true.
    apply Hs; [done|]. by eapply Forall_lookup_1.
Qed.
End slots.

(** The bind gate in the rules' terms: the port tests, then the bind rules on the address the
    socket gets, where a wildcard becomes the loopback address of a stamped plan. *)
Definition effective_addr (proxy : bool) (a : ip_addr) : ip_addr :=
  if proxy && is_any (octets a)
  then match a with V4 _ => V4 (loopback_of a) | V6 _ => V6 (loopback_of a) end
  else a.
Definition stamped_bind_rules (net : NetPolicy) (proxy : bool) : list NetRule :=
  np_bpf_bind_allow net ++ if proxy then loop_bind_rules else [].
Definition host_bind (net : NetPolicy) (proxy : bool) (a : ip_addr) (port protocol : Z) :
    bool * ip_addr :=
  let listed := np_bind_allowed_ports net in
  if port =? 0 then (true, a)
  else if (port <? np_bind_port_min net) || (negb (is_nil listed) && negb (bool_decide (port ∈ listed)))
  then (false, a)
  else (acl_verdict (np_bpf_bind_deny net) (stamped_bind_rules net proxy) (effective_addr proxy a)
          port protocol, effective_addr proxy a).

Section verdicts.
Context (en : endian) {T : Type} `{!LpmTrie T} `{!LpmTrieLaws en T}.

(** A full-length entry at the end of the list wins on its own address, and only there. *)
Lemma better_exact addr best k v :
  key_prefix en k = 8 * blen addr -> bytes_ok addr -> bytes_ok (key_addr k) ->
  length (key_addr k) = length addr ->
  (forall b, best = Some b -> key_prefix en b.1 <= 8 * blen addr) ->
  better en addr best (k, v) = if bool_decide (addr = key_addr k) then Some (k, v) else best.
Proof.
  intros Hk Ha Hka Hl Hb. unfold better, key_matches. cbn [fst]. rewrite Hk, Z.sub_diag.
  rewrite !Z.div_1_r.
  assert ((be_val (key_addr k) =? be_val addr) = bool_decide (addr = key_addr k)) as ->.
  { apply Bool.eq_iff_eq_true. rewrite Z.eqb_eq, bool_decide_eq_true. split; [|congruence].
    intros H. symmetry. by apply be_val_inj. }
  case_bool_decide; [|done]. cbn. destruct best as [b|]; [|done].
  by rewrite (proj2 (Z.leb_le _ _)) by by apply Hb.
Qed.

Lemma fold_better_bound addr n es best :
  Forall (fun e => key_prefix en e.1 <= n) es ->
  (forall b, best = Some b -> key_prefix en b.1 <= n) ->
  forall b, fold_left (better en addr) es best = Some b -> key_prefix en b.1 <= n.
Proof.
  intros He. revert best; induction He as [|e es He _ IH]; intros best Hb; [done|].
  cbn. apply IH. intros b. unfold better. case_match; [by intros [= <-]|apply Hb].
Qed.

Lemma longest_snoc_exact a es e :
  ip_ok a -> Forall (fun e => key_prefix en e.1 <= family_bits a) es ->
  key_prefix en e.1 = family_bits a -> bytes_ok (key_addr e.1) ->
  length (key_addr e.1) = length (octets a) ->
  longest en (es ++ [e]) (octets a) =
    if bool_decide (octets a = key_addr e.1) then Some e.2 else longest en es (octets a).
Proof.
  intros [Ha Hl] He Hk Hb Hlk. unfold longest. rewrite fold_left_app. cbn [fold_left].
  assert (family_bits a = 8 * blen (octets a)) as Hf by (rewrite Hl; by destruct a).
  destruct e as [k v]. cbn [fst snd] in *. rewrite better_exact; [by case_bool_decide|lia|done..|].
  rewrite <- Hf. by apply (fold_better_bound (octets a)).
Qed.

(** The lookup in the allow map the daemon's payload fills. *)
Lemma stamped_lookup a rules proxied (t : T) :
  ip_ok a -> Forall rule_typed rules ->
  update_all (lpm_create (addr_bytes a) 1024)
    (omap (rule_entry en a) rules ++ if proxied : bool then [loop_connect en a] else []) = Some t ->
  lpm_lookup t (octets a) =
    if proxied && bool_decide (octets a = loopback_of a)
    then Some (loop_connect en a).2
    else option_map (rule_value en) (winning rules a).
Proof.
  intros Ha Ht Hu. destruct proxied; [|rewrite app_nil_r in Hu; by eapply update_entries_lookup].
  assert (8 * addr_bytes a = family_bits a) as Hf by (by destruct a).
  pose proof (lpm_refuses _ _ _ _ Hu) as Hp. rewrite Hf in Hp.
  apply Forall_app in Hp as [Hp _].
  rewrite (lpm_longest (addr_bytes a) 1024 _ t _ Hu) by (destruct Ha as [_ ->]; by destruct a).
  assert (key_addr (loop_connect en a).1 = loopback_of a) as Hk by apply key_addr_key.
  rewrite longest_snoc_exact; [|done..| | |].
  - rewrite Hk. cbn [andb]. case_bool_decide; [done|]. by apply longest_winning.
  - apply key_prefix_key. by destruct a.
  - rewrite Hk. destruct a; by repeat constructor.
  - rewrite Hk. destruct Ha as [_ ->]. by destruct a.
Qed.

Lemma connect_map (m : KennelMaps T) a port protocol :
  connect en m a port protocol =
    decide_acl en (deny_map m a) (allow_map m a) (octets a) port protocol.
Proof. by destruct a. Qed.

Lemma loop_permits a port protocol :
  in_u16 port -> entry_permits en (loop_connect en a).2 protocol port = true.
Proof.
  intros Hp. unfold loop_connect. cbn [snd]. rewrite entry_permits_allow by in_range. cbn.
  apply andb_true_intro. split; apply Z.leb_le; in_range.
Qed.


Section policy_verdict.
Context (SYS : bytes -> Z) (RL : Z) (policy : SettledPolicy) (ctx : Z) (namespace home : bytes)
  (p : Plan) (proxy : bool) (id : bytes) (owner : option Z) (uid : Z) (load : bool)
  (m : KennelMaps T).
Context (Hbuild : PlanBuild.from_policy en SYS RL policy ctx namespace home = Ok p)
  (Hnet : net_typed (ep_net_of policy)) (Hid : pin_ok id)
  (Hmode : np_mode (ep_net_of policy) = PmHost)
  (Hatt : attach en owner uid load
     (egress_bytes en (np_mode (ep_net_of policy)) (daemon_plan en proxy (ep_net_of policy) p) id)
     = Attached m).
Let net := ep_net_of policy.

Lemma attached_populated :
  populate_maps en create_maps (egress_payload (daemon_plan en proxy net p) id) = Some m.
Proof.
  unfold egress_bytes in Hatt. rewrite bool_decide_eq_true_2 in Hatt by done.
  apply attach_Attached in Hatt as (_ & _ & q & Hd & Hp).
  rewrite egress_decode_encode in Hd by by eapply payload_ok. by simplify_eq.
Qed.

Lemma proxied_host : proxy && negb (bool_decide (np_mode net = PmNone)) = proxy.
Proof. unfold net. rewrite Hmode. by destruct proxy. Qed.

Lemma connect_exact a port protocol :
  ip_ok a -> in_u16 port -> connect en m a port protocol = host_verdict net proxy a port protocol.
Proof.
  intros Ha Hport. destruct (populate_Some en _ _ attached_populated) as (_ & _ & Hu).
  destruct (Hu a) as (Hallow & Hdeny & _ & _).
  destruct (payload_lists en SYS RL policy ctx namespace home p proxy id Hbuild a)
    as (Ea & Ed & _ & _).
  unfold payload_allow in Ea. unfold payload_deny in Ed. fold net in Ea, Ed.
  rewrite Ea, proxied_host in Hallow. rewrite Ed in Hdeny.
  destruct Hnet as ((_ & Hra) & (_ & Hrd) & _). fold net in Hra, Hrd.
  rewrite connect_map. unfold decide_acl, host_verdict.
  rewrite (update_entries_lookup en a _ _ _ Ha Hrd Hdeny), (stamped_lookup a _ _ _ Ha Hra Hallow).
  assert (connect_allow_rules net = np_bpf_connect_allow net) as Er
    by (unfold connect_allow_rules, net; by rewrite Hmode).
  rewrite Er in *. destruct (winning (connect_deny_rules net) a) as [r|] eqn:Ew; cbn.
  - replace (existsb (rule_covers a) _) with true; [done|]. symmetry.
    apply not_false_iff_true. intros H%winning_None. congruence.
  - apply winning_None in Ew as ->. cbn. destruct (proxy && bool_decide (octets a = _)); [by apply (loop_permits a)|].
    destruct (winning _ a) as [r|] eqn:Ea'; cbn; [|done].
    apply entry_permits_value. by apply (winning_typed a (np_bpf_connect_allow net)).
Qed.

Lemma attached_meta :
  km_meta m = stamped_meta_of en proxy ctx (np_bind_port_min net) (px_port (np_proxy net)) /\
  km_bind_subnet m = default (replicate 44 0)
    (bind_subnet_value en (km_meta m) (np_bind_allowed_ports net)).
Proof.
  destruct (populate_Some en _ _ attached_populated) as (Em & Es & _).
  destruct (from_policy_built _ _ _ _ _ _ _ _ Hbuild) as (xr & dr & devs & acls & v & B).
  pose proof (bu_meta _ _ _ _ _ _ _ _ _ _ _ _ B) as Eb.
  pose proof (bu_ports _ _ _ _ _ _ _ _ _ _ _ _ B) as Ep.
  rewrite Em. split.
  - unfold egress_payload, daemon_plan, stamped_meta_of. rewrite proxied_host. cbn [eg_meta].
    destruct proxy; cbn [pl_bpf_meta stamp_proxy plan_update]; by rewrite Eb.
  - rewrite Es. do 2 f_equal. unfold egress_payload, daemon_plan. cbn [eg_bind_allowed_ports].
    case_match; exact Ep.
Qed.

Lemma bind_acl a port protocol :
  ip_ok a ->
  decide_acl en (bind_deny_map m a) (bind_allow_map m a) (octets a) port protocol =
    acl_verdict (np_bpf_bind_deny net) (stamped_bind_rules net proxy) a port protocol.
Proof.
  intros Ha. destruct (populate_Some en _ _ attached_populated) as (_ & _ & Hu).
  destruct (Hu a) as (_ & _ & Hallow & Hdeny).
  destruct (payload_lists en SYS RL policy ctx namespace home p proxy id Hbuild a)
    as (_ & _ & Ea & Ed).
  unfold payload_bind_allow, bind_rules in Ea. unfold payload_bind_deny in Ed. fold net in Ea, Ed.
  rewrite Ea, proxied_host in Hallow. rewrite Ed in Hdeny.
  destruct Hnet as (_ & _ & (_ & Hra) & (_ & Hrd) & _).
  apply (decide_acl_exact en a _ _ 256 1024); [done..| |done|done].
  apply Forall_app; split; [done|]. destruct proxy; [|done]. by apply (bool_decide_unpack _).
Qed.

Lemma bind_exact a port protocol :
  ip_ok a -> in_u16 port -> bind_program en m a port protocol = host_bind net proxy a port protocol.
Proof.
  intros Ha Hport. destruct attached_meta as [Em Es].
  destruct (meta_slots en proxy ctx (np_bind_port_min net) (px_port (np_proxy net))) as (Hmin & H4 & H6).
  rewrite <- Em in Hmin, H4, H6.
  destruct Hnet as (_ & _ & _ & _ & [Hpl Hpt] & Hm16). fold net in Hpl, Hpt, Hm16.
  destruct (subnet_fields en _ _ _ _ H4 H6 Hpl) as (sub & Esub & Hs4 & Hs6 & Hn & Hports).
  rewrite Esub in Es. change (km_bind_subnet m = sub) in Es.
  unfold bind_program, host_bind, meta_bind_port_min. rewrite Hmin, Es, Hn.
  rewrite ne_val_bytes by (cbn; in_range).
  rewrite (port_listed_exact en sub (np_bind_allowed_ports net)) by done.
  destruct (Z.eqb_spec port 0) as [|Hp0]; [done|].
  assert (negb (np_bind_port_min net =? 0) && (port <? np_bind_port_min net) =
          (port <? np_bind_port_min net)) as ->.
  { destruct (Z.eqb_spec (np_bind_port_min net) 0) as [E|]; [|done]. rewrite E.
    symmetry. apply Z.ltb_ge. in_range. }
  destruct (port <? np_bind_port_min net); [done|]. cbn [orb].
  assert (negb (blen (np_bind_allowed_ports net) =? 0) = negb (is_nil (np_bind_allowed_ports net))) as ->
    by (by destruct (np_bind_allowed_ports net)).
  destruct (negb (is_nil _) && _); [done|].
  assert (forall b, is_any b = true -> b = replicate (length b) 0) as Hany.
  { intros b. unfold is_any. induction b as [|x b IH]; cbn [forallb length replicate]; [done|].
    intros [<-%Z.eqb_eq H]%andb_true_iff. by rewrite <- IH. }
  pose proof (bind_acl (effective_addr proxy a) port protocol) as Hacl.
  assert (ip_ok (effective_addr proxy a)) as Heff.
  { unfold effective_addr. destruct (proxy && is_any (octets a)); [|done].
    destruct a; by apply (bool_decide_unpack _). }
  specialize (Hacl Heff). rewrite <- Hacl. destruct Ha as [_ Hl].
  destruct a as [b|b]; unfold effective_addr in *; cbn [octets loopback_of] in *;
    rewrite ?Hs4, ?Hs6; destruct (is_any b) eqn:Eb; destruct proxy; try done.
  all: apply Hany in Eb; rewrite Hl in Eb; by rewrite Eb.
Qed.
End policy_verdict.
End verdicts.

(** * An implementation of the trie *)

(** The updates in order, searched from the front; every update counts against the capacity. *)
Record ListTrie (en : endian) : Type := {
  lt_width : Z; lt_max : Z; lt_entries : list (bytes * bytes);
}.
Global Arguments lt_width {en}. Global Arguments lt_max {en}. Global Arguments lt_entries {en}.

Global Instance list_trie (en : endian) : LpmTrie (ListTrie en) := {
  lpm_create width max := {| lt_width := width; lt_max := max; lt_entries := [] |};
  lpm_update t k v :=
    if (key_prefix en k <=? 8 * lt_width t) && (blen (lt_entries t) <? lt_max t)
    then Some {| lt_width := lt_width t; lt_max := lt_max t; lt_entries := lt_entries t ++ [(k, v)] |}
    else None;
  lpm_lookup t addr := longest en (lt_entries t) addr;
}.

Lemma list_trie_update_all en es (t t' : ListTrie en) :
  update_all t es = Some t' ->
  lt_entries t' = lt_entries t ++ es /\
  Forall (fun e => key_prefix en e.1 <= 8 * lt_width t) es.
Proof.
  revert t; induction es as [|[k v] es IH]; intros t; cbn [update_all].
  { intros [= <-]. by rewrite app_nil_r. }
  intros (t1 & H1 & H)%bind_Some. cbn in H1. case_match eqn:E; [|done].
  apply (inj Some) in H1 as <-. apply andb_true_iff in E as [E%Z.leb_le _].
  apply IH in H as [-> Hf]. cbn in *. rewrite <- app_assoc. split; [done|]. by constructor.
Qed.

Global Instance list_trie_laws en : LpmTrieLaws en (ListTrie en).
Proof.
  split.
  - intros width max es t addr [Ht _]%list_trie_update_all _. cbn in *. by rewrite Ht.
  - intros width max es t [_ Hf]%list_trie_update_all. exact Hf.
Qed.

(** * Claims *)

(** C5: In host mode the kernel's verdict on a connection is an exact function of
    the signed policy, through the plan, the egress payload, its wire form, the
    helper's maps and the cgroup programs: refused when any deny network of the
    policy (invariant, BPF or author) covers the address, at whatever port and
    protocol that rule names; else allowed on the loopback address when the
    deployment has a proxy; else decided by the one allow rule with the longest
    prefix (the last of equal ones).  For every trie that has the two documented
    laws of the kernel's. *)
Theorem host_egress_exact {T} `{!LpmTrie T} en `{!LpmTrieLaws en T} SYS RL policy ctx namespace home
    p proxy id owner uid load (m : KennelMaps T) a port protocol :
  PlanBuild.from_policy en SYS RL policy ctx namespace home = Ok p ->
  net_typed (ep_net_of policy) -> pin_ok id -> np_mode (ep_net_of policy) = PmHost ->
  attach en owner uid load (egress_bytes en (np_mode (ep_net_of policy))
    (daemon_plan en proxy (ep_net_of policy) p) id) = Attached m ->
  ip_ok a -> in_u16 port ->
  connect en m a port protocol = host_verdict (ep_net_of policy) proxy a port protocol.
Proof. intros. by eapply connect_exact. Qed.

(** In host mode the kernel's verdict on a bind, and the address the socket
    gets, are an exact function of the policy: port 0 is always allowed; a port
    under the floor or outside a non-empty port list is refused; a wildcard address
    becomes the kennel's loopback when a proxy was stamped and stays a wildcard
    otherwise; then the bind rules decide on that address, with the loopback
    networks among the allowed when a proxy was stamped. *)
Theorem host_bind_exact {T} `{!LpmTrie T} en `{!LpmTrieLaws en T} SYS RL policy ctx namespace home
    p proxy id owner uid load (m : KennelMaps T) a port protocol :
  PlanBuild.from_policy en SYS RL policy ctx namespace home = Ok p ->
  net_typed (ep_net_of policy) -> pin_ok id -> np_mode (ep_net_of policy) = PmHost ->
  attach en owner uid load (egress_bytes en (np_mode (ep_net_of policy))
    (daemon_plan en proxy (ep_net_of policy) p) id) = Attached m ->
  ip_ok a -> in_u16 port ->
  bind_program en m a port protocol = host_bind (ep_net_of policy) proxy a port protocol.
Proof. intros. by eapply bind_exact. Qed.

(** Of two allow rules on one network only the later one is in force. *)
Lemma same_network_last a r1 r2 :
  nr_cidr r1 = nr_cidr r2 -> nr_prefix_len r1 = nr_prefix_len r2 ->
  winning [r1; r2] a = if rule_covers a r2 then Some r2 else None.
Proof.
  intros Hc Hp. unfold winning. cbn [fold_left]. unfold prefer.
  assert (rule_covers a r1 = rule_covers a r2) as -> by (unfold rule_covers; by rewrite Hc, Hp).
  destruct (rule_covers a r2); [|done]. cbn [andb]. by rewrite Hp, Z.leb_refl.
Qed.

(** Two allow rules on the same network do not add up: a policy that allows
    one network at two port ranges opens only the second, and the first rule's
    ports are refused.  (The daemon's own proxy ruleset takes the union.) *)
Theorem same_network_rules_do_not_add net proxy a port protocol r1 r2 :
  np_bpf_connect_allow net = [r1; r2] ->
  nr_cidr r1 = nr_cidr r2 -> nr_prefix_len r1 = nr_prefix_len r2 ->
  octets a <> loopback_of a ->
  host_verdict net proxy a port protocol =
    negb (existsb (rule_covers a) (connect_deny_rules net)) &&
    rule_covers a r2 && rule_admits r2 protocol port.
Proof.
  intros Hr Hc Hp Hl. unfold host_verdict. rewrite Hr, same_network_last by done.
  rewrite (bool_decide_eq_false_2 _ Hl), andb_false_r. cbn [andb].
  destruct (rule_covers a r2); [by rewrite andb_true_r|]. by rewrite !andb_false_r.
Qed.

(** ** A host-mode policy *)

Definition host_rules : list NetRule :=
  [ sample_rule "93.184.216.0" 24 80 80; sample_rule "93.184.216.0" 24 443 443;
    sample_rule "::" 0 0 65535 ].
Definition host_policy : SettledPolicy := sample_policy PmHost [] [] [] host_rules [].

Definition host_attach (proxy : bool) : @AttachOutcome (ListTrie LittleEndian) :=
  attach LittleEndian (Some 1000) 1000 true
    (egress_bytes LittleEndian PmHost
      (daemon_plan LittleEndian proxy (ep_net_of host_policy) (sample_plan host_policy))
      (ascii_bytes "ai-coding")).
Definition host_maps (proxy : bool) : KennelMaps (ListTrie LittleEndian) :=
  match host_attach proxy with Attached m => m | AttachFailed _ => create_maps end.

Ltac host_witness :=
  lazymatch goal with
  | |- _ = _ => vm_compute; reflexivity
  | |- _ => apply (bool_decide_unpack _); vm_compute; exact I
  end.

(** Port 80 of the first rule is refused, port 443 of the second allowed; the host's
    loopback is open with a proxy and closed without; the v4-mapped form of the metadata
    address passes the v6 rule. *)
Lemma host_egress_exact_witness :
  connect LittleEndian (host_maps true) (V4 [93; 184; 216; 34]) 80 IPPROTO_TCP = false /\
  connect LittleEndian (host_maps true) (V4 [93; 184; 216; 34]) 443 IPPROTO_TCP = true /\
  connect LittleEndian (host_maps true) (V4 [127; 0; 0; 1]) 5432 IPPROTO_TCP = true /\
  connect LittleEndian (host_maps false) (V4 [127; 0; 0; 1]) 5432 IPPROTO_TCP = false /\
  connect LittleEndian (host_maps true) (V4 [169; 254; 169; 254]) 80 IPPROTO_TCP = false /\
  connect LittleEndian (host_maps true)
    (V6 (replicate 10 0 ++ [255; 255; 169; 254; 169; 254])) 80 IPPROTO_TCP = true.
Proof.
  assert (forall proxy a port, ip_ok a -> in_u16 port ->
    connect LittleEndian (host_maps proxy) a port IPPROTO_TCP =
    host_verdict (ep_net_of host_policy) proxy a port IPPROTO_TCP) as H.
  { intros proxy a port Ha Hp.
    apply (host_egress_exact LittleEndian (fun name => blen name) u64_max host_policy 7
      (ascii_bytes "kennel-1000") sample_home (sample_plan host_policy) proxy
      (ascii_bytes "ai-coding") (Some 1000) 1000 true);
      [host_witness..|destruct proxy; host_witness|exact Ha|exact Hp]. }
  split_and!; rewrite H by host_witness; by vm_compute.
Defined.

Lemma host_bind_exact_witness :
  bind_program LittleEndian (host_maps true) (V4 [0; 0; 0; 0]) 8080 IPPROTO_TCP =
    (true, V4 [127; 0; 0; 1]) /\
  bind_program LittleEndian (host_maps false) (V4 [0; 0; 0; 0]) 8080 IPPROTO_TCP =
    (false, V4 [0; 0; 0; 0]) /\
  bind_program LittleEndian (host_maps true) (V4 [127; 0; 0; 1]) 80 IPPROTO_TCP =
    (false, V4 [127; 0; 0; 1]).
Proof.
  assert (forall proxy a port, ip_ok a -> in_u16 port ->
    bind_program LittleEndian (host_maps proxy) a port IPPROTO_TCP =
    host_bind (ep_net_of host_policy) proxy a port IPPROTO_TCP) as H.
  { intros proxy a port Ha Hp.
    apply (host_bind_exact LittleEndian (fun name => blen name) u64_max host_policy 7
      (ascii_bytes "kennel-1000") sample_home (sample_plan host_policy) proxy
      (ascii_bytes "ai-coding") (Some 1000) 1000 true);
      [host_witness..|destruct proxy; host_witness|exact Ha|exact Hp]. }
  split_and!; rewrite H by host_witness; by vm_compute.
Defined.

Definition two_port_net : NetPolicy :=
  ep_net_of (sample_policy PmHost [] [] []
    [sample_rule "93.184.216.0" 24 80 80; sample_rule "93.184.216.0" 24 443 443] []).

Lemma same_network_rules_do_not_add_witness :
  host_verdict two_port_net true (V4 [93; 184; 216; 34]) 80 IPPROTO_TCP = false.
Proof.
  rewrite (same_network_rules_do_not_add two_port_net true (V4 [93; 184; 216; 34]) 80 IPPROTO_TCP
    (sample_rule "93.184.216.0" 24 80 80) (sample_rule "93.184.216.0" 24 443 443)) by done.
  by vm_compute.
Defined.
