(* ===== verification/Patch.v ===== *)
(** Mutable-field manifests and instantiation ([kennel-lib-policy/src/variant.rs] and
    [patch.rs]).

    A signed template opens leaves of its policy through variants, each with a
    constraint; a request's patch is applied to a verified template within them.
    The constraint language, its parsers and the applicator are modelled whole;
    refusal messages are constructors.

    Theorems: what a successful instantiation changes, exactly, and when it
    succeeds; what a destination pattern matches; that a relative path stays under
    the signed root. *)

From S2P Require Import Prelude Bytes Str IpText Plan Settled Paths PlanBuild.

(** ** Destinations and patterns *)

Record Destination : Type := { de_host : bytes; de_port : Z }.

Inductive DestError : Type :=
  | MissingPort | EmptyHost | HostColon | NotAPort | PortZero | MalformedWildcard | InteriorWildcard
  | ManyWildcards.

Definition destination_parse (value : bytes) : result DestError Destination :=
  match rsplit_once COLON value with
  | None => Err MissingPort
  | Some (host, port) =>
      if is_nil host then Err EmptyHost
      else if has_byte COLON host then Err HostColon
      else match parse_uint u16_max port with
           | None => Err NotAPort
           | Some port => if port =? 0 then Err PortZero
                          else Ok {| de_host := host; de_port := port |}
           end
  end.

Inductive HostPattern : Type :=
  | Exact (h : bytes)
  | Suffix (s : bytes)
  | Prefix (p : bytes).
Record DestPattern : Type := { dp_host : HostPattern; dp_port : Z }.

Definition host_pattern (host : bytes) : result DestError HostPattern :=
  let stars := count_byte STAR host in
  if (stars =? 0)%nat then Ok (Exact host)
  else if (stars =? 1)%nat then
    match strip_prefix [STAR; DOT] host with
    | Some suffix =>
        if is_nil suffix || has_byte STAR suffix then Err MalformedWildcard else Ok (Suffix suffix)
    | None =>
        match strip_suffix [DOT; STAR] host with
        | Some prefix =>
            if is_nil prefix || has_byte STAR prefix then Err MalformedWildcard
            else Ok (Prefix prefix)
        | None => Err InteriorWildcard
        end
    end
  else Err ManyWildcards.

Definition dest_pattern_parse (pattern : bytes) : result DestError DestPattern :=
  match rsplit_once COLON pattern with
  | None => Err MissingPort
  | Some (host, port) =>
      match parse_uint u16_max port with
      | None => Err NotAPort
      | Some port =>
          if port =? 0 then Err PortZero
          else if is_nil host then Err EmptyHost
          else h ← host_pattern host; Ok {| dp_host := h; dp_port := port |}
      end
  end.

Definition matches_host (pat : HostPattern) (host : bytes) : bool :=
  match pat with
  | Exact h => bool_decide (h = host)
  | Suffix suffix =>
      bool_decide (host = suffix) ||
      match strip_suffix suffix host with
      | Some head => ends_with [DOT] head && (1 <? blen head)
      | None => false
      end
  | Prefix prefix =>
      match strip_prefix prefix host with
      | Some tail =>
          match strip_prefix [DOT] tail with
          | Some last => negb (is_nil last) && negb (has_byte DOT last)
          | None => false
          end
      | None => false
      end
  end.
Definition dest_matches (p : DestPattern) (d : Destination) : bool :=
  (dp_port p =? de_port d) && matches_host (dp_host p) (de_host d).

(** [DestPattern::render]. *)
Definition dest_render (p : DestPattern) : bytes :=
  match dp_host p with
  | Exact h => h
  | Suffix s => [STAR; DOT] ++ s
  | Prefix h => h ++ [DOT; STAR]
  end ++ [COLON] ++ dec (dp_port p).

(** ** Constraints *)

Inductive Constraint : Type :=
  | OneOf (set : list bytes)
  | Pool (from : list bytes) (max : Z)
  | Pattern (pats : list DestPattern)
  | Relpath (under : bytes)
  | Freeform (reason : bytes).

Inductive MalformedVariant : Type :=
  | KindCount (found : Z)
  | EmptyPool
  | NoPoolMax
  | BadPattern (e : DestError)
  | NoReason.

Fixpoint parse_patterns (ps : list bytes) : result MalformedVariant (list DestPattern) :=
  match ps with
  | [] => Ok []
  | p :: ps =>
      match dest_pattern_parse p with
      | Ok d => ds ← parse_patterns ps; Ok (d :: ds)
      | Err e => Err (BadPattern e)
      end
  end.

(** [Variant::resolve]. *)
Definition variant_resolve (v : Variant) : result MalformedVariant Constraint :=
  let is_oneof := negb (is_nil (va_one_of v)) in
  let is_pool := negb (is_nil (va_pool v)) || negb (va_pool_max v =? 0) in
  let is_pattern := negb (is_nil (va_pattern v)) in
  let is_relpath := negb (is_nil (va_relpath_under v)) in
  let is_freeform := va_freeform v in
  let kinds := blen (List.filter id [is_oneof; is_pool; is_pattern; is_relpath; is_freeform]) in
  if negb (kinds =? 1) then Err (KindCount kinds)
  else if is_oneof then Ok (OneOf (va_one_of v))
  else if is_pool then
    if is_nil (va_pool v) then Err EmptyPool
    else if va_pool_max v =? 0 then Err NoPoolMax
    else Ok (Pool (va_pool v) (va_pool_max v))
  else if is_pattern then pats ← parse_patterns (va_pattern v); Ok (Pattern pats)
  else if is_relpath then Ok (Relpath (va_relpath_under v))
  else if is_nil (trim (va_reason v)) then Err NoReason
  else Ok (Freeform (va_reason v)).

Inductive Denied : Type :=
  | NotMember
  | NotADestination (e : DestError)
  | NoPattern
  | RelEmpty | RelAbsolute | RelEmptyComponent | RelTraversal.

Definition member (value : bytes) (set : list bytes) : result Denied unit :=
  if existsb (fun m => bool_decide (m = value)) set then Ok tt else Err NotMember.

Fixpoint admit_components (comps : list bytes) : result Denied unit :=
  match comps with
  | [] => Ok tt
  | comp :: comps =>
      if is_nil comp then Err RelEmptyComponent
      else if bool_decide (comp = [DOT]) || bool_decide (comp = [DOT; DOT]) then Err RelTraversal
      else admit_components comps
  end.
Definition admit_relpath (value : bytes) : result Denied unit :=
  if is_nil value then Err RelEmpty
  else if starts_with [SLASH] value then Err RelAbsolute
  else admit_components (split_on SLASH value).

(** [Constraint::admits], [is_open], [max_entries]. *)
Definition constraint_admits (c : Constraint) (value : bytes) : result Denied unit :=
  match c with
  | OneOf set => member value set
  | Pool from _ => member value from
  | Pattern pats =>
      match destination_parse value with
      | Err e => Err (NotADestination e)
      | Ok dest => if existsb (fun p => dest_matches p dest) pats then Ok tt else Err NoPattern
      end
  | Relpath _ => admit_relpath value
  | Freeform _ => Ok tt
  end.
Definition is_open (c : Constraint) : bool :=
  match c with Pattern _ | Relpath _ | Freeform _ => true | _ => false end.
Definition max_entries (c : Constraint) : option Z :=
  match c with
  | Pool _ max => Some max
  | OneOf _ | Relpath _ | Freeform _ => Some 1
  | Pattern _ => None
  end.

(** ** The registry *)

Definition F_NET := ascii_bytes "net.proxy.allow".
Definition F_READ := ascii_bytes "fs.read".
Definition F_WRITE := ascii_bytes "fs.write".
Definition F_ROOTFS := ascii_bytes "rootfs.writable".
Definition F_ARGV := ascii_bytes "workload.argv".

Definition is_mutable_field (field : bytes) : bool :=
  existsb (fun f => bool_decide (field = f)) [F_NET; F_READ; F_WRITE; F_ROOTFS; F_ARGV].

Record PatchEntry : Type := { pe_field : bytes; pe_value : bytes }.

Inductive PatchError : Type :=
  | NotMutable (field : bytes)
  | BadDestination (value : bytes) (e : DestError)
  | OutOfManifest (field : bytes)
  | Malformed (e : MalformedVariant)
  | Refused (d : Denied)
  | EntryCap (field : bytes) (max : Z).

(** Record updates of the policy, as the mutations need them. *)
Definition set_effective (f : EffectivePolicy -> EffectivePolicy) (p : SettledPolicy) : SettledPolicy := {|
  sp_settled_schema_version := sp_settled_schema_version p; sp_name := sp_name p;
  sp_deferred_substitutions := sp_deferred_substitutions p;
  sp_framework_invariants_asserted := sp_framework_invariants_asserted p;
  sp_effective_policy := f (sp_effective_policy p); sp_provenance := sp_provenance p;
  sp_ssh := sp_ssh p; sp_unix := sp_unix p; sp_identity := sp_identity p; sp_mesh := sp_mesh p;
  sp_service := sp_service p; sp_dbus := sp_dbus p; sp_audit := sp_audit p; sp_env := sp_env p;
  sp_ulimits := sp_ulimits p; sp_workload := sp_workload p; sp_rootfs := sp_rootfs p;
  sp_spawn := sp_spawn p; sp_manifest := sp_manifest p |}.
Definition set_leaves (argv writable : list bytes -> list bytes)
    (manifest : list Variant -> list Variant) (p : SettledPolicy) : SettledPolicy := {|
  sp_settled_schema_version := sp_settled_schema_version p; sp_name := sp_name p;
  sp_deferred_substitutions := sp_deferred_substitutions p;
  sp_framework_invariants_asserted := sp_framework_invariants_asserted p;
  sp_effective_policy := sp_effective_policy p; sp_provenance := sp_provenance p;
  sp_ssh := sp_ssh p; sp_unix := sp_unix p; sp_identity := sp_identity p; sp_mesh := sp_mesh p;
  sp_service := sp_service p; sp_dbus := sp_dbus p; sp_audit := sp_audit p; sp_env := sp_env p;
  sp_ulimits := sp_ulimits p;
  sp_workload := {| wl_argv := argv (wl_argv (sp_workload p)); wl_cwd := wl_cwd (sp_workload p);
    wl_pinned := wl_pinned (sp_workload p); wl_allowed_args := wl_allowed_args (sp_workload p);
    wl_sha256 := wl_sha256 (sp_workload p) |};
  sp_rootfs := {| rf_path := rf_path (sp_rootfs p); rf_image := rf_image (sp_rootfs p);
    rf_persistence := rf_persistence (sp_rootfs p); rf_readonly := rf_readonly (sp_rootfs p);
    rf_writable := writable (rf_writable (sp_rootfs p)) |};
  sp_spawn := sp_spawn p; sp_manifest := manifest (sp_manifest p) |}.
Definition set_net (f : NetPolicy -> NetPolicy) (e : EffectivePolicy) : EffectivePolicy := {|
  ep_net := f (ep_net e); ep_fs := ep_fs e; ep_exec := ep_exec e; ep_proc := ep_proc e;
  ep_cap := ep_cap e; ep_seccomp := ep_seccomp e; ep_lifecycle := ep_lifecycle e;
  ep_tty := ep_tty e; ep_trust := ep_trust e |}.
Definition set_fs (read write : list bytes -> list bytes) (e : EffectivePolicy) : EffectivePolicy :=
  let fs := ep_fs e in {|
  ep_net := ep_net e;
  ep_fs := {| fs_home_shadow := fs_home_shadow fs; fs_read := read (fs_read fs);
    fs_write := write (fs_write fs); fs_exclusive := fs_exclusive fs;
    fs_home_persist := fs_home_persist fs; fs_home_readonly := fs_home_readonly fs;
    fs_redirect := fs_redirect fs; fs_cwd := fs_cwd fs; fs_tmp := fs_tmp fs; fs_dev := fs_dev fs |};
  ep_exec := ep_exec e; ep_proc := ep_proc e; ep_cap := ep_cap e; ep_seccomp := ep_seccomp e;
  ep_lifecycle := ep_lifecycle e; ep_tty := ep_tty e; ep_trust := ep_trust e |}.
Definition set_allow (allow : list NetRule -> list NetRule) (names : list NameRule -> list NameRule)
    (n : NetPolicy) : NetPolicy := {|
  np_mode := np_mode n; np_udp := np_udp n; np_bind_port_min := np_bind_port_min n;
  np_bind_allowed_ports := np_bind_allowed_ports n; np_proxy := np_proxy n;
  np_allow := allow (np_allow n); np_allow_names := names (np_allow_names n);
  np_udp_allow_names := np_udp_allow_names n; np_deny_invariant := np_deny_invariant n;
  np_deny_author := np_deny_author n; np_bpf_connect_allow := np_bpf_connect_allow n;
  np_bpf_connect_deny := np_bpf_connect_deny n; np_bpf_bind_allow := np_bpf_bind_allow n;
  np_bpf_bind_deny := np_bpf_bind_deny n |}.

(** [v.push(x)]. *)
Definition push {A} (x : A) (l : list A) : list A := l ++ [x].

Definition net_rule_of (host : bytes) (prefix_len port : Z) : NetRule :=
  {| nr_cidr := host; nr_prefix_len := prefix_len; nr_port_min := port; nr_port_max := port;
     nr_protocol := ProtoTcp |}.
Definition name_rule_of (host : bytes) (port : Z) : NameRule :=
  {| nn_name := host; nn_ports := [port]; nn_protocol := ProtoTcp |}.

Definition apply_net_proxy_allow (policy : SettledPolicy) (value : bytes) :
    result PatchError SettledPolicy :=
  match destination_parse value with
  | Err e => Err (BadDestination value e)
  | Ok dest =>
      Ok (set_effective (set_net
        match parse_ip (de_host dest) with
        | Some ip =>
            let prefix_len := match ip with V4 _ => 32 | V6 _ => 128 end in
            set_allow (push (net_rule_of (de_host dest) prefix_len (de_port dest))) id
        | None => set_allow id (push (name_rule_of (de_host dest) (de_port dest)))
        end) policy)
  end.

Definition apply_field (policy : SettledPolicy) (field value : bytes) :
    result PatchError SettledPolicy :=
  if bool_decide (field = F_NET) then apply_net_proxy_allow policy value
  else if bool_decide (field = F_READ) then Ok (set_effective (set_fs (push value) id) policy)
  else if bool_decide (field = F_WRITE) then Ok (set_effective (set_fs id (push value)) policy)
  else if bool_decide (field = F_ROOTFS) then Ok (set_leaves id (push value) id policy)
  else if bool_decide (field = F_ARGV) then Ok (set_leaves (push value) id id policy)
  else Err (NotMutable field).

(** ** Instantiation *)

Definition count_of (counts : list (bytes * Z)) (field : bytes) : Z :=
  match List.find (fun c => bool_decide (c.1 = field)) counts with Some c => c.2 | None => 0 end.
(** [*counts.entry(f).or_insert(0) = n]. *)
Definition set_count (counts : list (bytes * Z)) (field : bytes) (n : Z) : list (bytes * Z) :=
  (field, n) :: List.filter (fun c => negb (bool_decide (c.1 = field))) counts.

(** What a constraint makes of the value: a relative path goes under its root. *)
Definition applied_value (c : Constraint) (value : bytes) : bytes :=
  match c with
  | Relpath under => trim_end_matches (Z.eqb SLASH) under ++ [SLASH] ++ value
  | _ => value
  end.

Definition manifest_find (template : SettledPolicy) (field : bytes) : option Variant :=
  List.find (fun v => bool_decide (va_field v = field)) (sp_manifest template).

Definition patch_entry (template : SettledPolicy) (st : SettledPolicy * list (bytes * Z))
    (entry : PatchEntry) : result PatchError (SettledPolicy * list (bytes * Z)) :=
  let '(instance, counts) := st in
  match manifest_find template (pe_field entry) with
  | None => Err (OutOfManifest (pe_field entry))
  | Some variant =>
      match variant_resolve variant with
      | Err e => Err (Malformed e)
      | Ok constraint =>
          match constraint_admits constraint (pe_value entry) with
          | Err d => Err (Refused d)
          | Ok _ =>
              let count := Z.min u32_max (count_of counts (pe_field entry) + 1) in
              let cap :=
                if bool_decide (pe_field entry = F_ARGV) then None else max_entries constraint in
              if match cap with Some max => max <? count | None => false end
              then Err (EntryCap (pe_field entry) (default 0 cap))
              else
                instance ← apply_field instance (pe_field entry)
                             (applied_value constraint (pe_value entry));
                Ok (instance, set_count counts (pe_field entry) count)
          end
      end
  end.

Fixpoint patch_entries (template : SettledPolicy) (st : SettledPolicy * list (bytes * Z))
    (patch : list PatchEntry) : result PatchError (SettledPolicy * list (bytes * Z)) :=
  match patch with
  | [] => Ok st
  | entry :: patch => st ← patch_entry template st entry; patch_entries template st patch
  end.

Definition instantiate (template : SettledPolicy) (patch : list PatchEntry) :
    result PatchError SettledPolicy :=
  let start :=
    if existsb (fun e => bool_decide (pe_field e = F_ARGV)) patch
    then set_leaves (fun _ => []) id id template else template in
  '(instance, _) ← patch_entries template (start, []) patch;
  Ok (set_leaves id id (fun _ => []) instance).

(** * What an instantiation does *)

(** The constraint the manifest sets on a field. *)
Definition field_constraint (t : SettledPolicy) (field : bytes) : option Constraint :=
  match manifest_find t field with
  | Some v => match variant_resolve v with Ok c => Some c | Err _ => None end
  | None => None
  end.

(** The values a patch writes to a field, in order, and the destinations among them. *)
Definition entry_value (t : SettledPolicy) (e : PatchEntry) : bytes :=
  match field_constraint t (pe_field e) with
  | Some c => applied_value c (pe_value e)
  | None => pe_value e
  end.
Definition on_field (f : bytes) (patch : list PatchEntry) : list PatchEntry :=
  List.filter (fun e => bool_decide (pe_field e = f)) patch.
Definition values (t : SettledPolicy) (patch : list PatchEntry) (f : bytes) : list bytes :=
  map (entry_value t) (on_field f patch).
Definition rule_of (value : bytes) : option NetRule :=
  match destination_parse value with
  | Ok d => match parse_ip (de_host d) with
            | Some (V4 _) => Some (net_rule_of (de_host d) 32 (de_port d))
            | Some (V6 _) => Some (net_rule_of (de_host d) 128 (de_port d))
            | None => None
            end
  | Err _ => None
  end.
Definition name_of_value (value : bytes) : option NameRule :=
  match destination_parse value with
  | Ok d => match parse_ip (de_host d) with
            | Some _ => None
            | None => Some (name_rule_of (de_host d) (de_port d))
            end
  | Err _ => None
  end.

(** The instance: [start] with the patch's values appended to the five leaves. *)
Definition patched (t start : SettledPolicy) (patch : list PatchEntry) : SettledPolicy :=
  set_leaves (fun argv => argv ++ values t patch F_ARGV) (fun w => w ++ values t patch F_ROOTFS) id
    (set_effective (fun e =>
       set_net (set_allow (fun a => a ++ omap rule_of (values t patch F_NET))
                          (fun n => n ++ omap name_of_value (values t patch F_NET)))
         (set_fs (fun r => r ++ values t patch F_READ) (fun w => w ++ values t patch F_WRITE) e))
       start).

(** When a patch is accepted: each value is admitted by its field's constraint and applicable,
    and no field has more entries than its constraint allows. *)
Definition entry_admitted (t : SettledPolicy) (e : PatchEntry) : Prop :=
  exists c, field_constraint t (pe_field e) = Some c /\
    constraint_admits c (pe_value e) = Ok tt /\
    is_mutable_field (pe_field e) = true /\
    (pe_field e = F_NET -> exists d, destination_parse (entry_value t e) = Ok d).
Definition field_cap (t : SettledPolicy) (field : bytes) : option Z :=
  if bool_decide (field = F_ARGV) then None else field_constraint t field ≫= max_entries.
Definition within_cap (t : SettledPolicy) (patch : list PatchEntry) (e : PatchEntry) : Prop :=
  match field_cap t (pe_field e) with
  | Some max => blen (on_field (pe_field e) patch) <= max
  | None => True
  end.
Definition patch_admitted (t : SettledPolicy) (patch : list PatchEntry) : Prop :=
  Forall (entry_admitted t) patch /\ Forall (within_cap t patch) patch.

Section instantiate.
Context (t : SettledPolicy).

Lemma on_field_app f p q : on_field f (p ++ q) = on_field f p ++ on_field f q.
Proof. apply List.filter_app. Qed.

Lemma on_field_one f e : on_field f [e] = if bool_decide (pe_field e = f) then [e] else [].
Proof. unfold on_field. cbn. done. Qed.

Lemma values_snoc p e f :
  values t (p ++ [e]) f =
    values t p f ++ if bool_decide (pe_field e = f) then [entry_value t e] else [].
Proof.
  unfold values. rewrite on_field_app, map_app, on_field_one. by case_bool_decide.
Qed.

Lemma patched_nil start : patched t start [] = start.
Proof.
  unfold patched, values. cbn. unfold set_effective, set_leaves, set_net, set_fs, set_allow. cbn.
  rewrite !app_nil_r. by destruct start as [? ? ? ? [[] []] ? ? ? ? ? ? ? ? ? ? [] []].
Qed.

(** One entry's mutation extends the instance by that entry. *)
Lemma apply_field_patched start p e :
  apply_field (patched t start p) (pe_field e) (entry_value t e) =
    if is_mutable_field (pe_field e) then
      if bool_decide (pe_field e = F_NET) then
        match destination_parse (entry_value t e) with
        | Ok _ => Ok (patched t start (p ++ [e]))
        | Err x => Err (BadDestination (entry_value t e) x)
        end
      else Ok (patched t start (p ++ [e]))
    else Err (NotMutable (pe_field e)).
Proof.
  remember (patched t start (p ++ [e])) as q eqn:Eq. unfold patched in Eq.
  rewrite !values_snoc in Eq. unfold apply_field, is_mutable_field. cbn [existsb].
  destruct (bool_decide_reflect (pe_field e = F_NET)) as [E|]; cbn [orb].
  { rewrite ?E in Eq. cbn [bool_decide] in Eq. unfold apply_net_proxy_allow.
    destruct (destination_parse (entry_value t e)) as [d|] eqn:Ed; [|done].
    f_equal. subst q. unfold patched, set_effective, set_leaves, set_net, set_fs, push. cbn.
    rewrite !omap_app, !app_nil_r. cbn. unfold rule_of at 3, name_of_value at 3. rewrite Ed.
    destruct (parse_ip (de_host d)) as [[]|]; cbn;
    unfold set_allow; cbn; rewrite ?app_nil_r, <- ?app_assoc; done. }
  destruct (bool_decide_reflect (pe_field e = F_READ)) as [E|]; cbn [orb].
  { rewrite ?E in Eq. subst q. f_equal. unfold patched, set_effective, set_fs, push. cbn.
    by rewrite ?app_nil_r, <- ?app_assoc. }
  destruct (bool_decide_reflect (pe_field e = F_WRITE)) as [E|]; cbn [orb].
  { rewrite ?E in Eq. subst q. f_equal. unfold patched, set_effective, set_fs, push. cbn.
    by rewrite ?app_nil_r, <- ?app_assoc. }
  destruct (bool_decide_reflect (pe_field e = F_ROOTFS)) as [E|]; cbn [orb].
  { rewrite ?E in Eq. subst q. f_equal. unfold patched, set_leaves, push. cbn.
    by rewrite ?app_nil_r, <- ?app_assoc. }
  destruct (bool_decide_reflect (pe_field e = F_ARGV)) as [E|]; cbn [orb]; [|done].
  rewrite ?E in Eq. subst q. f_equal. unfold patched, set_leaves, push. cbn.
  by rewrite ?app_nil_r, <- ?app_assoc.
Qed.

Lemma count_of_set counts f n g :
  count_of (set_count counts f n) g = if bool_decide (f = g) then n else count_of counts g.
Proof.
  unfold count_of, set_count. cbn. case_bool_decide as E; [done|].
  induction counts as [|[k v] counts IH]; [done|]. cbn.
  destruct (bool_decide_reflect (k = f)) as [->|Hk]; cbn.
  - rewrite bool_decide_eq_false_2 by done. exact IH.
  - case_bool_decide; [done|]. exact IH.
Qed.

Lemma patch_entries_snoc st p e :
  patch_entries t st (p ++ [e]) = (st ← patch_entries t st p; patch_entry t st e).
Proof.
  revert st; induction p as [|x p IH]; intros st; cbn.
  - destruct (patch_entry t st e); done.
  - destruct (patch_entry t st x); cbn; [apply IH|done].
Qed.

Lemma within_cap_snoc p e :
  Forall (within_cap t (p ++ [e])) (p ++ [e]) <->
  Forall (within_cap t p) p /\ within_cap t (p ++ [e]) e.
Proof.
  rewrite Forall_app, Forall_singleton.
  split; intros [H He]; (split; [|done]); apply Forall_forall; intros x Hx;
    rewrite Forall_forall in H; specialize (H x Hx); unfold within_cap in H, He |- *;
    destruct (field_cap t (pe_field x)) as [m|] eqn:Ef; try done.
  - rewrite on_field_app, length_app in H. lia.
  - destruct (decide (pe_field e = pe_field x)) as [E|E]; [by rewrite E, Ef in He|].
    rewrite on_field_app, length_app, on_field_one, bool_decide_eq_false_2 by done. cbn. lia.
Qed.

Definition counts_ok (counts : list (bytes * Z)) (patch : list PatchEntry) : Prop :=
  forall f, count_of counts f = blen (on_field f patch).

Lemma counts_ok_snoc counts p e :
  counts_ok counts p ->
  counts_ok (set_count counts (pe_field e) (blen (on_field (pe_field e) (p ++ [e])))) (p ++ [e]).
Proof.
  intros Hc f. rewrite count_of_set. case_bool_decide as E; [by subst f|].
  rewrite Hc, on_field_app, on_field_one, bool_decide_eq_false_2 by done. by rewrite app_nil_r.
Qed.

(** One entry, after the entries [p]. *)
Lemma patch_entry_spec start counts p e :
  blen p < u32_max -> counts_ok counts p ->
  match patch_entry t (patched t start p, counts) e with
  | Ok (i, counts') =>
      (entry_admitted t e /\ within_cap t (p ++ [e]) e) /\ i = patched t start (p ++ [e]) /\
      counts_ok counts' (p ++ [e])
  | Err _ => ~ (entry_admitted t e /\ within_cap t (p ++ [e]) e)
  end.
Proof.
  intros Hl Hc. unfold patch_entry. pose proof (counts_ok_snoc counts p e Hc) as Hcs.
  assert (field_constraint t (pe_field e) = match manifest_find t (pe_field e) with
    | Some v => match variant_resolve v with Ok c => Some c | Err _ => None end
    | None => None end) as Hfc by done.
  destruct (manifest_find t (pe_field e)) as [v|]; [|intros [(c & Ec & _) _]; congruence].
  destruct (variant_resolve v) as [c|]; [|intros [(c & Ec & _) _]; congruence].
  destruct (constraint_admits c (pe_value e)) as [[]|] eqn:Ea;
    [|intros [(c' & Ec & Ea' & _) _]; congruence].
  assert (Z.min u32_max (count_of counts (pe_field e) + 1) = blen (on_field (pe_field e) (p ++ [e]))) as ->.
  { assert (length (on_field (pe_field e) p) <= length p)%nat by apply List.filter_length_le.
    rewrite Hc, on_field_app, on_field_one, bool_decide_eq_true_2 by done.
    rewrite length_app. cbn [length]. lia. }
  assert (entry_value t e = applied_value c (pe_value e)) as <- by (unfold entry_value; by rewrite Hfc).
  assert ((if bool_decide (pe_field e = F_ARGV) then None else max_entries c) =
    field_cap t (pe_field e)) as -> by (unfold field_cap; by rewrite Hfc).
  assert (match field_cap t (pe_field e) with
          | Some max => max <? blen (on_field (pe_field e) (p ++ [e])) | None => false end = false <->
          within_cap t (p ++ [e]) e) as Hcap.
  { unfold within_cap. destruct (field_cap t (pe_field e)); [apply Z.ltb_ge|done]. }
  destruct (match field_cap t (pe_field e) with Some max => _ | None => _ end).
  { intros [_ H%Hcap]. done. }
  rewrite apply_field_patched. destruct (is_mutable_field (pe_field e)) eqn:Em; cbn [mbind result_bind];
    [|intros [(c' & _ & _ & Em' & _) _]; congruence].
  case_bool_decide as En; [destruct (destination_parse (entry_value t e)) as [d|] eqn:Ed|];
    cbn [mbind result_bind].
  2: { intros [(c' & _ & _ & _ & Hd) _]. destruct (Hd En). congruence. }
  all: split_and!; try done; [|by apply Hcap]; exists c; split_and!; try done; by exists d.
Qed.

(** The loop, by the entries processed so far. *)
Lemma patch_entries_spec start patch :
  blen patch <= u32_max ->
  match patch_entries t (start, []) patch with
  | Ok (i, counts) =>
      patch_admitted t patch /\ i = patched t start patch /\ counts_ok counts patch
  | Err _ => ~ patch_admitted t patch
  end.
Proof.
  induction patch as [|e p IH] using rev_ind; intros Hl.
  { cbn. rewrite patched_nil. done. }
  rewrite length_app in Hl. cbn [length] in Hl. specialize (IH ltac:(lia)).
  rewrite patch_entries_snoc.
  assert (patch_admitted t (p ++ [e]) <->
    patch_admitted t p /\ entry_admitted t e /\ within_cap t (p ++ [e]) e) as Hiff.
  { unfold patch_admitted. rewrite within_cap_snoc, Forall_app, Forall_singleton. tauto. }
  destruct (patch_entries t (start, []) p) as [[i counts]|]; cbn [mbind result_bind]; [|tauto].
  destruct IH as (Hp & -> & Hc).
  pose proof (patch_entry_spec start counts p e ltac:(lia) Hc) as He.
  destruct (patch_entry t _ e) as [[i counts']|]; tauto.
Qed.
End instantiate.

(** The state the entries are applied to: the argument list is replaced, not extended. *)
Definition patch_start (t : SettledPolicy) (patch : list PatchEntry) : SettledPolicy :=
  if existsb (fun e => bool_decide (pe_field e = F_ARGV)) patch
  then set_leaves (fun _ => []) id id t else t.

Lemma instantiate_Ok t patch i :
  blen patch <= u32_max ->
  instantiate t patch = Ok i <->
  patch_admitted t patch /\ i = set_leaves id id (fun _ => []) (patched t (patch_start t patch) patch).
Proof.
  intros Hl. unfold instantiate. fold (patch_start t patch).
  pose proof (patch_entries_spec t (patch_start t patch) patch Hl) as H.
  destruct (patch_entries t _ patch) as [[j counts]|]; cbn [mbind result_bind].
  - destruct H as (Hp & -> & _). split; [by intros <-%(inj Ok)|by intros [_ ->]].
  - split; [done|]. by intros [? _].
Qed.

(** ** Relative paths *)

Lemma admit_components_Ok ss :
  admit_components ss = Ok tt ->
  Forall (fun s => s <> [] /\ s <> [DOT] /\ s <> [DOT; DOT]) ss.
Proof.
  induction ss as [|s ss IH]; cbn; [done|]. destruct s as [|b s]; cbn; [done|].
  destruct (bool_decide_reflect (b :: s = [DOT])); cbn; [done|].
  destruct (bool_decide_reflect (b :: s = [DOT; DOT])); cbn; [done|]. constructor; auto.
Qed.

Lemma relpath_body value :
  admit_relpath value = Ok tt ->
  body_components (split_on SLASH value) = map Normal (split_on SLASH value).
Proof.
  unfold admit_relpath. destruct (is_nil value); [done|]. destruct (starts_with _ _); [done|].
  intros H%admit_components_Ok. induction H as [|s ss (H1 & H2 & H3) _ IH]; [done|].
  rewrite body_components_cons, IH. unfold skip_seg, comp_of.
  rewrite !bool_decide_eq_false_2 by done. by destruct s.
Qed.

(** A value written through a [relpath] constraint, as a path. *)
Lemma relpath_components under value :
  under <> [] -> admit_relpath value = Ok tt ->
  components (applied_value (Relpath under) value) =
    components under ++ map Normal (split_on SLASH value).
Proof.
  intros Hu Hv. cbn [applied_value].
  change ([SLASH] ++ value) with (SLASH :: value). rewrite components_slash, relpath_body by done.
  by rewrite (components_trim_end under Hu).
Qed.

Lemma resolve_relpath v under : variant_resolve v = Ok (Relpath under) -> under <> [].
Proof.
  unfold variant_resolve. repeat (case_match; try done).
  - intros (? & _ & ?)%bind_Ok. done.
  - intros [= <-] E. rewrite E in *. done.
Qed.

(** ** Patterns *)

Lemma host_pattern_Ok host h :
  host_pattern host = Ok h ->
  match h with
  | Exact x => x = host
  | Suffix x => host = [STAR; DOT] ++ x /\ x <> []
  | Prefix x => host = x ++ [DOT; STAR] /\ x <> []
  end.
Proof.
  unfold host_pattern. destruct (_ =? 0)%nat; [by intros [= <-]|]. destruct (_ =? 1)%nat; [|done].
  destruct (strip_prefix [STAR; DOT] host) as [s|] eqn:Es.
  - apply strip_prefix_Some in Es. destruct s as [|b s]; cbn [is_nil orb]; [done|].
    destruct (has_byte STAR (b :: s)); [done|]. by intros [= <-].
  - destruct (strip_suffix [DOT; STAR] host) as [s|] eqn:Ep; [|done]. apply strip_suffix_Some in Ep.
    destruct s as [|b s]; cbn [is_nil orb]; [done|].
    destruct (has_byte STAR (b :: s)); [done|]. by intros [= <-].
Qed.

(** What each host shape matches, on label boundaries. *)
Definition host_shape (pat : HostPattern) (host : bytes) : Prop :=
  match pat with
  | Exact h => host = h
  | Suffix s => host = s \/ exists head, head <> [] /\ host = head ++ [DOT] ++ s
  | Prefix p => exists label, label <> [] /\ has_byte DOT label = false /\ host = p ++ [DOT] ++ label
  end.

Lemma matches_host_shape pat host : matches_host pat host = true <-> host_shape pat host.
Proof.
  destruct pat as [h|s|p]; cbn [matches_host host_shape].
  - rewrite bool_decide_eq_true. naive_solver.
  - rewrite orb_true_iff, bool_decide_eq_true. apply or_iff_compat_l.
    destruct (strip_suffix s host) as [head|] eqn:E.
    + apply strip_suffix_Some in E as ->. unfold ends_with.
      destruct (strip_suffix [DOT] head) as [r|] eqn:Er; cbn [is_none negb andb].
      * apply strip_suffix_Some in Er as ->. rewrite length_app, Z.ltb_lt. cbn [length].
        split; intros H.
        -- exists r. split; [by destruct r|]. by rewrite <- app_assoc.
        -- destruct H as (h & Hh & E). rewrite <- app_assoc in E.
           apply app_inv_tail in E as ->. destruct h; [done|]. cbn [length]. lia.
      * split; [done|]. intros (h & _ & E). rewrite app_assoc in E. apply app_inv_tail in E as ->.
        by rewrite (proj2 (strip_suffix_Some [DOT] (h ++ [DOT]) h)) in Er.
    + split; [done|]. intros (h & _ & ->). rewrite app_assoc in E.
      by rewrite (proj2 (strip_suffix_Some s ((h ++ [DOT]) ++ s) (h ++ [DOT]))) in E.
  - split.
    + destruct (strip_prefix p host) as [tail|] eqn:E; [|done]. apply strip_prefix_Some in E as ->.
      destruct (strip_prefix [DOT] tail) as [l|] eqn:El; [|done]. apply strip_prefix_Some in El as ->.
      intros [H1 H2]%andb_true_iff. exists l. apply negb_true_iff in H1, H2. by destruct l.
    + intros (l & Hl & Hd & ->). rewrite (proj2 (strip_prefix_Some p _ _)) by done.
      rewrite (proj2 (strip_prefix_Some [DOT] ([DOT] ++ l) l)) by done. rewrite Hd. by destruct l.
Qed.

Lemma dest_pattern_Ok pattern p :
  dest_pattern_parse pattern = Ok p ->
  exists host port, pattern = host ++ COLON :: port /\ parse_uint u16_max port = Some (dp_port p) /\
    host <> [] /\ dp_port p <> 0 /\ host_pattern host = Ok (dp_host p).
Proof.
  unfold dest_pattern_parse. destruct (rsplit_once COLON pattern) as [[host port]|] eqn:E; [|done].
  apply rsplit_once_Some in E as [-> _]. destruct (parse_uint u16_max port) as [n|] eqn:En; [|done].
  destruct (Z.eqb_spec n 0); [done|]. destruct host as [|b host]; [done|]. cbn [is_nil].
  intros (h & Hh & [= <-])%bind_Ok. exists (b :: host), port. done.
Qed.

Lemma dest_render_host p host : host_pattern host = Ok (dp_host p) ->
  dest_render p = host ++ COLON :: dec (dp_port p).
Proof.
  intros H%host_pattern_Ok. unfold dest_render.
  destruct (dp_host p); [by subst|by destruct H as [-> _]..].
Qed.

(** * Claims *)

(** C25: An instantiation succeeds exactly when every entry's field is opened by
    the template's manifest, its value is admitted by the constraint and can be
    applied to its leaf, and no field has more entries than its constraint allows
    (the argument list apart); and the instance is then the template with exactly
    those values written to the five registered leaves, in order, and the manifest
    cleared: no other field of the policy differs. *)
Theorem instantiate_exact t patch i :
  blen patch <= u32_max ->
  instantiate t patch = Ok i <->
  patch_admitted t patch /\
  i = set_leaves id id (fun _ => []) (patched t (patch_start t patch) patch).
Proof. apply instantiate_Ok. Qed.

(** A value written through a [relpath] constraint stays under the signed
    root: as a path it is the root's components followed by plain names only, so
    no spelling of the value (traversal, absolute, doubled or trailing separators)
    leaves the root. *)
Theorem relpath_stays_under t patch i e under :
  blen patch <= u32_max -> instantiate t patch = Ok i -> e ∈ patch ->
  field_constraint t (pe_field e) = Some (Relpath under) ->
  path_starts_with (entry_value t e) under = true /\
  components (entry_value t e) = components under ++ map Normal (split_on SLASH (pe_value e)).
Proof.
  intros Hl [[Hadm _] _]%instantiate_Ok He Hc; [|done].
  rewrite Forall_forall in Hadm. destruct (Hadm e He) as (c & Ec & Ha & _).
  rewrite Hc in Ec. apply (inj Some) in Ec as <-. cbn in Ha. unfold entry_value. rewrite Hc.
  assert (under <> []) as Hu.
  { unfold field_constraint in Hc. destruct (manifest_find t _) as [v|]; [|done].
    destruct (variant_resolve v) eqn:Ev; [|done]. apply (resolve_relpath v). by simplify_eq. }
  rewrite path_starts_with_prefix, relpath_components by done. split; [|done]. by apply prefix_app_r.
Qed.

(** A destination pattern means what its text says: a parsed pattern matches a
    destination exactly when the ports are equal and the host is the exact name,
    or the apex or a subdomain on a label boundary ([*.suffix]), or the prefix and
    one more dot-free label ([prefix.*]).  Rendering a parsed pattern and parsing it
    again gives the same pattern. *)
Theorem dest_pattern_exact pattern p d :
  dest_pattern_parse pattern = Ok p ->
  (dest_matches p d = true <-> dp_port p = de_port d /\ host_shape (dp_host p) (de_host d)) /\
  dest_pattern_parse (dest_render p) = Ok p.
Proof.
  intros (host & port & -> & Hp & Hh & Hz & Hhost)%dest_pattern_Ok. split.
  - unfold dest_matches. by rewrite andb_true_iff, Z.eqb_eq, matches_host_shape.
  - rewrite (dest_render_host p host) by done. unfold dest_pattern_parse.
    apply parse_uint_bound in Hp; [|done].
    rewrite (proj2 (rsplit_once_Some COLON _ host (dec (dp_port p)))).
    + rewrite parse_uint_dec by (done || lia). rewrite (proj2 (Z.eqb_neq _ _)) by done.
      destruct host; [done|]. cbn [is_nil]. rewrite Hhost. cbn. by destruct p.
    + split; [done|]. unfold has_byte. apply not_true_iff_false. intros (b & Hb & Eb)%existsb_exists.
      apply Z.eqb_eq in Eb as <-. pose proof (dec_digits_ascii 20 (dp_port p) ltac:(lia)) as Hd.
      rewrite Forall_forall in Hd. apply list_elem_of_In in Hb. by apply Hd in Hb.
Qed.

(** ** A template *)

Definition sample_variant (field : string) (pattern : list bytes) (under reason : bytes) : Variant := {|
  va_field := ascii_bytes field; va_one_of := []; va_pool := []; va_pool_max := 0;
  va_pattern := pattern; va_relpath_under := under; va_freeform := negb (is_nil reason);
  va_reason := reason |}.
Definition sample_template : SettledPolicy :=
  set_leaves id id (fun _ =>
    [ sample_variant "fs.write" [] (ascii_bytes "/work/") [];
      sample_variant "net.proxy.allow" [ascii_bytes "*.github.com:443"; ascii_bytes "10.0.0.*:22"] [] [];
      sample_variant "workload.argv" [] [] (ascii_bytes "tool runner") ]) usr_policy.
Definition sample_entry (field value : string) : PatchEntry :=
  {| pe_field := ascii_bytes field; pe_value := ascii_bytes value |}.
Definition sample_patch : list PatchEntry :=
  [ sample_entry "workload.argv" "git"; sample_entry "fs.write" "out/a";
    sample_entry "net.proxy.allow" "api.github.com:443"; sample_entry "workload.argv" "fetch";
    sample_entry "net.proxy.allow" "10.0.0.7:22" ].
Definition sample_instance : SettledPolicy :=
  match instantiate sample_template sample_patch with Ok i => i | Err _ => sample_template end.

Lemma instantiate_exact_witness :
  patch_admitted sample_template sample_patch /\
  wl_argv (sp_workload sample_instance) = [ascii_bytes "git"; ascii_bytes "fetch"] /\
  fs_write (ep_fs (sp_effective_policy sample_instance)) =
    [ascii_bytes "/home/alice/work"; ascii_bytes "/work/out/a"].
Proof.
  split; [|split; vm_compute; reflexivity].
  apply (instantiate_exact sample_template sample_patch sample_instance); [vm_compute; discriminate|].
  vm_compute; reflexivity.
Defined.

Lemma relpath_stays_under_witness :
  path_starts_with (ascii_bytes "/work/out/a") (ascii_bytes "/work/") = true.
Proof.
  apply (relpath_stays_under sample_template sample_patch sample_instance
           (sample_entry "fs.write" "out/a") (ascii_bytes "/work/")).
  - vm_compute; discriminate.
  - vm_compute; reflexivity.
  - right. left.
  - vm_compute; reflexivity.
Defined.

Lemma dest_pattern_exact_witness :
  dest_matches {| dp_host := Suffix (ascii_bytes "github.com"); dp_port := 443 |}
    {| de_host := ascii_bytes "api.github.com"; de_port := 443 |} = true /\
  dest_matches {| dp_host := Suffix (ascii_bytes "github.com"); dp_port := 443 |}
    {| de_host := ascii_bytes "evilgithub.com"; de_port := 443 |} = false.
Proof.
  split; [|vm_compute; reflexivity].
  apply (dest_pattern_exact (ascii_bytes "*.github.com:443")); [vm_compute; reflexivity|].
  split; [done|]. right. exists (ascii_bytes "api"). done.
Defined.
