(* ===== verification/B64.v ===== *)
(** Base64 ([kennel-lib-policy/src/b64.rs]), the encoding of signatures and keys.

    The 32-bit accumulator is modelled with its wrap-around.  The round trip is
    proved by reading both loops as regrouping the digits of one number: what has
    been written, followed by the pending low bits, is what has been read. *)

From S2P Require Import Prelude Bytes Str.

(** ** The alphabet *)

Definition value_of (c : Z) : option Z :=
  if (65 <=? c) && (c <=? 90) then Some (c - 65)
  else if (97 <=? c) && (c <=? 122) then Some (c - 97 + 26)
  else if (48 <=? c) && (c <=? 57) then Some (c - 48 + 52)
  else if c =? 43 then Some 62
  else if c =? 47 then Some 63
  else None.

Definition char_of (v : Z) : Z :=
  if v <=? 25 then 65 + v
  else if v <=? 51 then 97 + (v - 26)
  else if v <=? 61 then 48 + (v - 52)
  else if v =? 62 then 43
  else 47.

Definition wrap32 (v : Z) : Z := v mod 2 ^ 32.

(** ** Decoding *)

(** The loop body's output for one alphabet character: the new state and the byte, if any. *)
Definition decode_step (acc nbits v : Z) : Z * Z * bytes :=
  let acc := Z.lor (wrap32 (Z.shiftl acc 6)) v in
  let nbits := nbits + 6 in
  if 8 <=? nbits
  then (acc, nbits - 8, [Z.land (Z.shiftr acc (nbits - 8)) 255])
  else (acc, nbits, []).

Fixpoint decode_loop (acc nbits : Z) (input : bytes) : option bytes :=
  match input with
  | [] => Some []
  | c :: input =>
      if c =? 61 then decode_loop acc nbits input
      else
        v ← value_of c;
        let '(acc, nbits, out) := decode_step acc nbits v in
        rest ← decode_loop acc nbits input; Some (out ++ rest)
  end.
Definition b64_decode (input : bytes) : option bytes := decode_loop 0 0 input.

(** ** Encoding *)

(** [while nbits >= 6]: [fuel] bounds the iterations (two are enough, [nbits] is under 14). *)
Fixpoint drain (fuel : nat) (acc nbits : Z) : list Z * Z :=
  match fuel with
  | O => ([], nbits)
  | S fuel =>
      if 6 <=? nbits then
        let '(vs, n) := drain fuel acc (nbits - 6) in
        (Z.land (Z.shiftr acc (nbits - 6)) 63 :: vs, n)
      else ([], nbits)
  end.

(** The six-bit values the loop emits, with the state it ends in. *)
Fixpoint encode_loop (acc nbits : Z) (input : bytes) : list Z * Z * Z :=
  match input with
  | [] => ([], acc, nbits)
  | b :: input =>
      let acc := Z.lor (wrap32 (Z.shiftl acc 8)) b in
      let '(vs, nbits) := drain 2 acc (nbits + 8) in
      let '(rest, acc, nbits) := encode_loop acc nbits input in
      (vs ++ rest, acc, nbits)
  end.
Definition encode_values (input : bytes) : list Z :=
  let '(vs, acc, nbits) := encode_loop 0 0 input in
  vs ++ if 0 <? nbits then [Z.land (wrap32 (Z.shiftl acc (6 - nbits))) 63] else [].

(** Pad to a multiple of four characters. *)
Definition b64_pad (out : bytes) : bytes := out ++ replicate ((4 - length out mod 4) mod 4) 61.
Definition b64_encode (input : bytes) : bytes := b64_pad (map char_of (encode_values input)).

(** * The round trip *)

Definition digit (v : Z) : Prop := 0 <= v < 64.

(** The number a list of base-[2^w] digits spells. *)
Definition base_val (w : Z) (ds : list Z) : Z := fold_left (fun n d => n * 2 ^ w + d) ds 0.

Lemma fold_base_val w n ds : 0 <= w ->
  fold_left (fun n d => n * 2 ^ w + d) ds n = n * 2 ^ (w * blen ds) + base_val w ds.
Proof.
  intros Hw. unfold base_val. revert n; induction ds as [|d ds IH]; intros n; cbn [fold_left length].
  - rewrite Z.mul_0_r. lia.
  - rewrite IH, (IH (0 * _ + d)). replace (w * Z.of_nat (S (length ds))) with (w + w * blen ds) by lia.
    rewrite Z.pow_add_r by lia. ring.
Qed.

Lemma base_val_app w ds es : 0 <= w ->
  base_val w (ds ++ es) = base_val w ds * 2 ^ (w * blen es) + base_val w es.
Proof. intros Hw. unfold base_val at 1. rewrite fold_left_app. by apply fold_base_val. Qed.

Lemma base_val_be bs : base_val 8 bs = be_val bs.
Proof.
  induction bs as [|b bs IH]; [done|]. change (b :: bs) with ([b] ++ bs).
  rewrite base_val_app, IH by done. cbn [app]. rewrite be_val_cons. cbn [base_val fold_left].
  unfold base_val. cbn [fold_left]. rewrite Z.pow_mul_r by lia. done.
Qed.

Lemma char_value v : digit v -> value_of (char_of v) = Some v /\ char_of v <> 61.
Proof.
  intros Hv. unfold digit in Hv.
  assert (forallb (fun v => bool_decide (value_of (char_of v) = Some v /\ char_of v <> 61))
            (map Z.of_nat (seq 0 64)) = true) as H by by vm_compute.
  rewrite forallb_forall in H. apply (bool_decide_eq_true_1 _), H, in_map_iff.
  exists (Z.to_nat v). split; [lia|]. apply in_seq. lia.
Qed.

Lemma lor_low x w d : 0 <= w -> 0 <= d < 2 ^ w -> Z.lor (x * 2 ^ w) d = x * 2 ^ w + d.
Proof.
  intros Hw Hd. symmetry. apply Z.add_nocarry_lor. apply Z.bits_inj'. intros k Hk.
  rewrite Z.land_spec, Z.bits_0, <- Z.shiftl_mul_pow2 by lia.
  destruct (Z.lt_ge_cases k w) as [H|H]; [by rewrite Z.shiftl_spec_low|].
  rewrite <- (Z.mod_small d (2 ^ w)) by lia. rewrite (Z.mod_pow2_bits_high d) by lia. apply andb_false_r.
Qed.

(** One shift-in: the low [n + w] bits of the new accumulator. *)
Lemma shift_in acc n w d :
  0 <= n -> 0 <= w -> n + w <= 32 -> 0 <= d < 2 ^ w ->
  Z.lor (wrap32 (Z.shiftl acc w)) d mod 2 ^ (n + w) = (acc mod 2 ^ n) * 2 ^ w + d.
Proof.
  intros Hn Hw Hs Hd. unfold wrap32.
  assert (Z.shiftl acc w mod 2 ^ 32 = (acc mod 2 ^ (32 - w)) * 2 ^ w) as ->.
  { rewrite Z.shiftl_mul_pow2 by lia. replace 32 with (32 - w + w) at 1 by lia.
    rewrite Z.pow_add_r by lia. apply Zmult_mod_distr_r. }
  rewrite lor_low by done. rewrite Z.pow_add_r by lia.
  assert ((acc mod 2 ^ (32 - w)) mod 2 ^ n = acc mod 2 ^ n) as Hm.
  { apply Z.mod_mod_divide. exists (2 ^ (32 - w - n)).
    rewrite <- Z.pow_add_r by lia. f_equal. lia. }
  rewrite <- Hm. set (x := acc mod 2 ^ (32 - w)). symmetry.
  pose proof (Z.div_mod x (2 ^ n) ltac:(lia)) as Hx. pose proof (Z.mod_pos_bound x (2 ^ n) ltac:(lia)).
  apply (Z.mod_unique_pos _ _ (x / 2 ^ n)); nia.
Qed.

(** Taking the top [k] of the low [n + k] bits splits them off the number. *)
Lemma take_top acc n k :
  0 <= n -> 0 <= k ->
  acc mod 2 ^ (n + k) = Z.land (Z.shiftr acc n) (2 ^ k - 1) * 2 ^ n + acc mod 2 ^ n.
Proof.
  intros Hn Hk. replace (2 ^ k - 1) with (Z.ones k) by (rewrite Z.ones_equiv; lia).
  rewrite Z.land_ones, Z.shiftr_div_pow2, Z.pow_add_r, Z.rem_mul_r by lia. lia.
Qed.

Lemma land_digit x : digit (Z.land x 63).
Proof.
  replace 63 with (Z.ones 6) by done. rewrite Z.land_ones by lia. unfold digit.
  pose proof (Z.mod_pos_bound x (2 ^ 6)). lia.
Qed.

Lemma drain_spec fuel acc n vs n' :
  0 <= n -> drain fuel acc n = (vs, n') -> n < 6 * Z.of_nat fuel + 6 ->
  Forall digit vs /\ 0 <= n' < 6 /\ n = 6 * blen vs + n' /\
  acc mod 2 ^ n = base_val 6 vs * 2 ^ n' + acc mod 2 ^ n'.
Proof.
  revert n vs; induction fuel as [|fuel IH]; intros n vs Hn; cbn [drain].
  { intros [= <- <-] Hf. cbn. split_and!; [done|lia..]. }
  destruct (Z.leb_spec 6 n) as [H6|H6]; [|intros [= <- <-] _; cbn; split_and!; [done|lia..]].
  destruct (drain fuel acc (n - 6)) as [ws m] eqn:E. intros [= <- <-] Hf.
  apply IH in E as (Hd & Hm & Hl & Hv); [|lia..]. split_and!; [|lia|lia| |].
  - constructor; [apply land_digit|done].
  - cbn [length]. lia.
  - replace n with (n - 6 + 6) at 1 by lia. rewrite take_top by lia. rewrite Hv.
    change (2 ^ 6 - 1) with 63. set (x := Z.land _ 63). change (x :: ws) with ([x] ++ ws).
    rewrite base_val_app by lia. unfold base_val at 2. cbn [fold_left].
    replace (n - 6) with (6 * blen ws + m) by lia. rewrite Z.pow_add_r by lia. ring.
Qed.

Lemma encode_loop_spec acc n input vs acc' n' :
  bytes_ok input -> 0 <= n < 6 -> encode_loop acc n input = (vs, acc', n') ->
  Forall digit vs /\ 0 <= n' < 6 /\ n + 8 * blen input = 6 * blen vs + n' /\
  (acc mod 2 ^ n) * 2 ^ (8 * blen input) + base_val 8 input =
    base_val 6 vs * 2 ^ n' + acc' mod 2 ^ n'.
Proof.
  intros Hi. revert acc n vs; induction Hi as [|b input Hb _ IH]; intros acc n vs Hn; cbn [encode_loop].
  { intros [= <- <- <-]. cbn [length]. split_and!; [done|lia..|]. cbn. lia. }
  set (acc1 := Z.lor _ b). destruct (drain 2 acc1 (n + 8)) as [ws n1] eqn:Ed.
  destruct (encode_loop acc1 n1 input) as [[rest acc2] n2] eqn:El. intros [= <- <- <-].
  apply drain_spec in Ed as (Hd & Hn1 & Hl & Hv); [|lia..].
  apply IH in El as (Hd2 & Hn2 & Hl2 & Hv2); [|lia].
  unfold byte_ok in Hb. unfold acc1 in Hv at 1. rewrite shift_in in Hv by lia.
  split_and!; [by apply Forall_app|lia|lia|rewrite length_app; cbn [length]; lia|].
  rewrite base_val_app, Z.mul_add_distr_r, <- Z.add_assoc by lia.
  change (b :: input) with ([b] ++ input). rewrite base_val_app by lia.
  unfold base_val at 1. cbn [fold_left].
  assert (2 ^ (6 * blen rest) * 2 ^ n2 = 2 ^ n1 * 2 ^ (8 * blen input)) as Hp.
  { rewrite <- !Z.pow_add_r by lia. f_equal. lia. }
  replace (2 ^ (8 * blen ([b] ++ input))) with (2 ^ 8 * 2 ^ (8 * blen input))
    by (rewrite <- Z.pow_add_r by lia; f_equal; cbn [length app]; lia).
  rewrite <- Hv2, <- Z.mul_assoc, Hp. set (P := 2 ^ (8 * blen input)).
  transitivity ((acc mod 2 ^ n * 2 ^ 8 + b) * P + base_val 8 input); [ring|]. rewrite Hv. ring.
Qed.

(** The values spell the input, padded with zero bits to a whole digit. *)
Lemma encode_values_spec input :
  bytes_ok input ->
  exists k, 0 <= k < 6 /\ Forall digit (encode_values input) /\
    6 * blen (encode_values input) = 8 * blen input + k /\
    base_val 6 (encode_values input) = base_val 8 input * 2 ^ k.
Proof.
  intros Hi. unfold encode_values. destruct (encode_loop 0 0 input) as [[vs acc] n] eqn:E.
  apply encode_loop_spec in E as (Hd & Hn & Hl & Hv); [|done|lia].
  rewrite Z.mod_0_l, Z.mul_0_l, Z.add_0_l in Hv by done.
  destruct (Z.ltb_spec 0 n) as [H0|H0].
  - exists (6 - n). split_and!; [lia|lia|apply Forall_app; split; [done|]| |].
    + apply Forall_singleton, land_digit.
    + rewrite length_app. cbn [length]. lia.
    + rewrite base_val_app by lia. unfold base_val at 2. cbn [fold_left length].
      replace 63 with (Z.ones 6) by done. rewrite Z.land_ones by lia.
      pose proof (shift_in acc n (6 - n) 0 ltac:(lia) ltac:(lia) ltac:(lia) ltac:(lia)) as Hs.
      rewrite Z.lor_0_r in Hs. replace (n + (6 - n)) with 6 in Hs by lia. rewrite Hs, Hv.
      replace (6 * Z.of_nat 1) with (n + (6 - n)) by lia. rewrite Z.pow_add_r by lia. ring.
  - assert (n = 0) as -> by lia. exists 0. rewrite app_nil_r.
    rewrite Z.mod_1_r in Hv. split_and!; [lia|lia|done|lia|lia].
Qed.

(** Decoding the characters of a list of values, then padding. *)
Lemma decode_loop_spec acc n vs pad :
  Forall digit vs -> 0 <= n < 8 ->
  exists out n', decode_loop acc n (map char_of vs ++ replicate pad 61) = Some out /\
    bytes_ok out /\ 0 <= n' < 8 /\ n + 6 * blen vs = 8 * blen out + n' /\
    exists r, 0 <= r < 2 ^ n' /\
      (acc mod 2 ^ n) * 2 ^ (6 * blen vs) + base_val 6 vs = base_val 8 out * 2 ^ n' + r.
Proof.
  intros Hv. revert acc n; induction Hv as [|v vs Hd _ IH]; intros acc n Hn.
  { exists [], n. split; [induction pad; [done|exact IHpad]|]. cbn [length base_val fold_left].
    split_and!; [by constructor|lia..|]. exists (acc mod 2 ^ n).
    pose proof (Z.mod_pos_bound acc (2 ^ n) ltac:(lia)). unfold base_val. cbn. lia. }
  destruct (char_value v Hd) as [Hc H61]. cbn [map app decode_loop].
  rewrite (proj2 (Z.eqb_neq _ _)) by done. rewrite Hc. cbn [mbind option_bind]. unfold decode_step.
  set (acc1 := Z.lor _ v). unfold digit in Hd.
  assert (acc1 mod 2 ^ (n + 6) = (acc mod 2 ^ n) * 2 ^ 6 + v) as Ha
    by (unfold acc1; apply shift_in; lia).
  assert (forall m, m * 2 ^ (6 * blen (v :: vs)) + base_val 6 (v :: vs) =
    (m * 2 ^ 6 + v) * 2 ^ (6 * blen vs) + base_val 6 vs) as Hb.
  { intros m. change (v :: vs) with ([v] ++ vs). rewrite base_val_app by lia.
    unfold base_val at 1. cbn [fold_left].
    replace (6 * blen ([v] ++ vs)) with (6 + 6 * blen vs) by (cbn [length app]; lia).
    rewrite Z.pow_add_r by lia. ring. }
  rewrite Hb, <- Ha. cbn [length]. destruct (Z.leb_spec 8 (n + 6)) as [H8|H8].
  - destruct (IH acc1 (n + 6 - 8)) as (out & n' & -> & Hok & Hn' & Hl & r & Hr & Hval); [lia|].
    set (x := Z.land _ 255). exists (x :: out), n'. split; [done|]. cbn [length].
    assert (byte_ok x) as Hx.
    { assert (x = Z.shiftr acc1 (n + 6 - 8) mod 2 ^ 8) as -> by by rewrite <- Z.land_ones by lia.
      unfold byte_ok. pose proof (Z.mod_pos_bound (Z.shiftr acc1 (n + 6 - 8)) (2 ^ 8)). lia. }
    split_and!; [by constructor|lia..|]. exists r. split; [done|].
    replace (n + 6) with (n + 6 - 8 + 8) at 1 by lia. rewrite take_top by lia.
    change (2 ^ 8 - 1) with 255. fold x. change (x :: out) with ([x] ++ out).
    rewrite base_val_app by lia. unfold base_val at 2. cbn [fold_left].
    transitivity (x * (2 ^ (n + 6 - 8) * 2 ^ (6 * blen vs)) + (base_val 8 out * 2 ^ n' + r)).
    { rewrite <- Hval. ring. }
    rewrite <- Z.pow_add_r by lia. replace (n + 6 - 8 + 6 * blen vs) with (8 * blen out + n') by lia.
    rewrite Z.pow_add_r by lia. ring.
  - destruct (IH acc1 (n + 6)) as (out & n' & -> & Hok & Hn' & Hl & r & Hr & Hval); [lia|].
    exists out, n'. split; [done|]. split_and!; [done|lia..|]. by exists r.
Qed.

(** Base64 loses nothing: every byte string decodes back from its encoding. *)
Lemma b64_decode_encode bs : bytes_ok bs -> b64_decode (b64_encode bs) = Some bs.
Proof.
  intros Hb. destruct (encode_values_spec bs Hb) as (k & Hk & Hd & Hl & Hv).
  unfold b64_decode, b64_encode, b64_pad.
  destruct (decode_loop_spec 0 0 (encode_values bs)
    ((4 - length (map char_of (encode_values bs)) mod 4) mod 4) Hd)
    as (out & n' & -> & Hok & Hn' & Hlen & r & Hr & Hval); [lia|].
  assert (n' = k /\ length out = length bs) as [-> Hlo] by lia.
  f_equal. apply be_val_inj; [done..|]. rewrite <- !base_val_be.
  rewrite Z.mod_0_l, Z.mul_0_l, Z.add_0_l, Hv in Hval by done.
  assert (0 < 2 ^ k) by lia. nia.
Qed.

Lemma char_of_alphabet v : digit v -> 43 <= char_of v <= 122 /\ char_of v <> 45.
Proof. intros Hv. unfold digit in Hv. unfold char_of. repeat case_match; zbool; lia. Qed.

(** An encoding is printable and has none of the bytes an armour uses. *)
Lemma b64_encode_alphabet bs :
  bytes_ok bs -> Forall (fun c => 43 <= c <= 122 /\ c <> 45) (b64_encode bs).
Proof.
  intros Hb. destruct (encode_values_spec bs Hb) as (k & _ & Hd & _).
  unfold b64_encode, b64_pad. apply Forall_app. split; [|by apply Forall_replicate].
  induction Hd as [|v vs Hv _ IH]; cbn [map]; [done|].
  constructor; [|done]. by apply char_of_alphabet.
Qed.
