(* ===== verification/Verify.v ===== *)
(** The trust gate on settled policies ([kennel-lib-policy/src/lib.rs], [invariant.rs], [spawn.rs]).

    A settled artefact is parsed, version-checked, signature-checked over its
    canonical form and re-checked against the framework invariants before it is
    enforced.  TOML parsing and serialisation are another crate: the class [Toml].

    Theorems: exactly which policies pass the invariants and the gate; that a
    patched instance need not pass them again. *)

From S2P Require Import Prelude Bytes Str IpText Plan Settled Paths Patch B64 Sshsig PlanBuild.

(** ** The framework invariants *)

Definition normalize_grant (entry : bytes) : bytes := strip_glob entry.
Definition normalize_persist (entry : bytes) : bytes :=
  if starts_with (ascii_bytes "~") entry || starts_with [SLASH] entry
  then normalize_grant entry
  else ascii_bytes "~/" ++ normalize_grant entry.

(** [out.pop()] is [removelast]. *)
Definition clean_step (out : list bytes) (c : bytes) : list bytes :=
  if is_nil c || bool_decide (c = [DOT]) then out
  else if bool_decide (c = [DOT; DOT]) then removelast out
  else out ++ [c].
Definition clean_components (p : bytes) : list bytes := fold_left clean_step (split_on SLASH p) [].

Definition paths_intersect (a b : bytes) : bool :=
  forallb (fun xy => bool_decide (xy.1 = xy.2)) (zip (clean_components a) (clean_components b)).

Inductive Violation : Type :=
  | NoNewPrivs | DenySetuid | DenySetgid | DenySetcap | DenyWritable | HomeShadow | MetadataDeny
  | RedirectWriteSet (source path writable : bytes).

Definition METADATA_IP : bytes := ascii_bytes "169.254.169.254".

Definition writable_surface (fs : FsPolicy) : list bytes :=
  map normalize_grant (fs_write fs ++ fs_exclusive fs) ++ map normalize_persist (fs_home_persist fs).

(** [validate]: every violation, in order. *)
Definition violations (policy : SettledPolicy) : list Violation :=
  let ep := sp_effective_policy policy in
  let when (b : bool) v := if b then [v] else [] in
  when (negb (cap_no_new_privs (ep_cap ep))) NoNewPrivs ++
  when (negb (ex_deny_setuid (ep_exec ep))) DenySetuid ++
  when (negb (ex_deny_setgid (ep_exec ep))) DenySetgid ++
  when (negb (ex_deny_setcap (ep_exec ep))) DenySetcap ++
  when (negb (ex_deny_writable (ep_exec ep))) DenyWritable ++
  when (negb (fs_home_shadow (ep_fs ep))) HomeShadow ++
  when (negb (existsb (fun r => bool_decide (nr_cidr r = METADATA_IP))
                (np_deny_invariant (ep_net ep)))) MetadataDeny ++
  flat_map (fun r =>
    flat_map (fun w => when (paths_intersect (rd_source r) w)
                         (RedirectWriteSet (rd_source r) (rd_path r) w))
      (writable_surface (ep_fs ep)))
    (fs_redirect (ep_fs ep)).
Definition validate (policy : SettledPolicy) : result (list Violation) unit :=
  let v := violations policy in if is_nil v then Ok tt else Err v.

(** ** Spawn eligibility *)

Inductive Ineligible : Type := CarriesSpawn | NoTtl | NoCeiling (key : bytes).
Definition REQUIRED_CEILINGS : list bytes := [ascii_bytes "as"; ascii_bytes "nproc"; ascii_bytes "cpu"].

Fixpoint check_ceilings (limits : list (bytes * bytes)) (keys : list bytes) : result Ineligible unit :=
  match keys with
  | [] => Ok tt
  | key :: keys =>
      if existsb (fun l => bool_decide (l.1 = key)) limits then check_ceilings limits keys
      else Err (NoCeiling key)
  end.
Definition spawn_eligible (template : SettledPolicy) : result Ineligible unit :=
  if negb (is_none (sp_spawn template)) then Err CarriesSpawn
  else if is_none (lc_ttl_seconds (ep_lifecycle (sp_effective_policy template))) then Err NoTtl
  else check_ceilings (ul_limits (sp_ulimits template)) REQUIRED_CEILINGS.

(** ** The gate *)

Record SignedSettledPolicy : Type := { sd_signature : SignatureEnvelope; sd_policy : SettledPolicy }.

Inductive PolicyError : Type :=
  | PeParse
  | PeCanonical
  | PeUnsupportedSchemaVersion (found max : Z)
  | PeObsoleteSchemaVersion (found min : Z)
  | PeSignature (e : SignatureError)
  | PeInvariants (vs : list Violation)
  | PePinMismatch
  | PeIneligible (e : Ineligible)
  | PePatch (e : PatchError).

Class Toml : Type := {
  toml_parse : bytes -> option SignedSettledPolicy;
  toml_body : SettledPolicy -> option bytes;
  toml_document : SignedSettledPolicy -> option bytes;
}.
(** A document reads back as what was written. *)
Definition toml_reads_back {L : Toml} (d : SignedSettledPolicy) : Prop :=
  forall bs, toml_document d = Some bs -> toml_parse bs = Some d.

Definition SETTLED_SCHEMA_VERSION : Z := 5.
Definition MIN_SETTLED_SCHEMA_VERSION : Z := 3.
Definition check_schema_version (version : Z) : result PolicyError unit :=
  if SETTLED_SCHEMA_VERSION <? version
  then Err (PeUnsupportedSchemaVersion version SETTLED_SCHEMA_VERSION)
  else if version <? MIN_SETTLED_SCHEMA_VERSION
  then Err (PeObsoleteSchemaVersion version MIN_SETTLED_SCHEMA_VERSION)
  else Ok tt.

(** [map_err]. *)
Definition map_err {E F A} (f : E -> F) (r : result E A) : result F A :=
  match r with Ok a => Ok a | Err e => Err (f e) end.

Section gate.
Context {C : Crypto} {L : Toml}.

Definition canonical_bytes (policy : SettledPolicy) : result PolicyError bytes :=
  ok_or PeCanonical (toml_body policy).

Definition verify_doc (doc : SignedSettledPolicy) (keys : KeySet) : result PolicyError SettledPolicy :=
  _ ← check_schema_version (sp_settled_schema_version (sd_policy doc));
  canonical ← canonical_bytes (sd_policy doc);
  _ ← map_err PeSignature (verify_signature canonical (sd_signature doc) keys);
  _ ← map_err PeInvariants (validate (sd_policy doc));
  Ok (sd_policy doc).

Definition verify_settled (bs : bytes) (keys : KeySet) : result PolicyError SettledPolicy :=
  doc ← ok_or PeParse (toml_parse bs); verify_doc doc keys.
Definition verify_settled_signed (bs : bytes) (keys : KeySet) :
    result PolicyError (SettledPolicy * bytes) :=
  doc ← ok_or PeParse (toml_parse bs);
  policy ← verify_doc doc keys; Ok (policy, se_key_id (sd_signature doc)).
Definition verify_pinned (bs : bytes) (keys : KeySet) (expected_key_id expected_signature : bytes) :
    result PolicyError SettledPolicy :=
  doc ← ok_or PeParse (toml_parse bs);
  if negb (bool_decide (se_key_id (sd_signature doc) = expected_key_id)) ||
     negb (bool_decide (se_signature (sd_signature doc) = expected_signature))
  then Err PePinMismatch else verify_doc doc keys.

Definition parse_signed_settled_unverified (bs : bytes) : result PolicyError SignedSettledPolicy :=
  doc ← ok_or PeParse (toml_parse bs);
  _ ← check_schema_version (sp_settled_schema_version (sd_policy doc)); Ok doc.

Definition sign_settled (policy : SettledPolicy) (key : SigningKey) :
    result PolicyError SignedSettledPolicy :=
  canonical ← canonical_bytes policy;
  Ok {| sd_signature := sign_envelope key canonical; sd_policy := policy |}.
Definition to_bytes (doc : SignedSettledPolicy) : result PolicyError bytes :=
  ok_or PeCanonical (toml_document doc).
End gate.

Lemma map_err_Ok {E F A} (f : E -> F) (r : result E A) a : map_err f r = Ok a <-> r = Ok a.
Proof. destruct r; cbn; [|done]. split; by intros <-%(inj Ok). Qed.

(** * The invariants *)

(** Two cleaned paths are comparable: one is an ancestor of the other. *)
Lemma zip_all_prefix (xs ys : list bytes) :
  forallb (fun xy => bool_decide (xy.1 = xy.2)) (zip xs ys) = true <->
  xs `prefix_of` ys \/ ys `prefix_of` xs.
Proof.
  revert ys; induction xs as [|x xs IH]; intros [|y ys]; cbn.
  - split; [left; done|done].
  - split; [left; apply prefix_nil|done].
  - split; [right; apply prefix_nil|done].
  - rewrite andb_true_iff, bool_decide_eq_true, IH. split.
    + intros [-> [H|H]]; [left|right]; by apply prefix_cons.
    + intros [H|H]; apply prefix_cons_inv_1 in H as E; apply prefix_cons_inv_2 in H; subst; auto.
Qed.

Lemma paths_intersect_spec a b :
  paths_intersect a b = true <->
  clean_components a `prefix_of` clean_components b \/ clean_components b `prefix_of` clean_components a.
Proof. apply zip_all_prefix. Qed.

(** The invariants as one statement about the policy. *)
Record invariants_hold (p : SettledPolicy) : Prop := {
  ih_no_new_privs : cap_no_new_privs (ep_cap (sp_effective_policy p)) = true;
  ih_setuid : ex_deny_setuid (ep_exec (sp_effective_policy p)) = true;
  ih_setgid : ex_deny_setgid (ep_exec (sp_effective_policy p)) = true;
  ih_setcap : ex_deny_setcap (ep_exec (sp_effective_policy p)) = true;
  ih_writable : ex_deny_writable (ep_exec (sp_effective_policy p)) = true;
  ih_home : fs_home_shadow (ep_fs (sp_effective_policy p)) = true;
  ih_metadata : exists r, r ∈ np_deny_invariant (ep_net (sp_effective_policy p)) /\
    nr_cidr r = METADATA_IP;
  ih_redirect : forall r w, r ∈ fs_redirect (ep_fs (sp_effective_policy p)) ->
    w ∈ writable_surface (ep_fs (sp_effective_policy p)) ->
    ~ (clean_components (rd_source r) `prefix_of` clean_components w) /\
    ~ (clean_components w `prefix_of` clean_components (rd_source r));
}.

Lemma app_nil_iff {A} (l k : list A) : l ++ k = [] <-> l = [] /\ k = [].
Proof. split; [apply app_eq_nil|by intros [-> ->]]. Qed.

Lemma when_nil {A} (b : bool) (v : A) : (if negb b then [v] else []) = [] <-> b = true.
Proof. by destruct b. Qed.

Lemma flat_map_nil {A B} (f : A -> list B) l : flat_map f l = [] <-> forall x, x ∈ l -> f x = [].
Proof.
  induction l as [|a l IH]; cbn; [split; [intros _ x Hx; by apply not_elem_of_nil in Hx|done]|].
  rewrite app_nil_iff, IH. split.
  - intros [Ha Hl] x [->|Hx]%elem_of_cons; auto.
  - intros H. split; [apply H; left|intros x Hx; apply H; by right].
Qed.

Lemma violations_nil p : violations p = [] <-> invariants_hold p.
Proof.
  unfold violations. rewrite !app_nil_iff, !when_nil, flat_map_nil.
  assert (existsb (fun r => bool_decide (nr_cidr r = METADATA_IP))
            (np_deny_invariant (ep_net (sp_effective_policy p))) = true <->
          exists r, r ∈ np_deny_invariant (ep_net (sp_effective_policy p)) /\ nr_cidr r = METADATA_IP) as Hm.
  { rewrite existsb_exists. split; intros (r & H1 & H2); exists r;
      rewrite bool_decide_eq_true in *;
      (split; [by apply list_elem_of_In|done]). }
  rewrite Hm. split.
  - intros (H1 & H2 & H3 & H4 & H5 & H6 & H7 & H8). split; try done. intros r w Hr Hw.
    specialize (H8 r Hr). rewrite flat_map_nil in H8. specialize (H8 w Hw).
    destruct (paths_intersect (rd_source r) w) eqn:E; [done|].
    assert (~ (paths_intersect (rd_source r) w = true)) as Hn by congruence.
    rewrite paths_intersect_spec in Hn. tauto.
  - intros H. destruct H as [? ? ? ? ? ? ? Hred]. split_and!; try done. intros r Hr. apply flat_map_nil. intros w Hw.
    destruct (paths_intersect (rd_source r) w) eqn:E; [|done].
    apply paths_intersect_spec in E. by destruct (Hred r w Hr Hw), E.
Qed.

Lemma validate_Ok p : validate p = Ok tt <-> invariants_hold p.
Proof.
  unfold validate. rewrite <- violations_nil. by destruct (violations p).
Qed.

Lemma check_schema_version_Ok v : check_schema_version v = Ok tt <-> 3 <= v <= 5.
Proof.
  unfold check_schema_version, SETTLED_SCHEMA_VERSION, MIN_SETTLED_SCHEMA_VERSION.
  repeat case_match; zbool; split; intros; try done; lia.
Qed.

(** ** The gate *)

Section gate_lemmas.
Context {C : Crypto} {L : Toml}.

(** What a document must satisfy to be enforced. *)
Definition doc_trusted (doc : SignedSettledPolicy) (keys : KeySet) : Prop :=
  3 <= sp_settled_schema_version (sd_policy doc) <= 5 /\
  (exists canonical, toml_body (sd_policy doc) = Some canonical /\
     verify_signature canonical (sd_signature doc) keys = Ok tt) /\
  invariants_hold (sd_policy doc).

Lemma verify_doc_Ok doc keys p :
  verify_doc doc keys = Ok p <-> p = sd_policy doc /\ doc_trusted doc keys.
Proof.
  unfold verify_doc, doc_trusted, canonical_bytes. rewrite <- check_schema_version_Ok, <- validate_Ok.
  destruct (check_schema_version _) as [[]|]; cbn [mbind result_bind ok_or map_err];
    [|split; [done|by intros (_ & ? & _)]].
  destruct (toml_body (sd_policy doc)) as [canonical|]; cbn [mbind result_bind ok_or map_err];
    [|split; [done|by intros (_ & _ & (? & ? & _) & _)]].
  destruct (verify_signature canonical _ keys) as [[]|] eqn:Es; cbn [mbind result_bind ok_or map_err];
    [|split; [done|intros (_ & _ & (c & [= ->] & Ec) & _); congruence]].
  destruct (validate (sd_policy doc)) as [[]|]; cbn [mbind result_bind ok_or map_err];
    [|split; [done|by intros (_ & _ & _ & ?)]].
  split; [intros <-%(inj Ok)|by intros [-> _]]. split; [done|]. split; [done|].
  split; [by exists canonical|done].
Qed.

(** ** Eligibility *)

Lemma check_ceilings_Ok limits keys :
  check_ceilings limits keys = Ok tt <-> Forall (fun k => exists v, (k, v) ∈ limits) keys.
Proof.
  induction keys as [|k keys IH]; cbn; [done|]. rewrite Forall_cons, <- IH.
  destruct (existsb _ limits) eqn:E.
  - apply existsb_exists in E as ((k' & v) & Hin & Hk%bool_decide_eq_true). cbn in Hk. subst k'.
    split; [|by intros [_ ?]]. intros H. split; [|done]. exists v. by apply list_elem_of_In.
  - split; [done|]. intros [[v Hv] _]. apply not_true_iff_false in E. destruct E.
    apply existsb_exists. exists (k, v). split; [by apply list_elem_of_In|]. by apply bool_decide_eq_true.
Qed.

Lemma spawn_eligible_Ok t :
  spawn_eligible t = Ok tt <->
  sp_spawn t = None /\ (exists ttl, lc_ttl_seconds (ep_lifecycle (sp_effective_policy t)) = Some ttl) /\
  Forall (fun k => exists v, (k, v) ∈ ul_limits (sp_ulimits t)) REQUIRED_CEILINGS.
Proof.
  unfold spawn_eligible. rewrite <- check_ceilings_Ok.
  destruct (sp_spawn t); cbn [is_none negb]; [split; [done|by intros [? _]]|].
  destruct (lc_ttl_seconds _) as [ttl|]; cbn [is_none]; [|split; [done|by intros (_ & [? ?] & _)]].
  split; [|by intros (_ & _ & ?)]. intros H. split_and!; [done|by exists ttl|done].
Qed.
End gate_lemmas.

(** Signing, writing and loading. *)
Lemma sign_then_verify {C : Crypto} `{!CryptoLaws C} {L : Toml} policy key keys doc bs :
  sign_settled policy key = Ok doc -> to_bytes doc = Ok bs -> toml_reads_back doc ->
  keys_get keys (sk_key_id key) = Some (ed_public (sk_seed key)) ->
  3 <= sp_settled_schema_version policy <= 5 -> invariants_hold policy ->
  verify_settled bs keys = Ok policy /\
  verify_pinned bs keys (sk_key_id key) (se_signature (sd_signature doc)) = Ok policy.
Proof.
  unfold sign_settled, to_bytes, canonical_bytes.
  intros (canonical & Hc & <-%(inj Ok))%bind_Ok Hb Hrt Hk Hv Hi.
  destruct (toml_body policy) as [cb|] eqn:Ec; [|done]. apply (inj Ok) in Hc as ->.
  destruct (toml_document _) as [db|] eqn:Ed; [|done]. apply (inj Ok) in Hb as ->.
  apply Hrt in Ed. unfold verify_settled, verify_pinned. rewrite Ed.
  cbn [ok_or mbind result_bind sd_signature]. rewrite !bool_decide_eq_true_2 by done. cbn [negb orb].
  assert (verify_doc {| sd_signature := sign_envelope key canonical; sd_policy := policy |} keys = Ok policy)
    as H; [|done].
  apply verify_doc_Ok. split; [done|]. split; [done|]. split; [|done].
  exists canonical. split; [done|]. by apply verify_signed.
Qed.

(** * Claims *)

(** The framework invariants are exactly these: a settled policy passes the
    re-check when no-new-privs, the four exec denials and the home shim are on, some
    invariant deny rule names the metadata address, and no redirect's source is an
    ancestor, a descendant or the same as a path the workload can write, comparing
    cleaned components so that trailing separators, globs and dot segments do not
    hide an overlap. *)
Theorem invariants_exact p : validate p = Ok tt <-> invariants_hold p.
Proof. apply validate_Ok. Qed.

(** C2: The runtime gate returns a policy exactly when the bytes parse to a document
    with that body, its schema version is one this build reads, the envelope's
    signature verifies over the canonical form of that very body against the trust
    store, and the invariants hold of it; the pinned gate also requires the key id
    and signature the spawner recorded. *)
Theorem verify_gate_exact {C : Crypto} {L : Toml} bs keys p kid sig :
  (verify_settled bs keys = Ok p <->
   exists doc, toml_parse bs = Some doc /\ p = sd_policy doc /\ doc_trusted doc keys) /\
  (verify_pinned bs keys kid sig = Ok p <->
   exists doc, toml_parse bs = Some doc /\ p = sd_policy doc /\ doc_trusted doc keys /\
     se_key_id (sd_signature doc) = kid /\ se_signature (sd_signature doc) = sig).
Proof.
  unfold verify_settled, verify_pinned.
  destruct (toml_parse bs) as [doc|]; cbn [ok_or mbind result_bind];
    [|split; (split; [done|by intros (? & ? & _)])]. split.
  - rewrite verify_doc_Ok. split; [intros [? ?]; by exists doc|by intros (d & [= <-] & ?)].
  - case_bool_decide as E1; cbn [negb orb]; [|split; [done|intros (d & [= <-] & _ & _ & ? & _); done]].
    case_bool_decide as E2; cbn [negb orb]; [|split; [done|intros (d & [= <-] & _ & _ & _ & ?); done]].
    rewrite verify_doc_Ok. split; [intros [? ?]; by exists doc|by intros (d & [= <-] & ? & ? & _)].
Qed.

(** A policy survives signing and loading: a policy within the accepted schema
    versions that meets the invariants, signed with a key the trust store holds and
    written to disk, is returned unchanged by the gate and by the gate pinned to that
    signature. *)
Theorem signed_policy_loads {C : Crypto} `{!CryptoLaws C} {L : Toml} policy key keys doc bs :
  sign_settled policy key = Ok doc -> to_bytes doc = Ok bs -> toml_reads_back doc ->
  keys_get keys (sk_key_id key) = Some (ed_public (sk_seed key)) ->
  3 <= sp_settled_schema_version policy <= 5 -> invariants_hold policy ->
  verify_settled bs keys = Ok policy /\
  verify_pinned bs keys (sk_key_id key) (se_signature (sd_signature doc)) = Ok policy.
Proof. apply sign_then_verify. Qed.

(** The invariants are not re-checked after a patch, and an admitted patch can
    break them: when a template opens [fs.write] and a request writes a path that
    overlaps a redirect's source, the instance that is built violates the redirect
    floor its template passed. *)
Theorem patch_can_break_invariants t patch i e r :
  blen patch <= u32_max -> instantiate t patch = Ok i ->
  e ∈ patch -> pe_field e = F_WRITE ->
  r ∈ fs_redirect (ep_fs (sp_effective_policy t)) ->
  paths_intersect (rd_source r) (normalize_grant (entry_value t e)) = true ->
  exists vs, validate i = Err vs.
Proof.
  intros Hl [_ ->]%instantiate_Ok He Hf Hr Hp; [|done].
  set (i := set_leaves _ _ _ _). destruct (validate i) as [[]|vs] eqn:Ev; [|by exists vs].
  apply validate_Ok in Ev. pose proof (ih_redirect _ Ev r (normalize_grant (entry_value t e))) as H.
  assert (fs_redirect (ep_fs (sp_effective_policy i)) = fs_redirect (ep_fs (sp_effective_policy t))) as Er
    by (unfold i, patch_start; by destruct (existsb _ patch)).
  assert (fs_write (ep_fs (sp_effective_policy i)) =
          fs_write (ep_fs (sp_effective_policy t)) ++ values t patch F_WRITE) as Ew
    by (unfold i, patch_start; by destruct (existsb _ patch)).
  apply paths_intersect_spec in Hp. rewrite Er in H. destruct H as [H1 H2]; [done| |by destruct Hp].
  unfold writable_surface. rewrite Ew. apply elem_of_app. left. apply list_elem_of_fmap.
  exists (entry_value t e). split; [done|]. apply elem_of_app. left. apply elem_of_app. right.
  unfold values. apply list_elem_of_fmap. exists e. split; [done|].
  apply list_elem_of_In, List.filter_In. split; [by apply list_elem_of_In|]. by apply bool_decide_eq_true.
Qed.

(** ** A redirected template *)

Definition set_redirect (rs : list FsRedirect) (p : SettledPolicy) : SettledPolicy :=
  set_effective (fun e =>
    let fs := ep_fs e in
    {| ep_net := ep_net e;
       ep_fs := {| fs_home_shadow := fs_home_shadow fs; fs_read := fs_read fs; fs_write := fs_write fs;
         fs_exclusive := fs_exclusive fs; fs_home_persist := fs_home_persist fs;
         fs_home_readonly := fs_home_readonly fs; fs_redirect := rs; fs_cwd := fs_cwd fs;
         fs_tmp := fs_tmp fs; fs_dev := fs_dev fs |};
       ep_exec := ep_exec e; ep_proc := ep_proc e; ep_cap := ep_cap e; ep_seccomp := ep_seccomp e;
       ep_lifecycle := ep_lifecycle e; ep_tty := ep_tty e; ep_trust := ep_trust e |}) p.
Definition redirect_template : SettledPolicy :=
  set_redirect [{| rd_path := ascii_bytes "/etc/app.conf"; rd_source := ascii_bytes "/work/conf/app.conf" |}]
    sample_template.
Definition redirect_patch : list PatchEntry := [sample_entry "fs.write" "conf"].
Definition redirect_instance : SettledPolicy :=
  match instantiate redirect_template redirect_patch with Ok i => i | Err _ => redirect_template end.

(** The template passes, the patch is admitted, the instance fails. *)
Lemma patch_can_break_invariants_witness :
  validate redirect_template = Ok tt /\
  instantiate redirect_template redirect_patch = Ok redirect_instance /\
  exists vs, validate redirect_instance = Err vs.
Proof.
  split; [vm_compute; reflexivity|]. split; [vm_compute; reflexivity|].
  apply (patch_can_break_invariants redirect_template redirect_patch redirect_instance
    (sample_entry "fs.write" "conf")
    {| rd_path := ascii_bytes "/etc/app.conf"; rd_source := ascii_bytes "/work/conf/app.conf" |}).
  - vm_compute; discriminate.
  - vm_compute; reflexivity.
  - left.
  - reflexivity.
  - left.
  - vm_compute; reflexivity.
Defined.

(** A document format of one document. *)
Definition one_document (doc : SignedSettledPolicy) : Toml := {|
  toml_parse bs := if bool_decide (bs = [1]) then Some doc else None;
  toml_body _ := Some (ascii_bytes "body");
  toml_document d := Some [1] |}.
Definition one_doc : SignedSettledPolicy :=
  {| sd_signature := @sign_envelope toy_crypto toy_key (ascii_bytes "body"); sd_policy := redirect_template |}.

Lemma signed_policy_loads_witness :
  @verify_settled toy_crypto (one_document one_doc) [1] toy_keys = Ok redirect_template /\
  @verify_pinned toy_crypto (one_document one_doc) [1] toy_keys (ascii_bytes "ops")
    (se_signature (sd_signature one_doc)) = Ok redirect_template.
Proof.
  apply (@signed_policy_loads toy_crypto toy_laws (one_document one_doc) redirect_template toy_key
    toy_keys one_doc [1]).
  - vm_compute; reflexivity.
  - vm_compute; reflexivity.
  - by intros bs [= <-].
  - vm_compute; reflexivity.
  - vm_compute; split; discriminate.
  - apply validate_Ok. vm_compute; reflexivity.
Defined.
