(* ===== verification/BinderWire.v ===== *)
(** The service transactions on the binder bus ([kennel-lib-binder/src/service.rs]).

    Requests are framed with the small big-endian codec of the module: the decoders
    shrink a slice and fail closed on anything short, oversized, not UTF-8 or
    trailing.  [slice A] is that cursor, and [SliceCodec] the contract of an encoder
    and a decoder: a decoder accepts exactly the encodings of well-formed values.

    Theorems: each decoder accepts exactly the encodings of its well-formed
    requests, so no two byte strings decode to one request. *)

From S2P Require Import Prelude Bytes Str.

(** ** The cursor *)

Definition slice (A : Type) : Type := bytes -> option (A * bytes).
Global Instance slice_ret : MRet slice := fun A a s => Some (a, s).
Global Instance slice_bind : MBind slice :=
  fun A B f g s => match g s with Some (a, s) => f a s | None => None end.

Definition sl_fail {A} : slice A := fun _ => None.
Definition sl_of {A} (o : option A) : slice A := match o with Some a => mret a | None => sl_fail end.

(** [take]: split off [n] bytes. *)
Definition sl_take (n : nat) : slice bytes := fun s =>
  if (n <=? length s)%nat then Some (take n s, drop n s) else None.

(** The [codec] module. *)
Definition put_u8 (v : Z) : bytes := [v].
Definition take_u8 : slice Z := b ← sl_take 1; sl_of (head b).
Definition put_u16 (v : Z) : bytes := be_bytes 2 v.
Definition take_u16 : slice Z := b ← sl_take 2; mret (be_val b).
Definition sat_u16 (n : Z) : Z := Z.min n u16_max.
Definition put_count (n : Z) : bytes := put_u16 (sat_u16 n).
Definition put_str (s : bytes) : bytes :=
  put_u16 (sat_u16 (blen s)) ++ take (Z.to_nat (sat_u16 (blen s))) s.
Definition take_str : slice bytes :=
  len ← take_u16; b ← sl_take (Z.to_nat len); sl_of (from_utf8 b).
Fixpoint sl_vec {A} (n : nat) (g : slice A) : slice (list A) :=
  match n with
  | O => mret []
  | S n => x ← g; xs ← sl_vec n g; mret (x :: xs)
  end.
Definition sl_list {A} (g : slice A) : slice (list A) := n ← take_u16; sl_vec (Z.to_nat n) g.
Definition put_list {A} (put : A -> bytes) (l : list A) : bytes :=
  put_count (blen l) ++ flat_map put l.
Definition put_str_list (l : list bytes) : bytes := put_list put_str l.
Definition take_str_list : slice (list bytes) := sl_list take_str.

(** [if !cur.is_empty() { return None }]. *)
Definition sl_run {A} (g : slice A) (data : bytes) : option A :=
  match g data with Some (a, s) => if is_nil s then Some a else None | None => None end.

(** ** [spawn] *)

Definition SPAWN_PATCH_MAX_BYTES : Z := 64 * 1024.
Definition put_field (f : bytes * bytes) : bytes := put_str f.1 ++ put_str f.2.
Definition take_field : slice (bytes * bytes) :=
  field ← take_str; value ← take_str; if is_nil field then sl_fail else mret (field, value).
Definition spawn_encode_request (template : bytes) (patch : list (bytes * bytes)) : bytes :=
  put_str template ++ put_list put_field patch.
Definition take_request : slice (bytes * list (bytes * bytes)) :=
  template ← take_str;
  if is_nil template then sl_fail else patch ← sl_list take_field; mret (template, patch).
Definition spawn_decode_request (data : bytes) : option (bytes * list (bytes * bytes)) :=
  if SPAWN_PATCH_MAX_BYTES <? blen data then None else sl_run take_request data.
Definition spawn_encode_reply (status : Z) (uuid : bytes) : bytes := [status] ++ uuid.

(** ** [inet] *)

Definition inet_encode_request (transport port : Z) (host : bytes) : bytes :=
  [transport] ++ be_bytes 2 port ++ host.
Definition inet_decode_request (max_host : Z) (data : bytes) : option (Z * Z * bytes) :=
  match data with
  | transport :: hi :: lo :: host =>
      if is_nil host || (max_host <? blen host) then None
      else host ← from_utf8 host; Some (transport, be_val [hi; lo], host)
  | _ => None
  end.
Definition encode_bind_request (transport port : Z) : bytes := [transport] ++ be_bytes 2 port.
Definition decode_bind_request (data : bytes) : option (Z * Z) :=
  match data with [transport; hi; lo] => Some (transport, be_val [hi; lo]) | _ => None end.
Definition decode_port_prefix (data : bytes) : option (Z * Z) :=
  match data with transport :: hi :: lo :: _ => Some (transport, be_val [hi; lo]) | _ => None end.

(** ** [dbus], [svc_connect] *)

Definition DBUS_SESSION : Z := 0.
Definition DBUS_SYSTEM : Z := 1.
Definition CAPABILITY_SESSION : bytes := ascii_bytes "org.projectkennel.dbus".
Definition CAPABILITY_SYSTEM : bytes := ascii_bytes "org.projectkennel.dbus-system".
Definition capability_bus (name : bytes) : option Z :=
  if bool_decide (name = CAPABILITY_SESSION) then Some DBUS_SESSION
  else if bool_decide (name = CAPABILITY_SYSTEM) then Some DBUS_SYSTEM
  else None.
Definition capability_for_bus (bus : Z) : bytes :=
  if bus =? DBUS_SYSTEM then CAPABILITY_SYSTEM else CAPABILITY_SESSION.

Definition SVC_NAME_MAX_BYTES : Z := 255.
Definition svc_encode_request (name : bytes) : bytes := name.
Definition svc_decode_request (data : bytes) : option bytes :=
  if is_nil data || (SVC_NAME_MAX_BYTES <? blen data) then None else from_utf8 data.
Definition svc_encode_reply (status : Z) : bytes := [status].
Definition svc_decode_reply (data : bytes) : option Z := head data.

(** ** [session], [broker], [tun_broker] *)

Definition encode_ref (ctx : Z) (name : bytes) : bytes := put_u16 ctx ++ put_str name.
Definition decode_ref (data : bytes) : option (Z * bytes) :=
  sl_run (ctx ← take_u16; name ← take_str; mret (ctx, name)) data.

Record AcceptSession : Type := {
  as_bus : Z; as_talk : list bytes; as_call : list bytes; as_broadcast : list bytes;
  as_own : list bytes; as_deny_talk : list bytes;
}.
Definition broker_encode_accept (a : AcceptSession) : bytes :=
  put_u8 (as_bus a) ++ put_str_list (as_talk a) ++ put_str_list (as_call a) ++
  put_str_list (as_broadcast a) ++ put_str_list (as_own a) ++ put_str_list (as_deny_talk a).
Definition broker_decode_accept (data : bytes) : option AcceptSession :=
  sl_run (bus ← take_u8; talk ← take_str_list; call ← take_str_list; broadcast ← take_str_list;
          own ← take_str_list; deny_talk ← take_str_list;
          mret {| as_bus := bus; as_talk := talk; as_call := call; as_broadcast := broadcast;
                  as_own := own; as_deny_talk := deny_talk |}) data.

Record Grant : Type := { gr_name : bytes; gr_ports : list Z; gr_protocol : Z }.
Record AcceptTunSession : Type := { at_tun_addr : bytes; at_grants : list Grant }.
Definition put_grant (g : Grant) : bytes :=
  put_str (gr_name g) ++ put_list put_u16 (gr_ports g) ++ put_u8 (gr_protocol g).
Definition take_grant : slice Grant :=
  name ← take_str; ports ← sl_list take_u16; protocol ← take_u8;
  mret {| gr_name := name; gr_ports := ports; gr_protocol := protocol |}.
Definition tun_encode_accept (a : AcceptTunSession) : bytes :=
  at_tun_addr a ++ put_list put_grant (at_grants a).
Definition tun_decode_accept (data : bytes) : option AcceptTunSession :=
  sl_run (tun_addr ← sl_take 16; grants ← sl_list take_grant;
          mret {| at_tun_addr := tun_addr; at_grants := grants |}) data.

(** * The codec contract *)

Class SliceCodec {A} (put : A -> bytes) (get : slice A) (ok : A -> Prop) : Prop :=
  slice_exact : forall s v r, bytes_ok s -> get s = Some (v, r) <-> s = put v ++ r /\ ok v.
Global Hint Mode SliceCodec + - + - : typeclass_instances.

Definition str_ok (s : bytes) : Prop := blen s <= u16_max /\ utf8_ok s = true.
Definition list_ok {A} (ok : A -> Prop) (l : list A) : Prop := blen l <= u16_max /\ Forall ok l.

Lemma sl_take_exact n s b r : sl_take n s = Some (b, r) <-> s = b ++ r /\ length b = n.
Proof.
  unfold sl_take. destruct (Nat.leb_spec n (length s)) as [H|H].
  - split; [intros [= <- <-]; by rewrite take_drop, length_take_le|].
    intros [-> <-]. by rewrite take_app_length, drop_app_length.
  - split; [done|]. intros [-> <-]. rewrite length_app in H. lia.
Qed.

Lemma slice_bind_Some {A B} (g : slice A) (f : A -> slice B) s v r :
  (g ≫= f) s = Some (v, r) <-> exists a t, g s = Some (a, t) /\ f a t = Some (v, r).
Proof.
  unfold mbind, slice_bind. destruct (g s) as [[a t]|].
  - split; [by exists a, t|by intros (? & ? & [= <- <-] & ?)].
  - split; [done|by intros (? & ? & ? & _)].
Qed.

Global Instance codec_u8 : SliceCodec put_u8 take_u8 byte_ok.
Proof.
  intros s v r Hs. unfold take_u8. rewrite slice_bind_Some. setoid_rewrite sl_take_exact. split.
  - intros (b & t & [-> Hl] & H). destruct b as [|x [|]]; try done. cbn in H.
    injection H as -> ->. split; [done|]. by apply Forall_cons_1 in Hs as [? _].
  - intros [-> _]. by exists [v], r.
Qed.

Global Instance codec_u16 : SliceCodec put_u16 take_u16 in_u16.
Proof.
  intros s v r Hs. unfold take_u16, put_u16. rewrite slice_bind_Some. setoid_rewrite sl_take_exact.
  split.
  - intros (b & t & [-> Hl] & [= <- <-]). apply Forall_app in Hs as [Hb _].
    pose proof (be_bytes_be_val b Hb) as E. pose proof (be_val_bound b Hb) as B.
    rewrite Hl in E, B. rewrite E. split; [done|]. in_range.
  - intros [-> Hv]. exists (be_bytes 2 v), r. rewrite length_be_bytes. split; [done|].
    unfold mret, slice_ret. by rewrite be_val_be_bytes by in_range.
Qed.

(** ** Composition *)

(** Invert or replay one read of a decoder. *)
Ltac sl_inv H :=
  let a := fresh "a" in let t := fresh "t" in let Hg := fresh "Hg" in
  apply slice_bind_Some in H as (a & t & Hg & H).
Ltac sl_step := apply slice_bind_Some; eexists _, _; split; [apply slice_exact; [|split; [done|]]|].

Global Instance codec_str : SliceCodec put_str take_str str_ok.
Proof.
  intros s v r Hs. unfold take_str, put_str, str_ok. split.
  - intros H. sl_inv H. apply slice_exact in Hg as [-> Hlen]; [|done].
    sl_inv H. apply sl_take_exact in Hg as [-> Hl]. unfold from_utf8 in H.
    destruct (utf8_ok a0) eqn:Eu; [|done]. injection H as <- <-.
    assert (a = blen a0) as -> by in_range.
    unfold sat_u16. rewrite Z.min_l by in_range. rewrite take_ge by lia. rewrite <- app_assoc.
    split; [done|]. split; [in_range|done].
  - intros [-> [Hl Hu]]. unfold sat_u16 in *. rewrite Z.min_l in * by done. rewrite take_ge in * by lia.
    apply slice_bind_Some. exists (blen v), (v ++ r). split.
    + apply (slice_exact (get := take_u16)); [done|]. rewrite <- app_assoc. split; [done|]. in_range.
    + apply slice_bind_Some. exists v, r. split; [apply sl_take_exact; split; [done|lia]|].
      unfold from_utf8. by rewrite Hu.
Qed.

Lemma bytes_ok_app_r a b : bytes_ok (a ++ b) -> bytes_ok b.
Proof. by intros [_ ?]%Forall_app. Qed.

Lemma vec_exact {A} (put : A -> bytes) get ok `{!SliceCodec put get ok} n s l r :
  bytes_ok s -> sl_vec n get s = Some (l, r) <->
    s = flat_map put l ++ r /\ length l = n /\ Forall ok l.
Proof.
  revert s l r; induction n as [|n IH]; intros s l r Hs; cbn [sl_vec].
  - split; [by intros [= <- <-]|]. intros (-> & Hl & _). by destruct l.
  - split.
    + intros H. sl_inv H. apply slice_exact in Hg as [-> Ha]; [|done]. sl_inv H.
      apply IH in Hg as (-> & Hl & Hf); [|by eapply bytes_ok_app_r]. injection H as <- <-.
      cbn. rewrite <- app_assoc. split_and!; [done|by rewrite Hl|by constructor].
    + intros (-> & Hl & Hf). destruct l as [|x l]; [done|]. apply Forall_cons_1 in Hf as [Hx Hf].
      cbn [flat_map] in *. rewrite <- app_assoc in *.
      apply slice_bind_Some. exists x, (flat_map put l ++ r).
      split; [by apply slice_exact|]. apply slice_bind_Some. exists l, r.
      split; [|done]. apply IH; [by eapply bytes_ok_app_r|]. split_and!; [done|by injection Hl|done].
Qed.

Global Instance codec_list {A} (put : A -> bytes) get ok `{!SliceCodec put get ok} :
  SliceCodec (put_list put) (sl_list get) (list_ok ok).
Proof.
  intros s l r Hs. unfold sl_list, put_list, put_count, list_ok. split.
  - intros H. sl_inv H. apply slice_exact in Hg as [-> Hn]; [|done].
    apply (vec_exact put get ok) in H as (-> & Hl & Hf); [|by eapply bytes_ok_app_r].
    assert (a = blen l) as -> by in_range. unfold sat_u16. rewrite Z.min_l by in_range.
    rewrite <- app_assoc. split; [done|]. split; [in_range|done].
  - intros [-> [Hl Hf]]. unfold sat_u16 in *. rewrite Z.min_l in * by done. rewrite <- app_assoc in *.
    apply slice_bind_Some. exists (blen l), (flat_map put l ++ r). split.
    + apply (slice_exact (get := take_u16)); [done|]. split; [done|]. in_range.
    + apply (vec_exact put get ok); [by eapply bytes_ok_app_r|]. split_and!; [done|lia|done].
Qed.

Lemma run_slice_exact {A} (put : A -> bytes) get ok `{!SliceCodec put get ok} data v :
  bytes_ok data -> sl_run get data = Some v <-> data = put v /\ ok v.
Proof.
  intros Hd. unfold sl_run. pose proof (slice_exact (get := get) data v [] Hd) as H.
  rewrite app_nil_r in H. rewrite <- H. destruct (get data) as [[a [|b s]]|]; cbn [is_nil].
  - split; [by intros [= ->]|by intros [= ->]].
  - done.
  - done.
Qed.

(** Two fields in sequence. *)
Lemma bind_exact2 {A B C} (put1 : A -> bytes) get1 ok1 `{!SliceCodec put1 get1 ok1}
    (put2 : B -> bytes) get2 ok2 `{!SliceCodec put2 get2 ok2} (f : A -> B -> C) s c r :
  bytes_ok s ->
  (a ← get1; b ← get2; mret (f a b)) s = Some (c, r) <->
  exists a b, c = f a b /\ s = put1 a ++ put2 b ++ r /\ ok1 a /\ ok2 b.
Proof.
  intros Hs. split.
  - intros H. sl_inv H. apply (slice_exact (get := get1)) in Hg as [-> Ha]; [|done]. sl_inv H.
    apply (slice_exact (get := get2)) in Hg as [-> Hb]; [|by eapply bytes_ok_app_r].
    injection H as <- <-. by exists a, a0.
  - intros (a & b & -> & -> & Ha & Hb). apply slice_bind_Some. exists a, (put2 b ++ r).
    split; [by apply slice_exact|]. apply slice_bind_Some. exists b, r. split; [|done].
    apply slice_exact; [by eapply bytes_ok_app_r|done].
Qed.

Definition field_ok (f : bytes * bytes) : Prop := str_ok f.1 /\ str_ok f.2 /\ f.1 <> [].

Global Instance codec_field : SliceCodec put_field take_field field_ok.
Proof.
  intros s [k x] r Hs. unfold take_field, put_field, field_ok. cbn [fst snd]. rewrite <- app_assoc. split.
  - intros H. sl_inv H. apply slice_exact in Hg as [-> Ha]; [|done]. sl_inv H.
    apply slice_exact in Hg as [-> Hb]; [|by eapply bytes_ok_app_r].
    destruct (is_nil a) eqn:En; [done|]. injection H as <- <- <-. split_and!; try done. by intros ->.
  - intros [-> (Hk & Hx & Hn)]. apply slice_bind_Some. exists k, (put_str x ++ r).
    split; [by apply slice_exact|]. apply slice_bind_Some. exists x, r.
    split; [apply slice_exact; [by eapply bytes_ok_app_r|done]|]. by destruct k.
Qed.

Definition put_request (x : bytes * list (bytes * bytes)) : bytes := spawn_encode_request x.1 x.2.
Definition request_ok (x : bytes * list (bytes * bytes)) : Prop :=
  x.1 <> [] /\ str_ok x.1 /\ list_ok field_ok x.2.

Global Instance codec_request : SliceCodec put_request take_request request_ok.
Proof.
  intros s [t p] r Hs. unfold take_request, put_request, spawn_encode_request, request_ok.
  cbn [fst snd]. rewrite <- app_assoc. split.
  - intros H. sl_inv H. apply slice_exact in Hg as [-> Ht]; [|done]. apply bytes_ok_app_r in Hs.
    destruct (is_nil a) eqn:En; [done|]. sl_inv H.
    apply (slice_exact (get := sl_list take_field)) in Hg as [-> Hp]; [|done].
    injection H as <- <- <-. split_and!; try done. by intros ->.
  - intros [-> (Hn & Ht & Hp)]. apply slice_bind_Some. eexists t, _. split; [by apply slice_exact|].
    apply bytes_ok_app_r in Hs. destruct t; [done|]. cbn [is_nil]. apply slice_bind_Some.
    exists p, r. split; [|done]. by apply slice_exact.
Qed.

Definition grant_ok (g : Grant) : Prop :=
  str_ok (gr_name g) /\ list_ok in_u16 (gr_ports g) /\ byte_ok (gr_protocol g).

Global Instance codec_grant : SliceCodec put_grant take_grant grant_ok.
Proof.
  intros s [n ps p] r Hs. unfold take_grant, put_grant, grant_ok. cbn [gr_name gr_ports gr_protocol].
  rewrite <- !app_assoc. split.
  - intros H. sl_inv H. apply slice_exact in Hg as [-> Ha]; [|done].
    apply (bind_exact2 _ _ _ _ _ _ (fun ports protocol =>
      {| gr_name := a; gr_ports := ports; gr_protocol := protocol |})) in H
      as (x & y & [= -> -> ->] & -> & Hx & Hy); [|by eapply bytes_ok_app_r]. done.
  - intros [-> (Hn & Hps & Hp)]. apply slice_bind_Some. eexists n, _. split; [by apply slice_exact|].
    apply (bind_exact2 _ _ _ _ _ _ (fun ports protocol =>
      {| gr_name := n; gr_ports := ports; gr_protocol := protocol |})); [by eapply bytes_ok_app_r|].
    by exists ps, p.
Qed.

(** ** The messages *)

Definition put_ref (x : Z * bytes) : bytes := encode_ref x.1 x.2.
Definition ref_ok (x : Z * bytes) : Prop := in_u16 x.1 /\ str_ok x.2.

Global Instance codec_ref :
  SliceCodec put_ref (ctx ← take_u16; name ← take_str; mret (ctx, name)) ref_ok.
Proof.
  intros s [c n] r Hs. rewrite (bind_exact2 _ _ _ _ _ _ pair) by done.
  unfold put_ref, encode_ref, ref_ok. cbn [fst snd]. rewrite <- app_assoc.
  split; [by intros (? & ? & [= <- <-] & -> & ?)|]. intros [-> ?]. by exists c, n.
Qed.

Definition names_ok : list bytes -> Prop := list_ok str_ok.
Definition accept_ok (a : AcceptSession) : Prop :=
  byte_ok (as_bus a) /\ names_ok (as_talk a) /\ names_ok (as_call a) /\ names_ok (as_broadcast a) /\
  names_ok (as_own a) /\ names_ok (as_deny_talk a).

Global Instance codec_str_list : SliceCodec put_str_list take_str_list names_ok.
Proof. apply _. Qed.

Global Instance codec_accept :
  SliceCodec broker_encode_accept
    (bus ← take_u8; talk ← take_str_list; call ← take_str_list; broadcast ← take_str_list;
     own ← take_str_list; deny_talk ← take_str_list;
     mret {| as_bus := bus; as_talk := talk; as_call := call; as_broadcast := broadcast;
             as_own := own; as_deny_talk := deny_talk |}) accept_ok.
Proof.
  intros s [b t c br o d] r Hs. unfold broker_encode_accept, accept_ok.
  cbn [as_bus as_talk as_call as_broadcast as_own as_deny_talk]. rewrite <- !app_assoc. split.
  - intros H.
    sl_inv H. apply slice_exact in Hg as [-> ?]; [|done]. apply bytes_ok_app_r in Hs.
    do 3 (sl_inv H; apply slice_exact in Hg as [-> ?]; [|done]; apply bytes_ok_app_r in Hs).
    apply (bind_exact2 _ _ _ _ _ _ (fun own deny => {| as_bus := a; as_talk := a0; as_call := a1;
      as_broadcast := a2; as_own := own; as_deny_talk := deny |})) in H
      as (x & y & [= -> -> -> -> -> ->] & -> & Hx & Hy); [|done]. done.
  - intros [-> (Hb & Ht & Hc & Hbr & Ho & Hd)].
    apply slice_bind_Some. eexists b, _. split; [by apply slice_exact|]. apply bytes_ok_app_r in Hs.
    apply slice_bind_Some. eexists t, _. split; [by apply slice_exact|]. apply bytes_ok_app_r in Hs.
    apply slice_bind_Some. eexists c, _. split; [by apply slice_exact|]. apply bytes_ok_app_r in Hs.
    apply slice_bind_Some. eexists br, _. split; [by apply slice_exact|]. apply bytes_ok_app_r in Hs.
    apply (bind_exact2 _ _ _ _ _ _ (fun own deny => {| as_bus := b; as_talk := t; as_call := c;
      as_broadcast := br; as_own := own; as_deny_talk := deny |})); [done|]. by exists o, d.
Qed.

Definition tun_accept_ok (a : AcceptTunSession) : Prop :=
  length (at_tun_addr a) = 16%nat /\ list_ok grant_ok (at_grants a).

Global Instance codec_tun_accept :
  SliceCodec tun_encode_accept
    (tun_addr ← sl_take 16; grants ← sl_list take_grant;
     mret {| at_tun_addr := tun_addr; at_grants := grants |}) tun_accept_ok.
Proof.
  intros s [x gs] r Hs. unfold tun_encode_accept, tun_accept_ok. cbn [at_tun_addr at_grants].
  rewrite <- app_assoc. split.
  - intros H. sl_inv H. apply sl_take_exact in Hg as [-> Hl]. apply bytes_ok_app_r in Hs. sl_inv H.
    apply (slice_exact (get := sl_list take_grant)) in Hg as [-> Hg]; [|done]. by injection H as <- <- <-.
  - intros [-> [Hl Hg]]. apply slice_bind_Some. eexists x, _. split; [by apply sl_take_exact|].
    apply bytes_ok_app_r in Hs. apply slice_bind_Some. exists gs, r. split; [|done].
    by apply (slice_exact (get := sl_list take_grant)).
Qed.

(** ** [mesh] *)

Section mesh.
Context (en : endian).

Definition FLAT_BINDER_OBJECT_SIZE : nat := 24.
Definition BINDER_TYPE_HANDLE : Z := 1936206469.
Definition ADD_NAME_MAX : Z := 255.

(** [flat_binder_object_handle] and [_handle_value] ([proto.rs]). *)
Definition flat_handle (handle : Z) : bytes :=
  ne_bytes en 4 BINDER_TYPE_HANDLE ++ ne_bytes en 4 0 ++ ne_bytes en 4 handle ++ ne_bytes en 4 0 ++
  ne_bytes en 8 0.
Definition flat_handle_value (b : bytes) : option Z :=
  ty ← get_range b 0 4;
  if negb (ne_val en ty =? BINDER_TYPE_HANDLE) then None
  else
    _ ← get_range b 4 8; h ← get_range b 8 12; _ ← get_range b 12 16; _ ← get_range b 16 24;
    Some (ne_val en h).

Definition pad8 (s : bytes) : bytes := s ++ replicate ((8 - length s mod 8) mod 8) 0.
(** What [transact_node] makes of an [ADD_SERVICE]: the name, padded, and the object. *)
Definition add_service_data (name : bytes) (handle : Z) : bytes := pad8 name ++ flat_handle handle.

Definition decode_add_service (data : bytes) : option (bytes * Z) :=
  if (length data <? FLAT_BINDER_OBJECT_SIZE)%nat then None
  else
    let obj_start := (length data - FLAT_BINDER_OBJECT_SIZE)%nat in
    handle ← flat_handle_value (drop obj_start data);
    let name := trim_end_matches (Z.eqb 0) (take obj_start data) in
    if is_nil name || (ADD_NAME_MAX <? blen name) then None
    else name ← from_utf8 name; Some (name, handle).
End mesh.

(** Close the side conditions of [get_range_eq] from the fields' lengths. *)
Ltac at_offset La Lz Lx Lc :=
  rewrite <- ?app_assoc, ?app_nil_r; rewrite ?length_app, ?La, ?Lz, ?Lx, ?Lc; done.

Lemma flat_handle_roundtrip en h : in_u32 h -> flat_handle_value en (flat_handle en h) = Some h.
Proof.
  intros Hh. unfold flat_handle_value, flat_handle.
  set (a := ne_bytes en 4 BINDER_TYPE_HANDLE). set (z := ne_bytes en 4 0). set (x := ne_bytes en 4 h).
  set (c := ne_bytes en 8 0).
  assert (length a = 4%nat /\ length z = 4%nat /\ length x = 4%nat /\ length c = 8%nat) as (La & Lz & Lx & Lc)
    by (unfold a, z, x, c; by rewrite !length_ne_bytes).
  rewrite (get_range_eq _ [] a (z ++ x ++ z ++ c) 0 4) by at_offset La Lz Lx Lc. cbn [mbind option_bind].
  unfold a at 1. rewrite ne_val_bytes by done. rewrite Z.eqb_refl. cbn [negb].
  rewrite (get_range_eq _ a z (x ++ z ++ c) 4 8) by at_offset La Lz Lx Lc. cbn [mbind option_bind].
  rewrite (get_range_eq _ (a ++ z) x (z ++ c) 8 12) by at_offset La Lz Lx Lc. cbn [mbind option_bind].
  rewrite (get_range_eq _ (a ++ z ++ x) z c 12 16) by at_offset La Lz Lx Lc. cbn [mbind option_bind].
  rewrite (get_range_eq _ (a ++ z ++ x ++ z) c [] 16 24) by at_offset La Lz Lx Lc.
  cbn [mbind option_bind]. unfold x. by rewrite ne_val_bytes by in_range.
Qed.

Lemma trim_start_unpad k s c :
  last s = Some c -> c <> 0 -> trim_end_matches (Z.eqb 0) (s ++ replicate k 0) = s.
Proof.
  intros (t & ->)%last_Some Hc. unfold trim_end_matches. rewrite rev_app_distr, rev_unit.
  assert (rev (replicate k 0) = replicate k 0) as ->.
  { symmetry. apply replicate_as_Forall. split; [by rewrite length_rev, length_replicate|].
    apply Forall_rev, Forall_replicate. done. }
  assert (forall u, trim_start_matches (Z.eqb 0) (replicate k 0 ++ c :: u) = c :: u) as ->.
  { intros u. induction k as [|k IH]; cbn; [|exact IH]. by destruct c. }
  cbn. by rewrite rev_involutive.
Qed.

(** * Claims *)

(** The [SPAWN] decoder accepts exactly the encodings of well-formed requests:
    at most 64 KiB, a non-empty UTF-8 template, and a patch whose fields are
    non-empty.  So decoding loses nothing and no second byte string decodes to the
    same request: truncated, trailing or overlong input is refused. *)
Theorem spawn_request_exact data template patch :
  bytes_ok data ->
  spawn_decode_request data = Some (template, patch) <->
  data = spawn_encode_request template patch /\ blen data <= SPAWN_PATCH_MAX_BYTES /\
  template <> [] /\ str_ok template /\ list_ok field_ok patch.
Proof.
  intros Hd. unfold spawn_decode_request. destruct (Z.ltb_spec SPAWN_PATCH_MAX_BYTES (blen data)) as [H|H].
  { split; [done|]. lia. }
  rewrite (run_slice_exact put_request take_request request_ok) by done.
  unfold put_request, request_ok. cbn [fst snd]. tauto.
Qed.

(** The session reference and the two session-policy artefacts (the D-Bus
    filter and the tun grants) decode exactly when they are the encoding of a
    well-formed value, whatever the lists' lengths within 16 bits. *)
Theorem session_artefacts_exact data r a g :
  bytes_ok data ->
  (decode_ref data = Some r <-> data = put_ref r /\ ref_ok r) /\
  (broker_decode_accept data = Some a <-> data = broker_encode_accept a /\ accept_ok a) /\
  (tun_decode_accept data = Some g <-> data = tun_encode_accept g /\ tun_accept_ok g).
Proof.
  intros Hd. unfold decode_ref, broker_decode_accept, tun_decode_accept.
  split_and!; by apply run_slice_exact; [apply _|].
Qed.

(** A mesh registration decodes to the name and handle that were sent, for
    every UTF-8 name up to 255 bytes that does not end in a zero byte: the padding
    before the object is not taken into the name. *)
Theorem add_service_roundtrip en name handle c :
  utf8_ok name = true -> blen name <= ADD_NAME_MAX -> in_u32 handle ->
  last name = Some c -> c <> 0 ->
  decode_add_service en (add_service_data en name handle) = Some (name, handle).
Proof.
  intros Hu Hl Hh Hc Hz. unfold decode_add_service, add_service_data.
  assert (length (flat_handle en handle) = FLAT_BINDER_OBJECT_SIZE) as Lf
    by (unfold flat_handle; by rewrite !length_app, !length_ne_bytes).
  rewrite length_app, Lf. rewrite (proj2 (Nat.ltb_ge _ _)) by lia.
  replace (length (pad8 name) + FLAT_BINDER_OBJECT_SIZE - FLAT_BINDER_OBJECT_SIZE)%nat
    with (length (pad8 name)) by lia.
  rewrite drop_app_length, take_app_length, flat_handle_roundtrip by done. cbn [mbind option_bind].
  unfold pad8. rewrite (trim_start_unpad _ name c) by done.
  destruct name as [|b name]; [done|]. cbn [is_nil orb]. rewrite (proj2 (Z.ltb_ge _ _)) by done.
  unfold from_utf8. by rewrite Hu.
Qed.

Lemma spawn_request_exact_witness :
  spawn_decode_request (spawn_encode_request (ascii_bytes "net-fetch")
    [(ascii_bytes "fs.write", ascii_bytes "/w")]) =
  Some (ascii_bytes "net-fetch", [(ascii_bytes "fs.write", ascii_bytes "/w")]).
Proof.
  apply spawn_request_exact; [by apply (bool_decide_unpack _); vm_compute|].
  split_and!; [reflexivity|vm_compute; discriminate|done|vm_compute; repeat split; discriminate|].
  split; [vm_compute; discriminate|]. constructor; [|constructor].
  vm_compute. repeat split; discriminate.
Defined.

Lemma session_artefacts_exact_witness :
  decode_ref (encode_ref 66 (ascii_bytes "org.projectkennel.dbus")) =
    Some (66, ascii_bytes "org.projectkennel.dbus").
Proof.
  apply (session_artefacts_exact (encode_ref 66 (ascii_bytes "org.projectkennel.dbus"))
    (66, ascii_bytes "org.projectkennel.dbus") {| as_bus := 0; as_talk := []; as_call := [];
      as_broadcast := []; as_own := []; as_deny_talk := [] |} {| at_tun_addr := []; at_grants := [] |}).
  - by apply (bool_decide_unpack _); vm_compute.
  - split; [reflexivity|]. vm_compute. repeat split; discriminate.
Defined.

Lemma add_service_roundtrip_witness :
  decode_add_service LittleEndian (add_service_data LittleEndian (ascii_bytes "wayland") 66) =
    Some (ascii_bytes "wayland", 66).
Proof.
  apply (add_service_roundtrip LittleEndian (ascii_bytes "wayland") 66 100);
    first [vm_compute; reflexivity | vm_compute; discriminate | vm_compute; split; discriminate].
Defined.
