(* ===== verification/SpawnVerb.v ===== *)
(** The [SPAWN] verb ([kenneld/src/spawn.rs]): a workload asks for a sibling kennel built from an
    operator-signed template.

    [handle_spawn] is the whole handler: decode, grant, resolve, content pin,
    eligibility, patch, slot, channel, reply.  Reading a file and creating the
    channel are parameters; cryptography and TOML are the classes of [Verify].  The
    shared slot counter is claimed by a compare-exchange loop on several threads:
    [cstep] is its step relation.

    Theorems: exactly what gets built; the slot ceiling under every interleaving and
    that an unhindered claim ends; that a requester's name prefix selects its own
    children. *)

From stdpp Require Import relations.
From S2P Require Import Prelude Bytes Str IpText Plan Settled Paths PlanBuild Patch B64 Sshsig.
From S2P Require Import Verify BinderWire.
Open Scope Z_scope.

(** ** Statuses *)

Definition STATUS_OK : Z := 0.
Definition STATUS_DENIED : Z := 1.
Definition STATUS_BAD_REQUEST : Z := 4.
Definition STATUS_CEILING_FULL : Z := 6.

Inductive DenyReason : Type :=
  | MalformedRequest
  | NotGranted (template : bytes)
  | NotFound (template : bytes)
  | GateRefused (e : PolicyError)
  | NotEligible (e : Ineligible)
  | OutsideNarrowing (field : bytes)
  | PatchRefused (e : PatchError)
  | CeilingFull (max : Z)
  | MintFailed
  | DupFailed
  | NoGrant.
Record Deny : Type := { dn_status : Z; dn_reason : DenyReason }.
Definition deny (status : Z) (reason : DenyReason) : Deny := {| dn_status := status; dn_reason := reason |}.

(** ** Resolution and patch *)

Definition AT : Z := 64.

Section handler.
Context {C : Crypto} {L : Toml} (read : bytes -> option bytes).

Definition template_paths (dir name version : bytes) : list bytes :=
  [ path_join dir (name ++ [AT] ++ version ++ ascii_bytes ".settled.toml");
    path_join (path_join dir name) (name ++ ascii_bytes ".settled.toml") ].

(** [find_map]: the first readable file, in cascade order. *)
Fixpoint first_read (paths : list bytes) : option bytes :=
  match paths with
  | [] => None
  | p :: paths => match read p with Some bs => Some bs | None => first_read paths end
  end.
Definition resolve_template (dirs : list bytes) (reference : bytes) : option bytes :=
  let '(name, version) := default (reference, ascii_bytes "v1") (split_once AT reference) in
  first_read (flat_map (fun dir => template_paths dir name version) dirs).

Fixpoint build_patch (pin : SpawnTemplate) (pairs : list (bytes * bytes)) :
    result DenyReason (list PatchEntry) :=
  match pairs with
  | [] => Ok []
  | (field, value) :: pairs =>
      if negb (is_nil (st_mutable_narrow pin)) &&
         negb (existsb (fun f => bool_decide (f = field)) (st_mutable_narrow pin))
      then Err (OutsideNarrowing field)
      else rest ← build_patch pin pairs; Ok ({| pe_field := field; pe_value := value |} :: rest)
  end.

(** [SpawnRuntime], without the handles to threads and logs; [live] is the counter. *)
Record SpawnRuntime : Type := {
  srt_grant : SpawnGrant; srt_keys : KeySet; srt_template_dirs : list bytes;
}.

(** Steps 1 to 6 of [validate_and_mint]. *)
Definition vet (rt : SpawnRuntime) (data : bytes) : result Deny SettledPolicy :=
  '(template_ref, pairs) ← ok_or (deny STATUS_BAD_REQUEST MalformedRequest) (spawn_decode_request data);
  pin ← ok_or (deny STATUS_DENIED (NotGranted template_ref))
          (List.find (fun t => bool_decide (st_template t = template_ref)) (sp_allow (srt_grant rt)));
  bs ← ok_or (deny STATUS_DENIED (NotFound template_ref))
         (resolve_template (srt_template_dirs rt) template_ref);
  template ← map_err (fun e => deny STATUS_DENIED (GateRefused e))
               (verify_pinned bs (srt_keys rt) (st_signing_key_id pin) (st_signature pin));
  _ ← map_err (fun e => deny STATUS_DENIED (NotEligible e)) (spawn_eligible template);
  entries ← map_err (deny STATUS_DENIED) (build_patch pin pairs);
  map_err (fun e => deny STATUS_DENIED (PatchRefused e)) (instantiate template entries).

(** An uncontended [claim_slot]: the counter after a claim. *)
Definition claim_slot (live max : Z) : option Z :=
  if max <=? live then None else Some (Z.min u32_max (live + 1)).

(** Names. *)
Definition hex_digit (d : Z) : Z := if d <? 10 then 48 + d else 97 + (d - 10).
Fixpoint hex_digits (fuel : nat) (n : Z) : bytes :=
  match fuel with
  | O => []
  | S fuel => (if n <? 16 then [] else hex_digits fuel (n / 16)) ++ [hex_digit (n mod 16)]
  end.
(** [{:012x}] of a [u64]. *)
Definition hex12 (n : Z) : bytes :=
  let h := hex_digits 16 n in replicate (12 - length h) 48 ++ h.
Definition child_name_prefix (parent_ctx : Z) : bytes :=
  ascii_bytes "spawn-" ++ dec parent_ctx ++ ascii_bytes "-".
Definition spawn_name (parent_ctx counter : Z) : bytes :=
  ascii_bytes "spawn-" ++ dec parent_ctx ++ ascii_bytes "-" ++ hex12 counter.

(** The handler's effects: the reply bytes, whether the requester's two channel ends ride it, the
    instance handed to construction, and the counter (a dropped guard gives its slot back). *)
Record Handled : Type := {
  hd_reply : bytes; hd_fds : bool; hd_enqueued : option (SettledPolicy * bytes); hd_live : Z;
}.
Definition refuse (status live : Z) : Handled :=
  {| hd_reply := spawn_encode_reply status []; hd_fds := false; hd_enqueued := None; hd_live := live |}.

Definition handle_spawn (rt : option SpawnRuntime) (live ctx counter : Z) (mint_ok dup_ok : bool)
    (data : bytes) : Handled :=
  match rt with
  | None => refuse STATUS_DENIED live
  | Some rt =>
      match vet rt data with
      | Err d => refuse (dn_status d) live
      | Ok instance =>
          match claim_slot live (sp_max_instances (srt_grant rt)) with
          | None => refuse STATUS_CEILING_FULL live
          | Some claimed =>
              if negb mint_ok then refuse STATUS_DENIED (claimed - 1)
              else if negb dup_ok then refuse STATUS_DENIED (claimed - 1)
              else
                let name := spawn_name ctx counter in
                {| hd_reply := spawn_encode_reply STATUS_OK name; hd_fds := true;
                   hd_enqueued := Some (instance, name); hd_live := claimed |}
          end
      end
  end.
End handler.

(** ** The slot counter *)

(** One thread of the looper pool, as far as it touches the counter. *)
Inductive thread : Type :=
  | Outside                (* no claim in progress *)
  | Trying (cur : Z)       (* in [claim_slot]'s loop, with the value it last read *)
  | Holding                (* owns a [SlotGuard] *)
  | Full.                  (* [claim_slot] returned [None] *)
Global Instance thread_eq_dec : EqDecision thread.
Proof. solve_decision. Defined.

Record counter_state : Type := { cs_live : Z; cs_threads : list thread }.

Definition put_thread (s : counter_state) (i : nat) (live : Z) (t : thread) : counter_state :=
  {| cs_live := live; cs_threads := <[i:=t]> (cs_threads s) |}.

Inductive cstep (max : Z) : counter_state -> counter_state -> Prop :=
  | c_load s i : cs_threads s !! i = Some Outside ->
      cstep max s (put_thread s i (cs_live s) (Trying (cs_live s)))
  | c_full s i cur : cs_threads s !! i = Some (Trying cur) -> max <= cur ->
      cstep max s (put_thread s i (cs_live s) Full)
  | c_claim s i cur : cs_threads s !! i = Some (Trying cur) -> cur < max -> cs_live s = cur ->
      cstep max s (put_thread s i (Z.min u32_max (cur + 1)) Holding)
  (* another thread moved the counter, or the weak exchange failed spuriously *)
  | c_retry s i cur : cs_threads s !! i = Some (Trying cur) -> cur < max ->
      cstep max s (put_thread s i (cs_live s) (Trying (cs_live s)))
  (* [SlotGuard::drop] *)
  | c_drop s i : cs_threads s !! i = Some Holding ->
      cstep max s (put_thread s i ((cs_live s - 1) mod 2 ^ 32) Outside)
  | c_return s i : cs_threads s !! i = Some Full ->
      cstep max s (put_thread s i (cs_live s) Outside).

Definition holders (ts : list thread) : Z :=
  blen (List.filter (fun t => bool_decide (t = Holding)) ts).
Definition counter_init (n : nat) : counter_state :=
  {| cs_live := 0; cs_threads := replicate n Outside |}.

(** The thread alone, with an exchange that does not fail spuriously. *)
Definition solo (max : Z) (i : nat) (s : counter_state) : counter_state :=
  match cs_threads s !! i with
  | Some Outside => put_thread s i (cs_live s) (Trying (cs_live s))
  | Some (Trying cur) =>
      if max <=? cur then put_thread s i (cs_live s) Full
      else if cs_live s =? cur then put_thread s i (Z.min u32_max (cur + 1)) Holding
      else put_thread s i (cs_live s) (Trying (cs_live s))
  | _ => s
  end.

(** * What gets built *)

Definition entries_of (pairs : list (bytes * bytes)) : list PatchEntry :=
  map (fun f => {| pe_field := f.1; pe_value := f.2 |}) pairs.

Lemma build_patch_Ok pin pairs es :
  build_patch pin pairs = Ok es <->
  es = entries_of pairs /\
  (st_mutable_narrow pin = [] \/ Forall (fun f => f.1 ∈ st_mutable_narrow pin) pairs).
Proof.
  revert es; induction pairs as [|[k v] pairs IH]; intros es; cbn [build_patch].
  { split; [intros <-%(inj Ok); auto|by intros [-> _]]. }
  assert (negb (is_nil (st_mutable_narrow pin)) &&
          negb (existsb (fun f => bool_decide (f = k)) (st_mutable_narrow pin)) = false <->
          st_mutable_narrow pin = [] \/ k ∈ st_mutable_narrow pin) as Hc.
  { rewrite andb_false_iff, !negb_false_iff, existsb_exists.
    assert (is_nil (st_mutable_narrow pin) = true <-> st_mutable_narrow pin = []) as ->
      by (by destruct (st_mutable_narrow pin)).
    assert ((exists f, In f (st_mutable_narrow pin) /\ bool_decide (f = k) = true) <->
            k ∈ st_mutable_narrow pin) as ->; [|done].
    split; [intros (f & Hf & ->%bool_decide_eq_true); by apply list_elem_of_In|].
    intros Hk. exists k. split; [by apply list_elem_of_In|]. by apply bool_decide_eq_true. }
  destruct (_ && _); [split; [done|]|].
  - intros [_ [H|H%Forall_cons_1]]; [by assert (true = false) by tauto|].
    destruct H as [H _]. by assert (true = false) by tauto.
  - assert (st_mutable_narrow pin = [] \/ k ∈ st_mutable_narrow pin) as Hk by tauto. split.
    + intros (rest & Hr & <-%(inj Ok))%bind_Ok. apply IH in Hr as [-> Hn]. split; [done|].
      destruct Hk as [?|Hk]; [by left|]. destruct Hn as [?|Hn]; [by left|]. right. by constructor.
    + intros [-> Hn]. rewrite (proj2 (IH (entries_of pairs))); [done|]. split; [done|].
      destruct Hn as [?|[_ ?]%Forall_cons_1]; auto.
Qed.

Section built.
Context {C : Crypto} {L : Toml} (read : bytes -> option bytes).

(** The signed template a request resolves to, and the pin that names it. *)
Definition pinned_template (rt : SpawnRuntime) (ref : bytes) (pin : SpawnTemplate) (t : SettledPolicy) :
    Prop :=
  List.find (fun x => bool_decide (st_template x = ref)) (sp_allow (srt_grant rt)) = Some pin /\
  exists bs doc, resolve_template read (srt_template_dirs rt) ref = Some bs /\
    toml_parse bs = Some doc /\ t = sd_policy doc /\ doc_trusted doc (srt_keys rt) /\
    se_key_id (sd_signature doc) = st_signing_key_id pin /\
    se_signature (sd_signature doc) = st_signature pin.

(** What must hold of a request for [i] to be its instance. *)
Definition granted (rt : SpawnRuntime) (data : bytes) (i : SettledPolicy) : Prop :=
  exists ref pairs pin t,
    spawn_decode_request data = Some (ref, pairs) /\ pinned_template rt ref pin t /\
    spawn_eligible t = Ok tt /\
    (st_mutable_narrow pin = [] \/ Forall (fun f => f.1 ∈ st_mutable_narrow pin) pairs) /\
    instantiate t (entries_of pairs) = Ok i.

Lemma verify_pinned_Ok bs keys kid sig p :
  verify_pinned bs keys kid sig = Ok p <->
  exists doc, toml_parse bs = Some doc /\ p = sd_policy doc /\ doc_trusted doc keys /\
    se_key_id (sd_signature doc) = kid /\ se_signature (sd_signature doc) = sig.
Proof.
  unfold verify_pinned. destruct (toml_parse bs) as [doc|]; cbn [ok_or mbind result_bind];
    [|split; [done|by intros (? & ? & _)]].
  case_bool_decide as E1; cbn [negb orb]; [|split; [done|intros (d & [= <-] & _ & _ & ? & _); done]].
  case_bool_decide as E2; cbn [negb orb]; [|split; [done|intros (d & [= <-] & _ & _ & _ & ?); done]].
  rewrite verify_doc_Ok. split; [intros [? ?]; by exists doc|by intros (d & [= <-] & ? & ? & _)].
Qed.

Lemma vet_Ok rt data i : vet read rt data = Ok i <-> granted rt data i.
Proof.
  unfold vet, granted, pinned_template. split.
  - intros ((ref & pairs) & Hd & H)%bind_Ok. apply bind_Ok in H as (pin & Hpin & H).
    apply bind_Ok in H as (bs & Hbs & H). apply bind_Ok in H as (t & Ht & H).
    apply bind_Ok in H as ([] & He & H). apply bind_Ok in H as (es & Hes & H).
    apply map_err_Ok in Ht, He, Hes, H. apply verify_pinned_Ok in Ht as (doc & Hdoc).
    apply build_patch_Ok in Hes as [-> Hn].
    destruct (spawn_decode_request data) as [x|]; [|done]. apply (inj Ok) in Hd as ->.
    destruct (List.find _ _) as [x|] eqn:Ef; [|done]. apply (inj Ok) in Hpin as ->.
    destruct (resolve_template _ _ _) as [x|] eqn:Er; [|done]. apply (inj Ok) in Hbs as ->.
    exists ref, pairs, pin, t. split; [done|]. split; [|done]. split; [done|]. by exists bs, doc.
  - intros (ref & pairs & pin & t & -> & [Hf (bs & doc & Hr & Hdoc)] & He & Hn & Hi).
    cbn [ok_or mbind result_bind]. rewrite Hf. cbn [ok_or mbind result_bind].
    rewrite Hr. cbn [ok_or mbind result_bind].
    rewrite (proj2 (verify_pinned_Ok bs (srt_keys rt) (st_signing_key_id pin) (st_signature pin) t))
      by (by exists doc). cbn [map_err mbind result_bind]. rewrite He. cbn [map_err mbind result_bind].
    rewrite (proj2 (build_patch_Ok pin pairs (entries_of pairs))) by done.
    cbn [map_err mbind result_bind]. by rewrite Hi.
Qed.
End built.

(** * The slot counter *)

Lemma holders_cons x ts : holders (x :: ts) = Z.b2z (bool_decide (x = Holding)) + holders ts.
Proof.
  unfold holders. cbn [List.filter]. destruct (bool_decide (x = Holding)); cbn [length Z.b2z]; lia.
Qed.

Lemma holders_insert ts i t u :
  ts !! i = Some t ->
  holders (<[i:=u]> ts) = holders ts - Z.b2z (bool_decide (t = Holding)) + Z.b2z (bool_decide (u = Holding)).
Proof.
  revert i; induction ts as [|x ts IH]; intros [|i] Ht; [done..| |].
  - injection Ht as ->. change (<[0%nat:=u]> (t :: ts)) with (u :: ts). rewrite !holders_cons. lia.
  - change (<[S i:=u]> (x :: ts)) with (x :: <[i:=u]> ts). rewrite !holders_cons, (IH i) by done. lia.
Qed.

Lemma holders_bound ts : 0 <= holders ts <= blen ts.
Proof.
  unfold holders. pose proof (List.filter_length_le (fun t => bool_decide (t = Holding)) ts). lia.
Qed.

Lemma holding_counted ts i : ts !! i = Some Holding -> 1 <= holders ts.
Proof.
  intros Ht. pose proof (holders_insert ts i Holding Outside Ht) as E.
  pose proof (holders_bound (<[i:=Outside]> ts)).
  rewrite bool_decide_eq_true_2, bool_decide_eq_false_2 in E by done. cbn [Z.b2z] in E. lia.
Qed.

(** The counter is the number of guards, and a thread in the loop read a value in range. *)
Record counter_inv (max : Z) (s : counter_state) : Prop := {
  ci_live : cs_live s = holders (cs_threads s);
  ci_bound : cs_live s <= max;
  ci_read : forall i cur, cs_threads s !! i = Some (Trying cur) -> 0 <= cur;
}.

Lemma put_thread_inv max s i live t u :
  counter_inv max s -> cs_threads s !! i = Some t -> live <= max ->
  live = cs_live s - Z.b2z (bool_decide (t = Holding)) + Z.b2z (bool_decide (u = Holding)) ->
  (forall cur, u = Trying cur -> 0 <= cur) ->
  counter_inv max (put_thread s i live u).
Proof.
  intros [Hl Hb Hr] Ht Hm Hlive Hu. split; cbn.
  - by rewrite (holders_insert _ _ _ _ Ht), <- Hl.
  - done.
  - intros j cur. rewrite list_lookup_insert_Some. intros [(_ & E & _)|[_ H]]; [by apply Hu|by eapply Hr].
Qed.

Lemma cstep_inv max s s' :
  0 <= max <= u32_max -> counter_inv max s -> cstep max s s' -> counter_inv max s'.
Proof.
  intros Hm I H. pose proof I as [Hl Hb Hr].
  assert (0 <= cs_live s) as H0 by (rewrite Hl; apply holders_bound).
  destruct H as [s i Ht|s i cur Ht Hc|s i cur Ht Hc Hlv|s i cur Ht Hc|s i Ht|s i Ht];
    refine (put_thread_inv max s i _ _ _ I Ht _ _ _); try (intros cur' [= <-]; done); try done.
  all: repeat first [rewrite bool_decide_eq_true_2 by done | rewrite bool_decide_eq_false_2 by done];
    cbn [Z.b2z].
  all: try (pose proof (holding_counted _ _ Ht); rewrite Z.mod_small by (unfold u32_max in *; lia)).
  all: try rewrite Z.min_r by lia. all: lia.
Qed.

Lemma counter_init_inv max n : 0 <= max -> counter_inv max (counter_init n).
Proof.
  intros Hm. split; cbn; [|lia|].
  - induction n as [|n IH]; [done|]. cbn [replicate]. by rewrite holders_cons, <- IH.
  - intros i cur H%lookup_replicate. by destruct H.
Qed.

Lemma reachable_inv max n s :
  0 <= max <= u32_max -> rtc (cstep max) (counter_init n) s -> counter_inv max s.
Proof.
  intros Hm. apply (rtc_ind_r (counter_inv max)); [apply counter_init_inv; lia|].
  intros y z _ Hy Hi. by eapply cstep_inv.
Qed.

(** One step of a thread that finds the counter as it last read it decides the claim. *)
Lemma solo_fresh max i s :
  counter_inv max s -> max <= u32_max -> cs_threads s !! i = Some (Trying (cs_live s)) ->
  let s' := solo max i s in
  if max <=? cs_live s then cs_threads s' !! i = Some Full /\ cs_live s' = cs_live s
  else cs_threads s' !! i = Some Holding /\ cs_live s' = cs_live s + 1.
Proof.
  intros [_ Hb _] Hm Ht. pose proof (lookup_lt_Some _ _ _ Ht) as Hlt. cbv zeta. unfold solo.
  rewrite Ht, Z.eqb_refl. destruct (Z.leb_spec max (cs_live s)); cbn;
    (split; [by rewrite list_lookup_insert_eq|lia]).
Qed.

(** ** Names *)

Lemma split_first c a b a' b' :
  has_byte c a = false -> has_byte c a' = false -> a ++ c :: b = a' ++ c :: b' -> a = a' /\ b = b'.
Proof.
  revert a'; induction a as [|x a IH]; intros [|y a'] Ha Ha' E; cbn in *.
  - by injection E as ->.
  - injection E as -> _. by rewrite Z.eqb_refl in Ha'.
  - injection E as -> _. by rewrite Z.eqb_refl in Ha.
  - injection E as -> E. apply orb_false_iff in Ha as [_ Ha]. apply orb_false_iff in Ha' as [_ Ha'].
    by destruct (IH a' Ha Ha' E) as [-> ->].
Qed.

Lemma dec_no_dash n : 0 <= n -> has_byte 45 (dec n) = false.
Proof.
  intros Hn. apply not_true_iff_false. intros (b & Hb & <-%Z.eqb_eq)%existsb_exists.
  pose proof (dec_digits_ascii 20 n Hn) as Hd. rewrite Forall_forall in Hd.
  apply list_elem_of_In in Hb. by apply Hd in Hb.
Qed.

Lemma dec_inj n m : 0 <= n <= u16_max -> 0 <= m <= u16_max -> dec n = dec m -> n = m.
Proof.
  intros Hn Hm E. pose proof (parse_uint_dec u16_max n Hn ltac:(done)) as Hp.
  rewrite E, (parse_uint_dec u16_max m Hm ltac:(done)) in Hp. by simplify_eq.
Qed.

(** A name a spawn generated is under a requester's prefix exactly when that requester spawned it. *)
Lemma prefix_own_children c c' n :
  in_u16 c -> in_u16 c' ->
  starts_with (child_name_prefix c') (spawn_name c n) = true <-> c = c'.
Proof.
  intros Hc Hc'. rewrite starts_with_true. unfold child_name_prefix, spawn_name. split.
  - intros [r E]. rewrite <- !app_assoc in E. apply app_inv_head in E.
    change (ascii_bytes "-" ++ hex12 n) with (45 :: hex12 n) in E.
    change (ascii_bytes "-" ++ r) with (45 :: r) in E.
    apply split_first in E as [E _]; [by apply dec_inj|apply dec_no_dash; in_range..].
  - intros ->. exists (hex12 n). by rewrite <- !app_assoc.
Qed.

(** * Claims *)

(** A refusal's status is never the success byte. *)
Lemma vet_status {C : Crypto} {L : Toml} read rt data d :
  vet read rt data = Err d -> dn_status d <> STATUS_OK.
Proof.
  unfold vet. destruct (spawn_decode_request data) as [[ref pairs]|]; cbn; [|by intros [= <-]].
  destruct (List.find _ _) as [pin|]; cbn; [|by intros [= <-]].
  destruct (resolve_template _ _ _) as [bs|]; cbn; [|by intros [= <-]].
  destruct (verify_pinned _ _ _ _) as [t|]; cbn [map_err mbind result_bind]; [|by intros [= <-]].
  destruct (spawn_eligible t); cbn [map_err mbind result_bind]; [|by intros [= <-]].
  destruct (build_patch pin pairs); cbn [map_err mbind result_bind]; [|by intros [= <-]].
  destruct (instantiate t a0); cbn [map_err mbind result_bind]; [done|by intros [= <-]].
Qed.

(** C3: A [SPAWN] builds exactly what was granted: construction is handed an
    instance when the request decodes, its template is in the requester's signed
    grant, the bytes resolved from the trust store are the very artefact the grant
    pinned (key id and signature) and pass the trust gate, the template is eligible
    (no grant of its own, a lifetime, three resource ceilings), every written field
    is inside the requester's narrowing and the patch is admitted, a slot is free
    and the channel can be made; and then that instance is what is built, under the
    requester's name prefix, with one slot taken.  In every other case nothing is
    built, no descriptor is returned and no slot stays taken. *)
Theorem spawn_builds_exactly {C : Crypto} {L : Toml} read rt live ctx n mint dup data i name :
  0 <= live < u32_max ->
  let h := handle_spawn read (Some rt) live ctx n mint dup data in
  (hd_enqueued h = Some (i, name) <->
   granted read rt data i /\ live < sp_max_instances (srt_grant rt) /\ mint = true /\ dup = true /\
   name = spawn_name ctx n) /\
  match hd_enqueued h with
  | Some (_, nm) => hd_fds h = true /\ hd_live h = live + 1 /\ hd_reply h = STATUS_OK :: nm
  | None => hd_fds h = false /\ hd_live h = live /\ hd_reply h <> STATUS_OK :: name
  end.
Proof.
  intros Hl. unfold handle_spawn. cbv zeta. rewrite <- vet_Ok.
  assert (forall st : Z, st <> STATUS_OK ->
    hd_enqueued (refuse st live) = None /\ hd_fds (refuse st live) = false /\
    hd_live (refuse st live) = live /\ hd_reply (refuse st live) <> STATUS_OK :: name) as Href.
  { intros st Hst. split_and!; try done. unfold refuse. cbn. congruence. }
  destruct (vet read rt data) as [j|d] eqn:Ev.
  2: { destruct (Href (dn_status d) (vet_status _ _ _ _ Ev)) as (-> & Hr). split; [|done].
       split; [done|]. by intros [? _]. }
  unfold claim_slot. destruct (Z.leb_spec (sp_max_instances (srt_grant rt)) live) as [Hf|Hf].
  { destruct (Href STATUS_CEILING_FULL) as (-> & Hr); [done|]. split; [|done].
    split; [done|]. intros (_ & ? & _). lia. }
  rewrite Z.min_r by lia. replace (live + 1 - 1) with live by lia.
  destruct mint; cbn [negb]; [destruct dup; cbn [negb]|].
  - cbn [hd_enqueued hd_fds hd_live hd_reply]. split; [|done]. split.
    + by intros [= -> ->].
    + by intros ([= ->] & _ & _ & _ & ->).
  - destruct (Href STATUS_DENIED) as (-> & Hr); [done|]. split; [|done].
    split; [done|]. by intros (_ & _ & _ & ? & _).
  - destruct (Href STATUS_DENIED) as (-> & Hr); [done|]. split; [|done].
    split; [done|]. by intros (_ & _ & ? & _).
Qed.

(** C35: The slot ceiling holds under every interleaving of the looper threads: in
    every reachable state the counter is the number of guards held, it never exceeds
    the grant's maximum, and so it neither saturates nor wraps. *)
Theorem slots_never_exceed max n s :
  0 <= max <= u32_max -> rtc (cstep max) (counter_init n) s ->
  cs_live s = holders (cs_threads s) /\ holders (cs_threads s) <= max.
Proof.
  intros Hm Hs. destruct (reachable_inv max n s Hm Hs) as [Hl Hb _]. by rewrite <- Hl.
Qed.

(** A claim ends: from any reachable state, a thread inside [claim_slot] that
    runs alone, with an exchange that fails only when the counter moved, returns
    within two steps.  It returns with a slot, counted once, whenever the value it
    last read and the counter are both below the ceiling, and otherwise without one
    and without touching the counter. *)
Theorem claim_ends_alone max n s i cur :
  0 <= max <= u32_max -> rtc (cstep max) (counter_init n) s ->
  cs_threads s !! i = Some (Trying cur) ->
  exists k, (1 <= k <= 2)%nat /\
    let s' := Nat.iter k (solo max i) s in
    if (cur <? max) && (cs_live s <? max)
    then cs_threads s' !! i = Some Holding /\ cs_live s' = cs_live s + 1
    else cs_threads s' !! i = Some Full /\ cs_live s' = cs_live s.
Proof.
  intros Hm Hs Ht. pose proof (reachable_inv max n s Hm Hs) as I.
  pose proof (lookup_lt_Some _ _ _ Ht) as Hlt. pose proof (ci_read _ _ I _ _ Ht) as H0.
  destruct (Z.ltb_spec cur max) as [Hc|Hc]; cbn [andb].
  2: { exists 1%nat. split; [lia|]. cbn [Nat.iter nat_rect]. unfold solo. rewrite Ht.
       rewrite (proj2 (Z.leb_le _ _)) by lia. cbn. by rewrite list_lookup_insert_eq. }
  destruct (Z.eq_dec (cs_live s) cur) as [<-|Hne].
  - exists 1%nat. split; [lia|]. pose proof (solo_fresh max i s I ltac:(lia) Ht) as H.
    rewrite Z.leb_antisym in H. by destruct (cs_live s <? max).
  - exists 2%nat. split; [lia|]. set (s1 := put_thread s i (cs_live s) (Trying (cs_live s))).
    assert (solo max i s = s1) as E.
    { unfold solo. rewrite Ht, (proj2 (Z.leb_gt _ _)), (proj2 (Z.eqb_neq _ _)) by lia. done. }
    cbn [Nat.iter nat_rect]. rewrite E.
    assert (counter_inv max s1) as I1 by (by eapply cstep_inv; [|exact I|eapply c_retry]).
    assert (cs_threads s1 !! i = Some (Trying (cs_live s1))) as Ht1 by (by apply list_lookup_insert_eq).
    pose proof (solo_fresh max i s1 I1 ltac:(lia) Ht1) as H. cbn [cs_live s1 put_thread] in H.
    rewrite Z.leb_antisym in H. by destruct (cs_live s <? max).
Qed.

(** * Examples *)

Definition worker_template : SettledPolicy := let p := sample_template in {|
  sp_settled_schema_version := sp_settled_schema_version p; sp_name := sp_name p;
  sp_deferred_substitutions := sp_deferred_substitutions p;
  sp_framework_invariants_asserted := sp_framework_invariants_asserted p;
  sp_effective_policy := sp_effective_policy p; sp_provenance := sp_provenance p;
  sp_ssh := sp_ssh p; sp_unix := sp_unix p; sp_identity := sp_identity p; sp_mesh := sp_mesh p;
  sp_service := sp_service p; sp_dbus := sp_dbus p; sp_audit := sp_audit p; sp_env := sp_env p;
  sp_ulimits := {| ul_limits := map (fun k => (k, ascii_bytes "64")) REQUIRED_CEILINGS |};
  sp_workload := sp_workload p; sp_rootfs := sp_rootfs p;
  sp_spawn := sp_spawn p; sp_manifest := sp_manifest p |}.
Definition worker_doc : SignedSettledPolicy :=
  {| sd_signature := @sign_envelope toy_crypto toy_key (ascii_bytes "body"); sd_policy := worker_template |}.
Definition worker_read (path : bytes) : option bytes :=
  if bool_decide (path = ascii_bytes "/etc/kennel/templates/worker@v2.settled.toml") then Some [1] else None.
Definition worker_rt : SpawnRuntime := {|
  srt_grant := {| sp_max_instances := 2;
    sp_allow := [{| st_template := ascii_bytes "worker@v2"; st_signing_key_id := ascii_bytes "ops";
      st_signature := se_signature (sd_signature worker_doc);
      st_mutable_narrow := [ascii_bytes "fs.write"; ascii_bytes "workload.argv"] |}] |};
  srt_keys := toy_keys; srt_template_dirs := [ascii_bytes "/etc/kennel/templates"] |}.
Definition worker_request (field value : string) : bytes :=
  spawn_encode_request (ascii_bytes "worker@v2") [(ascii_bytes field, ascii_bytes value)].
Definition worker_spawn (live : Z) (data : bytes) : Handled :=
  @handle_spawn toy_crypto (one_document worker_doc) worker_read (Some worker_rt) live 7 18 true true data.
Definition worker_instance : SettledPolicy :=
  match instantiate worker_template [sample_entry "fs.write" "out/a"] with
  | Ok i => i | Err _ => worker_template end.

(** The granted write is built; the same template with a field outside the narrowing, or with no
    slot left, is not. *)
Lemma spawn_builds_exactly_witness :
  @granted toy_crypto (one_document worker_doc) worker_read worker_rt (worker_request "fs.write" "out/a")
    worker_instance /\
  hd_reply (worker_spawn 1 (worker_request "fs.write" "out/a")) =
    STATUS_OK :: ascii_bytes "spawn-7-000000000012" /\
  hd_reply (worker_spawn 2 (worker_request "fs.write" "out/a")) = [STATUS_CEILING_FULL] /\
  hd_reply (worker_spawn 1 (worker_request "net.proxy.allow" "api.github.com:443")) = [STATUS_DENIED].
Proof.
  split; [|split; [|split]; vm_compute; reflexivity].
  destruct (@spawn_builds_exactly toy_crypto (one_document worker_doc) worker_read worker_rt 1 7 18 true true
    (worker_request "fs.write" "out/a") worker_instance (spawn_name 7 18)) as [H _]; [by split|].
  apply H. vm_compute. reflexivity.
Defined.

(** Two threads race for the one slot: the one whose exchange loses finds the pool full. *)
Definition raced : counter_state := {| cs_live := 1; cs_threads := [Holding; Trying 0] |}.
Lemma raced_reachable : rtc (cstep 1) (counter_init 2) raced.
Proof.
  eapply rtc_l; [by apply (c_load 1 (counter_init 2) 0)|].
  eapply rtc_l; [by apply (c_load 1 _ 1)|].
  apply rtc_once. by apply (c_claim 1 {| cs_live := 0; cs_threads := [Trying 0; Trying 0] |} 0 0).
Qed.

Lemma slots_never_exceed_witness : cs_live raced = 1 /\ holders (cs_threads raced) <= 1.
Proof.
  split; [reflexivity|]. apply (slots_never_exceed 1 2 raced); [done|exact raced_reachable].
Defined.

Lemma claim_ends_alone_witness :
  exists k, (1 <= k <= 2)%nat /\ cs_threads (Nat.iter k (solo 1 1) raced) !! 1%nat = Some Full.
Proof.
  destruct (claim_ends_alone 1 2 raced 1 0) as (k & Hk & H & _); [done|exact raced_reachable|done|].
  by exists k.
Defined.
