(* ===== verification/Registry.v ===== *)
(** The daemon's registry ([kenneld/src/server.rs], [ctx.rs], [cgroup.rs]).

    One mutex guards a context allocator and the map of registered kennels; every
    connection thread reserves a name, runs its kennel and releases it.  The
    operations on the registry are functions; [dstep] is the step relation of the
    daemon's threads over it, one step per critical section or kill, so every
    interleaving of runs and stops is an execution.  [kstep] is the interlock
    between a requester's teardown and the construction of the kennels it
    spawned.

    A cgroup is its context number; writing [cgroup.kill] ends the kennel whose
    processes are in it.  The terminal broker of a kennel is a handle. *)

From stdpp Require Import gmap relations sorting.
From S2P Require Import Prelude Bytes Str Paths Plan Settled Cursor ControlWire Mesh.
From S2P Require Import IpText PlanBuild Patch B64 Sshsig Verify BinderWire SpawnVerb.
Open Scope Z_scope.

(** ** Contexts ([ctx.rs]) *)

Definition DEFAULT_CTX : Z := 0.
Definition MAX_V4_CTX : Z := 255.

Record CtxAllocator : Type := { al_used : gset Z; al_max : Z }.
Definition ctx_new : CtxAllocator := {| al_used := ∅; al_max := MAX_V4_CTX |}.
Definition with_max (max : Z) : CtxAllocator := {| al_used := ∅; al_max := max |}.
Definition ctx_insert (a : CtxAllocator) (c : Z) : CtxAllocator :=
  {| al_used := {[c]} ∪ al_used a; al_max := al_max a |}.
Definition allocate (a : CtxAllocator) : option (Z * CtxAllocator) :=
  match List.find (fun c => bool_decide (c ∉ al_used a)) (seqZ (DEFAULT_CTX + 1) (al_max a)) with
  | Some c => Some (c, ctx_insert a c)
  | None => None
  end.
Definition ctx_reserve (a : CtxAllocator) (c : Z) : bool * CtxAllocator :=
  if (c =? DEFAULT_CTX) || (al_max a <? c) || bool_decide (c ∈ al_used a) then (false, a)
  else (true, ctx_insert a c).
Definition ctx_release (a : CtxAllocator) (c : Z) : CtxAllocator :=
  {| al_used := al_used a ∖ {[c]}; al_max := al_max a |}.

(** ** The registry *)

Record ConsumedEntry : Type := { ce_name : bytes; ce_shape : bytes; ce_required : bool }.
Record KennelMeta : Type := {
  km_ctx : Z; km_pid : option Z; km_broker : option Z; km_consumed : list ConsumedEntry;
  km_settled : option SettledPolicy;
}.
Record Registry : Type := { rg_ctx : CtxAllocator; rg_kennels : gmap bytes KennelMeta }.
Definition registry_default : Registry := {| rg_ctx := ctx_new; rg_kennels := ∅ |}.

Definition quoted (s : bytes) : bytes := ascii_bytes "`" ++ s ++ ascii_bytes "`".
Definition msg_running (name : bytes) : bytes :=
  ascii_bytes "kennel " ++ quoted name ++ ascii_bytes " is already running".
Definition msg_no_context : bytes := ascii_bytes "no free context (the kennel limit is reached)".
Definition msg_unknown (name : bytes) : bytes := ascii_bytes "no kennel named " ++ quoted name.
Definition msg_starting (name : bytes) : bytes :=
  ascii_bytes "kennel " ++ quoted name ++ ascii_bytes " is still starting".

Definition new_meta (ctx : Z) : KennelMeta := {|
  km_ctx := ctx; km_pid := None; km_broker := None; km_consumed := []; km_settled := None |}.
Definition reserve (r : Registry) (name : bytes) : result Response (Z * Registry) :=
  match rg_kennels r !! name with
  | Some _ => Err (Resp_Error (msg_running name))
  | None =>
      match allocate (rg_ctx r) with
      | None => Err (Resp_Error msg_no_context)
      | Some (ctx, a) =>
          Ok (ctx, {| rg_ctx := a; rg_kennels := <[name := new_meta ctx]> (rg_kennels r) |})
      end
  end.

(** [if let Some(meta) = reg.kennels.get_mut(name) { .. }]. *)
Definition update_meta (f : KennelMeta -> KennelMeta) (r : Registry) (name : bytes) : Registry :=
  {| rg_ctx := rg_ctx r; rg_kennels := alter f name (rg_kennels r) |}.
Definition set_broker (r : Registry) (name : bytes) (broker : Z) : Registry :=
  update_meta (fun m => {| km_ctx := km_ctx m; km_pid := km_pid m; km_broker := Some broker;
    km_consumed := km_consumed m; km_settled := km_settled m |}) r name.
Definition set_settled (r : Registry) (name : bytes) (p : SettledPolicy) : Registry :=
  update_meta (fun m => {| km_ctx := km_ctx m; km_pid := km_pid m; km_broker := km_broker m;
    km_consumed := km_consumed m; km_settled := Some p |}) r name.
Definition set_pid (r : Registry) (name : bytes) (pid : Z) : Registry :=
  update_meta (fun m => {| km_ctx := km_ctx m; km_pid := Some pid; km_broker := km_broker m;
    km_consumed := km_consumed m; km_settled := km_settled m |}) r name.
Definition note_consumes (r : Registry) (name : bytes) (entries : list ConsumedEntry) : Registry :=
  update_meta (fun m => {| km_ctx := km_ctx m; km_pid := km_pid m; km_broker := km_broker m;
    km_consumed := entries; km_settled := km_settled m |}) r name.
Definition broker_for (r : Registry) (name : bytes) : option Z :=
  m ← rg_kennels r !! name; km_broker m.
Definition ctx_pid (r : Registry) (name : bytes) : option (Z * Z) :=
  m ← rg_kennels r !! name; pid ← km_pid m; Some (km_ctx m, pid).
Definition release (r : Registry) (name : bytes) (ctx : Z) : Registry :=
  {| rg_ctx := ctx_release (rg_ctx r) ctx; rg_kennels := delete name (rg_kennels r) |}.

(** The entries in the order of the tree map. *)
Definition name_le (a b : bytes * KennelMeta) : Prop := bytes_leb a.1 b.1 = true.
Global Instance name_le_dec a b : Decision (name_le a b).
Proof. unfold name_le. apply _. Defined.
Definition entries (r : Registry) : list (bytes * KennelMeta) :=
  merge_sort name_le (map_to_list (rg_kennels r)).

Definition any_running_consumer (r : Registry) (capabilities : list bytes) : bool :=
  existsb (fun e => existsb (fun c => bool_decide (ce_name c ∈ capabilities)) (km_consumed e.2))
    (entries r).
Definition children_of (r : Registry) (parent_ctx : Z) : list Z :=
  map (fun e => km_ctx e.2)
    (List.filter (fun e => starts_with (child_name_prefix parent_ctx) e.1) (entries r)).

(** The lookup of [stop]: the context of a started kennel. *)
Definition stop_lookup (r : Registry) (name : bytes) : result Response Z :=
  match rg_kennels r !! name with
  | None => Err (Resp_Error (msg_unknown name))
  | Some m =>
      match km_pid m with
      | None => Err (Resp_Error (msg_starting name))
      | Some _ => Ok (km_ctx m)
      end
  end.

(** [list], with the brokers' [is_attached]. *)
Definition kennel_info (attached : Z -> bool) (e : bytes * KennelMeta) : KennelInfo := {|
  ki_kennel := e.1; ki_ctx := km_ctx e.2; ki_pid := default 0 (km_pid e.2);
  ki_running := negb (is_none (km_pid e.2));
  ki_attached := match km_broker e.2 with Some b => attached b | None => false end;
  ki_consumed := map (fun c => {| cc_name := ce_name c; cc_shape := ce_shape c;
    cc_required := ce_required c |}) (km_consumed e.2) |}.
Definition list_kennels (attached : Z -> bool) (r : Registry) : Response :=
  Resp_Listing (map (kennel_info attached) (entries r)).

(** [mesh]: one row per offer, providers in the catalogue's order. *)
Definition shape_str (s : Shape) : bytes :=
  ascii_bytes (match s with AfUnix => "af-unix" | DbusName => "dbus-name"
               | BinderConnector => "binder-connector" end).
Definition tier_str (t : Tier) : bytes := ascii_bytes (match t with User => "user" | Host => "host" end).
Definition enablement_str (e : Enablement) : bytes :=
  ascii_bytes (match e with Autorun => "autorun" | Ondemand => "ondemand" end).
Definition readiness_str (r : Readiness) : bytes :=
  ascii_bytes (match r with Pending => "pending" | Ready => "ready" | Failed => "failed" end).
Definition provider_le (a b : bytes * CatalogueProvider) : Prop := bytes_leb a.1 b.1 = true.
Global Instance provider_le_dec a b : Decision (provider_le a b).
Proof. unfold provider_le. apply _. Defined.
Definition mesh_rows (e : bytes * CatalogueProvider) : list MeshProvider :=
  map (fun o => {| mp_capability := pv_name o; mp_provider := e.1; mp_shape := shape_str (pv_shape o);
    mp_tier := tier_str (cp_tier e.2); mp_enablement := enablement_str (cp_enablement e.2);
    mp_readiness := readiness_str (cp_readiness e.2) |}) (cp_offers e.2).
Definition mesh (c : Catalogue) : Response :=
  Resp_Mesh (flat_map mesh_rows (merge_sort provider_le (map_to_list (ct_providers c)))).

(** [GET_SESSION_POLICY]. *)
Definition session_policy_for (r : Registry) (ctx : Z) (name : bytes) : option bytes :=
  e ← List.find (fun e => km_ctx e.2 =? ctx) (entries r);
  settled ← km_settled e.2;
  bus ← capability_bus name;
  rules ← (if bus =? DBUS_SYSTEM then du_system (sp_dbus settled) else du_session (sp_dbus settled));
  Some (broker_encode_accept {| as_bus := bus; as_talk := db_talk rules; as_call := db_call rules;
    as_broadcast := db_broadcast rules; as_own := db_own rules; as_deny_talk := db_deny_talk rules |}).

(** ** Names and dispatch *)

Definition MAX_KENNEL_NAME : Z := 64.
Inductive NameError : Type := NameEmpty | NameTooLong | NameStart | NameIllegal.
Definition is_lower (b : Z) : bool := (97 <=? b) && (b <=? 122).
Definition name_start (b : Z) : bool := is_lower b || is_digit b.
Definition name_char (b : Z) : bool := is_lower b || is_digit b || (b =? 45).
Definition validate_kennel_name (name : bytes) : result NameError unit :=
  match name with
  | [] => Err NameEmpty
  | first :: _ =>
      if MAX_KENNEL_NAME <? blen name then Err NameTooLong
      else if negb (name_start first) then Err NameStart
      else if existsb (fun b => negb (name_char b)) name then Err NameIllegal
      else Ok tt
  end.

Definition ssh_host_alias (dest : bytes) : bytes :=
  match rsplit_once AT dest with Some (_, host) => host | None => dest end.

(** What a request does besides reading: the calls that own the connection, and the resize. *)
Inductive effect : Type :=
  | ERun (req : StartRequest)
  | EStop (name : bytes)
  | EAttach (name : bytes)
  | EResize (broker rows cols : Z)
  | ERebuild.

(** [dispatch_request]: the response sent at once, if any, and the effect.  The answer to a [Stop]
    is the effect's; [describe] words a name error; [akc] is the bastion's line lookup. *)
Definition dispatch_request (describe : NameError -> bytes -> bytes) (akc : bytes -> list bytes)
    (attached : Z -> bool) (build : bytes) (r : Registry) (c rebuilt : Catalogue) (q : Request) :
    option Response * option effect :=
  let named name k := match validate_kennel_name name with
                      | Ok _ => k
                      | Err e => (Some (Resp_Error (describe e name)), None) end in
  match q with
  | Req_Start req => named (sr_kennel req) (None, Some (ERun req))
  | Req_Stop kennel => named kennel (None, Some (EStop kennel))
  | Req_List => (Some (list_kennels attached r), None)
  | Req_Mesh => (Some (mesh c), None)
  | Req_Version =>
      (Some (Resp_Version build SETTLED_SCHEMA_VERSION MIN_SETTLED_SCHEMA_VERSION), None)
  | Req_AuthorizedKeys key => (Some (Resp_AuthorizedKeys (akc key)), None)
  | Req_Attach kennel => named kennel (None, Some (EAttach kennel))
  | Req_Resize kennel rows cols =>
      named kennel (None, match broker_for r kennel with
                          | Some b => Some (EResize b rows cols) | None => None end)
  | Req_PromptReply _ _ => (Some (Resp_Error (ascii_bytes "unexpected PromptReply")), None)
  | Req_DaemonReload =>
      (Some (Resp_Reloaded (sat_u32 (Z.of_nat (size (ct_by_name rebuilt))))), Some ERebuild)
  end.

(** ** The workload of a start request *)

Inductive WorkloadError : Type := NoWorkload | PinnedWorkload.
Definition effective_workload (req : StartRequest) (w : WorkloadRuntime) :
    result WorkloadError (list bytes * bytes) :=
  if is_nil (sr_argv req) then
    if is_nil (wl_argv w) then Err NoWorkload
    else Ok (wl_argv w, default (sr_cwd req) (wl_cwd w))
  else if wl_pinned w && wl_allowed_args w then
    Ok (wl_argv w ++ sr_argv req, default (sr_cwd req) (wl_cwd w))
  else if wl_pinned w && negb (sr_force req) then Err PinnedWorkload
  else Ok (sr_argv req, sr_cwd req).

(** [resolve_cwd_grant], against a file system. *)
Record stat : Type := { st_dir : bool; st_uid : Z; st_mode : Z }.
Inductive CwdError : Type :=
  | CwdUnresolved | CwdNoStat | CwdNotDir | CwdNotOwned | CwdWorldWritable | CwdNoHome | CwdIsHome
  | CwdMissing (marker : bytes).
Section cwd.
Context (canonicalize : bytes -> option bytes) (metadata : bytes -> option stat)
        (HOME : option bytes) (real_uid : Z).
Definition marker_present (resolved marker : bytes) : bool :=
  let '(name, want_dir) := match strip_suffix [SLASH] marker with
                           | Some n => (n, true) | None => (marker, false) end in
  match metadata (path_join resolved name) with
  | Some m => negb want_dir || st_dir m
  | None => false
  end.
Definition resolve_cwd_grant (cwd : bytes) (required : list bytes) : result CwdError bytes :=
  resolved ← ok_or CwdUnresolved (canonicalize cwd);
  meta ← ok_or CwdNoStat (metadata resolved);
  if negb (st_dir meta) then Err CwdNotDir
  else if negb (st_uid meta =? real_uid) then Err CwdNotOwned
  else if negb (Z.land (st_mode meta) 2 =? 0) then Err CwdWorldWritable
  else
    home ← ok_or CwdNoHome (h ← HOME; canonicalize h);
    if path_eqb home resolved then Err CwdIsHome
    else match List.find (fun m => negb (marker_present resolved m)) required with
         | Some m => Err (CwdMissing m)
         | None => Ok resolved
         end.
End cwd.

(** ** Cgroups ([cgroup.rs]) *)

Definition CR : Z := 13.
Definition CGROUP_MOUNT : bytes := ascii_bytes "/sys/fs/cgroup".
Definition KENNEL_PREFIX : bytes := ascii_bytes "kennel-".
Definition V2_LINE : bytes := ascii_bytes "0::".

(** [str::lines]: a final empty piece is no line, a trailing carriage return is dropped. *)
Definition lines (s : bytes) : list bytes :=
  let ps := split_on NL s in
  let ps := match last ps with Some [] => take (length ps - 1) ps | _ => ps end in
  map (fun l => default l (strip_suffix [CR] l)) ps.
Fixpoint find_map {A B} (f : A -> option B) (l : list A) : option B :=
  match l with
  | [] => None
  | x :: l => match f x with Some y => Some y | None => find_map f l end
  end.
Definition parse_self_cgroup (content : bytes) : option bytes :=
  rest ← find_map (strip_prefix V2_LINE) (lines content);
  Some (path_join CGROUP_MOUNT (trim_start_matches (fun b => b =? SLASH) rest)).
Definition kennel_cgroup (base : bytes) (ctx : Z) : bytes := path_join base (KENNEL_PREFIX ++ dec ctx).
Definition ctx_from_cgroup (content : bytes) : option Z :=
  path ← find_map (strip_prefix V2_LINE) (lines content);
  n ← find_map (strip_prefix KENNEL_PREFIX) (split_on SLASH path);
  parse_uint u16_max n.

(** ** The daemon's threads *)

(** A [run_kennel] thread.  While a kennel is starting its processes may already be in the cgroup; a
    kill then shows as the failure or the early exit that is possible there anyway. *)
Inductive run : Type :=
  | RIdle (name : bytes)
  | RStarting (name : bytes) (ctx : Z)
  | RRunning (name : bytes) (ctx : Z)
  | RExited (name : bytes) (ctx : Z)
  | RReaping (name : bytes) (ctx : Z) (todo : list Z)
  | RDone.
(** A [stop] in progress: looked up, reaping the children, done. *)
Inductive stopper : Type :=
  | SIdle (name : bytes)
  | SLooked (name : bytes) (ctx : Z)
  | SReaping (name : bytes) (ctx : Z) (todo : list Z)
  | SDone.

Record daemon : Type := {
  dm_reg : Registry; dm_runs : list run; dm_stops : list stopper;
  dm_stopped : list (bytes * list bytes);  (* each finished stop, with the kennels its kill ended *)
}.
Definition daemon_init (requests stops : list bytes) : daemon := {|
  dm_reg := registry_default; dm_runs := map RIdle requests; dm_stops := map SIdle stops;
  dm_stopped := [] |}.

(** Writing [cgroup.kill] of a context. *)
Definition kill_run (ctx : Z) (t : run) : run :=
  match t with RRunning n c => if c =? ctx then RExited n c else t | _ => t end.
Definition victims (ctx : Z) (runs : list run) : list bytes :=
  omap (fun t => match t with RRunning n c => if c =? ctx then Some n else None | _ => None end) runs.

Definition with_run (d : daemon) (i : nat) (t : run) (r : Registry) : daemon := {|
  dm_reg := r; dm_runs := <[i := t]> (dm_runs d); dm_stops := dm_stops d;
  dm_stopped := dm_stopped d |}.
Definition with_stop (d : daemon) (i : nat) (t : stopper) : daemon := {|
  dm_reg := dm_reg d; dm_runs := dm_runs d; dm_stops := <[i := t]> (dm_stops d);
  dm_stopped := dm_stopped d |}.
Definition with_kill (d : daemon) (ctx : Z) : daemon := {|
  dm_reg := dm_reg d; dm_runs := map (kill_run ctx) (dm_runs d); dm_stops := dm_stops d;
  dm_stopped := dm_stopped d |}.
Definition log_stop (d : daemon) (name : bytes) (vs : list bytes) : daemon := {|
  dm_reg := dm_reg d; dm_runs := dm_runs d; dm_stops := dm_stops d;
  dm_stopped := (name, vs) :: dm_stopped d |}.

Inductive dstep : daemon -> daemon -> Prop :=
  | d_reserve d i name ctx r : dm_runs d !! i = Some (RIdle name) ->
      reserve (dm_reg d) name = Ok (ctx, r) -> dstep d (with_run d i (RStarting name ctx) r)
  | d_refused d i name e : dm_runs d !! i = Some (RIdle name) ->
      reserve (dm_reg d) name = Err e -> dstep d (with_run d i RDone (dm_reg d))
  | d_consumes d i name ctx es : dm_runs d !! i = Some (RStarting name ctx) ->
      dstep d (with_run d i (RStarting name ctx) (note_consumes (dm_reg d) name es))
  | d_settled d i name ctx p : dm_runs d !! i = Some (RStarting name ctx) ->
      dstep d (with_run d i (RStarting name ctx) (set_settled (dm_reg d) name p))
  | d_fail d i name ctx : dm_runs d !! i = Some (RStarting name ctx) ->
      dstep d (with_run d i RDone (release (dm_reg d) name ctx))
  | d_started d i name ctx pid : dm_runs d !! i = Some (RStarting name ctx) ->
      dstep d (with_run d i (RRunning name ctx) (set_pid (dm_reg d) name pid))
  | d_broker d i name ctx b : dm_runs d !! i = Some (RRunning name ctx) ->
      dstep d (with_run d i (RRunning name ctx) (set_broker (dm_reg d) name b))
  | d_exit d i name ctx : dm_runs d !! i = Some (RRunning name ctx) ->
      dstep d (with_run d i (RExited name ctx) (dm_reg d))
  | d_collect d i name ctx : dm_runs d !! i = Some (RExited name ctx) ->
      dstep d (with_run d i (RReaping name ctx (children_of (dm_reg d) ctx)) (dm_reg d))
  | d_reap d i name ctx c todo : dm_runs d !! i = Some (RReaping name ctx (c :: todo)) ->
      dstep d (with_kill (with_run d i (RReaping name ctx todo) (dm_reg d)) c)
  | d_release d i name ctx : dm_runs d !! i = Some (RReaping name ctx []) ->
      dstep d (with_run d i RDone (release (dm_reg d) name ctx))
  | s_lookup d i name ctx : dm_stops d !! i = Some (SIdle name) ->
      stop_lookup (dm_reg d) name = Ok ctx -> dstep d (with_stop d i (SLooked name ctx))
  | s_refused d i name e : dm_stops d !! i = Some (SIdle name) ->
      stop_lookup (dm_reg d) name = Err e -> dstep d (with_stop d i SDone)
  | s_collect d i name ctx : dm_stops d !! i = Some (SLooked name ctx) ->
      dstep d (with_stop d i (SReaping name ctx (children_of (dm_reg d) ctx)))
  | s_reap d i name ctx c todo : dm_stops d !! i = Some (SReaping name ctx (c :: todo)) ->
      dstep d (with_kill (with_stop d i (SReaping name ctx todo)) c)
  | s_kill d i name ctx : dm_stops d !! i = Some (SReaping name ctx []) ->
      dstep d (log_stop (with_kill (with_stop d i SDone) ctx) name (victims ctx (dm_runs d))).

(** ** A requester's teardown and its spawned kennels *)

(** A spawned kennel: enqueued, reserved, its processes in its cgroup, past its check of the
    requester's flag, gone.  The booleans say whether it has been killed. *)
Inductive kid : Type :=
  | KNew
  | KReserved (ctx : Z)
  | KLive (ctx : Z) (killed : bool)
  | KChecked (ctx : Z) (killed : bool)
  | KGone.
(** The requester's [run_kennel] thread from [Kennel::stop] to its release. *)
Inductive requester : Type := PRunning | PStopped | PReaping (todo : list Z) | PDone.

Record interlock : Type := {
  il_reg : Registry; il_alive : bool; il_parent : requester; il_kids : list (bytes * kid);
}.
Definition interlock_init (r : Registry) (names : list bytes) : interlock := {|
  il_reg := r; il_alive := true; il_parent := PRunning; il_kids := map (fun n => (n, KNew)) names |}.

Definition kill_kid (c : Z) (k : bytes * kid) : bytes * kid :=
  match k.2 with
  | KLive ctx killed => (k.1, KLive ctx (killed || (ctx =? c)))
  | KChecked ctx killed => (k.1, KChecked ctx (killed || (ctx =? c)))
  | _ => k
  end.
Definition with_kid (s : interlock) (i : nat) (n : bytes) (k : kid) (r : Registry) : interlock := {|
  il_reg := r; il_alive := il_alive s; il_parent := il_parent s; il_kids := <[i := (n, k)]> (il_kids s) |}.
Definition with_parent (s : interlock) (alive : bool) (p : requester) : interlock := {|
  il_reg := il_reg s; il_alive := alive; il_parent := p; il_kids := il_kids s |}.
Definition with_kills (s : interlock) (c : Z) : interlock := {|
  il_reg := il_reg s; il_alive := il_alive s; il_parent := il_parent s;
  il_kids := map (kill_kid c) (il_kids s) |}.

Inductive kstep (parent_ctx : Z) : interlock -> interlock -> Prop :=
  | k_reserve s i n c r : il_kids s !! i = Some (n, KNew) -> reserve (il_reg s) n = Ok (c, r) ->
      kstep parent_ctx s (with_kid s i n (KReserved c) r)
  | k_refused s i n e : il_kids s !! i = Some (n, KNew) -> reserve (il_reg s) n = Err e ->
      kstep parent_ctx s (with_kid s i n KGone (il_reg s))
  | k_fail s i n c : il_kids s !! i = Some (n, KReserved c) ->
      kstep parent_ctx s (with_kid s i n KGone (release (il_reg s) n c))
  | k_start s i n c pid : il_kids s !! i = Some (n, KReserved c) ->
      kstep parent_ctx s (with_kid s i n (KLive c false) (set_pid (il_reg s) n pid))
  | k_check s i n c k : il_kids s !! i = Some (n, KLive c k) ->
      kstep parent_ctx s (with_kid s i n (KChecked c (k || negb (il_alive s))) (il_reg s))
  | k_exit s i n c k : il_kids s !! i = Some (n, KChecked c k) ->
      kstep parent_ctx s (with_kid s i n KGone (release (il_reg s) n c))
  (* [Kennel::stop]: the last [SpawnRuntime] drops with the loopers it joins *)
  | p_stop s : il_parent s = PRunning -> kstep parent_ctx s (with_parent s false PStopped)
  (* ... unless waiting for the workload fails, which skips the rest of [stop] *)
  | p_wait_failed s : il_parent s = PRunning -> kstep parent_ctx s (with_parent s (il_alive s) PStopped)
  | p_collect s : il_parent s = PStopped ->
      kstep parent_ctx s (with_parent s (il_alive s) (PReaping (children_of (il_reg s) parent_ctx)))
  | p_kill s c todo : il_parent s = PReaping (c :: todo) ->
      kstep parent_ctx s (with_kills (with_parent s (il_alive s) (PReaping todo)) c)
  | p_done s : il_parent s = PReaping [] -> kstep parent_ctx s (with_parent s (il_alive s) PDone)
  (* other threads: any change that leaves the children's entries, any other kill *)
  | e_registry s r : (forall n, n ∈ (il_kids s).*1 -> rg_kennels r !! n = rg_kennels (il_reg s) !! n) ->
      kstep parent_ctx s {| il_reg := r; il_alive := il_alive s; il_parent := il_parent s;
                            il_kids := il_kids s |}
  | e_kill s c : kstep parent_ctx s (with_kills s c).

(** * The allocator and the registry *)

Lemma elem_of_entries r n m : (n, m) ∈ entries r <-> rg_kennels r !! n = Some m.
Proof. unfold entries. by rewrite merge_sort_Permutation, elem_of_map_to_list. Qed.

Lemma find_Some_first {A} (f : A -> bool) l x :
  List.find f l = Some x -> x ∈ l /\ f x = true.
Proof. intros H%List.find_some. by rewrite <- list_elem_of_In in H. Qed.

(** The first number of a range outside a set. *)
Lemma find_free (u : gset Z) (k : nat) lo c :
  List.find (fun c => bool_decide (c ∉ u)) (seqZ lo (Z.of_nat k)) = Some c <->
  (lo <= c < lo + Z.of_nat k /\ (c ∉ u) /\ (forall d, lo <= d < c -> d ∈ u)).
Proof.
  revert lo; induction k as [|k IH]; intros lo; [cbn; split; [done|lia]|].
  rewrite seqZ_cons by lia. replace (Z.pred (Z.of_nat (S k))) with (Z.of_nat k) by lia.
  cbn [List.find]. case_bool_decide as Hx.
  - split; [intros [= <-]; split; [lia|]; split; [done|]; lia|].
    intros (Hr & Hc & Hd). destruct (Z.eq_dec c lo) as [->|]; [done|]. destruct Hx. apply Hd. lia.
  - rewrite IH. split.
    + intros (Hr & Hc & Hd). split; [lia|]. split; [done|]. intros d Hdd.
      destruct (Z.eq_dec d lo) as [->|]; [by destruct (decide (lo ∈ u))|]. apply Hd. lia.
    + intros (Hr & Hc & Hd). split; [|split; [done|intros; apply Hd; lia]].
      destruct (Z.eq_dec c lo) as [->|]; [done|lia].
Qed.

(** The lowest free number. *)
Lemma allocate_Some a c a' :
  0 <= al_max a ->
  allocate a = Some (c, a') <->
  ((1 <= c <= al_max a /\ (c ∉ al_used a) /\ (forall d, 1 <= d < c -> d ∈ al_used a)) /\ a' = ctx_insert a c).
Proof.
  intros Hm. unfold allocate. change (DEFAULT_CTX + 1) with 1.
  pose proof (find_free (al_used a) (Z.to_nat (al_max a)) 1 c) as Hf. rewrite Z2Nat.id in Hf by done.
  destruct (List.find _ _) as [x|].
  - split.
    + intros [= -> <-]. split; [|done]. destruct Hf as [Hf _]. destruct (Hf eq_refl) as (? & ? & ?).
      split; [lia|done].
    + intros [(? & ? & ?) ->]. destruct Hf as [_ Hf]. assert (Some x = Some c) as [= ->]; [|done].
      apply Hf. split; [lia|done].
  - split; [done|]. intros [(? & ? & ?) _]. destruct Hf as [_ Hf].
    discriminate Hf. split; [lia|done].
Qed.

Lemma allocate_None a :
  allocate a = None <-> forall c, 1 <= c <= al_max a -> c ∈ al_used a.
Proof.
  unfold allocate. change (DEFAULT_CTX + 1) with 1. destruct (List.find _ _) as [x|] eqn:E.
  - apply find_Some_first in E as [Hx%elem_of_seqZ Hf%bool_decide_eq_true].
    split; [done|]. intros H. destruct Hf. apply H. lia.
  - split; [intros _ c Hc|done]. assert (c ∈ seqZ 1 (al_max a)) as Hin by (apply elem_of_seqZ; lia).
    apply list_elem_of_In in Hin. pose proof (List.find_none _ _ E c Hin) as H.
    apply bool_decide_eq_false in H. by destruct (decide (c ∈ al_used a)).
Qed.

(** The contexts of the registered names. *)
Definition ctxs (r : Registry) : gmap bytes Z := km_ctx <$> rg_kennels r.

(** One context per name, within the range, and the allocator's set is theirs. *)
Record reg_ok (r : Registry) : Prop := {
  ro_max : al_max (rg_ctx r) = MAX_V4_CTX;
  ro_used : forall c, c ∈ al_used (rg_ctx r) <-> exists n, ctxs r !! n = Some c;
  ro_inj : forall n n' c, ctxs r !! n = Some c -> ctxs r !! n' = Some c -> n = n';
  ro_range : forall n c, ctxs r !! n = Some c -> 1 <= c <= MAX_V4_CTX;
}.

Lemma registry_default_ok : reg_ok registry_default.
Proof.
  assert (ctxs registry_default = ∅) as E by apply fmap_empty.
  split; [done| |intros n n' c|intros n c]; rewrite E; try by rewrite lookup_empty.
  intros c. split; [set_solver|]. intros [n H]. by rewrite lookup_empty in H.
Qed.

Lemma reserve_Ok r name ctx r' :
  0 <= al_max (rg_ctx r) ->
  reserve r name = Ok (ctx, r') <->
  (rg_kennels r !! name = None /\
  r' = {| rg_ctx := ctx_insert (rg_ctx r) ctx; rg_kennels := <[name := new_meta ctx]> (rg_kennels r) |} /\
  1 <= ctx <= al_max (rg_ctx r) /\ (ctx ∉ al_used (rg_ctx r)) /\
  (forall d, 1 <= d < ctx -> d ∈ al_used (rg_ctx r))).
Proof.
  intros Hmx. unfold reserve. destruct (rg_kennels r !! name) as [m|]; [split; [done|by intros [? _]]|].
  destruct (allocate (rg_ctx r)) as [[c a]|] eqn:E.
  - pose proof E as E'. apply allocate_Some in E' as [Hc ->]; [|done]. split.
    + intros H. apply (inj Ok) in H. injection H as -> <-. by destruct Hc as (? & ? & ?).
    + intros (_ & -> & H). assert (allocate (rg_ctx r) = Some (ctx, ctx_insert (rg_ctx r) ctx)) as E2
        by (apply allocate_Some; [done|]; split; [destruct H as (? & ? & ?)|]; done).
      rewrite E in E2. by injection E2 as -> _.
  - rewrite allocate_None in E. split; [done|]. intros (_ & _ & H1 & H2 & _). by destruct H2; apply E.
Qed.

Lemma ctxs_reserve r name ctx r' : reserve r name = Ok (ctx, r') -> ctxs r' = <[name := ctx]> (ctxs r).
Proof.
  unfold reserve, ctxs. destruct (rg_kennels r !! name); [done|].
  destruct (allocate (rg_ctx r)) as [[c a]|]; [|done]. intros [= -> <-]. cbn. by rewrite fmap_insert.
Qed.

Lemma reserve_ok r name ctx r' : reg_ok r -> reserve r name = Ok (ctx, r') -> reg_ok r'.
Proof.
  intros [Hm Hu Hi Hr] H. pose proof (ctxs_reserve _ _ _ _ H) as Ec.
  apply reserve_Ok in H as (Hn & -> & Hrange & Hfree & _); [|by rewrite Hm]. rewrite Hu in Hfree. rewrite Hm in Hrange.
  assert (ctxs r !! name = None) as Hn' by (unfold ctxs; by rewrite lookup_fmap, Hn).
  split; [done| |intros n n' c|intros n c]; cbn -[ctxs]; rewrite Ec.
  - intros c. rewrite elem_of_union, elem_of_singleton, Hu. split.
    + intros [->|[n Hc]]; [exists name; by rewrite lookup_insert_eq|].
      exists n. rewrite lookup_insert_ne; [done|]. intros ->. by rewrite Hn' in Hc.
    + intros [n Hc]. apply lookup_insert_Some in Hc as [[_ ->]|[_ Hc]]; [by left|right; by exists n].
  - rewrite !lookup_insert_Some. intros [[<- <-]|[N1 H1]] [[<- E]|[N2 H2]]; [done| | |by eapply Hi].
    + destruct Hfree. by exists n'.
    + subst c. destruct Hfree. by exists n.
  - rewrite lookup_insert_Some. intros [[_ <-]|[_ H]]; [done|by eapply Hr].
Qed.

Lemma release_ok r name ctx : reg_ok r -> ctxs r !! name = Some ctx -> reg_ok (release r name ctx).
Proof.
  intros [Hm Hu Hi Hr] Hn. unfold release.
  assert (forall a, ctxs {| rg_ctx := a; rg_kennels := delete name (rg_kennels r) |} = delete name (ctxs r))
    as Ec by (intros; unfold ctxs; cbn; by rewrite fmap_delete).
  split; [done| |intros n n' c|intros n c]; cbn -[ctxs]; rewrite Ec.
  - intros c. rewrite elem_of_difference, elem_of_singleton, Hu. split.
    + intros [[n Hc] Hne]. exists n. rewrite lookup_delete_ne; [done|]. intros ->.
      rewrite Hn in Hc. by injection Hc as ->.
    + intros [n [Hne Hc]%lookup_delete_Some]. split; [by exists n|]. intros ->. by destruct Hne; eapply Hi.
  - rewrite !lookup_delete_Some. intros [_ H1] [_ H2]. by eapply Hi.
  - rewrite lookup_delete_Some. intros [_ H]. by eapply Hr.
Qed.

Lemma ctxs_update f r name : (forall m, km_ctx (f m) = km_ctx m) -> ctxs (update_meta f r name) = ctxs r.
Proof.
  intros Hf. apply map_eq. intros n. unfold ctxs, update_meta. cbn. rewrite !lookup_fmap.
  destruct (decide (n = name)) as [->|].
  - rewrite lookup_alter_eq. destruct (rg_kennels r !! name); cbn; [by rewrite Hf|done].
  - by rewrite lookup_alter_ne.
Qed.

Lemma reg_ok_same r r' : reg_ok r -> rg_ctx r' = rg_ctx r -> ctxs r' = ctxs r -> reg_ok r'.
Proof. intros [] Ea Ec. split; rewrite ?Ea, ?Ec; done. Qed.

(** * The daemon's threads *)

(** The name and context a run thread holds. *)
Definition held (t : run) : option (bytes * Z) :=
  match t with
  | RStarting n c | RRunning n c | RExited n c | RReaping n c _ => Some (n, c)
  | RIdle _ | RDone => None
  end.
Definition held_at (runs : list run) (i : nat) : option (bytes * Z) := runs !! i ≫= held.

Record daemon_ok (d : daemon) : Prop := {
  do_reg : reg_ok (dm_reg d);
  do_held : forall i n c, held_at (dm_runs d) i = Some (n, c) -> ctxs (dm_reg d) !! n = Some c;
  do_one : forall i j n c c',
    held_at (dm_runs d) i = Some (n, c) -> held_at (dm_runs d) j = Some (n, c') -> i = j;
  do_all : forall n c, ctxs (dm_reg d) !! n = Some c -> exists i, held_at (dm_runs d) i = Some (n, c);
}.

Lemma held_kill runs ctx i : held_at (map (kill_run ctx) runs) i = held_at runs i.
Proof.
  unfold held_at. rewrite list_lookup_fmap. destruct (runs !! i) as [[]|]; try done.
  cbn. by destruct (_ =? _).
Qed.

Lemma held_insert runs i j t u :
  runs !! i = Some u -> held_at (<[i := t]> runs) j = if decide (i = j) then held t else held_at runs j.
Proof.
  intros Hi. unfold held_at. case_decide as E.
  - subst j. by rewrite list_lookup_insert_eq by (by eapply lookup_lt_Some).
  - by rewrite list_lookup_insert_ne.
Qed.

Lemma daemon_ok_init requests stops : daemon_ok (daemon_init requests stops).
Proof.
  assert (forall i, held_at (map RIdle requests) i = None) as E.
  { intros i. unfold held_at. rewrite list_lookup_fmap. by destruct (requests !! i). }
  assert (ctxs registry_default = ∅) as Er by apply fmap_empty.
  split; cbn -[ctxs registry_default]; [apply registry_default_ok|..]; try (intros *; by rewrite E).
  intros n c. by rewrite Er, lookup_empty.
Qed.

(** Steps that neither take nor give back a name. *)
Lemma daemon_ok_frame d d' :
  daemon_ok d -> rg_ctx (dm_reg d') = rg_ctx (dm_reg d) -> ctxs (dm_reg d') = ctxs (dm_reg d) ->
  (forall i, held_at (dm_runs d') i = held_at (dm_runs d) i) -> daemon_ok d'.
Proof.
  intros [Hr Hh H1 Ha] Ea Ec Eh. split.
  - by eapply reg_ok_same.
  - intros i n c. rewrite Eh, Ec. apply Hh.
  - intros i j n c c'. rewrite !Eh. apply H1.
  - intros n c. rewrite Ec. intros [i Hi]%Ha. exists i. by rewrite Eh.
Qed.

Lemma daemon_ok_keep d i t u r :
  daemon_ok d -> dm_runs d !! i = Some u -> held t = held u ->
  rg_ctx r = rg_ctx (dm_reg d) -> ctxs r = ctxs (dm_reg d) -> daemon_ok (with_run d i t r).
Proof.
  intros Hd Hi Ht Ea Ec. eapply daemon_ok_frame; [done..|]. intros j. cbn. rewrite (held_insert _ _ _ _ u) by done.
  case_decide as E; [|done]. subst j. rewrite Ht. unfold held_at. by rewrite Hi.
Qed.

Lemma daemon_ok_take d i name ctx r :
  daemon_ok d -> dm_runs d !! i = Some (RIdle name) -> reserve (dm_reg d) name = Ok (ctx, r) ->
  daemon_ok (with_run d i (RStarting name ctx) r).
Proof.
  intros [Hr Hh H1 Ha] Hi Hres. pose proof (ctxs_reserve _ _ _ _ Hres) as Ec.
  assert (ctxs (dm_reg d) !! name = None) as Hnone.
  { apply reserve_Ok in Hres as (Hn & _); [|by rewrite (ro_max _ Hr)]. unfold ctxs.
    by rewrite lookup_fmap, Hn. }
  assert (forall j, held_at (dm_runs d) j = None \/ exists n c, held_at (dm_runs d) j = Some (n, c) /\ n <> name)
    as Hother.
  { intros j. destruct (held_at (dm_runs d) j) as [[n c]|] eqn:E; [right|by left].
    exists n, c. split; [done|]. intros ->. apply Hh in E. by rewrite Hnone in E. }
  split; cbn -[ctxs]; [by eapply reserve_ok|intros j n c|intros j k n c c'|intros n c];
    rewrite ?(held_insert _ _ _ _ _ Hi), ?Ec.
  - case_decide; cbn; [intros [= <- <-]; by rewrite lookup_insert_eq|].
    intros Hj. destruct (Hother j) as [E|(n' & c'' & E & Hne)]; rewrite Hj in E; [done|].
    injection E as <- <-. rewrite lookup_insert_ne by done. by apply Hh in Hj.
  - do 2 case_decide; cbn; [congruence| | |by apply H1].
    + intros [= <- <-] Hk. destruct (Hother k) as [E|(? & ? & E & ?)]; rewrite Hk in E; by simplify_eq.
    + intros Hj [= <- <-]. destruct (Hother j) as [E|(? & ? & E & ?)]; rewrite Hj in E; by simplify_eq.
  - intros [[<- <-]|[Hne Hc]]%lookup_insert_Some.
    + exists i. rewrite (held_insert _ _ _ _ _ Hi), decide_True; done.
    + destruct (Ha _ _ Hc) as [j Hj]. exists j. rewrite (held_insert _ _ _ _ _ Hi), decide_False; [done|].
      intros <-. unfold held_at in Hj. by rewrite Hi in Hj.
Qed.

Lemma daemon_ok_give d i u name ctx :
  daemon_ok d -> dm_runs d !! i = Some u -> held u = Some (name, ctx) ->
  daemon_ok (with_run d i RDone (release (dm_reg d) name ctx)).
Proof.
  intros [Hr Hh H1 Ha] Hi Hu.
  assert (held_at (dm_runs d) i = Some (name, ctx)) as Hhi by (unfold held_at; by rewrite Hi).
  pose proof (Hh _ _ _ Hhi) as Hn.
  assert (ctxs (release (dm_reg d) name ctx) = delete name (ctxs (dm_reg d))) as Ec.
  { unfold ctxs, release. cbn. by rewrite fmap_delete. }
  split; cbn -[ctxs release]; [by apply release_ok|intros j n c|intros j k n c c'|intros n c];
    rewrite ?(held_insert _ _ _ _ _ Hi), ?Ec.
  - case_decide; [done|]. intros Hj. rewrite lookup_delete_ne; [by apply Hh in Hj|].
    intros <-. by pose proof (H1 _ _ _ _ _ Hhi Hj).
  - do 2 case_decide; try done. apply H1.
  - intros [Hne Hc]%lookup_delete_Some. destruct (Ha _ _ Hc) as [j Hj]. exists j.
    rewrite (held_insert _ _ _ _ _ Hi), decide_False; [done|]. intros <-.
    rewrite Hhi in Hj. by injection Hj as ->.
Qed.

Lemma daemon_ok_kill d ctx : daemon_ok d -> daemon_ok (with_kill d ctx).
Proof. intros Hd. eapply daemon_ok_frame; [done..|]. intros i. apply held_kill. Qed.

Lemma daemon_ok_stop d i t : daemon_ok d -> daemon_ok (with_stop d i t).
Proof. intros Hd. by eapply daemon_ok_frame. Qed.

Lemma daemon_ok_log d n vs : daemon_ok d -> daemon_ok (log_stop d n vs).
Proof. intros Hd. by eapply daemon_ok_frame. Qed.

Lemma dstep_ok d d' : daemon_ok d -> dstep d d' -> daemon_ok d'.
Proof.
  intros Hd H. destruct H.
  - by eapply daemon_ok_take.
  - by eapply daemon_ok_keep.
  - eapply daemon_ok_keep; [done..|]. by apply ctxs_update.
  - eapply daemon_ok_keep; [done..|]. by apply ctxs_update.
  - by eapply daemon_ok_give.
  - eapply daemon_ok_keep; [done..|]. by apply ctxs_update.
  - eapply daemon_ok_keep; [done..|]. by apply ctxs_update.
  - by eapply daemon_ok_keep.
  - by eapply daemon_ok_keep.
  - apply daemon_ok_kill. by eapply daemon_ok_keep.
  - by eapply daemon_ok_give.
  - by apply daemon_ok_stop.
  - by apply daemon_ok_stop.
  - by apply daemon_ok_stop.
  - by apply daemon_ok_kill, daemon_ok_stop.
  - by apply daemon_ok_log, daemon_ok_kill, daemon_ok_stop.
Qed.

Lemma daemon_reachable_ok requests stops d : rtc dstep (daemon_init requests stops) d -> daemon_ok d.
Proof.
  apply (rtc_ind_r daemon_ok); [apply daemon_ok_init|]. intros y z _ Hy Hs. by eapply dstep_ok.
Qed.

(** An executable scheduler: thread [i] of the runs, or of the stops, takes its next step. *)
Inductive turn : Type := TRun (i : nat) (pid : Z) | TExit (i : nat) | TStop (i : nat).
Definition take_turn (d : daemon) (t : turn) : option daemon :=
  match t with
  | TRun i pid =>
      match dm_runs d !! i with
      | Some (RIdle n) =>
          match reserve (dm_reg d) n with
          | Ok (c, r) => Some (with_run d i (RStarting n c) r)
          | Err _ => Some (with_run d i RDone (dm_reg d))
          end
      | Some (RStarting n c) => Some (with_run d i (RRunning n c) (set_pid (dm_reg d) n pid))
      | Some (RExited n c) => Some (with_run d i (RReaping n c (children_of (dm_reg d) c)) (dm_reg d))
      | Some (RReaping n c (k :: todo)) => Some (with_kill (with_run d i (RReaping n c todo) (dm_reg d)) k)
      | Some (RReaping n c []) => Some (with_run d i RDone (release (dm_reg d) n c))
      | _ => None
      end
  | TExit i =>
      match dm_runs d !! i with
      | Some (RRunning n c) => Some (with_run d i (RExited n c) (dm_reg d))
      | _ => None
      end
  | TStop i =>
      match dm_stops d !! i with
      | Some (SIdle n) =>
          match stop_lookup (dm_reg d) n with
          | Ok c => Some (with_stop d i (SLooked n c))
          | Err _ => Some (with_stop d i SDone)
          end
      | Some (SLooked n c) => Some (with_stop d i (SReaping n c (children_of (dm_reg d) c)))
      | Some (SReaping n c (k :: todo)) => Some (with_kill (with_stop d i (SReaping n c todo)) k)
      | Some (SReaping n c []) =>
          Some (log_stop (with_kill (with_stop d i SDone) c) n (victims c (dm_runs d)))
      | _ => None
      end
  end.
Definition take_turns (d : daemon) (ts : list turn) : option daemon :=
  fold_left (fun o t => d ← o; take_turn d t) ts (Some d).

Lemma take_turn_sound d t d' : take_turn d t = Some d' -> dstep d d'.
Proof.
  unfold take_turn. intros H. repeat (case_match; try done); injection H as <-; by econstructor.
Qed.

Lemma take_turns_sound d ts d' : take_turns d ts = Some d' -> rtc dstep d d'.
Proof.
  unfold take_turns. revert d; induction ts as [|t ts IH]; intros d; cbn; [intros [= ->]; apply rtc_refl|].
  destruct (take_turn d t) as [d1|] eqn:E.
  - intros H%IH. eapply rtc_l; [by apply take_turn_sound in E|done].
  - clear IH. induction ts as [|u ts IHt]; cbn; [done|]. apply IHt.
Qed.

(** A kill of a context ends at most the kennel registered under it. *)
Lemma victims_registered d ctx v :
  daemon_ok d -> v ∈ victims ctx (dm_runs d) -> ctxs (dm_reg d) !! v = Some ctx.
Proof.
  intros Hd Hv. unfold victims in Hv. apply list_elem_of_omap in Hv as (t & Ht & E).
  apply list_elem_of_lookup in Ht as [i Hi]. destruct t as [| |n c| | |]; try done.
  destruct (Z.eqb_spec c ctx) as [->|]; [|done]. injection E as ->.
  apply (do_held _ Hd i). unfold held_at. by rewrite Hi.
Qed.

Lemma victims_length d ctx : daemon_ok d -> (length (victims ctx (dm_runs d)) <= 1)%nat.
Proof.
  intros Hd. destruct (victims ctx (dm_runs d)) as [|a [|b l]] eqn:E; cbn; [lia..|exfalso].
  (* two running threads under one context *)
  assert (exists i j n m, i <> j /\ held_at (dm_runs d) i = Some (n, ctx) /\ held_at (dm_runs d) j = Some (m, ctx))
    as (i & j & n & m & Hij & Hi & Hj).
  { clear Hd. revert E. generalize (dm_runs d) as runs. intros runs. induction runs as [|t runs IH]; [done|].
    unfold victims. cbn [omap list_omap]. intros E.
    assert (forall i, held_at (t :: runs) (S i) = held_at runs i) as Hs by done.
    assert (victims ctx runs = a :: b :: l ->
      exists i j n m, i <> j /\ held_at (t :: runs) i = Some (n, ctx) /\ held_at (t :: runs) j = Some (m, ctx)) as Hrec.
    { intros (i & j & n & m & Hij & Hi & Hj)%IH. exists (S i), (S j), n, m. rewrite !Hs. auto. }
    destruct t as [| |n c| | |]; try by apply Hrec.
    destruct (Z.eqb_spec c ctx) as [->|]; [|by apply Hrec]. injection E as -> E.
    assert (b ∈ victims ctx runs) as Hb by (unfold victims; rewrite E; left).
    unfold victims in Hb. apply list_elem_of_omap in Hb as (t & Ht & Et).
    apply list_elem_of_lookup in Ht as [j Hj]. destruct t as [| |n c| | |]; try done.
    destruct (Z.eqb_spec c ctx) as [->|]; [|done]. injection Et as ->.
    exists 0%nat, (S j), a, b. split; [done|]. split; [done|]. rewrite Hs. unfold held_at. by rewrite Hj. }
  pose proof (do_held _ Hd _ _ _ Hi) as Hn. pose proof (do_held _ Hd _ _ _ Hj) as Hm.
  assert (n = m) as <- by (by eapply (ro_inj _ (do_reg _ Hd))). apply Hij. by eapply (do_one _ Hd).
Qed.

(** * The interlock *)

Lemma children_of_elem r p n m :
  rg_kennels r !! n = Some m -> starts_with (child_name_prefix p) n = true -> km_ctx m ∈ children_of r p.
Proof.
  intros Hn Hp. unfold children_of. apply list_elem_of_fmap. exists (n, m). split; [done|].
  apply list_elem_of_In, List.filter_In. split; [|done]. by apply list_elem_of_In, elem_of_entries.
Qed.

Definition kid_ctx (k : kid) : option Z :=
  match k with KReserved c | KLive c _ | KChecked c _ => Some c | KNew | KGone => None end.

(** A child under construction is registered with its context; once the requester's flag is down,
    every child that passed its check alive is still on the reaper's way. *)
Record interlock_ok (p : Z) (s : interlock) : Prop := {
  io_names : NoDup (il_kids s).*1;
  io_prefix : Forall (fun n => starts_with (child_name_prefix p) n = true) (il_kids s).*1;
  io_reg : forall i n k c, il_kids s !! i = Some (n, k) -> kid_ctx k = Some c ->
    exists m, rg_kennels (il_reg s) !! n = Some m /\ km_ctx m = c;
  io_reap : il_alive s = false ->
    match il_parent s with
    | PRunning => False
    | PStopped => True
    | PReaping todo => forall i n c, il_kids s !! i = Some (n, KChecked c false) -> c ∈ todo
    | PDone => forall i n c, il_kids s !! i <> Some (n, KChecked c false)
    end;
}.

Lemma kids_insert s i n k : (exists u, il_kids s !! i = Some (n, u)) -> (<[i := (n, k)]> (il_kids s)).*1 = (il_kids s).*1.
Proof.
  intros [u Hu]. rewrite list_fmap_insert. apply list_insert_id. by rewrite list_lookup_fmap, Hu.
Qed.

(** One child moves and only its own entry changes. *)
Lemma interlock_kid p s i n u k r :
  interlock_ok p s -> il_kids s !! i = Some (n, u) ->
  (forall n', n' <> n -> rg_kennels r !! n' = rg_kennels (il_reg s) !! n') ->
  (forall c, kid_ctx k = Some c -> exists m, rg_kennels r !! n = Some m /\ km_ctx m = c) ->
  (forall c, k = KChecked c false -> il_alive s = true) ->
  interlock_ok p (with_kid s i n k r).
Proof.
  intros [Hn Hp Hr Hg] Hi Hother Hown Hchk.
  pose proof (kids_insert s i n k (ex_intro _ u Hi)) as En.
  assert (forall j n' k', <[i := (n, k)]> (il_kids s) !! j = Some (n', k') ->
    (j = i /\ n' = n /\ k' = k) \/ (n' <> n /\ il_kids s !! j = Some (n', k'))) as Hj.
  { intros j n' k' [(-> & E & _)|[Hne E]]%list_lookup_insert_Some; [left; by simplify_eq|].
    right. split; [|done]. intros ->. apply Hne.
    apply (NoDup_lookup (il_kids s).*1 i j n Hn); by rewrite list_lookup_fmap, ?Hi, ?E. }
  split; cbn; rewrite ?En; [done..| |].
  - intros j n' k' c [(-> & -> & ->)|[Hne E]]%Hj Hc; [by apply Hown|]. rewrite Hother by done. by eapply Hr.
  - intros Ha. specialize (Hg Ha).
    assert (forall j n' c, <[i := (n, k)]> (il_kids s) !! j = Some (n', KChecked c false) ->
      il_kids s !! j = Some (n', KChecked c false)) as Hback.
    { intros j n' c [(-> & -> & E)|[_ E]]%Hj; [|done]. symmetry in E. apply Hchk in E. congruence. }
    destruct (il_parent s) as [| |todo|]; [done..| |].
    + intros j n' c Hc. by eapply Hg, Hback.
    + intros j n' c Hc. by eapply Hg, Hback.
Qed.

Lemma kill_kid_checked c k n d :
  kill_kid c k = (n, KChecked d false) -> k = (n, KChecked d false) /\ d <> c.
Proof.
  destruct k as [n' []]; cbn; try done. intros [= -> -> H]. apply orb_false_iff in H as [-> H].
  split; [done|]. by apply Z.eqb_neq.
Qed.

Lemma interlock_kills p s c :
  interlock_ok p s -> interlock_ok p (with_kills s c) /\
  (forall todo, il_parent s = PReaping (c :: todo) ->
     interlock_ok p (with_kills (with_parent s (il_alive s) (PReaping todo)) c)).
Proof.
  intros [Hn Hp Hr Hg].
  assert ((map (kill_kid c) (il_kids s)).*1 = (il_kids s).*1) as En.
  { clear. induction (il_kids s) as [|[n []] l IH]; cbn; by rewrite ?IH. }
  assert (forall i n k c', map (kill_kid c) (il_kids s) !! i = Some (n, k) -> kid_ctx k = Some c' ->
    exists m, rg_kennels (il_reg s) !! n = Some m /\ km_ctx m = c') as Hr'.
  { intros i n k c'. rewrite list_lookup_fmap. destruct (il_kids s !! i) as [[n' u]|] eqn:E; [|done].
    cbn. intros [= Ek] Hc. eapply (Hr i n u); [destruct u; cbn in Ek; by simplify_eq/=|].
    destruct u; cbn in Ek; by simplify_eq/=. }
  assert (forall i n d, map (kill_kid c) (il_kids s) !! i = Some (n, KChecked d false) ->
    il_kids s !! i = Some (n, KChecked d false) /\ d <> c) as Hback.
  { intros i n d. rewrite list_lookup_fmap. destruct (il_kids s !! i) as [k|]; [|done].
    cbn. intros [= [-> Hd]%kill_kid_checked]. done. }
  split; [|intros todo Et]; split; cbn; rewrite ?En; try done.
  - intros Ha. specialize (Hg Ha). destruct (il_parent s) as [| |todo|]; [done..| |].
    + intros i n d [Hi _]%Hback. by eapply Hg.
    + intros i n d [Hi _]%Hback. by eapply Hg.
  - intros Ha. specialize (Hg Ha). rewrite Et in Hg. intros i n d [Hi Hne]%Hback.
    apply Hg in Hi. apply elem_of_cons in Hi as [?|?]; done.
Qed.

Lemma kstep_ok p s s' : interlock_ok p s -> kstep p s s' -> interlock_ok p s'.
Proof.
  intros Hok H. pose proof Hok as [Hn Hp Hr Hg]. destruct H as
    [s i n c r Hi Hres|s i n e Hi Hres|s i n c Hi|s i n c pid Hi|s i n c k Hi|s i n c k Hi
    |s Hpar|s Hpar|s Hpar|s c todo Hpar|s Hpar|s r Hreg|s c].
  - unfold reserve in Hres. destruct (rg_kennels (il_reg s) !! n) eqn:En; [done|].
    destruct (allocate _) as [[c' a]|]; [|done]. injection Hres as -> <-.
    eapply interlock_kid; [done..| | |done].
    + intros n' Hne. cbn. by rewrite lookup_insert_ne.
    + intros c' [= <-]. cbn. rewrite lookup_insert_eq. by eexists.
  - by eapply interlock_kid.
  - eapply interlock_kid; [done..| |done|done]. intros n' Hne. cbn. by rewrite lookup_delete_ne.
  - eapply interlock_kid; [done..| | |done].
    + intros n' Hne. cbn. by rewrite lookup_alter_ne.
    + intros c' [= <-]. destruct (Hr i n _ c Hi eq_refl) as (m & Hm & Hc). cbn.
      rewrite lookup_alter_eq, Hm. cbn. eexists. split; [done|]. done.
  - eapply interlock_kid; [done..| |].
    + intros c' [= <-]. by apply (Hr i n _ c Hi).
    + intros c' [= _ Hf]. apply orb_false_iff in Hf as [_ Hf]. by destruct (il_alive s).
  - eapply interlock_kid; [done..| |done|done]. intros n' Hne. cbn. by rewrite lookup_delete_ne.
  - by split.
  - by split.
  - split; try done. cbn. intros _ i n c Hi. destruct (Hr i n _ c Hi eq_refl) as (m & Hm & <-).
    apply (children_of_elem _ _ n); [done|]. rewrite Forall_forall in Hp. apply Hp.
    apply list_elem_of_fmap. eexists. split; [|by eapply list_elem_of_lookup_2]. done.
  - by apply interlock_kills.
  - split; try done. cbn. intros Ha. specialize (Hg Ha). rewrite Hpar in Hg.
    intros i n c Hi%Hg. by apply not_elem_of_nil in Hi.
  - split; try done. cbn. intros i n k c Hi Hc. rewrite Hreg; [by eapply Hr|].
    apply list_elem_of_fmap. eexists. split; [|by eapply list_elem_of_lookup_2]. done.
  - by apply interlock_kills.
Qed.

Lemma interlock_init_ok p r names :
  NoDup names -> Forall (fun n => starts_with (child_name_prefix p) n = true) names ->
  interlock_ok p (interlock_init r names).
Proof.
  intros Hn Hp. assert ((map (fun n => (n, KNew)) names).*1 = names) as E.
  { rewrite <- list_fmap_compose. apply list_fmap_id. }
  split; cbn; rewrite ?E; try done. intros i n k c. rewrite list_lookup_fmap.
  destruct (names !! i); [|done]. by intros [= <- <-].
Qed.

(** * Names, cgroups, workloads *)

Lemma existsb_false {A} (f : A -> bool) l : existsb f l = false <-> Forall (fun x => f x = false) l.
Proof.
  induction l as [|x l IH]; cbn; [done|]. rewrite orb_false_iff, IH, Forall_cons. done.
Qed.

Lemma validate_kennel_name_Ok name :
  validate_kennel_name name = Ok tt <->
  (exists b rest, name = b :: rest /\ name_start b = true) /\
  blen name <= MAX_KENNEL_NAME /\ Forall (fun b => name_char b = true) name.
Proof.
  unfold validate_kennel_name. destruct name as [|b rest]; [split; [done|by intros [(? & ? & ? & _) _]]|].
  destruct (Z.ltb_spec MAX_KENNEL_NAME (blen (b :: rest))) as [Hl|Hl]; [split; [done|]; intros (_ & ? & _); lia|].
  destruct (name_start b) eqn:Hs; cbn [negb].
  2: { split; [done|]. intros [(? & ? & [= <- <-] & ?) _]. congruence. }
  destruct (existsb _ (b :: rest)) eqn:He.
  - split; [done|]. intros (_ & _ & Hc). apply existsb_exists in He as (x & Hx & Hn).
    rewrite Forall_forall in Hc. apply list_elem_of_In, Hc in Hx. by rewrite Hx in Hn.
  - apply existsb_false in He. split; [intros _|done]. split; [by exists b, rest|]. split; [done|].
    eapply Forall_impl; [exact He|]. intros x Hx. by apply negb_false_iff in Hx.
Qed.

(** A valid name is one ordinary path component. *)
Lemma kennel_name_component name : validate_kennel_name name = Ok tt -> one_component name.
Proof.
  intros ((b & rest & -> & Hs) & _ & Hc)%validate_kennel_name_Ok.
  assert (b <> DOT) as Hd by (intros ->; done). split; [|by split_and!; [|intros [= ?]|intros [= ?]]].
  apply not_true_iff_false. intros (x & Hx & <-%Z.eqb_eq)%existsb_exists.
  rewrite Forall_forall in Hc. apply list_elem_of_In, Hc in Hx. done.
Qed.

Lemma find_map_app {A B} (f : A -> option B) l k :
  find_map f (l ++ k) = match find_map f l with Some y => Some y | None => find_map f k end.
Proof. induction l as [|x l IH]; cbn; [done|]. by destruct (f x). Qed.

Lemma find_map_None {A B} (f : A -> option B) l : Forall (fun x => f x = None) l -> find_map f l = None.
Proof. induction 1 as [|x l Hx _ IH]; cbn; [done|]. by rewrite Hx. Qed.

Lemma lines_one s : has_byte NL s = false -> lines (s ++ [NL]) = [default s (strip_suffix [CR] s)].
Proof. intros Hs. unfold lines. by rewrite (split_on_app NL s []). Qed.

(** Below a kennel's cgroup: nothing, or a path the kennel chose. *)
Definition nested (tail : bytes) : Prop := tail = [] \/ exists rest, tail = SLASH :: rest.

Lemma strip_cr_nested s ctx tail :
  0 <= ctx -> nested tail ->
  exists tail', nested tail' /\
    default (s ++ KENNEL_PREFIX ++ dec ctx ++ tail) (strip_suffix [CR] (s ++ KENNEL_PREFIX ++ dec ctx ++ tail)) =
    s ++ KENNEL_PREFIX ++ dec ctx ++ tail'.
Proof.
  intros Hc Ht. destruct (strip_suffix [CR] _) as [r|] eqn:E; cbn [default from_option]; [|by exists tail].
  apply strip_suffix_Some in E. rewrite !app_assoc in E. destruct Ht as [->|[rest ->]].
  - rewrite app_nil_r in E. destruct (exists_last (l := dec ctx)) as (l & d & El).
    { unfold dec. cbn. by intros [_ ?]%app_eq_nil. }
    rewrite El, app_assoc in E. apply app_inj_tail in E as [_ ->].
    pose proof (dec_digits_ascii 20 ctx Hc) as Hd. fold (dec ctx) in Hd. rewrite El in Hd.
    apply Forall_app in Hd as [_ Hd]. apply Forall_cons_1 in Hd as [Hd _]. done.
  - destruct rest as [|x rest _] using rev_ind.
    + by apply app_inj_tail in E as [_ ?].
    + change (SLASH :: rest ++ [x]) with ((SLASH :: rest) ++ [x]) in E. rewrite app_assoc in E.
      apply app_inj_tail in E as [<- ->]. exists (SLASH :: rest). split; [right; by eexists|].
      by rewrite <- !app_assoc.
Qed.

Lemma ctx_of_path base ctx tail :
  in_u16 ctx -> nested tail ->
  Forall (fun c => starts_with KENNEL_PREFIX c = false) (split_on SLASH base) ->
  find_map (strip_prefix KENNEL_PREFIX) (split_on SLASH (base ++ [SLASH] ++ KENNEL_PREFIX ++ dec ctx ++ tail)) =
  Some (dec ctx).
Proof.
  intros Hc Ht Hb.
  assert (has_byte SLASH (KENNEL_PREFIX ++ dec ctx) = false) as Hs.
  { apply not_true_iff_false. intros (x & Hx & <-%Z.eqb_eq)%existsb_exists.
    apply in_app_iff in Hx as [Hx|Hx]; [by vm_compute in Hx; intuition lia|].
    pose proof (dec_digits_ascii 20 ctx ltac:(in_range)) as Hd. fold (dec ctx) in Hd.
    rewrite Forall_forall in Hd. apply list_elem_of_In, Hd in Hx. done. }
  change ([SLASH] ++ KENNEL_PREFIX ++ dec ctx ++ tail) with (SLASH :: (KENNEL_PREFIX ++ dec ctx ++ tail)).
  rewrite split_on_app_last, find_map_app, find_map_None.
  2: { eapply Forall_impl; [exact Hb|]. intros c Hcomp. unfold starts_with in Hcomp.
       by destruct (strip_prefix KENNEL_PREFIX c). }
  rewrite app_assoc. assert (exists ps, split_on SLASH ((KENNEL_PREFIX ++ dec ctx) ++ tail) = (KENNEL_PREFIX ++ dec ctx) :: ps)
    as [ps ->].
  { destruct Ht as [->|[rest ->]]; [rewrite app_nil_r, split_on_single by done|rewrite split_on_app by done];
      by eexists. }
  cbn [find_map]. by rewrite (proj2 (strip_prefix_Some KENNEL_PREFIX _ (dec ctx)) eq_refl).
Qed.

(** What a kennel's own policy lets a mediation broker pull for a capability. *)
Definition own_artefact (m : KennelMeta) (cap : bytes) : option bytes :=
  p ← km_settled m;
  bus ← capability_bus cap;
  rules ← (if bus =? DBUS_SYSTEM then du_system (sp_dbus p) else du_session (sp_dbus p));
  Some (broker_encode_accept {| as_bus := bus; as_talk := db_talk rules; as_call := db_call rules;
    as_broadcast := db_broadcast rules; as_own := db_own rules; as_deny_talk := db_deny_talk rules |}).

Lemma registered_ctx r n m : rg_kennels r !! n = Some m -> ctxs r !! n = Some (km_ctx m).
Proof. intros E. unfold ctxs. by rewrite lookup_fmap, E. Qed.

Lemma session_policy_own r n m cap :
  reg_ok r -> rg_kennels r !! n = Some m -> session_policy_for r (km_ctx m) cap = own_artefact m cap.
Proof.
  intros Hok Hn. unfold session_policy_for. destruct (List.find _ _) as [[n' m']|] eqn:E.
  - apply find_Some_first in E as [Hin E%Z.eqb_eq]. apply elem_of_entries in Hin. cbn in E.
    assert (n' = n) as -> by (eapply (ro_inj _ Hok); [by apply registered_ctx|rewrite E; by apply registered_ctx]).
    rewrite Hn in Hin. by injection Hin as <-.
  - apply elem_of_entries, list_elem_of_In in Hn. pose proof (List.find_none _ _ E _ Hn) as Hne.
    cbn in Hne. by rewrite Z.eqb_refl in Hne.
Qed.

Lemma session_policy_registered requests stops d n m cap :
  rtc dstep (daemon_init requests stops) d -> rg_kennels (dm_reg d) !! n = Some m ->
  session_policy_for (dm_reg d) (km_ctx m) cap = own_artefact m cap.
Proof. intros Hd%daemon_reachable_ok. apply session_policy_own, do_reg, Hd. Qed.

Lemma registered_range requests stops d n m :
  rtc dstep (daemon_init requests stops) d -> rg_kennels (dm_reg d) !! n = Some m ->
  1 <= km_ctx m <= MAX_V4_CTX.
Proof. intros Hd%daemon_reachable_ok Hn%registered_ctx. by eapply (ro_range _ (do_reg _ Hd)). Qed.

(** * Claims *)

(** C18: However the daemon's connection threads interleave, contexts are exclusive:
    in every reachable state two threads that hold a context hold different ones,
    each in 1..=255 and never the default context 0; the allocator's set is exactly
    the contexts held, so none leaks and none is given out twice; a kill of a
    context ends at most one kennel; a [stop] whose lookup and kill are not
    interleaved ends the kennel it names; and a broker that pulls the session policy of a
    context gets the policy of the one kennel registered there. *)
Theorem contexts_exclusive requests stops d :
  rtc dstep (daemon_init requests stops) d ->
  (forall i j n n' c, held_at (dm_runs d) i = Some (n, c) -> held_at (dm_runs d) j = Some (n', c) -> i = j) /\
  (forall c, c ∈ al_used (rg_ctx (dm_reg d)) <-> exists i n, held_at (dm_runs d) i = Some (n, c)) /\
  (forall i n c, held_at (dm_runs d) i = Some (n, c) -> 1 <= c <= MAX_V4_CTX) /\
  (forall c, (length (victims c (dm_runs d)) <= 1)%nat) /\
  (forall name c v, stop_lookup (dm_reg d) name = Ok c -> v ∈ victims c (dm_runs d) -> v = name) /\
  (forall n m cap, rg_kennels (dm_reg d) !! n = Some m ->
     session_policy_for (dm_reg d) (km_ctx m) cap = own_artefact m cap).
Proof.
  intros Hd%daemon_reachable_ok. pose proof Hd as [[Hm Hu Hi Hr] Hh H1 Ha].
  split_and!.
  - intros i j n n' c Hn Hn'. assert (n = n') as <- by (eapply Hi; by eapply Hh). by eapply H1.
  - intros c. rewrite Hu. split; [intros [n [i ?]%Ha]; by exists i, n|intros (i & n & ?%Hh); by exists n].
  - intros i n c Hn%Hh. by eapply Hr.
  - intros c. by apply victims_length.
  - intros name c v Hl Hv%victims_registered; [|done]. unfold stop_lookup in Hl.
    destruct (rg_kennels (dm_reg d) !! name) as [m|] eqn:E; [|done]. apply registered_ctx in E.
    destruct (km_pid m); [|done]. apply (inj Ok) in Hl as <-. by eapply Hi.
  - intros n m cap. by apply session_policy_own.
Qed.

(** [stop] looks a kennel up and kills its cgroup in two critical sections,
    and the context can change hands in between: there is an execution in which the
    kennel exits, a second start takes the freed context, and the [stop] of the
    first kennel ends the second. *)
Theorem stop_can_kill_another :
  exists d, rtc dstep (daemon_init [ascii_bytes "build"; ascii_bytes "deploy"] [ascii_bytes "build"]) d /\
    (ascii_bytes "build", [ascii_bytes "deploy"]) ∈ dm_stopped d.
Proof.
  set (d0 := daemon_init _ _). set (ts := [TRun 0 41; TRun 0 41; TStop 0; TStop 0; TExit 0; TRun 0 0; TRun 0 0;
    TRun 1 42; TRun 1 42; TStop 0]).
  exists (default d0 (take_turns d0 ts)). split.
  - apply (take_turns_sound d0 ts). vm_compute. reflexivity.
  - apply (bool_decide_unpack _). vm_compute. exact I.
Qed.

(** C19: No spawned kennel outlives its requester: once the requester's teardown has
    lowered its liveness flag and finished reaping, every child that is past its own check
    of the flag has been killed, however the children's construction, the
    reaper's scan and kills, and the rest of the daemon interleave; a child not
    yet registered at the scan, registered without processes, or with processes
    already in its cgroup is covered alike. *)
Theorem no_orphan parent_ctx r names s i n c killed :
  NoDup names -> Forall (fun n => starts_with (child_name_prefix parent_ctx) n = true) names ->
  rtc (kstep parent_ctx) (interlock_init r names) s ->
  il_parent s = PDone -> il_alive s = false ->
  il_kids s !! i = Some (n, KChecked c killed) -> killed = true.
Proof.
  intros Hn Hp Hs Hd Ha Hk. assert (interlock_ok parent_ctx s) as [_ _ _ Hg].
  { revert Hs. apply (rtc_ind_r (interlock_ok parent_ctx)); [by apply interlock_init_ok|].
    intros y z _ Hy Hz. by eapply kstep_ok. }
  specialize (Hg Ha). rewrite Hd in Hg. destruct killed; [done|]. by destruct (Hg i n c).
Qed.

(** A name that passes the check at the socket is safe where it is used: exactly the
    names of the documented grammar pass, and joined to any directory such a name
    is one more ordinary component, never a traversal. *)
Theorem kennel_name_confined name dir :
  (validate_kennel_name name = Ok tt <->
   (exists b rest, name = b :: rest /\ name_start b = true) /\
   blen name <= MAX_KENNEL_NAME /\ Forall (fun b => name_char b = true) name) /\
  (validate_kennel_name name = Ok tt -> components (path_join dir name) = components dir ++ [Normal name]).
Proof.
  split; [apply validate_kennel_name_Ok|].
  intros (Hc & Ha & Hl)%kennel_name_component%one_component_components.
  by rewrite path_join_components, Hc.
Qed.

(** A process is attributed to the kennel it runs in, whatever cgroups it makes
    below: from the kernel's record of any process under the cgroup of a context, the
    daemon reads that context, provided no component above it looks like a
    kennel's. *)
Theorem cgroup_identity base ctx tail :
  in_u16 ctx -> nested tail -> has_byte NL base = false -> has_byte NL tail = false ->
  Forall (fun c => starts_with KENNEL_PREFIX c = false) (split_on SLASH base) ->
  ctx_from_cgroup (V2_LINE ++ base ++ [SLASH] ++ KENNEL_PREFIX ++ dec ctx ++ tail ++ [NL]) = Some ctx.
Proof.
  intros Hc Ht Hnb Hnt Hb. unfold ctx_from_cgroup.
  replace (V2_LINE ++ base ++ [SLASH] ++ KENNEL_PREFIX ++ dec ctx ++ tail ++ [NL])
    with ((V2_LINE ++ base ++ [SLASH] ++ KENNEL_PREFIX ++ dec ctx ++ tail) ++ [NL])
    by (by rewrite <- !app_assoc).
  rewrite lines_one.
  2: { rewrite !has_byte_app, Hnb, Hnt. cbn. rewrite !orb_false_r. apply not_true_iff_false.
       intros (x & Hx & <-%Z.eqb_eq)%existsb_exists.
       pose proof (dec_digits_ascii 20 ctx ltac:(in_range)) as Hd. fold (dec ctx) in Hd.
       rewrite Forall_forall in Hd. apply list_elem_of_In, Hd in Hx. done. }
  destruct (strip_cr_nested (V2_LINE ++ base ++ [SLASH]) ctx tail) as (tail' & Ht' & E); [in_range|done|].
  replace (V2_LINE ++ base ++ [SLASH] ++ KENNEL_PREFIX ++ dec ctx ++ tail)
    with ((V2_LINE ++ base ++ [SLASH]) ++ KENNEL_PREFIX ++ dec ctx ++ tail) by (by rewrite <- !app_assoc).
  rewrite E. cbn [find_map].
  rewrite (proj2 (strip_prefix_Some V2_LINE _ (base ++ [SLASH] ++ KENNEL_PREFIX ++ dec ctx ++ tail')))
    by (by rewrite <- !app_assoc).
  cbn [mbind option_bind]. rewrite ctx_of_path by done. cbn [mbind option_bind].
  by apply parse_uint_dec.
Qed.

(** A pinned workload runs as pinned: unless the request carries [--force], the
    command of a start is the pinned one, followed by the request's own words only
    when the policy allows arguments; with no pin the request's command, if any,
    replaces the policy's. *)
Theorem pinned_workload_kept req w argv cwd :
  effective_workload req w = Ok (argv, cwd) ->
  (wl_pinned w = true -> sr_force req = false ->
   argv = wl_argv w \/ (wl_allowed_args w = true /\ argv = wl_argv w ++ sr_argv req)) /\
  (wl_pinned w = false -> argv = if is_nil (sr_argv req) then wl_argv w else sr_argv req) /\
  (sr_argv req <> [] \/ wl_argv w <> [] -> argv <> []).
Proof.
  unfold effective_workload. destruct (sr_argv req) as [|a l] eqn:Er; cbn [is_nil].
  { destruct (wl_argv w) as [|b k]; cbn [is_nil]; [done|]. intros [= <- _]. by split_and!; [left| |]. }
  destruct (wl_pinned w) eqn:Ep; cbn [andb].
  - destruct (wl_allowed_args w); cbn [andb].
    + intros [= <- _]. split_and!; [by right|done|]. intros _. by destruct (wl_argv w).
    + destruct (sr_force req); cbn [negb]; [|done]. intros [= <- _]. by split_and!.
  - intros [= <- _]. by split_and!.
Qed.

(** * Examples *)

(** One kennel running, a second name still idle. *)
Definition two_names : daemon := daemon_init [ascii_bytes "build"; ascii_bytes "deploy"] [].
Definition one_running : daemon := default two_names (take_turns two_names [TRun 0 41; TRun 0 41]).
Lemma one_running_reachable : rtc dstep two_names one_running.
Proof. apply (take_turns_sound _ [TRun 0 41; TRun 0 41]). vm_compute. reflexivity. Qed.

Lemma contexts_exclusive_witness :
  stop_lookup (dm_reg one_running) (ascii_bytes "build") = Ok 1 /\
  victims 1 (dm_runs one_running) = [ascii_bytes "build"] /\
  (forall c, (length (victims c (dm_runs one_running)) <= 1)%nat).
Proof.
  split; [vm_compute; reflexivity|]. split; [vm_compute; reflexivity|].
  apply (contexts_exclusive [ascii_bytes "build"; ascii_bytes "deploy"] [] one_running one_running_reachable).
Defined.

(** The scan sees the child registered but without processes; the child's check then ends it. *)
Definition child : bytes := spawn_name 7 0.
Definition child_reg : Registry :=
  {| rg_ctx := ctx_insert ctx_new 1; rg_kennels := {[ child := new_meta 1 ]} |}.
Definition late_child : interlock := {|
  il_reg := set_pid child_reg child 9; il_alive := false; il_parent := PDone;
  il_kids := [(child, KChecked 1 true)] |}.
Lemma child_reserved : reserve registry_default child = Ok (1, child_reg).
Proof. apply reserve_Ok; [done|]. split; [apply lookup_empty|]. split_and!; try done. intros d ?. lia. Qed.
Lemma child_collected : children_of child_reg 7 = [1].
Proof. vm_compute. reflexivity. Qed.

Lemma late_child_reachable : rtc (kstep 7) (interlock_init registry_default [child]) late_child.
Proof.
  eapply rtc_l; [apply (k_reserve 7 _ 0 child 1 child_reg); [done|exact child_reserved]|].
  eapply rtc_l; [by apply p_stop|]. eapply rtc_l; [by apply p_collect|]. cbn [il_reg with_parent with_kid].
  rewrite child_collected. eapply rtc_l; [by apply p_kill|]. eapply rtc_l; [by apply p_done|].
  eapply rtc_l; [by apply (k_start 7 _ 0 child 1 9)|].
  apply rtc_once. exact (k_check 7 (with_kid (with_parent (interlock_init child_reg [child]) false PDone) 0 child
    (KLive 1 false) (set_pid child_reg child 9)) 0 child 1 false eq_refl).
Qed.

Lemma no_orphan_witness : il_kids late_child !! 0%nat = Some (child, KChecked 1 true) /\ true = true.
Proof.
  split; [reflexivity|].
  apply (no_orphan 7 registry_default [child] late_child 0 child 1 true).
  - apply (bool_decide_unpack _); vm_compute; exact I.
  - by repeat constructor.
  - exact late_child_reachable.
  - reflexivity.
  - reflexivity.
  - reflexivity.
Defined.

Lemma kennel_name_confined_witness :
  components (path_join (ascii_bytes "/run/kennel") (ascii_bytes "build-1")) =
    [RootDir; Normal (ascii_bytes "run"); Normal (ascii_bytes "kennel"); Normal (ascii_bytes "build-1")] /\
  validate_kennel_name (ascii_bytes "../x") = Err NameStart.
Proof.
  split; [|reflexivity].
  apply (kennel_name_confined (ascii_bytes "build-1") (ascii_bytes "/run/kennel")). reflexivity.
Defined.

Lemma cgroup_identity_witness :
  ctx_from_cgroup (V2_LINE ++ ascii_bytes "/user.slice/kenneld.service" ++ [SLASH] ++ KENNEL_PREFIX ++ dec 7 ++
    ascii_bytes "/kennel-9" ++ [NL]) = Some 7.
Proof.
  apply (cgroup_identity (ascii_bytes "/user.slice/kenneld.service") 7 (ascii_bytes "/kennel-9")).
  - done.
  - right. by eexists.
  - reflexivity.
  - reflexivity.
  - apply (bool_decide_unpack _); vm_compute; exact I.
Defined.

Definition pinned_tool : WorkloadRuntime := {| wl_argv := [ascii_bytes "/usr/bin/tool"]; wl_cwd := None;
  wl_pinned := true; wl_allowed_args := true; wl_sha256 := [] |}.
Definition start_request (argv : list bytes) : StartRequest := {|
  sr_policy := []; sr_kennel := ascii_bytes "build"; sr_argv := argv; sr_cwd := ascii_bytes "/work";
  sr_term := []; sr_interactive := false; sr_force := false; sr_watch_paths := []; sr_oci_config := None |}.

Lemma pinned_workload_kept_witness :
  [ascii_bytes "/usr/bin/tool"; ascii_bytes "-x"] = [ascii_bytes "/usr/bin/tool"] \/
  (true = true /\ [ascii_bytes "/usr/bin/tool"; ascii_bytes "-x"] =
                  [ascii_bytes "/usr/bin/tool"] ++ [ascii_bytes "-x"]).
Proof.
  apply (pinned_workload_kept (start_request [ascii_bytes "-x"]) pinned_tool _ (ascii_bytes "/work")); reflexivity.
Defined.
