(* ===== verification/DbusWire.v ===== *)
(** The frames of the D-Bus conduit, [kennel-lib-binder/src/dbus.rs].

    A [Frame] is a method call, a reply, an error or a signal in typed fields; the
    in-kennel facade and the broker exchange them length-prefixed.  The broker's
    decoder reads bytes of the untrusted facade.

    Theorems: [decode] inverts [encode] exactly on the frames whose fields are
    within their bounds, and a stream of frames reads back frame by frame. *)

From S2P Require Import Prelude Bytes Cursor.

Inductive Bus : Type := Session | System.
Global Instance bus_eq_dec : EqDecision Bus.
Proof. solve_decision. Defined.

Definition MAX_NAME : Z := 255.
Definition MAX_PATH : Z := 4096.
Definition MAX_BODY : Z := 1024 * 1024.
Definition MAX_FRAME : Z := MAX_BODY + 64 * 1024.

Definition TAG_CALL : Z := 1.
Definition TAG_REPLY : Z := 2.
Definition TAG_ERROR : Z := 3.
Definition TAG_SIGNAL : Z := 4.

Record Call : Type := {
  ca_bus : Bus; ca_serial : Z; ca_no_reply : bool; ca_destination : bytes; ca_path : bytes;
  ca_interface : bytes; ca_member : bytes; ca_signature : bytes; ca_body_endian : Z;
  ca_body : bytes;
}.
Record Reply : Type := {
  re_reply_serial : Z; re_signature : bytes; re_body_endian : Z; re_body : bytes;
}.
Record ErrorReply : Type := { er_reply_serial : Z; er_name : bytes; er_message : bytes }.
Record Signal : Type := {
  si_bus : Bus; si_path : bytes; si_interface : bytes; si_member : bytes; si_signature : bytes;
  si_body_endian : Z; si_body : bytes;
}.

Inductive Frame : Type :=
  | FCall (c : Call)
  | FReply (r : Reply)
  | FError (e : ErrorReply)
  | FSignal (s : Signal).

Inductive WireError : Type := Truncated | TooLong | NotUtf8 | BadTag | BadBus | Trailing.

Abbreviation drd A := (parser WireError A).

(** ** Encoding *)

Definition bus_to_u8 (b : Bus) : Z := match b with Session => 0 | System => 1 end.
Definition put_byte (v : Z) : bytes := [v].
Definition put_bus (b : Bus) : bytes := put_byte (bus_to_u8 b).
Definition put_no_reply (b : bool) : bytes := put_byte (if b then 1 else 0).
Definition put_serial (v : Z) : bytes := be_bytes 4 v.
Definition put_len (n : Z) : bytes := be_bytes 4 (sat_u32 n).
Definition put_bytes (b : bytes) : bytes := put_len (blen b) ++ b.
Definition put_str (s : bytes) : bytes := put_bytes s.

Definition put_call (c : Call) : bytes :=
  put_bus (ca_bus c) ++ put_no_reply (ca_no_reply c) ++ put_serial (ca_serial c) ++
  put_str (ca_destination c) ++ put_str (ca_path c) ++ put_str (ca_interface c) ++
  put_str (ca_member c) ++ put_str (ca_signature c) ++ put_byte (ca_body_endian c) ++
  put_bytes (ca_body c).
Definition put_reply (r : Reply) : bytes :=
  put_serial (re_reply_serial r) ++ put_str (re_signature r) ++ put_byte (re_body_endian r) ++
  put_bytes (re_body r).
Definition put_error (e : ErrorReply) : bytes :=
  put_serial (er_reply_serial e) ++ put_str (er_name e) ++ put_str (er_message e).
Definition put_signal (s : Signal) : bytes :=
  put_bus (si_bus s) ++ put_str (si_path s) ++ put_str (si_interface s) ++
  put_str (si_member s) ++ put_str (si_signature s) ++ put_byte (si_body_endian s) ++
  put_bytes (si_body s).

(** The tag and the fields: [body] in [Frame::encode]. *)
Definition frame_body (f : Frame) : bytes :=
  match f with
  | FCall c => put_byte TAG_CALL ++ put_call c
  | FReply r => put_byte TAG_REPLY ++ put_reply r
  | FError e => put_byte TAG_ERROR ++ put_error e
  | FSignal s => put_byte TAG_SIGNAL ++ put_signal s
  end.

Definition frame_encode (f : Frame) : bytes :=
  put_len (blen (frame_body f)) ++ frame_body f.

(** ** Decoding *)

Definition db_take (n : Z) : drd bytes := cursor_take TooLong Truncated n.
Definition db_u8 : drd Z := s ← db_take 1; p_ok_or Truncated (head s).
Definition db_u32 : drd Z := s ← db_take 4; mret (be_val s).
Definition db_len_prefixed (max : Z) : drd bytes :=
  n ← db_u32; if max <? n then p_fail TooLong else db_take n.
Definition db_bytes (max : Z) : drd bytes := db_len_prefixed max.
Definition db_str (max : Z) : drd bytes :=
  b ← db_len_prefixed max; p_ok_or NotUtf8 (from_utf8 b).

Definition bus_from_u8 (b : Z) : option Bus :=
  if b =? 0 then Some Session else if b =? 1 then Some System else None.
Definition db_bus : drd Bus := b ← db_u8; p_ok_or BadBus (bus_from_u8 b).
Definition db_flag : drd bool := b ← db_u8; mret (negb (b =? 0)).

Definition get_call : drd Call :=
  bus ← db_bus; no_reply ← db_flag; serial ← db_u32; destination ← db_str MAX_NAME;
  path ← db_str MAX_PATH; interface ← db_str MAX_NAME; member ← db_str MAX_NAME;
  signature ← db_str MAX_NAME; body_endian ← db_u8; body ← db_bytes MAX_BODY;
  mret {| ca_bus := bus; ca_serial := serial; ca_no_reply := no_reply;
          ca_destination := destination; ca_path := path; ca_interface := interface;
          ca_member := member; ca_signature := signature; ca_body_endian := body_endian;
          ca_body := body |}.
Definition get_reply : drd Reply :=
  reply_serial ← db_u32; signature ← db_str MAX_NAME; body_endian ← db_u8;
  body ← db_bytes MAX_BODY;
  mret {| re_reply_serial := reply_serial; re_signature := signature;
          re_body_endian := body_endian; re_body := body |}.
Definition get_error : drd ErrorReply :=
  reply_serial ← db_u32; name ← db_str MAX_NAME; message ← db_str MAX_PATH;
  mret {| er_reply_serial := reply_serial; er_name := name; er_message := message |}.
Definition get_signal : drd Signal :=
  bus ← db_bus; path ← db_str MAX_PATH; interface ← db_str MAX_NAME; member ← db_str MAX_NAME;
  signature ← db_str MAX_NAME; body_endian ← db_u8; body ← db_bytes MAX_BODY;
  mret {| si_bus := bus; si_path := path; si_interface := interface; si_member := member;
          si_signature := signature; si_body_endian := body_endian; si_body := body |}.

Definition get_frame : drd Frame :=
  tag ← db_u8;
  if tag =? TAG_CALL then c ← get_call; mret (FCall c)
  else if tag =? TAG_REPLY then r ← get_reply; mret (FReply r)
  else if tag =? TAG_ERROR then e ← get_error; mret (FError e)
  else if tag =? TAG_SIGNAL then s ← get_signal; mret (FSignal s)
  else p_fail BadTag.

Definition frame_decode (buf : bytes) : result WireError Frame := run_exact Trailing get_frame buf.

(** [frame_len]: [Ok None] while fewer than four bytes are there. *)
Definition frame_len (buf : bytes) : result WireError (option Z) :=
  match get_range buf 0 4 with
  | None => Ok None
  | Some prefix =>
      let len := be_val prefix in
      if MAX_FRAME <? len then Err TooLong else Ok (Some len)
  end.

(** ** Well-formed frames *)

Definition dstr_ok (max : Z) (s : bytes) : Prop :=
  bytes_ok s /\ blen s <= max /\ utf8_ok s = true.
Definition dbody_ok (b : bytes) : Prop := bytes_ok b /\ blen b <= MAX_BODY.

Definition call_ok (c : Call) : Prop :=
  in_u32 (ca_serial c) /\ dstr_ok MAX_NAME (ca_destination c) /\ dstr_ok MAX_PATH (ca_path c) /\
  dstr_ok MAX_NAME (ca_interface c) /\ dstr_ok MAX_NAME (ca_member c) /\
  dstr_ok MAX_NAME (ca_signature c) /\ in_u8 (ca_body_endian c) /\ dbody_ok (ca_body c).
Definition reply_ok (r : Reply) : Prop :=
  in_u32 (re_reply_serial r) /\ dstr_ok MAX_NAME (re_signature r) /\ in_u8 (re_body_endian r) /\
  dbody_ok (re_body r).
Definition error_ok (e : ErrorReply) : Prop :=
  in_u32 (er_reply_serial e) /\ dstr_ok MAX_NAME (er_name e) /\ dstr_ok MAX_PATH (er_message e).
Definition signal_ok (s : Signal) : Prop :=
  dstr_ok MAX_PATH (si_path s) /\ dstr_ok MAX_NAME (si_interface s) /\
  dstr_ok MAX_NAME (si_member s) /\ dstr_ok MAX_NAME (si_signature s) /\
  in_u8 (si_body_endian s) /\ dbody_ok (si_body s).
Definition frame_ok (f : Frame) : Prop :=
  match f with
  | FCall c => call_ok c | FReply r => reply_ok r | FError e => error_ok e
  | FSignal s => signal_ok s
  end.

Global Instance dstr_ok_dec max s : Decision (dstr_ok max s).
Proof. unfold dstr_ok, bytes_ok, byte_ok. apply _. Defined.
Global Instance dbody_ok_dec b : Decision (dbody_ok b).
Proof. unfold dbody_ok, bytes_ok, byte_ok. apply _. Defined.
Global Instance frame_ok_dec f : Decision (frame_ok f).
Proof. destruct f; cbn; unfold call_ok, reply_ok, error_ok, signal_ok; apply _. Defined.

(** * Codecs *)

Ltac db_stable :=
  repeat first
    [ solve [apply codec_stable] | apply stable_bind; [|intros ?] | apply stable_ok_or
    | apply stable_take | apply stable_ret | apply stable_fail | case_match ].
Ltac db_fields :=
  repeat (eapply decodes_bind; [by apply codec_decodes|]; cbv beta);
  eapply decodes_last_eq; [by apply codec_decodes|].
Ltac db_yields :=
  repeat (eapply yields_bind; [apply codec_yields|]; intros ? ?); apply yields_ret.

Global Instance dcodec_byte : WireCodec put_byte db_u8 in_u8.
Proof.
  split; [intros v Hv; apply decodes_take_head|apply yields_take_head|db_stable].
Qed.

Global Instance dcodec_u32 : WireCodec put_serial db_u32 in_u32.
Proof.
  split; [intros v Hv|..|db_stable].
  - apply decodes_take_map; [by unfold put_serial; rewrite length_be_bytes|].
    apply be_val_be_bytes. in_range.
  - apply yields_take_map. intros bs Hok Hl. apply be_val_bound in Hok. rewrite Hl in Hok. in_range.
Qed.

Global Instance dcodec_bus : WireCodec put_bus db_bus (fun _ => True).
Proof.
  split; [intros b _|..|db_stable].
  - rewrite <- (app_nil_r (put_bus b)). unfold put_bus.
    eapply decodes_bind; [apply codec_decodes; by destruct b|].
    destruct b; apply decodes_ret.
  - eapply yields_bind; [apply codec_yields|]; intros b _. by apply yields_ok_or.
Qed.

Global Instance dcodec_flag : WireCodec put_no_reply db_flag (fun _ => True).
Proof.
  split; [intros v _|..|db_stable].
  - eapply (decodes_last_eq _ _ _ (if v then 1 else 0)); [|by destruct v].
    apply (codec_decodes (put := put_byte) (if v then 1 else 0)). destruct v; in_range.
  - eapply yields_bind; [apply codec_yields|]; intros. by apply yields_ret.
Qed.

(** The maxima of the fields fit a [u32], so a length is written as it is. *)
Lemma dcodec_prefixed max :
  max <= u32_max ->
  WireCodec put_bytes (db_len_prefixed max) (fun b => bytes_ok b /\ blen b <= max).
Proof.
  intros Hm. split; [intros b [Hb Hl]|..|unfold db_len_prefixed; db_stable].
  - unfold put_bytes, put_len, db_len_prefixed. rewrite sat_u32_small by lia.
    eapply decodes_bind; [apply (codec_decodes (put := put_serial)); in_range|]. cbv beta.
    rewrite (proj2 (Z.ltb_ge _ _)) by lia. apply decodes_take.
  - eapply yields_bind; [apply codec_yields|]; intros n Hn.
    case_match; [apply yields_fail|]. zbool.
    eapply yields_weaken; [apply yields_take|]. cbv beta. intros b [? ?]. split; [done|lia].
Qed.

Global Instance dcodec_body : WireCodec put_bytes (db_bytes MAX_BODY) dbody_ok.
Proof. by apply dcodec_prefixed. Qed.

Lemma dcodec_str max : max <= u32_max -> WireCodec put_str (db_str max) (dstr_ok max).
Proof.
  intros Hm. pose proof (dcodec_prefixed max Hm) as C.
  split; [intros s (Hb & Hl & Hu)|..|unfold db_str; db_stable].
  - rewrite <- (app_nil_r (put_str s)). unfold db_str.
    eapply decodes_bind; [by apply (codec_decodes (put := put_bytes))|].
    unfold from_utf8. rewrite Hu. apply decodes_ret.
  - eapply yields_bind; [apply codec_yields|]; intros b [Hb Hl].
    apply yields_ok_or; intros s [-> ?]%from_utf8_Some. by split_and!.
Qed.
Global Instance dcodec_name : WireCodec put_str (db_str MAX_NAME) (dstr_ok MAX_NAME).
Proof. by apply dcodec_str. Qed.
Global Instance dcodec_path : WireCodec put_str (db_str MAX_PATH) (dstr_ok MAX_PATH).
Proof. by apply dcodec_str. Qed.

Global Instance dcodec_call : WireCodec put_call get_call call_ok.
Proof.
  split; [intros c Hc; unfold call_ok in Hc; destruct_and! Hc|..|unfold get_call; db_stable].
  - unfold put_call, get_call. db_fields. by destruct c.
  - unfold get_call. db_yields. unfold call_ok; cbn. by split_and!.
Qed.
Global Instance dcodec_reply : WireCodec put_reply get_reply reply_ok.
Proof.
  split; [intros c Hc; unfold reply_ok in Hc; destruct_and! Hc|..|unfold get_reply; db_stable].
  - unfold put_reply, get_reply. db_fields. by destruct c.
  - unfold get_reply. db_yields. unfold reply_ok; cbn. by split_and!.
Qed.
Global Instance dcodec_error : WireCodec put_error get_error error_ok.
Proof.
  split; [intros c Hc; unfold error_ok in Hc; destruct_and! Hc|..|unfold get_error; db_stable].
  - unfold put_error, get_error. db_fields. by destruct c.
  - unfold get_error. db_yields. unfold error_ok; cbn. by split_and!.
Qed.
Global Instance dcodec_signal : WireCodec put_signal get_signal signal_ok.
Proof.
  split; [intros c Hc; unfold signal_ok in Hc; destruct_and! Hc|..|unfold get_signal; db_stable].
  - unfold put_signal, get_signal. db_fields. by destruct c.
  - unfold get_signal. db_yields. unfold signal_ok; cbn. by split_and!.
Qed.

Global Instance dcodec_frame : WireCodec frame_body get_frame frame_ok.
Proof.
  split; [intros f Hf|..|unfold get_frame; db_stable].
  - unfold get_frame. destruct f; cbn [frame_body frame_ok] in *;
      (eapply decodes_bind; [by apply (codec_decodes (put := put_byte))|]); cbn [Z.eqb Pos.eqb];
      (eapply decodes_last_eq; [by apply codec_decodes|done]).
  - unfold get_frame. eapply yields_bind; [apply codec_yields|]; intros t _.
    repeat case_match; first [apply yields_fail | db_yields; done].
Qed.

(** ** Sizes *)

Lemma dbus_bytes_len b : blen (put_bytes b) = 4 + blen b.
Proof. unfold put_bytes, put_len. rewrite blen_app, length_be_bytes. lia. Qed.

Lemma dbus_str_len s : blen (put_str s) = 4 + blen s.
Proof. apply dbus_bytes_len. Qed.

Ltac frame_size :=
  unfold put_call, put_reply, put_error, put_signal, put_bus, put_no_reply, put_byte, put_serial;
  rewrite ?blen_app, ?dbus_str_len, ?dbus_bytes_len, ?length_be_bytes; cbn [length].

(** A well-formed frame is under the whole-frame bound, so its prefix is accepted. *)
Lemma frame_body_bound f : frame_ok f -> 0 < blen (frame_body f) <= MAX_FRAME.
Proof.
  destruct f; cbn [frame_ok frame_body]; unfold call_ok, reply_ok, error_ok, signal_ok, dstr_ok, dbody_ok;
    intros H; destruct_and! H; frame_size; unfold MAX_NAME, MAX_PATH, MAX_BODY, MAX_FRAME, MAX_BODY in *; lia.
Qed.

(** ** Typed frames: what Rust's types give, before any bound on the lengths *)

Definition text_ok (s : bytes) : Prop := bytes_ok s /\ utf8_ok s = true.
Definition frame_typed (f : Frame) : Prop :=
  match f with
  | FCall c =>
      in_u32 (ca_serial c) /\ text_ok (ca_destination c) /\ text_ok (ca_path c) /\
      text_ok (ca_interface c) /\ text_ok (ca_member c) /\ text_ok (ca_signature c) /\
      in_u8 (ca_body_endian c) /\ bytes_ok (ca_body c)
  | FReply r =>
      in_u32 (re_reply_serial r) /\ text_ok (re_signature r) /\ in_u8 (re_body_endian r) /\
      bytes_ok (re_body r)
  | FError e => in_u32 (er_reply_serial e) /\ text_ok (er_name e) /\ text_ok (er_message e)
  | FSignal s =>
      text_ok (si_path s) /\ text_ok (si_interface s) /\ text_ok (si_member s) /\
      text_ok (si_signature s) /\ in_u8 (si_body_endian s) /\ bytes_ok (si_body s)
  end.
Global Instance frame_typed_dec f : Decision (frame_typed f).
Proof. unfold frame_typed, text_ok, bytes_ok, byte_ok. destruct f; apply _. Defined.

Lemma put_bytes_ok b : bytes_ok b -> bytes_ok (put_bytes b).
Proof. intros H. apply Forall_app. split; [apply be_bytes_ok|done]. Qed.

Lemma put_byte_ok v : in_u8 v -> bytes_ok (put_byte v).
Proof. intros H. constructor; [done|constructor]. Qed.

Lemma frame_body_ok f : frame_typed f -> bytes_ok (frame_body f).
Proof.
  unfold frame_typed, text_ok. destruct f; intros H; destruct_and! H;
    cbn [frame_body]; unfold put_call, put_reply, put_error, put_signal, put_bus, put_no_reply, put_serial, put_str, bytes_ok;
    rewrite !Forall_app; split_and!;
    first [by apply put_bytes_ok | apply be_bytes_ok | apply put_byte_ok; first [done | by case_match | by unfold bus_to_u8; case_match]].
Qed.

(** A conduit frame reads back as itself exactly when every field is within its
    bound: a typed frame whose body is written and decoded gives the same frame iff
    the names are at most 255 bytes, the paths and messages at most 4096 and the
    body at most one MiB; otherwise the decoder refuses it. An accepted frame
    also passes the length prefix check whatever follows it on the stream. *)
Theorem conduit_frame_exact f rest :
  frame_typed f -> blen (frame_body f) <= usize_max ->
  (frame_decode (frame_body f) = Ok f <-> frame_ok f) /\
  (frame_ok f -> frame_len (frame_encode f ++ rest) = Ok (Some (blen (frame_body f)))) /\
  (forall g, frame_decode (frame_body f) = Ok g -> frame_ok g).
Proof.
  intros Ht Hu. apply frame_body_ok in Ht as Hb. split_and!.
  - split; intros H.
    + by apply (run_exact_yields _ _ _ _ _ codec_yields Hb H).
    + apply run_exact_decodes; [by apply codec_decodes|done].
  - intros Hok. apply frame_body_bound in Hok as Hl.
    unfold frame_len, frame_encode. rewrite <- app_assoc, (get_range_eq _ [] (put_len (blen (frame_body f))) (frame_body f ++ rest)).
    + unfold put_len. rewrite sat_u32_small by (unfold MAX_FRAME, MAX_BODY, u32_max in *; lia).
      rewrite be_val_be_bytes by (unfold MAX_FRAME, MAX_BODY in *; lia).
      by rewrite (proj2 (Z.ltb_ge _ _)) by lia.
    + done.
    + done.
    + unfold put_len. by rewrite length_be_bytes.
  - intros g. by apply (run_exact_yields _ _ _ _ _ codec_yields).
Qed.

Definition notify_call : Call := {|
  ca_bus := Session; ca_serial := 7; ca_no_reply := false;
  ca_destination := ascii_bytes "org.freedesktop.Notifications";
  ca_path := ascii_bytes "/org/freedesktop/Notifications";
  ca_interface := ascii_bytes "org.freedesktop.Notifications"; ca_member := ascii_bytes "Notify";
  ca_signature := ascii_bytes "s"; ca_body_endian := 108; ca_body := [1; 0; 0; 0; 104; 0] |}.

Lemma conduit_frame_exact_witness :
  frame_decode (frame_body (FCall notify_call)) = Ok (FCall notify_call).
Proof.
  apply (conduit_frame_exact (FCall notify_call) []).
  - apply (bool_decide_unpack _). vm_compute. exact I.
  - vm_compute. by intros.
  - apply (bool_decide_unpack _). vm_compute. exact I.
Defined.
