(* ===== verification/Dbus.v ===== *)
(** The D-Bus mediation engine.

    - [kennel-lib-dbus/src/filter.rs]: the refuse-to-broker set, the per-bus rules
      and the decision on one call; [check_dbus] of
      [kennel-lib-compile/src/source.rs] is the compile-time counterpart.
    - [kennel-lib-dbus/src/message.rs]: rebuilding a message from typed fields; the
      marshaller ([mini-sansio-dbus]) is a parameter that takes the sequence of
      calls the code makes on it.
    - [kennel-lib-dbus/src/delegate.rs]: the serial map, the reply and signal paths.
    - [kennel-dbus-broker/src/mediate.rs]: the poll loop of one session, with what
      the sockets and the D-Bus decoder deliver as the inputs of a round.

    Theorems: the decision in terms of names; what a session puts on the bus and
    what it hands back to the kennel, for every sequence of rounds and however the
    stream is cut into reads; replies matched to their calls. *)

From stdpp Require Import gmap.
From S2P Require Import Prelude Bytes Str Cursor DbusWire.
Open Scope Z_scope.

(** ** The filter *)

Definition REFUSE_TO_BROKER : list bytes := [
  ascii_bytes "org.freedesktop.secrets"; ascii_bytes "org.freedesktop.systemd1";
  ascii_bytes "org.freedesktop.login1"; ascii_bytes "org.gnome.SessionManager";
  ascii_bytes "org.kde.ksmserver"].

(** [name.strip_prefix(p).is_some_and(|rest| rest.starts_with('.'))]. *)
Definition is_child (p name : bytes) : bool :=
  match strip_prefix p name with Some rest => starts_with [DOT] rest | None => false end.

Definition is_refused (name : bytes) : bool :=
  existsb (fun r => bool_decide (name = r) || is_child r name) REFUSE_TO_BROKER.

Definition pattern_admits (pattern name : bytes) : bool :=
  bool_decide (pattern = [STAR]) || bool_decide (pattern = name) ||
  match (p ← strip_suffix [STAR] pattern; strip_suffix [DOT] p) with
  | Some prefix => bool_decide (name = prefix) || is_child prefix name
  | None => false
  end.

Record BusRules : Type := {
  br_talk : list bytes; br_call : list bytes; br_broadcast : list bytes; br_own : list bytes;
  br_deny_talk : list bytes;
}.
Record Filter : Type := { fi_session : option BusRules; fi_system : option BusRules }.
Inductive Decision : Type := Allow | Deny (reason : bytes).

Definition bus_name (b : Bus) : bytes :=
  match b with Session => ascii_bytes "session" | System => ascii_bytes "system" end.
Definition rules_for (f : Filter) (b : Bus) : option BusRules :=
  match b with Session => fi_session f | System => fi_system f end.

Definition EQUALS : Z := 61.
Definition call_target (c : Call) : bytes := ca_interface c ++ [DOT] ++ ca_member c.
Definition call_admits (rules : BusRules) (c : Call) : bool :=
  existsb (fun entry =>
    match split_once EQUALS entry with
    | None => false
    | Some (dest, method) =>
        pattern_admits dest (ca_destination c) && pattern_admits method (call_target c)
    end) (br_call rules).

Definition decide (f : Filter) (c : Call) : Decision :=
  if is_refused (ca_destination c) then
    Deny (ca_destination c ++ ascii_bytes " is refused to brokering by Project Kennel")
  else match rules_for f (ca_bus c) with
  | None => Deny (ascii_bytes "the " ++ bus_name (ca_bus c) ++ ascii_bytes " bus is not enabled")
  | Some rules =>
      if existsb (fun p => pattern_admits p (ca_destination c)) (br_deny_talk rules) then
        Deny (ca_destination c ++ ascii_bytes " is explicitly denied")
      else if existsb (fun p => pattern_admits p (ca_destination c)) (br_talk rules)
              || call_admits rules c then Allow
      else Deny (ca_destination c ++ ascii_bytes " is not on the " ++ bus_name (ca_bus c) ++
                 ascii_bytes " bus allowlist")
  end.

(** ** The compiler's check of a [dbus] allow table *)

Definition dbus_destination (entry : bytes) : bytes :=
  trim (match split_on EQUALS entry with p :: _ => p | [] => entry end).

(** The entries [check_dbus] reports for one bus, each with the refused name it reaches. *)
Definition check_dbus (rules : BusRules) : list (bytes * bytes) :=
  omap (fun entry =>
    refused ← List.find (pattern_admits (dbus_destination entry)) REFUSE_TO_BROKER;
    Some (entry, refused))
    (br_talk rules ++ br_call rules ++ br_broadcast rules ++ br_own rules).

(** ** Rebuilding messages *)

(** The message types the code tells apart. *)
Inductive MessageType : Type := MethodCall | MethodReturn | MErrorReply | MSignal | MOther.
Global Instance message_type_eq_dec : EqDecision MessageType.
Proof. solve_decision. Defined.

(** The calls the code makes on the marshaller. *)
Inductive enc_call : Type :=
  | SetDestination (s : bytes) | SetPath (s : bytes) | SetInterface (s : bytes)
  | SetMember (s : bytes) | SetErrorName (s : bytes) | SetReplySerial (n : Z)
  | SetBodySignature (s : bytes) | BeginBody | WriteU8 (b : Z) | WriteString (s : bytes).

Inductive MessageError {E : Type} : Type := BigEndianBody | Framing | Encode (e : E).
Arguments MessageError : clear implicits.

Definition LE : Z := 108.
Definition BE : Z := 66.

Record Spec : Type := {
  sp_ty : MessageType; sp_serial : Z; sp_destination : option bytes; sp_path : option bytes;
  sp_interface : option bytes; sp_member : option bytes; sp_error_name : option bytes;
  sp_reply_serial : option Z; sp_signature : bytes; sp_body_endian : Z; sp_body : bytes;
}.
Definition non_empty (s : bytes) : option bytes := if is_nil s then None else Some s.
Definition field_len (f : option bytes) : Z :=
  match f with None => 0 | Some s => sat_add usize_max (blen s) 16 end.
Definition enc_opt {A} (set : A -> enc_call) (o : option A) : list enc_call :=
  match o with Some x => [set x] | None => [] end.
Definition spec_cap (s : Spec) : Z :=
  fold_left (sat_add usize_max)
    [blen (sp_signature s); blen (sp_body s); field_len (sp_destination s); field_len (sp_path s);
     field_len (sp_interface s); field_len (sp_member s); field_len (sp_error_name s)] 256.
Definition spec_calls (s : Spec) : list enc_call :=
  enc_opt SetDestination (sp_destination s) ++ enc_opt SetPath (sp_path s) ++
  enc_opt SetInterface (sp_interface s) ++ enc_opt SetMember (sp_member s) ++
  enc_opt SetErrorName (sp_error_name s) ++ enc_opt SetReplySerial (sp_reply_serial s) ++
  [SetBodySignature (sp_signature s); BeginBody] ++ map WriteU8 (sp_body s).

(** [body_slice]: the raw body of a complete message at the front of a buffer. *)
Definition next_multiple_of_8 (n : Z) : Z := (n + 7) / 8 * 8.
Definition body_slice {E} (message : bytes) : result (MessageError E) (Z * bytes) :=
  match get_range message 0 16 with
  | Some (en :: _) =>
      let read_u32 off :=
        match get_range message off (off + 4) with
        | Some b => Ok (if en =? BE then be_val b else le_val b)
        | None => Err Framing
        end in
      body_len ← read_u32 4;
      header_fields_len ← read_u32 12;
      let after_fields := 16 + header_fields_len in
      if usize_max <? after_fields then Err Framing else
      let body_offset := next_multiple_of_8 after_fields in
      if usize_max <? body_offset then Err Framing else
      let body_end := body_offset + body_len in
      if usize_max <? body_end then Err Framing else
      match get_range message body_offset body_end with
      | Some body => Ok (en, body)
      | None => Err Framing
      end
  | _ => Err Framing
  end.

(** A decoded message, as the fields the code reads. *)
Record IncomingMessage : Type := {
  im_type : MessageType; im_serial : Z; im_reply_serial : option Z; im_destination : option bytes;
  im_path : option bytes; im_interface : option bytes; im_member : option bytes;
  im_error_name : option bytes; im_signature : option bytes;
}.

Record BusReply : Type := {
  bp_reply_serial : Z; bp_error_name : option bytes; bp_error_message : option bytes;
  bp_signature : bytes; bp_body_endian : Z; bp_body : bytes;
}.
Record BusSignal : Type := {
  bs_bus : Bus; bs_path : bytes; bs_interface : bytes; bs_member : bytes; bs_signature : bytes;
  bs_body_endian : Z; bs_body : bytes;
}.

Definition ACCESS_DENIED : bytes := ascii_bytes "org.freedesktop.DBus.Error.AccessDenied".

Record Delegate : Type := {
  de_filter : Filter; de_pending : gmap Z Z; de_next_bus_serial : Z;
}.
Definition delegate_new (f : Filter) : Delegate :=
  {| de_filter := f; de_pending := ∅; de_next_bus_serial := 2 |}.
Definition next_bus_serial (s : Z) : Z := if s =? u32_max then 2 else s + 1.

(** A frame carrying a refusal back to the facade. *)
Definition denial (c : Call) (reason : bytes) : Frame :=
  FError {| er_reply_serial := ca_serial c; er_name := ACCESS_DENIED; er_message := reason |}.

Definition on_bus_reply (d : Delegate) (r : BusReply) : option Frame * Delegate :=
  match de_pending d !! bp_reply_serial r with
  | None => (None, d)
  | Some kennel_serial =>
      (Some match bp_error_name r with
       | None => FReply {| re_reply_serial := kennel_serial; re_signature := bp_signature r;
                           re_body_endian := bp_body_endian r; re_body := bp_body r |}
       | Some name => FError {| er_reply_serial := kennel_serial; er_name := name;
                                er_message := default [] (bp_error_message r) |}
       end,
       {| de_filter := de_filter d; de_pending := delete (bp_reply_serial r) (de_pending d);
          de_next_bus_serial := de_next_bus_serial d |})
  end.

Definition signal_allowed (rules : BusRules) (interface : bytes) : bool :=
  existsb (fun p => pattern_admits p interface) (br_broadcast rules ++ br_talk rules).

Definition on_bus_signal (d : Delegate) (s : BusSignal) : option Frame :=
  rules ← rules_for (de_filter d) (bs_bus s);
  if negb (signal_allowed rules (bs_interface s)) then None
  else Some (FSignal {| si_bus := bs_bus s; si_path := bs_path s; si_interface := bs_interface s;
                        si_member := bs_member s; si_signature := bs_signature s;
                        si_body_endian := bs_body_endian s; si_body := bs_body s |}).

Definition READBUF : Z := MAX_BODY + 64 * 1024.
Definition CONDUIT_OUT_HIGH_WATER : Z := 2 * READBUF.

(** One session's loop: the delegate, the two conduit buffers, the queue of
    messages for the bus; and what the two sockets have carried so far. *)
Record Loop : Type := {
  lo_bus : Bus; lo_delegate : Delegate; lo_conduit_in : bytes; lo_conduit_out : bytes;
  lo_queue : list bytes;
  lo_sent : list bytes; lo_returned : bytes; lo_received : bytes;
}.
Definition with_delegate (d : Delegate) (l : Loop) : Loop :=
  {| lo_bus := lo_bus l; lo_delegate := d; lo_conduit_in := lo_conduit_in l;
     lo_conduit_out := lo_conduit_out l; lo_queue := lo_queue l; lo_sent := lo_sent l;
     lo_returned := lo_returned l; lo_received := lo_received l |}.
Definition with_conduit_in (b : bytes) (l : Loop) : Loop :=
  {| lo_bus := lo_bus l; lo_delegate := lo_delegate l; lo_conduit_in := b;
     lo_conduit_out := lo_conduit_out l; lo_queue := lo_queue l; lo_sent := lo_sent l;
     lo_returned := lo_returned l; lo_received := lo_received l |}.
Definition push_out (b : bytes) (l : Loop) : Loop :=
  {| lo_bus := lo_bus l; lo_delegate := lo_delegate l; lo_conduit_in := lo_conduit_in l;
     lo_conduit_out := lo_conduit_out l ++ b; lo_queue := lo_queue l; lo_sent := lo_sent l;
     lo_returned := lo_returned l; lo_received := lo_received l |}.
Definition push_raw (m : bytes) (l : Loop) : Loop :=
  {| lo_bus := lo_bus l; lo_delegate := lo_delegate l; lo_conduit_in := lo_conduit_in l;
     lo_conduit_out := lo_conduit_out l; lo_queue := lo_queue l ++ [m]; lo_sent := lo_sent l;
     lo_returned := lo_returned l; lo_received := lo_received l |}.
(** A read of [chunk] off the conduit. *)
Definition receive (chunk : bytes) (l : Loop) : Loop :=
  {| lo_bus := lo_bus l; lo_delegate := lo_delegate l;
     lo_conduit_in := lo_conduit_in l ++ chunk; lo_conduit_out := lo_conduit_out l;
     lo_queue := lo_queue l; lo_sent := lo_sent l; lo_returned := lo_returned l;
     lo_received := lo_received l ++ chunk |}.
(** [pump_bus_writes] when the socket takes [n] whole messages, and
    [pump_conduit_writes] when it takes [n] bytes. *)
Definition pump_bus_writes (n : nat) (l : Loop) : Loop :=
  {| lo_bus := lo_bus l; lo_delegate := lo_delegate l; lo_conduit_in := lo_conduit_in l;
     lo_conduit_out := lo_conduit_out l; lo_queue := drop n (lo_queue l);
     lo_sent := lo_sent l ++ take n (lo_queue l); lo_returned := lo_returned l;
     lo_received := lo_received l |}.
Definition pump_conduit_writes (n : nat) (l : Loop) : Loop :=
  {| lo_bus := lo_bus l; lo_delegate := lo_delegate l; lo_conduit_in := lo_conduit_in l;
     lo_conduit_out := drop n (lo_conduit_out l); lo_queue := lo_queue l; lo_sent := lo_sent l;
     lo_returned := lo_returned l ++ take n (lo_conduit_out l); lo_received := lo_received l |}.

(** [take_conduit_frame]: the first complete frame and the bytes after it. *)
Definition take_conduit_frame (buf : bytes) : result unit (option (Frame * bytes)) :=
  match frame_len buf with
  | Err _ => Err tt
  | Ok None => Ok None
  | Ok (Some len) =>
      let total := 4 + len in
      if blen buf <? total then Ok None
      else match frame_decode (drop 4 (take (Z.to_nat total) buf)) with
           | Ok f => Ok (Some (f, drop (Z.to_nat total) buf))
           | Err _ => Err tt
           end
  end.

(** What the sockets deliver in one round: whether a pump finds its peer gone, how
    much each pump writes, what is read, and a hang-up. *)
Inductive conduit_input : Type := CNone | CClosed | CData (chunk : bytes).
Inductive bus_input : Type := BNone | BClosed | BPartial | BMessage (m : IncomingMessage) (raw : bytes).
Record round_input : Type := {
  ri_pump_closed : bool; ri_bus_written : nat; ri_conduit_written : nat;
  ri_conduit : conduit_input; ri_bus : bus_input; ri_hangup : bool;
}.

Section mediation.
(** The marshaller: buffer capacity, message type, the calls made on it and the serial
    written at the end. *)
Context {E : Type} (marshal : Z -> MessageType -> list enc_call -> Z -> result E bytes).

Definition build (s : Spec) : result (MessageError E) bytes :=
  if negb (is_nil (sp_body s)) && negb (sp_body_endian s =? LE) then Err BigEndianBody
  else match marshal (spec_cap s) (sp_ty s) (spec_calls s) (sp_serial s) with
       | Ok m => Ok m
       | Err e => Err (Encode e)
       end.

Definition reconstruct_call (c : Call) (serial : Z) : result (MessageError E) bytes :=
  build {| sp_ty := MethodCall; sp_serial := serial; sp_destination := Some (ca_destination c);
           sp_path := non_empty (ca_path c); sp_interface := non_empty (ca_interface c);
           sp_member := non_empty (ca_member c); sp_error_name := None; sp_reply_serial := None;
           sp_signature := ca_signature c; sp_body_endian := ca_body_endian c;
           sp_body := ca_body c |}.
Definition reconstruct_return (r : Reply) (serial : Z) (destination : option bytes) :
    result (MessageError E) bytes :=
  build {| sp_ty := MethodReturn; sp_serial := serial; sp_destination := destination;
           sp_path := None; sp_interface := None; sp_member := None; sp_error_name := None;
           sp_reply_serial := Some (re_reply_serial r); sp_signature := re_signature r;
           sp_body_endian := re_body_endian r; sp_body := re_body r |}.
Definition reconstruct_error (e : ErrorReply) (serial : Z) (destination : option bytes) :
    result (MessageError E) bytes :=
  let cap := sat_add usize_max (sat_add usize_max 256 (blen (er_name e))) (blen (er_message e)) in
  let calls :=
    [SetErrorName (er_name e); SetReplySerial (er_reply_serial e)] ++
    enc_opt SetDestination destination ++
    (if is_nil (er_message e) then [BeginBody]
     else [SetBodySignature (ascii_bytes "s"); BeginBody; WriteString (er_message e)]) in
  match marshal cap MErrorReply calls serial with Ok m => Ok m | Err x => Err (Encode x) end.
Definition reconstruct_signal (s : Signal) (serial : Z) : result (MessageError E) bytes :=
  build {| sp_ty := MSignal; sp_serial := serial; sp_destination := None;
           sp_path := non_empty (si_path s); sp_interface := non_empty (si_interface s);
           sp_member := non_empty (si_member s); sp_error_name := None; sp_reply_serial := None;
           sp_signature := si_signature s; sp_body_endian := si_body_endian s;
           sp_body := si_body s |}.

Inductive Outbound : Type := ToBus (m : bytes) | ToConduit (f : Frame).

(** The serial is taken before the rebuild, which may fail. *)
Definition on_conduit_call (d : Delegate) (c : Call) :
    result (MessageError E) Outbound * Delegate :=
  match decide (de_filter d) c with
  | Deny reason => (Ok (ToConduit (denial c reason)), d)
  | Allow =>
      let bus_serial := de_next_bus_serial d in
      let next := next_bus_serial bus_serial in
      match reconstruct_call c bus_serial with
      | Err e => (Err e, {| de_filter := de_filter d; de_pending := de_pending d;
                            de_next_bus_serial := next |})
      | Ok m => (Ok (ToBus m),
                 {| de_filter := de_filter d;
                    de_pending := <[bus_serial := ca_serial c]> (de_pending d);
                    de_next_bus_serial := next |})
      end
  end.

(** [dispatch_bus_message]. *)
Definition dispatch_bus_message (d : Delegate) (bus : Bus) (m : IncomingMessage) (raw : bytes) :
    option Frame * Delegate :=
  match body_slice (E := E) raw with
  | Err _ => (None, d)
  | Ok (body_endian, body) =>
      if bool_decide (im_type m = MethodReturn) || bool_decide (im_type m = MErrorReply) then
        match im_reply_serial m with
        | None => (None, d)
        | Some reply_serial =>
            on_bus_reply d {|
              bp_reply_serial := reply_serial;
              bp_error_name := if bool_decide (im_type m = MErrorReply) then im_error_name m else None;
              bp_error_message := None; bp_signature := default [] (im_signature m);
              bp_body_endian := body_endian; bp_body := body |}
        end
      else if bool_decide (im_type m = MSignal) then
        (on_bus_signal d {|
           bs_bus := bus; bs_path := default [] (im_path m);
           bs_interface := default [] (im_interface m); bs_member := default [] (im_member m);
           bs_signature := default [] (im_signature m); bs_body_endian := body_endian;
           bs_body := body |}, d)
      else (None, d)
  end.

(** The body of [read_conduit]'s loop: one frame off the conduit. *)
Definition feed_frame (f : Frame) (l : Loop) : Loop :=
  match f with
  | FCall c =>
      let '(out, d) := on_conduit_call (lo_delegate l) c in
      let l := with_delegate d l in
      match out with
      | Ok (ToBus m) => push_raw m l
      | Ok (ToConduit reply) => push_out (frame_encode reply) l
      | Err _ => l
      end
  | _ => l
  end.

(** [while let Some(frame) = self.take_conduit_frame()?]: [false] when a frame is broken. *)
Fixpoint drain_frames (fuel : nat) (l : Loop) : Loop * bool :=
  match fuel with
  | O => (l, true)
  | S fuel =>
      match take_conduit_frame (lo_conduit_in l) with
      | Err _ => (l, false)
      | Ok None => (l, true)
      | Ok (Some (f, rest)) => drain_frames fuel (feed_frame f (with_conduit_in rest l))
      end
  end.
Definition read_conduit (chunk : bytes) (l : Loop) : Loop * bool :=
  let l := receive chunk l in drain_frames (S (length (lo_conduit_in l))) l.

Definition read_bus (m : IncomingMessage) (raw : bytes) (l : Loop) : Loop :=
  let '(frame, d) := dispatch_bus_message (lo_delegate l) (lo_bus l) m raw in
  let l := with_delegate d l in
  match frame with Some f => push_out (frame_encode f) l | None => l end.

(** One turn of [Loop::run]; [false] when the loop returns. *)
Definition round (i : round_input) (l : Loop) : Loop * bool :=
  let l := pump_conduit_writes (ri_conduit_written i) (pump_bus_writes (ri_bus_written i) l) in
  if ri_pump_closed i then (l, false) else
  let bus_wanted := blen (lo_conduit_out l) <? CONDUIT_OUT_HIGH_WATER in
  let '(l, open) :=
    match ri_conduit i with
    | CNone => (l, true) | CClosed => (l, false) | CData chunk => read_conduit chunk l
    end in
  if negb open then (l, false) else
  let '(l, open) :=
    if bus_wanted then
      match ri_bus i with
      | BNone | BPartial => (l, true) | BClosed => (l, false)
      | BMessage m raw => (read_bus m raw l, true)
      end
    else (l, true) in
  if negb open then (l, false) else (l, negb (ri_hangup i)).

Fixpoint run_rounds (ins : list round_input) (l : Loop) : Loop :=
  match ins with
  | [] => l
  | i :: ins => let '(l, open) := round i l in if open then run_rounds ins l else l
  end.

(** [mediate] after the handshake: the delegate's own [Hello] is queued first. *)
Definition mediate_init (bus : Bus) (f : Filter) (hello : bytes) : Loop :=
  {| lo_bus := bus; lo_delegate := delegate_new f; lo_conduit_in := []; lo_conduit_out := [];
     lo_queue := [hello]; lo_sent := []; lo_returned := []; lo_received := [] |}.

End mediation.

(** * The decision *)

Definition under (p name : bytes) : Prop := name = p \/ exists r, name = p ++ [DOT] ++ r.
Definition admits (pattern name : bytes) : Prop :=
  pattern = [STAR] \/ pattern = name \/
  exists p, pattern = p ++ [DOT; STAR] /\ under p name.

Lemma is_child_spec p name : is_child p name = true <-> exists r, name = p ++ [DOT] ++ r.
Proof.
  unfold is_child. split.
  - destruct (strip_prefix p name) as [q|] eqn:Eq; [|done]. apply strip_prefix_Some in Eq as ->.
    intros [r ->]%starts_with_true. by exists r.
  - intros [r ->]. rewrite (proj2 (strip_prefix_Some _ _ _) eq_refl).
    apply starts_with_true. by exists r.
Qed.

Lemma under_spec p name : bool_decide (name = p) || is_child p name = true <-> under p name.
Proof. unfold under. by rewrite orb_true_iff, bool_decide_eq_true, is_child_spec. Qed.

Lemma pattern_admits_spec pattern name : pattern_admits pattern name = true <-> admits pattern name.
Proof.
  unfold pattern_admits, admits. rewrite !orb_true_iff, !bool_decide_eq_true, Logic.or_assoc.
  do 2 (apply or_iff_compat_l).
  split.
  - destruct (strip_suffix [STAR] pattern) as [q|] eqn:E1; [|done]. cbn.
    destruct (strip_suffix [DOT] q) as [p|] eqn:E2; [|done]. intros H%under_spec.
    apply strip_suffix_Some in E1 as ->, E2 as ->. exists p. by rewrite <- app_assoc.
  - intros (p & -> & H). change [DOT; STAR] with ([DOT] ++ [STAR]). rewrite app_assoc.
    rewrite (proj2 (strip_suffix_Some _ _ _) eq_refl). cbn.
    rewrite (proj2 (strip_suffix_Some _ _ _) eq_refl). by apply under_spec.
Qed.

Lemma existsb_Exists {A} (f : A -> bool) (P : A -> Prop) l :
  (forall x, f x = true <-> P x) -> existsb f l = true <-> exists x, x ∈ l /\ P x.
Proof.
  intros H. rewrite existsb_exists. split; intros (x & Hx & Hp); exists x.
  - by rewrite list_elem_of_In, <- H.
  - by rewrite <- list_elem_of_In, H.
Qed.

Definition refused (name : bytes) : Prop := exists r, r ∈ REFUSE_TO_BROKER /\ under r name.
Lemma is_refused_spec name : is_refused name = true <-> refused name.
Proof. apply existsb_Exists. intros r. apply under_spec. Qed.

(** An [entry] of the [call] list, cut at its first [=]. *)
Lemma split_once_Some c s a b :
  split_once c s = Some (a, b) <-> s = a ++ [c] ++ b /\ (c ∉ a).
Proof.
  revert a. induction s as [|x s IH]; intros a; cbn.
  - split; [done|]. intros [H _]. by destruct a.
  - destruct (x =? c) eqn:E; zbool.
    + subst. split.
      * intros [= <- <-]. split; [done|]. by intros ?%elem_of_nil.
      * intros [H Hn]. destruct a as [|y a]; cbn in H; simplify_eq/=; [done|].
        by exfalso; apply Hn; left.
    + destruct (split_once c s) as [[a' b']|] eqn:Es.
      * split.
        -- intros [= <- <-]. destruct (proj1 (IH a') eq_refl) as [-> Hn]. split; [done|].
           rewrite elem_of_cons. intros [->|?]; done.
        -- intros [H Hn]. destruct a as [|y a]; cbn in H; simplify_eq/=.
           rewrite elem_of_cons in Hn. destruct (proj2 (IH a)); [|naive_solver..].
           split; [done|naive_solver].
      * split; [done|]. intros [H Hn]. destruct a as [|y a]; cbn in H; simplify_eq/=.
        rewrite elem_of_cons in Hn. discriminate (proj2 (IH a)); split; [done|naive_solver].
Qed.

Definition call_entry_admits (c : Call) (entry : bytes) : Prop :=
  exists dest method, entry = dest ++ [EQUALS] ++ method /\ (EQUALS ∉ dest) /\
    admits dest (ca_destination c) /\ admits method (call_target c).

Lemma call_admits_spec rules c :
  call_admits rules c = true <-> exists entry, entry ∈ br_call rules /\ call_entry_admits c entry.
Proof.
  apply existsb_Exists. intros entry. unfold call_entry_admits. split.
  - destruct (split_once EQUALS entry) as [[d m]|] eqn:Es; [|done].
    apply split_once_Some in Es as [-> Hn]. intros [?%pattern_admits_spec ?%pattern_admits_spec]%andb_true_iff.
    by exists d, m.
  - intros (d & m & -> & Hn & ?%pattern_admits_spec & ?%pattern_admits_spec).
    rewrite (proj2 (split_once_Some _ _ d m)) by done. by apply andb_true_iff.
Qed.

(** The calls a set of rules lets through. *)
Definition permitted (f : Filter) (c : Call) : Prop :=
  ~ refused (ca_destination c) /\
  exists rules, rules_for f (ca_bus c) = Some rules /\
    (forall p, p ∈ br_deny_talk rules -> ~ admits p (ca_destination c)) /\
    ((exists p, p ∈ br_talk rules /\ admits p (ca_destination c)) \/
     exists entry, entry ∈ br_call rules /\ call_entry_admits c entry).

Lemma decide_permitted f c : decide f c = Allow <-> permitted f c.
Proof.
  unfold decide, permitted. rewrite <- is_refused_spec.
  destruct (is_refused (ca_destination c)); [split; [done|by intros [[] _]]|].
  destruct (rules_for f (ca_bus c)) as [rules|]; [|split; [done|by intros (_ & ? & ? & _)]].
  pose proof (existsb_Exists (fun p => pattern_admits p (ca_destination c)) (fun p => admits p (ca_destination c))
    (br_deny_talk rules) (fun p => pattern_admits_spec p _)) as Hd.
  pose proof (existsb_Exists (fun p => pattern_admits p (ca_destination c)) (fun p => admits p (ca_destination c))
    (br_talk rules) (fun p => pattern_admits_spec p _)) as Ht.
  pose proof (call_admits_spec rules c) as Hc.
  destruct (existsb _ (br_deny_talk rules)).
  - split; [done|]. intros (_ & ? & [= <-] & Hn & _).
    destruct (proj1 Hd eq_refl) as (p & Hp & Ha). by destruct (Hn p Hp).
  - assert (forall p, p ∈ br_deny_talk rules -> ~ admits p (ca_destination c)) as Hn.
    { intros p Hp Ha. discriminate (proj2 Hd). by exists p. }
    destruct (existsb _ (br_talk rules) || call_admits rules c) eqn:E.
    + split; [intros _|done]. split; [done|]. exists rules. split_and!; [done..|].
      apply orb_true_iff in E as [?|?]; [left; by apply Ht|right; by apply Hc].
    + split; [done|]. apply orb_false_iff in E as [E1 E2].
      intros (_ & ? & [= <-] & _ & [H%Ht|H%Hc]); congruence.
Qed.

(** * The conduit as a stream *)

(** The frames a stream of bytes carries, up to the first that is incomplete or broken. *)
Fixpoint frames_of (fuel : nat) (buf : bytes) : list Frame :=
  match fuel with
  | O => []
  | S fuel =>
      match take_conduit_frame buf with
      | Ok (Some (f, rest)) => f :: frames_of fuel rest
      | _ => []
      end
  end.
Definition stream_frames (buf : bytes) : list Frame := frames_of (S (length buf)) buf.

Lemma frame_len_app buf b len :
  frame_len buf = Ok (Some len) -> frame_len (buf ++ b) = Ok (Some len).
Proof.
  unfold frame_len. destruct (get_range buf 0 4) as [p|] eqn:G; [|done].
  by rewrite (get_range_extend _ _ _ _ b G).
Qed.

Lemma frame_len_nonneg buf len : bytes_ok buf -> frame_len buf = Ok (Some len) -> 0 <= len.
Proof.
  intros Hb. unfold frame_len. destruct (get_range buf 0 4) as [p|] eqn:G; [|done].
  apply (get_range_ok _ _ _ _ Hb), be_val_bound in G. case_match; [done|]. intros [= <-]. lia.
Qed.

Lemma take_frame_Some buf f rest :
  take_conduit_frame buf = Ok (Some (f, rest)) <->
  exists len, frame_len buf = Ok (Some len) /\ 4 + len <= blen buf /\
    frame_decode (drop 4 (take (Z.to_nat (4 + len)) buf)) = Ok f /\
    rest = drop (Z.to_nat (4 + len)) buf.
Proof.
  unfold take_conduit_frame. split.
  - intros H. destruct (frame_len buf) as [[len|]|] eqn:El; try done. case_match; [done|]. zbool.
    destruct (frame_decode _) as [g|] eqn:Ed; [|done]. simplify_eq. by exists len.
  - intros (len & -> & Hl & -> & ->). by rewrite (proj2 (Z.ltb_ge _ _)) by lia.
Qed.

Lemma take_frame_app buf b f rest :
  take_conduit_frame buf = Ok (Some (f, rest)) ->
  take_conduit_frame (buf ++ b) = Ok (Some (f, rest ++ b)).
Proof.
  rewrite !take_frame_Some. intros (len & El & Hl & Hd & ->). exists len.
  rewrite (frame_len_app _ _ _ El), blen_app, take_app_le, drop_app_le by lia. split_and!; [done|lia|done..].
Qed.

Lemma take_frame_rest buf f rest :
  bytes_ok buf -> take_conduit_frame buf = Ok (Some (f, rest)) ->
  bytes_ok rest /\ (length rest < length buf)%nat.
Proof.
  intros Hb. rewrite take_frame_Some. intros (len & El & Hl & _ & ->).
  apply (frame_len_nonneg _ _ Hb) in El. split; [by apply Forall_drop|].
  rewrite length_drop. lia.
Qed.

Lemma frames_of_fuel n m buf :
  bytes_ok buf -> (length buf < n)%nat -> (length buf < m)%nat -> frames_of n buf = frames_of m buf.
Proof.
  revert m buf. induction n as [|n IH]; intros [|m] buf Hb Hn Hm; [lia..|]. cbn.
  destruct (take_conduit_frame buf) as [[[f rest]|]|] eqn:E; try done.
  apply (take_frame_rest _ _ _ Hb) in E as [? ?]. f_equal. apply IH; [done|lia..].
Qed.

Lemma stream_frames_cons buf f rest :
  bytes_ok buf -> take_conduit_frame buf = Ok (Some (f, rest)) ->
  stream_frames buf = f :: stream_frames rest.
Proof.
  intros Hb E. unfold stream_frames at 1. cbn [frames_of]. rewrite E. f_equal.
  apply (take_frame_rest _ _ _ Hb) in E as [? ?]. apply frames_of_fuel; [done|lia..].
Qed.

(** A complete frame reads off the front of a stream whatever follows it. *)
Lemma take_frame_encode f rest :
  frame_ok f -> take_conduit_frame (frame_encode f ++ rest) = Ok (Some (f, rest)).
Proof.
  intros Hok. pose proof (frame_body_bound f Hok) as Hl. apply take_frame_Some.
  assert (blen (put_len (blen (frame_body f))) = 4) as H4 by (unfold put_len; by rewrite length_be_bytes).
  exists (blen (frame_body f)). split_and!.
  - unfold frame_len, frame_encode. rewrite <- app_assoc.
    rewrite (get_range_eq _ [] (put_len (blen (frame_body f))) (frame_body f ++ rest)) by done.
    unfold put_len. rewrite sat_u32_small by (unfold MAX_FRAME, MAX_BODY, u32_max in *; lia).
    rewrite be_val_be_bytes by (unfold MAX_FRAME, MAX_BODY in *; lia).
    by rewrite (proj2 (Z.ltb_ge _ _)) by lia.
  - unfold frame_encode. rewrite !blen_app. lia.
  - rewrite take_app_exact by (unfold frame_encode; rewrite length_app; lia).
    unfold frame_encode. rewrite drop_app_exact by lia.
    apply run_exact_decodes; [by apply codec_decodes|].
    unfold MAX_FRAME, MAX_BODY, usize_max, u64_max in *. lia.
  - rewrite drop_app_exact; [done|]. unfold frame_encode. rewrite length_app. lia.
Qed.

(** ** The session *)

Definition input_ok (i : round_input) : Prop :=
  match ri_conduit i with CData chunk => bytes_ok chunk | _ => True end.

Section session.
Context {E : Type} (marshal : Z -> MessageType -> list enc_call -> Z -> result E bytes).
Context (hello : bytes).

(** What a list of frames makes the session put on the bus, from a bus serial on, and the
    serial after it. *)
Fixpoint to_bus (f : Filter) (serial : Z) (fs : list Frame) : list bytes :=
  match fs with
  | [] => []
  | FCall c :: fs =>
      match decide f c with
      | Deny _ => to_bus f serial fs
      | Allow => match reconstruct_call marshal c serial with Ok m => [m] | Err _ => [] end ++
                 to_bus f (next_bus_serial serial) fs
      end
  | _ :: fs => to_bus f serial fs
  end.
Fixpoint serial_after (f : Filter) (serial : Z) (fs : list Frame) : Z :=
  match fs with
  | [] => serial
  | FCall c :: fs =>
      match decide f c with
      | Deny _ => serial_after f serial fs
      | Allow => serial_after f (next_bus_serial serial) fs
      end
  | _ :: fs => serial_after f serial fs
  end.

Lemma to_bus_snoc f serial fs g :
  to_bus f serial (fs ++ [g]) = to_bus f serial fs ++ to_bus f (serial_after f serial fs) [g].
Proof.
  revert serial. induction fs as [|[c| | |] fs IH]; intros serial; cbn [app to_bus serial_after]; try done; [].
  destruct (decide f c); [|done]. by rewrite IH, <- app_assoc.
Qed.
Lemma serial_after_snoc f serial fs g :
  serial_after f serial (fs ++ [g]) = serial_after f (serial_after f serial fs) [g].
Proof.
  revert serial. induction fs as [|[c| | |] fs IH]; intros serial; cbn [app serial_after]; try done; [].
  by destruct (decide f c).
Qed.

(** The state after the frames [fs] have been fed. *)
Record fed (f : Filter) (fs : list Frame) (l : Loop) : Prop := {
  fed_bytes : bytes_ok (lo_received l) /\ bytes_ok (lo_conduit_in l);
  fed_stream : forall b, bytes_ok b ->
    stream_frames (lo_received l ++ b) = fs ++ stream_frames (lo_conduit_in l ++ b);
  fed_queue : lo_sent l ++ lo_queue l = hello :: to_bus f 2 fs;
  fed_filter : de_filter (lo_delegate l) = f;
  fed_serial : de_next_bus_serial (lo_delegate l) = serial_after f 2 fs;
}.

Lemma feed_frame_fed f fs l g rest :
  fed f fs l -> take_conduit_frame (lo_conduit_in l) = Ok (Some (g, rest)) ->
  fed f (fs ++ [g]) (feed_frame marshal g (with_conduit_in rest l)).
Proof.
  intros [[Hr Hc] Hs Hq Hf Hn] Ht.
  assert (forall b, bytes_ok b -> stream_frames (lo_received l ++ b) = (fs ++ [g]) ++ stream_frames (rest ++ b)) as Hs'.
  { intros b Hb. rewrite Hs, <- app_assoc by done. f_equal.
    rewrite (stream_frames_cons _ g (rest ++ b)); [done|by apply Forall_app|by apply take_frame_app]. }
  pose proof (proj1 (take_frame_rest _ _ _ Hc Ht)) as Hrest.
  split; rewrite ?to_bus_snoc, ?serial_after_snoc.
  all: destruct g as [c| | |]; cbn; rewrite ?app_nil_r; try done.
  all: unfold on_conduit_call; rewrite Hf, Hn.
  all: destruct (decide f c); [destruct (reconstruct_call marshal c _)|]; cbn; rewrite ?app_nil_r; try done.
  by rewrite app_assoc, Hq.
Qed.

Lemma drain_fed fuel f fs l :
  fed f fs l -> (length (lo_conduit_in l) < fuel)%nat ->
  let l' := (drain_frames marshal fuel l).1 in
  exists gs, fed f (fs ++ gs) l' /\ stream_frames (lo_conduit_in l') = [] /\
    lo_received l' = lo_received l.
Proof.
  revert fs l. induction fuel as [|fuel IH]; intros fs l Hl Hfuel; [lia|]. cbn.
  destruct (take_conduit_frame (lo_conduit_in l)) as [[[g rest]|]|] eqn:Et.
  - pose proof (feed_frame_fed _ _ _ _ _ Hl Et) as Hl'.
    apply take_frame_rest in Et as [_ Hlen]; [|apply Hl].
    assert (lo_conduit_in (feed_frame marshal g (with_conduit_in rest l)) = rest /\
            lo_received (feed_frame marshal g (with_conduit_in rest l)) = lo_received l) as [Hi Hr].
    { destruct g; try done. cbn. destruct (on_conduit_call _ _ _) as [[[]|] ?]; done. }
    destruct (IH _ _ Hl') as (gs & H1 & H2 & H3); [rewrite Hi; lia|].
    exists (g :: gs). rewrite <- app_assoc in H1. split_and!; [done..|congruence].
  - exists []. rewrite app_nil_r. split_and!; [done| |done]. unfold stream_frames. cbn. by rewrite Et.
  - exists []. rewrite app_nil_r. split_and!; [done| |done]. unfold stream_frames. cbn. by rewrite Et.
Qed.

(** Between reads nothing complete is left in the buffer. *)
Definition settled (f : Filter) (l : Loop) : Prop :=
  exists fs, fed f fs l /\ stream_frames (lo_conduit_in l) = [].

Lemma settled_frames f l :
  settled f l -> lo_sent l ++ lo_queue l = hello :: to_bus f 2 (stream_frames (lo_received l)).
Proof.
  intros (fs & [_ Hs Hq _ _] & He). specialize (Hs [] ltac:(constructor)). rewrite !app_nil_r, He, app_nil_r in Hs.
  by rewrite Hs.
Qed.

Lemma read_conduit_settled f chunk l :
  settled f l -> bytes_ok chunk -> settled f (read_conduit marshal chunk l).1.
Proof.
  intros (fs & Hl & He) Hc. destruct (drain_fed (S (length (lo_conduit_in (receive chunk l)))) f fs (receive chunk l)) as (gs & H1 & H2 & _).
  - destruct Hl as [[Hr Hi] Hs Hq Hf Hn]. split; cbn; try done.
    + split; by apply Forall_app.
    + intros b Hb. rewrite <- !app_assoc. apply Hs. by apply Forall_app.
  - lia.
  - by exists (fs ++ gs).
Qed.

Lemma settled_frame_eq f l l' :
  settled f l ->
  lo_received l' = lo_received l -> lo_conduit_in l' = lo_conduit_in l ->
  lo_sent l' ++ lo_queue l' = lo_sent l ++ lo_queue l ->
  de_filter (lo_delegate l') = de_filter (lo_delegate l) ->
  de_next_bus_serial (lo_delegate l') = de_next_bus_serial (lo_delegate l) -> settled f l'.
Proof.
  intros (fs & [Hb Hs Hq Hf Hn] & He) E1 E2 E3 E4 E5. exists fs. split; [|by rewrite E2].
  split; rewrite ?E1, ?E2, ?E3, ?E4, ?E5; done.
Qed.

Lemma dispatch_keeps d bus m raw :
  let d' := (dispatch_bus_message (E := E) d bus m raw).2 in
  de_filter d' = de_filter d /\ de_next_bus_serial d' = de_next_bus_serial d.
Proof.
  unfold dispatch_bus_message, on_bus_reply. repeat case_match; done.
Qed.

Lemma read_bus_settled f m raw l : settled f l -> settled f (read_bus (E := E) m raw l).
Proof.
  intros Hl. pose proof (dispatch_keeps (lo_delegate l) (lo_bus l) m raw) as [H1 H2].
  unfold read_bus. destruct (dispatch_bus_message _ _ _ _) as [fr d]. cbn in *.
  eapply settled_frame_eq; [done|..]; by destruct fr.
Qed.

Lemma pump_settled f n k l :
  settled f l -> settled f (pump_conduit_writes k (pump_bus_writes n l)).
Proof.
  intros Hl. eapply settled_frame_eq; [done|..]; try done. cbn.
  by rewrite <- app_assoc, take_drop.
Qed.

Lemma round_settled f i l : settled f l -> input_ok i -> settled f (round marshal i l).1.
Proof.
  intros Hl Hi. apply (pump_settled f (ri_bus_written i) (ri_conduit_written i)) in Hl.
  unfold round. destruct (ri_pump_closed i); [done|].
  set (l0 := pump_conduit_writes _ _) in *.
  set (lr := match ri_conduit i with CNone => _ | CClosed => _ | CData _ => _ end).
  assert (settled f lr.1) as Hlr.
  { unfold lr, input_ok in *. destruct (ri_conduit i); [done..|by apply read_conduit_settled]. }
  destruct lr as [l1 [|]]; cbn in *; [|done].
  repeat case_match; simplify_eq/=; try done; by apply read_bus_settled.
Qed.

Lemma run_settled f ins l : settled f l -> Forall input_ok ins -> settled f (run_rounds marshal ins l).
Proof.
  intros Hl Hi. revert l Hl. induction Hi as [|i ins Hi _ IH]; intros l Hl; [done|]. cbn.
  pose proof (round_settled f i l Hl Hi) as H. destruct (round marshal i l) as [l' [|]]; [by apply IH|done].
Qed.

Lemma init_settled bus f : settled f (mediate_init bus f hello).
Proof. exists []. split; [|done]. split; cbn; try done. split; by constructor. Qed.

(** ** What reaches the bus *)

Lemma to_bus_elem f serial fs m :
  m ∈ to_bus f serial fs ->
  exists c s, FCall c ∈ fs /\ permitted f c /\ reconstruct_call marshal c s = Ok m.
Proof.
  revert serial. induction fs as [|[c| | |] fs IH]; intros serial Hm; cbn in Hm; [by apply elem_of_nil in Hm|..].
  2-4: destruct (IH _ Hm) as (c' & s' & ? & ?); exists c', s'; split; [by right|done].
  destruct (decide f c) eqn:Ed.
  - apply elem_of_app in Hm as [Hm|Hm].
    + destruct (reconstruct_call marshal c serial) as [m'|] eqn:Er; [|by apply elem_of_nil in Hm].
      apply list_elem_of_singleton in Hm as ->. exists c, serial.
      split; [by left|]. split; [by apply decide_permitted|done].
    + destruct (IH _ Hm) as (c' & s & ? & ?). exists c', s. split; [by right|done].
  - destruct (IH _ Hm) as (c' & s & ? & ?). exists c', s. split; [by right|done].
Qed.

(** ** What comes back *)

(** The calls sent, each with its bus serial. *)
Fixpoint assigned (f : Filter) (serial : Z) (fs : list Frame) : list (Z * Call) :=
  match fs with
  | [] => []
  | FCall c :: fs =>
      match decide f c with
      | Deny _ => assigned f serial fs
      | Allow => (if is_ok (reconstruct_call marshal c serial) then [(serial, c)] else []) ++
                 assigned f (next_bus_serial serial) fs
      end
  | _ :: fs => assigned f serial fs
  end.

Lemma assigned_snoc f serial fs g :
  assigned f serial (fs ++ [g]) = assigned f serial fs ++ assigned f (serial_after f serial fs) [g].
Proof.
  revert serial. induction fs as [|[c| | |] fs IH]; intros serial; cbn [app assigned serial_after]; try done; [].
  destruct (decide f c); [|done]. by rewrite IH, <- app_assoc.
Qed.

(** A reply, or an error reply, to the kennel's call [k]. *)
Definition answers (k : Z) (fr : Frame) : Prop :=
  match fr with
  | FReply r => re_reply_serial r = k
  | FError e => er_reply_serial e = k
  | _ => False
  end.

(** The frames a session may hand its kennel, after the frames [fs] of the kennel. *)
Inductive returnable (f : Filter) (bus : Bus) (fs : list Frame) : Frame -> Prop :=
  | ret_denial c reason :
      FCall c ∈ fs -> decide f c = Deny reason -> returnable f bus fs (denial c reason)
  | ret_reply s c fr :
      (s, c) ∈ assigned f 2 fs -> answers (ca_serial c) fr -> returnable f bus fs fr
  | ret_signal rules p sg :
      rules_for f bus = Some rules -> si_bus sg = bus -> p ∈ br_broadcast rules ++ br_talk rules ->
      admits p (si_interface sg) -> returnable f bus fs (FSignal sg).

Lemma returnable_app f bus fs gs fr : returnable f bus fs fr -> returnable f bus (fs ++ gs) fr.
Proof.
  intros [c reason Hc Hd|s c fr' Hs Ha|rules p sg]; [apply ret_denial; [set_solver|done]| |by eapply ret_signal].
  eapply ret_reply; [|done]. clear Ha. induction gs as [|g gs IH] using rev_ind; [by rewrite app_nil_r|].
  rewrite app_assoc, assigned_snoc. apply elem_of_app. by left.
Qed.

Record handed (f : Filter) (fs : list Frame) (l : Loop) : Prop := {
  ha_fed : fed f fs l;
  ha_out : exists outs, lo_returned l ++ lo_conduit_out l = flat_map frame_encode outs /\
    Forall (returnable f (lo_bus l) fs) outs;
  ha_pending : forall s k, de_pending (lo_delegate l) !! s = Some k ->
    exists c, (s, c) ∈ assigned f 2 fs /\ ca_serial c = k;
}.

Lemma flat_map_snoc {A B} (g : A -> list B) l x : flat_map g (l ++ [x]) = flat_map g l ++ g x.
Proof. by rewrite flat_map_app; cbn; rewrite app_nil_r. Qed.

Lemma handed_push f fs l fr :
  handed f fs l -> returnable f (lo_bus l) fs fr -> handed f fs (push_out (frame_encode fr) l).
Proof.
  intros [[? ? ? ? ?] (outs & Ho & Ha) Hp] Hr. split; [by split| |done]. exists (outs ++ [fr]).
  cbn. rewrite flat_map_snoc, app_assoc, Ho. split; [done|]. by apply Forall_app_2; [|repeat constructor].
Qed.

Lemma feed_frame_handed f fs l g rest :
  handed f fs l -> take_conduit_frame (lo_conduit_in l) = Ok (Some (g, rest)) ->
  handed f (fs ++ [g]) (feed_frame marshal g (with_conduit_in rest l)).
Proof.
  intros [Hf (outs & Ho & Ha) Hp] Ht. pose proof (feed_frame_fed _ _ _ _ _ Hf Ht) as Hf'.
  assert (forall s k, de_pending (lo_delegate l) !! s = Some k ->
    exists c, (s, c) ∈ assigned f 2 (fs ++ [g]) /\ ca_serial c = k) as Hp'.
  { intros s k (c & ? & ?)%Hp. exists c. rewrite assigned_snoc, elem_of_app. auto. }
  assert (Forall (returnable f (lo_bus l) (fs ++ [g])) outs) as Ha'.
  { eapply Forall_impl; [done|]. intros fr. apply returnable_app. }
  split; [done|..]; clear Hf'; destruct g as [c| | |]; cbn in *; try (by exists outs); try done;
    unfold on_conduit_call; rewrite (fed_filter _ _ _ Hf), (fed_serial _ _ _ Hf).
  - destruct (decide f c) as [|reason] eqn:Ed.
    + destruct (reconstruct_call marshal c _); by exists outs.
    + exists (outs ++ [denial c reason]). cbn. rewrite flat_map_snoc, app_assoc, Ho. split; [done|].
      apply Forall_app_2; [done|]. constructor; [|done]. apply ret_denial; [set_solver|done].
  - destruct (decide f c) as [|reason] eqn:Ed; [|done].
    destruct (reconstruct_call marshal c _) eqn:Er; cbn; [|done].
    intros s k [[<- <-]|[Hne Hk]]%lookup_insert_Some; [|by apply Hp'].
    exists c. split; [|done]. rewrite assigned_snoc. apply elem_of_app. right. cbn. rewrite Ed, Er. set_solver.
Qed.

Lemma drain_handed fuel f fs l :
  handed f fs l -> exists gs, handed f (fs ++ gs) (drain_frames marshal fuel l).1.
Proof.
  revert fs l. induction fuel as [|fuel IH]; intros fs l Hl; cbn.
  { exists []. by rewrite app_nil_r. }
  destruct (take_conduit_frame (lo_conduit_in l)) as [[[g rest]|]|] eqn:Et.
  2-3: exists []; by rewrite app_nil_r.
  destruct (IH _ _ (feed_frame_handed _ _ _ _ _ Hl Et)) as (gs & H).
  exists (g :: gs). by rewrite <- app_assoc in H.
Qed.

Lemma dispatch_returnable f fs l m raw fr :
  handed f fs l -> (dispatch_bus_message (E := E) (lo_delegate l) (lo_bus l) m raw).1 = Some fr ->
  returnable f (lo_bus l) fs fr.
Proof.
  intros [Hf _ Hp]. unfold dispatch_bus_message.
  destruct (body_slice raw) as [[en body]|]; [|done].
  destruct (_ || _).
  - destruct (im_reply_serial m) as [s|]; [|done]. unfold on_bus_reply. cbn.
    destruct (de_pending (lo_delegate l) !! s) as [k|] eqn:Ek; [|done]. cbn. intros [= <-].
    destruct (Hp _ _ Ek) as (c & Hc & <-). eapply ret_reply; [done|]. by repeat case_match.
  - case_match; [|done]. cbn. unfold on_bus_signal. cbn. rewrite (fed_filter _ _ _ Hf).
    destruct (rules_for f (lo_bus l)) as [rules|] eqn:Er; [|done]. cbn.
    destruct (signal_allowed rules _) eqn:Es; [|done]. cbn. intros [= <-].
    apply (existsb_Exists _ _ _ (fun p => pattern_admits_spec p _)) in Es as (p & Hp1 & Hp2).
    by eapply ret_signal.
Qed.

Lemma read_bus_handed f fs m raw l : handed f fs l -> handed f fs (read_bus (E := E) m raw l).
Proof.
  intros Hl. pose proof (dispatch_returnable f fs l m raw) as Hr.
  pose proof (dispatch_keeps (lo_delegate l) (lo_bus l) m raw) as [H1 H2].
  assert (forall s k, de_pending (dispatch_bus_message (E := E) (lo_delegate l) (lo_bus l) m raw).2 !! s = Some k ->
    de_pending (lo_delegate l) !! s = Some k) as Hd.
  { intros s k. unfold dispatch_bus_message, on_bus_reply. repeat case_match; cbn; try done;
      by intros [_ ?]%lookup_delete_Some. }
  unfold read_bus. destruct (dispatch_bus_message _ _ _ _) as [fr d]. cbn in *.
  assert (handed f fs (with_delegate d l)) as Hw.
  { destruct Hl as [[? ? ? ? ?] ? Hp]. split; [split|..]; cbn; try done; [congruence..|].
    intros s k ?%Hd. by apply Hp. }
  destruct fr as [fr|]; [|done]. apply handed_push; [done|]. by apply Hr.
Qed.

Lemma round_handed f fs i l :
  handed f fs l -> input_ok i -> exists gs, handed f (fs ++ gs) (round marshal i l).1.
Proof.
  intros Hl Hi.
  assert (handed f fs (pump_conduit_writes (ri_conduit_written i) (pump_bus_writes (ri_bus_written i) l))) as Hl0.
  { destruct Hl as [[? ? ? ? ?] Ho ?]. split; [split|..]; cbn; try done.
    - by rewrite <- app_assoc, take_drop.
    - by rewrite <- app_assoc, take_drop. }
  unfold round. set (l0 := pump_conduit_writes _ _) in *.
  destruct (ri_pump_closed i); [exists []; by rewrite app_nil_r|].
  set (lr := match ri_conduit i with CNone => _ | CClosed => _ | CData _ => _ end).
  assert (exists gs, handed f (fs ++ gs) lr.1) as [gs Hlr].
  { unfold lr, input_ok in *. destruct (ri_conduit i) as [| |chunk]; [exists []; by rewrite app_nil_r..|].
    apply drain_handed. destruct Hl0 as [[[Hr Hin] Hs ? ? ?] ? ?]. split; [split|..]; cbn; try done.
    - split; by apply Forall_app.
    - intros b Hb. rewrite <- !app_assoc. apply Hs. by apply Forall_app. }
  exists gs. destruct lr as [l1 [|]]; cbn in *; [|done].
  repeat case_match; simplify_eq/=; try done; by apply read_bus_handed.
Qed.

Lemma run_handed f fs ins l :
  handed f fs l -> Forall input_ok ins -> exists gs, handed f (fs ++ gs) (run_rounds marshal ins l).
Proof.
  intros Hl Hi. revert fs l Hl. induction Hi as [|i ins Hi _ IH]; intros fs l Hl; cbn.
  { exists []. by rewrite app_nil_r. }
  destruct (round_handed f fs i l Hl Hi) as [gs H]. destruct (round marshal i l) as [l' [|]]; cbn in *; [|by exists gs].
  destruct (IH _ _ H) as [hs ?]. exists (gs ++ hs). by rewrite app_assoc.
Qed.

Lemma init_handed bus f : handed f [] (mediate_init bus f hello).
Proof. split; [| |done]; [split; cbn; try done; split; by constructor|]. by exists []. Qed.

End session.

(** ** The serial map *)

(** Calls and bus replies in any order, with the calls sent so far and the serials answered. *)
Inductive delegate_op : Type := OpCall (c : Call) | OpReply (r : BusReply).
Record delegate_log : Type := {
  dl_delegate : Delegate; dl_sent : list (Z * Call); dl_answered : list Z;
}.
Section serials.
Context {E : Type} (marshal : Z -> MessageType -> list enc_call -> Z -> result E bytes).

Definition delegate_do (g : delegate_log) (o : delegate_op) : delegate_log :=
  match o with
  | OpCall c =>
      let '(out, d) := on_conduit_call marshal (dl_delegate g) c in
      {| dl_delegate := d;
         dl_sent := match out with
                    | Ok (ToBus _) => dl_sent g ++ [(de_next_bus_serial (dl_delegate g), c)]
                    | _ => dl_sent g
                    end;
         dl_answered := dl_answered g |}
  | OpReply r =>
      let '(fr, d) := on_bus_reply (dl_delegate g) r in
      {| dl_delegate := d; dl_sent := dl_sent g;
         dl_answered := match fr with
                        | Some _ => bp_reply_serial r :: dl_answered g | None => dl_answered g end |}
  end.
Definition delegate_run (f : Filter) (ops : list delegate_op) : delegate_log :=
  fold_left delegate_do ops {| dl_delegate := delegate_new f; dl_sent := []; dl_answered := [] |}.

(** Before the serials wrap: they are fresh, and the map holds the unanswered calls. *)
Record serials_ok (n : nat) (g : delegate_log) : Prop := {
  so_next : 2 <= de_next_bus_serial (dl_delegate g) <= 2 + Z.of_nat n;
  so_below : forall s c, (s, c) ∈ dl_sent g -> 2 <= s < de_next_bus_serial (dl_delegate g);
  so_nodup : NoDup ((dl_sent g).*1);
  so_answered : forall s, s ∈ dl_answered g -> s < de_next_bus_serial (dl_delegate g);
  so_pending : forall s k, de_pending (dl_delegate g) !! s = Some k <->
    exists c, (s, c) ∈ dl_sent g /\ ca_serial c = k /\ (s ∉ dl_answered g);
}.

Lemma serials_call n g c :
  serials_ok n g -> Z.of_nat n <= u32_max - 3 -> serials_ok (S n) (delegate_do g (OpCall c)).
Proof.
  intros [Hn Hb Hd Ha Hp] Hu. cbn. unfold on_conduit_call.
  destruct (decide (de_filter (dl_delegate g)) c); cycle 1.
  { split; cbn; [lia|done..]. }
  set (s0 := de_next_bus_serial (dl_delegate g)) in *.
  assert (next_bus_serial s0 = s0 + 1) as Hs by (unfold next_bus_serial; rewrite (proj2 (Z.eqb_neq _ _)); lia).
  destruct (reconstruct_call marshal c s0) as [m|e]; cbn; cycle 1.
  { split; cbn; rewrite ?Hs; [lia| |done| |done].
    - intros s c' H%Hb. lia.
    - intros s H%Ha. lia. }
  split; cbn; rewrite ?Hs; [lia|..].
  - intros s c' [H%Hb|[= -> ->]%list_elem_of_singleton]%elem_of_app; lia.
  - rewrite fmap_app. apply NoDup_app. split_and!; [done| |by apply NoDup_singleton].
    intros s ([s' c'] & -> & Hin)%list_elem_of_fmap. cbn. rewrite list_elem_of_singleton.
    apply Hb in Hin. lia.
  - intros s H%Ha. lia.
  - intros s k. rewrite lookup_insert_Some, Hp. split.
    + intros [[<- <-]|[Hne (c' & Hc & Hk & Hna)]].
      * exists c. split_and!; [set_solver|done|]. intros H%Ha. lia.
      * exists c'. split_and!; [set_solver|done..].
    + intros (c' & [Hc|[= -> ->]%list_elem_of_singleton]%elem_of_app & Hk & Hna); [right|by left].
      split; [apply Hb in Hc; lia|]. by exists c'.
Qed.

Lemma serials_reply n g r : serials_ok n g -> serials_ok (S n) (delegate_do g (OpReply r)).
Proof.
  intros [Hn Hb Hd Ha Hp]. cbn. unfold on_bus_reply.
  destruct (de_pending (dl_delegate g) !! bp_reply_serial r) as [k|] eqn:Ek; cycle 1.
  { split; cbn; [lia|done..]. }
  apply Hp in Ek as (c & Hc & Hk & Hna).
  split; cbn; [lia|done|done|..].
  - intros s [->|H%Ha]%elem_of_cons; [apply Hb in Hc; lia|done].
  - intros s k'. rewrite lookup_delete_Some, Hp. split.
    + intros [Hne (c' & H1 & H2 & H3)]. exists c'. split_and!; [done..|]. set_solver.
    + intros (c' & H1 & H2 & H3). split; [set_solver|]. exists c'. split_and!; [done..|set_solver].
Qed.

Lemma serials_run f ops :
  blen ops <= u32_max - 2 -> serials_ok (length ops) (delegate_run f ops).
Proof.
  intros Hl. unfold delegate_run. induction ops as [|o ops IH] using rev_ind.
  - split; cbn; [lia|set_solver|constructor|set_solver|].
    intros s k. rewrite lookup_empty. split; [done|]. intros (c & H & _). set_solver.
  - rewrite length_app in *. cbn in Hl. rewrite fold_left_app. cbn [fold_left length].
    rewrite Nat.add_1_r. assert (blen ops <= u32_max - 3) as Hl' by lia.
    specialize (IH ltac:(lia)). destruct o; [by apply serials_call|by apply serials_reply].
Qed.

End serials.

(** * Claims *)

(** A D-Bus call passes the filter exactly when its destination is neither a name the
    broker refuses nor a dotted child of one, its bus has rules, no deny pattern
    admits the destination, and either a talk pattern admits it or a call entry
    [destination=interface.member] does, cut at its first equals sign. A pattern
    admits every name when it is a star, itself, and with a trailing dot-star the
    name before it and its dotted children. *)
Theorem dbus_decide_exact f c : decide f c = Allow <-> permitted f c.
Proof. apply decide_permitted. Qed.

Lemma session_messages {E} (marshal : Z -> MessageType -> list enc_call -> Z -> result E bytes) hello bus f ins :
  Forall input_ok ins ->
  let l := run_rounds marshal ins (mediate_init bus f hello) in
  lo_sent l ++ lo_queue l = hello :: to_bus marshal f 2 (stream_frames (lo_received l)).
Proof. intros Hi. by apply settled_frames, run_settled; [apply init_settled|]. Qed.

Lemma session_message {E} (marshal : Z -> MessageType -> list enc_call -> Z -> result E bytes) hello bus f ins :
  Forall input_ok ins ->
  let l := run_rounds marshal ins (mediate_init bus f hello) in
  forall m, m ∈ lo_sent l ->
    m = hello \/ exists c s, FCall c ∈ stream_frames (lo_received l) /\ permitted f c /\
      reconstruct_call marshal c s = Ok m.
Proof.
  intros Hi l m Hm. pose proof (session_messages marshal hello bus f ins Hi) as Hs. cbv zeta in Hs. fold l in Hs.
  assert (m ∈ hello :: to_bus marshal f 2 (stream_frames (lo_received l))) as [->|H]%elem_of_cons.
  - rewrite <- Hs. apply elem_of_app. by left.
  - by left.
  - right. by eapply to_bus_elem.
Qed.

(** Whatever a consumer writes, whatever the bus sends and however the reads are cut, one
    session's messages for the bus are exactly the session's own [Hello] followed by
    the rebuilt calls the filter allows among the frames of the consumer's byte
    stream, in order, up to the first broken frame. So every message on the bus is
    the reconstruction, from typed fields, of a permitted call the consumer sent. *)
Theorem session_bus_exact {E} (marshal : Z -> MessageType -> list enc_call -> Z -> result E bytes)
    hello bus f ins :
  Forall input_ok ins ->
  let l := run_rounds marshal ins (mediate_init bus f hello) in
  let fs := stream_frames (lo_received l) in
  lo_sent l ++ lo_queue l = hello :: to_bus marshal f 2 fs /\
  forall m, m ∈ lo_sent l ->
    m = hello \/ exists c s, FCall c ∈ fs /\ permitted f c /\ reconstruct_call marshal c s = Ok m.
Proof.
  intros Hi l fs. split; [by apply session_messages|by apply session_message].
Qed.

Lemma round_bus {E} (marshal : Z -> MessageType -> list enc_call -> Z -> result E bytes) i l :
  lo_bus (round marshal i l).1 = lo_bus l.
Proof.
  assert (forall fuel l, lo_bus (drain_frames marshal fuel l).1 = lo_bus l) as Hd.
  { intros fuel. induction fuel as [|fuel IH]; intros l0; [done|]. cbn.
    destruct (take_conduit_frame _) as [[[g rest]|]|]; [|done..]. rewrite IH.
    destruct g; try done. cbn. by destruct (on_conduit_call _ _ _) as [[[]|] ?]. }
  assert (forall chunk l, lo_bus (read_conduit marshal chunk l).1 = lo_bus l) as Hr.
  { intros chunk l0. unfold read_conduit. by rewrite Hd. }
  unfold round, read_bus. destruct (ri_pump_closed i); [done|].
  set (l0 := pump_conduit_writes _ _).
  set (lr := match ri_conduit i with CNone => _ | CClosed => _ | CData _ => _ end).
  assert (lo_bus lr.1 = lo_bus l) as Hlr by (unfold lr; destruct (ri_conduit i); [done..|by rewrite Hr]).
  destruct lr as [l1 [|]]; cbn in *; [|done]. repeat case_match; simplify_eq/=; done.
Qed.

Lemma run_bus {E} (marshal : Z -> MessageType -> list enc_call -> Z -> result E bytes) ins l :
  lo_bus (run_rounds marshal ins l) = lo_bus l.
Proof.
  revert l. induction ins as [|i ins IH]; intros l; [done|]. cbn.
  pose proof (round_bus marshal i l) as H. destruct (round marshal i l) as [l' [|]]; cbn in *; [by rewrite IH|done].
Qed.

(** Everything a session hands back to its kennel is a whole frame of one of three kinds: the
    refusal of a call the kennel sent and the filter denies; the reply or error to a call
    the kennel sent and the session put on the bus, under the kennel's own serial;
    or a signal of the session's bus whose interface a broadcast or talk pattern of the
    rules admits. Nothing else that arrives on the bus is delivered. *)
Theorem session_returns_only {E} (marshal : Z -> MessageType -> list enc_call -> Z -> result E bytes)
    hello bus f ins :
  Forall input_ok ins ->
  let l := run_rounds marshal ins (mediate_init bus f hello) in
  exists outs, lo_returned l ++ lo_conduit_out l = flat_map frame_encode outs /\
    Forall (returnable marshal f bus (stream_frames (lo_received l))) outs.
Proof.
  intros Hi l. destruct (run_handed marshal hello f [] ins _ (init_handed marshal hello bus f) Hi) as [fs Hh].
  destruct (run_settled marshal hello f ins _ (init_settled marshal hello bus f) Hi) as (fs' & _ & He).
  pose proof (fed_stream _ _ _ _ _ (ha_fed _ _ _ _ _ Hh) [] ltac:(constructor)) as Hs.
  rewrite !app_nil_r, He, app_nil_r in Hs. rewrite app_nil_l in Hs. unfold l. rewrite Hs.
  pose proof (ha_out _ _ _ _ _ Hh) as Ho. rewrite run_bus in Ho. exact Ho.
Qed.

(** Replies are matched to their calls: over any interleaving of fewer than 2^32 - 2 calls and
    bus replies, no bus serial is used twice, a bus reply is delivered exactly when its
    serial was given to a call not answered yet, and then as a reply to that
    call's own serial. *)
Theorem replies_matched {E} (marshal : Z -> MessageType -> list enc_call -> Z -> result E bytes) f ops r :
  blen ops <= u32_max - 2 ->
  let g := delegate_run marshal f ops in
  NoDup ((dl_sent g).*1) /\
  (forall c, (bp_reply_serial r, c) ∈ dl_sent g -> (bp_reply_serial r ∉ dl_answered g) ->
     exists fr, (on_bus_reply (dl_delegate g) r).1 = Some fr /\ answers (ca_serial c) fr) /\
  (forall fr, (on_bus_reply (dl_delegate g) r).1 = Some fr ->
     exists c, (bp_reply_serial r, c) ∈ dl_sent g /\ (bp_reply_serial r ∉ dl_answered g) /\
       answers (ca_serial c) fr).
Proof.
  intros Hl g. destruct (serials_run marshal f ops Hl) as [_ _ Hd _ Hp]. fold g in Hd, Hp.
  split; [done|]. unfold on_bus_reply. split.
  - intros c Hc Hna. rewrite (proj2 (Hp _ (ca_serial c))) by (by exists c).
    eexists. split; [done|]. by destruct (bp_error_name r).
  - intros fr. destruct (de_pending (dl_delegate g) !! bp_reply_serial r) as [k|] eqn:Ek; [|done].
    apply Hp in Ek as (c & Hc & <- & Hna). intros [= <-]. exists c. split_and!; [done..|].
    by destruct (bp_error_name r).
Qed.

(** Signals bypass the denies: for any rules with a talk or broadcast pattern that admits
    an interface, a bus signal of that interface is delivered although a deny
    pattern of the same rules, or the refuse-to-broker set, covers the same name,
    so that every call to it is refused. *)
Theorem signal_passes_deny d c sg rules p :
  rules_for (de_filter d) (bs_bus sg) = Some rules -> p ∈ br_broadcast rules ++ br_talk rules ->
  admits p (bs_interface sg) -> ca_bus c = bs_bus sg -> ca_destination c = bs_interface sg ->
  (exists q, q ∈ br_deny_talk rules /\ admits q (bs_interface sg)) \/ refused (bs_interface sg) ->
  (exists reason, decide (de_filter d) c = Deny reason) /\
  exists fr, on_bus_signal d sg = Some fr.
Proof.
  intros Hr Hp Ha Hb Hd Hden. split.
  - destruct (decide (de_filter d) c) as [|reason] eqn:E; [|by exists reason].
    apply decide_permitted in E as (Hn & rules' & Hr' & Hno & _). rewrite Hb, Hr in Hr'. injection Hr' as <-.
    rewrite Hd in *. destruct Hden as [(q & Hq & Hqa)|?]; [by destruct (Hno q Hq)|done].
  - unfold on_bus_signal. rewrite Hr. cbn. unfold signal_allowed.
    rewrite (proj2 (existsb_Exists _ _ _ (fun p => pattern_admits_spec p _))) by (by exists p). by eexists.
Qed.

Lemma read_one_frame {E} (marshal : Z -> MessageType -> list enc_call -> Z -> result E bytes) f l :
  frame_ok f -> lo_conduit_in l = [] ->
  read_conduit marshal (frame_encode f) l =
    (feed_frame marshal f (with_conduit_in [] (receive (frame_encode f) l)), true).
Proof.
  intros Hf Hl. unfold read_conduit. cbn [lo_conduit_in receive]. rewrite Hl, app_nil_l. cbn [drain_frames lo_conduit_in receive].
  rewrite Hl, app_nil_l. pose proof (take_frame_encode f [] Hf) as Ht. rewrite app_nil_r in Ht. rewrite Ht.
  destruct (length (frame_encode f)) as [|n] eqn:En.
  { exfalso. unfold frame_encode in En. rewrite length_app in En. unfold put_len in En. rewrite length_be_bytes in En. lia. }
  assert (lo_conduit_in (feed_frame marshal f (with_conduit_in [] (receive (frame_encode f) l))) = []) as Hi.
  { destruct f; try done. cbn. by destruct (on_conduit_call _ _ _) as [[[]|] ?]. }
  cbn [drain_frames]. rewrite Hi. reflexivity.
Qed.

(** One frame read, nothing drained. *)
Definition frame_round (f : Frame) : round_input := {|
  ri_pump_closed := false; ri_bus_written := 0; ri_conduit_written := 0;
  ri_conduit := CData (frame_encode f); ri_bus := BNone; ri_hangup := false |}.

(** The high-water mark does not bound a session's memory: the mark only stops reads from the
    bus, and a kennel that sends denied calls and never takes a reply makes the
    outgoing buffer grow by one refusal per call, for ever. *)
Theorem denials_unbounded {E} (marshal : Z -> MessageType -> list enc_call -> Z -> result E bytes)
    hello bus f c reason n :
  frame_ok (FCall c) -> decide f c = Deny reason ->
  lo_conduit_out (run_rounds marshal (replicate n (frame_round (FCall c))) (mediate_init bus f hello)) =
    mjoin (replicate n (frame_encode (denial c reason))).
Proof.
  intros Hok Hd.
  assert (forall n l, lo_conduit_in l = [] -> de_filter (lo_delegate l) = f ->
    lo_conduit_out (run_rounds marshal (replicate n (frame_round (FCall c))) l) =
      lo_conduit_out l ++ mjoin (replicate n (frame_encode (denial c reason)))) as H.
  { intros k. induction k as [|k IH]; intros l Hl Hf; cbn [replicate run_rounds mjoin list_join].
    - by rewrite app_nil_r.
    - assert (exists l', round marshal (frame_round (FCall c)) l = (l', true) /\ lo_conduit_in l' = [] /\
        de_filter (lo_delegate l') = f /\ lo_conduit_out l' = lo_conduit_out l ++ frame_encode (denial c reason))
        as (l' & -> & H1 & H2 & H3).
      { unfold round, frame_round. cbn [ri_pump_closed ri_bus_written ri_conduit_written ri_conduit ri_bus ri_hangup].
        rewrite read_one_frame by done. cbn. unfold on_conduit_call. cbn. rewrite Hf, Hd. cbn.
        destruct (_ <? _); eexists; by split_and!. }
      by rewrite (IH _ H1 H2), H3, app_assoc. }
  by rewrite H.
Qed.

(** The compiler refuses an allow table exactly when the destination of some talk, call,
    broadcast or own entry (the trimmed part before the first equals sign) admits one
    of the five refused names themselves; an entry for a child of a refused name passes
    the check, and every call to that child is refused at run time. *)
Theorem dbus_check_exact rules :
  (check_dbus rules = [] <->
   forall entry r, entry ∈ br_talk rules ++ br_call rules ++ br_broadcast rules ++ br_own rules ->
     r ∈ REFUSE_TO_BROKER -> ~ admits (dbus_destination entry) r) /\
  (let child := ascii_bytes "org.freedesktop.secrets.Vault" in
   forall call broadcast own deny f c, ca_destination c = child ->
     check_dbus {| br_talk := [child]; br_call := []; br_broadcast := []; br_own := []; br_deny_talk := deny |} = [] /\
     decide {| fi_session := Some {| br_talk := [child]; br_call := call; br_broadcast := broadcast;
                                     br_own := own; br_deny_talk := deny |}; fi_system := f |} c <> Allow).
Proof.
  split.
  - unfold check_dbus. split.
    + intros H entry r He Hr Ha. apply (not_elem_of_nil (A := bytes * bytes) (entry, r)). rewrite <- H.
      destruct (List.find (pattern_admits (dbus_destination entry)) REFUSE_TO_BROKER) as [r'|] eqn:Ef.
      * exfalso. assert ((entry, r') ∈ @nil (bytes * bytes)) as Hin; [|by apply elem_of_nil in Hin].
        rewrite <- H. apply list_elem_of_omap. exists entry. by rewrite Ef.
      * exfalso. apply list_elem_of_In in Hr. pose proof (List.find_none _ _ Ef r Hr) as Hn.
        apply pattern_admits_spec in Ha. congruence.
    + intros H. apply elem_of_nil_inv. intros [e r] (entry & He & Hf)%list_elem_of_omap.
      destruct (List.find _ _) as [r'|] eqn:Ef; [|done]. apply List.find_some in Ef as [Hr Ha].
      apply (H entry r'); [done|by apply list_elem_of_In|by apply pattern_admits_spec].
  - intros child call broadcast own deny f c Hc. split; [reflexivity|].
    intros (Hn & _)%decide_permitted. apply Hn. rewrite Hc. exists (ascii_bytes "org.freedesktop.secrets").
    split; [left|]. right. by exists (ascii_bytes "Vault").
Qed.

(** ** Witnesses *)

Definition notify_rules : BusRules := {|
  br_talk := [ascii_bytes "org.freedesktop.*"]; br_call := []; br_broadcast := []; br_own := [];
  br_deny_talk := [ascii_bytes "org.freedesktop.UDisks2"] |}.
Definition notify_filter : Filter := {| fi_session := Some notify_rules; fi_system := None |}.
(** A marshaller that writes the serial and the length of the request, enough to evaluate on. *)
Definition toy_marshal (cap : Z) (ty : MessageType) (calls : list enc_call) (serial : Z) :
    result unit bytes := Ok (be_bytes 4 serial ++ be_bytes 4 (blen calls)).
Definition disks_call : Call := {|
  ca_bus := Session; ca_serial := 8; ca_no_reply := false;
  ca_destination := ascii_bytes "org.freedesktop.UDisks2"; ca_path := ascii_bytes "/";
  ca_interface := []; ca_member := ascii_bytes "Mount"; ca_signature := []; ca_body_endian := LE;
  ca_body := [] |}.
Definition read_chunk (bs : bytes) : round_input := {|
  ri_pump_closed := false; ri_bus_written := 2; ri_conduit_written := 5; ri_conduit := CData bs;
  ri_bus := BNone; ri_hangup := false |}.
(** Two calls, the second refused, cut in the middle of the first. *)
Definition two_calls : bytes := frame_encode (FCall notify_call) ++ frame_encode (FCall disks_call).
Definition cut_rounds : list round_input :=
  [read_chunk (take 50 two_calls); read_chunk (drop 50 two_calls); read_chunk []].

Lemma cut_rounds_ok : Forall input_ok cut_rounds.
Proof.
  assert (bytes_ok two_calls) as H by (apply (bool_decide_unpack _); vm_compute; exact I).
  repeat (constructor; [cbn; first [by apply Forall_take | by apply Forall_drop | constructor]|]). constructor.
Qed.

Lemma session_bus_exact_witness :
  lo_sent (run_rounds toy_marshal cut_rounds (mediate_init Session notify_filter [1])) =
    [[1]; be_bytes 4 2 ++ be_bytes 4 12].
Proof.
  pose proof (session_bus_exact toy_marshal [1] Session notify_filter cut_rounds cut_rounds_ok) as [H _].
  cbv zeta in H. vm_compute in H |- *. reflexivity.
Defined.

Lemma session_returns_only_witness :
  lo_returned (run_rounds toy_marshal cut_rounds (mediate_init Session notify_filter [1])) ++
  lo_conduit_out (run_rounds toy_marshal cut_rounds (mediate_init Session notify_filter [1])) =
    frame_encode (denial disks_call (ascii_bytes "org.freedesktop.UDisks2 is explicitly denied")) /\
  exists outs, Forall (returnable toy_marshal notify_filter Session
    (stream_frames (lo_received (run_rounds toy_marshal cut_rounds (mediate_init Session notify_filter [1]))))) outs.
Proof.
  split; [vm_compute; reflexivity|].
  destruct (session_returns_only toy_marshal [1] Session notify_filter cut_rounds cut_rounds_ok) as (outs & _ & H).
  exists outs. exact H.
Defined.

Lemma replies_matched_witness :
  exists fr, (on_bus_reply (dl_delegate (delegate_run toy_marshal notify_filter [OpCall disks_call; OpCall notify_call]))
    {| bp_reply_serial := 2; bp_error_name := None; bp_error_message := None; bp_signature := [];
       bp_body_endian := LE; bp_body := [] |}).1 = Some fr /\ answers 7 fr.
Proof.
  apply (replies_matched toy_marshal notify_filter [OpCall disks_call; OpCall notify_call]
    {| bp_reply_serial := 2; bp_error_name := None; bp_error_message := None; bp_signature := [];
       bp_body_endian := LE; bp_body := [] |} ltac:(vm_compute; by intros)) with (c := notify_call).
  - assert (dl_sent (delegate_run toy_marshal notify_filter [OpCall disks_call; OpCall notify_call]) =
      [(2, notify_call)]) as -> by (vm_compute; reflexivity). left.
  - assert (dl_answered (delegate_run toy_marshal notify_filter [OpCall disks_call; OpCall notify_call]) =
      []) as -> by (vm_compute; reflexivity). apply not_elem_of_nil.
Defined.

Lemma signal_passes_deny_witness :
  exists fr, on_bus_signal (delegate_new notify_filter)
    {| bs_bus := Session; bs_path := []; bs_interface := ascii_bytes "org.freedesktop.UDisks2"; bs_member := [];
       bs_signature := []; bs_body_endian := LE; bs_body := [] |} = Some fr.
Proof.
  apply (signal_passes_deny (delegate_new notify_filter) disks_call
    {| bs_bus := Session; bs_path := []; bs_interface := ascii_bytes "org.freedesktop.UDisks2"; bs_member := [];
       bs_signature := []; bs_body_endian := LE; bs_body := [] |} notify_rules (ascii_bytes "org.freedesktop.*")).
  - reflexivity.
  - left.
  - right; right. exists (ascii_bytes "org.freedesktop"). split; [reflexivity|].
    right. exists (ascii_bytes "UDisks2"). reflexivity.
  - reflexivity.
  - reflexivity.
  - left. exists (ascii_bytes "org.freedesktop.UDisks2"). split; [left|]. right. left. reflexivity.
Defined.

Lemma denials_unbounded_witness :
  lo_conduit_out (run_rounds toy_marshal (replicate 3 (frame_round (FCall disks_call)))
    (mediate_init Session notify_filter [1])) =
  mjoin (replicate 3 (frame_encode (denial disks_call (ascii_bytes "org.freedesktop.UDisks2 is explicitly denied")))).
Proof.
  apply (denials_unbounded toy_marshal).
  - apply (bool_decide_unpack _). vm_compute. exact I.
  - vm_compute. reflexivity.
Defined.
