(* ===== verification/Source.v ===== *)
(** The source policy: what an author writes ([kennel-lib-compile/src/source.rs]).

    A template, a fragment and a leaf are one type, [SourcePolicy], with every
    section optional.  A list field is either a set, which replaces what is
    inherited, or an increment of additions and removals.  The file holds the
    types with their fields in the source's order (tree maps are lists of pairs
    in key order), the accessors of the list fields, the per-artefact
    validation with every message as a constructor that carries what it names,
    and the test an included fragment must pass.  Reading and writing the text
    is [basic_toml], a parameter of the files that use it. *)

From S2P Require Import Dbus.
From S2P Require Import Prelude Bytes Str Plan Settled Sshsig.

(** ** List fields *)

Record Threats : Type := { th_exposed : list bytes; th_mitigated : list bytes }.
Global Instance Threats_eq_dec : EqDecision Threats.
Proof. solve_decision. Defined.

Record PathEntry : Type := {
  ent_path : list bytes; ent_source : option bytes; ent_reason : option bytes;
  ent_threats : option Threats }.
Record PathDelta : Type := { pd_add : list PathEntry; pd_remove : list PathEntry }.
Inductive PathField : Type := PfSet (v : list bytes) | PfDelta (d : PathDelta).

Definition pf_set (f : PathField) : option (list bytes) :=
  match f with PfSet v => Some v | PfDelta _ => None end.
Definition pf_resolved (f : PathField) : list bytes := default [] (pf_set f).
Definition pf_is_set (f : PathField) : bool := match f with PfSet _ => true | PfDelta _ => false end.
Definition pf_delta_entries (f : PathField) : list PathEntry :=
  match f with PfSet _ => [] | PfDelta d => pd_add d ++ pd_remove d end.
Definition pf_has_remove (f : PathField) : bool :=
  match f with PfDelta d => negb (is_nil (pd_remove d)) | PfSet _ => false end.
Definition pf_is_additive (f : PathField) : bool :=
  match f with PfDelta d => is_nil (pd_remove d) | PfSet _ => false end.

Record Delta (T : Type) : Type := { dl_add : list T; dl_remove : list T }.
Arguments dl_add {T}. Arguments dl_remove {T}.
Inductive ListField (T : Type) : Type := LfSet (v : list T) | LfDelta (d : Delta T).
Arguments LfSet {T}. Arguments LfDelta {T}.

Definition lf_default {T} : ListField T := LfSet [].
Definition lf_resolved {T} (f : ListField T) : list T :=
  match f with LfSet v => v | LfDelta _ => [] end.
Definition lf_is_empty {T} (f : ListField T) : bool :=
  match f with LfSet v => is_nil v | LfDelta _ => false end.
Definition lf_is_set {T} (f : ListField T) : bool := match f with LfSet _ => true | LfDelta _ => false end.
Definition lf_entries {T} (f : ListField T) : list T :=
  match f with LfSet v => v | LfDelta d => dl_add d ++ dl_remove d end.
Definition lf_has_remove {T} (f : ListField T) : bool :=
  match f with LfDelta d => negb (is_nil (dl_remove d)) | LfSet _ => false end.
Definition lf_is_additive {T} (f : ListField T) : bool :=
  match f with LfSet v => is_nil v | LfDelta d => is_nil (dl_remove d) end.

Record GroupEntry : Type := { ge_group : bytes; ge_reason : option bytes }.
Record GroupDelta : Type := { gd_add : list GroupEntry; gd_remove : list GroupEntry }.
Inductive GroupField : Type := GfSet (v : list bytes) | GfDelta (d : GroupDelta).
Definition gf_default : GroupField := GfSet [].
Definition gf_resolved (f : GroupField) : list bytes := match f with GfSet v => v | GfDelta _ => [] end.
Definition gf_is_empty (f : GroupField) : bool := match f with GfSet v => is_nil v | GfDelta _ => false end.
Definition gf_delta_entries (f : GroupField) : list GroupEntry :=
  match f with GfSet _ => [] | GfDelta d => gd_add d ++ gd_remove d end.
Definition gf_is_additive (f : GroupField) : bool :=
  match f with GfSet v => is_nil v | GfDelta d => is_nil (gd_remove d) end.

(** ** Sections *)

Record CapSection : Type := { cps_no_new_privs : option bool }.
Record ExecSection : Type := {
  xs_allow : option PathField; xs_deny : option (list bytes); xs_deny_setuid : option bool;
  xs_deny_setgid : option bool; xs_deny_setcap : option bool; xs_deny_writable : option bool;
  xs_path : option (list bytes); xs_shell : option bytes }.

Record FsCwd : Type := {
  fcw_grant : option bytes; fcw_required : option (list bytes); fcw_reason : option bytes }.
Record FsHome : Type := {
  fh_shadow : option bool; fh_persist : list bytes; fh_readonly : option bool }.
Record FsTmp : Type := { ftm_writable : option bool; ftm_size : option bytes }.
Record FsProc : Type := { fpr_hidepid : option bool }.
Record DevPassthrough : Type := {
  dpt_path : option bytes; dpt_group : option bytes; dpt_reason : option bytes;
  dpt_threats : option Threats }.
Record FsDev : Type := {
  fdv_allow : option (list bytes); fdv_passthrough : ListField DevPassthrough }.
Record RedirectEntry : Type := { re_path : bytes; re_source : bytes; re_write : bool }.
Record FsSection : Type := {
  fss_read : option PathField; fss_write : option PathField; fss_exclusive : option (list bytes);
  fss_deny : option PathField; fss_home : option FsHome; fss_tmp : option FsTmp;
  fss_proc : option FsProc; fss_dev : option FsDev; fss_cwd : option FsCwd;
  fss_redirect : list RedirectEntry }.

Record NetTls : Type := { ntl_required : option bool }.
Record NetAllow : Type := {
  na_name : option bytes; na_cidr : option bytes; na_ports : list Z; na_protocol : option bytes;
  na_reason : option bytes; na_tls : option NetTls; na_threats : option Threats }.
Global Instance NetTls_eq_dec : EqDecision NetTls.
Proof. solve_decision. Defined.
Global Instance NetAllow_eq_dec : EqDecision NetAllow.
Proof. solve_decision. Defined.

Record NetDenyRule : Type := {
  ndr_cidr : bytes; ndr_reason : option bytes; ndr_threats : option Threats }.
Record BpfRule : Type := {
  bru_cidr : option bytes; bru_ports : list Z; bru_protocol : option bytes;
  bru_reason : option bytes; bru_threats : option Threats }.
Record NetUdp : Type := { nud_allow : ListField NetAllow }.
Record NetProxyDeny : Type := {
  npd_invariant : list NetDenyRule; npd_policy : ListField NetDenyRule }.
Record NetProxy : Type := { npx_allow : ListField NetAllow; npx_deny : option NetProxyDeny }.
Record NetBpfAcl : Type := { nba_allow : ListField BpfRule; nba_deny : ListField BpfRule }.
Record NetBpf : Type := {
  nbf_families : option (list bytes); nbf_deny_families : option (list bytes);
  nbf_connect : option NetBpfAcl; nbf_bind : option NetBpfAcl }.

Inductive WildcardBindPolicy : Type := WbRewrite | WbDeny.
Inductive NetAuditLevel : Type := NalSummary | NalFull.
Inductive DbusAuditLevel : Type := DalOff | DalSummary | DalFull.
Inductive AuditClassLevel : Type := AclOff | AclDeniesOnly | AclSummary | AclFull.

Record NetBind : Type := {
  nbd_inaddr_any_policy : option WildcardBindPolicy;
  nbd_in6addr_any_policy : option WildcardBindPolicy;
  nbd_allow_host_loopback_v4 : option bool; nbd_allow_host_loopback_v6 : option bool;
  nbd_min_port : option Z; nbd_allowed_ports : option (list Z) }.
Record NetIpv6 : Type := { nv6_force_v6only : option bool }.
Record NetAudit : Type := { nau_log_path : option bytes; nau_level : option NetAuditLevel }.
Record NetSection : Type := {
  ns_mode : option bytes; ns_reason : option bytes; ns_proxy_listen_address : option bytes;
  ns_proxy : option NetProxy; ns_bpf : option NetBpf; ns_bind : option NetBind;
  ns_ipv6 : option NetIpv6; ns_audit : option NetAudit; ns_udp : option NetUdp }.

Record UnixAllow : Type := {
  uxa_name : option bytes; uxa_real : option bytes; uxa_shim : option bytes;
  uxa_env : option bytes; uxa_reason : option bytes; uxa_threats : option Threats }.
Record UnixSection : Type := { uxs_abstract_ns : option bytes; uxs_allow : ListField UnixAllow }.

Record ProvidesEntry : Type := {
  pe_name : bytes; pe_shape : Shape; pe_endpoint : option bytes; pe_key : option bytes;
  pe_reason : option bytes; pe_threats : option Threats }.
Record ConsumesEntry : Type := {
  co_name : bytes; co_shape : Shape; co_at : option bytes; co_env : list bytes;
  co_key : option bytes; co_required : bool; co_reason : option bytes;
  co_threats : option Threats }.

Record IdentitySection : Type := {
  ids_user : option bytes; ids_group : option bytes; ids_hostname : option bytes;
  ids_groups : GroupField }.
Record SshDestination : Type := {
  ssd_dest : option bytes; ssd_options : list bytes; ssd_reason : option bytes;
  ssd_threats : option Threats }.
Record SshSection : Type := {
  sss_allow_headless : option bool; sss_threats : option Threats;
  sss_destinations : ListField SshDestination }.
Record WorkloadSection : Type := {
  wls_argv : option (list bytes); wls_cwd : option bytes; wls_pinned : option bool;
  wls_allowed_args : option bool; wls_sha256 : option (list bytes) }.
Record BoundaryAcl : Type := {
  bac_allow_targets : option (list bytes); bac_allow_from : option (list bytes) }.
Record UnsafeSection : Type := { ufs_ptrace : option BoundaryAcl; ufs_signal : option BoundaryAcl }.
Record EnvSection : Type := {
  evs_pass : option (list bytes); evs_deny : option (list bytes);
  evs_set : option (list (bytes * bytes)) }.
Record SeccompSection : Type := {
  scs_profile : option bytes; scs_deny : option (list bytes); scs_allow : option (list bytes) }.
Record LifecycleSection : Type := { lcs_ttl : option bytes; lcs_ttl_action : option bytes }.
Record ServiceSection : Type := {
  svs_restart : option RestartPolicy; svs_backoff : option bytes; svs_max_attempts : option Z }.
Record TtySection : Type := { tys_filter_terminal_escapes : option bool }.
Record TrustSection : Type := { trs_manifest : option bool; trs_on_change : option OnChangeAction }.

Record DbusRules : Type := {
  dbr_talk : list bytes; dbr_call : list bytes; dbr_broadcast : list bytes; dbr_own : list bytes }.
Record DbusBus : Type := {
  dbb_enabled : option bool; dbb_allow : option DbusRules; dbb_deny : option DbusRules }.
Record DbusAudit : Type := { dba_level : option DbusAuditLevel }.
Record DbusSection : Type := {
  dbs_session : option DbusBus; dbs_system : option DbusBus; dbs_audit : option DbusAudit }.

Record RootfsSection : Type := {
  rfs_path : option bytes; rfs_image : option bytes; rfs_reason : option bytes;
  rfs_persistence : option bytes; rfs_readonly : option (list bytes);
  rfs_writable : option (list bytes) }.
Record SpawnAllow : Type := { spa_template : option bytes; spa_mutable : option (list bytes) }.
Record SpawnSection : Type := {
  sps_max_instances : option Z; sps_reason : option bytes; sps_allow : ListField SpawnAllow }.
Record MutableField : Type := {
  mf_field : option bytes; mf_from : option (list bytes); mf_max : option Z;
  mf_oneof : option (list bytes); mf_match : option (list bytes); mf_type : option bytes;
  mf_under : option bytes; mf_freeform : option bool; mf_reason : option bytes }.

(** [kennel-lib-policy/src/audit.rs]. *)
Record AuditFileSection : Type := {
  afs_dir : option bytes; afs_rotate_at_bytes : option bytes;
  afs_compress_after_seconds : option Z; afs_retain_count : option Z }.
Record AuditSyslogSection : Type := { ays_facility : option bytes }.
Record AuditClassSection : Type := { acs_level : option bytes }.
Record AuditSection : Type := {
  aus_sinks : list bytes; aus_file : option AuditFileSection;
  aus_syslog : option AuditSyslogSection; aus_journald : option unit; aus_stdout : option unit;
  aus_network : option AuditClassSection; aus_filesystem : option AuditClassSection;
  aus_exec : option AuditClassSection; aus_unix : option AuditClassSection;
  aus_dbus : option AuditClassSection }.

Record SourcePolicy : Type := {
  s_template_base : option bytes;
  s_template_name : option bytes;
  s_name : option bytes;
  s_include : list bytes;
  s_threat_catalogue_version : option bytes;
  s_signature : option SignatureEnvelope;
  s_cap : option CapSection;
  s_exec : option ExecSection;
  s_fs : option FsSection;
  s_net : option NetSection;
  s_unix : option UnixSection;
  s_ssh : option SshSection;
  s_identity : option IdentitySection;
  s_provides : list ProvidesEntry;
  s_consumes : ListField ConsumesEntry;
  s_service : option ServiceSection;
  s_unsafe_section : option UnsafeSection;
  s_env : option EnvSection;
  s_seccomp : option SeccompSection;
  s_lifecycle : option LifecycleSection;
  s_audit : option AuditSection;
  s_ulimits : option (list (bytes * bytes));
  s_workload : option WorkloadSection;
  s_tty : option TtySection;
  s_trust : option TrustSection;
  s_dbus : option DbusSection;
  s_rootfs : option RootfsSection;
  s_spawn : option SpawnSection;
  s_mutable : list MutableField;
}.

(** [SourcePolicy::default()]. *)
Definition empty_policy : SourcePolicy := {|
  s_template_base := None; s_template_name := None; s_name := None; s_include := [];
  s_threat_catalogue_version := None; s_signature := None; s_cap := None; s_exec := None;
  s_fs := None; s_net := None; s_unix := None; s_ssh := None; s_identity := None;
  s_provides := []; s_consumes := lf_default; s_service := None; s_unsafe_section := None;
  s_env := None; s_seccomp := None; s_lifecycle := None; s_audit := None; s_ulimits := None;
  s_workload := None; s_tty := None; s_trust := None; s_dbus := None; s_rootfs := None;
  s_spawn := None; s_mutable := [] |}.

(** ** Keys of list entries *)

Definition net_key (a : NetAllow) : bytes := default [] (or_else (na_name a) (na_cidr a)).
Definition unix_key (a : UnixAllow) : bytes := default [] (or_else (uxa_name a) (uxa_real a)).
Definition ssh_key (a : SshDestination) : bytes := default [] (ssd_dest a).
Definition dev_key (a : DevPassthrough) : bytes := default [] (dpt_path a).
Definition bpf_key (a : BpfRule) : bytes := default [] (bru_cidr a).
Definition deny_key (a : NetDenyRule) : bytes := ndr_cidr a.
Definition consumes_key (a : ConsumesEntry) : bytes := co_name a.
Definition spawn_key (a : SpawnAllow) : bytes := default [] (spa_template a).

(** ** Per-artefact validation *)

Inductive RefError : Type := RefLength | RefFirst | RefChar.
Definition is_ref_start (c : Z) : bool := ((97 <=? c) && (c <=? 122)) || is_digit c.
Definition validate_ref_name (name : bytes) : result RefError unit :=
  if is_nil name || (64 <? blen name) then Err RefLength
  else match name with
  | c :: rest =>
      if negb (is_ref_start c) then Err RefFirst
      else if existsb (fun c => negb (is_ref_start c || (c =? 45))) rest then Err RefChar
      else Ok tt
  | [] => Err RefFirst
  end.
Definition validate_reference (reference : bytes) : result RefError unit := validate_ref_name reference.

(** One constructor per message, with what the message names. *)
Inductive SourceErr : Type :=
  | BothIdentities
  | NeitherIdentity
  | LeafWithoutBase
  | BadTemplateBase (base : bytes) (e : RefError)
  | BadInclude (inc : bytes) (e : RefError)
  | DuplicateInclude (inc : bytes)
  | MissingReason (section who : bytes)
  | MissingPathReason (section : bytes) (paths : list bytes)
  | CwdReason (grant : bytes)
  | SourceOverPaths (section : bytes) (paths : list bytes)
  | SourceOnRemove (section : bytes) (paths : list bytes)
  | SourceOnDeny (paths : list bytes)
  | SourceOnExec (paths : list bytes)
  | LeafInvariant
  | RefusedBroker (bus entry refused : bytes).

(** A string literal of the program. *)
Definition str (s : string) : bytes := ascii_bytes s.
Arguments str s%_string.

Definition is_blank (s : option bytes) : bool :=
  match s with None => true | Some v => is_nil (trim v) end.
Definition is_leaf (p : SourcePolicy) : bool := negb (is_none (s_name p)) && is_none (s_template_name p).

(** [errs.push] under a condition. *)
Definition err_if (b : bool) (e : SourceErr) : list SourceErr := if b then [e] else [].

Definition check_identity (p : SourcePolicy) : list SourceErr :=
  match s_template_name p, s_name p with
  | Some _, Some _ => [BothIdentities]
  | None, None => [NeitherIdentity]
  | _, _ => []
  end ++ err_if (is_leaf p && is_none (s_template_base p)) LeafWithoutBase.

Fixpoint check_includes (seen : list bytes) (incs : list bytes) : list SourceErr :=
  match incs with
  | [] => []
  | inc :: incs =>
      match validate_reference inc with Err e => [BadInclude inc e] | Ok _ => [] end ++
      err_if (bool_decide (inc ∈ seen)) (DuplicateInclude inc) ++
      check_includes (seen ++ [inc]) incs
  end.
Definition check_references (p : SourcePolicy) : list SourceErr :=
  match s_template_base p with
  | Some base => match validate_reference base with Err e => [BadTemplateBase base e] | Ok _ => [] end
  | None => []
  end ++ check_includes [] (s_include p).

(** [if let Some(x) = o { .. }] and [o.iter().flat_map(..)]. *)
Definition on_some {A B} (f : A -> list B) (o : option A) : list B :=
  match o with Some a => f a | None => [] end.

Definition net_reasons (net : NetSection) : list SourceErr :=
  on_some (fun proxy =>
    flat_map (fun a => err_if (is_blank (na_reason a))
      (MissingReason (str "net.proxy.allow") (default (str "<unnamed>") (or_else (na_name a) (na_cidr a)))))
      (lf_entries (npx_allow proxy)) ++
    on_some (fun deny =>
      flat_map (fun d => err_if (is_blank (ndr_reason d)) (MissingReason (str "net.proxy.deny") (ndr_cidr d)))
        (npd_invariant deny ++ lf_entries (npd_policy deny))) (npx_deny proxy)) (ns_proxy net) ++
  on_some (fun bpf =>
    flat_map (fun acl =>
      flat_map (fun r => err_if (is_blank (bru_reason r))
        (MissingReason (str "net.bpf") (default (str "<no-cidr>") (bru_cidr r))))
        (lf_entries (nba_allow acl) ++ lf_entries (nba_deny acl)))
      (on_some (fun a => [a]) (nbf_connect bpf) ++ on_some (fun a => [a]) (nbf_bind bpf)))
    (ns_bpf net).

Definition path_reasons (label : bytes) (field : option PathField) : list SourceErr :=
  flat_map (fun e => err_if (is_blank (ent_reason e)) (MissingPathReason label (ent_path e)))
    (on_some pf_delta_entries field).

Definition cwd_grants (c : FsCwd) : bool :=
  bool_decide (fcw_grant c = Some (str "read")) || bool_decide (fcw_grant c = Some (str "write")).
Definition fs_reasons (fs : FsSection) : list SourceErr :=
  path_reasons (str "fs.read") (fss_read fs) ++ path_reasons (str "fs.write") (fss_write fs) ++
  path_reasons (str "fs.deny") (fss_deny fs) ++
  on_some (fun dev =>
    flat_map (fun d => err_if (is_blank (dpt_reason d))
      (MissingReason (str "fs.dev.passthrough") (default (str "<no-path>") (dpt_path d))))
      (lf_entries (fdv_passthrough dev))) (fss_dev fs) ++
  on_some (fun cwd =>
    err_if (cwd_grants cwd && is_blank (fcw_reason cwd))
      (CwdReason (default (str "none") (fcw_grant cwd)))) (fss_cwd fs).

Definition check_reasons (p : SourcePolicy) : list SourceErr :=
  on_some (fun i =>
    flat_map (fun e => err_if (is_blank (ge_reason e)) (MissingReason (str "identity.groups.*") (ge_group e)))
      (gf_delta_entries (ids_groups i))) (s_identity p) ++
  on_some net_reasons (s_net p) ++
  on_some (fun u =>
    flat_map (fun a => err_if (is_blank (uxa_reason a))
      (MissingReason (str "unix.allow") (default (str "<unnamed>") (or_else (uxa_name a) (uxa_real a)))))
      (lf_entries (uxs_allow u))) (s_unix p) ++
  on_some fs_reasons (s_fs p) ++
  on_some (fun x => path_reasons (str "exec.allow") (xs_allow x)) (s_exec p) ++
  on_some (fun s =>
    flat_map (fun d => err_if (is_blank (ssd_reason d))
      (MissingReason (str "ssh.destinations") (default (str "<no-dest>") (ssd_dest d))))
      (lf_entries (sss_destinations s))) (s_ssh p).

Definition has_source (e : PathEntry) : bool := negb (is_none (ent_source e)).
Definition axis_sources (label : bytes) (field : option PathField) : list SourceErr :=
  match field with
  | Some (PfDelta d) =>
      flat_map (fun e => err_if (has_source e && (1 <? length (ent_path e))%nat)
                          (SourceOverPaths label (ent_path e))) (pd_add d) ++
      flat_map (fun e => err_if (has_source e) (SourceOnRemove label (ent_path e))) (pd_remove d)
  | _ => []
  end.
Definition check_redirect_sources (p : SourcePolicy) : list SourceErr :=
  on_some (fun fs =>
    axis_sources (str "fs.read") (fss_read fs) ++ axis_sources (str "fs.write") (fss_write fs) ++
    flat_map (fun e => err_if (has_source e) (SourceOnDeny (ent_path e)))
      (on_some pf_delta_entries (fss_deny fs))) (s_fs p) ++
  on_some (fun x =>
    flat_map (fun e => err_if (has_source e) (SourceOnExec (ent_path e)))
      (on_some pf_delta_entries (xs_allow x))) (s_exec p).

Definition invariant_denies (p : SourcePolicy) : list NetDenyRule :=
  on_some npd_invariant (net ← s_net p; proxy ← ns_proxy net; npx_deny proxy).
Definition net_allow_adds (p : SourcePolicy) : list NetAllow :=
  match (net ← s_net p; proxy ← ns_proxy net; Some (npx_allow proxy)) with
  | Some (LfDelta d) => dl_add d
  | _ => []
  end.

Definition check_leaf_invariants (p : SourcePolicy) : list SourceErr :=
  err_if (is_leaf p && negb (is_none (s_template_base p)) && negb (is_nil (invariant_denies p)))
    LeafInvariant.

(** One bus of [check_dbus], by the shared check of an allow table. *)
Definition rules_of (r : DbusRules) : BusRules := {|
  br_talk := dbr_talk r; br_call := dbr_call r; br_broadcast := dbr_broadcast r;
  br_own := dbr_own r; br_deny_talk := [] |}.
Definition check_dbus_section (p : SourcePolicy) : list SourceErr :=
  on_some (fun dbus =>
    flat_map (fun nb => on_some (fun allow =>
        map (fun er => RefusedBroker nb.1 er.1 er.2) (check_dbus (rules_of allow)))
        (b ← (nb.2 : option DbusBus); dbb_allow b))
      [(str "session", dbs_session dbus); (str "system", dbs_system dbus)]) (s_dbus p).

Definition source_errors (p : SourcePolicy) : list SourceErr :=
  check_identity p ++ check_references p ++ check_reasons p ++ check_redirect_sources p ++
  check_leaf_invariants p ++ check_dbus_section p.
Definition source_validate (p : SourcePolicy) : result (list SourceErr) unit :=
  match source_errors p with [] => Ok tt | errs => Err errs end.

(** ** The test of a fragment *)

Definition none_or {A} (f : A -> bool) (o : option A) : bool :=
  match o with None => true | Some a => f a end.

Definition fs_additive (fs : FsSection) : bool :=
  none_or pf_is_additive (fss_read fs) && none_or pf_is_additive (fss_write fs) &&
  none_or pf_is_additive (fss_deny fs) && is_none (fss_exclusive fs) && is_none (fss_home fs) &&
  is_none (fss_tmp fs) && is_none (fss_proc fs) &&
  none_or (fun d => lf_is_additive (fdv_passthrough d)) (fss_dev fs).
Definition exec_additive (e : ExecSection) : bool :=
  none_or pf_is_additive (xs_allow e) && is_none (xs_deny e) && is_none (xs_path e) &&
  is_none (xs_shell e) && is_none (xs_deny_setuid e) && is_none (xs_deny_setgid e) &&
  is_none (xs_deny_setcap e) && is_none (xs_deny_writable e).
Definition acl_additive (a : NetBpfAcl) : bool :=
  lf_is_additive (nba_allow a) && lf_is_additive (nba_deny a).
Definition net_additive (n : NetSection) : bool :=
  is_none (ns_mode n) && is_none (ns_proxy_listen_address n) && is_none (ns_bind n) &&
  is_none (ns_ipv6 n) && is_none (ns_audit n) &&
  none_or (fun p => lf_is_additive (npx_allow p) &&
                    none_or (fun d => lf_is_additive (npd_policy d)) (npx_deny p)) (ns_proxy n) &&
  none_or (fun b => is_none (nbf_families b) && is_none (nbf_deny_families b) &&
                    none_or acl_additive (nbf_connect b) && none_or acl_additive (nbf_bind b)) (ns_bpf n).
Definition top_additive (p : SourcePolicy) : bool :=
  is_none (s_cap p) && is_none (s_identity p) && is_nil (s_provides p) &&
  lf_is_additive (s_consumes p) && is_none (s_service p) && is_none (s_unsafe_section p) &&
  is_none (s_env p) && is_none (s_seccomp p) && is_none (s_lifecycle p) && is_none (s_audit p) &&
  is_none (s_ulimits p) && is_none (s_workload p) && is_none (s_tty p) && is_none (s_trust p) &&
  is_none (s_dbus p) && is_none (s_rootfs p) && is_none (s_spawn p) && is_nil (s_mutable p).
Definition is_additive_only (p : SourcePolicy) : bool :=
  none_or fs_additive (s_fs p) && none_or exec_additive (s_exec p) &&
  none_or net_additive (s_net p) &&
  none_or (fun u => is_none (uxs_abstract_ns u) && lf_is_additive (uxs_allow u)) (s_unix p) &&
  none_or (fun s => lf_is_additive (sss_destinations s)) (s_ssh p) && top_additive p.
