(* ===== verification/SourceSig.v ===== *)
(** Trust in source artefacts ([kennel-lib-compile/src/source_sig.rs]).

    A template or a fragment carries a signature over its canonical text, the
    artefact without its signature table.  The trust context says which keys
    verify, whether an unsigned artefact is tolerated, and which tier a key
    belongs to by the directory that loaded it.  The text format is
    [basic_toml]: the class [SourceToml] has its reader and its printer. *)

From S2P Require Import Prelude Bytes Str Plan Settled B64 Sshsig Source.

Class SourceToml : Type := {
  source_parse : bytes -> option SourcePolicy;
  source_text : SourcePolicy -> option bytes;
}.

(** [system.toml]'s reserved namespaces ([kennel-lib-config]). *)
Record ReservedNamespace : Type := { rn_prefix : bytes; rn_keys : list bytes }.
Definition authorizes (ns : ReservedNamespace) (key_id : bytes) : bool :=
  bool_decide (key_id ∈ rn_keys ns).

Inductive SignatureMode : Type := Require_ | AllowUnsigned.
Definition is_require (m : SignatureMode) : bool := match m with Require_ => true | AllowUnsigned => false end.

(** [source_sig::Tier], in its order. *)
Inductive SigTier : Type := STUser | STHost | STVendor.
Definition sig_rank (t : SigTier) : Z := match t with STUser => 0 | STHost => 1 | STVendor => 2 end.

Record Trust : Type := {
  tc_keys : option KeySet;
  tc_mode : SignatureMode;
  tc_vendor_keys : option (list bytes);
  tc_host_keys : option (list bytes);
  tc_signing_key : option bytes;
  tc_reserved : list ReservedNamespace;
}.
Definition trust_require (keys : KeySet) : Trust := {|
  tc_keys := Some keys; tc_mode := Require_; tc_vendor_keys := None; tc_host_keys := None;
  tc_signing_key := None; tc_reserved := [] |}.
Definition trust_allow_unsigned (keys : option KeySet) : Trust := {|
  tc_keys := keys; tc_mode := AllowUnsigned; tc_vendor_keys := None; tc_host_keys := None;
  tc_signing_key := None; tc_reserved := [] |}.
Definition trust_dev : Trust := trust_allow_unsigned None.
Definition with_tiers (t : Trust) (vendor host : list bytes) : Trust := {|
  tc_keys := tc_keys t; tc_mode := tc_mode t; tc_vendor_keys := Some vendor;
  tc_host_keys := Some host; tc_signing_key := tc_signing_key t; tc_reserved := tc_reserved t |}.
Definition with_signing_key (t : Trust) (key_id : option bytes) : Trust := {|
  tc_keys := tc_keys t; tc_mode := tc_mode t; tc_vendor_keys := tc_vendor_keys t;
  tc_host_keys := tc_host_keys t; tc_signing_key := key_id; tc_reserved := tc_reserved t |}.
Definition with_reserved (t : Trust) (reserved : list ReservedNamespace) : Trust := {|
  tc_keys := tc_keys t; tc_mode := tc_mode t; tc_vendor_keys := tc_vendor_keys t;
  tc_host_keys := tc_host_keys t; tc_signing_key := tc_signing_key t; tc_reserved := reserved |}.

(** [is_some_and(|s| s.contains(key_id))]. *)
Definition in_set (key_id : bytes) (s : option (list bytes)) : bool :=
  match s with Some l => bool_decide (key_id ∈ l) | None => false end.
Definition tier_of (t : Trust) (key_id : bytes) : SigTier :=
  if in_set key_id (tc_vendor_keys t) then STVendor
  else if in_set key_id (tc_host_keys t) then STHost
  else STUser.
Definition signing_tier (t : Trust) : option SigTier := option_map (tier_of t) (tc_signing_key t).
Definition requires_signatures (t : Trust) : bool := is_require (tc_mode t).

Inductive Distrust : Type := NoTrustStore | Unsigned.
Inductive TrustError : Type :=
  | TeUntrusted (name : bytes) (why : Distrust)
  | TeSignature (e : SignatureError)
  | TeCanonical.

Definition drop_signature (p : SourcePolicy) : SourcePolicy := {|
  s_template_base := s_template_base p; s_template_name := s_template_name p; s_name := s_name p;
  s_include := s_include p; s_threat_catalogue_version := s_threat_catalogue_version p;
  s_signature := None; s_cap := s_cap p; s_exec := s_exec p; s_fs := s_fs p; s_net := s_net p;
  s_unix := s_unix p; s_ssh := s_ssh p; s_identity := s_identity p; s_provides := s_provides p;
  s_consumes := s_consumes p; s_service := s_service p; s_unsafe_section := s_unsafe_section p;
  s_env := s_env p; s_seccomp := s_seccomp p; s_lifecycle := s_lifecycle p; s_audit := s_audit p;
  s_ulimits := s_ulimits p; s_workload := s_workload p; s_tty := s_tty p; s_trust := s_trust p;
  s_dbus := s_dbus p; s_rootfs := s_rootfs p; s_spawn := s_spawn p; s_mutable := s_mutable p |}.
Definition set_signature (e : SignatureEnvelope) (p : SourcePolicy) : SourcePolicy :=
  let q := drop_signature p in {|
  s_template_base := s_template_base q; s_template_name := s_template_name q; s_name := s_name q;
  s_include := s_include q; s_threat_catalogue_version := s_threat_catalogue_version q;
  s_signature := Some e; s_cap := s_cap q; s_exec := s_exec q; s_fs := s_fs q; s_net := s_net q;
  s_unix := s_unix q; s_ssh := s_ssh q; s_identity := s_identity q; s_provides := s_provides q;
  s_consumes := s_consumes q; s_service := s_service q; s_unsafe_section := s_unsafe_section q;
  s_env := s_env q; s_seccomp := s_seccomp q; s_lifecycle := s_lifecycle q; s_audit := s_audit q;
  s_ulimits := s_ulimits q; s_workload := s_workload q; s_tty := s_tty q; s_trust := s_trust q;
  s_dbus := s_dbus q; s_rootfs := s_rootfs q; s_spawn := s_spawn q; s_mutable := s_mutable q |}.

Section signing.
Context {C : Crypto} {T : SourceToml}.

Definition canonical_source (p : SourcePolicy) : result TrustError bytes :=
  ok_or TeCanonical (source_text (drop_signature p)).

(** [Trust::check]: the key id a signature verified under, when one was checked. *)
Definition trust_check (t : Trust) (name : bytes) (p : SourcePolicy) :
    result TrustError (option bytes) :=
  match s_signature p, tc_keys t with
  | Some env, Some keys =>
      canonical ← canonical_source p;
      match verify_signature canonical env keys with
      | Ok _ => Ok (Some (se_key_id env))
      | Err e => Err (TeSignature e)
      end
  | Some _, None =>
      if is_require (tc_mode t) then Err (TeUntrusted name NoTrustStore) else Ok None
  | None, _ => if is_require (tc_mode t) then Err (TeUntrusted name Unsigned) else Ok None
  end.

Definition sign_source (p : SourcePolicy) (key : SigningKey) : result TrustError SourcePolicy :=
  canonical ← canonical_source p; Ok (set_signature (sign_envelope key canonical) p).
Definition verify_source (p : SourcePolicy) (envelope : SignatureEnvelope) (keys : KeySet) :
    result TrustError bytes :=
  canonical ← canonical_source p;
  match verify_signature canonical envelope keys with
  | Ok _ => Ok (se_key_id envelope)
  | Err e => Err (TeSignature e)
  end.
Definition verify_self (p : SourcePolicy) (keys : KeySet) : result TrustError bytes :=
  match s_signature p with
  | Some env => verify_source p env keys
  | None => Err (TeSignature MalformedSignature)
  end.
End signing.

(** * Lemmas *)

Lemma drop_set_signature e p : drop_signature (set_signature e p) = drop_signature p.
Proof. done. Qed.

Section signing_lemmas.
Context {C : Crypto} {T : SourceToml}.

(** When an artefact is accepted, and under which key. *)
Lemma trust_check_Ok t name p k :
  trust_check t name p = Ok k <->
  match k with
  | Some kid => exists env keys canonical,
      s_signature p = Some env /\ kid = se_key_id env /\ tc_keys t = Some keys /\
      source_text (drop_signature p) = Some canonical /\ verify_signature canonical env keys = Ok tt
  | None => tc_mode t = AllowUnsigned /\ (s_signature p = None \/ tc_keys t = None)
  end.
Proof.
  unfold trust_check, canonical_source.
  destruct (s_signature p) as [env|], (tc_keys t) as [keys|].
  - destruct (source_text (drop_signature p)) as [c|] eqn:Et; cbn [ok_or mbind result_bind].
    + destruct (verify_signature c env keys) as [[]|e] eqn:Ev.
      * split; [intros <-%(inj Ok); by exists env, keys, c|].
        destruct k as [kid|]; [|by intros [_ [?|?]]].
        by intros (env' & keys' & c' & [= <-] & -> & [= <-] & [= <-] & _).
      * split; [done|]. destruct k as [kid|]; [|by intros [_ [?|?]]].
        intros (env' & keys' & c' & [= <-] & -> & [= <-] & [= <-] & ?). congruence.
    + split; [done|]. destruct k as [kid|]; [|by intros [_ [?|?]]].
      by intros (env' & keys' & c' & [= <-] & -> & [= <-] & ? & _).
  - destruct (tc_mode t); cbn [is_require].
    + split; [done|]. destruct k; [by intros (? & ? & ? & ? & ? & ? & _)|by intros [? _]].
    + split; [intros <-%(inj Ok); split; [done|by right]|].
      destruct k; [by intros (? & ? & ? & ? & ? & ? & _)|done].
  - destruct (tc_mode t); cbn [is_require].
    + split; [done|]. destruct k; [by intros (? & ? & ? & ? & _)|by intros [? _]].
    + split; [intros <-%(inj Ok); split; [done|by left]|].
      destruct k; [by intros (? & ? & ? & ? & _)|done].
  - destruct (tc_mode t); cbn [is_require].
    + split; [done|]. destruct k; [by intros (? & ? & ? & ? & _)|by intros [? _]].
    + split; [intros <-%(inj Ok); split; [done|by left]|].
      destruct k; [by intros (? & ? & ? & ? & _)|done].
Qed.

Lemma trust_check_require t name p k :
  trust_check t name p = Ok k -> tc_mode t = Require_ -> exists kid, k = Some kid.
Proof.
  intros H%trust_check_Ok Hm. destruct k as [kid|]; [by exists kid|]. destruct H as [H _]. congruence.
Qed.
End signing_lemmas.

(** A signed template is accepted wherever its key is trusted: what [sign_source]
    returns has the artefact's own fields, verifies by itself and passes the check of
    every trust context whose store holds the key, in either mode, under that key's
    id. *)
Theorem signed_source_accepted {C : Crypto} `{!CryptoLaws C} {T : SourceToml} p key signed keys t name :
  sign_source p key = Ok signed ->
  keys_get keys (sk_key_id key) = Some (ed_public (sk_seed key)) -> tc_keys t = Some keys ->
  drop_signature signed = drop_signature p /\
  verify_self signed keys = Ok (sk_key_id key) /\
  trust_check t name signed = Ok (Some (sk_key_id key)).
Proof.
  intros (canonical & Hc & <-%(inj Ok))%bind_Ok Hk Ht.
  assert (canonical_source (set_signature (sign_envelope key canonical) p) = Ok canonical) as Hs
    by (unfold canonical_source; by rewrite drop_set_signature).
  split_and!; [done| |].
  - unfold verify_self, verify_source. cbn [s_signature set_signature]. rewrite Hs.
    cbn [mbind result_bind]. by rewrite verify_signed.
  - unfold trust_check. cbn [s_signature set_signature]. rewrite Ht, Hs.
    cbn [mbind result_bind]. by rewrite verify_signed.
Qed.

(** A text format in which the canonical form of every artefact is one byte. *)
Definition toy_toml : SourceToml := {| source_parse := fun _ => None; source_text := fun _ => Some [0] |}.
Lemma signed_source_accepted_witness :
  trust_check (C := toy_crypto) (T := toy_toml) (trust_require toy_keys) (str "base")
    (set_signature (sign_envelope (C := toy_crypto) toy_key [0]) empty_policy) = Ok (Some (str "ops")).
Proof.
  pose proof toy_laws as HL.
  apply (signed_source_accepted (C := toy_crypto) (T := toy_toml) empty_policy toy_key _ toy_keys);
    done.
Defined.
