(* ===== verification/MeshBus.v ===== *)
(** The mesh's shared rendezvous: which names may be provided, where they land and
    who answers on them.

    - [kennel-lib-compile/src/mesh.rs] and [translate_mesh]: the compile-time check
      of the [provides] and [consumes] entries and the runtime entries made of them.
    - [kenneld/src/mesh.rs] and [mesh_bus_key]: the host directory and the bus a
      capability is keyed by.
    - [kenneld/src/mesh_bus.rs]: node 0 of a bus; the reference counts of
      [ensure_mesh_bus] and [release_mesh_bus].

    The binder calls (acquiring a handle, the nested [NEW_SESSION]) and the
    kernel's pid-to-cgroup record are parameters.  Audit events are left out. *)

From stdpp Require Import gmap relations.
From S2P Require Import Prelude Bytes Str Paths IpText Plan Settled Cursor ControlWire Mesh.
From S2P Require Import PlanBuild Patch B64 Sshsig Verify BinderWire SpawnVerb Registry Source SourceSig.
Open Scope Z_scope.

(** ** The compiler's check *)

Record ReservedAuthority : Type := {
  ra_enforce : bool; ra_declaring_tier : option SigTier; ra_reserved : list ReservedNamespace;
}.
Definition RESERVED_PREFIX : bytes := ascii_bytes "org.projectkennel.".
Definition required_tier (a : ReservedAuthority) (name : bytes) : option SigTier :=
  if starts_with RESERVED_PREFIX name then Some STVendor
  else if existsb (fun ns => starts_with (rn_prefix ns) name) (ra_reserved a) then Some STHost
  else None.
Definition permits (a : ReservedAuthority) (name : bytes) : bool :=
  negb (ra_enforce a) ||
  match required_tier a name with
  | None => true
  | Some req => match ra_declaring_tier a with
                | Some t => sig_rank req <=? sig_rank t
                | None => false
                end
  end.

Definition provide_dir_component (name : bytes) (key : option bytes) : bytes :=
  match key with Some k => name ++ [DOT] ++ k | None => name end.
Definition default_af_unix_endpoint (name : bytes) (key : option bytes) : bytes :=
  ascii_bytes "/run/" ++ provide_dir_component name key ++ ascii_bytes "/sock".
Definition af_unix_endpoint_under_run (endpoint : bytes) : bool :=
  is_absolute endpoint && path_starts_with endpoint (ascii_bytes "/run") &&
  (4 <=? blen (components endpoint)) &&
  negb (existsb (fun c => bool_decide (c = ParentDir)) (components endpoint)).

Inductive MeshProblem : Type :=
  | ProvideUnnamed | ProvideReserved (name : bytes) | ProvideTwice (name : bytes)
  | ProvideEndpoint (name : bytes) | ProvideNoEndpoint (name : bytes) | ProvideNoReason (name : bytes)
  | ConsumeUnnamed | ConsumeNoReason (name : bytes).
Definition absent (o : option bytes) : bool := is_nil (default [] o).
Definition name_problems (a : ReservedAuthority) (seen : list bytes) (name : bytes) : list MeshProblem :=
  if is_nil name then [ProvideUnnamed]
  else (if permits a name then [] else [ProvideReserved name]) ++
       (if bool_decide (name ∈ seen) then [ProvideTwice name] else []).
Definition endpoint_problems (p : ProvidesEntry) : list MeshProblem :=
  match pe_shape p with
  | AfUnix => match pe_endpoint p with
              | Some e => if af_unix_endpoint_under_run e then [] else [ProvideEndpoint (pe_name p)]
              | None => []
              end
  | _ => if absent (pe_endpoint p) then [ProvideNoEndpoint (pe_name p)] else []
  end.
Fixpoint provide_problems (a : ReservedAuthority) (seen : list bytes) (ps : list ProvidesEntry) :
    list MeshProblem :=
  match ps with
  | [] => []
  | p :: ps =>
      name_problems a seen (pe_name p) ++ endpoint_problems p ++
      (if absent (pe_reason p) then [ProvideNoReason (pe_name p)] else []) ++
      provide_problems a (if is_nil (pe_name p) then seen else pe_name p :: seen) ps
  end.
Definition consume_problems (c : ConsumesEntry) : list MeshProblem :=
  (if is_nil (co_name c) then [ConsumeUnnamed] else []) ++
  (if absent (co_reason c) then [ConsumeNoReason (co_name c)] else []).
Definition mesh_validate (a : ReservedAuthority) (ps : list ProvidesEntry) (cs : list ConsumesEntry) :
    result (list MeshProblem) unit :=
  match provide_problems a [] ps ++ flat_map consume_problems cs with [] => Ok tt | es => Err es end.

(** [translate_mesh]. *)
Definition provide_runtime (p : ProvidesEntry) : option ProvideRuntime :=
  endpoint ← match pe_endpoint p with
             | Some e => Some e
             | None => match pe_shape p with
                       | AfUnix => Some (default_af_unix_endpoint (pe_name p) (pe_key p))
                       | _ => None
                       end
             end;
  Some {| pv_name := pe_name p; pv_shape := pe_shape p; pv_endpoint := endpoint; pv_key := pe_key p |}.
Definition consume_runtime (c : ConsumesEntry) : ConsumeRuntime := {|
  cn_name := co_name c; cn_shape := co_shape c; cn_at := co_at c; cn_env := co_env c; cn_key := co_key c;
  cn_required := co_required c |}.
Definition translate_mesh (ps : list ProvidesEntry) (cs : list ConsumesEntry) : MeshRuntime :=
  {| mr_provides := omap provide_runtime ps; mr_consumes := map consume_runtime cs |}.

(** ** The daemon's keys *)

Definition component_of (name : bytes) (key : option bytes) : bytes :=
  match key with Some k => name ++ [DOT] ++ k | None => name end.
Definition host_rp_dir (runtime_dir : bytes) (tier : Tier) (name : bytes) (key : option bytes) : bytes :=
  path_join (path_join (path_join runtime_dir (ascii_bytes "mesh")) (tier_str tier)) (component_of name key).
(** [Path::file_name]. *)
Definition file_name (p : bytes) : option bytes :=
  match last (components p) with Some (Normal s) => Some s | _ => None end.
Definition host_rp_socket (runtime_dir : bytes) (tier : Tier) (name : bytes) (key : option bytes)
    (endpoint : bytes) : bytes :=
  path_join (host_rp_dir runtime_dir tier name key) (default (ascii_bytes "sock") (file_name endpoint)).
Definition mesh_bus_key (tier : Tier) (name : bytes) (key : option bytes) : bytes :=
  match key with
  | None => tier_str tier ++ [SLASH] ++ name
  | Some k => tier_str tier ++ [SLASH] ++ name ++ [DOT] ++ k
  end.

(** ** Reference counts *)

(** [ensure_mesh_bus]: whether creating a missing bus and cloning its mount succeed are inputs. *)
Definition ensure_mesh_bus (buses : gmap bytes Z) (key : bytes) (created cloned : bool) :
    gmap bytes Z * bool :=
  match buses !! key with
  | Some n => (<[key := sat_add usize_max n 1]> buses, cloned)
  | None => if created then (<[key := sat_add usize_max 0 1]> buses, cloned) else (buses, false)
  end.
Definition release_mesh_bus (buses : gmap bytes Z) (key : bytes) : gmap bytes Z :=
  match buses !! key with
  | Some n => if sat_sub n 1 =? 0 then delete key buses else <[key := sat_sub n 1]> buses
  | None => buses
  end.

(** The daemon's buses with the keys its guards hold ([MeshBusGuard]); [bs_lost] counts, for the
    theorem, the ensures that failed after the participant was added. *)
Record buses : Type := { bs_map : gmap bytes Z; bs_guards : list bytes; bs_lost : list bytes }.
Inductive bstep : buses -> buses -> Prop :=
  | b_ensure s key created cloned m ok : ensure_mesh_bus (bs_map s) key created cloned = (m, ok) ->
      bstep s {| bs_map := m; bs_guards := if ok then key :: bs_guards s else bs_guards s;
                 bs_lost := if ok then bs_lost s
                            else if negb cloned && (created || negb (is_none (bs_map s !! key)))
                                 then key :: bs_lost s else bs_lost s |}
  | b_drop s key l k : bs_guards s = l ++ key :: k ->
      bstep s {| bs_map := release_mesh_bus (bs_map s) key; bs_guards := l ++ k; bs_lost := bs_lost s |}.
Definition buses_init : buses := {| bs_map := ∅; bs_guards := []; bs_lost := [] |}.

(** ** Node 0 of a bus *)

Definition ADD_SERVICE : Z := 1.
Definition SVC_CONNECT : Z := 16.
Definition GET_SESSION_POLICY : Z := 17.
Definition STATUS_NOT_FOUND : Z := 2.
Definition STATUS_UNAVAILABLE : Z := 7.
Definition DBUS_BROKER_SERVICE : bytes := ascii_bytes "org.projectkennel.dbus-broker".
Definition mediation_for (name : bytes) : bool := bool_decide (name = DBUS_BROKER_SERVICE).

Record Mediation : Type := { me_broker_service : bytes; me_policy : Z -> bytes -> option bytes }.
Record Incoming : Type := { in_code : Z; in_data : bytes; in_sender_pid : Z }.
Inductive Reply : Type := RData (data : bytes) | RHandle (h : Z) | RHandleOnce (h : Z).

Section node0.
Context (en : endian).
(** [acquire_handle], [pid_to_ctx] and the [NEW_SESSION] transaction to a handle. *)
Context (acquire : Z -> bool) (pid_to_ctx : Z -> option Z) (new_session : Z -> bytes -> option Z).

Definition mesh_add_service (handles : gmap bytes Z) (i : Incoming) : Reply * gmap bytes Z :=
  match decode_add_service en (in_data i) with
  | None => (RData [STATUS_BAD_REQUEST], handles)
  | Some (name, handle) =>
      if negb (acquire handle) then (RData [STATUS_BAD_REQUEST], handles)
      else (RData [STATUS_OK], <[name := handle]> handles)
  end.

Definition mesh_new_session (handles : gmap bytes Z) (med : Mediation) (i : Incoming) (name : bytes) : Reply :=
  match pid_to_ctx (in_sender_pid i) with
  | None => RData [STATUS_NOT_FOUND]
  | Some ctx =>
      match handles !! me_broker_service med with
      | None => RData [STATUS_UNAVAILABLE]
      | Some control =>
          match new_session control (encode_ref ctx name) with
          | Some node => RHandleOnce node
          | None => RData [STATUS_UNAVAILABLE]
          end
      end
  end.

Definition mesh_svc_connect (handles : gmap bytes Z) (med : option Mediation) (i : Incoming) : Reply :=
  match svc_decode_request (in_data i) with
  | None => RData [STATUS_BAD_REQUEST]
  | Some name =>
      match med with
      | Some med => mesh_new_session handles med i name
      | None => match handles !! name with
                | None => RData [STATUS_NOT_FOUND]
                | Some h => RHandle h
                end
      end
  end.

Definition mesh_get_session_policy (med : option Mediation) (i : Incoming) : Reply :=
  match med with
  | None => RData [STATUS_BAD_REQUEST]
  | Some med =>
      match decode_ref (in_data i) with
      | None => RData [STATUS_BAD_REQUEST]
      | Some (ctx, name) =>
          match me_policy med ctx name with
          | None => RData [STATUS_NOT_FOUND]
          | Some bs => RData bs
          end
      end
  end.

Definition mesh_handle (handles : gmap bytes Z) (med : option Mediation) (i : Incoming) :
    Reply * gmap bytes Z :=
  if in_code i =? ADD_SERVICE then mesh_add_service handles i
  else if in_code i =? SVC_CONNECT then (mesh_svc_connect handles med i, handles)
  else if in_code i =? GET_SESSION_POLICY then (mesh_get_session_policy med i, handles)
  else (RData [STATUS_BAD_REQUEST], handles).
End node0.

(** The death of the node behind a cookie: every service registered with that handle goes. *)
Definition mesh_death (handles : gmap bytes Z) (cookie : Z) : gmap bytes Z :=
  if u32_max <? cookie then handles else filter (fun e => e.2 <> cookie) handles.

(** * The compiler's check *)

Lemma app_nil_both {A} (l k : list A) : l ++ k = [] <-> l = [] /\ k = [].
Proof. split; [apply app_eq_nil|by intros [-> ->]]. Qed.

(** A provide that the check accepts, whatever its neighbours. *)
Definition provide_ok (a : ReservedAuthority) (p : ProvidesEntry) : Prop :=
  pe_name p <> [] /\ permits a (pe_name p) = true /\ endpoint_problems p = [] /\ absent (pe_reason p) = false.

Lemma provide_problems_nil a seen ps :
  provide_problems a seen ps = [] <->
  Forall (provide_ok a) ps /\ NoDup (map pe_name ps) /\ Forall (fun p => pe_name p ∉ seen) ps.
Proof.
  revert seen; induction ps as [|p ps IH]; intros seen; cbn [provide_problems map].
  { split; [|done]. intros _. by split_and!; constructor. }
  rewrite !app_nil_both, IH, NoDup_cons, !Forall_cons. unfold name_problems, provide_ok.
  destruct (pe_name p) as [|b n] eqn:En; cbn [is_nil].
  { split; [by intros [? _]|]. by intros ([[? _] _] & _). }
  rewrite <- En, app_nil_both.
  assert ((if permits a (pe_name p) then [] else [ProvideReserved (pe_name p)]) = [] <->
          permits a (pe_name p) = true) as -> by (by destruct (permits a (pe_name p))).
  assert ((if bool_decide (pe_name p ∈ seen) then [ProvideTwice (pe_name p)] else []) = [] <->
          pe_name p ∉ seen) as -> by (by case_bool_decide).
  assert ((if absent (pe_reason p) then [ProvideNoReason (pe_name p)] else []) = [] <->
          absent (pe_reason p) = false) as -> by (by destruct (absent (pe_reason p))).
  assert (Forall (fun q => pe_name q ∉ pe_name p :: seen) ps <->
          (pe_name p ∉ map pe_name ps) /\ Forall (fun q => pe_name q ∉ seen) ps) as ->.
  { rewrite list_elem_of_fmap, !Forall_forall. split.
    - intros H. split; [intros (q & E & Hq)|intros q Hq]; specialize (H q Hq); set_solver.
    - intros [H1 H2] q Hq. specialize (H2 q Hq). rewrite elem_of_cons. intros [E|?]; [|done].
      apply H1. by exists q. }
  assert (pe_name p <> []) by (by rewrite En). tauto.
Qed.

Lemma consume_problems_nil cs :
  flat_map consume_problems cs = [] <->
  Forall (fun c => co_name c <> [] /\ absent (co_reason c) = false) cs.
Proof.
  induction cs as [|c cs IH]; cbn [flat_map]; [done|]. rewrite app_nil_both, IH, Forall_cons.
  unfold consume_problems. destruct (co_name c), (absent (co_reason c)); cbn; intuition congruence.
Qed.

Lemma mesh_validate_Ok a ps cs :
  mesh_validate a ps cs = Ok tt <->
  Forall (provide_ok a) ps /\ NoDup (map pe_name ps) /\
  Forall (fun c => co_name c <> [] /\ absent (co_reason c) = false) cs.
Proof.
  unfold mesh_validate. transitivity (provide_problems a [] ps ++ flat_map consume_problems cs = []).
  { by destruct (_ ++ _). }
  rewrite app_nil_both, provide_problems_nil, consume_problems_nil.
  assert (Forall (fun p => pe_name p ∉ []) ps) by (apply Forall_true; set_solver). tauto.
Qed.

(** * Reference counts *)

Definition count (key : bytes) (l : list bytes) : Z := blen (List.filter (fun k => bool_decide (k = key)) l).

Lemma count_cons key k l : count key (k :: l) = Z.b2z (bool_decide (k = key)) + count key l.
Proof. unfold count. cbn. destruct (bool_decide (k = key)); cbn [length Z.b2z]; lia. Qed.

Lemma count_app key l k : count key (l ++ k) = count key l + count key k.
Proof. unfold count. rewrite List.filter_app, length_app. lia. Qed.

Lemma count_nonneg key l : 0 <= count key l.
Proof. unfold count. lia. Qed.

Lemma count_le key l : count key l <= blen l.
Proof. unfold count. pose proof (List.filter_length_le (fun k => bool_decide (k = key)) l). lia. Qed.

(** A bus is there exactly while something holds it, with that many participants. *)
Definition buses_ok (s : buses) : Prop :=
  forall key, bs_map s !! key =
    let n := count key (bs_guards s) + count key (bs_lost s) in if n =? 0 then None else Some n.

(** A key gains a participant. *)
Lemma buses_ok_add s key n (ok : bool) :
  buses_ok s -> n = count key (bs_guards s) + count key (bs_lost s) ->
  buses_ok {| bs_map := <[key := n + 1]> (bs_map s);
              bs_guards := if ok then key :: bs_guards s else bs_guards s;
              bs_lost := if ok then bs_lost s else key :: bs_lost s |}.
Proof.
  intros Hok -> key'. cbn. cbv zeta.
  pose proof (count_nonneg key (bs_guards s)). pose proof (count_nonneg key (bs_lost s)).
  assert (count key' (if ok then key :: bs_guards s else bs_guards s) +
          count key' (if ok then bs_lost s else key :: bs_lost s) =
          count key' (bs_guards s) + count key' (bs_lost s) + Z.b2z (bool_decide (key = key'))) as ->.
  { destruct ok; rewrite count_cons; lia. }
  case_bool_decide as E; cbn [Z.b2z].
  - subst key'. rewrite lookup_insert_eq. by rewrite (proj2 (Z.eqb_neq _ _)) by lia.
  - rewrite lookup_insert_ne, Z.add_0_r by done. apply Hok.
Qed.

(** A key loses one. *)
Lemma buses_ok_drop s key l k :
  buses_ok s -> bs_guards s = l ++ key :: k ->
  buses_ok {| bs_map := release_mesh_bus (bs_map s) key; bs_guards := l ++ k; bs_lost := bs_lost s |}.
Proof.
  intros Hok Hg key'. cbn. cbv zeta. pose proof (Hok key) as Hk. pose proof (Hok key') as Hk'.
  cbv zeta in Hk, Hk'. rewrite Hg, count_app, count_cons in Hk, Hk'.
  rewrite bool_decide_eq_true_2 in Hk by done. cbn [Z.b2z] in Hk. rewrite count_app.
  pose proof (count_nonneg key l). pose proof (count_nonneg key k). pose proof (count_nonneg key (bs_lost s)).
  rewrite (proj2 (Z.eqb_neq _ _)) in Hk by lia. unfold release_mesh_bus. rewrite Hk.
  replace (sat_sub _ 1) with (count key l + count key k + count key (bs_lost s)) by (unfold sat_sub; lia).
  destruct (decide (key' = key)) as [->|Hne].
  - destruct (Z.eqb_spec (count key l + count key k + count key (bs_lost s)) 0);
      [by rewrite lookup_delete_eq|by rewrite lookup_insert_eq].
  - rewrite bool_decide_eq_false_2 in Hk' by congruence. cbn [Z.b2z] in Hk'. rewrite Z.add_0_l in Hk'.
    destruct (Z.eqb_spec (count key l + count key k + count key (bs_lost s)) 0);
      [rewrite lookup_delete_ne by done|rewrite lookup_insert_ne by done]; done.
Qed.

Definition held_buses (s : buses) : Z := blen (bs_guards s) + blen (bs_lost s).

Lemma bstep_ok s s' :
  held_buses s < usize_max -> buses_ok s -> bstep s s' -> buses_ok s' /\ held_buses s' <= held_buses s + 1.
Proof.
  unfold held_buses. intros Hlen Hok Hs. destruct Hs as [s key created cloned m ok He|s key l k Hg].
  - pose proof (Hok key) as Hk. cbv zeta in Hk. unfold ensure_mesh_bus in He. rewrite Hk in He |- *.
    pose proof (count_nonneg key (bs_guards s)). pose proof (count_nonneg key (bs_lost s)).
    pose proof (count_le key (bs_guards s)). pose proof (count_le key (bs_lost s)).
    set (n := count key (bs_guards s) + count key (bs_lost s)) in *.
    assert (sat_add usize_max n 1 = n + 1) as Hsat by (unfold sat_add; lia).
    destruct (Z.eqb_spec n 0) as [E|E]; cbn [is_none negb].
    + destruct created; cbn [orb]; [|injection He as <- <-; rewrite andb_false_r; split; [done|cbn; lia]].
      rewrite <- E, Hsat in He. injection He as <- <-. rewrite andb_true_r.
      split; [|destruct cloned; cbn; lia]. pose proof (buses_ok_add s key n cloned Hok eq_refl) as H'.
      by destruct cloned.
    + rewrite Hsat in He. injection He as <- <-. rewrite orb_true_r, andb_true_r.
      split; [|destruct cloned; cbn; lia]. pose proof (buses_ok_add s key n cloned Hok eq_refl) as H'.
      by destruct cloned.
  - split; [by apply buses_ok_drop|]. rewrite Hg. cbn. rewrite !length_app. cbn [length]. lia.
Qed.

Lemma buses_reachable n s :
  Z.of_nat n <= usize_max -> nsteps bstep n buses_init s -> buses_ok s /\ held_buses s <= Z.of_nat n.
Proof.
  revert s; induction n as [|n IH]; intros s Hn Hs.
  - inversion Hs; subst. split; [|done]. intros key. apply lookup_empty.
  - apply nsteps_inv_r in Hs as (y & Hy & Hs). destruct (IH y) as [Hok Hl]; [lia|done|].
    destruct (bstep_ok y s) as [? ?]; [lia|done..|]. split; [done|lia].
Qed.


Lemma encode_ref_ok ctx name : bytes_ok name -> bytes_ok (encode_ref ctx name).
Proof.
  intros Hn. apply Forall_app. split; [apply be_bytes_ok|]. apply Forall_app.
  split; [apply be_bytes_ok|by apply Forall_take].
Qed.

(** * Claims *)

(** The compile-time check accepts exactly the mesh declarations it documents: every provide
    named, once, permitted, with a usable endpoint and a reason, every consume
    named with a reason.  So an enforced policy claims an
    [org.projectkennel.] name only through a vendor-tier chain and a
    host-reserved one only through a chain of host tier or above. *)
Theorem mesh_validate_exact a ps cs :
  (mesh_validate a ps cs = Ok tt <->
   Forall (provide_ok a) ps /\ NoDup (map pe_name ps) /\
   Forall (fun c => co_name c <> [] /\ absent (co_reason c) = false) cs) /\
  (forall p, mesh_validate a ps cs = Ok tt -> ra_enforce a = true -> p ∈ ps ->
    (starts_with RESERVED_PREFIX (pe_name p) = true -> ra_declaring_tier a = Some STVendor) /\
    (forall ns, ns ∈ ra_reserved a -> starts_with (rn_prefix ns) (pe_name p) = true ->
       exists t, ra_declaring_tier a = Some t /\ t <> STUser)).
Proof.
  split; [apply mesh_validate_Ok|]. intros p (Hp & _)%mesh_validate_Ok He Hin.
  rewrite Forall_forall in Hp. apply Hp in Hin as (_ & Hperm & _).
  unfold permits, required_tier in Hperm. rewrite He in Hperm. cbn [negb orb] in Hperm. split.
  - intros Hr. rewrite Hr in Hperm. by destruct (ra_declaring_tier a) as [[]|].
  - intros ns Hns Hr. assert (existsb (fun ns => starts_with (rn_prefix ns) (pe_name p)) (ra_reserved a) = true) as Hx.
    { apply existsb_exists. exists ns. split; [by apply list_elem_of_In|done]. }
    rewrite Hx in Hperm. destruct (starts_with RESERVED_PREFIX (pe_name p)), (ra_declaring_tier a) as [t|]; try done;
      exists t; (split; [done|]); by intros ->.
Qed.

(** A private key sidesteps the reserved namespace: a policy of any tier may provide
    [org] with the key [projectkennel.x], which the check accepts since [org] is
    not reserved, and the daemon gives it the very bus and rendezvous directory of the
    reserved name [org.projectkennel.x], which only a vendor-tier chain may claim. *)
Theorem reserved_name_by_key a s e r rt tier :
  ra_enforce a = true -> e <> [] -> r <> [] ->
  Forall (fun ns => starts_with (rn_prefix ns) (ascii_bytes "org") = false) (ra_reserved a) ->
  let p := {| pe_name := ascii_bytes "org"; pe_shape := BinderConnector; pe_endpoint := Some e;
              pe_key := Some (ascii_bytes "projectkennel." ++ s); pe_reason := Some r; pe_threats := None |} in
  let reserved := RESERVED_PREFIX ++ s in
  mesh_validate a [p] [] = Ok tt /\ required_tier a reserved = Some STVendor /\
  mesh_bus_key tier (pe_name p) (pe_key p) = mesh_bus_key tier reserved None /\
  host_rp_dir rt tier (pe_name p) (pe_key p) = host_rp_dir rt tier reserved None.
Proof.
  intros He Hend Hre Hns p reserved. split_and!.
  - apply mesh_validate_Ok. split_and!; [|apply NoDup_singleton|constructor].
    constructor; [|constructor]. split_and!; [done| | |by destruct r].
    + unfold permits, required_tier. rewrite He.
      assert (existsb (fun ns => starts_with (rn_prefix ns) (pe_name p)) (ra_reserved a) = false) as ->
        by (by apply existsb_false). done.
    + cbn. by destruct e.
  - unfold required_tier. by rewrite (proj2 (starts_with_true RESERVED_PREFIX reserved)) by (by exists s).
  - reflexivity.
  - done.
Qed.

(** A rendezvous directory stays under the daemon's runtime directory when the name and
    key make one path component, which the daemon takes for granted; but the check accepts any
    absolute path as a name outside the reserved prefixes, and then the directory the daemon
    creates, clears and binds writable into the provider's view is that path itself. *)
Theorem rendezvous_location rt tier name key :
  (one_component (component_of name key) ->
   components (host_rp_dir rt tier name key) =
   components rt ++ [Normal (ascii_bytes "mesh"); Normal (tier_str tier); Normal (component_of name key)]) /\
  (forall a r, is_absolute name = true -> r <> [] ->
   Forall (fun ns => starts_with (rn_prefix ns) name = false) (ra_reserved a) ->
   let p := {| pe_name := name; pe_shape := AfUnix; pe_endpoint := None; pe_key := None;
               pe_reason := Some r; pe_threats := None |} in
   mesh_validate a [p] [] = Ok tt /\ host_rp_dir rt tier name None = name).
Proof.
  split.
  - intros (Hc & Ha & Hl)%one_component_components. unfold host_rp_dir.
    rewrite path_join_components, Hc by done.
    assert (one_component (tier_str tier)) as (Ht & Hta & Htl)%one_component_components
      by (destruct tier; by repeat split).
    rewrite path_join_components, Ht by done.
    assert (one_component (ascii_bytes "mesh")) as (Hm & Hma & Hml)%one_component_components by (by repeat split).
    rewrite path_join_components, Hm by done. by rewrite <- !app_assoc.
  - intros a r Habs Hr Hns p. destruct name as [|b n]; [done|]. cbn in Habs. apply Z.eqb_eq in Habs as ->.
    split.
    + apply mesh_validate_Ok. split_and!; [|apply NoDup_singleton|constructor].
      constructor; [|constructor]. split_and!; [done| |done|by destruct r].
      unfold permits, required_tier.
      assert (existsb (fun ns => starts_with (rn_prefix ns) (pe_name p)) (ra_reserved a) = false) as ->
        by (by apply existsb_false). cbn. by rewrite orb_true_r.
    + done.
Qed.

(** A mesh bus lives exactly as long as something holds it: after any sequence of
    ensures and guard drops, a bus exists for a key exactly when a guard holds the
    key or an earlier ensure for it failed at the clone, and its count is their
    number.  So with no failed clone the last guard tears the bus down, and after one failed clone
    nothing ever does. *)
Theorem mesh_bus_lifetime n s key :
  Z.of_nat n <= usize_max -> nsteps bstep n buses_init s ->
  (is_Some (bs_map s !! key) <-> key ∈ bs_guards s \/ key ∈ bs_lost s) /\
  (forall c, bs_map s !! key = Some c -> c = count key (bs_guards s) + count key (bs_lost s)).
Proof.
  intros Hn [Hok _]%buses_reachable; [|done]. specialize (Hok key). cbv zeta in Hok.
  assert (forall l, 0 < count key l <-> key ∈ l) as Hc.
  { intros l. unfold count. split.
    - destruct (List.filter _ l) as [|x f] eqn:E; cbn; [lia|]. intros _.
      assert (In x (List.filter (fun k => bool_decide (k = key)) l)) as Hx by (rewrite E; by left).
      apply List.filter_In in Hx as [Hx ->%bool_decide_eq_true]. by apply list_elem_of_In.
    - intros Hk%list_elem_of_In. assert (In key (List.filter (fun k => bool_decide (k = key)) l)) as Hx.
      { apply List.filter_In. split; [done|]. by apply bool_decide_eq_true. }
      destruct (List.filter _ l); [done|]. cbn. lia. }
  rewrite <- !Hc, Hok. pose proof (count_nonneg key (bs_guards s)). pose proof (count_nonneg key (bs_lost s)).
  destruct (Z.eqb_spec (count key (bs_guards s) + count key (bs_lost s)) 0) as [E|E].
  - split; [|done]. split; [by intros [? ?]|lia].
  - split; [|by intros c [= <-]]. split; [lia|]. intros _. by eexists.
Qed.

(** Node 0 of a bus takes a registration from any participant: whoever sends
    [ADD_SERVICE] for a name, a consumer of the bus included, becomes the one every later request for
    that name reaches, on a mediated bus as the broker that polices the sessions
    and on a plain bus as the provider, until it dies or another registers. *)
Theorem last_registration_wins en acquire pid_to_ctx new_session handles med add name h ask want :
  in_code add = ADD_SERVICE -> decode_add_service en (in_data add) = Some (name, h) -> acquire h = true ->
  in_code ask = SVC_CONNECT -> svc_decode_request (in_data ask) = Some want ->
  let '(reply, handles') := mesh_handle en acquire pid_to_ctx new_session handles med add in
  reply = RData [STATUS_OK] /\
  match med with
  | None => want = name ->
      mesh_handle en acquire pid_to_ctx new_session handles' med ask = (RHandle h, handles')
  | Some m => forall ctx, me_broker_service m = name -> pid_to_ctx (in_sender_pid ask) = Some ctx ->
      mesh_handle en acquire pid_to_ctx new_session handles' med ask =
        (match new_session h (encode_ref ctx want) with
         | Some node => RHandleOnce node | None => RData [STATUS_UNAVAILABLE] end, handles')
  end.
Proof.
  intros Ha Hd Hq Hs Hw. unfold mesh_handle at 1. rewrite Ha. cbn [Z.eqb]. unfold mesh_add_service.
  rewrite Hd, Hq. cbn [negb]. split; [done|]. unfold mesh_handle, mesh_svc_connect, mesh_new_session.
  rewrite Hs, Hw. destruct med as [m|].
  - intros ctx -> ->. cbn. by rewrite lookup_insert_eq.
  - intros ->. cbn. by rewrite lookup_insert_eq.
Qed.

(** A brokered session is policed by the consumer's own policy: in every reachable state of
    the daemon, a connect from a process of a registered kennel makes the broker a
    session reference that reads back as that kennel's context and the capability
    asked for, and the pull with that reference answers with the filter of that
    kennel's own signed policy, or with nothing when it does not enable the bus. *)
Theorem session_policed_by_own requests stops d n m control handles pid ask cap en acquire pid_to_ctx new_session :
  rtc dstep (daemon_init requests stops) d -> rg_kennels (dm_reg d) !! n = Some m ->
  pid_to_ctx pid = Some (km_ctx m) -> handles !! DBUS_BROKER_SERVICE = Some control ->
  in_code ask = SVC_CONNECT -> in_sender_pid ask = pid -> svc_decode_request (in_data ask) = Some cap ->
  bytes_ok cap ->
  let med := Some {| me_broker_service := DBUS_BROKER_SERVICE; me_policy := session_policy_for (dm_reg d) |} in
  exists ref,
    decode_ref ref = Some (km_ctx m, cap) /\
    mesh_handle en acquire pid_to_ctx new_session handles med ask =
      (match new_session control ref with
       | Some node => RHandleOnce node | None => RData [STATUS_UNAVAILABLE] end, handles) /\
    forall pull, in_code pull = GET_SESSION_POLICY -> in_data pull = ref ->
      mesh_handle en acquire pid_to_ctx new_session handles med pull =
        (RData (match own_artefact m cap with Some bs => bs | None => [STATUS_NOT_FOUND] end), handles).
Proof.
  intros Hd Hn Hp Hc Hcode Hpid Hcap Hb med.
  pose proof (session_policy_registered requests stops d n m cap Hd Hn) as Hpol.
  assert (1 <= km_ctx m <= MAX_V4_CTX) as Hr by (by eapply registered_range).
  assert (svc_decode_request (in_data ask) = Some cap -> ref_ok (km_ctx m, cap)) as Hok.
  { unfold svc_decode_request, MAX_V4_CTX in *. intros H. destruct (_ || _) eqn:E; [done|].
    apply from_utf8_Some in H as [-> Hu]. apply orb_false_iff in E as [_ E%Z.ltb_ge].
    split; cbn; [in_range|]. split; [unfold SVC_NAME_MAX_BYTES in E; in_range|done]. }
  exists (encode_ref (km_ctx m) cap).
  assert (decode_ref (encode_ref (km_ctx m) cap) = Some (km_ctx m, cap)) as Href.
  { unfold decode_ref. apply (run_slice_exact put_ref _ ref_ok); [by apply encode_ref_ok|].
    by split; [|apply Hok]. }
  split_and!; [done|..].
  - unfold mesh_handle. rewrite Hcode. cbn. unfold mesh_svc_connect, mesh_new_session. rewrite Hcap, Hpid, Hp.
    cbn [med me_broker_service]. by rewrite Hc.
  - intros pull Hpc Hpd. unfold mesh_handle. rewrite Hpc. cbn. unfold mesh_get_session_policy.
    rewrite Hpd, Href. cbn [me_policy med]. rewrite Hpol. by destruct (own_artefact m cap).
Qed.

(** * Examples *)

Definition user_authority : ReservedAuthority :=
  {| ra_enforce := true; ra_declaring_tier := Some STUser;
     ra_reserved := [{| rn_prefix := ascii_bytes "com.acme."; rn_keys := [] |}] |}.
Definition provide (name : string) (key : option bytes) : ProvidesEntry := {|
  pe_name := ascii_bytes name; pe_shape := AfUnix; pe_endpoint := None; pe_key := key;
  pe_reason := Some (ascii_bytes "tests"); pe_threats := None |}.

Lemma mesh_validate_exact_witness :
  mesh_validate user_authority [provide "org.example.wl" None] [] = Ok tt /\
  mesh_validate user_authority [provide "org.projectkennel.wl" None] [] =
    Err [ProvideReserved (ascii_bytes "org.projectkennel.wl")] /\
  ~ Forall (provide_ok user_authority) [provide "com.acme.wl" None].
Proof.
  split; [vm_compute; reflexivity|]. split; [vm_compute; reflexivity|]. intros H.
  assert (mesh_validate user_authority [provide "com.acme.wl" None] [] = Ok tt) as E.
  { apply (mesh_validate_exact user_authority [provide "com.acme.wl" None] []).
    split; [exact H|]. split; [apply NoDup_singleton|constructor]. }
  vm_compute in E. discriminate E.
Defined.

Lemma reserved_name_by_key_witness :
  mesh_bus_key Host (ascii_bytes "org") (Some (ascii_bytes "projectkennel.dbus-broker")) =
  mesh_bus_key Host DBUS_BROKER_SERVICE None.
Proof.
  apply (reserved_name_by_key user_authority (ascii_bytes "dbus-broker") (ascii_bytes "/dev/mesh/binder")
    (ascii_bytes "tests") (ascii_bytes "/run/user/1000/kennel") Host).
  - reflexivity.
  - discriminate.
  - discriminate.
  - constructor; [vm_compute; reflexivity|constructor].
Defined.

Lemma rendezvous_location_witness :
  mesh_validate user_authority [provide "/home/alice/.ssh" None] [] = Ok tt /\
  host_rp_dir (ascii_bytes "/run/user/1000/kennel") User (ascii_bytes "/home/alice/.ssh") None =
    ascii_bytes "/home/alice/.ssh".
Proof.
  apply (rendezvous_location (ascii_bytes "/run/user/1000/kennel") User (ascii_bytes "/home/alice/.ssh") None).
  - reflexivity.
  - discriminate.
  - constructor; [vm_compute; reflexivity|constructor].
Defined.

(** Two kennels on one bus, the first of which leaves. *)
Definition wl : bytes := ascii_bytes "user/org.x.wl".
Definition shared_bus : buses := {| bs_map := {[wl := 1]}; bs_guards := [wl]; bs_lost := [] |}.
Lemma shared_bus_reachable : nsteps bstep 3 buses_init shared_bus.
Proof.
  eapply nsteps_l; [apply (b_ensure _ wl true true {[wl := 1]} true); vm_compute; reflexivity|].
  eapply nsteps_l; [apply (b_ensure _ wl true true {[wl := 2]} true); vm_compute; reflexivity|].
  eapply nsteps_l; [|apply nsteps_O]. cbn [bs_guards bs_lost].
  replace shared_bus with {| bs_map := release_mesh_bus {[wl := 2]} wl; bs_guards := [] ++ [wl]; bs_lost := [] |}
    by (vm_compute; reflexivity).
  exact (b_drop {| bs_map := {[wl := 2]}; bs_guards := [wl; wl]; bs_lost := [] |} wl [] [wl] eq_refl).
Qed.

Lemma mesh_bus_lifetime_witness : is_Some (bs_map shared_bus !! wl).
Proof.
  apply (mesh_bus_lifetime 3 shared_bus wl); [vm_compute; discriminate|exact shared_bus_reachable|].
  left. apply list_elem_of_singleton. reflexivity.
Defined.

(** A consumer takes the broker's place. *)
Definition usurp : Incoming := {| in_code := ADD_SERVICE;
  in_data := add_service_data LittleEndian DBUS_BROKER_SERVICE 5; in_sender_pid := 900 |}.
Definition ask_session : Incoming := {| in_code := SVC_CONNECT; in_data := CAPABILITY_SESSION; in_sender_pid := 41 |}.
Definition toy_ctx (pid : Z) : option Z := Some (pid mod 40).
Definition toy_session (control : Z) (_ : bytes) : option Z := Some (100 * control).
Definition broker_bus : Mediation := {| me_broker_service := DBUS_BROKER_SERVICE; me_policy := fun _ _ => None |}.

Lemma last_registration_wins_witness :
  mesh_handle LittleEndian (fun _ => true) toy_ctx toy_session {[ DBUS_BROKER_SERVICE := 3 ]} (Some broker_bus)
    ask_session = (RHandleOnce 300, {[ DBUS_BROKER_SERVICE := 3 ]}) /\
  mesh_handle LittleEndian (fun _ => true) toy_ctx toy_session
    (mesh_handle LittleEndian (fun _ => true) toy_ctx toy_session {[ DBUS_BROKER_SERVICE := 3 ]}
       (Some broker_bus) usurp).2 (Some broker_bus) ask_session =
  (RHandleOnce 500, (mesh_handle LittleEndian (fun _ => true) toy_ctx toy_session
    {[ DBUS_BROKER_SERVICE := 3 ]} (Some broker_bus) usurp).2).
Proof.
  split; [vm_compute; reflexivity|].
  pose proof (last_registration_wins LittleEndian (fun _ => true) toy_ctx toy_session
    {[ DBUS_BROKER_SERVICE := 3 ]} (Some broker_bus) usurp DBUS_BROKER_SERVICE 5 ask_session CAPABILITY_SESSION
    eq_refl ltac:(vm_compute; reflexivity) eq_refl eq_refl ltac:(vm_compute; reflexivity)) as H.
  destruct (mesh_handle _ _ _ _ _ (Some broker_bus) usurp) as [reply hs]. destruct H as [_ H].
  exact (H 1 eq_refl eq_refl).
Defined.

Lemma session_policed_by_own_witness :
  exists m ref, rg_kennels (dm_reg one_running) !! ascii_bytes "build" = Some m /\
    decode_ref ref = Some (1, CAPABILITY_SESSION) /\
    mesh_handle LittleEndian (fun _ => true) toy_ctx toy_session {[ DBUS_BROKER_SERVICE := 3 ]}
      (Some {| me_broker_service := DBUS_BROKER_SERVICE; me_policy := session_policy_for (dm_reg one_running) |})
      ask_session = (RHandleOnce 300, {[ DBUS_BROKER_SERVICE := 3 ]}).
Proof.
  set (m := {| km_ctx := 1; km_pid := Some 41; km_broker := None; km_consumed := []; km_settled := None |}).
  assert (rg_kennels (dm_reg one_running) !! ascii_bytes "build" = Some m) as Hm by (vm_compute; reflexivity).
  destruct (session_policed_by_own [ascii_bytes "build"; ascii_bytes "deploy"] [] one_running
    (ascii_bytes "build") m 3 {[ DBUS_BROKER_SERVICE := 3 ]} 41 ask_session CAPABILITY_SESSION LittleEndian
    (fun _ => true) toy_ctx toy_session) as (ref & Hr & He & _).
  - exact one_running_reachable.
  - exact Hm.
  - reflexivity.
  - apply lookup_singleton_eq.
  - reflexivity.
  - reflexivity.
  - vm_compute; reflexivity.
  - apply ascii_bytes_ok.
  - exists m, ref. split; [exact Hm|]. split; [exact Hr|]. exact He.
Defined.
