(* ===== verification/DbusBroker.v ===== *)
(** The D-Bus broker's sessions, [kennel-dbus-broker/src/main.rs], and their policy
    end to end.

    [Broker] is the table of live sessions by node cookie; [handle] answers one
    binder transaction (a control verb on the control node, a data verb on a session
    node), [release] a dropped node, [drain_inbound] the thread that queues what
    the mediation returns.  What the kernel and the other processes answer to a
    transaction (the policy pull, the socket pair, the writes) is the [env] of an event.

    Theorems: what every live session is bound to, whatever the order of
    transactions, and the composition with the daemon's registry: a consumer's
    messages on the real bus are the calls its own signed policy permits. *)

From stdpp Require Import gmap relations.
From S2P Require Import Prelude Bytes Str Paths IpText Plan Settled Cursor ControlWire Mesh.
From S2P Require Import PlanBuild Patch B64 Sshsig Verify BinderWire SpawnVerb Registry Source SourceSig MeshBus.
From S2P Require Import DbusWire Dbus.
Open Scope Z_scope.

Definition CONTROL_NODE_COOKIE : Z := 1.
Definition FIRST_SESSION_COOKIE : Z := 2.
Definition NEW_SESSION : Z := 1.
Definition DBUS_SEND : Z := 9.
Definition DBUS_RECV : Z := 10.
Definition DBUS_CLOSE : Z := 11.
Definition STATUS_AGAIN : Z := 5.

(** A session's mediation: the bus and filter it was started with, the consumer bytes
    written to it and the frames it has returned, not yet taken. *)
Record Conduit : Type := {
  co_bus : Bus; co_filter : Filter; co_to_mediate : bytes; co_inbound : list bytes;
}.
Record BrokerSession : Type := {
  se_ctx : Z; se_capability : bytes; se_conduit : option Conduit;
}.
Record Broker : Type := { bk_sessions : gmap Z BrokerSession; bk_next_cookie : Z }.
Definition broker_new : Broker := {| bk_sessions := ∅; bk_next_cookie := FIRST_SESSION_COOKIE |}.

Record BrokerIncoming : Type := { bi_node_cookie : Z; bi_code : Z; bi_data : bytes }.
Record env : Type := {
  ev_pull : bytes -> option bytes;   (* the reply to [GET_SESSION_POLICY] *)
  ev_pair : bool;                    (* the socket pair and its clone *)
  ev_node : bool;                    (* [reply_with_node] *)
  ev_write : bool;                   (* [write_all] to the conduit *)
}.
Inductive BrokerReply : Type := BData (data : bytes) | BNode (cookie : Z).

Definition with_sessions (s : gmap Z BrokerSession) (b : Broker) : Broker :=
  {| bk_sessions := s; bk_next_cookie := bk_next_cookie b |}.
Definition with_conduit (c : Conduit) (s : BrokerSession) : BrokerSession :=
  {| se_ctx := se_ctx s; se_capability := se_capability s; se_conduit := Some c |}.

Definition new_session (e : env) (b : Broker) (data : bytes) : BrokerReply * Broker :=
  match decode_ref data with
  | None => (BData [STATUS_BAD_REQUEST], b)
  | Some (ctx, capability) =>
      let cookie := bk_next_cookie b in
      let sessions := <[cookie := {| se_ctx := ctx; se_capability := capability; se_conduit := None |}]>
                        (bk_sessions b) in
      (BNode cookie,
       {| bk_sessions := if ev_node e then sessions else delete cookie sessions;
          bk_next_cookie := sat_add u64_max cookie 1 |})
  end.

Definition session_bus (acc : AcceptSession) : Bus :=
  if as_bus acc =? DBUS_SESSION then Session else System.
Definition session_rules (acc : AcceptSession) : BusRules :=
  {| br_talk := as_talk acc; br_call := as_call acc; br_broadcast := as_broadcast acc;
     br_own := as_own acc; br_deny_talk := as_deny_talk acc |}.
Definition session_filter (acc : AcceptSession) : Filter :=
  if as_bus acc =? DBUS_SESSION
  then {| fi_session := Some (session_rules acc); fi_system := None |}
  else {| fi_session := None; fi_system := Some (session_rules acc) |}.

Definition ensure_conduit (e : env) (b : Broker) (cookie : Z) : bool * Broker :=
  match bk_sessions b !! cookie with
  | None => (false, b)
  | Some s =>
      match se_conduit s with
      | Some _ => (true, b)
      | None =>
          match ev_pull e (encode_ref (se_ctx s) (se_capability s)) ≫= broker_decode_accept with
          | None => (false, b)
          | Some acc =>
              if negb (ev_pair e) then (false, b)
              else (true, with_sessions (<[cookie := with_conduit
                      {| co_bus := session_bus acc; co_filter := session_filter acc;
                         co_to_mediate := []; co_inbound := [] |} s]> (bk_sessions b)) b)
          end
      end
  end.

Definition dbus_send (e : env) (b : Broker) (cookie : Z) (data : bytes) : BrokerReply * Broker :=
  let '(ok, b) := ensure_conduit e b cookie in
  if negb ok then (BData [STATUS_NOT_FOUND], b)
  else match bk_sessions b !! cookie with
  | Some s =>
      match se_conduit s with
      | Some c =>
          if ev_write e
          then (BData [STATUS_OK],
                with_sessions (<[cookie := with_conduit
                  {| co_bus := co_bus c; co_filter := co_filter c;
                     co_to_mediate := co_to_mediate c ++ data; co_inbound := co_inbound c |} s]>
                  (bk_sessions b)) b)
          else (BData [STATUS_NOT_FOUND], with_sessions (delete cookie (bk_sessions b)) b)
      | None => (BData [STATUS_NOT_FOUND], b)
      end
  | None => (BData [STATUS_NOT_FOUND], b)
  end.

Definition dbus_recv (b : Broker) (cookie : Z) : BrokerReply * Broker :=
  match bk_sessions b !! cookie with
  | None => (BData [STATUS_NOT_FOUND], b)
  | Some s =>
      match se_conduit s with
      | None => (BData [STATUS_AGAIN], b)
      | Some c =>
          match co_inbound c with
          | [] => (BData [STATUS_AGAIN], b)
          | frame :: q =>
              (BData (STATUS_OK :: frame),
               with_sessions (<[cookie := with_conduit
                 {| co_bus := co_bus c; co_filter := co_filter c;
                    co_to_mediate := co_to_mediate c; co_inbound := q |} s]> (bk_sessions b)) b)
          end
      end
  end.

Definition handle_session (e : env) (b : Broker) (i : BrokerIncoming) : BrokerReply * Broker :=
  if bi_code i =? DBUS_SEND then dbus_send e b (bi_node_cookie i) (bi_data i)
  else if bi_code i =? DBUS_RECV then dbus_recv b (bi_node_cookie i)
  else if bi_code i =? DBUS_CLOSE then
    (BData [STATUS_OK], with_sessions (delete (bi_node_cookie i) (bk_sessions b)) b)
  else (BData [STATUS_BAD_REQUEST], b).

Definition handle_control (e : env) (b : Broker) (i : BrokerIncoming) : BrokerReply * Broker :=
  if bi_code i =? NEW_SESSION then new_session e b (bi_data i) else (BData [STATUS_BAD_REQUEST], b).

Definition broker_handle (e : env) (b : Broker) (i : BrokerIncoming) : BrokerReply * Broker :=
  if bi_node_cookie i =? CONTROL_NODE_COOKIE then handle_control e b i else handle_session e b i.

Definition broker_release (b : Broker) (cookie : Z) : Broker :=
  with_sessions (delete cookie (bk_sessions b)) b.

(** [drain_inbound]: the units the reader cuts the returned stream into, until it ends or a
    prefix is refused. *)
Fixpoint drain_inbound (fuel : nat) (stream : bytes) : list bytes :=
  match fuel with
  | O => []
  | S fuel =>
      match get_range stream 0 4 with
      | None => []
      | Some len_buf =>
          match frame_len len_buf with
          | Ok (Some len) =>
              if blen stream <? 4 + len then []
              else (len_buf ++ take (Z.to_nat len) (drop 4 stream)) ::
                   drain_inbound fuel (drop (Z.to_nat (4 + len)) stream)
          | _ => []
          end
      end
  end.
(** The reader thread queues a unit for the session it belongs to. *)
Definition push_inbound (b : Broker) (cookie : Z) (unit_ : bytes) : Broker :=
  match bk_sessions b !! cookie with
  | Some s =>
      match se_conduit s with
      | Some c => with_sessions (<[cookie := with_conduit
          {| co_bus := co_bus c; co_filter := co_filter c; co_to_mediate := co_to_mediate c;
             co_inbound := co_inbound c ++ [unit_] |} s]> (bk_sessions b)) b
      | None => b
      end
  | None => b
  end.

Inductive broker_event : Type :=
  | EvTransact (e : env) (i : BrokerIncoming)
  | EvReleased (cookie : Z)
  | EvInbound (cookie : Z) (unit_ : bytes).
Definition broker_do (b : Broker) (v : broker_event) : Broker :=
  match v with
  | EvTransact e i => (broker_handle e b i).2
  | EvReleased cookie => broker_release b cookie
  | EvInbound cookie u => push_inbound b cookie u
  end.
Definition broker_run (vs : list broker_event) : Broker := fold_left broker_do vs broker_new.

(** * What a session is bound to *)

(** The consumer bytes an event carries for the session [k]. *)
Definition sends (k : Z) (v : broker_event) : bytes :=
  match v with
  | EvTransact _ i =>
      if negb (bi_node_cookie i =? CONTROL_NODE_COOKIE) && (bi_node_cookie i =? k) &&
         (bi_code i =? DBUS_SEND) then bi_data i else []
  | _ => []
  end.
Definition mints (v : broker_event) (ctx : Z) (capability : bytes) : Prop :=
  exists e i, v = EvTransact e i /\ bi_node_cookie i = CONTROL_NODE_COOKIE /\
    bi_code i = NEW_SESSION /\ decode_ref (bi_data i) = Some (ctx, capability).
(** The event [v] is the consumer's first frame: the broker pulls the policy and starts mediating. *)
Definition establishes (k : Z) (v : broker_event) (s : BrokerSession) (c : Conduit) : Prop :=
  exists e i acc, v = EvTransact e i /\ bi_node_cookie i = k /\ bi_code i = DBUS_SEND /\
    ev_pull e (encode_ref (se_ctx s) (se_capability s)) ≫= broker_decode_accept = Some acc /\
    co_bus c = session_bus acc /\ co_filter c = session_filter acc.

Definition same_session (s s' : BrokerSession) : Prop :=
  se_ctx s' = se_ctx s /\ se_capability s' = se_capability s.

(** How one event changes the session at [k]. *)
Inductive session_change (k : Z) (v : broker_event) (s s' : BrokerSession) : Prop :=
  | sc_idle : same_session s s' -> se_conduit s = None -> se_conduit s' = None -> session_change k v s s'
  | sc_start c : same_session s s' -> se_conduit s = None -> se_conduit s' = Some c ->
      establishes k v s c -> co_to_mediate c = sends k v -> session_change k v s s'
  | sc_more c c' : same_session s s' -> se_conduit s = Some c -> se_conduit s' = Some c' ->
      co_bus c' = co_bus c -> co_filter c' = co_filter c ->
      co_to_mediate c' = co_to_mediate c ++ sends k v -> session_change k v s s'.

Lemma change_refl k v s : sends k v = [] -> session_change k v s s.
Proof.
  intros H. destruct (se_conduit s) as [c|] eqn:E; [eapply sc_more; try done|by apply sc_idle].
  by rewrite H, app_nil_r.
Qed.

Lemma change_idle k v s : se_conduit s = None -> session_change k v s s.
Proof. intros H. by apply sc_idle. Qed.

Lemma sends_other k e i : bi_node_cookie i <> k -> sends k (EvTransact e i) = [].
Proof. intros H. cbn. by rewrite (proj2 (Z.eqb_neq _ _) H), andb_false_r. Qed.

Lemma sends_control k e i : bi_node_cookie i = CONTROL_NODE_COOKIE -> sends k (EvTransact e i) = [].
Proof. intros H. cbn. by rewrite H. Qed.

Lemma sends_code k e i : bi_code i <> DBUS_SEND -> sends k (EvTransact e i) = [].
Proof. intros H. cbn. by rewrite (proj2 (Z.eqb_neq (bi_code i) _)), andb_false_r. Qed.

Lemma send_change e b i k s' :
  bi_code i = DBUS_SEND -> bi_node_cookie i <> CONTROL_NODE_COOKIE ->
  bk_sessions (dbus_send e b (bi_node_cookie i) (bi_data i)).2 !! k = Some s' ->
  exists s, bk_sessions b !! k = Some s /\ session_change k (EvTransact e i) s s'.
Proof.
  intros Hc Hctl. destruct (base.decide (bi_node_cookie i = k)) as [<-|Hne].
  - unfold dbus_send, ensure_conduit. set (k := bi_node_cookie i).
    assert (sends k (EvTransact e i) = bi_data i) as Hs by (cbn; by rewrite Hc, (proj2 (Z.eqb_neq _ _) Hctl), !Z.eqb_refl).
    destruct (bk_sessions b !! k) as [s|] eqn:E; cbn; [|by rewrite E].
    destruct (se_conduit s) as [c|] eqn:Ec; cbn.
    + rewrite E, Ec. destruct (ev_write e); cbn; [|by rewrite lookup_delete_eq].
      rewrite lookup_insert_eq. intros [= <-]. exists s. split; [done|].
      eapply sc_more; try done. by rewrite Hs.
    + destruct (ev_pull e _ ≫= broker_decode_accept) as [acc|] eqn:Ea; cbn; cycle 1.
      { rewrite E. intros [= <-]. exists s. split; [done|by apply change_idle]. }
      destruct (ev_pair e); cbn; cycle 1.
      { rewrite E. intros [= <-]. exists s. split; [done|by apply change_idle]. }
      rewrite lookup_insert_eq. cbn. destruct (ev_write e); cbn.
      * rewrite lookup_insert_eq. intros [= <-]. exists s. split; [done|].
        eapply sc_start; try done. by exists e, i, acc.
      * by rewrite lookup_delete_eq.
  - intros H. exists s'. split; [|by apply change_refl, sends_other].
    revert H. unfold dbus_send, ensure_conduit. repeat case_match; simplify_eq/=; try done;
      by rewrite ?lookup_insert_ne, ?lookup_delete_ne, ?lookup_insert_ne by done.
Qed.

Lemma event_change b v k s' :
  bk_sessions (broker_do b v) !! k = Some s' ->
  (exists s, bk_sessions b !! k = Some s /\ session_change k v s s') \/
  (k = bk_next_cookie b /\ mints v (se_ctx s') (se_capability s') /\ se_conduit s' = None).
Proof.
  assert (forall b', bk_sessions b' !! k = Some s' -> sends k v = [] ->
    exists s, bk_sessions b' !! k = Some s /\ session_change k v s s') as Hsame.
  { intros b' H Hs. exists s'. split; [done|by apply change_refl]. }
  destruct v as [e i|cookie|cookie u]; cbn [broker_do].
  - unfold broker_handle. destruct (bi_node_cookie i =? CONTROL_NODE_COOKIE) eqn:En; zbool.
    + assert (sends k (EvTransact e i) = []) as Hs by (by apply sends_control).
      unfold handle_control, new_session. destruct (bi_code i =? NEW_SESSION) eqn:Ec; zbool; [|by left; apply Hsame].
      destruct (decode_ref (bi_data i)) as [[ctx cap]|] eqn:Ed; [|by left; apply Hsame]. cbn.
      destruct (base.decide (k = bk_next_cookie b)) as [->|Hne].
      * destruct (ev_node e); [|by rewrite lookup_delete_eq]. rewrite lookup_insert_eq. intros [= <-].
        right. split_and!; [done| |done]. by exists e, i.
      * intros H. left. apply Hsame; [|done]. revert H.
        destruct (ev_node e); by rewrite ?lookup_delete_ne, lookup_insert_ne by done.
    + unfold handle_session. destruct (bi_code i =? DBUS_SEND) eqn:Ec; zbool.
      { intros H. left. by apply send_change in H. }
      apply sends_code with (k := k) (e := e) in Ec as Hs. intros H. left. revert H.
      destruct (bi_code i =? DBUS_RECV); [|destruct (bi_code i =? DBUS_CLOSE)].
      * unfold dbus_recv. destruct (bk_sessions b !! bi_node_cookie i) as [s|] eqn:E; [|by intros H; apply Hsame].
        destruct (se_conduit s) as [c|] eqn:Econ; [|by intros H; apply Hsame].
        destruct (co_inbound c) as [|fr q]; [by intros H; apply Hsame|]. cbn.
        intros [[<- <-]|[_ H]]%lookup_insert_Some; [|by apply Hsame].
        exists s. split; [done|]. eapply sc_more; try done. by rewrite Hs, app_nil_r.
      * cbn. intros [_ H]%lookup_delete_Some. by apply Hsame.
      * by intros H; apply Hsame.
  - cbn. intros [_ H]%lookup_delete_Some. left. by apply Hsame.
  - unfold push_inbound. destruct (bk_sessions b !! cookie) as [s|] eqn:E; [|by left; apply Hsame].
    destruct (se_conduit s) as [c|] eqn:Econ; [|by left; apply Hsame]. cbn.
    intros [[<- <-]|[_ H]]%lookup_insert_Some; left; [|by apply Hsame].
    exists s. split; [done|]. eapply sc_more; try done. by rewrite app_nil_r.
Qed.

(** The history behind a live session. *)
Definition session_history (vs : list broker_event) (k : Z) (s : BrokerSession) : Prop :=
  exists before mint after, vs = before ++ mint :: after /\
    bk_next_cookie (broker_run before) = k /\ mints mint (se_ctx s) (se_capability s) /\
    forall c, se_conduit s = Some c ->
      exists idle start rest, after = idle ++ start :: rest /\ establishes k start s c /\
        co_to_mediate c = flat_map (sends k) (start :: rest).

Lemma next_cookie_do b v :
  bk_next_cookie (broker_do b v) = bk_next_cookie b \/
  bk_next_cookie (broker_do b v) = sat_add u64_max (bk_next_cookie b) 1.
Proof.
  destruct v as [e i|cookie|cookie u]; cbn; [|by left|].
  - unfold broker_handle, handle_control, handle_session, new_session, dbus_send, ensure_conduit, dbus_recv.
    repeat case_match; simplify_eq/=; auto.
  - unfold push_inbound. repeat case_match; auto.
Qed.

Lemma next_cookie_range vs : 2 <= bk_next_cookie (broker_run vs) <= u64_max.
Proof.
  unfold broker_run. induction vs as [|v vs IH] using rev_ind; [cbn; unfold FIRST_SESSION_COOKIE, u64_max; lia|].
  rewrite fold_left_app. cbn. destruct (next_cookie_do (fold_left broker_do vs broker_new) v) as [->| ->]; [done|].
  unfold sat_add. lia.
Qed.

Lemma history_change vs v k s s' :
  session_history vs k s -> session_change k v s s' -> session_history (vs ++ [v]) k s'.
Proof.
  intros (before & mint & after & -> & Hk & Hm & Hc) Hs.
  exists before, mint, (after ++ [v]). rewrite <- app_assoc. split; [done|]. split; [done|].
  assert (same_session s s') as [Hctx Hcap] by (by destruct Hs).
  rewrite Hctx, Hcap. split; [done|]. intros c' Hc'. unfold establishes. rewrite Hctx, Hcap.
  destruct Hs as [? ? ?|c ? ? ? He Ht|c c'' ? H1 H2 Hb Hf Ht]; [congruence|..].
  - assert (c' = c) as -> by congruence. exists after, v, []. split_and!; [done|done|].
    cbn [flat_map]. by rewrite app_nil_r.
  - assert (c'' = c') as -> by congruence. destruct (Hc c H1) as (idle & start & rest & -> & He & Hm').
    exists idle, start, (rest ++ [v]). rewrite <- app_assoc. split; [done|]. rewrite Hb, Hf. split; [done|].
    rewrite Ht, Hm', app_comm_cons, flat_map_app. cbn [flat_map]. by rewrite app_nil_r.
Qed.

Lemma broker_history vs k s :
  bk_sessions (broker_run vs) !! k = Some s -> session_history vs k s.
Proof.
  revert s. induction vs as [|v vs IH] using rev_ind; intros s; [by cbn; rewrite lookup_empty|].
  unfold broker_run. rewrite fold_left_app. cbn [fold_left]. intros Hs.
  apply event_change in Hs as [(s0 & Hs0 & Hch)|(-> & Hm & Hc)].
  - eapply history_change; [|done]. by apply IH.
  - exists vs, v, []. split_and!; [done..|]. intros c. by rewrite Hc.
Qed.

(** * Claims *)

(** Every live session of the broker, after any sequence of transactions, node releases and
    returned frames, was minted by a [NEW_SESSION] on the control node and keeps the
    context and capability of that transaction under a cookie no other session has;
    if it mediates, its bus and filter are those of the policy pulled with exactly that
    context and capability at the consumer's first accepted frame, and what its
    mediation has been given is exactly the frames sent to its own node since, in
    order. No transaction on another node reaches it. *)
Theorem broker_sessions_bound vs k s :
  bk_sessions (broker_run vs) !! k = Some s ->
  2 <= k <= u64_max /\ session_history vs k s.
Proof.
  intros Hs%broker_history. split; [|done]. destruct Hs as (before & mint & after & _ & <- & _).
  apply next_cookie_range.
Qed.

Lemma drain_one fuel f rest :
  frame_ok f -> drain_inbound (S fuel) (frame_encode f ++ rest) = frame_encode f :: drain_inbound fuel rest.
Proof.
  intros Hok. pose proof (take_frame_encode f rest Hok) as (len & Hlen & Hle & _ & Hrest)%take_frame_Some.
  pose proof (frame_body_bound f Hok) as Hb. cbn [drain_inbound].
  assert (length (put_len (blen (frame_body f))) = 4%nat) as H4 by (unfold put_len; by rewrite length_be_bytes).
  assert (get_range (frame_encode f ++ rest) 0 4 = Some (put_len (blen (frame_body f)))) as Hg.
  { unfold frame_encode. rewrite <- app_assoc.
    apply (get_range_eq _ [] (put_len (blen (frame_body f))) (frame_body f ++ rest)); [done|done|]. rewrite H4. done. }
  rewrite Hg. unfold frame_len in Hlen. rewrite Hg in Hlen. unfold frame_len.
  replace (get_range (put_len (blen (frame_body f))) 0 4) with (Some (put_len (blen (frame_body f)))).
  2: { symmetry. apply (get_range_eq _ [] _ []); [by rewrite app_nil_r|done|]. rewrite H4. done. }
  assert (be_val (put_len (blen (frame_body f))) = blen (frame_body f)) as Hv.
  { unfold put_len. rewrite sat_u32_small by (unfold MAX_FRAME, MAX_BODY, u32_max in *; lia).
    apply be_val_be_bytes. unfold MAX_FRAME, MAX_BODY in *. lia. }
  rewrite Hv in *. rewrite (proj2 (Z.ltb_ge _ _)) in * by lia. injection Hlen as <-.
  rewrite (proj2 (Z.ltb_ge _ _)) by lia. rewrite <- Hrest. f_equal.
  unfold frame_encode. rewrite <- app_assoc, drop_app_exact by lia.
  by rewrite take_app_exact by lia.
Qed.

(** The consumer gets its frames whole and in order: the reader thread cuts a stream of
    well-formed returned frames into exactly the encodings of
    those frames, one per [DBUS_RECV]. *)
Theorem inbound_units_exact outs fuel :
  Forall frame_ok outs -> (length outs < fuel)%nat ->
  drain_inbound fuel (flat_map frame_encode outs) = map frame_encode outs.
Proof.
  intros Ho. revert fuel. induction Ho as [|f outs Hf _ IH]; intros fuel Hl; cbn [flat_map map].
  - by destruct fuel.
  - destruct fuel as [|fuel]; [lia|]. cbn in Hl. rewrite drain_one by done. f_equal. apply IH. lia.
Qed.

(** The pull of a session policy as the daemon answers it. *)
Definition daemon_pull (d : daemon) (ref : bytes) : option bytes :=
  match mesh_get_session_policy (Some {| me_broker_service := DBUS_BROKER_SERVICE;
                                         me_policy := session_policy_for (dm_reg d) |})
          {| in_code := GET_SESSION_POLICY; in_data := ref; in_sender_pid := 0 |} with
  | RData bs => Some bs
  | _ => None
  end.

(** The rules of a settled policy for the bus of a capability. *)
Definition policy_rules (p : SettledPolicy) (bus : Bus) : option BusRules :=
  r ← (match bus with Session => du_session (sp_dbus p) | System => du_system (sp_dbus p) end);
  Some {| br_talk := db_talk r; br_call := db_call r; br_broadcast := db_broadcast r;
          br_own := db_own r; br_deny_talk := db_deny_talk r |}.
Definition texts_ok (l : list bytes) : Prop := names_ok l /\ Forall bytes_ok l.
Definition policy_names_ok (p : SettledPolicy) : Prop :=
  forall bus r, policy_rules p bus = Some r ->
    texts_ok (br_talk r) /\ texts_ok (br_call r) /\ texts_ok (br_broadcast r) /\ texts_ok (br_own r) /\
    texts_ok (br_deny_talk r).
Definition bus_filter (bus : Bus) (r : BusRules) : Filter :=
  match bus with
  | Session => {| fi_session := Some r; fi_system := None |}
  | System => {| fi_session := None; fi_system := Some r |}
  end.
Definition bus_capability (bus : Bus) : bytes :=
  match bus with Session => CAPABILITY_SESSION | System => CAPABILITY_SYSTEM end.

Lemma put_str_list_ok l : Forall bytes_ok l -> bytes_ok (put_str_list l).
Proof.
  intros H. unfold put_str_list, put_list, bytes_ok. apply Forall_app. split; [apply be_bytes_ok|].
  apply Forall_flat_map. eapply Forall_impl; [done|]. intros x Hx. cbv beta. unfold BinderWire.put_str.
  apply Forall_app. split; [apply be_bytes_ok|by apply Forall_take].
Qed.

Lemma accept_roundtrip bus r :
  0 <= bus <= 1 -> texts_ok (br_talk r) -> texts_ok (br_call r) -> texts_ok (br_broadcast r) ->
  texts_ok (br_own r) -> texts_ok (br_deny_talk r) ->
  let a := {| as_bus := bus; as_talk := br_talk r; as_call := br_call r; as_broadcast := br_broadcast r;
              as_own := br_own r; as_deny_talk := br_deny_talk r |} in
  broker_decode_accept (broker_encode_accept a) = Some a.
Proof.
  intros Hb [] [] [] [] [] a. apply (run_slice_exact broker_encode_accept _ accept_ok).
  - unfold broker_encode_accept, bytes_ok. cbn. constructor; [unfold byte_ok; lia|].
    rewrite !Forall_app. split_and!; by apply put_str_list_ok.
  - split; [done|]. unfold accept_ok. cbn. split_and!; [unfold byte_ok; lia|done..].
Qed.

(** A refusal of the pull is one status byte, which is no filter. *)
Lemma refusal_not_accepted b : broker_decode_accept [b] = None.
Proof. reflexivity. Qed.

Lemma daemon_pull_own requests stops d n m cap :
  rtc dstep (daemon_init requests stops) d -> rg_kennels (dm_reg d) !! n = Some m ->
  bytes_ok cap -> str_ok cap ->
  daemon_pull d (encode_ref (km_ctx m) cap) =
    Some (match own_artefact m cap with Some bs => bs | None => [STATUS_NOT_FOUND] end).
Proof.
  intros Hd Hn Hb Hc. unfold daemon_pull, mesh_get_session_policy. cbn [in_data me_policy].
  assert (decode_ref (encode_ref (km_ctx m) cap) = Some (km_ctx m, cap)) as ->.
  { unfold decode_ref. apply (run_slice_exact put_ref _ ref_ok); [by apply encode_ref_ok|].
    split; [done|]. split; [|done]. apply (registered_range requests stops d n m Hd) in Hn.
    unfold MAX_V4_CTX in Hn. cbn. in_range. }
  rewrite (session_policy_registered requests stops d n m cap Hd Hn). by destruct (own_artefact m cap).
Qed.

Lemma pulled_policy m cap acc :
  (forall p, km_settled m = Some p -> policy_names_ok p) ->
  broker_decode_accept (match own_artefact m cap with Some bs => bs | None => [STATUS_NOT_FOUND] end) = Some acc ->
  exists p rules, km_settled m = Some p /\ cap = bus_capability (session_bus acc) /\
    policy_rules p (session_bus acc) = Some rules /\ session_filter acc = bus_filter (session_bus acc) rules.
Proof.
  intros Hok. unfold own_artefact. destruct (km_settled m) as [p|] eqn:Ep; [|done]. cbn.
  unfold capability_bus. intros H.
  assert (forall bus r, policy_rules p bus = Some r ->
    broker_decode_accept (broker_encode_accept {| as_bus := match bus with Session => 0 | System => 1 end;
      as_talk := br_talk r; as_call := br_call r; as_broadcast := br_broadcast r; as_own := br_own r;
      as_deny_talk := br_deny_talk r |}) = Some {| as_bus := match bus with Session => 0 | System => 1 end;
      as_talk := br_talk r; as_call := br_call r; as_broadcast := br_broadcast r; as_own := br_own r;
      as_deny_talk := br_deny_talk r |}) as Hrt.
  { intros bus r Hr. destruct (Hok p eq_refl _ _ Hr) as (? & ? & ? & ? & ?).
    apply accept_roundtrip; try done. destruct bus; lia. }
  repeat case_bool_decide; cbn in H; [..|done].
  - destruct (du_session (sp_dbus p)) as [r|] eqn:Er; [|done]. cbn in H.
    assert (policy_rules p Session = Some {| br_talk := db_talk r; br_call := db_call r;
      br_broadcast := db_broadcast r; br_own := db_own r; br_deny_talk := db_deny_talk r |}) as Hr
      by (unfold policy_rules; by rewrite Er).
    pose proof (eq_trans (eq_sym H) (Hrt Session _ Hr)) as [= ->].
    eexists p, _. split_and!; [done..|reflexivity].
  - destruct (du_system (sp_dbus p)) as [r|] eqn:Er; [|done]. cbn in H.
    assert (policy_rules p System = Some {| br_talk := db_talk r; br_call := db_call r;
      br_broadcast := db_broadcast r; br_own := db_own r; br_deny_talk := db_deny_talk r |}) as Hr
      by (unfold policy_rules; by rewrite Er).
    pose proof (eq_trans (eq_sym H) (Hrt System _ Hr)) as [= ->].
    eexists p, _. split_and!; [done..|reflexivity].
Qed.

Lemma permitted_bus bus r c : permitted (bus_filter bus r) c -> ca_bus c = bus.
Proof. intros (_ & r' & Hr & _). by destruct bus, (ca_bus c). Qed.

Lemma decoded_ref data ctx cap : bytes_ok data -> decode_ref data = Some (ctx, cap) -> in_u16 ctx /\ bytes_ok cap /\ str_ok cap.
Proof.
  intros Hd H. unfold decode_ref in H. apply (run_slice_exact put_ref _ ref_ok) in H as [-> [Hc Hs]]; [|done]. split_and!; [done| |done].
  unfold put_ref, encode_ref in Hd. cbn [fst snd] in Hd, Hs. unfold BinderWire.put_str, bytes_ok in *. rewrite !Forall_app in Hd.
  destruct Hd as [_ [_ Hd]]. destruct Hs as [Hl _]. rewrite take_ge in Hd; [done|]. unfold sat_u16. rewrite Z.min_l by done. lia.
Qed.
(** A pull that yields a filter is for a registered kennel. *)
Lemma pull_registered requests stops d ctx cap acc :
  rtc dstep (daemon_init requests stops) d -> in_u16 ctx -> bytes_ok cap -> str_ok cap ->
  daemon_pull d (encode_ref ctx cap) ≫= broker_decode_accept = Some acc ->
  exists n m, rg_kennels (dm_reg d) !! n = Some m /\ km_ctx m = ctx.
Proof.
  intros Hd Hctx Hb Hc H. unfold daemon_pull, mesh_get_session_policy in H. cbn [in_data me_policy] in H.
  assert (decode_ref (encode_ref ctx cap) = Some (ctx, cap)) as E.
  { unfold decode_ref. apply (run_slice_exact put_ref _ ref_ok); [by apply encode_ref_ok|]. by split. }
  rewrite E in H. unfold session_policy_for in H. destruct (List.find _ _) as [[n m]|] eqn:Ef; [|done].
  apply find_Some_first in Ef as [Hin He%Z.eqb_eq]. apply elem_of_entries in Hin. by exists n, m.
Qed.

(** The transactions of a broker: their data are bytes, and each pull they make is answered by the daemon
    in a state it can reach, whose policies fit the wire. *)
Definition answered (requests stops : list bytes) (vs : list broker_event) : Prop :=
  forall e i, EvTransact e i ∈ vs -> bytes_ok (bi_data i) /\
    exists d, rtc dstep (daemon_init requests stops) d /\ ev_pull e = daemon_pull d /\
      forall n m p, rg_kennels (dm_reg d) !! n = Some m -> km_settled m = Some p -> policy_names_ok p.

(** C7: A consumer's traffic on the operator's bus is held to its own signed policy, end to end.  After any
    sequence of transactions, releases and returned frames, for a session of the broker that mediates,
    and whatever the bus sends and however the reads are cut: the session was minted for a context and
    a capability, and the mediation was started by a frame sent to its own node, when the daemon had a
    kennel registered under that context whose settled policy enables the bus of that capability; what
    it was given is what was sent to its own node since; and each message it puts on the bus is its
    [Hello] or rebuilds a call for that bus, among the frames it read of that, which the rules of that
    policy permit. *)
Theorem consumer_traffic_policed {E} (marshal : Z -> MessageType -> list enc_call -> Z -> result E bytes)
    requests stops vs k s c hello ins msg :
  answered requests stops vs ->
  bk_sessions (broker_run vs) !! k = Some s -> se_conduit s = Some c -> Forall input_ok ins ->
  let l := run_rounds marshal ins (mediate_init (co_bus c) (co_filter c) hello) in
  lo_received l `prefix_of` co_to_mediate c -> msg ∈ lo_sent l ->
  exists before mint idle e i rest d n m p rules,
    vs = before ++ mint :: idle ++ EvTransact e i :: rest /\ mints mint (se_ctx s) (se_capability s) /\
    bi_node_cookie i = k /\ co_to_mediate c = flat_map (sends k) (EvTransact e i :: rest) /\
    rtc dstep (daemon_init requests stops) d /\ ev_pull e = daemon_pull d /\
    rg_kennels (dm_reg d) !! n = Some m /\ km_ctx m = se_ctx s /\ km_settled m = Some p /\
    se_capability s = bus_capability (co_bus c) /\ policy_rules p (co_bus c) = Some rules /\
    (msg = hello \/
     exists call serial, FCall call ∈ stream_frames (lo_received l) /\ ca_bus call = co_bus c /\
       permitted (bus_filter (co_bus c) rules) call /\ reconstruct_call marshal call serial = Ok msg).
Proof.
  intros Ha Hs Hcon Hi l Hpre Hm. apply broker_history in Hs as (before & mint & after & -> & Hk & Hmint & H).
  destruct (H c Hcon) as (idle & start & rest & -> & (e & i & acc & -> & Hn & _ & Hpull & Hbus & Hfil) & Hto).
  destruct (Ha e i) as (_ & d & Hd & He & Hnames); [set_solver|].
  assert (in_u16 (se_ctx s) /\ bytes_ok (se_capability s) /\ str_ok (se_capability s)) as (Hc1 & Hc2 & Hc3).
  { destruct Hmint as (e' & i' & -> & _ & _ & Href). destruct (Ha e' i') as [Hb _]; [set_solver|]. by eapply decoded_ref. }
  rewrite He in Hpull. destruct (pull_registered _ _ _ _ _ _ Hd Hc1 Hc2 Hc3 Hpull) as (n & m & Hreg & Hctx).
  rewrite <- Hctx, (daemon_pull_own requests stops d n m _ Hd Hreg Hc2 Hc3) in Hpull. cbn in Hpull.
  apply pulled_policy in Hpull as (p & rules & Hp & Hcap & Hr & Hf); [|by intros ? ?; eapply Hnames].
  exists before, mint, idle, e, i, rest, d, n, m, p, rules. rewrite Hbus. split_and!; try done.
  destruct (session_message marshal hello (co_bus c) (co_filter c) ins Hi msg Hm) as [->|(call & serial & Hin & Hperm & Hrec)]; [by left|right].
  rewrite Hfil, Hf in Hperm. exists call, serial. rewrite <- Hbus in *. split_and!; [done| |done|done].
  by eapply permitted_bus.
Qed.

(** ** Witnesses *)

Definition desk_policy : SettledPolicy := let p := sample_template in {|
  sp_settled_schema_version := sp_settled_schema_version p; sp_name := sp_name p;
  sp_deferred_substitutions := sp_deferred_substitutions p;
  sp_framework_invariants_asserted := sp_framework_invariants_asserted p;
  sp_effective_policy := sp_effective_policy p; sp_provenance := sp_provenance p;
  sp_ssh := sp_ssh p; sp_unix := sp_unix p; sp_identity := sp_identity p; sp_mesh := sp_mesh p;
  sp_service := sp_service p;
  sp_dbus := {| du_audit_level := None;
    du_session := Some {| db_talk := br_talk notify_rules; db_call := []; db_broadcast := []; db_own := [];
                          db_deny_talk := br_deny_talk notify_rules |};
    du_system := None |};
  sp_audit := sp_audit p; sp_env := sp_env p; sp_ulimits := sp_ulimits p;
  sp_workload := sp_workload p; sp_rootfs := sp_rootfs p; sp_spawn := sp_spawn p; sp_manifest := sp_manifest p |}.
Definition build_name : bytes := ascii_bytes "build".
Definition starting_daemon : daemon := default two_names (take_turns two_names [TRun 0 41]).
Definition desk_daemon : daemon :=
  with_run starting_daemon 0 (RStarting build_name 1) (set_settled (dm_reg starting_daemon) build_name desk_policy).
Definition desk_meta : KennelMeta :=
  {| km_ctx := 1; km_pid := None; km_broker := None; km_consumed := []; km_settled := Some desk_policy |}.

Lemma desk_reachable : rtc dstep two_names desk_daemon.
Proof.
  eapply rtc_r.
  - apply (take_turns_sound _ [TRun 0 41]). vm_compute. reflexivity.
  - apply d_settled. vm_compute. reflexivity.
Qed.

Lemma desk_registered : rg_kennels (dm_reg desk_daemon) !! build_name = Some desk_meta.
Proof. vm_compute. reflexivity. Qed.

Definition desk_env : env := {| ev_pull := daemon_pull desk_daemon; ev_pair := true; ev_node := true; ev_write := true |}.
Definition mint_event : broker_event := EvTransact desk_env
  {| bi_node_cookie := 1; bi_code := NEW_SESSION; bi_data := encode_ref 1 CAPABILITY_SESSION |}.
Definition send_event (bs : bytes) : broker_event := EvTransact desk_env
  {| bi_node_cookie := 2; bi_code := DBUS_SEND; bi_data := bs |}.
Definition desk_conduit (bs : bytes) : Conduit :=
  {| co_bus := Session; co_filter := notify_filter; co_to_mediate := bs; co_inbound := [] |}.
Definition desk_session (bs : bytes) : BrokerSession :=
  {| se_ctx := 1; se_capability := CAPABILITY_SESSION; se_conduit := Some (desk_conduit bs) |}.

Lemma broker_sessions_bound_witness :
  bk_sessions (broker_run [mint_event; send_event [1; 2]; send_event [3]]) !! 2 = Some (desk_session [1; 2; 3]) /\
  session_history [mint_event; send_event [1; 2]; send_event [3]] 2 (desk_session [1; 2; 3]).
Proof.
  assert (bk_sessions (broker_run [mint_event; send_event [1; 2]; send_event [3]]) !! 2 =
          Some (desk_session [1; 2; 3])) as H by (vm_compute; reflexivity).
  split; [exact H|]. exact (proj2 (broker_sessions_bound _ _ _ H)).
Defined.

Lemma desk_names_ok : policy_names_ok desk_policy.
Proof.
  assert (forall l, bool_decide (blen l <= u16_max) && forallb (fun s => bool_decide (blen s <= u16_max) && utf8_ok s) l = true ->
    Forall bytes_ok l -> texts_ok l) as Ht.
  { intros l [?%bool_decide_eq_true_1 H]%andb_true_iff Hb. split; [|done]. split; [done|].
    apply Forall_forall. intros s Hs%list_elem_of_In. rewrite forallb_forall in H.
    apply H, andb_true_iff in Hs as [?%bool_decide_eq_true_1 ?]. done. }
  intros [] r; cbn; intros [= <-]; cbn [br_talk br_call br_broadcast br_own br_deny_talk].
  split_and!; apply Ht; try (vm_compute; reflexivity);
    unfold bytes_ok, byte_ok; apply (bool_decide_unpack _); vm_compute; exact I.
Qed.

(** The bytes of the rounds, sent to the session's node in two frames. *)
Definition desk_events : list broker_event :=
  let sent := lo_received (run_rounds toy_marshal cut_rounds (mediate_init Session notify_filter [1])) in
  [mint_event; send_event (take 3 sent); send_event (drop 3 sent)].
Definition event_bytes (v : broker_event) : bytes := match v with EvTransact _ i => bi_data i | _ => [] end.
Definition event_env (v : broker_event) : option env := match v with EvTransact e _ => Some e | _ => None end.
Lemma desk_bytes : Forall (fun v => bytes_ok (event_bytes v)) desk_events.
Proof.
  assert (forallb (fun v => forallb (fun b => (0 <=? b) && (b <? 256)) (event_bytes v)) desk_events = true) as H by (vm_compute; reflexivity).
  apply Forall_forall. intros v Hv%list_elem_of_In. rewrite forallb_forall in H. specialize (H v Hv).
  apply Forall_forall. intros b Hb%list_elem_of_In. rewrite forallb_forall in H. specialize (H b Hb). unfold byte_ok. lia.
Qed.
Lemma desk_answered : answered [build_name; ascii_bytes "deploy"] [] desk_events.
Proof.
  intros e i Hin. pose proof desk_bytes as Hb. rewrite Forall_forall in Hb. specialize (Hb _ Hin). cbn [event_bytes] in Hb.
  assert (e = desk_env) as ->.
  { assert (map event_env desk_events = replicate 3 (Some desk_env)) as H by reflexivity.
    apply (list_elem_of_fmap_2 event_env) in Hin. change (event_env <$> desk_events) with (map event_env desk_events) in Hin.
    rewrite H in Hin. apply elem_of_replicate_inv in Hin. by injection Hin. }
  split; [done|]. exists desk_daemon. split_and!; [exact desk_reachable|reflexivity|]. intros n m p Hn Hp.
  destruct (base.decide (n = build_name)) as [->|Hne].
  - rewrite desk_registered in Hn. injection Hn as <-. injection Hp as <-. exact desk_names_ok.
  - exfalso. assert (Hd : dom (rg_kennels (dm_reg desk_daemon)) = {[ build_name ]}) by (vm_compute; reflexivity).
    apply Hne. apply elem_of_dom_2 in Hn. rewrite Hd in Hn. by apply elem_of_singleton in Hn.
Qed.
Lemma consumer_traffic_policed_witness :
  exists rules call serial, ca_bus call = Session /\ permitted (bus_filter Session rules) call /\
    reconstruct_call toy_marshal call serial = Ok (be_bytes 4 2 ++ be_bytes 4 12).
Proof.
  destruct (consumer_traffic_policed toy_marshal [build_name; ascii_bytes "deploy"] [] desk_events 2
    (default (desk_session []) (bk_sessions (broker_run desk_events) !! 2))
    (default (desk_conduit []) (bk_sessions (broker_run desk_events) !! 2 ≫= se_conduit)) [1] cut_rounds
    (be_bytes 4 2 ++ be_bytes 4 12)) as (? & ? & ? & ? & ? & ? & d & n & m & p & rules & Hvs & _ & _ & _ & _ & He & Hr & Hm & Hp & _ & Hru & Hmsg).
  - exact desk_answered.
  - vm_compute. reflexivity.
  - vm_compute. reflexivity.
  - exact cut_rounds_ok.
  - vm_compute. exists []. reflexivity.
  - vm_compute. right. left.
  - destruct Hmsg as [Hmsg|(call & serial & _ & Hb & Hpm & Hrc)]; [discriminate Hmsg|]. exists rules, call, serial. split_and!; assumption.
Defined.

Lemma inbound_units_exact_witness :
  drain_inbound 3 (flat_map frame_encode [FCall notify_call; FCall disks_call]) =
    map frame_encode [FCall notify_call; FCall disks_call].
Proof.
  apply (inbound_units_exact [FCall notify_call; FCall disks_call] 3).
  - apply (bool_decide_unpack _). vm_compute. exact I.
  - repeat constructor.
Defined.
