(* ===== verification/DbusFacade.v ===== *)
(** The in-kennel side of the D-Bus mediation, and its rate limiter.

    - [kennel-lib-dbus/src/sasl.rs]: the server of the authentication exchange.
    - [kennel-lib-dbus/src/server.rs]: the connection of one workload; the D-Bus
      decoder ([mini-sansio-dbus]) is a parameter, a state with what it wants to
      read next and what it makes of the bytes.
    - [kennel-lib-binder/src/ratelimit.rs]: the token bucket.

    Theorems: which calls the facade forwards and what it answers itself; the
    raw body it forwards; the decoder loop consumes all it is given; where the
    bytes after [BEGIN] go; the rate the bucket admits. *)

From stdpp Require Import gmap sorting.
From S2P Require Import Prelude Bytes Str Cursor DbusWire Dbus.
Open Scope Z_scope.

(** ** The authentication exchange *)

Definition MAX_LINE : Z := 16 * 1024.
Definition SPACE : Z := 32.
Definition CRLF : bytes := [13; 10].
Definition SERVER_GUID : bytes := ascii_bytes "00000000000000000000000000000000".

Inductive SaslError : Type := LineTooLong | BeginBeforeAuth | NotAscii.
Inductive SaslPhase : Type := WaitNul | Unauthed | Authed.
Global Instance sasl_phase_eq_dec : EqDecision SaslPhase.
Proof. solve_decision. Defined.
Record SaslServer : Type := { sa_phase : SaslPhase; sa_line : bytes }.
Definition sasl_new : SaslServer := {| sa_phase := WaitNul; sa_line := [] |}.
Inductive Outcome : Type :=
  | OContinue (reply : bytes)
  | OBegin (reply leftover : bytes).
Inductive LineResult : Type := LContinue | LBegin.

Definition REJECTED : bytes := ascii_bytes "REJECTED EXTERNAL ANONYMOUS" ++ CRLF.

(** [SaslServer::handle] on one complete line: the phase after it, the reply and whether it is
    [BEGIN]. *)
Definition sasl_handle (phase : SaslPhase) (command : bytes) :
    result SaslError (SaslPhase * bytes * LineResult) :=
  let words := split_on SPACE command in
  let keyword := default [] (words !! 0%nat) in
  if bool_decide (keyword = ascii_bytes "AUTH") then
    let mech := default [] (words !! 1%nat) in
    if bool_decide (mech = ascii_bytes "EXTERNAL") || bool_decide (mech = ascii_bytes "ANONYMOUS")
    then Ok (Authed, ascii_bytes "OK " ++ SERVER_GUID ++ CRLF, LContinue)
    else Ok (phase, REJECTED, LContinue)
  else if bool_decide (keyword = ascii_bytes "NEGOTIATE_UNIX_FD") then
    Ok (phase, ascii_bytes "ERROR unix fd passing not available" ++ CRLF, LContinue)
  else if bool_decide (keyword = ascii_bytes "CANCEL") then Ok (Unauthed, REJECTED, LContinue)
  else if bool_decide (keyword = ascii_bytes "BEGIN") then
    if bool_decide (phase = Authed) then Ok (phase, [], LBegin) else Err BeginBeforeAuth
  else if bool_decide (keyword = ascii_bytes "ERROR") then Ok (phase, REJECTED, LContinue)
  else Ok (phase, ascii_bytes "ERROR unknown command" ++ CRLF, LContinue).

(** [find_subslice]: the first occurrence. *)
Definition find_subslice (haystack needle : bytes) : option nat :=
  if is_nil needle || (length haystack <? length needle)%nat then None
  else List.find (fun i => bool_decide (take (length needle) (drop i haystack) = needle))
         (seq 0 (S (length haystack - length needle))).
Definition drain_after_begin (input begin_line : bytes) : bytes :=
  let needle := begin_line ++ CRLF in
  match find_subslice input needle with
  | Some at_ => drop (at_ + length needle) input
  | None => []
  end.

(** The loop of [push]: [input] is the whole of this push, [rest] what is left of it. *)
Fixpoint sasl_loop (input rest : bytes) (s : SaslServer) (reply : bytes) :
    result SaslError (Outcome * SaslServer) :=
  match rest with
  | [] => Ok (OContinue reply, s)
  | byte :: rest =>
      if MAX_LINE <=? blen (sa_line s) then Err LineTooLong else
      let line := sa_line s ++ [byte] in
      match strip_suffix CRLF line with
      | None => sasl_loop input rest {| sa_phase := sa_phase s; sa_line := line |} reply
      | Some line_bytes =>
          match from_utf8 line_bytes with
          | None => Err NotAscii
          | Some command =>
              match sasl_handle (sa_phase s) command with
              | Err e => Err e
              | Ok (phase, more, LContinue) =>
                  sasl_loop input rest {| sa_phase := phase; sa_line := [] |} (reply ++ more)
              | Ok (phase, more, LBegin) =>
                  Ok (OBegin (reply ++ more) (drain_after_begin input command),
                      {| sa_phase := phase; sa_line := [] |})
              end
          end
      end
  end.

Definition sasl_push (s : SaslServer) (data : bytes) : result SaslError (Outcome * SaslServer) :=
  match sa_phase s with
  | WaitNul =>
      match data with
      | [] => Ok (OContinue [], s)
      | first :: rest =>
          if negb (first =? 0) then Err NotAscii
          else sasl_loop rest rest {| sa_phase := Unauthed; sa_line := sa_line s |} []
      end
  | _ => sasl_loop data data s []
  end.

(** ** The workload's connection *)

Definition BUS_DRIVER : bytes := ascii_bytes "org.freedesktop.DBus".
Definition WORKLOAD_UNIQUE_NAME : bytes := ascii_bytes ":1.0".

Definition marshal_string (s : bytes) : bytes := le_bytes 4 (sat_u32 (blen s)) ++ s ++ [0].

Inductive Action : Type := ToWorkload (m : bytes) | ToDelegate (f : Frame).
Inductive FacadeError {E D : Type} : Type :=
  | FSasl (e : SaslError)
  | FDecode (e : D)
  | FMessage (e : MessageError E).
Arguments FacadeError : clear implicits.

Definition take_serial (s : Z) : Z := if s =? u32_max then 1 else s + 1.
Definition hello_reply (serial : Z) : Reply :=
  {| re_reply_serial := serial; re_signature := ascii_bytes "s"; re_body_endian := LE;
     re_body := marshal_string WORKLOAD_UNIQUE_NAME |}.
Definition refusal (m : IncomingMessage) (destination : bytes) : ErrorReply :=
  {| er_reply_serial := im_serial m; er_name := ACCESS_DENIED;
     er_message := destination ++ ascii_bytes " is refused to brokering by Project Kennel" |}.

Definition map_msg {E D A} (r : result (MessageError E) A) : result (FacadeError E D) A :=
  match r with Ok a => Ok a | Err e => Err (FMessage e) end.

Section facade.
Context {E D : Type} (marshal : Z -> MessageType -> list enc_call -> Z -> result E bytes).
(** The decoder: how many bytes it wants next, and what it makes of bytes it is given, with
    the read buffer as it then stands. *)
Context {conn : Type} (wants : conn -> result D Z)
        (satisfy_read : conn -> bytes -> result D (conn * bytes * option IncomingMessage)).

(** [handle_message]: the action, and the serial counter after it. *)
Definition handle_message (m : IncomingMessage) (readbuf : bytes) (bus : Bus) (out_serial : Z) :
    result (FacadeError E D) (option Action * Z) :=
  if negb (bool_decide (im_type m = MethodCall)) then Ok (None, out_serial) else
  let destination := default [] (im_destination m) in
  if bool_decide (destination = BUS_DRIVER) && bool_decide (im_member m = Some (ascii_bytes "Hello")) then
    bytes ← map_msg (reconstruct_return marshal (hello_reply (im_serial m)) out_serial (Some WORKLOAD_UNIQUE_NAME));
    Ok (Some (ToWorkload bytes), take_serial out_serial)
  else if is_refused destination then
    bytes ← map_msg (reconstruct_error marshal (refusal m destination) out_serial (Some WORKLOAD_UNIQUE_NAME));
    Ok (Some (ToWorkload bytes), take_serial out_serial)
  else
    '(body_endian, body) ← map_msg (body_slice readbuf);
    Ok (Some (ToDelegate (FCall {|
          ca_bus := bus; ca_serial := im_serial m; ca_no_reply := false; ca_destination := destination;
          ca_path := default [] (im_path m); ca_interface := default [] (im_interface m);
          ca_member := default [] (im_member m); ca_signature := default [] (im_signature m);
          ca_body_endian := body_endian; ca_body := body |})), out_serial).

Record Facade : Type := {
  fa_bus : Bus; fa_running : bool; fa_sasl : SaslServer; fa_conn : conn; fa_pending : bytes;
  fa_out_serial : Z;
}.
Definition facade_new (bus : Bus) (c : conn) : Facade :=
  {| fa_bus := bus; fa_running := false; fa_sasl := sasl_new; fa_conn := c; fa_pending := [];
     fa_out_serial := 1 |}.

(** [drive_decoder]; [None] only when the fuel runs out. *)
Fixpoint drive_decoder (fuel : nat) (f : Facade) (actions : list Action) :
    option (result (FacadeError E D) (list Action * Facade)) :=
  match fuel with
  | O => None
  | S fuel =>
      match wants (fa_conn f) with
      | Err e => Some (Err (FDecode e))
      | Ok want =>
          let n := Z.to_nat (Z.min want (blen (fa_pending f))) in
          match n with
          | O => Some (Ok (actions, f))
          | _ =>
              match satisfy_read (fa_conn f) (take n (fa_pending f)) with
              | Err e => Some (Err (FDecode e))
              | Ok (c, readbuf, completed) =>
                  match match completed with
                        | None => Ok (None, fa_out_serial f)
                        | Some m => handle_message m readbuf (fa_bus f) (fa_out_serial f)
                        end with
                  | Err e => Some (Err e)
                  | Ok (action, serial) =>
                      drive_decoder fuel
                        {| fa_bus := fa_bus f; fa_running := fa_running f; fa_sasl := fa_sasl f; fa_conn := c;
                           fa_pending := drop n (fa_pending f); fa_out_serial := serial |}
                        (actions ++ option_list action)
                  end
              end
          end
      end
  end.

Definition push_write (actions : list Action) (bs : bytes) : list Action :=
  if is_nil bs then actions else actions ++ [ToWorkload bs].

Definition on_workload_bytes (f : Facade) (data : bytes) :
    option (result (FacadeError E D) (list Action * Facade)) :=
  if fa_running f then
    let pending := fa_pending f ++ data in
    drive_decoder (S (length pending))
      {| fa_bus := fa_bus f; fa_running := true; fa_sasl := fa_sasl f; fa_conn := fa_conn f;
         fa_pending := pending; fa_out_serial := fa_out_serial f |} []
  else match sasl_push (fa_sasl f) data with
  | Err e => Some (Err (FSasl e))
  | Ok (OContinue reply, s) =>
      Some (Ok (push_write [] reply,
        {| fa_bus := fa_bus f; fa_running := false; fa_sasl := s; fa_conn := fa_conn f;
           fa_pending := fa_pending f; fa_out_serial := fa_out_serial f |}))
  | Ok (OBegin reply leftover, s) =>
      let pending := fa_pending f ++ leftover in
      drive_decoder (S (length pending))
        {| fa_bus := fa_bus f; fa_running := true; fa_sasl := s; fa_conn := fa_conn f;
           fa_pending := pending; fa_out_serial := fa_out_serial f |} (push_write [] reply)
  end.

(** [on_delegate_frame]: the serial is taken before the frame is looked at. *)
Definition on_delegate_frame (f : Facade) (frame : Frame) :
    result (FacadeError E D) (list Action) * Z :=
  let serial := fa_out_serial f in
  (match frame with
   | FReply r => bytes ← map_msg (reconstruct_return marshal r serial (Some WORKLOAD_UNIQUE_NAME));
                 Ok [ToWorkload bytes]
   | FError e => bytes ← map_msg (reconstruct_error marshal e serial (Some WORKLOAD_UNIQUE_NAME));
                 Ok [ToWorkload bytes]
   | FSignal s => bytes ← map_msg (reconstruct_signal marshal s serial); Ok [ToWorkload bytes]
   | FCall _ => Ok []
   end, take_serial serial).

End facade.
Arguments Facade : clear implicits.

(** ** The rate limiter *)

Definition TOKEN : Z := 1000.
Record RateLimiter : Type := {
  rl_capacity : Z; rl_tokens : Z; rl_refill_per_ms : Z; rl_last_ms : Z; rl_started : bool;
}.
Definition limiter_new (per_second burst : Z) : RateLimiter :=
  let capacity := sat_mul u64_max burst TOKEN in
  {| rl_capacity := capacity; rl_tokens := capacity; rl_refill_per_ms := per_second;
     rl_last_ms := 0; rl_started := false |}.
Definition allow (r : RateLimiter) (now_ms : Z) : bool * RateLimiter :=
  let tokens :=
    if rl_started r
    then Z.min (rl_capacity r)
           (sat_add u64_max (rl_tokens r)
              (sat_mul u64_max (rl_refill_per_ms r) (sat_sub now_ms (rl_last_ms r))))
    else rl_tokens r in
  let ok := TOKEN <=? tokens in
  (ok, {| rl_capacity := rl_capacity r; rl_tokens := if ok then sat_sub tokens TOKEN else tokens;
          rl_refill_per_ms := rl_refill_per_ms r; rl_last_ms := now_ms; rl_started := true |}).

(** The messages admitted of a sequence of attempts at the given times. *)
Fixpoint admitted (r : RateLimiter) (times : list Z) : Z :=
  match times with
  | [] => 0
  | t :: times => let '(ok, r) := allow r t in (if ok then 1 else 0) + admitted r times
  end.

(** * The bucket *)

Definition end_time (t : Z) (times : list Z) : Z := List.last times t.

Lemma end_time_cons t u times : end_time t (u :: times) = end_time u times.
Proof.
  unfold end_time. destruct times as [|x times]; [done|].
  cbn [List.last]. revert x. induction times as [|y times IH]; intros x; [done|]. cbn [List.last]. apply IH.
Qed.

Lemma admitted_bound r times :
  rl_started r = true -> 0 <= rl_capacity r -> 0 <= rl_tokens r -> 0 <= rl_refill_per_ms r ->
  Sorted Z.le (rl_last_ms r :: times) ->
  TOKEN * admitted r times <= rl_tokens r + rl_refill_per_ms r * (end_time (rl_last_ms r) times - rl_last_ms r).
Proof.
  revert r. induction times as [|t times IH]; intros r Hs Hc Ht Hr Hsort.
  - unfold end_time. cbn. lia.
  - apply Sorted_inv in Hsort as [Hsort Hle]. apply HdRel_inv in Hle. rewrite end_time_cons.
    cbn [admitted]. unfold allow. rewrite Hs. set (tok := Z.min _ _).
    assert (0 <= rl_refill_per_ms r * (t - rl_last_ms r)) as Hp by (apply Z.mul_nonneg_nonneg; lia).
    assert (0 <= tok <= rl_tokens r + rl_refill_per_ms r * (t - rl_last_ms r)) as Htok.
    { unfold tok, sat_add, sat_mul, sat_sub. rewrite (Z.max_r 0) by lia. unfold u64_max in *. lia. }
    set (r' := {| rl_capacity := _ |}).
    assert (0 <= rl_tokens r' <= tok - (if TOKEN <=? tok then TOKEN else 0)) as Hr'.
    { unfold r', sat_sub. cbn. case_match; zbool; unfold TOKEN in *; lia. }
    specialize (IH r' eq_refl Hc ltac:(lia) Hr Hsort).
    change (rl_refill_per_ms r') with (rl_refill_per_ms r) in IH. change (rl_last_ms r') with t in IH.
    destruct (TOKEN <=? tok); unfold TOKEN in *; lia.
Qed.

Lemma admitted_burst r n t :
  rl_started r = true -> rl_last_ms r = t -> TOKEN * Z.of_nat n <= rl_tokens r <= rl_capacity r ->
  rl_capacity r <= u64_max -> admitted r (replicate n t) = Z.of_nat n.
Proof.
  revert r. induction n as [|n IH]; intros r Hs Hl Ht Hc; [done|]. cbn [replicate admitted]. unfold allow.
  rewrite Hs, Hl. set (tok := Z.min _ _).
  assert (tok = rl_tokens r) as Htok.
  { unfold tok, sat_add, sat_mul, sat_sub. rewrite Z.sub_diag, Z.max_id, Z.mul_0_r.
    unfold TOKEN, u64_max in *. lia. }
  rewrite Htok, (proj2 (Z.leb_le _ _)) by (unfold TOKEN in *; lia).
  rewrite IH; [lia|done|done| |done]. cbn. unfold sat_sub, TOKEN in *. lia.
Qed.

(** The rate limiter keeps its promise for a clock that does not go back: of any attempts from
    time [t] on, at most the burst plus the sustained rate times the elapsed time are
    admitted. A burst at one instant passes whole up to the bucket's capacity, also with
    a sustained rate of zero. *)
Theorem rate_bound per_second burst t times n :
  in_u32 per_second -> in_u32 burst -> Sorted Z.le (t :: times) ->
  TOKEN * admitted (limiter_new per_second burst) (t :: times) <=
    TOKEN * burst + per_second * (end_time t times - t) /\
  (Z.of_nat n <= burst -> admitted (limiter_new per_second burst) (replicate n t) = Z.of_nat n).
Proof.
  intros Hp Hb Hsort. assert (sat_mul u64_max burst TOKEN = TOKEN * burst) as Hcap
    by (unfold sat_mul, TOKEN; in_range).
  split.
  - cbn [admitted]. unfold allow. cbn [limiter_new rl_started rl_tokens rl_capacity rl_refill_per_ms].
    rewrite Hcap. set (r' := {| rl_capacity := _ |}).
    assert (0 <= rl_tokens r' <= TOKEN * burst - (if TOKEN <=? TOKEN * burst then TOKEN else 0)) as Hr'.
    { unfold r', sat_sub. cbn [rl_tokens]. case_match; zbool; unfold TOKEN in *; in_range. }
    pose proof (admitted_bound r' times eq_refl ltac:(cbn; unfold TOKEN; in_range) ltac:(lia) ltac:(cbn; in_range) Hsort) as H.
    change (rl_refill_per_ms r') with per_second in H. change (rl_last_ms r') with t in H.
    destruct (TOKEN <=? TOKEN * burst); unfold TOKEN in *; lia.
  - intros Hn. destruct n as [|n]; [done|]. cbn [replicate admitted]. unfold allow.
    cbn [limiter_new rl_started rl_tokens rl_capacity rl_refill_per_ms]. rewrite Hcap.
    rewrite (proj2 (Z.leb_le _ _)) by (unfold TOKEN in *; lia).
    rewrite admitted_burst; [lia|done|done|..]; cbn; unfold sat_sub, TOKEN in *; in_range.
Qed.

Lemma rate_bound_witness :
  admitted (limiter_new 0 5) (replicate 5 7) = 5 /\ TOKEN * admitted (limiter_new 0 5) [7; 7; 9000] <= TOKEN * 5.
Proof.
  assert (Sorted Z.le [7; 7; 9000]) as Hs by (repeat constructor; discriminate).
  destruct (rate_bound 0 5 7 [7; 9000] 5) as [H1 H2]; [split; discriminate|split; discriminate|exact Hs|].
  split; [apply H2; discriminate|]. rewrite Z.mul_0_l, Z.add_0_r in H1. exact H1.
Defined.

(** * The authentication exchange *)

Definition BEGIN_LINE : bytes := ascii_bytes "BEGIN" ++ CRLF.

Lemma begin_splits p q : p ++ q = BEGIN_LINE -> exists k, (k <= 7)%nat /\ p = take k BEGIN_LINE /\ q = drop k BEGIN_LINE.
Proof.
  intros H. exists (length p). rewrite <- H. split_and!.
  - apply (f_equal length) in H. rewrite length_app in H. cbn in H. lia.
  - by rewrite take_app_length.
  - by rewrite drop_app_length.
Qed.

(** The rest of a [BEGIN] line, after [k] of its bytes. *)
Lemma begin_rest k input msg :
  (k < 7)%nat ->
  sasl_loop input (drop k BEGIN_LINE ++ msg) {| sa_phase := Authed; sa_line := take k BEGIN_LINE |} [] =
    Ok (OBegin [] (drain_after_begin input (ascii_bytes "BEGIN")), {| sa_phase := Authed; sa_line := [] |}).
Proof. intros Hk. do 7 (destruct k as [|k]; [reflexivity|]). lia. Qed.

Lemma begin_start k input :
  (k < 7)%nat ->
  sasl_loop input (take k BEGIN_LINE) {| sa_phase := Authed; sa_line := [] |} [] =
    Ok (OContinue [], {| sa_phase := Authed; sa_line := take k BEGIN_LINE |}).
Proof. intros Hk. do 7 (destruct k as [|k]; [reflexivity|]). lia. Qed.

Lemma drain_begin msg : drain_after_begin (BEGIN_LINE ++ msg) (ascii_bytes "BEGIN") = msg.
Proof.
  unfold drain_after_begin, find_subslice. change (ascii_bytes "BEGIN" ++ CRLF) with BEGIN_LINE.
  change (is_nil BEGIN_LINE) with false. rewrite length_app, (proj2 (Nat.ltb_ge _ _)) by lia.
  cbn [orb seq List.find]. rewrite drop_0, take_app_length, bool_decide_true by done.
  by rewrite Nat.add_0_l, drop_app_length.
Qed.

Lemma sasl_eta s : sa_phase s = Authed -> sa_line s = [] -> s = {| sa_phase := Authed; sa_line := [] |}.
Proof. destruct s; cbn. by intros -> ->. Qed.

(** Where the first message goes: after authentication, a push that holds the whole [BEGIN] line
    hands on every byte after it; but when the line's bytes are split over two pushes,
    every byte that follows in the second push is dropped (unless another [BEGIN] line
    occurs among them), although the message phase has begun. *)
Theorem begin_leftover s p q msg :
  sa_phase s = Authed -> sa_line s = [] -> p ++ q = BEGIN_LINE -> q <> [] ->
  (p = [] -> sasl_push s (q ++ msg) = Ok (OBegin [] msg, {| sa_phase := Authed; sa_line := [] |})) /\
  (p <> [] -> find_subslice (q ++ msg) BEGIN_LINE = None ->
   exists s', sasl_push s p = Ok (OContinue [], s') /\
     sasl_push s' (q ++ msg) = Ok (OBegin [] [], {| sa_phase := Authed; sa_line := [] |})).
Proof.
  intros Hp Hl Hpq Hq. rewrite (sasl_eta s Hp Hl). apply begin_splits in Hpq as (k & Hk & -> & ->).
  assert (k < 7)%nat as Hk' by (destruct (base.decide (k = 7%nat)); [by subst|lia]). clear Hq Hk.
  split.
  - intros Hz. assert (k = 0%nat) as -> by (destruct k; [done|]; by destruct k). cbn [sasl_push sa_phase].
    rewrite drop_0 in *. pose proof (begin_rest 0 (BEGIN_LINE ++ msg) msg ltac:(lia)) as H.
    rewrite drop_0 in H. change (take 0 BEGIN_LINE) with (@nil Z) in H. by rewrite H, drain_begin.
  - intros _ Hf. exists {| sa_phase := Authed; sa_line := take k BEGIN_LINE |}. cbn [sasl_push sa_phase].
    rewrite begin_start, begin_rest by done. split; [done|]. unfold drain_after_begin.
    change (ascii_bytes "BEGIN" ++ CRLF) with BEGIN_LINE. by rewrite Hf.
Qed.

Lemma begin_leftover_witness :
  exists s', sasl_push {| sa_phase := Authed; sa_line := [] |} (ascii_bytes "BEG") = Ok (OContinue [], s') /\
    sasl_push s' (ascii_bytes "IN" ++ CRLF ++ [108; 1; 0; 1]) =
      Ok (OBegin [] [], {| sa_phase := Authed; sa_line := [] |}).
Proof.
  apply (begin_leftover {| sa_phase := Authed; sa_line := [] |} (ascii_bytes "BEG") (ascii_bytes "IN" ++ CRLF)
    [108; 1; 0; 1]); first [reflexivity | discriminate].
Defined.

Lemma sasl_loop_bounded input rest s reply o s' :
  blen (sa_line s) <= MAX_LINE -> sasl_loop input rest s reply = Ok (o, s') ->
  blen (sa_line s') <= MAX_LINE /\
  match o with OBegin _ _ => sa_phase s' = Authed /\ sa_line s' = [] | OContinue _ => True end.
Proof.
  revert s reply. induction rest as [|b rest IH]; intros s reply Hs; cbn.
  { by intros [= <- <-]. }
  destruct (MAX_LINE <=? blen (sa_line s)) eqn:El; zbool; [done|].
  destruct (strip_suffix CRLF (sa_line s ++ [b])) as [l|].
  2: { apply IH. cbn. rewrite length_app. cbn. lia. }
  destruct (from_utf8 l) as [command|]; [|done].
  destruct (sasl_handle (sa_phase s) command) as [[[ph more] []]|] eqn:Eh; [|..|done].
  - apply IH. cbn. unfold MAX_LINE. lia.
  - intros [= <- <-]. cbn. unfold MAX_LINE. split_and!; [lia| |done].
    revert Eh. unfold sasl_handle. repeat case_match; try done; intros [= <- <-]; by case_bool_decide.
Qed.

(** ** Claims about the connection *)

(** The exchange holds at most one line of 16 KiB per connection, whatever the workload pushes and
    however it is cut, and reaches the message phase only authenticated, with no part of a
    line left. *)
Theorem sasl_bounded s data o s' :
  blen (sa_line s) <= MAX_LINE -> sasl_push s data = Ok (o, s') ->
  blen (sa_line s') <= MAX_LINE /\
  match o with OBegin _ _ => sa_phase s' = Authed /\ sa_line s' = [] | OContinue _ => True end.
Proof.
  intros Hs. unfold sasl_push. destruct (sa_phase s) eqn:Ep; [|by apply sasl_loop_bounded..].
  destruct data as [|b rest]; [by intros [= <- <-]|]. case_match; [done|]. by apply sasl_loop_bounded.
Qed.

Lemma sasl_bounded_witness : blen (sa_line {| sa_phase := Unauthed; sa_line := ascii_bytes "AUT" |}) <= MAX_LINE.
Proof.
  apply (sasl_bounded sasl_new (0 :: ascii_bytes "AUT") (OContinue [])).
  - discriminate.
  - reflexivity.
Defined.

Section connection.
Context {E D : Type} (marshal : Z -> MessageType -> list enc_call -> Z -> result E bytes).
Context {conn : Type} (wants : conn -> result D Z)
        (satisfy_read : conn -> bytes -> result D (conn * bytes * option IncomingMessage)).

Lemma drive_total fuel (f : Facade conn) actions :
  (length (fa_pending f) < fuel)%nat -> drive_decoder marshal wants satisfy_read fuel f actions <> None.
Proof.
  revert f actions. induction fuel as [|fuel IH]; intros f actions Hl; [lia|]. cbn [drive_decoder].
  destruct (wants (fa_conn f)) as [want|]; [|done].
  destruct (Z.to_nat (Z.min want (blen (fa_pending f)))) as [|n] eqn:En; [done|].
  destruct (satisfy_read _ _) as [[[c readbuf] completed]|]; [|done].
  destruct (match completed with None => _ | Some m => _ end) as [[a serial]|]; [|done].
  apply IH. cbn. rewrite length_drop. lia.
Qed.

(** Feeding the facade any bytes ends: the decoder loop takes at least one byte of what is pending
    in every turn it does not end in, so as many turns as there are bytes are enough,
    whatever the decoder asks for. *)
Theorem facade_terminates (f : Facade conn) data :
  on_workload_bytes marshal wants satisfy_read f data <> None.
Proof.
  unfold on_workload_bytes. destruct (fa_running f); [apply drive_total; cbn; lia|].
  destruct (sasl_push (fa_sasl f) data) as [[[reply|reply leftover] s]|]; [done| |done].
  apply drive_total. cbn. lia.
Qed.

(** The facade forwards a decoded message exactly when it is a method call that is neither the
    bus driver's [Hello] nor to a refused name; what it forwards carries the message's
    own serial and header fields, empty where absent, for the facade's own bus, and the raw
    body. Refused names and [Hello] are answered by the facade and reach no conduit. *)
Theorem facade_forwards_exact m readbuf bus serial fr serial' :
  handle_message (D := D) marshal m readbuf bus serial = Ok (Some (ToDelegate fr), serial') <->
  im_type m = MethodCall /\
  ~ (im_destination m = Some BUS_DRIVER /\ im_member m = Some (ascii_bytes "Hello")) /\
  ~ refused (default [] (im_destination m)) /\
  serial' = serial /\
  exists en body, body_slice (E := E) readbuf = Ok (en, body) /\
    fr = FCall {| ca_bus := bus; ca_serial := im_serial m; ca_no_reply := false;
      ca_destination := default [] (im_destination m); ca_path := default [] (im_path m);
      ca_interface := default [] (im_interface m); ca_member := default [] (im_member m);
      ca_signature := default [] (im_signature m); ca_body_endian := en; ca_body := body |}.
Proof.
  unfold handle_message. rewrite <- is_refused_spec.
  assert (default [] (im_destination m) = BUS_DRIVER <-> im_destination m = Some BUS_DRIVER) as Hd.
  { destruct (im_destination m); cbn; [|done]. split; [by intros ->|by intros [= ->]]. }
  case_bool_decide as Ht; cbn [negb]; [|split; [done|by intros [? _]]].
  rewrite (bool_decide_ext _ _ Hd). case_bool_decide as H1; case_bool_decide as H2; cbn [andb].
  1: { split; [|by intros (_ & [] & _)]. destruct (reconstruct_return _ _ _ _); by intros [=]. }
  all: (destruct (is_refused _) eqn:Er;
    [split; [destruct (reconstruct_error _ _ _ _); by intros [=]|by intros (_ & _ & [] & _)]|]).
  all: destruct (body_slice readbuf) as [[en body]|] eqn:Eb; cbn;
    [|split; [by intros [=]|by intros (_ & _ & _ & _ & ? & ? & [=] & _)]].
  all: split; [intros [= <- <-]; split_and!; [done|by intros []|done|done|]; by exists en, body|].
  all: by intros (_ & _ & _ & -> & ? & ? & [= <- <-] & ->).
Qed.

End connection.

(** ** The raw body *)

(** A 32-bit header field of a D-Bus message, in the byte order its first byte names. *)
Definition wire_u32 (en v : Z) : bytes := if en =? BE then be_bytes 4 v else le_bytes 4 v.

Lemma length_wire_u32 en v : length (wire_u32 en v) = 4%nat.
Proof. unfold wire_u32. case_match; [apply length_be_bytes|apply length_le_bytes]. Qed.

Lemma read_wire_u32 en v :
  in_u32 v -> (if en =? BE then be_val (wire_u32 en v) else le_val (wire_u32 en v)) = v.
Proof.
  intros Hv. unfold wire_u32. destruct (en =? BE); [apply be_val_be_bytes|apply le_val_bytes]; in_range.
Qed.

(** The body the facade forwards is the message's own: for any message laid out as D-Bus lays it
    out, in either byte order, with whatever follows it in the read buffer, the located slice
    is the body, after the header fields padded to eight bytes. *)
Theorem body_slice_exact {E} en h3 serial fields pad body rest :
  length h3 = 3%nat -> length serial = 4%nat -> blen fields <= u32_max -> blen body <= u32_max ->
  16 + blen fields + blen pad = next_multiple_of_8 (16 + blen fields) ->
  body_slice (E := E) ((en :: h3) ++ wire_u32 en (blen body) ++ serial ++ wire_u32 en (blen fields) ++
                       fields ++ pad ++ body ++ rest) = Ok (en, body).
Proof.
  intros H3 Hs Hf Hb Hp.
  pose proof (length_wire_u32 en (blen body)) as Lb. pose proof (length_wire_u32 en (blen fields)) as Lf.
  set (wb := wire_u32 en (blen body)) in *. set (wf := wire_u32 en (blen fields)) in *.
  set (msg := (en :: h3) ++ _). unfold body_slice.
  assert (get_range msg 0 16 = Some ((en :: h3) ++ wb ++ serial ++ wf)) as ->.
  { apply (get_range_eq _ [] _ (fields ++ pad ++ body ++ rest)); [by unfold msg; rewrite <- !app_assoc|done|].
    rewrite !length_app. cbn [length]. lia. }
  cbn [app]. rewrite (get_range_eq msg (en :: h3) wb (serial ++ wf ++ fields ++ pad ++ body ++ rest) 4 (4 + 4));
    [|done|cbn [length]; lia|cbn [length]; lia]. cbn [mbind result_bind].
  rewrite (get_range_eq msg ((en :: h3) ++ wb ++ serial) wf (fields ++ pad ++ body ++ rest) 12 (12 + 4));
    [|by unfold msg; rewrite <- !app_assoc|rewrite ?length_app; cbn [length]; lia..].
  unfold wb, wf. rewrite !read_wire_u32 by in_range. fold wb wf. cbn [mbind result_bind]. rewrite <- Hp.
  assert (blen pad <= 8) as Hpad.
  { unfold next_multiple_of_8 in *. pose proof (Z.mul_div_le (16 + blen fields + 7) 8). lia. }
  rewrite !(proj2 (Z.ltb_ge _ _)) by in_range.
  by rewrite (get_range_eq msg ((en :: h3) ++ wb ++ serial ++ wf ++ fields ++ pad) body rest);
    [|by unfold msg; rewrite <- !app_assoc|rewrite ?length_app; cbn [length]; lia..].
Qed.

Lemma body_slice_exact_witness :
  body_slice (E := unit) ([66; 1; 0; 1] ++ [0; 0; 0; 2] ++ [0; 0; 0; 9] ++ [0; 0; 0; 3] ++ [7; 7; 7] ++
    [0; 0; 0; 0; 0] ++ [5; 6] ++ [99]) = Ok (66, [5; 6]).
Proof.
  apply (body_slice_exact 66 [1; 0; 1] [0; 0; 0; 9] [7; 7; 7] [0; 0; 0; 0; 0] [5; 6] [99]);
    first [reflexivity | discriminate].
Defined.
