(* ===== verification/Resolve.v ===== *)
(** Template chains ([kennel-lib-compile/src/resolve.rs]).

    An entry policy names a template, which may name another: [walk] fetches,
    parses, validates and verifies each ancestor, and [fold] composes them root
    first into one effective policy.  A fold is a value with the warnings it
    raises, in the order the code evaluates its fields: the type [warned] is
    that writer.  Finding an artefact by name is the caller's [TemplateSource],
    a parameter.

    Theorems: resolution succeeds exactly on the finite verified chains of at
    most sixteen ancestors and returns their fold; the floors of every artefact
    of a chain are exactly the floors of the result; where the provided names
    came from; which increments a fold keeps and which it loses; what a fragment
    can and cannot change. *)

From S2P Require Import Prelude Bytes Str Plan Settled B64 Sshsig Source SourceSig.

(** ** Warnings *)

(** [warn_clobber]: the field and how many inherited entries a bare set replaces. *)
Record Clobber : Type := { cl_field : bytes; cl_dropped : Z }.
Record warned (A : Type) : Type := { w_val : A; w_log : list Clobber }.
Arguments w_val {A}. Arguments w_log {A}.
Global Instance warned_ret : MRet warned := fun A a => {| w_val := a; w_log := [] |}.
Global Instance warned_bind : MBind warned := fun A B f m =>
  let b := f (w_val m) in {| w_val := w_val b; w_log := w_log m ++ w_log b |}.

(** A value and the warning pushed beside it, when the condition holds. *)
Definition clobbering {A} (b : bool) (field : bytes) (dropped : nat) (a : A) : warned A :=
  {| w_val := a;
     w_log := if b then [{| cl_field := field; cl_dropped := Z.of_nat dropped |}] else [] |}.

(** ** Combinators *)

(** [or(&child, &parent)] and [merge]. *)
Definition or_ {A} (child parent : option A) : option A := or_else child parent.
Definition merge {A} (f : A -> A -> A) (parent child : option A) : option A :=
  match parent, child with Some p, Some c => Some (f p c) | _, _ => or_else child parent end.
Definition merge_w {A} (f : A -> A -> warned A) (parent child : option A) : warned (option A) :=
  match parent, child with
  | Some p, Some c => v ← f p c; mret (Some v)
  | _, _ => mret (or_else child parent)
  end.

(** [for x in b { if !v.contains(x) { v.push(x) } }]. *)
Definition union_strings (parent child : list bytes) : list bytes :=
  fold_left (fun out s => if bool_decide (s ∈ out) then out else out ++ [s]) child parent.
Definition union_names (p c : option (list bytes)) : option (list bytes) :=
  if is_none p && is_none c then None else Some (union_strings (default [] p) (default [] c)).

Definition fold_pathfield (child parent : option PathField) (field : bytes) : warned (option PathField) :=
  match child with
  | None => mret parent
  | Some (PfSet v) =>
      match parent with
      | Some (PfSet pv) => clobbering (negb (is_nil v) && negb (is_nil pv)) field (length pv) (Some (PfSet v))
      | _ => mret (Some (PfSet v))
      end
  | Some (PfDelta d) =>
      let base := match parent with Some (PfSet v) => v | _ => [] end in
      let base := fold_left (fun b e => union_strings b (ent_path e)) (pd_add d) base in
      mret (Some (PfSet (List.filter
        (fun p => negb (existsb (fun e => bool_decide (p ∈ ent_path e)) (pd_remove d))) base)))
  end.

Definition fold_listfield {T} (child parent : ListField T) (key : T -> bytes) (field : bytes) :
    warned (ListField T) :=
  match child with
  | LfSet [] => mret parent
  | LfSet v =>
      match parent with
      | LfSet pv => clobbering (negb (is_nil pv)) field (length pv) (LfSet v)
      | LfDelta _ => mret (LfSet v)
      end
  | LfDelta d =>
      let base := match parent with LfSet v => v | LfDelta _ => [] end in
      let base := fold_left (fun b e =>
        if existsb (fun x => bool_decide (key x = key e)) b then b else b ++ [e]) (dl_add d) base in
      mret (LfSet (List.filter
        (fun x => negb (existsb (fun r => bool_decide (key r = key x)) (dl_remove d))) base))
  end.

Definition fold_groupfield (child parent : GroupField) : warned GroupField :=
  match child with
  | GfSet [] => mret parent
  | GfSet v =>
      match parent with
      | GfSet pv => clobbering (negb (is_nil pv)) (str "identity.groups") (length pv) (GfSet v)
      | GfDelta _ => mret (GfSet v)
      end
  | GfDelta d =>
      let base := match parent with GfSet v => v | GfDelta _ => [] end in
      let base := union_strings base (map ge_group (gd_add d)) in
      mret (GfSet (List.filter
        (fun g => negb (existsb (fun e => bool_decide (ge_group e = g)) (gd_remove d))) base))
  end.

(** The set-replaced lists: [provides], [mutable] and the audit sinks. *)
Definition replace_list {A} (parent child : list A) (field : bytes) : warned (list A) :=
  clobbering (negb (is_nil child) && negb (is_nil parent)) field (length parent)
    (if is_nil child then parent else child).

(** [BTreeMap::insert] on the pairs in key order. *)
Fixpoint bytes_ltb (a b : bytes) : bool :=
  match a, b with
  | [], _ :: _ => true
  | x :: a, y :: b => (x <? y) || ((x =? y) && bytes_ltb a b)
  | _, [] => false
  end.
Fixpoint bt_insert {V} (k : bytes) (v : V) (m : list (bytes * V)) : list (bytes * V) :=
  match m with
  | [] => [(k, v)]
  | (k', v') :: m' =>
      if bool_decide (k = k') then (k, v) :: m'
      else if bytes_ltb k k' then (k, v) :: m
      else (k', v') :: bt_insert k v m'
  end.
Definition bt_extend {V} (m child : list (bytes * V)) : list (bytes * V) :=
  fold_left (fun m kv => bt_insert kv.1 kv.2 m) child m.

(** ** Sections *)

Definition fold_cap (p c : CapSection) : CapSection :=
  {| cps_no_new_privs := or_ (cps_no_new_privs c) (cps_no_new_privs p) |}.

Definition fold_exec (p c : ExecSection) : warned ExecSection :=
  allow ← fold_pathfield (xs_allow c) (xs_allow p) (str "exec.allow");
  mret {| xs_allow := allow; xs_deny := union_names (xs_deny p) (xs_deny c);
          xs_deny_setuid := or_ (xs_deny_setuid c) (xs_deny_setuid p);
          xs_deny_setgid := or_ (xs_deny_setgid c) (xs_deny_setgid p);
          xs_deny_setcap := or_ (xs_deny_setcap c) (xs_deny_setcap p);
          xs_deny_writable := or_ (xs_deny_writable c) (xs_deny_writable p);
          xs_path := or_ (xs_path c) (xs_path p); xs_shell := or_ (xs_shell c) (xs_shell p) |}.

(** One axis of [fold_redirects]. *)
Definition add_redirect (write : bool) (axis : list RedirectEntry) (e : PathEntry) : list RedirectEntry :=
  match ent_source e, head (ent_path e) with
  | Some source, Some path =>
      List.filter (fun r => negb (bool_decide (re_path r = path))) axis ++
      [{| re_path := path; re_source := source; re_write := write |}]
  | _, _ => axis
  end.
Definition fold_axis (inherited : list RedirectEntry) (write : bool) (child_field : option PathField) :
    list RedirectEntry :=
  let inherited := List.filter (fun r => Bool.eqb (re_write r) write) inherited in
  match child_field with
  | None => inherited
  | Some (PfSet _) => []
  | Some (PfDelta d) =>
      fold_left (add_redirect write) (pd_add d)
        (List.filter (fun r => negb (existsb (fun e => bool_decide (re_path r ∈ ent_path e)) (pd_remove d)))
           inherited)
  end.
Definition fold_redirects (p c : FsSection) : list RedirectEntry :=
  fold_axis (fss_redirect p) false (fss_read c) ++ fold_axis (fss_redirect p) true (fss_write c).

Definition fold_fs_home (p c : FsHome) : FsHome := {|
  fh_shadow := or_ (fh_shadow c) (fh_shadow p);
  fh_persist := union_strings (fh_persist p) (fh_persist c);
  fh_readonly := or_ (fh_readonly c) (fh_readonly p) |}.
Definition fold_fs_tmp (p c : FsTmp) : FsTmp := {|
  ftm_writable := or_ (ftm_writable c) (ftm_writable p); ftm_size := or_ (ftm_size c) (ftm_size p) |}.
Definition fold_fs_proc (p c : FsProc) : FsProc := {| fpr_hidepid := or_ (fpr_hidepid c) (fpr_hidepid p) |}.
Definition fold_fs_dev (p c : FsDev) : warned FsDev :=
  passthrough ← fold_listfield (fdv_passthrough c) (fdv_passthrough p) dev_key (str "fs.dev.passthrough");
  mret {| fdv_allow := or_ (fdv_allow c) (fdv_allow p); fdv_passthrough := passthrough |}.
Definition fold_fs (p c : FsSection) : warned FsSection :=
  read ← fold_pathfield (fss_read c) (fss_read p) (str "fs.read");
  write ← fold_pathfield (fss_write c) (fss_write p) (str "fs.write");
  deny ← fold_pathfield (fss_deny c) (fss_deny p) (str "fs.deny");
  dev ← merge_w fold_fs_dev (fss_dev p) (fss_dev c);
  mret {| fss_read := read; fss_write := write;
          fss_exclusive := or_ (fss_exclusive c) (fss_exclusive p); fss_deny := deny;
          fss_home := merge fold_fs_home (fss_home p) (fss_home c);
          fss_tmp := merge fold_fs_tmp (fss_tmp p) (fss_tmp c);
          fss_proc := merge fold_fs_proc (fss_proc p) (fss_proc c); fss_dev := dev;
          fss_cwd := or_ (fss_cwd c) (fss_cwd p); fss_redirect := fold_redirects p c |}.

Definition fold_net_udp (p c : NetUdp) : warned NetUdp :=
  allow ← fold_listfield (nud_allow c) (nud_allow p) net_key (str "net.udp.allow");
  mret {| nud_allow := allow |}.
(** The invariant floor: a child's deny is added unless its network is there. *)
Definition union_denies (p c : list NetDenyRule) : list NetDenyRule :=
  fold_left (fun inv d =>
    if existsb (fun e => bool_decide (ndr_cidr e = ndr_cidr d)) inv then inv else inv ++ [d]) c p.
Definition fold_net_proxy_deny (p c : NetProxyDeny) : warned NetProxyDeny :=
  policy ← fold_listfield (npd_policy c) (npd_policy p) deny_key (str "net.proxy.deny.policy");
  mret {| npd_invariant := union_denies (npd_invariant p) (npd_invariant c); npd_policy := policy |}.
Definition fold_net_proxy (p c : NetProxy) : warned NetProxy :=
  allow ← fold_listfield (npx_allow c) (npx_allow p) net_key (str "net.proxy.allow");
  deny ← merge_w fold_net_proxy_deny (npx_deny p) (npx_deny c);
  mret {| npx_allow := allow; npx_deny := deny |}.
Definition fold_net_bpf_acl (dir : bytes) (p c : NetBpfAcl) : warned NetBpfAcl :=
  allow ← fold_listfield (nba_allow c) (nba_allow p) bpf_key (dir ++ str ".allow");
  deny ← fold_listfield (nba_deny c) (nba_deny p) bpf_key (dir ++ str ".deny");
  mret {| nba_allow := allow; nba_deny := deny |}.
Definition fold_net_bpf (p c : NetBpf) : warned NetBpf :=
  connect ← merge_w (fold_net_bpf_acl (str "net.bpf.connect")) (nbf_connect p) (nbf_connect c);
  bind ← merge_w (fold_net_bpf_acl (str "net.bpf.bind")) (nbf_bind p) (nbf_bind c);
  mret {| nbf_families := or_ (nbf_families c) (nbf_families p);
          nbf_deny_families := union_names (nbf_deny_families p) (nbf_deny_families c);
          nbf_connect := connect; nbf_bind := bind |}.
Definition fold_net_bind (p c : NetBind) : NetBind := {|
  nbd_inaddr_any_policy := or_ (nbd_inaddr_any_policy c) (nbd_inaddr_any_policy p);
  nbd_in6addr_any_policy := or_ (nbd_in6addr_any_policy c) (nbd_in6addr_any_policy p);
  nbd_allow_host_loopback_v4 := or_ (nbd_allow_host_loopback_v4 c) (nbd_allow_host_loopback_v4 p);
  nbd_allow_host_loopback_v6 := or_ (nbd_allow_host_loopback_v6 c) (nbd_allow_host_loopback_v6 p);
  nbd_min_port := or_ (nbd_min_port c) (nbd_min_port p);
  nbd_allowed_ports := or_ (nbd_allowed_ports c) (nbd_allowed_ports p) |}.
Definition fold_net_ipv6 (p c : NetIpv6) : NetIpv6 :=
  {| nv6_force_v6only := or_ (nv6_force_v6only c) (nv6_force_v6only p) |}.
Definition fold_net_audit (p c : NetAudit) : NetAudit := {|
  nau_log_path := or_ (nau_log_path c) (nau_log_path p); nau_level := or_ (nau_level c) (nau_level p) |}.
Definition fold_net (p c : NetSection) : warned NetSection :=
  proxy ← merge_w fold_net_proxy (ns_proxy p) (ns_proxy c);
  bpf ← merge_w fold_net_bpf (ns_bpf p) (ns_bpf c);
  udp ← merge_w fold_net_udp (ns_udp p) (ns_udp c);
  mret {| ns_mode := or_ (ns_mode c) (ns_mode p); ns_reason := or_ (ns_reason c) (ns_reason p);
          ns_proxy_listen_address := or_ (ns_proxy_listen_address c) (ns_proxy_listen_address p);
          ns_proxy := proxy; ns_bpf := bpf;
          ns_bind := merge fold_net_bind (ns_bind p) (ns_bind c);
          ns_ipv6 := merge fold_net_ipv6 (ns_ipv6 p) (ns_ipv6 c);
          ns_audit := merge fold_net_audit (ns_audit p) (ns_audit c); ns_udp := udp |}.

Definition fold_audit_file (p c : AuditFileSection) : AuditFileSection := {|
  afs_dir := or_ (afs_dir c) (afs_dir p);
  afs_rotate_at_bytes := or_ (afs_rotate_at_bytes c) (afs_rotate_at_bytes p);
  afs_compress_after_seconds := or_ (afs_compress_after_seconds c) (afs_compress_after_seconds p);
  afs_retain_count := or_ (afs_retain_count c) (afs_retain_count p) |}.
Definition fold_audit_syslog (p c : AuditSyslogSection) : AuditSyslogSection :=
  {| ays_facility := or_ (ays_facility c) (ays_facility p) |}.
Definition fold_audit_class (p c : AuditClassSection) : AuditClassSection :=
  {| acs_level := or_ (acs_level c) (acs_level p) |}.
Definition fold_audit (p c : AuditSection) : warned AuditSection :=
  sinks ← replace_list (aus_sinks p) (aus_sinks c) (str "audit.sinks");
  mret {| aus_sinks := sinks; aus_file := merge fold_audit_file (aus_file p) (aus_file c);
          aus_syslog := merge fold_audit_syslog (aus_syslog p) (aus_syslog c);
          aus_journald := or_ (aus_journald c) (aus_journald p);
          aus_stdout := or_ (aus_stdout c) (aus_stdout p);
          aus_network := merge fold_audit_class (aus_network p) (aus_network c);
          aus_filesystem := merge fold_audit_class (aus_filesystem p) (aus_filesystem c);
          aus_exec := merge fold_audit_class (aus_exec p) (aus_exec c);
          aus_unix := merge fold_audit_class (aus_unix p) (aus_unix c);
          aus_dbus := merge fold_audit_class (aus_dbus p) (aus_dbus c) |}.

Definition fold_unix (p c : UnixSection) : warned UnixSection :=
  allow ← fold_listfield (uxs_allow c) (uxs_allow p) unix_key (str "unix.allow");
  mret {| uxs_abstract_ns := or_ (uxs_abstract_ns c) (uxs_abstract_ns p); uxs_allow := allow |}.
Definition fold_identity (p c : IdentitySection) : warned IdentitySection :=
  groups ← fold_groupfield (ids_groups c) (ids_groups p);
  mret {| ids_user := or_ (ids_user c) (ids_user p); ids_group := or_ (ids_group c) (ids_group p);
          ids_hostname := or_ (ids_hostname c) (ids_hostname p); ids_groups := groups |}.
Definition fold_ssh (p c : SshSection) : warned SshSection :=
  destinations ← fold_listfield (sss_destinations c) (sss_destinations p) ssh_key (str "ssh.destinations");
  mret {| sss_allow_headless := or_ (sss_allow_headless c) (sss_allow_headless p);
          sss_threats := or_ (sss_threats c) (sss_threats p); sss_destinations := destinations |}.
Definition fold_boundary_acl (p c : BoundaryAcl) : BoundaryAcl := {|
  bac_allow_targets := or_ (bac_allow_targets c) (bac_allow_targets p);
  bac_allow_from := or_ (bac_allow_from c) (bac_allow_from p) |}.
Definition fold_unsafe (p c : UnsafeSection) : UnsafeSection := {|
  ufs_ptrace := merge fold_boundary_acl (ufs_ptrace p) (ufs_ptrace c);
  ufs_signal := merge fold_boundary_acl (ufs_signal p) (ufs_signal c) |}.
Definition fold_env (p c : EnvSection) : EnvSection := {|
  evs_pass := or_ (evs_pass c) (evs_pass p); evs_deny := union_names (evs_deny p) (evs_deny c);
  evs_set := merge bt_extend (evs_set p) (evs_set c) |}.
Definition fold_seccomp (p c : SeccompSection) : SeccompSection := {|
  scs_profile := or_ (scs_profile c) (scs_profile p);
  scs_deny := union_names (scs_deny p) (scs_deny c); scs_allow := or_ (scs_allow c) (scs_allow p) |}.
Definition fold_lifecycle (p c : LifecycleSection) : LifecycleSection := {|
  lcs_ttl := or_ (lcs_ttl c) (lcs_ttl p); lcs_ttl_action := or_ (lcs_ttl_action c) (lcs_ttl_action p) |}.
Definition fold_service (p c : ServiceSection) : ServiceSection := {|
  svs_restart := or_ (svs_restart c) (svs_restart p); svs_backoff := or_ (svs_backoff c) (svs_backoff p);
  svs_max_attempts := or_ (svs_max_attempts c) (svs_max_attempts p) |}.
Definition fold_tty (p c : TtySection) : TtySection := {|
  tys_filter_terminal_escapes := or_ (tys_filter_terminal_escapes c) (tys_filter_terminal_escapes p) |}.
Definition fold_trust (p c : TrustSection) : TrustSection := {|
  trs_manifest := or_ (trs_manifest c) (trs_manifest p);
  trs_on_change := or_ (trs_on_change c) (trs_on_change p) |}.
Definition fold_workload (p c : WorkloadSection) : WorkloadSection := {|
  wls_argv := or_ (wls_argv c) (wls_argv p); wls_cwd := or_ (wls_cwd c) (wls_cwd p);
  wls_pinned := or_ (wls_pinned c) (wls_pinned p);
  wls_allowed_args := or_ (wls_allowed_args c) (wls_allowed_args p);
  wls_sha256 := or_ (wls_sha256 c) (wls_sha256 p) |}.
Definition fold_ulimits (parent child : list (bytes * bytes)) : list (bytes * bytes) := bt_extend parent child.
Definition fold_rootfs (p c : RootfsSection) : RootfsSection := {|
  rfs_path := or_ (rfs_path c) (rfs_path p); rfs_image := or_ (rfs_image c) (rfs_image p);
  rfs_reason := or_ (rfs_reason c) (rfs_reason p);
  rfs_persistence := or_ (rfs_persistence c) (rfs_persistence p);
  rfs_readonly := or_ (rfs_readonly c) (rfs_readonly p);
  rfs_writable := or_ (rfs_writable c) (rfs_writable p) |}.
Definition fold_spawn (p c : SpawnSection) : warned SpawnSection :=
  allow ← fold_listfield (sps_allow c) (sps_allow p) spawn_key (str "spawn.allow");
  mret {| sps_max_instances := or_ (sps_max_instances c) (sps_max_instances p);
          sps_reason := or_ (sps_reason c) (sps_reason p); sps_allow := allow |}.

Definition union_dbus_rules (p c : option DbusRules) : option DbusRules :=
  merge (fun p c => {|
    dbr_talk := union_strings (dbr_talk p) (dbr_talk c);
    dbr_call := union_strings (dbr_call p) (dbr_call c);
    dbr_broadcast := union_strings (dbr_broadcast p) (dbr_broadcast c);
    dbr_own := union_strings (dbr_own p) (dbr_own c) |}) p c.
Definition fold_dbus_bus (p c : option DbusBus) : option DbusBus :=
  merge (fun p c => {|
    dbb_enabled := or_ (dbb_enabled c) (dbb_enabled p);
    dbb_allow := union_dbus_rules (dbb_allow p) (dbb_allow c);
    dbb_deny := union_dbus_rules (dbb_deny p) (dbb_deny c) |}) p c.
Definition fold_dbus (p c : DbusSection) : DbusSection := {|
  dbs_session := fold_dbus_bus (dbs_session p) (dbs_session c);
  dbs_system := fold_dbus_bus (dbs_system p) (dbs_system c);
  dbs_audit := merge (fun pa ca => {| dba_level := or_ (dba_level ca) (dba_level pa) |})
                 (dbs_audit p) (dbs_audit c) |}.

(** [fold]: the fields that can warn first, in the order the code evaluates them. *)
Definition fold (p c : SourcePolicy) : warned SourcePolicy :=
  exec ← merge_w fold_exec (s_exec p) (s_exec c);
  fs ← merge_w fold_fs (s_fs p) (s_fs c);
  net ← merge_w fold_net (s_net p) (s_net c);
  unix ← merge_w fold_unix (s_unix p) (s_unix c);
  ssh ← merge_w fold_ssh (s_ssh p) (s_ssh c);
  identity ← merge_w fold_identity (s_identity p) (s_identity c);
  provides ← replace_list (s_provides p) (s_provides c) (str "[[provides]]");
  consumes ← fold_listfield (s_consumes c) (s_consumes p) consumes_key (str "consumes");
  audit ← merge_w fold_audit (s_audit p) (s_audit c);
  spawn ← merge_w fold_spawn (s_spawn p) (s_spawn c);
  mutable ← replace_list (s_mutable p) (s_mutable c) (str "[[mutable]]");
  mret {|
    s_template_base := s_template_base c;
    s_template_name := or_ (s_template_name c) (s_template_name p);
    s_name := or_ (s_name c) (s_name p);
    s_include := union_strings (s_include p) (s_include c);
    s_threat_catalogue_version := or_ (s_threat_catalogue_version c) (s_threat_catalogue_version p);
    s_signature := None;
    s_cap := merge fold_cap (s_cap p) (s_cap c);
    s_exec := exec; s_fs := fs; s_net := net; s_unix := unix; s_ssh := ssh; s_identity := identity;
    s_provides := provides; s_consumes := consumes;
    s_service := merge fold_service (s_service p) (s_service c);
    s_unsafe_section := merge fold_unsafe (s_unsafe_section p) (s_unsafe_section c);
    s_env := merge fold_env (s_env p) (s_env c);
    s_seccomp := merge fold_seccomp (s_seccomp p) (s_seccomp c);
    s_lifecycle := merge fold_lifecycle (s_lifecycle p) (s_lifecycle c);
    s_audit := audit;
    s_ulimits := merge fold_ulimits (s_ulimits p) (s_ulimits c);
    s_workload := merge fold_workload (s_workload p) (s_workload c);
    s_tty := merge fold_tty (s_tty p) (s_tty c);
    s_trust := merge fold_trust (s_trust p) (s_trust c);
    s_dbus := merge fold_dbus (s_dbus p) (s_dbus c);
    s_rootfs := merge fold_rootfs (s_rootfs p) (s_rootfs c);
    s_spawn := spawn; s_mutable := mutable |}.

(** ** Resolution *)

Definition MAX_CHAIN_DEPTH : nat := 16.

Record ChainLink : Type := {
  ln_name : bytes; ln_signing_key_id : option bytes; ln_signature : option bytes }.
Inductive ProvidesOrigin : Type :=
  | Absent
  | Entry
  | Ancestor (tier : option SigTier).
Record ResolvedChain : Type := {
  rc_effective : SourcePolicy;
  rc_chain : list ChainLink;
  rc_provides_origin : ProvidesOrigin;
  rc_warnings : list Clobber;
}.

Inductive ResolveError : Type :=
  | ReParse
  | ReValidation (errs : list SourceErr)
  | ReBadReference (reference : bytes) (e : RefError)
  | ReCycle (name : bytes)
  | ReDepth
  | ReMissing (name : bytes)
  | ReTrust (e : TrustError).

Definition parse_reference (reference : bytes) : result ResolveError bytes :=
  match validate_ref_name reference with
  | Ok _ => Ok reference
  | Err e => Err (ReBadReference reference e)
  end.

(** The record updates at the end of [resolve_verified] and [apply_fragment]. *)
Definition with_identity (base template name : option bytes) (include : list bytes) (p : SourcePolicy) :
    SourcePolicy := {|
  s_template_base := base; s_template_name := template; s_name := name; s_include := include;
  s_threat_catalogue_version := s_threat_catalogue_version p; s_signature := None;
  s_cap := s_cap p; s_exec := s_exec p; s_fs := s_fs p; s_net := s_net p;
  s_unix := s_unix p; s_ssh := s_ssh p; s_identity := s_identity p; s_provides := s_provides p;
  s_consumes := s_consumes p; s_service := s_service p; s_unsafe_section := s_unsafe_section p;
  s_env := s_env p; s_seccomp := s_seccomp p; s_lifecycle := s_lifecycle p; s_audit := s_audit p;
  s_ulimits := s_ulimits p; s_workload := s_workload p; s_tty := s_tty p; s_trust := s_trust p;
  s_dbus := s_dbus p; s_rootfs := s_rootfs p; s_spawn := s_spawn p; s_mutable := s_mutable p |}.

Section resolve.
Context {C : Crypto} {T : SourceToml}.
(** [TemplateSource::fetch]. *)
Context (fetch : bytes -> option bytes).

Definition validated (p : SourcePolicy) : result ResolveError unit :=
  match source_validate p with Ok _ => Ok tt | Err errs => Err (ReValidation errs) end.
Definition checked (t : Trust) (name : bytes) (p : SourcePolicy) : result ResolveError (option bytes) :=
  match trust_check t name p with Ok k => Ok k | Err e => Err (ReTrust e) end.

Definition link_of (name : bytes) (k : option bytes) (p : SourcePolicy) : ChainLink := {|
  ln_name := name; ln_signing_key_id := k; ln_signature := option_map se_signature (s_signature p) |}.

(** The loop of [resolve_verified]; [room] is what is left of the depth, that is
    [MAX_CHAIN_DEPTH - parents.len()]. *)
Fixpoint walk (t : Trust) (room : nat) (parents : list SourcePolicy) (links : list ChainLink)
    (seen : list bytes) (current : SourcePolicy) :
    result ResolveError (list SourcePolicy * list ChainLink) :=
  match s_template_base current with
  | None => Ok (parents, links)
  | Some reference =>
      name ← parse_reference reference;
      if bool_decide (name ∈ seen) then Err (ReCycle name)
      else match room with
      | O => Err ReDepth
      | S room =>
          bytes ← ok_or (ReMissing name) (fetch name);
          parent ← ok_or ReParse (source_parse bytes);
          _ ← validated parent;
          signing_key_id ← checked t name parent;
          walk t room (parents ++ [parent]) (links ++ [link_of name signing_key_id parent])
            (seen ++ [name]) parent
      end
  end.

(** [parents.iter().position(|p| !p.provides.is_empty())], with the link beside it. *)
Fixpoint first_provider (parents : list SourcePolicy) (links : list ChainLink) : option (option ChainLink) :=
  match parents with
  | [] => None
  | p :: parents =>
      if negb (is_nil (s_provides p)) then Some (head links) else first_provider parents (tail links)
  end.
Definition provides_origin_of (t : Trust) (entry : SourcePolicy) (parents : list SourcePolicy)
    (links : list ChainLink) : ProvidesOrigin :=
  if negb (is_nil (s_provides entry)) then Entry
  else match first_provider parents links with
  | Some l => Ancestor (option_map (tier_of t) (l ≫= ln_signing_key_id))
  | None => Absent
  end.

(** Root first: the last parent, then each more derived one, then the entry; an entry
    with no parent is folded over itself. *)
Definition fold_chain (entry : SourcePolicy) (parents : list SourcePolicy) : warned SourcePolicy :=
  match rev parents with
  | [] => fold entry entry
  | root :: derived =>
      fold_left (fun acc child => a ← acc; fold a child) (derived ++ [entry]) (mret root)
  end.

Definition resolve_verified (t : Trust) (entry : SourcePolicy) : result ResolveError ResolvedChain :=
  _ ← validated entry;
  pl ← walk t MAX_CHAIN_DEPTH [] [] [] entry;
  let folded := fold_chain entry pl.1 in
  Ok {| rc_effective := with_identity None (s_template_name entry) (s_name entry)
                          (s_include (w_val folded)) (w_val folded);
        rc_chain := rev pl.2;
        rc_provides_origin := provides_origin_of t entry pl.1 pl.2;
        rc_warnings := w_log folded |}.
Definition resolve (entry : SourcePolicy) : result ResolveError ResolvedChain :=
  resolve_verified trust_dev entry.
End resolve.

Definition apply_fragment (base fragment : SourcePolicy) : SourcePolicy :=
  with_identity (s_template_base base) (s_template_name base) (s_name base) (s_include base)
    (w_val (fold base fragment)).

(** * Lemmas *)

(** ** Unions *)

(** Every union of the fold appends what a test does not find, so membership of what the
    test observes is that of both sides. *)
Lemma fold_push_elem {A B} (key : A -> B) (has : A -> list A -> bool) l acc y :
  (forall x acc, has x acc = true <-> key x ∈ key <$> acc) ->
  y ∈ key <$> fold_left (fun out x => if has x out then out else out ++ [x]) l acc <->
  y ∈ key <$> acc \/ y ∈ key <$> l.
Proof.
  intros Hh. revert acc; induction l as [|x l IH]; intros acc; cbn [fold_left fmap list_fmap].
  { rewrite elem_of_nil. tauto. }
  rewrite IH, elem_of_cons. destruct (has x acc) eqn:E.
  - apply Hh in E. split; [tauto|]. intros [?|[->|?]]; tauto.
  - rewrite fmap_app, elem_of_app. cbn [fmap list_fmap]. rewrite list_elem_of_singleton. tauto.
Qed.

Lemma elem_of_union_strings x p c : x ∈ union_strings p c <-> x ∈ p \/ x ∈ c.
Proof.
  pose proof (fold_push_elem (fun s : bytes => s) (fun s out => bool_decide (s ∈ out)) c p x) as H.
  rewrite !list_fmap_id in H. apply H. intros s acc. rewrite bool_decide_eq_true. by rewrite list_fmap_id.
Qed.

Lemma elem_of_union_names x p c :
  x ∈ default [] (union_names p c) <-> x ∈ default [] p \/ x ∈ default [] c.
Proof.
  unfold union_names.
  destruct p, c; cbn -[union_strings]; rewrite ?elem_of_union_strings, ?elem_of_nil; tauto.
Qed.

Lemma existsb_key {A} (key : A -> bytes) (k : bytes) l :
  existsb (fun x => bool_decide (key x = k)) l = true <-> k ∈ key <$> l.
Proof.
  rewrite existsb_exists, list_elem_of_fmap. split.
  - intros (x & Hx%list_elem_of_In & <-%bool_decide_eq_true). by exists x.
  - intros (x & -> & Hx%list_elem_of_In). exists x. split; [done|]. by apply bool_decide_eq_true.
Qed.

Lemma elem_of_union_denies k p c :
  k ∈ ndr_cidr <$> union_denies p c <-> k ∈ ndr_cidr <$> p \/ k ∈ ndr_cidr <$> c.
Proof. apply fold_push_elem. intros x acc. apply existsb_key. Qed.

(** ** Merged sections *)

Lemma w_val_merge {A} (f : A -> A -> warned A) p c :
  w_val (merge_w f p c) = merge (fun p c => w_val (f p c)) p c.
Proof. by destruct p, c. Qed.

(** A field that a section's fold takes as the union of both sides is their union in
    the merged section. *)
Lemma merge_union {A} (f : A -> A -> A) (fld : A -> list bytes) p c x :
  (forall p c, x ∈ fld (f p c) <-> x ∈ fld p \/ x ∈ fld c) ->
  x ∈ on_some fld (merge f p c) <-> x ∈ on_some fld p \/ x ∈ on_some fld c.
Proof. intros H. destruct p, c; cbn; rewrite ?H, ?elem_of_nil; tauto. Qed.

(** ** Floors *)

(** The lists that a derived artefact can only extend. *)
Inductive Floor : Type := FlSeccomp | FlExec | FlEnv | FlFamilies | FlInvariant.
Definition bpf_of (p : SourcePolicy) : option NetBpf := net ← s_net p; ns_bpf net.
Definition floor_of (k : Floor) (p : SourcePolicy) : list bytes :=
  match k with
  | FlSeccomp => on_some (fun s => default [] (scs_deny s)) (s_seccomp p)
  | FlExec => on_some (fun e => default [] (xs_deny e)) (s_exec p)
  | FlEnv => on_some (fun e => default [] (evs_deny e)) (s_env p)
  | FlFamilies => on_some (fun n => on_some (fun b => default [] (nbf_deny_families b)) (ns_bpf n)) (s_net p)
  | FlInvariant =>
      on_some (fun n => on_some (fun x => on_some (fun d => ndr_cidr <$> npd_invariant d) (npx_deny x))
                          (ns_proxy n)) (s_net p)
  end.

(** The warning sections of a fold, as merges of values. *)
Lemma s_exec_fold p c : s_exec (w_val (fold p c)) = merge (fun p c => w_val (fold_exec p c)) (s_exec p) (s_exec c).
Proof. exact (w_val_merge fold_exec _ _). Qed.
Lemma s_fs_fold p c : s_fs (w_val (fold p c)) = merge (fun p c => w_val (fold_fs p c)) (s_fs p) (s_fs c).
Proof. exact (w_val_merge fold_fs _ _). Qed.
Lemma s_net_fold p c : s_net (w_val (fold p c)) = merge (fun p c => w_val (fold_net p c)) (s_net p) (s_net c).
Proof. exact (w_val_merge fold_net _ _). Qed.
Lemma ns_proxy_fold p c :
  ns_proxy (w_val (fold_net p c)) = merge (fun p c => w_val (fold_net_proxy p c)) (ns_proxy p) (ns_proxy c).
Proof. exact (w_val_merge fold_net_proxy _ _). Qed.
Lemma ns_bpf_fold p c :
  ns_bpf (w_val (fold_net p c)) = merge (fun p c => w_val (fold_net_bpf p c)) (ns_bpf p) (ns_bpf c).
Proof. exact (w_val_merge fold_net_bpf _ _). Qed.
Lemma npx_deny_fold p c :
  npx_deny (w_val (fold_net_proxy p c)) =
  merge (fun p c => w_val (fold_net_proxy_deny p c)) (npx_deny p) (npx_deny c).
Proof. exact (w_val_merge fold_net_proxy_deny _ _). Qed.

Lemma floor_fold k x p c :
  x ∈ floor_of k (w_val (fold p c)) <-> x ∈ floor_of k p \/ x ∈ floor_of k c.
Proof.
  destruct k; cbn [floor_of]; rewrite ?s_exec_fold, ?s_net_fold; apply merge_union; intros ps cs.
  1-3: apply elem_of_union_names.
  - rewrite ns_bpf_fold. apply merge_union. intros pb cb. apply elem_of_union_names.
  - rewrite ns_proxy_fold. apply merge_union. intros px cx. rewrite npx_deny_fold.
    apply merge_union. intros pd cd. apply elem_of_union_denies.
Qed.

(** ** The folded chain *)

Lemma w_val_fold_left l root :
  w_val (fold_left (fun acc child => a ← acc; fold a child) l root) =
  fold_left (fun a child => w_val (fold a child)) l (w_val root).
Proof. revert root; induction l as [|c l IH]; intros root; cbn [fold_left]; [done|]. by rewrite IH. Qed.

(** The composition of a list of artefacts, most derived first. *)
Fixpoint composed (l : list SourcePolicy) (root : SourcePolicy) : SourcePolicy :=
  match l with [] => root | c :: l => w_val (fold (composed l root) c) end.

Lemma fold_chain_composed entry parents root :
  w_val (fold_chain entry (parents ++ [root])) = composed (entry :: parents) root.
Proof.
  unfold fold_chain. rewrite rev_app_distr. cbn [rev app]. rewrite w_val_fold_left. cbn [w_val].
  rewrite fold_left_app. cbn [fold_left composed]. f_equal. f_equal.
  induction parents as [|p parents IH]; cbn [rev composed]; [done|].
  rewrite fold_left_app. cbn [fold_left]. by rewrite IH.
Qed.

Lemma fold_chain_alone entry : w_val (fold_chain entry []) = w_val (fold entry entry).
Proof. done. Qed.

Lemma parents_cases (parents : list SourcePolicy) :
  parents = [] \/ exists ps root, parents = ps ++ [root].
Proof. destruct parents as [|root ps _] using rev_ind; [by left|right; by exists ps, root]. Qed.

Lemma floor_chain k x entry parents :
  x ∈ floor_of k (w_val (fold_chain entry parents)) <->
  exists a, a ∈ entry :: parents /\ x ∈ floor_of k a.
Proof.
  destruct (parents_cases parents) as [->|(ps & root & ->)].
  - rewrite fold_chain_alone, floor_fold. split; [intros [?|?]; exists entry; set_solver|].
    intros (a & ->%list_elem_of_singleton & ?). tauto.
  - rewrite fold_chain_composed. change (entry :: ps ++ [root]) with ((entry :: ps) ++ [root]).
    generalize (entry :: ps) as l. induction l as [|c l IH]; cbn [composed app].
    + split; [intros ?; exists root; set_solver|]. by intros (a & ->%list_elem_of_singleton & ?).
    + rewrite floor_fold, IH. split.
      * intros [(a & ? & ?)|?]; [exists a|exists c]; set_solver.
      * intros (a & [->|?]%elem_of_cons & ?); [by right|left; by exists a].
Qed.

(** ** Provided names *)

Definition supplier (l : list SourcePolicy) : option SourcePolicy :=
  List.find (fun p => negb (is_nil (s_provides p))) l.

Lemma provides_fold p c :
  s_provides (w_val (fold p c)) = if is_nil (s_provides c) then s_provides p else s_provides c.
Proof. done. Qed.

(** The fragments a chain includes are those that one of its artefacts names. *)
Lemma includes_chain x entry parents :
  x ∈ s_include (w_val (fold_chain entry parents)) <-> exists a, a ∈ entry :: parents /\ x ∈ s_include a.
Proof.
  assert (Hf : forall p c, x ∈ s_include (w_val (fold p c)) <-> x ∈ s_include p \/ x ∈ s_include c).
  { intros p c. change (s_include (w_val (fold p c))) with (union_strings (s_include p) (s_include c)). apply elem_of_union_strings. }
  destruct (parents_cases parents) as [->|(ps & root & ->)].
  - rewrite fold_chain_alone, Hf. split; [intros [?|?]; exists entry; set_solver|].
    intros (a & ->%list_elem_of_singleton & ?). tauto.
  - rewrite fold_chain_composed. change (entry :: ps ++ [root]) with ((entry :: ps) ++ [root]).
    generalize (entry :: ps) as l. induction l as [|c l IH]; cbn [composed app].
    + split; [intros ?; exists root; set_solver|]. by intros (a & ->%list_elem_of_singleton & ?).
    + rewrite Hf, IH. split.
      * intros [(a & ? & ?)|?]; [exists a|exists c]; set_solver.
      * intros (a & [->|?]%elem_of_cons & ?); [by right|left; by exists a].
Qed.

Lemma provides_chain entry parents :
  s_provides (w_val (fold_chain entry parents)) = on_some s_provides (supplier (entry :: parents)).
Proof.
  destruct (parents_cases parents) as [->|(ps & root & ->)].
  - rewrite fold_chain_alone, provides_fold. cbn. destruct (s_provides entry) eqn:E; cbn; by rewrite ?E.
  - rewrite fold_chain_composed. change (entry :: ps ++ [root]) with ((entry :: ps) ++ [root]).
    generalize (entry :: ps) as l. induction l as [|c l IH]; cbn [composed app supplier List.find].
    + destruct (s_provides root) eqn:E; cbn; by rewrite ?E.
    + rewrite provides_fold, IH. unfold supplier. destruct (s_provides c) eqn:E; cbn; by rewrite ?E.
Qed.

Lemma first_provider_zip (c : list (SourcePolicy * ChainLink)) :
  first_provider c.*1 c.*2 =
  option_map (fun x => Some x.2) (List.find (fun x => negb (is_nil (s_provides x.1))) c).
Proof.
  induction c as [|[q l] c IH]; cbn [first_provider fmap list_fmap List.find fst snd head tail]; [done|].
  by destruct (is_nil (s_provides q)).
Qed.

Lemma supplier_zip (c : list (SourcePolicy * ChainLink)) :
  supplier c.*1 = option_map fst (List.find (fun x => negb (is_nil (s_provides x.1))) c).
Proof.
  unfold supplier. induction c as [|[q l] c IH]; cbn [fmap list_fmap List.find fst]; [done|].
  by destruct (is_nil (s_provides q)).
Qed.

(** ** Chains *)

Section chains.
Context {C : Crypto} {T : SourceToml} (fetch : bytes -> option bytes) (t : Trust).

(** [derives p c]: [c] is the chain of [p], nearest ancestor first: each is what its
    reference names, parses, is valid, and passes the trust check. *)
Inductive derives : SourcePolicy -> list (SourcePolicy * ChainLink) -> Prop :=
  | derives_root p : s_template_base p = None -> derives p []
  | derives_step p name text q k c :
      s_template_base p = Some name -> validate_ref_name name = Ok tt ->
      fetch name = Some text -> source_parse text = Some q -> source_validate q = Ok tt ->
      trust_check t name q = Ok k -> derives q c ->
      derives p ((q, link_of name k q) :: c).

Lemma derives_det p c1 c2 : derives p c1 -> derives p c2 -> c1 = c2.
Proof.
  intros H1. revert c2. induction H1 as [p Hb|p name text q k c Hb Hv Hf Hp Hs Ht _ IH]; intros c2 H2.
  - inversion H2; congruence.
  - inversion H2 as [|? name' text' q' k' c' Hb' Hv' Hf' Hp' Hs' Ht' Hd]; subst; [congruence|].
    rewrite Hb in Hb'. injection Hb' as <-. rewrite Hf in Hf'. injection Hf' as <-.
    rewrite Hp in Hp'. injection Hp' as <-. rewrite Ht in Ht'. injection Ht' as <-.
    f_equal. by apply IH.
Qed.

(** What a link of a chain says of its artefact, and that the rest of the chain is the
    artefact's own. *)
Lemma derives_link p c q l :
  derives p c -> (q, l) ∈ c ->
  exists text k, fetch (ln_name l) = Some text /\ source_parse text = Some q /\
    source_validate q = Ok tt /\ trust_check t (ln_name l) q = Ok k /\ l = link_of (ln_name l) k q.
Proof.
  induction 1 as [|p name text q' k c Hb Hv Hf Hp Hs Ht _ IH]; [set_solver|].
  intros [[= -> ->]|?]%elem_of_cons; [|by apply IH]. by exists text, k.
Qed.
Lemma derives_suffix p c1 q l c2 : derives p (c1 ++ (q, l) :: c2) -> derives q c2.
Proof.
  revert p; induction c1 as [|[q' l'] c1 IH]; intros p H; inversion H; subst; [done|]. by eapply IH.
Qed.

Definition names (c : list (SourcePolicy * ChainLink)) : list bytes := (fun x => ln_name x.2) <$> c.

(** A finite chain names no artefact twice: a repeated name would repeat its tail. *)
Lemma derives_nodup p c : derives p c -> NoDup (names c).
Proof.
  induction 1 as [|p name text q k c Hb Hv Hf Hp Hs Ht Hd IH]; [constructor|].
  cbn [names fmap list_fmap]. constructor; [|done]. rewrite list_elem_of_fmap.
  intros ([q' l'] & Hn & Hin). cbn [snd link_of ln_name] in Hn.
  destruct (derives_link q c q' l' Hd Hin) as (text' & k' & Hf' & Hp' & _).
  rewrite <- Hn, Hf in Hf'. injection Hf' as <-. rewrite Hp in Hp'. injection Hp' as <-.
  apply list_elem_of_split in Hin as (c1 & c2 & ->).
  pose proof (derives_det _ _ _ Hd (derives_suffix _ _ _ _ _ Hd)) as E.
  apply (f_equal length) in E. rewrite length_app in E. cbn in E. lia.
Qed.

Lemma validated_Ok p : validated p = Ok tt <-> source_validate p = Ok tt.
Proof. unfold validated. by destruct (source_validate p) as [[]|]. Qed.
Lemma parse_reference_Ok r n : parse_reference r = Ok n <-> n = r /\ validate_ref_name r = Ok tt.
Proof.
  unfold parse_reference. destruct (validate_ref_name r) as [[]|]; split; [by intros <-%(inj Ok)|by intros [-> _]|done|by intros []].
Qed.

Lemma walk_sound room parents links seen p ps ls :
  walk fetch t room parents links seen p = Ok (ps, ls) ->
  exists c, derives p c /\ (length c <= room)%nat /\ ps = parents ++ c.*1 /\ ls = links ++ c.*2.
Proof.
  revert parents links seen p; induction room as [|room IH]; intros parents links seen p; cbn [walk].
  all: destruct (s_template_base p) as [reference|] eqn:Eb;
    [|intros [= <- <-]; exists []; cbn; rewrite !app_nil_r; split_and!; [by constructor|lia|done..]].
  all: intros (name & (-> & Hv)%parse_reference_Ok & H)%bind_Ok; case_bool_decide; [done|].
  { done. }
  apply bind_Ok in H as (text & Hf & H). apply bind_Ok in H as (q & Hp & H).
  apply bind_Ok in H as ([] & Hs%validated_Ok & H). apply bind_Ok in H as (k & Hk & H).
  destruct (fetch reference) as [text'|] eqn:Ef; [|done]. apply (inj Ok) in Hf as ->.
  destruct (source_parse text) as [q'|] eqn:Eq; [|done]. apply (inj Ok) in Hp as ->.
  unfold checked in Hk. destruct (trust_check t reference q) as [k'|] eqn:Et; [|done]. apply (inj Ok) in Hk as ->.
  apply IH in H as (c & Hd & Hl & -> & ->).
  exists ((q, link_of reference k q) :: c). cbn [length fmap list_fmap fst snd].
  rewrite <- !app_assoc. split_and!; [by econstructor|lia|done..].
Qed.

Lemma walk_complete p c room parents links seen :
  derives p c -> (length c <= room)%nat -> (forall n, n ∈ names c -> n ∉ seen) ->
  walk fetch t room parents links seen p = Ok (parents ++ c.*1, links ++ c.*2).
Proof.
  intros Hd. pose proof (derives_nodup _ _ Hd) as Hn. revert room parents links seen.
  induction Hd as [p Hb|p name text q k c Hb Hv Hf Hp Hs Ht Hd IH]; intros room parents links seen Hl Hseen.
  - destruct room; cbn [walk]; rewrite Hb; cbn; by rewrite !app_nil_r.
  - cbn [names fmap list_fmap snd link_of ln_name] in Hn, Hseen. inversion Hn as [|? ? Hnot Hn']; subst.
    destruct room as [|room]; [cbn in Hl; lia|]. cbn [walk]. rewrite Hb. unfold parse_reference.
    rewrite Hv. cbn [mbind result_bind]. rewrite bool_decide_eq_false_2 by (apply Hseen; set_solver).
    rewrite Hf. cbn [ok_or mbind result_bind]. rewrite Hp. cbn [ok_or mbind result_bind].
    rewrite (proj2 (validated_Ok q) Hs). cbn [mbind result_bind]. unfold checked. rewrite Ht.
    cbn [mbind result_bind]. rewrite IH; [|done|cbn in Hl; lia|].
    + cbn [fmap list_fmap fst snd]. by rewrite <- !app_assoc.
    + intros n Hin. rewrite elem_of_app, list_elem_of_singleton. intros [Hs'| ->]; [|done].
      by apply (Hseen n); [set_solver|].
Qed.

(** What a resolution returns for a chain. *)
Definition resolution (entry : SourcePolicy) (c : list (SourcePolicy * ChainLink)) : ResolvedChain :=
  let folded := fold_chain entry c.*1 in {|
  rc_effective := with_identity None (s_template_name entry) (s_name entry)
                    (s_include (w_val folded)) (w_val folded);
  rc_chain := rev c.*2;
  rc_provides_origin := provides_origin_of t entry c.*1 c.*2;
  rc_warnings := w_log folded |}.

Lemma resolve_verified_Ok entry rc :
  resolve_verified fetch t entry = Ok rc <->
  source_validate entry = Ok tt /\
  exists c, derives entry c /\ (length c <= MAX_CHAIN_DEPTH)%nat /\ rc = resolution entry c.
Proof.
  unfold resolve_verified. split.
  - intros ([] & Hv%validated_Ok & H)%bind_Ok. apply bind_Ok in H as ([ps ls] & Hw & <-%(inj Ok)).
    apply walk_sound in Hw as (c & Hd & Hl & -> & ->). split; [done|]. by exists c.
  - intros (Hv & c & Hd & Hl & ->). rewrite (proj2 (validated_Ok entry) Hv). cbn [mbind result_bind].
    rewrite (walk_complete entry c) by (done || set_solver). done.
Qed.

Lemma origin_of_chain entry c :
  match provides_origin_of t entry c.*1 c.*2 with
  | Absent => s_provides (w_val (fold_chain entry c.*1)) = []
  | Entry => s_provides (w_val (fold_chain entry c.*1)) = s_provides entry /\ s_provides entry <> []
  | Ancestor tier => exists q l, (q, l) ∈ c /\ s_provides q <> [] /\
      s_provides (w_val (fold_chain entry c.*1)) = s_provides q /\
      tier = option_map (tier_of t) (ln_signing_key_id l)
  end.
Proof.
  rewrite provides_chain. unfold provides_origin_of. cbn [supplier List.find].
  destruct (s_provides entry) as [|e es] eqn:E; cbn [is_nil negb]; [|cbn; by rewrite E].
  rewrite first_provider_zip. change (List.find _ c.*1) with (supplier c.*1). rewrite supplier_zip.
  destruct (List.find _ c) as [[q l]|] eqn:Ef; cbn [option_map mbind option_bind]; [|done].
  apply find_some in Ef as [Hin Hn]. exists q, l. split; [by apply list_elem_of_In|].
  cbn in Hn |- *. by destruct (s_provides q).
Qed.
End chains.

(** ** Path lists *)

Inductive PathKey : Type := KRead | KWrite | KDeny | KExec.
Definition path_field (k : PathKey) (p : SourcePolicy) : option PathField :=
  match k with
  | KRead => fs ← s_fs p; fss_read fs
  | KWrite => fs ← s_fs p; fss_write fs
  | KDeny => fs ← s_fs p; fss_deny fs
  | KExec => e ← s_exec p; xs_allow e
  end.
Definition has_section (k : PathKey) (p : SourcePolicy) : bool :=
  match k with KExec => negb (is_none (s_exec p)) | _ => negb (is_none (s_fs p)) end.
(** The concrete list a later stage reads. *)
Definition grants (k : PathKey) (p : SourcePolicy) : list bytes := on_some pf_resolved (path_field k p).

Definition added (d : PathDelta) (x : bytes) : Prop := exists e, e ∈ pd_add d /\ x ∈ ent_path e.
Definition removed (d : PathDelta) (x : bytes) : Prop := exists e, e ∈ pd_remove d /\ x ∈ ent_path e.

Lemma elem_of_adds x (es : list PathEntry) base :
  x ∈ fold_left (fun b e => union_strings b (ent_path e)) es base <->
  x ∈ base \/ exists e, e ∈ es /\ x ∈ ent_path e.
Proof.
  revert base; induction es as [|e es IH]; intros base; cbn [fold_left]; [set_solver|].
  rewrite IH, elem_of_union_strings. set_solver.
Qed.

Lemma elem_of_pathfield x child parent field :
  x ∈ on_some pf_resolved (w_val (fold_pathfield child parent field)) <->
  match child with
  | None => x ∈ on_some pf_resolved parent
  | Some (PfSet v) => x ∈ v
  | Some (PfDelta d) => (x ∈ on_some pf_resolved parent \/ added d x) /\ ~ removed d x
  end.
Proof.
  destruct child as [[v|d]|]; [destruct parent as [[]|]; done| |done].
  cbn -[union_strings].
  rewrite list_elem_of_In, filter_In, <- list_elem_of_In, elem_of_adds, negb_true_iff, <- not_true_iff_false.
  assert (existsb (fun e => bool_decide (x ∈ ent_path e)) (pd_remove d) = true <-> removed d x) as ->.
  { rewrite existsb_exists. unfold removed. split.
    - intros (e & He%list_elem_of_In & Hx%bool_decide_eq_true). by exists e.
    - intros (e & He%list_elem_of_In & Hx). exists e. by rewrite bool_decide_eq_true. }
  by destruct parent as [[]|].
Qed.

Lemma path_field_fold k p c :
  path_field k (w_val (fold p c)) =
  if has_section k p && has_section k c
  then w_val (fold_pathfield (path_field k c) (path_field k p)
                (match k with KRead => str "fs.read" | KWrite => str "fs.write" | KDeny => str "fs.deny"
                 | KExec => str "exec.allow" end))
  else if has_section k c then path_field k c else path_field k p.
Proof.
  destruct k; cbn [path_field has_section]; rewrite ?s_fs_fold, ?s_exec_fold;
    destruct (s_fs p), (s_fs c), (s_exec p), (s_exec c); done.
Qed.

Lemma has_section_fold k p c : has_section k (w_val (fold p c)) = has_section k c || has_section k p.
Proof.
  destruct k; cbn [has_section]; rewrite ?s_fs_fold, ?s_exec_fold;
    destruct (s_fs p), (s_fs c), (s_exec p), (s_exec c); done.
Qed.
Lemma no_section_field k p : has_section k p = false -> path_field k p = None.
Proof. destruct k; cbn [has_section path_field]; by destruct (s_fs p), (s_exec p). Qed.

Lemma grants_fold k x p c :
  x ∈ grants k (w_val (fold p c)) <->
  match path_field k c with
  | None => x ∈ grants k p
  | Some (PfSet v) => x ∈ v
  | Some (PfDelta d) => has_section k p = true /\ (x ∈ grants k p \/ added d x) /\ ~ removed d x
  end.
Proof.
  unfold grants. rewrite path_field_fold.
  destruct (has_section k c) eqn:Ec; [|by rewrite (no_section_field _ _ Ec), andb_false_r].
  destruct (has_section k p) eqn:Ep; cbn [andb].
  - rewrite elem_of_pathfield. destruct (path_field k c) as [[]|]; tauto.
  - rewrite (no_section_field _ _ Ep). destruct (path_field k c) as [[]|]; cbn; rewrite ?elem_of_nil; try tauto.
    split; [done|]. by intros [? _].
Qed.

(** The reading of a chain, most derived first: the nearest bare set decides, and an
    increment counts only over a section some ancestor of it declares. *)
Fixpoint granted (k : PathKey) (x : bytes) (l : list SourcePolicy) (root : SourcePolicy) : Prop :=
  match l with
  | [] => x ∈ grants k root
  | c :: l =>
      match path_field k c with
      | None => granted k x l root
      | Some (PfSet v) => x ∈ v
      | Some (PfDelta d) =>
          (exists a, a ∈ l ++ [root] /\ has_section k a = true) /\
          (granted k x l root \/ added d x) /\ ~ removed d x
      end
  end.

Lemma composed_section k l root :
  has_section k (composed l root) = true <-> exists a, a ∈ l ++ [root] /\ has_section k a = true.
Proof.
  induction l as [|c l IH]; cbn [composed app].
  - split; [intros ?; exists root; set_solver|]. by intros (a & ->%list_elem_of_singleton & ?).
  - rewrite has_section_fold, orb_true_iff, IH. split.
    + intros [?|(a & ? & ?)]; [exists c|exists a]; set_solver.
    + intros (a & [->|?]%elem_of_cons & ?); [by left|right; by exists a].
Qed.

Lemma composed_grants k x l root : x ∈ grants k (composed l root) <-> granted k x l root.
Proof.
  induction l as [|c l IH]; cbn [composed granted]; [done|].
  rewrite grants_fold. by destruct (path_field k c) as [[]|]; rewrite ?composed_section, ?IH.
Qed.

Lemma grants_with_identity k b tn n inc p : grants k (with_identity b tn n inc p) = grants k p.
Proof. by destruct k. Qed.
Lemma floor_with_identity k b tn n inc p : floor_of k (with_identity b tn n inc p) = floor_of k p.
Proof. by destruct k. Qed.

(** ** Fragments *)

(** Split a conjunction of tests. *)
Ltac bands H := rewrite !andb_true_iff in H; destruct_and! H.
Lemma is_none_true {A} (o : option A) : is_none o = true -> o = None.
Proof. by destruct o. Qed.
Lemma is_nil_true {A} (l : list A) : is_nil l = true -> l = [].
Proof. by destruct l. Qed.

Lemma merge_None_r {A} (f : A -> A -> A) p : merge f p None = p.
Proof. by destruct p. Qed.

(** The sections a fragment cannot have. *)
Lemma additive_absent f : is_additive_only f = true ->
  s_provides f = [] /\ s_spawn f = None /\ s_mutable f = [] /\ s_cap f = None /\ s_seccomp f = None /\
  s_identity f = None /\ s_env f = None /\ s_rootfs f = None /\ s_workload f = None /\ s_dbus f = None /\
  s_lifecycle f = None /\ s_trust f = None /\ s_service f = None /\ s_audit f = None /\ s_ulimits f = None /\
  s_tty f = None.
Proof.
  unfold is_additive_only, top_additive. intros H. bands H. split_and!; by (apply is_none_true || apply is_nil_true).
Qed.

Lemma additive_path_field k f : is_additive_only f = true ->
  match path_field k f with Some (PfSet _) => False | Some (PfDelta d) => pd_remove d = [] | None => True end.
Proof.
  unfold is_additive_only. intros H. bands H.
  assert (forall o, none_or pf_is_additive o = true ->
    match o with Some (PfSet _) => False | Some (PfDelta d) => pd_remove d = [] | None => True end) as Hpf.
  { intros [[v|d]|]; cbn; [done|apply is_nil_true|done]. }
  destruct k; cbn [path_field]; [destruct (s_fs f) as [x|]..|destruct (s_exec f) as [x|]]; try done;
    cbn [none_or] in *; apply Hpf;
    match goal with
    | H : fs_additive _ = true |- _ => unfold fs_additive in H; by bands H
    | H : exec_additive _ = true |- _ => unfold exec_additive in H; by bands H
    end.
Qed.

(** * Claims *)

(** C9: Resolution is exactly the verified chain: it succeeds if and only if the entry is
    valid and its references lead, through artefacts that are found, parse, are valid
    and pass the trust check, to one without a reference in at most sixteen steps;
    it then returns the fold of that chain.  Such a chain never repeats a name, so
    the cycle test refuses none of them, and when signatures are required every
    ancestor's own signature verified over its own canonical text. *)
Theorem resolution_exact {C : Crypto} {T : SourceToml} fetch t entry :
  (forall rc, resolve_verified fetch t entry = Ok rc <->
     source_validate entry = Ok tt /\
     exists c, derives fetch t entry c /\ (length c <= 16)%nat /\ rc = resolution t entry c) /\
  (forall c, derives fetch t entry c ->
     NoDup (names c) /\
     (tc_mode t = Require_ -> forall q l, (q, l) ∈ c ->
        exists env keys canonical, s_signature q = Some env /\ tc_keys t = Some keys /\
          source_text (drop_signature q) = Some canonical /\
          verify_signature canonical env keys = Ok tt /\ ln_signing_key_id l = Some (se_key_id env))).
Proof.
  split; [intros rc; apply resolve_verified_Ok|]. intros c Hd. split; [by eapply derives_nodup|].
  intros Hm q l Hin. destruct (derives_link fetch t _ _ _ _ Hd Hin) as (text & k & _ & _ & _ & Ht & ->).
  destruct (trust_check_require _ _ _ _ Ht Hm) as [kid ->].
  apply trust_check_Ok in Ht as (env & keys & canonical & ? & -> & ? & ? & ?).
  by exists env, keys, canonical.
Qed.

(** The floors of a chain are the floors of its result: a system call, executable,
    variable, address family or invariant network is denied by the effective policy
    exactly when some artefact of the chain denies it, whatever the others set. *)
Theorem chain_floors_exact {C : Crypto} {T : SourceToml} fetch t entry c rc k x :
  resolve_verified fetch t entry = Ok rc -> derives fetch t entry c ->
  x ∈ floor_of k (rc_effective rc) <-> exists a, a ∈ entry :: c.*1 /\ x ∈ floor_of k a.
Proof.
  intros (_ & c' & Hd' & _ & ->)%resolve_verified_Ok Hd. rewrite (derives_det _ _ _ _ _ Hd Hd').
  cbn [resolution rc_effective]. rewrite floor_with_identity. apply floor_chain.
Qed.

(** C26: The paths a chain grants: reading from the entry up, an artefact that does not
    mention the list defers to its ancestors, one with a bare set decides alone, and
    one with an increment adds and removes over what its ancestors grant; but an
    increment is lost, additions included, when no ancestor has the section at all,
    since the fold then copies it without applying it. *)
Theorem chain_grants_exact {C : Crypto} {T : SourceToml} fetch t entry ps root links rc k x :
  resolve_verified fetch t entry = Ok rc ->
  derives fetch t entry (zip (ps ++ [root]) links) -> length links = length (ps ++ [root]) ->
  x ∈ grants k (rc_effective rc) <-> granted k x (entry :: ps) root.
Proof.
  intros (_ & c' & Hd' & _ & ->)%resolve_verified_Ok Hd Hl. rewrite <- (derives_det _ _ _ _ _ Hd Hd').
  cbn [resolution rc_effective]. rewrite grants_with_identity, fst_zip by lia.
  rewrite fold_chain_composed. apply composed_grants.
Qed.

(** The origin recorded for the provided names is true: it says that there are none,
    that they are the entry's, or that they are those of an ancestor, and then its
    tier is that of the key under which that very ancestor's signature verified. *)
Theorem provides_origin_exact {C : Crypto} {T : SourceToml} fetch t entry rc :
  resolve_verified fetch t entry = Ok rc ->
  match rc_provides_origin rc with
  | Absent => s_provides (rc_effective rc) = []
  | Entry => s_provides (rc_effective rc) = s_provides entry /\ s_provides entry <> []
  | Ancestor tier => exists name text q k,
      fetch name = Some text /\ source_parse text = Some q /\ trust_check t name q = Ok k /\
      s_provides (rc_effective rc) = s_provides q /\ s_provides q <> [] /\
      tier = option_map (tier_of t) k
  end.
Proof.
  intros (_ & c & Hd & _ & ->)%resolve_verified_Ok. pose proof (origin_of_chain t entry c) as H.
  cbn [resolution rc_provides_origin rc_effective with_identity s_provides].
  destruct (provides_origin_of t entry c.*1 c.*2) as [| |tier]; [done..|].
  destruct H as (q & l & Hin & Hn & Hp & ->).
  destruct (derives_link fetch t _ _ _ _ Hd Hin) as (text & k & Hf & Hs & _ & Ht & Hl).
  exists (ln_name l), text, q, k. rewrite Hl. done.
Qed.

(** A fragment only adds.  Applying one keeps every path grant and every floor of
    the policy it is applied to, leaves its provided names, spawn grant, mutable
    fields, capabilities, system calls, identity, environment, root filesystem,
    workload and bus rules as they are, and keeps the network mode and the
    framework's exec denials. *)
Theorem fragment_only_adds base f :
  is_additive_only f = true ->
  let e := apply_fragment base f in
  (forall k x, x ∈ grants k base -> x ∈ grants k e) /\
  (forall k x, x ∈ floor_of k base -> x ∈ floor_of k e) /\
  s_provides e = s_provides base /\ s_spawn e = s_spawn base /\ s_mutable e = s_mutable base /\
  s_cap e = s_cap base /\ s_seccomp e = s_seccomp base /\ s_identity e = s_identity base /\
  s_env e = s_env base /\ s_rootfs e = s_rootfs base /\ s_workload e = s_workload base /\
  s_dbus e = s_dbus base /\
  (forall n, s_net base = Some n -> (n' ← s_net e; ns_mode n') = ns_mode n) /\
  (forall x, s_exec base = Some x -> exists x', s_exec e = Some x' /\
     xs_deny_setuid x' = xs_deny_setuid x /\ xs_deny_setgid x' = xs_deny_setgid x /\
     xs_deny_setcap x' = xs_deny_setcap x /\ xs_deny_writable x' = xs_deny_writable x).
Proof.
  intros H. cbv zeta. pose proof (additive_absent _ H) as (Hpv & Hsp & Hmu & Hca & Hse & Hid & Hen & Hro & Hwo & Hdb & _).
  unfold apply_fragment. split_and!.
  - intros k x Hx. rewrite grants_with_identity. apply grants_fold. pose proof (additive_path_field k f H) as Hk.
    destruct (path_field k f) as [[v|d]|]; [done| |done]. split_and!; [|by left|].
    + destruct (has_section k base) eqn:Es; [done|]. unfold grants in Hx.
      rewrite (no_section_field _ _ Es) in Hx. by apply elem_of_nil in Hx.
    + intros (e & He & _). rewrite Hk in He. by apply elem_of_nil in He.
  - intros k x Hx. rewrite floor_with_identity. apply floor_fold. by left.
  - cbn [with_identity s_provides]. by rewrite provides_fold, Hpv.
  - etransitivity; [exact (w_val_merge fold_spawn _ _)|]. rewrite Hsp. apply merge_None_r.
  - transitivity (if is_nil (s_mutable f) then s_mutable base else s_mutable f); [done|]. by rewrite Hmu.
  - etransitivity; [exact (eq_refl (merge fold_cap _ _))|]. rewrite Hca. apply merge_None_r.
  - etransitivity; [exact (eq_refl (merge fold_seccomp _ _))|]. rewrite Hse. apply merge_None_r.
  - etransitivity; [exact (w_val_merge fold_identity _ _)|]. rewrite Hid. apply merge_None_r.
  - etransitivity; [exact (eq_refl (merge fold_env _ _))|]. rewrite Hen. apply merge_None_r.
  - etransitivity; [exact (eq_refl (merge fold_rootfs _ _))|]. rewrite Hro. apply merge_None_r.
  - etransitivity; [exact (eq_refl (merge fold_workload _ _))|]. rewrite Hwo. apply merge_None_r.
  - etransitivity; [exact (eq_refl (merge fold_dbus _ _))|]. rewrite Hdb. apply merge_None_r.
  - intros n Hn. cbn [with_identity s_net]. rewrite s_net_fold, Hn. unfold is_additive_only in H. bands H.
    destruct (s_net f) as [nf|]; [|done]. cbn [none_or] in *.
    match goal with Hf : net_additive _ = true |- _ => unfold net_additive in Hf; bands Hf end.
    repeat match goal with Hm : is_none _ = true |- _ => apply is_none_true in Hm end.
    change (or_ (ns_mode nf) (ns_mode n) = ns_mode n).
    by match goal with Hm : ns_mode nf = None |- _ => rewrite Hm end.
  - intros x Hx. cbn [with_identity s_exec]. rewrite s_exec_fold, Hx. unfold is_additive_only in H. bands H.
    destruct (s_exec f) as [xf|]; [|by exists x]. cbn [none_or merge] in *.
    match goal with Hf : exec_additive _ = true |- _ => unfold exec_additive in Hf; bands Hf end.
    repeat match goal with Hm : is_none _ = true |- _ => apply is_none_true in Hm end.
    eexists. split; [done|].
    change (or_ (xs_deny_setuid xf) (xs_deny_setuid x) = xs_deny_setuid x /\
            or_ (xs_deny_setgid xf) (xs_deny_setgid x) = xs_deny_setgid x /\
            or_ (xs_deny_setcap xf) (xs_deny_setcap x) = xs_deny_setcap x /\
            or_ (xs_deny_writable xf) (xs_deny_writable x) = xs_deny_writable x).
    repeat match goal with Hm : _ xf = None |- _ => rewrite Hm; clear Hm end. done.
Qed.

(** But an additive fragment can set what a list does not hold: its [fs.cwd]
    replaces that of the policy, so that a fragment can turn a working directory
    that is not granted into a writable one, and its [allow_headless] replaces the
    policy's. *)
Theorem fragment_sets_cwd base f b x cwd hb hf h :
  is_additive_only f = true ->
  s_fs base = Some b -> s_fs f = Some x -> fss_cwd x = Some cwd ->
  s_ssh base = Some hb -> s_ssh f = Some hf -> sss_allow_headless hf = Some h ->
  (fs ← s_fs (apply_fragment base f); fss_cwd fs) = Some cwd /\
  (ssh ← s_ssh (apply_fragment base f); sss_allow_headless ssh) = Some h.
Proof.
  intros _ Hb Hx Hc Hhb Hhf Hh. unfold apply_fragment. cbn [with_identity s_fs s_ssh]. split.
  - rewrite s_fs_fold, Hb, Hx. change (or_ (fss_cwd x) (fss_cwd b) = Some cwd). by rewrite Hc.
  - assert (s_ssh (w_val (fold base f)) = merge (fun p c => w_val (fold_ssh p c)) (s_ssh base) (s_ssh f)) as ->
      by exact (w_val_merge fold_ssh _ _).
    rewrite Hhb, Hhf. change (or_ (sss_allow_headless hf) (sss_allow_headless hb) = Some h). by rewrite Hh.
Qed.

(** ** A template and a leaf *)

Definition some_reason : option bytes := Some (str "a reason").
Definition adds (paths : list bytes) : PathField := PfDelta {|
  pd_add := [{| ent_path := paths; ent_source := None; ent_reason := some_reason; ent_threats := None |}];
  pd_remove := [] |}.
Definition exec_of (allow : option PathField) : ExecSection := {|
  xs_allow := allow; xs_deny := None; xs_deny_setuid := None; xs_deny_setgid := None;
  xs_deny_setcap := None; xs_deny_writable := None; xs_path := None; xs_shell := None |}.
Definition fs_reads (read : option PathField) : FsSection := {|
  fss_read := read; fss_write := None; fss_exclusive := None; fss_deny := None; fss_home := None;
  fss_tmp := None; fss_proc := None; fss_dev := None; fss_cwd := None; fss_redirect := [] |}.
Definition sample_policy (base template name : option bytes) (x : option ExecSection)
    (f : option FsSection) (n : option NetSection) (pv : list ProvidesEntry) (deny : list bytes) :
    SourcePolicy := {|
  s_template_base := base; s_template_name := template; s_name := name; s_include := [];
  s_threat_catalogue_version := None; s_signature := None; s_cap := None; s_exec := x;
  s_fs := f; s_net := n; s_unix := None; s_ssh := None; s_identity := None;
  s_provides := pv; s_consumes := lf_default; s_service := None; s_unsafe_section := None;
  s_env := None; s_seccomp := Some {| scs_profile := None; scs_deny := Some deny; scs_allow := None |};
  s_lifecycle := None; s_audit := None; s_ulimits := None; s_workload := None; s_tty := None;
  s_trust := None; s_dbus := None; s_rootfs := None; s_spawn := None; s_mutable := [] |}.
Definition sample_provide : ProvidesEntry := {|
  pe_name := str "tool"; pe_shape := AfUnix; pe_endpoint := None; pe_key := None;
  pe_reason := some_reason; pe_threats := None |}.

Definition sample_base : SourcePolicy :=
  sample_policy None (Some (str "base-confined")) None None
    (Some (fs_reads (Some (PfSet [str "/usr"])))) None [sample_provide] [str "bpf"].
Definition sample_leaf : SourcePolicy :=
  sample_policy (Some (str "base-confined")) None (Some (str "work")) (Some (exec_of (Some (adds [str "/bin/sh"]))))
    (Some (fs_reads (Some (adds [str "/srv"])))) None [] [str "mount"].
Definition sample_toml : SourceToml := {|
  source_parse := fun b => if bool_decide (b = [0]) then Some sample_base else None;
  source_text := fun _ => Some [0] |}.
Definition sample_fetch (name : bytes) : option bytes :=
  if bool_decide (name = str "base-confined") then Some [0] else None.
Definition sample_chain : list (SourcePolicy * ChainLink) :=
  zip [sample_base] [link_of (str "base-confined") None sample_base].

Lemma sample_derives : derives (C := toy_crypto) (T := sample_toml) sample_fetch trust_dev sample_leaf sample_chain.
Proof. by eapply (derives_step (T := sample_toml)) with (text := [0]); [..|by constructor]. Qed.
Lemma sample_resolves :
  resolve_verified (C := toy_crypto) (T := sample_toml) sample_fetch trust_dev sample_leaf =
  Ok (resolution trust_dev sample_leaf sample_chain).
Proof.
  apply resolve_verified_Ok. split; [done|]. exists sample_chain. split; [apply sample_derives|].
  split; [by apply Nat.leb_le|done].
Qed.

Lemma chain_floors_exact_witness :
  str "bpf" ∈ floor_of FlSeccomp (rc_effective (resolution trust_dev sample_leaf sample_chain)).
Proof.
  apply (chain_floors_exact (T := sample_toml) _ _ _ _ _ _ _ sample_resolves sample_derives).
  exists sample_base. split; [by right; left|]. by left.
Defined.

(** The leaf's read increment is applied, its exec increment is lost. *)
Lemma chain_grants_exact_witness :
  str "/srv" ∈ grants KRead (rc_effective (resolution trust_dev sample_leaf sample_chain)) /\
  str "/bin/sh" ∉ grants KExec (rc_effective (resolution trust_dev sample_leaf sample_chain)).
Proof.
  split.
  - apply (chain_grants_exact (T := sample_toml) sample_fetch trust_dev sample_leaf [] sample_base
      [link_of (str "base-confined") None sample_base] _ KRead _ sample_resolves sample_derives); [done|].
    cbn [granted path_field sample_leaf]. split; [by exists sample_base; split; [left|]|].
    split; [right|by intros (e & ?%elem_of_nil & _)]. eexists; split; [by left|by left].
  - intros H. apply (chain_grants_exact (T := sample_toml) sample_fetch trust_dev sample_leaf [] sample_base
      [link_of (str "base-confined") None sample_base] _ KExec _ sample_resolves sample_derives) in H; [|done].
    destruct H as [(a & ->%list_elem_of_singleton & ?) _]. done.
Defined.

Lemma provides_origin_exact_witness :
  rc_provides_origin (resolution trust_dev sample_leaf sample_chain) = Ancestor None /\
  exists q, s_provides (rc_effective (resolution trust_dev sample_leaf sample_chain)) = s_provides q.
Proof.
  split; [done|].
  destruct (provides_origin_exact (T := sample_toml) _ _ _ _ sample_resolves) as (_ & _ & q & _ & _ & _ & _ & H & _).
  by exists q.
Defined.

Lemma resolution_exact_witness :
  resolve_verified (C := toy_crypto) (T := sample_toml) sample_fetch trust_dev sample_leaf =
    Ok (resolution trust_dev sample_leaf sample_chain) /\ NoDup (names sample_chain).
Proof.
  destruct (resolution_exact (C := toy_crypto) (T := sample_toml) sample_fetch trust_dev sample_leaf) as [Hr Hc].
  split; [|by apply Hc, sample_derives]. apply Hr. split; [done|].
  exists sample_chain. split; [apply sample_derives|]. split; [by apply Nat.leb_le|done].
Defined.

Definition sample_ssh (headless : option bool) : SshSection :=
  {| sss_allow_headless := headless; sss_threats := None; sss_destinations := lf_default |}.
Definition sample_fs (read : PathField) (cwd : option FsCwd) : FsSection := {|
  fss_read := Some read; fss_write := None; fss_exclusive := None; fss_deny := None; fss_home := None;
  fss_tmp := None; fss_proc := None; fss_dev := None; fss_cwd := cwd; fss_redirect := [] |}.
Definition with_ssh (h : SshSection) (p : SourcePolicy) : SourcePolicy := {|
  s_template_base := s_template_base p; s_template_name := s_template_name p; s_name := s_name p;
  s_include := s_include p; s_threat_catalogue_version := None; s_signature := None; s_cap := s_cap p;
  s_exec := s_exec p; s_fs := s_fs p; s_net := s_net p; s_unix := s_unix p; s_ssh := Some h;
  s_identity := None; s_provides := []; s_consumes := lf_default; s_service := None;
  s_unsafe_section := None; s_env := None; s_seccomp := None; s_lifecycle := None; s_audit := None;
  s_ulimits := None; s_workload := None; s_tty := None; s_trust := None; s_dbus := None; s_rootfs := None;
  s_spawn := None; s_mutable := [] |}.
Definition write_cwd : FsCwd := {|
  fcw_grant := Some (str "write"); fcw_required := None; fcw_reason := some_reason |}.
Definition sample_host : SourcePolicy := with_ssh (sample_ssh (Some false)) sample_base.
Definition sample_fragment : SourcePolicy := with_ssh (sample_ssh (Some true))
  (sample_policy None None (Some (str "extra")) None (Some (sample_fs (adds [str "/opt"]) (Some write_cwd)))
     None [] []).
Lemma fragment_only_adds_witness :
  is_additive_only sample_fragment = true /\ str "/usr" ∈ grants KRead (apply_fragment sample_host sample_fragment).
Proof. split; [done|]. by apply (fragment_only_adds sample_host sample_fragment); [|by left]. Defined.
Lemma fragment_sets_cwd_witness :
  (fs ← s_fs (apply_fragment sample_host sample_fragment); fss_cwd fs) = Some write_cwd.
Proof. by eapply (fragment_sets_cwd sample_host sample_fragment). Defined.
