(* ===== verification/ControlSocket.v ===== *)
(** The control socket's ungrantability ([kennel-lib-control/src/socket.rs]).

    A kennel that reaches the daemon's control socket could drive the daemon, so
    no policy may grant it: a socket grant must not name it and a filesystem
    grant must not name it or a directory above it.  The checks work on the
    path's text.  The runtime directory comes from the environment, so the
    socket's own path is a parameter. *)

From S2P Require Import Prelude Bytes Str Paths Source.
Open Scope Z_scope.

(** [lexical_normalize], as the components of the path it builds. *)
Definition norm_step (out : list component) (c : component) : list component :=
  match c with
  | ParentDir => match rev out with
                 | Normal _ :: init => rev init
                 | _ => out
                 end
  | CurDir => out
  | RootDir => [RootDir]
  | Normal s => out ++ [Normal s]
  end.
Definition lexical_normalize (p : bytes) : list component := fold_left norm_step (components p) [].

Definition is_uid (s : bytes) : bool := negb (is_nil s) && forallb is_digit s.

Inductive chain_label : Type := Lit (s : bytes) | Uid.
Definition CHAIN : list chain_label :=
  [Lit (str "run"); Lit (str "user"); Uid; Lit (str "kennel"); Lit (str "control.sock")].
Definition label_ok (l : chain_label) (c : component) : bool :=
  match c with
  | Normal s => match l with Lit lit => bool_decide (s = lit) | Uid => is_uid s end
  | _ => false
  end.
(** The loop over the components: each must meet its label, and there are no more than labels. *)
Fixpoint chain_prefix (labels : list chain_label) (cs : list component) : bool :=
  match cs, labels with
  | [], _ => true
  | c :: cs, l :: labels => label_ok l c && chain_prefix labels cs
  | _ :: _, [] => false
  end.

Section socket.
Context (socket_path : bytes).

Definition is_control_socket (candidate : bytes) : bool :=
  let norm := lexical_normalize candidate in
  bool_decide (norm = components socket_path) ||
  match norm with
  | [RootDir; run; user; uid; kennel; sock] =>
      label_ok (Lit (str "run")) run && label_ok (Lit (str "user")) user && label_ok Uid uid &&
      label_ok (Lit (str "kennel")) kennel && label_ok (Lit (str "control.sock")) sock
  | _ => false
  end.

Definition grant_exposes_control_socket (candidate : bytes) : bool :=
  let norm := lexical_normalize candidate in
  bool_decide (norm `prefix_of` components socket_path) ||
  match norm with
  | RootDir :: cs => chain_prefix CHAIN cs
  | _ => false
  end.
End socket.

(** * Lemmas *)

(** The control socket of some user, in components. *)
Definition user_socket (uid : bytes) : list component :=
  [RootDir; Normal (str "run"); Normal (str "user"); Normal uid; Normal (str "kennel");
   Normal (str "control.sock")].

Lemma label_ok_Lit lit c : label_ok (Lit lit) c = true <-> c = Normal lit.
Proof.
  destruct c as [| | |s]; cbn; [split; intros; congruence..|].
  rewrite bool_decide_eq_true. split; [by intros ->|by intros [= ->]].
Qed.
Lemma label_ok_Uid c : label_ok Uid c = true <-> exists s, c = Normal s /\ is_uid s = true.
Proof.
  destruct c as [| | |s]; cbn; [split; [congruence|by intros (? & ? & _)]..|].
  split; [by exists s|by intros (? & [= <-] & ?)].
Qed.

Lemma uid_zero : is_uid (str "0") = true.
Proof. done. Qed.

Lemma chain_prefix_spec cs :
  chain_prefix CHAIN cs = true <-> exists uid, is_uid uid = true /\ RootDir :: cs `prefix_of` user_socket uid.
Proof.
  unfold user_socket, CHAIN. split.
  - intros H.
    destruct cs as [|c1 cs]; [exists (str "0"); split; [done|by eexists]|].
    cbn [chain_prefix] in H. apply andb_true_iff in H as [->%label_ok_Lit H].
    destruct cs as [|c2 cs]; [exists (str "0"); split; [done|by eexists]|].
    cbn [chain_prefix] in H. apply andb_true_iff in H as [->%label_ok_Lit H].
    destruct cs as [|c3 cs]; [exists (str "0"); split; [done|by eexists]|].
    cbn [chain_prefix] in H. apply andb_true_iff in H as [(u & -> & Hu)%label_ok_Uid H].
    exists u. split; [done|].
    destruct cs as [|c4 cs]; [by eexists|].
    cbn [chain_prefix] in H. apply andb_true_iff in H as [->%label_ok_Lit H].
    destruct cs as [|c5 cs]; [by eexists|].
    cbn [chain_prefix] in H. apply andb_true_iff in H as [->%label_ok_Lit H].
    destruct cs; [by eexists|done].
  - intros (u & Hu & k & Hk).
    do 6 (destruct cs as [|? cs]; [simplify_eq/=; by rewrite ?Hu|simplify_eq/=]).
Qed.

(** * Claims *)

(** A filesystem grant is refused exactly when its normalised path is the daemon's own
    control socket or a directory above it, or the control socket of any user or a
    directory above that one. *)
Theorem grant_exposes_exact sock p :
  grant_exposes_control_socket sock p = true <->
  lexical_normalize p `prefix_of` components sock \/
  exists uid, is_uid uid = true /\ lexical_normalize p `prefix_of` user_socket uid.
Proof.
  unfold grant_exposes_control_socket. rewrite orb_true_iff, bool_decide_eq_true.
  destruct (lexical_normalize p) as [|c cs].
  - split; [intros [?|?]; [by left|done]|]. intros [?|_]; left; [done|apply prefix_nil].
  - destruct c as [| | |s].
    2-4: split; [intros [?|?]; [by left|done]|]; intros [?|(u & _ & H)]; [by left|];
         by apply prefix_cons_inv_1 in H.
    by rewrite chain_prefix_spec.
Qed.

(** The check reads a glob as a name: a grant of everything below the runtime directory
    passes, although the directory it stands for is refused when it is written plainly,
    and so does one that leaves the user id to the daemon. *)
Theorem globbed_grant_passes sock uid :
  components sock = user_socket uid -> uid <> str "**" -> uid <> str "<uid>" ->
  grant_exposes_control_socket sock (str "/run/user") = true /\
  grant_exposes_control_socket sock (str "/run/user/**") = false /\
  grant_exposes_control_socket sock (str "/run/user/<uid>/kennel") = false.
Proof.
  intros Hc H1 H2. split; [unfold grant_exposes_control_socket; apply orb_true_iff; by right|].
  assert (forall s cs, uid <> s -> ~ [RootDir; Normal (str "run"); Normal (str "user"); Normal s] ++ cs `prefix_of` components sock) as Hn.
  { intros s cs Hs [k Hk]. rewrite Hc in Hk. unfold user_socket in Hk. cbn [app] in Hk. congruence. }
  split; unfold grant_exposes_control_socket; apply orb_false_iff; (split; [|done]);
    apply bool_decide_eq_false.
  - by apply (Hn (str "**") []).
  - by apply (Hn (str "<uid>") [Normal (str "kennel")]).
Qed.

Lemma globbed_grant_passes_witness :
  grant_exposes_control_socket (str "/run/user/1000/kennel/control.sock") (str "/run/user/**") = false.
Proof.
  by apply (globbed_grant_passes (str "/run/user/1000/kennel/control.sock") (str "1000")).
Defined.
