(* ===== verification/Translate.v ===== *)
(** From the effective source policy to the settled one
    ([kennel-lib-compile/src/translate.rs], [kennel-lib-policy/src/audit.rs]).

    The human forms become machine forms: networks, sizes, durations, ports,
    modes.  Nothing is substituted: every [<token>] of a translated string is
    recorded for the daemon.  The code threads the set of tokens through the
    translation of each string and stops at the first error: the monad [tr] is
    that, with the tokens as a log that [deferred_set] orders at the end.
    Messages are constructors.

    Theorems: the deny rules and the denied system calls of the settled policy
    are those of the source; what a grant must satisfy to be settled; every
    token of a settled path is recorded; which source fields have no effect;
    where the denials a policy adds are lost. *)

From S2P Require Import Prelude Bytes Str Paths IpText Plan Settled Cursor ControlWire Mesh.
From S2P Require Import PlanBuild Patch B64 Sshsig Verify BinderWire SpawnVerb Registry Source SourceSig MeshBus.
From S2P Require Import Resolve ControlSocket.
Open Scope Z_scope.

Inductive TransError : Type :=
  | TMissing (section : bytes)
  | TRootfsField (field : bytes) | TRootfsWorkload | TPersistence (v : bytes) | TPersistReadonly
  | TSpawnReason | TSpawnNoMax | TSpawnZero | TSpawnEmpty | TSpawnNoTemplate
  | TSpawnRef (template : bytes) (e : RefError) | TSpawnNarrow (template : bytes)
  | TMutField | TMutTwice (field : bytes) | TMutUnknown (field : bytes) | TMutTooBig (n : Z)
  | TMutKinds (field : bytes) (kinds : Z) | TMutPoolEmpty (field : bytes) | TMutPoolNoMax (field : bytes)
  | TMutPoolZero (field : bytes) | TMutOneofEmpty (field : bytes) | TMutMatchEmpty (field : bytes)
  | TMutPattern (field : bytes) (e : DestError) | TMutFreeform (field : bytes)
  | TMutType (field ty : bytes) | TMutUnder (field : bytes)
  | TNetMode (mode : bytes) | THostReason | THostProxy | TUdpMode | TProxyAddr (addr : bytes)
  | TProtocol (p : bytes) | TUdpProtocol (endpoint : bytes) | TUdpCidr (endpoint cidr : bytes)
  | TNoDestination (endpoint : bytes) | TCidr (cidr : bytes) | TBpfNoCidr
  | TBindPorts (n : Z) | TBpfCap (label : bytes) (n cap : Z)
  | TSize (s : bytes) | TExclusive (p : bytes)
  | TRedirectGone (path : bytes) | TRedirectProc (path : bytes) | TRedirectParent (p : bytes)
  | TRedirectTwice (path : bytes) | TControlSocket (p : bytes) | TCwdGrant (g : bytes)
  | TShell (shell : bytes) | TTtlAction (a : bytes) | TDuration (s : bytes) | TServiceZero
  | TUserName (field name : bytes) | THostname (h : bytes) | TSha256 (h : bytes)
  | TUlimit (name : bytes) | TUlimitValue (name tok : bytes)
  | TSink (name : bytes) | TLevel (l : bytes) | TFacility (f : bytes).

(** ** The monad *)

Definition tr (A : Type) : Type := result TransError (A * list bytes).
Global Instance tr_ret : MRet tr := fun A a => Ok (a, []).
Global Instance tr_bind : MBind tr := fun A B f m =>
  match m with
  | Ok (a, w) => match f a with Ok (b, w') => Ok (b, w ++ w') | Err e => Err e end
  | Err e => Err e
  end.
Definition lift {A} (r : result TransError A) : tr A :=
  match r with Ok a => Ok (a, []) | Err e => Err e end.
(** [if cond { return Err(e) }]. *)
Definition ensure (ok : bool) (e : TransError) : tr unit := if ok then Ok (tt, []) else Err e.
(** A loop over the elements, stopping at the first error. *)
Fixpoint each {A B} (f : A -> tr B) (l : list A) : tr (list B) :=
  match l with
  | [] => mret []
  | x :: l => y ← f x; ys ← each f l; mret (y :: ys)
  end.

(** [deferred.into_iter().collect()] of a [BTreeSet]. *)
Definition deferred_set (log : list bytes) : list bytes := (bt_extend [] (map (fun k => (k, tt)) log)).*1.

(** ** Substitution *)

Definition LT : Z := 60.
Definition GT : Z := 62.
Definition is_lower_ascii (b : Z) : bool := (97 <=? b) && (b <=? 122).
Definition token_of (tok : bytes) : list bytes :=
  if negb (is_nil tok) && forallb is_lower_ascii tok then [LT :: tok ++ [GT]] else [].
(** [collect_placeholders]: [cur] is the text since the last [<], reversed, outside of which a
    [>] means nothing. *)
Fixpoint placeholders (cur : option bytes) (s : bytes) : list bytes :=
  match s with
  | [] => []
  | b :: s =>
      match cur with
      | None => placeholders (if b =? LT then Some [] else None) s
      | Some tok => if b =? GT then token_of (rev tok) ++ placeholders None s
                    else placeholders (Some (b :: tok)) s
      end
  end.
Definition collect_placeholders (s : bytes) : list bytes := placeholders None s.

Definition canonicalize_home (s : bytes) : bytes :=
  if bool_decide (s = str "$HOME") then str "~"
  else match strip_prefix (str "$HOME/") s with
  | Some rest => str "~/" ++ rest
  | None => s
  end.
Definition subst (s : bytes) : tr bytes :=
  let s := canonicalize_home s in Ok (s, collect_placeholders s).
Definition subst_each (items : list bytes) : tr (list bytes) := each subst items.

(** ** Numbers *)

(** [strip_suffix([a, b])] on two characters. *)
Definition strip_either (a b : Z) (s : bytes) : option bytes :=
  or_else (strip_suffix [a] s) (strip_suffix [b] s).
Definition scaled (mx mult : Z) (num : bytes) : option Z :=
  v ← parse_uint mx (trim num); if v * mult <=? mx then Some (v * mult) else None.

Definition size_unit (t : bytes) : bytes * Z :=
  match strip_either 71 103 t with
  | Some n => (n, 1024)
  | None => match strip_either 77 109 t with Some n => (n, 1) | None => (t, 1) end
  end.
Definition parse_size_mib (s : bytes) : result TransError Z :=
  let u := size_unit (trim s) in ok_or (TSize s) (scaled u32_max u.2 u.1).
(** [audit::parse_size_bytes]. *)
Definition size_bytes_unit (t : bytes) : bytes * Z :=
  match strip_either 71 103 t with
  | Some n => (n, 1024 * 1024 * 1024)
  | None => match strip_either 77 109 t with
            | Some n => (n, 1024 * 1024)
            | None => match strip_either 75 107 t with Some n => (n, 1024) | None => (t, 1) end
            end
  end.
Definition parse_size_bytes (s : bytes) : result TransError Z :=
  let u := size_bytes_unit (trim s) in ok_or (TSize s) (scaled u64_max u.2 u.1).
Definition duration_unit (t : bytes) : bytes * Z :=
  match strip_either 115 83 t with
  | Some n => (n, 1)
  | None => match strip_either 109 77 t with
            | Some n => (n, 60)
            | None => match strip_either 104 72 t with
                      | Some n => (n, 3600)
                      | None => match strip_either 100 68 t with Some n => (n, 86400) | None => (t, 1) end
                      end
            end
  end.
Definition parse_duration_secs (s : bytes) : result TransError Z :=
  let u := duration_unit (trim s) in ok_or (TDuration s) (scaled u64_max u.2 u.1).
Definition duration_unit_ms (t : bytes) : bytes * Z :=
  match strip_suffix (str "ms") t with
  | Some n => (n, 1)
  | None => match strip_either 115 83 t with
            | Some n => (n, 1000)
            | None => match strip_either 109 77 t with
                      | Some n => (n, 60000)
                      | None => match strip_either 104 72 t with Some n => (n, 3600000) | None => (t, 1) end
                      end
            end
  end.
Definition parse_duration_ms (s : bytes) : result TransError Z :=
  let u := duration_unit_ms (trim s) in ok_or (TDuration s) (scaled u64_max u.2 u.1).

(** [eq_ignore_ascii_case]. *)
Definition to_lower (b : Z) : Z := if (65 <=? b) && (b <=? 90) then b + 32 else b.
Definition eq_ignore_case (a b : bytes) : bool := bool_decide (map to_lower a = map to_lower b).
Definition rlim_unit (t : bytes) : bytes * Z :=
  match strip_either 75 107 t with
  | Some n => (n, 1024)
  | None => match strip_either 77 109 t with
            | Some n => (n, 1024 * 1024)
            | None => match strip_either 71 103 t with Some n => (n, 1024 * 1024 * 1024) | None => (t, 1) end
            end
  end.
Definition parse_rlim_token (field tok : bytes) : result TransError bytes :=
  let t := trim tok in
  if eq_ignore_case t (str "unlimited") || eq_ignore_case t (str "infinity") then Ok (str "unlimited")
  else let u := rlim_unit t in
       match scaled u64_max u.2 u.1 with
       | Some v => Ok (dec v)
       | None => Err (TUlimitValue field tok)
       end.

(** ** Well-formedness *)

Definition blank (o : option bytes) : bool := is_nil (trim (default [] o)).

Definition validate_rootfs (p : SourcePolicy) : result TransError unit :=
  match s_rootfs p with
  | None => Ok tt
  | Some r =>
      if blank (rfs_path r) then Err (TRootfsField (str "path"))
      else if blank (rfs_image r) then Err (TRootfsField (str "image"))
      else if blank (rfs_reason r) then Err (TRootfsField (str "reason"))
      else if negb (is_none (s_workload p)) then Err TRootfsWorkload
      else
        let persistence := default (str "discard") (rfs_persistence r) in
        if negb (bool_decide (persistence = str "discard") || bool_decide (persistence = str "persist"))
        then Err (TPersistence persistence)
        else if bool_decide (persistence = str "persist") &&
                existsb (fun x => bool_decide (x = [SLASH])) (default [] (rfs_readonly r))
        then Err TPersistReadonly else Ok tt
  end.

Definition spawn_entry_ok (e : SpawnAllow) : result TransError unit :=
  match spa_template e with
  | None => Err TSpawnNoTemplate
  | Some template =>
      match validate_reference template with
      | Err d => Err (TSpawnRef template d)
      | Ok _ => if existsb (fun f => is_nil (trim f)) (default [] (spa_mutable e))
                then Err (TSpawnNarrow template) else Ok tt
      end
  end.
(** [for x in l { f(x)? }]. *)
Fixpoint all_ok {A} (f : A -> result TransError unit) (l : list A) : result TransError unit :=
  match l with [] => Ok tt | x :: l => _ ← f x; all_ok f l end.
Definition validate_spawn (p : SourcePolicy) : result TransError unit :=
  match s_spawn p with
  | None => Ok tt
  | Some spawn =>
      if blank (sps_reason spawn) then Err TSpawnReason
      else match sps_max_instances spawn with
      | None => Err TSpawnNoMax
      | Some n =>
          if n =? 0 then Err TSpawnZero
          else if lf_is_empty (sps_allow spawn) then Err TSpawnEmpty
          else all_ok spawn_entry_ok (lf_resolved (sps_allow spawn))
      end
  end.

Definition SPAWN_PATCH_MAX_BYTES : Z := 64 * 1024.
Definition SPAWN_PRED_VALUE_MAX : Z := 4096.
Definition WIRE_LEN_PREFIX : Z := 4.
Definition usize_add (a b : Z) : Z := sat_add usize_max a b.
Definition longest (l : list bytes) : Z := fold_left (fun m s => Z.max m (blen s)) l 0.
Fixpoint patterns_ok (field : bytes) (ps : list bytes) : result TransError unit :=
  match ps with
  | [] => Ok tt
  | p :: ps => match dest_pattern_parse p with
               | Ok _ => patterns_ok field ps
               | Err e => Err (TMutPattern field e)
               end
  end.
Definition variant_worst_case (m : MutableField) (field : bytes) : result TransError Z :=
  let is_pool := negb (is_none (mf_from m)) || negb (is_none (mf_max m)) in
  let is_oneof := negb (is_none (mf_oneof m)) in
  let is_pattern := negb (is_none (mf_match m)) in
  let is_pred := negb (is_none (mf_type m)) || negb (is_none (mf_under m)) in
  let is_freeform := bool_decide (mf_freeform m = Some true) in
  let kinds := blen (List.filter (fun b => b) [is_pool; is_oneof; is_pattern; is_pred; is_freeform]) in
  if negb (kinds =? 1) then Err (TMutKinds field kinds)
  else
    let field_cost := usize_add WIRE_LEN_PREFIX (blen field) in
    let value_cost := fun n => usize_add (usize_add field_cost WIRE_LEN_PREFIX) n in
    let open_value := value_cost SPAWN_PRED_VALUE_MAX in
    if is_pool then
      let from := default [] (mf_from m) in
      if is_nil from then Err (TMutPoolEmpty field)
      else match mf_max m with
      | None => Err (TMutPoolNoMax field)
      | Some max => if max =? 0 then Err (TMutPoolZero field)
                    else Ok (sat_mul usize_max max (value_cost (longest from)))
      end
    else if is_oneof then
      let oneof := default [] (mf_oneof m) in
      if is_nil oneof then Err (TMutOneofEmpty field) else Ok (value_cost (longest oneof))
    else if is_pattern then
      let pats := default [] (mf_match m) in
      if is_nil pats then Err (TMutMatchEmpty field)
      else _ ← patterns_ok field pats; Ok open_value
    else if is_freeform then
      if blank (mf_reason m) then Err (TMutFreeform field) else Ok open_value
    else
      let ty := default [] (mf_type m) in
      if negb (bool_decide (ty = str "relpath")) then Err (TMutType field ty)
      else if blank (mf_under m) then Err (TMutUnder field) else Ok open_value.
Fixpoint manifest_cost (seen : list bytes) (worst : Z) (ms : list MutableField) : result TransError Z :=
  match ms with
  | [] => Ok worst
  | m :: ms =>
      let field := trim (default [] (mf_field m)) in
      if is_nil field then Err TMutField
      else if bool_decide (field ∈ seen) then Err (TMutTwice field)
      else if negb (is_mutable_field field) then Err (TMutUnknown field)
      else c ← variant_worst_case m field; manifest_cost (field :: seen) (usize_add worst c) ms
  end.
Definition validate_mutable_manifest (p : SourcePolicy) : result TransError unit :=
  if is_nil (s_mutable p) then Ok tt
  else worst ← manifest_cost [] WIRE_LEN_PREFIX (s_mutable p);
       if SPAWN_PATCH_MAX_BYTES <? worst then Err (TMutTooBig worst) else Ok tt.

Definition is_name_start (c : Z) : bool := is_lower_ascii c || (c =? 95).
Definition is_name_char (c : Z) : bool := is_lower_ascii c || is_digit c || (c =? 95) || (c =? 45).
Definition validate_name (field name : bytes) : result TransError unit :=
  if is_nil name || (32 <? blen name) ||
     negb (match name with c :: _ => is_name_start c | [] => false end) || negb (forallb is_name_char name)
  then Err (TUserName field name) else Ok tt.
Definition is_alnum (b : Z) : bool :=
  is_lower_ascii b || is_digit b || ((65 <=? b) && (b <=? 90)).
Definition validate_hostname (h : bytes) : result TransError unit :=
  if negb (is_nil h) && (blen h <=? 63) && forallb (fun b => is_alnum b || (b =? 45)) h &&
     negb (starts_with [45] h) && negb (ends_with [45] h)
  then Ok tt else Err (THostname h).
Definition is_sha256_hex (s : bytes) : bool :=
  (blen s =? 64) && forallb (fun b => is_digit b || (is_lower_ascii b && (b <=? 102))) s.

(** ** Network *)

Definition parse_net_mode (mode : option bytes) : result TransError PolicyNetMode :=
  match mode with
  | None => Ok PmConstrained
  | Some m =>
      if bool_decide (m = str "constrained") then Ok PmConstrained
      else if bool_decide (m = str "none") then Ok PmNone
      else if bool_decide (m = str "unconstrained") then Ok PmUnconstrained
      else if bool_decide (m = str "host") then Ok PmHost
      else Err (TNetMode m)
  end.
Definition is_proxied (m : PolicyNetMode) : bool :=
  match m with PmConstrained | PmUnconstrained => true | _ => false end.
Definition parse_proxy (addr : bytes) : result TransError ProxyListen :=
  match split_once COLON addr with
  | None => Err (TProxyAddr addr)
  | Some (off, port) =>
      match parse_uint 255 (trim off), parse_uint u16_max (trim port) with
      | Some o, Some p => Ok {| px_offset := o; px_port := p |}
      | _, _ => Err (TProxyAddr addr)
      end
  end.
Definition resolve_proxy (mode : PolicyNetMode) (addr : option bytes) : result TransError ProxyListen :=
  if negb (is_proxied mode) then Ok proxy_disabled
  else match addr with None => Ok proxy_default | Some a => parse_proxy a end.
Definition parse_protocol (p : option bytes) : result TransError Protocol :=
  match p with
  | None => Ok ProtoTcp
  | Some s =>
      if bool_decide (s = str "tcp") then Ok ProtoTcp
      else if bool_decide (s = str "udp") then Ok ProtoUdp
      else if bool_decide (s = str "any") then Ok ProtoAny
      else Err (TProtocol s)
  end.
Definition parse_cidr (cidr : bytes) : result TransError (bytes * Z) :=
  match split_once SLASH cidr with
  | Some (addr, plen) =>
      match parse_uint 255 plen with Some prefix => Ok (addr, prefix) | None => Err (TCidr cidr) end
  | None => Ok (cidr, if has_byte COLON cidr then 128 else 32)
  end.

(** One rule per port, or a single one for all ports. *)
Definition port_rules (cidr : bytes) (prefix_len : Z) (ports : list Z) (protocol : Protocol) : list NetRule :=
  let rule := fun lo hi => {| nr_cidr := cidr; nr_prefix_len := prefix_len; nr_port_min := lo;
                              nr_port_max := hi; nr_protocol := protocol |} in
  if is_nil ports then [rule 0 u16_max] else map (fun port => rule port port) ports.

Definition net_allow_entry (endpoint : bytes) (cidr_allowed : bool) (fixed : option Protocol)
    (e : NetAllow) : tr (list NetRule * list NameRule) :=
  protocol ← lift (match fixed with
                   | Some t => if is_none (na_protocol e) then Ok t else Err (TUdpProtocol endpoint)
                   | None => parse_protocol (na_protocol e)
                   end);
  match na_cidr e with
  | Some cidr =>
      if negb cidr_allowed then Err (TUdpCidr endpoint cidr)
      else ap ← lift (parse_cidr cidr);
           addr ← subst ap.1;
           mret (port_rules addr ap.2 (na_ports e) protocol, [])
  | None =>
      match na_name e with
      | Some name => mret ([], [{| nn_name := name; nn_ports := na_ports e; nn_protocol := protocol |}])
      | None => Err (TNoDestination endpoint)
      end
  end.
Definition collect_net_allow (endpoint : bytes) (entries : ListField NetAllow) (cidr_allowed : bool)
    (fixed : option Protocol) : tr (list NetRule * list NameRule) :=
  rs ← each (net_allow_entry endpoint cidr_allowed fixed) (lf_resolved entries);
  mret (concat rs.*1, concat rs.*2).

Definition any_rule (d : NetDenyRule) : result TransError NetRule :=
  ap ← parse_cidr (ndr_cidr d);
  Ok {| nr_cidr := ap.1; nr_prefix_len := ap.2; nr_port_min := 0; nr_port_max := u16_max;
        nr_protocol := ProtoAny |}.
Record proxy_lists : Type := {
  pl_allow : list NetRule; pl_names : list NameRule; pl_invariant : list NetRule;
  pl_author : list NetRule }.
Definition translate_proxy (proxy : option NetProxy) : tr proxy_lists :=
  match proxy with
  | None => mret {| pl_allow := []; pl_names := []; pl_invariant := []; pl_author := [] |}
  | Some p =>
      an ← collect_net_allow (str "net.proxy.allow") (npx_allow p) true None;
      match npx_deny p with
      | None => mret {| pl_allow := an.1; pl_names := an.2; pl_invariant := []; pl_author := [] |}
      | Some deny =>
          inv ← each (fun d => lift (any_rule d)) (npd_invariant deny);
          author ← each (fun d => lift (any_rule d)) (lf_resolved (npd_policy deny));
          mret {| pl_allow := an.1; pl_names := an.2; pl_invariant := inv; pl_author := author |}
      end
  end.

Definition bpf_rule (rule : BpfRule) : tr (list NetRule) :=
  protocol ← lift (parse_protocol (bru_protocol rule));
  cidr ← lift (ok_or TBpfNoCidr (bru_cidr rule));
  cidrs ← lift (if bool_decide (trim cidr = [STAR]) then Ok [(str "0.0.0.0", 0); (str "::", 0)]
                else ap ← parse_cidr cidr; Ok [ap]);
  rs ← each (fun ap : bytes * Z => addr ← subst ap.1; mret (port_rules addr ap.2 (bru_ports rule) protocol))
         cidrs;
  mret (concat rs).
Definition translate_bpf_rules (rules : list BpfRule) : tr (list NetRule) :=
  rs ← each bpf_rule rules; mret (concat rs).
Definition translate_bpf_acl (acl : option NetBpfAcl) : tr (list NetRule * list NetRule) :=
  match acl with
  | None => mret ([], [])
  | Some a =>
      allow ← translate_bpf_rules (lf_resolved (nba_allow a));
      deny ← translate_bpf_rules (lf_resolved (nba_deny a));
      mret (allow, deny)
  end.

Definition check_bpf_map_cap (label : bytes) (rules : list NetRule) (cap : Z) : result TransError unit :=
  let is4 := fun r => negb (is_none (parse_ipv4 (nr_cidr r))) in
  let is6 := fun r => negb (is_none (parse_ipv6 (nr_cidr r))) in
  let v4 := blen (List.filter is4 rules) in
  let v6 := blen (List.filter (fun r => negb (is4 r) && is6 r) rules) in
  let over := Z.max v4 v6 in
  if cap <? over then Err (TBpfCap label over cap) else Ok tt.

Definition proxy_has_author_rules (n : NetSection) : bool :=
  match ns_proxy n with
  | Some p => negb (lf_is_empty (npx_allow p)) ||
              match npx_deny p with Some d => negb (lf_is_empty (npd_policy d)) | None => false end
  | None => false
  end.

Definition translate_net (p : SourcePolicy) : tr NetPolicy :=
  net ← lift (ok_or (TMissing (str "net")) (s_net p));
  mode ← lift (parse_net_mode (ns_mode net));
  let host := bool_decide (mode = PmHost) in
  _ ← ensure (negb (host && blank (ns_reason net))) THostReason;
  _ ← ensure (negb (host && proxy_has_author_rules net)) THostProxy;
  let udp_enabled := negb (is_none (ns_udp net)) in
  _ ← ensure (negb (udp_enabled && negb (is_proxied mode))) TUdpMode;
  proxy ← lift (resolve_proxy mode (ns_proxy_listen_address net));
  pl ← translate_proxy (ns_proxy net);
  udp_names ← match ns_udp net with
              | Some u => an ← collect_net_allow (str "net.udp.allow") (nud_allow u) false (Some ProtoUdp);
                          mret an.2
              | None => mret []
              end;
  connect ← translate_bpf_acl (b ← ns_bpf net; nbf_connect b);
  bind ← translate_bpf_acl (b ← ns_bpf net; nbf_bind b);
  let bind_port_min := default 0 (b ← ns_bind net; nbd_min_port b) in
  let bind_allowed_ports := default [] (b ← ns_bind net; nbd_allowed_ports b) in
  _ ← ensure (blen bind_allowed_ports <=? MAX_BIND_PORTS) (TBindPorts (blen bind_allowed_ports));
  _ ← lift (check_bpf_map_cap (str "deny") (pl_invariant pl ++ connect.2 ++ pl_author pl)
              MAX_BPF_DENY_PER_FAMILY);
  _ ← lift (check_bpf_map_cap (str "allow") connect.1 MAX_BPF_ALLOW_PER_FAMILY);
  _ ← lift (check_bpf_map_cap (str "bind allow") bind.1 MAX_BPF_ALLOW_PER_FAMILY);
  _ ← lift (check_bpf_map_cap (str "bind deny") bind.2 MAX_BPF_DENY_PER_FAMILY);
  mret {| np_mode := mode; np_udp := udp_enabled; np_bind_port_min := bind_port_min;
          np_bind_allowed_ports := bind_allowed_ports; np_proxy := proxy; np_allow := pl_allow pl;
          np_allow_names := pl_names pl; np_udp_allow_names := udp_names;
          np_deny_invariant := pl_invariant pl; np_deny_author := pl_author pl;
          np_bpf_connect_allow := connect.1; np_bpf_connect_deny := connect.2;
          np_bpf_bind_allow := bind.1; np_bpf_bind_deny := bind.2 |}.

(** ** Filesystem *)

Definition DEFAULT_TMP_MIB : Z := 512.
Definition translate_tmp (t : option FsTmp) : result TransError TmpPolicy :=
  match t with
  | None => Ok {| tp_writable := false; tp_size_mib := DEFAULT_TMP_MIB |}
  | Some t =>
      size ← match ftm_size t with Some s => parse_size_mib s | None => Ok DEFAULT_TMP_MIB end;
      Ok {| tp_writable := default false (ftm_writable t); tp_size_mib := size |}
  end.
Definition translate_cwd (c : option FsCwd) : result TransError CwdPolicy :=
  match c with
  | None => Ok cwd_default
  | Some c =>
      grant ← match fcw_grant c with
              | None => Ok CwdNone
              | Some g =>
                  if bool_decide (g = str "none") then Ok CwdNone
                  else if bool_decide (g = str "read") then Ok CwdRead
                  else if bool_decide (g = str "write") then Ok CwdWrite
                  else Err (TCwdGrant g)
              end;
      Ok {| cw_grant := grant; cw_required := default [] (fcw_required c) |}
  end.

Definition redirect_step (read write : list bytes) (acc : list FsRedirect) (r : RedirectEntry) :
    tr (list FsRedirect) :=
  path ← subst (re_path r);
  source ← subst (re_source r);
  if negb (bool_decide (path ∈ (if re_write r then write else read))) then Err (TRedirectGone path)
  else if path_starts_with path (str "/proc") then Err (TRedirectProc path)
  else if has_parent_dir source then Err (TRedirectParent source)
  else if has_parent_dir path then Err (TRedirectParent path)
  else match List.find (fun x => bool_decide (rd_path x = path)) acc with
  | Some x => if bool_decide (rd_source x = source) then mret acc else Err (TRedirectTwice path)
  | None => mret (acc ++ [{| rd_path := path; rd_source := source |}])
  end.
Fixpoint redirect_loop (read write : list bytes) (acc : list FsRedirect) (rs : list RedirectEntry) :
    tr (list FsRedirect) :=
  match rs with
  | [] => mret acc
  | r :: rs => acc ← redirect_step read write acc r; redirect_loop read write acc rs
  end.
Definition translate_fs_redirects (fs : FsSection) (read write : list bytes) : tr (list FsRedirect) :=
  redirect_loop read write [] (fss_redirect fs).

Section fs.
(** [socket::socket_path]. *)
Context (socket_path : bytes).

Definition translate_fs (p : SourcePolicy) : tr FsPolicy :=
  fs ← lift (ok_or (TMissing (str "fs")) (s_fs p));
  home ← lift (ok_or (TMissing (str "fs.home")) (fss_home fs));
  read ← subst_each (on_some pf_resolved (fss_read fs));
  write ← subst_each (on_some pf_resolved (fss_write fs));
  let read := union_strings read write in
  tmp ← lift (translate_tmp (fss_tmp fs));
  dev_allow ← subst_each (default [] (d ← fss_dev fs; fdv_allow d));
  passthrough ← subst_each (omap dpt_path (on_some (fun d => lf_resolved (fdv_passthrough d)) (fss_dev fs)));
  home_persist ← subst_each (fh_persist home);
  exclusive ← subst_each (default [] (fss_exclusive fs));
  _ ← lift (all_ok (fun ex => if bool_decide (ex ∈ write) then Ok tt else Err (TExclusive ex)) exclusive);
  redirect ← translate_fs_redirects fs read write;
  _ ← lift (all_ok (fun q => if grant_exposes_control_socket socket_path q then Err (TControlSocket q)
                             else Ok tt) (read ++ map rd_source redirect));
  cwd ← lift (translate_cwd (fss_cwd fs));
  mret {| fs_home_shadow := default false (fh_shadow home); fs_read := read; fs_write := write;
          fs_exclusive := exclusive; fs_home_persist := home_persist;
          fs_home_readonly := default false (fh_readonly home); fs_redirect := redirect;
          fs_cwd := cwd; fs_tmp := tmp; fs_dev := {| dv_allow := dev_allow ++ passthrough |} |}.

(** ** Execution *)

Definition SPAWN_SURFACE_BINARIES : list bytes :=
  [str "/usr/bin/kennel"; str "/usr/libexec/kennel-facades/spawn"].
Definition exec_flag (f : ExecSection -> option bool) (x : option ExecSection) : bool :=
  default false (e ← x; f e).
Definition translate_exec (p : SourcePolicy) : tr ExecPolicy :=
  let exec := s_exec p in
  allow ← subst_each (on_some pf_resolved (e ← exec; xs_allow e));
  deny ← subst_each (default [] (e ← exec; xs_deny e));
  let allow := List.filter (fun a => negb (bool_decide (a ∈ deny))) allow in
  path ← subst_each (default [] (e ← exec; xs_path e));
  shell ← match e ← exec; xs_shell e with Some s => subst s | None => mret default_shell end;
  let permits_everything := existsb is_exec_wildcard allow in
  _ ← ensure (negb (negb (is_nil allow) && negb permits_everything && negb (bool_decide (shell ∈ allow))))
        (TShell shell);
  let allow := if is_none (s_spawn p) then allow else union_strings allow SPAWN_SURFACE_BINARIES in
  mret {| ex_deny_setuid := exec_flag xs_deny_setuid exec; ex_deny_setgid := exec_flag xs_deny_setgid exec;
          ex_deny_setcap := exec_flag xs_deny_setcap exec;
          ex_deny_writable := exec_flag xs_deny_writable exec; ex_allow := allow; ex_deny := deny;
          ex_path := path; ex_shell := shell; ex_loaders := [] |}.

(** ** The other sections *)

Definition translate_proc (p : SourcePolicy) : ProcPolicy :=
  {| pr_hidepid := default false (f ← s_fs p; pr ← fss_proc f; fpr_hidepid pr) |}.
Definition translate_lifecycle (p : SourcePolicy) : result TransError LifecyclePolicy :=
  ttl ← match l ← s_lifecycle p; lcs_ttl l with
        | Some s => v ← parse_duration_secs s; Ok (Some v)
        | None => Ok None
        end;
  action ← match l ← s_lifecycle p; lcs_ttl_action l with
           | None => Ok Ttl_Exit
           | Some a =>
               if bool_decide (a = str "exit") || bool_decide (a = str "stop") then Ok Ttl_Exit
               else if bool_decide (a = str "warn") then Ok Ttl_Warn
               else if bool_decide (a = str "renew") then Ok Ttl_Renew
               else Err (TTtlAction a)
           end;
  Ok {| lc_ttl_seconds := ttl; lc_ttl_action := action |}.

Definition DEFAULT_BACKOFF_MS : Z := 500.
Definition DEFAULT_MAX_ATTEMPTS : Z := 5.
Definition translate_service (p : SourcePolicy) : result TransError (option ServiceRuntime) :=
  match s_service p with
  | None => Ok None
  | Some svc =>
      backoff ← match svs_backoff svc with Some s => parse_duration_ms s | None => Ok DEFAULT_BACKOFF_MS end;
      let max_attempts := default DEFAULT_MAX_ATTEMPTS (svs_max_attempts svc) in
      if max_attempts =? 0 then Err TServiceZero
      else Ok (Some {| sv_restart := default OnFailure (svs_restart svc); sv_backoff_ms := backoff;
                       sv_max_attempts := max_attempts |})
  end.

Definition translate_ssh (p : SourcePolicy) : SshRuntime :=
  match s_ssh p with
  | None => {| sr_allow_headless := false; sr_grants := [] |}
  | Some ssh => {|
      sr_allow_headless := default false (sss_allow_headless ssh);
      sr_grants := omap (fun d => dest ← ssd_dest d;
        Some {| sg_dest := dest; sg_options := ssd_options d; sg_public_key := []; sg_key_file := [] |})
        (lf_resolved (sss_destinations ssh)) |}
  end.

Definition unix_socket (a : UnixAllow) : tr (list UnixSocket) :=
  match uxa_real a, uxa_shim a with
  | Some real, Some shim =>
      real ← subst real; shim ← subst shim;
      mret [{| us_name := default [] (uxa_name a); us_real := real; us_shim := shim; us_env := uxa_env a |}]
  | _, _ => mret []
  end.
Definition translate_unix (p : SourcePolicy) : tr UnixRuntime :=
  match s_unix p with
  | None => mret {| ur_sockets := [] |}
  | Some u => ss ← each unix_socket (lf_resolved (uxs_allow u)); mret {| ur_sockets := concat ss |}
  end.

(** [push]: a named group, once. *)
Definition push_group (groups : list bytes) (g : bytes) : list bytes :=
  if negb (is_nil g) && negb (bool_decide (g ∈ groups)) then groups ++ [g] else groups.
Definition translate_identity (p : SourcePolicy) : result TransError IdentityRuntime :=
  let groups := fold_left push_group (on_some (fun i => gf_resolved (ids_groups i)) (s_identity p)) [] in
  let groups := fold_left push_group
    (omap dpt_group (on_some (fun d => lf_resolved (fdv_passthrough d)) (f ← s_fs p; fss_dev f))) groups in
  let user := default DEFAULT_USER (i ← s_identity p; ids_user i) in
  _ ← validate_name (str "identity.user") user;
  let group := default DEFAULT_GROUP (i ← s_identity p; ids_group i) in
  _ ← validate_name (str "identity.group") group;
  let hostname := i ← s_identity p; ids_hostname i in
  _ ← match hostname with Some h => validate_hostname h | None => Ok tt end;
  Ok {| id_user := user; id_group := group; id_groups := groups; id_hostname := hostname |}.

Definition no_rules : DbusRules := {| dbr_talk := []; dbr_call := []; dbr_broadcast := []; dbr_own := [] |}.
Definition dbus_bus (b : option DbusBus) : option DbusBusRuntime :=
  b ← b;
  if negb (bool_decide (dbb_enabled b = Some true)) then None
  else let allow := default no_rules (dbb_allow b) in
       let deny := default no_rules (dbb_deny b) in
       Some {| db_talk := dbr_talk allow; db_call := dbr_call allow; db_broadcast := dbr_broadcast allow;
               db_own := dbr_own allow; db_deny_talk := dbr_talk deny |}.
Definition dbus_level (l : DbusAuditLevel) : bytes :=
  match l with DalOff => str "off" | DalSummary => str "summary" | DalFull => str "full" end.
Definition translate_dbus (p : SourcePolicy) : DbusRuntime :=
  match s_dbus p with
  | None => {| du_audit_level := None; du_session := None; du_system := None |}
  | Some d => {| du_audit_level := option_map dbus_level (a ← dbs_audit d; dba_level a);
                 du_session := dbus_bus (dbs_session d); du_system := dbus_bus (dbs_system d) |}
  end.

Definition SYSLOG_FACILITIES : list bytes := map str
  ["kern"; "user"; "mail"; "daemon"; "auth"; "syslog"; "lpr"; "news"; "uucp"; "cron"; "authpriv"; "ftp";
   "local0"; "local1"; "local2"; "local3"; "local4"; "local5"; "local6"; "local7"]%string.
Definition sink_kind (name : bytes) : result TransError AuditSinkKind :=
  if bool_decide (name = str "file") then Ok SinkFile
  else if bool_decide (name = str "journald") then Ok SinkJournald
  else if bool_decide (name = str "syslog") then Ok SinkSyslog
  else if bool_decide (name = str "stdout") then Ok SinkStdout
  else Err (TSink name).
Global Instance AuditSinkKind_eq_dec : EqDecision AuditSinkKind.
Proof. solve_decision. Defined.
Fixpoint audit_sinks (acc : list AuditSinkKind) (names : list bytes) : result TransError (list AuditSinkKind) :=
  match names with
  | [] => Ok acc
  | n :: names => k ← sink_kind n; audit_sinks (if bool_decide (k ∈ acc) then acc else acc ++ [k]) names
  end.
Definition AUDIT_LEVELS : list bytes := map str ["off"; "denies-only"; "summary"; "full"]%string.
Definition audit_level (c : option AuditClassSection) : result TransError (option bytes) :=
  match s ← c; acs_level s with
  | None => Ok None
  | Some l => if bool_decide (l ∈ AUDIT_LEVELS) then Ok (Some l) else Err (TLevel l)
  end.
Definition audit_empty : AuditRuntime := {|
  au_sinks := []; au_network_level := None; au_filesystem_level := None; au_exec_level := None;
  au_unix_level := None; au_dbus_level := None; au_syslog_facility := None;
  au_file := {| af_dir := None; af_rotate_at_bytes := None; af_compress_after_seconds := None;
                af_retain_count := None |} |}.
(** [translate_audit_section] with the substitution of the compiler for a [dir]. *)
Definition translate_audit_section (dir_subst : bytes -> tr bytes) (a : AuditSection) : tr AuditRuntime :=
  sinks ← lift (audit_sinks [] (aus_sinks a));
  facility ← lift (match s ← aus_syslog a; ays_facility s with
                   | None => Ok None
                   | Some f => if bool_decide (f ∈ SYSLOG_FACILITIES) then Ok (Some f) else Err (TFacility f)
                   end);
  file ← match aus_file a with
         | None => mret (au_file audit_empty)
         | Some f =>
             dir ← match afs_dir f with Some d => d' ← dir_subst d; mret (Some d') | None => mret None end;
             rotate ← lift (match afs_rotate_at_bytes f with
                            | None => Ok None
                            | Some s => v ← parse_size_bytes s; Ok (Some v)
                            end);
             mret {| af_dir := dir; af_rotate_at_bytes := rotate;
                     af_compress_after_seconds := afs_compress_after_seconds f;
                     af_retain_count := afs_retain_count f |}
         end;
  network ← lift (audit_level (aus_network a));
  filesystem ← lift (audit_level (aus_filesystem a));
  exec ← lift (audit_level (aus_exec a));
  unix ← lift (audit_level (aus_unix a));
  dbus ← lift (audit_level (aus_dbus a));
  mret {| au_sinks := sinks; au_network_level := network; au_filesystem_level := filesystem;
          au_exec_level := exec; au_unix_level := unix; au_dbus_level := dbus;
          au_syslog_facility := facility; au_file := file |}.
Definition translate_audit (p : SourcePolicy) : tr AuditRuntime :=
  match s_audit p with None => mret audit_empty | Some a => translate_audit_section subst a end.

Definition translate_env (p : SourcePolicy) : tr EnvRuntime :=
  vars ← each (fun kv => v ← subst kv.2; mret (kv.1, v)) (default [] (e ← s_env p; evs_set e));
  mret {| en_vars := bt_extend [] vars |}.

Definition ulimit_entry (kv : bytes * bytes) : result TransError (bytes * bytes) :=
  if negb (bool_decide (kv.1 ∈ ULIMIT_RESOURCES)) then Err (TUlimit kv.1)
  else sh ← match split_once COLON kv.2 with
            | Some (s, h) => soft ← parse_rlim_token kv.1 s; hard ← parse_rlim_token kv.1 h; Ok (soft, hard)
            | None => t ← parse_rlim_token kv.1 kv.2; Ok (t, t)
            end;
       Ok (kv.1, if bool_decide (sh.1 = sh.2) then sh.1 else sh.1 ++ [32] ++ sh.2).
Fixpoint results {A B} (f : A -> result TransError B) (l : list A) : result TransError (list B) :=
  match l with [] => Ok [] | x :: l => y ← f x; ys ← results f l; Ok (y :: ys) end.
Definition translate_ulimits (p : SourcePolicy) : result TransError UlimitsRuntime :=
  limits ← results ulimit_entry (default [] (s_ulimits p));
  Ok {| ul_limits := bt_extend [] limits |}.

Definition translate_workload (p : SourcePolicy) : tr WorkloadRuntime :=
  match s_workload p with
  | None => mret {| wl_argv := []; wl_cwd := None; wl_pinned := false; wl_allowed_args := false; wl_sha256 := [] |}
  | Some w =>
      cwd ← match wls_cwd w with Some c => c' ← subst c; mret (Some c') | None => mret None end;
      let sha := default [] (wls_sha256 w) in
      _ ← lift (all_ok (fun h => if is_sha256_hex h then Ok tt else Err (TSha256 h)) sha);
      mret {| wl_argv := default [] (wls_argv w); wl_cwd := cwd; wl_pinned := default false (wls_pinned w);
              wl_allowed_args := default false (wls_allowed_args w); wl_sha256 := sha |}
  end.
Definition translate_rootfs_runtime (p : SourcePolicy) : tr RootfsRuntime :=
  match s_rootfs p with
  | None => mret {| rf_path := []; rf_image := []; rf_persistence := []; rf_readonly := []; rf_writable := [] |}
  | Some r =>
      path ← match rfs_path r with Some x => subst x | None => mret [] end;
      mret {| rf_path := path; rf_image := default [] (rfs_image r);
              rf_persistence := default [] (rfs_persistence r);
              rf_readonly := default [] (rfs_readonly r); rf_writable := default [] (rfs_writable r) |}
  end.
Definition variant_of (m : MutableField) : Variant := {|
  va_field := default [] (mf_field m); va_one_of := default [] (mf_oneof m);
  va_pool := default [] (mf_from m); va_pool_max := default 0 (mf_max m);
  va_pattern := default [] (mf_match m); va_relpath_under := default [] (mf_under m);
  va_freeform := default false (mf_freeform m); va_reason := default [] (mf_reason m) |}.
Definition translate_manifest (p : SourcePolicy) : list Variant := map variant_of (s_mutable p).

(** ** The whole *)

Record Translated : Type := {
  tl_effective_policy : EffectivePolicy; tl_ssh : SshRuntime; tl_unix : UnixRuntime;
  tl_identity : IdentityRuntime; tl_mesh : MeshRuntime; tl_service : option ServiceRuntime;
  tl_dbus : DbusRuntime; tl_audit : AuditRuntime; tl_env : EnvRuntime; tl_ulimits : UlimitsRuntime;
  tl_workload : WorkloadRuntime; tl_rootfs : RootfsRuntime; tl_manifest : list Variant;
  tl_deferred_substitutions : list bytes }.

(** The body of [translate], before the tokens are gathered. *)
Definition translate_sections (p : SourcePolicy) : tr Translated :=
  _ ← lift (validate_rootfs p);
  _ ← lift (validate_spawn p);
  _ ← lift (validate_mutable_manifest p);
  net ← translate_net p;
  fs ← translate_fs p;
  exec ← translate_exec p;
  lifecycle ← lift (translate_lifecycle p);
  unix ← translate_unix p;
  identity ← lift (translate_identity p);
  service ← lift (translate_service p);
  audit ← translate_audit p;
  env ← translate_env p;
  ulimits ← lift (translate_ulimits p);
  workload ← translate_workload p;
  rootfs ← translate_rootfs_runtime p;
  mret {| tl_effective_policy := {|
            ep_net := net; ep_fs := fs; ep_exec := exec; ep_proc := translate_proc p;
            ep_cap := {| cap_no_new_privs := default false (c ← s_cap p; cps_no_new_privs c) |};
            ep_seccomp := {| sc_deny_action := ScErrno; sc_deny := default [] (s ← s_seccomp p; scs_deny s) |};
            ep_lifecycle := lifecycle;
            ep_tty := {| tt_filter_terminal_escapes :=
                           default true (t ← s_tty p; tys_filter_terminal_escapes t) |};
            ep_trust := {| tr_manifest := default true (t ← s_trust p; trs_manifest t);
                           tr_on_change := default OcWarn (t ← s_trust p; trs_on_change t) |} |};
          tl_ssh := translate_ssh p; tl_unix := unix; tl_identity := identity;
          tl_mesh := translate_mesh (s_provides p) (lf_resolved (s_consumes p));
          tl_service := service; tl_dbus := translate_dbus p; tl_audit := audit; tl_env := env;
          tl_ulimits := ulimits; tl_workload := workload; tl_rootfs := rootfs;
          tl_manifest := translate_manifest p; tl_deferred_substitutions := [] |}.
Definition with_deferred (log : list bytes) (t : Translated) : Translated := {|
  tl_effective_policy := tl_effective_policy t; tl_ssh := tl_ssh t; tl_unix := tl_unix t;
  tl_identity := tl_identity t; tl_mesh := tl_mesh t; tl_service := tl_service t; tl_dbus := tl_dbus t;
  tl_audit := tl_audit t; tl_env := tl_env t; tl_ulimits := tl_ulimits t; tl_workload := tl_workload t;
  tl_rootfs := tl_rootfs t; tl_manifest := tl_manifest t; tl_deferred_substitutions := deferred_set log |}.
Definition translate (p : SourcePolicy) : result TransError Translated :=
  match translate_sections p with
  | Ok (t, log) => Ok (with_deferred log t)
  | Err e => Err e
  end.
End fs.

(** * Lemmas *)

(** ** Stepping through the monad *)

Lemma tr_bind_Ok {A B} (m : tr A) (f : A -> tr B) b w :
  (m ≫= f) = Ok (b, w) -> exists a w1 w2, m = Ok (a, w1) /\ f a = Ok (b, w2) /\ w = w1 ++ w2.
Proof.
  unfold mbind, tr_bind. destruct m as [[a w1]|e]; [|done]. destruct (f a) as [[b' w2]|e] eqn:E; [|done].
  intros [= <- <-]. by exists a, w1, w2.
Qed.
Lemma lift_Ok {A} (r : result TransError A) a w : lift r = Ok (a, w) -> r = Ok a /\ w = [].
Proof. unfold lift. destruct r; [|done]. by intros [= <- <-]. Qed.
Lemma ensure_Ok b e u w : ensure b e = Ok (u, w) -> b = true /\ w = [].
Proof. unfold ensure. destruct b; [|done]. by intros [= _ <-]. Qed.
Lemma tr_ret_Ok {A} (a b : A) w : (mret a : tr A) = Ok (b, w) -> b = a /\ w = [].
Proof. by intros [= <- <-]. Qed.

(** Open the binds of a translation that succeeded, from the front. *)
Ltac tstep H :=
  let a := fresh "v" in let w1 := fresh "w" in let w2 := fresh "w" in let E := fresh "E" in
  apply tr_bind_Ok in H as (a & w1 & w2 & E & H & ->);
  repeat match type of E with
  | lift _ = Ok _ => apply lift_Ok in E as [E ->]
  | ensure _ _ = Ok _ => apply ensure_Ok in E as [E ->]
  end.
Ltac tsteps H := cbv zeta in H; repeat (tstep H; cbv zeta in H).

Lemma each_Ok {A B} (f : A -> tr B) l ys w :
  each f l = Ok (ys, w) -> Forall2 (fun x y => exists w', f x = Ok (y, w') /\ w' ⊆ w) l ys.
Proof.
  revert ys w; induction l as [|x l IH]; intros ys w H; cbn [each] in H.
  { apply tr_ret_Ok in H as [-> ->]. constructor. }
  tstep H. tstep H. apply tr_ret_Ok in H as [-> ->]. constructor.
  - eexists; split; [done|]. set_solver.
  - eapply Forall2_impl; [by eapply IH|]. intros x' y (w' & ? & ?). exists w'. split; [done|]. set_solver.
Qed.
Lemma each_lift_Ok {A B} (f : A -> result TransError B) l ys w :
  each (fun x => lift (f x)) l = Ok (ys, w) -> Forall2 (fun x y => f x = Ok y) l ys.
Proof.
  intros H%each_Ok. eapply Forall2_impl; [done|]. by intros x y (w' & [? _]%lift_Ok & _).
Qed.
Lemma all_ok_Ok {A} (f : A -> result TransError unit) l :
  all_ok f l = Ok tt <-> Forall (fun x => f x = Ok tt) l.
Proof.
  induction l as [|x l IH]; cbn [all_ok]; [done|]. rewrite Forall_cons, <- IH.
  destruct (f x) as [[]|]; cbn; [tauto|]. split; [done|by intros [? _]].
Qed.

(** ** Tokens *)

(** The tokens of the strings [l] are in the log [w]. *)
Definition logged (w l : list bytes) : Prop := forall s, s ∈ l -> collect_placeholders s ⊆ w.
Lemma logged_mono w w' l : w ⊆ w' -> logged w l -> logged w' l.
Proof. intros Hw H s Hs. specialize (H s Hs). set_solver. Qed.
Lemma logged_sub w l k : k ⊆ l -> logged w l -> logged w k.
Proof. intros Hk H s Hs. apply H. by apply Hk. Qed.
Lemma logged_app w l k : logged w (l ++ k) <-> logged w l /\ logged w k.
Proof.
  split; [|intros [H1 H2] s [?|?]%elem_of_app; auto].
  intros H; split; intros s Hs; apply H, elem_of_app; auto.
Qed.
Lemma subst_logged s s' w : subst s = Ok (s', w) -> logged w [s'].
Proof. by intros [= <- <-] x ->%list_elem_of_singleton. Qed.
Lemma subst_each_logged l ys w : subst_each l = Ok (ys, w) -> logged w ys.
Proof.
  intros H%each_Ok s Hs. apply list_elem_of_lookup in Hs as [i Hi].
  destruct (Forall2_lookup_r _ _ _ _ _ H Hi) as (x & _ & w' & E & Hw).
  transitivity w'; [|done]. apply (subst_logged _ _ _ E). by apply list_elem_of_singleton.
Qed.

Lemma bt_insert_keys {V} k (v : V) m x : x ∈ (bt_insert k v m).*1 <-> x = k \/ x ∈ m.*1.
Proof.
  induction m as [|[k' v'] m IH]; cbn [bt_insert fmap list_fmap fst]; [set_solver|].
  case_bool_decide; [subst; cbn; set_solver|]. destruct (bytes_ltb k k'); cbn [fmap list_fmap fst]; [set_solver|].
  rewrite elem_of_cons, IH. set_solver.
Qed.
Lemma bt_extend_keys {V} (m c : list (bytes * V)) x : x ∈ (bt_extend m c).*1 <-> x ∈ m.*1 \/ x ∈ c.*1.
Proof.
  unfold bt_extend. revert m; induction c as [|[k v] c IH]; intros m; cbn [fold_left fmap list_fmap fst snd]; [set_solver|].
  rewrite IH, bt_insert_keys. set_solver.
Qed.
Lemma elem_of_deferred x log : x ∈ deferred_set log <-> x ∈ log.
Proof.
  unfold deferred_set. rewrite bt_extend_keys. cbn. rewrite elem_of_nil.
  assert ((map (fun k => (k, tt)) log).*1 = log) as ->; [|tauto].
  induction log as [|a l IH]; cbn; [done|]. by rewrite IH.
Qed.

(** ** Network *)

Lemma port_rules_cidr c n ports proto r : r ∈ port_rules c n ports proto -> nr_cidr r = c.
Proof.
  unfold port_rules. destruct (is_nil ports).
  - by intros ->%list_elem_of_singleton.
  - by intros (x & -> & _)%list_elem_of_fmap.
Qed.

Lemma concat_logged {A B} (f : A -> tr B) (rules : B -> list NetRule) l ys w :
  (forall x y w', f x = Ok (y, w') -> logged w' (nr_cidr <$> rules y)) ->
  each f l = Ok (ys, w) -> logged w (nr_cidr <$> concat (rules <$> ys)).
Proof.
  intros Hf H%each_Ok s (r & -> & Hr)%list_elem_of_fmap.
  apply list_elem_of_In, in_concat in Hr as (rs & Hrs%list_elem_of_In & Hr%list_elem_of_In).
  apply list_elem_of_fmap in Hrs as (y & -> & Hy).
  apply list_elem_of_lookup in Hy as [i Hi].
  destruct (Forall2_lookup_r _ _ _ _ _ H Hi) as (x & _ & w' & E & Hw).
  transitivity w'; [|done]. apply (Hf x y w' E). apply list_elem_of_fmap. by exists r.
Qed.

Lemma net_allow_entry_logged endpoint ca fx e y w :
  net_allow_entry endpoint ca fx e = Ok (y, w) -> logged w (nr_cidr <$> y.1).
Proof.
  unfold net_allow_entry. intros H. tstep H. destruct (na_cidr e) as [cidr|].
  - destruct (negb ca); [done|]. tsteps H. apply tr_ret_Ok in H as [-> ->].
    cbn [fst app]. rewrite app_nil_r. intros s (r & -> & Hr)%list_elem_of_fmap.
    rewrite (port_rules_cidr _ _ _ _ _ Hr). eapply (subst_logged _ _ _ E1). by apply list_elem_of_singleton.
  - destruct (na_name e); [|done]. apply tr_ret_Ok in H as [-> ->]. intros s ?%elem_of_nil. done.
Qed.
Lemma collect_net_allow_logged endpoint es ca fx y w :
  collect_net_allow endpoint es ca fx = Ok (y, w) -> logged w (nr_cidr <$> y.1).
Proof.
  unfold collect_net_allow. intros H. tstep H. apply tr_ret_Ok in H as [-> ->]. rewrite app_nil_r.
  eapply (concat_logged _ fst); [apply net_allow_entry_logged|done].
Qed.
Lemma collect_net_allow_none endpoint es ca fx y w :
  collect_net_allow endpoint es ca fx = Ok (y, w) -> lf_resolved es = [] -> y.2 = [].
Proof.
  unfold collect_net_allow. intros H Hes. rewrite Hes in H. cbn [each] in H. tstep H. apply tr_ret_Ok in E as [-> ->].
  by apply tr_ret_Ok in H as [-> ->].
Qed.
Lemma bpf_rule_logged rule rs w : bpf_rule rule = Ok (rs, w) -> logged w (nr_cidr <$> rs).
Proof.
  unfold bpf_rule. intros H. tsteps H. apply tr_ret_Ok in H as [-> ->]. cbn [app]. rewrite app_nil_r.
  rewrite <- (list_fmap_id v2). eapply (concat_logged _ id); [|done]. clear.
  intros [c n] y w' H. tstep H. apply tr_ret_Ok in H as [-> ->]. rewrite app_nil_r.
  intros s (r & -> & Hr)%list_elem_of_fmap.
  rewrite (port_rules_cidr _ _ _ _ _ Hr). eapply (subst_logged _ _ _ E). by apply list_elem_of_singleton.
Qed.
Lemma translate_bpf_rules_logged rules rs w :
  translate_bpf_rules rules = Ok (rs, w) -> logged w (nr_cidr <$> rs).
Proof.
  unfold translate_bpf_rules. intros H. tstep H. apply tr_ret_Ok in H as [-> ->]. rewrite app_nil_r.
  rewrite <- (list_fmap_id v). eapply (concat_logged _ id); [|done]. apply bpf_rule_logged.
Qed.
Lemma translate_bpf_acl_logged acl ad w :
  translate_bpf_acl acl = Ok (ad, w) -> logged w (nr_cidr <$> ad.1 ++ ad.2).
Proof.
  unfold translate_bpf_acl. destruct acl as [a|].
  - intros H. tsteps H. apply tr_ret_Ok in H as [-> ->]. rewrite app_nil_r, fmap_app, logged_app.
    split; eapply logged_mono; [|by eapply translate_bpf_rules_logged| |by eapply translate_bpf_rules_logged];
      set_solver.
  - intros [-> ->]%tr_ret_Ok s ?%elem_of_nil. done.
Qed.

(** The lists of [net.proxy], on success. *)
Lemma translate_proxy_Ok proxy pl w :
  translate_proxy proxy = Ok (pl, w) ->
  let deny := p ← proxy; npx_deny p in
  Forall2 (fun d r => any_rule d = Ok r) (on_some npd_invariant deny) (pl_invariant pl) /\
  Forall2 (fun d r => any_rule d = Ok r) (on_some (fun d => lf_resolved (npd_policy d)) deny) (pl_author pl) /\
  logged w (nr_cidr <$> pl_allow pl) /\
  (on_some (fun p => lf_resolved (npx_allow p)) proxy = [] -> pl_names pl = []).
Proof.
  unfold translate_proxy.
  destruct proxy as [p|]; [|intros [-> ->]%tr_ret_Ok; split_and!; try constructor; by intros s ?%elem_of_nil].
  intros H. tstep H. pose proof (collect_net_allow_none _ _ _ _ _ _ E) as Hn.
  apply collect_net_allow_logged in E. cbn. destruct (npx_deny p) as [d|].
  - tsteps H. apply tr_ret_Ok in H as [-> ->]. cbn.
    split_and!; [by eapply each_lift_Ok..| |done]. eapply logged_mono; [|done]. set_solver.
  - apply tr_ret_Ok in H as [-> ->]. cbn. rewrite app_nil_r. split_and!; try constructor; done.
Qed.

Lemma lf_is_empty_resolved {A} (f : ListField A) : lf_is_empty f = true -> lf_resolved f = [].
Proof. destruct f as [v|d]; cbn; [by destruct v|done]. Qed.

(** What a settled network section is. *)
Record net_settled (p : SourcePolicy) (n : NetPolicy) (w : list bytes) (net : NetSection) : Prop := {
  nt_section : s_net p = Some net;
  nt_mode : parse_net_mode (ns_mode net) = Ok (np_mode n);
  nt_host : np_mode n = PmHost -> blank (ns_reason net) = false /\ proxy_has_author_rules net = false;
  nt_udp : np_udp n = true -> is_proxied (np_mode n) = true;
  nt_invariant : Forall2 (fun d r => any_rule d = Ok r) (invariant_denies p) (np_deny_invariant n);
  nt_author : Forall2 (fun d r => any_rule d = Ok r)
    (on_some (fun d => lf_resolved (npd_policy d)) (x ← ns_proxy net; npx_deny x)) (np_deny_author n);
  nt_connect : exists w', translate_bpf_acl (b ← ns_bpf net; nbf_connect b) =
    Ok ((np_bpf_connect_allow n, np_bpf_connect_deny n), w');
  nt_bind : exists w', translate_bpf_acl (b ← ns_bpf net; nbf_bind b) =
    Ok ((np_bpf_bind_allow n, np_bpf_bind_deny n), w');
  nt_proxy : resolve_proxy (np_mode n) (ns_proxy_listen_address net) = Ok (np_proxy n);
  nt_names : proxy_has_author_rules net = false -> np_allow_names n = [];
  nt_ports : blen (np_bind_allowed_ports n) <= MAX_BIND_PORTS;
  nt_logged : logged w (nr_cidr <$> np_allow n ++ np_bpf_connect_allow n ++ np_bpf_connect_deny n ++
                                    np_bpf_bind_allow n ++ np_bpf_bind_deny n);
}.

Lemma translate_net_Ok p n w : translate_net p = Ok (n, w) -> exists net, net_settled p n w net.
Proof.
  unfold translate_net. intros H. tstep H. rename v into net.
  destruct (s_net p) as [net'|] eqn:En; [|done]. apply (inj Ok) in E as ->. exists net.
  tstep H. tsteps H. apply tr_ret_Ok in H as [-> ->].
  match goal with Hp : translate_proxy _ = _ |- _ => apply translate_proxy_Ok in Hp as (Hi & Ha & Hl & Hnm) end.
  repeat match goal with
  | Hn : negb (?a && ?b) = true |- _ => apply negb_true_iff in Hn
  | Hb : translate_bpf_acl _ = Ok (?v, _) |- _ => is_var v; destruct v
  end.
  constructor; cbn.
  - done.
  - done.
  - intros ->. rewrite bool_decide_eq_true_2 in E0, E1 by done. done.
  - intros Hu. rewrite Hu in E2. by apply negb_false_iff.
  - unfold invariant_denies. by rewrite En.
  - done.
  - eauto.
  - eauto.
  - done.
  - unfold proxy_has_author_rules. destruct (ns_proxy net) as [px|]; [|auto].
    intros [Hempty%negb_false_iff _]%orb_false_iff. apply Hnm. cbn. by apply lf_is_empty_resolved.
  - by apply Z.leb_le.
  - repeat match goal with
    | Hb : translate_bpf_acl _ = Ok _ |- _ => apply translate_bpf_acl_logged in Hb
    end. cbn in *. rewrite !fmap_app, !logged_app in *.
    split_and!; [eapply logged_mono; [|exact Hl]|..]; try (eapply logged_mono; [|naive_solver]); set_solver.
Qed.

(** ** Filesystem *)

(** A redirect the translation admits, for the grants [read] and [write]. *)
Definition redirect_ok (read write : list bytes) (r : FsRedirect) : Prop :=
  (rd_path r ∈ read \/ rd_path r ∈ write) /\ path_starts_with (rd_path r) (str "/proc") = false /\
  has_parent_dir (rd_path r) = false /\ has_parent_dir (rd_source r) = false.
Definition redirect_strings (rs : list FsRedirect) : list bytes := (rd_path <$> rs) ++ (rd_source <$> rs).

Lemma find_path_None path (rs : list FsRedirect) :
  List.find (fun x => bool_decide (rd_path x = path)) rs = None -> path ∉ rd_path <$> rs.
Proof.
  intros H (x & -> & Hx)%list_elem_of_fmap. apply list_elem_of_In in Hx.
  apply (List.find_none _ _ H) in Hx. by apply bool_decide_eq_false in Hx.
Qed.

Lemma redirect_loop_Ok read write acc rs out w w0 :
  Forall (redirect_ok read write) acc -> NoDup (rd_path <$> acc) -> logged w0 (redirect_strings acc) ->
  redirect_loop read write acc rs = Ok (out, w) ->
  Forall (redirect_ok read write) out /\ NoDup (rd_path <$> out) /\ logged (w0 ++ w) (redirect_strings out).
Proof.
  revert acc w w0; induction rs as [|r rs IH]; intros acc w w0 Hok Hnd Hl H; cbn [redirect_loop] in H.
  { apply tr_ret_Ok in H as [-> ->]. by rewrite app_nil_r. }
  tstep H. unfold redirect_step in E. tstep E. tstep E.
  destruct (negb _) eqn:Eg; [done|]. apply negb_false_iff, bool_decide_eq_true in Eg.
  destruct (path_starts_with v0 _) eqn:Ep; [done|]. destruct (has_parent_dir v1) eqn:Es; [done|].
  destruct (has_parent_dir v0) eqn:Ev; [done|].
  destruct (List.find _ acc) as [x|] eqn:Ef.
  - case_bool_decide; [|done]. apply tr_ret_Ok in E as [-> ->].
    destruct (IH _ _ _ Hok Hnd Hl H) as (? & ? & ?). split_and!; [done..|].
    eapply logged_mono; [|done]. set_solver.
  - apply tr_ret_Ok in E as [-> ->]. specialize (IH (acc ++ [{| rd_path := v0; rd_source := v1 |}]) w2 (w0 ++ w ++ w1)).
    rewrite !app_nil_r, <- !app_assoc in *. apply IH; [| | |done].
    + apply Forall_app_2; [done|]. constructor; [|done]. split_and!; cbn; try done.
      destruct (re_write r); tauto.
    + rewrite fmap_app. apply NoDup_app. split_and!; [done| |by apply NoDup_singleton].
      intros y Hy ->%list_elem_of_singleton. by apply (find_path_None _ _ Ef).
    + unfold redirect_strings in *. rewrite !fmap_app, !logged_app in *. destruct Hl as [Hl1 Hl2].
      apply subst_logged in E0, E1.
      split_and!; (eapply logged_mono; [|done]); set_solver.
Qed.

(** What a settled filesystem section is. *)
Record fs_settled (sock : bytes) (p : SourcePolicy) (f : FsPolicy) (w : list bytes) : Prop := {
  ft_write_read : fs_write f ⊆ fs_read f;
  ft_exclusive : fs_exclusive f ⊆ fs_write f;
  ft_socket : Forall (fun q => grant_exposes_control_socket sock q = false)
                (fs_read f ++ map rd_source (fs_redirect f));
  ft_redirect : Forall (redirect_ok (fs_read f) (fs_write f)) (fs_redirect f);
  ft_origin : NoDup (rd_path <$> fs_redirect f);
  ft_reads : forall x, x ∈ fs_read f <-> x ∈ canonicalize_home <$> (grants KRead p ++ grants KWrite p);
  ft_writes : fs_write f = canonicalize_home <$> grants KWrite p;
  ft_logged : logged w (fs_read f ++ fs_write f ++ fs_exclusive f ++ fs_home_persist f ++
                        redirect_strings (fs_redirect f) ++ dv_allow (fs_dev f));
}.

Lemma subst_each_Ok l ys w : subst_each l = Ok (ys, w) -> ys = canonicalize_home <$> l.
Proof.
  intros H%each_Ok. induction H as [|x y l ys (w' & [= <- _] & _) _ IH]; [done|]. cbn. by rewrite IH.
Qed.
Lemma all_ok_false {A} (b : A -> bool) e l :
  all_ok (fun x => if b x then Err (e x) else Ok tt) l = Ok tt -> Forall (fun x => b x = false) l.
Proof. intros H%all_ok_Ok. eapply Forall_impl; [done|]. intros x. cbn. by destruct (b x). Qed.

Lemma translate_fs_Ok sock p f w : translate_fs sock p = Ok (f, w) -> fs_settled sock p f w.
Proof.
  unfold translate_fs. intros H. tstep H. tstep H. tsteps H. apply tr_ret_Ok in H as [-> ->].
  destruct (s_fs p) as [fs|] eqn:Ef; [|done]. apply (inj Ok) in E as ->.
  pose proof (subst_each_Ok _ _ _ E1) as Hr. pose proof (subst_each_Ok _ _ _ E2) as Hw.
  unfold translate_fs_redirects in E9.
  apply (redirect_loop_Ok _ _ _ _ _ _ []) in E9 as (Hok & Hnd & Hlr);
    [|constructor|constructor|by intros s ?%elem_of_nil].
  repeat match goal with Hs : subst_each _ = _ |- _ => apply subst_each_logged in Hs end.
  destruct v8, v10. apply all_ok_Ok in E8. apply all_ok_false in E10.
  constructor; cbn.
  - intros x Hx. apply elem_of_union_strings. by right.
  - intros x Hx. rewrite Forall_forall in E8. specialize (E8 x Hx). cbn in E8. by case_bool_decide.
  - done.
  - done.
  - done.
  - intros x. rewrite elem_of_union_strings, Hr, Hw, fmap_app, elem_of_app. unfold grants, path_field. by rewrite Ef.
  - rewrite Hw. unfold grants, path_field. by rewrite Ef.
  - unfold redirect_strings in *. rewrite !logged_app in *.
    split_and!; try (eapply logged_mono; [|done || naive_solver]; set_solver).
    intros s [Hs|Hs]%elem_of_union_strings; [specialize (E1 s Hs)|specialize (E2 s Hs)]; set_solver.
Qed.

(** ** Execution *)

Record exec_settled (p : SourcePolicy) (x : ExecPolicy) (w : list bytes) : Prop := {
  xt_deny : ex_deny x = canonicalize_home <$> floor_of FlExec p;
  xt_allow : forall a, a ∈ ex_allow x <->
    (a ∈ canonicalize_home <$> grants KExec p /\ a ∉ ex_deny x) \/
    (s_spawn p <> None /\ a ∈ SPAWN_SURFACE_BINARIES);
  xt_shell : ex_allow x = [] \/ existsb is_exec_wildcard (ex_allow x) = true \/ ex_shell x ∈ ex_allow x \/
             s_spawn p <> None;
  xt_logged : logged w (ex_allow x ++ ex_deny x ++ ex_path x ++ [ex_shell x]);
}.

Lemma surface_tokens w : logged w (default_shell :: SPAWN_SURFACE_BINARIES).
Proof.
  intros s Hs. assert (collect_placeholders s = []) as ->; [|set_solver].
  by repeat (apply elem_of_cons in Hs as [->|Hs]; [done|]); apply elem_of_nil in Hs.
Qed.

Lemma translate_exec_Ok p x w : translate_exec p = Ok (x, w) -> exec_settled p x w.
Proof.
  unfold translate_exec. intros H. tsteps H. apply tr_ret_Ok in H as [-> ->].
  match type of E2 with _ = Ok (_, ?w) => assert (logged w [v2]) as Hsh end.
  { destruct (e ← s_exec p; xs_shell e); [by eapply subst_logged|]. apply tr_ret_Ok in E2 as [-> ->].
    eapply logged_sub; [|apply surface_tokens]. set_solver. }
  pose proof (subst_each_Ok _ _ _ E) as Ha. pose proof (subst_each_Ok _ _ _ E0) as Hd.
  repeat match goal with Hs : subst_each _ = _ |- _ => apply subst_each_logged in Hs end.
  set (kept := List.filter _ v) in *.
  assert (forall a, a ∈ kept <-> a ∈ v /\ a ∉ v0) as Hk.
  { intros a. unfold kept. rewrite list_elem_of_In, filter_In, <- list_elem_of_In, negb_true_iff.
    by rewrite bool_decide_eq_false. }
  assert (forall a, a ∈ (if is_none (s_spawn p) then kept else union_strings kept SPAWN_SURFACE_BINARIES) <->
            a ∈ kept \/ (s_spawn p <> None /\ a ∈ SPAWN_SURFACE_BINARIES)) as Hall.
  { intros a. destruct (s_spawn p); cbn [is_none]; [|naive_solver]. rewrite elem_of_union_strings. naive_solver. }
  constructor; cbn [ex_deny ex_allow ex_path ex_shell].
  - rewrite Hd. unfold floor_of. by destruct (s_exec p).
  - intros a. rewrite Hall, Hk, Ha. unfold grants, path_field. done.
  - destruct (s_spawn p) eqn:Es; [by right; right; right|]. cbn [is_none].
    destruct kept as [|k ks] eqn:Ek; [by left|]. right.
    apply negb_true_iff in E3. cbn [is_nil negb andb] in E3.
    destruct (existsb is_exec_wildcard (k :: ks)); [by left|]. right. left.
    cbn [negb andb] in E3. by apply negb_false_iff, bool_decide_eq_true in E3.
  - rewrite !logged_app. split_and!; try (eapply logged_mono; [|done]; set_solver).
    intros s [[Hs _]%Hk|[_ Hs]]%Hall; [specialize (E s Hs); set_solver|].
    apply surface_tokens. set_solver.
Qed.

(** ** The other strings *)

Lemma unix_socket_logged a l w : unix_socket a = Ok (l, w) -> logged w ((us_real <$> l) ++ (us_shim <$> l)).
Proof.
  unfold unix_socket. intros H.
  destruct (uxa_real a), (uxa_shim a);
    try (apply tr_ret_Ok in H as [-> ->]; by intros s ?%elem_of_nil).
  tsteps H. apply tr_ret_Ok in H as [-> ->]. apply subst_logged in E, E0. rewrite logged_app.
  split; (eapply logged_mono; [|done]); set_solver.
Qed.
Lemma translate_unix_logged p u w :
  translate_unix p = Ok (u, w) -> logged w ((us_real <$> ur_sockets u) ++ (us_shim <$> ur_sockets u)).
Proof.
  unfold translate_unix. destruct (s_unix p); [|by intros [-> ->]%tr_ret_Ok s ?%elem_of_nil].
  intros H. tstep H. apply tr_ret_Ok in H as [-> ->]. rewrite app_nil_r. cbn.
  apply each_Ok in E.
  induction E as [|x y l ys (w' & Hs & Hw) _ IH]; cbn [concat fmap]; [by intros s ?%elem_of_nil|].
  apply unix_socket_logged in Hs. rewrite !fmap_app, !logged_app in *.
  destruct IH, Hs. split_and!; try done; by eapply logged_mono.
Qed.

(** The host path of a settled socket is an entry's. *)
Lemma translate_unix_real p u w s :
  translate_unix p = Ok (u, w) -> s ∈ ur_sockets u ->
  exists x a real, s_unix p = Some x /\ a ∈ lf_resolved (uxs_allow x) /\ uxa_real a = Some real /\
    us_real s = canonicalize_home real.
Proof.
  unfold translate_unix. destruct (s_unix p) as [x|]; [|by intros [-> ->]%tr_ret_Ok ?%elem_of_nil].
  intros H Hs. tstep H. apply tr_ret_Ok in H as [-> ->]. apply each_Ok in E. cbn in Hs.
  apply list_elem_of_In, in_concat in Hs as (l & [i Hi]%list_elem_of_In%list_elem_of_lookup & Hs%list_elem_of_In).
  destruct (Forall2_lookup_r _ _ _ _ _ E Hi) as (a & Ha & w' & Hu & _).
  apply list_elem_of_lookup_2 in Ha. exists x, a. unfold unix_socket in Hu.
  destruct (uxa_real a) as [real|], (uxa_shim a);
    try (apply tr_ret_Ok in Hu as [-> ->]; by apply elem_of_nil in Hs).
  tstep Hu. tstep Hu. apply tr_ret_Ok in Hu as [-> ->]. apply list_elem_of_singleton in Hs as ->.
  exists real. split_and!; try done. cbn. unfold subst in E0. by injection E0 as <-.
Qed.

Definition opt_list {A} (o : option A) : list A := match o with Some a => [a] | None => [] end.
Lemma translate_audit_logged p a w : translate_audit p = Ok (a, w) -> logged w (opt_list (af_dir (au_file a))).
Proof.
  unfold translate_audit. destruct (s_audit p) as [s|]; [|by intros [-> ->]%tr_ret_Ok x ?%elem_of_nil].
  unfold translate_audit_section. intros H. tsteps H. apply tr_ret_Ok in H as [-> ->]. cbn [au_file app].
  match goal with He : match aus_file s with _ => _ end = _ |- _ => rename He into Ef end.
  destruct (aus_file s); [|by apply tr_ret_Ok in Ef as [-> ->]; intros x ?%elem_of_nil].
  tsteps Ef. apply tr_ret_Ok in Ef as [-> ->]. cbn [af_dir].
  match goal with He : match afs_dir ?f with _ => _ end = _ |- _ => destruct (afs_dir f); [|by apply tr_ret_Ok in He as [-> ->]; intros x ?%elem_of_nil]; tstep He; apply tr_ret_Ok in He as [-> ->] end.
  match goal with He : subst _ = _ |- _ => apply subst_logged in He; eapply logged_mono; [|exact He] end.
  set_solver.
Qed.

Lemma bt_insert_vals {V} k (v : V) m x : x ∈ (bt_insert k v m).*2 -> x = v \/ x ∈ m.*2.
Proof.
  induction m as [|[k' v'] m IH]; cbn [bt_insert fmap list_fmap snd]; [set_solver|].
  case_bool_decide; [subst; cbn; set_solver|]. destruct (bytes_ltb k k'); cbn [fmap list_fmap snd]; [set_solver|].
  rewrite !elem_of_cons. intros [->|?%IH]; set_solver.
Qed.
Lemma bt_extend_vals {V} (m c : list (bytes * V)) x : x ∈ (bt_extend m c).*2 -> x ∈ m.*2 \/ x ∈ c.*2.
Proof.
  unfold bt_extend. revert m; induction c as [|[k v] c IH]; intros m; cbn [fold_left fmap list_fmap fst snd]; [set_solver|].
  intros [[->|?]%bt_insert_vals|?]%IH; set_solver.
Qed.
Lemma translate_env_logged p e w : translate_env p = Ok (e, w) -> logged w (en_vars e).*2.
Proof.
  unfold translate_env. intros H. tstep H. apply tr_ret_Ok in H as [-> ->]. rewrite app_nil_r. cbn [en_vars].
  intros s [Hs%elem_of_nil|(kv & -> & Hkv)%list_elem_of_fmap]%bt_extend_vals; [done|].
  apply each_Ok in E. apply list_elem_of_lookup in Hkv as [i Hi].
  destruct (Forall2_lookup_r _ _ _ _ _ E Hi) as (x & _ & w' & Hx & Hw).
  tstep Hx. apply tr_ret_Ok in Hx as [-> ->]. apply subst_logged in E0. rewrite app_nil_r in Hw.
  rewrite <- Hw. apply E0. by left.
Qed.
Lemma translate_workload_logged p r w : translate_workload p = Ok (r, w) -> logged w (opt_list (wl_cwd r)).
Proof.
  unfold translate_workload. destruct (s_workload p); [|by intros [-> ->]%tr_ret_Ok x ?%elem_of_nil].
  intros H. tstep H. tstep H. apply tr_ret_Ok in H as [-> ->]. cbn [wl_cwd]. rewrite app_nil_r.
  destruct (wls_cwd w0); [|by apply tr_ret_Ok in E as [-> ->]; intros x ?%elem_of_nil].
  tstep E. apply tr_ret_Ok in E as [-> ->]. apply subst_logged in E1. by rewrite app_nil_r.
Qed.
Lemma translate_rootfs_logged p r w : translate_rootfs_runtime p = Ok (r, w) -> logged w [rf_path r].
Proof.
  unfold translate_rootfs_runtime.
  destruct (s_rootfs p) as [r'|]; [|by intros [-> ->]%tr_ret_Ok x ->%list_elem_of_singleton y Hy].
  intros H. tstep H. apply tr_ret_Ok in H as [-> ->]. cbn [rf_path]. rewrite app_nil_r.
  destruct (rfs_path r'); [by eapply subst_logged|].
  by apply tr_ret_Ok in E as [-> ->]; intros x ->%list_elem_of_singleton y Hy.
Qed.

(** ** The whole translation *)

(** The strings of a settled policy that the daemon substitutes. *)
Definition settled_strings (t : Translated) : list bytes :=
  let e := tl_effective_policy t in
  let n := ep_net e in let f := ep_fs e in let x := ep_exec e in
  (nr_cidr <$> np_allow n ++ np_bpf_connect_allow n ++ np_bpf_connect_deny n ++
               np_bpf_bind_allow n ++ np_bpf_bind_deny n) ++
  (fs_read f ++ fs_write f ++ fs_exclusive f ++ fs_home_persist f ++
   redirect_strings (fs_redirect f) ++ dv_allow (fs_dev f)) ++
  (ex_allow x ++ ex_deny x ++ ex_path x ++ [ex_shell x]) ++
  ((us_real <$> ur_sockets (tl_unix t)) ++ (us_shim <$> ur_sockets (tl_unix t))) ++
  opt_list (af_dir (au_file (tl_audit t))) ++ (en_vars (tl_env t)).*2 ++
  opt_list (wl_cwd (tl_workload t)) ++ [rf_path (tl_rootfs t)].

(** What a translation that succeeds has checked and produced. *)
Record settles (sock : bytes) (p : SourcePolicy) (t : Translated) (w : list bytes) : Prop := {
  st_rootfs : validate_rootfs p = Ok tt;
  st_spawn : validate_spawn p = Ok tt;
  st_manifest : validate_mutable_manifest p = Ok tt;
  st_net : exists net, net_settled p (ep_net (tl_effective_policy t)) w net;
  st_fs : fs_settled sock p (ep_fs (tl_effective_policy t)) w;
  st_exec : exec_settled p (ep_exec (tl_effective_policy t)) w;
  st_seccomp : sc_deny (ep_seccomp (tl_effective_policy t)) = floor_of FlSeccomp p;
  st_mesh : tl_mesh t = translate_mesh (s_provides p) (lf_resolved (s_consumes p));
  st_variants : tl_manifest t = translate_manifest p;
  st_identity : translate_identity p = Ok (tl_identity t);
  st_service : translate_service p = Ok (tl_service t);
  st_unix : exists w', translate_unix p = Ok (tl_unix t, w');
  st_deferred : tl_deferred_substitutions t = deferred_set w;
  st_logged : logged w (settled_strings t);
}.

Lemma net_settled_mono p n w w' net : w ⊆ w' -> net_settled p n w net -> net_settled p n w' net.
Proof. intros Hw []. constructor; try done. by eapply logged_mono. Qed.
Lemma fs_settled_mono sock p f w w' : w ⊆ w' -> fs_settled sock p f w -> fs_settled sock p f w'.
Proof. intros Hw []. constructor; try done. by eapply logged_mono. Qed.
Lemma exec_settled_mono p x w w' : w ⊆ w' -> exec_settled p x w -> exec_settled p x w'.
Proof. intros Hw []. constructor; try done. by eapply logged_mono. Qed.

Lemma translate_Ok sock p t : translate sock p = Ok t -> exists w, settles sock p t w.
Proof.
  unfold translate. destruct (translate_sections sock p) as [[t' w]|] eqn:H; [|done]. intros [= <-]. exists w.
  unfold translate_sections in H. tsteps H. apply tr_ret_Ok in H as [-> Hnil]. subst.
  repeat match goal with v : unit |- _ => destruct v end.
  apply translate_net_Ok in E2 as [net E2]. apply translate_fs_Ok in E3. apply translate_exec_Ok in E4.
  pose proof E6 as Hunix. apply translate_unix_logged in E6. apply translate_audit_logged in E9. apply translate_env_logged in E10.
  apply translate_workload_logged in E12. apply translate_rootfs_logged in E13.
  pose proof (nt_logged _ _ _ _ E2). pose proof (ft_logged _ _ _ _ E3). pose proof (xt_logged _ _ _ E4).
  constructor; try done; cbn [with_deferred tl_effective_policy ep_net ep_fs ep_exec].
  - exists net. eapply net_settled_mono; [|done]. set_solver.
  - eapply fs_settled_mono; [|done]. set_solver.
  - eapply exec_settled_mono; [|done]. set_solver.
  - cbn. unfold floor_of. by destruct (s_seccomp p).
  - by eexists.
  - unfold settled_strings. cbn [with_deferred tl_effective_policy ep_net ep_fs ep_exec tl_unix tl_audit tl_env tl_workload tl_rootfs].
    repeat (apply logged_app; split; [eapply logged_mono; [|eassumption]; set_solver|]).
    eapply logged_mono; [|eassumption]. set_solver.
Qed.

(** ** What the translation does not read *)

(** The policy without the fields that only the source has. *)
Definition erase_fs (f : FsSection) : FsSection := {|
  fss_read := fss_read f; fss_write := fss_write f; fss_exclusive := fss_exclusive f; fss_deny := None;
  fss_home := fss_home f; fss_tmp := fss_tmp f; fss_proc := fss_proc f; fss_dev := fss_dev f;
  fss_cwd := fss_cwd f; fss_redirect := fss_redirect f |}.
Definition erase_net (n : NetSection) : NetSection := {|
  ns_mode := ns_mode n; ns_reason := ns_reason n; ns_proxy_listen_address := ns_proxy_listen_address n;
  ns_proxy := ns_proxy n;
  ns_bpf := option_map (fun b => {| nbf_families := None; nbf_deny_families := None;
                                    nbf_connect := nbf_connect b; nbf_bind := nbf_bind b |}) (ns_bpf n);
  ns_bind := option_map (fun b => {|
    nbd_inaddr_any_policy := None; nbd_in6addr_any_policy := None; nbd_allow_host_loopback_v4 := None;
    nbd_allow_host_loopback_v6 := None; nbd_min_port := nbd_min_port b;
    nbd_allowed_ports := nbd_allowed_ports b |}) (ns_bind n);
  ns_ipv6 := None; ns_audit := None; ns_udp := ns_udp n |}.
Definition erase (p : SourcePolicy) : SourcePolicy := {|
  s_template_base := None; s_template_name := None; s_name := None; s_include := [];
  s_threat_catalogue_version := None; s_signature := None; s_cap := s_cap p; s_exec := s_exec p;
  s_fs := option_map erase_fs (s_fs p); s_net := option_map erase_net (s_net p);
  s_unix := option_map (fun u => {| uxs_abstract_ns := None; uxs_allow := uxs_allow u |}) (s_unix p);
  s_ssh := s_ssh p; s_identity := s_identity p; s_provides := s_provides p; s_consumes := s_consumes p;
  s_service := s_service p; s_unsafe_section := None;
  s_env := option_map (fun e => {| evs_pass := None; evs_deny := None; evs_set := evs_set e |}) (s_env p);
  s_seccomp := option_map (fun s => {| scs_profile := None; scs_deny := scs_deny s; scs_allow := None |})
                 (s_seccomp p);
  s_lifecycle := s_lifecycle p; s_audit := s_audit p; s_ulimits := s_ulimits p;
  s_workload := s_workload p; s_tty := s_tty p; s_trust := s_trust p; s_dbus := s_dbus p;
  s_rootfs := s_rootfs p; s_spawn := s_spawn p; s_mutable := s_mutable p |}.

Lemma translate_net_erase p : translate_net (erase p) = translate_net p.
Proof.
  unfold translate_net. cbn [erase s_net]. destruct (s_net p) as [[m r a px bpf bd v6 au u]|]; [|done].
  by destruct bpf, bd.
Qed.
Lemma translate_fs_erase sock p : translate_fs sock (erase p) = translate_fs sock p.
Proof. unfold translate_fs. cbn [erase s_fs]. by destruct (s_fs p) as [[]|]. Qed.
Lemma translate_sections_erase sock p : translate_sections sock (erase p) = translate_sections sock p.
Proof.
  assert (translate_identity (erase p) = translate_identity p) as Hi.
  { unfold translate_identity. cbn [erase s_fs s_identity]. by destruct (s_fs p) as [[]|]. }
  assert (translate_unix (erase p) = translate_unix p) as Hu.
  { unfold translate_unix. cbn [erase s_unix]. by destruct (s_unix p). }
  assert (translate_env (erase p) = translate_env p) as He.
  { unfold translate_env. cbn [erase s_env]. by destruct (s_env p). }
  assert (translate_proc (erase p) = translate_proc p) as Hp.
  { unfold translate_proc. cbn [erase s_fs]. by destruct (s_fs p) as [[]|]. }
  unfold translate_sections. rewrite translate_net_erase, translate_fs_erase, Hi, Hu, He, Hp.
  cbn [erase s_seccomp s_cap s_tty s_trust]. by destruct (s_seccomp p).
Qed.

(** * Theorems *)

(** The floors of a policy reach its settled form.  When the translation
    succeeds, each [net.proxy.deny.invariant] entry is one rule of
    [deny_invariant], in order, over every port and protocol; the denied system
    calls are those of [seccomp.deny]; the denied programs are those of
    [exec.deny] with [$HOME] as [~], and an allowed program is denied by none of
    them unless it is a binary of the spawn surface in a policy with [[spawn]],
    which is added after the filter. *)
Theorem translated_floors sock p t :
  translate sock p = Ok t ->
  let e := tl_effective_policy t in
  Forall2 (fun d r => any_rule d = Ok r /\ nr_port_min r = 0 /\ nr_port_max r = u16_max /\
                      nr_protocol r = ProtoAny)
    (invariant_denies p) (np_deny_invariant (ep_net e)) /\
  sc_deny (ep_seccomp e) = floor_of FlSeccomp p /\
  ex_deny (ep_exec e) = canonicalize_home <$> floor_of FlExec p /\
  (forall a, a ∈ ex_allow (ep_exec e) -> a ∈ ex_deny (ep_exec e) ->
     s_spawn p <> None /\ a ∈ SPAWN_SURFACE_BINARIES).
Proof.
  intros [w [? ? ? [net Hn] _ Hx Hs _ _ _ _ _ _ _]]%translate_Ok. cbv zeta. split_and!.
  - eapply Forall2_impl; [apply (nt_invariant _ _ _ _ Hn)|]. intros d r H. split; [done|].
    unfold any_rule in H. destruct (parse_cidr _); [|done]. by injection H as <-.
  - done.
  - apply (xt_deny _ _ _ Hx).
  - intros a Ha Hd. apply (xt_allow _ _ _ Hx) in Ha as [[_ Ha]|Ha]; [done|exact Ha].
Qed.

(** C27: What the settled filesystem grants.  When the translation succeeds, the
    readable paths are the [fs.read] and [fs.write] grants and the writable ones
    the [fs.write] grants, with [$HOME] as [~]; an exclusive path is writable.
    As it is written, with [.] and [..] resolved, neither a readable path nor the
    source of a redirect is the daemon's control socket or that of any user, or a
    directory above one: this is of the text, in which a glob or a token stands
    for itself, so it does not cover what [/run/user/**] or [/run/user/<uid>] come
    to mean.  A redirect is of a granted path, outside [/proc], with no [..] on
    either side, and no path is redirected twice. *)
Theorem translated_grants sock p t :
  translate sock p = Ok t ->
  let f := ep_fs (tl_effective_policy t) in
  (forall x, x ∈ fs_read f <-> x ∈ canonicalize_home <$> (grants KRead p ++ grants KWrite p)) /\
  fs_write f = canonicalize_home <$> grants KWrite p /\
  fs_exclusive f ⊆ fs_write f /\
  (forall q, q ∈ fs_read f ++ map rd_source (fs_redirect f) ->
     ~ lexical_normalize q `prefix_of` components sock /\
     forall uid, is_uid uid = true -> ~ lexical_normalize q `prefix_of` user_socket uid) /\
  Forall (redirect_ok (fs_read f) (fs_write f)) (fs_redirect f) /\ NoDup (rd_path <$> fs_redirect f).
Proof.
  intros [w [? ? ? _ [] _ _ _ _ _ _ _ _ _]]%translate_Ok. split_and!; try done. intros q Hq.
  pose proof (grant_exposes_exact sock q) as Hx.
  match goal with H : Forall (fun q => grant_exposes_control_socket sock q = false) _ |- _ =>
    rewrite Forall_forall in H; rewrite (H q Hq) in Hx end.
  split; [intros Hp|intros uid Hu Hp]; cut (false = true); try done; apply Hx; [by left|right; by exists uid].
Qed.

(** Every token left for the daemon is announced: a [<token>] of a path, an
    address, a socket, an environment value or a directory of the settled policy
    is in [deferred_substitutions]. *)
Theorem translated_tokens sock p t s tok :
  translate sock p = Ok t -> s ∈ settled_strings t -> tok ∈ collect_placeholders s ->
  tok ∈ tl_deferred_substitutions t.
Proof.
  intros [w [? ? ? _ _ _ _ _ _ _ _ _ -> Hl]]%translate_Ok Hs Ht. apply elem_of_deferred. by apply (Hl s Hs).
Qed.

(** The translation reads nothing that [erase] drops. *)
Lemma translate_ignores sock p q : erase p = erase q -> translate sock p = translate sock q.
Proof.
  intros H. unfold translate.
  rewrite <- (translate_sections_erase sock p), <- (translate_sections_erase sock q). by rewrite H.
Qed.

(** An increment is lost where the chain has no list to apply it to: over a template
    with a [[net]] section but no [[net.bpf]], the connect denials that a derived
    policy adds with [[[net.bpf.connect.deny.add]]] are not in its settled policy. *)
Theorem deny_increment_lost {C : Crypto} {T : SourceToml} fetch t sock entry root link rc tl rn n b acl d :
  resolve_verified fetch t entry = Ok rc -> derives fetch t entry [(root, link)] ->
  s_net root = Some rn -> ns_bpf rn = None ->
  s_net entry = Some n -> ns_bpf n = Some b -> nbf_connect b = Some acl -> nba_deny acl = LfDelta d ->
  translate sock (rc_effective rc) = Ok tl ->
  np_bpf_connect_deny (ep_net (tl_effective_policy tl)) = [].
Proof.
  intros (_ & c & Hd & _ & ->)%resolve_verified_Ok Hd' Hrn Hb0 Hn Hb Ha Hdl [w Hst]%translate_Ok.
  rewrite (derives_det _ _ _ _ _ Hd Hd') in *. destruct (st_net _ _ _ _ Hst) as [net Hnet].
  pose proof (nt_section _ _ _ _ Hnet) as Hs. destruct (nt_connect _ _ _ _ Hnet) as [w' Hc].
  cbn [resolution rc_effective with_identity s_net fmap list_fmap fst] in Hs.
  change (w_val (fold_chain entry [root])) with (w_val (fold root entry)) in Hs.
  rewrite s_net_fold, Hrn, Hn in Hs. cbn [merge] in Hs. apply (inj Some) in Hs as <-.
  rewrite ns_bpf_fold, Hb0, Hb in Hc. cbn [merge or_else mbind option_bind] in Hc. rewrite Ha in Hc.
  unfold translate_bpf_acl in Hc. rewrite Hdl in Hc. tstep Hc. tstep Hc.
  apply tr_ret_Ok in Hc as [[= _ ->] _]. cbn [lf_resolved] in E0. unfold translate_bpf_rules in E0.
  tstep E0. apply tr_ret_Ok in E1 as [-> _]. by apply tr_ret_Ok in E0 as [-> _].
Qed.

(** ** A policy that settles *)

Definition sample_sock : bytes := str "/run/user/1000/kennel/control.sock".
Definition full_fs : FsSection := {|
  fss_read := Some (PfSet [str "/usr"; str "$HOME/src"]); fss_write := Some (PfSet [str "/srv/<ctx>"]);
  fss_exclusive := Some [str "/srv/<ctx>"]; fss_deny := None;
  fss_home := Some {| fh_shadow := Some true; fh_persist := []; fh_readonly := None |};
  fss_tmp := None; fss_proc := None; fss_dev := None; fss_cwd := None; fss_redirect := [] |}.
Definition full_deny : NetDenyRule := {|
  ndr_cidr := str "169.254.0.0/16"; ndr_reason := some_reason; ndr_threats := None |}.
Definition full_net (families : option (list bytes)) : NetSection := {|
  ns_mode := Some (str "constrained"); ns_reason := None; ns_proxy_listen_address := None;
  ns_proxy := Some {| npx_allow := lf_default;
    npx_deny := Some {| npd_invariant := [full_deny]; npd_policy := lf_default |} |};
  ns_bpf := Some {| nbf_families := None; nbf_deny_families := families; nbf_connect := None; nbf_bind := None |};
  ns_bind := None; ns_ipv6 := None; ns_audit := None; ns_udp := None |}.
Definition full_policy (families : option (list bytes)) : SourcePolicy :=
  sample_policy None (Some (str "base-confined")) None (Some (exec_of (Some (PfSet [str "/bin/sh"]))))
    (Some full_fs) (Some (full_net families)) [] [str "bpf"].
Definition settled_of (p : SourcePolicy) : option Translated :=
  match translate sample_sock p with Ok t => Some t | Err _ => None end.

Lemma translated_floors_witness : exists t,
  settled_of (full_policy None) = Some t /\ sc_deny (ep_seccomp (tl_effective_policy t)) = [str "bpf"] /\
  length (np_deny_invariant (ep_net (tl_effective_policy t))) = 1%nat.
Proof.
  destruct (translate sample_sock (full_policy None)) as [t|] eqn:E; [|vm_compute in E; discriminate E].
  exists t. split; [unfold settled_of; by rewrite E|].
  destruct (translated_floors _ _ _ E) as (H & -> & _). split; [done|].
  symmetry. apply (Forall2_length _ _ _ H).
Defined.
Lemma translated_grants_witness : exists t,
  settled_of (full_policy None) = Some t /\ str "~/src" ∈ fs_read (ep_fs (tl_effective_policy t)) /\
  ~ lexical_normalize (str "~/src") `prefix_of` user_socket (str "1000").
Proof.
  destruct (translate sample_sock (full_policy None)) as [t|] eqn:E; [|vm_compute in E; discriminate E].
  exists t. split; [unfold settled_of; by rewrite E|].
  destruct (translated_grants _ _ _ E) as (H & _ & _ & Hs & _).
  assert (str "~/src" ∈ fs_read (ep_fs (tl_effective_policy t))) as Hin by (apply H; by right; left).
  split; [exact Hin|]. apply Hs; [apply elem_of_app; by left|reflexivity].
Defined.
Lemma translated_tokens_witness : exists t,
  settled_of (full_policy None) = Some t /\ str "<ctx>" ∈ tl_deferred_substitutions t.
Proof.
  destruct (translate sample_sock (full_policy None)) as [t|] eqn:E; [|vm_compute in E; discriminate E].
  exists t. split; [unfold settled_of; by rewrite E|].
  eapply (translated_tokens _ _ _ (str "/srv/<ctx>") _ E); [|by left].
  vm_compute in E. injection E as <-. apply list_elem_of_In. cbn. tauto.
Defined.
Definition lost_deny : NetBpf := {|
  nbf_families := None; nbf_deny_families := None;
  nbf_connect := Some {| nba_allow := lf_default; nba_deny := LfDelta {|
    dl_add := [{| bru_cidr := Some (str "10.0.0.0/8"); bru_ports := []; bru_protocol := None;
                  bru_reason := some_reason; bru_threats := None |}]; dl_remove := [] |} |};
  nbf_bind := None |}.
Definition bare_net (bpf : option NetBpf) : NetSection := {|
  ns_mode := None; ns_reason := None; ns_proxy_listen_address := None; ns_proxy := None;
  ns_bpf := bpf; ns_bind := None; ns_ipv6 := None; ns_audit := None; ns_udp := None |}.
Definition bare_root : SourcePolicy :=
  sample_policy None (Some (str "base-confined")) None None (Some full_fs) (Some (bare_net None)) [] [].
Definition bare_leaf : SourcePolicy :=
  sample_policy (Some (str "base-confined")) None (Some (str "work")) None None
    (Some (bare_net (Some lost_deny))) [] [].
Definition bare_toml : SourceToml := {| source_parse := fun _ => Some bare_root; source_text := fun _ => Some [0] |}.
Definition bare_chain : list (SourcePolicy * ChainLink) :=
  [(bare_root, link_of (str "base-confined") None bare_root)].
Lemma deny_increment_lost_witness : exists tl,
  settled_of (rc_effective (resolution trust_dev bare_leaf bare_chain)) = Some tl /\
  np_bpf_connect_deny (ep_net (tl_effective_policy tl)) = [].
Proof.
  assert (resolve_verified (C := toy_crypto) (T := bare_toml) sample_fetch trust_dev bare_leaf =
    Ok (resolution trust_dev bare_leaf bare_chain)) as Hr by (vm_compute; reflexivity).
  assert (derives (C := toy_crypto) (T := bare_toml) sample_fetch trust_dev bare_leaf bare_chain) as Hd.
  { by eapply (derives_step (T := bare_toml)) with (text := [0]); [..|by constructor]. }
  destruct (translate sample_sock (rc_effective (resolution trust_dev bare_leaf bare_chain))) as [tl|] eqn:E;
    [|vm_compute in E; discriminate E].
  exists tl. split; [unfold settled_of; by rewrite E|].
  by eapply (deny_increment_lost (T := bare_toml) _ _ _ _ _ _ _ _ _ _ _ _ _ Hr Hd).
Defined.
