(* ===== verification/Compile.v ===== *)
(** The compiler ([kennel-lib-compile/src/compile.rs]) with the checks it runs on
    the resolved policy ([ssh.rs], [unix.rs], [dev.rs], [identity.rs],
    [spawn.rs]), the lockfile ([lock.rs]) and the linter ([lint.rs]).

    [compile] resolves the chain, applies the included fragments, checks the
    sections that only the source has, resolves the [[spawn]] grant against the
    settled templates, translates, assembles the settled policy and asserts the
    framework invariants on it.  The artefacts by name, source and settled, are
    the caller's, parameters here as in [Resolve].  Messages are constructors.

    Theorems: what the compiler signs, the daemon loads; the floors of the entry,
    of its ancestors and of its fragments are the floors of the settled policy;
    who may claim a reserved name; what the spawn grant is pinned to; what a
    lockfile pins; what the linter can find in a compiled policy. *)

From S2P Require Import Prelude Bytes Str Paths IpText Plan Settled Cursor ControlWire Mesh.
From S2P Require Import PlanBuild Patch B64 Sshsig Verify BinderWire SpawnVerb Registry Source SourceSig MeshBus.
From S2P Require Import Resolve ControlSocket Translate.
Open Scope Z_scope.

Inductive SectionProblem : Type :=
  | SshNoDest | SshEmptyDest | SshHeadless
  | UnixAbstractHost | UnixAbstract (v : bytes) | UnixNoReal (who : bytes) | UnixNoShim (who : bytes)
  | UnixControl (who real : bytes)
  | DevNoPath | DevPath (p : bytes) | DevUntagged (who : bytes)
  | GroupEmpty | GroupName (g : bytes).
Inductive CompileWarning : Type :=
  | CwClobber (c : Clobber)
  | CwAbstract | CwSshAgent (who : bytes) | CwGpgAgent (who : bytes)
  | CwDeny (d : DenyWarning)
  | CwUnenforced (section : bytes)
  | CwFreeform (field reason : bytes).
Inductive CompileError : Type :=
  | CeResolve (e : ResolveError)
  | CeNoName
  | CeParse | CeIncludeMissing (name : bytes) | CeNotAdditive (name : bytes)
  | CeFragmentBase (name base : bytes) | CeIncludeConflict (key : bytes)
  | CeSection (ps : list SectionProblem) | CeMesh (ps : list MeshProblem)
  | CeSpawnMissing (reference : bytes) | CeSpawnDoc (e : PolicyError) | CeSpawnUnsigned (reference : bytes)
  | CeIneligible (e : Ineligible) | CeNarrowing (reference field : bytes)
  | CeTranslation (e : TransError)
  | CeInvariants (vs : list Violation)
  | CeLockMismatch (name : bytes).

(** ** The sections of the source *)

Definition problems_ok (ps : list SectionProblem) : result CompileError unit :=
  match ps with [] => Ok tt | _ => Err (CeSection ps) end.
Definition exposed (t : option Threats) : bool :=
  match t with Some t => negb (is_nil (th_exposed t)) | None => false end.

(** *** [ssh.rs] *)

Definition has_threat_tag (ssh : SshSection) : bool :=
  exposed (sss_threats ssh) || existsb (fun d => exposed (ssd_threats d)) (lf_resolved (sss_destinations ssh)).
Definition dest_problems (d : SshDestination) : list SectionProblem :=
  match ssd_dest d with
  | None => [SshNoDest]
  | Some dest => if is_nil (trim dest) then [SshEmptyDest] else []
  end.
Definition ssh_validate (p : SourcePolicy) : result CompileError unit :=
  match s_ssh p with
  | None => Ok tt
  | Some ssh => problems_ok (flat_map dest_problems (lf_resolved (sss_destinations ssh)) ++
      if bool_decide (sss_allow_headless ssh = Some true) && negb (has_threat_tag ssh) then [SshHeadless] else [])
  end.

(** *** [dev.rs] *)

Definition is_dev_path (p : bytes) : bool :=
  (bool_decide (p = str "/dev") || starts_with (str "/dev/") p) &&
  negb (existsb (fun c => bool_decide (c = str "..")) (split_on SLASH p)).
Definition has_exposed_tag (e : DevPassthrough) : bool := exposed (dpt_threats e).
Definition passthrough_problems (e : DevPassthrough) : list SectionProblem :=
  match dpt_path e with
  | None => [DevNoPath]
  | Some p => if is_dev_path p then [] else [DevPath p]
  end ++ if has_exposed_tag e then [] else [DevUntagged (default (str "<no-path>") (dpt_path e))].
Definition dev_validate (p : SourcePolicy) : result CompileError unit :=
  match fs ← s_fs p; fss_dev fs with
  | None => Ok tt
  | Some dev => problems_ok (flat_map passthrough_problems (lf_resolved (fdv_passthrough dev)))
  end.

(** *** [identity.rs] *)

(** A character is white space or a control character: read on its encoding, where the
    control characters above the ASCII ones are [C2 80] to [C2 9F]. *)
Definition unsafe1 (a : Z) : bool := (a =? COLON) || space1 a || (a <? 32) || (a =? 127).
Definition unsafe2 (a b : Z) : bool := space2 a b || ((a =? 194) && (128 <=? b) && (b <=? 159)).
Fixpoint unsafe_char (s : bytes) : bool :=
  match s with
  | [] => false
  | a :: t =>
      unsafe1 a ||
      match t with
      | b :: t1 => unsafe2 a b || match t1 with c :: _ => space3 a b c | [] => false end
      | [] => false
      end || unsafe_char t
  end.
Definition is_safe_group_name (name : bytes) : bool := negb (is_nil name) && negb (unsafe_char name).
Definition group_problems (g : bytes) : list SectionProblem :=
  if is_nil g then [GroupEmpty] else if is_safe_group_name g then [] else [GroupName g].
Definition identity_validate (p : SourcePolicy) : result CompileError unit :=
  match s_identity p with
  | None => Ok tt
  | Some i => problems_ok (flat_map group_problems (gf_resolved (ids_groups i)))
  end.

(** *** [unix.rs] *)

Definition is_empty_opt (o : option bytes) : bool := is_nil (default [] o).
Definition shims (name env : bytes) (a : UnixAllow) : bool :=
  match uxa_name a with Some n => eq_ignore_case n name | None => false end ||
  bool_decide (uxa_env a = Some env).
Definition who_unix (a : UnixAllow) : bytes := default (str "(unnamed)") (or_else (uxa_name a) (uxa_real a)).

Section unix.
Context (socket_path : bytes).

Definition unix_problems (a : UnixAllow) : list SectionProblem :=
  (if is_empty_opt (uxa_real a) then [UnixNoReal (who_unix a)] else []) ++
  (if is_empty_opt (uxa_shim a) then [UnixNoShim (who_unix a)] else []) ++
  match uxa_real a with
  | Some real => if is_control_socket socket_path real then [UnixControl (who_unix a) real] else []
  | None => []
  end.
Definition unix_warnings (a : UnixAllow) : list CompileWarning :=
  (if shims (str "ssh-agent") (str "SSH_AUTH_SOCK") a then [CwSshAgent (who_unix a)] else []) ++
  (if shims (str "gpg-agent") (str "GPG_AGENT_INFO") a then [CwGpgAgent (who_unix a)] else []).
Definition abstract_checked (mode : bytes) (v : option bytes) : list SectionProblem * list CompileWarning :=
  match v with
  | None => ([], [])
  | Some v =>
      if bool_decide (v = str "deny") then ([], [])
      else if bool_decide (v = str "allow") then
        if bool_decide (mode = str "host") then ([UnixAbstractHost], []) else ([], [CwAbstract])
      else ([UnixAbstract v], [])
  end.
Definition unix_validate (p : SourcePolicy) : result CompileError (list CompileWarning) :=
  match s_unix p with
  | None => Ok []
  | Some u =>
      let net_mode := default (str "constrained") (n ← s_net p; ns_mode n) in
      let ab := abstract_checked net_mode (uxs_abstract_ns u) in
      let allow := lf_resolved (uxs_allow u) in
      _ ← problems_ok (ab.1 ++ flat_map unix_problems allow);
      Ok (ab.2 ++ flat_map unix_warnings allow)
  end.
End unix.

(** ** The lockfile ([lock.rs]) *)

Record LockEntry : Type := { lk_name : bytes; lk_signing_key_id : bytes; lk_signature : bytes }.
Record Lockfile : Type := { lk_entries : list LockEntry }.
Definition lock_entry (l : ChainLink) : LockEntry := {|
  lk_name := ln_name l; lk_signing_key_id := default [] (ln_signing_key_id l);
  lk_signature := default [] (ln_signature l) |}.
Definition from_chain (chain : list ChainLink) : Lockfile := {| lk_entries := map lock_entry chain |}.
Definition locked (previous : Lockfile) (name : bytes) : option LockEntry :=
  List.find (fun p => bool_decide (lk_name p = name)) (lk_entries previous).
Fixpoint verify_entries (entries : list LockEntry) (previous : Lockfile) : result CompileError unit :=
  match entries with
  | [] => Ok tt
  | entry :: entries =>
      match locked previous (lk_name entry) with
      | Some prev => if negb (bool_decide (lk_signature prev = lk_signature entry))
                     then Err (CeLockMismatch (lk_name entry)) else verify_entries entries previous
      | None => verify_entries entries previous
      end
  end.
Definition verify_against (lock previous : Lockfile) : result CompileError unit :=
  verify_entries (lk_entries lock) previous.

(** ** The compiler *)

Definition ASSERTED_INVARIANTS : list bytes := map str
  ["cap.no_new_privs"; "exec.deny_setuid"; "exec.deny_setgid"; "exec.deny_setcap"; "exec.deny_writable";
   "fs.home.shadow"; "fs.redirect.write-set"; "net.mode"; "net.proxy.deny.invariant"]%string.
Definition UNSIGNED_ALGORITHM : bytes := str "none".

Record Compiled : Type := {
  cd_policy : SettledPolicy; cd_lock : Lockfile; cd_warnings : list CompileWarning }.

Definition reserved_authority (origin : ProvidesOrigin) (t : Trust) : ReservedAuthority :=
  let entry_unsigned := match origin with Entry => is_none (signing_tier t) | _ => false end in
  {| ra_enforce := negb (is_none (tc_keys t)) && negb entry_unsigned;
     ra_declaring_tier := match origin with
                          | Ancestor tier => tier
                          | Entry => signing_tier t
                          | Absent => None
                          end;
     ra_reserved := tc_reserved t |}.

Definition unenforced_section_warnings (p : SourcePolicy) : list CompileWarning :=
  (if is_none (u ← s_unsafe_section p; ufs_ptrace u) then [] else [CwUnenforced (str "[unsafe.ptrace]")]) ++
  (if is_none (u ← s_unsafe_section p; ufs_signal u) then [] else [CwUnenforced (str "[unsafe.signal]")]).
Definition spawn_manifest_warnings (p : SourcePolicy) : list CompileWarning :=
  flat_map (fun m => if bool_decide (mf_freeform m = Some true)
                     then [CwFreeform (default (str "?") (mf_field m)) (default [] (mf_reason m))] else [])
    (s_mutable p).

(** The rules of two fragments for one host. *)
Fixpoint net_conflicts (seen : list NetAllow) (adds : list NetAllow) : result CompileError (list NetAllow) :=
  match adds with
  | [] => Ok seen
  | entry :: adds =>
      match List.find (fun e => bool_decide (net_key e = net_key entry)) seen with
      | Some prev => if negb (bool_decide (prev = entry)) then Err (CeIncludeConflict (net_key entry))
                     else net_conflicts seen adds
      | None => net_conflicts (seen ++ [entry]) adds
      end
  end.

Section compile.
(** [TemplateSource::fetch] and [fetch_settled]; [socket::socket_path]. *)
Context {C : Crypto} {T : SourceToml} {L : Toml}.
Context (fetch fetch_settled : bytes -> option bytes) (socket_path : bytes) (t : Trust).

(** One turn of the loop of [apply_includes]. *)
Definition fetch_fragment (reference : bytes) : result CompileError (SourcePolicy * ChainLink) :=
  name ← map_err CeResolve (parse_reference reference);
  bytes ← ok_or (CeIncludeMissing name) (fetch name);
  fragment ← ok_or CeParse (source_parse bytes);
  if negb (is_additive_only fragment) then Err (CeNotAdditive name)
  else
    _ ← match s_template_base fragment with
        | Some tb => if bool_decide (tb = str "base-confined") then Ok tt else Err (CeFragmentBase name tb)
        | None => Ok tt
        end;
    signing_key_id ← map_err CeResolve (checked t name fragment);
    Ok (fragment, link_of name signing_key_id fragment).
Fixpoint apply_includes (effective : SourcePolicy) (seen_net : list NetAllow) (includes : list bytes) :
    result CompileError (SourcePolicy * list ChainLink) :=
  match includes with
  | [] => Ok (effective, [])
  | reference :: includes =>
      fl ← fetch_fragment reference;
      seen_net ← net_conflicts seen_net (net_allow_adds fl.1);
      r ← apply_includes (apply_fragment effective fl.1) seen_net includes;
      Ok (r.1, fl.2 :: r.2)
  end.

(** *** The spawn grant ([spawn.rs]) *)

Fixpoint check_narrowing (reference : bytes) (narrow : list bytes) (target : SettledPolicy) :
    result CompileError unit :=
  match narrow with
  | [] => Ok tt
  | field :: narrow =>
      if negb (bool_decide (field ∈ va_field <$> sp_manifest target)) then Err (CeNarrowing reference field)
      else check_narrowing reference narrow target
  end.
Definition resolve_target (entry : SpawnAllow) (reference : bytes) : result CompileError SpawnTemplate :=
  name ← map_err CeResolve (parse_reference reference);
  bytes ← ok_or (CeSpawnMissing reference) (fetch_settled name);
  doc ← map_err CeSpawnDoc (parse_signed_settled_unverified bytes);
  _ ← if bool_decide (se_algorithm (sd_signature doc) = SSHSIG_ALGORITHM) then
        match tc_keys t with
        | Some keys => _ ← map_err CeSpawnDoc (verify_settled bytes keys); Ok tt
        | None => Ok tt
        end
      else if requires_signatures t then Err (CeSpawnUnsigned reference) else Ok tt;
  _ ← map_err CeIneligible (spawn_eligible (sd_policy doc));
  _ ← match spa_mutable entry with
      | Some narrow => check_narrowing reference narrow (sd_policy doc)
      | None => Ok tt
      end;
  Ok {| st_template := reference; st_signing_key_id := se_key_id (sd_signature doc);
        st_signature := se_signature (sd_signature doc); st_mutable_narrow := default [] (spa_mutable entry) |}.
Fixpoint resolve_targets (entries : list SpawnAllow) : result CompileError (list SpawnTemplate) :=
  match entries with
  | [] => Ok []
  | entry :: entries =>
      match spa_template entry with
      | None => resolve_targets entries
      | Some reference =>
          st ← resolve_target entry reference; sts ← resolve_targets entries; Ok (st :: sts)
      end
  end.
Definition resolve_grant (p : SourcePolicy) : result CompileError (option SpawnGrant) :=
  match s_spawn p with
  | None => Ok None
  | Some spawn =>
      allow ← resolve_targets (lf_resolved (sps_allow spawn));
      Ok (Some {| sp_max_instances := default 0 (sps_max_instances spawn); sp_allow := allow |})
  end.

(** *** Assembly *)

Definition artifact_of (l : ChainLink) : ResolvedArtifact := {|
  ra_name := ln_name l; ra_signing_key_id := default [] (ln_signing_key_id l);
  ra_signature := default [] (ln_signature l) |}.
Definition settled_policy (name : bytes) (tl : Translated) (chain : list ChainLink)
    (tcv compiler_version : bytes) (spawn : option SpawnGrant) : SettledPolicy := {|
  sp_settled_schema_version := SETTLED_SCHEMA_VERSION; sp_name := name;
  sp_deferred_substitutions := tl_deferred_substitutions tl;
  sp_framework_invariants_asserted := ASSERTED_INVARIANTS;
  sp_effective_policy := tl_effective_policy tl;
  sp_provenance := {| pn_compiler_version := compiler_version; pn_schema_version := SETTLED_SCHEMA_VERSION;
                      pn_threat_catalogue_version := tcv; pn_resolved_artifacts := map artifact_of chain |};
  sp_ssh := tl_ssh tl; sp_unix := tl_unix tl; sp_identity := tl_identity tl; sp_mesh := tl_mesh tl;
  sp_service := tl_service tl; sp_dbus := tl_dbus tl; sp_audit := tl_audit tl; sp_env := tl_env tl;
  sp_ulimits := tl_ulimits tl; sp_workload := tl_workload tl; sp_rootfs := tl_rootfs tl;
  sp_spawn := spawn; sp_manifest := tl_manifest tl |}.
Definition assemble (name : bytes) (tl : Translated) (chain : list ChainLink)
    (tcv compiler_version : bytes) (warnings : list CompileWarning) (spawn : option SpawnGrant) :
    result CompileError Compiled :=
  let policy := settled_policy name tl chain tcv compiler_version spawn in
  _ ← map_err CeInvariants (validate policy);
  Ok {| cd_policy := policy; cd_lock := from_chain chain; cd_warnings := warnings |}.

Definition compile (entry : SourcePolicy) (compiler_version : bytes) : result CompileError Compiled :=
  resolved ← map_err CeResolve (resolve_verified fetch t entry);
  name ← ok_or CeNoName (or_else (s_name (rc_effective resolved)) (s_template_name (rc_effective resolved)));
  el ← apply_includes (rc_effective resolved) [] (s_include (rc_effective resolved));
  let effective := el.1 in
  let chain := rc_chain resolved ++ el.2 in
  let tcv := default [] (s_threat_catalogue_version effective) in
  _ ← ssh_validate effective;
  unix ← unix_validate socket_path effective;
  _ ← map_err CeMesh (mesh_validate (reserved_authority (rc_provides_origin resolved) t)
                        (s_provides effective) (lf_resolved (s_consumes effective)));
  _ ← dev_validate effective;
  _ ← identity_validate effective;
  spawn ← resolve_grant effective;
  translated ← map_err CeTranslation (translate socket_path effective);
  let warnings := map CwClobber (rc_warnings resolved) ++ unix ++
    map CwDeny (deny_warnings (ep_exec (tl_effective_policy translated))) ++
    unenforced_section_warnings effective ++ spawn_manifest_warnings effective in
  assemble name translated chain tcv compiler_version warnings spawn.

(** [effective_source]: what the risk and diff reports read. *)
Definition effective_source (bs : bytes) : result CompileError SourcePolicy :=
  entry ← ok_or CeParse (source_parse bs);
  resolved ← map_err CeResolve (resolve_verified fetch t entry);
  el ← apply_includes (rc_effective resolved) [] (s_include (rc_effective resolved));
  Ok el.1.
End compile.

Definition seal_unsigned (policy : SettledPolicy) : SignedSettledPolicy := {|
  sd_signature := {| se_algorithm := UNSIGNED_ALGORITHM; se_key_id := []; se_signature := [];
                     se_signed_fields := [] |};
  sd_policy := policy |}.

(** ** The linter ([lint.rs]) *)

Inductive Finding : Type :=
  | LiNoneAllow | LiNoneBpf | LiNoneProxy | LiHostProxy | LiHostNames | LiNoProxy.
Definition lint_settled (policy : SettledPolicy) : list Finding :=
  let net := ep_net (sp_effective_policy policy) in
  let when (b : bool) v := if b then [v] else [] in
  match np_mode net with
  | PmNone =>
      when (negb (is_nil (np_allow net)) || negb (is_nil (np_allow_names net))) LiNoneAllow ++
      when (negb (is_nil (np_bpf_connect_allow net)) || negb (is_nil (np_bpf_connect_deny net))) LiNoneBpf ++
      when (negb (proxy_is_disabled (np_proxy net))) LiNoneProxy
  | PmHost =>
      when (negb (proxy_is_disabled (np_proxy net))) LiHostProxy ++
      when (negb (is_nil (np_allow_names net))) LiHostNames
  | PmConstrained | PmUnconstrained => when (proxy_is_disabled (np_proxy net)) LiNoProxy
  end.

(** * Lemmas *)

Lemma ok_or_Ok {E A} (e : E) (o : option A) a : ok_or e o = Ok a -> o = Some a.
Proof. destruct o; cbn; [by intros <-%(inj Ok)|done]. Qed.
Lemma problems_ok_Ok ps u : problems_ok ps = Ok u -> ps = [].
Proof. by destruct ps. Qed.

(** Open the binds of a computation that succeeded. *)
Ltac rstep H :=
  let a := fresh "a" in let E := fresh "R" in
  apply bind_Ok in H as (a & E & H);
  first [apply map_err_Ok in E | apply ok_or_Ok in E | idtac].
Ltac rsteps H := cbv zeta in H; repeat (rstep H; cbv zeta in H).

(** ** Fragments *)

(** What an included fragment is: fetched, additive, extending at most the base template,
    and trusted under its name. *)
Definition fragment_of {C : Crypto} {T : SourceToml} (fetch : bytes -> option bytes) (t : Trust)
    (reference : bytes) (f : SourcePolicy) : Prop :=
  exists text, fetch reference = Some text /\ source_parse text = Some f /\ is_additive_only f = true /\
    (s_template_base f = None \/ s_template_base f = Some (str "base-confined")) /\
    exists k, trust_check t reference f = Ok k.

Lemma checked_Ok {C : Crypto} {T : SourceToml} t name p k : checked t name p = Ok k -> trust_check t name p = Ok k.
Proof. unfold checked. by destruct (trust_check t name p) as [?|]; [intros <-%(inj Ok)|]. Qed.

Lemma fetch_fragment_Ok {C : Crypto} {T : SourceToml} fetch t reference fl :
  fetch_fragment fetch t reference = Ok fl ->
  fragment_of fetch t reference fl.1 /\ ln_name fl.2 = reference.
Proof.
  unfold fetch_fragment. intros H. rstep H. apply parse_reference_Ok in R as [-> _]. rstep H. rstep H.
  destruct (is_additive_only a0) eqn:Ea; [|done]. cbn [negb] in H. rstep H. rstep H. apply checked_Ok in R2.
  apply (inj Ok) in H as <-. cbn [fst snd]. split; [|done]. exists a. split_and!; try done; [|by exists a2].
  destruct (s_template_base a0); [|by left]. case_bool_decide; [subst; by right|done].
Qed.

Lemma apply_includes_Ok {C : Crypto} {T : SourceToml} fetch t e seen incs e' links :
  apply_includes fetch t e seen incs = Ok (e', links) ->
  exists fs, Forall2 (fragment_of fetch t) incs fs /\ e' = fold_left apply_fragment fs e /\
    map ln_name links = incs.
Proof.
  revert e seen e' links; induction incs as [|r incs IH]; intros e seen e' links; cbn [apply_includes].
  { intros [= <- <-]. exists []. split_and!; [constructor|done|done]. }
  intros H. rstep H. apply fetch_fragment_Ok in R as [Hf Hn]. rstep H. rstep H. destruct a1 as [e1 l1].
  apply (inj Ok) in H as [= <- <-]. apply IH in R0 as (fs & Hfs & -> & Hl).
  exists (a.1 :: fs). split_and!; [by constructor|done|]. cbn. by rewrite Hn, Hl.
Qed.

Lemma floor_fragments k x fs e :
  x ∈ floor_of k (fold_left apply_fragment fs e) <-> x ∈ floor_of k e \/ exists f, f ∈ fs /\ x ∈ floor_of k f.
Proof.
  revert e; induction fs as [|f fs IH]; intros e; cbn [fold_left]; [set_solver|].
  rewrite IH. unfold apply_fragment at 1. rewrite floor_with_identity, floor_fold. set_solver.
Qed.

Lemma fragments_provides fs e :
  Forall (fun f => is_additive_only f = true) fs -> s_provides (fold_left apply_fragment fs e) = s_provides e.
Proof.
  revert e; induction fs as [|f fs IH]; intros e H; cbn [fold_left]; [done|].
  inversion H as [|? ? [Hp _]%additive_absent Hfs]; subst. rewrite IH by done.
  unfold apply_fragment. cbn [with_identity s_provides]. by rewrite provides_fold, Hp.
Qed.

(** ** The compilation *)

Section compile_lemmas.
Context {C : Crypto} {T : SourceToml} {L : Toml}.
Context (fetch fetch_settled : bytes -> option bytes) (sock : bytes) (t : Trust) (entry : SourcePolicy).

(** What a compilation that succeeds has done: [fs] are the fragments, [e] the effective policy. *)
Record compiled (c : Compiled) (rc : ResolvedChain) (fs : list SourcePolicy) (links : list ChainLink)
    (e : SourcePolicy) (tl : Translated) : Prop := {
  cp_resolved : resolve_verified fetch t entry = Ok rc;
  cp_fragments : Forall2 (fragment_of fetch t) (s_include (rc_effective rc)) fs;
  cp_effective : e = fold_left apply_fragment fs (rc_effective rc);
  cp_links : map ln_name links = s_include (rc_effective rc);
  cp_mesh : mesh_validate (reserved_authority (rc_provides_origin rc) t) (s_provides e)
              (lf_resolved (s_consumes e)) = Ok tt;
  cp_unix : exists ws, unix_validate sock e = Ok ws;
  cp_dev : dev_validate e = Ok tt;
  cp_spawn : resolve_grant fetch_settled t e = Ok (sp_spawn (cd_policy c));
  cp_translated : translate sock e = Ok tl;
  cp_policy : sp_effective_policy (cd_policy c) = tl_effective_policy tl;
  cp_sp_mesh : sp_mesh (cd_policy c) = tl_mesh tl;
  cp_sp_unix : sp_unix (cd_policy c) = tl_unix tl;
  cp_version : sp_settled_schema_version (cd_policy c) = SETTLED_SCHEMA_VERSION;
  cp_invariants : invariants_hold (cd_policy c);
  cp_lock : cd_lock c = from_chain (rc_chain rc ++ links);
}.

Lemma compile_Ok cv c :
  compile fetch fetch_settled sock t entry cv = Ok c ->
  exists rc fs links e tl, compiled c rc fs links e tl.
Proof.
  unfold compile, assemble. intros H. rsteps H. apply (inj Ok) in H as <-.
  destruct a1 as [e links]. cbn [fst snd] in *.
  apply apply_includes_Ok in R1 as (fs & Hfs & He & Hl).
  repeat match goal with u : unit |- _ => destruct u end.
  exists a, fs, links, e. eexists. constructor; try done; [by eexists|].
  by apply validate_Ok.
Qed.

(** The settled policy of a compilation is the assembly of what its steps returned. *)
Lemma compile_assembles cv c :
  compile fetch fetch_settled sock t entry cv = Ok c ->
  exists rc name el tl spawn,
    resolve_verified fetch t entry = Ok rc /\
    or_else (s_name (rc_effective rc)) (s_template_name (rc_effective rc)) = Some name /\
    apply_includes fetch t (rc_effective rc) [] (s_include (rc_effective rc)) = Ok el /\
    resolve_grant fetch_settled t el.1 = Ok spawn /\ translate sock el.1 = Ok tl /\
    cd_policy c = settled_policy name tl (rc_chain rc ++ el.2)
                    (default [] (s_threat_catalogue_version el.1)) cv spawn.
Proof.
  unfold compile, assemble. intros H. rsteps H. apply (inj Ok) in H as <-. by do 5 eexists.
Qed.

Lemma compiled_provides c rc fs links e tl :
  compiled c rc fs links e tl -> s_provides e = s_provides (rc_effective rc).
Proof.
  intros []. subst e. apply fragments_provides.
  eapply Forall2_Forall_r; [done|]. apply Forall_true. by intros r f (text & _ & _ & ? & _).
Qed.

(** The floors of the effective policy are those of every artefact it was made from. *)
Lemma compiled_floor c rc fs links e tl chain k x :
  compiled c rc fs links e tl -> derives fetch t entry chain ->
  x ∈ floor_of k e <-> exists q, q ∈ entry :: chain.*1 ++ fs /\ x ∈ floor_of k q.
Proof.
  intros [] Hd. subst e. rewrite floor_fragments.
  apply resolve_verified_Ok in cp_resolved0 as (_ & c' & Hd' & _ & ->).
  rewrite (derives_det _ _ _ _ _ Hd Hd'). cbn [resolution rc_effective].
  rewrite floor_with_identity, floor_chain. set_solver.
Qed.
End compile_lemmas.

Lemma invariant_floor p : floor_of FlInvariant p = ndr_cidr <$> invariant_denies p.
Proof.
  unfold floor_of, invariant_denies. destruct (s_net p) as [n|]; [|done]. cbn.
  destruct (ns_proxy n) as [x|]; [|done]. cbn. by destruct (npx_deny x).
Qed.

(** ** Spawn targets *)

Lemma check_narrowing_Ok reference narrow p :
  check_narrowing reference narrow p = Ok tt -> narrow ⊆ va_field <$> sp_manifest p.
Proof.
  induction narrow as [|f narrow IH]; cbn [check_narrowing]; [set_solver|].
  case_bool_decide; [|done]. cbn [negb]. intros Hn%IH. set_solver.
Qed.

Lemma resolve_target_Ok {C : Crypto} {L : Toml} fetch_settled t keys a reference st :
  tc_keys t = Some keys -> requires_signatures t = true ->
  resolve_target fetch_settled t a reference = Ok st ->
  exists bs p, fetch_settled reference = Some bs /\ st_template st = reference /\
    verify_pinned bs keys (st_signing_key_id st) (st_signature st) = Ok p /\
    spawn_eligible p = Ok tt /\ st_mutable_narrow st ⊆ va_field <$> sp_manifest p.
Proof.
  unfold resolve_target. intros Hk Hr H. rstep H. apply parse_reference_Ok in R as [-> _]. rstep H. rstep H.
  rename a0 into bs, a1 into doc. unfold parse_signed_settled_unverified in R0.
  apply bind_Ok in R0 as (doc' & Hp%ok_or_Ok & (? & _ & <-%(inj Ok))%bind_Ok).
  rewrite Hk, Hr in H. rstep H. case_bool_decide; [|done]. apply bind_Ok in R0 as (p & Hv%map_err_Ok & _).
  unfold verify_settled in Hv. rewrite Hp in Hv. cbn [ok_or mbind result_bind] in Hv.
  apply verify_doc_Ok in Hv as Hd. destruct Hd as [-> _].
  rstep H. rstep H. apply (inj Ok) in H as <-. exists bs, (sd_policy doc'). cbn.
  split_and!; [done..| | |].
  - unfold verify_pinned. rewrite Hp. cbn [ok_or mbind result_bind].
    rewrite !bool_decide_eq_true_2 by done. cbn [negb orb]. done.
  - by match goal with H : spawn_eligible _ = Ok ?u |- _ => destruct u end.
  - destruct (spa_mutable _); cbn; [|set_solver].
    match goal with H : check_narrowing _ _ _ = Ok ?u |- _ => destruct u; by eapply check_narrowing_Ok end.
Qed.

Lemma resolve_targets_Ok {C : Crypto} {L : Toml} fetch_settled t entries sts st :
  resolve_targets fetch_settled t entries = Ok sts -> st ∈ sts ->
  exists a reference, a ∈ entries /\ resolve_target fetch_settled t a reference = Ok st.
Proof.
  revert sts; induction entries as [|a entries IH]; intros sts; cbn [resolve_targets].
  { intros <-%(inj Ok) ?%elem_of_nil. done. }
  destruct (spa_template a) as [reference|].
  - intros H. rstep H. rstep H. apply (inj Ok) in H as <-. intros [->|Hin]%elem_of_cons.
    + exists a, reference. split; [by left|done].
    + destruct (IH _ R0 Hin) as (a' & r & ? & ?). exists a', r. split; [by right|done].
  - intros H Hin. destruct (IH _ H Hin) as (a' & r & ? & ?). exists a', r. split; [by right|done].
Qed.

(** ** The lock *)

Lemma verify_entries_Ok entries previous :
  verify_entries entries previous = Ok tt <->
  forall l e, l ∈ entries -> locked previous (lk_name l) = Some e -> lk_signature e = lk_signature l.
Proof.
  induction entries as [|l entries IH]; cbn [verify_entries]; [set_solver|].
  destruct (locked previous (lk_name l)) as [e|] eqn:El.
  - case_bool_decide as Hs; cbn [negb]; [rewrite IH|split; [done|]].
    + split; [|intros H; intros; apply H; [by right|done]].
      intros H l' e' [->|Hl]%elem_of_cons He; [congruence|by apply H].
    + intros H. destruct Hs. apply H; [by left|done].
  - rewrite IH. split; [|intros H; intros; apply H; [by right|done]].
    intros H l' e' [->|Hl]%elem_of_cons He; [congruence|by apply H].
Qed.

(** * Theorems *)

(** C6: The daemon loads what the compiler makes: a policy that compiles, signed with
    a key the trust store holds and written out, is returned unchanged by the gate
    that the daemon runs and by the gate pinned to its signature. *)
Theorem compiled_policy_loads {C : Crypto} `{!CryptoLaws C} {T : SourceToml} {L : Toml}
    fetch fetch_settled sock t entry cv c key keys doc bs :
  compile fetch fetch_settled sock t entry cv = Ok c ->
  sign_settled (cd_policy c) key = Ok doc -> to_bytes doc = Ok bs -> toml_reads_back doc ->
  keys_get keys (sk_key_id key) = Some (ed_public (sk_seed key)) ->
  verify_settled bs keys = Ok (cd_policy c) /\
  verify_pinned bs keys (sk_key_id key) (se_signature (sd_signature doc)) = Ok (cd_policy c).
Proof.
  intros (rc & fs & links & e & tl & [])%compile_Ok Hs Hb Hr Hk. apply (sign_then_verify _ _ _ doc); try done.
  rewrite cp_version0. unfold SETTLED_SCHEMA_VERSION. lia.
Qed.

(** The chain behind a compilation. *)
Lemma compiled_chain {C : Crypto} {T : SourceToml} {L : Toml} fetch fetch_settled sock t entry c rc fs links e tl :
  compiled fetch fetch_settled sock t entry c rc fs links e tl ->
  exists chain, derives fetch t entry chain /\ rc = resolution t entry chain.
Proof. intros []. apply resolve_verified_Ok in cp_resolved0 as (_ & chain & Hd & _ & ->). by exists chain. Qed.

(** C4: A derived policy cannot lose a floor.  The fragments of an entry are those that
    the entry or a template it derives from names in its include list: all of them,
    and each an additive, trusted artefact.  In the settled policy, the denied system
    calls and the denied programs are exactly those of the entry, of every template it
    derives from and of every such fragment; and every network that one of them denies
    by invariant is a deny rule over all ports and protocols. *)
Theorem compiled_floors {C : Crypto} {T : SourceToml} {L : Toml}
    fetch fetch_settled sock t entry cv c chain :
  compile fetch fetch_settled sock t entry cv = Ok c -> derives fetch t entry chain ->
  let ep := sp_effective_policy (cd_policy c) in
  exists includes fragments,
    (forall r, r ∈ includes <-> exists q, q ∈ entry :: chain.*1 /\ r ∈ s_include q) /\
    Forall2 (fragment_of fetch t) includes fragments /\
    let artefacts := entry :: chain.*1 ++ fragments in
    (forall x, x ∈ sc_deny (ep_seccomp ep) <-> exists q, q ∈ artefacts /\ x ∈ floor_of FlSeccomp q) /\
    (forall x, x ∈ ex_deny (ep_exec ep) <->
       exists q y, q ∈ artefacts /\ y ∈ floor_of FlExec q /\ x = canonicalize_home y) /\
    (forall q cidr, q ∈ artefacts -> cidr ∈ floor_of FlInvariant q ->
       exists r, r ∈ np_deny_invariant (ep_net ep) /\ parse_cidr cidr = Ok (nr_cidr r, nr_prefix_len r) /\
         nr_port_min r = 0 /\ nr_port_max r = u16_max /\ nr_protocol r = ProtoAny).
Proof.
  intros (rc & fs & links & e & tl & H)%compile_Ok Hd. exists (s_include (rc_effective rc)), fs.
  pose proof (fun k x => compiled_floor _ _ _ _ _ _ _ _ _ _ _ chain k x H Hd) as Hf.
  destruct (compiled_chain _ _ _ _ _ _ _ _ _ _ _ H) as (chain' & Hd' & Hrc). rewrite <- (derives_det _ _ _ _ _ Hd Hd') in Hrc.
  destruct H. rewrite cp_policy0. apply translate_Ok in cp_translated0 as [w Hst].
  split; [intros r; rewrite Hrc; apply includes_chain|]. split; [done|]. split_and!.
  - intros x. rewrite (st_seccomp _ _ _ _ Hst). apply Hf.
  - intros x. rewrite (xt_deny _ _ _ (st_exec _ _ _ _ Hst)), list_elem_of_fmap. setoid_rewrite Hf. naive_solver.
  - intros q cidr Hq Hc. assert (cidr ∈ floor_of FlInvariant e) as Hi by (apply Hf; eauto).
    rewrite invariant_floor in Hi. apply list_elem_of_fmap in Hi as (d & -> & Hin).
    destruct (st_net _ _ _ _ Hst) as [net Hnet]. apply list_elem_of_lookup in Hin as [i Hi].
    destruct (Forall2_lookup_l _ _ _ _ _ (nt_invariant _ _ _ _ Hnet) Hi) as (r & Hr & Ha).
    exists r. split; [by eapply list_elem_of_lookup_2|]. unfold any_rule in Ha.
    destruct (parse_cidr (ndr_cidr d)) as [[a n]|]; [|done]. by apply (inj Ok) in Ha as <-.
Qed.

(** C21: Who may provide a reserved name.  Under a trust store, a settled policy that
    provides a name of [org.projectkennel.] has it from one artefact of the chain: from
    the entry itself, and then the key that signs the output is a vendor key or there is
    none; or from a template the entry derives from, and then the signature of that
    template verified under a vendor key.  No fragment provides anything. *)
Theorem reserved_names_by_tier {C : Crypto} {T : SourceToml} {L : Toml}
    fetch fetch_settled sock t entry cv c keys p chain :
  compile fetch fetch_settled sock t entry cv = Ok c -> derives fetch t entry chain -> tc_keys t = Some keys ->
  p ∈ mr_provides (sp_mesh (cd_policy c)) -> starts_with RESERVED_PREFIX (pv_name p) = true ->
  (((exists pe, pe ∈ s_provides entry /\ pe_name pe = pv_name p) /\ (signing_tier t = None \/ signing_tier t = Some STVendor)) \/
   (exists q l k pe, (q, l) ∈ chain /\ trust_check t (ln_name l) q = Ok (Some k) /\ tier_of t k = STVendor /\
      pe ∈ s_provides q /\ pe_name pe = pv_name p)) /\
  forall a r f, a ∈ entry :: chain.*1 -> r ∈ s_include a -> fragment_of fetch t r f -> s_provides f = [].
Proof.
  intros (rc & fs & links & e & tl & H)%compile_Ok Hd Hk Hp Hr. split.
  2: { intros a r f _ _ (text & _ & _ & Ha & _). unfold is_additive_only, top_additive in Ha. rewrite !andb_true_iff in Ha.
    by destruct (s_provides f); [|naive_solver]. }
  pose proof (compiled_provides _ _ _ _ _ _ _ _ _ _ _ H) as He.
  destruct (compiled_chain _ _ _ _ _ _ _ _ _ _ _ H) as (chain' & Hd' & ->). rewrite <- (derives_det _ _ _ _ _ Hd Hd') in *. destruct H.
  rewrite cp_sp_mesh0 in Hp. apply translate_Ok in cp_translated0 as [w Hst]. rewrite (st_mesh _ _ _ _ Hst) in Hp.
  cbn [translate_mesh mr_provides] in Hp. apply list_elem_of_omap in Hp as (pe & Hpe & Hrt).
  assert (pe_name pe = pv_name p) as Hname.
  { unfold provide_runtime in Hrt. by destruct (pe_endpoint pe), (pe_shape pe); cbn in Hrt; simplify_eq. }
  apply mesh_validate_Ok in cp_mesh0 as (Hok & _ & _). rewrite Forall_forall in Hok.
  destruct (Hok pe Hpe) as (_ & Hperm & _). rewrite He in Hpe.
  pose proof (origin_of_chain t entry chain) as Ho.
  cbn [resolution rc_provides_origin rc_effective with_identity s_provides] in *.
  unfold permits, reserved_authority, required_tier in Hperm. rewrite Hk, Hname, Hr in Hperm.
  cbn [ra_enforce ra_declaring_tier is_none negb andb] in Hperm.
  destruct (provides_origin_of t entry chain.*1 chain.*2) as [| |tier].
  - rewrite Ho in Hpe. by apply elem_of_nil in Hpe.
  - left. destruct Ho as [Ho _]. rewrite Ho in Hpe. split; [by exists pe|]. destruct (signing_tier t) as [[]|]; [done|done|by right|by left].
  - right. destruct Ho as (q & l & Hin & _ & Hq & ->). rewrite Hq in Hpe.
    destruct (derives_link fetch t _ _ _ _ Hd Hin) as (text & k & Hf & Hs & _ & Ht & Hl).
    rewrite Hl in Hperm. destruct k as [k|]; [|done]. cbn [option_map negb orb] in Hperm.
    exists q, l, k, pe. split_and!; try done. cbn in Hperm. by destruct (tier_of t k).
Qed.

(** C22: The spawn grant is pinned.  When signatures are required, each template of the
    grant of a settled policy is, at compile time, a settled document that the
    pinned gate of the daemon accepts under the recorded key id and signature, that
    is eligible to be spawned, and whose manifest declares every field the grant
    narrows to; and the ceiling on instances is not zero. *)
Theorem spawn_grant_pinned {C : Crypto} {T : SourceToml} {L : Toml}
    fetch fetch_settled sock t entry cv c keys g :
  compile fetch fetch_settled sock t entry cv = Ok c -> tc_keys t = Some keys ->
  requires_signatures t = true -> sp_spawn (cd_policy c) = Some g ->
  sp_max_instances g <> 0 /\
  forall st, st ∈ sp_allow g -> exists bs p, fetch_settled (st_template st) = Some bs /\
    verify_pinned bs keys (st_signing_key_id st) (st_signature st) = Ok p /\
    spawn_eligible p = Ok tt /\ st_mutable_narrow st ⊆ va_field <$> sp_manifest p.
Proof.
  intros (rc & fs & links & e & tl & [])%compile_Ok Hk Hr Hg. rewrite Hg in cp_spawn0.
  apply translate_Ok in cp_translated0 as [w Hst]. pose proof (st_spawn _ _ _ _ Hst) as Hv.
  unfold resolve_grant in cp_spawn0. unfold validate_spawn in Hv. destruct (s_spawn e) as [s|]; [|done].
  apply bind_Ok in cp_spawn0 as (sts & Hsts & [= <-]). cbn [sp_max_instances sp_allow]. split.
  - destruct (blank _); [done|]. destruct (sps_max_instances s) as [n|]; [|done].
    cbn. intros ->. done.
  - intros st Hin. destruct (resolve_targets_Ok _ _ _ _ _ Hsts Hin) as (a & r & _ & Ha).
    destruct (resolve_target_Ok _ _ _ _ _ _ Hk Hr Ha) as (bs & p & Hf & <- & H). by exists bs, p.
Qed.

(** No settled policy binds the control socket into a kennel: the host path of a
    [unix.allow] entry that compiles is not the control socket, whatever [..] or
    repeated separators it is written with. *)
Theorem compiled_sockets {C : Crypto} {T : SourceToml} {L : Toml}
    fetch fetch_settled sock t entry cv c s :
  compile fetch fetch_settled sock t entry cv = Ok c -> s ∈ ur_sockets (sp_unix (cd_policy c)) ->
  exists real, us_real s = canonicalize_home real /\ is_control_socket sock real = false.
Proof.
  intros (rc & fs & links & e & tl & [])%compile_Ok Hs. rewrite cp_sp_unix0 in Hs.
  apply translate_Ok in cp_translated0 as [w Hst]. destruct (st_unix _ _ _ _ Hst) as [w' Hu].
  destruct (translate_unix_real _ _ _ _ Hu Hs) as (x & a & real & Hx & Ha & Hreal & Hs').
  exists real. split; [done|]. destruct cp_unix0 as [ws Hv]. unfold unix_validate in Hv. rewrite Hx in Hv.
  apply bind_Ok in Hv as (? & [_ Hp]%problems_ok_Ok%app_nil_both & _).
  rewrite flat_map_nil in Hp. specialize (Hp a Ha). unfold unix_problems in Hp. rewrite Hreal in Hp.
  apply app_nil_both in Hp as [_ [_ Hp]%app_nil_both]. by destruct (is_control_socket sock real).
Qed.

(** What a lockfile pins: a compilation passes the check against an earlier lockfile
    exactly when each artefact it resolved, ancestor or fragment, has the signature
    of the first entry locked under its name.  So an artefact that is unsigned now
    and was unsigned then passes whatever its content. *)
Theorem lock_pins_signatures {C : Crypto} {T : SourceToml} {L : Toml}
    fetch fetch_settled sock t entry cv c previous :
  compile fetch fetch_settled sock t entry cv = Ok c ->
  exists resolved, cd_lock c = from_chain resolved /\
  (verify_against (cd_lock c) previous = Ok tt <->
   forall l e, l ∈ resolved -> locked previous (ln_name l) = Some e ->
     lk_signature e = default [] (ln_signature l)) /\
  ((forall l, l ∈ resolved -> ln_signature l = None) ->
   (forall e, e ∈ lk_entries previous -> lk_signature e = []) -> verify_against (cd_lock c) previous = Ok tt).
Proof.
  intros (rc & fs & links & e & tl & [])%compile_Ok. exists (rc_chain rc ++ links). split; [done|].
  rewrite cp_lock0. unfold verify_against. cbn [from_chain lk_entries].
  assert (verify_entries (map lock_entry (rc_chain rc ++ links)) previous = Ok tt <->
    forall l e, l ∈ rc_chain rc ++ links -> locked previous (ln_name l) = Some e ->
      lk_signature e = default [] (ln_signature l)) as Hv.
  { rewrite verify_entries_Ok. split.
    - intros H l le Hl. apply (H (lock_entry l)). by apply list_elem_of_fmap_2.
    - intros H l le (x & -> & Hx)%list_elem_of_fmap. by apply H. }
  split; [done|]. intros Hn Hp. apply Hv. intros l le Hl Hle. rewrite (Hn l Hl).
  apply Hp. apply List.find_some in Hle as [Hin _]. by apply list_elem_of_In.
Qed.

(** The linter on what the compiler makes: a policy that compiles in mode [host] has
    no finding, in mode [none] none about a proxy, and in a proxied mode the only
    one there can be is an offset of zero written in [proxy_listen_address]. *)
Theorem compiled_lints {C : Crypto} {T : SourceToml} {L : Toml}
    fetch fetch_settled sock t entry cv c :
  compile fetch fetch_settled sock t entry cv = Ok c ->
  let n := ep_net (sp_effective_policy (cd_policy c)) in
  match np_mode n with
  | PmHost => lint_settled (cd_policy c) = []
  | PmNone => LiNoneProxy ∉ lint_settled (cd_policy c)
  | _ => lint_settled (cd_policy c) = [] \/ px_offset (np_proxy n) = 0
  end.
Proof.
  intros (rc & fs & links & e & tl & [])%compile_Ok. cbv zeta. unfold lint_settled. rewrite cp_policy0.
  apply translate_Ok in cp_translated0 as [w Hst]. destruct (st_net _ _ _ _ Hst) as [net Hn].
  set (n := ep_net (tl_effective_policy tl)) in *. pose proof (nt_proxy _ _ _ _ Hn) as Hp.
  unfold resolve_proxy in Hp. destruct (np_mode n) eqn:Em; cbn [is_proxied negb] in Hp.
  2,3: destruct (proxy_is_disabled (np_proxy n)) eqn:Ez; [right; by apply Z.eqb_eq|by left].
  - apply (inj Ok) in Hp as <-. change (proxy_is_disabled proxy_disabled) with true. cbn [negb]. rewrite app_nil_r.
    intros [Hf|Hf]%elem_of_app; (destruct (_ || _); [by apply list_elem_of_singleton in Hf|by apply elem_of_nil in Hf]).
  - apply (inj Ok) in Hp as <-. change (proxy_is_disabled proxy_disabled) with true. cbn [negb app].
    by rewrite (nt_names _ _ _ _ Hn) by apply (nt_host _ _ _ _ Hn Em).
Qed.

(** ** What no compilation enforces *)

(** Two artefacts with the same identity that differ at most in what [erase] drops. *)
Definition same_enforced (p q : SourcePolicy) : Prop :=
  erase p = erase q /\ s_template_base p = s_template_base q /\ s_template_name p = s_template_name q /\
  s_name p = s_name q /\ s_include p = s_include q /\
  s_threat_catalogue_version p = s_threat_catalogue_version q.
Global Instance same_enforced_refl : Reflexive same_enforced.
Proof. by intros p. Qed.

Lemma fold_erase p c : erase (w_val (fold p c)) = erase (w_val (fold (erase p) (erase c))).
Proof.
  destruct p as [? ? ? ? ? ? ? ? pf pn pu ? ? ? ? ? ps pe pc], c as [? ? ? ? ? ? ? ? cf cn cu ? ? ? ? ? cs ce cc].
  unfold erase at 1 2. f_equal.
  - by destruct pf, cf.
  - destruct pn as [[? ? ? ? pb pd]|], cn as [[? ? ? ? cb cd]|]; [by destruct pb, cb, pd, cd|..|done].
    + by destruct pb, pd.
    + by destruct cb, cd.
  - by destruct pu, cu.
  - by destruct pe, ce.
  - by destruct pc, cc.
Qed.
Global Instance fold_same : Proper (same_enforced ==> same_enforced ==> same_enforced) (fun p c => w_val (fold p c)).
Proof.
  intros p p' (Hp & _ & Hp2 & Hp3 & Hp4 & Hp5) c c' (Hc & Hc1 & Hc2 & Hc3 & Hc4 & Hc5). split_and!.
  - by rewrite (fold_erase p), (fold_erase p'), Hp, Hc.
  - exact Hc1.
  - change (or_ (s_template_name c) (s_template_name p) = or_ (s_template_name c') (s_template_name p')). by rewrite Hp2, Hc2.
  - change (or_ (s_name c) (s_name p) = or_ (s_name c') (s_name p')). by rewrite Hp3, Hc3.
  - change (union_strings (s_include p) (s_include c) = union_strings (s_include p') (s_include c')). by rewrite Hp4, Hc4.
  - change (or_ (s_threat_catalogue_version c) (s_threat_catalogue_version p) = or_ (s_threat_catalogue_version c') (s_threat_catalogue_version p')). by rewrite Hp5, Hc5.
Qed.

Lemma with_identity_same base template name include p p' :
  same_enforced p p' -> same_enforced (with_identity base template name include p) (with_identity base template name include p').
Proof.
  intros (H & _ & _ & _ & _ & Ht). by split_and!.
Qed.
Lemma fold_left_same (l : list SourcePolicy) (acc acc' : warned SourcePolicy) :
  same_enforced (w_val acc) (w_val acc') ->
  same_enforced (w_val (fold_left (fun acc child => a ← acc; fold a child) l acc))
                (w_val (fold_left (fun acc child => a ← acc; fold a child) l acc')).
Proof.
  revert acc acc'; induction l as [|c l IH]; intros acc acc' H; cbn [fold_left]; [done|].
  apply IH. exact (fold_same _ _ H c c (same_enforced_refl c)).
Qed.
Lemma chain_same p q parents :
  same_enforced p q -> same_enforced (w_val (fold_chain p parents)) (w_val (fold_chain q parents)).
Proof.
  intros H. unfold fold_chain. destruct (rev parents) as [|root derived]; [exact (fold_same _ _ H _ _ H)|].
  rewrite !fold_left_app. cbn [fold_left].
  exact (fold_same _ _ (fold_left_same derived (mret root) (mret root) (same_enforced_refl root)) _ _ H).
Qed.
Lemma fragments_same (fs : list SourcePolicy) p q :
  same_enforced p q -> same_enforced (fold_left apply_fragment fs p) (fold_left apply_fragment fs q).
Proof.
  revert p q; induction fs as [|f fs IH]; intros p q H; cbn [fold_left]; [done|]. apply IH. unfold apply_fragment.
  pose proof H as (_ & -> & -> & -> & -> & _). apply with_identity_same, (fold_same _ _ H _ _ (same_enforced_refl f)).
Qed.
Lemma includes_same {C : Crypto} {T : SourceToml} fetch t p q seen incs el el' :
  same_enforced p q ->
  apply_includes fetch t p seen incs = Ok el -> apply_includes fetch t q seen incs = Ok el' ->
  same_enforced el.1 el'.1 /\ el.2 = el'.2.
Proof.
  revert p q seen el el'; induction incs as [|r incs IH]; intros p q seen el el' Hs; cbn [apply_includes].
  { by intros [= <-] [= <-]. }
  intros H H'. rstep H. rstep H. rstep H. apply (inj Ok) in H as <-. rewrite R in H'. cbn [mbind result_bind] in H'.
  rewrite R0 in H'. cbn [mbind result_bind] in H'. rstep H'. apply (inj Ok) in H' as <-. cbn [fst snd].
  destruct (IH _ _ _ _ _ (fragments_same [a.1] _ _ Hs) R1 R2) as [? ->]. done.
Qed.
Lemma resolved_same {C : Crypto} {T : SourceToml} fetch t p q rc rc' :
  same_enforced p q -> resolve_verified fetch t p = Ok rc -> resolve_verified fetch t q = Ok rc' ->
  same_enforced (rc_effective rc) (rc_effective rc') /\ rc_chain rc = rc_chain rc'.
Proof.
  intros Hs (_ & c & Hd & _ & ->)%resolve_verified_Ok (_ & c' & Hd' & _ & ->)%resolve_verified_Ok.
  assert (c' = c) as ->.
  { apply (derives_det fetch t q); [done|]. destruct Hs as (_ & Hb & _).
    destruct Hd; [constructor; congruence|eapply derives_step; try done; congruence]. }
  pose proof (chain_same p q c.*1 Hs) as Hc. split; [|done]. cbn [resolution rc_effective].
  pose proof Hs as (_ & _ & -> & -> & _). pose proof Hc as (_ & _ & _ & _ & -> & _). by apply with_identity_same.
Qed.

(** C40: Part of what a policy may say changes nothing.  Two sources of one name, base and include list
    that differ only in [env.pass], [env.deny], [net.bpf.families], [net.bpf.deny_families], the wildcard
    and loopback settings of [net.bind], [net.ipv6], [net.audit], [unix.abstract_ns], [seccomp.profile],
    [seccomp.allow], [fs.deny], [[unsafe]] and their signatures, if both compile, settle to one and the same
    policy, provenance included. *)
Theorem compiled_ignores {C : Crypto} {T : SourceToml} {L : Toml} fetch fetch_settled sock t p q cv c c' :
  same_enforced p q ->
  compile fetch fetch_settled sock t p cv = Ok c -> compile fetch fetch_settled sock t q cv = Ok c' ->
  cd_policy c = cd_policy c'.
Proof.
  intros Hs (rc & name & el & tl & spawn & Hr & Hn & Hi & Hg & Ht & ->)%compile_assembles
    (rc' & name' & el' & tl' & spawn' & Hr' & Hn' & Hi' & Hg' & Ht' & ->)%compile_assembles.
  destruct (resolved_same _ _ _ _ _ _ Hs Hr Hr') as [Hrc ->].
  pose proof Hrc as (_ & _ & Etn & En & Einc & _). rewrite Etn, En in Hn. rewrite Einc in Hi.
  destruct (includes_same _ _ _ _ _ _ _ _ Hrc Hi Hi') as [(He & _ & _ & _ & _ & Etcv) ->].
  rewrite (translate_ignores sock _ _ He) in Ht. rewrite Etcv.
  assert (resolve_grant fetch_settled t el.1 = resolve_grant fetch_settled t el'.1) as Eg
    by (unfold resolve_grant; pose proof (f_equal s_spawn He) as Hsp; cbn in Hsp; by rewrite Hsp).
  rewrite Eg, Hg' in Hg. rewrite Ht' in Ht. rewrite Hn' in Hn.
  apply (inj Ok) in Hg as ->, Ht as ->. by apply (inj Some) in Hn as ->.
Qed.

(** ** A template, a fragment, a leaf and a spawner *)

Definition on : option bool := Some true.
Definition world_exec : ExecSection := {|
  xs_allow := Some (PfSet [str "/bin/sh"]); xs_deny := None; xs_deny_setuid := on; xs_deny_setgid := on;
  xs_deny_setcap := on; xs_deny_writable := on; xs_path := None; xs_shell := None |}.
Definition world_net (bpf : option NetBpf) : NetSection := {|
  ns_mode := Some (str "constrained"); ns_reason := None; ns_proxy_listen_address := None;
  ns_proxy := Some {| npx_allow := lf_default; npx_deny := Some {|
    npd_invariant := [{| ndr_cidr := str "169.254.169.254/32"; ndr_reason := some_reason; ndr_threats := None |}];
    npd_policy := lf_default |} |};
  ns_bpf := bpf; ns_bind := None; ns_ipv6 := None; ns_audit := None; ns_udp := None |}.
Definition world_policy (base template name : option bytes) (include : list bytes) (cap : option CapSection)
    (x : option ExecSection) (f : option FsSection) (n : option NetSection) (u : option UnixSection)
    (h : option SshSection) (pv : list ProvidesEntry) (deny : list bytes) (l : option LifecycleSection)
    (ul : option (list (bytes * bytes))) (sp : option SpawnSection) : SourcePolicy := {|
  s_template_base := base; s_template_name := template; s_name := name; s_include := include;
  s_threat_catalogue_version := None; s_signature := None; s_cap := cap; s_exec := x;
  s_fs := f; s_net := n; s_unix := u; s_ssh := h; s_identity := None;
  s_provides := pv; s_consumes := lf_default; s_service := None; s_unsafe_section := None;
  s_env := None;
  s_seccomp := if is_nil deny then None
               else Some {| scs_profile := None; scs_deny := Some deny; scs_allow := None |};
  s_lifecycle := l; s_audit := None; s_ulimits := ul; s_workload := None; s_tty := None;
  s_trust := None; s_dbus := None; s_rootfs := None; s_spawn := sp; s_mutable := [] |}.
Definition ceilings : list (bytes * bytes) :=
  map (fun k => (str k, str "1024")) ["as"; "nproc"; "cpu"]%string.
Definition world_root_with (provides : list ProvidesEntry) (sp : option SpawnSection) : SourcePolicy :=
  world_policy None (Some (str "base-confined")) None [] (Some {| cps_no_new_privs := on |})
    (Some world_exec) (Some full_fs) (Some (world_net None)) None
    (Some {| sss_allow_headless := None; sss_threats := None; sss_destinations := lf_default |}) provides
    [str "bpf"] (Some {| lcs_ttl := Some (str "1h"); lcs_ttl_action := None |}) (Some ceilings) sp.
Definition world_root : SourcePolicy := world_root_with [] None.
Definition more_fs : FsSection := {|
  fss_read := Some (adds [str "/opt"]); fss_write := None; fss_exclusive := None; fss_deny := None;
  fss_home := None; fss_tmp := None; fss_proc := None; fss_dev := None;
  fss_cwd := Some {| fcw_grant := Some (str "write"); fcw_required := None; fcw_reason := some_reason |}; fss_redirect := [] |}.
Definition fragment_net : NetSection := {|
  ns_mode := None; ns_reason := None; ns_proxy_listen_address := None;
  ns_proxy := Some {| npx_allow := lf_default; npx_deny := Some {|
    npd_invariant := [{| ndr_cidr := str "198.51.100.0/24"; ndr_reason := some_reason; ndr_threats := None |}];
    npd_policy := lf_default |} |};
  ns_bpf := None; ns_bind := None; ns_ipv6 := None; ns_audit := None; ns_udp := None |}.
Definition world_fragment : SourcePolicy :=
  world_policy None None (Some (str "extra")) [] None None (Some more_fs) (Some fragment_net) None
    (Some {| sss_allow_headless := Some false; sss_threats := None; sss_destinations := lf_default |})
    [] [] None None None.
Definition agent : UnixAllow := {|
  uxa_name := Some (str "agent"); uxa_real := Some (str "/run/agent/sock"); uxa_shim := Some (str "/run/a");
  uxa_env := None; uxa_reason := some_reason; uxa_threats := None |}.
Definition world_leaf : SourcePolicy :=
  world_policy (Some (str "base-confined")) None (Some (str "work")) [str "extra"] None None None
    (Some (bare_net (Some lost_deny)))
    (Some {| uxs_abstract_ns := None; uxs_allow := LfSet [agent] |}) None [] [str "mount"] None None None.
Definition world_toml : SourceToml := {|
  source_parse := fun b => if bool_decide (b = [0]) then Some world_root
                           else if bool_decide (b = [2]) then Some world_fragment else None;
  source_text := fun _ => Some [0] |}.
Definition world_fetch (name : bytes) : option bytes :=
  if bool_decide (name = str "base-confined") then Some [0]
  else if bool_decide (name = str "extra") then Some [2] else None.
Definition no_settled : Toml := {|
  toml_parse := fun _ => None; toml_body := fun _ => Some (ascii_bytes "body"); toml_document := fun _ => Some [1] |}.
Local Abbreviation world_compile L t p :=
  (compile (C := toy_crypto) (T := world_toml) (L := L) world_fetch (fun _ => Some [1]) sample_sock t p (str "1")).
Definition compiled_of (L : Toml) (t : Trust) (p : SourcePolicy) : option Compiled :=
  match world_compile L t p with Ok c => Some c | Err _ => None end.

(** The compilation of [p], as a value. *)
Ltac compiles c E :=
  match goal with |- context [compiled_of ?L ?t ?p] =>
    destruct (world_compile L t p) as [c|] eqn:E; [|vm_compute in E; discriminate E];
    assert (compiled_of L t p = Some c) as -> by (unfold compiled_of; by rewrite E)
  end.

Definition leaf_settled : SettledPolicy :=
  match world_compile no_settled trust_dev world_leaf with
  | Ok c => cd_policy c | Err _ => redirect_template end.
Definition leaf_doc : SignedSettledPolicy :=
  {| sd_signature := sign_envelope (C := toy_crypto) toy_key (ascii_bytes "body"); sd_policy := leaf_settled |}.
Lemma leaf_compiles : exists c,
  world_compile (one_document leaf_doc) trust_dev world_leaf = Ok c /\ cd_policy c = leaf_settled.
Proof. vm_compute. eexists. split; reflexivity. Qed.
Lemma compiled_policy_loads_witness :
  verify_settled (C := toy_crypto) (L := one_document leaf_doc) [1] toy_keys = Ok leaf_settled.
Proof.
  destruct leaf_compiles as (c & E & Hc). rewrite <- Hc.
  refine (proj1 (@compiled_policy_loads toy_crypto toy_laws world_toml (one_document leaf_doc)
    world_fetch (fun _ => Some [1]) sample_sock trust_dev world_leaf (str "1") c toy_key toy_keys leaf_doc [1]
    E _ _ _ _)).
  - rewrite Hc. reflexivity.
  - reflexivity.
  - by intros bs [= <-].
  - vm_compute; reflexivity.
Defined.

Definition world_chain : list (SourcePolicy * ChainLink) :=
  [(world_root, link_of (str "base-confined") None world_root)].
Lemma world_derives : derives (C := toy_crypto) (T := world_toml) world_fetch trust_dev world_leaf world_chain.
Proof. by eapply (derives_step (T := world_toml)) with (text := [0]); [..|by constructor]. Qed.
(** The ancestor's system call, and the network of the fragment the leaf includes. *)
Lemma compiled_floors_witness : exists c,
  compiled_of no_settled trust_dev world_leaf = Some c /\
  str "bpf" ∈ sc_deny (ep_seccomp (sp_effective_policy (cd_policy c))) /\
  exists r, r ∈ np_deny_invariant (ep_net (sp_effective_policy (cd_policy c))) /\
    parse_cidr (str "198.51.100.0/24") = Ok (nr_cidr r, nr_prefix_len r).
Proof.
  compiles c E. exists c. split; [done|].
  destruct (compiled_floors (C := toy_crypto) (T := world_toml) (L := no_settled) _ _ _ _ _ _ _ _ E world_derives)
    as (incs & frags & Hi & Hf & H1 & _ & H3). split.
  - apply H1. exists world_root. split; [by right; left|by left].
  - assert (str "extra" ∈ incs) as [i Hin]%list_elem_of_lookup by (apply Hi; exists world_leaf; split; [by left|by left]).
    destruct (Forall2_lookup_l _ _ _ _ _ Hf Hin) as (f & Hff & (text & Ht & Hp & _)).
    vm_compute in Ht. injection Ht as <-. vm_compute in Hp. injection Hp as <-.
    destruct (H3 world_fragment (str "198.51.100.0/24")) as (r & Hr & Hc & _); [|by left|by exists r].
    apply elem_of_cons. right. apply elem_of_app. right. by eapply list_elem_of_lookup_2.
Defined.

Definition reserved_provide : ProvidesEntry := {|
  pe_name := str "org.projectkennel.tool"; pe_shape := AfUnix; pe_endpoint := None; pe_key := None;
  pe_reason := some_reason; pe_threats := None |}.
Definition vendor_trust : Trust :=
  with_signing_key (with_tiers (trust_allow_unsigned (Some toy_keys)) [str "ops"] []) (Some (str "ops")).
Lemma reserved_names_by_tier_witness : exists c,
  compiled_of no_settled vendor_trust (world_root_with [reserved_provide] None) = Some c /\
  signing_tier vendor_trust = Some STVendor.
Proof.
  compiles c E. exists c. split; [done|].
  destruct (reserved_names_by_tier (C := toy_crypto) (T := world_toml) (L := no_settled) _ _ _ _ _ _ _ toy_keys
    {| pv_name := str "org.projectkennel.tool"; pv_shape := AfUnix;
       pv_endpoint := str "/run/org.projectkennel.tool/sock"; pv_key := None |} [] E) as [[[_ [H|H]]|H] _];
    try done.
  - by constructor.
  - vm_compute in E. injection E as <-. by left.

Defined.

Definition world_spawn : SpawnSection := {|
  sps_max_instances := Some 2; sps_reason := some_reason;
  sps_allow := LfSet [{| spa_template := Some (str "base-confined"); spa_mutable := Some [] |}] |}.
Definition spawner : SourcePolicy := world_root_with [] (Some world_spawn).
Definition root_settled : SettledPolicy :=
  match world_compile no_settled trust_dev world_root with
  | Ok c => cd_policy c | Err _ => redirect_template end.
Definition settled_toml : Toml := one_document {|
  sd_signature := sign_envelope (C := toy_crypto) toy_key (ascii_bytes "body"); sd_policy := root_settled |}.
Lemma spawn_grant_pinned_witness : exists c g,
  compiled_of settled_toml (trust_require toy_keys) spawner = Some c /\ sp_spawn (cd_policy c) = Some g /\
  sp_max_instances g <> 0.
Proof.
  compiles c E. exists c.
  destruct (sp_spawn (cd_policy c)) as [g|] eqn:Eg; [|vm_compute in E; injection E as <-; discriminate Eg].
  exists g. split_and!; [done..|].
  apply (spawn_grant_pinned (C := toy_crypto) (T := world_toml) (L := settled_toml) _ _ _ _ _ _ _ toy_keys g E);
    done.
Defined.

Lemma compiled_sockets_witness : exists c s,
  compiled_of no_settled trust_dev world_leaf = Some c /\ ur_sockets (sp_unix (cd_policy c)) = [s] /\
  exists real, us_real s = canonicalize_home real /\ is_control_socket sample_sock real = false.
Proof.
  compiles c E. exists c.
  destruct (ur_sockets (sp_unix (cd_policy c))) as [|s [|]] eqn:Es;
    [vm_compute in E; injection E as <-; discriminate Es| |vm_compute in E; injection E as <-; discriminate Es].
  exists s. split_and!; [done..|].
  apply (compiled_sockets (C := toy_crypto) (T := world_toml) (L := no_settled) _ _ _ _ _ _ _ s E).
  rewrite Es. by left.
Defined.

Lemma lock_pins_signatures_witness : exists c,
  compiled_of no_settled trust_dev world_leaf = Some c /\
  verify_against (cd_lock c) {| lk_entries := [] |} = Ok tt.
Proof.
  compiles c E. exists c. split; [done|].
  destruct (lock_pins_signatures (C := toy_crypto) (T := world_toml) (L := no_settled) _ _ _ _ _ _ _
    {| lk_entries := [] |} E) as (r & _ & [_ H] & _).
  by apply H.
Defined.
Lemma compiled_lints_witness : exists c,
  compiled_of no_settled trust_dev world_leaf = Some c /\
  (lint_settled (cd_policy c) = [] \/ px_offset (np_proxy (ep_net (sp_effective_policy (cd_policy c)))) = 0).
Proof.
  compiles c E. exists c. split; [done|].
  pose proof (compiled_lints (C := toy_crypto) (T := world_toml) (L := no_settled) _ _ _ _ _ _ _ E) as H.
  vm_compute in E. injection E as <-. exact H.
Defined.

(** The leaf with [unix.abstract_ns = "deny"], and with [[unsafe]] too. *)
Definition hushed_leaf (ns : option bytes) (u : option UnsafeSection) : SourcePolicy := {|
  s_template_base := s_template_base world_leaf; s_template_name := None; s_name := s_name world_leaf;
  s_include := s_include world_leaf; s_threat_catalogue_version := None; s_signature := None;
  s_cap := None; s_exec := None; s_fs := None; s_net := s_net world_leaf;
  s_unix := Some {| uxs_abstract_ns := ns; uxs_allow := LfSet [agent] |};
  s_ssh := None; s_identity := None; s_provides := []; s_consumes := lf_default; s_service := None;
  s_unsafe_section := u; s_env := None; s_seccomp := s_seccomp world_leaf; s_lifecycle := None; s_audit := None;
  s_ulimits := None; s_workload := None; s_tty := None; s_trust := None; s_dbus := None; s_rootfs := None;
  s_spawn := None; s_mutable := [] |}.
Lemma compiled_ignores_witness : exists c c',
  compiled_of no_settled trust_dev world_leaf = Some c /\
  compiled_of no_settled trust_dev
    (hushed_leaf (Some (str "deny")) (Some {| ufs_ptrace := None; ufs_signal := None |})) = Some c' /\
  cd_policy c = cd_policy c'.
Proof.
  compiles c E. compiles c' E'. exists c, c'. split_and!; [done..|].
  by apply (compiled_ignores (C := toy_crypto) (T := world_toml) (L := no_settled) _ _ _ _ _ _ _ _ _
    (conj eq_refl (conj eq_refl (conj eq_refl (conj eq_refl (conj eq_refl eq_refl))))) E E').
Defined.
