(* ===== verification/Text.v ===== *)
(** Untrusted text: sanitisers and filters on the way out of a kennel and into it.

    - [kennel-lib-text/src/lib.rs]: escaping for logs, audit records and error
      messages.  A string is the list of its characters, as [chars] yields them; a
      character is its code point.
    - [kennel-lib-term/src/lib.rs]: the filter between the workload and the
      operator's terminal.  The escape-sequence parser is another crate ([vte]);
      the filter is what it is called back with, one [action] at a time.
    - [kennel-bin-oci-entry/src/env_strip.rs]: the environment of an image.

    Theorems: nothing live survives the escaping, which is unambiguous and bounded;
    the terminal receives exactly the actions that are not in the dangerous set; an
    image cannot set a variable that controls a loader, nor any the policy sets. *)

From Stdlib Require Import Sorted.
From S2P Require Import Prelude Bytes Str Source Resolve Translate.
Open Scope Z_scope.

(** ** Escaping *)

Definition chars : Type := list Z.
Definition BACKSLASH : Z := 92.
Definition QUOTE : Z := 34.
Definition is_control (c : Z) : bool := (c <=? 31) || ((127 <=? c) && (c <=? 159)).
Definition is_spoofing_format (c : Z) : bool :=
  ((8203 <=? c) && (c <=? 8207)) || ((8234 <=? c) && (c <=? 8238)) ||
  ((8294 <=? c) && (c <=? 8297)) || (c =? 65279).

Definition hex_char (d : Z) : Z := if d <? 10 then 48 + d else 87 + d.
(** [{:02x}] and [{:04x}] of a number that fits the width. *)
Definition hex2 (n : Z) : chars := [hex_char (n / 16); hex_char (n mod 16)].
Definition hex4 (n : Z) : chars :=
  [hex_char (n / 4096); hex_char (n / 256 mod 16); hex_char (n / 16 mod 16); hex_char (n mod 16)].

Definition push_escaped (escape_quote : bool) (c : Z) : chars :=
  if c =? BACKSLASH then [BACKSLASH; BACKSLASH]
  else if (c =? QUOTE) && escape_quote then [BACKSLASH; QUOTE]
  else if c =? 10 then [BACKSLASH; 110]
  else if c =? 13 then [BACKSLASH; 114]
  else if c =? 9 then [BACKSLASH; 116]
  else if c =? 0 then [BACKSLASH; 48]
  else if is_control c || is_spoofing_format c then
    if c <=? 255 then BACKSLASH :: 120 :: hex2 c else BACKSLASH :: 117 :: 123 :: hex4 c ++ [125]
  else [c].
Definition escape_all (escape_quote : bool) (s : chars) : chars := flat_map (push_escaped escape_quote) s.
Definition sanitise_for_audit (s : chars) : chars := escape_all false s.
Definition sanitise_for_log (s : chars) : chars := escape_all false s.

Definition UNTRUSTED_MARKER : chars := str "untrusted".
Definition DISPLAY_MAX_CHARS : nat := 256.
(** [Display for Untrusted]. *)
Definition display_untrusted (s : chars) : chars :=
  UNTRUSTED_MARKER ++ [QUOTE] ++ escape_all true (take DISPLAY_MAX_CHARS s) ++ [QUOTE] ++
  if is_nil (drop DISPLAY_MAX_CHARS s) then [] else str "...(truncated)".

(** ** The terminal filter *)

(** What the parser calls back: [Perform] of the crate [vte]. *)
Inductive action : Type :=
  | Print (utf8 : bytes)
  | Execute (b : Z)
  | OscDispatch (params : list bytes)
  | CsiDispatch (params : list (list Z)) (intermediates : bytes) (final : bytes)
  | EscDispatch (intermediates : bytes) (b : Z)
  | Hook
  | Put (b : Z)
  | Unhook.

Record FilterPolicy : Type := {
  fp_drop_clipboard : bool; fp_drop_notifications : bool; fp_drop_opaque_bands : bool }.
Definition filter_default : FilterPolicy :=
  {| fp_drop_clipboard := true; fp_drop_notifications := true; fp_drop_opaque_bands := true |}.
Definition filter_passthrough : FilterPolicy :=
  {| fp_drop_clipboard := false; fp_drop_notifications := false; fp_drop_opaque_bands := false |}.
Definition filters_anything (p : FilterPolicy) : bool :=
  fp_drop_clipboard p || fp_drop_notifications p || fp_drop_opaque_bands p.

Definition BEL : Z := 7.
Definition ESC : Z := 27.
Definition intercalate (sep : Z) (parts : list bytes) : bytes :=
  match parts with [] => [] | p :: parts => p ++ flat_map (fun q => sep :: q) parts end.
Definition emit_osc (params : list bytes) : bytes := ESC :: 93 :: intercalate 59 params ++ [BEL].
Definition osc_number (params : list bytes) : option Z :=
  first ← head params; s ← from_utf8 first; parse_uint u16_max s.
(** [push_u16]: the decimal digits. *)
Definition push_u16 (n : Z) : bytes := dec n.
Definition emit_csi (params : list (list Z)) (intermediates final : bytes) : bytes :=
  ESC :: 91 :: intercalate 59 (map (fun g => intercalate 58 (map push_u16 g)) params) ++ intermediates ++ final.

Definition osc_dropped (p : FilterPolicy) (params : list bytes) : bool :=
  match osc_number params with
  | Some n => if n =? 52 then fp_drop_clipboard p
              else if (n =? 9) || (n =? 777) then fp_drop_notifications p else false
  | None => false
  end.
(** One callback: what it appends to the output and how many sequences it drops. *)
Definition perform (p : FilterPolicy) (a : action) : bytes * Z :=
  match a with
  | Print c => (c, 0)
  | Execute b => ([b], 0)
  | OscDispatch params => if osc_dropped p params then ([], 1) else (emit_osc params, 0)
  | CsiDispatch params intermediates final => (emit_csi params intermediates final, 0)
  | EscDispatch intermediates b => (ESC :: intermediates ++ [b], 0)
  | Hook => ([], if fp_drop_opaque_bands p then 1 else 0)
  | Put _ => ([], 0)
  | Unhook => ([], 0)
  end.
Record FilterPerform : Type := { ff_policy : FilterPolicy; ff_out : bytes; ff_dropped : Z }.
Definition filter_new (p : FilterPolicy) : FilterPerform := {| ff_policy := p; ff_out := []; ff_dropped := 0 |}.
Definition perform_on (f : FilterPerform) (a : action) : FilterPerform :=
  let r := perform (ff_policy f) a in
  {| ff_policy := ff_policy f; ff_out := ff_out f ++ r.1; ff_dropped := sat_add u64_max (ff_dropped f) r.2 |}.

Section feed.
(** The parser: its state, and the callbacks a chunk of input makes. *)
Context {P : Type} (advance : P -> bytes -> P * list action).
Record Filter : Type := { fl_parser : P; fl_perform : FilterPerform }.
Definition feed (f : Filter) (input : bytes) : Filter * bytes :=
  let pa := advance (fl_parser f) input in
  let cleared := {| ff_policy := ff_policy (fl_perform f); ff_out := []; ff_dropped := ff_dropped (fl_perform f) |} in
  let done := fold_left perform_on pa.2 cleared in
  ({| fl_parser := pa.1;
      fl_perform := {| ff_policy := ff_policy done; ff_out := []; ff_dropped := ff_dropped done |} |},
   ff_out done).
Fixpoint feed_all (f : Filter) (inputs : list bytes) : Filter * bytes :=
  match inputs with
  | [] => (f, [])
  | i :: inputs => let r := feed f i in let s := feed_all r.1 inputs in (s.1, r.2 ++ s.2)
  end.
End feed.

(** ** The environment of an image *)

Definition STRIP_PREFIXES : list bytes := [str "LD_"; str "GLIBC_"].
Definition STRIP_EXACT : list bytes := map str
  ["GCONV_PATH"; "GETCONF_DIR"; "HOSTALIASES"; "LOCALDOMAIN"; "LOCPATH"; "MALLOC_TRACE"; "NIS_PATH";
   "NLSPATH"; "RESOLV_HOST_CONF"; "RES_OPTIONS"; "TMPDIR"; "TZDIR"; "NODE_OPTIONS"; "NODE_PATH";
   "PYTHONPATH"; "PYTHONHOME"; "PYTHONSTARTUP"; "PERL5LIB"; "PERL5OPT"; "PERLLIB"; "RUBYLIB"; "RUBYOPT";
   "CLASSPATH"; "JAVA_TOOL_OPTIONS"; "_JAVA_OPTIONS"; "JDK_JAVA_OPTIONS"; "BASH_ENV"; "ENV"; "SHELLOPTS";
   "BASHOPTS"]%string.
Definition is_stripped (name : bytes) : bool :=
  existsb (fun p => starts_with p name) STRIP_PREFIXES || bool_decide (name ∈ STRIP_EXACT).
Definition EQUALS : Z := 61.
Definition env_name (entry : bytes) : bytes :=
  match split_once EQUALS entry with Some (k, _) => k | None => entry end.
Definition strip_image_env (image_env : list bytes) : list bytes :=
  List.filter (fun e => negb (is_stripped (env_name e))) image_env.
Definition merge_env (kennel_env : list (bytes * bytes)) (image_env : list bytes) : list (bytes * bytes) :=
  bt_extend (bt_extend [] (omap (split_once EQUALS) (strip_image_env image_env))) kennel_env.

Definition non_empty (s : option bytes) : option bytes := v ← s; if is_nil v then None else Some v.
Definition compose_path (image kennel : option bytes) : option bytes :=
  match non_empty image, non_empty kennel with
  | Some i, Some k => Some (i ++ [COLON] ++ k)
  | Some v, None | None, Some v => Some v
  | None, None => None
  end.

(** * Lemmas *)

(** ** Escapes *)

(** [char]: a code point; surrogates are among them, which only makes the theorems wider. *)
Definition is_char (c : Z) : Prop := 0 <= c <= 1114111.

Definition unhex (c : Z) : Z := if c <? 97 then c - 48 else c - 87.
(** The reading of an escaped text. *)
Fixpoint unescape (s : chars) : option chars :=
  match s with
  | [] => Some []
  | c :: r =>
      if c =? BACKSLASH then
        match r with
        | 120 :: a :: b :: r => cons (16 * unhex a + unhex b) <$> unescape r
        | 117 :: 123 :: a :: b :: c :: d :: 125 :: r =>
            cons (4096 * unhex a + 256 * unhex b + 16 * unhex c + unhex d) <$> unescape r
        | 92 :: r => cons BACKSLASH <$> unescape r
        | 34 :: r => cons QUOTE <$> unescape r
        | 110 :: r => cons 10 <$> unescape r
        | 114 :: r => cons 13 <$> unescape r
        | 116 :: r => cons 9 <$> unescape r
        | 48 :: r => cons 0 <$> unescape r
        | _ => None
        end
      else cons c <$> unescape r
  end.

Lemma unhex_char d : 0 <= d < 16 -> unhex (hex_char d) = d.
Proof. unfold unhex, hex_char. intros H. destruct (Z.ltb_spec d 10); case_match; lia. Qed.
Lemma hex_char_printable d : 0 <= d < 16 -> 48 <= hex_char d <= 102.
Proof. unfold hex_char. intros H. destruct (Z.ltb_spec d 10); lia. Qed.
Lemma hex2_value c : 0 <= c <= 255 -> 16 * unhex (hex_char (c / 16)) + unhex (hex_char (c mod 16)) = c.
Proof.
  intros H. rewrite !unhex_char.
  - pose proof (Z.div_mod c 16). lia.
  - apply Z.mod_pos_bound. lia.
  - split; [apply Z.div_pos; lia|apply Z.div_lt_upper_bound; lia].
Qed.
Lemma hex4_value c : 0 <= c <= 65535 ->
  4096 * unhex (hex_char (c / 4096)) + 256 * unhex (hex_char (c / 256 mod 16)) +
  16 * unhex (hex_char (c / 16 mod 16)) + unhex (hex_char (c mod 16)) = c.
Proof.
  intros H.
  assert (0 <= c / 4096 < 16) by (split; [apply Z.div_pos; lia|apply Z.div_lt_upper_bound; lia]).
  rewrite !unhex_char by (done || apply Z.mod_pos_bound; lia).
  pose proof (Z.div_mod c 16 ltac:(lia)). pose proof (Z.div_mod (c / 16) 16 ltac:(lia)).
  pose proof (Z.div_mod (c / 256) 16 ltac:(lia)).
  assert (c / 16 / 16 = c / 256) by (rewrite Z.div_div by lia; done).
  assert (c / 256 / 16 = c / 4096) by (rewrite Z.div_div by lia; done). lia.
Qed.

(** A character written as a number has at most four hexadecimal digits. *)
Lemma spoofing_small c : is_spoofing_format c = true -> 0 <= c <= 65535.
Proof. unfold is_spoofing_format. lia. Qed.

(** One character, as the escapes write it. *)
Lemma push_escaped_cases q c : is_char c ->
  (push_escaped q c = [c] /\ c <> BACKSLASH /\ is_control c = false /\ is_spoofing_format c = false) \/
  (exists e, push_escaped q c = [BACKSLASH; e] /\
     (e, c) ∈ [(92, 92); (34, 34); (110, 10); (114, 13); (116, 9); (48, 0)]) \/
  (push_escaped q c = BACKSLASH :: 120 :: hex2 c /\ 0 <= c <= 255) \/
  (push_escaped q c = BACKSLASH :: 117 :: 123 :: hex4 c ++ [125] /\ 0 <= c <= 65535).
Proof.
  intros [Hc _]. unfold push_escaped.
  assert (forall e x, (e, x) ∈ [(92, 92); (34, 34); (110, 10); (114, 13); (116, 9); (48, 0)] -> c = x ->
    exists e', [BACKSLASH; e] = [BACKSLASH; e'] /\
      (e', c) ∈ [(92, 92); (34, 34); (110, 10); (114, 13); (116, 9); (48, 0)]) as Hn.
  { intros e x Hin ->. by exists e. }
  destruct (Z.eqb_spec c BACKSLASH); [right; left; by eapply Hn; [|done]; set_solver|].
  destruct ((c =? QUOTE) && q) eqn:Eq.
  { apply andb_true_iff in Eq as [->%Z.eqb_eq _]. right; left. eapply Hn; [|done]. set_solver. }
  destruct (Z.eqb_spec c 10); [right; left; by eapply Hn; [|done]; set_solver|].
  destruct (Z.eqb_spec c 13); [right; left; by eapply Hn; [|done]; set_solver|].
  destruct (Z.eqb_spec c 9); [right; left; by eapply Hn; [|done]; set_solver|].
  destruct (Z.eqb_spec c 0); [right; left; by eapply Hn; [|done]; set_solver|].
  destruct (is_control c || is_spoofing_format c) eqn:E; [|left; apply orb_false_iff in E; tauto].
  right; right. destruct (Z.leb_spec c 255); [by left|right]. split; [done|].
  apply orb_true_iff in E as [E|E]; [|by apply spoofing_small].
  unfold is_control in E. lia.
Qed.

Lemma unescape_push q c r : is_char c -> unescape (push_escaped q c ++ r) = cons c <$> unescape r.
Proof.
  intros H. destruct (push_escaped_cases q c H) as [(-> & Hb & _)|[(e & -> & He)|[[-> Hc]|[-> Hc]]]].
  - cbn. apply Z.eqb_neq in Hb. by rewrite Hb.
  - repeat (apply elem_of_cons in He as [[= -> ->]|He]; [done|]). by apply elem_of_nil in He.
  - cbn -[hex_char unhex]. by rewrite (hex2_value c Hc).
  - cbn -[hex_char unhex]. by rewrite (hex4_value c Hc).
Qed.
Lemma unescape_escape q s : Forall is_char s -> unescape (escape_all q s) = Some s.
Proof.
  induction 1 as [|c s Hc _ IH]; [done|]. cbn [escape_all flat_map]. rewrite unescape_push by done.
  unfold escape_all in IH. by rewrite IH.
Qed.

Definition inert (c : Z) : Prop := is_control c = false /\ is_spoofing_format c = false.
Lemma ascii_inert c : 32 <= c <= 126 -> inert c.
Proof. unfold inert, is_control, is_spoofing_format. lia. Qed.
Lemma hex_inert d : 0 <= d < 16 -> inert (hex_char d).
Proof. intros H. apply ascii_inert. pose proof (hex_char_printable d H). lia. Qed.
Lemma push_escaped_inert q c : is_char c -> Forall inert (push_escaped q c) /\ (length (push_escaped q c) <= 8)%nat.
Proof.
  intros H. destruct (push_escaped_cases q c H) as [(-> & _ & Hc)|[(e & -> & He)|[[-> Hc]|[-> Hc]]]];
    (split; [|cbn; lia]); unfold hex2, hex4; cbn [app]; rewrite ?Forall_cons, ?Forall_nil; split_and!; try done;
    try (apply ascii_inert; unfold BACKSLASH; lia).
  - apply ascii_inert. repeat (apply elem_of_cons in He as [[= -> ->]|He]; [lia|]). by apply elem_of_nil in He.
  - apply hex_inert. split; [apply Z.div_pos; lia|apply Z.div_lt_upper_bound; lia].
  - apply hex_inert, Z.mod_pos_bound. lia.
  - apply hex_inert. split; [apply Z.div_pos; lia|apply Z.div_lt_upper_bound; lia].
  - apply hex_inert, Z.mod_pos_bound. lia.
  - apply hex_inert, Z.mod_pos_bound. lia.
  - apply hex_inert, Z.mod_pos_bound. lia.
Qed.
Lemma escape_all_inert q s : Forall is_char s ->
  Forall inert (escape_all q s) /\ (length (escape_all q s) <= 8 * length s)%nat.
Proof.
  induction 1 as [|c s Hc _ [IH1 IH2]]; [split; [constructor|done]|].
  destruct (push_escaped_inert q c Hc) as [H1 H2]. cbn [escape_all flat_map]. unfold escape_all in *.
  split; [by apply Forall_app_2|]. rewrite length_app. cbn [length]. lia.
Qed.

(** ** The filter *)

Lemma perform_all p acts out n :
  let f := fold_left perform_on acts {| ff_policy := p; ff_out := out; ff_dropped := n |} in
  ff_policy f = p /\ ff_out f = out ++ flat_map (fun a => (perform p a).1) acts.
Proof.
  revert out n; induction acts as [|a acts IH]; intros out n; cbn [fold_left flat_map].
  { by rewrite app_nil_r. }
  destruct (IH (out ++ (perform p a).1) (sat_add u64_max n (perform p a).2)) as [H1 H2].
  cbv zeta in *. split; [done|]. etransitivity; [exact H2|]. by rewrite app_assoc.
Qed.

(** The callbacks of a stream of chunks. *)
Fixpoint actions {P} (advance : P -> bytes -> P * list action) (s : P) (inputs : list bytes) : list action :=
  match inputs with
  | [] => []
  | i :: inputs => (advance s i).2 ++ actions advance (advance s i).1 inputs
  end.
Lemma feed_all_out {P} (advance : P -> bytes -> P * list action) p s n inputs :
  (feed_all advance {| fl_parser := s; fl_perform := {| ff_policy := p; ff_out := []; ff_dropped := n |} |} inputs).2 =
  flat_map (fun a => (perform p a).1) (actions advance s inputs).
Proof.
  revert s n; induction inputs as [|i inputs IH]; intros s n; cbn [feed_all actions]; [done|].
  unfold feed. cbn [fl_parser fl_perform ff_policy ff_dropped fst snd].
  destruct (perform_all p (advance s i).2 [] n) as [H1 H2]. cbv zeta in *. rewrite H1, H2, IH. cbn [app].
  by rewrite flat_map_app.
Qed.

(** ** Sorted maps *)

Lemma bytes_ltb_irrefl a : bytes_ltb a a = false.
Proof. induction a as [|x a IH]; cbn; [done|]. rewrite IH. lia. Qed.
Lemma bytes_ltb_trans a b c : bytes_ltb a b = true -> bytes_ltb b c = true -> bytes_ltb a c = true.
Proof.
  revert b c; induction a as [|x a IH]; intros [|y b] [|z c]; cbn; try done.
  intros [H1|[H1 H1']%andb_true_iff]%orb_true_iff [H2|[H2 H2']%andb_true_iff]%orb_true_iff;
    apply orb_true_iff; [left; lia..|]. right. apply andb_true_iff. split; [lia|by eapply IH].
Qed.
Lemma bytes_ltb_total a b : a <> b -> bytes_ltb a b = false -> bytes_ltb b a = true.
Proof.
  revert b; induction a as [|x a IH]; intros [|y b]; cbn; try done.
  intros Hne [H1 H2]%orb_false_iff. apply orb_true_iff. destruct (Z.eqb_spec x y) as [->|Hxy]; [|left; lia].
  right. apply andb_true_iff. split; [lia|]. apply IH; [congruence|done].
Qed.

Definition key_lt {V} (a b : bytes * V) : Prop := bytes_ltb a.1 b.1 = true.
Lemma bt_insert_sorted {V} k (v : V) m : StronglySorted key_lt m -> StronglySorted key_lt (bt_insert k v m).
Proof.
  induction 1 as [|[k' v'] m Hm IH Hall]; cbn [bt_insert]; [by repeat constructor|].
  case_bool_decide as Hk; [subst; by constructor|]. destruct (bytes_ltb k k') eqn:E.
  - constructor; [by constructor|]. constructor; [done|]. eapply Forall_impl; [done|].
    intros [k2 v2] H2. eapply bytes_ltb_trans; [exact E|exact H2].
  - constructor; [done|]. apply Forall_forall. intros [k2 v2] H2.
    assert (k2 ∈ (bt_insert k v m).*1) as Hin by (apply list_elem_of_fmap; by exists (k2, v2)).
    apply bt_insert_keys in Hin as [->|Hin].
    + unfold key_lt. cbn. by apply bytes_ltb_total.
    + apply list_elem_of_fmap in Hin as ([k3 v3] & [= ->] & H3). rewrite Forall_forall in Hall. exact (Hall _ H3).
Qed.
Lemma bt_insert_elem {V} k (v : V) m k' v' : StronglySorted key_lt m ->
  (k', v') ∈ bt_insert k v m <-> (k' = k /\ v' = v) \/ (k' <> k /\ (k', v') ∈ m).
Proof.
  induction 1 as [|[k2 v2] m Hm IH Hall]; cbn [bt_insert].
  { rewrite list_elem_of_singleton, elem_of_nil. split; [intros [= -> ->]; by left|intros [[-> ->]|[_ []]]; done]. }
  assert (forall x, (k2, x) ∉ m) as Hno.
  { intros x Hx. rewrite Forall_forall in Hall. specialize (Hall _ Hx). unfold key_lt in Hall. cbn in Hall.
    by rewrite bytes_ltb_irrefl in Hall. }
  case_bool_decide as Hk.
  - subst k2. rewrite !elem_of_cons. split; [|naive_solver].
    intros [[= -> ->]|Hin]; [by left|]. right. split; [|by right]. intros ->. by destruct (Hno v').
  - destruct (bytes_ltb k k2) eqn:E.
    + rewrite !elem_of_cons. split; [|naive_solver]. intros [[= -> ->]|[[= -> ->]|Hin]]; [by left|right; auto..].
      split; [|auto]. intros ->. rewrite Forall_forall in Hall. specialize (Hall _ Hin). unfold key_lt in Hall.
      cbn in Hall. pose proof (bytes_ltb_trans _ _ _ E Hall) as H. by rewrite bytes_ltb_irrefl in H.
    + rewrite !elem_of_cons, IH. naive_solver.
Qed.

(** The last binding of a key wins. *)
Definition binds {V} (k : bytes) (v : V) (l : list (bytes * V)) : Prop :=
  exists l1 l2, l = l1 ++ (k, v) :: l2 /\ k ∉ l2.*1.
Lemma binds_snoc {V} k (v : V) k' v' l :
  binds k v (l ++ [(k', v')]) <-> (k = k' /\ v = v') \/ (k <> k' /\ binds k v l).
Proof.
  split.
  - intros (l1 & l2 & H & Hn). destruct l2 as [|x l2 _] using rev_ind.
    + apply app_inj_tail in H as [_ [= -> ->]]. by left.
    + rewrite app_comm_cons, app_assoc in H. apply app_inj_tail in H as [-> <-].
      rewrite fmap_app in Hn. right. split; [set_solver|]. exists l1, l2. split; [done|set_solver].
  - intros [[-> ->]|[Hk (l1 & l2 & -> & Hn)]]; [exists l, []; split; [done|set_solver]|].
    exists l1, (l2 ++ [(k', v')]). rewrite <- app_assoc. split; [done|]. rewrite fmap_app. set_solver.
Qed.
Lemma bt_extend_spec {V} (m c : list (bytes * V)) :
  StronglySorted key_lt m ->
  StronglySorted key_lt (bt_extend m c) /\
  forall k v, (k, v) ∈ bt_extend m c <-> binds k v c \/ (k ∉ (c.*1) /\ (k, v) ∈ m).
Proof.
  intros Hm. unfold bt_extend. induction c as [|[k' v'] c [IHs IH]] using rev_ind; cbn.
  - split; [done|]. intros k v. split; [|intros [(l1 & l2 & ? & _)|[_ ?]]; [by destruct l1|done]].
    intros ?. right. split; [set_solver|done].
  - rewrite fold_left_app. cbn. split; [by apply bt_insert_sorted|]. intros k v.
    rewrite bt_insert_elem, IH, binds_snoc, fmap_app by done. cbn. set_solver.
Qed.

(** * Theorems *)

(** Nothing live survives the sanitisers: the text written to a log, an audit record
    or a message has no control character and no bidirectional or zero-width
    formatting character; two texts are never written alike; and an untrusted value
    in a message takes at most 2073 characters, however long it is. *)
Theorem sanitised_text_inert s :
  Forall is_char s ->
  Forall inert (sanitise_for_log s) /\ Forall inert (sanitise_for_audit s) /\
  Forall inert (display_untrusted s) /\
  (length (display_untrusted s) <= 9 + 2 + 8 * 256 + 14)%nat /\
  (forall q s', Forall is_char s' -> escape_all q s = escape_all q s' -> s = s').
Proof.
  intros Hs. assert (Forall is_char (take DISPLAY_MAX_CHARS s)) as Ht by by apply Forall_take.
  destruct (escape_all_inert true _ Ht) as [Hi Hl]. rewrite length_take in Hl.
  assert (forall l, Forall (fun c => 32 <= c <= 126) l -> Forall inert l) as Hascii.
  { intros l Hl'. eapply Forall_impl; [exact Hl'|]. apply ascii_inert. }
  split_and!; [by apply escape_all_inert..| | |].
  - unfold display_untrusted. rewrite !Forall_app. split_and!; try done.
    1,2,3: apply Hascii; repeat constructor; done.
    destruct (is_nil _); apply Hascii; repeat constructor; done.
  - unfold display_untrusted, DISPLAY_MAX_CHARS in *. rewrite !length_app. cbn [length].
    destruct (is_nil _); cbn; lia.
  - intros q s' Hs' E. apply (f_equal unescape) in E. rewrite !unescape_escape in E by done. by injection E.
Qed.

(** The operator's terminal receives exactly what the filter lets through: over any
    sequence of chunks, the output is that of the parser's callbacks one by one, and
    under the default policy a callback for a clipboard or notification command, in
    any decimal spelling of its number, and one for an opaque band add nothing. *)
Theorem terminal_output_exact {P} (advance : P -> bytes -> P * list action) p s inputs :
  let f := {| fl_parser := s; fl_perform := filter_new p |} in
  (feed_all advance f inputs).2 = flat_map (fun a => (perform p a).1) (actions advance s inputs) /\
  (forall params n, osc_number params = Some n -> n ∈ [52; 9; 777] ->
     perform filter_default (OscDispatch params) = ([], 1)) /\
  (forall b, perform filter_default (Put b) = ([], 0)) /\ perform filter_default Hook = ([], 1).
Proof.
  cbv zeta. split_and!; [apply feed_all_out| |done|done].
  intros params n Hn Hin. cbn. unfold osc_dropped. rewrite Hn.
  by repeat (apply elem_of_cons in Hin as [->|Hin]; [done|]); apply elem_of_nil in Hin.
Qed.

(** A private control sequence is rewritten: its marker, an intermediate, is written
    after its parameters, so what the workload sends to hide the cursor reaches the
    terminal as another sequence. *)
Theorem private_marker_moves n g params marker final :
  0 <= n -> 60 <= marker <= 63 ->
  exists d rest, emit_csi ((n :: g) :: params) [marker] final = ESC :: 91 :: d :: rest /\ d <> marker.
Proof.
  intros Hn Hm. unfold emit_csi. cbn [map intercalate]. unfold push_u16 at 1.
  pose proof (dec_digits_ascii 20 n Hn) as Hd. change (dec_digits 20 n) with (dec n) in Hd.
  destruct (dec n) as [|d ds] eqn:E.
  - unfold dec in E. cbn [dec_digits] in E. by destruct (if n <? 10 then _ else _).
  - inversion Hd as [|? ? Hdig _]; subst. exists d. eexists. split; [done|].
    intros ->. unfold is_digit in Hdig. lia.
Qed.

(** The environment of an image under a policy: it is sorted by name without
    duplicates; a variable has the value of the last entry the policy sets for it, or
    else the last the image has for it among those that are not stripped.  So no
    variable that steers a loader or an interpreter comes from the image. *)
Theorem merged_env_exact kennel_env image_env :
  let env := merge_env kennel_env image_env in
  StronglySorted key_lt env /\
  (forall k v, (k, v) ∈ env <->
     binds k v kennel_env \/
     (k ∉ (kennel_env.*1) /\ binds k v (omap (split_once EQUALS) (strip_image_env image_env)))) /\
  (forall k v, (k, v) ∈ env -> is_stripped k = true -> binds k v kennel_env).
Proof.
  cbv zeta. unfold merge_env.
  destruct (bt_extend_spec [] (omap (split_once EQUALS) (strip_image_env image_env)) (SSorted_nil _)) as [Hs H1].
  destruct (bt_extend_spec _ kennel_env Hs) as [Hs' H2].
  assert (forall k v, (k, v) ∈ bt_extend (bt_extend [] (omap (split_once EQUALS) (strip_image_env image_env))) kennel_env <->
     binds k v kennel_env \/
     (k ∉ (kennel_env.*1) /\ binds k v (omap (split_once EQUALS) (strip_image_env image_env)))) as H.
  { intros k v. rewrite H2, H1. set_solver. }
  split_and!; [done|done|]. intros k v [?|[_ (l1 & l2 & He & _)]]%H Hk; [done|].
  assert ((k, v) ∈ omap (split_once EQUALS) (strip_image_env image_env)) as Hin by (rewrite He; set_solver).
  apply list_elem_of_omap in Hin as (e & Hin & Ee). unfold strip_image_env in Hin.
  apply list_elem_of_In, filter_In in Hin as [_ Hns]. unfold env_name in Hns. rewrite Ee, Hk in Hns. done.
Qed.

Lemma sanitised_text_inert_witness : Forall inert (sanitise_for_log [27; 91; 50; 74; 8238]).
Proof. apply (sanitised_text_inert [27; 91; 50; 74; 8238]). repeat constructor; done. Defined.
Lemma private_marker_moves_witness :
  (exists d rest, emit_csi [[25]] [63] [108] = ESC :: 91 :: d :: rest /\ d <> 63) /\
  emit_csi [[25]] [63] [108] = ESC :: str "[25?l".
Proof. split; [by apply private_marker_moves|done]. Defined.
