(* ===== verification/Proxy.v ===== *)
(** The proxy endpoint inside a kennel ([kennel-facade/src/socks5/protocol.rs],
    [http.rs] and [bin/facade-socks5.rs]).

    A workload speaks SOCKS5 or HTTP to a loopback endpoint; the first byte tells
    which.  Either way the endpoint extracts a host and a port, asks the daemon for a
    connection by a binder transaction, answers in the workload's protocol and then
    relays bytes.  A connection is the list of what its reads return, an empty read
    being its end; the daemon's answer is a parameter.  Threads, sockets and the relay
    itself are I/O: what the relay sends upstream is what is left unread.

    Theorems: the destination asked for is the one in the request, for each protocol;
    a parse does not depend on what follows the head; memory is bounded; what is sent
    upstream, and what of a request body is lost. *)

From S2P Require Import Prelude Bytes Str Plan IpText Cursor B64 Sshsig BinderWire.
Open Scope Z_scope.

(** ** Front door ([protocol.rs]) *)

Inductive Protocol : Type := Socks5 | Http.
Inductive Unsupported : Type := Socks4 | Empty | Unknown (b : Z).
Definition is_upper (b : Z) : bool := (65 <=? b) && (b <=? 90).
Definition detect (head : bytes) : result Unsupported Protocol :=
  match head with
  | [] => Err Empty
  | b :: _ =>
      if b =? 5 then Ok Socks5
      else if b =? 4 then Err Socks4
      else if is_upper b then Ok Http
      else Err (Unknown b)
  end.

(** ** HTTP ([http.rs]) *)

Definition DEFAULT_HTTP_PORT : Z := 80.
Definition MAX_HEAD : Z := 8 * 1024.
Inductive Kind : Type := Connect | Forward.
Record HttpRequest : Type := {
  hr_kind : Kind; hr_host : bytes; hr_port : Z; hr_head_len : Z; hr_upstream_head : bytes }.
Inductive HttpError : Type :=
  | Incomplete | HeadTooLarge | RequestLineNotUtf8 | MalformedRequestLine | NotAbsoluteForm
  | BadAuthority | UnsupportedScheme | BadPort.

Definition CRLF2 : bytes := [13; 10].
Definition BLANK_LINE : bytes := [13; 10; 13; 10].
Definition head_end (buf : bytes) : result HttpError Z :=
  match str_find BLANK_LINE buf with
  | Some idx => Ok (Z.of_nat idx + 4)
  | None => if MAX_HEAD <=? blen buf then Err HeadTooLarge else Err Incomplete
  end.

Definition parse_port (s : bytes) : result HttpError Z :=
  match parse_uint u16_max s with
  | Some p => if p =? 0 then Err BadPort else Ok p
  | None => Err BadPort
  end.
Definition bracketed_port (after : bytes) (default_port : option Z) : result HttpError Z :=
  match strip_prefix [COLON] after with
  | Some p => parse_port p
  | None => if is_nil after then ok_or BadAuthority default_port else Err BadAuthority
  end.
Definition parse_authority (authority : bytes) (default_port : option Z) : result HttpError (bytes * Z) :=
  match strip_prefix [91] authority with
  | Some rest =>
      match split_once 93 rest with
      | None => Err BadAuthority
      | Some (inner, after) =>
          _ ← ok_or BadAuthority (parse_ipv6 inner);
          port ← bracketed_port after default_port; Ok (inner, port)
      end
  | None =>
      match rsplit_once COLON authority with
      | Some (host, port) =>
          if is_nil host then Err BadAuthority else p ← parse_port port; Ok (host, p)
      | None =>
          if is_nil authority then Err BadAuthority
          else p ← ok_or BadAuthority default_port; Ok (authority, p)
      end
  end.

Definition lower (b : Z) : Z := if is_upper b then b + 32 else b.
Definition strip_scheme (target : bytes) : result HttpError bytes :=
  match str_find (ascii_bytes "://") (map lower target) with
  | Some idx => if bool_decide (take idx (map lower target) = ascii_bytes "http") then Ok (drop (idx + 3) target)
                else Err UnsupportedScheme
  | None => Err NotAbsoluteForm
  end.
Definition ends_authority (b : Z) : bool := (b =? SLASH) || (b =? 63) || (b =? 35).
(** [find(['/', '?', '#'])] and the two slices around it. *)
Fixpoint cut_authority (s : bytes) : bytes * bytes :=
  match s with
  | [] => ([], [])
  | b :: t => if ends_authority b then ([], s) else let r := cut_authority t in (b :: r.1, r.2)
  end.
Definition parse_absolute_uri (target : bytes) : result HttpError (bytes * Z * bytes) :=
  rest ← strip_scheme target;
  let ap := cut_authority rest in
  let path := if is_nil ap.2 then [SLASH] else ap.2 in
  hp ← parse_authority ap.1 (Some DEFAULT_HTTP_PORT);
  Ok (hp.1, hp.2, path).

Definition SP : Z := 32.
Definition parse_request (buf : bytes) : result HttpError HttpRequest :=
  head_len ← head_end buf;
  first_crlf ← ok_or Incomplete (str_find CRLF2 buf);
  line ← ok_or RequestLineNotUtf8 (from_utf8 (take first_crlf buf));
  match split_on SP line with
  | [method; target; version] =>
      if bool_decide (method = ascii_bytes "CONNECT") then
        hp ← parse_authority target None;
        Ok {| hr_kind := Connect; hr_host := hp.1; hr_port := hp.2; hr_head_len := head_len;
              hr_upstream_head := [] |}
      else
        hpp ← parse_absolute_uri target;
        let tail := drop first_crlf (take (Z.to_nat head_len) buf) in
        Ok {| hr_kind := Forward; hr_host := hpp.1.1; hr_port := hpp.1.2; hr_head_len := head_len;
              hr_upstream_head := method ++ [SP] ++ hpp.2 ++ [SP] ++ version ++ tail |}
  | _ => Err MalformedRequestLine
  end.

(** ** The connection ([facade-socks5.rs]) *)

Definition MAX_HOST : Z := 255.
Definition MAX_REQUEST_HEAD : Z := 16 * 1024.
Definition REP_SUCCEEDED : Z := 0.
Definition REP_GENERAL_FAILURE : Z := 1.
Definition REP_CMD_NOT_SUPPORTED : Z := 7.
Definition REP_ATYP_NOT_SUPPORTED : Z := 8.

Inductive ProxyError : Type :=
  | Eof | HeadTruncated | HeadOverLimit | HeadMalformed (e : HttpError)
  | NotGreeting | NotRequest | NotConnect | AddressType | DomainUtf8 | HostRange | Refused.

(** [read_http_request]: the request and what is left to read. *)
Fixpoint read_http_request (buf : bytes) (reads : list bytes) :
    result ProxyError (HttpRequest * bytes * list bytes) :=
  match parse_request buf with
  | Ok req => Ok (req, buf, reads)
  | Err Incomplete =>
      match reads with
      | [] => Err HeadTruncated
      | chunk :: reads =>
          if is_nil chunk then Err HeadTruncated
          else if MAX_REQUEST_HEAD <? blen (buf ++ chunk) then Err HeadOverLimit
          else read_http_request (buf ++ chunk) reads
      end
  | Err e => Err (HeadMalformed e)
  end.

(** [read_exact]. *)
Definition read_exact (n : nat) (s : bytes) : result ProxyError (bytes * bytes) :=
  if (length s <? n)%nat then Err Eof else Ok (take n s, drop n s).

Definition ipv4_text (o : bytes) : bytes := join_with DOT (map dec o).

(** [Ipv6Addr]'s [Display]: a mapped address in dotted form, else the first longest run of at
    least two zero segments is [::]. *)
Fixpoint hex_digits6 (fuel : nat) (n : Z) : bytes :=
  match fuel with
  | O => []
  | S fuel => (if n <? 16 then [] else hex_digits6 fuel (n / 16)) ++
              [if n mod 16 <? 10 then 48 + n mod 16 else 87 + n mod 16]
  end.
Definition hex_seg (n : Z) : bytes := hex_digits6 4 n.
Fixpoint segments (o : bytes) : list Z :=
  match o with hi :: lo :: o => hi * 256 + lo :: segments o | _ => [] end.
(** [(start, len)] of the first longest run, reading from segment [i] with the current run. *)
Fixpoint longest_run (i : nat) (cur best : nat * nat) (segs : list Z) : nat * nat :=
  match segs with
  | [] => best
  | s :: segs =>
      if s =? 0 then
        let cur := if (cur.2 =? 0)%nat then (i, 1%nat) else (cur.1, S cur.2) in
        longest_run (S i) cur (if (best.2 <? cur.2)%nat then cur else best) segs
      else longest_run (S i) (0%nat, 0%nat) best segs
  end.
Definition segs_text (segs : list Z) : bytes := join_with COLON (map hex_seg segs).
Definition ipv6_text (o : bytes) : bytes :=
  match o with
  | [0; 0; 0; 0; 0; 0; 0; 0; 0; 0; 255; 255; a; b; c; d] => ascii_bytes "::ffff:" ++ ipv4_text [a; b; c; d]
  | _ =>
      let segs := segments o in
      let run := longest_run 0 (0%nat, 0%nat) (0%nat, 0%nat) segs in
      if (1 <? run.2)%nat
      then segs_text (take run.1 segs) ++ ascii_bytes "::" ++ segs_text (drop (run.1 + run.2) segs)
      else segs_text segs
  end.

Definition socks5_reply (rep : Z) : bytes := [5; rep; 0; 1; 0; 0; 0; 0; 0; 0].

(** [socks5_accept], as what it returns, what it has written and what is left to read. *)
Record accepted : Type := { sk_dest : option (bytes * Z); sk_written : bytes; sk_rest : bytes }.
Definition fails {A} (e : ProxyError) (written : bytes) : result (ProxyError * bytes) A := Err (e, written).
Definition exact {A} (n : nat) (written s : bytes) (k : bytes -> bytes -> result (ProxyError * bytes) A) :
    result (ProxyError * bytes) A :=
  match read_exact n s with Ok (b, s) => k b s | Err e => fails e written end.
Definition finish (host : bytes) (s : bytes) : result (ProxyError * bytes) accepted :=
  if is_nil host || (MAX_HOST <? blen host) then fails HostRange [5; 0]
  else exact 2 [5; 0] s (fun port s =>
    Ok {| sk_dest := Some (host, be_val port); sk_written := [5; 0]; sk_rest := s |}).
Definition socks5_request (s : bytes) : result (ProxyError * bytes) accepted :=
  exact 4 [5; 0] s (fun r s =>
    match r with
    | [ver; cmd; _; atyp] =>
        if negb (ver =? 5) then fails NotRequest [5; 0]
        else if negb (cmd =? 1) then fails NotConnect ([5; 0] ++ socks5_reply REP_CMD_NOT_SUPPORTED)
        else if atyp =? 1 then exact 4 [5; 0] s (fun a s => finish (ipv4_text a) s)
        else if atyp =? 4 then exact 16 [5; 0] s (fun a s => finish (ipv6_text a) s)
        else if atyp =? 3 then
          exact 1 [5; 0] s (fun len s =>
            exact (Z.to_nat (be_val len)) [5; 0] s (fun name s =>
              match from_utf8 name with Some h => finish h s | None => fails DomainUtf8 [5; 0] end))
        else fails AddressType ([5; 0] ++ socks5_reply REP_ATYP_NOT_SUPPORTED)
    | _ => fails Eof [5; 0]
    end).
Definition socks5_accept (s : bytes) : result (ProxyError * bytes) accepted :=
  match s with
  | [] => Ok {| sk_dest := None; sk_written := []; sk_rest := [] |}
  | ver :: s =>
      exact 1 [] s (fun nmethods s =>
        if negb (ver =? 5) then fails NotGreeting []
        else exact (Z.to_nat (be_val nmethods)) [] s (fun _ s => socks5_request s))
  end.

Section handle.
(** Whether the daemon grants the transaction [CONNECT_INET] with this data. *)
Context (grants : bytes -> bool).
Definition TCP : Z := 0.
Definition broker (host : bytes) (port : Z) : bool := grants (inet_encode_request TCP port host).

(** How a connection ended: the request made of the daemon, what was written back to the
    client before the relay, and what reaches the destination. *)
Record Served : Type := { sd_request : option bytes; sd_reply : bytes; sd_upstream : bytes }.
Definition not_served (reply : bytes) : Served := {| sd_request := None; sd_reply := reply; sd_upstream := [] |}.
Definition ESTABLISHED : bytes := ascii_bytes "HTTP/1.1 200 Connection Established" ++ BLANK_LINE.
Definition BAD_GATEWAY : bytes := ascii_bytes "HTTP/1.1 502 Bad Gateway" ++ BLANK_LINE.

Definition handle_http (reads : list bytes) : Served :=
  match read_http_request [] reads with
  | Err _ => not_served []
  | Ok (req, _, rest) =>
      let request := inet_encode_request TCP (hr_port req) (hr_host req) in
      if broker (hr_host req) (hr_port req) then
        match hr_kind req with
        | Connect => {| sd_request := Some request; sd_reply := ESTABLISHED; sd_upstream := concat rest |}
        | Forward => {| sd_request := Some request; sd_reply := [];
                        sd_upstream := hr_upstream_head req ++ concat rest |}
        end
      else {| sd_request := Some request; sd_reply := BAD_GATEWAY; sd_upstream := [] |}
  end.
Definition handle_socks5 (reads : list bytes) : Served :=
  match socks5_accept (concat reads) with
  | Err (_, written) => not_served written
  | Ok a =>
      match sk_dest a with
      | None => not_served []
      | Some (host, port) =>
          let request := inet_encode_request TCP port host in
          if broker host port
          then {| sd_request := Some request; sd_reply := sk_written a ++ socks5_reply REP_SUCCEEDED;
                  sd_upstream := sk_rest a |}
          else {| sd_request := Some request; sd_reply := sk_written a ++ socks5_reply REP_GENERAL_FAILURE;
                  sd_upstream := [] |}
      end
  end.
Definition handle (reads : list bytes) : Served :=
  match detect (take 1 (concat (take 1 reads))) with
  | Ok Socks5 => handle_socks5 reads
  | Ok Http => handle_http reads
  | Err _ => not_served []
  end.
End handle.

(** * Lemmas *)

(** ** Finding the head *)

Lemma str_find_at p s k : str_find p s = Some k -> exists r, s = take k s ++ p ++ r /\ length (take k s) = k.
Proof.
  revert k; induction s as [|b s IH]; intros k; cbn [str_find].
  - destruct (starts_with p []) eqn:E; [|done]. intros [= <-]. apply starts_with_true in E as [r E]. by exists r.
  - destruct (starts_with p (b :: s)) eqn:E.
    + intros [= <-]. apply starts_with_true in E as [r E]. by exists r.
    + destruct (str_find p s) as [k'|] eqn:Ek; [|done]. intros [= <-]. destruct (IH _ eq_refl) as (r & Hs & Hl).
      exists r. cbn [take app length]. by rewrite <- Hs, Hl.
Qed.
Lemma starts_with_app p s t : (length p <= length s)%nat -> starts_with p (s ++ t) = starts_with p s.
Proof.
  intros Hl. apply eq_true_iff_eq. rewrite !starts_with_true. split.
  - intros [r E]. apply app_eq_inv in E as [(k & Hs & Ht)|(k & Hp & Hr)].
    + exists k. done.
    + exists []. subst p. rewrite length_app in Hl. assert (k = []) as -> by (destruct k; [done|cbn in Hl; lia]).
      by rewrite !app_nil_r.
  - intros [r ->]. exists (r ++ t). by rewrite app_assoc.
Qed.
Lemma str_find_app p s t k : str_find p s = Some k -> str_find p (s ++ t) = Some k.
Proof.
  revert k; induction s as [|b s IH]; intros k H; destruct (str_find_at _ _ _ H) as (r & Hr & Hk).
  - assert (length p = 0)%nat as Hp.
    { apply (f_equal length) in Hr. rewrite !length_app in Hr. cbn in Hr. lia. }
    destruct p; [|done]. cbn in H |- *. injection H as <-. by destruct t.
  - assert (length p <= length (b :: s))%nat as Hp.
    { apply (f_equal length) in Hr. rewrite !length_app in Hr. lia. }
    cbn [str_find app] in *. change (b :: s ++ t) with ((b :: s) ++ t). rewrite starts_with_app by done.
    destruct (starts_with p (b :: s)); [done|]. destruct (str_find p s) as [k'|] eqn:Ek; [|done].
    by rewrite (IH _ eq_refl).
Qed.

(** The head of a request is found or not, whatever follows. *)
Lemma head_end_app buf more n : head_end buf = Ok n -> head_end (buf ++ more) = Ok n /\ 4 <= n <= blen buf.
Proof.
  unfold head_end. destruct (str_find BLANK_LINE buf) as [k|] eqn:E; [|by case_match].
  rewrite (str_find_app _ _ _ _ E). intros <-%(inj Ok). split; [done|].
  destruct (str_find_at _ _ _ E) as (r & Hr & Hk). apply (f_equal length) in Hr.
  rewrite !length_app, Hk in Hr. change (length BLANK_LINE) with 4%nat in Hr. lia.
Qed.
Lemma crlf_in_head buf n : head_end buf = Ok n -> exists k, str_find CRLF2 buf = Some k.
Proof.
  unfold head_end. destruct (str_find BLANK_LINE buf) as [k|] eqn:E; [|by case_match]. intros _.
  destruct (str_find_at _ _ _ E) as (r & -> & _). exact (str_find_occurs CRLF2 (take k buf) ([13; 10] ++ r)).
Qed.

Lemma parse_request_app buf more n :
  head_end buf = Ok n -> parse_request (buf ++ more) = parse_request buf.
Proof.
  intros H. destruct (head_end_app buf more n H) as [H' Hn]. destruct (crlf_in_head _ _ H) as [k Hk].
  unfold parse_request. rewrite H, H', Hk, (str_find_app _ _ _ _ Hk). cbn [ok_or mbind result_bind].
  destruct (str_find_at _ _ _ Hk) as (r & Hr & Hl). rewrite length_take in Hl.
  rewrite !take_app_le by lia. done.
Qed.
Lemma parse_request_head buf r :
  parse_request buf = r -> r <> Err Incomplete -> r <> Err HeadTooLarge -> exists n, head_end buf = Ok n.
Proof.
  unfold parse_request. intros <- H1 H2. destruct (head_end buf) as [n|e] eqn:E; [by exists n|].
  unfold head_end in E. destruct (str_find _ _); [done|]. case_match; by injection E as <-.
Qed.

(** ** Reading the head *)

Lemma read_http_request_Ok buf reads req b rest :
  read_http_request buf reads = Ok (req, b, rest) ->
  buf ++ concat reads = b ++ concat rest /\ parse_request b = Ok req /\
  (blen b <= Z.max (blen buf) MAX_REQUEST_HEAD).
Proof.
  revert buf; induction reads as [|chunk reads IH]; intros buf; cbn [read_http_request concat].
  - destruct (parse_request buf) as [r|[]] eqn:E; try done. intros [= <- <- <-]. split_and!; [done|done|lia].
  - destruct (parse_request buf) as [r|[]] eqn:E; try done.
    { intros [= <- <- <-]. split_and!; [done|done|lia]. }
    destruct (is_nil chunk); [done|]. destruct (Z.ltb_spec MAX_REQUEST_HEAD (blen (buf ++ chunk))); [done|].
    intros H'%IH. rewrite <- app_assoc in H'. destruct H' as (? & ? & ?). split_and!; [done|done|lia].
Qed.

(** ** SOCKS5 *)

Lemma socks_read_exact_app a s : read_exact (length a) (a ++ s) = Ok (a, s).
Proof.
  unfold read_exact. rewrite length_app, (proj2 (Nat.ltb_ge _ _)) by lia.
  by rewrite take_app_length, drop_app_length.
Qed.
Lemma exact_app {A} n a s written (k : bytes -> bytes -> result (ProxyError * bytes) A) :
  length a = n -> exact n written (a ++ s) k = k a s.
Proof. intros <-. unfold exact. by rewrite socks_read_exact_app. Qed.

(** A SOCKS5 client's side of the exchange. *)
Definition socks5_hello (methods : bytes) : bytes := [5; blen methods] ++ methods.
Definition socks5_domain (host : bytes) (port : Z) : bytes := [5; 1; 0; 3; blen host] ++ host ++ be_bytes 2 port.
Definition socks5_ipv4 (addr : bytes) (port : Z) : bytes := [5; 1; 0; 1] ++ addr ++ be_bytes 2 port.

Lemma be_byte n : be_val [n] = n.
Proof. change (n + 256 * 0 = n). lia. Qed.

Lemma socks5_greeted methods s :
  blen methods <= 255 -> socks5_accept (socks5_hello methods ++ s) = socks5_request s.
Proof.
  intros Hm. unfold socks5_hello. rewrite <- app_assoc. cbn [app socks5_accept].
  change (blen methods :: methods ++ s) with ([blen methods] ++ (methods ++ s)).
  rewrite (exact_app 1 [blen methods]) by done. cbn [negb Z.eqb Pos.eqb]. rewrite be_byte, Nat2Z.id.
  by rewrite (exact_app (length methods) methods) by done.
Qed.
Lemma finish_Ok host port s :
  0 < blen host <= 255 -> 0 <= port <= u16_max ->
  finish host (be_bytes 2 port ++ s) = Ok {| sk_dest := Some (host, port); sk_written := [5; 0]; sk_rest := s |}.
Proof.
  intros Hh Hp. unfold finish. destruct host as [|h host]; [cbn in Hh; lia|]. cbn [is_nil orb].
  destruct (Z.ltb_spec MAX_HOST (blen (h :: host))) as [Hlt|_]; [unfold MAX_HOST in Hlt; lia|].
  rewrite (exact_app 2) by apply length_be_bytes. by rewrite be_val_be_bytes by (unfold u16_max in Hp; lia).
Qed.

(** ** HTTP *)

Lemma has_byte_false c s : has_byte c s = false <-> Forall (fun b => b <> c) s.
Proof.
  unfold has_byte. induction s as [|b s IH]; cbn; [done|]. rewrite orb_false_iff, IH, Forall_cons.
  rewrite Z.eqb_neq. naive_solver.
Qed.
Lemma dec_no_byte c n : 0 <= n -> is_digit c = false -> has_byte c (dec n) = false.
Proof.
  intros Hn Hc. apply has_byte_false. eapply Forall_impl; [exact (dec_digits_ascii 20 n Hn)|].
  cbn. intros b Hb ->. congruence.
Qed.

(** An authority with a name and a port. *)
Lemma parse_authority_name host port dflt :
  host <> [] -> head host <> Some 91 -> 0 < port <= u16_max ->
  parse_authority (host ++ [COLON] ++ dec port) dflt = Ok (host, port).
Proof.
  intros Hne H91 Hp. unfold parse_authority.
  destruct (strip_prefix [91] (host ++ [COLON] ++ dec port)) as [r|] eqn:E.
  { apply strip_prefix_Some in E. destruct host as [|h host]; [done|]. injection E as -> _. done. }
  assert (rsplit_once COLON (host ++ [COLON] ++ dec port) = Some (host, dec port)) as ->.
  { apply rsplit_once_Some. split; [done|]. apply dec_no_byte; [lia|done]. }
  destruct host; [done|]. cbn [is_nil]. unfold parse_port.
  rewrite parse_uint_dec by (unfold u16_max, u64_max in *; lia).
  destruct (Z.eqb_spec port 0); [lia|done].
Qed.

(** The head of a [CONNECT] request. *)
Definition connect_line (host : bytes) (port : Z) (version : bytes) : bytes :=
  ascii_bytes "CONNECT" ++ [SP] ++ (host ++ [COLON] ++ dec port) ++ [SP] ++ version.

(** A complete head: it ends with its first blank line. *)
Definition whole_head (h : bytes) : Prop := head_end h = Ok (blen h).

Lemma parse_line line tail :
  whole_head (line ++ CRLF2 ++ tail) -> has_byte 13 line = false -> utf8_ok line = true ->
  str_find CRLF2 (line ++ CRLF2 ++ tail) = Some (length line) /\
  from_utf8 (take (length line) (line ++ CRLF2 ++ tail)) = Some line /\
  drop (length line) (take (Z.to_nat (blen (line ++ CRLF2 ++ tail))) (line ++ CRLF2 ++ tail)) = CRLF2 ++ tail.
Proof.
  intros H Hr Hu. split_and!.
  - apply str_find_here. by apply has_byte_false.
  - rewrite take_app_length. unfold from_utf8. by rewrite Hu.
  - rewrite Nat2Z.id, take_ge by done. by rewrite drop_app_length.
Qed.

Lemma parse_connect host port version tail (h := connect_line host port version ++ CRLF2 ++ tail) :
  host <> [] -> head host <> Some 91 -> 0 < port <= u16_max ->
  has_byte SP host = false -> has_byte SP version = false ->
  has_byte 13 (connect_line host port version) = false ->
  utf8_ok (connect_line host port version) = true -> whole_head h ->
  parse_request h = Ok {| hr_kind := Connect; hr_host := host; hr_port := port; hr_head_len := blen h;
                          hr_upstream_head := [] |}.
Proof.
  intros Hne H91 Hp Hs1 Hs2 Hr Hu Hh. destruct (parse_line _ _ Hh Hr Hu) as (E1 & E2 & _).
  unfold parse_request. rewrite Hh. cbn [mbind result_bind]. unfold h. rewrite E1. cbn [ok_or mbind result_bind].
  rewrite E2. cbn [ok_or mbind result_bind].
  assert (split_on SP (connect_line host port version) =
          [ascii_bytes "CONNECT"; host ++ [COLON] ++ dec port; version]) as ->.
  { unfold connect_line. change ([SP] ++ ?x) with (SP :: x). rewrite split_on_app by done. f_equal.
    change ([SP] ++ version) with (SP :: version). rewrite split_on_app.
    - by rewrite split_on_single.
    - rewrite !has_byte_app, Hs1, (dec_no_byte SP) by (done || lia). done. }
  cbn [ok_or mbind result_bind]. rewrite bool_decide_eq_true_2 by done.
  by rewrite parse_authority_name.
Qed.

(** The line of an absolute-form request, and what is sent for it. *)
Definition forward_line (method host : bytes) (port : Z) (path version : bytes) : bytes :=
  method ++ [SP] ++ (ascii_bytes "http://" ++ (host ++ [COLON] ++ dec port) ++ path) ++ [SP] ++ version.
Definition origin_line (method path version : bytes) : bytes := method ++ [SP] ++ path ++ [SP] ++ version.

Lemma cut_authority_app a p :
  forallb (fun b => negb (ends_authority b)) a = true ->
  match p with [] => False | b :: _ => ends_authority b = true end ->
  cut_authority (a ++ p) = (a, p).
Proof.
  intros Ha Hp. induction a as [|b a IH]; cbn [app cut_authority].
  - destruct p as [|b p]; [done|]. cbn. by rewrite Hp.
  - cbn in Ha. apply andb_true_iff in Ha as [Hb Ha]. apply negb_true_iff in Hb. by rewrite Hb, (IH Ha).
Qed.
Lemma strip_scheme_http rest : strip_scheme (ascii_bytes "http://" ++ rest) = Ok rest.
Proof.
  unfold strip_scheme. change (ascii_bytes "http://") with (ascii_bytes "http" ++ ascii_bytes "://").
  rewrite <- app_assoc, !map_app.
  assert (str_find (ascii_bytes "://") (map lower (ascii_bytes "http") ++ map lower (ascii_bytes "://") ++ map lower rest)
          = Some 4%nat) as ->.
  { apply (str_find_here COLON [SLASH; SLASH] (ascii_bytes "http") (map lower rest)). by repeat constructor. }
  rewrite bool_decide_eq_true_2 by done. done.
Qed.
Lemma parse_absolute_uri_http host port path :
  host <> [] -> head host <> Some 91 -> 0 < port <= u16_max ->
  forallb (fun b => negb (ends_authority b)) (host ++ [COLON] ++ dec port) = true ->
  match path with [] => False | b :: _ => ends_authority b = true end ->
  parse_absolute_uri (ascii_bytes "http://" ++ (host ++ [COLON] ++ dec port) ++ path) = Ok (host, port, path).
Proof.
  intros Hne H91 Hp Ha Hpath. unfold parse_absolute_uri. rewrite strip_scheme_http. cbn [mbind result_bind].
  rewrite (cut_authority_app _ _ Ha Hpath). cbn [fst snd]. destruct path as [|b path]; [done|]. cbn [is_nil].
  by rewrite parse_authority_name.
Qed.

Lemma parse_forward method host port path version tail (h := forward_line method host port path version ++ CRLF2 ++ tail) :
  host <> [] -> head host <> Some 91 -> 0 < port <= u16_max ->
  forallb (fun b => negb (ends_authority b)) (host ++ [COLON] ++ dec port) = true ->
  match path with [] => False | b :: _ => ends_authority b = true end ->
  method <> ascii_bytes "CONNECT" -> has_byte SP method = false ->
  has_byte SP host = false -> has_byte SP path = false -> has_byte SP version = false ->
  has_byte 13 (forward_line method host port path version) = false ->
  utf8_ok (forward_line method host port path version) = true -> whole_head h ->
  parse_request h = Ok {| hr_kind := Forward; hr_host := host; hr_port := port; hr_head_len := blen h;
                          hr_upstream_head := origin_line method path version ++ CRLF2 ++ tail |}.
Proof.
  intros Hne H91 Hp Ha Hpath Hm Hs0 Hs1 Hs2 Hs3 Hr Hu Hh. destruct (parse_line _ _ Hh Hr Hu) as (E1 & E2 & E3).
  unfold parse_request. rewrite Hh. cbn [mbind result_bind]. unfold h. rewrite E1. cbn [ok_or mbind result_bind].
  rewrite E2. cbn [ok_or mbind result_bind]. rewrite E3.
  assert (split_on SP (forward_line method host port path version) =
          [method; ascii_bytes "http://" ++ (host ++ [COLON] ++ dec port) ++ path; version]) as ->.
  { unfold forward_line. change ([SP] ++ ?x) with (SP :: x). rewrite split_on_app by done. f_equal.
    change ([SP] ++ version) with (SP :: version). rewrite split_on_app.
    - by rewrite split_on_single.
    - rewrite !has_byte_app, Hs1, Hs2, (dec_no_byte SP) by (done || lia). done. }
  rewrite bool_decide_eq_false_2 by done. rewrite parse_absolute_uri_http by done. cbn [mbind result_bind fst snd].
  unfold origin_line. by rewrite <- !app_assoc.
Qed.

(** ** A request that is read *)

Lemma str_find_prefix p a b k :
  str_find p (a ++ b) = Some k -> (k + length p <= length a)%nat -> str_find p a = Some k.
Proof.
  intros H Hk. destruct (str_find p a) as [k'|] eqn:E.
  - rewrite (str_find_app _ _ b _ E) in H. by simplify_eq.
  - destruct (str_find_at _ _ _ H) as (r & Hr & Hl). rewrite take_app_le in Hr, Hl by lia.
    assert (drop k a = p ++ take (length a - k - length p) r) as Hd.
    { apply (f_equal (take (length a))) in Hr. rewrite take_app_length in Hr.
      rewrite take_app in Hr. rewrite (take_ge (take k a)) in Hr by lia. rewrite Hl in Hr.
      rewrite take_app in Hr. rewrite (take_ge p) in Hr by lia.
      rewrite <- (take_drop k a) in Hr at 1. by apply app_inv_head in Hr. }
    destruct (str_find_occurs p (take k a) (take (length a - k - length p) r)) as [k' Hk'].
    rewrite <- Hd, take_drop in Hk'. congruence.
Qed.
Lemma head_end_prefix a b n :
  head_end (a ++ b) = Ok n -> n <= MAX_HEAD ->
  head_end a = if n <=? blen a then Ok n else Err Incomplete.
Proof.
  intros H Hm. unfold head_end in *. destruct (str_find BLANK_LINE (a ++ b)) as [k|] eqn:E; [|by case_match].
  apply (inj Ok) in H. subst n. destruct (Z.leb_spec (Z.of_nat k + 4) (blen a)) as [Hk|Hk].
  - by rewrite (str_find_prefix _ _ _ _ E) by (change (length BLANK_LINE) with 4%nat; lia).
  - destruct (str_find BLANK_LINE a) as [k'|] eqn:E'.
    + rewrite (str_find_app _ _ _ _ E') in E. simplify_eq. destruct (str_find_at _ _ _ E') as (r & Hr & Hl).
      apply (f_equal length) in Hr. rewrite !length_app, Hl in Hr. change (length BLANK_LINE) with 4%nat in Hr. lia.
    + destruct (Z.leb_spec MAX_HEAD (blen a)); [lia|done].
Qed.

(** What a read returns: at least a byte, at most the 1024 of its buffer. *)
Definition is_read (chunk : bytes) : Prop := 0 < blen chunk <= 1024.

(** A request whose head fits is read, however it arrives; less than a read of what follows the
    head is in the buffer with it. *)
Lemma read_http_request_complete h body req reads :
  whole_head h -> blen h <= MAX_HEAD -> parse_request h = Ok req -> Forall is_read reads ->
  forall buf, buf ++ concat reads = h ++ body -> blen buf < blen h ->
  exists lost rest, read_http_request buf reads = Ok (req, h ++ lost, rest) /\ body = lost ++ concat rest /\
                    blen lost < 1024.
Proof.
  intros Hh Hm Hreq. induction 1 as [|chunk reads Hc _ IH]; intros buf Hin Hlt; cbn [read_http_request].
  { cbn in Hin. rewrite app_nil_r in Hin. subst buf. rewrite length_app in Hlt. lia. }
  assert (head_end (h ++ body) = Ok (blen h)) as Hhe by (by apply head_end_app).
  assert (parse_request buf = Err Incomplete) as ->.
  { unfold parse_request. rewrite <- Hin in Hhe. rewrite (head_end_prefix _ _ _ Hhe Hm).
    by rewrite (proj2 (Z.leb_gt _ _)) by lia. }
  destruct Hc as [Hc1 Hc2]. destruct chunk as [|c chunk]; [cbn in Hc1; lia|]. set (ch := c :: chunk) in *.
  cbn [is_nil]. change (is_nil ch) with false. cbn [orb].
  destruct (Z.ltb_spec MAX_REQUEST_HEAD (blen (buf ++ ch))) as [Hb|_].
  { rewrite length_app in Hb. unfold MAX_REQUEST_HEAD, MAX_HEAD in *. lia. }
  cbn [concat] in Hin. rewrite app_assoc in Hin.
  destruct (Z.ltb_spec (blen (buf ++ ch)) (blen h)) as [Hs|Hs].
  - by apply IH.
  - assert (exists lost, buf ++ ch = h ++ lost /\ body = lost ++ concat reads) as (lost & Hl & Hbody).
    { apply app_eq_inv in Hin as [(k & H1 & H2)|(k & H1 & H2)].
      - by exists k.
      - assert (k = []) as ->. { apply (f_equal length) in H1. rewrite length_app in H1. destruct k; [done|]. cbn in H1. lia. }
        exists []. rewrite app_nil_r in H1. rewrite app_nil_r. by rewrite H1, H2. }
    exists lost, reads. rewrite Hl.
    assert (blen (buf ++ ch) = blen (h ++ lost)) as Hlen by (by rewrite Hl). rewrite !length_app in Hlen.
    split_and!; [|done|lia]. 
    assert (parse_request (h ++ lost) = Ok req) as Hp by (by rewrite (parse_request_app _ _ _ Hh)).
    destruct reads; cbn [read_http_request]; by rewrite Hp.
Qed.

Lemma inet_decode_encode port host :
  0 <= port <= u16_max -> 0 < blen host <= MAX_HOST -> utf8_ok host = true ->
  inet_decode_request MAX_HOST (inet_encode_request TCP port host) = Some (TCP, port, host).
Proof.
  intros Hp Hh Hu. unfold inet_encode_request.
  destruct (be_bytes 2 port) as [|hi [|lo []]] eqn:E;
    try (apply (f_equal length) in E; rewrite length_be_bytes in E; done).
  cbn [app inet_decode_request]. destruct host as [|b host]; [cbn in Hh; lia|]. cbn [is_nil orb].
  destruct (Z.ltb_spec MAX_HOST (blen (b :: host))); [lia|]. unfold from_utf8. rewrite Hu. cbn [mbind option_bind].
  rewrite <- E, be_val_be_bytes by (unfold u16_max in Hp; lia). done.
Qed.

Lemma detect_first reads b s :
  Forall is_read reads -> concat reads = b :: s -> take 1 (concat (take 1 reads)) = [b].
Proof.
  destruct 1 as [|chunk reads Hc _]; [done|]. destruct chunk as [|c chunk]; [destruct Hc as [Hc _]; cbn in Hc; lia|].
  cbn. by intros [= -> _].
Qed.

(** How an HTTP connection is served, given its request. *)
Definition http_served (grants : bytes -> bool) (req : HttpRequest) (later : bytes) : Served :=
  let request := inet_encode_request TCP (hr_port req) (hr_host req) in
  if grants request then
    {| sd_request := Some request;
       sd_reply := match hr_kind req with Connect => ESTABLISHED | Forward => [] end;
       sd_upstream := match hr_kind req with Connect => [] | Forward => hr_upstream_head req end ++ later |}
  else {| sd_request := Some request; sd_reply := BAD_GATEWAY; sd_upstream := [] |}.

Lemma handle_http_served grants h b s body req reads :
  h = b :: s -> is_upper b = true ->
  whole_head h -> blen h <= MAX_HEAD -> parse_request h = Ok req -> Forall is_read reads ->
  concat reads = h ++ body ->
  exists lost later, handle grants reads = http_served grants req later /\ body = lost ++ later /\ blen lost < 1024.
Proof.
  intros -> Hb Hh Hm Hreq Hr Hin.
  destruct (read_http_request_complete _ body req reads Hh Hm Hreq Hr []) as (lost & rest & Hread & Hbody & Hl);
    [done|cbn; lia|].
  exists lost, (concat rest). split_and!; [|done|done]. unfold handle. rewrite (detect_first _ _ _ Hr Hin).
  cbn [detect]. rewrite Hb. unfold is_upper in Hb. apply andb_true_iff in Hb as [H1%Z.leb_le H2%Z.leb_le].
  rewrite !(proj2 (Z.eqb_neq b _)) by lia. unfold handle_http. rewrite Hread. unfold broker, http_served.
  by destruct (grants _), (hr_kind req).
Qed.

(** * Properties *)

(** SOCKS5: the name and port in a well-formed request are what the daemon is asked to reach. *)
Theorem socks5_destination_exact grants methods host port rest reads
    (request := inet_encode_request TCP port host) :
  blen methods <= 255 -> 0 < blen host <= MAX_HOST -> utf8_ok host = true -> 0 <= port <= u16_max ->
  Forall is_read reads -> concat reads = socks5_hello methods ++ socks5_domain host port ++ rest ->
  handle grants reads =
    (if grants request
     then {| sd_request := Some request; sd_reply := [5; 0] ++ socks5_reply REP_SUCCEEDED; sd_upstream := rest |}
     else {| sd_request := Some request; sd_reply := [5; 0] ++ socks5_reply REP_GENERAL_FAILURE; sd_upstream := [] |}) /\
  inet_decode_request MAX_HOST request = Some (TCP, port, host).
Proof.
  intros Hm Hh Hu Hp Hr Hin. split; [|by apply inet_decode_encode].
  unfold handle. rewrite (detect_first _ _ _ Hr Hin). cbn [detect Z.eqb Pos.eqb]. unfold handle_socks5.
  rewrite Hin, socks5_greeted by done. unfold socks5_domain, socks5_request.
  change ([5; 1; 0; 3; blen host] ++ host ++ be_bytes 2 port) with ([5; 1; 0; 3] ++ ([blen host] ++ host ++ be_bytes 2 port)).
  rewrite <- !app_assoc, (exact_app 4) by done. cbn [Z.eqb Pos.eqb negb]. rewrite (exact_app 1 [blen host]) by done.
  rewrite be_byte, Nat2Z.id, (exact_app (length host) host) by done. unfold from_utf8. rewrite Hu.
  rewrite finish_Ok by done. cbn [sk_dest sk_written sk_rest]. unfold broker, request. by destruct (grants _).
Qed.

(** A SOCKS5 client for [example.com:443] that sends its first bytes with the request. *)
Definition sample_socks5 : list bytes :=
  [socks5_hello [0]; take 9 (socks5_domain (ascii_bytes "example.com") 443);
   drop 9 (socks5_domain (ascii_bytes "example.com") 443) ++ [22; 3; 1]].
Lemma sample_socks5_reads : Forall is_read sample_socks5.
Proof. repeat constructor; vm_compute; congruence. Qed.
Lemma socks5_destination_exact_witness :
  handle (fun _ => true) sample_socks5 =
    {| sd_request := Some ([0; 1; 187] ++ ascii_bytes "example.com");
       sd_reply := [5; 0; 5; 0; 0; 1; 0; 0; 0; 0; 0; 0]; sd_upstream := [22; 3; 1] |}.
Proof.
  apply (socks5_destination_exact (fun _ => true) [0] (ascii_bytes "example.com") 443 [22; 3; 1] sample_socks5);
    try (vm_compute; split; congruence || reflexivity); try (vm_compute; congruence); try reflexivity.
  apply sample_socks5_reads.
Defined.

(** [CONNECT]: the authority of the request line is what the daemon is asked to reach, whatever the
    headers and however the head arrives; the tunnel carries what follows, less at most the part of
    one read that came with the end of the head. *)
Theorem connect_destination_exact grants host port version tail body reads
    (h := connect_line host port version ++ CRLF2 ++ tail)
    (request := inet_encode_request TCP port host) :
  0 < blen host <= MAX_HOST -> head host <> Some 91 -> 0 < port <= u16_max ->
  has_byte SP host = false -> has_byte SP version = false ->
  has_byte 13 (connect_line host port version) = false ->
  utf8_ok host = true -> utf8_ok (connect_line host port version) = true -> whole_head h -> blen h <= MAX_HEAD ->
  Forall is_read reads -> concat reads = h ++ body ->
  inet_decode_request MAX_HOST request = Some (TCP, port, host) /\
  exists lost later, body = lost ++ later /\ blen lost < 1024 /\
  handle grants reads =
    if grants request
    then {| sd_request := Some request; sd_reply := ESTABLISHED; sd_upstream := later |}
    else {| sd_request := Some request; sd_reply := BAD_GATEWAY; sd_upstream := [] |}.
Proof.
  intros Hh H91 Hp Hs1 Hs2 Hcr Hu Hul Hw Hm Hr Hin. split; [apply inet_decode_encode; [lia|done|done]|].
  assert (host <> []) as Hne by (intros ->; cbn in Hh; lia).
  pose proof (parse_connect host port version tail Hne H91 Hp Hs1 Hs2 Hcr Hul Hw) as Hreq.
  destruct (handle_http_served grants h 67 (drop 1 h) body _ reads eq_refl eq_refl Hw Hm Hreq Hr Hin)
    as (lost & later & E & Hbody & Hl).
  exists lost, later. split_and!; [done|done|]. rewrite E. unfold http_served. cbn [hr_kind hr_port hr_host].
  fold request. by destruct (grants request).
Qed.

Definition sample_tail : bytes := ascii_bytes "Host: example.com" ++ BLANK_LINE.
Definition sample_connect : bytes :=
  connect_line (ascii_bytes "example.com") 443 (ascii_bytes "HTTP/1.1") ++ CRLF2 ++ sample_tail.
Lemma connect_destination_exact_witness :
  inet_decode_request MAX_HOST (inet_encode_request TCP 443 (ascii_bytes "example.com")) =
    Some (TCP, 443, ascii_bytes "example.com") /\
  exists lost later, [22; 3; 1] = lost ++ later /\ blen lost < 1024 /\
  handle (fun _ => true) [take 20 sample_connect; drop 20 sample_connect; [22; 3; 1]] =
    {| sd_request := Some ([0; 1; 187] ++ ascii_bytes "example.com"); sd_reply := ESTABLISHED; sd_upstream := later |}.
Proof.
  apply (connect_destination_exact (fun _ => true) (ascii_bytes "example.com") 443 (ascii_bytes "HTTP/1.1") sample_tail
           [22; 3; 1]); try (vm_compute; split; congruence || reflexivity); try (vm_compute; congruence); try reflexivity.
  repeat constructor; vm_compute; congruence.
Defined.

(** A plain request in absolute form is sent to the host and port of its URI, in origin form, its
    headers byte for byte. *)
Theorem forwarded_head_exact grants method host port path version tail body reads
    (h := forward_line method host port path version ++ CRLF2 ++ tail)
    (request := inet_encode_request TCP port host) :
  0 < blen host <= MAX_HOST -> head host <> Some 91 -> 0 < port <= u16_max ->
  forallb (fun b => negb (ends_authority b)) (host ++ [COLON] ++ dec port) = true ->
  match path with [] => False | b :: _ => ends_authority b = true end ->
  method <> ascii_bytes "CONNECT" -> match method with [] => False | b :: _ => is_upper b = true end ->
  has_byte SP method = false -> has_byte SP host = false -> has_byte SP path = false -> has_byte SP version = false ->
  has_byte 13 (forward_line method host port path version) = false ->
  utf8_ok host = true -> utf8_ok (forward_line method host port path version) = true ->
  whole_head h -> blen h <= MAX_HEAD -> Forall is_read reads -> concat reads = h ++ body ->
  inet_decode_request MAX_HOST request = Some (TCP, port, host) /\
  exists lost later, body = lost ++ later /\ blen lost < 1024 /\
  handle grants reads =
    if grants request
    then {| sd_request := Some request; sd_reply := [];
            sd_upstream := origin_line method path version ++ CRLF2 ++ tail ++ later |}
    else {| sd_request := Some request; sd_reply := BAD_GATEWAY; sd_upstream := [] |}.
Proof.
  intros Hh H91 Hp Ha Hpath Hm Hup Hs0 Hs1 Hs2 Hs3 Hcr Hu Hul Hw Hmax Hr Hin.
  split; [apply inet_decode_encode; [lia|done|done]|].
  assert (host <> []) as Hne by (intros ->; cbn in Hh; lia).
  pose proof (parse_forward method host port path version tail Hne H91 Hp Ha Hpath Hm Hs0 Hs1 Hs2 Hs3 Hcr Hul Hw) as Hreq.
  destruct method as [|b method]; [done|].
  destruct (handle_http_served grants h b (drop 1 h) body _ reads eq_refl Hup Hw Hmax Hreq Hr Hin)
    as (lost & later & E & Hbody & Hl).
  exists lost, later. split_and!; [done|done|]. rewrite E. unfold http_served.
  cbn [hr_kind hr_port hr_host hr_upstream_head]. fold request. rewrite <- !app_assoc. by destruct (grants request).
Qed.

Definition sample_forward : bytes :=
  forward_line (ascii_bytes "POST") (ascii_bytes "example.com") 8080 (ascii_bytes "/a?b") (ascii_bytes "HTTP/1.1")
    ++ CRLF2 ++ sample_tail.
Lemma forwarded_head_exact_witness :
  inet_decode_request MAX_HOST (inet_encode_request TCP 8080 (ascii_bytes "example.com")) =
    Some (TCP, 8080, ascii_bytes "example.com") /\
  exists lost later, ascii_bytes "body" = lost ++ later /\ blen lost < 1024 /\
  handle (fun _ => true) [sample_forward; ascii_bytes "body"] =
    {| sd_request := Some ([0; 31; 144] ++ ascii_bytes "example.com"); sd_reply := [];
       sd_upstream := ascii_bytes "POST /a?b HTTP/1.1" ++ CRLF2 ++ sample_tail ++ later |}.
Proof.
  apply (forwarded_head_exact (fun _ => true) (ascii_bytes "POST") (ascii_bytes "example.com") 8080 (ascii_bytes "/a?b")
           (ascii_bytes "HTTP/1.1") sample_tail (ascii_bytes "body"));
    try (vm_compute; split; congruence || reflexivity); try (vm_compute; congruence); try reflexivity.
  repeat constructor; vm_compute; congruence.
Defined.

(** The part of a request body that arrives with the end of the head is not sent: a request read in
    one piece reaches the server without its body, the same whatever the body was. *)
Theorem forwarded_body_lost grants h b s req body :
  h = b :: s -> is_upper b = true -> whole_head h -> blen h <= MAX_HEAD -> parse_request h = Ok req ->
  blen (h ++ body) <= 1024 ->
  handle grants [h ++ body] = handle grants [h].
Proof.
  intros -> Hb Hh Hm Hreq Hlen.
  assert (forall body, blen ((b :: s) ++ body) <= 1024 ->
          handle grants [(b :: s) ++ body] = http_served grants req []) as H.
  { clear body Hlen. intros body Hlen. unfold handle.
    assert (take 1 (concat (take 1 [(b :: s) ++ body])) = [b]) as -> by done.
    cbn [detect]. rewrite Hb. unfold is_upper in Hb. apply andb_true_iff in Hb as [H1%Z.leb_le H2%Z.leb_le].
    rewrite !(proj2 (Z.eqb_neq b _)) by lia. unfold handle_http. cbn [read_http_request].
    change (parse_request []) with (Err (A:=HttpRequest) Incomplete). cbn [is_nil app].
    destruct (Z.ltb_spec MAX_REQUEST_HEAD (blen (b :: s ++ body))) as [Hx|_];
      [unfold MAX_REQUEST_HEAD in Hx; cbn [app] in Hlen; lia|].
    change (b :: s ++ body) with ((b :: s) ++ body). rewrite (parse_request_app _ body _ Hh), Hreq.
    unfold broker, http_served. by destruct (grants _), (hr_kind req). }
  rewrite (H body Hlen), <- (app_nil_r (b :: s)), H; [done|]. rewrite app_nil_r. rewrite length_app in Hlen. lia.
Qed.

Lemma forwarded_body_lost_witness :
  handle (fun _ => true) [sample_forward ++ ascii_bytes "body"] = handle (fun _ => true) [sample_forward] /\
  sd_upstream (handle (fun _ => true) [sample_forward ++ ascii_bytes "body"]) =
    ascii_bytes "POST /a?b HTTP/1.1" ++ CRLF2 ++ sample_tail.
Proof.
  destruct (parse_request sample_forward) as [req|] eqn:E; [|vm_compute in E; congruence].
  split; [|reflexivity].
  apply (forwarded_body_lost (fun _ => true) sample_forward 80 (drop 1 sample_forward) req (ascii_bytes "body"));
    try reflexivity; [vm_compute; congruence|exact E|vm_compute; congruence].
Defined.
