(* ===== verification/AuditTime.v ===== *)
(** Time stamps and instance identifiers of the audit stream
    ([kennel-lib-audit/src/time.rs], [uuidv7.rs]).

    A text is the list of its characters.  [i64] arithmetic is [wrapping_*], written
    out.  The calendar is checked against a reference: the length of every year and
    month before a date.

    Theorems: a time stamp is the date and time of its instant, and reads back; an
    identifier carries its creation time and the identifiers of a host sort by it. *)

From S2P Require Import Prelude Bytes Str Source Resolve Translate Text.
Open Scope Z_scope.

(** * [time.rs] *)

Definition wrap64 (z : Z) : Z := (z + 9223372036854775808) mod 18446744073709551616 - 9223372036854775808.
Definition wrapping_add (a b : Z) : Z := wrap64 (a + b).
Definition wrapping_sub (a b : Z) : Z := wrap64 (a - b).
Definition wrapping_mul (a b : Z) : Z := wrap64 (a * b).

Definition SECS_PER_DAY : Z := 86400.
(** [u32::try_from(n).unwrap_or(1)]. *)
Definition to_u32_or_1 (n : Z) : Z := if (0 <=? n) && (n <=? u32_max) then n else 1.

Definition civil_from_days (days : Z) : Z * Z * Z :=
  let z := wrapping_add days 719468 in
  let era := (if 0 <=? z then z else wrapping_sub z 146096) / 146097 in
  let doe := wrapping_sub z (wrapping_mul era 146097) in
  let yoe := wrapping_sub (wrapping_add (wrapping_sub doe (doe / 1460)) (doe / 36524)) (doe / 146096) / 365 in
  let year := wrapping_add yoe (wrapping_mul era 400) in
  let doy := wrapping_sub doe (wrapping_sub (wrapping_add (wrapping_mul yoe 365) (yoe / 4)) (yoe / 100)) in
  let mp := wrapping_add (wrapping_mul doy 5) 2 / 153 in
  let day := wrapping_add (wrapping_sub doy (wrapping_add (wrapping_mul mp 153) 2 / 5)) 1 in
  let month := if mp <? 10 then wrapping_add mp 3 else wrapping_sub mp 9 in
  let year := if month <=? 2 then wrapping_add year 1 else year in
  (year, to_u32_or_1 month, to_u32_or_1 day).

(** [{n:0w}]: the sign, then zeros up to the width. *)
Definition zeros (n : nat) : chars := repeat 48 n.
Definition pad (w : nat) (n : Z) : chars :=
  if n <? 0 then 45 :: zeros (w - 1 - length (dec (- n))) ++ dec (- n)
  else zeros (w - length (dec n)) ++ dec n.

Definition format_rfc3339_micros (unix_seconds micros : Z) : chars :=
  let days := unix_seconds / SECS_PER_DAY in
  let secs_of_day := unix_seconds mod SECS_PER_DAY in
  let hour := secs_of_day / 3600 in
  let minute := secs_of_day / 60 mod 60 in
  let second := secs_of_day mod 60 in
  let '(year, month, day) := civil_from_days days in
  pad 4 year ++ str "-" ++ pad 2 month ++ str "-" ++ pad 2 day ++ str "T" ++
  pad 2 hour ++ str ":" ++ pad 2 minute ++ str ":" ++ pad 2 second ++ str "." ++
  pad 6 (Z.min micros 999999) ++ str "Z".

(** [SystemClock::now_unix_micros], from the time since the epoch: [inl] seconds and
    microseconds after it, [inr] the seconds before it. *)
Definition system_clock (since : (Z * Z) + Z) : Z * Z :=
  match since with
  | inl (secs, micros) => (if secs <=? 9223372036854775807 then secs else 9223372036854775807, micros)
  | inr secs => (if secs <=? 9223372036854775807 then wrap64 (- secs) else - 9223372036854775808, 0)
  end.

(** * [uuidv7.rs] *)

Definition TS_MASK : Z := 281474976710655.
Definition uuid_bytes (unix_ms : Z) (rand : bytes) : bytes :=
  match be_bytes 8 (Z.land unix_ms TS_MASK), rand with
  | [_; _; m0; m1; m2; m3; m4; m5], [r0; r1; r2; r3; r4; r5; r6; r7; r8; r9] =>
      [m0; m1; m2; m3; m4; m5; Z.lor 112 (Z.land r0 15); r1; Z.lor 128 (Z.land r2 63); r3; r4; r5; r6; r7; r8; r9]
  | _, _ => []
  end.
Definition dash_before (i : nat) : bool := existsb (Nat.eqb i) [4; 6; 8; 10]%nat.
Fixpoint uuid_text (i : nat) (bs : bytes) : chars :=
  match bs with
  | [] => []
  | b :: bs => (if dash_before i then [45] else []) ++ hex2 b ++ uuid_text (S i) bs
  end.
Definition format_uuid_v7 (unix_ms : Z) (rand : bytes) : chars := uuid_text 0 (uuid_bytes unix_ms rand).

(** * The reference calendar *)

Definition is_leap (y : Z) : bool := (y mod 4 =? 0) && (negb (y mod 100 =? 0) || (y mod 400 =? 0)).
(** Days from 0001-01-01 to the first of January of [y]. *)
Definition year_days (y : Z) : Z := 365 * (y - 1) + (y - 1) / 4 - (y - 1) / 100 + (y - 1) / 400.
Definition month_lengths : list Z := [31; 28; 31; 30; 31; 30; 31; 31; 30; 31; 30; 31].
Definition month_len (y m : Z) : Z :=
  nth (Z.to_nat (m - 1)) month_lengths 0 + (if (m =? 2) && is_leap y then 1 else 0).
(** Days of the months of [y] before [m]. *)
Definition month_days (y m : Z) : Z :=
  foldr Z.add 0 (take (Z.to_nat (m - 1)) month_lengths) + (if (2 <? m) && is_leap y then 1 else 0).
(** Days since 1970-01-01. *)
Definition days_of_date (y m d : Z) : Z := year_days y + month_days y m + (d - 1) - year_days 1970.
Definition date_ok (y m d : Z) : Prop := 1 <= m <= 12 /\ 1 <= d <= month_len y m.

(** ** No intermediate wraps *)

Lemma wrap64_id z : in_i64 z -> wrap64 z = z.
Proof. unfold wrap64, in_i64. intros H. rewrite Z.mod_small by lia. lia. Qed.

Definition DAYS_MAX : Z := 1125899906842624.

(** Years of an era, in days of the era: a year starts in March. *)
Definition era_year (y : Z) : Z := 365 * y + y / 4 - y / 100 + y / 400.
Definition yoe_num (doe : Z) : Z := doe - doe / 1460 + doe / 36524 - doe / 146096.

Lemma yoe_num_mono a b : 0 <= a <= b -> yoe_num a <= yoe_num b.
Proof.
  intros H. unfold yoe_num. change 146096 with (36524 * 4). rewrite <- !Z.div_div by lia.
  assert (a - a / 1460 <= b - b / 1460) by (Z.to_euclidean_division_equations; lia).
  assert (a / 36524 <= b / 36524) by (apply Z.div_le_mono; lia).
  revert H0 H1. generalize (a / 36524) (b / 36524). intros p q Hb Hpq.
  assert (p - p / 4 <= q - q / 4) by (Z.to_euclidean_division_equations; lia). lia.
Qed.

(** The years of an era cover it. *)
Lemma era_year_of doe : 0 <= doe < 146097 -> exists y, 0 <= y < 400 /\ era_year y <= doe < era_year (y + 1).
Proof.
  intros H. assert (forall n : nat, doe < era_year (Z.of_nat n) ->
    exists y, 0 <= y < Z.of_nat n /\ era_year y <= doe < era_year (y + 1)) as Hn.
  { induction n as [|n IH]; intros Hd; [change (doe < 0) in Hd; lia|].
    destruct (Z.ltb_spec doe (era_year (Z.of_nat n))) as [Hlt|Hge].
    - destruct (IH Hlt) as (y & Hy & He). exists y. split; [lia|done].
    - exists (Z.of_nat n). rewrite Nat2Z.inj_succ in Hd. split; [lia|]. split; [done|]. exact Hd. }
  apply (Hn 400%nat). change (doe < 146097). lia.
Qed.
Definition yoe_ok (y : Z) : bool :=
  (365 * y <=? yoe_num (era_year y)) && (yoe_num (era_year (y + 1) - 1) <? 365 * (y + 1)).
Lemma yoe_all : forallb yoe_ok (seqZ 0 400) = true.
Proof. vm_compute. reflexivity. Qed.
Lemma yoe_exact doe y :
  0 <= y < 400 -> era_year y <= doe < era_year (y + 1) -> yoe_num doe / 365 = y.
Proof.
  intros Hy Hd. pose proof yoe_all as Ha. rewrite forallb_forall in Ha.
  specialize (Ha y). unfold yoe_ok in Ha. rewrite <- list_elem_of_In, elem_of_seqZ in Ha. specialize (Ha ltac:(lia)).
  apply andb_true_iff in Ha as [H1%Z.leb_le H2%Z.ltb_lt].
  assert (0 <= era_year y) as H0 by (unfold era_year; Z.to_euclidean_division_equations; lia).
  pose proof (yoe_num_mono (era_year y) doe ltac:(lia)). pose proof (yoe_num_mono doe (era_year (y + 1) - 1) ltac:(lia)).
  symmetry. apply (Z.div_unique_pos _ _ _ (yoe_num doe - 365 * y)); lia.
Qed.

(** The months of a year from March: the last day is there in leap years only. *)
Definition month_of (doy : Z) : Z := let mp := (doy * 5 + 2) / 153 in if mp <? 10 then mp + 3 else mp - 9.
Definition day_of (doy : Z) : Z := let mp := (doy * 5 + 2) / 153 in doy - (mp * 153 + 2) / 5 + 1.
Definition doy_ok (doy : Z) : bool :=
  let m := month_of doy in let d := day_of doy in
  (1 <=? m) && (m <=? 12) && (1 <=? d) && (d <=? 31) &&
  (if m =? 2 then (d <=? 28) || (doy =? 365) && (d =? 29) else d <=? nth (Z.to_nat (m - 1)) month_lengths 0) &&
  (foldr Z.add 0 (take (Z.to_nat (m - 1)) month_lengths) + (d - 1) =? if m <=? 2 then doy - 306 else doy + 59) &&
  (doy <=? if m <=? 2 then 365 else 305).
Lemma doy_all : forallb doy_ok (seqZ 0 366) = true.
Proof. vm_compute. reflexivity. Qed.

Lemma months_nonneg n : 0 <= foldr Z.add 0 (take n month_lengths).
Proof. do 13 (destruct n as [|n]; [by vm_compute|]). by vm_compute. Qed.

(** ** The date of a day *)

Definition civil_plain (z : Z) : Z * Z * Z :=
  let era := z / 146097 in
  let doe := z mod 146097 in
  let yoe := yoe_num doe / 365 in
  let doy := doe - (yoe * 365 + yoe / 4 - yoe / 100) in
  let y := yoe + era * 400 in
  (if month_of doy <=? 2 then y + 1 else y, month_of doy, day_of doy).

Lemma year_days_succ y : year_days (y + 1) = 365 * y + y / 4 - y / 100 + y / 400.
Proof. unfold year_days. by replace (y + 1 - 1) with y by lia. Qed.
Lemma leap_step y : year_days y + (if is_leap y then 1 else 0) + 365 = year_days (y + 1).
Proof.
  rewrite year_days_succ. unfold year_days, is_leap.
  assert (forall k, 0 < k -> (y - 1) / k = y / k - (if y mod k =? 0 then 1 else 0)) as Hk.
  { intros k Hk. destruct (Z.eqb_spec (y mod k) 0) as [H0|H0]; pose proof (Z.mod_pos_bound y k Hk);
      pose proof (Z.div_mod y k ltac:(lia)).
    - symmetry. apply (Z.div_unique_pos _ _ _ (k - 1)); nia.
    - symmetry. apply (Z.div_unique_pos _ _ _ (y mod k - 1)); lia. }
  rewrite !Hk by lia.
  destruct (Z.eqb_spec (y mod 4) 0), (Z.eqb_spec (y mod 100) 0), (Z.eqb_spec (y mod 400) 0); cbn [andb orb negb];
    try lia; exfalso; Z.to_euclidean_division_equations; lia.
Qed.

Lemma civil_plain_exact z (c := civil_plain z) :
  date_ok c.1.1 c.1.2 c.2 /\ days_of_date c.1.1 c.1.2 c.2 = z - 719468 /\ c.2 <= 31 /\
  0 <= z - 306 - year_days c.1.1 <= 365.
Proof.
  subst c. unfold civil_plain. cbn [fst snd].
  pose proof (Z.mod_pos_bound z 146097 ltac:(lia)) as Hdoe. pose proof (Z.div_mod z 146097 ltac:(lia)) as Hz.
  set (era := z / 146097) in *. set (doe := z mod 146097) in *.
  destruct (era_year_of doe Hdoe) as (y & Hy & Hd). rewrite (yoe_exact doe y Hy Hd).
  assert (era_year y = y * 365 + y / 4 - y / 100) as Ey.
  { unfold era_year. rewrite (Z.div_small y 400) by lia. lia. }
  rewrite <- Ey. set (doy := doe - era_year y).
  assert (era_year (y + 1) - era_year y = 365 + if is_leap (y + 1 + era * 400) then 1 else 0) as Elen.
  { pose proof (leap_step (y + 1)) as Hl. rewrite !year_days_succ in Hl. unfold era_year.
    assert (is_leap (y + 1 + era * 400) = is_leap (y + 1)) as ->.
    { unfold is_leap. replace (era * 400) with (era * 100 * 4) at 1 by lia. rewrite Z.mod_add by lia.
      replace (era * 400) with (era * 4 * 100) at 1 by lia. rewrite !Z.mod_add by lia. done. }
    lia. }
  assert (0 <= doy < 366) as Hdoy by (subst doy; destruct (is_leap _); lia).
  pose proof doy_all as Ha. rewrite forallb_forall in Ha. specialize (Ha doy).
  rewrite <- list_elem_of_In, elem_of_seqZ in Ha. specialize (Ha ltac:(lia)). unfold doy_ok in Ha.
  set (m := month_of doy) in *. set (d := day_of doy) in *.
  repeat (apply andb_true_iff in Ha as [Ha ?]). zbool.
  set (Y := y + era * 400) in *.
  assert (year_days (Y + 1) = era_year y + era * 146097) as EY.
  { rewrite year_days_succ. unfold Y, era_year.
    replace (era * 400) with (era * 100 * 4) at 2 by lia. rewrite Z.div_add by lia.
    replace (era * 400) with (era * 4 * 100) at 2 by lia. rewrite Z.div_add by lia.
    rewrite Z.div_add by lia. lia. }
  assert (is_leap (Y + 1) = is_leap (y + 1 + era * 400)) as El by (f_equal; unfold Y; lia).
  rewrite <- El in Elen. pose proof (leap_step Y) as Hl. change (year_days 1970) with 719162.
  unfold date_ok, days_of_date, month_len, month_days.
  change (year_days 1970) with 719162. pose proof (months_nonneg (Z.to_nat (m - 1))).
  destruct (Z.leb_spec m 2) as [Hm|Hm].
  - rewrite (proj2 (Z.ltb_ge 2 m)) by lia. cbn [andb]. destruct (Z.eqb_spec m 2) as [E2|E2]; cbn [andb].
    + assert (1 <= d <= nth (Z.to_nat (m - 1)) month_lengths 0 + if is_leap (Y + 1) then 1 else 0) as Hlen.
      { rewrite E2. change (nth _ _ _) with 28. split; [lia|].
        match goal with H : _ || _ = true |- _ => apply orb_true_iff in H as [H|H] end; zbool.
        - destruct (is_leap _); lia.
        - destruct (is_leap _); lia. }
      split_and!; lia.
    + split_and!; lia.
  - rewrite (proj2 (Z.ltb_lt 2 m)) by lia. rewrite (proj2 (Z.eqb_neq m 2)) in * by lia. cbn [andb]. zbool.
    split_and!; try lia; destruct (is_leap Y); lia.
Qed.

Tactic Notation "nowrap" uconstr(e) := rewrite (wrap64_id e) by (unfold in_i64; lia).
Lemma civil_from_days_plain days :
  -719468 <= days <= DAYS_MAX -> civil_from_days days = civil_plain (days + 719468).
Proof.
  unfold DAYS_MAX. intros H. pose proof (civil_plain_exact (days + 719468)) as He. unfold civil_plain in *.
  unfold civil_from_days, wrapping_add, wrapping_sub, wrapping_mul. nowrap (days + 719468).
  set (z := days + 719468) in *. rewrite (proj2 (Z.leb_le 0 z)) by lia.
  pose proof (Z.mod_pos_bound z 146097 ltac:(lia)) as Hdoe. pose proof (Z.div_mod z 146097 ltac:(lia)) as Hz.
  assert (0 <= z / 146097 <= 10000000000) as Hera by (Z.to_euclidean_division_equations; lia).
  nowrap (z / 146097 * 146097).
  replace (z - z / 146097 * 146097) with (z mod 146097) by lia.
  nowrap (z mod 146097).
  cbn [fst snd] in He. revert He Hera. set (doe := z mod 146097) in *. set (era := z / 146097) in *. intros He Hera.
  assert (0 <= doe / 1460 <= 100 /\ 0 <= doe / 36524 <= 4 /\ 0 <= doe / 146096 <= 1) as (H1 & H2 & H3)
    by (Z.to_euclidean_division_equations; lia).
  nowrap (doe - doe / 1460).
  nowrap (doe - doe / 1460 + _).
  nowrap (doe - doe / 1460 + _ - _). fold (yoe_num doe).
  destruct (era_year_of doe Hdoe) as (y & Hy & Hd). rewrite (yoe_exact doe y Hy Hd) in *.
  nowrap (era * 400). nowrap (y + era * 400).
  nowrap (y * 365).
  assert (0 <= y / 4 <= 100 /\ 0 <= y / 100 <= 4) as (H4 & H5) by (Z.to_euclidean_division_equations; lia).
  nowrap (y * 365 + y / 4).
  nowrap (y * 365 + y / 4 - y / 100).
  nowrap (doe - _). set (doy := doe - (y * 365 + y / 4 - y / 100)) in *.
  assert (-200000 <= doy <= 200000) as Hdoy by (subst doy; lia).
  nowrap (doy * 5). nowrap (doy * 5 + 2).
  assert (-100000 <= (doy * 5 + 2) / 153 <= 100000) as Hmp by (Z.to_euclidean_division_equations; lia).
  unfold month_of, day_of in *. set (mp := (doy * 5 + 2) / 153) in *.
  nowrap (mp * 153). nowrap (mp * 153 + 2).
  assert (-10000000 <= (mp * 153 + 2) / 5 <= 10000000) as H6 by (Z.to_euclidean_division_equations; lia).
  nowrap (doy - _). nowrap (doy - _ + 1).
  nowrap (mp + 3). nowrap (mp - 9).
  nowrap (y + era * 400 + 1).
  destruct He as ((Hm & Hdd) & _ & H31 & _). unfold to_u32_or_1. f_equal; [f_equal|].
  - rewrite !(proj2 (Z.leb_le _ _)) by (unfold u32_max; lia). done.
  - rewrite !(proj2 (Z.leb_le _ _)) by (unfold u32_max; lia). done.
Qed.

(** A day from 0000-03-01 on is given its date: a valid one, with as many days before it. *)
Theorem calendar_exact days (c := civil_from_days days) :
  -719468 <= days <= DAYS_MAX ->
  date_ok c.1.1 c.1.2 c.2 /\ days_of_date c.1.1 c.1.2 c.2 = days.
Proof.
  intros H. subst c. rewrite civil_from_days_plain by done.
  destruct (civil_plain_exact (days + 719468)) as (Hok & Hd & _). split; [done|]. rewrite Hd. lia.
Qed.
Lemma calendar_exact_witness :
  civil_from_days 19782 = (2024, 2, 29) /\ date_ok 2024 2 29 /\ days_of_date 2024 2 29 = 19782.
Proof.
  split; [vm_compute; reflexivity|]. apply (calendar_exact 19782). unfold DAYS_MAX. lia.
Defined.

(** Earlier days are not: 0000-02-28 is given the date of the day after it. *)
Theorem calendar_before_year_zero :
  days_of_date 0 2 28 = -719470 /\ days_of_date 0 2 29 = -719469 /\
  civil_from_days (-719470) = (0, 2, 29) /\ civil_from_days (-719469) = (0, 2, 29).
Proof. by vm_compute. Qed.

(** ** Reading a time stamp *)

Definition digits_value (s : chars) : option Z := if is_nil s then None else parse_digits u64_max 0 s.
Definition field (i n : nat) (s : chars) : option Z := digits_value (take n (drop i s)).
Definition read_rfc3339 (s : chars) : option (Z * Z) :=
  year ← field 0 4 s; month ← field 5 2 s; day ← field 8 2 s;
  hour ← field 11 2 s; minute ← field 14 2 s; second ← field 17 2 s; micros ← field 20 6 s;
  Some (days_of_date year month day * SECS_PER_DAY + hour * 3600 + minute * 60 + second, micros).

Lemma length_dec_digits fuel n k :
  (0 < k)%nat -> (k <= fuel)%nat -> 0 <= n < 10 ^ Z.of_nat k -> (length (dec_digits fuel n) <= k)%nat.
Proof.
  revert n k; induction fuel as [|fuel IH]; intros n k Hk Hf Hn; [lia|]. cbn [dec_digits]. rewrite length_app.
  cbn [length]. destruct (Z.ltb_spec n 10); [cbn; lia|].
  destruct k as [|[|k]]; [lia|change (10 ^ Z.of_nat 1) with 10 in Hn; lia|].
  rewrite (Nat2Z.inj_succ (S k)), Z.pow_succ_r in Hn by lia.
  assert (length (dec_digits fuel (n / 10)) <= S k)%nat; [|lia]. apply IH; [lia|lia|].
  split; [apply Z.div_pos; lia|apply Z.div_lt_upper_bound; lia].
Qed.
Lemma parse_zeros mx n s : 0 <= mx -> parse_digits mx 0 (zeros n ++ s) = parse_digits mx 0 s.
Proof.
  intros Hm. induction n as [|n IH]; [done|]. cbn [zeros repeat app parse_digits].
  change (is_digit 48) with true. change (10 * 0 + (48 - 48)) with 0. by rewrite (proj2 (Z.leb_le 0 mx)).
Qed.
Lemma pad_field w n :
  (0 < w <= 6)%nat -> 0 <= n < 10 ^ Z.of_nat w -> length (pad w n) = w /\ digits_value (pad w n) = Some n.
Proof.
  intros Hw Hn. unfold pad. rewrite (proj2 (Z.ltb_ge n 0)) by lia.
  pose proof (length_dec_digits 20 n w ltac:(lia) ltac:(lia) Hn) as Hl. fold (dec n) in Hl.
  assert (n <= u64_max) as Hu.
  { assert (10 ^ Z.of_nat w <= 10 ^ 6) by (apply Z.pow_le_mono_r; lia). unfold u64_max. lia. }
  assert (length (zeros (w - length (dec n)) ++ dec n) = w) as Hlen.
  { unfold zeros. rewrite length_app, repeat_length. lia. }
  split; [done|]. unfold digits_value. destruct (zeros _ ++ dec n) eqn:E; [cbn in Hlen; lia|]. cbn [is_nil].
  rewrite <- E, parse_zeros by done. apply parse_dec_digits; [lia| |lia]. apply (Z.le_lt_trans _ u64_max); done.
Qed.
(** Seven fields and their separators. *)
Definition stamp (fs : list chars) : chars :=
  match fs with
  | [y; m; d; h; mi; sec; us] =>
      y ++ str "-" ++ m ++ str "-" ++ d ++ str "T" ++ h ++ str ":" ++ mi ++ str ":" ++ sec ++ str "." ++ us ++ str "Z"
  | _ => []
  end.
Lemma read_stamp y m d h mi sec us :
  0 <= y < 10 ^ 4 -> 0 <= m < 10 ^ 2 -> 0 <= d < 10 ^ 2 -> 0 <= h < 10 ^ 2 -> 0 <= mi < 10 ^ 2 ->
  0 <= sec < 10 ^ 2 -> 0 <= us < 10 ^ 6 ->
  read_rfc3339 (stamp [pad 4 y; pad 2 m; pad 2 d; pad 2 h; pad 2 mi; pad 2 sec; pad 6 us]) =
    Some (days_of_date y m d * SECS_PER_DAY + h * 3600 + mi * 60 + sec, us).
Proof.
  intros Hy Hm Hd Hh Hmi Hs Hu.
  destruct (pad_field 4 y ltac:(lia) Hy) as [Ly Vy]. destruct (pad_field 2 m ltac:(lia) Hm) as [Lm Vm].
  destruct (pad_field 2 d ltac:(lia) Hd) as [Ld Vd]. destruct (pad_field 2 h ltac:(lia) Hh) as [Lh Vh].
  destruct (pad_field 2 mi ltac:(lia) Hmi) as [Li Vi]. destruct (pad_field 2 sec ltac:(lia) Hs) as [Ls Vs].
  destruct (pad_field 6 us ltac:(lia) Hu) as [Lu Vu].
  revert Ly Vy Lm Vm Ld Vd Lh Vh Li Vi Ls Vs Lu Vu.
  generalize (pad 4 y) (pad 2 m) (pad 2 d) (pad 2 h) (pad 2 mi) (pad 2 sec) (pad 6 us).
  intros fy fm fd fh fi fs fu. intros. unfold read_rfc3339, stamp.
  do 4 (destruct fy as [|? fy]; [done|]). do 2 (destruct fm as [|? fm]; [done|]). do 2 (destruct fd as [|? fd]; [done|]).
  do 2 (destruct fh as [|? fh]; [done|]). do 2 (destruct fi as [|? fi]; [done|]). do 2 (destruct fs as [|? fs]; [done|]).
  do 6 (destruct fu as [|? fu]; [done|]). destruct fy, fm, fd, fh, fi, fs, fu; try done.
  change (str "-") with [45]. change (str "T") with [84]. change (str ":") with [58]. change (str ".") with [46].
  unfold field. cbn [drop take app].
  rewrite Vy. cbn [mbind option_bind]. rewrite Vm. cbn [mbind option_bind]. rewrite Vd. cbn [mbind option_bind].
  rewrite Vh. cbn [mbind option_bind]. rewrite Vi. cbn [mbind option_bind]. rewrite Vs. cbn [mbind option_bind].
  change (take 0 (str "Z")) with (@nil Z). by rewrite Vu.
Qed.

(** A time stamp of the years 0 (from March) to 9999 reads back as its instant, to the microsecond. *)
Theorem timestamp_round_trip unix_seconds micros :
  -62162035200 <= unix_seconds <= 253402300799 -> 0 <= micros <= 999999 ->
  read_rfc3339 (format_rfc3339_micros unix_seconds micros) = Some (unix_seconds, micros).
Proof.
  intros Hs Hu. unfold format_rfc3339_micros, SECS_PER_DAY.
  pose proof (Z.div_mod unix_seconds 86400 ltac:(lia)) as Hdm. pose proof (Z.mod_pos_bound unix_seconds 86400 ltac:(lia)) as Hm.
  set (days := unix_seconds / 86400) in *. set (sod := unix_seconds mod 86400) in *.
  assert (-719468 <= days <= 2932896) as Hdays by lia.
  rewrite civil_from_days_plain by (unfold DAYS_MAX; lia).
  pose proof (civil_plain_exact (days + 719468)) as He.
  destruct (civil_plain (days + 719468)) as [[y m] d]. cbn [fst snd] in He.
  destruct He as ((Hmon & Hd) & Hval & H31 & Hy1). rewrite Z.min_l by lia.
  change (_ ++ str "-" ++ _) with
    (stamp [pad 4 y; pad 2 m; pad 2 d; pad 2 (sod / 3600); pad 2 (sod / 60 mod 60); pad 2 (sod mod 60); pad 6 micros]).
  assert (0 <= y < 10000) as Hy by (unfold year_days in Hy1; Z.to_euclidean_division_equations; lia).
  rewrite read_stamp; try (change (10 ^ 2) with 100); try lia;
    try (Z.to_euclidean_division_equations; lia).
  f_equal. f_equal. rewrite Hval. unfold SECS_PER_DAY.
  pose proof (Z.div_mod sod 60 ltac:(lia)). pose proof (Z.div_mod (sod / 60) 60 ltac:(lia)).
  assert (sod / 60 / 60 = sod / 3600) as Hdd by (by rewrite Z.div_div by lia). lia.
Qed.
Lemma timestamp_round_trip_witness :
  format_rfc3339_micros 1779712496 789012 = str "2026-05-25T12:34:56.789012Z" /\
  read_rfc3339 (format_rfc3339_micros 1779712496 789012) = Some (1779712496, 789012).
Proof. split; [vm_compute; reflexivity|]. apply timestamp_round_trip; lia. Defined.

(** * Identifiers *)

(** Characters compared as the strings are: the first difference decides. *)
Fixpoint lex_lt (a b : chars) : bool :=
  match a, b with
  | [], _ :: _ => true
  | x :: a, y :: b => (x <? y) || (x =? y) && lex_lt a b
  | _, [] => false
  end.
Lemma lex_lt_prefix p a b : lex_lt (p ++ a) (p ++ b) = lex_lt a b.
Proof. induction p as [|x p IH]; [done|]. cbn. by rewrite Z.ltb_irrefl, Z.eqb_refl, IH. Qed.
Lemma lex_lt_hex2 x y a b :
  0 <= x <= 255 -> 0 <= y <= 255 -> x < y -> lex_lt (hex2 x ++ a) (hex2 y ++ b) = true.
Proof.
  intros Hx Hy Hlt. unfold hex2. cbn [app lex_lt].
  assert (forall p q, 0 <= p < 16 -> 0 <= q < 16 -> p < q -> hex_char p < hex_char q) as Hh.
  { intros p q ???. unfold hex_char. destruct (Z.ltb_spec p 10), (Z.ltb_spec q 10); lia. }
  assert (0 <= x / 16 < 16 /\ 0 <= y / 16 < 16 /\ 0 <= x mod 16 < 16 /\ 0 <= y mod 16 < 16) as (? & ? & ? & ?)
    by (Z.to_euclidean_division_equations; lia).
  destruct (Z.lt_trichotomy (x / 16) (y / 16)) as [H4|[H4|H4]].
  - by rewrite (proj2 (Z.ltb_lt (hex_char (x / 16)) _)) by (by apply Hh).
  - rewrite H4, Z.eqb_refl, Z.ltb_irrefl. cbn [orb andb].
    rewrite (proj2 (Z.ltb_lt (hex_char (x mod 16)) _)); [done|]. apply Hh; [lia|lia|].
    pose proof (Z.div_mod x 16 ltac:(lia)). pose proof (Z.div_mod y 16 ltac:(lia)). lia.
  - exfalso. pose proof (Z.div_le_mono x y 16). lia.
Qed.

(** Texts of byte strings of the same length sort as the numbers. *)
Lemma uuid_text_lt i xs ys zs ws :
  bytes_ok xs -> bytes_ok ys -> length xs = length ys -> be_val xs < be_val ys ->
  lex_lt (uuid_text i (xs ++ zs)) (uuid_text i (ys ++ ws)) = true.
Proof.
  revert i ys; induction xs as [|x xs IH]; intros i [|y ys] Hx Hy Hl Hlt; try done.
  apply Forall_cons_1 in Hx as [Hx Hxs]. apply Forall_cons_1 in Hy as [Hy Hys]. injection Hl as Hl.
  rewrite !be_val_cons, Hl in Hlt. pose proof (be_val_bound xs Hxs) as B1. pose proof (be_val_bound ys Hys) as B2.
  rewrite Hl in B1. cbn [app uuid_text]. rewrite lex_lt_prefix. unfold byte_ok in *.
  destruct (Z.lt_trichotomy x y) as [H|[->|H]].
  - apply lex_lt_hex2; in_range.
  - rewrite lex_lt_prefix. apply IH; try done. lia.
  - nia.
Qed.


(** The sixteen bytes: six of time, then the version, the variant and the random bits. *)
Lemma uuid_bytes_layout ms rand :
  length rand = 10%nat ->
  exists r0 r1 r2 rs, rand = r0 :: r1 :: r2 :: rs /\ length rs = 7%nat /\
  uuid_bytes ms rand = be_bytes 6 (ms mod 2 ^ 48) ++ [Z.lor 112 (Z.land r0 15); r1; Z.lor 128 (Z.land r2 63)] ++ rs.
Proof.
  intros Hr. do 10 (destruct rand as [|? rand]; [done|]). destruct rand; [|done].
  eexists _, _, _, _. split; [reflexivity|]. split; [done|]. unfold uuid_bytes.
  assert (Z.land ms TS_MASK = ms mod 2 ^ 48) as -> by (exact (Z.land_ones ms 48 ltac:(lia))).
  pose proof (Z.mod_pos_bound ms (2 ^ 48) ltac:(lia)) as Hm. set (v := ms mod 2 ^ 48) in *.
  assert (be_bytes 8 v = [0; 0] ++ be_bytes 6 v) as ->.
  { apply be_val_inj.
    - apply be_bytes_ok.
    - apply Forall_app. split; [by repeat constructor; unfold byte_ok; lia|apply be_bytes_ok].
    - rewrite length_app, !length_be_bytes. done.
    - rewrite be_val_be_bytes by (cbn; lia). cbn [app]. rewrite !be_val_cons, be_val_be_bytes by (cbn; lia). lia. }
  pose proof (length_be_bytes 6 v) as Hl. destruct (be_bytes 6 v) as [|? [|? [|? [|? [|? [|? []]]]]]]; done.
Qed.

(** An identifier is the usual 36 characters, with its time in the first 48 bits, version 7 and the
    variant of RFC 9562, whatever the random bytes. *)
Theorem uuid_layout ms rand (bs := uuid_bytes ms rand) :
  length rand = 10%nat ->
  length (format_uuid_v7 ms rand) = 36%nat /\
  be_val (take 6 bs) = ms mod 2 ^ 48 /\
  Z.shiftr (nth 6 bs 0) 4 = 7 /\ Z.shiftr (nth 8 bs 0) 6 = 2 /\ drop 9 bs = drop 3 rand.
Proof.
  intros Hr. destruct (uuid_bytes_layout ms rand Hr) as (r0 & r1 & r2 & rs & -> & Hrs & E).
  subst bs. unfold format_uuid_v7. rewrite E.
  pose proof (length_be_bytes 6 (ms mod 2 ^ 48)) as Hl.
  assert (be_val (be_bytes 6 (ms mod 2 ^ 48)) = ms mod 2 ^ 48) as Hv.
  { apply be_val_be_bytes. exact (Z.mod_pos_bound ms (2 ^ 48) ltac:(lia)). }
  destruct (be_bytes 6 _) as [|b0 [|b1 [|b2 [|b3 [|b4 [|b5 []]]]]]]; try done.
  do 7 (destruct rs as [|? rs]; [done|]). destruct rs; [|done].
  assert (forall k r n, 0 <= n -> Z.shiftr (Z.lor k (Z.land r (Z.ones n))) n = Z.lor (Z.shiftr k n) 0) as Hs.
  { intros k r n Hn. rewrite Z.shiftr_lor, Z.shiftr_land. f_equal. rewrite (Z.shiftr_div_pow2 (Z.ones n)) by lia.
    rewrite Z.div_small by (rewrite Z.ones_equiv; pose proof (Z.pow_pos_nonneg 2 n); lia). apply Z.land_0_r. }
  split_and!; [done|exact Hv| | |done].
  - exact (Hs 112 r0 4 ltac:(lia)).
  - exact (Hs 128 r2 6 ltac:(lia)).
Qed.
Lemma uuid_layout_witness :
  format_uuid_v7 1700000000000 [1; 2; 3; 4; 5; 6; 7; 8; 9; 10] = str "018bcfe5-6800-7102-8304-05060708090a" /\
  length (format_uuid_v7 1700000000000 [1; 2; 3; 4; 5; 6; 7; 8; 9; 10]) = 36%nat.
Proof.
  split; [vm_compute; reflexivity|]. apply (uuid_layout 1700000000000 [1; 2; 3; 4; 5; 6; 7; 8; 9; 10]). reflexivity.
Defined.

(** Identifiers created at different milliseconds sort by them, whatever the random bytes. *)
Theorem uuid_sorts_by_time ms1 ms2 rand1 rand2 :
  length rand1 = 10%nat -> length rand2 = 10%nat -> 0 <= ms1 < ms2 -> ms2 < 2 ^ 48 ->
  lex_lt (format_uuid_v7 ms1 rand1) (format_uuid_v7 ms2 rand2) = true.
Proof.
  intros H1 H2 Hlt Hmax. unfold format_uuid_v7.
  destruct (uuid_bytes_layout ms1 rand1 H1) as (? & ? & ? & ? & _ & _ & ->).
  destruct (uuid_bytes_layout ms2 rand2 H2) as (? & ? & ? & ? & _ & _ & ->).
  rewrite !Z.mod_small by lia. apply uuid_text_lt; try apply be_bytes_ok; [by rewrite !length_be_bytes|].
  rewrite !be_val_be_bytes by (cbn; lia). lia.
Qed.
Lemma uuid_sorts_by_time_witness :
  lex_lt (format_uuid_v7 1700000000000 (repeat 255 10)) (format_uuid_v7 1700000000001 (repeat 0 10)) = true.
Proof. apply uuid_sorts_by_time; [reflexivity|reflexivity|lia|reflexivity]. Defined.
