(* ===== verification/AuditLog.v ===== *)
(** The audit stream: events, records and the writer
    ([kennel-lib-audit/src/event.rs], [render.rs], [writer.rs]).

    A source builds an [Event]; the writer filters it by level, renders it once into
    a [Record] whose untrusted strings are escaped, and hands the record to every
    sink.  A string is the list of its characters, as in [Text]; the clock and the
    sinks are parameters.  The lock around the set of seen targets is not modelled:
    nothing panics while it is held.

    Theorems: a rendered line is one line of JSON that reads back as the fields of the
    record; no live character survives in a record; the level filter passes exactly
    the first allow of a target; a failing sink is reported to the others only. *)

From stdpp Require Import gmap.
From S2P Require Import Prelude Bytes Str Source Resolve Translate Text AuditTime.
Open Scope Z_scope.

(** * [event.rs] *)

Unset Elimination Schemes.
Inductive Value : Type :=
  | VStr (s : chars) | VUntrusted (s : chars) | VInt (i : Z) | VUint (u : Z) | VBool (b : bool) | VNull
  | VArray (items : list Value) | VObject (entries : list (chars * Value)).
Set Elimination Schemes.

Inductive Resource : Type := Net | Fs | Exec | Unix | Dbus | Binder | Priv | Lifecycle.
Global Instance Resource_eq_dec : EqDecision Resource.
Proof. solve_decision. Defined.
Definition resource_token (r : Resource) : chars :=
  match r with
  | Net => str "net" | Fs => str "fs" | Exec => str "exec" | Unix => str "unix" | Dbus => str "dbus"
  | Binder => str "binder" | Priv => str "priv" | Lifecycle => str "lifecycle"
  end.
Definition file_stem (r : Resource) : chars :=
  match r with
  | Net => str "network" | Fs => str "filesystem" | Exec => str "exec" | Unix => str "unix" | Dbus => str "dbus"
  | Binder => str "binder" | Priv => str "priv" | Lifecycle => str "lifecycle"
  end.
Definition always_emitted (r : Resource) : bool := match r with Priv | Lifecycle => true | _ => false end.

Inductive Outcome : Type := Allow | Deny | Info | Error.
Global Instance Outcome_eq_dec : EqDecision Outcome.
Proof. solve_decision. Defined.
Definition outcome_token (o : Outcome) : chars :=
  match o with Allow => str "allow" | Deny => str "deny" | Info => str "info" | Error => str "error" end.
Definition severity (o : Outcome) : Z := match o with Allow | Info => 6 | Deny => 4 | Error => 3 end.

Inductive EventSource : Type := Kernel | Bpf | Proxy | TunBroker | DbusProxy | KennelSpawn | Kenneld | Privhelper.
Definition source_token (s : EventSource) : chars :=
  match s with
  | Kernel => str "kernel" | Bpf => str "bpf" | Proxy => str "proxy" | TunBroker => str "tun-broker"
  | DbusProxy => str "dbus-proxy" | KennelSpawn => str "kennel-lib-spawn" | Kenneld => str "kenneld"
  | Privhelper => str "privhelper"
  end.

Record Event : Type := {
  ev_event : chars; ev_resource : Resource; ev_outcome : Outcome; ev_source : EventSource;
  ev_pid : option Z; ev_comm : option chars; ev_target : option chars; ev_fields : list (chars * Value) }.
Definition event_new (event : chars) (r : Resource) (o : Outcome) (s : EventSource) : Event := {|
  ev_event := event; ev_resource := r; ev_outcome := o; ev_source := s;
  ev_pid := None; ev_comm := None; ev_target := None; ev_fields := [] |}.
Definition with_pid (pid : Z) (e : Event) : Event := {|
  ev_event := ev_event e; ev_resource := ev_resource e; ev_outcome := ev_outcome e; ev_source := ev_source e;
  ev_pid := Some pid; ev_comm := ev_comm e; ev_target := ev_target e; ev_fields := ev_fields e |}.
Definition with_comm (comm : chars) (e : Event) : Event := {|
  ev_event := ev_event e; ev_resource := ev_resource e; ev_outcome := ev_outcome e; ev_source := ev_source e;
  ev_pid := ev_pid e; ev_comm := Some comm; ev_target := ev_target e; ev_fields := ev_fields e |}.
Definition with_target (target : chars) (e : Event) : Event := {|
  ev_event := ev_event e; ev_resource := ev_resource e; ev_outcome := ev_outcome e; ev_source := ev_source e;
  ev_pid := ev_pid e; ev_comm := ev_comm e; ev_target := Some target; ev_fields := ev_fields e |}.
Definition with_field (key : chars) (v : Value) (e : Event) : Event := {|
  ev_event := ev_event e; ev_resource := ev_resource e; ev_outcome := ev_outcome e; ev_source := ev_source e;
  ev_pid := ev_pid e; ev_comm := ev_comm e; ev_target := ev_target e; ev_fields := ev_fields e ++ [(key, v)] |}.

Inductive Level : Type := Off | DeniesOnly | Summary | Full.
Definition level_default : Level := Summary.
Definition level_parse (s : chars) : option Level :=
  if bool_decide (s = str "off") then Some Off
  else if bool_decide (s = str "denies-only") then Some DeniesOnly
  else if bool_decide (s = str "summary") then Some Summary
  else if bool_decide (s = str "full") then Some Full
  else None.
Definition level_token (l : Level) : chars :=
  match l with Off => str "off" | DeniesOnly => str "denies-only" | Summary => str "summary" | Full => str "full" end.

(** * [render.rs] *)

Unset Elimination Schemes.
Inductive Rendered : Type :=
  | RStr (s : chars) | RInt (i : Z) | RUint (u : Z) | RBool (b : bool) | RNull
  | RArray (items : list Rendered) | RObject (entries : list (chars * Rendered)).
Set Elimination Schemes.

Record AuditRecord : Type := {
  rc_resource : Resource; rc_event_type : chars; rc_outcome : Outcome; rc_fields : list (chars * Rendered) }.

Definition push_json_char (c : Z) : chars :=
  if c =? QUOTE then [BACKSLASH; QUOTE]
  else if c =? BACKSLASH then [BACKSLASH; BACKSLASH]
  else if c =? 10 then [BACKSLASH; 110]
  else if c =? 13 then [BACKSLASH; 114]
  else if c =? 9 then [BACKSLASH; 116]
  else if c <? 32 then BACKSLASH :: 117 :: hex4 c
  else [c].
Definition push_json_string (s : chars) : chars := QUOTE :: flat_map push_json_char s ++ [QUOTE].
(** [Display] of a signed integer. *)
Definition dec_int (i : Z) : chars := if i <? 0 then 45 :: dec (- i) else dec i.
Definition bool_text (b : bool) : chars := if b then str "true" else str "false".
Definition COMMA : Z := 44.
Fixpoint push_value (v : Rendered) : chars :=
  match v with
  | RStr s => push_json_string s
  | RInt i => dec_int i
  | RUint u => dec u
  | RBool b => bool_text b
  | RNull => str "null"
  | RArray items => 91 :: intercalate COMMA (map push_value items) ++ [93]
  | RObject entries =>
      123 :: intercalate COMMA (map (fun e => push_json_string e.1 ++ [COLON] ++ push_value e.2) entries) ++ [125]
  end.
Definition to_jsonl (r : AuditRecord) : chars :=
  123 :: intercalate COMMA (map (fun e => push_json_string e.1 ++ [COLON] ++ push_value e.2) (rc_fields r)) ++ [125].

Definition ENVELOPE_KEYS : list chars :=
  [str "schema_version"; str "ts"; str "kennel"; str "kennel_uuid"; str "event"; str "resource"; str "outcome";
   str "source"; str "host"; str "pid"; str "comm"].
Definition is_envelope_key (key : chars) : bool := bool_decide (key ∈ ENVELOPE_KEYS) || bool_decide (key = str "sanitised").
Definition scalar_text (v : Rendered) : option chars :=
  match v with
  | RStr s => Some s
  | RInt i => Some (dec_int i)
  | RUint u => Some (dec u)
  | RBool b => Some (bool_text b)
  | RNull | RArray _ | RObject _ => None
  end.
(** The loop over the fields, with [shown = 0] or not. *)
Fixpoint message_fields (first : bool) (fields : list (chars * Rendered)) : chars :=
  match fields with
  | [] => []
  | (key, v) :: fields =>
      if is_envelope_key key then message_fields first fields
      else match scalar_text v with
           | Some scalar => (if first then str ": " else str ", ") ++ key ++ str "=" ++ scalar ++ message_fields false fields
           | None => message_fields first fields
           end
  end.
Definition message (r : AuditRecord) : chars :=
  outcome_token (rc_outcome r) ++ str " " ++ rc_event_type r ++ message_fields true (rc_fields r).

(** * [writer.rs] *)

Definition SCHEMA_VERSION : Z := 1.
Definition MAX_EVENT_BYTES : Z := 4096.
Record WriterContext : Type := { wc_kennel : chars; wc_kennel_uuid : chars; wc_host : chars }.
Record Levels : Type := { lv_net : Level; lv_fs : Level; lv_exec : Level; lv_unix : Level; lv_dbus : Level }.
Definition levels_default : Levels :=
  {| lv_net := Summary; lv_fs := DeniesOnly; lv_exec := Summary; lv_unix := Summary; lv_dbus := Summary |}.
Definition for_resource (l : Levels) (r : Resource) : Level :=
  match r with
  | Net => lv_net l | Fs => lv_fs l | Exec => lv_exec l | Unix => lv_unix l
  | Dbus | Binder => lv_dbus l
  | Priv | Lifecycle => Full
  end.
Record SinkError : Type := { se_sink : chars; se_message : chars }.

Definition seen_key (r : Resource) (target : chars) : chars := resource_token r ++ [0] ++ target.
Definition should_emit (levels : Levels) (seen : gset chars) (e : Event) : bool * gset chars :=
  if always_emitted (ev_resource e) then (true, seen)
  else match for_resource levels (ev_resource e) with
       | Off => (false, seen)
       | DeniesOnly => (bool_decide (ev_outcome e = Deny), seen)
       | Full => (true, seen)
       | Summary =>
           if negb (bool_decide (ev_outcome e = Allow)) then (true, seen)
           else match ev_target e with
                | Some t => let key := seen_key (ev_resource e) t in
                            (negb (bool_decide (key ∈ seen)), {[key]} ∪ seen)
                | None => (true, seen)
                end
       end.

Definition sanitise (s : chars) (changed : bool) : chars * bool :=
  let clean := sanitise_for_audit s in (clean, changed || negb (bool_decide (clean = s))).
(** [iter().map()] with the flag threaded through. *)
Definition map_flag {A B} (f : A -> bool -> B * bool) : list A -> bool -> list B * bool :=
  fix go l flag :=
    match l with
    | [] => ([], flag)
    | a :: l => let r := f a flag in let rs := go l r.2 in (r.1 :: rs.1, rs.2)
    end.
Fixpoint render_value (v : Value) (flag : bool) : Rendered * bool :=
  match v with
  | VStr s => (RStr s, flag)
  | VUntrusted s => let r := sanitise s flag in (RStr r.1, r.2)
  | VInt i => (RInt i, flag)
  | VUint u => (RUint u, flag)
  | VBool b => (RBool b, flag)
  | VNull => (RNull, flag)
  | VArray items => let r := map_flag render_value items flag in (RArray r.1, r.2)
  | VObject entries =>
      let r := map_flag (fun e flag => let r := render_value e.2 flag in ((e.1, r.1), r.2)) entries flag in
      (RObject r.1, r.2)
  end.
Definition render_field (e : chars * Value) (flag : bool) : (chars * Rendered) * bool :=
  let r := render_value e.2 flag in ((e.1, r.1), r.2).
Definition envelope (ctx : WriterContext) (now : Z * Z) (e : Event) : list (chars * Rendered) :=
  [(str "schema_version", RUint SCHEMA_VERSION);
   (str "ts", RStr (format_rfc3339_micros now.1 now.2));
   (str "kennel", RStr (wc_kennel ctx));
   (str "kennel_uuid", RStr (wc_kennel_uuid ctx));
   (str "event", RStr (ev_event e));
   (str "resource", RStr (resource_token (ev_resource e)));
   (str "outcome", RStr (outcome_token (ev_outcome e)));
   (str "source", RStr (source_token (ev_source e)));
   (str "host", RStr (wc_host ctx))] ++
  (match ev_pid e with Some pid => [(str "pid", RUint pid)] | None => [] end).
Definition render (ctx : WriterContext) (now : Z * Z) (e : Event) : AuditRecord :=
  let comm := match ev_comm e with
              | Some c => let r := sanitise c false in ([(str "comm", RStr r.1)], r.2)
              | None => ([], false)
              end in
  let fields := map_flag render_field (ev_fields e) comm.2 in
  {| rc_resource := ev_resource e; rc_event_type := ev_event e; rc_outcome := ev_outcome e;
     rc_fields := envelope ctx now e ++ comm.1 ++ fields.1 ++
                  (if fields.2 then [(str "sanitised", RBool true)] else []) |}.

Definition drop_record (ctx : WriterContext) (err : SinkError) : AuditRecord := {|
  rc_resource := Lifecycle; rc_event_type := str "lifecycle.audit-drop"; rc_outcome := Error;
  rc_fields :=
    [(str "schema_version", RUint SCHEMA_VERSION);
     (str "event", RStr (str "lifecycle.audit-drop"));
     (str "resource", RStr (str "lifecycle"));
     (str "outcome", RStr (str "error"));
     (str "source", RStr (source_token Kenneld));
     (str "kennel", RStr (wc_kennel ctx));
     (str "failed_sink", RStr (se_sink err));
     (str "reason", RStr (sanitise_for_audit (se_message err)))] |}.

Section fan_out.
Context (ctx : WriterContext) (sinks : nat).
(** What sink [i] answers for a record after the writes so far: a sink is a state machine. *)
Context (write : list (nat * AuditRecord) -> nat -> AuditRecord -> option SinkError).

(** The writes made, in order, and the failures told on stderr. *)
Record Sent : Type := { sn_writes : list (nat * AuditRecord); sn_stderr : list SinkError }.
(** The loop of [report_drop] over the sinks of [ids]. *)
Fixpoint drop_to (failed : nat) (r : AuditRecord) (ids : list nat) (s : Sent) (delivered : bool) : Sent * bool :=
  match ids with
  | [] => (s, delivered)
  | i :: ids =>
      if (i =? failed)%nat then drop_to failed r ids s delivered
      else drop_to failed r ids {| sn_writes := sn_writes s ++ [(i, r)]; sn_stderr := sn_stderr s |}
             (match write (sn_writes s) i r with None => true | Some _ => delivered end)
  end.
Definition report_drop (err : SinkError) (failed : nat) (s : Sent) : Sent :=
  let r := drop_to failed (drop_record ctx err) (seq 0 sinks) s false in
  if r.2 then r.1 else {| sn_writes := sn_writes r.1; sn_stderr := sn_stderr r.1 ++ [err] |}.
Fixpoint fan_to (r : AuditRecord) (ids : list nat) (s : Sent) : Sent :=
  match ids with
  | [] => s
  | i :: ids =>
      let s' := {| sn_writes := sn_writes s ++ [(i, r)]; sn_stderr := sn_stderr s |} in
      fan_to r ids (match write (sn_writes s) i r with None => s' | Some err => report_drop err i s' end)
  end.
Definition fan_out (r : AuditRecord) (s : Sent) : Sent := fan_to r (seq 0 sinks) s.

Record Writer : Type := { wr_seen : gset chars; wr_sent : Sent }.
Definition emit (levels : Levels) (now : Z * Z) (e : Event) (w : Writer) : bool * Writer :=
  let d := should_emit levels (wr_seen w) e in
  (d.1, {| wr_seen := d.2; wr_sent := if d.1 then fan_out (render ctx now e) (wr_sent w) else wr_sent w |}).
End fan_out.

(** * Lemmas *)

Section nested.
Context (P : Rendered -> Prop).
Context (Hstr : forall s, P (RStr s)) (Hint : forall i, P (RInt i)) (Huint : forall u, P (RUint u))
  (Hbool : forall b, P (RBool b)) (Hnull : P RNull)
  (Harr : forall l, Forall P l -> P (RArray l)) (Hobj : forall l, Forall (fun e => P e.2) l -> P (RObject l)).
Fixpoint Rendered_ind (v : Rendered) : P v :=
  match v with
  | RStr s => Hstr s | RInt i => Hint i | RUint u => Huint u | RBool b => Hbool b | RNull => Hnull
  | RArray l => Harr l ((fix go l : Forall P l :=
      match l with [] => Forall_nil_2 _ | v :: l => Forall_cons_2 _ _ _ (Rendered_ind v) (go l) end) l)
  | RObject l => Hobj l ((fix go l : Forall (fun e => P e.2) l :=
      match l with
      | [] => Forall_nil_2 _
      | e :: l => Forall_cons_2 (fun e => P e.2) e l (Rendered_ind e.2) (go l)
      end) l)
  end.
End nested.

Section nested_value.
Context (P : Value -> Prop).
Context (Hstr : forall s, P (VStr s)) (Hunt : forall s, P (VUntrusted s)) (Hint : forall i, P (VInt i))
  (Huint : forall u, P (VUint u)) (Hbool : forall b, P (VBool b)) (Hnull : P VNull)
  (Harr : forall l, Forall P l -> P (VArray l)) (Hobj : forall l, Forall (fun e => P e.2) l -> P (VObject l)).
Fixpoint Value_ind (v : Value) : P v :=
  match v with
  | VStr s => Hstr s | VUntrusted s => Hunt s | VInt i => Hint i | VUint u => Huint u | VBool b => Hbool b
  | VNull => Hnull
  | VArray l => Harr l ((fix go l : Forall P l :=
      match l with [] => Forall_nil_2 _ | v :: l => Forall_cons_2 _ _ _ (Value_ind v) (go l) end) l)
  | VObject l => Hobj l ((fix go l : Forall (fun e => P e.2) l :=
      match l with
      | [] => Forall_nil_2 _
      | e :: l => Forall_cons_2 (fun e => P e.2) e l (Value_ind e.2) (go l)
      end) l)
  end.
End nested_value.

(** ** A reader of JSON *)

Unset Elimination Schemes.
Inductive json : Type :=
  | JStr (s : chars) | JNum (n : Z) | JBool (b : bool) | JNull | JArr (l : list json) | JObj (l : list (chars * json)).
Set Elimination Schemes.

(** The characters of a string up to its closing quote (RFC 8259, section 7). *)
Fixpoint read_string (s : chars) : option (chars * chars) :=
  match s with
  | [] => None
  | c :: r =>
      if c =? QUOTE then Some ([], r)
      else if c =? BACKSLASH then
        match r with
        | 34 :: r => p ← read_string r; Some (QUOTE :: p.1, p.2)
        | 92 :: r => p ← read_string r; Some (BACKSLASH :: p.1, p.2)
        | 110 :: r => p ← read_string r; Some (10 :: p.1, p.2)
        | 114 :: r => p ← read_string r; Some (13 :: p.1, p.2)
        | 116 :: r => p ← read_string r; Some (9 :: p.1, p.2)
        | 117 :: a :: b :: c :: d :: r =>
            p ← read_string r; Some (4096 * unhex a + 256 * unhex b + 16 * unhex c + unhex d :: p.1, p.2)
        | _ => None
        end
      else if c <? 32 then None
      else p ← read_string r; Some (c :: p.1, p.2)
  end.
Fixpoint read_digits (acc : Z) (s : chars) : Z * chars :=
  match s with
  | c :: r => if is_digit c then read_digits (10 * acc + (c - 48)) r else (acc, s)
  | [] => (acc, [])
  end.
Definition read_literal (lit : chars) (j : json) (s : chars) : option (json * chars) :=
  r ← strip_prefix lit s; Some (j, r).
Definition read_number (s : chars) : option (json * chars) :=
  match s with
  | 45 :: c :: r => if is_digit c then let p := read_digits 0 (c :: r) in Some (JNum (- p.1), p.2) else None
  | c :: _ => if is_digit c then let p := read_digits 0 s in Some (JNum p.1, p.2) else None
  | [] => None
  end.

Fixpoint read_value (fuel : nat) (s : chars) : option (json * chars) :=
  match fuel with
  | O => None
  | S fuel =>
      match s with
      | 34 :: r => p ← read_string r; Some (JStr p.1, p.2)
      | 91 :: 93 :: r => Some (JArr [], r)
      | 91 :: r => p ← read_items fuel r; Some (JArr p.1, p.2)
      | 123 :: 125 :: r => Some (JObj [], r)
      | 123 :: r => p ← read_members fuel r; Some (JObj p.1, p.2)
      | 116 :: _ => read_literal (str "true") (JBool true) s
      | 102 :: _ => read_literal (str "false") (JBool false) s
      | 110 :: _ => read_literal (str "null") JNull s
      | _ => read_number s
      end
  end
with read_items (fuel : nat) (s : chars) : option (list json * chars) :=
  match fuel with
  | O => None
  | S fuel =>
      p ← read_value fuel s;
      match p.2 with
      | 44 :: r => q ← read_items fuel r; Some (p.1 :: q.1, q.2)
      | 93 :: r => Some ([p.1], r)
      | _ => None
      end
  end
with read_members (fuel : nat) (s : chars) : option (list (chars * json) * chars) :=
  match fuel with
  | O => None
  | S fuel =>
      match s with
      | 34 :: r =>
          k ← read_string r;
          match k.2 with
          | 58 :: r =>
              p ← read_value fuel r;
              match p.2 with
              | 44 :: r => q ← read_members fuel r; Some ((k.1, p.1) :: q.1, q.2)
              | 125 :: r => Some ([(k.1, p.1)], r)
              | _ => None
              end
          | _ => None
          end
      | _ => None
      end
  end.
Definition read_json (s : chars) : option json :=
  match read_value (S (length s)) s with Some (j, []) => Some j | _ => None end.

(** What a rendered value is in JSON: the two integer types are one. *)
Fixpoint to_json (v : Rendered) : json :=
  match v with
  | RStr s => JStr s | RInt i => JNum i | RUint u => JNum u | RBool b => JBool b | RNull => JNull
  | RArray l => JArr (map to_json l)
  | RObject l => JObj (map (fun e => (e.1, to_json e.2)) l)
  end.

(** Widths: characters, [i64], [u64]. *)
Fixpoint rendered_ok (v : Rendered) : Prop :=
  match v with
  | RStr s => Forall is_char s
  | RInt i => in_i64 i
  | RUint u => in_u64 u
  | RBool _ | RNull => True
  | RArray l => foldr (fun v P => rendered_ok v /\ P) True l
  | RObject l => foldr (fun e P => (Forall is_char e.1 /\ rendered_ok e.2) /\ P) True l
  end.
Lemma foldr_Forall {A} (P : A -> Prop) l : foldr (fun a Q => P a /\ Q) True l <-> Forall P l.
Proof. induction l as [|a l IH]; cbn; [done|]. by rewrite Forall_cons, IH. Qed.

Lemma read_json_char c s :
  is_char c -> read_string (push_json_char c ++ s) = (p ← read_string s; Some (c :: p.1, p.2)).
Proof.
  intros [Hc _]. unfold push_json_char.
  destruct (Z.eqb_spec c QUOTE) as [->|H1]; [done|]. destruct (Z.eqb_spec c BACKSLASH) as [->|H2]; [done|].
  destruct (Z.eqb_spec c 10) as [->|?]; [done|]. destruct (Z.eqb_spec c 13) as [->|?]; [done|].
  destruct (Z.eqb_spec c 9) as [->|?]; [done|]. destruct (Z.ltb_spec c 32).
  - cbn -[hex_char unhex]. rewrite (hex4_value c) by lia. done.
  - cbn. rewrite (proj2 (Z.eqb_neq _ _) H1), (proj2 (Z.eqb_neq _ _) H2), (proj2 (Z.ltb_ge _ _)) by lia. done.
Qed.
Lemma read_json_string s rest :
  Forall is_char s -> read_string (flat_map push_json_char s ++ QUOTE :: rest) = Some (s, rest).
Proof.
  induction 1 as [|c s Hc _ IH]; [done|]. cbn [flat_map]. rewrite <- app_assoc, read_json_char by done.
  by rewrite IH.
Qed.

Definition no_digit (s : chars) : Prop := match s with c :: _ => is_digit c = false | [] => True end.
Lemma read_digits_all acc s t :
  Forall (fun c => is_digit c = true) s -> no_digit t ->
  read_digits acc (s ++ t) = (fold_left (fun a c => 10 * a + (c - 48)) s acc, t).
Proof.
  intros Hs Ht. revert acc; induction Hs as [|c s Hc _ IH]; intros acc.
  - destruct t as [|c t]; [done|]. cbn in *. by rewrite Ht.
  - cbn [app read_digits fold_left]. by rewrite Hc, IH.
Qed.
Lemma fold_dec fuel n :
  0 <= n < 10 ^ Z.of_nat fuel -> fold_left (fun a c => 10 * a + (c - 48)) (dec_digits fuel n) 0 = n.
Proof.
  revert n; induction fuel as [|fuel IH]; intros n Hn; [change (10 ^ Z.of_nat 0) with 1 in Hn; cbn; lia|].
  cbn [dec_digits]. rewrite fold_left_app. rewrite Nat2Z.inj_succ, Z.pow_succ_r in Hn by lia. cbn [fold_left].
  pose proof (Z.div_mod n 10 ltac:(lia)). destruct (Z.ltb_spec n 10).
  - cbn [fold_left]. rewrite Z.mod_small by lia. lia.
  - rewrite IH; [lia|]. split; [apply Z.div_pos; lia|apply Z.div_lt_upper_bound; lia].
Qed.
Lemma read_dec n rest : in_u64 n -> no_digit rest -> read_digits 0 (dec n ++ rest) = (n, rest).
Proof.
  intros Hn Hr. rewrite read_digits_all by (done || apply dec_digits_ascii; in_range).
  unfold dec. rewrite fold_dec; [done|]. change (10 ^ Z.of_nat 20) with 100000000000000000000. in_range.
Qed.
Lemma dec_head n : 0 <= n -> exists c s, dec n = c :: s /\ is_digit c = true.
Proof.
  intros Hn. pose proof (dec_digits_ascii 20 n Hn) as Ha. fold (dec n) in Ha.
  destruct (dec n) as [|c s] eqn:E; [by apply app_eq_nil in E as [_ ?]|]. apply Forall_cons_1 in Ha as [Hc _]. by exists c, s.
Qed.
Lemma digit_cases c : is_digit c = true -> c ∈ seqZ 48 10.
Proof. unfold is_digit. intros H. apply elem_of_seqZ. lia. Qed.
Lemma read_value_digit fuel c s : is_digit c = true -> read_value (S fuel) (c :: s) = read_number (c :: s).
Proof.
  intros Hc%digit_cases. cbn [seqZ] in Hc.
  repeat (apply elem_of_cons in Hc as [->|Hc]; [done|]). by apply elem_of_nil in Hc.
Qed.
Lemma read_number_digit c s : is_digit c = true -> read_number (c :: s) = Some (JNum (read_digits 0 (c :: s)).1, (read_digits 0 (c :: s)).2).
Proof.
  intros Hc. pose proof (digit_cases _ Hc) as H.
  repeat (apply elem_of_cons in H as [->|H]; [done|]). by apply elem_of_nil in H.
Qed.
Lemma read_uint fuel n rest :
  in_u64 n -> no_digit rest -> read_value (S fuel) (dec n ++ rest) = Some (JNum n, rest).
Proof.
  intros Hn Hr. pose proof (read_dec n rest Hn Hr) as Hd. destruct (dec_head n ltac:(in_range)) as (c & s & E & Hc).
  rewrite E in *. cbn [app] in *. by rewrite read_value_digit, read_number_digit, Hd.
Qed.
Lemma read_int fuel i rest :
  in_i64 i -> no_digit rest -> read_value (S fuel) (dec_int i ++ rest) = Some (JNum i, rest).
Proof.
  intros Hi Hr. unfold dec_int. destruct (Z.ltb_spec i 0); [|apply read_uint; [in_range|done]].
  pose proof (read_dec (- i) rest ltac:(in_range) Hr) as Hd. destruct (dec_head (- i) ltac:(lia)) as (c & s & E & Hc).
  rewrite E in *. cbn [app read_value read_number] in *. rewrite Hc, Hd. cbn [fst snd]. by rewrite Z.opp_involutive.
Qed.

(** The first character of a value is not a closing bracket. *)
Lemma push_value_head v : rendered_ok v -> exists c s, push_value v = c :: s /\ c <> 93 /\ c <> 125.
Proof.
  intros Hv. assert (forall n, 0 <= n -> exists c s, dec n = c :: s /\ c <> 93 /\ c <> 125) as Hd.
  { intros n Hn. destruct (dec_head n Hn) as (c & s & E & Hc). exists c, s. unfold is_digit in Hc. split; [done|]. lia. }
  destruct v as [s|i|u|b| |l|l]; cbn [push_value]; try by eexists _, _; split_and!; [reflexivity|..].
  - unfold dec_int. destruct (Z.ltb_spec i 0); [by eexists _, _; split_and!; [reflexivity|..]|apply Hd; lia].
  - apply Hd. cbn in Hv. in_range.
  - destruct b; by eexists _, _; split_and!; [reflexivity|..].
Qed.

Definition reads_back (v : Rendered) : Prop :=
  forall rest fuel, rendered_ok v -> no_digit rest -> (length (push_value v) <= fuel)%nat ->
  read_value fuel (push_value v ++ rest) = Some (to_json v, rest).
Definition push_member (e : chars * Rendered) : chars := push_json_string e.1 ++ [COLON] ++ push_value e.2.

Lemma intercalate_cons sep p q ps : intercalate sep (p :: q :: ps) = p ++ sep :: intercalate sep (q :: ps).
Proof. done. Qed.

Lemma tail_shorter a b c : (a + S b < S c)%nat -> (b < c)%nat.
Proof. lia. Qed.

Lemma read_items_back l (rest : chars) fuel :
  l <> [] -> Forall reads_back l -> Forall rendered_ok l ->
  (length (intercalate COMMA (map push_value l)) < fuel)%nat ->
  read_items fuel (intercalate COMMA (map push_value l) ++ 93 :: rest) = Some (map to_json l, rest).
Proof.
  revert fuel; induction l as [|v l IH]; intros fuel Hne HP Hok Hf; [done|]. destruct fuel as [|fuel]; [lia|].
  apply Forall_cons_1 in HP as [Hv HP]. apply Forall_cons_1 in Hok as [Hok Hoks]. cbn [read_items].
  destruct (push_value_head v Hok) as (c & s & Ec & _). assert (1 <= length (push_value v))%nat by (rewrite Ec; cbn; lia).
  destruct l as [|w l].
  - cbn [map intercalate flat_map] in *. rewrite app_nil_r in *. rewrite Hv by (done || (cbn; done) || lia). done.
  - cbn [map] in *. rewrite intercalate_cons in *. rewrite length_app in Hf. cbn [length] in Hf.
    rewrite <- app_assoc. cbn [app]. rewrite Hv by (done || (cbn; done) || lia). cbn [mbind option_bind snd fst].
    change (44 :: ?x) with (COMMA :: x). cbn [COMMA]. rewrite IH; [done..|exact (tail_shorter _ _ _ Hf)].
Qed.
Lemma read_members_back (l : list (chars * Rendered)) rest fuel :
  l <> [] -> Forall (fun e => reads_back e.2) l -> Forall (fun e => Forall is_char e.1 /\ rendered_ok e.2) l ->
  (length (intercalate COMMA (map push_member l)) < fuel)%nat ->
  read_members fuel (intercalate COMMA (map push_member l) ++ 125 :: rest) =
    Some (map (fun e => (e.1, to_json e.2)) l, rest).
Proof.
  revert fuel; induction l as [|v l IH]; intros fuel Hne HP Hok Hf; [done|]. destruct fuel as [|fuel]; [lia|].
  apply Forall_cons_1 in HP as [Hv HP]. apply Forall_cons_1 in Hok as [[Hk Hok] Hoks].
  assert (forall t, push_member v ++ t = QUOTE :: flat_map push_json_char v.1 ++ QUOTE :: COLON :: push_value v.2 ++ t) as Hm.
  { intros t. unfold push_member, push_json_string. cbn [app]. by rewrite <- !app_assoc. }
  assert (3 + length (push_value v.2) <= length (push_member v))%nat as Hl.
  { unfold push_member, push_json_string. cbn [app length]. rewrite !length_app. cbn [length]. lia. }
  destruct l as [|w l].
  - cbn [map intercalate flat_map] in *. rewrite app_nil_r in *. rewrite Hm. cbn [read_members].
    change 34 with QUOTE. cbn [QUOTE]. rewrite read_json_string by done. cbn [mbind option_bind snd fst].
    change 58 with COLON. cbn [COLON]. rewrite Hv by (done || (cbn; done) || lia). done.
  - cbn [map] in *. rewrite intercalate_cons in *. rewrite length_app in Hf. cbn [length] in Hf.
    rewrite <- app_assoc. cbn [app]. rewrite Hm. cbn [read_members].
    change 34 with QUOTE. cbn [QUOTE]. rewrite read_json_string by done. cbn [mbind option_bind snd fst].
    change 58 with COLON. cbn [COLON]. rewrite Hv by (done || (cbn; done) || lia). cbn [mbind option_bind snd fst].
    rewrite IH; [done..|exact (tail_shorter _ _ _ Hf)].
Qed.

Lemma read_value_array fuel c s :
  c <> 93 -> read_value (S fuel) (91 :: c :: s) = (p ← read_items fuel (c :: s); Some (JArr p.1, p.2)).
Proof. intros Hc. destruct c as [|p|p]; try done. by repeat (destruct p as [p|p|]; try done). Qed.
Lemma read_value_object fuel c s :
  c <> 125 -> read_value (S fuel) (123 :: c :: s) = (p ← read_members fuel (c :: s); Some (JObj p.1, p.2)).
Proof. intros Hc. destruct c as [|p|p]; try done. by repeat (destruct p as [p|p|]; try done). Qed.

Lemma read_array_back l rest fuel :
  Forall reads_back l -> Forall rendered_ok l -> (length (push_value (RArray l)) <= S fuel)%nat ->
  read_value (S fuel) (push_value (RArray l) ++ rest) = Some (JArr (map to_json l), rest).
Proof.
  intros IH Hok Hf. destruct l as [|v l]; [done|].
  destruct (push_value_head v (Forall_inv Hok)) as (c & s & Ec & H93 & _). revert Hf.
  cbn [push_value length app]. rewrite length_app, <- app_assoc. cbn [length app]. intros Hf.
  pose proof (read_items_back (v :: l) rest fuel ltac:(done) IH Hok ltac:(lia)) as Hi. revert Hi.
  cbn [map intercalate]. rewrite Ec. cbn [app]. intros Hi. rewrite read_value_array by done. by rewrite Hi.
Qed.
Lemma push_object l : push_value (RObject l) = 123 :: intercalate COMMA (map push_member l) ++ [125].
Proof. done. Qed.
Lemma read_object_back (l : list (chars * Rendered)) rest fuel :
  Forall (fun e => reads_back e.2) l -> Forall (fun e => Forall is_char e.1 /\ rendered_ok e.2) l ->
  (length (push_value (RObject l)) <= S fuel)%nat ->
  read_value (S fuel) (push_value (RObject l) ++ rest) = Some (JObj (map (fun e => (e.1, to_json e.2)) l), rest).
Proof.
  intros IH Hok. rewrite push_object. cbn [length app]. rewrite length_app, <- app_assoc. cbn [length app]. intros Hf.
  destruct l as [|v l]; [done|].
  pose proof (read_members_back (v :: l) rest fuel ltac:(done) IH Hok ltac:(lia)) as Hi. revert Hi.
  cbn [map intercalate]. assert (exists s, push_member v = QUOTE :: s) as [s ->] by (by eexists). cbn [app].
  intros Hi. rewrite read_value_object by done. by rewrite Hi.
Qed.

Lemma value_reads_back v : reads_back v.
Proof.
  induction v as [s|i|u|b| |l IH|l IH] using Rendered_ind; intros rest fuel Hok Hr Hf;
    (destruct fuel as [|fuel]; [destruct (push_value_head _ Hok) as (? & ? & E & _); rewrite E in Hf; cbn in Hf; lia|]).
  - cbn [push_value push_json_string app read_value]. change 34 with QUOTE. cbn [QUOTE]. rewrite <- app_assoc. cbn [app].
    by rewrite read_json_string.
  - by apply read_int.
  - by apply read_uint.
  - by destruct b.
  - done.
  - apply read_array_back; [done|by apply foldr_Forall|done].
  - apply read_object_back; [done|by apply foldr_Forall|done].
Qed.

Definition record_ok (r : AuditRecord) : Prop :=
  Forall (fun e => Forall is_char e.1 /\ rendered_ok e.2) (rc_fields r).

Definition is_charb (c : Z) : bool := (0 <=? c) && (c <=? 1114111).
Fixpoint rendered_okb (v : Rendered) : bool :=
  match v with
  | RStr s => forallb is_charb s
  | RInt i => bool_decide (in_i64 i)
  | RUint u => bool_decide (in_u64 u)
  | RBool _ | RNull => true
  | RArray l => forallb rendered_okb l
  | RObject l => forallb (fun e => forallb is_charb e.1 && rendered_okb e.2) l
  end.
Definition record_okb (r : AuditRecord) : bool := rendered_okb (RObject (rc_fields r)).
Lemma is_charb_ok s : forallb is_charb s = true -> Forall is_char s.
Proof.
  rewrite forallb_forall, Forall_forall. setoid_rewrite <- list_elem_of_In. unfold is_charb, is_char.
  intros H c Hc. specialize (H c Hc). lia.
Qed.
Lemma rendered_okb_ok v : rendered_okb v = true -> rendered_ok v.
Proof.
  induction v as [s|i|u|b| |l IH|l IH] using Rendered_ind; cbn [rendered_okb rendered_ok]; try done.
  - apply is_charb_ok.
  - apply bool_decide_eq_true.
  - apply bool_decide_eq_true.
  - rewrite foldr_Forall, forallb_forall. rewrite !Forall_forall in *. setoid_rewrite <- list_elem_of_In. naive_solver.
  - rewrite foldr_Forall, forallb_forall. rewrite !Forall_forall in *. setoid_rewrite <- list_elem_of_In.
    intros H e He. specialize (H e He). apply andb_true_iff in H as [H1 H2]. split; [by apply is_charb_ok|by apply IH].
Qed.
Lemma record_okb_ok r : record_okb r = true -> record_ok r.
Proof. intros H%rendered_okb_ok. by apply foldr_Forall. Qed.

Lemma json_char_line c : is_char c -> Forall (fun x => 32 <= x) (push_json_char c).
Proof.
  intros [Hc _]. unfold push_json_char. repeat case_match; zbool; unfold BACKSLASH, QUOTE, hex4;
    rewrite ?Forall_cons, ?Forall_nil; split_and!; try done; try lia.
  all: match goal with |- 32 <= hex_char ?d => pose proof (hex_char_printable d); Z.to_euclidean_division_equations; lia end.
Qed.

Lemma Forall_intercalate (P : Z -> Prop) sep ps : P sep -> Forall (Forall P) ps -> Forall P (intercalate sep ps).
Proof.
  intros Hs. destruct 1 as [|p ps Hp Hps]; [done|]. apply Forall_app_2; [done|].
  induction Hps as [|q ps Hq _ IH]; [done|]. constructor; [done|]. by apply Forall_app_2.
Qed.
Definition in_line (c : Z) : Prop := 32 <= c.
Lemma json_string_line s : Forall is_char s -> Forall in_line (push_json_string s).
Proof.
  intros Hs. constructor; [done|]. apply Forall_app_2; [|by repeat constructor].
  induction Hs as [|c s Hc _ IH]; [done|]. apply Forall_app_2; [by apply json_char_line|done].
Qed.
Lemma dec_line n : 0 <= n -> Forall in_line (dec n).
Proof. intros Hn. eapply Forall_impl; [exact (dec_digits_ascii 20 n Hn)|]. unfold is_digit, in_line. cbn. lia. Qed.
Lemma push_value_line v : rendered_ok v -> Forall in_line (push_value v).
Proof.
  induction v as [s|i|u|b| |l IH|l IH] using Rendered_ind; intros Hok; cbn [push_value].
  - by apply json_string_line.
  - unfold dec_int. destruct (Z.ltb_spec i 0); [constructor; [done|]|]; apply dec_line; lia.
  - apply dec_line. cbn in Hok. in_range.
  - destruct b; by repeat constructor.
  - by repeat constructor.
  - constructor; [done|]. apply Forall_app_2; [|by repeat constructor]. apply Forall_intercalate; [done|].
    apply Forall_map. cbn in Hok. apply foldr_Forall in Hok. rewrite Forall_forall in *. naive_solver.
  - constructor; [done|]. apply Forall_app_2; [|by repeat constructor]. apply Forall_intercalate; [done|].
    apply Forall_map. cbn in Hok. apply foldr_Forall in Hok. rewrite Forall_forall in *.
    intros e He. destruct (Hok e He) as [Hk Hv]. apply Forall_app_2; [by apply json_string_line|].
    constructor; [done|]. by apply (IH e).
Qed.

(** ** Rendering *)

Fixpoint untrusted_of (v : Value) : list chars :=
  match v with
  | VUntrusted s => [s]
  | VArray l => flat_map untrusted_of l
  | VObject l => flat_map (fun e => untrusted_of e.2) l
  | _ => []
  end.
Fixpoint trusted_of (v : Value) : list chars :=
  match v with
  | VStr s => [s]
  | VArray l => flat_map trusted_of l
  | VObject l => flat_map (fun e => trusted_of e.2) l
  | _ => []
  end.
Fixpoint strings_of (v : Rendered) : list chars :=
  match v with
  | RStr s => [s]
  | RArray l => flat_map strings_of l
  | RObject l => flat_map (fun e => strings_of e.2) l
  | _ => []
  end.
Definition altered (s : chars) : bool := negb (bool_decide (sanitise_for_audit s = s)).

Lemma map_flag_spec {A B} (f : A -> bool -> B * bool) (g : A -> B) (h : A -> list chars) l flag :
  Forall (fun a => forall flag, f a flag = (g a, flag || existsb altered (h a))) l ->
  map_flag f l flag = (map g l, flag || existsb altered (flat_map h l)).
Proof.
  intros Hl. revert flag; induction Hl as [|a l Ha _ IH]; intros flag; cbn; [by rewrite orb_false_r|].
  fold (map_flag f). rewrite Ha, IH. cbn. rewrite existsb_app. by rewrite orb_assoc.
Qed.
(** A rendered value, without the flag. *)
Fixpoint rendered (v : Value) : Rendered :=
  match v with
  | VStr s => RStr s | VUntrusted s => RStr (sanitise_for_audit s) | VInt i => RInt i | VUint u => RUint u
  | VBool b => RBool b | VNull => RNull
  | VArray l => RArray (map rendered l)
  | VObject l => RObject (map (fun e => (e.1, rendered e.2)) l)
  end.
Lemma render_value_spec v flag : render_value v flag = (rendered v, flag || existsb altered (untrusted_of v)).
Proof.
  revert flag; induction v as [s|s|i|u|b| |l IH|l IH] using Value_ind; intros flag; cbn [render_value rendered untrusted_of existsb];
    rewrite ?orb_false_r; try done.
  - by rewrite (map_flag_spec _ rendered untrusted_of).
  - rewrite (map_flag_spec _ (fun e => (e.1, rendered e.2)) (fun e => untrusted_of e.2)); [done|].
    eapply Forall_impl; [exact IH|]. cbn. intros e He flag'. by rewrite He.
Qed.
Lemma elem_flat_map {A B} (f : A -> list B) l x : x ∈ flat_map f l <-> exists a, a ∈ l /\ x ∈ f a.
Proof. rewrite list_elem_of_In, in_flat_map. by setoid_rewrite list_elem_of_In. Qed.

Lemma rendered_strings v s :
  s ∈ strings_of (rendered v) -> s ∈ trusted_of v \/ exists u, u ∈ untrusted_of v /\ s = sanitise_for_audit u.
Proof.
  induction v as [t|t|i|u|b| |l IH|l IH] using Value_ind; cbn [strings_of rendered trusted_of untrusted_of];
    try (by intros ?%elem_of_nil).
  - by left.
  - intros ->%list_elem_of_singleton. right. exists t. by rewrite list_elem_of_singleton.
  - rewrite !elem_flat_map. setoid_rewrite elem_flat_map. intros (w & (v & -> & Hv)%list_elem_of_fmap & Hs).
    rewrite Forall_forall in IH. destruct (IH v Hv Hs) as [H|(u & Hu & ->)]; [left; by exists v|right].
    exists u. split; [by exists v|done].
  - rewrite !elem_flat_map. setoid_rewrite elem_flat_map. intros (w & (e & -> & He)%list_elem_of_fmap & Hs).
    rewrite Forall_forall in IH. destruct (IH e He Hs) as [H|(u & Hu & ->)]; [left; by exists e|right].
    exists u. split; [by exists e|done].
Qed.

(** The untrusted strings of an event, and those the project wrote. *)
Definition event_untrusted (e : Event) : list chars :=
  match ev_comm e with Some c => [c] | None => [] end ++ flat_map (fun f => untrusted_of f.2) (ev_fields e).
Definition event_trusted (ctx : WriterContext) (e : Event) : list chars :=
  [wc_kennel ctx; wc_kennel_uuid ctx; wc_host ctx; ev_event e] ++ flat_map (fun f => trusted_of f.2) (ev_fields e).
Definition base_fields (ctx : WriterContext) (now : Z * Z) (e : Event) : list (chars * Rendered) :=
  envelope ctx now e ++
  match ev_comm e with Some c => [(str "comm", RStr (sanitise_for_audit c))] | None => [] end ++
  map (fun f => (f.1, rendered f.2)) (ev_fields e).
Lemma render_fields ctx now e :
  rc_fields (render ctx now e) =
    base_fields ctx now e ++ (if existsb altered (event_untrusted e) then [(str "sanitised", RBool true)] else []).
Proof.
  unfold render, base_fields, event_untrusted. cbn [rc_fields].
  rewrite (map_flag_spec _ (fun f => (f.1, rendered f.2)) (fun f => untrusted_of f.2)).
  - rewrite existsb_app. destruct (ev_comm e) as [c|]; cbn [fst snd sanitise existsb].
    + rewrite <- !app_assoc. by rewrite !orb_false_r.
    + by rewrite <- !app_assoc.
  - apply Forall_forall. intros f _ flag. unfold render_field. by rewrite render_value_spec.
Qed.

Lemma dec_inert n : 0 <= n -> Forall inert (dec n).
Proof.
  intros Hn. eapply Forall_impl; [exact (dec_digits_ascii 20 n Hn)|]. cbn. intros c Hc. apply ascii_inert.
  unfold is_digit in Hc. lia.
Qed.
Lemma zeros_inert n : Forall inert (zeros n).
Proof. unfold zeros. induction n; [done|]. constructor; [by apply ascii_inert|done]. Qed.
Lemma pad_inert w n : Forall inert (pad w n).
Proof.
  unfold pad. destruct (Z.ltb_spec n 0); [constructor; [by apply ascii_inert|]|];
    (apply Forall_app_2; [apply zeros_inert|apply dec_inert; lia]).
Qed.
Lemma timestamp_inert secs micros : Forall inert (format_rfc3339_micros secs micros).
Proof.
  unfold format_rfc3339_micros. destruct (civil_from_days _) as [[y m] d].
  repeat (apply Forall_app_2; [first [apply pad_inert|by repeat (constructor; [by apply ascii_inert|])]|]).
  by repeat (constructor; [by apply ascii_inert|]).
Qed.

Ltac inert_lit := by repeat (constructor; [by apply ascii_inert|]).
Lemma resource_token_inert r : Forall inert (resource_token r).
Proof. destruct r; inert_lit. Qed.
Lemma outcome_token_inert o : Forall inert (outcome_token o).
Proof. destruct o; inert_lit. Qed.
Lemma source_token_inert s : Forall inert (source_token s).
Proof. destruct s; inert_lit. Qed.

Lemma envelope_inert ctx now e :
  Forall inert (wc_kennel ctx) -> Forall inert (wc_kennel_uuid ctx) -> Forall inert (wc_host ctx) ->
  Forall inert (ev_event e) -> Forall (Forall inert) (flat_map (fun f => strings_of f.2) (envelope ctx now e)).
Proof.
  intros H1 H2 H3 H4. unfold envelope. rewrite flat_map_app. apply Forall_app. split; [|by destruct (ev_pid e)].
  pose proof (timestamp_inert now.1 now.2) as H5. pose proof (resource_token_inert (ev_resource e)) as H6.
  pose proof (outcome_token_inert (ev_outcome e)) as H7. pose proof (source_token_inert (ev_source e)) as H8.
  revert H5 H6 H7 H8. generalize (format_rfc3339_micros now.1 now.2) (resource_token (ev_resource e))
    (outcome_token (ev_outcome e)) (source_token (ev_source e)). intros ts tr to tk H5 H6 H7 H8.
  cbn [flat_map strings_of snd app]. by repeat (constructor; [done|]).
Qed.

(** ** The level filter *)

Lemma seen_key_inj r1 r2 t1 t2 : seen_key r1 t1 = seen_key r2 t2 -> r1 = r2 /\ t1 = t2.
Proof. unfold seen_key. destruct r1, r2; cbn; intros H; try done; by injection H as <-. Qed.

(** Whether an event is one that marks its target as seen. *)
Definition marks (levels : Levels) (r : Resource) (t : chars) (e : Event) : bool :=
  negb (always_emitted (ev_resource e)) &&
  (match for_resource levels (ev_resource e) with Summary => true | _ => false end) &&
  bool_decide (ev_outcome e = Allow /\ ev_resource e = r /\ ev_target e = Some t).
Definition passes (levels : Levels) (earlier : list Event) (e : Event) : bool :=
  if always_emitted (ev_resource e) then true
  else match for_resource levels (ev_resource e) with
       | Off => false
       | DeniesOnly => bool_decide (ev_outcome e = Deny)
       | Full => true
       | Summary =>
           match ev_outcome e, ev_target e with
           | Allow, Some t => negb (existsb (marks levels (ev_resource e) t) earlier)
           | _, _ => true
           end
       end.
Definition seen_exact (levels : Levels) (earlier : list Event) (seen : gset chars) : Prop :=
  forall r t, seen_key r t ∈ seen <-> existsb (marks levels r t) earlier = true.

Lemma should_emit_exact levels earlier seen e :
  seen_exact levels earlier seen ->
  (should_emit levels seen e).1 = passes levels earlier e /\
  seen_exact levels (earlier ++ [e]) (should_emit levels seen e).2.
Proof.
  intros Hs.
  assert (forall r t, marks levels r t e = false -> existsb (marks levels r t) (earlier ++ [e]) = existsb (marks levels r t) earlier) as Hno.
  { intros r t Hm. rewrite existsb_app. cbn. by rewrite Hm, !orb_false_r. }
  unfold should_emit, passes. destruct (always_emitted (ev_resource e)) eqn:Ea.
  { split; [done|]. intros r t. rewrite Hno; [apply Hs|]. unfold marks. by rewrite Ea. }
  destruct (for_resource levels (ev_resource e)) eqn:El;
    try (split; [done|]; intros r t; rewrite Hno; [apply Hs|]; unfold marks; by rewrite El, andb_false_r).
  destruct (decide (ev_outcome e = Allow)) as [Eo|Eo].
  - rewrite Eo, bool_decide_eq_true_2 by done. cbn [negb]. destruct (ev_target e) as [t|] eqn:Et; cbn [fst snd].
    + split.
      { f_equal. apply eq_true_iff_eq. rewrite bool_decide_eq_true. apply Hs. }
      intros r' t'. rewrite elem_of_union, elem_of_singleton, existsb_app, orb_true_iff, (Hs r' t'). cbn [existsb].
      rewrite orb_false_r. unfold marks. rewrite Ea, El. cbn [negb andb]. rewrite bool_decide_eq_true, Eo, Et.
      split; [intros [H|H]; [apply seen_key_inj in H as [-> ->]; by right|by left]|].
      intros [H|(_ & <- & [= <-])]; [by right|by left].
    + split; [done|]. intros r t. rewrite Hno; [apply Hs|]. unfold marks. rewrite Et.
      rewrite bool_decide_eq_false_2; [by rewrite andb_false_r|naive_solver].
  - rewrite bool_decide_eq_false_2 by done. cbn [negb fst snd]. split; [by destruct (ev_outcome e)|].
    intros r t. rewrite Hno; [apply Hs|]. unfold marks. rewrite bool_decide_eq_false_2; [by rewrite andb_false_r|naive_solver].
Qed.

Section runs.
Context (ctx : WriterContext) (sinks : nat) (write : list (nat * AuditRecord) -> nat -> AuditRecord -> option SinkError).

(** A sequence of events, each with the time it is emitted at: what [emit] returns for each. *)
Fixpoint emit_all (levels : Levels) (es : list ((Z * Z) * Event)) (w : Writer) : list bool * Writer :=
  match es with
  | [] => ([], w)
  | (now, e) :: es =>
      let r := emit ctx sinks write levels now e w in
      let rs := emit_all levels es r.2 in (r.1 :: rs.1, rs.2)
  end.
Definition writer_new : Writer := {| wr_seen := ∅; wr_sent := {| sn_writes := []; sn_stderr := [] |} |}.

Lemma emit_all_exact levels earlier es w :
  seen_exact levels earlier (wr_seen w) ->
  forall k, (emit_all levels es w).1 !! k = (fun e => passes levels (earlier ++ map snd (take k es)) e.2) <$> es !! k.
Proof.
  revert earlier w; induction es as [|[now e] es IH]; intros earlier w Hs k; [by destruct k|].
  destruct (should_emit_exact levels earlier (wr_seen w) e Hs) as [H1 H2]. cbn [emit_all].
  destruct k as [|k]; cbn.
  - by rewrite H1, app_nil_r.
  - rewrite (IH (earlier ++ [e])) by done. by rewrite <- app_assoc.
Qed.
Lemma seen_exact_new levels : seen_exact levels [] (wr_seen writer_new).
Proof. intros r t. cbn. split; [intros H; by apply elem_of_empty in H|done]. Qed.

(** ** Fan-out *)

Lemma drop_to_healthy failed r ids s d :
  (forall h i, i ∈ ids -> i <> failed -> write h i r = None) ->
  drop_to write failed r ids s d =
    ({| sn_writes := sn_writes s ++ map (fun i => (i, r)) (filter (fun i => i <> failed) ids);
        sn_stderr := sn_stderr s |}, d || negb (is_nil (filter (fun i => i <> failed) ids))).
Proof.
  revert s d; induction ids as [|i ids IH]; intros s d Hw; cbn [drop_to].
  { cbn. rewrite app_nil_r, orb_false_r. by destruct s. }
  destruct (Nat.eqb_spec i failed) as [->|Hne].
  - rewrite IH by (intros; apply Hw; [by right|done]). by rewrite filter_cons_False by naive_solver.
  - rewrite Hw by (by left || done). rewrite IH by (intros; apply Hw; [by right|done]).
    rewrite filter_cons_True by done. cbn [sn_writes sn_stderr map is_nil negb]. rewrite <- app_assoc. by rewrite orb_true_r.
Qed.
Lemma fan_to_healthy r ids s :
  (forall h i, i ∈ ids -> write h i r = None) ->
  fan_to ctx sinks write r ids s =
    {| sn_writes := sn_writes s ++ map (fun i => (i, r)) ids; sn_stderr := sn_stderr s |}.
Proof.
  revert s; induction ids as [|i ids IH]; intros s Hw; cbn [fan_to]; [cbn; rewrite app_nil_r; by destruct s|].
  rewrite Hw by (by left). rewrite IH by (intros; apply Hw; by right). cbn [sn_writes sn_stderr map].
  by rewrite <- app_assoc.
Qed.
Lemma fan_to_app r a b s : fan_to ctx sinks write r (a ++ b) s = fan_to ctx sinks write r b (fan_to ctx sinks write r a s).
Proof. revert s; induction a as [|i a IH]; intros s; cbn [fan_to app]; [done|apply IH]. Qed.
End runs.

(** * Properties *)

(** A rendered record is one line, and the line is JSON that reads back as its fields, in order. *)
Theorem jsonl_round_trip r :
  record_ok r ->
  read_json (to_jsonl r) = Some (JObj (map (fun e => (e.1, to_json e.2)) (rc_fields r))) /\
  Forall (fun c => 32 <= c) (to_jsonl r).
Proof.
  intros Hr. change (to_jsonl r) with (push_value (RObject (rc_fields r))).
  assert (rendered_ok (RObject (rc_fields r))) as Hok by (by apply foldr_Forall). split; [|by apply push_value_line].
  unfold read_json. pose proof (value_reads_back (RObject (rc_fields r)) [] (S (length (push_value (RObject (rc_fields r)))))) as H.
  rewrite app_nil_r in H. rewrite H by (done || lia). done.
Qed.

Definition sample_ctx : WriterContext :=
  {| wc_kennel := str "ai-coding"; wc_kennel_uuid := str "018bcfe5-6800-7102-8304-05060708090a"; wc_host := str "workstation" |}.
(** A denied execution whose arguments hold a quote, a newline and a bidirectional override. *)
Definition sample_event : Event :=
  with_field (str "argv") (VArray [VUntrusted [34; 10; 8238]; VInt (-1)])
    (with_comm (str "curl") (with_pid 4242 (event_new (str "exec.deny") Exec Deny Kernel))).
Definition sample_record : AuditRecord := render sample_ctx (1779712496, 789012) sample_event.
Lemma sample_record_ok : record_ok sample_record.
Proof. apply record_okb_ok. vm_compute. reflexivity. Qed.
Lemma jsonl_round_trip_witness :
  read_json (to_jsonl sample_record) = Some (JObj (map (fun e => (e.1, to_json e.2)) (rc_fields sample_record))) /\
  Forall (fun c => 32 <= c) (to_jsonl sample_record).
Proof. apply jsonl_round_trip, sample_record_ok. Defined.

(** C34: No live character in a record: every string of it is free of control and spoofing characters, when
    those the project writes are; and the record is flagged exactly when an untrusted string was altered. *)
Theorem audit_record_inert ctx now e (fields := rc_fields (render ctx now e)) :
  Forall (Forall is_char) (event_untrusted e) -> Forall (Forall inert) (event_trusted ctx e) ->
  Forall (Forall inert) (flat_map (fun f => strings_of f.2) fields) /\
  ((str "sanitised", RBool true) ∈ drop (length (base_fields ctx now e)) fields <->
   exists s, s ∈ event_untrusted e /\ sanitise_for_audit s <> s).
Proof.
  intros Hu Ht. subst fields. rewrite render_fields. rewrite drop_app_length. split.
  - rewrite flat_map_app. apply Forall_app_2; [|by destruct (existsb _ _)].
    assert (forall s, s ∈ event_untrusted e -> Forall inert (sanitise_for_audit s)) as Hi.
    { intros s Hs. rewrite Forall_forall in Hu. by apply (escape_all_inert false s), Hu. }
    unfold event_trusted in Ht. cbn [app] in Ht. rewrite !Forall_cons in Ht. destruct Ht as (H1 & H2 & H3 & H4 & Ht).
    unfold base_fields. rewrite !flat_map_app, !Forall_app. split_and!.
    + by apply envelope_inert.
    + destruct (ev_comm e) as [c|] eqn:Ec; [|constructor]. cbn. constructor; [|constructor]. apply Hi.
      unfold event_untrusted. rewrite Ec. by left.
    + rewrite Forall_forall. intros s (f & (g & -> & Hg)%list_elem_of_fmap & Hs)%elem_flat_map.
      destruct (rendered_strings _ _ Hs) as [H|(u & Hu' & ->)].
      * rewrite Forall_forall in Ht. apply Ht, elem_flat_map. by exists g.
      * apply Hi. unfold event_untrusted. apply elem_of_app. right. apply elem_flat_map. by exists g.
  - transitivity (existsb altered (event_untrusted e) = true).
    + destruct (existsb _ _); rewrite ?list_elem_of_singleton, ?elem_of_nil; by split.
    + rewrite existsb_exists. setoid_rewrite <- list_elem_of_In. unfold altered. setoid_rewrite negb_true_iff.
      by setoid_rewrite bool_decide_eq_false.
Qed.
Lemma audit_record_inert_witness :
  (str "sanitised", RBool true) ∈ drop (length (base_fields sample_ctx (1779712496, 789012) sample_event)) (rc_fields sample_record) /\
  Forall (Forall inert) (flat_map (fun f => strings_of f.2) (rc_fields sample_record)).
Proof.
  destruct (audit_record_inert sample_ctx (1779712496, 789012) sample_event) as [H1 H2].
  - repeat (constructor; [apply is_charb_ok; reflexivity|]). constructor.
  - repeat (constructor; [inert_lit|]). constructor.
  - split; [|exact H1]. apply H2. exists [34; 10; 8238]. split; [cbn; set_solver|by vm_compute].
Defined.

(** What the writer emits, over any sequence of events: lifecycle and privileged ones always; by level
    otherwise, and under [summary] the first allow of a target and no other. *)
Theorem level_filter_exact ctx sinks write levels es k :
  (emit_all ctx sinks write levels es writer_new).1 !! k =
    (fun e => passes levels (map snd (take k es)) e.2) <$> es !! k.
Proof. apply (emit_all_exact ctx sinks write levels [] es writer_new), seen_exact_new. Qed.

(** When one sink is down, every other sink is given the record and a report of the failure, the sink that
    is down is given the record only, and nothing is printed unless it was the only one. *)
Theorem failed_sink_reported ctx sinks write r s k err (others := filter (fun i => i <> k) (seq 0 sinks)) :
  (k < sinks)%nat -> (forall h, write h k r = Some err) -> (forall h i q, i <> k -> write h i q = None) ->
  let s' := fan_out ctx sinks write r s in
  sn_writes s' = sn_writes s ++ map (fun i => (i, r)) (seq 0 (S k)) ++
    map (fun i => (i, drop_record ctx err)) others ++ map (fun i => (i, r)) (seq (S k) (sinks - S k)) /\
  sn_stderr s' = sn_stderr s ++ (if (1 <? sinks)%nat then [] else [err]).
Proof.
  intros Hk Hdown Hup. cbv zeta. unfold fan_out.
  assert (seq 0 sinks = seq 0 k ++ k :: seq (S k) (sinks - S k)) as Eseq.
  { replace sinks with (k + S (sinks - S k))%nat at 1 by lia. by rewrite seq_app. }
  assert (map (fun i => (i, r)) (seq 0 (S k)) = map (fun i => (i, r)) (seq 0 k) ++ [(k, r)]) as -> by (by rewrite seq_S, map_app).
  assert (is_nil others = negb (1 <? sinks)%nat) as En.
  { subst others. destruct (Nat.ltb_spec 1 sinks).
    - destruct (filter _ _) as [|i l] eqn:E; [|done]. exfalso.
      assert ((if decide (k = 0) then 1 else 0)%nat ∈ filter (fun i => i <> k) (seq 0 sinks)) as Hin.
      { apply list_elem_of_filter. rewrite elem_of_seq. case_decide; lia. }
      rewrite E in Hin. by apply elem_of_nil in Hin.
    - assert (sinks = 1)%nat as -> by lia. assert (k = 0)%nat as -> by lia. done. }
  match goal with |- sn_writes ?f = ?w /\ sn_stderr ?f = ?e =>
    enough (f = {| sn_writes := w; sn_stderr := e |}) as -> by done end.
  rewrite Eseq at 1. rewrite fan_to_app. rewrite (fan_to_healthy ctx sinks write r (seq 0 k)).
  2: { intros h i Hi%elem_of_seq. apply Hup. lia. }
  cbn [fan_to]. rewrite Hdown. rewrite fan_to_healthy.
  2: { intros h i Hi%elem_of_seq. apply Hup. lia. }
  unfold report_drop. rewrite drop_to_healthy by (intros; by apply Hup). cbn [fst snd orb sn_writes sn_stderr].
  fold others. rewrite En, negb_involutive. destruct (1 <? sinks)%nat; cbn [sn_writes sn_stderr];
    f_equal; rewrite ?app_nil_r; rewrite <- ?app_assoc; done.
Qed.
Lemma failed_sink_reported_witness :
  let s' := fan_out sample_ctx 2 (fun _ i _ => if (i =? 0)%nat then Some {| se_sink := str "file"; se_message := str "full" |} else None)
              sample_record {| sn_writes := []; sn_stderr := [] |} in
  map fst (sn_writes s') = [0; 1; 1]%nat /\ sn_stderr s' = [].
Proof.
  destruct (failed_sink_reported sample_ctx 2
    (fun _ i _ => if (i =? 0)%nat then Some {| se_sink := str "file"; se_message := str "full" |} else None)
    sample_record {| sn_writes := []; sn_stderr := [] |} 0 {| se_sink := str "file"; se_message := str "full" |}) as [H1 H2].
  - lia.
  - reflexivity.
  - intros h i q Hi. destruct (Nat.eqb_spec i 0); [done|reflexivity].
  - split; [rewrite H1; reflexivity|rewrite H2; reflexivity].
Defined.
