(* ===== verification/AuditSinks.v ===== *)
(** The audit sinks and the daemon's use of them ([kennel-lib-audit/src/sinks.rs],
    [timeout.rs], [journald.rs], [message_ids.rs], [build.rs]; [kenneld/src/audit.rs]
    and the event of [kenneld/src/spawn.rs]).

    The directory of a file sink is the map from the names in it to their text; a
    rename fails when there is nothing to rename.  [gzip] is a program of the system
    and the parser of [audit.toml] another crate: parameters.  The queue between the
    writer and a sink's worker thread is a transition system whose steps are the
    writer's, the worker's and the closing.

    Theorems: what each sink writes and its bounds; what a queue delivers; which files
    rotation and retention keep, and which they lose; which events are lost silently. *)

From stdpp Require Import gmap sorting.
From S2P Require Import Prelude Bytes Str Source Resolve Translate Text Settled AuditTime AuditLog PrivWire.
Open Scope Z_scope.

(** * Bytes of a text *)

Definition char_len (c : Z) : Z := if c <? 128 then 1 else if c <? 2048 then 2 else if c <? 65536 then 3 else 4.
(** [String::len]. *)
Definition text_len (s : chars) : Z := foldr (fun c n => char_len c + n) 0 s.

(** * [sinks.rs]: files *)

Definition oversize (sink : chars) (len : Z) : SinkError := {|
  se_sink := sink;
  se_message := str "event of " ++ dec len ++ str " bytes exceeds the " ++ dec MAX_EVENT_BYTES ++ str "-byte atomic limit" |}.

Abbreviation dir := (gmap chars chars).
Record FileSink : Type := {
  fk_rotate_at_bytes : option Z; fk_compress_after_seconds : option Z; fk_retain_count : option nat }.
Definition path_for (r : Resource) : chars := file_stem r ++ str ".jsonl".
Definition rotated_path (r : Resource) (secs : Z) : chars := file_stem r ++ str "." ++ dec_int secs ++ str ".jsonl".

Definition i64_max : Z := 9223372036854775807.
(** [str::parse::<i64>]. *)
Definition parse_i64 (s : chars) : option Z :=
  match s with
  | 45 :: t => match t with [] => None | _ => Z.opp <$> parse_digits (i64_max + 1) 0 t end
  | _ => parse_uint i64_max s
  end.
(** The stamp of an uncompressed rotation, and of any. *)
Definition plain_stamp (r : Resource) (name : chars) : option Z :=
  rest ← strip_prefix (file_stem r ++ str ".") name; stamp ← strip_suffix (str ".jsonl") rest; parse_i64 stamp.
Definition any_stamp (r : Resource) (name : chars) : option Z :=
  rest ← strip_prefix (file_stem r ++ str ".") name;
  stamp ← (match strip_suffix (str ".jsonl.gz") rest with Some s => Some s | None => strip_suffix (str ".jsonl") rest end);
  parse_i64 stamp.

Definition stamp_le (a b : Z * chars) : Prop := a.1 <= b.1.
Global Instance stamp_le_dec a b : Decision (stamp_le a b).
Proof. unfold stamp_le. apply _. Defined.
(** The rotated files of a class, as [read_dir] lists them. *)
Definition rotations (r : Resource) (d : dir) : list (Z * chars) :=
  omap (fun e => (fun ts => (ts, e.1)) <$> any_stamp r e.1) (map_to_list d).
Definition surplus (r : Resource) (keep : nat) (d : dir) : list (Z * chars) :=
  take (length (rotations r d) - keep) (merge_sort stamp_le (rotations r d)).
Definition remove_files (names : list chars) (d : dir) : dir := foldr (fun n d => delete n d) d names.
Definition enforce_retention (k : FileSink) (r : Resource) (d : dir) : dir :=
  match fk_retain_count k with
  | None => d
  | Some keep =>
      if (length (rotations r d) <=? keep)%nat then d
      else remove_files (map snd (surplus r keep d)) d
  end.

Section file_sink.
(** What [gzip] makes of a file, or its failure. *)
Context (gzip : chars -> option chars).
Definition gzip_file (name : chars) (d : dir) : dir :=
  match d !! name with
  | Some text => match gzip text with Some gz => <[name ++ str ".gz" := gz]> (delete name d) | None => d end
  | None => d
  end.
Definition sat_sub_i64 (a b : Z) : Z := Z.max (- 9223372036854775808) (Z.min i64_max (a - b)).
Definition compress_one (r : Resource) (now after : Z) (d : dir) (name : chars) : dir :=
  match plain_stamp r name with
  | None => d
  | Some ts =>
      if sat_sub_i64 now ts <? after then d
      else match d !! (name ++ str ".gz") with Some _ => d | None => gzip_file name d end
  end.
Definition maybe_compress (k : FileSink) (r : Resource) (now : Z) (d : dir) : dir :=
  match fk_compress_after_seconds k with
  | None => d
  | Some after => foldl (compress_one r now (Z.min after i64_max)) d (map fst (map_to_list d))
  end.

Definition size_of (d : dir) (name : chars) : Z := match d !! name with Some text => text_len text | None => 0 end.
Definition maybe_rotate (k : FileSink) (r : Resource) (secs : Z) (incoming : Z) (d : dir) : dir :=
  match fk_rotate_at_bytes k with
  | None => d
  | Some limit =>
      if sat_add u64_max (size_of d (path_for r)) incoming <=? limit then d
      else match d !! path_for r with
           | Some text => maybe_compress k r secs
                            (enforce_retention k r (<[rotated_path r secs := text]> (delete (path_for r) d)))
           | None => d
           end
  end.
(** What an append finds there. *)
Definition text_at (d : dir) (name : chars) : chars := match d !! name with Some text => text | None => [] end.
Definition line_of (r : AuditRecord) : chars := to_jsonl r ++ [10].
Definition file_write (k : FileSink) (secs : Z) (rec : AuditRecord) (d : dir) : result SinkError dir :=
  let line := line_of rec in
  if MAX_EVENT_BYTES <? text_len line then Err (oversize (str "file") (text_len line))
  else let d := maybe_rotate k (rc_resource rec) secs (text_len line) d in
       let path := path_for (rc_resource rec) in
       Ok (<[path := text_at d path ++ line]> d).
End file_sink.

(** The standard output: what has been written to it. *)
Definition stdout_write (rec : AuditRecord) (out : chars) : result SinkError chars :=
  let line := line_of rec in
  if MAX_EVENT_BYTES <? text_len line then Err (oversize (str "stdout") (text_len line)) else Ok (out ++ line).

(** * [sinks.rs]: syslog *)

Definition SYSLOG_MAX_BYTES : Z := 2048.
Definition SYSLOG_SD_ID : chars := str "kennel@32473".
Definition field_str (rec : AuditRecord) (key : chars) : option chars :=
  head (omap (fun e => match e.2 with RStr s => if bool_decide (e.1 = key) then Some s else None | _ => None end)
             (rc_fields rec)).
Definition sd_param_text (v : Rendered) : option chars :=
  match v with
  | RStr s => Some s
  | RInt i => Some (dec_int i)
  | RUint u => Some (dec u)
  | RBool b => Some (bool_text b)
  | RNull | RArray _ | RObject _ => None
  end.
Definition push_sd_escaped (s : chars) : chars :=
  flat_map (fun c => if (c =? QUOTE) || (c =? BACKSLASH) || (c =? 93) then [BACKSLASH; c] else [c]) s.
Definition sd_param (e : chars * Rendered) : chars :=
  match sd_param_text e.2 with
  | Some text => str " " ++ e.1 ++ [61; QUOTE] ++ push_sd_escaped text ++ [QUOTE]
  | None => []
  end.
(** [truncate] at the last character boundary not after [n]. *)
Fixpoint truncate_to (n : Z) (s : chars) : chars :=
  match s with
  | [] => []
  | c :: s => if char_len c <=? n then c :: truncate_to (n - char_len c) s else []
  end.
Definition TRUNCATED : chars := str "...[truncated]".
Definition syslog_format (facility procid : Z) (rec : AuditRecord) : chars :=
  let pri := (facility * 8 + severity (rc_outcome rec)) mod 65536 in
  let ts := default (str "-") (field_str rec (str "ts")) in
  let host := default (str "-") (field_str rec (str "host")) in
  let sd := str "[" ++ SYSLOG_SD_ID ++ flat_map sd_param (rc_fields rec) ++ str "]" in
  let out := str "<" ++ dec pri ++ str ">1 " ++ ts ++ str " " ++ host ++ str " kennel-lib-audit " ++ dec procid ++
             str " " ++ rc_event_type rec ++ str " " ++ sd ++ str " " ++ message rec in
  if SYSLOG_MAX_BYTES <? text_len out then truncate_to (SYSLOG_MAX_BYTES - 16) out ++ TRUNCATED else out.

(** * [journald.rs], [message_ids.rs] *)

Definition upper (c : Z) : Z := if (97 <=? c) && (c <=? 122) then c - 32 else c.
Definition journal_name (key : chars) : chars := str "KENNEL_" ++ map upper key.
Fixpoint journal_fields (key : chars) (v : Rendered) : list chars :=
  match v with
  | RStr s => [journal_name key ++ str "=" ++ s]
  | RInt i => [journal_name key ++ str "=" ++ dec_int i]
  | RUint u => [journal_name key ++ str "=" ++ dec u]
  | RBool b => [journal_name key ++ str "=" ++ bool_text b]
  | RNull => []
  | RArray items => flat_map (journal_fields key) items
  | RObject entries => flat_map (fun e => journal_fields (key ++ str "_" ++ e.1) e.2) entries
  end.

Definition MESSAGE_IDS : list (chars * chars) :=
  [(str "net.connect-allow", str "f3f34d7d-9803-4f86-b0e0-6448ab9d2a46");
   (str "net.connect-deny", str "272a449a-5530-4235-a25e-fe9db4efcf0e");
   (str "net.bind-allow", str "7530d120-917e-4798-a401-04672c6e17bf");
   (str "net.bind-deny", str "11ae7eb0-66e8-4172-b84d-4da9f95dc30f");
   (str "net.bind-rewrite", str "e16826e6-6e04-4f1a-afaa-8747a1aaff27");
   (str "net.egress", str "b9c1f4a2-3d6e-4c11-9a2f-7e0c5d8a1b34");
   (str "fs.access-deny", str "31cdea3a-b4a3-4b28-a0a6-b701dc8bc9fe");
   (str "fs.scrub-hit", str "43aaffc6-f93f-4444-a639-7ccf6ded44ac");
   (str "exec.allow", str "0c7f429f-fd8c-45fe-85db-9d8f03b16bff");
   (str "exec.deny", str "c5ea6b43-d002-4a9b-bac9-68f485dd0b4a");
   (str "unix.connect-allow", str "77aa28e6-ad83-40a8-a7d0-c23aa3b7b95b");
   (str "unix.connect-deny", str "990d921b-1bcf-4f80-8031-cd6a47663b7c");
   (str "dbus.call-allow", str "96966399-d539-4baa-96b3-820beb95d03e");
   (str "dbus.call-deny", str "c4499d84-b627-499a-9893-38580f563322");
   (str "priv.invoke", str "76e3b05f-baf7-47f5-b5a9-b79c72645f4c");
   (str "priv.refuse", str "1e8d2bd0-1455-4d0a-a6e0-560519bf188e");
   (str "lifecycle.kennel-start", str "6a9570ea-637e-4afe-851a-797656ab5f3f");
   (str "lifecycle.kennel-exit", str "c251f7c2-2a1d-4b83-9eff-80e60ca5af4e");
   (str "lifecycle.daemon-spawn", str "401f4e9f-91d9-4564-8569-f704c2d69819");
   (str "lifecycle.daemon-exit", str "650d50d5-033c-463e-a197-55a9e6b8d489");
   (str "lifecycle.daemon-giveup", str "a25a7e30-c0b7-439b-8bb1-f3f3cc51fd27");
   (str "lifecycle.workload-exit", str "8bbe34b4-409d-4042-aaf1-47b4526876f8");
   (str "lifecycle.kenneld-state-dump", str "0c03a424-1d3c-4d09-8e0f-d402ea6b08be");
   (str "lifecycle.audit-drop", str "e27d4ef0-0cc1-4893-a0ad-79b243f55901");
   (str "lifecycle.audit-truncate", str "9bd3be2d-cdf5-447b-a783-7713fe211f4c")].
Definition for_event (event : chars) : option chars :=
  (fun e => filter (fun c => c <> 45) e.2) <$> head (filter (fun e => e.1 = event) MESSAGE_IDS).
(** The fields submitted to the journal. *)
Definition journal_entry (rec : AuditRecord) : list chars :=
  flat_map (fun e => journal_fields e.1 e.2) (rc_fields rec) ++
  [str "MESSAGE=" ++ message rec; str "SYSLOG_IDENTIFIER=kennel-lib-audit";
   str "PRIORITY=" ++ dec (severity (rc_outcome rec))] ++
  match for_event (rc_event_type rec) with Some id => [str "MESSAGE_ID=" ++ id] | None => [] end.

(** * [timeout.rs] *)

Definition DEFAULT_CAPACITY : nat := 1024.
(** The queue, what the worker has taken from it, and whether the sender is there. *)
Record Queue : Type := { qu_queue : list AuditRecord; qu_taken : list AuditRecord; qu_open : bool }.
Definition queue_new : Queue := {| qu_queue := []; qu_taken := []; qu_open := true |}.
Definition queue_capacity (capacity : nat) : nat := Nat.max capacity 1.
Definition timeout_err (name : chars) (message : chars) : SinkError := {| se_sink := name; se_message := message |}.
(** [TimeoutSink::write]: the answer and the queue after it. *)
Definition timeout_write (name : chars) (cap : nat) (rec : AuditRecord) (q : Queue) : option SinkError * Queue :=
  if negb (qu_open q) then (Some (timeout_err name (str "sink closed")), q)
  else if (length (qu_queue q) <? cap)%nat
  then (None, {| qu_queue := qu_queue q ++ [rec]; qu_taken := qu_taken q; qu_open := true |})
  else (Some (timeout_err name (str "buffer full; event dropped")), q).
(** The worker receives. *)
Definition worker_take (q : Queue) : option Queue :=
  match qu_queue q with
  | [] => None
  | r :: rs => Some {| qu_queue := rs; qu_taken := qu_taken q ++ [r]; qu_open := qu_open q |}
  end.
Definition close (q : Queue) : Queue := {| qu_queue := qu_queue q; qu_taken := qu_taken q; qu_open := false |}.
Inductive queue_step (cap : nat) : option AuditRecord -> Queue -> Queue -> Prop :=
  | StepAccept name rec q q' : timeout_write name cap rec q = (None, q') -> queue_step cap (Some rec) q q'
  | StepRefuse name rec err q q' : timeout_write name cap rec q = (Some err, q') -> queue_step cap None q q'
  | StepTake q q' : worker_take q = Some q' -> queue_step cap None q q'
  | StepClose q : queue_step cap None q (close q).
(** Reachable, with the records accepted on the way. *)
Inductive queue_run (cap : nat) : list AuditRecord -> Queue -> Prop :=
  | RunNew : queue_run cap [] queue_new
  | RunStep accepted o q q' : queue_run cap accepted q -> queue_step cap o q q' ->
      queue_run cap (accepted ++ match o with Some rec => [rec] | None => [] end) q'.
(** [Drop]: close, then join the worker, which empties the queue. *)
Fixpoint drain (fuel : nat) (q : Queue) : Queue :=
  match fuel with
  | O => q
  | S fuel => match worker_take q with Some q => drain fuel q | None => q end
  end.
Definition queue_drop (q : Queue) : Queue := drain (length (qu_queue q)) (close q).
(** The worker's write to a file sink: its error is swallowed. *)
Definition worker_write (gzip : chars -> option chars) (k : FileSink) (secs : Z) (d : dir) (rec : AuditRecord) : dir :=
  match file_write gzip k secs rec d with Ok d => d | Err _ => d end.

(** * [build.rs] *)

Inductive SinkKind : Type := KFile | KStdout | KSyslog | KJournald.
Definition sink_kind_parse (token : chars) : option SinkKind :=
  if bool_decide (token = str "file") then Some KFile
  else if bool_decide (token = str "stdout") then Some KStdout
  else if bool_decide (token = str "syslog") then Some KSyslog
  else if bool_decide (token = str "journald") then Some KJournald
  else None.
Record SinkConfig : Type := {
  sc_kinds : list SinkKind; sc_file : FileSink; sc_syslog_facility : option chars }.
Definition facilities : list (chars * Z) :=
  [(str "kern", 0); (str "mail", 2); (str "daemon", 3); (str "auth", 4); (str "syslog", 5); (str "lpr", 6);
   (str "news", 7); (str "uucp", 8); (str "cron", 9); (str "authpriv", 10); (str "ftp", 11); (str "local0", 16);
   (str "local1", 17); (str "local2", 18); (str "local3", 19); (str "local4", 20); (str "local5", 21);
   (str "local6", 22); (str "local7", 23)].
Definition facility_code (name : option chars) : Z :=
  match name with
  | None => 1
  | Some n => default 1 (snd <$> head (filter (fun f => f.1 = n) facilities))
  end.
Inductive BuiltSink : Type := BFile (k : FileSink) | BStdout | BSyslog (facility : Z) | BJournald.
Section build.
(** Whether the state directory and the syslog socket can be made, and whether the journal is built in. *)
Context (dir_ok socket_ok journald : bool).
Definition build_one (cfg : SinkConfig) (kind : SinkKind) : list BuiltSink :=
  match kind with
  | KFile => if dir_ok then [BFile (sc_file cfg)] else []
  | KStdout => [BStdout]
  | KSyslog => if socket_ok then [BSyslog (facility_code (sc_syslog_facility cfg))] else []
  | KJournald => if journald then [BJournald] else []
  end.
(** The sinks of [writer]; each is behind a queue of [DEFAULT_CAPACITY]. *)
Definition build_sinks (cfg : SinkConfig) : list BuiltSink :=
  flat_map (build_one cfg) (if is_nil (sc_kinds cfg) then [KFile] else sc_kinds cfg).
End build.

(** * [kenneld/src/audit.rs] *)

Definition sink_kind_of (k : AuditSinkKind) : SinkKind :=
  match k with SinkFile => KFile | SinkStdout => KStdout | SinkSyslog => KSyslog | SinkJournald => KJournald end.
Definition parse_level (token : option chars) : option Level := token ≫= level_parse.
Definition levels_from (rt : AuditRuntime) : Levels := {|
  lv_net := default (lv_net levels_default) (parse_level (au_network_level rt));
  lv_fs := default (lv_fs levels_default) (parse_level (au_filesystem_level rt));
  lv_exec := default (lv_exec levels_default) (parse_level (au_exec_level rt));
  lv_unix := default (lv_unix levels_default) (parse_level (au_unix_level rt));
  lv_dbus := default (lv_dbus levels_default) (parse_level (au_dbus_level rt)) |}.
Definition file_config (rt : AuditRuntime) : FileSink := {|
  fk_rotate_at_bytes := af_rotate_at_bytes (au_file rt);
  fk_compress_after_seconds := af_compress_after_seconds (au_file rt);
  fk_retain_count := Z.to_nat <$> af_retain_count (au_file rt) |}.
Definition build_config (rt : AuditRuntime) : SinkConfig := {|
  sc_kinds := map sink_kind_of (au_sinks rt); sc_file := file_config rt; sc_syslog_facility := au_syslog_facility rt |}.
Definition daemon_config (rt : AuditRuntime) : SinkConfig := {|
  sc_kinds := [KStdout]; sc_file := file_config rt; sc_syslog_facility := au_syslog_facility rt |}.
(** [kennel_uuid], from the clock and the random source when they answer. *)
Definition kennel_uuid (ms : option Z) (rand : option bytes) : chars :=
  format_uuid_v7 (default 0 ms) (default (repeat 0 10) rand).

Definition MAX_AUDIT_TOML : Z := 64 * 1024.
(** A file of defaults: absent or unreadable, or its size and its text. *)
Inductive DefaultsFile : Type := Absent | Unreadable | Present (len : Z) (text : option bytes).
Section defaults.
Context (parse_audit_defaults : bytes -> option AuditRuntime).
Definition overlay_one (acc : AuditRuntime) (f : DefaultsFile) : AuditRuntime :=
  match f with
  | Absent | Unreadable => acc
  | Present len text =>
      if MAX_AUDIT_TOML <? len then acc
      else match text ≫= parse_audit_defaults with Some rt => audit_overlay acc rt | None => acc end
  end.
Definition overlay_files (files : list DefaultsFile) : AuditRuntime := foldl overlay_one audit_empty files.
End defaults.

Definition kennel_start (pid ctx : Z) : Event :=
  with_field (str "started_pid") (VUint pid) (with_field (str "ctx") (VUint ctx)
    (with_pid pid (event_new (str "lifecycle.kennel-start") Lifecycle Info Kenneld))).
Definition workload_exit (pid exit_code : Z) : Event :=
  with_field (str "exit_code") (VInt exit_code)
    (with_pid pid (event_new (str "lifecycle.workload-exit") Lifecycle Info Kenneld)).
Definition fs_mutation (path action : chars) (enforced : bool) : Event :=
  with_field (str "action") (VUntrusted action) (with_field (str "path") (VUntrusted path)
    (event_new (str "fs.mutation") Fs (if enforced then Deny else Info) Kenneld)).
Definition kennel_exit (reason : chars) : Event :=
  with_field (str "reason") (VStr reason) (event_new (str "lifecycle.kennel-exit") Lifecycle Info Kenneld).
Definition priv_invoke (operation : chars) (params : Value) (duration_ms : Z) : Event :=
  with_field (str "duration_ms") (VUint duration_ms) (with_field (str "params") params
    (with_field (str "operation") (VStr operation) (event_new (str "priv.invoke") Priv Allow Privhelper))).
Definition priv_refuse (operation : chars) (params : Value) (o : Outcome) (code : Z) (message : chars) : Event :=
  with_field (str "message") (VStr message) (with_field (str "code") (VInt code) (with_field (str "params") params
    (with_field (str "operation") (VStr operation) (event_new (str "priv.refuse") Priv o Privhelper)))).
Definition REFUSAL_CGROUP_NOT_OWNED : Z := 101.
Definition refusal_message (code : Z) : chars :=
  if code =? 1 then str "prefix length is wrong for the address family"
  else if code =? 2 then str "address is outside the reserved per-kennel subnet"
  else if code =? 3 then str "interface is not `lo` or a `<namespace>-<id>` dummy"
  else if code =? 4 then str "interface name exceeds the kernel length limit"
  else if code =? 100 then str "helper has no configured reserved scope for this user"
  else if code =? REFUSAL_CGROUP_NOT_OWNED then str "target cgroup is not owned by the caller"
  else str "refused".
(** [AuditedPrivileged::record]: the event of one completed call, [Err] being its I/O error's text. *)
Definition priv_event (operation : chars) (params : Value) (duration_ms : Z) (r : result chars Response) : Event :=
  match r with
  | Ok r =>
      match rs_status r with
      | StOk => priv_invoke operation params duration_ms
      | StRefused => priv_refuse operation params Deny (rs_refusal r) (refusal_message (rs_refusal r))
      | StProtocol => priv_refuse operation params Error 0 (str "privhelper rejected the request as malformed")
      | StInternal => priv_refuse operation params Error (rs_errno r) (str "privileged syscall failed in the helper")
      end
  | Err e => priv_refuse operation params Error (-1) e
  end.
Definition addr_params (ctx : Z) (interface addr : chars) (prefix : Z) : Value :=
  VObject [(str "ctx", VUint ctx); (str "interface", VStr interface); (str "addr", VStr addr); (str "prefix", VUint prefix)].

(** * [kenneld/src/spawn.rs]: the event of a spawn, and the reason of an ungranted one *)

Definition spawn_event (ctx sender_pid : Z) (o : Outcome) (detail : chars) : Event :=
  with_field (str "ctx") (VUint ctx) (with_field (str "detail") (VUntrusted detail)
    (with_pid (if (0 <=? sender_pid) then sender_pid else 0) (event_new (str "kennel.spawn") Binder o Kenneld))).
Definition not_granted (template : chars) : chars :=
  str "template `" ++ template ++ str "` is not in this kennel's [spawn.allow]".

(** * Lemmas *)

Lemma char_len_bound c : 1 <= char_len c <= 4.
Proof. unfold char_len. repeat case_match; lia. Qed.
Lemma text_len_app a b : text_len (a ++ b) = text_len a + text_len b.
Proof. unfold text_len. induction a as [|c a IH]; cbn; [done|]. rewrite IH. lia. Qed.
Lemma text_len_length s : Z.of_nat (length s) <= text_len s.
Proof.
  unfold text_len. induction s as [|c s IH]; cbn [length foldr]; [done|]. pose proof (char_len_bound c). lia.
Qed.
Lemma truncate_to_bound n s : 0 <= n -> text_len (truncate_to n s) <= n.
Proof.
  revert n; induction s as [|c s IH]; intros n Hn; [done|]. cbn [truncate_to].
  destruct (Z.leb_spec (char_len c) n); [|done]. specialize (IH (n - char_len c) ltac:(lia)).
  change (text_len (c :: ?x)) with (char_len c + text_len x). lia.
Qed.

(** The reading of an SD-PARAM value up to its closing quote (RFC 5424, section 6.3.3). *)
Fixpoint read_sd (s : chars) : option (chars * chars) :=
  match s with
  | [] => None
  | c :: r =>
      if c =? QUOTE then Some ([], r)
      else if c =? 93 then None
      else if c =? BACKSLASH then
        match r with
        | d :: r => if (d =? QUOTE) || (d =? BACKSLASH) || (d =? 93) then p ← read_sd r; Some (d :: p.1, p.2) else None
        | [] => None
        end
      else p ← read_sd r; Some (c :: p.1, p.2)
  end.
Lemma read_sd_escaped s rest : read_sd (push_sd_escaped s ++ QUOTE :: rest) = Some (s, rest).
Proof.
  induction s as [|c s IH]; [done|]. unfold push_sd_escaped in *. cbn [flat_map].
  destruct ((c =? QUOTE) || (c =? BACKSLASH) || (c =? 93)) eqn:E.
  - cbn [app read_sd]. change (BACKSLASH =? QUOTE) with false. change (BACKSLASH =? 93) with false.
    rewrite Z.eqb_refl, E, IH. done.
  - cbn [app read_sd]. apply orb_false_iff in E as [E ->]. apply orb_false_iff in E as [-> ->]. by rewrite IH.
Qed.

(** ** The queue *)

Lemma timeout_write_accept name cap rec q q' :
  timeout_write name cap rec q = (None, q') ->
  (length (qu_queue q) < cap)%nat /\ q' = {| qu_queue := qu_queue q ++ [rec]; qu_taken := qu_taken q; qu_open := true |}.
Proof.
  unfold timeout_write. destruct (qu_open q); [|done]. cbn [negb].
  destruct (Nat.ltb_spec (length (qu_queue q)) cap); [|done]. by intros [= <-].
Qed.
Lemma timeout_write_refuse name cap rec q err q' : timeout_write name cap rec q = (Some err, q') -> q' = q.
Proof. unfold timeout_write. repeat case_match; intros [= <-]; done. Qed.
Lemma drain_all fuel q :
  (length (qu_queue q) <= fuel)%nat -> qu_taken (drain fuel q) = qu_taken q ++ qu_queue q.
Proof.
  revert q; induction fuel as [|fuel IH]; intros [qs t o] Hf; cbn [drain worker_take qu_queue qu_taken qu_open] in *.
  - destruct qs; [by rewrite app_nil_r|cbn in Hf; lia].
  - destruct qs as [|r qs]; [by rewrite app_nil_r|]. cbn [worker_take qu_queue qu_taken qu_open]. rewrite IH by (cbn in *; lia). cbn. by rewrite <- app_assoc.
Qed.
Lemma queue_run_inv cap accepted q :
  queue_run cap accepted q -> qu_taken q ++ qu_queue q = accepted /\ (length (qu_queue q) <= cap)%nat.
Proof.
  induction 1 as [|accepted o q q' _ [IH1 IH2] Hstep]; [split; [done|cbn; lia]|].
  destruct Hstep as [name rec q q' H|name rec err q q' H|q q' H|q].
  - apply timeout_write_accept in H as [Hl ->]. cbn. rewrite app_assoc, IH1, length_app. cbn. split; [done|lia].
  - apply timeout_write_refuse in H as ->. by rewrite app_nil_r.
  - unfold worker_take in H. destruct (qu_queue q) as [|r rs] eqn:E; [done|]. injection H as <-. cbn.
    rewrite app_nil_r, <- app_assoc. cbn in IH2. split; [done|lia].
  - cbn. by rewrite app_nil_r.
Qed.

(** ** Files *)

Lemma rotated_not_live r secs : rotated_path r secs <> path_for r.
Proof.
  unfold rotated_path, path_for. intros H%app_inv_head. injection H as H.
  apply (f_equal length) in H. rewrite length_app in H. cbn in H.
  assert (1 <= length (dec_int secs))%nat; [|lia].
  unfold dec_int. destruct (secs <? 0) eqn:E; [cbn; lia|]. apply Z.ltb_ge in E.
  destruct (dec_head secs E) as (c & s & -> & _). cbn. lia.
Qed.
(** A rotation, when nothing is swept. *)
Lemma rotate_plain gzip limit r secs incoming d text :
  d !! path_for r = Some text -> limit < sat_add u64_max (text_len text) incoming ->
  maybe_rotate gzip {| fk_rotate_at_bytes := Some limit; fk_compress_after_seconds := None; fk_retain_count := None |}
    r secs incoming d = <[rotated_path r secs := text]> (delete (path_for r) d).
Proof.
  intros Hl Hlim. unfold maybe_rotate, size_of. cbn [fk_rotate_at_bytes]. rewrite Hl.
  by rewrite (proj2 (Z.leb_gt _ _)) by lia.
Qed.

Lemma lookup_remove names d n : remove_files names d !! n = if decide (n ∈ names) then None else d !! n.
Proof.
  unfold remove_files. induction names as [|m names IH]; cbn [foldr].
  { by rewrite decide_False by apply not_elem_of_nil. }
  destruct (decide (n = m)) as [->|Hne]; [rewrite lookup_delete_eq, decide_True by (by left); done|].
  rewrite lookup_delete_ne by done. rewrite IH. apply decide_ext. set_solver.
Qed.
Lemma elem_rotations r d ts n : (ts, n) ∈ rotations r d <-> any_stamp r n = Some ts /\ is_Some (d !! n).
Proof.
  unfold rotations. rewrite list_elem_of_omap. split.
  - intros ([m text] & Hin%elem_of_map_to_list & H). cbn in H. destruct (any_stamp r m) as [t|] eqn:E; [|done].
    injection H as -> ->. split; [done|by eexists].
  - intros [Hs [text Ht]]. exists (n, text). rewrite elem_of_map_to_list. split; [done|]. cbn. by rewrite Hs.
Qed.

Global Instance stamp_le_trans : Transitive stamp_le.
Proof. intros a b c. unfold stamp_le. lia. Qed.
Global Instance stamp_le_total : Total stamp_le.
Proof. intros a b. unfold stamp_le. lia. Qed.

Lemma NoDup_rotations r d : NoDup (rotations r d).
Proof.
  unfold rotations. pose proof (NoDup_fst_map_to_list d) as Hn. revert Hn. generalize (map_to_list d). intros l.
  induction l as [|[n text] l IH]; cbn; [intros; constructor|]. intros [Hni Hnd]%NoDup_cons. specialize (IH Hnd).
  destruct (any_stamp r n) as [ts|]; cbn; [|done]. apply NoDup_cons. split; [|done].
  intros ([m t] & Hin & Hm)%list_elem_of_omap. cbn in Hm. destruct (any_stamp r m); [|done]. injection Hm as _ <-.
  apply Hni, list_elem_of_fmap. by exists (m, t).
Qed.
(** The rotations in order, cut where retention cuts. *)
Lemma surplus_split r keep d :
  exists kept, merge_sort stamp_le (rotations r d) = surplus r keep d ++ kept /\
    (length kept <= keep)%nat /\ (forall x y, x ∈ surplus r keep d -> y ∈ kept -> x.1 <= y.1).
Proof.
  exists (drop (length (rotations r d) - keep) (merge_sort stamp_le (rotations r d))). unfold surplus.
  split_and!; [by rewrite take_drop| |].
  - rewrite length_drop. rewrite (Permutation_length (merge_sort_Permutation stamp_le _)). lia.
  - intros x y. apply (StronglySorted_app_1_elem_of stamp_le). rewrite take_drop. apply (StronglySorted_merge_sort _).
Qed.
Lemma retention_lookup k keep r d n :
  fk_retain_count k = Some keep ->
  enforce_retention k r d !! n = if decide (n ∈ map snd (surplus r keep d)) then None else d !! n.
Proof.
  intros Hk. unfold enforce_retention. rewrite Hk. destruct (Nat.leb_spec (length (rotations r d)) keep) as [Hl|_].
  - unfold surplus. replace (length (rotations r d) - keep)%nat with 0%nat by lia. cbn.
    by rewrite decide_False by apply not_elem_of_nil.
  - apply lookup_remove.
Qed.
Lemma surplus_rotations r keep d ts n : (ts, n) ∈ surplus r keep d -> any_stamp r n = Some ts /\ is_Some (d !! n).
Proof.
  intros Hin. apply elem_rotations. rewrite <- (merge_sort_Permutation stamp_le (rotations r d)).
  destruct (surplus_split r keep d) as (kept & -> & _). apply elem_of_app. by left.
Qed.

(** ** Sizes *)

Lemma intercalate_length sep ps p : p ∈ ps -> (length p <= length (intercalate sep ps))%nat.
Proof.
  assert (forall qs, p ∈ qs -> (length p <= length (flat_map (fun q => sep :: q) qs))%nat) as Hq.
  { induction qs as [|q qs IH]; [by intros ?%elem_of_nil|]. cbn [flat_map]. rewrite length_app. cbn [length].
    intros [->|H]%elem_of_cons; [lia|]. specialize (IH H). lia. }
  destruct ps as [|q ps]; [by intros ?%elem_of_nil|]. cbn [intercalate]. rewrite length_app.
  intros [->|H]%elem_of_cons; [lia|]. specialize (Hq _ H). lia.
Qed.
Lemma flat_map_length {A} (f : A -> chars) l : (forall a, (1 <= length (f a))%nat) -> (length l <= length (flat_map f l))%nat.
Proof. intros Hf. induction l as [|a l IH]; cbn [flat_map]; [done|]. rewrite length_app. specialize (Hf a). cbn. lia. Qed.
(** A line is at least as long as each of its strings, which is at least as long as what it renders. *)
Lemma line_of_length rec key s :
  (key, RStr s) ∈ rc_fields rec -> Z.of_nat (length s) + 4 <= text_len (line_of rec).
Proof.
  intros Hin. etrans; [|apply text_len_length]. unfold line_of, to_jsonl. cbn [app length]. rewrite !length_app.
  assert (length s + 4 <= length (push_json_string key ++ [COLON] ++ push_json_string s))%nat as Hs.
  { unfold push_json_string. cbn [app length]. rewrite !length_app. cbn [length]. rewrite length_app. cbn [length].
    pose proof (flat_map_length push_json_char s) as Hf.
    assert (length s <= length (flat_map push_json_char s))%nat by (apply Hf; intros; unfold push_json_char; repeat case_match; cbn; lia).
    lia. }
  match goal with |- context [intercalate COMMA ?ps] =>
    assert (length (push_json_string key ++ [COLON] ++ push_json_string s) <= length (intercalate COMMA ps))%nat as Hi
      by (apply intercalate_length, list_elem_of_fmap; by exists (key, RStr s));
    revert Hi; generalize (length (intercalate COMMA ps)) end.
  intros n Hi. cbn [length]. lia.
Qed.
Lemma sanitise_length s : (length s <= length (sanitise_for_audit s))%nat.
Proof. apply flat_map_length. intros c. unfold push_escaped. repeat case_match; cbn; lia. Qed.

(** * Properties *)

(** A message to syslog fits the receivers' limit, whatever the event. *)
Theorem syslog_bounded facility procid rec : text_len (syslog_format facility procid rec) <= SYSLOG_MAX_BYTES.
Proof.
  unfold syslog_format. cbv zeta. match goal with |- context [_ <? text_len ?out] => generalize out end. intros o.
  destruct (Z.ltb_spec SYSLOG_MAX_BYTES (text_len o)) as [_|H]; [|exact H].
  rewrite text_len_app. pose proof (truncate_to_bound (SYSLOG_MAX_BYTES - 16) o ltac:(unfold SYSLOG_MAX_BYTES; lia)).
  change (text_len TRUNCATED) with 14. lia.
Qed.

(** Each value is in the structured data as a parameter that reads back: no value can end the element early. *)
Theorem sd_param_reads_back e text rest :
  sd_param_text e.2 = Some text ->
  exists prefix, sd_param e ++ rest = str " " ++ e.1 ++ prefix /\
  (r ← strip_prefix [61; QUOTE] prefix; read_sd r) = Some (text, rest).
Proof.
  intros Ht. unfold sd_param. rewrite Ht. exists ([61; QUOTE] ++ push_sd_escaped text ++ QUOTE :: rest).
  split; [by rewrite <- !app_assoc|]. cbn [app strip_prefix]. rewrite !Z.eqb_refl. cbn. apply read_sd_escaped.
Qed.
Lemma sd_param_reads_back_witness :
  exists prefix, sd_param (str "path", RStr [93; 34; 92]) ++ [93] = str " " ++ str "path" ++ prefix /\
  (r ← strip_prefix [61; QUOTE] prefix; read_sd r) = Some ([93; 34; 92], [93]).
Proof. apply (sd_param_reads_back (str "path", RStr [93; 34; 92]) [93; 34; 92] [93]). reflexivity. Defined.

(** A queue hands its sink the records it accepted, in order: some taken, the rest waiting, at most
    its capacity; closing it delivers them all. *)
Theorem queue_delivers cap accepted q :
  queue_run cap accepted q ->
  qu_taken q ++ qu_queue q = accepted /\ (length (qu_queue q) <= cap)%nat /\ qu_taken (queue_drop q) = accepted.
Proof.
  intros H. destruct (queue_run_inv cap accepted q H) as [H1 H2]. split_and!; [done|done|].
  unfold queue_drop. by rewrite drain_all.
Qed.
Lemma queue_delivers_witness :
  exists q, queue_run 1 [sample_record] q /\ qu_taken (queue_drop q) = [sample_record].
Proof.
  assert (queue_run 1 [sample_record] {| qu_queue := [sample_record]; qu_taken := []; qu_open := true |}) as H.
  { apply (RunStep 1 [] (Some sample_record) queue_new); [constructor|]. by apply (StepAccept 1 (str "file")). }
  exists {| qu_queue := [sample_record]; qu_taken := []; qu_open := true |}. split; [exact H|].
  apply (queue_delivers 1 [sample_record] _ H).
Defined.

(** Retention removes rotated files of the class only, keeps at most as many as asked for, and removes
    none newer than one it keeps. *)
Theorem retention_keeps_newest k keep r d (d' := enforce_retention k r d) :
  fk_retain_count k = Some keep ->
  (length (rotations r d') <= keep)%nat /\
  (forall n, any_stamp r n = None -> d' !! n = d !! n) /\
  (forall n text, d' !! n = Some text -> d !! n = Some text) /\
  (forall ts n ts' n', (ts, n) ∈ rotations r d -> d' !! n = None -> (ts', n') ∈ rotations r d' -> ts <= ts').
Proof.
  intros Hk. subst d'. destruct (surplus_split r keep d) as (kept & Hs & Hlen & Hord).
  assert (forall x, x ∈ rotations r d <-> x ∈ surplus r keep d \/ x ∈ kept) as Hperm.
  { intros x. rewrite <- elem_of_app, <- Hs. by rewrite (merge_sort_Permutation stamp_le (rotations r d)). }
  assert (forall x, x ∈ rotations r (enforce_retention k r d) -> x ∈ kept) as Hkept.
  { intros [ts n] [Hst Hd]%elem_rotations. rewrite (retention_lookup k keep) in Hd by done.
    case_decide as Hn; [by destruct Hd|]. assert ((ts, n) ∈ rotations r d) as Hin by (by apply elem_rotations).
    apply Hperm in Hin as [Hin|]; [|done]. exfalso. apply Hn, list_elem_of_fmap. by exists (ts, n). }
  split_and!.
  - etrans; [|exact Hlen]. apply submseteq_length, NoDup_submseteq; [apply NoDup_rotations|done].
  - intros n Hn. rewrite (retention_lookup k keep) by done. rewrite decide_False; [done|].
    intros ([ts m] & -> & Hin)%list_elem_of_fmap. apply surplus_rotations in Hin as [H _]. cbn in Hn. congruence.
  - intros n text. rewrite (retention_lookup k keep) by done. by case_decide.
  - intros ts n ts' n' Hin Hnone Hin'. apply (Hord (ts, n) (ts', n')); [|by apply Hkept].
    apply elem_rotations in Hin as [Hst [text Ht]]. rewrite (retention_lookup k keep) in Hnone by done.
    case_decide as Hn; [|congruence]. apply list_elem_of_fmap in Hn as ([ts2 m] & -> & Hn). cbn in *.
    pose proof (surplus_rotations _ _ _ _ _ Hn) as [H2 _]. cbn in *. congruence.
Qed.

Definition sample_dir : dir :=
  list_to_map [(path_for Net, str "live"); (rotated_path Net 100, str "a"); (rotated_path Net 200 ++ str ".gz", str "b");
               (rotated_path Net 300, str "c"); (path_for Fs, str "other")].
Definition sample_sink : FileSink :=
  {| fk_rotate_at_bytes := Some 64; fk_compress_after_seconds := None; fk_retain_count := Some 1%nat |}.
Lemma retention_keeps_newest_witness :
  (length (rotations Net (enforce_retention sample_sink Net sample_dir)) <= 1)%nat /\
  enforce_retention sample_sink Net sample_dir !! path_for Net = Some (str "live").
Proof.
  destruct (retention_keeps_newest sample_sink 1 Net sample_dir) as (H1 & H2 & _); [reflexivity|].
  split; [exact H1|]. rewrite H2; reflexivity.
Defined.

(** Two rotations of a class in one second have one name: the second replaces the first, and the events in it
    are gone.  Here [r1] is written, the other two each rotate the file, and no file holds [r1]. *)
Theorem same_second_rotation_loses (gzip : chars -> option chars) (limit secs : Z) (r1 r2 r3 : AuditRecord) (d : dir)
    (k := {| fk_rotate_at_bytes := Some limit; fk_compress_after_seconds := None; fk_retain_count := None |})
    (r := rc_resource r1) :
  rc_resource r2 = r -> rc_resource r3 = r -> d !! path_for r = None -> d !! rotated_path r secs = None ->
  text_len (line_of r1) <= MAX_EVENT_BYTES -> text_len (line_of r2) <= MAX_EVENT_BYTES ->
  text_len (line_of r3) <= MAX_EVENT_BYTES ->
  limit < text_len (line_of r1) + text_len (line_of r2) -> limit < text_len (line_of r2) + text_len (line_of r3) ->
  (d1 ← file_write gzip k secs r1 d; d2 ← file_write gzip k secs r2 d1; file_write gzip k secs r3 d2) =
    Ok (<[path_for r := line_of r3]> (<[rotated_path r secs := line_of r2]> d)).
Proof.
  intros E2 E3 Hlive Hrot H1 H2 H3 Hl1 Hl2. pose proof (rotated_not_live r secs) as Hne.
  assert (maybe_rotate gzip k r secs (text_len (line_of r1)) d = d) as Em1.
  { unfold maybe_rotate, k. cbn [fk_rotate_at_bytes]. rewrite Hlive. by case_match. }
  unfold MAX_EVENT_BYTES in *. assert (forall n, n <= 4096 -> (4096 <? n) = false) as Hok by (intros; by apply Z.ltb_ge).
  unfold file_write, text_at, MAX_EVENT_BYTES. rewrite E2, E3. fold r. rewrite (Hok _ H1), Em1, Hlive. cbn [mbind result_bind app].
  rewrite (Hok _ H2). unfold k at 1. rewrite (rotate_plain gzip limit r secs _ _ (line_of r1)).
  2: apply lookup_insert_eq.
  2: { unfold sat_add, u64_max. lia. }
  rewrite (lookup_insert_ne _ (rotated_path r secs)) by done. rewrite lookup_delete_eq. cbn [mbind result_bind app].
  rewrite (Hok _ H3). unfold k. rewrite (rotate_plain gzip limit r secs _ _ (line_of r2)).
  2: apply lookup_insert_eq.
  2: { unfold sat_add, u64_max. lia. }
  rewrite (lookup_insert_ne _ (rotated_path r secs)) by done. rewrite lookup_delete_eq. cbn [app]. f_equal. f_equal.
  apply map_eq. intros n.
  destruct (decide (n = rotated_path r secs)) as [->|Hn1]; [by rewrite !lookup_insert_eq|].
  rewrite !(lookup_insert_ne _ (rotated_path r secs)) by done.
  destruct (decide (n = path_for r)) as [->|Hn2]; [by rewrite lookup_delete_eq, Hlive|].
  rewrite !lookup_delete_ne, !lookup_insert_ne by done. rewrite ?lookup_delete_ne, ?lookup_insert_ne by done. done.
Qed.
Definition sample_small : AuditRecord :=
  {| rc_resource := Net; rc_event_type := str "net.egress"; rc_outcome := Allow; rc_fields := [(str "port", RUint 80)] |}.
Lemma same_second_rotation_loses_witness :
  (d1 ← file_write (fun _ => None) {| fk_rotate_at_bytes := Some 20; fk_compress_after_seconds := None; fk_retain_count := None |}
          1779712496 sample_small ∅;
   d2 ← file_write (fun _ => None) {| fk_rotate_at_bytes := Some 20; fk_compress_after_seconds := None; fk_retain_count := None |}
          1779712496 sample_small d1;
   file_write (fun _ => None) {| fk_rotate_at_bytes := Some 20; fk_compress_after_seconds := None; fk_retain_count := None |}
          1779712496 sample_small d2) =
  Ok (<[path_for Net := line_of sample_small]> (<[rotated_path Net 1779712496 := line_of sample_small]> ∅)).
Proof.
  apply (same_second_rotation_loses (fun _ => None) 20 1779712496 sample_small sample_small sample_small ∅);
    try reflexivity; vm_compute; congruence.
Defined.

(** An event that fits is appended to its class's file, and nothing written before is lost, when no rotated file
    has the name of this second. *)
Theorem file_write_keeps (gzip : chars -> option chars) (rotate_at : option Z) (secs : Z) (rec : AuditRecord) (d : dir)
    (k := {| fk_rotate_at_bytes := rotate_at; fk_compress_after_seconds := None; fk_retain_count := None |}) :
  text_len (line_of rec) <= MAX_EVENT_BYTES -> d !! rotated_path (rc_resource rec) secs = None ->
  exists d' before, file_write gzip k secs rec d = Ok d' /\
    d' !! path_for (rc_resource rec) = Some (before ++ line_of rec) /\
    (forall n text, d !! n = Some text -> exists n' more, d' !! n' = Some (text ++ more)).
Proof.
  intros Hl Hrot. set (r := rc_resource rec) in *. pose proof (rotated_not_live r secs) as Hne.
  set (m := maybe_rotate gzip k r secs (text_len (line_of rec)) d).
  exists (<[path_for r := text_at m (path_for r) ++ line_of rec]> m), (text_at m (path_for r)). split_and!.
  - unfold file_write. by rewrite (proj2 (Z.ltb_ge _ _)) by exact Hl.
  - apply lookup_insert_eq.
  - assert (forall n text, d !! n = Some text -> exists n', m !! n' = Some text) as Hm.
    { intros n text Ht. subst m. unfold maybe_rotate, k. cbn [fk_rotate_at_bytes]. destruct rotate_at as [limit|]; [|by exists n].
      case_match; [by exists n|]. destruct (d !! path_for r) as [live|] eqn:El; [|by exists n].
      unfold maybe_compress, enforce_retention. cbn [fk_compress_after_seconds fk_retain_count].
      destruct (decide (n = path_for r)) as [->|Hn].
      - exists (rotated_path r secs). rewrite lookup_insert_eq. congruence.
      - exists n. rewrite lookup_insert_ne by congruence. by rewrite lookup_delete_ne. }
    intros n text Ht. destruct (Hm n text Ht) as [n' Hn']. exists n'.
    destruct (decide (n' = path_for r)) as [->|Hn].
    + exists (line_of rec). rewrite lookup_insert_eq. unfold text_at. by rewrite Hn'.
    + exists []. rewrite lookup_insert_ne by done. by rewrite app_nil_r.
Qed.
Lemma file_write_keeps_witness :
  exists d' before, file_write (fun _ => None)
      {| fk_rotate_at_bytes := Some 20; fk_compress_after_seconds := None; fk_retain_count := None |} 400 sample_small sample_dir = Ok d' /\
    d' !! path_for Net = Some (before ++ line_of sample_small) /\
    (forall n text, sample_dir !! n = Some text -> exists n' more, d' !! n' = Some (text ++ more)).
Proof. apply (file_write_keeps (fun _ => None) (Some 20) 400 sample_small sample_dir); [by vm_compute|reflexivity]. Defined.

(** A kennel can ask to spawn a template it was not granted without leaving a trace: the name it asks for is in the
    event of the denial, and an event over 4096 bytes is refused by the file sink after its queue accepted it, so
    that neither the file, nor another sink, nor stderr says anything. *)
Theorem spawn_denial_unaudited (gzip : chars -> option chars) (k : FileSink) (secs : Z) (ctx : WriterContext)
    (now : Z * Z) (kctx pid : Z) (template : chars) (levels : Levels) (seen : gset chars) (d : dir) (sinks : nat) (s : Sent)
    (e := spawn_event kctx pid Deny (not_granted template)) :
  (4096 <= length template)%nat -> lv_dbus levels <> Off ->
  (should_emit levels seen e).1 = true /\
  worker_write gzip k secs d (render ctx now e) = d /\
  fan_out ctx sinks (fun _ _ _ => None) (render ctx now e) s =
    {| sn_writes := sn_writes s ++ map (fun i => (i, render ctx now e)) (seq 0 sinks); sn_stderr := sn_stderr s |}.
Proof.
  intros Hlen Hlev. split_and!.
  - unfold should_emit. cbn. by destruct (lv_dbus levels).
  - assert ((str "detail", RStr (sanitise_for_audit (not_granted template))) ∈ rc_fields (render ctx now e)) as Hin.
    { rewrite render_fields. apply elem_of_app. left. unfold base_fields. apply elem_of_app. right. cbn. by left. }
    pose proof (line_of_length _ _ _ Hin) as Hl. pose proof (sanitise_length (not_granted template)) as Hs.
    assert (length template <= length (not_granted template))%nat.
    { unfold not_granted. rewrite !length_app. lia. }
    unfold worker_write, file_write. rewrite (proj2 (Z.ltb_lt MAX_EVENT_BYTES _)) by (unfold MAX_EVENT_BYTES; lia). done.
  - unfold fan_out. by rewrite (fan_to_healthy ctx sinks (fun _ _ _ => None)).
Qed.
Lemma spawn_denial_unaudited_witness :
  worker_write (fun _ => None) sample_sink 0 ∅
    (render sample_ctx (0, 0) (spawn_event 7 4242 Deny (not_granted (repeat 97 4096)))) = ∅.
Proof.
  apply (spawn_denial_unaudited (fun _ => None) sample_sink 0 sample_ctx (0, 0) 7 4242 (repeat 97 4096) levels_default ∅ ∅ 1
           {| sn_writes := []; sn_stderr := [] |}); [rewrite repeat_length; lia|discriminate].
Defined.

(** The registry of message identifiers: 32 hexadecimal digits each, no two alike, one per event type. *)
Theorem message_ids_distinct :
  NoDup (map fst MESSAGE_IDS) /\ NoDup (omap (fun e => for_event e.1) MESSAGE_IDS) /\
  forallb (fun e => match for_event e.1 with
                    | Some id => (length id =? 32)%nat && forallb (fun c => is_digit c || (97 <=? c) && (c <=? 102)) id
                    | None => false end) MESSAGE_IDS = true.
Proof.
  split_and!; [| |vm_compute; reflexivity]; (apply (bool_decide_unpack _); vm_compute; exact I).
Qed.
