(* ===== verification/Node0.v ===== *)
(** Node 0 of a kennel ([kenneld/src/binder.rs], [inbound.rs], [tun_sink.rs]).

    Every kennel has a binder instance whose context manager is the daemon.  A process
    of the kennel transacts a verb; the daemon decides it under the kennel's signed
    policy and replies with bytes or with a connected descriptor.  Here a descriptor
    is what it is connected to.  The verbs' decisions are those of the other files:
    the egress decision, the broker, the spawn verb, the control-socket rule.

    Inputs are what the outside answers: whether a connect succeeds, what a path
    resolves to, the resolver, the catalogue at each poll with the time elapsed, the
    operator's answer.  The state is what the handlers write: the sink shared by all
    kennels, the mirrors, what is done to the cgroup, what is activated, the events.
    The handlers of a kennel run on several threads; each handler is one function of
    the state, which is what its locks make of it.

    Theorems: every descriptor a kennel receives is granted by its policy; the
    lifecycle verbs act for the init only; an expired kennel is thawed or killed; waits
    end, but for a delivery that a tun broker never answers; any kennel can take the place of the tun broker; what becomes of each inbound
    conduit; the spawn listing covers what can be spawned and is never rendered again. *)

From stdpp Require Import gmap.
From S2P Require Import Prelude Bytes Str Source Proxy Paths Plan IpText Cursor B64 Sshsig Settled BinderWire Egress Verify Patch Mesh MeshBus SpawnVerb ControlSocket.
From S2P Require Import Text AuditLog AuditSinks.
Open Scope Z_scope.

(** * Verbs and statuses ([kennel-lib-binder/src/service.rs]) *)

Definition CONNECT_AFUNIX : Z := 5.
Definition CONNECT_INET : Z := 6.
Definition REGISTER_MIRROR : Z := 12.
Definition DELIVER_INET : Z := 13.
Definition SPAWN : Z := 14.
Definition SPAWN_QUERY : Z := 15.
Definition REGISTER_TUN_SINK : Z := 18.
Definition GET_SANDBOX_PLAN : Z := 256.
Definition NOTIFY_BOOT_SYNC : Z := 257.
Definition NOTIFY_FACADE_CRASH : Z := 258.
Definition NOTIFY_WORKLOAD_EXEC : Z := 259.
Definition NOTIFY_FACADE_RESTART : Z := 260.
Definition NOTIFY_TTL_EXPIRED : Z := 261.
Definition TTL_RESUME : Z := 0.
Definition TTL_TERMINATE : Z := 1.
Definition TTL_RENEW : Z := 2.
Definition TUN_CAPABILITY : bytes := ascii_bytes "org.projectkennel.tun-udp".

(** * State *)

Definition MAX_NAME : Z := 255.
Definition MESH_DBUS_DEVICE : bytes := ascii_bytes "/dev/binderfs-mesh/binder".
Definition CONSUME_WAIT_DEADLINE : Z := 5000.
Definition CONSUME_WAIT_POLL : Z := 50.

Record Lifecycle' : Type := {
  lf_init_host_pid : option Z; lf_supervision : bytes; lf_ttl_action : TtlAction; lf_name : bytes; lf_prompt : bool }.
(** A kennel's side of its manager. *)
Record Kennel : Type := {
  nk_ctx : Z; nk_unix : UnixRuntime; nk_net : NetRuntime; nk_command_socket : bool; nk_lifecycle : Lifecycle';
  nk_dbus_mesh : bool; nk_spawn : option SpawnRuntime; nk_consumes : list ConsumeRuntime;
  nk_tun_session : option bytes }.
Record Call : Type := { cl_code : Z; cl_data : bytes; cl_sender_pid : Z; cl_sender_euid : Z }.

(** A sink: the manager it was registered with, and the handle there. *)
Definition Sink : Type := (Z * Z)%type.
Inductive CgroupOp : Type := Freeze | Thaw | Kill.
Record State : Type := {
  st_sink : option Sink; st_mirrors : gmap Z Z; st_bounce : gmap Z (list Z); st_allowed : gset Z;
  st_cgroup : list CgroupOp; st_activated : list bytes; st_reaped : list bytes;
  st_live : Z; st_enqueued : list (SettledPolicy * bytes); st_caps : option bytes; st_events : list Event }.

(** What a descriptor is connected to. *)
Inductive Conn : Type :=
  | CUnix (path : bytes)
  | CInet (addrs : list ip_addr) (port : Z)
  | CSession (sink : Sink) (payload : bytes).
Inductive NodeReply : Type := NData (data : bytes) | NFd (c : Conn) | NChannel (data : bytes).
Definition one (status : Z) : NodeReply := NData [status].

Definition with_sink (k : option Sink) (s : State) : State := {|
  st_sink := k; st_mirrors := st_mirrors s; st_bounce := st_bounce s; st_allowed := st_allowed s;
  st_cgroup := st_cgroup s; st_activated := st_activated s; st_reaped := st_reaped s;
  st_live := st_live s; st_enqueued := st_enqueued s; st_caps := st_caps s; st_events := st_events s |}.
Definition with_inbound (m : gmap Z Z) (b : gmap Z (list Z)) (s : State) : State := {|
  st_sink := st_sink s; st_mirrors := m; st_bounce := b; st_allowed := st_allowed s;
  st_cgroup := st_cgroup s; st_activated := st_activated s; st_reaped := st_reaped s;
  st_live := st_live s; st_enqueued := st_enqueued s; st_caps := st_caps s; st_events := st_events s |}.
Definition with_cgroup (ops : list CgroupOp) (s : State) : State := {|
  st_sink := st_sink s; st_mirrors := st_mirrors s; st_bounce := st_bounce s; st_allowed := st_allowed s;
  st_cgroup := st_cgroup s ++ ops; st_activated := st_activated s; st_reaped := st_reaped s;
  st_live := st_live s; st_enqueued := st_enqueued s; st_caps := st_caps s; st_events := st_events s |}.
Definition with_activated (ps : list bytes) (s : State) : State := {|
  st_sink := st_sink s; st_mirrors := st_mirrors s; st_bounce := st_bounce s; st_allowed := st_allowed s;
  st_cgroup := st_cgroup s; st_activated := st_activated s ++ ps; st_reaped := st_reaped s;
  st_live := st_live s; st_enqueued := st_enqueued s; st_caps := st_caps s; st_events := st_events s |}.
Definition with_reaped (ps : list bytes) (s : State) : State := {|
  st_sink := st_sink s; st_mirrors := st_mirrors s; st_bounce := st_bounce s; st_allowed := st_allowed s;
  st_cgroup := st_cgroup s; st_activated := st_activated s; st_reaped := st_reaped s ++ ps;
  st_live := st_live s; st_enqueued := st_enqueued s; st_caps := st_caps s; st_events := st_events s |}.
Definition with_spawned (live : Z) (q : list (SettledPolicy * bytes)) (s : State) : State := {|
  st_sink := st_sink s; st_mirrors := st_mirrors s; st_bounce := st_bounce s; st_allowed := st_allowed s;
  st_cgroup := st_cgroup s; st_activated := st_activated s; st_reaped := st_reaped s;
  st_live := live; st_enqueued := st_enqueued s ++ q; st_caps := st_caps s; st_events := st_events s |}.
Definition with_caps (body : bytes) (s : State) : State := {|
  st_sink := st_sink s; st_mirrors := st_mirrors s; st_bounce := st_bounce s; st_allowed := st_allowed s;
  st_cgroup := st_cgroup s; st_activated := st_activated s; st_reaped := st_reaped s;
  st_live := st_live s; st_enqueued := st_enqueued s; st_caps := Some body; st_events := st_events s |}.
Definition emit_event (e : Event) (s : State) : State := {|
  st_sink := st_sink s; st_mirrors := st_mirrors s; st_bounce := st_bounce s; st_allowed := st_allowed s;
  st_cgroup := st_cgroup s; st_activated := st_activated s; st_reaped := st_reaped s;
  st_live := st_live s; st_enqueued := st_enqueued s; st_caps := st_caps s; st_events := st_events s ++ [e] |}.

(** * [inbound.rs] *)

Section inbound.
(** Whether the one-way push of a conduit to a handle succeeds. *)
Context (push : Z -> Z -> bool).
Definition allow_ports (ports : list Z) (s : State) : State := {|
  st_sink := st_sink s; st_mirrors := st_mirrors s; st_bounce := st_bounce s; st_allowed := list_to_set ports ∪ st_allowed s;
  st_cgroup := st_cgroup s; st_activated := st_activated s; st_reaped := st_reaped s;
  st_live := st_live s; st_enqueued := st_enqueued s; st_caps := st_caps s; st_events := st_events s |}.
Definition is_allowed (s : State) (port : Z) : bool := bool_decide (port ∈ st_allowed s).
Definition bounce (port fd : Z) (b : gmap Z (list Z)) : gmap Z (list Z) :=
  <[port := default [] (b !! port) ++ [fd]]> b.
(** The loop of [register]: push from the front until one fails, which goes to the back. *)
Fixpoint drain_bounce (handle : Z) (queue : list Z) : list Z :=
  match queue with
  | [] => []
  | fd :: queue => if push handle fd then drain_bounce handle queue else queue ++ [fd]
  end.
Definition inbound_register (port handle : Z) (s : State) : State :=
  with_inbound (<[port := handle]> (st_mirrors s))
    (match st_bounce s !! port with
     | Some queue => <[port := drain_bounce handle queue]> (st_bounce s)
     | None => st_bounce s
     end) s.
(** [deliver]: what it has pushed, and the state. *)
Definition inbound_deliver (port fd : Z) (s : State) : option (Z * Z) * State :=
  match st_mirrors s !! port with
  | Some handle => if push handle fd then (Some (handle, fd), s)
                   else (None, with_inbound (st_mirrors s) (bounce port fd (st_bounce s)) s)
  | None => (None, with_inbound (st_mirrors s) (bounce port fd (st_bounce s)) s)
  end.
Definition decode_notify (data : bytes) : option Z :=
  match data with [hi; lo] => Some (be_val [hi; lo]) | _ => None end.
(** [run_reader] on the notifications of a connection: what it has pushed, and the state. *)
Fixpoint run_reader (msgs : list (bytes * list Z)) (s : State) : list (Z * Z) * State :=
  match msgs with
  | (data, [fd]) :: msgs =>
      match decode_notify (take 8 data) with
      | Some port =>
          let d := inbound_deliver port fd s in
          let r := run_reader msgs d.2 in
          (option_list d.1 ++ r.1, r.2)
      | None => ([], s)
      end
  | _ => ([], s)
  end.
Definition forget_handle (handle : Z) (m : gmap Z Z) : gmap Z Z := filter (fun e => e.2 <> handle) m.
Definition drop_dead (cookie : Z) (s : State) : State :=
  if cookie <=? u32_max then with_inbound (forget_handle cookie (st_mirrors s)) (st_bounce s) s else s.
End inbound.

(** * [tun_sink.rs] and the death handler *)

Definition SINK_DEATH_COOKIE : Z := u64_max.
Definition on_death (cookie : Z) (s : State) : State :=
  if cookie =? SINK_DEATH_COOKIE then with_sink None s else drop_dead cookie s.

(** * [binder.rs] *)

(** The characters of a string, from its UTF-8 bytes. *)
Fixpoint chars_of (bs : bytes) : chars :=
  match bs with
  | [] => []
  | b0 :: r =>
      if b0 <? 128 then b0 :: chars_of r
      else match r with
           | [] => []
           | b1 :: r =>
               if b0 <? 224 then ((b0 - 192) * 64 + (b1 - 128)) :: chars_of r
               else match r with
                    | [] => []
                    | b2 :: r =>
                        if b0 <? 240 then (((b0 - 224) * 64 + (b1 - 128)) * 64 + (b2 - 128)) :: chars_of r
                        else match r with
                             | [] => []
                             | b3 :: r => ((((b0 - 240) * 64 + (b1 - 128)) * 64 + (b2 - 128)) * 64 + (b3 - 128)) :: chars_of r
                             end
                    end
           end
  end.

(** [u32::try_from(pid).unwrap_or(0)]. *)
Definition event_pid (i : Call) : Z := if 0 <=? cl_sender_pid i then cl_sender_pid i else 0.
Definition ctx_field (k : Kennel) : Event -> Event := with_field (str "ctx") (VUint (nk_ctx k)).
Definition binder_event (k : Kennel) (i : Call) (name : chars) (o : Outcome) : Event :=
  with_pid (event_pid i) (event_new name Binder o Kenneld).
Definition tun_event (k : Kennel) (i : Call) (op : chars) (o : Outcome) : Event :=
  ctx_field k (with_field (str "op") (VUntrusted op) (binder_event k i (str "binder.tun") o)).
Definition inet_event (k : Kennel) (i : Call) (dest : chars) (port : Z) (o : Outcome) : Event :=
  ctx_field k (with_field (str "port") (VUint port) (with_field (str "dest") (VUntrusted dest)
    (binder_event k i (str "binder.inet-connect") o))).

Definition decode_name (data : bytes) : option bytes :=
  if is_nil data || (MAX_NAME <? blen data) then None else from_utf8 data.
Definition lifecycle_authorized (init : option Z) (sender_pid sender_euid : Z) : bool :=
  match init with Some pid => pid =? sender_pid | None => false end && (sender_euid =? 0).

(** [crate::inet::decode_request]. *)
Definition decode_inet (data : bytes) : option (Transport * Z * Egress.Destination) :=
  match inet_decode_request MAX_NAME data with
  | Some (t, port, host) =>
      let dest := match parse_ip host with Some a => DAddr a | None => DName host end in
      if t =? 0 then Some (Tcp, port, dest) else if t =? 1 then Some (Udp, port, dest) else None
  | None => None
  end.
(** The audit label of a destination. *)
Definition dest_label (d : Egress.Destination) : chars :=
  match d with DName n => chars_of n | DAddr (V4 o) => ipv4_text o | DAddr (V6 o) => ipv6_text o end.

Section node0.
Context (en : endian) {C : Crypto} {L : Toml}.
(** The host: connecting to a socket, resolving a path, the resolver, the delegate's dial, reading a template. *)
Context (connect : bytes -> bool) (canonicalize : bytes -> option bytes) (resolver : bytes -> option (list ip_addr))
  (dial : list ip_addr -> Z -> bool) (read : bytes -> option bytes) (acquire : Z -> bool) (push : Z -> Z -> bool).
(** Where the daemon keeps its sockets. *)
Context (socket_path runtime_dir : bytes).
(** What a sink does with a session: it answers with a descriptor or without one ([Some true], [Some false]:
    an error reply, a dead node or a reply with no descriptor), or it never replies ([None]). *)
Context (accepts : Sink -> bytes -> option bool).

(** [activator]: none, or whether a kennel that consumes one of these names is running. *)
Definition Activator : Type := option (list bytes -> bool).
Definition activate (a : Activator) (provider : bytes) (s : State) : State :=
  match a with Some _ => with_activated [provider] s | None => s end.

(** [ttl_expired]; [answer] is the operator's. *)
Definition ttl_expired (lc : Lifecycle') (cat : option Catalogue) (a : Activator) (answer : option bool) (s : State) :
    (chars * Outcome * NodeReply) * State :=
  let s := with_cgroup [Freeze] s in
  let thaw := with_cgroup [Thaw] in
  let kill := with_cgroup [Kill] in
  match cat ≫= (fun c => ondemand_provider_offers c (lf_name lc)) with
  | Some offers =>
      if match a with None => true | Some running => running offers end
      then ((str "binder.ttl-provider-keep", Info, one TTL_RENEW), thaw s)
      else ((str "binder.ttl-provider-reap", Allow, one TTL_TERMINATE), kill (with_reaped [lf_name lc] s))
  | None =>
      match lf_ttl_action lc with
      | Ttl_Exit => ((str "binder.ttl-terminate", Allow, one TTL_TERMINATE), kill s)
      | Ttl_Warn => ((str "binder.ttl-warn", Info, one TTL_RESUME), thaw s)
      | Ttl_Renew =>
          match (if lf_prompt lc then answer else None) with
          | Some true => ((str "binder.ttl-renew", Info, one TTL_RENEW), thaw s)
          | Some false => ((str "binder.ttl-decline", Allow, one TTL_TERMINATE), kill s)
          | None => ((str "binder.ttl-warn-no-operator", Info, one TTL_RESUME), thaw s)
          end
      end
  end.

Definition lifecycle_handle (k : Kennel) (cat : option Catalogue) (a : Activator) (answer : option bool) (i : Call)
    (s : State) : NodeReply * State :=
  let lc := nk_lifecycle k in
  if negb (lifecycle_authorized (lf_init_host_pid lc) (cl_sender_pid i) (cl_sender_euid i)) then
    (one STATUS_DENIED,
     emit_event (ctx_field k (with_field (str "code") (VUint (cl_code i))
                   (binder_event k i (str "binder.lifecycle-denied") Deny))) s)
  else
    let r := if cl_code i =? GET_SANDBOX_PLAN then ((str "binder.get-sandbox-plan", Allow, NData (lf_supervision lc)), s)
             else if cl_code i =? NOTIFY_BOOT_SYNC then ((str "binder.notify-boot-sync", Info, one STATUS_OK), s)
             else if cl_code i =? NOTIFY_FACADE_CRASH then ((str "binder.notify-facade-crash", Error, one STATUS_OK), s)
             else if cl_code i =? NOTIFY_FACADE_RESTART then ((str "binder.notify-facade-restart", Info, one STATUS_OK), s)
             else if cl_code i =? NOTIFY_WORKLOAD_EXEC then ((str "binder.notify-workload-exec", Info, one STATUS_OK), s)
             else if cl_code i =? NOTIFY_TTL_EXPIRED then ttl_expired lc cat a answer s
             else ((str "binder.bad-request", Error, one STATUS_BAD_REQUEST), s) in
    let '(action, outcome, reply) := r.1 in
    (reply, emit_event (ctx_field k (binder_event k i action outcome)) r.2).

Definition emit_svc_connect (k : Kennel) (i : Call) (name : bytes) (o : Outcome) (status : Z) (s : State) : NodeReply * State :=
  (one status,
   emit_event (ctx_field k (with_field (str "name") (VUntrusted (chars_of name)) (binder_event k i (str "binder.svc-connect") o))) s).

Definition svc_connect_handoff (k : Kennel) (i : Call) (name : bytes) (sel : Selected) (s : State) : NodeReply * State :=
  match sl_shape sel with
  | DbusName =>
      let ok := nk_dbus_mesh k in
      (NData (if ok then [STATUS_OK] ++ MESH_DBUS_DEVICE else [STATUS_UNAVAILABLE]),
       emit_event (ctx_field k (with_field (str "shape") (VUntrusted (str "dbus-name"))
         (with_field (str "provider") (VUntrusted (chars_of (sl_provider sel))) (with_field (str "name") (VUntrusted (chars_of name))
           (binder_event k i (str "binder.svc-connect") (if ok then Allow else Deny)))))) s)
  | BinderConnector => emit_svc_connect k i name Error STATUS_UNAVAILABLE s
  | AfUnix =>
      let path := host_rp_socket runtime_dir (sl_tier sel) name (sl_key sel) (sl_endpoint sel) in
      if connect path
      then (NFd (CUnix path),
            emit_event (ctx_field k (with_field (str "provider") (VUntrusted (chars_of (sl_provider sel)))
              (with_field (str "name") (VUntrusted (chars_of name)) (binder_event k i (str "binder.svc-connect") Allow)))) s)
      else emit_svc_connect k i name Error STATUS_UNAVAILABLE s
  end.

(** The loop of [svc_connect_activate_wait]: at each poll the catalogue, and the milliseconds elapsed after it;
    [None] when the polls given do not reach the end of the wait. *)
Fixpoint consume_wait (k : Kennel) (i : Call) (name : bytes) (polls : list (Catalogue * Z)) (s : State) :
    option (NodeReply * State) :=
  match polls with
  | [] => None
  | (c, elapsed) :: polls =>
      match broker_decide (nk_consumes k) c name with
      | BReady ready => Some (svc_connect_handoff k i name ready s)
      | Mesh.NoGrant | NoProvider | NotServing => Some (emit_svc_connect k i name Error STATUS_UNAVAILABLE s)
      | BPending _ =>
          if CONSUME_WAIT_DEADLINE <=? elapsed then Some (emit_svc_connect k i name Error STATUS_UNAVAILABLE s)
          else consume_wait k i name polls s
      end
  end.
Definition svc_connect (k : Kennel) (cat : option Catalogue) (a : Activator) (polls : list (Catalogue * Z)) (i : Call)
    (s : State) : option (NodeReply * State) :=
  match svc_decode_request (cl_data i) with
  | None => Some (emit_svc_connect k i [] Deny STATUS_BAD_REQUEST s)
  | Some name =>
      match broker_decide (nk_consumes k) (default {| ct_providers := ∅; ct_by_name := ∅ |} cat) name with
      | Mesh.NoGrant => Some (emit_svc_connect k i name Deny STATUS_DENIED s)
      | NoProvider => Some (emit_svc_connect k i name Deny STATUS_NOT_FOUND s)
      | NotServing => Some (emit_svc_connect k i name Error STATUS_UNAVAILABLE s)
      | BReady sel => Some (svc_connect_handoff k i name sel s)
      | BPending sel =>
          let s := activate a (sl_provider sel) s in
          match cat with
          | None => Some (emit_svc_connect k i name Error STATUS_UNAVAILABLE s)
          | Some _ => consume_wait k i name polls s
          end
      end
  end.

Definition af_unix_connect (k : Kennel) (i : Call) (s : State) : NodeReply * State :=
  let requested := decode_name (cl_data i) in
  let target := p ← requested;
                List.find (fun x => bool_decide (us_shim x = p) || bool_decide (us_name x = p)) (ur_sockets (nk_unix k)) in
  let r := match target with
           | None => (Deny, one STATUS_DENIED)
           | Some x =>
               if is_control_socket socket_path (us_real x) ||
                  match canonicalize (us_real x) with Some p => is_control_socket socket_path p | None => false end
               then (Deny, one STATUS_DENIED)
               else if connect (us_real x) then (Allow, NFd (CUnix (us_real x)))
               else (Error, one STATUS_NOT_FOUND)
           end in
  (r.2, emit_event (ctx_field k (with_field (str "path") (VUntrusted (chars_of (default [] requested)))
          (binder_event k i (str "binder.afunix-connect") r.1))) s).

Definition inet_connect (k : Kennel) (i : Call) (s : State) : NodeReply * State :=
  match decode_inet (cl_data i) with
  | None => (one STATUS_BAD_REQUEST, emit_event (inet_event k i [] 0 Error) s)
  | Some (t, port, dest) =>
      let r := match decide_inet (nk_net k) resolver dest port t with
               | Egress.Denied => (Deny, one STATUS_DENIED)
               | Egress.Unreachable => (Error, one STATUS_NOT_FOUND)
               | Egress.Pinned addrs =>
                   if nk_command_socket k && dial addrs port then (Allow, NFd (CInet addrs port))
                   else (Error, one STATUS_NOT_FOUND)
               end in
      (r.2, emit_event (inet_event k i (dest_label dest) port r.1) s)
  end.

(** The handle of the object at the end of the data. *)
Definition trailing_handle (data : bytes) : option Z :=
  if (length data <? FLAT_BINDER_OBJECT_SIZE)%nat then None
  else flat_handle_value en (drop (length data - FLAT_BINDER_OBJECT_SIZE) data).
Definition register_mirror (k : Kennel) (i : Call) (s : State) : NodeReply * State :=
  let event := inet_event k i (str "mirror-register") in
  match decode_port_prefix (cl_data i) with
  | None => (one STATUS_BAD_REQUEST, emit_event (event 0 Error) s)
  | Some (_, port) =>
      if negb (is_allowed s port) then (one STATUS_DENIED, emit_event (event port Deny) s)
      else match trailing_handle (cl_data i) with
           | None => (one STATUS_BAD_REQUEST, emit_event (event port Error) s)
           | Some handle =>
               if negb (acquire handle) then (one STATUS_BAD_REQUEST, emit_event (event port Error) s)
               else (one STATUS_OK, emit_event (event port Allow) (inbound_register push port handle s))
           end
  end.
Definition register_tun_sink (k : Kennel) (i : Call) (s : State) : NodeReply * State :=
  let event := tun_event k i (str "tun-sink-register") in
  match trailing_handle (cl_data i) with
  | None => (one STATUS_BAD_REQUEST, emit_event (event Error) s)
  | Some handle =>
      if negb (acquire handle) then (one STATUS_BAD_REQUEST, emit_event (event Error) s)
      else (one STATUS_OK, emit_event (event Allow) (with_sink (Some (nk_ctx k, handle)) s))
  end.

(** [TunSink::deliver]: the transaction of [transact_fd] has no timeout, so the call waits for as long as
    the sink does not reply. *)
Inductive Delivery : Type := Delivered (c : Conn) | Undelivered | Waits.
Definition deliver (sink : option Sink) (payload : bytes) : Delivery :=
  match sink with
  | None => Undelivered
  | Some k => match accepts k payload with
              | Some true => Delivered (CSession k payload)
              | Some false => Undelivered
              | None => Waits
              end
  end.
Definition activate_for_capability (cat : option Catalogue) (a : Activator) (capability : bytes) (s : State) : State :=
  match cat ≫= (fun c => ca_provider <$> head (resolve c capability)) with
  | Some p => activate a p s
  | None => s
  end.
(** The loop of [tun_connect]: at each poll the sink registered then, and the milliseconds elapsed; [None]
    also when a delivery gets no reply. *)
Fixpoint tun_wait (k : Kennel) (i : Call) (payload : bytes) (polls : list (option Sink * Z)) (s : State) :
    option (NodeReply * State) :=
  match polls with
  | [] => None
  | (sink, elapsed) :: polls =>
      match deliver sink payload with
      | Waits => None
      | Delivered c => Some (NFd c, emit_event (tun_event k i (str "tun-connect") Allow) s)
      | Undelivered => if CONSUME_WAIT_DEADLINE <=? elapsed
                then Some (one STATUS_UNAVAILABLE, emit_event (tun_event k i (str "tun-connect") Error) s)
                else tun_wait k i payload polls s
      end
  end.
Definition tun_connect (k : Kennel) (cat : option Catalogue) (a : Activator) (polls : list (option Sink * Z)) (i : Call)
    (s : State) : option (NodeReply * State) :=
  match nk_tun_session k with
  | None => Some (one STATUS_DENIED, emit_event (tun_event k i (str "tun-connect") Deny) s)
  | Some payload =>
      match deliver (st_sink s) payload with
      | Waits => None
      | Delivered c => Some (NFd c, emit_event (tun_event k i (str "tun-connect") Allow) s)
      | Undelivered => tun_wait k i payload polls (activate_for_capability cat a TUN_CAPABILITY s)
      end
  end.

(** The answers to one call: the catalogue, the activator, the operator, the polls of a wait, the spawn verb's
    counter and channel, and the text of its refusal. *)
Record World : Type := {
  wo_catalogue : option Catalogue; wo_activator : Activator; wo_answer : option bool;
  wo_polls : list (Catalogue * Z); wo_sink_polls : list (option Sink * Z);
  wo_counter : Z; wo_mint_ok : bool; wo_dup_ok : bool; wo_refusal : chars }.

Definition handle_spawn_call (k : Kennel) (w : World) (i : Call) (s : State) : NodeReply * State :=
  let h := handle_spawn read (nk_spawn k) (st_live s) (nk_ctx k) (wo_counter w) (wo_mint_ok w) (wo_dup_ok w) (cl_data i) in
  let s := with_spawned (hd_live h) (match hd_enqueued h with Some x => [x] | None => [] end) s in
  if hd_fds h
  then (NChannel (hd_reply h),
        emit_event (spawn_event (nk_ctx k) (cl_sender_pid i) Allow (chars_of (spawn_name (nk_ctx k) (wo_counter w)))) s)
  else (NData (hd_reply h), emit_event (spawn_event (nk_ctx k) (cl_sender_pid i) Deny (wo_refusal w)) s).

(** What a listing says of one template of the grant. *)
Inductive Caps : Type := NotInStore | PinMismatch | Fields (writable : list Variant).
Definition writable (pin : SpawnTemplate) (v : Variant) : bool :=
  is_nil (st_mutable_narrow pin) || existsb (fun f => bool_decide (f = va_field v)) (st_mutable_narrow pin).
Definition caps_of (rt : SpawnRuntime) (pin : SpawnTemplate) : Caps :=
  match resolve_template read (srt_template_dirs rt) (st_template pin) with
  | None => NotInStore
  | Some bs =>
      match verify_pinned bs (srt_keys rt) (st_signing_key_id pin) (st_signature pin) with
      | Err _ => PinMismatch
      | Ok tpl => Fields (List.filter (writable pin) (sp_manifest tpl))
      end
  end.
Definition NL : bytes := [10].
Definition LE_SIGN : bytes := [226; 137; 164].
Definition EM_DASH : bytes := [226; 128; 148].
Fixpoint comma_join (ps : list bytes) : bytes :=
  match ps with [] => [] | [p] => p | p :: ps => p ++ ascii_bytes ", " ++ comma_join ps end.
Definition braced (ps : list bytes) : bytes := ascii_bytes "{" ++ comma_join ps ++ ascii_bytes "}".
Definition describe_constraint (v : Variant) : bytes :=
  match variant_resolve v with
  | Ok (OneOf set) => ascii_bytes "oneof " ++ braced set
  | Ok (Pool from max) => ascii_bytes "pool: append " ++ LE_SIGN ++ dec max ++ ascii_bytes " from " ++ braced from
  | Ok (Pattern _) => ascii_bytes "pattern " ++ braced (va_pattern v)
  | Ok (Relpath under) => ascii_bytes "relpath under " ++ under
  | Ok (Freeform _) => ascii_bytes "freeform (any value " ++ EM_DASH ++ ascii_bytes " loud)"
  | Err _ => ascii_bytes "(malformed constraint)"
  end.
Definition caps_lines (rt : SpawnRuntime) (pin : SpawnTemplate) : bytes :=
  ascii_bytes "  " ++ st_template pin ++
  match caps_of rt pin with
  | NotInStore => ascii_bytes "  (unavailable: not in the trust store)" ++ NL
  | PinMismatch => ascii_bytes "  (unavailable: content-pin mismatch)" ++ NL
  | Fields vs =>
      NL ++
      (if is_nil vs then ascii_bytes "    (no mutable fields " ++ EM_DASH ++ ascii_bytes " spawned exactly as signed)" ++ NL
       else flat_map (fun v => ascii_bytes "    " ++ va_field v ++ ascii_bytes "  " ++ describe_constraint v ++ NL) vs)
  end.
Definition render_caps_body (rt : SpawnRuntime) : bytes :=
  if is_nil (sp_allow (srt_grant rt)) then ascii_bytes "  (no templates allowed)" ++ NL
  else flat_map (caps_lines rt) (sp_allow (srt_grant rt)).
(** [render_caps]: the body is rendered on the first query and kept. *)
Definition render_caps (rt : SpawnRuntime) (s : State) : bytes * State :=
  let body := default (render_caps_body rt) (st_caps s) in
  (ascii_bytes "spawn grant: max_instances " ++ dec (sp_max_instances (srt_grant rt)) ++ ascii_bytes ", live " ++
   dec (st_live s) ++ NL ++ body, with_caps body s).
Definition NO_GRANT : bytes := ascii_bytes "this kennel holds no [spawn] grant".
Definition handle_spawn_query (k : Kennel) (i : Call) (s : State) : NodeReply * State :=
  match nk_spawn k with
  | None => (NData (spawn_encode_reply STATUS_DENIED (NO_GRANT ++ ascii_bytes " " ++ EM_DASH ++ ascii_bytes " nothing to spawn")),
             emit_event (spawn_event (nk_ctx k) (cl_sender_pid i) Deny NO_GRANT) s)
  | Some rt =>
      let r := render_caps rt s in
      (NData (spawn_encode_reply STATUS_OK r.1),
       emit_event (spawn_event (nk_ctx k) (cl_sender_pid i) Allow (str "spawn grant interrogated")) r.2)
  end.

Definition handle (k : Kennel) (w : World) (i : Call) (s : State) : option (NodeReply * State) :=
  if GET_SANDBOX_PLAN <=? cl_code i
  then Some (lifecycle_handle k (wo_catalogue w) (wo_activator w) (wo_answer w) i s)
  else if cl_code i =? SPAWN then Some (handle_spawn_call k w i s)
  else if cl_code i =? SPAWN_QUERY then Some (handle_spawn_query k i s)
  else if cl_code i =? SVC_CONNECT then svc_connect k (wo_catalogue w) (wo_activator w) (wo_polls w) i s
  else if cl_code i =? CONNECT_AFUNIX then
    match svc_decode_request (cl_data i) with
    | Some name =>
        if bool_decide (name = TUN_CAPABILITY) then tun_connect k (wo_catalogue w) (wo_activator w) (wo_sink_polls w) i s
        else if existsb (fun c => bool_decide (cn_name c = name)) (nk_consumes k)
        then svc_connect k (wo_catalogue w) (wo_activator w) (wo_polls w) i s
        else Some (af_unix_connect k i s)
    | None => Some (af_unix_connect k i s)
    end
  else if cl_code i =? CONNECT_INET then Some (inet_connect k i s)
  else if cl_code i =? REGISTER_MIRROR then Some (register_mirror k i s)
  else if cl_code i =? REGISTER_TUN_SINK then Some (register_tun_sink k i s)
  else Some (one STATUS_BAD_REQUEST,
             emit_event (ctx_field k (with_field (str "service") (VUntrusted (chars_of (default [] (decode_name (cl_data i)))))
               (binder_event k i (str "binder.bad-request") Error))) s).

(** * What a kennel may be connected to *)

(** The rendezvous socket of a provider of [c] that is ready, has the shape and key of the consume of
    the kennel that the call names, and offers its name. *)
Definition brokered (k : Kennel) (i : Call) (c : Catalogue) (path : bytes) : Prop :=
  exists consume cand, consume ∈ nk_consumes k /\ svc_decode_request (cl_data i) = Some (cn_name consume) /\
    cand ∈ resolve c (cn_name consume) /\
    eligible consume cand = true /\ ca_readiness cand = Ready /\ ca_shape cand = AfUnix /\
    path = host_rp_socket runtime_dir (ca_tier cand) (cn_name consume) (ca_key cand) (ca_endpoint cand).
(** A socket the policy grants under the name the call gives, which neither as written nor resolved is the
    daemon's control socket. *)
Definition unix_granted (k : Kennel) (i : Call) (path : bytes) : Prop :=
  (exists x p, x ∈ ur_sockets (nk_unix k) /\ decode_name (cl_data i) = Some p /\ (us_shim x = p \/ us_name x = p) /\
     us_real x = path) /\
  is_control_socket socket_path path = false /\
  forall p, canonicalize path = Some p -> is_control_socket socket_path p = false.
(** An address that the policy lets the destination of the call be dialled at: the literal asked for, which
    is a host service or passes the deny rules and the special-use gate and is authorised by the mode or an
    allow rule over the address; or an address the resolver gave for the name asked for, which passes the
    same gates, the name not being denied and being authorised by the mode or an allow rule over the name. *)
Definition inet_allowed (rt : NetRuntime) (t : Transport) (port : Z) (dest : Egress.Destination) (a : ip_addr) : Prop :=
  match dest with
  | Egress.DAddr b => a = b /\ (is_host_service rt b port = true \/
      vetted rt port b /\ authorised rt (allow_addr_match (nt_ruleset rt) b port t))
  | Egress.DName n => vetted rt port a /\ name_denied (nt_ruleset rt) n port = false /\
      authorised rt (allow_name_match (nt_ruleset rt) n port t) /\
      exists addrs, resolver n = Some addrs /\ a ∈ addrs
  end.
(** The catalogues and the sinks a call sees. *)
Definition catalogues (w : World) : list Catalogue := option_list (wo_catalogue w) ++ map fst (wo_polls w).
Definition sinks (w : World) (s : State) : list (option Sink) := st_sink s :: map fst (wo_sink_polls w).
Definition asks_tun (i : Call) : Prop := cl_code i = CONNECT_AFUNIX /\ svc_decode_request (cl_data i) = Some TUN_CAPABILITY.
Definition conn_granted (k : Kennel) (w : World) (i : Call) (s : State) (c : Conn) : Prop :=
  match c with
  | CUnix path => unix_granted k i path \/ exists cat, cat ∈ catalogues w /\ brokered k i cat path
  | CInet addrs port => nk_command_socket k = true /\
      exists t dest, decode_inet (cl_data i) = Some (t, port, dest) /\ forall a, a ∈ addrs -> inet_allowed (nk_net k) t port dest a
  | CSession sink payload => asks_tun i /\ nk_tun_session k = Some payload /\ Some sink ∈ sinks w s /\
      accepts sink payload = Some true
  end.

Lemma broker_ready consumes c name sel :
  broker_decide consumes c name = BReady sel ->
  exists consume cand, consume ∈ consumes /\ cn_name consume = name /\ cand ∈ resolve c name /\
    eligible consume cand = true /\ ca_readiness cand = Ready /\ sel = selected_of cand.
Proof.
  unfold broker_decide. destruct (List.find _ consumes) as [consume|] eqn:E1; [|done].
  destruct (List.find (eligible consume) _) as [cand|] eqn:E2; [|done].
  apply find_some in E1 as [Hin1 Hn%bool_decide_eq_true]. apply find_some in E2 as [Hin2 He].
  destruct (ca_readiness cand) eqn:Er; intros [= <-]. exists consume, cand.
  by rewrite !list_elem_of_In.
Qed.

Lemma handoff_brokered k i name sel s c s' cat :
  svc_connect_handoff k i name sel s = (NFd c, s') -> broker_decide (nk_consumes k) cat name = BReady sel ->
  svc_decode_request (cl_data i) = Some name -> exists path, c = CUnix path /\ brokered k i cat path.
Proof.
  intros H (consume & cand & Hc & <- & Hr & He & Hready & ->)%broker_ready Hn. revert H.
  unfold svc_connect_handoff. destruct (sl_shape _) eqn:Es; [|done|by destruct (nk_dbus_mesh k)].
  destruct (connect _); [|done]. intros [= <- _]. eexists. split; [done|].
  exists consume, cand. by split_and!.
Qed.

Lemma wait_brokered k i name polls s c s' :
  consume_wait k i name polls s = Some (NFd c, s') -> svc_decode_request (cl_data i) = Some name ->
  exists cat path, cat ∈ map fst polls /\ c = CUnix path /\ brokered k i cat path.
Proof.
  intros H Hn. revert H. induction polls as [|[cat elapsed] polls IH]; [done|]. cbn [consume_wait map fst].
  destruct (broker_decide _ cat name) eqn:Ed; try done.
  - destruct (_ <=? _); [done|]. intros (cat' & path & ? & ?)%IH. exists cat', path. set_solver.
  - intros [= H]. destruct (handoff_brokered _ _ _ _ _ _ _ _ H Ed Hn) as (path & ? & ?). exists cat, path. set_solver.
Qed.

Lemma broker_empty_catalogue consumes name sel :
  broker_decide consumes {| ct_providers := ∅; ct_by_name := ∅ |} name <> BReady sel.
Proof.
  intros (? & cand & _ & _ & Hr & _)%broker_ready. unfold resolve in Hr. cbn [ct_by_name] in Hr.
  rewrite lookup_empty in Hr. by apply not_elem_of_nil in Hr.
Qed.

Lemma svc_connect_brokered k cat a polls i s c s' :
  svc_connect k cat a polls i s = Some (NFd c, s') ->
  exists x path, x ∈ option_list cat ++ map fst polls /\ c = CUnix path /\ brokered k i x path.
Proof.
  unfold svc_connect. destruct (svc_decode_request _) as [name|] eqn:Hn; [|done].
  destruct (broker_decide _ _ name) as [| | |sel|sel] eqn:Ed; try done.
  - destruct cat as [cat|]; [|done]. intros (x & path & ? & ?)%wait_brokered; [|done]. exists x, path. set_solver.
  - intros [= H]. destruct cat as [cat|]; [|by destruct (broker_empty_catalogue _ _ _ Ed)].
    destruct (handoff_brokered _ _ _ _ _ _ _ _ H Ed Hn) as (path & ? & ?). exists cat, path. set_solver.
Qed.

Lemma af_unix_granted k i s c s' :
  af_unix_connect k i s = (NFd c, s') -> exists path, c = CUnix path /\ unix_granted k i path.
Proof.
  unfold af_unix_connect. cbv zeta. destruct (_ ≫= _) as [x|] eqn:Et; [|done].
  destruct (decode_name (cl_data i)) as [p|] eqn:Ep; [|done]. cbn in Et. apply find_some in Et as [Hin Hx].
  rewrite orb_true_iff, !bool_decide_eq_true in Hx.
  destruct (is_control_socket socket_path (us_real x)) eqn:E1; [done|]. cbn [orb].
  destruct (canonicalize (us_real x)) as [q|] eqn:E2;
    [destruct (is_control_socket socket_path q) eqn:E3; [done|]|];
    (destruct (connect _); [|done]; intros [= <- _]; exists (us_real x); split; [done|]; split_and!;
     [exists x, p; rewrite list_elem_of_In; auto|done|congruence]).
Qed.

Lemma inet_granted k i s c s' :
  inet_connect k i s = (NFd c, s') ->
  exists addrs port, c = CInet addrs port /\ nk_command_socket k = true /\
    exists t dest, decode_inet (cl_data i) = Some (t, port, dest) /\ forall a, a ∈ addrs -> inet_allowed (nk_net k) t port dest a.
Proof.
  unfold inet_connect. destruct (decode_inet _) as [[[t port] dest]|]; [|done]. cbv zeta.
  destruct (decide_inet _ _ _ _ _) as [addrs| |] eqn:Ed; [|done..].
  destruct (nk_command_socket k); [|done]. cbn [andb]. destruct (dial _ _); [|done]. intros [= <- _].
  exists addrs, port. split_and!; [done..|]. exists t, dest. split; [done|]. intros a Ha.
  destruct dest as [n|b]; cbn [inet_allowed]; [eapply decide_name_pins; eauto|eapply decide_addr_pins; eauto].
Qed.

Lemma deliver_some sink payload c :
  deliver sink payload = Delivered c -> exists k, sink = Some k /\ c = CSession k payload /\ accepts k payload = Some true.
Proof. destruct sink as [k|]; [|done]. cbn. destruct (accepts k payload) as [[]|] eqn:E; [|done..]. intros [= <-]. eauto. Qed.
Lemma deliver_waits sink payload :
  deliver sink payload = Waits <-> exists k, sink = Some k /\ accepts k payload = None.
Proof.
  destruct sink as [k|]; cbn; [|split; [done|by intros (? & ? & _)]].
  destruct (accepts k payload) as [[]|] eqn:E; split; try done; try (by intros (? & [= <-] & ?); congruence). eauto.
Qed.

Lemma tun_wait_granted k i payload polls s c s' :
  tun_wait k i payload polls s = Some (NFd c, s') ->
  exists sink, Some sink ∈ map fst polls /\ c = CSession sink payload /\ accepts sink payload = Some true.
Proof.
  induction polls as [|[sink elapsed] polls IH]; [done|]. cbn [tun_wait map fst].
  destruct (deliver sink payload) as [c'| |] eqn:Ed; [|destruct (_ <=? _); [done|]|done].
  - intros [= -> _]. apply deliver_some in Ed as (x & -> & -> & ?). exists x. set_solver.
  - intros (x & ? & ?)%IH. exists x. set_solver.
Qed.

Lemma tun_granted k cat a polls i s c s' :
  tun_connect k cat a polls i s = Some (NFd c, s') ->
  exists sink payload, nk_tun_session k = Some payload /\ Some sink ∈ st_sink s :: map fst polls /\
    c = CSession sink payload /\ accepts sink payload = Some true.
Proof.
  unfold tun_connect. destruct (nk_tun_session k) as [payload|]; [|done].
  destruct (deliver (st_sink s) payload) as [c'| |] eqn:Ed; [| |done].
  - intros [= -> _]. apply deliver_some in Ed as (x & -> & -> & ?). exists x, payload. set_solver.
  - intros (x & ? & ? & ?)%tun_wait_granted. exists x, payload. set_solver.
Qed.

(** C20: A kennel receives a connected descriptor only to what its signed policy grants, and of that only
    to what the call asks for: the host socket of an entry of its [[unix.allow]] by the entry's name or shim,
    which neither as written nor as resolved is the daemon's control socket; the rendezvous socket of a ready
    provider that agrees with the one of its [[consumes]] that the call names; an address of the
    destination the call names, each with the whole egress decision behind it (the deny rules, the
    special-use gate and the mode or an allow rule, or an exact host service); or, for the tun capability, a
    session under its own [net.udp] grants and no others, with the node that is registered as the daemon's
    tun sink during the call and that accepted it.  Who registered that node is not checked
    ([tun_sink_unguarded]). *)
Theorem node0_descriptors_granted (k : Kennel) (w : World) (i : Call) (s s' : State) (c : Conn) :
  handle k w i s = Some (NFd c, s') -> conn_granted k w i s c.
Proof.
  assert (forall cat a polls, svc_connect k cat a polls i s = Some (NFd c, s') ->
    cat = wo_catalogue w -> polls = wo_polls w -> conn_granted k w i s c) as Hsvc.
  { intros cat a polls (x & path & ? & -> & ?)%svc_connect_brokered -> ->. right. eauto. }
  assert (Some (af_unix_connect k i s) = Some (NFd c, s') -> conn_granted k w i s c) as Hunix.
  { intros H%(inj Some). apply af_unix_granted in H as (path & -> & ?). by left. }
  unfold handle. destruct (_ <=? _).
  { unfold lifecycle_handle. cbv zeta. destruct (negb _); [done|]. unfold ttl_expired. cbv zeta.
    repeat case_match; naive_solver. }
  destruct (_ =? SPAWN). { unfold handle_spawn_call. cbv zeta. by destruct (hd_fds _). }
  destruct (_ =? SPAWN_QUERY). { unfold handle_spawn_query. by destruct (nk_spawn k). }
  destruct (_ =? SVC_CONNECT). { intros H. by eapply Hsvc. }
  destruct (Z.eqb_spec (cl_code i) CONNECT_AFUNIX) as [Hcode|_].
  { destruct (svc_decode_request _) as [name|] eqn:En; [|done]. case_bool_decide as Ht.
    { intros (sink & payload & ? & ? & -> & ?)%tun_granted. subst name. by split_and!. }
    destruct (existsb _ _); [intros H; by eapply Hsvc|done]. }
  destruct (_ =? CONNECT_INET). { intros H%(inj Some). by apply inet_granted in H as (addrs & port & -> & ? & ?). }
  destruct (_ =? REGISTER_MIRROR). { unfold register_mirror. cbv zeta. by repeat case_match. }
  destruct (_ =? REGISTER_TUN_SINK); [|done]. unfold register_tun_sink. cbv zeta. by repeat case_match.
Qed.

(** * The lifecycle verbs *)

Lemma handoff_cgroup k i name sel s r s' :
  svc_connect_handoff k i name sel s = (r, s') -> st_cgroup s' = st_cgroup s /\ st_reaped s' = st_reaped s.
Proof. unfold svc_connect_handoff, emit_svc_connect. repeat case_match; by intros [= _ <-]. Qed.

Lemma wait_cgroup k i name polls s r s' :
  consume_wait k i name polls s = Some (r, s') -> st_cgroup s' = st_cgroup s /\ st_reaped s' = st_reaped s.
Proof.
  unfold emit_svc_connect. induction polls as [|[cat elapsed] polls IH]; [done|]. cbn [consume_wait].
  destruct (broker_decide _ cat name); [by intros [= _ <-]..| |by intros [= ?%handoff_cgroup]].
  destruct (_ <=? _); [by intros [= _ <-]|done].
Qed.

Lemma activate_cgroup a p s : st_cgroup (activate a p s) = st_cgroup s /\ st_reaped (activate a p s) = st_reaped s.
Proof. by destruct a. Qed.

Lemma svc_connect_cgroup k cat a polls i s r s' :
  svc_connect k cat a polls i s = Some (r, s') -> st_cgroup s' = st_cgroup s /\ st_reaped s' = st_reaped s.
Proof.
  unfold svc_connect, emit_svc_connect. destruct (svc_decode_request _) as [name|]; [|by intros [= _ <-]].
  destruct (broker_decide _ _ name) as [| | |sel|sel]; [by intros [= _ <-]..| |by intros [= ?%handoff_cgroup]].
  destruct (activate_cgroup a (sl_provider sel) s) as [<- <-].
  destruct cat; [apply wait_cgroup|by intros [= _ <-]].
Qed.

Lemma tun_wait_cgroup k i payload polls s r s' :
  tun_wait k i payload polls s = Some (r, s') -> st_cgroup s' = st_cgroup s /\ st_reaped s' = st_reaped s.
Proof.
  induction polls as [|[sink elapsed] polls IH]; [done|]. cbn [tun_wait].
  destruct (deliver _ _); [by intros [= _ <-]| |done]. destruct (_ <=? _); [by intros [= _ <-]|done].
Qed.

Lemma tun_connect_cgroup k cat a polls i s r s' :
  tun_connect k cat a polls i s = Some (r, s') -> st_cgroup s' = st_cgroup s /\ st_reaped s' = st_reaped s.
Proof.
  unfold tun_connect. destruct (nk_tun_session k); [|by intros [= _ <-]].
  destruct (deliver _ _); [by intros [= _ <-]| |done]. intros H%tun_wait_cgroup. revert H.
  unfold activate_for_capability. destruct (_ ≫= _) as [p|]; [|done].
  by destruct (activate_cgroup a p s) as [-> ->].
Qed.

(** Closes a branch of [handle] that leaves the cgroup alone. *)
Local Ltac answered Hno :=
  let H := fresh in intros H%(inj Some); apply (f_equal snd) in H; cbn [snd fst] in H; subst; by destruct Hno.

(** The kennel is frozen, thawed, killed or marked reaped only on the TTL notice of its own init:
    whatever verb any process of the kennel transacts, if it changes what is done to the cgroup or
    the reap marks, then the verb is the TTL notice, its kernel-stamped pid is the one the factory
    reported for the init, and its uid is 0. *)
Theorem cgroup_only_by_init (k : Kennel) (w : World) (i : Call) (r : NodeReply) (s s' : State) :
  handle k w i s = Some (r, s') -> (st_cgroup s', st_reaped s') <> (st_cgroup s, st_reaped s) ->
  cl_code i = NOTIFY_TTL_EXPIRED /\ lf_init_host_pid (nk_lifecycle k) = Some (cl_sender_pid i) /\ cl_sender_euid i = 0.
Proof.
  intros H Hne.
  assert (st_cgroup s' = st_cgroup s /\ st_reaped s' = st_reaped s -> False) as Hno.
  { intros [Hc Hr]. apply Hne. by rewrite Hc, Hr. }
  revert H. unfold handle. destruct (_ <=? _).
  { unfold lifecycle_handle, lifecycle_authorized. cbv zeta.
    destruct (lf_init_host_pid _) as [pid|]; [|answered Hno].
    destruct (Z.eqb_spec pid (cl_sender_pid i)) as [->|]; [|answered Hno].
    destruct (Z.eqb_spec (cl_sender_euid i) 0) as [He|]; [|answered Hno].
    cbn [andb negb]. destruct (Z.eqb_spec (cl_code i) NOTIFY_TTL_EXPIRED); [done|].
    repeat (destruct (cl_code i =? _); [answered Hno|]). answered Hno. }
  destruct (_ =? SPAWN). { unfold handle_spawn_call. cbv zeta. destruct (hd_fds _); answered Hno. }
  destruct (_ =? SPAWN_QUERY). { unfold handle_spawn_query. destruct (nk_spawn k); answered Hno. }
  destruct (_ =? SVC_CONNECT); [by intros ?%svc_connect_cgroup|].
  destruct (_ =? CONNECT_AFUNIX).
  { destruct (svc_decode_request _); [|answered Hno].
    destruct (bool_decide _); [by intros ?%tun_connect_cgroup|].
    destruct (existsb _ _); [by intros ?%svc_connect_cgroup|answered Hno]. }
  unfold inet_connect, register_mirror, register_tun_sink.
  repeat case_match; answered Hno.
Qed.

(** Who an expired kennel ends with: an on-demand provider nobody consumes, an [exit] action, or an
    operator who was asked and declined. *)
Definition ttl_kills (lc : Lifecycle') (cat : option Catalogue) (a : Activator) (answer : option bool) : bool :=
  match cat ≫= (fun c => ondemand_provider_offers c (lf_name lc)) with
  | Some offers => match a with Some running => negb (running offers) | None => false end
  | None => match lf_ttl_action lc with
            | Ttl_Exit => true
            | Ttl_Warn => false
            | Ttl_Renew => lf_prompt lc && bool_decide (answer = Some false)
            end
  end.

(** An expired kennel never stays frozen: the cgroup is frozen and then thawed or killed, by one
    rule.  It is killed iff it is an on-demand provider with no running consumer, or its action is
    [exit], or it is [renew] and an operator was asked and declined; it is told to terminate exactly
    then, and marked reaped only when killed as a provider.  A missed prompt never kills. *)
Theorem ttl_thaws_or_kills (lc : Lifecycle') (cat : option Catalogue) (a : Activator) (answer : option bool) (s : State) :
  let r := ttl_expired lc cat a answer s in
  let dies := ttl_kills lc cat a answer in
  st_cgroup r.2 = st_cgroup s ++ [Freeze; if dies then Kill else Thaw] /\
  (dies = true <-> r.1.2 = one TTL_TERMINATE) /\
  st_reaped r.2 = st_reaped s ++
    (if dies && bool_decide (is_Some (cat ≫= (fun c => ondemand_provider_offers c (lf_name lc)))) then [lf_name lc] else []) /\
  (answer = None -> lf_ttl_action lc = Ttl_Renew ->
   cat ≫= (fun c => ondemand_provider_offers c (lf_name lc)) = None -> dies = false).
Proof.
  cbv zeta. unfold ttl_kills, ttl_expired. cbv zeta. destruct (cat ≫= _) as [offers|] eqn:Ec.
  { destruct a as [running|]; [destruct (running offers)|]; cbn; rewrite ?app_nil_r, <- ?app_assoc;
      by split_and!. }
  destruct (lf_ttl_action lc); [cbn; rewrite ?andb_false_r, ?app_nil_r, <- ?app_assoc; by split_and!..|].
  destruct (lf_prompt lc), answer as [[|]|]; cbn; rewrite ?app_nil_r, <- ?app_assoc; by split_and!.
Qed.

(** * The waits *)

(** Polls at least [CONSUME_WAIT_POLL] apart, after [start] milliseconds. *)
Fixpoint spaced {A} (start : Z) (polls : list (A * Z)) : Prop :=
  match polls with
  | [] => True
  | p :: polls => start + CONSUME_WAIT_POLL <= p.2 /\ spaced p.2 polls
  end.

Lemma consume_wait_ends k i name polls s start :
  spaced start polls -> CONSUME_WAIT_DEADLINE <= start + CONSUME_WAIT_POLL * Z.of_nat (length polls) -> 0 <= start ->
  polls <> [] -> is_Some (consume_wait k i name polls s).
Proof.
  revert start. induction polls as [|[cat elapsed] polls IH]; [done|]. intros start [Hs Hp] Hl H0 _.
  cbn [fst snd] in Hs, Hp. cbn [consume_wait]. destruct (broker_decide _ cat name); [by eexists..| |by eexists].
  destruct (Z.leb_spec CONSUME_WAIT_DEADLINE elapsed); [by eexists|].
  cbn [length] in Hl. unfold CONSUME_WAIT_POLL, CONSUME_WAIT_DEADLINE in *.
  apply (IH elapsed); [done|lia..|]. intros ->. cbn [length] in Hl. lia.
Qed.

Lemma tun_wait_ends k i payload polls s start :
  spaced start polls -> CONSUME_WAIT_DEADLINE <= start + CONSUME_WAIT_POLL * Z.of_nat (length polls) -> 0 <= start ->
  polls <> [] -> (forall sink, Some sink ∈ map fst polls -> accepts sink payload <> None) ->
  is_Some (tun_wait k i payload polls s).
Proof.
  revert start. induction polls as [|[sink elapsed] polls IH]; [done|]. intros start [Hs Hp] Hl H0 _ Ha.
  cbn [fst snd map] in Hs, Hp, Ha. cbn [tun_wait]. destruct (deliver _ _) eqn:Ed; [by eexists| |].
  2: { apply deliver_waits in Ed as (x & -> & Hx). destruct (Ha x); [by left|done]. }
  destruct (Z.leb_spec CONSUME_WAIT_DEADLINE elapsed); [by eexists|].
  cbn [length] in Hl. unfold CONSUME_WAIT_POLL, CONSUME_WAIT_DEADLINE in *.
  apply (IH elapsed); [done|lia..| |set_solver]. intros ->. cbn [length] in Hl. lia.
Qed.

Lemma svc_connect_ends k cat a polls i s :
  spaced 0 polls -> (100 <= length polls)%nat -> is_Some (svc_connect k cat a polls i s).
Proof.
  intros Hs Hl. unfold svc_connect. destruct (svc_decode_request _); [|by eexists].
  destruct (broker_decide _ _ _); [by eexists..| |by eexists]. destruct cat; [|by eexists].
  apply (consume_wait_ends _ _ _ _ _ 0); unfold CONSUME_WAIT_POLL, CONSUME_WAIT_DEADLINE;
    [done|lia|lia|intros ->; cbn in Hl; lia].
Qed.

(** C39: Every call is answered, but for one kind.  Whatever the catalogue and the activation do, a call that
    waits for a cold provider or for a tun broker to register ends within a hundred polls of 50 ms, so two
    kennels that consume each other time out and do not deadlock.  The exception is the delivery of a
    tun session: while the registered sink does not reply to it, the call has no answer, however many
    polls there are.  The other calls to the host (connecting a socket, the resolver, the dial of the
    delegate, the operator's prompt) are taken to return. *)
Theorem node0_call_answered (k : Kennel) (w : World) (i : Call) (s : State) :
  spaced 0 (wo_polls w) -> (100 <= length (wo_polls w))%nat ->
  spaced 0 (wo_sink_polls w) -> (100 <= length (wo_sink_polls w))%nat ->
  (~ asks_tun i -> is_Some (handle k w i s)) /\
  (forall payload, nk_tun_session k = Some payload ->
     (forall sink, Some sink ∈ sinks w s -> accepts sink payload <> None) -> is_Some (handle k w i s)) /\
  (nk_tun_session k = None -> is_Some (handle k w i s)) /\
  (forall payload sink, asks_tun i -> nk_tun_session k = Some payload -> st_sink s = Some sink ->
     accepts sink payload = None -> handle k w i s = None).
Proof.
  intros Hs1 Hl1 Hs2 Hl2.
  assert (Htun : forall payload, nk_tun_session k = Some payload ->
      (forall sink, Some sink ∈ sinks w s -> accepts sink payload <> None) ->
      is_Some (tun_connect k (wo_catalogue w) (wo_activator w) (wo_sink_polls w) i s)).
  { intros payload Hp Ha. unfold tun_connect. rewrite Hp. destruct (deliver _ _) eqn:Ed; [by eexists| |].
    - apply (tun_wait_ends _ _ _ _ _ 0); unfold CONSUME_WAIT_POLL, CONSUME_WAIT_DEADLINE;
        [done|lia|lia|intros H'; rewrite H' in Hl2; cbn in Hl2; lia|]. intros sink Hin. apply Ha. by right.
    - apply deliver_waits in Ed as (x & Hx & Hn). destruct (Ha x); [|done]. unfold sinks. rewrite Hx. by left. }
  assert (Hall : (asks_tun i -> is_Some (tun_connect k (wo_catalogue w) (wo_activator w) (wo_sink_polls w) i s)) ->
      is_Some (handle k w i s)).
  { intros Ht. unfold handle.
    do 3 (case_match; [by eexists|]). case_match; [by apply svc_connect_ends|].
    destruct (Z.eqb_spec (cl_code i) CONNECT_AFUNIX) as [Hc|_]; [|repeat case_match; by eexists].
    destruct (svc_decode_request _) as [name|] eqn:En; [|by eexists]. case_bool_decide as Hn.
    - apply Ht. split; [done|]. congruence.
    - case_match; [by apply svc_connect_ends|by eexists]. }
  split_and!.
  - intros Hn. apply Hall. by intros ?%Hn.
  - intros payload Hp Ha. apply Hall. intros _. by apply (Htun payload).
  - intros Hp. apply Hall. intros _. unfold tun_connect. rewrite Hp. by eexists.
  - intros payload sink [Hc Hn] Hp Hk Ha. unfold handle. rewrite Hc, Hn.
    cbn [Z.leb Z.eqb Z.compare Pos.compare Pos.compare_cont Pos.eqb]. rewrite bool_decide_eq_true_2 by done.
    unfold tun_connect. rewrite Hp, Hk. unfold deliver. by rewrite Ha.
Qed.

(** * The sink of the tun broker *)

Lemma trailing_handle_alone h : in_u32 h -> trailing_handle (flat_handle en h) = Some h.
Proof.
  intros Hh. unfold trailing_handle.
  assert (length (flat_handle en h) = FLAT_BINDER_OBJECT_SIZE) as ->
    by (unfold flat_handle; by rewrite !length_app, !length_ne_bytes).
  rewrite Nat.ltb_irrefl, Nat.sub_diag. by apply flat_handle_roundtrip.
Qed.

(** Any kennel can take the place of the tun broker.  The handler of REGISTER_TUN_SINK asks nothing
    of the kennel it is called from: any process of any kennel that sends a node becomes the sink of
    the whole daemon, the next consumer's session, with its grants, goes to it, and what that
    consumer is handed as its broker connection is the descriptor it answers with; and when its node
    dies no sink is left, whatever was registered before. *)
Theorem tun_sink_unguarded (k kc : Kennel) (w wc : World) (i ic : Call) (h : Z) (payload : bytes) (s sc : State) :
  cl_code i = REGISTER_TUN_SINK -> cl_data i = flat_handle en h -> in_u32 h -> acquire h = true ->
  nk_tun_session kc = Some payload -> cl_code ic = CONNECT_AFUNIX -> cl_data ic = TUN_CAPABILITY ->
  accepts (nk_ctx k, h) payload = Some true ->
  exists s1 s2, handle k w i s = Some (one STATUS_OK, s1) /\
    handle kc wc ic (with_sink (st_sink s1) sc) = Some (NFd (CSession (nk_ctx k, h) payload), s2) /\
    st_sink (on_death SINK_DEATH_COOKIE s1) = None.
Proof.
  intros Hc Hd Hh Ha Hp Hcc Hdc Hacc. unfold handle. rewrite Hc, Hcc, Hdc.
  assert (svc_decode_request TUN_CAPABILITY = Some TUN_CAPABILITY) as -> by (by vm_compute).
  rewrite bool_decide_true by done. cbn [Z.leb Z.eqb Z.compare Pos.compare Pos.compare_cont Pos.eqb].
  unfold register_tun_sink. cbv zeta. rewrite Hd, (trailing_handle_alone _ Hh), Ha.
  eexists _, _. split; [done|]. split; [|done].
  unfold tun_connect. rewrite Hp. cbn [st_sink with_sink emit_event negb]. unfold deliver. by rewrite Hacc.
Qed.
End node0.

(** * The bounce buffer *)

Section bounced.
Context (push : Z -> Z -> bool).

(** The conduits of the notifications before the first malformed one. *)
Fixpoint notified (msgs : list (bytes * list Z)) : list (Z * Z) :=
  match msgs with
  | (data, [fd]) :: msgs => match decode_notify (take 8 data) with Some port => (port, fd) :: notified msgs | None => [] end
  | _ => []
  end.
(** What becomes of one: pushed to the node registered for its port, or not. *)
Definition pushed (m : gmap Z Z) (n : Z * Z) : option (Z * Z) :=
  match m !! n.1 with Some handle => if push handle n.2 then Some (handle, n.2) else None | None => None end.
Definition unpushed (m : gmap Z Z) (port : Z) (n : Z * Z) : option Z :=
  if bool_decide (n.1 = port) && bool_decide (pushed m n = None) then Some n.2 else None.
Definition bounced (s : State) (port : Z) : list Z := match st_bounce s !! port with Some queue => queue | None => [] end.

Lemma deliver_exact (port fd : Z) (s : State) :
  let d := inbound_deliver push port fd s in
  d.1 = pushed (st_mirrors s) (port, fd) /\ st_mirrors d.2 = st_mirrors s /\
  forall p, bounced d.2 p = bounced s p ++ option_list (unpushed (st_mirrors s) p (port, fd)).
Proof.
  cbv zeta. unfold inbound_deliver, unpushed, pushed. cbn [fst snd].
  assert (forall p, bounced (with_inbound (st_mirrors s) (bounce port fd (st_bounce s)) s) p =
    bounced s p ++ option_list (if bool_decide (port = p) && bool_decide (@None (Z * Z) = None) then Some fd else None)) as Hb.
  { intros p. unfold bounced, bounce. cbn [st_bounce with_inbound].
    destruct (decide (port = p)) as [->|Hp]; cbn.
    - rewrite lookup_insert_eq, bool_decide_true by done. cbn. by destruct (st_bounce s !! p).
    - rewrite lookup_insert_ne, bool_decide_false by done. cbn. by rewrite app_nil_r. }
  destruct (st_mirrors s !! port) as [handle|]; [destruct (push handle fd)|]; cbn [fst snd]; split_and!; try done.
  intros p. rewrite (bool_decide_false (Some _ = None)) by done. rewrite andb_false_r. cbn. by rewrite app_nil_r.
Qed.

(** Each conduit the delegate hands over is pushed to the node registered for its port or kept in
    the port's bounce buffer, never lost and never to another port, in order, up to the first
    malformed notification.  And what is in the bounce buffer stays there: however many later
    conduits are pushed to the same node, the buffer is only added to, so a conduit that bounced on
    a full binder buffer waits for a registration. *)
Theorem reader_delivers_or_bounces (msgs : list (bytes * list Z)) (s : State) :
  let r := run_reader push msgs s in
  r.1 = omap (pushed (st_mirrors s)) (notified msgs) /\ st_mirrors r.2 = st_mirrors s /\
  forall port, bounced r.2 port = bounced s port ++ omap (unpushed (st_mirrors s) port) (notified msgs).
Proof.
  cbv zeta. revert s. induction msgs as [|[data fds] msgs IH]; intros s.
  { cbn. split_and!; [done|done|]. intros port. by rewrite app_nil_r. }
  assert (([] : list (Z * Z)) = [] /\ st_mirrors s = st_mirrors s /\
    forall port, bounced s port = bounced s port ++ []) as Hstop.
  { split_and!; [done|done|]. intros port. by rewrite app_nil_r. }
  cbn [run_reader notified]. destruct fds as [|fd [|fd' fds]]; [done| |done].
  destruct (decode_notify (take 8 data)) as [port|]; [|done]. cbv zeta.
  destruct (deliver_exact port fd s) as (H1 & H2 & H3). cbn [fst snd].
  destruct (IH (inbound_deliver push port fd s).2) as (I1 & I2 & I3). rewrite H2 in *.
  split_and!.
  - rewrite I1, H1. cbn [omap list_omap]. by destruct (pushed _ _).
  - done.
  - intros p. rewrite I3, H3, <- app_assoc. f_equal. cbn [omap list_omap]. by destruct (unpushed _ _ _).
Qed.

Lemma drain_bounce_all handle queue : (forall fd, fd ∈ queue -> push handle fd = true) -> drain_bounce push handle queue = [].
Proof.
  induction queue as [|fd queue IH]; [done|]. intros H. cbn [drain_bounce]. rewrite H by set_solver.
  apply IH. set_solver.
Qed.
Lemma drain_perm handle queue :
  exists sent, Forall (fun fd => push handle fd = true) sent /\ queue ≡ₚ sent ++ drain_bounce push handle queue.
Proof.
  induction queue as [|fd queue (sent & Hs & Hp)]; [by exists []|]. cbn [drain_bounce].
  destruct (push handle fd) eqn:E.
  - exists (fd :: sent). split; [by constructor|]. cbn. by constructor.
  - exists []. split; [done|]. cbn. by rewrite (comm (++)).
Qed.

(** A registration empties the bounce buffer of its port when the node takes what it is pushed,
    loses nothing when it does not, and leaves every other port alone. *)
Theorem register_drains (port handle : Z) (s : State) :
  let s' := inbound_register push port handle s in
  st_mirrors s' = <[port := handle]> (st_mirrors s) /\
  (forall p, p <> port -> bounced s' p = bounced s p) /\
  ((forall fd, fd ∈ bounced s port -> push handle fd = true) -> bounced s' port = []) /\
  exists sent, Forall (fun fd => push handle fd = true) sent /\ bounced s port ≡ₚ sent ++ bounced s' port.
Proof.
  cbv zeta. unfold inbound_register, bounced. cbn [st_mirrors st_bounce with_inbound]. split; [done|].
  destruct (st_bounce s !! port) as [queue|] eqn:E.
  - split; [intros p Hp; by rewrite lookup_insert_ne|]. rewrite lookup_insert_eq.
    split; [apply drain_bounce_all|apply drain_perm].
  - rewrite E. split_and!; [done|done|by exists []].
Qed.

(** A node that dies is forgotten for all its ports, and for no other node's. *)
Theorem dead_node_forgotten (cookie port : Z) (s : State) :
  st_mirrors (drop_dead cookie s) !! port =
    match st_mirrors s !! port with
    | Some h => if (h =? cookie) && (cookie <=? u32_max) then None else Some h
    | None => None
    end /\
  bounced (drop_dead cookie s) port = bounced s port.
Proof.
  unfold drop_dead, bounced. destruct (cookie <=? u32_max); cbn [st_mirrors st_bounce with_inbound].
  - split; [|done]. unfold forget_handle.
    destruct (st_mirrors s !! port) as [h|] eqn:E.
    + rewrite andb_true_r. destruct (Z.eqb_spec h cookie) as [->|Hn].
      * apply map_lookup_filter_None. right. intros x Hx. rewrite E in Hx. injection Hx as <-. cbn. by intros [].
      * by apply map_lookup_filter_Some.
    + apply map_lookup_filter_None. by left.
  - split; [|done]. destruct (st_mirrors s !! port); [by rewrite andb_false_r|done].
Qed.
End bounced.

(** * The spawn listing *)

Section listing.
Context {C : Crypto} {L : Toml} (read : bytes -> option bytes).

Lemma pinned_caps rt ref pin t :
  pinned_template read rt ref pin t -> caps_of read rt pin = Fields (List.filter (writable pin) (sp_manifest t)).
Proof.
  intros [Hf (bs & doc & Hr & Hdoc)]. apply find_some in Hf as [_ Href%bool_decide_eq_true].
  unfold caps_of. rewrite Href, Hr.
  by rewrite (proj2 (verify_pinned_Ok bs (srt_keys rt) (st_signing_key_id pin) (st_signature pin) t)) by (by exists doc).
Qed.

Lemma manifest_writable t pin f c :
  field_constraint t f = Some c -> st_mutable_narrow pin = [] \/ f ∈ st_mutable_narrow pin ->
  f ∈ map va_field (List.filter (writable pin) (sp_manifest t)).
Proof.
  unfold field_constraint, manifest_find. destruct (List.find _ _) as [v|] eqn:E; [|done]. intros _ Hn.
  apply find_some in E as [Hin <-%bool_decide_eq_true]. apply list_elem_of_In, in_map, filter_In. split; [done|].
  unfold writable. destruct Hn as [->|Hn]; [done|]. apply orb_true_iff. right. apply existsb_exists.
  exists (va_field v). split; [by apply list_elem_of_In|by apply bool_decide_eq_true].
Qed.

(** The listing is complete: a request that is built names a template of the listing, shown as
    available, and writes only fields the listing shows under it. *)
Theorem listing_covers_spawn (rt : SpawnRuntime) (data : bytes) (i : SettledPolicy) :
  bytes_ok data -> vet read rt data = Ok i ->
  exists pin pairs vs, spawn_decode_request data = Some (st_template pin, pairs) /\ pin ∈ sp_allow (srt_grant rt) /\
    caps_of read rt pin = Fields vs /\ Forall (fun f => f.1 ∈ map va_field vs) pairs.
Proof.
  intros Hd (ref & pairs & pin & t & Hr & Hp & _ & Hn & Hi)%vet_Ok.
  pose proof (pinned_caps _ _ _ _ Hp) as Hcaps. destruct Hp as [Hf _].
  apply find_some in Hf as [Hin <-%bool_decide_eq_true].
  exists pin, pairs, (List.filter (writable pin) (sp_manifest t)).
  split; [done|]. split; [by apply list_elem_of_In|]. split; [done|].
  apply (spawn_request_exact data _ _ Hd) in Hr as (_ & _ & _ & _ & [Hl _]).
  apply instantiate_Ok in Hi as [[Ha _] _].
  2: { unfold entries_of. rewrite length_map. unfold u32_max. unfold u16_max in Hl. lia. }
  apply Forall_forall. intros f Hfin.
  assert (entry_admitted t {| pe_field := f.1; pe_value := f.2 |}) as (c & Hc & _).
  { apply (Forall_forall (entry_admitted t) (entries_of pairs)); [done|]. unfold entries_of. apply list_elem_of_fmap. by exists f. }
  apply (manifest_writable _ _ _ _ Hc). destruct Hn as [?|Hn]; [by left|right]. by eapply Forall_forall in Hn.
Qed.
End listing.

(** The listing a kennel is shown is that of its first query.  The body is rendered once, over the
    trust store as it is then, and kept: whatever is installed, replaced or removed afterwards, every
    later query shows the same templates as available and the same fields as writable. *)
Theorem listing_frozen {C : Crypto} {L : Toml} (read read' : bytes -> option bytes) (rt : SpawnRuntime) (k : Kennel)
    (i i' : Call) (s : State) :
  nk_spawn k = Some rt ->
  let first := handle_spawn_query read k i s in
  let later := handle_spawn_query read' k i' first.2 in
  later.1 = first.1 /\ st_caps later.2 = st_caps first.2.
Proof. intros Hk. cbv zeta. unfold handle_spawn_query. rewrite Hk. done. Qed.

(** * Examples *)

Definition demo_kennel (ctx : Z) (session : option bytes) : Kennel := {|
  nk_ctx := ctx;
  nk_unix := {| ur_sockets := [{| us_name := str "agent"; us_real := str "/run/user/1000/agent.sock";
    us_shim := str "/run/agent.sock"; us_env := None |};
    {| us_name := str "ctl"; us_real := str "/run/user/1000/../1000/kennel/control.sock";
    us_shim := str "/run/ctl.sock"; us_env := None |}] |};
  nk_net := denied; nk_command_socket := false;
  nk_lifecycle := {| lf_init_host_pid := Some 4242; lf_supervision := [1]; lf_ttl_action := Ttl_Exit;
    lf_name := str "dev"; lf_prompt := false |};
  nk_dbus_mesh := false; nk_spawn := None; nk_consumes := []; nk_tun_session := session |}.
Definition demo_call (code : Z) (data : bytes) (pid euid : Z) : Call :=
  {| cl_code := code; cl_data := data; cl_sender_pid := pid; cl_sender_euid := euid |}.
Definition demo_state : State := {|
  st_sink := None; st_mirrors := ∅; st_bounce := ∅; st_allowed := ∅; st_cgroup := []; st_activated := [];
  st_reaped := []; st_live := 0; st_enqueued := []; st_caps := None; st_events := [] |}.
(** A hundred polls of a sink that never comes. *)
Definition demo_world : World := {|
  wo_catalogue := None; wo_activator := None; wo_answer := None;
  wo_polls := map (fun n => ({| ct_providers := ∅; ct_by_name := ∅ |}, 50 * Z.of_nat n)) (seq 1 100);
  wo_sink_polls := map (fun n => (None, 50 * Z.of_nat n)) (seq 1 100);
  wo_counter := 0; wo_mint_ok := true; wo_dup_ok := true; wo_refusal := [] |}.
Definition demo_handle (k : Kennel) (i : Call) (s : State) : option (NodeReply * State) :=
  handle (C := toy_crypto) (L := one_document worker_doc) LittleEndian (fun _ => true) Some (fun _ => None)
    (fun _ _ => true) worker_read (fun _ => true) (fun _ _ => true) (str "/run/user/1000/kennel/control.sock")
    (str "/run/user/1000/kennel") (fun sink _ => if sink.1 =? 6 then None else Some true) k demo_world i s.
Definition reply_of (r : option (NodeReply * State)) : option NodeReply := fst <$> r.
Definition state_of (r : option (NodeReply * State)) : State := match r with Some (_, s) => s | None => demo_state end.

(** The granted agent is connected; the control socket is not, though the policy lists it under another spelling. *)
Lemma node0_descriptors_granted_witness :
  conn_granted Some (fun _ => None) (str "/run/user/1000/kennel/control.sock") (str "/run/user/1000/kennel")
    (fun sink _ => if sink.1 =? 6 then None else Some true) (demo_kennel 1 None)
    demo_world (demo_call CONNECT_AFUNIX (str "agent") 7 1000) demo_state (CUnix (str "/run/user/1000/agent.sock")) /\
  reply_of (demo_handle (demo_kennel 1 None) (demo_call CONNECT_AFUNIX (str "ctl") 7 1000) demo_state) =
    Some (one STATUS_DENIED).
Proof.
  split; [|vm_compute; reflexivity].
  apply (node0_descriptors_granted (C := toy_crypto) (L := one_document worker_doc) LittleEndian (fun _ => true) Some
    (fun _ => None) (fun _ _ => true) worker_read (fun _ => true) (fun _ _ => true)
    (str "/run/user/1000/kennel/control.sock") (str "/run/user/1000/kennel")
    (fun sink _ => if sink.1 =? 6 then None else Some true) (demo_kennel 1 None)
    demo_world (demo_call CONNECT_AFUNIX (str "agent") 7 1000) demo_state
    (state_of (demo_handle (demo_kennel 1 None) (demo_call CONNECT_AFUNIX (str "agent") 7 1000) demo_state))).
  vm_compute. reflexivity.
Defined.

(** The init's TTL notice kills; the same notice from another process does nothing. *)
Lemma cgroup_only_by_init_witness :
  lf_init_host_pid (nk_lifecycle (demo_kennel 1 None)) = Some 4242 /\
  st_cgroup (state_of (demo_handle (demo_kennel 1 None) (demo_call NOTIFY_TTL_EXPIRED [] 4242 0) demo_state)) = [Freeze; Kill] /\
  st_cgroup (state_of (demo_handle (demo_kennel 1 None) (demo_call NOTIFY_TTL_EXPIRED [] 4243 0) demo_state)) = [].
Proof.
  split; [|split; vm_compute; reflexivity].
  apply (cgroup_only_by_init (C := toy_crypto) (L := one_document worker_doc) LittleEndian (fun _ => true) Some
    (fun _ => None) (fun _ _ => true) worker_read (fun _ => true) (fun _ _ => true)
    (str "/run/user/1000/kennel/control.sock") (str "/run/user/1000/kennel")
    (fun sink _ => if sink.1 =? 6 then None else Some true) (demo_kennel 1 None)
    demo_world (demo_call NOTIFY_TTL_EXPIRED [] 4242 0) (one TTL_TERMINATE) demo_state
    (state_of (demo_handle (demo_kennel 1 None) (demo_call NOTIFY_TTL_EXPIRED [] 4242 0) demo_state)));
    [vm_compute; reflexivity|done].
Defined.

(** A consumer of a broker that never comes waits the whole deadline and is told so; one whose broker, the
    sink of kennel 6, takes the session and does not reply is not answered. *)
Lemma node0_call_answered_witness :
  is_Some (demo_handle (demo_kennel 1 (Some [1])) (demo_call CONNECT_AFUNIX TUN_CAPABILITY 7 1000) demo_state) /\
  reply_of (demo_handle (demo_kennel 1 (Some [1])) (demo_call CONNECT_AFUNIX TUN_CAPABILITY 7 1000) demo_state) =
    Some (one STATUS_UNAVAILABLE) /\
  demo_handle (demo_kennel 1 (Some [1])) (demo_call CONNECT_AFUNIX TUN_CAPABILITY 7 1000)
    (with_sink (Some (6, 3)) demo_state) = None.
Proof.
  assert (spaced 0 (wo_polls demo_world)) as H1 by (vm_compute; intuition discriminate).
  assert (spaced 0 (wo_sink_polls demo_world)) as H2 by (vm_compute; intuition discriminate).
  split; [|split; [vm_compute; reflexivity|]].
  - apply (node0_call_answered (C := toy_crypto) (L := one_document worker_doc) LittleEndian (fun _ => true) Some
      (fun _ => None) (fun _ _ => true) worker_read (fun _ => true) (fun _ _ => true)
      (str "/run/user/1000/kennel/control.sock") (str "/run/user/1000/kennel")
      (fun sink _ => if sink.1 =? 6 then None else Some true) (demo_kennel 1 (Some [1])) demo_world
      (demo_call CONNECT_AFUNIX TUN_CAPABILITY 7 1000) demo_state H1 (le_n _) H2 (le_n _)) with (payload := [1]); [done|].
    intros sink Hin. exfalso. revert Hin. apply (bool_decide_eq_false_1 (Some sink ∈ _)). vm_compute. reflexivity.
  - by eapply (node0_call_answered (C := toy_crypto) (L := one_document worker_doc) LittleEndian (fun _ => true) Some
      (fun _ => None) (fun _ _ => true) worker_read (fun _ => true) (fun _ _ => true)
      (str "/run/user/1000/kennel/control.sock") (str "/run/user/1000/kennel")
      (fun sink _ => if sink.1 =? 6 then None else Some true) (demo_kennel 1 (Some [1])) demo_world
      (demo_call CONNECT_AFUNIX TUN_CAPABILITY 7 1000) (with_sink (Some (6, 3)) demo_state) H1 (le_n _) H2 (le_n _)).
Defined.

(** Kennel 9 registers its own node; kennel 1's session goes to it. *)
Lemma tun_sink_unguarded_witness :
  exists s1 s2,
    demo_handle (demo_kennel 9 None) (demo_call REGISTER_TUN_SINK (flat_handle LittleEndian 3) 7 1000) demo_state =
      Some (one STATUS_OK, s1) /\
    demo_handle (demo_kennel 1 (Some [1])) (demo_call CONNECT_AFUNIX TUN_CAPABILITY 7 1000)
      (with_sink (st_sink s1) demo_state) = Some (NFd (CSession (9, 3) [1]), s2) /\
    st_sink (on_death SINK_DEATH_COOKIE s1) = None.
Proof. apply (tun_sink_unguarded LittleEndian); done. Defined.

(** A conduit bounces on a full buffer; the next one is pushed past it. *)
Example bounced_stays :
  let s := with_inbound {[8080 := 5]} ∅ demo_state in
  let r := run_reader (fun _ fd => negb (fd =? 1)) [(be_bytes 2 8080, [1]); (be_bytes 2 8080, [2])] s in
  r.1 = [(5, 2)] /\ bounced r.2 8080 = [1].
Proof. vm_compute. split; reflexivity. Qed.

(** The template is not installed when the kennel first asks; then it is, and can be spawned, and the listing
    still says that it cannot. *)
Lemma listing_frozen_witness :
  let k := {| nk_ctx := 7; nk_unix := {| ur_sockets := [] |}; nk_net := denied; nk_command_socket := false;
    nk_lifecycle := nk_lifecycle (demo_kennel 7 None); nk_dbus_mesh := false; nk_spawn := Some worker_rt;
    nk_consumes := []; nk_tun_session := None |} in
  let i := demo_call SPAWN_QUERY [] 7 1000 in
  let query := handle_spawn_query (C := toy_crypto) (L := one_document worker_doc) in
  (query worker_read k i (query (fun _ => None) k i demo_state).2).1 = (query (fun _ => None) k i demo_state).1 /\
  (query (fun _ => None) k i demo_state).1 = NData (STATUS_OK :: ascii_bytes "spawn grant: max_instances 2, live 0" ++ NL ++
    ascii_bytes "  worker@v2  (unavailable: not in the trust store)" ++ NL) /\
  hd_fds (worker_spawn 0 (worker_request "fs.write" "out/a")) = true.
Proof.
  cbv zeta. split; [|split; vm_compute; reflexivity].
  apply (listing_frozen (C := toy_crypto) (L := one_document worker_doc) (fun _ => None) worker_read worker_rt). reflexivity.
Defined.
Lemma listing_covers_spawn_witness :
  exists pin pairs vs, spawn_decode_request (worker_request "fs.write" "out/a") = Some (st_template pin, pairs) /\
    pin ∈ sp_allow (srt_grant worker_rt) /\
    caps_of (C := toy_crypto) (L := one_document worker_doc) worker_read worker_rt pin = Fields vs /\
    Forall (fun f => f.1 ∈ map va_field vs) pairs.
Proof.
  apply (listing_covers_spawn (C := toy_crypto) (L := one_document worker_doc) worker_read worker_rt _ worker_instance);
    [|vm_compute; reflexivity].
  apply (bool_decide_unpack _). vm_compute. exact I.
Defined.
