(* ===== verification/Substitute.v ===== *)
(** From verified bytes to a plan: the first half of [kennel-lib-spawn/src/lib.rs], and the
    mesh rendezvous datagram ([mesh_rendezvous.rs]).

    [prepare] verifies a settled policy, fills the placeholders of this instance into its
    paths and builds the plan.  [substitute] here has the source's fields in the source's
    order with its early return.

    Theorems: what the substitution of a string is, token by token; which fields change and
    that nothing unresolved is left in them; that the operator's home does not show under its
    own name in the view or the Landlock rules, and its grants are under the masked user's;
    that an environment value can still carry it; the datagram reads back. *)

From S2P Require Import Prelude Bytes Str Paths IpText Plan Settled PlanBuild B64 Sshsig Verify.
Open Scope Z_scope.

(** * Placeholders *)

Record RuntimeSubstitutions : Type := {
  rs_ctx : Z; rs_uid : Z; rs_kennel : bytes; rs_home : bytes; rs_namespace : bytes }.

Inductive SubstError : Type :=
  | SePolicy (e : PolicyError)
  | UnsubstitutedPlaceholder (field value : bytes)
  | SeInvalidPolicy (e : SpawnError).

(** [str::replace] of a pattern that is not empty; [skip] bytes are left of the last match. *)
Fixpoint replace_from (from to : bytes) (skip : nat) (s : bytes) : bytes :=
  match s with
  | [] => []
  | b :: s' =>
      match skip with
      | S k => replace_from from to k s'
      | O => if starts_with from s then to ++ replace_from from to (length from - 1) s'
             else b :: replace_from from to O s'
      end
  end.
Definition replace (from to s : bytes) : bytes := replace_from from to O s.

Definition substitute_str (s : bytes) (x : RuntimeSubstitutions) (user group : bytes) : bytes :=
  replace (ascii_bytes "<group>") group
    (replace (ascii_bytes "<user>") user
      (replace (ascii_bytes "<home>") (to_string_lossy (rs_home x))
        (replace (ascii_bytes "<kennel>") (rs_kennel x)
          (replace (ascii_bytes "<uid>") (dec (rs_uid x))
            (replace (ascii_bytes "<ctx>") (dec (rs_ctx x)) s))))).

(** The loop of [expand_home_prefix] over its tokens. *)
Fixpoint expand_prefix (toks : list bytes) (s home : bytes) : bytes :=
  match toks with
  | [] => s
  | tok :: toks =>
      if bool_decide (s = tok) then home
      else match rest ← strip_prefix tok s; strip_prefix [SLASH] rest with
           | Some rest => home ++ [SLASH] ++ rest
           | None => expand_prefix toks s home
           end
  end.
Definition expand_home_prefix (s home : bytes) : bytes :=
  expand_prefix (map ascii_bytes ["~"; "$HOME"; "<home>"]%string) s home.

Definition substitute_path (s : bytes) (x : RuntimeSubstitutions) (user group : bytes) : bytes :=
  expand_home_prefix (substitute_str s x user group) (to_string_lossy (rs_home x)).
Definition substitute_persona_path (s : bytes) (x : RuntimeSubstitutions) (user group : bytes) : bytes :=
  substitute_str (expand_home_prefix s (ascii_bytes "/home/" ++ user)) x user group.

Definition LT : Z := 60.
Definition GT : Z := 62.
Definition reject_leftover (field value : bytes) : result SubstError unit :=
  if has_byte LT value then Err (UnsubstitutedPlaceholder field value) else Ok tt.

(** One assignment with its check, and the loops over them. *)
Definition fill (field : string) (f : bytes -> bytes) (s : bytes) : result SubstError bytes :=
  _ ← reject_leftover (ascii_bytes field) (f s); Ok (f s).
Fixpoint fill_each (field : string) (f : bytes -> bytes) (l : list bytes) : result SubstError (list bytes) :=
  match l with
  | [] => Ok []
  | s :: l => v ← fill field f s; vs ← fill_each field f l; Ok (v :: vs)
  end.
Fixpoint fill_redirects (f : bytes -> bytes) (l : list FsRedirect) : result SubstError (list FsRedirect) :=
  match l with
  | [] => Ok []
  | r :: l =>
      path ← fill "fs.redirect.path" f (rd_path r); source ← fill "fs.redirect.source" f (rd_source r);
      rs ← fill_redirects f l; Ok ({| rd_path := path; rd_source := source |} :: rs)
  end.
Fixpoint fill_vars (f : bytes -> bytes) (l : list (bytes * bytes)) : result SubstError (list (bytes * bytes)) :=
  match l with
  | [] => Ok []
  | (k, v) :: l => v ← fill "env.set" f v; vs ← fill_vars f l; Ok ((k, v) :: vs)
  end.

(** The policy with the fields that [substitute] assigns. *)
Definition with_fields (p : SettledPolicy) (read write exclusive : list bytes) (redirect : list FsRedirect)
    (allow path : list bytes) (shell : bytes) (vars : list (bytes * bytes)) : SettledPolicy :=
  let ep := sp_effective_policy p in let fs := ep_fs ep in let ex := ep_exec ep in {|
  sp_settled_schema_version := sp_settled_schema_version p; sp_name := sp_name p;
  sp_deferred_substitutions := sp_deferred_substitutions p;
  sp_framework_invariants_asserted := sp_framework_invariants_asserted p;
  sp_effective_policy := {|
    ep_net := ep_net ep;
    ep_fs := {| fs_home_shadow := fs_home_shadow fs; fs_read := read; fs_write := write; fs_exclusive := exclusive;
                fs_home_persist := fs_home_persist fs; fs_home_readonly := fs_home_readonly fs;
                fs_redirect := redirect; fs_cwd := fs_cwd fs; fs_tmp := fs_tmp fs; fs_dev := fs_dev fs |};
    ep_exec := {| ex_deny_setuid := ex_deny_setuid ex; ex_deny_setgid := ex_deny_setgid ex;
                  ex_deny_setcap := ex_deny_setcap ex; ex_deny_writable := ex_deny_writable ex;
                  ex_allow := allow; ex_deny := ex_deny ex; ex_path := path; ex_shell := shell;
                  ex_loaders := ex_loaders ex |};
    ep_proc := ep_proc ep; ep_cap := ep_cap ep; ep_seccomp := ep_seccomp ep; ep_lifecycle := ep_lifecycle ep;
    ep_tty := ep_tty ep; ep_trust := ep_trust ep |};
  sp_provenance := sp_provenance p; sp_ssh := sp_ssh p; sp_unix := sp_unix p; sp_identity := sp_identity p;
  sp_mesh := sp_mesh p; sp_service := sp_service p; sp_dbus := sp_dbus p; sp_audit := sp_audit p;
  sp_env := {| en_vars := vars |}; sp_ulimits := sp_ulimits p; sp_workload := sp_workload p;
  sp_rootfs := sp_rootfs p; sp_spawn := sp_spawn p; sp_manifest := sp_manifest p |}.

Definition substitute (policy : SettledPolicy) (x : RuntimeSubstitutions) : result SubstError SettledPolicy :=
  let user := id_user (sp_identity policy) in
  let group := id_group (sp_identity policy) in
  let fs := ep_fs (sp_effective_policy policy) in
  let ex := ep_exec (sp_effective_policy policy) in
  let path s := substitute_path s x user group in
  let persona s := substitute_persona_path s x user group in
  read ← fill_each "fs.read" path (fs_read fs);
  write ← fill_each "fs.write" path (fs_write fs);
  exclusive ← fill_each "fs.exclusive" path (fs_exclusive fs);
  redirect ← fill_redirects path (fs_redirect fs);
  allow ← fill_each "exec.allow" path (ex_allow ex);
  dirs ← fill_each "exec.path" persona (ex_path ex);
  shell ← fill "exec.shell" persona (ex_shell ex);
  vars ← fill_vars (fun v => substitute_str v x user group) (en_vars (sp_env policy));
  Ok (with_fields policy read write exclusive redirect allow dirs shell vars).

Section prepare.
Context {C : Crypto} {L : Toml} (en : endian) (SYS : bytes -> Z) (RLIM_INFINITY : Z).
Definition prepare (bs : bytes) (keys : KeySet) (x : RuntimeSubstitutions) : result SubstError Plan :=
  verified ← map_err SePolicy (verify_settled bs keys);
  substituted ← substitute verified x;
  map_err SeInvalidPolicy (from_policy en SYS RLIM_INFINITY substituted (rs_ctx x) (rs_namespace x) (rs_home x)).
End prepare.

(** * The rendezvous datagram *)

Definition RENDEZVOUS_SOCK : bytes := ascii_bytes "/dev/.kennel-mesh.sock".
Definition encode_mounts (mounts : list (Z * bytes)) : bytes * list Z :=
  (Z.min u8_max (blen mounts) ::
     flat_map (fun m => le_bytes 2 (Z.min u16_max (blen m.2)) ++ m.2) mounts,
   map fst mounts).
(** The loop of [decode], [count] times at most. *)
Fixpoint decode_pairs (count : nat) (rest : bytes) (fds : list Z) : list (Z * bytes) :=
  match count with
  | O => []
  | S count =>
      match rest with
      | a :: b :: after_len =>
          let len := Z.to_nat (le_val [a; b]) in
          if (length after_len <? len)%nat then []
          else match fds with
               | [] => []
               | fd :: fds => (fd, take len after_len) :: decode_pairs count (drop len after_len) fds
               end
      | _ => []
      end
  end.
Definition decode_mounts (data : bytes) (fds : list Z) : list (Z * bytes) :=
  decode_pairs (Z.to_nat (default 0 (head data))) (tail data) fds.

(** * What a substitution makes of a string *)

Definition no_lt (s : bytes) : Prop := has_byte LT s = false.

(** A string as text without [<] and closed tokens. *)
Inductive piece : Type := Lit (s : bytes) | Tok (name : bytes).
Definition token (name : bytes) : bytes := LT :: name ++ [GT].
Definition piece_ok (p : piece) : Prop :=
  match p with Lit s => has_byte LT s = false | Tok n => has_byte LT n = false /\ has_byte GT n = false end.
Definition text (p : piece) : bytes := match p with Lit s => s | Tok n => token n end.
Definition texts (ps : list piece) : bytes := flat_map text ps.
Definition set_token (n v : bytes) (p : piece) : piece :=
  match p with Tok m => if bool_decide (m = n) then Lit v else p | Lit _ => p end.

Lemma replace_skip from to k s :
  (k <= length s)%nat -> replace_from from to k s = replace from to (drop k s).
Proof.
  revert s; induction k as [|k IH]; intros s Hk; [done|].
  destruct s as [|b s]; [done|]. cbn in Hk |- *. apply IH. lia.
Qed.

Lemma replace_lit n to s t :
  has_byte LT s = false -> replace (token n) to (s ++ t) = s ++ replace (token n) to t.
Proof.
  unfold replace. induction s as [|b s IH]; intros Hs; [done|].
  cbn [has_byte existsb] in Hs. apply orb_false_iff in Hs as [Hb Hs].
  cbn [app replace_from]. assert (starts_with (token n) (b :: s ++ t) = false) as ->.
  { unfold starts_with, token. cbn [strip_prefix]. by rewrite Hb. }
  by rewrite IH.
Qed.

Lemma replace_same n to t : replace (token n) to (token n ++ t) = to ++ replace (token n) to t.
Proof.
  unfold replace at 1. change (token n ++ t) with (LT :: (n ++ [GT]) ++ t). cbn [replace_from].
  assert (starts_with (token n) (LT :: (n ++ [GT]) ++ t) = true) as ->.
  { apply starts_with_true. by exists t. }
  f_equal. rewrite replace_skip by (unfold token; cbn [length]; rewrite !length_app; cbn; lia). f_equal.
  unfold token. cbn [length]. replace (S (length (n ++ [GT])) - 1)%nat with (length (n ++ [GT])) by lia.
  apply drop_app_length.
Qed.

Lemma token_prefix n m t r :
  has_byte GT n = false -> has_byte GT m = false -> (m ++ [GT]) ++ t = (n ++ [GT]) ++ r -> m = n.
Proof.
  revert m; induction n as [|a n IH]; intros [|b m] Hn Hm H; [done|..].
  - cbn in H. injection H as -> _. by cbn in Hm.
  - cbn in H. injection H as <- _. by cbn in Hn.
  - cbn in H, Hn, Hm. injection H as -> H. apply orb_false_iff in Hn as [_ Hn], Hm as [_ Hm].
    f_equal. by apply IH.
Qed.

Lemma replace_other n m to t :
  has_byte GT n = false -> piece_ok (Tok m) -> m <> n ->
  replace (token n) to (token m ++ t) = token m ++ replace (token n) to t.
Proof.
  intros Hn [Hl Hg] Hne. unfold replace at 1. change (token m ++ t) with (LT :: (m ++ [GT]) ++ t). cbn [replace_from].
  destruct (starts_with (token n) (LT :: (m ++ [GT]) ++ t)) eqn:E.
  - apply starts_with_true in E as [r E]. cbn in E. injection E as E. by apply token_prefix in E.
  - change (LT :: replace (token n) to ((m ++ [GT]) ++ t) = LT :: (m ++ [GT]) ++ replace (token n) to t).
    f_equal. apply replace_lit. by rewrite has_byte_app, Hl.
Qed.

Lemma replace_texts n v ps :
  has_byte GT n = false -> Forall piece_ok ps -> replace (token n) v (texts ps) = texts (map (set_token n v) ps).
Proof.
  intros Hn. induction 1 as [|p ps Hp Hps IH]; [done|]. cbn [texts flat_map map]. fold (texts ps).
  destruct p as [s|m]; cbn [text set_token].
  - rewrite replace_lit by done. by rewrite IH.
  - destruct (decide (m = n)) as [->|Hne].
    + rewrite bool_decide_true by done. rewrite replace_same. by rewrite IH.
    + rewrite bool_decide_false by done. rewrite replace_other by done. by rewrite IH.
Qed.

Lemma set_token_ok n v ps : has_byte LT v = false -> Forall piece_ok ps -> Forall piece_ok (map (set_token n v) ps).
Proof.
  intros Hv H. apply Forall_map. eapply Forall_impl; [done|]. intros [s|m] Hp; [done|].
  cbn. by destruct (bool_decide _).
Qed.

Lemma dec_no_lt n : 0 <= n -> has_byte LT (dec n) = false.
Proof.
  intros Hn. unfold has_byte. apply not_true_iff_false. intros (b & Hb & E%Z.eqb_eq)%existsb_exists. subst b.
  pose proof (dec_digits_ascii 20 n Hn) as H. rewrite Forall_forall in H.
  specialize (H _ (proj2 (list_elem_of_In _ _) Hb)). vm_compute in H. done.
Qed.

(** The values that are spliced in. *)
Definition values (x : RuntimeSubstitutions) (user group : bytes) : list (bytes * bytes) :=
  [(ascii_bytes "ctx", dec (rs_ctx x)); (ascii_bytes "uid", dec (rs_uid x)); (ascii_bytes "kennel", rs_kennel x);
   (ascii_bytes "home", to_string_lossy (rs_home x)); (ascii_bytes "user", user); (ascii_bytes "group", group)].
Definition value_of (vs : list (bytes * bytes)) (p : piece) : bytes :=
  match p with
  | Lit s => s
  | Tok n => match List.find (fun v => bool_decide (n = v.1)) vs with Some v => v.2 | None => token n end
  end.
Definition plain_values (x : RuntimeSubstitutions) (user group : bytes) : Prop :=
  0 <= rs_ctx x /\ 0 <= rs_uid x /\
  Forall (fun v => has_byte LT v = false) [rs_kennel x; to_string_lossy (rs_home x); user; group].

Lemma set_tokens_value x user group n :
  text (set_token (ascii_bytes "group") group (set_token (ascii_bytes "user") user
    (set_token (ascii_bytes "home") (to_string_lossy (rs_home x)) (set_token (ascii_bytes "kennel") (rs_kennel x)
      (set_token (ascii_bytes "uid") (dec (rs_uid x)) (set_token (ascii_bytes "ctx") (dec (rs_ctx x)) (Tok n))))))) =
  value_of (values x user group) (Tok n).
Proof.
  unfold value_of, values. cbn [List.find fst snd]. generalize (dec (rs_ctx x)) (dec (rs_uid x)) (to_string_lossy (rs_home x)).
  intros c u h. cbn [set_token]. destruct (bool_decide (n = ascii_bytes "ctx")); [done|]. cbn [set_token].
  destruct (bool_decide (n = ascii_bytes "uid")); [done|]. cbn [set_token].
  destruct (bool_decide (n = ascii_bytes "kennel")); [done|]. cbn [set_token].
  destruct (bool_decide (n = ascii_bytes "home")); [done|]. cbn [set_token].
  destruct (bool_decide (n = ascii_bytes "user")); [done|]. cbn [set_token].
  by destruct (bool_decide (n = ascii_bytes "group")).
Qed.

Lemma token_values (ps : list piece) (x : RuntimeSubstitutions) (user group : bytes) :
  Forall piece_ok ps -> plain_values x user group ->
  substitute_str (texts ps) x user group = flat_map (value_of (values x user group)) ps.
Proof.
  intros Hps (Hc & Hu & Hv). repeat (apply Forall_cons in Hv as [? Hv]).
  pose proof (dec_no_lt _ Hc). pose proof (dec_no_lt _ Hu). unfold substitute_str.
  change (ascii_bytes "<ctx>") with (token (ascii_bytes "ctx")). change (ascii_bytes "<uid>") with (token (ascii_bytes "uid")).
  change (ascii_bytes "<kennel>") with (token (ascii_bytes "kennel")). change (ascii_bytes "<home>") with (token (ascii_bytes "home")).
  change (ascii_bytes "<user>") with (token (ascii_bytes "user")). change (ascii_bytes "<group>") with (token (ascii_bytes "group")).
  rewrite (replace_texts (ascii_bytes "ctx")) by done.
  rewrite (replace_texts (ascii_bytes "uid")) by (done || by repeat apply set_token_ok).
  rewrite (replace_texts (ascii_bytes "kennel")) by (done || by repeat apply set_token_ok).
  rewrite (replace_texts (ascii_bytes "home")) by (done || by repeat apply set_token_ok).
  rewrite (replace_texts (ascii_bytes "user")) by (done || by repeat apply set_token_ok).
  rewrite (replace_texts (ascii_bytes "group")) by (done || by repeat apply set_token_ok).
  unfold texts. rewrite !map_map, flat_map_concat_map, map_map, <- flat_map_concat_map.
  apply flat_map_ext. intros [s|n]; [done|]. apply set_tokens_value.
Qed.

(** Substitution is token by token: on a string of text and closed tokens, when no value itself
    has a [<], every [<ctx>], [<uid>], [<kennel>], [<home>], [<user>] and [<group>] becomes its value,
    wherever it stands, and nothing else changes.  The order of the six replacements does not show,
    and no value is ever read as a token. *)
Theorem substitution_exact (ps : list piece) (x : RuntimeSubstitutions) (user group : bytes) :
  Forall piece_ok ps -> plain_values x user group ->
  substitute_str (texts ps) x user group = flat_map (value_of (values x user group)) ps.
Proof. apply token_values. Qed.

Lemma substitute_home x user group rest :
  no_lt rest -> plain_values x user group ->
  substitute_str (ascii_bytes "<home>" ++ rest) x user group = to_string_lossy (rs_home x) ++ rest.
Proof.
  intros Hr Hv.
  pose proof (token_values [Tok (ascii_bytes "home"); Lit rest] x user group) as H.
  cbn [texts flat_map text] in H. rewrite app_nil_r in H. change (ascii_bytes "<home>") with (token (ascii_bytes "home")).
  rewrite H; [|by repeat constructor|done]. cbn [flat_map]. by rewrite app_nil_r.
Qed.

(** * What a substitution makes of a policy *)

(** Every field filled in, and the strings that are checked. *)
Definition filled (p : SettledPolicy) (x : RuntimeSubstitutions) : SettledPolicy :=
  let user := id_user (sp_identity p) in
  let group := id_group (sp_identity p) in
  let fs := ep_fs (sp_effective_policy p) in
  let ex := ep_exec (sp_effective_policy p) in
  let path s := substitute_path s x user group in
  let persona s := substitute_persona_path s x user group in
  with_fields p (map path (fs_read fs)) (map path (fs_write fs)) (map path (fs_exclusive fs))
    (map (fun r => {| rd_path := path (rd_path r); rd_source := path (rd_source r) |}) (fs_redirect fs))
    (map path (ex_allow ex)) (map persona (ex_path ex)) (persona (ex_shell ex))
    (map (fun v => (v.1, substitute_str v.2 x user group)) (en_vars (sp_env p))).
Definition checked_strings (p : SettledPolicy) : list bytes :=
  let fs := ep_fs (sp_effective_policy p) in
  let ex := ep_exec (sp_effective_policy p) in
  fs_read fs ++ fs_write fs ++ fs_exclusive fs ++ flat_map (fun r => [rd_path r; rd_source r]) (fs_redirect fs) ++
  ex_allow ex ++ ex_path ex ++ [ex_shell ex] ++ map snd (en_vars (sp_env p)).

Lemma fill_Ok field f s v : fill field f s = Ok v <-> v = f s /\ no_lt (f s).
Proof.
  unfold fill, reject_leftover, no_lt. destruct (has_byte LT (f s)); cbn; [by split; [|intros []]|].
  split; [by intros <-%(inj Ok)|by intros [-> _]].
Qed.
Lemma fill_each_Ok field f l vs : fill_each field f l = Ok vs <-> vs = map f l /\ Forall no_lt (map f l).
Proof.
  revert vs; induction l as [|s l IH]; intros vs; cbn [fill_each map].
  { split; [by intros <-%(inj Ok)|by intros [-> _]]. }
  rewrite Forall_cons. split.
  - intros (v & [-> Hv]%fill_Ok & H)%bind_Ok. apply bind_Ok in H as (ws & [-> Hl]%IH & H). by apply (inj Ok) in H as <-.
  - intros [-> [Hs Hl]]. rewrite (proj2 (fill_Ok field f s _) (conj eq_refl Hs)). cbn [mbind result_bind].
    by rewrite (proj2 (IH _) (conj eq_refl Hl)).
Qed.
Lemma fill_redirects_Ok f l vs :
  fill_redirects f l = Ok vs <->
  vs = map (fun r => {| rd_path := f (rd_path r); rd_source := f (rd_source r) |}) l /\
  Forall no_lt (flat_map (fun r => [rd_path r; rd_source r]) vs).
Proof.
  revert vs; induction l as [|r l IH]; intros vs; cbn [fill_redirects map].
  { split; [by intros <-%(inj Ok)|by intros [-> _]]. }
  split.
  - intros (p & [-> Hn1]%fill_Ok & H)%bind_Ok. apply bind_Ok in H as (q & [-> Hn2]%fill_Ok & H).
    apply bind_Ok in H as (ws & [-> Hn3]%IH & H). apply (inj Ok) in H; subst vs. split; [done|]. cbn. by repeat constructor.
  - intros [-> H]. cbn in H. apply Forall_cons in H as [H1 [H2 H]%Forall_cons].
    rewrite (proj2 (fill_Ok "fs.redirect.path" f _ _) (conj eq_refl H1)),
      (proj2 (fill_Ok "fs.redirect.source" f _ _) (conj eq_refl H2)). cbn [mbind result_bind].
    by rewrite (proj2 (IH _) (conj eq_refl H)).
Qed.
Lemma fill_vars_Ok f l vs :
  fill_vars f l = Ok vs <-> vs = map (fun v => (v.1, f v.2)) l /\ Forall no_lt (map snd vs).
Proof.
  revert vs; induction l as [|[k v] l IH]; intros vs; cbn [fill_vars map].
  { split; [by intros <-%(inj Ok)|by intros [-> _]]. }
  split.
  - intros (w & [-> Hn4]%fill_Ok & H)%bind_Ok. apply bind_Ok in H as (ws & [-> Hn5]%IH & H). apply (inj Ok) in H as <-.
    split; [done|]. by constructor.
  - intros [-> H]. cbn in H. apply Forall_cons in H as [H1 H].
    rewrite (proj2 (fill_Ok "env.set" f v _) (conj eq_refl H1)). cbn [mbind result_bind].
    by rewrite (proj2 (IH _) (conj eq_refl H)).
Qed.

(** Substitution fills in exactly the path grants, the exclusive paths, the redirects, the allowed
    binaries, the search path, the shell and the environment, leaves the rest of the policy as it was
    signed, and succeeds if and only if no unresolved token is left in any of them. *)
Theorem substitute_fields (p p' : SettledPolicy) (x : RuntimeSubstitutions) :
  substitute p x = Ok p' <-> p' = filled p x /\ Forall no_lt (checked_strings (filled p x)).
Proof.
  unfold substitute, filled, checked_strings. cbv zeta.
  cbn [sp_effective_policy ep_fs ep_exec fs_read fs_write fs_exclusive fs_redirect ex_allow ex_path ex_shell sp_env en_vars with_fields].
  rewrite !Forall_app, Forall_singleton. split.
  - intros (a & [-> Hn6]%fill_each_Ok & H)%bind_Ok. apply bind_Ok in H as (b & [-> Hn7]%fill_each_Ok & H).
    apply bind_Ok in H as (c & [-> Hn8]%fill_each_Ok & H). apply bind_Ok in H as (d & [-> Hn9]%fill_redirects_Ok & H).
    apply bind_Ok in H as (e & [-> Hn10]%fill_each_Ok & H). apply bind_Ok in H as (f & [-> Hn11]%fill_each_Ok & H).
    apply bind_Ok in H as (g & [-> Hn12]%fill_Ok & H). apply bind_Ok in H as (h & [-> Hn13]%fill_vars_Ok & H).
    apply (inj Ok) in H as <-. split; [done|]. by split_and!.
  - intros [-> (? & ? & ? & Hr & ? & ? & ? & Hv)].
    erewrite (proj2 (fill_each_Ok "fs.read" _ _ _)) by done. cbn [mbind result_bind].
    erewrite (proj2 (fill_each_Ok "fs.write" _ _ _)) by done. cbn [mbind result_bind].
    erewrite (proj2 (fill_each_Ok "fs.exclusive" _ _ _)) by done. cbn [mbind result_bind].
    erewrite (proj2 (fill_redirects_Ok _ _ _)) by (split; [reflexivity|exact Hr]). cbn [mbind result_bind].
    erewrite (proj2 (fill_each_Ok "exec.allow" _ _ _)) by done. cbn [mbind result_bind].
    erewrite (proj2 (fill_each_Ok "exec.path" _ _ _)) by done. cbn [mbind result_bind].
    erewrite (proj2 (fill_Ok "exec.shell" _ _ _)) by done. cbn [mbind result_bind].
    erewrite (proj2 (fill_vars_Ok _ _ _)) by (split; [reflexivity|exact Hv]). done.
Qed.

(** * The operator's home *)

Section hidden.
Context (policy : SettledPolicy) (home name user : bytes).
Hypothesis Hhome : components home = [RootDir; Normal (ascii_bytes "home"); Normal name].
Hypothesis Hshim : components (shim_root_of policy) = [RootDir; Normal (ascii_bytes "home"); Normal user].
Hypothesis Hne : name <> user.

Definition hidden (path : bytes) : Prop := path_starts_with path home = false.

Lemma hidden_other path c cs :
  components path = RootDir :: Normal c :: cs -> c <> ascii_bytes "home" -> hidden path.
Proof.
  intros Hp Hc. unfold hidden, path_starts_with. apply bool_decide_eq_false. rewrite Hhome, Hp.
  intros [k E]. by injection E as ->.
Qed.
Lemma hidden_remap path : hidden (remap_target path home (shim_root_of policy)).
Proof.
  unfold hidden. destruct (path_starts_with path home) eqn:Hp; [|by rewrite remap_outside].
  unfold path_starts_with. apply bool_decide_eq_false. rewrite remap_inside by (rewrite ?Hhome; done).
  rewrite Hshim, Hhome. intros [k E]. by injection E as ->.
Qed.
Lemma hidden_shim : hidden (shim_root_of policy).
Proof.
  unfold hidden, path_starts_with. apply bool_decide_eq_false. rewrite Hhome, Hshim. intros [k E]. by injection E as ->.
Qed.
Lemma hidden_root : hidden (ascii_bytes "/").
Proof. unfold hidden, path_starts_with. apply bool_decide_eq_false. rewrite Hhome. by intros [k E]. Qed.

Lemma tail_hidden : Forall (fun r => hidden r.1) (tail_rules policy (shim_root_of policy)).
Proof.
  unfold tail_rules. repeat (apply Forall_app; split); repeat case_match; repeat apply Forall_cons_2; try apply Forall_nil_2;
    cbn [fst]; first [exact hidden_shim|exact hidden_root|by eapply hidden_other].
Qed.
Lemma exec_hidden fs e perm rules :
  exec_gate fs home (shim_root_of policy) perm e = Ok rules -> Forall (fun r => hidden r.1) rules.
Proof.
  unfold exec_gate. destruct perm; [by intros <-%(inj Ok)|].
  intros (rs & [-> _]%exec_allow_rules_Ok & E)%bind_Ok. apply (inj Ok) in E as <-.
  apply Forall_app; split; apply Forall_map, Forall_true; intros ?; apply hidden_remap.
Qed.
Lemma dev_hidden allow rules devs : dev_block allow = Ok (rules, devs) -> Forall (fun r => hidden r.1) rules.
Proof.
  intros (-> & _ & H)%dev_block_Ok. apply Forall_map. eapply Forall_impl; [done|]. intros d Hd. cbn [compose fst].
  apply safe_dev_spec in Hd as (c & rest & Hd & _). by eapply hidden_other.
Qed.
End hidden.

Lemma shim_root_user p user :
  id_user (sp_identity p) = user -> one_component user ->
  components (shim_root_of p) = [RootDir; Normal (ascii_bytes "home"); Normal user].
Proof.
  intros <- Hone. destruct (one_component_components _ Hone) as (E & Ha & Hl).
  rewrite components_relative, Hl in E by done. unfold shim_root_of.
  change (ascii_bytes "/home/" ++ id_user (sp_identity p)) with (SLASH :: ascii_bytes "home" ++ SLASH :: id_user (sp_identity p)).
  cbn [components]. rewrite Z.eqb_refl, split_on_app by done. rewrite body_components_cons. cbn [app] in E. by rewrite E.
Qed.

(** What the plan has for each grant: its rule and, outside [/etc] and [/proc], its bind, at its place. *)
Lemma grants_placed fs home shim perm (s : bytes) (w : bool) :
  (s, w) ∈ requested (fs_read fs) (fs_write fs) -> is_special_mount (glob_root s) = false -> components home <> [] ->
  (exists r, r ∈ (grant_block fs home shim perm).1 /\
     components r.1 = components (remap_target (glob_root s) home shim)) /\
  exists b, b ∈ (grant_block fs home shim perm).2 /\
    components (bm_target b) = components (remap_target (glob_root s) home shim) /\
    (w = true -> bm_writable b = true) /\
    (bm_redirected b = false -> components (bm_source b) = components (glob_root s)).
Proof.
  intros Hr Hs Hh. destruct (collect_grants_collected (fs_read fs) (fs_write fs)) as [Hm _ Ha _].
  destruct (Ha _ Hr) as (g & Hg & Eg). pose proof (proj1 (path_eqb_eq _ _) Eg) as Ec. cbn [fst] in Eg, Ec.
  pose proof (remap_equiv g.1 (glob_root s) home shim Hh Ec) as Et.
  assert (Hin : g ∈ sort_by_len (collect_grants (fs_read fs) (fs_write fs))) by (by rewrite sort_by_len_perm).
  assert (Hsg : is_special_mount g.1 = false).
  { rewrite <- Hs. unfold is_special_mount, path_starts_with. by rewrite Ec. }
  unfold grant_block. cbn [fst snd]. split.
  - exists (grant_rule home shim perm g). split; [by apply list_elem_of_fmap_2|exact Et].
  - destruct (grant_bind fs home shim g) as [b|] eqn:Eb.
    2: { destruct g as [gs gw]. cbn [fst] in Hsg. unfold grant_bind in Eb. rewrite Hsg in Eb. by case_match. }
    exists b. apply grant_bind_Some in Eb as Hb. destruct Hb as (_ & Etgt & Ew & Es). split_and!.
    + apply list_elem_of_omap. by exists g.
    + by rewrite Etgt.
    + intros ->. rewrite Ew, (Hm _ Hg). apply existsb_exists. exists (s, true).
      split; [by apply list_elem_of_In|]. cbn [fst snd andb]. exact Eg.
    + intros Hrd. destruct (redirect_get (redirects fs) g.1); injection Es as Es Er; [congruence|]. by rewrite Es.
Qed.
(** A bind comes from a grant: its target is where the grant's root appears. *)
Lemma grant_block_target fs home shim perm b :
  b ∈ (grant_block fs home shim perm).2 ->
  exists s w, (s, w) ∈ requested (fs_read fs) (fs_write fs) /\ bm_target b = remap_target (glob_root s) home shim.
Proof.
  unfold grant_block. cbn [snd]. intros (g & Hg & Hb)%list_elem_of_omap. rewrite sort_by_len_perm in Hg.
  destruct (collect_grants_collected (fs_read fs) (fs_write fs)) as [_ Hf _ _].
  destruct (Hf g Hg) as ([s w] & Hr & Es). exists s, w. split; [done|].
  apply grant_bind_Some in Hb as (_ & -> & _). cbn [fst] in Es. by rewrite Es.
Qed.
Lemma requested_map (f : bytes -> bytes) read write :
  requested (map f read) (map f write) = map (fun r => (f r.1, r.2)) (requested read write).
Proof. unfold requested. by rewrite map_app, !map_map. Qed.
Lemma elem_of_requested read write s :
  (exists w, (s, w) ∈ requested read write /\ (s ∈ write -> w = true)) <-> s ∈ read ++ write.
Proof.
  unfold requested. rewrite elem_of_app. split.
  - intros (w & [(x & [= -> _] & H)%list_elem_of_fmap|(x & [= -> _] & H)%list_elem_of_fmap]%elem_of_app & _); auto.
  - intros H. destruct (decide (s ∈ write)) as [Hw|Hw]; [exists true|exists false]; (split; [|done]); apply elem_of_app.
    + right. by apply (list_elem_of_fmap_2 (fun p => (p, true))).
    + left. apply (list_elem_of_fmap_2 (fun p => (p, false))). by destruct H.
Qed.

(** The binds and rules of a policy with the placeholders filled in. *)
Section filled_home.
Context (p : SettledPolicy) (x : RuntimeSubstitutions) (name : bytes) (perm : bool).
Local Abbreviation user := (id_user (sp_identity p)).
Local Abbreviation fs := (ep_fs (sp_effective_policy p)).
Local Abbreviation path s := (substitute_path s x user (id_group (sp_identity p))).
Local Abbreviation shim := (shim_root_of (filled p x)).
Local Abbreviation block := (grant_block (ep_fs (sp_effective_policy (filled p x))) (rs_home x) shim perm).
Hypothesis Hh : components (rs_home x) = [RootDir; Normal (ascii_bytes "home"); Normal name].
Hypothesis Hshim : components shim = [RootDir; Normal (ascii_bytes "home"); Normal user].
Hypothesis Hne : name <> user.

Lemma filled_requests r :
  r ∈ requested (fs_read (ep_fs (sp_effective_policy (filled p x)))) (fs_write (ep_fs (sp_effective_policy (filled p x)))) <->
  exists s, r.1 = path s /\ (s, r.2) ∈ requested (fs_read fs) (fs_write fs).
Proof.
  change (fs_read (ep_fs (sp_effective_policy (filled p x)))) with (map (fun s => path s) (fs_read fs)).
  change (fs_write (ep_fs (sp_effective_policy (filled p x)))) with (map (fun s => path s) (fs_write fs)).
  rewrite requested_map, list_elem_of_fmap. split.
  - intros ([s w] & -> & H). by exists s.
  - intros (s & E & H). exists (s, r.2). split; [|done]. destruct r. cbn in *. by rewrite E.
Qed.
Lemma bind_above_home b :
  b ∈ block.2 -> path_starts_with (rs_home x) (bm_target b) = true ->
  exists s, s ∈ fs_read fs ++ fs_write fs /\ bm_target b = glob_root (path s).
Proof.
  intros (s' & w & (s & E & Hr)%filled_requests & ->)%grant_block_target Hup. cbn [fst snd] in E, Hr. subst s'.
  exists s. split.
  { apply elem_of_app. unfold requested in Hr.
    apply elem_of_app in Hr as [(? & [= -> _] & ?)%list_elem_of_fmap|(? & [= -> _] & ?)%list_elem_of_fmap]; auto. }
  destruct (path_starts_with (glob_root (path s)) (rs_home x)) eqn:Ein; [|by apply remap_outside].
  exfalso. apply path_starts_with_prefix in Hup. rewrite remap_inside, Hshim, Hh in Hup by (rewrite ?Hh; done).
  destruct Hup as [k Ek]. by injection Ek as ->.
Qed.
Lemma home_grants_placed s rest :
  s ∈ fs_read fs ++ fs_write fs -> components (glob_root (path s)) = components (rs_home x) ++ rest ->
  let here := [RootDir; Normal (ascii_bytes "home"); Normal user] ++ rest in
  (exists r, r ∈ block.1 /\ components r.1 = here) /\
  exists b, b ∈ block.2 /\ components (bm_target b) = here /\
    (s ∈ fs_write fs -> bm_writable b = true) /\
    (bm_redirected b = false -> components (bm_source b) = components (glob_root (path s))).
Proof.
  intros (w & Hr & Hw)%elem_of_requested Erest here.
  assert (Hhe : components (rs_home x) <> []) by (by rewrite Hh).
  assert (Hsp : is_special_mount (glob_root (path s)) = false).
  { unfold is_special_mount, path_starts_with. rewrite Erest, Hh. apply orb_false_iff.
    split; apply bool_decide_eq_false; by intros [k Ek]. }
  assert (Hsub : path_starts_with (glob_root (path s)) (rs_home x) = true)
    by (apply path_starts_with_prefix; rewrite Erest; by eexists).
  assert (Ehere : components (remap_target (glob_root (path s)) (rs_home x) shim) = here).
  { rewrite remap_inside by done. rewrite Hshim, Erest, drop_app_length. done. }
  destruct (grants_placed _ (rs_home x) shim perm (path s) w
    (proj2 (filled_requests (path s, w)) (ex_intro _ s (conj eq_refl Hr))) Hsp Hhe)
    as ((r & Hr1 & Hr2) & b & Hb1 & Hb2 & Hb3 & Hb4).
  rewrite Ehere in Hr2, Hb2. split; [by exists r|]. exists b. split_and!; auto.
Qed.
End filled_home.


(** An environment value can still carry it: a [<home>] in [env.set] becomes the operator's home, where the
    same token in the search path and the shell becomes the masked user's. *)
Theorem env_shows_home (p p' : SettledPolicy) (x : RuntimeSubstitutions) (k rest : bytes) :
  substitute p x = Ok p' -> (k, ascii_bytes "<home>" ++ rest) ∈ en_vars (sp_env p) -> no_lt rest ->
  plain_values x (id_user (sp_identity p)) (id_group (sp_identity p)) ->
  (k, to_string_lossy (rs_home x) ++ rest) ∈ en_vars (sp_env p').
Proof.
  intros [-> _]%substitute_fields Hin Hr Hv. unfold filled. cbv zeta. cbn [sp_env en_vars with_fields].
  apply list_elem_of_fmap. eexists. split; [|exact Hin]. cbn [fst snd]. f_equal. symmetry.
  by apply substitute_home.
Qed.

(** * The rendezvous *)

(** The mounts of a kennel reach its init as they were sent: each descriptor with its own directory, in order.
    A datagram carries at most 255 mounts, and a path at most 65535 bytes. *)
Theorem rendezvous_round_trip (mounts : list (Z * bytes)) :
  blen mounts <= u8_max -> Forall (fun m => blen m.2 <= u16_max) mounts ->
  decode_mounts (encode_mounts mounts).1 (encode_mounts mounts).2 = mounts.
Proof.
  intros Hn Hp. unfold decode_mounts, encode_mounts. cbn [fst snd]. rewrite Z.min_r by done. clear Hn.
  assert (forall (a : Z) (l : list Z), decode_pairs (Z.to_nat (default 0 (head (a :: l)))) (tail (a :: l)) =
    decode_pairs (Z.to_nat a) l) as -> by done.
  rewrite Nat2Z.id.
  induction Hp as [|[fd path] mounts Hl Hp IH]; [done|]. cbn [length map flat_map fst snd] in *.
  rewrite Z.min_r by done.
  assert (le_bytes 2 (blen path) = [blen path mod 256; (blen path / 256) mod 256]) as -> by done.
  cbn [app decode_pairs].
  assert (le_val [blen path mod 256; (blen path / 256) mod 256] = blen path) as ->.
  { change [blen path mod 256; (blen path / 256) mod 256] with (le_bytes 2 (blen path)). apply le_val_bytes.
    unfold u16_max in Hl. change (256 ^ Z.of_nat 2) with 65536. lia. }
  rewrite Nat2Z.id. rewrite (proj2 (Nat.ltb_ge _ _)) by (rewrite length_app; lia).
  by rewrite take_app_length, drop_app_length, IH.
Qed.

(** * Examples *)

Definition home_policy : SettledPolicy :=
  with_fields redirect_template [ascii_bytes "/usr"] [ascii_bytes "~/work/<kennel>"] [] [] [ascii_bytes "/usr/bin/git"]
    [ascii_bytes "<home>/bin"] (ascii_bytes "/bin/sh") [(ascii_bytes "DIR", ascii_bytes "<home>/work")].
Definition home_doc : SignedSettledPolicy :=
  {| sd_signature := @sign_envelope toy_crypto toy_key (ascii_bytes "body"); sd_policy := home_policy |}.
Definition alice : RuntimeSubstitutions := {|
  rs_ctx := 7; rs_uid := 1000; rs_kennel := ascii_bytes "dev"; rs_home := ascii_bytes "/home/alice";
  rs_namespace := ascii_bytes "kennel-1000" |}.
Local Abbreviation alice_plan :=
  (prepare (C := toy_crypto) (L := one_document home_doc) LittleEndian (fun _ => 0) (2 ^ 64 - 1) [1] toy_keys alice).

Lemma substitution_exact_witness :
  substitute_str (ascii_bytes "/run/<uid>/<nope>/<kennel>>") alice (ascii_bytes "kennel") (ascii_bytes "kennel") =
  ascii_bytes "/run/1000/<nope>/dev>".
Proof.
  apply (substitution_exact [Lit (ascii_bytes "/run/"); Tok (ascii_bytes "uid"); Lit (ascii_bytes "/");
    Tok (ascii_bytes "nope"); Lit (ascii_bytes "/"); Tok (ascii_bytes "kennel"); Lit (ascii_bytes ">")] alice).
  - repeat constructor.
  - split; [discriminate|]. split; [discriminate|]. repeat constructor.
Defined.

(** The grant is mounted in the masked user's home, from the operator's; the environment shows the operator's. *)
Definition alice_bound : bool :=
  match alice_plan with
  | Ok plan =>
      match pl_view plan with
      | Some v => existsb (fun b => bool_decide (bm_source b = ascii_bytes "/home/alice/work/dev") &&
                                    bool_decide (bm_target b = ascii_bytes "/home/kennel/work/dev")) (sv_binds v)
      | None => false
      end
  | Err _ => false
  end.
Lemma env_shows_home_witness :
  exists p', substitute home_policy alice = Ok p' /\ (ascii_bytes "DIR", ascii_bytes "/home/alice/work") ∈ en_vars (sp_env p') /\
    ex_path (ep_exec (sp_effective_policy p')) = [ascii_bytes "/home/kennel/bin"].
Proof.
  destruct (substitute home_policy alice) as [p'|] eqn:E; [|vm_compute in E; discriminate].
  exists p'. split; [done|]. split.
  - apply (env_shows_home home_policy p' alice (ascii_bytes "DIR") (ascii_bytes "/work")); [done|left|reflexivity|].
    split; [discriminate|]. split; [discriminate|]. repeat constructor.
  - apply substitute_fields in E as [-> _]. vm_compute. reflexivity.
Defined.
Lemma rendezvous_round_trip_witness :
  decode_mounts (encode_mounts [(5, ascii_bytes "/dev/binderfs-mesh")]).1 [5] = [(5, ascii_bytes "/dev/binderfs-mesh")].
Proof. apply (rendezvous_round_trip [(5, ascii_bytes "/dev/binderfs-mesh")]); [discriminate|]. repeat constructor. discriminate. Defined.
