(* ===== verification/View.v ===== *)
(** The constructed view: [build_view_and_pivot] and what it calls ([kennel-lib-spawn/src/lib.rs]).

    The factory's child mounts a new root, binds the granted host paths into it, adds the
    private file systems and the masks, pivots into it and detaches the host's root.

    The state is the mount table, newest entry first: an entry is a tree (the host's, a fresh file
    system, or an overlay with its lowers and its upper) at a place, read-only or not.  A path is served
    by the newest entry at or above it, which is how a later mount hides what is under it.  A recursive
    bind takes the visible mounts under its source along, each with its own flag, and a remount changes
    the flag of one mount, as [mount(2)] does.  An overlay is mounted from the text of its options
    ([overlay_data], [overlay_options]): a layer is the tree and the place its path leads to.

    The host is a [HostFs]: what is there, and where the links of a path lead ([follow]).  The source of
    a bind is followed, except that a writable one with a link in it is refused ([open_no_symlinks]) and a
    redirected one with a magic link ([open_no_magiclinks]).  Destinations are resolved by their
    components: links inside a bound tree or an image are not followed there.  What is created is
    recorded with the tree it lands in, and is there afterwards.  An operation on a read-only mount
    answers [EROFS]; any operation may fail otherwise: [io] is an arbitrary function of the number of
    the step.  The two removals whose result the code ignores ([/dev/ptmx] before its link, the empty old
    root) are left out, and a tree copied into an image's [/etc] is the directory it is copied to.

    Theorems: which trees the view is made of ([view_serves_grants]); where it is writable and what
    is written to the host while building ([view_writes]); the masks are on top of everything
    ([masks_on_top]); a writable submount of a read-only grant stays writable
    ([submount_stays_writable]). *)

From S2P Require Import Prelude Bytes Str Paths Plan.
Open Scope Z_scope.

(** * Mounts *)

Abbreviation cpath := (list component) (only parsing).

Inductive fskind : Type := Tmpfs | Procfs | Devpts | Binderfs.
(** A layer of an overlay: a place on the host, or in a fresh file system. *)
Inductive layer : Type := LHost (r : cpath) | LFresh (k : fskind) (on r : cpath).
Inductive fs : Type := Host | Fresh (k : fskind) (on : cpath) | Merged (on : cpath) (lowers : list layer) (upper : layer).
Global Instance fskind_eq_dec : EqDecision fskind.
Proof. solve_decision. Defined.
Global Instance layer_eq_dec : EqDecision layer.
Proof. solve_decision. Defined.
Global Instance fs_eq_dec : EqDecision fs.
Proof. solve_decision. Defined.
Record entry : Type := { me_target : cpath; me_fs : fs; me_rel : cpath; me_ro : bool }.
Definition table : Type := list entry.

Definition under_b (base p : cpath) : bool := bool_decide (base `prefix_of` p).
Definition rel_to (base p : cpath) : cpath := drop (length base) p.
Definition cover (t : table) (p : cpath) : option entry := List.find (fun e => under_b (me_target e) p) t.
(** The tree a path is served from, the place in it, and whether the mount is read-only. *)
Definition place (t : table) (p : cpath) : option (fs * cpath * bool) :=
  match cover t p with None => None | Some e => Some (me_fs e, me_rel e ++ rel_to (me_target e) p, me_ro e) end.

(** The entries no newer one hides. *)
Fixpoint visible (newer : list cpath) (t : table) : table :=
  match t with
  | [] => []
  | e :: t => (if existsb (fun n => under_b n (me_target e)) newer then [] else [e]) ++ visible (me_target e :: newer) t
  end.
Definition strictly_under (base : cpath) (e : entry) : bool :=
  under_b base (me_target e) && negb (bool_decide (me_target e = base)).
Definition clone_to (src dst : cpath) (e : entry) : entry :=
  {| me_target := dst ++ rel_to src (me_target e); me_fs := me_fs e; me_rel := me_rel e; me_ro := me_ro e |}.
Definition submounts (recursive : bool) (src dst : cpath) (t : table) : table :=
  if recursive then map (clone_to src dst) (List.filter (strictly_under src) (visible [] t)) else [].
Definition do_bind (src dst : cpath) (recursive : bool) (t : table) : option table :=
  match place t src with
  | Some (f, r, ro) =>
      Some (submounts recursive src dst t ++ {| me_target := dst; me_fs := f; me_rel := r; me_ro := ro |} :: t)
  | None => None
  end.
Definition do_mount (k : fskind) (dst : cpath) (t : table) : table :=
  {| me_target := dst; me_fs := Fresh k dst; me_rel := []; me_ro := false |} :: t.
(** An overlay: the upper and the work directory are on one file system that is not read-only. *)
Definition layer_at (t : table) (p : cpath) : option layer :=
  match place t p with
  | Some (Host, r, _) => Some (LHost r)
  | Some (Fresh k on, r, _) => Some (LFresh k on r)
  | Some (Merged _ _ _, _, _) | None => None
  end.
Definition upper_ok (t : table) (upper work : cpath) : bool :=
  match place t upper, place t work with
  | Some (f, _, ro), Some (f', _, ro') => bool_decide (f = f') && negb ro && negb ro'
  | _, _ => false
  end.
Definition do_overlay (lowers : list cpath) (upper work dst : cpath) (t : table) : option table :=
  match mapM (layer_at t) lowers, layer_at t upper with
  | Some ls, Some u =>
      if upper_ok t upper work
      then Some ({| me_target := dst; me_fs := Merged dst ls u; me_rel := []; me_ro := false |} :: t) else None
  | _, _ => None
  end.
Definition set_ro (e : entry) : entry :=
  {| me_target := me_target e; me_fs := me_fs e; me_rel := me_rel e; me_ro := true |}.
(** Only a mount point can be remounted. *)
Fixpoint do_remount (dst : cpath) (t : table) : option table :=
  match t with
  | [] => None
  | e :: t => if under_b (me_target e) dst
              then if bool_decide (me_target e = dst) then Some (set_ro e :: t) else None
              else option_map (cons e) (do_remount dst t)
  end.
(** [pivot_root] to [root] with the old root at [put_old], and the detach of a tree. *)
Definition do_pivot (root put_old : cpath) (t : table) : table :=
  map (fun e => {| me_target := if under_b root (me_target e) then RootDir :: rel_to root (me_target e)
                                else put_old ++ tail (me_target e);
                   me_fs := me_fs e; me_rel := me_rel e; me_ro := me_ro e |})
    (List.filter (fun e => negb (under_b root (me_target e))) t ++ List.filter (fun e => under_b root (me_target e)) t).
Definition do_detach (p : cpath) (t : table) : table := List.filter (fun e => negb (under_b p (me_target e))) t.

(** * The machine *)

Inductive Errno : Type := EROFS | ENOENT | EINVAL | ELOOP | EOTHER (code : Z).
Global Instance Errno_eq_dec : EqDecision Errno.
Proof. solve_decision. Defined.
Record St : Type := { st_table : table; st_step : nat; st_wrote : list (fs * cpath) }.
Definition M (A : Type) : Type := St -> result Errno A * St.
Global Instance M_ret : MRet M := fun A a s => (Ok a, s).
Definition bindM {A B} (m : M A) (f : A -> M B) : M B := fun s =>
  match m s with (Ok a, s) => f a s | (Err e, s) => (Err e, s) end.
Declare Scope view_scope.
Notation "x ← y ; z" := (bindM y (fun x => z)) : view_scope.
Local Open Scope view_scope.
Definition fail {A} (e : Errno) : M A := fun s => (Err e, s).

(** The host: whether a path is there (its last component not followed) and is a directory, where its
    links lead, whether one of them is a magic link, what the links of [/] hold; what a kernel file
    system starts with and what an overlay shows of its layers, the upper first. *)
Class HostFs : Type := {
  host_exists : cpath -> bool; host_is_dir : cpath -> bool; follow : cpath -> cpath; magic : cpath -> bool;
  read_link : bytes -> option bytes; fresh_has : fskind -> cpath -> bool; merged_has : list layer -> cpath -> bool }.

Section host.
Context (io : nat -> option Z) {hostfs : HostFs}.

Definition tick (t : table) (w : list (fs * cpath)) (s : St) : St :=
  {| st_table := t; st_step := S (st_step s); st_wrote := w |}.
(** [symlink_metadata(p).is_ok()], [exists()]. *)
Definition has (s : St) (p : cpath) : bool :=
  match place (st_table s) p with
  | None => false
  | Some (f, r, _) =>
      match f with
      | Host => host_exists r
      | Fresh k _ => is_nil r || match k with Tmpfs => false | _ => fresh_has k r end
      | Merged _ ls u => is_nil r || merged_has (u :: ls) r
      end || bool_decide ((f, r) ∈ st_wrote s)
  end.
Definition exists_ (p : cpath) : M bool := fun s => (Ok (has s p), s).
(** An operation that changes the table, or that only may fail. *)
Definition op (f : table -> option table) : M unit := fun s =>
  match io (st_step s), f (st_table s) with
  | None, Some t => (Ok tt, tick t (st_wrote s) s)
  | Some e, _ => (Err (EOTHER e), tick (st_table s) (st_wrote s) s)
  | None, None => (Err EINVAL, tick (st_table s) (st_wrote s) s)
  end.
Definition syscall : M unit := op Some.
(** Creating, copying to or linking at a path. *)
Definition write_at (p : cpath) : M unit := fun s =>
  match place (st_table s) p with
  | Some (f, r, ro) =>
      if ro then (Err EROFS, tick (st_table s) (st_wrote s) s)
      else match io (st_step s) with
           | Some e => (Err (EOTHER e), tick (st_table s) (st_wrote s) s)
           | None => (Ok tt, tick (st_table s) ((f, r) :: st_wrote s) s)
           end
  | None => (Err ENOENT, tick (st_table s) (st_wrote s) s)
  end.
Definition bind (src dst : cpath) (recursive : bool) : M unit := op (do_bind src dst recursive).
Definition mount (k : fskind) (dst : cpath) : M unit := op (fun t => Some (do_mount k dst t)).
Definition remount_readonly (dst : cpath) : M unit := op (do_remount dst).

Definition bind_readonly (src dst : cpath) (recursive : bool) : M unit :=
  _ ← bind src dst recursive; remount_readonly dst.
(** [Ok(())], [Err(e) if ReadOnlyFilesystem => continue], [Err(e)]. *)
Definition unless_erofs (m : M unit) : M bool := fun s =>
  match m s with
  | (Ok _, s) => (Ok true, s)
  | (Err EROFS, s) => (Ok false, s)
  | (Err e, s) => (Err e, s)
  end.

Fixpoint each {A} (f : A -> M unit) (l : list A) : M unit :=
  match l with [] => mret tt | a :: l => _ ← f a; each f l end.

Fixpoint prefixes (before p : cpath) : list cpath :=
  match p with [] => [] | c :: p => (before ++ [c]) :: prefixes (before ++ [c]) p end.
(** [create_dir_all]: what is there is left alone. *)
Definition create_dir_all (p : cpath) : M unit :=
  each (fun d => e ← exists_ d; if e then mret tt else write_at d) (prefixes [] p).
Definition parent (p : cpath) : option cpath := match p with [] | [_] => None | _ => Some (take (length p - 1) p) end.
Definition create_parent (p : cpath) : M unit :=
  match parent p with Some d => create_dir_all d | None => mret tt end.

(** * [lib.rs] *)

Definition abs (p : bytes) : cpath := components p.
Definition under (root : cpath) (p : cpath) : cpath := root ++ tail p.

(** A source, its links followed. *)
Definition source_at (p : bytes) : cpath := follow (abs p).
Definition open_no_symlinks (p : bytes) : M unit :=
  _ ← syscall; if bool_decide (source_at p = abs p) then mret tt else fail ELOOP.
Definition open_no_magiclinks (p : bytes) : M unit :=
  _ ← syscall; if magic (abs p) then fail ELOOP else mret tt.

Definition create_bind_target (source : bytes) (dest : cpath) : M unit :=
  present ← exists_ dest;
  if present then mret tt
  else _ ← create_parent dest; if host_is_dir (source_at source) then create_dir_all dest else write_at dest.

Definition materialize_bind (root : cpath) (b : BindMount) : M unit :=
  if negb (host_exists (source_at (bm_source b))) then mret tt
  else
    let dest := under root (abs (bm_target b)) in
    present ← exists_ dest;
    if negb (bm_writable b) && negb (bm_redirected b) && present then mret tt
    else
      _ ← create_bind_target (bm_source b) dest;
      if bm_writable b
      then _ ← open_no_symlinks (bm_source b); bind (abs (bm_source b)) dest true
      else _ ← (if bm_redirected b then open_no_magiclinks (bm_source b) else mret tt);
           bind_readonly (source_at (bm_source b)) dest true.
Definition materialize_binds (root : cpath) (binds : list BindMount) : M unit := each (materialize_bind root) binds.

Definition materialize_etc_overlay (root : cpath) (o : EtcOverlay) : M unit :=
  if negb (host_exists (abs (eo_source o))) then mret tt
  else
    let dest := under root (abs (eo_view_path o)) in
    _ ← create_parent dest;
    there ← exists_ dest;
    _ ← (if there then mret tt else if host_is_dir (source_at (eo_source o)) then create_dir_all dest else write_at dest);
    bind_readonly (source_at (eo_source o)) dest false.

(** A mask: the empty file or directory [src] over [path], read-only.  [dirs] for directories, where a
    parent that is read-only already denies the creation. *)
Definition mask_over (dirs : bool) (src dest : cpath) : M unit :=
  present ← exists_ dest;
  made ← (if present then mret true
          else if dirs then unless_erofs (write_at dest)
          else _ ← write_at dest; mret true);
  if (made : bool) then bind_readonly src dest false else mret tt.
Definition mask_one (dirs : bool) (root src path : cpath) : M unit :=
  let dest := under root path in
  match parent dest with
  | None => mret tt
  | Some d =>
      there ← exists_ d;
      if negb there then mret tt
      else
        mask_over dirs src dest
  end.
Definition MASK : bytes := ascii_bytes "/tmp/.kennel-mask".
Definition MASK_D : bytes := ascii_bytes "/tmp/.kennel-mask-d".
Definition materialize_masks (root : cpath) (paths : list bytes) : M unit :=
  if is_nil paths then mret tt
  else _ ← write_at (under root (abs MASK)); each (fun p => mask_one false root (under root (abs MASK)) (abs p)) paths.
Definition materialize_dir_masks (root : cpath) (paths : list bytes) : M unit :=
  if is_nil paths then mret tt
  else _ ← create_dir_all (under root (abs MASK_D)); each (fun p => mask_one true root (under root (abs MASK_D)) (abs p)) paths.

Definition dev_node (root : cpath) (node : bytes) : M unit :=
  let dest := under root (abs node) in
  _ ← create_parent dest;
  if host_is_dir (source_at node) then
    _ ← create_dir_all dest; _ ← mount Devpts dest;
    if path_eqb node (ascii_bytes "/dev/pts") then write_at (under root (abs (ascii_bytes "/dev/ptmx"))) else mret tt
  else _ ← write_at dest; bind (source_at node) dest false.
Definition at_ (root : cpath) (p : string) : cpath := under root (abs (ascii_bytes p)).

Definition private_mounts (view : ShimView) (root : cpath) : M unit :=
  _ ← create_dir_all (at_ root "/dev"); _ ← mount Tmpfs (at_ root "/dev");
  _ ← each (dev_node root) (sv_dev_allow view);
  _ ← (if sv_binder view
       then _ ← create_dir_all (at_ root "/dev/binderfs"); _ ← mount Binderfs (at_ root "/dev/binderfs"); _ ← syscall; write_at (at_ root "/dev/binder")
       else mret tt);
  _ ← create_dir_all (at_ root "/proc"); _ ← mount Procfs (at_ root "/proc");
  _ ← create_dir_all (at_ root "/tmp"); _ ← mount Tmpfs (at_ root "/tmp");
  _ ← create_dir_all (at_ root "/dev/shm"); _ ← mount Tmpfs (at_ root "/dev/shm");
  create_dir_all (under root (abs (sv_shim_root view))).
Definition OLDROOT : cpath := abs (ascii_bytes "/.kennel-oldroot").
Definition enter (root : cpath) : M unit :=
  _ ← create_dir_all (under root OLDROOT);
  _ ← op (fun t => Some (do_pivot root OLDROOT t));
  _ ← syscall;
  op (fun t => Some (do_detach OLDROOT t)).
Definition seal_view_tail (view : ShimView) (root : cpath) : M unit :=
  _ ← private_mounts view root;
  _ ← materialize_masks root (sv_mask_paths view);
  _ ← materialize_dir_masks root (sv_mask_dir_paths view);
  enter root.

Definition LINKS : list bytes := map ascii_bytes ["/bin"; "/sbin"; "/lib"; "/lib64"; "/lib32"; "/libx32"]%string.
Definition mirror_link (root : cpath) (link : bytes) : M unit :=
  match read_link link with
  | None => mret tt
  | Some _ =>
      let dest := under root (abs link) in
      there ← exists_ dest;
      if there then mret tt else _ ← create_parent dest; write_at dest
  end.
Definition copy_in (root : cpath) (target : bytes) : M unit :=
  let dest := under root (abs target) in _ ← create_parent dest; write_at dest.

Definition build_constructed (view : ShimView) (root : cpath) (file_binds : list (bytes * bytes)) : M unit :=
  _ ← mount Tmpfs root;
  _ ← materialize_binds root (sv_binds view);
  _ ← each (mirror_link root) LINKS;
  _ ← create_dir_all (at_ root "/etc");
  _ ← each (fun f => copy_in root f.2) file_binds;
  _ ← each (materialize_etc_overlay root) (sv_etc_overlays view);
  seal_view_tail view root.

Definition SCAFFOLD_DIRS : list bytes :=
  map ascii_bytes ["/proc"; "/dev"; "/tmp"; "/sys"; "/run"; "/run/kennel"; "/etc"; "/home"; "/.kennel-oldroot"]%string.
Definition KENNEL_ETC_FILES : list bytes :=
  map ascii_bytes ["/etc/resolv.conf"; "/etc/hostname"; "/etc/hosts"; "/etc/passwd"; "/etc/group"; "/etc/nsswitch.conf"]%string.
(** An overlay of [kennel-etc], an image: the copy of a granted file or tree into the top lower. *)
Definition copy_overlay (kennel_etc : cpath) (o : EtcOverlay) : M unit :=
  if negb (host_exists (abs (eo_source o))) then mret tt
  else let dest := under kennel_etc (abs (eo_view_path o)) in
       _ ← create_parent dest;
       if host_is_dir (source_at (eo_source o)) then create_dir_all dest else write_at dest.
Definition self_bind (recursive ro : bool) (root : cpath) (p : bytes) : M unit :=
  let target := under root (abs p) in
  there ← exists_ target;
  if negb there then mret tt
  else if ro then bind_readonly target target recursive else bind target target recursive.

(** [mount_overlay]: the text of the options, and the paths the kernel reads from it (without the escapes
    a backslash makes). *)
Definition COLON : Z := 58.
Definition COMMA : Z := 44.
Definition overlay_data (lowers : list bytes) (upper work : bytes) : bytes :=
  join_with COMMA [ascii_bytes "lowerdir=" ++ join_with COLON lowers; ascii_bytes "upperdir=" ++ upper; ascii_bytes "workdir=" ++ work].
Definition overlay_options (data : bytes) : option (list bytes * bytes * bytes) :=
  match split_on COMMA data with
  | [l; u; w] =>
      match strip_prefix (ascii_bytes "lowerdir=") l, strip_prefix (ascii_bytes "upperdir=") u, strip_prefix (ascii_bytes "workdir=") w with
      | Some l, Some u, Some w => Some (split_on COLON l, u, w)
      | _, _, _ => None
      end
  | _ => None
  end.
Definition mount_overlay (lowers : list bytes) (upper work : bytes) (target : cpath) : M unit :=
  match overlay_options (overlay_data lowers upper work) with
  | Some (ls, u, w) => op (do_overlay (map source_at ls) (source_at u) (source_at w) target)
  | None => fail EINVAL
  end.

Definition in_staging (staging : bytes) (name : string) : bytes := path_join staging (ascii_bytes name).
(** The upper and the work directory of the persistence. *)
Definition upper_work (staging : bytes) (img : ImageRoot) : option (bytes * bytes) :=
  match ir_persistence img with
  | Discard => Some (in_staging staging "upper", in_staging staging "work")
  | Persist => ir_store_upper img
  end.
Definition image_lowers (staging : bytes) (img : ImageRoot) : list bytes :=
  [in_staging staging "kennel-etc"; ir_image img; in_staging staging "scaffold"].
Definition build_image (view : ShimView) (staging : bytes) (img : ImageRoot) (file_binds : list (bytes * bytes)) : M unit :=
  let kennel_etc := abs (in_staging staging "kennel-etc") in
  let scaffold := abs (in_staging staging "scaffold") in
  let root := abs (in_staging staging "merged") in
  _ ← mount Tmpfs (abs staging);
  _ ← create_dir_all root;
  _ ← create_dir_all (at_ kennel_etc "/etc");
  _ ← each (fun f => copy_in kennel_etc f.2) file_binds;
  _ ← each (copy_overlay kennel_etc) (sv_etc_overlays view);
  _ ← each (fun d => create_dir_all (under scaffold (abs d))) SCAFFOLD_DIRS;
  _ ← each (fun f => write_at (under scaffold (abs f))) KENNEL_ETC_FILES;
  _ ← match ir_persistence img with
      | Discard => _ ← create_dir_all (abs (in_staging staging "upper")); create_dir_all (abs (in_staging staging "work"))
      | Persist => mret tt
      end;
  _ ← match upper_work staging img with
      | Some (upper, work) => mount_overlay (image_lowers staging img) upper work root
      | None => fail EINVAL
      end;
  _ ← mount Tmpfs (at_ root "/home");
  _ ← materialize_binds root (sv_binds view);
  _ ← each (self_bind false false root) (ir_writable img);
  _ ← each (self_bind true true root) (ir_readonly img);
  seal_view_tail view root.

Definition build_view_and_pivot (view : ShimView) (new_root : bytes) (file_binds : list (bytes * bytes)) : M unit :=
  match sv_image view with
  | Some img => build_image view new_root img file_binds
  | None => build_constructed view (abs new_root) file_binds
  end.

(** * The table *)

Lemma under_b_spec a p : under_b a p = true <-> a `prefix_of` p.
Proof. unfold under_b. apply bool_decide_eq_true. Qed.
Lemma under_b_no a p : under_b a p = false <-> ~ a `prefix_of` p.
Proof. unfold under_b. apply bool_decide_eq_false. Qed.
Lemma rel_to_app (a k : cpath) : rel_to a (a ++ k) = k.
Proof. apply drop_app_length. Qed.

Definition served (e : entry) (p : cpath) : fs * cpath * bool := (me_fs e, me_rel e ++ rel_to (me_target e) p, me_ro e).
Lemma place_cons e t p :
  place (e :: t) p = if under_b (me_target e) p then Some (served e p) else place t p.
Proof. unfold place. simpl. destruct (under_b _ p); reflexivity. Qed.
Lemma place_app t1 t2 p :
  place (t1 ++ t2) p = match place t1 p with Some x => Some x | None => place t2 p end.
Proof.
  induction t1 as [|e t1 IH]; [reflexivity|]. simpl. rewrite !place_cons.
  destruct (under_b _ p); [reflexivity|exact IH].
Qed.
Lemma place_inv t p x : place t p = Some x -> exists e, e ∈ t /\ me_target e `prefix_of` p /\ x = served e p.
Proof.
  induction t as [|e t IH]; [discriminate|]. rewrite place_cons. destruct (under_b _ p) eqn:E.
  - apply under_b_spec in E. intros [= <-]. exists e. split; [left|]. split; [exact E|reflexivity].
  - intros (e' & Hin & H)%IH. exists e'. split; [right; exact Hin|exact H].
Qed.
Lemma place_none t p : place t p = None <-> Forall (fun e => ~ me_target e `prefix_of` p) t.
Proof.
  induction t as [|e t IH]; [split; [constructor|reflexivity]|].
  rewrite place_cons, Forall_cons, <- IH. destruct (under_b _ p) eqn:E.
  - apply under_b_spec in E. split; [discriminate|intros [H _]; contradiction].
  - apply under_b_no in E. split; [intros H; split; [exact E|exact H]|intros [_ H]; exact H].
Qed.

Lemma visible_sub newer t : visible newer t ⊆ t.
Proof.
  revert newer. induction t as [|e t IH]; intros newer x; simpl; [set_solver|].
  rewrite elem_of_app. intros [H|H%IH]; [|set_solver]. destruct (existsb _ _); set_solver.
Qed.
Lemma submounts_in b src dst t e :
  e ∈ submounts b src dst t ->
  exists e0 k, e0 ∈ t /\ k ≠ [] /\ me_target e0 = src ++ k /\ e = clone_to src dst e0 /\ me_target e = dst ++ k.
Proof.
  destruct b; simpl; [|set_solver]. unfold submounts.
  intros (e0 & <- & Hin)%list_elem_of_In%in_map_iff. apply filter_In in Hin as [Hin Hs].
  apply list_elem_of_In, visible_sub in Hin. unfold strictly_under in Hs.
  apply andb_true_iff in Hs as [[k Hk]%under_b_spec Hne].
  apply negb_true_iff, bool_decide_eq_false in Hne. exists e0, k. repeat split; [exact Hin| |exact Hk|].
  - intros ->. rewrite app_nil_r in Hk. contradiction.
  - simpl. rewrite Hk, rel_to_app. reflexivity.
Qed.

(** A remount right after a bind hits the mount just made. *)
Lemma remount_after_bind b src dst t t' :
  do_bind src dst b t = Some t' ->
  exists f r ro, place t src = Some (f, r, ro) /\
    do_remount dst t' =
    Some (submounts b src dst t ++ {| me_target := dst; me_fs := f; me_rel := r; me_ro := true |} :: t).
Proof.
  unfold do_bind. destruct (place t src) as [[[f r] ro]|]; [|discriminate]. intros [= <-].
  exists f, r, ro. split; [reflexivity|].
  assert (H : Forall (fun e => ~ me_target e `prefix_of` dst) (submounts b src dst t)).
  { apply Forall_forall. intros e (e0 & k & _ & Hk & _ & _ & ->)%submounts_in [k' E].
    rewrite <- app_assoc in E. apply (f_equal length) in E. rewrite !length_app in E.
    destruct k; [contradiction|simpl in E; lia]. }
  induction H as [|e l He _ IH]; simpl.
  - replace (under_b dst dst) with true by (symmetry; apply under_b_spec; reflexivity).
    rewrite bool_decide_true by reflexivity. reflexivity.
  - apply under_b_no in He. rewrite He, IH. reflexivity.
Qed.


(** * The image's overlay *)

(** Where a path leads once the staging file system is mounted. *)
Definition layer_for (staging p : cpath) : layer :=
  if under_b staging p then LFresh Tmpfs staging (rel_to staging p) else LHost p.
(** The tree of an image: over the kennel's own [scaffold] the image and over it the kennel's own [etc],
    and for what is written the staging file system, or the store's directory of a persistent image. *)
Definition image_tree (view : ShimView) (new_root : bytes) (on : cpath) (ls : list layer) (u : layer) : Prop :=
  let own := fun name => LFresh Tmpfs (abs new_root) [Normal (ascii_bytes name)] in
  exists img, sv_image view = Some img /\ on = abs new_root ++ [Normal (ascii_bytes "merged")] /\
    ls = [own "kennel-etc"%string; layer_for (abs new_root) (source_at (ir_image img)); own "scaffold"%string] /\
    match ir_persistence img with
    | Discard => u = own "upper"%string
    | Persist => exists up work, ir_store_upper img = Some (up, work) /\ u = layer_for (abs new_root) (source_at up)
    end.
(** None of the characters that mean something in the text of the options: [:], [,], [\]. *)
Definition plain (p : bytes) : Prop := Forall (fun c => has_byte c p = false) [COLON; COMMA; 92].
Definition plain_image (view : ShimView) (new_root : bytes) : Prop :=
  forall img, sv_image view = Some img ->
    plain new_root /\ plain (ir_image img) /\ forall up work, ir_store_upper img = Some (up, work) -> plain up /\ plain work.

Lemma abs_in_staging staging name :
  is_absolute (ascii_bytes name) = false -> leading_dot (ascii_bytes name) = false ->
  abs (in_staging staging name) = abs staging ++ components (ascii_bytes name).
Proof. apply path_join_components. Qed.
Lemma plain_join p q : plain p -> plain q -> plain (path_join p q).
Proof.
  unfold plain. rewrite !Forall_forall. intros Hp Hq c Hc. specialize (Hp c Hc). specialize (Hq c Hc). unfold path_join.
  destruct (is_absolute q); [exact Hq|]. destruct (last p) as [b|]; [|exact Hq].
  destruct (b =? SLASH); rewrite has_byte_app, Hp; [exact Hq|].
  change (has_byte c (SLASH :: q)) with ((c =? SLASH) || has_byte c q). rewrite Hq.
  apply list_elem_of_In in Hc. destruct Hc as [<-|[<-|[<-|[]]]]; reflexivity.
Qed.
Lemma join_free c s ps : c ≠ s -> Forall (fun p => has_byte c p = false) ps -> has_byte c (join_with s ps) = false.
Proof.
  intros Hc H. induction H as [|p ps Hp H IH]; [reflexivity|]. destruct ps as [|q ps]; [exact Hp|].
  change (join_with s (p :: q :: ps)) with (p ++ s :: join_with s (q :: ps)). rewrite has_byte_app, Hp.
  change (has_byte c (s :: join_with s (q :: ps))) with ((c =? s) || has_byte c (join_with s (q :: ps))).
  rewrite IH. apply Z.eqb_neq in Hc. rewrite Hc. reflexivity.
Qed.
Lemma overlay_options_read ls u w :
  ls ≠ [] -> Forall plain (u :: w :: ls) -> overlay_options (overlay_data ls u w) = Some (ls, u, w).
Proof.
  intros Hn H. apply Forall_cons in H as [Hu H]. apply Forall_cons in H as [Hw H].
  assert (Hc : forall c p, plain p -> c ∈ [COLON; COMMA; 92] -> has_byte c p = false)
    by (intros c p Hp; unfold plain in Hp; rewrite Forall_forall in Hp; apply Hp).
  unfold overlay_options, overlay_data. rewrite split_join; [|discriminate|].
  - rewrite !(proj2 (strip_prefix_Some _ _ _) eq_refl), split_join; [reflexivity|exact Hn|].
    apply (Forall_impl _ _ _ H). intros p Hp. apply Hc; [exact Hp|set_solver].
  - repeat constructor; rewrite has_byte_app; (apply orb_false_iff; split; [reflexivity|]).
    + apply join_free; [discriminate|]. apply (Forall_impl _ _ _ H). intros p Hp. apply Hc; [exact Hp|set_solver].
    + apply Hc; [exact Hu|set_solver].
    + apply Hc; [exact Hw|set_solver].
Qed.
Lemma overlay_options_image view new_root img up work :
  sv_image view = Some img -> upper_work new_root img = Some (up, work) -> plain_image view new_root ->
  overlay_options (overlay_data (image_lowers new_root img) up work) = Some (image_lowers new_root img, up, work).
Proof.
  intros Ei Eu Hp. destruct (Hp img Ei) as (Hr & Hi & Hs).
  assert (Ho : forall name, plain (ascii_bytes name) -> plain (in_staging new_root name)) by (intros; apply plain_join; assumption).
  assert (Hu : plain up /\ plain work).
  { unfold upper_work in Eu. destruct (ir_persistence img); [injection Eu as <- <-; split; apply Ho; repeat constructor|auto]. }
  apply overlay_options_read; [discriminate|]. repeat (constructor; [try apply Hu; try exact Hi; apply Ho; repeat constructor|]).
  constructor.
Qed.
Lemma image_tree_intro view new_root img up work :
  (forall p, abs new_root `prefix_of` p -> follow p = p) -> sv_image view = Some img -> upper_work new_root img = Some (up, work) ->
  image_tree view new_root (abs (in_staging new_root "merged"))
    (map (fun p => layer_for (abs new_root) (source_at p)) (image_lowers new_root img)) (layer_for (abs new_root) (source_at up)).
Proof.
  intros Hf Ei Eu.
  assert (Ho : forall name, is_absolute (ascii_bytes name) = false -> leading_dot (ascii_bytes name) = false ->
    layer_for (abs new_root) (source_at (in_staging new_root name)) = LFresh Tmpfs (abs new_root) (components (ascii_bytes name))).
  { intros name H1 H2. unfold source_at. rewrite abs_in_staging by assumption. rewrite Hf by (eexists; reflexivity).
    unfold layer_for. rewrite (proj2 (under_b_spec _ _)) by (eexists; reflexivity). rewrite rel_to_app. reflexivity. }
  exists img. split; [exact Ei|]. split; [apply abs_in_staging; reflexivity|].
  split; [cbn [map image_lowers]; rewrite !Ho by reflexivity; reflexivity|].
  unfold upper_work in Eu. destruct (ir_persistence img); [injection Eu as <- <-; apply Ho; reflexivity|eauto].
Qed.

(** * The invariant of the staging root

    Entries under the root come first; the place of a tree they serve is granted ([G]), and if it is
    writable it is granted for writing ([W]); what is fresh is both.  Behind them is the host's own
    table [t0], and no ancestor of the root has to be created. *)

Section invariant.
Context (G W : fs -> cpath -> Prop) (t0 : table).
Context (HG : forall f r k, G f r -> G f (r ++ k)) (HW : forall f r k, W f r -> W f (r ++ k)).
Context (GF : forall k on r, G (Fresh k on) r) (WF : forall k on r, W (Fresh k on) r).

Definition allowed (e : entry) : Prop := G (me_fs e) (me_rel e) /\ (me_ro e = false -> W (me_fs e) (me_rel e)).
Definition staged (root : cpath) (e : entry) : Prop := root `prefix_of` me_target e /\ allowed e.
Definition outside (root : cpath) (e : entry) : Prop :=
  ~ root `prefix_of` me_target e /\
  match me_fs e with Host => e ∈ t0 /\ me_rel e = me_target e | Fresh _ _ => True | Merged _ _ _ => False end.
Definition present (t : table) (d : cpath) : Prop :=
  match place t d with
  | Some (Host, r, _) => host_exists r = true
  | Some (Fresh _ _, r, _) | Some (Merged _ _ _, r, _) => r = []
  | None => False
  end.
Definition Inv (root : cpath) (t : table) : Prop :=
  exists s r, t = s ++ r /\ Forall (staged root) s /\ (exists e, e ∈ s /\ me_target e = root) /\
    Forall (outside root) r /\ (forall d, d `prefix_of` root -> d ≠ [] -> d ≠ root -> present r d).

Lemma Inv_app root l t : Forall (staged root) l -> Inv root t -> Inv root (l ++ t).
Proof.
  intros Hl (s & r & -> & Hs & (e & He & Hr) & H). exists (l ++ s), r. rewrite app_assoc.
  split; [reflexivity|]. split; [apply Forall_app; split; assumption|]. split; [|exact H].
  exists e. split; [apply elem_of_app; right; exact He|exact Hr].
Qed.
Lemma Inv_elem root t e : Inv root t -> e ∈ t -> staged root e \/ outside root e.
Proof.
  intros (s & r & -> & Hs & _ & Hr & _) [H|H]%elem_of_app; rewrite Forall_forall in Hs, Hr; auto.
Qed.
(** A path under the root is served from under the root. *)
Lemma Inv_place root t p :
  Inv root t -> root `prefix_of` p ->
  exists e, e ∈ t /\ staged root e /\ me_target e `prefix_of` p /\ place t p = Some (served e p).
Proof.
  intros (s & r & -> & Hs & (e & He & Hr) & _) Hp. rewrite place_app. destruct (place s p) as [x|] eqn:E.
  - apply place_inv in E as (e' & Hin & Hpre & ->). exists e'. rewrite Forall_forall in Hs.
    split; [apply elem_of_app; left; exact Hin|]. auto.
  - apply place_none in E. rewrite Forall_forall in E. destruct (E e He). rewrite Hr. exact Hp.
Qed.
Lemma served_granted root e p :
  staged root e ->
  G (me_fs e) (me_rel e ++ rel_to (me_target e) p) /\ (me_ro e = false -> W (me_fs e) (me_rel e ++ rel_to (me_target e) p)).
Proof. intros [_ [H1 H2]]. auto. Qed.
Lemma Inv_write root t p f r : Inv root t -> root `prefix_of` p -> place t p = Some (f, r, false) -> W f r.
Proof.
  intros H Hp E. destruct (Inv_place root t p H Hp) as (e & _ & Hst & _ & E2).
  rewrite E in E2. injection E2 as -> -> E3. apply (served_granted root e p Hst). congruence.
Qed.
Lemma Inv_present root t d :
  Inv root t -> d `prefix_of` root -> d ≠ [] -> d ≠ root -> present t d.
Proof.
  intros (s & r & -> & Hs & _ & _ & H) Hd Hn Hne. specialize (H d Hd Hn Hne). unfold present in *.
  rewrite place_app. assert (E : place s d = None); [|rewrite E; exact H].
  apply place_none. apply (Forall_impl _ _ _ Hs). intros e [Hu _] Hp.
  apply Hne, (anti_symm prefix); [exact Hd|]. transitivity (me_target e); assumption.
Qed.

(** What may be bound under the root: something under it, or a granted host path whose writable
    submounts are granted for writing. *)
Definition source_ok (root : cpath) (recursive : bool) (src : cpath) : Prop :=
  root `prefix_of` src \/
  (G Host src /\ (recursive = true -> forall e, e ∈ t0 -> strictly_under src e = true -> me_ro e = false -> W Host (me_target e))).

(** An entry outside the root serves the host at its own path, or something fresh. *)
Lemma outside_serves root e p :
  outside root e -> me_target e `prefix_of` p ->
  (me_fs e = Host /\ served e p = (Host, p, me_ro e)) \/ (exists k on, me_fs e = Fresh k on).
Proof.
  intros [_ H] [k ->]. destruct (me_fs e) as [|k' on|] eqn:E; [left|right; eauto|contradiction].
  split; [reflexivity|]. destruct H as [_ Hrel]. unfold served. rewrite E, Hrel, rel_to_app. reflexivity.
Qed.
Lemma place_source root t src f r ro :
  Inv root t -> place t src = Some (f, r, ro) -> root `prefix_of` src \/ G Host src ->
  G f r /\ (root `prefix_of` src \/ W Host src -> ro = false -> W f r).
Proof.
  intros HI E Hsrc. destruct (decide (root `prefix_of` src)) as [Hr|Hr].
  - destruct (Inv_place root t src HI Hr) as (e & _ & Hst & _ & E2). rewrite E in E2. injection E2 as -> -> ->.
    destruct (served_granted root e src Hst). auto.
  - destruct Hsrc as [Hsrc|Hg]; [contradiction|]. pose proof E as E'.
    apply place_inv in E' as (e & Hin & Hpre & Es).
    destruct (Inv_elem _ _ _ HI Hin) as [Hst|Hout].
    + injection Es as -> -> ->. destruct (served_granted root e src Hst). auto.
    + destruct (outside_serves root e src Hout Hpre) as [[_ E2]|(k & on & E2)].
      * rewrite E2 in Es. injection Es as -> -> ->. split; [exact Hg|]. intros [?|?] _; [contradiction|assumption].
      * injection Es as -> -> ->. rewrite E2. auto.
Qed.

Lemma submounts_staged root b src dst t :
  Inv root t -> root `prefix_of` dst -> source_ok root b src -> Forall (staged root) (submounts b src dst t).
Proof.
  intros HI Hd Hs. apply Forall_forall. intros e He. destruct b; [|set_solver].
  apply submounts_in in He as (e0 & k & Hin & Hk & Ht & -> & Ht').
  split; [rewrite Ht'; apply prefix_app_r; exact Hd|]. unfold allowed. simpl.
  destruct (Inv_elem _ _ _ HI Hin) as [[_ Hst]|[Hno Hout]]; [exact Hst|].
  destruct (me_fs e0) as [|k' on|]; [|auto|contradiction].
  destruct Hout as [Hin0 Hrel]. destruct Hs as [Hs|[Hg Hs]].
  - destruct Hno. rewrite Ht. apply prefix_app_r. exact Hs.
  - rewrite Hrel. split; [rewrite Ht; apply HG; exact Hg|]. intros Hro. apply Hs; auto.
    unfold strictly_under. apply andb_true_iff. rewrite Ht. split; [apply under_b_spec; exists k; reflexivity|].
    apply negb_true_iff, bool_decide_eq_false. intros E. apply Hk, (app_inv_head src). rewrite app_nil_r. exact E.
Qed.
Lemma Inv_bind root b src dst t f r ro ro' :
  Inv root t -> root `prefix_of` dst -> source_ok root b src -> place t src = Some (f, r, ro) ->
  ro' = true \/ (ro' = ro /\ (root `prefix_of` src \/ W Host src)) ->
  Inv root (submounts b src dst t ++ {| me_target := dst; me_fs := f; me_rel := r; me_ro := ro' |} :: t).
Proof.
  intros HI Hd Hs E Hro. apply Inv_app; [apply submounts_staged; assumption|].
  apply (Inv_app root [_]); [|exact HI]. constructor; [|constructor]. split; [exact Hd|].
  assert (Hs' : root `prefix_of` src \/ G Host src) by (destruct Hs as [?|[? _]]; auto).
  destruct (place_source root t src f r ro HI E Hs') as [H1 H2]. split; [exact H1|]. simpl.
  destruct Hro as [->|[-> Hw]]; [discriminate|auto].
Qed.
Lemma Inv_mount root k dst t : Inv root t -> root `prefix_of` dst -> Inv root (do_mount k dst t).
Proof.
  intros HI Hd. apply (Inv_app root [_]); [|exact HI]. constructor; [|constructor].
  split; [exact Hd|]. split; [apply GF|intros _; apply WF].
Qed.

(** * Runs

    [Safe I J m]: from a table of [I], [m] writes only where [W] allows it, whether it succeeds or
    not, and a success leaves a table of [J]. *)

Definition wok (s : St) : Prop := forall f r, (f, r) ∈ st_wrote s -> W f r.
Definition Safe {A} (I J : table -> Prop) (m : M A) : Prop :=
  forall s r s', I (st_table s) -> wok s -> m s = (r, s') -> wok s' /\ (forall a, r = Ok a -> J (st_table s')).

Lemma safe_ret {A} I (a : A) : Safe I I (mret a).
Proof. intros s r s' HI Hw [= <- <-]. auto. Qed.
Lemma safe_fail {A} I J e : Safe I J (@fail A e).
Proof. intros s r s' HI Hw [= <- <-]. split; [exact Hw|discriminate]. Qed.
Lemma safe_bind {A B} I J K (m : M A) (f : A -> M B) :
  Safe I J m -> (forall a, Safe J K (f a)) -> Safe I K (bindM m f).
Proof.
  intros Hm Hf s r s' HI Hw. unfold bindM. destruct (m s) as [[a|e] s1] eqn:E.
  - destruct (Hm _ _ _ HI Hw E) as [Hw1 HJ]. intros E2. eapply Hf; eauto.
  - intros [= <- <-]. split; [eapply Hm; eauto|discriminate].
Qed.
Lemma safe_each {A} I (f : A -> M unit) l : (forall a, a ∈ l -> Safe I I (f a)) -> Safe I I (each f l).
Proof.
  induction l as [|a l IH]; intros H; [apply safe_ret|]. apply (safe_bind I I I); [apply H; left|].
  intros _. apply IH. intros b Hb. apply H. right. exact Hb.
Qed.
Lemma safe_exists I p : Safe I I (exists_ p).
Proof. intros s r s' HI Hw [= <- <-]. auto. Qed.
Lemma safe_op I J f : (forall t t', I t -> f t = Some t' -> J t') -> Safe I J (op f).
Proof.
  intros H s r s' HI Hw. unfold op. destruct (io _); [|destruct (f _) as [t'|] eqn:E]; intros [= <- <-];
    (split; [exact Hw|]); try discriminate. intros _ _. eapply H; eauto.
Qed.
Lemma safe_syscall I : Safe I I syscall.
Proof. apply safe_op. intros t t' H [= <-]. exact H. Qed.
Lemma safe_write I p : (forall t f r, I t -> place t p = Some (f, r, false) -> W f r) -> Safe I I (write_at p).
Proof.
  intros H s r s' HI Hw. unfold write_at. destruct (place _ p) as [[[f r0] ro]|] eqn:E; [destruct ro|].
  2: destruct (io _). all: intros [= <- <-]; (split; [|try discriminate; auto]); try exact Hw.
  intros f1 r1 [[= -> ->]|Hin]%elem_of_cons; [eapply H; eauto|auto].
Qed.
Lemma safe_unless I m : Safe I I m -> (forall s e s', m s = (Err e, s') -> st_table s' = st_table s) -> Safe I I (unless_erofs m).
Proof.
  intros H Ht s r s' HI Hw. unfold unless_erofs. destruct (m s) as [[a|e] s1] eqn:E;
    destruct (H _ _ _ HI Hw E) as [Hw1 HJ]; [intros [= <- <-]; split; [exact Hw1|intros _ _; eauto]|].
  specialize (Ht _ _ _ E). destruct e; intros [= <- <-]; (split; [exact Hw1|]); try discriminate.
  intros _ _. rewrite Ht. exact HI.
Qed.
Lemma write_keeps p s r s' : write_at p s = (r, s') -> st_table s' = st_table s.
Proof.
  unfold write_at. destruct (place _ p) as [[[f r0] ro]|]; [destruct ro; [|destruct (io _)]|]; intros [= <- <-]; reflexivity.
Qed.

Lemma prefixes_in before p d : d ∈ prefixes before p -> d `prefix_of` before ++ p /\ d ≠ [].
Proof.
  revert before. induction p as [|c p IH]; intros before; simpl; [set_solver|].
  intros [->|H]%elem_of_cons.
  - split; [exists p; rewrite <- app_assoc; reflexivity|]. destruct before; discriminate.
  - apply IH in H. rewrite <- app_assoc in H. exact H.
Qed.
Lemma present_has s d : present (st_table s) d -> has s d = true.
Proof.
  unfold present, has. destruct (place _ d) as [[[[|k on|on ls u] r] ro]|]; [| | |contradiction];
    intros ->; reflexivity.
Qed.

(** Nothing above the root is created. *)
Lemma safe_mkdirs (I : table -> Prop) root p :
  (forall t, I t -> Inv root t) -> root `prefix_of` p \/ p `prefix_of` root -> Safe I I (create_dir_all p).
Proof.
  intros HI Hp. apply safe_each. intros d [Hd Hn]%prefixes_in. simpl in Hd.
  destruct (decide (root `prefix_of` d)) as [Hr|Hr].
  - apply (safe_bind I I I); [apply safe_exists|]. intros []; [apply safe_ret|].
    apply safe_write. intros t f r Ht. apply (Inv_write root); auto.
  - assert (Hdr : d `prefix_of` root) 
      by (destruct Hp as [Hp|Hp]; [destruct (prefix_weak_total _ _ _ Hd Hp); [assumption|contradiction]|etransitivity; eassumption]).
    intros s r s' Hs Hw. unfold bindM, exists_.
    rewrite present_has; [intros [= <- <-]; auto|].
    apply (Inv_present root); auto. intros ->. apply Hr. reflexivity.
Qed.
Lemma parent_prefix p d : parent p = Some d -> d `prefix_of` p.
Proof.
  intros H. assert (E : d = take (length p - 1) p).
  { destruct p as [|a [|b l]]; [discriminate..|]. injection H as <-. reflexivity. }
  exists (drop (length p - 1) p). rewrite E. symmetry. apply take_drop.
Qed.
Lemma safe_parent I root p : (forall t, I t -> Inv root t) -> root `prefix_of` p -> Safe I I (create_parent p).
Proof.
  intros HI Hp. unfold create_parent. destruct (parent p) as [d|] eqn:E; [|apply safe_ret].
  apply (safe_mkdirs I root); [exact HI|]. apply parent_prefix in E. exact (prefix_weak_total _ _ _ Hp E).
Qed.
Lemma under_root root p : root `prefix_of` under root p.
Proof. exists (tail p). reflexivity. Qed.

Lemma safe_mount root k dst : root `prefix_of` dst -> Safe (Inv root) (Inv root) (mount k dst).
Proof. intros Hd. apply safe_op. intros t t' HI [= <-]. apply Inv_mount; assumption. Qed.
Lemma safe_bind_rw root b src dst :
  root `prefix_of` dst -> source_ok root b src -> root `prefix_of` src \/ W Host src ->
  Safe (Inv root) (Inv root) (bind src dst b).
Proof.
  intros Hd Hs Hw. apply safe_op. intros t t' HI. unfold do_bind.
  destruct (place t src) as [[[f r] ro]|] eqn:E; [|discriminate]. intros [= <-]. eapply Inv_bind; eauto.
Qed.
Lemma safe_bind_ro root b src dst :
  root `prefix_of` dst -> source_ok root b src -> Safe (Inv root) (Inv root) (bind_readonly src dst b).
Proof.
  intros Hd Hs. apply (safe_bind _ (fun t' => exists t, Inv root t /\ do_bind src dst b t = Some t') _).
  - apply safe_op. intros t t' HI E. exists t. auto.
  - intros _. apply safe_op. intros t1 t' (t & HI & E) Er.
    destruct (remount_after_bind _ _ _ _ _ E) as (f & r & ro & Ep & Er').
    rewrite Er in Er'. injection Er' as ->. eapply Inv_bind; eauto.
Qed.

(** * The builders keep the invariant *)

(** A guarded source is the path itself. *)
Lemma safe_guarded I J p (m : M unit) :
  (source_at p = abs p -> Safe I J m) -> Safe I J (bindM (open_no_symlinks p) (fun _ => m)).
Proof.
  intros H s r s' HI Hw. unfold bindM, open_no_symlinks at 1. unfold bindM. destruct (syscall s) as [[[]|e] s1] eqn:E.
  - destruct (safe_syscall I s _ s1 HI Hw E) as [Hw1 HI1]. case_bool_decide as Hp.
    + apply (H Hp s1); eauto.
    + intros [= <- <-]. split; [exact Hw1|discriminate].
  - intros [= <- <-]. split; [exact (proj1 (safe_syscall I s _ s1 HI Hw E))|discriminate].
Qed.
Ltac safe_step :=
  match goal with
  | |- Safe _ _ (bindM (open_no_symlinks _) _) => apply safe_guarded; intros ?
  | |- Safe ?I _ (bindM _ _) => apply (safe_bind I I); [|intros ?]
  | |- Safe _ _ (if ?b then _ else _) => destruct b
  | |- Safe _ _ (match ?o with Some _ => _ | None => _ end) => destruct o
  | |- Safe _ _ (mret _) => apply safe_ret
  | |- Safe _ _ (fail _) => apply safe_fail
  | |- Safe _ _ (exists_ _) => apply safe_exists
  | |- Safe _ _ syscall => apply safe_syscall
  | |- Safe _ _ (each _ _) => apply safe_each; intros ? ?
  | |- Safe (Inv ?root) _ (write_at _) => apply safe_write; intros ? ? ? ?; apply (Inv_write root); [assumption|]
  | |- Safe (Inv ?root) _ (create_dir_all _) => apply (safe_mkdirs _ root); [auto|left]
  | |- Safe (Inv ?root) _ (create_parent _) => apply (safe_parent _ root); [auto|]
  | |- Safe _ _ (mount _ _) => apply safe_mount
  | |- _ `prefix_of` under _ _ => apply under_root
  | |- _ `prefix_of` at_ _ _ => apply under_root
  end.
Ltac safe := repeat safe_step.

Definition bind_ok (root : cpath) (b : BindMount) : Prop :=
  source_ok root true (source_at (bm_source b)) /\
  (bm_writable b = true -> source_at (bm_source b) = abs (bm_source b) -> W Host (abs (bm_source b))).
Definition view_ok (root : cpath) (view : ShimView) : Prop :=
  (forall b, b ∈ sv_binds view -> bind_ok root b) /\
  (forall o, o ∈ sv_etc_overlays view -> G Host (source_at (eo_source o))) /\
  (forall n, n ∈ sv_dev_allow view -> G Host (source_at n) /\ W Host (source_at n)).

Lemma safe_materialize_bind root b : bind_ok root b -> Safe (Inv root) (Inv root) (materialize_bind root b).
Proof.
  intros [Hs Hw]. unfold materialize_bind, create_bind_target.
  destruct (bm_writable b).
  - safe; match goal with E : source_at _ = _ |- _ => apply safe_bind_rw; [apply under_root|rewrite <- E; exact Hs|right; auto] end.
  - unfold open_no_magiclinks. safe; apply safe_bind_ro; (apply under_root || exact Hs).
Qed.
Lemma safe_overlay root o : G Host (source_at (eo_source o)) -> Safe (Inv root) (Inv root) (materialize_etc_overlay root o).
Proof.
  intros Hg. unfold materialize_etc_overlay. safe. apply safe_bind_ro; [apply under_root|].
  right. split; [exact Hg|discriminate].
Qed.
Lemma safe_mask_one root dirs src p :
  root `prefix_of` src -> Safe (Inv root) (Inv root) (mask_one dirs root src p).
Proof.
  intros Hs. unfold mask_one, mask_over. safe; try (apply safe_bind_ro; [apply under_root|left; exact Hs]).
  apply safe_unless; [safe|]. intros s e s'. apply write_keeps.
Qed.
Lemma safe_masks root paths : Safe (Inv root) (Inv root) (materialize_masks root paths).
Proof. unfold materialize_masks. safe. apply safe_mask_one, under_root. Qed.
Lemma safe_dir_masks root paths : Safe (Inv root) (Inv root) (materialize_dir_masks root paths).
Proof. unfold materialize_dir_masks. safe. apply safe_mask_one, under_root. Qed.
Lemma safe_dev_node root n : G Host (source_at n) -> W Host (source_at n) -> Safe (Inv root) (Inv root) (dev_node root n).
Proof.
  intros Hg Hw. unfold dev_node. safe. apply safe_bind_rw; [apply under_root| |right; exact Hw].
  right. split; [exact Hg|discriminate].
Qed.
Lemma safe_private root view : view_ok root view -> Safe (Inv root) (Inv root) (private_mounts view root).
Proof. intros (_ & _ & H). unfold private_mounts. safe. apply safe_dev_node; apply H; assumption. Qed.
Lemma safe_self_bind root b ro p : Safe (Inv root) (Inv root) (self_bind b ro root p).
Proof.
  unfold self_bind. safe.
  - apply safe_bind_ro; [apply under_root|left; apply under_root].
  - apply safe_bind_rw; [apply under_root|left; apply under_root..].
Qed.

Definition confined (t : table) : Prop := Forall allowed t.

(** Every entry outside the root goes under the old root, and away with it. *)
Lemma detach_pivot root t e :
  e ∈ do_detach OLDROOT (do_pivot root OLDROOT t) ->
  exists e0, e0 ∈ t /\ root `prefix_of` me_target e0 /\
    e = {| me_target := RootDir :: rel_to root (me_target e0); me_fs := me_fs e0; me_rel := me_rel e0; me_ro := me_ro e0 |}.
Proof.
  unfold do_detach, do_pivot. intros [Hin Hd]%list_elem_of_In%filter_In.
  apply in_map_iff in Hin as (e0 & <- & Hin). simpl in *. apply negb_true_iff, under_b_no in Hd.
  destruct (under_b root (me_target e0)) eqn:E.
  - exists e0. apply in_app_iff in Hin as [Hin|Hin]; apply filter_In in Hin as [Hin Hb];
      apply list_elem_of_In in Hin; apply under_b_spec in E; auto.
  - destruct Hd. exists (tail (me_target e0)). reflexivity.
Qed.
Lemma safe_enter root : Safe (Inv root) confined (enter root).
Proof.
  unfold enter. apply (safe_bind _ (Inv root)); [safe|]. intros _.
  apply (safe_bind _ (fun t' => exists t, Inv root t /\ t' = do_pivot root OLDROOT t)).
  { apply safe_op. intros t t' HI [= <-]. eauto. }
  intros _. eapply safe_bind; [apply safe_syscall|]. intros _. apply safe_op. intros t t' (t1 & HI & ->) [= <-].
  apply Forall_forall. intros e (e0 & Hin & Hu & ->)%detach_pivot. simpl.
  destruct (Inv_elem _ _ _ HI Hin) as [[_ H]|[H _]]; [exact H|contradiction].
Qed.
Lemma safe_tail root view : view_ok root view -> Safe (Inv root) confined (seal_view_tail view root).
Proof.
  intros Hv. unfold seal_view_tail. apply (safe_bind _ (Inv root)); [apply safe_private; exact Hv|]. intros _.
  apply (safe_bind _ (Inv root)); [apply safe_masks|]. intros _.
  apply (safe_bind _ (Inv root)); [apply safe_dir_masks|]. intros _. apply safe_enter.
Qed.

(** The host's table: each mount serves its own path, none is under the new root, the new root
    and the directories above it exist, and no link leads away from under it. *)
Definition host_table (new_root : cpath) : Prop :=
  Forall (fun e => me_fs e = Host /\ me_rel e = me_target e /\ ~ new_root `prefix_of` me_target e) t0 /\
  (forall d, d `prefix_of` new_root -> d ≠ [] -> present t0 d) /\
  (forall p, new_root `prefix_of` p -> follow p = p).

Lemma Inv_start root : host_table root -> Inv root (do_mount Tmpfs root t0).
Proof.
  intros (H1 & H2 & _). exists [{| me_target := root; me_fs := Fresh Tmpfs root; me_rel := []; me_ro := false |}], t0.
  split; [reflexivity|]. split; [|split; [|split]].
  - constructor; [|constructor]. split; [reflexivity|]. split; [apply GF|intros _; apply WF].
  - eexists. split; [left|reflexivity].
  - apply Forall_forall. intros e He. rewrite Forall_forall in H1. destruct (H1 e He) as (H & H' & H''). split; [exact H''|].
    rewrite H. auto.
  - auto.
Qed.
Lemma Inv_image staging x ls u :
  staging ≠ [] -> host_table staging -> G (Merged (staging ++ [x]) ls u) [] -> W (Merged (staging ++ [x]) ls u) [] ->
  Inv (staging ++ [x])
    ({| me_target := staging ++ [x]; me_fs := Merged (staging ++ [x]) ls u; me_rel := []; me_ro := false |}
     :: do_mount Tmpfs staging t0).
Proof.
  intros Hn (H1 & H2 & _) Hg Hw. eexists [_], _. split; [reflexivity|].
  assert (Hno : ~ staging ++ [x] `prefix_of` staging).
  { intros H%prefix_length. rewrite length_app in H. simpl in H. lia. }
  split; [|split; [|split]].
  - constructor; [|constructor]. split; [reflexivity|]. split; [exact Hg|intros _; exact Hw].
  - eexists. split; [left|reflexivity].
  - constructor; [split; [exact Hno|exact I]|]. apply Forall_forall. intros e He.
    rewrite Forall_forall in H1. destruct (H1 e He) as (H & H' & H''). split; [|rewrite H; auto].
    intros Hp. apply H''. etransitivity; [|exact Hp]. exists [x]. reflexivity.
  - intros d Hd Hdn Hne. unfold present, do_mount. rewrite place_cons. cbn [me_target].
    destruct (under_b staging d) eqn:E.
    + apply under_b_spec in E as [k ->]. apply prefix_app_inv in Hd as Hk.
      destruct k as [|c k]; [cbv beta iota delta [served me_fs me_rel me_ro me_target]; rewrite rel_to_app; reflexivity|].
      apply prefix_cons_inv_2 in Hk as Hk'. apply prefix_nil_inv in Hk' as ->.
      apply prefix_cons_inv_1 in Hk as ->. contradiction.
    + apply under_b_no in E. assert (Hs : staging `prefix_of` staging ++ [x]) by (exists [x]; reflexivity).
      destruct (prefix_weak_total _ _ _ Hd Hs); [|contradiction]. apply (H2 d); assumption.
Qed.
Lemma layer_at_start staging p l :
  host_table staging -> layer_at (do_mount Tmpfs staging t0) p = Some l -> l = layer_for staging p.
Proof.
  intros (H1 & _). unfold layer_at, layer_for, do_mount. rewrite place_cons. cbn [me_target].
  destruct (under_b staging p); [intros [= <-]; reflexivity|].
  destruct (place t0 p) as [x|] eqn:E; [|discriminate]. apply place_inv in E as (e & He & [k ->] & ->).
  rewrite Forall_forall in H1. destruct (H1 e He) as (Hf & Hr & _). unfold served. rewrite Hf, Hr, rel_to_app.
  intros [= <-]. reflexivity.
Qed.

Lemma safe_constructed view root files J :
  host_table root -> view_ok root view -> Safe (Inv root) J (seal_view_tail view root) ->
  Safe (fun t => t = t0) J (build_constructed view root files).
Proof.
  intros Ht Hv HJ. pose proof Hv as (Hb & Ho & _). unfold build_constructed.
  apply (safe_bind _ (Inv root)). { apply safe_op. intros t t' -> [= <-]. apply Inv_start. exact Ht. }
  intros _. apply (safe_bind _ (Inv root)).
  { apply safe_each. intros b H. apply safe_materialize_bind. auto. }
  intros _. unfold mirror_link, copy_in.
  do 3 (apply (safe_bind _ (Inv root)); [safe|intros _]).
  apply (safe_bind _ (Inv root)); [safe; apply safe_overlay; auto|]. intros _. exact HJ.
Qed.

Lemma Inv_staging root x p : root `prefix_of` under (root ++ [x]) p.
Proof. exists (x :: tail p). unfold under. rewrite <- app_assoc. reflexivity. Qed.

(** The overlay's entry is the tree the image is made of. *)
Lemma safe_mount_overlay view new_root img up work :
  abs new_root ≠ [] -> host_table (abs new_root) -> sv_image view = Some img -> upper_work new_root img = Some (up, work) ->
  plain_image view new_root ->
  (forall ls u, image_tree view new_root (abs (in_staging new_root "merged")) ls u ->
     G (Merged (abs (in_staging new_root "merged")) ls u) [] /\ W (Merged (abs (in_staging new_root "merged")) ls u) []) ->
  Safe (fun t => t = do_mount Tmpfs (abs new_root) t0) (Inv (abs (in_staging new_root "merged")))
    (mount_overlay (image_lowers new_root img) up work (abs (in_staging new_root "merged"))).
Proof.
  intros Hn Ht Ei Eu Hp HM. unfold mount_overlay. rewrite (overlay_options_image view) by assumption.
  apply safe_op. intros t t' ->. unfold do_overlay.
  destruct (mapM _ _) as [ls|] eqn:El; [|discriminate]. destruct (layer_at _ _) as [u|] eqn:Ea; [|discriminate].
  destruct (upper_ok _ _ _); [|discriminate]. intros [= <-].
  pose proof (layer_at_start _ _ _ Ht Ea) as ->.
  assert (ls = map (fun p => layer_for (abs new_root) (source_at p)) (image_lowers new_root img)) as ->.
  { apply mapM_Some_1 in El. clear -El Ht. revert ls El. generalize (image_lowers new_root img) as l.
    induction l as [|p l IH]; intros ls El; cbn [map] in *; [by apply Forall2_nil_inv_l in El as ->|].
    apply Forall2_cons_inv_l in El as (x & ls' & Hx & Hl & ->). f_equal; [by apply layer_at_start|by apply IH]. }
  destruct Ht as (Ht1 & Ht2 & Hf).
  destruct (HM _ _ (image_tree_intro view new_root img up work Hf Ei Eu)) as [Hg Hw].
  rewrite !abs_in_staging in * by reflexivity. apply Inv_image; try assumption. split; [|split]; assumption.
Qed.

(** Before the overlay is mounted only the staging file system is written. *)
Ltac safe_in staging HI :=
  repeat match goal with
  | |- Safe ?I _ (write_at _) => apply safe_write; intros ? ? ? ?; apply (Inv_write staging); [apply HI; assumption|]
  | |- Safe ?I _ (create_dir_all _) => apply (safe_mkdirs _ staging); [exact HI|left]
  | |- Safe ?I _ (create_parent _) => apply (safe_parent _ staging); [exact HI|]
  | |- _ `prefix_of` under (abs (in_staging _ _)) _ => rewrite abs_in_staging by reflexivity; apply Inv_staging
  | |- _ `prefix_of` at_ (abs (in_staging _ _)) _ => rewrite abs_in_staging by reflexivity; apply Inv_staging
  | |- _ `prefix_of` abs (in_staging _ _) => rewrite abs_in_staging by reflexivity; eexists; reflexivity
  | _ => safe_step
  end.
Lemma safe_image view new_root img files J :
  abs new_root ≠ [] -> host_table (abs new_root) -> sv_image view = Some img -> plain_image view new_root ->
  (forall ls u, image_tree view new_root (abs (in_staging new_root "merged")) ls u ->
     G (Merged (abs (in_staging new_root "merged")) ls u) [] /\ W (Merged (abs (in_staging new_root "merged")) ls u) []) ->
  view_ok (abs (in_staging new_root "merged")) view ->
  Safe (Inv (abs (in_staging new_root "merged"))) J (seal_view_tail view (abs (in_staging new_root "merged"))) ->
  Safe (fun t => t = t0) J (build_image view new_root img files).
Proof.
  intros Hn Ht Ei Hp HM Hv HJ. pose proof Hv as (Hb & _). unfold build_image. set (staging := abs new_root) in *.
  set (I := fun t => t = do_mount Tmpfs staging t0).
  assert (HI : forall t, I t -> Inv staging t) by (intros t ->; apply Inv_start; exact Ht).
  apply (safe_bind _ I). { apply safe_op. intros t t' -> [= <-]. reflexivity. }
  intros _. unfold copy_in, copy_overlay.
  do 7 (apply (safe_bind _ I); [destruct (ir_persistence img); safe_in staging HI|intros _]).
  set (root := abs (in_staging new_root "merged")) in *.
  apply (safe_bind _ (Inv root)).
  { destruct (upper_work new_root img) as [[up work]|] eqn:Eu; [|apply safe_fail]. apply (safe_mount_overlay view); assumption. }
  intros _. apply (safe_bind _ (Inv root)); [safe|]. intros _.
  apply (safe_bind _ (Inv root)). { apply safe_each. intros b H. apply safe_materialize_bind. auto. }
  intros _. do 2 (apply (safe_bind _ (Inv root)); [safe; apply safe_self_bind|intros _]). exact HJ.
Qed.
End invariant.

(** * What the view holds of the host *)

(** The places the grants lead to; a writable bind's is its path, which no link is in. *)
Definition grants (view : ShimView) : list cpath :=
  map (fun b => source_at (bm_source b)) (sv_binds view) ++ map (fun o => source_at (eo_source o)) (sv_etc_overlays view) ++
  map source_at (sv_dev_allow view).
Definition write_grants (view : ShimView) : list cpath :=
  map (fun b => abs (bm_source b)) (List.filter bm_writable (sv_binds view)) ++ map source_at (sv_dev_allow view).
Definition within (l : list cpath) (r : cpath) : Prop := exists g, g ∈ l /\ g `prefix_of` r.
Lemma within_app l r k : within l r -> within l (r ++ k).
Proof. intros (g & Hg & Hp). exists g. split; [exact Hg|]. apply prefix_app_r. exact Hp. Qed.
Lemma within_in l g : g ∈ l -> within l g.
Proof. intros H. exists g. split; [exact H|reflexivity]. Qed.
Definition start (t0 : table) : St := {| st_table := t0; st_step := 0; st_wrote := [] |}.

(** What a tree of the view may be, and what of it may be written: the host at or below [l], something
    fresh, or the image's overlay. *)
Definition tree_within (l : list cpath) (view : ShimView) (new_root : bytes) (f : fs) (r : cpath) : Prop :=
  match f with
  | Host => within l r
  | Fresh _ _ => True
  | Merged on ls u => image_tree view new_root on ls u
  end.
Lemma tree_within_app l view new_root f r k : tree_within l view new_root f r -> tree_within l view new_root f (r ++ k).
Proof. destruct f; [apply within_app|auto..]. Qed.

Lemma grants_bind view b : b ∈ sv_binds view -> within (grants view) (source_at (bm_source b)).
Proof.
  intros H. apply within_in. unfold grants. apply elem_of_app. left. apply list_elem_of_In, in_map_iff.
  exists b. split; [reflexivity|apply list_elem_of_In; exact H].
Qed.
Lemma grants_overlay view o : o ∈ sv_etc_overlays view -> within (grants view) (source_at (eo_source o)).
Proof.
  intros H. apply within_in. unfold grants. rewrite !elem_of_app. right. left. apply list_elem_of_In, in_map_iff.
  exists o. split; [reflexivity|apply list_elem_of_In; exact H].
Qed.
Lemma grants_dev view n :
  n ∈ sv_dev_allow view -> within (grants view) (source_at n) /\ within (write_grants view) (source_at n).
Proof.
  intros H. assert (Hm : source_at n ∈ map source_at (sv_dev_allow view))
    by (apply list_elem_of_In, in_map, list_elem_of_In, H).
  split; apply within_in; unfold grants, write_grants; rewrite !elem_of_app; auto.
Qed.
Lemma write_grants_bind view b :
  b ∈ sv_binds view -> bm_writable b = true -> within (write_grants view) (abs (bm_source b)).
Proof.
  intros H Hw. apply within_in. unfold write_grants. apply elem_of_app. left. apply list_elem_of_In, in_map_iff.
  exists b. split; [reflexivity|apply filter_In; split; [apply list_elem_of_In; exact H|exact Hw]].
Qed.

Abbreviation Always := (fun _ => True).
Abbreviation Anywhere := (fun _ _ => True).
Lemma safe_build (W : fs -> cpath -> Prop) t0 view new_root files J :
  (forall f r k, W f r -> W f (r ++ k)) -> (forall k on r, W (Fresh k on) r) ->
  (forall on ls u, image_tree view new_root on ls u -> W (Merged on ls u) []) ->
  abs new_root ≠ [] -> host_table t0 (abs new_root) -> plain_image view new_root ->
  (forall root, view_ok (tree_within (grants view) view new_root) W t0 root view) ->
  (forall root, root ≠ [] -> Safe W (Inv (tree_within (grants view) view new_root) W t0 root) J (seal_view_tail view root)) ->
  Safe W (fun t => t = t0) J (build_view_and_pivot view new_root files).
Proof.
  intros HW WF WM Hn Ht Hp Hv HJ. unfold build_view_and_pivot. destruct (sv_image view) as [img|] eqn:Ei.
  - apply (safe_image (tree_within (grants view) view new_root) W t0); auto using tree_within_app; [intros; exact I|].
    apply HJ. rewrite abs_in_staging by reflexivity. intros E. apply app_nil in E as [E _]. contradiction.
  - apply (safe_constructed (tree_within (grants view) view new_root) W t0); auto using tree_within_app. intros; exact I.
Qed.
Lemma view_ok_any t0 root view new_root : view_ok (tree_within (grants view) view new_root) Anywhere t0 root view.
Proof.
  split; [|split].
  - intros b Hb. split; [right; split; [apply grants_bind; exact Hb|auto]|auto].
  - apply grants_overlay.
  - intros n Hd. split; [apply grants_dev; exact Hd|exact I].
Qed.
Lemma confined_place (G W : fs -> cpath -> Prop) t p f r ro :
  (forall f r k, G f r -> G f (r ++ k)) -> (forall f r k, W f r -> W f (r ++ k)) ->
  confined G W t -> place t p = Some (f, r, ro) -> G f r /\ (ro = false -> W f r).
Proof.
  intros HG HW Hc (e & Hin & _ & [= -> -> ->])%place_inv. unfold confined in Hc. rewrite Forall_forall in Hc.
  destruct (Hc e Hin). auto.
Qed.

Lemma run_serves t0 view new_root files :
  abs new_root ≠ [] -> host_table t0 (abs new_root) -> plain_image view new_root ->
  Safe Anywhere (fun t => t = t0) (confined (tree_within (grants view) view new_root) Anywhere) (build_view_and_pivot view new_root files).
Proof.
  intros Hn Ht Hp. apply (safe_build _ t0); auto using view_ok_any. intros root _.
  apply (safe_tail _ _ t0); auto using view_ok_any, tree_within_app. intros; exact I.
Qed.

(** C14: The view a kennel wakes up in is made of three kinds of tree, whatever the order and the overlaps
    of the grants.  What the host serves is at or below the place the source of a grant leads to, its links
    followed: a bind of the plan, an allowed device node or an [/etc] overlay.  The rest is fresh, or the
    overlay of the view's image: there the lowers are, in this order, the [etc] the kennel staged, the
    image and the staged scaffold, and the upper is the staging file system, or the store's directory of
    a persistent image.  So no other host path is in any mount.  This is for a host whose mounts are each
    at their own path, none of them under the staging directory, which exists and has no link on the
    way to it or in it, and for an image whose paths hold none of the separators of the overlay's options. *)
Theorem view_serves_grants t0 view new_root files s p f r ro :
  abs new_root ≠ [] -> host_table t0 (abs new_root) -> plain_image view new_root ->
  build_view_and_pivot view new_root files (start t0) = (Ok tt, s) ->
  place (st_table s) p = Some (f, r, ro) ->
  match f with
  | Host => within (grants view) r
  | Fresh _ _ => True
  | Merged on ls u => image_tree view new_root on ls u
  end.
Proof.
  intros Hn Ht Hpl E.
  destruct (run_serves t0 view new_root files Hn Ht Hpl (start t0) _ _ eq_refl ltac:(intros ? ? Hq; inversion Hq) E) as [_ Hc].
  intros Hp. apply (confined_place _ Anywhere _ _ _ _ _ (tree_within_app _ _ _) (fun _ _ _ _ => I) (Hc tt eq_refl) Hp).
Qed.

(** If no host file system mounted below a read-only grant is writable, then the view is writable only
    in what is fresh, in the image's overlay (whose writes go to its upper), and on the host at or below a
    device node or a writable bind, at its own path and not where a link leads; and while the view is
    built, in a build that fails too, nothing is created anywhere else. *)
Theorem view_writes t0 view new_root files res s :
  abs new_root ≠ [] -> host_table t0 (abs new_root) -> plain_image view new_root ->
  (forall b e, b ∈ sv_binds view -> e ∈ t0 -> bm_writable b = false \/ source_at (bm_source b) ≠ abs (bm_source b) ->
     strictly_under (source_at (bm_source b)) e = true -> me_ro e = true) ->
  build_view_and_pivot view new_root files (start t0) = (res, s) ->
  (forall f q, (f, q) ∈ st_wrote s -> tree_within (write_grants view) view new_root f q) /\
  (res = Ok tt -> forall p f q, place (st_table s) p = Some (f, q, false) -> tree_within (write_grants view) view new_root f q).
Proof.
  intros Hn Ht Hpl Hsub E. set (W := tree_within (write_grants view) view new_root).
  assert (H : Safe W (fun t => t = t0) (confined (tree_within (grants view) view new_root) W) (build_view_and_pivot view new_root files)).
  { assert (Hv : forall root, view_ok (tree_within (grants view) view new_root) W t0 root view).
    { intros root. split; [|split; [apply grants_overlay|apply grants_dev]].
      intros b Hb. split; [right; split; [apply grants_bind; exact Hb|]|intros Hw _; apply write_grants_bind; assumption].
      intros _ e He Hs Hro. destruct (bm_writable b) eqn:Ew; [|rewrite (Hsub b e) in Hro; auto; discriminate].
      destruct (decide (source_at (bm_source b) = abs (bm_source b))) as [El|El]; [|rewrite (Hsub b e) in Hro; auto; discriminate].
      apply andb_true_iff in Hs as [[k Hk]%under_b_spec _]. unfold W. rewrite Hk, El.
      apply within_app, write_grants_bind; assumption. }
    apply (safe_build _ t0); auto; try apply tree_within_app; try (intros; exact I).
    intros root _. apply (safe_tail _ _ t0); auto; try apply tree_within_app; intros; exact I. }
  destruct (H (start t0) _ _ eq_refl ltac:(intros ? ? Hq; inversion Hq) E) as [Hw Hc]. split; [exact Hw|].
  intros -> p f q Hp. apply (confined_place _ W _ p f q false (tree_within_app _ _ _) (tree_within_app _ _ _) (Hc tt eq_refl) Hp). reflexivity.
Qed.

(** * Masks *)

Abbreviation Run := (Safe Anywhere) (only parsing).

Lemma run_conj {A} (I J I' J' : table -> Prop) (m : M A) :
  Run I J m -> Run I' J' m -> Run (fun t => I t /\ I' t) (fun t => J t /\ J' t) m.
Proof.
  intros H H' s r s' [HI HI'] Hw E. split; [exact (proj1 (H _ _ _ HI Hw E))|].
  intros a Ea. split; [apply (proj2 (H _ _ _ HI Hw E) a Ea)|apply (proj2 (H' _ _ _ HI' Hw E) a Ea)].
Qed.
Lemma run_any {A} I (m : M A) : Run I Always m.
Proof. intros s r s' _ _ _. split; [intros f q _|intros a _]; constructor. Qed.
Lemma run_write I p : Run I I (write_at p).
Proof. apply safe_write. intros t f r _ _. constructor. Qed.
Lemma run_mkdirs I p : Run I I (create_dir_all p).
Proof.
  apply safe_each. intros d _. apply (safe_bind _ _ I); [apply safe_exists|]. intros []; [apply safe_ret|apply run_write].
Qed.

(** What the host or an image shows at a place; nothing in what is fresh. *)
Definition shown (f : fs) (r : cpath) : bool :=
  match f with Host => host_exists r | Fresh _ _ => false | Merged _ ls u => is_nil r || merged_has (u :: ls) r end.
Definition fresh (f : fs) : Prop := match f with Fresh _ _ => True | _ => False end.
Definition fresh_ro (e : entry) : Prop := fresh (me_fs e) /\ me_ro e = true.
Definition mask_step (t t' : table) : Prop := t' = t \/ exists e, t' = e :: t /\ fresh_ro e.
Definition fresh_at (p : cpath) (t : table) : Prop := exists f r ro, place t p = Some (f, r, ro) /\ fresh f.
(** A path and everything under it is something fresh, and read-only. *)
Definition masked (t : table) (p : cpath) : Prop :=
  forall q, p `prefix_of` q -> exists f r, place t q = Some (f, r, true) /\ fresh f.
(** A path that is not there, on a read-only mount, so that it cannot be created. *)
Definition refused (t : table) (p : cpath) : Prop := exists f r, place t p = Some (f, r, true) /\ shown f r = false.
Definition dir_shown (t : table) (d : cpath) : Prop := exists f r ro, place t d = Some (f, r, ro) /\ shown f r = true.
(** A mask in a directory of the host or of the image is up, or (of a directory) its creation is refused. *)
Definition covered (dirs : bool) (t : table) (dest : cpath) : Prop :=
  forall d, parent dest = Some d -> dir_shown t d -> masked t dest \/ (dirs = true /\ refused t dest).

Lemma shown_has s p f r ro : place (st_table s) p = Some (f, r, ro) -> shown f r = true -> has s p = true.
Proof. unfold has. intros -> H. destruct f; cbn [shown] in H; [rewrite H; reflexivity|discriminate|rewrite H; reflexivity]. Qed.
Lemma shown_fresh f r : fresh f -> shown f r = false.
Proof. destruct f; [contradiction|reflexivity|contradiction]. Qed.
Lemma masked_now e t p : fresh_ro e -> me_target e `prefix_of` p -> masked (e :: t) p.
Proof.
  intros [Hf Hro] Hp q Hq. rewrite place_cons, (proj2 (under_b_spec _ _)) by (etransitivity; eassumption).
  unfold served. rewrite Hro. eauto.
Qed.
Lemma mask_place t t' p :
  mask_step t t' -> place t' p = place t p \/ masked t' p.
Proof.
  intros [->|(e & -> & He)]; [left; reflexivity|]. rewrite place_cons.
  destruct (under_b _ p) eqn:E; [right|left; reflexivity]. apply masked_now; [exact He|apply under_b_spec; exact E].
Qed.
Lemma masked_at t p : masked t p -> exists f r, place t p = Some (f, r, true) /\ fresh f.
Proof. intros H. apply H. reflexivity. Qed.
Lemma masked_keeps t t' p : mask_step t t' -> masked t p -> masked t' p.
Proof.
  intros Hs H q Hq. destruct (mask_place t t' q Hs) as [->|Hm]; [apply H; exact Hq|apply masked_at; exact Hm].
Qed.
Lemma mask_keeps dirs t t' p : mask_step t t' -> covered dirs t p -> covered dirs t' p.
Proof.
  intros Hs H d Hd (f & r & ro & E & Hx).
  destruct (mask_place t t' d Hs) as [Ed|(f1 & r1 & Ed & Hf)%masked_at].
  2: { rewrite E in Ed. injection Ed as <- <- ->. rewrite (shown_fresh f r Hf) in Hx. discriminate. }
  rewrite Ed in E. destruct (H d Hd ltac:(exists f, r, ro; auto)) as [Hm|[Hb Ha]].
  - left. eapply masked_keeps; eauto.
  - destruct (mask_place t t' p Hs) as [Ep|Hm]; [right|left; exact Hm].
    split; [exact Hb|]. unfold refused. rewrite Ep. exact Ha.
Qed.
Lemma mask_fresh t t' p : mask_step t t' -> fresh_at p t -> fresh_at p t'.
Proof.
  intros Hs H. destruct (mask_place t t' p Hs) as [E|(f & r & E & Hf)%masked_at]; unfold fresh_at in *; rewrite E; eauto.
Qed.

(** A read-only bind of something fresh. *)
Lemma run_cover src dst t :
  fresh_at src t -> Run (fun t' => t' = t) (fun t' => exists e, t' = e :: t /\ fresh_ro e /\ me_target e = dst) (bind_readonly src dst false).
Proof.
  intros (f & r & ro & E & Hf). apply (safe_bind _ _ (fun t' => do_bind src dst false t = Some t')).
  - apply safe_op. intros t1 t' -> H. exact H.
  - intros _. apply safe_op. intros t1 t' Eb Er.
    destruct (remount_after_bind _ _ _ _ _ Eb) as (f' & r' & ro' & Ep & Er').
    rewrite Er in Er'. injection Er' as ->. rewrite E in Ep. injection Ep as <- <- <-.
    eexists. split; [reflexivity|]. split; [split; [exact Hf|reflexivity]|reflexivity].
Qed.
Lemma run_present t d (Q : table -> Prop) (f : bool -> M unit) :
  Run (fun t' => t' = t) Q (f true) ->
  (~ dir_shown t d -> Run (fun t' => t' = t) Q (f false)) -> Run (fun t' => t' = t) Q (bindM (exists_ d) f).
Proof.
  intros H1 H2 s r s' <- Hw. unfold bindM, exists_. destruct (has s d) eqn:Eh; [apply (H1 s r s' eq_refl Hw)|].
  refine (H2 _ s r s' eq_refl Hw). intros (f1 & r1 & ro1 & E & Hx). rewrite (shown_has s d f1 r1 ro1 E Hx) in Eh. discriminate.
Qed.
(** [EROFS] is the answer of a read-only mount. *)
Lemma write_erofs p s s' :
  write_at p s = (Err EROFS, s') -> exists f r, place (st_table s) p = Some (f, r, true).
Proof.
  unfold write_at. destruct (place _ p) as [[[f r] []]|]; [eauto| |discriminate]. destruct (io _); discriminate.
Qed.
Lemma refused_now s p s' : has s p = false -> write_at p s = (Err EROFS, s') -> refused (st_table s) p.
Proof.
  intros Hh (f & r & E)%write_erofs. exists f, r. split; [exact E|].
  destruct (shown f r) eqn:Hx; [|reflexivity]. rewrite (shown_has s p f r true E Hx) in Hh. discriminate.
Qed.

Definition mask_done (dirs : bool) (t : table) (dest : cpath) (t' : table) : Prop :=
  mask_step t t' /\ (masked t' dest \/ (dirs = true /\ refused t' dest)).
Lemma run_mask_over dirs src dest t :
  fresh_at src t -> Run (fun t' => t' = t) (mask_done dirs t dest) (mask_over dirs src dest).
Proof.
  intros Hf. assert (Hb : Run (fun t' => t' = t) (mask_done dirs t dest) (bind_readonly src dest false)).
  { intros s r s' HI Hw E. destruct (run_cover src dest t Hf s r s' HI Hw E) as [Hw' H]. split; [exact Hw'|].
    intros a Ea. destruct (H a Ea) as (e & -> & Hro & <-). split; [right; eauto|left; apply masked_now; [exact Hro|reflexivity]]. }
  intros s r s' HI Hw. unfold mask_over. unfold bindM at 1, exists_. destruct (has s dest) eqn:Ep.
  - apply (Hb s r s' HI Hw).
  - destruct dirs; unfold bindM at 1; [unfold unless_erofs|unfold bindM at 1];
      destruct (write_at dest s) as [[a|e] s1] eqn:E; pose proof (write_keeps _ _ _ _ E) as Ht;
      try (apply (Hb s1 r s'); [rewrite Ht; exact HI|intros ? q _; constructor]).
    2: intros [= <- <-]; split; [intros ? q _; constructor|discriminate].
    destruct e; intros [= <- <-]; (split; [intros ? q _; constructor|]); try discriminate.
    intros _ _. rewrite Ht, HI. split; [left; reflexivity|right]. split; [reflexivity|].
    rewrite <- HI. eapply refused_now; eauto.
Qed.
Lemma run_mask_one dirs root src p t :
  fresh_at src t ->
  Run (fun t' => t' = t) (fun t' => mask_step t t' /\ covered dirs t' (under root p)) (mask_one dirs root src p).
Proof.
  intros Hf. assert (Hm : Run (fun t' => t' = t) (fun t' => mask_step t t' /\ covered dirs t' (under root p))
                                       (if negb true then mret tt else mask_over dirs src (under root p))).
  { intros s r s' HI Hw E. destruct (run_mask_over dirs src (under root p) t Hf s r s' HI Hw E) as [Hw' H].
    split; [exact Hw'|]. intros a Ea. destruct (H a Ea) as [Hs Hc]. split; [exact Hs|]. intros d' _ _. exact Hc. }
  unfold mask_one. destruct (parent (under root p)) as [d|] eqn:Ed.
  - apply run_present; [exact Hm|]. intros Hno.
    intros s r s' HI Hw [= <- <-]. split; [exact Hw|]. intros _ _. rewrite HI. split; [left; reflexivity|].
    intros d' Hd' Hh. rewrite Ed in Hd'. injection Hd' as <-. contradiction.
  - intros s r s' HI Hw [= <- <-]. split; [exact Hw|]. intros _ _. rewrite HI. split; [left; reflexivity|].
    intros d' Hd'. rewrite Ed in Hd'. discriminate.
Qed.

(** What the masks before leave covered stays covered. *)
Lemma run_masks_each dirs root src (K : table -> Prop) paths :
  (forall t t', mask_step t t' -> K t -> K t') ->
  Run (fun t => fresh_at src t /\ K t)
      (fun t => K t /\ forall p, p ∈ paths -> covered dirs t (under root (abs p)))
      (each (fun p => mask_one dirs root src (abs p)) paths).
Proof.
  intros HK. assert (H : forall done, Run (fun t => fresh_at src t /\ K t /\ forall p, p ∈ done -> covered dirs t (under root (abs p)))
      (fun t => K t /\ forall p, p ∈ done ++ paths -> covered dirs t (under root (abs p)))
      (each (fun p => mask_one dirs root src (abs p)) paths)).
  { induction paths as [|p paths IH]; intros done s r s' (Hf & Hk & Hd) Hw.
    - intros [= <- <-]. split; [exact Hw|]. intros _ _. rewrite app_nil_r. auto.
    - cbn [each]. unfold bindM. destruct (mask_one dirs root src (abs p) s) as [[a|e] s1] eqn:E.
      + destruct (run_mask_one dirs root src (abs p) _ Hf s _ s1 eq_refl Hw E) as [Hw1 H]. destruct (H a eq_refl) as [Hs Hc].
        intros E2. replace (done ++ p :: paths) with ((done ++ [p]) ++ paths) by (rewrite <- app_assoc; reflexivity).
        refine (IH (done ++ [p]) s1 r s' _ Hw1 E2). split; [eapply mask_fresh; eauto|]. split; [eapply HK; eauto|].
        intros q [Hq| ->%list_elem_of_singleton]%elem_of_app; [|exact Hc]. eapply mask_keeps; eauto.
      + intros [= <- <-]. split; [intros ? q _; constructor|discriminate]. }
  intros s r s' [Hf Hk]. apply (H [] s r s'). split; [exact Hf|]. split; [exact Hk|]. intros p Hp. inversion Hp.
Qed.

Lemma fresh_under_tmp root t c :
  abs (ascii_bytes "/tmp") `prefix_of` abs c ->
  fresh_at (under root (abs c)) (do_mount Tmpfs (at_ root "/dev/shm") (do_mount Tmpfs (at_ root "/tmp") t)).
Proof.
  intros Hc. unfold fresh_at, do_mount. rewrite !place_cons. cbn [me_target].
  destruct (under_b (at_ root "/dev/shm") _) eqn:E1; [unfold served; cbn [me_fs]; do 3 eexists; split; [reflexivity|exact I]|].
  assert (E2 : under_b (at_ root "/tmp") (under root (abs c)) = true); [|rewrite E2; unfold served; cbn [me_fs]; do 3 eexists; split; [reflexivity|exact I]].
  apply under_b_spec. unfold at_, under. apply prefix_app. destruct Hc as [k ->]. exists k. reflexivity.
Qed.
Lemma run_private root view :
  Run Always (fun t => fresh_at (under root (abs MASK)) t /\ fresh_at (under root (abs MASK_D)) t) (private_mounts view root).
Proof.
  unfold private_mounts. do 7 (apply (safe_bind _ _ Always); [apply run_any|intros _]).
  apply (safe_bind _ _ (fun t => exists t1, t = do_mount Tmpfs (at_ root "/tmp") t1)).
  { apply safe_op. intros t t' _ [= <-]. eauto. }
  intros _. eapply safe_bind; [apply run_mkdirs|]. intros _.
  apply (safe_bind _ _ (fun t => fresh_at (under root (abs MASK)) t /\ fresh_at (under root (abs MASK_D)) t)); [|intros _; apply run_mkdirs].
  apply safe_op. intros t t' (t1 & ->) [= <-].
  split; apply fresh_under_tmp; [exists [Normal (ascii_bytes ".kennel-mask")]|exists [Normal (ascii_bytes ".kennel-mask-d")]]; reflexivity.
Qed.
Definition all_covered (view : ShimView) (root : cpath) (t : table) : Prop :=
  (forall p, p ∈ sv_mask_paths view -> covered false t (under root (abs p))) /\
  (forall p, p ∈ sv_mask_dir_paths view -> covered true t (under root (abs p))).
Lemma run_materialize_masks root paths src2 :
  Run (fun t => fresh_at (under root (abs MASK)) t /\ fresh_at src2 t)
      (fun t => fresh_at src2 t /\ forall p, p ∈ paths -> covered false t (under root (abs p))) (materialize_masks root paths).
Proof.
  unfold materialize_masks. destruct paths as [|p paths].
  - intros s r s' [_ H] Hw [= <- <-]. split; [exact Hw|]. intros _ _. split; [exact H|]. intros p Hp. inversion Hp.
  - eapply safe_bind; [apply run_write|]. intros _. apply run_masks_each. intros t t'. apply mask_fresh.
Qed.
Lemma run_materialize_dir_masks root view :
  Run (fun t => fresh_at (under root (abs MASK_D)) t /\ forall p, p ∈ sv_mask_paths view -> covered false t (under root (abs p)))
      (all_covered view root) (materialize_dir_masks root (sv_mask_dir_paths view)).
Proof.
  unfold materialize_dir_masks, all_covered. destruct (sv_mask_dir_paths view) as [|p paths].
  - intros s r s' [_ H] Hw [= <- <-]. split; [exact Hw|]. intros _ _. split; [exact H|]. intros p Hp. inversion Hp.
  - eapply safe_bind; [apply run_mkdirs|]. intros _. apply run_masks_each.
    intros t t' Hs H q Hq. apply (mask_keeps false t t'); auto.
Qed.

(** The pivot moves the root's own entries, and the detach takes the rest. *)
Lemma place_moved root s q :
  Forall (fun e => root `prefix_of` me_target e) s -> ~ OLDROOT `prefix_of` RootDir :: q ->
  place (do_detach OLDROOT (do_pivot root OLDROOT s)) (RootDir :: q) = place s (root ++ q).
Proof.
  intros Hs Hq. unfold do_pivot, do_detach.
  assert (E : List.filter (fun e => negb (under_b root (me_target e))) s = [] /\ List.filter (fun e => under_b root (me_target e)) s = s).
  { induction Hs as [|e s He _ [IH1 IH2]]; [auto|]. apply under_b_spec in He. cbn. rewrite He, IH1, IH2. auto. }
  destruct E as [-> ->]. cbn [app]. induction Hs as [|e s He _ IH]; [reflexivity|]. cbn [map List.filter].
  pose proof He as [k Hk]. apply under_b_spec in He. rewrite He, Hk, rel_to_app. cbn [me_target].
  rewrite (place_cons _ s), Hk.
  assert (Ek : under_b (root ++ k) (root ++ q) = under_b (RootDir :: k) (RootDir :: q)).
  { unfold under_b. apply bool_decide_ext. split; [intros H%prefix_app_inv; apply prefix_cons; exact H|].
    intros H%prefix_cons_inv_2. apply prefix_app. exact H. }
  destruct (under_b OLDROOT (RootDir :: k)) eqn:Eo; cbn [negb].
  - rewrite IH, Ek. destruct (under_b (RootDir :: k) _) eqn:Eu; [|reflexivity].
    apply under_b_spec in Eo, Eu. destruct Hq. etransitivity; eassumption.
  - rewrite place_cons. cbn [me_target]. rewrite <- Ek. destruct (under_b (root ++ k) _) eqn:Eu; [|exact IH].
    apply under_b_spec, prefix_app_inv in Eu as [j ->]. unfold served. rewrite Hk. cbn [me_fs me_rel me_ro me_target].
    rewrite app_assoc, rel_to_app. unfold rel_to. cbn [length drop]. rewrite drop_app_length. reflexivity.
Qed.
Lemma pivot_drops root s r :
  Forall (fun e => ~ root `prefix_of` me_target e) r ->
  do_detach OLDROOT (do_pivot root OLDROOT (s ++ r)) = do_detach OLDROOT (do_pivot root OLDROOT s).
Proof.
  intros Hr. unfold do_detach, do_pivot. rewrite !List.filter_app, !map_app, !List.filter_app.
  assert (E : List.filter (fun e => under_b root (me_target e)) r = []).
  { induction Hr as [|e r He _ IH]; [reflexivity|]. apply under_b_no in He. cbn. rewrite He. exact IH. }
  rewrite E, app_nil_r. f_equal. clear E. induction Hr as [|e r He _ IH]; [apply app_nil_r|].
  apply under_b_no in He. cbn [List.filter]. rewrite He. cbn [negb map List.filter me_target]. rewrite He.
  replace (under_b OLDROOT (OLDROOT ++ _)) with true; [exact IH|].
  symmetry. apply under_b_spec. eexists. reflexivity.
Qed.
Lemma place_pivot G W t0 root t q :
  Inv G W t0 root t -> ~ OLDROOT `prefix_of` RootDir :: q ->
  place (do_detach OLDROOT (do_pivot root OLDROOT t)) (RootDir :: q) = place t (root ++ q).
Proof.
  intros HI Hq. pose proof (Inv_place G W t0 root t (root ++ q) HI ltac:(exists q; reflexivity)) as (e & _ & _ & _ & Ep).
  destruct HI as (s & r & -> & Hs & (e1 & He1 & Hr1) & Hr & _).
  assert (Hs' : Forall (fun e => root `prefix_of` me_target e) s) by (apply (Forall_impl _ _ _ Hs); intros x [H _]; exact H).
  rewrite place_app. transitivity (place s (root ++ q)).
  - rewrite <- (place_moved root s q Hs' Hq). f_equal. apply pivot_drops. apply (Forall_impl _ _ _ Hr). intros x [H _]. exact H.
  - destruct (place s (root ++ q)) eqn:E; [reflexivity|]. apply place_none in E. rewrite Forall_forall in E.
    destruct (E e1 He1). rewrite Hr1. exists q. reflexivity.
Qed.

(** The pivoted view of a covered mask. *)
Definition view_covered (t : table) (dirs : bool) (p : cpath) : Prop :=
  forall c x f r ro, p = RootDir :: c ++ [x] -> ~ OLDROOT `prefix_of` p ->
  place t (RootDir :: c) = Some (f, r, ro) -> shown f r = true -> masked t p \/ (dirs = true /\ refused t p).
Lemma oldroot_short c x k : OLDROOT `prefix_of` (RootDir :: c ++ [x]) ++ k -> OLDROOT `prefix_of` RootDir :: c ++ [x].
Proof.
  intros H. destruct (prefix_weak_total _ _ _ H ltac:(exists k; reflexivity)) as [Hp|Hp]; [exact Hp|].
  assert (E : length OLDROOT = 2%nat) by reflexivity. pose proof (prefix_length _ _ Hp) as Hl.
  cbn [length] in Hl. rewrite length_app in Hl. cbn [length] in Hl.
  rewrite (prefix_length_eq _ _ Hp); [reflexivity|]. cbn [length]. rewrite length_app. cbn [length]. lia.
Qed.
Lemma parent_snoc (a : component) l x : parent ((a :: l) ++ [x]) = Some (a :: l).
Proof.
  unfold parent. destruct ((a :: l) ++ [x]) as [|b [|b' m]] eqn:E; [discriminate|destruct l; discriminate|].
  rewrite <- E, length_app. cbn [length]. rewrite Nat.add_sub. f_equal. apply (take_app_length (a :: l)).
Qed.
Lemma covered_pivot G W t0 root dirs t p :
  root ≠ [] -> Inv G W t0 root t -> covered dirs t (under root p) ->
  view_covered (do_detach OLDROOT (do_pivot root OLDROOT t)) dirs p.
Proof.
  intros Hn HI Hc c x f r ro -> Ho Hp Hx.
  assert (Hoc : ~ OLDROOT `prefix_of` RootDir :: c) by (intros H; apply Ho; apply (prefix_app_r _ _ [x]) in H; exact H).
  rewrite (place_pivot G W t0 root t c HI Hoc) in Hp.
  assert (Hpar : parent (under root (RootDir :: c ++ [x])) = Some (root ++ c)).
  { unfold under. cbn [tail]. rewrite app_assoc. destruct root as [|a root]; [contradiction|]. apply parent_snoc. }
  destruct (Hc _ Hpar ltac:(exists f, r, ro; auto)) as [Hm|[Hb Ha]]; [left|right; split; [exact Hb|]].
  - intros q [k ->]. change ((RootDir :: c ++ [x]) ++ k) with (RootDir :: (c ++ [x]) ++ k).
    rewrite (place_pivot G W t0 root t _ HI).
    + apply Hm. exists k. unfold under. cbn [tail]. rewrite app_assoc. reflexivity.
    + intros H. apply Ho, (oldroot_short c x k), H.
  - unfold refused. rewrite (place_pivot G W t0 root t _ HI Ho). exact Ha.
Qed.

Lemma run_tail view new_root t0 root :
  root ≠ [] ->
  Run (Inv (tree_within (grants view) view new_root) Anywhere t0 root)
      (fun t => (forall p, p ∈ sv_mask_paths view -> view_covered t false (abs p)) /\
                (forall p, p ∈ sv_mask_dir_paths view -> view_covered t true (abs p)))
      (seal_view_tail view root).
Proof.
  intros Hn. set (I := Inv (tree_within (grants view) view new_root) Anywhere t0 root).
  assert (GF : forall k on r, tree_within (grants view) view new_root (Fresh k on) r) by (intros; exact Logic.I).
  unfold seal_view_tail.
  set (P1 := fun t => fresh_at (under root (abs MASK)) t /\ fresh_at (under root (abs MASK_D)) t).
  set (P2 := fun t => fresh_at (under root (abs MASK_D)) t /\ forall p, p ∈ sv_mask_paths view -> covered false t (under root (abs p))).
  intros s r s' HI. revert r s'.
  assert (H : Run (fun t => I t /\ True) (fun t => (forall p, p ∈ sv_mask_paths view -> view_covered t false (abs p)) /\
                (forall p, p ∈ sv_mask_dir_paths view -> view_covered t true (abs p))) (seal_view_tail view root)).
  { apply (safe_bind _ _ (fun t => I t /\ P1 t)); [apply run_conj; [apply safe_private; auto using tree_within_app, view_ok_any|apply run_private]|].
    intros _. apply (safe_bind _ _ (fun t => I t /\ P2 t));
      [apply run_conj; [apply safe_masks; auto using tree_within_app|apply run_materialize_masks]|].
    intros _. apply (safe_bind _ _ (fun t => I t /\ all_covered view root t));
      [apply run_conj; [apply safe_dir_masks; auto using tree_within_app|apply run_materialize_dir_masks]|].
    intros _. unfold enter. eapply safe_bind; [apply run_mkdirs|]. intros _.
    apply (safe_bind _ _ (fun t' => exists t, (I t /\ all_covered view root t) /\ t' = do_pivot root OLDROOT t)).
    { apply safe_op. intros t t' HI' [= <-]. eauto. }
    intros _. eapply safe_bind; [apply safe_syscall|]. intros _. apply safe_op.
    intros t t' (t1 & (HI' & Hf & Hd) & ->) [= <-].
    split; intros p Hp; apply (covered_pivot (tree_within (grants view) view new_root) Anywhere t0); auto. }
  intros r s' Hw E. apply (H s r s'); auto.
Qed.

(** C15: A mask path in a directory the view shows from the host or from an image is, with everything under
    it, served from a private file system of the kennel, with nothing of the host or the image, and is
    read-only: no grant, mount or earlier mask is on top of it.  A masked directory may instead be a path
    that is not there, in a mount that is read-only in the view, which is what refused its creation and
    still refuses it to the workload.  The host's mounts are each at their own path, none under the
    staging directory, which exists and has no link on the way to it or in it; the paths of an image hold
    none of the separators of the overlay's options. *)
Theorem masks_on_top t0 view new_root files s :
  abs new_root ≠ [] -> host_table t0 (abs new_root) -> plain_image view new_root ->
  build_view_and_pivot view new_root files (start t0) = (Ok tt, s) ->
  (forall p, p ∈ sv_mask_paths view -> view_covered (st_table s) false (abs p)) /\
  (forall p, p ∈ sv_mask_dir_paths view -> view_covered (st_table s) true (abs p)).
Proof.
  intros Hn Ht Hp E.
  pose proof (safe_build Anywhere t0 view new_root files _ (fun _ _ _ _ => I) (fun _ _ _ => I) (fun _ _ _ _ => I) Hn Ht Hp
    (fun root => view_ok_any t0 root view new_root) (fun root => run_tail view new_root t0 root)) as H.
  destruct (H (start t0) _ _ eq_refl ltac:(intros ? q Hq; constructor) E) as [_ Hc]. exact (Hc tt eq_refl).
Qed.

End host.

(** * A host *)

Local Abbreviation b_ := ascii_bytes (only parsing).
Definition ex_mount (p : bytes) (ro : bool) : entry :=
  {| me_target := abs p; me_fs := Host; me_rel := abs p; me_ro := ro |}.
Definition ex_bind (p : bytes) (w : bool) : BindMount :=
  {| bm_source := p; bm_target := p; bm_writable := w; bm_exclusive := false; bm_redirected := false |}.
Definition ex_view : ShimView :=
  {| sv_shim_root := b_ "/home/kennel"; sv_binds := [ex_bind (b_ "/usr") false; ex_bind (b_ "/home/u/w") true];
     sv_dev_allow := [b_ "/dev/null"]; sv_tmp_size_mib := 64; sv_proc_hidepid := true; sv_binder := true;
     sv_mask_paths := [b_ "/home/u/w/.trust-manifest"]; sv_mask_dir_paths := [b_ "/home/u/w/.trust-manifest.d"];
     sv_image := None; sv_etc_overlays := [{| eo_source := b_ "/etc/hosts"; eo_view_path := b_ "/etc/hosts" |}] |}.
Definition ex_is_dir (p : cpath) : bool := negb (bool_decide (p = abs (b_ "/dev/null"))).
(** [/lib] leads to [/usr/lib], and nothing else is a link; everything is there but a blob store in an image. *)
Definition ex_follow (p : cpath) : cpath := if bool_decide (p = abs (b_ "/lib")) then abs (b_ "/usr/lib") else p.
Global Instance ex_hostfs : HostFs := {|
  host_exists := fun _ => true; host_is_dir := ex_is_dir; follow := ex_follow; magic := fun _ => false;
  read_link := fun _ => None; fresh_has := fun _ _ => false; merged_has := fun _ r => negb (bool_decide (last r = Some (Normal (b_ ".trust-manifest.d")))) |}.
Definition ex_root : bytes := b_ "/run/k/root".
Definition ex_run_view (view : ShimView) (t0 : table) : result Errno unit * St :=
  build_view_and_pivot (fun _ => None) view ex_root [] (start t0).
Definition ex_run : table -> result Errno unit * St := ex_run_view ex_view.
Definition ex_host : table := [ex_mount (b_ "/") false].

Lemma ex_host_table t :
  Forall (fun e => me_fs e = Host /\ me_rel e = me_target e /\ ~ abs ex_root `prefix_of` me_target e) t ->
  me_target <$> t !! (length t - 1)%nat = Some [RootDir] ->
  host_table t (abs ex_root).
Proof.
  intros H Hl. split; [exact H|]. split.
  - intros d Hd Hn. unfold present.
    destruct (place t d) as [[[f r] ro]|] eqn:E.
    + apply place_inv in E as (e & He & _ & [= -> -> ->]). rewrite Forall_forall in H. destruct (H e He) as [-> _]. reflexivity.
    + apply place_none in E. rewrite Forall_forall in E. destruct (t !! _) as [e|] eqn:El; [|discriminate].
      apply list_elem_of_lookup_2 in El. injection Hl as Hl. apply (E e El). rewrite Hl.
      destruct d as [|c d]; [contradiction|]. apply prefix_cons_inv_1 in Hd as ->. exists d. reflexivity.
  - intros p Hp. cbn. unfold ex_follow. case_bool_decide as E; [|reflexivity]. subst p.
    apply (bool_decide_pack _) in Hp. vm_compute in Hp. contradiction.
Qed.
Lemma ex_host_ok : host_table ex_host (abs ex_root).
Proof.
  apply ex_host_table; [|reflexivity]. constructor; [|constructor]. split; [reflexivity|split; [reflexivity|]].
  apply (bool_decide_unpack (~ _)). vm_compute. exact I.
Qed.

(** A read-only grant whose path is a link shows what the link leads to; a writable one is refused. *)
Definition ex_linked (w : bool) : ShimView :=
  {| sv_shim_root := b_ "/home/kennel"; sv_binds := [ex_bind (b_ "/lib") w]; sv_dev_allow := []; sv_tmp_size_mib := 64;
     sv_proc_hidepid := true; sv_binder := true; sv_mask_paths := []; sv_mask_dir_paths := []; sv_image := None; sv_etc_overlays := [] |}.
Example linked_sources :
  place (st_table (snd (ex_run_view (ex_linked false) ex_host))) (abs (b_ "/lib/x")) = Some (Host, abs (b_ "/usr/lib/x"), true) /\
  fst (ex_run_view (ex_linked true) ex_host) = Err ELOOP.
Proof. vm_compute. split; reflexivity. Qed.

(** A persistent image with a writable grant and its [/usr] locked, where the creation of a blob store is refused. *)
Definition ex_image_view : ShimView :=
  {| sv_shim_root := b_ "/home/kennel"; sv_binds := [ex_bind (b_ "/home/u/w") true]; sv_dev_allow := []; sv_tmp_size_mib := 64;
     sv_proc_hidepid := true; sv_binder := true; sv_mask_paths := [b_ "/home/u/w/.trust-manifest"]; sv_mask_dir_paths := [b_ "/usr/.trust-manifest.d"];
     sv_image := Some {| ir_image := b_ "/store/debian/rootfs"; ir_persistence := Persist;
       ir_store_upper := Some (b_ "/store/debian/upper", b_ "/store/debian/work"); ir_readonly := [b_ "/usr"]; ir_writable := [] |};
     sv_etc_overlays := [] |}.
Lemma ex_image_plain : plain_image ex_image_view ex_root.
Proof.
  intros img [= <-]. split; [repeat constructor|]. split; [repeat constructor|]. intros up work [= <- <-]. split; repeat constructor.
Qed.

Example store_refused : refused (st_table (snd (ex_run_view ex_image_view ex_host))) (abs (b_ "/usr/.trust-manifest.d")).
Proof. eexists _, _. split; vm_compute; reflexivity. Qed.

(** A writable host file system below a read-only grant stays writable in the view: the bind takes it
    along, and the remount is of the top mount only. *)
Example submount_stays_writable :
  place (st_table (snd (ex_run [ex_mount (b_ "/usr/local") false; ex_mount (b_ "/") false]))) (abs (b_ "/usr/local/bin"))
    = Some (Host, abs (b_ "/usr/local/bin"), false) /\
  place (st_table (snd (ex_run [ex_mount (b_ "/usr/local") false; ex_mount (b_ "/") false]))) (abs (b_ "/usr/bin"))
    = Some (Host, abs (b_ "/usr/bin"), true).
Proof. vm_compute. split; reflexivity. Qed.

Lemma view_serves_grants_witness :
  (exists r, place (st_table (snd (ex_run ex_host))) (abs (b_ "/usr/bin")) = Some (Host, r, true) /\ within (grants ex_view) r) /\
  (exists on ls u r, place (st_table (snd (ex_run_view ex_image_view ex_host))) (abs (b_ "/usr/bin")) = Some (Merged on ls u, r, true) /\
     image_tree ex_image_view ex_root on ls u).
Proof.
  split.
  - eexists. split; [vm_compute; reflexivity|].
    apply (view_serves_grants (fun _ => None) ex_host ex_view ex_root [] (snd (ex_run ex_host)) (abs (b_ "/usr/bin")) Host _ true).
    + discriminate.
    + apply ex_host_ok.
    + intros img [=].
    + vm_compute. reflexivity.
    + vm_compute. reflexivity.
  - do 4 eexists. split; [vm_compute; reflexivity|].
    apply (view_serves_grants (fun _ => None) ex_host ex_image_view ex_root [] (snd (ex_run_view ex_image_view ex_host))
             (abs (b_ "/usr/bin")) (Merged _ _ _) (abs (b_ "usr/bin")) true).
    + discriminate.
    + apply ex_host_ok.
    + apply ex_image_plain.
    + vm_compute. reflexivity.
    + vm_compute. reflexivity.
Defined.

Lemma view_writes_witness :
  forall p f q, place (st_table (snd (ex_run ex_host))) p = Some (f, q, false) -> tree_within (write_grants ex_view) ex_view ex_root f q.
Proof.
  refine (proj2 (view_writes (fun _ => None) ex_host ex_view ex_root [] (fst (ex_run ex_host)) (snd (ex_run ex_host)) _ _ _ _ _) _).
  - discriminate.
  - apply ex_host_ok.
  - intros img [=].
  - intros b e [->|[->|Hb]%elem_of_cons]%elem_of_cons ->%list_elem_of_singleton Hw Hs; [vm_compute in Hs; discriminate..|inversion Hb].
  - vm_compute. reflexivity.
  - vm_compute. reflexivity.
Defined.

Lemma masks_on_top_witness :
  masked (st_table (snd (ex_run ex_host))) (abs (b_ "/home/u/w/.trust-manifest")) /\
  view_covered (st_table (snd (ex_run ex_host))) true (abs (b_ "/home/u/w/.trust-manifest.d")).
Proof.
  pose proof (masks_on_top (fun _ => None) ex_host ex_view ex_root [] (snd (ex_run ex_host)) ltac:(discriminate)
    ex_host_ok ltac:(intros img [=]) ltac:(vm_compute; reflexivity)) as [Hm Hd].
  split; [|apply Hd; left].
  destruct (Hm (b_ "/home/u/w/.trust-manifest") ltac:(left) (map (fun n => Normal (b_ n)) ["home"; "u"; "w"]%string)
    (Normal (b_ ".trust-manifest")) Host (abs (b_ "/home/u/w")) false) as [H|[H _]].
  - reflexivity.
  - apply (bool_decide_unpack (~ _)). vm_compute. exact I.
  - vm_compute. reflexivity.
  - reflexivity.
  - exact H.
  - discriminate H.
Defined.
