(* ===== verification/Landlock.v ===== *)
(** The Landlock bindings ([kennel-lib-landlock/src/lib.rs]) and the shared builder of a ruleset
    ([build_ruleset] of [kennel-lib-spawn/src/lib.rs]).

    A ruleset handles what the ABI of the running kernel defines; a rule is masked to that, and a rule
    over something other than a directory to the rights of files; a rule left empty is not installed.
    The kernel is a parameter: its ABI (none when Landlock is missing or off), and the answer of an
    [O_PATH] open with the type of what it opens.  What [landlock_add_rule] accepts is
    [landlock(7)]'s: a right or more, each handled by the ruleset, and only rights of files on a file.

    Theorems: the layer that a plan's rules become, exactly ([layer_exact]); no rule of it is one the
    kernel refuses ([rules_accepted]); the rights on files are those of the rules of paths that are there
    ([file_rights_kept]); what older kernels do not restrict ([abi_floor]). *)

From S2P Require Import Prelude Bytes Str Paths Plan PlanBuild.
Open Scope Z_scope.

(** * The rights of an ABI *)

Definition FS_MAKE_CHAR : Z := 64.
Definition FS_MAKE_BLOCK : Z := 2048.
Definition SCOPE_ABSTRACT_UNIX_SOCKET : Z := 1.
Definition SCOPE_SIGNAL : Z := 2.

Definition supported_fs (abi : Z) : Z :=
  let fs := flags [FS_EXECUTE; FS_WRITE_FILE; FS_READ_FILE; FS_READ_DIR; FS_REMOVE_DIR; FS_REMOVE_FILE; FS_MAKE_CHAR;
                   FS_MAKE_DIR; FS_MAKE_REG; FS_MAKE_SOCK; FS_MAKE_FIFO; FS_MAKE_BLOCK; FS_MAKE_SYM] in
  let fs := if 2 <=? abi then Z.lor fs FS_REFER else fs in
  let fs := if 3 <=? abi then Z.lor fs FS_TRUNCATE else fs in
  if 5 <=? abi then Z.lor fs FS_IOCTL_DEV else fs.
Definition supported_net (abi : Z) : Z := if 4 <=? abi then Z.lor NET_BIND_TCP NET_CONNECT_TCP else 0.
Definition supported_scope (abi : Z) : Z := if 6 <=? abi then Z.lor SCOPE_ABSTRACT_UNIX_SOCKET SCOPE_SIGNAL else 0.
(** The mask of [allow_path] for what is not a directory. *)
Definition FILE_RIGHTS : Z := flags [FS_EXECUTE; FS_WRITE_FILE; FS_READ_FILE; FS_TRUNCATE; FS_IOCTL_DEV].

(** * The ruleset under construction *)

(** A rule over an open path: what was opened, whether it is a directory, and the rights. *)
Record PathRule : Type := { pr_path : bytes; pr_dir : bool; pr_access : Z }.
Record Ruleset : Type := {
  lr_fs : Z; lr_net : Z; lr_scope : Z; lr_path_rules : list PathRule; lr_net_rules : list (Z * Z) }.

Inductive OpenAnswer : Type := Opened (dir : bool) | Missing | OpenRefused.
Record LandlockHost : Type := { lh_abi : option Z; lh_open : bytes -> OpenAnswer }.

Section ruleset.
Context (h : LandlockHost).

Definition ruleset_new : option Ruleset :=
  abi ← lh_abi h;
  Some {| lr_fs := supported_fs abi; lr_net := supported_net abi; lr_scope := supported_scope abi;
          lr_path_rules := []; lr_net_rules := [] |}.
(** The two errors are told apart: a path that is not there, and any other. *)
Inductive Allowed : Type := Added (r : Ruleset) | NotFound | OtherError.
Definition allow_path (path : bytes) (access : Z) (r : Ruleset) : Allowed :=
  match lh_open h path with
  | Missing => NotFound
  | OpenRefused => OtherError
  | Opened dir =>
      let access := Z.land access (lr_fs r) in
      let access := if dir then access else Z.land access FILE_RIGHTS in
      Added {| lr_fs := lr_fs r; lr_net := lr_net r; lr_scope := lr_scope r;
               lr_path_rules := lr_path_rules r ++ [{| pr_path := path; pr_dir := dir; pr_access := access |}];
               lr_net_rules := lr_net_rules r |}
  end.
Definition allow_port (port access : Z) (r : Ruleset) : Ruleset :=
  {| lr_fs := lr_fs r; lr_net := lr_net r; lr_scope := lr_scope r; lr_path_rules := lr_path_rules r;
     lr_net_rules := lr_net_rules r ++ [(port, Z.land access (lr_net r))] |}.

(** ** [build_ruleset] *)

Fixpoint allow_paths (skip_missing : bool) (fs : list (bytes * Z)) (r : Ruleset) : option Ruleset :=
  match fs with
  | [] => Some r
  | (path, access) :: fs =>
      match allow_path path access r with
      | Added r => allow_paths skip_missing fs r
      | NotFound => if skip_missing then allow_paths skip_missing fs r else None
      | OtherError => None
      end
  end.
Definition build_ruleset (fs : list (bytes * Z)) (net : list (Z * Z)) (skip_missing : bool) : option Ruleset :=
  r ← ruleset_new;
  r ← allow_paths skip_missing fs r;
  Some (fold_left (fun r pa => allow_port pa.1 pa.2 r) net r).
End ruleset.

(** * The layer in the kernel *)

(** What [build_fd] creates and fills, and [restrict_self] puts on the process. *)
Record Layer : Type := { ly_fs : Z; ly_net : Z; ly_scope : Z; ly_paths : list PathRule; ly_ports : list (Z * Z) }.
Definition is_empty_access (a : Z) : bool := a =? 0.
(** [landlock_add_rule]. *)
Definition kernel_accepts_path (handled : Z) (r : PathRule) : bool :=
  negb (is_empty_access (pr_access r)) && (Z.land (pr_access r) handled =? pr_access r) &&
  (pr_dir r || (Z.land (pr_access r) FILE_RIGHTS =? pr_access r)).
Definition kernel_accepts_port (handled : Z) (pa : Z * Z) : bool :=
  negb (is_empty_access pa.2) && (Z.land pa.2 handled =? pa.2).
(** The rules [build_fd] installs. *)
Definition installed_paths (r : Ruleset) : list PathRule :=
  List.filter (fun x => negb (is_empty_access (pr_access x))) (lr_path_rules r).
Definition installed_ports (r : Ruleset) : list (Z * Z) :=
  List.filter (fun pa => negb (is_empty_access pa.2)) (lr_net_rules r).
Definition layer_of (r : Ruleset) : Layer :=
  {| ly_fs := lr_fs r; ly_net := lr_net r; ly_scope := lr_scope r; ly_paths := installed_paths r;
     ly_ports := installed_ports r |}.

(** * Lemmas *)

Definition mask (abi : Z) (dir : bool) (access : Z) : Z :=
  let a := Z.land access (supported_fs abi) in if dir then a else Z.land a FILE_RIGHTS.
(** The rules of the paths that are there, in order; [None] if one is refused. *)
Fixpoint opened_rules (h : LandlockHost) (abi : Z) (fs : list (bytes * Z)) : option (list PathRule) :=
  match fs with
  | [] => Some []
  | (path, access) :: fs =>
      match lh_open h path with
      | Opened dir => rest ← opened_rules h abi fs;
                      Some ({| pr_path := path; pr_dir := dir; pr_access := mask abi dir access |} :: rest)
      | Missing => opened_rules h abi fs
      | OpenRefused => None
      end
  end.

Lemma allow_paths_opened h abi fs r :
  lr_fs r = supported_fs abi ->
  allow_paths h true fs r = option_map (fun rules => {|
    lr_fs := lr_fs r; lr_net := lr_net r; lr_scope := lr_scope r; lr_path_rules := lr_path_rules r ++ rules;
    lr_net_rules := lr_net_rules r |}) (opened_rules h abi fs).
Proof.
  revert r. induction fs as [|[path access] fs IH]; intros r Hr; cbn [allow_paths opened_rules].
  - cbn. rewrite app_nil_r. by destruct r.
  - unfold allow_path. destruct (lh_open h path) as [dir| |]; [|by apply IH|done].
    rewrite IH by exact Hr. destruct (opened_rules h abi fs) as [rest|]; [|done]. cbn. rewrite <- app_assoc, Hr. done.
Qed.
Lemma allow_ports_all net r :
  fold_left (fun r pa => allow_port pa.1 pa.2 r) net r =
  {| lr_fs := lr_fs r; lr_net := lr_net r; lr_scope := lr_scope r; lr_path_rules := lr_path_rules r;
     lr_net_rules := lr_net_rules r ++ map (fun pa => (pa.1, Z.land pa.2 (lr_net r))) net |}.
Proof.
  revert r. induction net as [|[port a] net IH]; intros r; cbn [fold_left map]; [rewrite app_nil_r; by destruct r|].
  rewrite IH. unfold allow_port. cbn [lr_fs lr_net lr_scope lr_path_rules lr_net_rules fst snd]. by rewrite <- app_assoc.
Qed.
Lemma build_ruleset_Some h fs net r :
  build_ruleset h fs net true = Some r <->
  exists abi rules, lh_abi h = Some abi /\ opened_rules h abi fs = Some rules /\
    r = {| lr_fs := supported_fs abi; lr_net := supported_net abi; lr_scope := supported_scope abi;
           lr_path_rules := rules; lr_net_rules := map (fun pa => (pa.1, Z.land pa.2 (supported_net abi))) net |}.
Proof.
  unfold build_ruleset, ruleset_new. destruct (lh_abi h) as [abi|]; cbn [mbind option_bind]; [|split; [done|by intros (? & ? & ? & _)]].
  rewrite (allow_paths_opened h abi) by done. destruct (opened_rules h abi fs) as [rules|] eqn:Ho; cbn [option_map mbind option_bind].
  2: { split; [done|]. intros (abi' & rules & [= <-] & Hr & _). congruence. }
  rewrite allow_ports_all. cbn [lr_fs lr_net lr_scope lr_path_rules lr_net_rules app]. split.
  - intros [= <-]. by exists abi, rules.
  - intros (abi' & rules' & [= <-] & Hr & ->). rewrite Ho in Hr. by injection Hr as <-.
Qed.

Lemma opened_rules_elem h abi fs rules r :
  opened_rules h abi fs = Some rules ->
  r ∈ rules <-> exists access, (pr_path r, access) ∈ fs /\ lh_open h (pr_path r) = Opened (pr_dir r) /\
    pr_access r = mask abi (pr_dir r) access.
Proof.
  revert rules. induction fs as [|[path access] fs IH]; intros rules; cbn [opened_rules].
  - intros [= <-]. set_solver.
  - destruct (lh_open h path) as [dir| |] eqn:Eo; [|intros H; rewrite (IH _ H)|done].
    + destruct (opened_rules h abi fs) as [rest|]; [|done]. cbn. intros [= <-]. rewrite elem_of_cons, (IH rest eq_refl). split.
      * intros [->|(a & Hin & Ho & Ha)]; [exists access; cbn; split_and!; [by left|done..]|]. exists a. split_and!; [by right|done..].
      * intros (a & [[= Hp ->]|Hin]%elem_of_cons & Ho & Ha); [left|right; by exists a]. destruct r as [p d x]. cbn in *. subst p.
        rewrite Eo in Ho. injection Ho as <-. by subst x.
    + split; [intros (a & ? & ?); exists a; set_solver|]. intros (a & [[= Hp ->]|Hin]%elem_of_cons & Ho & Ha); [|by exists a].
      rewrite Hp, Eo in Ho. done.
Qed.
Lemma opened_rules_None h abi fs : opened_rules h abi fs = None <-> exists path access, (path, access) ∈ fs /\ lh_open h path = OpenRefused.
Proof.
  induction fs as [|[path access] fs IH]; cbn [opened_rules]; [set_solver|].
  assert (Hc : (exists p a, (p, a) ∈ (path, access) :: fs /\ lh_open h p = OpenRefused) <->
               lh_open h path = OpenRefused \/ exists p a, (p, a) ∈ fs /\ lh_open h p = OpenRefused).
  { split; [intros (p & a & [[= -> ->]|?]%elem_of_cons & ?); eauto|].
    intros [?|(p & a & ? & ?)]; [exists path, access|exists p, a]; (split; [set_solver|done]). }
  rewrite Hc. destruct (lh_open h path) as [dir| |]; [|naive_solver..].
  destruct (opened_rules h abi fs); cbn; naive_solver.
Qed.
Lemma mask_testbit abi dir a k :
  Z.testbit (mask abi dir a) k =
  Z.testbit a k && Z.testbit (supported_fs abi) k && (dir || Z.testbit FILE_RIGHTS k).
Proof.
  unfold mask. destruct dir; cbn [orb]; rewrite ?Z.land_spec; [by rewrite andb_true_r|done].
Qed.
Lemma land_twice a m : Z.land (Z.land a m) m = Z.land a m.
Proof. by rewrite <- Z.land_assoc, Z.land_diag. Qed.

(** * Claims *)

(** The layer that the rules of a plan become, under [skip_missing]: it handles exactly what the kernel's
    ABI defines; a rule is in it exactly when it is one of a path that is there, masked to the ABI and, for
    what is not a directory, to the rights of files, and a right is left of it; a port exactly when its
    right is one the ABI has.  It is built unless Landlock is missing or a path is refused. *)
Theorem layer_exact h fs net :
  (forall r, build_ruleset h fs net true = Some r ->
   exists abi, lh_abi h = Some abi /\
    ly_fs (layer_of r) = supported_fs abi /\ ly_net (layer_of r) = supported_net abi /\
    ly_scope (layer_of r) = supported_scope abi /\
    (forall x, x ∈ ly_paths (layer_of r) <-> pr_access x <> 0 /\ lh_open h (pr_path x) = Opened (pr_dir x) /\
       exists access, (pr_path x, access) ∈ fs /\ pr_access x = mask abi (pr_dir x) access) /\
    (forall port a, (port, a) ∈ ly_ports (layer_of r) <-> a <> 0 /\
       exists access, (port, access) ∈ net /\ a = Z.land access (supported_net abi))) /\
  (build_ruleset h fs net true = None <->
   lh_abi h = None \/ exists path access, (path, access) ∈ fs /\ lh_open h path = OpenRefused).
Proof.
  split.
  - intros r (abi & rules & Ha & Ho & ->)%build_ruleset_Some. exists abi. split_and!; [done..| |].
    + intros x. cbn [layer_of ly_paths]. unfold installed_paths. cbn [lr_path_rules]. rewrite list_elem_of_In, filter_In, <- list_elem_of_In.
      rewrite (opened_rules_elem _ _ _ _ x Ho). unfold is_empty_access. rewrite negb_true_iff, Z.eqb_neq. naive_solver.
    + intros port a. cbn [layer_of ly_ports]. unfold installed_ports. cbn [lr_net_rules]. rewrite list_elem_of_In, filter_In, in_map_iff.
      unfold is_empty_access. cbn [snd]. rewrite negb_true_iff, Z.eqb_neq. split.
      * intros [([p x] & [= <- <-] & Hin) Hn]. split; [done|]. exists x. by rewrite list_elem_of_In.
      * intros (Hn & x & Hin & ->). split; [|done]. exists (port, x). by rewrite <- list_elem_of_In.
  - destruct (build_ruleset h fs net true) as [r|] eqn:E.
    + split; [done|]. apply build_ruleset_Some in E as (abi & rules & Ha & Ho & _).
      intros [?|Hr]; [congruence|]. apply (opened_rules_None h abi) in Hr. congruence.
    + split; [intros _|done]. destruct (lh_abi h) as [abi|] eqn:Ha; [|by left]. right. apply (opened_rules_None h abi).
      destruct (opened_rules h abi fs) as [rules|] eqn:Ho; [|done].
      rewrite (proj2 (build_ruleset_Some h fs net _) (ex_intro _ abi (ex_intro _ rules (conj Ha (conj Ho eq_refl))))) in E. done.
Qed.

(** The kernel refuses no rule that is installed: the masks leave only rights that the ruleset handles
    and, on a file, only rights of files, and the empty ones are left out. *)
Theorem rules_accepted h fs net r :
  build_ruleset h fs net true = Some r ->
  forallb (kernel_accepts_path (lr_fs r)) (installed_paths r) = true /\
  forallb (kernel_accepts_port (lr_net r)) (installed_ports r) = true.
Proof.
  intros (abi & rules & Ha & Ho & ->)%build_ruleset_Some. cbn [lr_fs lr_net]. split; apply forallb_forall.
  - intros x. unfold installed_paths. cbn [lr_path_rules]. rewrite filter_In. intros [Hin Hn]. unfold kernel_accepts_path. rewrite Hn. cbn [andb].
    apply list_elem_of_In, (opened_rules_elem _ _ _ _ x Ho) in Hin as (a & _ & _ & ->). unfold mask. cbv zeta.
    destruct (pr_dir x); cbn [orb].
    + by rewrite land_twice, Z.eqb_refl.
    + rewrite land_twice, Z.eqb_refl, andb_true_r. apply Z.eqb_eq.
      by rewrite <- (Z.land_assoc _ FILE_RIGHTS), (Z.land_comm FILE_RIGHTS), Z.land_assoc, land_twice.
  - intros [port a]. unfold installed_ports. cbn [lr_net_rules]. rewrite filter_In, in_map_iff. intros [([p x] & [= <- <-] & _) Hn].
    unfold kernel_accepts_port. cbn [snd fst] in *. by rewrite Hn, land_twice, Z.eqb_refl.
Qed.

(** The rights to execute, to write and to read a file survive every mask: a path has one of them under the
    layer exactly when a rule of the plan whose path is there gives it at the path or above. *)
Theorem file_rights_kept h fs net r path k :
  build_ruleset h fs net true = Some r -> 0 <= k <= 2 ->
  Z.testbit (rights (map (fun x => (pr_path x, pr_access x)) (ly_paths (layer_of r))) path) k =
  Z.testbit (rights (List.filter (fun e => match lh_open h e.1 with Opened _ => true | _ => false end) fs) path) k.
Proof.
  intros H Hk. destruct (proj1 (layer_exact h fs net) r H) as (abi & _ & _ & _ & _ & Hp & _).
  assert (Hbit : forall dir a, Z.testbit (mask abi dir a) k = Z.testbit a k).
  { intros dir a. rewrite mask_testbit. assert (k = 0 \/ k = 1 \/ k = 2) as [->|[->| ->]] by lia;
      unfold supported_fs; destruct (2 <=? abi), (3 <=? abi), (5 <=? abi), dir; by rewrite !andb_true_r. }
  apply eq_true_iff_eq. rewrite !rights_testbit, !existsb_exists. unfold grants_bit. split.
  - intros ([q b] & (x & [= <- <-] & Hx%list_elem_of_In)%in_map_iff & [Hs Hb]%andb_true_iff). apply Hp in Hx as (_ & Ho & a & Hin & Ea).
    cbn [fst snd] in *. rewrite Ea, Hbit in Hb. exists (pr_path x, a). split; [|cbn [fst snd]; by rewrite Hs, Hb].
    apply filter_In. split; [by apply list_elem_of_In|]. cbn [fst]. by rewrite Ho.
  - intros ([q a] & [Hin Ho]%filter_In & [Hs Hb]%andb_true_iff). cbn [fst snd] in *. destruct (lh_open h q) as [dir| |] eqn:Eo; try done.
    exists (q, mask abi dir a). split; [|cbn [fst snd]; by rewrite Hs, Hbit, Hb].
    apply in_map_iff. exists {| pr_path := q; pr_dir := dir; pr_access := mask abi dir a |}. split; [done|].
    apply list_elem_of_In, Hp. cbn [pr_path pr_dir pr_access]. split_and!; [|done|exists a; split; [by apply list_elem_of_In|done]].
    intros E. rewrite <- (Hbit dir), E, Z.testbit_0_l in Hb. done.
Qed.

(** Below ABI 4 a layer restricts no TCP port, whatever the plan says of ports, and below ABI 6 it scopes
    neither abstract sockets nor signals. *)
Theorem abi_floor h fs net r abi :
  build_ruleset h fs net true = Some r -> lh_abi h = Some abi ->
  (abi < 4 -> ly_net (layer_of r) = 0 /\ ly_ports (layer_of r) = []) /\ (abi < 6 -> ly_scope (layer_of r) = 0).
Proof.
  intros (abi' & rules & Ha & Ho & ->)%build_ruleset_Some Ha'. rewrite Ha in Ha'. injection Ha' as ->.
  unfold layer_of, installed_ports, supported_net, supported_scope. cbn [ly_net ly_scope ly_ports lr_net lr_scope lr_net_rules]. split.
  - intros Hl. rewrite (proj2 (Z.leb_gt 4 abi)) by lia. split; [done|]. induction net as [|pa net IH]; [done|].
    cbn [map List.filter snd]. by rewrite Z.land_0_r.
  - intros Hl. by rewrite (proj2 (Z.leb_gt 6 abi)) by lia.
Qed.

(** * Examples *)

Definition ex_kernel : LandlockHost := {|
  lh_abi := Some 5;
  lh_open p := if bool_decide (p = ascii_bytes "/usr") then Opened true
               else if bool_decide (p = ascii_bytes "/etc/hosts") then Opened false else Missing |}.
(** A file keeps the right to read of a read grant and not the one to list; a missing path has no rule. *)
Example file_rule_masked :
  option_map (fun r => ly_paths (layer_of r))
    (build_ruleset ex_kernel [(ascii_bytes "/usr", 13); (ascii_bytes "/etc/hosts", 12); (ascii_bytes "/opt", 12)] [(443, 2)] true) =
  Some [{| pr_path := ascii_bytes "/usr"; pr_dir := true; pr_access := 13 |};
        {| pr_path := ascii_bytes "/etc/hosts"; pr_dir := false; pr_access := 4 |}].
Proof. vm_compute. reflexivity. Qed.
