(* ===== verification/Construct.v ===== *)
(** The factory's privilege sequence ([kennel-privhelper/src/construct.rs]).

    [construct] is two processes: the helper, which resolves and checks the init binary, clones the
    construction child, raises itself to root to write the child's identity maps, acknowledges, and
    drops to the operator; and the child, which waits for the acknowledgement, becomes the kennel's
    uid 0, builds the kennel and executes the init.  Each is a step function on a shared state
    ([parent_step], [child_step]); [step] interleaves them.  They meet at two pipes, of which each
    process holds its own copies of the ends: a read waits while a write end is open anywhere.  A step
    takes an input that decides whether the system call succeeds.  The credentials follow
    setresuid(2), seteuid(2), setresgid(2) and the capability rules of capabilities(7), the factory's
    capability set taken as one unit.
    [build_kennel] runs in the machine of [View]; the home walk is over a tree of what is below the
    shim root.  Tracing is left out; a sub-helper whose call fails is logged as run, which it may not
    have been.

    Theorems: the child acts only after its maps, and the init runs only when whole
    ([init_runs_whole]); which identity each privileged act has ([factory_identities]); the two
    processes never wait for each other for ever and always end ([factory_ends]); the home walk gives away exactly the inodes on the home's device
    ([home_chown_exact]); what the running kennel sees of the host ([kennel_view_granted]). *)

From S2P Require Import Prelude Bytes Str Paths Plan PlanWire PrivAddr Factory View.
Open Scope Z_scope.
Local Open Scope view_scope.

(** * Credentials *)

Record Creds : Type := {
  c_ruid : Z; c_euid : Z; c_suid : Z; c_rgid : Z; c_egid : Z; c_sgid : Z;
  c_permitted : bool; c_effective : bool;
}.
Definition with_uids (r e s : Z) (c : Creds) : Creds :=
  let cleared := ((c_ruid c =? 0) || (c_euid c =? 0) || (c_suid c =? 0)) &&
                 negb ((r =? 0) || (e =? 0) || (s =? 0)) in
  let permitted := c_permitted c && negb cleared in
  let effective :=
    if cleared then false
    else if (c_euid c =? 0) && negb (e =? 0) then false
    else if negb (c_euid c =? 0) && (e =? 0) then permitted
    else c_effective c in
  {| c_ruid := r; c_euid := e; c_suid := s; c_rgid := c_rgid c; c_egid := c_egid c; c_sgid := c_sgid c;
     c_permitted := permitted; c_effective := effective |}.
Definition set_euid (u : Z) (c : Creds) : option Creds :=
  if c_effective c || (u =? c_ruid c) || (u =? c_euid c) || (u =? c_suid c)
  then Some (with_uids (c_ruid c) u (c_suid c) c) else None.
Definition set_uid (u : Z) (c : Creds) : option Creds :=
  if c_effective c || (u =? c_ruid c) || (u =? c_euid c) || (u =? c_suid c) then Some (with_uids u u u c) else None.
Definition with_gids (r e s : Z) (c : Creds) : Creds :=
  {| c_ruid := c_ruid c; c_euid := c_euid c; c_suid := c_suid c; c_rgid := r; c_egid := e; c_sgid := s;
     c_permitted := c_permitted c; c_effective := c_effective c |}.
Definition set_gid (g : Z) (c : Creds) : option Creds :=
  if c_effective c || (g =? c_rgid c) || (g =? c_egid c) || (g =? c_sgid c) then Some (with_gids g g g c) else None.

(** * The init binary *)

Record InitMeta : Type := { im_file : bool; im_uid : Z; im_mode : Z }.
Definition verify_trusted_init (m : InitMeta) : bool :=
  im_file m && (im_uid m =? 0) && (Z.land (im_mode m) 18 =? 0).

(** * [build_kennel] *)

Inductive NodeKind : Type := KLink | KDir | KFile.
Global Instance NodeKind_eq_dec : EqDecision NodeKind.
Proof. solve_decision. Defined.
(** What [symlink_metadata] and [read_dir] find; an unreadable directory has no entries. *)
Inductive tree : Type := Node (dev uid : Z) (kind : NodeKind) (entries : list (bytes * tree)).
Definition n_dev (t : tree) : Z := match t with Node d _ _ _ => d end.
Definition n_uid (t : tree) : Z := match t with Node _ u _ _ => u end.
Definition n_kind (t : tree) : NodeKind := match t with Node _ _ k _ => k end.
Definition n_entries (t : tree) : list (bytes * tree) := match t with Node _ _ _ es => es end.
Fixpoint tree_size (t : tree) : nat :=
  match t with Node _ _ _ es => S (fold_right (fun e n => (tree_size e.2 + n)%nat) O es) end.

Inductive NetEvent : Type :=
  | LinkUp (name : bytes) | AddAddress (name : bytes) (addr : ip_addr) (prefix : Z)
  | SetHostname (name : bytes) | SetMtu (name : bytes) (mtu : Z).
Definition TUN_MTU : Z := 1280.
Definition LOOPBACK : bytes := ascii_bytes "lo".
(** The name the kernel gives the interface is in the answer of [tun::create]. *)
Definition TUN : bytes := ascii_bytes "tun".

Section kennel.
Context {hostfs : HostFs} (home_of : St -> bytes -> option tree).
Section build.
Context (io : nat -> option Z).

Definition chown_to : M unit := syscall io.
Definition skipped (home_dev : Z) (t : tree) : bool :=
  bool_decide (n_kind t = KLink) || negb (n_dev t =? home_dev).
Abbreviation place_in_home := (list bytes) (only parsing).
Fixpoint walk_entries (home_dev : Z) (dir : place_in_home) (es : list (bytes * tree))
    (stack : list (place_in_home * tree)) (done : list place_in_home) : M (list (place_in_home * tree) * list place_in_home) :=
  match es with
  | [] => mret (stack, done)
  | (name, t) :: es =>
      if skipped home_dev t then walk_entries home_dev dir es stack done
      else _ ← chown_to;
           walk_entries home_dev dir es
             (if bool_decide (n_kind t = KDir) then (dir ++ [name], t) :: stack else stack) (done ++ [dir ++ [name]])
  end.
Fixpoint walk (fuel : nat) (home_dev : Z) (stack : list (place_in_home * tree)) (done : list place_in_home) : M (list place_in_home) :=
  match fuel, stack with
  | S fuel, (dir, t) :: stack => r ← walk_entries home_dev dir (n_entries t) stack done; walk fuel home_dev r.1 r.2
  | _, _ => mret done
  end.
(** The places below the shim root that change owner, the root itself being []. *)
Definition chown_constructed_home (home : option tree) (uid : Z) : M (list place_in_home) :=
  match home with
  | None => mret []
  | Some t =>
      if bool_decide (n_kind t = KLink) || (n_uid t =? uid) then mret []
      else _ ← chown_to; walk (tree_size t) (n_dev t) [([], t)] [[]]
  end.

Definition net_event (e : NetEvent) : M (list NetEvent) := _ ← syscall io; mret [e].
Fixpoint net_events (es : list NetEvent) : M (list NetEvent) :=
  match es with [] => mret [] | e :: es => a ← net_event e; b ← net_events es; mret (a ++ b) end.
Definition build_kennel (half : ConstructionHalf) (op_uid op_gid : Z) : M (list NetEvent * list place_in_home * bool) :=
  lo ← (if ch_lo half
        then _ ← syscall io;
             net_events (LinkUp LOOPBACK :: map (fun lb => AddAddress LOOPBACK (lb_addr lb) (lb_prefix lb)) (ch_loopback half))
        else mret []);
  host ← match ch_hostname half with Some h => net_event (SetHostname h) | None => mret [] end;
  tun ← (if ch_tun half
         then _ ← syscall io; _ ← syscall io;
              net_events [SetMtu TUN TUN_MTU; LinkUp TUN; AddAddress TUN (V6 (tun_addr op_uid (ch_ctx half))) V6_PREFIX]
         else mret []);
  _ ← syscall io;
  owned ← match ch_view half, ch_new_root half with
          | Some view, Some new_root =>
              _ ← build_view_and_pivot io view new_root (ch_file_binds half);
              owned ← (fun s => chown_constructed_home (home_of s (sv_shim_root view)) op_uid s);
              _ ← chown_to;
              _ ← (if sv_binder view then chown_to else mret tt);
              mret owned
          | _, _ =>
              _ ← mount io Procfs (abs (ascii_bytes "/proc")); _ ← mount io Tmpfs (abs (ascii_bytes "/tmp")); mret []
          end;
  mret (lo ++ host ++ tun, owned, ch_tun half).
End build.

(** * The two processes *)

Inductive ppc : Type :=
  | Cloexec | Receive | Loopback (todo : list LoopbackAddr) | Egress | Binderfs_ | OpenInit | VerifyInit
  | Pipes | OpenCgroup | DropEuid | Clone | Restore | SetGid0 | SetUid0 | UidMap | GidMap | Ack
  | DropGid | DropUid | AwaitBuilt | OverMount (todo : list bytes) | Report | Exited (code : Z).
Inductive cpc : Type :=
  | Unborn | Born | AwaitAck | CSetGid | CSetUid | Build | Signal | PlaceFds | Exec | Running | Dead.
Global Instance cpc_eq_dec : EqDecision cpc.
Proof. solve_decision. Defined.

Inductive Act : Type :=
  | NetHelper (ctx : Z) (addr : LoopbackAddr) | MountBpffs (target : bytes) | BpfHelper (cgroup payload : bytes)
  | CloneChild | WroteMaps (uid_map gid_map : bytes) | SentAck | MountsHelper (source : bytes) | Reported
  | ByChild (c : cpc).

(** The ends of the two pipes.  Each process has its own copies: [clone] copies the helper's, the closure of
    the child is dropped in the helper with what it captured ([ready_r], [built_w]), an exit closes all of a
    process, and both pipes are close-on-exec.  A read of a pipe without data returns the end of file once
    no process holds its write end, and waits until then. *)
Inductive pend : Type := ReadyR | ReadyW | BuiltR | BuiltW.
Global Instance pend_eq_dec : EqDecision pend.
Proof. solve_decision. Defined.
Definition close (e : pend) (l : list pend) : list pend := List.filter (fun x => negb (bool_decide (x = e))) l.

Context {F : Type} (data : bytes) (fds : list F) (op_uid op_gid : Z) (t0 : table).

Record Sys : Type := {
  s_pp : ppc; s_cc : cpc; s_creds : Creds; s_rx : option (Received F); s_init : option InitMeta;
  s_owner : option Z; s_uid_map : option bytes; s_gid_map : option bytes; s_acked : bool; s_built : bool;
  s_kennel : option ((list NetEvent * list (list bytes) * bool) * St); s_log : list (Act * Creds);
  s_pfds : list pend; s_cfds : list pend;
}.
Record inp : Type := {
  in_ok : bool; in_meta : InitMeta; in_io : nat -> option Z; in_pin_dir : bool; in_is_bpffs : bool }.

Definition goto (p : ppc) (s : Sys) : Sys :=
  {| s_pp := p; s_cc := s_cc s; s_creds := s_creds s; s_rx := s_rx s; s_init := s_init s; s_owner := s_owner s;
     s_uid_map := s_uid_map s; s_gid_map := s_gid_map s; s_acked := s_acked s; s_built := s_built s;
     s_kennel := s_kennel s; s_log := s_log s; s_pfds := s_pfds s; s_cfds := s_cfds s |}.
Definition cgoto (c : cpc) (s : Sys) : Sys :=
  {| s_pp := s_pp s; s_cc := c; s_creds := s_creds s; s_rx := s_rx s; s_init := s_init s; s_owner := s_owner s;
     s_uid_map := s_uid_map s; s_gid_map := s_gid_map s; s_acked := s_acked s; s_built := s_built s;
     s_kennel := s_kennel s; s_log := s_log s; s_pfds := s_pfds s; s_cfds := s_cfds s |}.
Definition with_creds (c : Creds) (s : Sys) : Sys :=
  {| s_pp := s_pp s; s_cc := s_cc s; s_creds := c; s_rx := s_rx s; s_init := s_init s; s_owner := s_owner s;
     s_uid_map := s_uid_map s; s_gid_map := s_gid_map s; s_acked := s_acked s; s_built := s_built s;
     s_kennel := s_kennel s; s_log := s_log s; s_pfds := s_pfds s; s_cfds := s_cfds s |}.
Definition act (a : Act) (s : Sys) : Sys :=
  {| s_pp := s_pp s; s_cc := s_cc s; s_creds := s_creds s; s_rx := s_rx s; s_init := s_init s; s_owner := s_owner s;
     s_uid_map := s_uid_map s; s_gid_map := s_gid_map s; s_acked := s_acked s; s_built := s_built s;
     s_kennel := s_kennel s; s_log := s_log s ++ [(a, s_creds s)]; s_pfds := s_pfds s; s_cfds := s_cfds s |}.
Definition with_rx (r : Received F) (s : Sys) : Sys :=
  {| s_pp := s_pp s; s_cc := s_cc s; s_creds := s_creds s; s_rx := Some r; s_init := s_init s; s_owner := s_owner s;
     s_uid_map := s_uid_map s; s_gid_map := s_gid_map s; s_acked := s_acked s; s_built := s_built s;
     s_kennel := s_kennel s; s_log := s_log s; s_pfds := s_pfds s; s_cfds := s_cfds s |}.
Definition with_init (m : InitMeta) (s : Sys) : Sys :=
  {| s_pp := s_pp s; s_cc := s_cc s; s_creds := s_creds s; s_rx := s_rx s; s_init := Some m; s_owner := s_owner s;
     s_uid_map := s_uid_map s; s_gid_map := s_gid_map s; s_acked := s_acked s; s_built := s_built s;
     s_kennel := s_kennel s; s_log := s_log s; s_pfds := s_pfds s; s_cfds := s_cfds s |}.
Definition with_owner (o : Z) (s : Sys) : Sys :=
  {| s_pp := s_pp s; s_cc := s_cc s; s_creds := s_creds s; s_rx := s_rx s; s_init := s_init s; s_owner := Some o;
     s_uid_map := s_uid_map s; s_gid_map := s_gid_map s; s_acked := s_acked s; s_built := s_built s;
     s_kennel := s_kennel s; s_log := s_log s; s_pfds := s_pfds s; s_cfds := s_cfds s |}.
Definition with_maps (u g : option bytes) (s : Sys) : Sys :=
  {| s_pp := s_pp s; s_cc := s_cc s; s_creds := s_creds s; s_rx := s_rx s; s_init := s_init s; s_owner := s_owner s;
     s_uid_map := u; s_gid_map := g; s_acked := s_acked s; s_built := s_built s;
     s_kennel := s_kennel s; s_log := s_log s; s_pfds := s_pfds s; s_cfds := s_cfds s |}.
Definition with_acked (s : Sys) : Sys :=
  {| s_pp := s_pp s; s_cc := s_cc s; s_creds := s_creds s; s_rx := s_rx s; s_init := s_init s; s_owner := s_owner s;
     s_uid_map := s_uid_map s; s_gid_map := s_gid_map s; s_acked := true; s_built := s_built s;
     s_kennel := s_kennel s; s_log := s_log s; s_pfds := s_pfds s; s_cfds := s_cfds s |}.
Definition with_built (b : bool) (s : Sys) : Sys :=
  {| s_pp := s_pp s; s_cc := s_cc s; s_creds := s_creds s; s_rx := s_rx s; s_init := s_init s; s_owner := s_owner s;
     s_uid_map := s_uid_map s; s_gid_map := s_gid_map s; s_acked := s_acked s; s_built := b;
     s_kennel := s_kennel s; s_log := s_log s; s_pfds := s_pfds s; s_cfds := s_cfds s |}.
Definition with_kennel (k : (list NetEvent * list (list bytes) * bool) * St) (s : Sys) : Sys :=
  {| s_pp := s_pp s; s_cc := s_cc s; s_creds := s_creds s; s_rx := s_rx s; s_init := s_init s; s_owner := s_owner s;
     s_uid_map := s_uid_map s; s_gid_map := s_gid_map s; s_acked := s_acked s; s_built := s_built s;
     s_kennel := Some k; s_log := s_log s; s_pfds := s_pfds s; s_cfds := s_cfds s |}.
Definition with_pfds (l : list pend) (s : Sys) : Sys :=
  {| s_pp := s_pp s; s_cc := s_cc s; s_creds := s_creds s; s_rx := s_rx s; s_init := s_init s; s_owner := s_owner s;
     s_uid_map := s_uid_map s; s_gid_map := s_gid_map s; s_acked := s_acked s; s_built := s_built s;
     s_kennel := s_kennel s; s_log := s_log s; s_pfds := l; s_cfds := s_cfds s |}.
Definition with_cfds (l : list pend) (s : Sys) : Sys :=
  {| s_pp := s_pp s; s_cc := s_cc s; s_creds := s_creds s; s_rx := s_rx s; s_init := s_init s; s_owner := s_owner s;
     s_uid_map := s_uid_map s; s_gid_map := s_gid_map s; s_acked := s_acked s; s_built := s_built s;
     s_kennel := s_kennel s; s_log := s_log s; s_pfds := s_pfds s; s_cfds := l |}.

Definition CONSTRUCT_FAILED : Z := 125.
Definition init_sys (c : Creds) : Sys :=
  {| s_pp := Cloexec; s_cc := Unborn; s_creds := c; s_rx := None; s_init := None; s_owner := None; s_uid_map := None;
     s_gid_map := None; s_acked := false; s_built := false; s_kennel := None; s_log := []; s_pfds := []; s_cfds := [] |}.
Definition exclusive_sources (half : ConstructionHalf) : list bytes :=
  match ch_view half with Some v => map bm_source (List.filter bm_exclusive (sv_binds v)) | None => [] end.
(** The ends of a process: the exit of the helper, and the exit of the child or its [fexecve]. *)
Definition exit_with (code : Z) (s : Sys) : Sys := goto (Exited code) (with_pfds [] s).
Definition failed (s : Sys) : Sys := exit_with CONSTRUCT_FAILED s.
Definition cend (c : cpc) (s : Sys) : Sys := cgoto c (with_cfds [] s).
Definition clone_pid1 (s : Sys) : Sys :=
  cgoto Born (with_owner (c_euid (s_creds s)) (act CloneChild
    (with_pfds (close ReadyR (close BuiltW (s_pfds s))) (with_cfds (s_pfds s) s)))).
Definition eof (e : pend) (s : Sys) : bool := negb (bool_decide (e ∈ s_pfds s ++ s_cfds s)).
Definition exited (p : ppc) : bool := match p with Exited _ => true | _ => false end.

(** Changing an identity: the kernel's rule, and whatever else may fail. *)
Definition become (f : Creds -> option Creds) (ok : bool) (next : ppc) (s : Sys) : Sys :=
  match f (s_creds s) with
  | Some c => if ok then goto next (with_creds c s) else failed s
  | None => failed s
  end.
(** With the received request. *)
Definition with_request (s : Sys) (f : Received F -> Sys) : Sys :=
  match s_rx s with Some r => f r | None => failed s end.

Definition maps_of (r : Received F) : bytes * bytes := build_identity_maps op_uid op_gid (ch_granted_gids (rc_half r)).
Arguments maps_of : simpl never.

Definition bpf_pin_root (uid : Z) : bytes := ascii_bytes "/run/user/" ++ dec uid ++ ascii_bytes "/kennel/bpf".
Definition ensure_bpf_pin_bpffs (i : inp) (s : Sys) : Sys :=
  if in_pin_dir i && negb (in_is_bpffs i) then act (MountBpffs (bpf_pin_root (c_ruid (s_creds s)))) s else s.

Definition parent_step (i : inp) (s : Sys) : option Sys :=
  let try p s := if in_ok i then goto p s else failed s in
  match s_pp s with
  | Cloexec => Some (try Receive s)
  | Receive => Some (match factory_receive data fds with
                     | Ok r => if in_ok i then goto (Loopback (ch_loopback (rc_half r))) (with_rx r s) else failed s
                     | Err _ => failed s
                     end)
  | Loopback [] => Some (goto Egress s)
  | Loopback (a :: todo) => Some (with_request s (fun r => try (Loopback todo) (act (NetHelper (ch_ctx (rc_half r)) a) s)))
  | Egress => Some (with_request s (fun r =>
                if is_nil (rc_egress r) then goto Binderfs_ s
                else try Binderfs_ (act (BpfHelper (ch_cgroup (rc_half r)) (rc_egress r)) (ensure_bpf_pin_bpffs i s))))
  | Binderfs_ => Some (try OpenInit s)
  | OpenInit => Some (try VerifyInit s)
  | VerifyInit => Some (if in_ok i && verify_trusted_init (in_meta i) then goto Pipes (with_init (in_meta i) s) else failed s)
  | Pipes => Some (if in_ok i then goto OpenCgroup (with_pfds [ReadyR; ReadyW; BuiltR; BuiltW] s) else failed s)
  | OpenCgroup => Some (with_request s (fun r => if ch_cgroup_join (rc_half r) then try DropEuid s else goto DropEuid s))
  | DropEuid => Some (if op_uid =? 0 then goto Clone s else become (set_euid op_uid) (in_ok i) Clone s)
  | Clone => Some (if in_ok i then goto Restore (clone_pid1 s) else failed s)
  | Restore => Some (if op_uid =? 0 then goto SetGid0 s else become (set_euid 0) (in_ok i) SetGid0 s)
  | SetGid0 => Some (become (set_gid 0) (in_ok i) SetUid0 s)
  | SetUid0 => Some (become (set_uid 0) (in_ok i) UidMap s)
  | UidMap => Some (with_request s (fun r =>
                if in_ok i then goto GidMap (with_maps (Some (maps_of r).1) (s_gid_map s) s)
                else failed s))
  | GidMap => Some (with_request s (fun r =>
                if in_ok i then goto Ack (act (WroteMaps (maps_of r).1 (maps_of r).2) (with_maps (s_uid_map s) (Some (maps_of r).2) s))
                else failed s))
  | Ack => Some (if in_ok i then goto DropGid (with_pfds (close ReadyW (s_pfds s)) (with_acked (act SentAck s))) else failed s)
  | DropGid => Some (become (set_gid op_gid) (in_ok i) DropUid s)
  | DropUid => Some (with_request s (fun r =>
                 become (set_uid op_uid) (in_ok i) (if is_nil (exclusive_sources (rc_half r)) then Report else AwaitBuilt) s))
  | AwaitBuilt => if s_built s || eof BuiltW s
                  then Some (with_request s (fun r => goto (OverMount (exclusive_sources (rc_half r))) s)) else None
  | OverMount [] => Some (goto Report s)
  | OverMount (src :: todo) => Some (goto (OverMount todo) (act (MountsHelper src) s))
  | Report => let s := with_pfds (close BuiltR (s_pfds s)) s in
              Some (if in_ok i then exit_with 0 (act Reported s) else failed s)
  | Exited _ => None
  end.

Definition child_step (i : inp) (s : Sys) : option Sys :=
  let try c s := if in_ok i then cgoto c s else cend Dead s in
  match s_cc s with
  | Unborn | Running | Dead => None
  | Born => Some (cgoto AwaitAck (with_cfds (close ReadyW (s_cfds s)) s))
  | AwaitAck => if s_acked s then Some (try CSetGid s)
                else if eof ReadyW s then Some (cend Dead s) else None
  | CSetGid => Some (try CSetUid (act (ByChild CSetGid) s))
  | CSetUid => Some (try Build (act (ByChild CSetUid) s))
  | Build => let s := act (ByChild Build) s in
             Some (match s_rx s with
                   | Some r => match build_kennel (in_io i) (rc_half r) op_uid op_gid (start t0) with
                               | (Ok k, v) => cgoto Signal (with_kennel (k, v) s)
                               | (Err _, _) => cend Dead s
                               end
                   | None => cend Dead s
                   end)
  | Signal => Some (cgoto PlaceFds (with_built (in_ok i) (act (ByChild Signal) s)))
  | PlaceFds => Some (try Exec (act (ByChild PlaceFds) s))
  | Exec => Some (if in_ok i then cend Running (act (ByChild Exec) s) else cend Dead (act (ByChild Exec) s))
  end.

Inductive step (s : Sys) : Sys -> Prop :=
  | step_parent i s' : parent_step i s = Some s' -> step s s'
  | step_child i s' : child_step i s = Some s' -> step s s'.
Inductive reach (c : Creds) : Sys -> Prop :=
  | reach_init : reach c (init_sys c)
  | reach_step s s' : reach c s -> step s s' -> reach c s'.

(** * Identities *)

(** How the helper starts: with file capabilities, set-uid root, or run by root. *)
Definition factory_creds (c : Creds) : Prop :=
  c_ruid c = op_uid /\ c_rgid c = op_gid /\ c_egid c = op_gid /\ c_sgid c = op_gid /\
  c_permitted c = true /\ c_effective c = true /\
  ((c_euid c = op_uid /\ c_suid c = op_uid) \/ (c_euid c = 0 /\ c_suid c = 0)).
Definition root_writer (c : Creds) : Prop :=
  c_ruid c = 0 /\ c_euid c = 0 /\ c_suid c = 0 /\ c_permitted c = true /\ c_effective c = true.
Definition operator (c : Creds) : Prop :=
  c_ruid c = op_uid /\ c_euid c = op_uid /\ c_suid c = op_uid /\
  c_rgid c = op_gid /\ c_egid c = op_gid /\ c_sgid c = op_gid /\
  (op_uid <> 0 -> c_permitted c = false /\ c_effective c = false).
Definition phase (c0 : Creds) (p : ppc) (c : Creds) : Prop :=
  match p with
  | Clone | Restore => c_ruid c = op_uid /\ c_euid c = op_uid /\ c_permitted c = true /\ (c_suid c = 0 \/ c_effective c = true) /\
                       (op_uid = 0 -> c_effective c = true)
  | SetGid0 | SetUid0 => c_euid c = 0 /\ c_permitted c = true /\ c_effective c = true
  | UidMap | GidMap | Ack | DropGid => root_writer c
  | DropUid => root_writer c /\ c_rgid c = op_gid /\ c_egid c = op_gid /\ c_sgid c = op_gid
  | AwaitBuilt | OverMount _ | Report => operator c
  | Exited code => code = 0 -> operator c
  | _ => c = c0
  end.

Lemma become_inv f ok next s s' :
  become f ok next s = s' -> s' = failed s \/ exists c, f (s_creds s) = Some c /\ s' = goto next (with_creds c s).
Proof. unfold become. destruct (f _) as [c|]; [destruct ok|]; intros <-; [right; eauto|left; reflexivity..]. Qed.

Lemma phase_drop c0 c : factory_creds c0 -> op_uid <> 0 -> set_euid op_uid c0 = Some c -> phase c0 Clone c.
Proof.
  unfold factory_creds, set_euid, with_uids. destruct c0; cbn. intros (-> & -> & -> & -> & -> & -> & He) Hn [= <-]. cbn.
  apply Z.eqb_neq in Hn as Hn'. rewrite Hn'. cbn.
  destruct He as [[-> ->]|[-> ->]]; rewrite ?Hn', ?Z.eqb_refl; cbn; repeat split; auto; congruence.
Qed.
Lemma phase_restore c0 c c' : op_uid <> 0 -> phase c0 Restore c -> set_euid 0 c = Some c' -> phase c0 SetGid0 c'.
Proof.
  unfold set_euid, with_uids. destruct c; cbn. intros Hn (-> & -> & -> & Hs & _).
  apply Z.eqb_neq in Hn as Hn'. rewrite Hn'. cbn. rewrite ?andb_false_r. cbn.
  destruct (_ || _ || _ || _); [|discriminate]. intros [= <-]. cbn. rewrite ?orb_true_r, ?andb_false_r. cbn. auto.
Qed.
Lemma phase_gid0 c0 c c' : phase c0 SetGid0 c -> set_gid 0 c = Some c' -> phase c0 SetUid0 c'.
Proof. unfold set_gid. destruct c; cbn. intros (-> & -> & ->) [= <-]. cbn. auto. Qed.
Lemma phase_uid0 c0 c c' : phase c0 SetUid0 c -> set_uid 0 c = Some c' -> phase c0 UidMap c'.
Proof.
  unfold set_uid, with_uids, phase, root_writer. destruct c; cbn. intros (-> & -> & ->) [= <-]. cbn.
  rewrite ?andb_false_r, ?orb_true_r. cbn. auto.
Qed.
Lemma phase_dropgid c0 c c' : phase c0 DropGid c -> set_gid op_gid c = Some c' -> phase c0 DropUid c'.
Proof.
  unfold set_gid, phase, root_writer. destruct c; cbn. intros (-> & -> & -> & -> & ->) [= <-]. cbn. auto 10.
Qed.
Lemma phase_dropuid c0 c c' : phase c0 DropUid c -> set_uid op_uid c = Some c' -> operator c'.
Proof.
  unfold set_uid, with_uids, phase, root_writer, operator. destruct c; cbn. intros [(-> & -> & -> & -> & ->) (-> & -> & ->)] [= <-].
  cbn. repeat split. all: destruct (Z.eqb_spec op_uid 0); [contradiction|reflexivity].
Qed.

(** * The invariant *)

Definition has_rx (p : ppc) : bool := match p with Cloexec | Receive => false | Exited c => c =? 0 | _ => true end.
Definition has_init (p : ppc) : bool :=
  match p with Cloexec | Receive | Loopback _ | Egress | Binderfs_ | OpenInit | VerifyInit => false | Exited c => c =? 0 | _ => true end.
Definition before_clone (p : ppc) : bool :=
  match p with
  | Cloexec | Receive | Loopback _ | Egress | Binderfs_ | OpenInit | VerifyInit | Pipes | OpenCgroup | DropEuid | Clone => true
  | _ => false
  end.
Definition cloned (p : ppc) : bool := match p with Exited c => c =? 0 | _ => negb (before_clone p) end.
Definition has_umap (p : ppc) : bool := match p with GidMap | Ack => true | _ => false end.
Definition has_gmap (p : ppc) : bool := match p with Ack => true | _ => false end.
Definition sent_ack (p : ppc) : bool :=
  match p with DropGid | DropUid | AwaitBuilt | OverMount _ | Report => true | Exited c => c =? 0 | _ => false end.
Definition went_on (c : cpc) : bool := match c with Unborn | Born | AwaitAck | Dead => false | _ => true end.
Definition has_kennel (c : cpc) : bool := match c with Signal | PlaceFds | Exec | Running => true | _ => false end.

Definition act_ok (c0 : Creds) (x : Act * Creds) : Prop :=
  match x.1 with
  | NetHelper _ _ | BpfHelper _ _ => x.2 = c0
  | MountBpffs target => x.2 = c0 /\ target = bpf_pin_root op_uid
  | CloneChild => c_euid x.2 = op_uid
  | WroteMaps u g => root_writer x.2 /\ exists r, factory_receive data fds = Ok r /\ (u, g) = maps_of r
  | SentAck => root_writer x.2
  | MountsHelper _ | Reported => operator x.2
  | ByChild _ => True
  end.
(** The pipe ends of each process by where it is. *)
Definition pends (p : ppc) : list pend :=
  match p with
  | OpenCgroup | DropEuid | Clone => [ReadyR; ReadyW; BuiltR; BuiltW]
  | Restore | SetGid0 | SetUid0 | UidMap | GidMap | Ack => [ReadyW; BuiltR]
  | DropGid | DropUid | AwaitBuilt | OverMount _ | Report => [BuiltR]
  | _ => []
  end.
Definition cends (c : cpc) : list pend :=
  match c with
  | Unborn | Running | Dead => []
  | Born => [ReadyR; ReadyW; BuiltR; BuiltW]
  | _ => [ReadyR; BuiltR; BuiltW]
  end.
(** What the child has done, in order; the acknowledgement and the maps are before all of it. *)
Definition child_acts (l : list (Act * Creds)) : list cpc := omap (fun x => match x.1 with ByChild c => Some c | _ => None end) l.
Definition acts_at (c : cpc) : option (list cpc) :=
  match c with
  | Unborn | Born | AwaitAck | CSetGid => Some []
  | CSetUid => Some [CSetGid]
  | Build => Some [CSetGid; CSetUid]
  | Signal => Some [CSetGid; CSetUid; Build]
  | PlaceFds => Some [CSetGid; CSetUid; Build; Signal]
  | Exec => Some [CSetGid; CSetUid; Build; Signal; PlaceFds]
  | Running => Some [CSetGid; CSetUid; Build; Signal; PlaceFds; Exec]
  | Dead => None
  end.
Definition maps_first (l : list (Act * Creds)) : Prop :=
  exists r before after c c', factory_receive data fds = Ok r /\ l = before ++ (SentAck, c) :: after /\
    (WroteMaps (maps_of r).1 (maps_of r).2, c') ∈ before /\ child_acts before = [].
Definition kennel_ok (s : Sys) : Prop :=
  exists r k v io, s_rx s = Some r /\ s_kennel s = Some (k, v) /\ build_kennel io (rc_half r) op_uid op_gid (start t0) = (Ok k, v).

Record Good (c0 : Creds) (s : Sys) : Prop := {
  g_rx : forall r, s_rx s = Some r -> factory_receive data fds = Ok r;
  g_has_rx : has_rx (s_pp s) = true -> is_Some (s_rx s);
  g_init : forall m, s_init s = Some m -> verify_trusted_init m = true;
  g_has_init : has_init (s_pp s) = true -> is_Some (s_init s);
  g_unborn : before_clone (s_pp s) = true -> s_cc s = Unborn;
  g_cloned : cloned (s_pp s) = true -> s_cc s <> Unborn;
  g_born : s_cc s <> Unborn -> s_owner s = Some op_uid /\ is_Some (s_init s) /\ is_Some (s_rx s);
  g_umap : has_umap (s_pp s) = true -> exists r, s_rx s = Some r /\ s_uid_map s = Some (maps_of r).1;
  g_gmap : has_gmap (s_pp s) = true -> exists r, s_rx s = Some r /\ s_gid_map s = Some (maps_of r).2;
  g_sent : sent_ack (s_pp s) = true -> s_acked s = true;
  g_acked : s_acked s = true -> exists r, s_rx s = Some r /\ s_uid_map s = Some (maps_of r).1 /\ s_gid_map s = Some (maps_of r).2;
  g_unacked : before_clone (s_pp s) || has_umap (s_pp s) || match s_pp s with Restore | SetGid0 | SetUid0 | UidMap => true | _ => false end = true ->
              s_acked s = false;
  g_went_on : went_on (s_cc s) = true -> s_acked s = true;
  g_kennel : has_kennel (s_cc s) = true -> kennel_ok s;
  g_phase : phase c0 (s_pp s) (s_creds s);
  g_log : Forall (act_ok c0) (s_log s);
  g_pfds : s_pfds s = pends (s_pp s);
  g_cfds : s_cfds s = cends (s_cc s);
  g_wrote : has_gmap (s_pp s) = true -> exists r c, factory_receive data fds = Ok r /\
            (WroteMaps (maps_of r).1 (maps_of r).2, c) ∈ s_log s;
  g_order : if s_acked s then maps_first (s_log s) else child_acts (s_log s) = [];
  g_acts : forall l, acts_at (s_cc s) = Some l -> child_acts (s_log s) = l;
}.

Lemma good_init c0 : Good c0 (init_sys c0).
Proof. constructor; cbn; try discriminate; try congruence; auto. Qed.
(** An exit with an error keeps what is established. *)
Lemma good_failed c0 s : Good c0 s -> Good c0 (failed s).
Proof. intros []. constructor; cbn; try discriminate; auto. Qed.

Definition unacked (p : ppc) : bool :=
  before_clone p || has_umap p || match p with Restore | SetGid0 | SetUid0 | UidMap => true | _ => false end.
(** What holds at [q] holds at [p] too. *)
Definition allowed (p q : ppc) : bool :=
  implb (has_rx q) (has_rx p) && implb (has_init q) (has_init p) && implb (before_clone q) (before_clone p) &&
  implb (cloned q) (cloned p) && implb (has_umap q) (has_umap p) && implb (has_gmap q) (has_gmap p) &&
  implb (sent_ack q) (sent_ack p) && implb (unacked q) (unacked p) && bool_decide (pends p = pends q).
Lemma implb_use a b : implb a b = true -> a = true -> b = true.
Proof. destruct a, b; auto. Qed.

Lemma good_move c0 p c s :
  Good c0 s -> allowed (s_pp s) p = true -> phase c0 p c -> Good c0 (goto p (with_creds c s)).
Proof.
  unfold allowed, unacked. intros [] H Hp. rewrite !andb_true_iff in H.
  destruct H as [[[[[[[[H1 H2] H3] H4] H5] H6] H7] H8] H9%bool_decide_eq_true].
  constructor; cbn; auto; [..|congruence|]; intros Hq;
    match goal with H : implb ?a _ = true |- _ => apply (implb_use _ _ H) in Hq; auto end.
Qed.
Lemma good_goto c0 p s : Good c0 s -> allowed (s_pp s) p = true -> phase c0 p (s_creds s) -> Good c0 (goto p s).
Proof. intros HG. destruct s. apply (good_move c0 p _ _ HG). Qed.
Definition by_child (a : Act) : bool := match a with ByChild _ => true | _ => false end.
Lemma child_acts_snoc l x : child_acts (l ++ [x]) = child_acts l ++ child_acts [x].
Proof. apply omap_app. Qed.
Lemma child_acts_parent l a (c : Creds) : by_child a = false -> child_acts (l ++ [(a, c)]) = child_acts l.
Proof. intros H. rewrite child_acts_snoc. destruct a; try discriminate; apply app_nil_r. Qed.
Lemma maps_first_snoc l x : maps_first l -> maps_first (l ++ [x]).
Proof.
  intros (r & before & after & c & c' & Hr & -> & H). exists r, before, (after ++ [x]), c, c'.
  rewrite <- app_assoc. auto.
Qed.
Lemma order_parent (b : bool) l a (c : Creds) : by_child a = false ->
  (if b then maps_first l else child_acts l = []) ->
  if b then maps_first (l ++ [(a, c)]) else child_acts (l ++ [(a, c)]) = [].
Proof. intros H. destruct b; [apply maps_first_snoc|rewrite child_acts_parent by exact H; auto]. Qed.
Lemma wrote_snoc (l : list (Act * Creds)) (x : Act * Creds) :
  (exists r c, factory_receive data fds = Ok r /\ (WroteMaps (maps_of r).1 (maps_of r).2, c) ∈ l) ->
  exists r c, factory_receive data fds = Ok r /\ (WroteMaps (maps_of r).1 (maps_of r).2, c) ∈ l ++ [x].
Proof. intros (r & c & Hr & Hin). exists r, c. split; [exact Hr|]. apply elem_of_app. auto. Qed.
Lemma good_act c0 a s : Good c0 s -> by_child a = false -> act_ok c0 (a, s_creds s) -> Good c0 (act a s).
Proof.
  intros [] Ha H. constructor; cbn; auto.
  - apply Forall_app. auto.
  - intros Hg. apply wrote_snoc. auto.
  - apply order_parent; assumption.
  - intros l Hl. rewrite child_acts_parent by exact Ha. auto.
Qed.
Lemma good_become c0 f ok p s :
  Good c0 s -> allowed (s_pp s) p = true -> (forall c, f (s_creds s) = Some c -> phase c0 p c) -> Good c0 (become f ok p s).
Proof.
  intros HG Ha Hp. destruct (become_inv f ok p s _ eq_refl) as [->|(c & Ef & ->)]; [apply good_failed; exact HG|].
  apply good_move; auto.
Qed.
Lemma good_try c0 (ok : bool) s s' : Good c0 s -> (ok = true -> Good c0 s') -> Good c0 (if ok then s' else failed s).
Proof. intros HG H. destruct ok; [auto|apply good_failed; exact HG]. Qed.

Lemma good_receive c0 r s :
  Good c0 s -> s_pp s = Receive -> factory_receive data fds = Ok r -> Good c0 (goto (Loopback (ch_loopback (rc_half r))) (with_rx r s)).
Proof.
  intros [] Hp Hr. rewrite Hp in *. cbn in *. specialize (g_unborn0 eq_refl). specialize (g_unacked0 eq_refl).
  constructor; cbn; try discriminate; auto; try congruence.
  all: rewrite g_unborn0; first [discriminate|intros []; reflexivity].
Qed.
Lemma good_verify c0 m s :
  Good c0 s -> s_pp s = VerifyInit -> verify_trusted_init m = true -> Good c0 (goto Pipes (with_init m s)).
Proof.
  intros [] Hp Hm. rewrite Hp in *. cbn in *. constructor; cbn; try discriminate; auto; try congruence.
  all: rewrite (g_unborn0 eq_refl); first [discriminate|intros []; reflexivity].
Qed.
Lemma good_pipes c0 s :
  Good c0 s -> s_pp s = Pipes -> Good c0 (goto OpenCgroup (with_pfds [ReadyR; ReadyW; BuiltR; BuiltW] s)).
Proof. intros [] Hp. rewrite Hp in *. cbn in *. constructor; cbn; try discriminate; auto. Qed.
Lemma good_clone c0 s : Good c0 s -> s_pp s = Clone -> Good c0 (goto Restore (clone_pid1 s)).
Proof.
  intros [] Hp. rewrite Hp in *. cbn in *. specialize (g_unborn0 eq_refl). constructor; cbn; try discriminate; auto.
  - intros _. destruct g_phase0 as (_ & -> & _). auto.
  - apply Forall_app. split; [exact g_log0|]. constructor; [|constructor]. apply g_phase0.
  - rewrite g_pfds0. reflexivity.
  - apply order_parent; auto.
  - intros l [= <-]. rewrite child_acts_parent by reflexivity. apply g_acts0. rewrite g_unborn0. reflexivity.
Qed.
Lemma good_umap c0 r s :
  Good c0 s -> s_pp s = UidMap -> s_rx s = Some r -> Good c0 (goto GidMap (with_maps (Some (maps_of r).1) (s_gid_map s) s)).
Proof.
  intros [] Hp Hr. rewrite Hp in *. cbn in *. constructor; cbn; try discriminate; eauto.
  rewrite (g_unacked0 eq_refl). discriminate.
Qed.
Lemma good_gmap c0 r s :
  Good c0 s -> s_pp s = GidMap -> s_rx s = Some r ->
  Good c0 (goto Ack (act (WroteMaps (maps_of r).1 (maps_of r).2) (with_maps (s_uid_map s) (Some (maps_of r).2) s))).
Proof.
  intros [] Hp Hr. rewrite Hp in *. cbn in *. constructor; cbn; try discriminate; eauto.
  - rewrite (g_unacked0 eq_refl). discriminate.
  - apply Forall_app. split; [exact g_log0|]. constructor; [|constructor]. split; [exact g_phase0|].
    exists r. split; [auto|]. symmetry. apply surjective_pairing.
  - intros _. exists r, (s_creds s). split; [auto|]. apply elem_of_app. right. apply list_elem_of_singleton. reflexivity.
  - apply order_parent; auto.
  - intros l Hl. rewrite child_acts_parent by reflexivity. auto.
Qed.
Lemma good_ack c0 s :
  Good c0 s -> s_pp s = Ack ->
  Good c0 (goto DropGid (with_pfds (close ReadyW (s_pfds s)) (with_acked (act SentAck s)))).
Proof.
  intros [] Hp. rewrite Hp in *. cbn in *. rewrite (g_unacked0 eq_refl) in g_order0.
  constructor; cbn; try discriminate; auto.
  2: { apply Forall_app. split; [exact g_log0|]. constructor; [|constructor]. exact g_phase0. }
  2: { rewrite g_pfds0. reflexivity. }
  2: { destruct (g_wrote0 eq_refl) as (r & c & Hr & Hin). exists r, (s_log s), [], (s_creds s), c. auto. }
  2: { intros l Hl. rewrite child_acts_parent by reflexivity. auto. }
  intros _. destruct (g_umap0 eq_refl) as (r & Hr & Hu). destruct (g_gmap0 eq_refl) as (r' & Hr' & Hg).
  exists r. rewrite Hr in Hr'. injection Hr' as <-. auto.
Qed.
Lemma good_request c0 s f : Good c0 s -> (forall r, s_rx s = Some r -> Good c0 (f r)) -> Good c0 (with_request s f).
Proof. intros HG H. unfold with_request. destruct (s_rx s); [auto|apply good_failed; exact HG]. Qed.

Lemma good_bpffs c0 i s :
  factory_creds c0 -> Good c0 s -> s_creds s = c0 ->
  Good c0 (ensure_bpf_pin_bpffs i s) /\ s_pp (ensure_bpf_pin_bpffs i s) = s_pp s /\
  s_creds (ensure_bpf_pin_bpffs i s) = s_creds s.
Proof.
  intros (Hr & _) HG Hc. unfold ensure_bpf_pin_bpffs. destruct (_ && _); [|auto]. split; [|auto].
  apply good_act; [exact HG|reflexivity|]. split; [exact Hc|]. rewrite Hc, Hr. reflexivity.
Qed.
Lemma good_exit c0 s : Good c0 s -> operator (s_creds s) -> s_pp s = Report -> Good c0 (exit_with 0 s).
Proof. intros [] Ho Hp. rewrite Hp in *. cbn in *. constructor; cbn; try discriminate; auto. Qed.
Lemma good_parent c0 i s s' : factory_creds c0 -> Good c0 s -> parent_step i s = Some s' -> Good c0 s'.
Proof.
  intros Hc0 HG. pose proof (g_phase _ _ HG) as Hph. pose proof (good_failed c0 s HG) as HF. unfold parent_step.
  destruct (s_pp s) as [| |todo| | | | | | | | | | | | | | | | | |todo| |code] eqn:Ep; cbn in Hph.
  all: try (destruct todo as [|a todo]).
  all: try (intros [= <-]).
  all: try (apply good_request; [exact HG|intros r Hr]).
  all: try (apply good_try; [exact HG|intros Hok]).
  all: try (apply good_goto; [exact HG|rewrite Ep; reflexivity|exact Hph]).
  - destruct (factory_receive data fds) as [r|] eqn:Er; [|exact HF]. apply good_try; [exact HG|]. intros _. apply good_receive; auto.
  - assert (Ha : Good c0 (act (NetHelper (ch_ctx (rc_half r)) a) s)) by (apply good_act; [exact HG|reflexivity|exact Hph]).
    apply good_try; [exact Ha|]. intros _. apply good_goto; [exact Ha|cbn; rewrite Ep; reflexivity|exact Hph].
  - destruct (is_nil (rc_egress r)); [apply good_goto; [exact HG|rewrite Ep; reflexivity|exact Hph]|].
    destruct (good_bpffs c0 i s Hc0 HG Hph) as (Hm & Em & Ec).
    assert (Ha : Good c0 (act (BpfHelper (ch_cgroup (rc_half r)) (rc_egress r)) (ensure_bpf_pin_bpffs i s)))
      by (apply good_act; [exact Hm|reflexivity|cbn; congruence]).
    apply good_try; [exact Ha|]. intros _. apply good_goto; [exact Ha|cbn; rewrite Em, Ep; reflexivity|cbn; congruence].
  - apply andb_true_iff in Hok as [_ Hv]. apply good_verify; auto.
  - apply good_pipes; auto.
  - destruct (ch_cgroup_join (rc_half r)); [apply good_try; [exact HG|intros _]|];
      apply good_goto; [exact HG|rewrite Ep; reflexivity|exact Hph|exact HG|rewrite Ep; reflexivity|exact Hph].
  - destruct (Z.eqb_spec op_uid 0) as [E0|E0].
    + apply good_goto; [exact HG|rewrite Ep; reflexivity|]. cbn. rewrite Hph. destruct Hc0 as (? & ? & ? & ? & ? & ? & [[? ?]|[? ?]]);
        rewrite E0 in *; auto 10.
    + apply good_become; [exact HG|rewrite Ep; reflexivity|]. rewrite Hph. intros c. apply phase_drop; auto.
  - apply good_clone; auto.
  - destruct (Z.eqb_spec op_uid 0) as [E0|E0].
    + apply good_goto; [exact HG|rewrite Ep; reflexivity|]. cbn. destruct Hph as (? & ? & ? & ? & ?). rewrite E0 in *. auto.
    + apply good_become; [exact HG|rewrite Ep; reflexivity|]. intros c. apply phase_restore; auto.
  - apply good_become; [exact HG|rewrite Ep; reflexivity|]. intros c. apply phase_gid0; auto.
  - apply good_become; [exact HG|rewrite Ep; reflexivity|]. intros c. apply (phase_uid0 c0); auto.
  - apply (good_umap c0 r); auto.
  - apply (good_gmap c0 r); auto.
  - apply good_ack; auto.
  - apply good_become; [exact HG|rewrite Ep; reflexivity|]. intros c. apply (phase_dropgid c0); auto.
  - apply good_become; [exact HG|rewrite Ep; destruct (is_nil _); reflexivity|]. intros c Hc.
    pose proof (phase_dropuid c0 _ _ Hph Hc). destruct (is_nil _); assumption.
  - destruct (s_built s || eof BuiltW s); [|discriminate]. intros [= <-]. apply good_request; [exact HG|]. intros r Hr.
    apply good_goto; [exact HG|rewrite Ep; reflexivity|exact Hph].
  - assert (Ha : Good c0 (act (MountsHelper a) s)) by (apply good_act; [exact HG|reflexivity|exact Hph]).
    apply good_goto; [exact Ha|cbn; rewrite Ep; reflexivity|exact Hph].
  - assert (Ha : Good c0 (act Reported s)) by (apply good_act; [exact HG|reflexivity|exact Hph]).
    destruct (in_ok i); [exact (good_exit c0 _ Ha Hph Ep)|exact HF].
Qed.

(** A step of the child before it acts, and one in which it acts. *)
Lemma good_wait c0 c ends s :
  Good c0 s -> s_cc s <> Unborn -> c <> Unborn -> (went_on c = true -> s_acked s = true) -> has_kennel c = false ->
  ends = cends c -> (acts_at c = None \/ acts_at c = acts_at (s_cc s)) -> Good c0 (cgoto c (with_cfds ends s)).
Proof.
  intros [] Hu Hc Hw Hk Hf Hl. constructor; cbn; auto.
  - intros Hb. destruct (Hu (g_unborn0 Hb)).
  - rewrite Hk. discriminate.
  - intros l El. apply g_acts0. destruct Hl as [Hl|Hl]; congruence.
Qed.
Lemma good_acts c0 c ends s :
  Good c0 s -> went_on (s_cc s) = true -> c <> Unborn -> (has_kennel c = true -> kennel_ok s) -> ends = cends c ->
  (acts_at c = None \/ acts_at c = option_map (fun l => l ++ [s_cc s]) (acts_at (s_cc s))) ->
  Good c0 (cgoto c (with_cfds ends (act (ByChild (s_cc s)) s))).
Proof.
  intros [] Hw Hc Hk Hf Hl. pose proof (g_went_on0 Hw) as Ha.
  assert (Hu : s_cc s <> Unborn) by (intros E; rewrite E in Hw; discriminate Hw).
  constructor; cbn; auto.
  - intros Hb. destruct (Hu (g_unborn0 Hb)).
  - apply Forall_app. split; [exact g_log0|]. repeat constructor.
  - intros Hg. apply wrote_snoc. auto.
  - rewrite Ha in *. apply maps_first_snoc. exact g_order0.
  - intros l El. destruct Hl as [Hl|Hl]; [congruence|]. rewrite El in Hl.
    destruct (acts_at (s_cc s)) as [l'|]; [|discriminate Hl]. injection Hl as ->.
    rewrite child_acts_snoc, (g_acts0 _ eq_refl). reflexivity.
Qed.
Lemma good_with_kennel c0 k s : Good c0 s -> has_kennel (s_cc s) = false -> Good c0 (with_kennel k s).
Proof. intros [] H. constructor; cbn; auto. rewrite H. discriminate. Qed.
Lemma good_with_built c0 b s : Good c0 s -> Good c0 (with_built b s).
Proof. intros []. constructor; auto. Qed.
Lemma good_child c0 i s s' : Good c0 s -> child_step i s = Some s' -> Good c0 s'.
Proof.
  intros HG. pose proof (g_cfds _ _ HG) as Hf. pose proof (g_kennel _ _ HG) as Hk. unfold child_step.
  assert (Hdead : went_on (s_cc s) = true -> Good c0 (cend Dead (act (ByChild (s_cc s)) s)))
    by (intros Hw; apply good_acts; auto; discriminate).
  assert (Hnext : forall c, went_on (s_cc s) = true -> c <> Unborn -> cends c = cends (s_cc s) -> (has_kennel c = true -> kennel_ok s) ->
      acts_at c = option_map (fun l => l ++ [s_cc s]) (acts_at (s_cc s)) -> Good c0 (cgoto c (act (ByChild (s_cc s)) s)))
    by (intros c Hw Hc He Hkc Ha; apply (good_acts c0 c (s_cfds s)); auto; congruence).
  destruct (s_cc s) eqn:Ec; cbn in Hf, Hk; try discriminate.
  - intros [= <-]. rewrite Hf. apply good_wait; rewrite ?Ec; auto; discriminate.
  - destruct (s_acked s) eqn:Ea; [destruct (in_ok i)|destruct (eof ReadyW s); [|discriminate]]; intros [= <-].
    + apply (good_wait c0 CSetGid (s_cfds s)); rewrite ?Ec; auto; discriminate.
    + apply good_wait; rewrite ?Ec; auto; discriminate.
    + apply good_wait; rewrite ?Ec; auto; discriminate.
  - intros [= <-]. destruct (in_ok i); [apply Hnext; auto; discriminate|auto].
  - intros [= <-]. destruct (in_ok i); [apply Hnext; auto; discriminate|auto].
  - intros [= <-]. cbn [s_rx act]. destruct (s_rx s) as [r|] eqn:Er; [|auto].
    destruct (build_kennel (in_io i) (rc_half r) op_uid op_gid (start t0)) as [[k|e] v] eqn:Eb; [|auto].
    pose proof (good_with_kennel c0 (k, v) s HG) as HG'. rewrite Ec in HG'. specialize (HG' eq_refl).
    assert (Ecc : s_cc (with_kennel (k, v) s) = Build) by exact Ec.
    pose proof (good_acts c0 Signal (s_cfds s) _ HG') as Hgoal. rewrite Ecc in Hgoal.
    apply Hgoal; auto; try discriminate. intros _. exists r, k, v, (in_io i). auto.
  - intros [= <-]. pose proof (good_with_built c0 (in_ok i) s HG) as HG'.
    assert (Ecc : s_cc (with_built (in_ok i) s) = Signal) by exact Ec.
    pose proof (good_acts c0 PlaceFds (s_cfds s) _ HG') as Hgoal. rewrite Ecc in Hgoal. apply Hgoal; auto; discriminate.
  - intros [= <-]. destruct (in_ok i); [apply Hnext; auto; discriminate|auto].
  - intros [= <-]. destruct (in_ok i); [|auto].
    pose proof (good_acts c0 Running [] s HG) as Hgoal. rewrite Ec in Hgoal. apply Hgoal; auto; discriminate.
Qed.
Lemma good_reach c0 s : factory_creds c0 -> reach c0 s -> Good c0 s.
Proof.
  intros Hc. induction 1 as [|s s' _ IH [i s1 E|i s1 E]]; [apply good_init|eapply good_parent; eauto|eapply good_child; eauto].
Qed.

(** C12: The construction child acts on nothing before its identity maps are written: in every reachable
    state in which it has done anything (its setgid, its setuid, any part of the build, the signal, the
    descriptors, the exec), the helper's log has the two maps of the request written and the
    acknowledgement sent before the first of it.  And the init of a kennel runs only when the kennel is whole:
    the request decoded, the binary is a regular file of root that group and others cannot write, the user
    namespace belongs to the operator, the child did each of its steps once and in order, and the whole of
    [build_kennel] succeeded.  So for every interleaving of the two processes and every failure of a system
    call. *)
Theorem init_runs_whole c0 s :
  factory_creds c0 -> reach c0 s ->
  (child_acts (s_log s) <> [] ->
   exists r before after c c', factory_receive data fds = Ok r /\ s_log s = before ++ (SentAck, c) :: after /\
     (WroteMaps (maps_of r).1 (maps_of r).2, c') ∈ before /\ child_acts before = []) /\
  (s_cc s = Running ->
   exists r m k v io, factory_receive data fds = Ok r /\ s_init s = Some m /\ verify_trusted_init m = true /\
     s_owner s = Some op_uid /\ s_uid_map s = Some (maps_of r).1 /\ s_gid_map s = Some (maps_of r).2 /\
     child_acts (s_log s) = [CSetGid; CSetUid; Build; Signal; PlaceFds; Exec] /\
     s_kennel s = Some (k, v) /\ build_kennel io (rc_half r) op_uid op_gid (start t0) = (Ok k, v)).
Proof.
  intros Hc Hr. destruct (good_reach c0 s Hc Hr). split.
  { intros Hn. destruct (s_acked s); [exact g_order0|contradiction]. }
  intros Hrun. rewrite Hrun in *. cbn in *.
  destruct (g_born0 ltac:(discriminate)) as (Ho & [m Hm] & _).
  destruct (g_kennel0 eq_refl) as (r & k & v & io & Hrx & Hk & Hb). specialize (g_went_on0 eq_refl).
  destruct (g_acked0 g_went_on0) as (r' & Hrx' & Hu & Hg). rewrite Hrx in Hrx'. injection Hrx' as <-.
  exists r, m, k, v, io. split; [auto|]. split; [auto|]. split; [auto|]. auto 12.
Qed.

(** C13: The identity of every privileged act of the factory: the network and BPF sub-helpers run as the
    process that was started, with the operator's real uid, and so is the operator's BPF file system mounted; the clone makes the operator the owner of the
    user namespace; the maps, those of the request, are written by root with the factory's capabilities;
    and from the drop on, over the mounts sub-helper, the report and a successful exit, every id is the
    operator's and, unless the operator is root, no capability is left.  The child acts only after its maps
    are written. *)
Theorem factory_identities c0 s :
  factory_creds c0 -> reach c0 s ->
  Forall (act_ok c0) (s_log s) /\ (s_pp s = Exited 0 -> operator (s_creds s)) /\
  (went_on (s_cc s) = true -> exists r, factory_receive data fds = Ok r /\
     s_uid_map s = Some (maps_of r).1 /\ s_gid_map s = Some (maps_of r).2).
Proof.
  intros Hc Hr. destruct (good_reach c0 s Hc Hr). split; [exact g_log0|]. split.
  - intros Hp. rewrite Hp in g_phase0. auto.
  - intros Hw. destruct (g_acked0 (g_went_on0 Hw)) as (r & Hrx & Hu & Hg). exists r. auto.
Qed.

(** * Termination *)

Definition n_loopback : nat := match factory_receive data fds with Ok r => length (ch_loopback (rc_half r)) | Err _ => O end.
Definition n_exclusive : nat := match factory_receive data fds with Ok r => length (exclusive_sources (rc_half r)) | Err _ => O end.
Definition prank (p : ppc) : nat :=
  match p with
  | Cloexec => n_loopback + n_exclusive + 40 | Receive => n_loopback + n_exclusive + 39
  | Loopback todo => length todo + n_exclusive + 30 | Egress => n_exclusive + 29 | Binderfs_ => n_exclusive + 28
  | OpenInit => n_exclusive + 27 | VerifyInit => n_exclusive + 26 | Pipes => n_exclusive + 25 | OpenCgroup => n_exclusive + 24
  | DropEuid => n_exclusive + 23 | Clone => n_exclusive + 22 | Restore => n_exclusive + 21 | SetGid0 => n_exclusive + 20
  | SetUid0 => n_exclusive + 19 | UidMap => n_exclusive + 18 | GidMap => n_exclusive + 17 | Ack => n_exclusive + 16
  | DropGid => n_exclusive + 15 | DropUid => n_exclusive + 14 | AwaitBuilt => n_exclusive + 13
  | OverMount todo => length todo + 2 | Report => 1 | Exited _ => 0
  end%nat.
Definition crank (c : cpc) : nat :=
  match c with
  | Unborn => 10 | Born => 9 | AwaitAck => 8 | CSetGid => 7 | CSetUid => 6 | Build => 5 | Signal => 4 | PlaceFds => 3
  | Exec => 2 | Running => 0 | Dead => 0
  end.
Definition measure (s : Sys) : nat := (prank (s_pp s) + crank (s_cc s))%nat.

Lemma failed_less s : (0 < prank (s_pp s))%nat -> (measure (failed s) < measure s)%nat.
Proof. unfold measure. cbn. lia. Qed.
Lemma goto_less p c s : (prank p < prank (s_pp s))%nat -> (measure (goto p (with_creds c s)) < measure s)%nat.
Proof. unfold measure. cbn. lia. Qed.
Lemma become_less f ok p s :
  (prank p < prank (s_pp s))%nat -> (measure (become f ok p s) < measure s)%nat.
Proof.
  intros H. destruct (become_inv f ok p s _ eq_refl) as [->|(c & _ & ->)]; [apply failed_less; lia|apply goto_less; exact H].
Qed.
Lemma request_less s f :
  (0 < prank (s_pp s))%nat -> (forall r, s_rx s = Some r -> (measure (f r) < measure s)%nat) -> (measure (with_request s f) < measure s)%nat.
Proof. intros H Hf. unfold with_request. destruct (s_rx s); [auto|apply failed_less; exact H]. Qed.
Lemma parent_less c0 i s s' : Good c0 s -> parent_step i s = Some s' -> (measure s' < measure s)%nat.
Proof.
  intros HG. unfold parent_step.
  destruct (s_pp s) as [| |todo| | | | | | | | | | | | | | | | | |todo| |code] eqn:Ep.
  all: try (destruct todo as [|a todo]).
  all: try discriminate.
  all: try (destruct (s_built s || eof BuiltW s); [|discriminate]).
  all: intros [= <-].
  all: try (apply request_less; [rewrite Ep; cbn; lia|intros r Hr]).
  all: try (destruct (op_uid =? 0)).
  all: try (apply become_less; rewrite Ep; try (destruct (is_nil _)); cbn; lia).
  all: unfold ensure_bpf_pin_bpffs.
  all: repeat match goal with |- context [if ?b then _ else _] => destruct b end.
  all: unfold measure; cbn; rewrite ?Ep; cbn; try lia.
  all: first
    [ unfold n_loopback; destruct (factory_receive data fds) as [r|]; cbn; lia
    | rewrite (g_unborn _ _ HG) by (rewrite Ep; reflexivity); cbn; lia
    | unfold n_exclusive; rewrite (g_rx _ _ HG r Hr); cbn; lia ].
Qed.
Lemma child_less i s s' : child_step i s = Some s' -> (measure s' < measure s)%nat.
Proof.
  unfold child_step. destruct (s_cc s) eqn:Ec; try discriminate.
  all: repeat match goal with
       | |- context [if ?b then _ else _] => destruct b
       | |- context [match ?x with Some _ => _ | None => _ end] => destruct x
       | |- context [match ?m with (_, _) => _ end] => destruct m as [[k|e] v]
       end.
  all: try discriminate.
  all: intros [= <-]; unfold measure; cbn; rewrite Ec; cbn; lia.
Qed.

(** The helper is held up only by a child that still has the write end of its pipe. *)
Lemma parent_waits c0 i s :
  parent_step i s = None -> Good c0 s -> exited (s_pp s) = true \/ (s_pp s = AwaitBuilt /\ BuiltW ∈ cends (s_cc s)).
Proof.
  intros E HG. unfold parent_step in E.
  destruct (s_pp s) as [| |todo| | | | | | | | | | | | | | | | | |todo| |code] eqn:Ep; try (destruct todo); try discriminate; auto.
  right. split; [reflexivity|]. destruct (s_built s); [discriminate|]. unfold eof in E. cbn [orb] in E.
  rewrite (g_pfds _ _ HG), (g_cfds _ _ HG), Ep in E. case_bool_decide as H; [|discriminate]. by apply elem_of_cons in H as [|H].
Qed.

(** C30: The two processes end: each step brings the measure down, and while the helper has not exited or the
    child neither runs the init nor is dead, one of them has a step that needs no failure to happen.  Neither
    waits for ever on a pipe: of the write end of the acknowledgement pipe the child has closed its own copy when
    it reads, and the exit of the helper closes the other; of the write end of the other pipe the helper
    dropped its copy at the clone, and the child's goes with its exit or its exec. *)
Theorem factory_ends c0 s :
  factory_creds c0 -> reach c0 s ->
  (forall s', step s s' -> (measure s' < measure s)%nat) /\
  ((exited (s_pp s) = true /\ (s_cc s = Unborn \/ s_cc s = Running \/ s_cc s = Dead)) \/
   forall i, in_ok i = true -> exists s', parent_step i s = Some s' \/ child_step i s = Some s').
Proof.
  intros Hc Hr. pose proof (good_reach c0 s Hc Hr) as HG. split.
  { intros s' [i s1 E|i s1 E]; [eapply parent_less; eauto|eapply child_less; eauto]. }
  pose proof (g_pfds _ _ HG) as Hp. pose proof (g_cfds _ _ HG) as Hf.
  destruct (s_cc s) eqn:Ec.
  all: try (right; intros i _; eexists; right; unfold child_step; rewrite Ec; reflexivity).
  all: destruct (exited (s_pp s)) eqn:Ex.
  all: try (left; auto; fail).
  - right. intros i _. destruct (parent_step i s) as [s1|] eqn:E; [eauto|].
    apply (parent_waits c0) in E as [E|(Ep & _)]; [congruence| |exact HG].
    destruct (g_cloned _ _ HG); [rewrite Ep; reflexivity|exact Ec].
  - right. intros i _. destruct (s_pp s) eqn:Ep; try discriminate Ex. unfold child_step, eof. rewrite Ec, Hp, Hf.
    destruct (s_acked s); eauto.
  - right. intros i _. destruct (parent_step i s) as [s1|] eqn:E; [eauto|].
    apply (parent_waits c0) in E as [E|(Ep & _)]; [congruence| |exact HG].
    eexists. right. unfold child_step. rewrite Ec, (g_sent _ _ HG) by (rewrite Ep; reflexivity). reflexivity.
  - right. intros i _. destruct (parent_step i s) as [s1|] eqn:E; [eauto|].
    apply (parent_waits c0) in E as [E|(_ & E)]; [congruence| |exact HG]. rewrite Ec in E. by apply elem_of_nil in E.
  - right. intros i _. destruct (parent_step i s) as [s1|] eqn:E; [eauto|].
    apply (parent_waits c0) in E as [E|(_ & E)]; [congruence| |exact HG]. rewrite Ec in E. by apply elem_of_nil in E.
Qed.

(** * The home walk *)

(** The inodes below [t] that are reached without a link and without leaving the device. *)
Fixpoint below (home_dev : Z) (p : list bytes) (t : tree) : list (list bytes) :=
  match t with
  | Node _ _ _ es =>
      flat_map (fun e => if skipped home_dev e.2 then []
                         else (p ++ [e.1]) :: if bool_decide (n_kind e.2 = KDir) then below home_dev (p ++ [e.1]) e.2 else []) es
  end.
Definition kept (home_dev : Z) (es : list (bytes * tree)) : list (bytes * tree) :=
  List.filter (fun e => negb (skipped home_dev e.2)) es.
Definition subdirs (home_dev : Z) (dir : list bytes) (es : list (bytes * tree)) : list (list bytes * tree) :=
  map (fun e => (dir ++ [e.1], e.2)) (List.filter (fun e => bool_decide (n_kind e.2 = KDir)) (kept home_dev es)).
Definition sizes (st : list (list bytes * tree)) : nat := fold_right (fun x n => (tree_size x.2 + n)%nat) O st.

Lemma syscall_ok io s r s' : syscall io s = (r, s') -> (forall n, io n = None) -> r = Ok tt.
Proof. unfold syscall, op. intros E Hio. rewrite Hio in E. injection E as <- <-. reflexivity. Qed.
Lemma walk_entries_ok io home_dev dir es st done s r s' :
  walk_entries io home_dev dir es st done s = (Ok r, s') ->
  r = (rev (subdirs home_dev dir es) ++ st, done ++ map (fun e => dir ++ [e.1]) (kept home_dev es)).
Proof.
  revert st done s. induction es as [|[name t] es IH]; intros st done s.
  - intros [= <- <-]. rewrite app_nil_r. reflexivity.
  - cbn [walk_entries]. unfold subdirs, kept. cbn [List.filter]. destruct (skipped home_dev (name, t).2) eqn:Es; cbn in Es; rewrite Es.
    + intros H%IH. exact H.
    + unfold bindM. destruct (chown_to io s) as [[[]|] s1]; [|discriminate]. intros H%IH. rewrite H. cbn [List.filter].
      cbn [snd fst negb List.filter]. destruct (bool_decide (n_kind t = KDir)); cbn [map rev fst snd]; rewrite <- !app_assoc; reflexivity.
Qed.
Lemma sizes_cons x a : sizes (x :: a) = (tree_size x.2 + sizes a)%nat.
Proof. reflexivity. Qed.
Lemma sizes_app a b : sizes (a ++ b) = (sizes a + sizes b)%nat.
Proof. induction a as [|x a IH]; [reflexivity|]. change ((x :: a) ++ b) with (x :: (a ++ b)). rewrite !sizes_cons, IH. lia. Qed.
Lemma sizes_rev a : sizes (rev a) = sizes a.
Proof.
  induction a as [|x a IH]; [reflexivity|]. change (rev (x :: a)) with (rev a ++ [x]).
  rewrite sizes_app, IH, !sizes_cons. change (sizes []) with O. lia.
Qed.
Lemma subdirs_less home_dev dir t : (sizes (subdirs home_dev dir (n_entries t)) < tree_size t)%nat.
Proof.
  destruct t as [d u k es]. cbn [n_entries tree_size]. induction es as [|e es IH]; [cbn; lia|].
  unfold subdirs, kept in *. cbn [List.filter fold_right]. destruct (skipped _ _); cbn [negb List.filter]; [lia|].
  destruct (bool_decide _); cbn [map]; [rewrite sizes_cons; cbn [snd]|]; lia.
Qed.
Lemma below_unfold home_dev p t :
  below home_dev p t ≡ₚ map (fun e => p ++ [e.1]) (kept home_dev (n_entries t)) ++
                        flat_map (fun x => below home_dev x.1 x.2) (subdirs home_dev p (n_entries t)).
Proof.
  destruct t as [d u k es]. cbn [below n_entries]. unfold subdirs, kept. induction es as [|e es IH]; [reflexivity|].
  cbn [flat_map List.filter]. rewrite IH. destruct (skipped _ _); cbn [negb map List.filter app]; [reflexivity|].
  destruct (bool_decide _); cbn [map flat_map fst snd app]; [|reflexivity]. constructor. rewrite !app_assoc.
  apply Permutation_app_tail, Permutation_app_comm.
Qed.
Lemma flat_map_rev {A B} (f : A -> list B) l : flat_map f (rev l) ≡ₚ flat_map f l.
Proof.
  induction l as [|a l IH]; [reflexivity|]. cbn. rewrite flat_map_app, IH. cbn. rewrite app_nil_r. apply Permutation_app_comm.
Qed.
Lemma walk_ok io home_dev fuel : forall st done s l s',
  (sizes st <= fuel)%nat -> walk io fuel home_dev st done s = (Ok l, s') ->
  l ≡ₚ done ++ flat_map (fun x => below home_dev x.1 x.2) st.
Proof.
  induction fuel as [|fuel IH]; intros [|[dir t] st] done s l s' Hf.
  1,3: intros [= <- <-]; rewrite app_nil_r; reflexivity.
  { destruct t; cbn in Hf; lia. }
  cbn [walk]. unfold bindM. destruct (walk_entries _ _ _ _ _ _ s) as [[r|] s1] eqn:E; [|discriminate].
  apply walk_entries_ok in E as ->. cbn [fst snd]. intros H%IH.
  - rewrite H, flat_map_app, flat_map_rev. cbn [flat_map fst snd]. rewrite (below_unfold home_dev dir t), <- !app_assoc. reflexivity.
  - rewrite sizes_app, sizes_rev. pose proof (subdirs_less home_dev dir t). rewrite sizes_cons in Hf. cbn [snd] in Hf. lia.
Qed.
Lemma walk_entries_total io home_dev dir es : (forall n, io n = None) -> forall st done s,
  exists r s', walk_entries io home_dev dir es st done s = (Ok r, s').
Proof.
  intros Hio. induction es as [|[name t] es IH]; intros st done s; [eauto|]. cbn [walk_entries].
  destruct (skipped home_dev t); [apply IH|]. unfold bindM. destruct (chown_to io s) as [r s1] eqn:E.
  rewrite (syscall_ok _ _ _ _ E Hio). apply IH.
Qed.
Lemma walk_total io home_dev fuel : (forall n, io n = None) -> forall st done s,
  exists l s', walk io fuel home_dev st done s = (Ok l, s').
Proof.
  intros Hio. induction fuel as [|fuel IH]; intros [|[dir t] st] done s; cbn [walk]; eauto. unfold bindM.
  destruct (walk_entries_total io home_dev dir (n_entries t) Hio st done s) as (r & s1 & ->). apply IH.
Qed.

(** The constructed home is handed to the operator exactly: the home itself and every inode below it that
    is reached over directories of the home's own device and not through a link, once each; a home
    that is a link or the operator's already is left alone.  If no system call fails, the walk
    returns. *)
Theorem home_chown_exact io t uid s :
  (forall l s', chown_constructed_home io (Some t) uid s = (Ok l, s') ->
     l ≡ₚ if bool_decide (n_kind t = KLink) || (n_uid t =? uid) then [] else [] :: below (n_dev t) [] t) /\
  ((forall n, io n = None) -> exists l s', chown_constructed_home io (Some t) uid s = (Ok l, s')).
Proof.
  unfold chown_constructed_home. destruct (bool_decide _ || _); [split; [intros l s' [= <- <-]; reflexivity|eauto]|].
  unfold bindM. destruct (chown_to io s) as [r s1] eqn:E. split.
  - intros l s'. destruct r as [[]|]; [|discriminate]. intros H%walk_ok; [|cbn; lia].
    cbn in H. rewrite app_nil_r in H. exact H.
  - intros Hio. rewrite (syscall_ok _ _ _ _ E Hio). apply walk_total. exact Hio.
Qed.

(** * What the running kennel sees *)

Abbreviation Anywhere := (fun (_ : fs) (_ : list component) => True) (only parsing).
Abbreviation Keeps I m := (Safe Anywhere I I m) (only parsing).
Lemma keeps_syscalls io I es : Keeps I (net_events io es).
Proof.
  induction es as [|e es IH]; [apply safe_ret|]. cbn [net_events]. unfold net_event.
  apply (safe_bind _ _ I); [|intros a; apply (safe_bind _ _ I); [exact IH|intros b; apply safe_ret]].
  apply (safe_bind _ _ I); [apply safe_syscall|intros _; apply safe_ret].
Qed.
Lemma keeps_entries io I home_dev dir es st done : Keeps I (walk_entries io home_dev dir es st done).
Proof.
  revert st done. induction es as [|[name t] es IH]; intros st done; [apply safe_ret|]. cbn [walk_entries].
  destruct (skipped home_dev t); [apply IH|]. apply (safe_bind _ _ I); [apply safe_syscall|intros _; apply IH].
Qed.
Lemma keeps_walk io I home_dev fuel st done : Keeps I (walk io fuel home_dev st done).
Proof.
  revert st done. induction fuel as [|fuel IH]; intros [|[dir t] st] done; cbn [walk]; try apply safe_ret.
  apply (safe_bind _ _ I); [apply keeps_entries|intros r; apply IH].
Qed.
Lemma keeps_home io I h uid : Keeps I (chown_constructed_home io h uid).
Proof.
  unfold chown_constructed_home. destruct h as [t|]; [|apply safe_ret]. destruct (_ || _); [apply safe_ret|].
  apply (safe_bind _ _ I); [apply safe_syscall|intros _; apply keeps_walk].
Qed.
Lemma run_build_kennel io half view new_root :
  ch_view half = Some view -> ch_new_root half = Some new_root -> abs new_root <> [] -> host_table t0 (abs new_root) ->
  plain_image view new_root ->
  Safe Anywhere (fun t => t = t0) (confined (tree_within (grants view) view new_root) Anywhere) (build_kennel io half op_uid op_gid).
Proof.
  intros Hv Hn Hne Ht Hp. unfold build_kennel. rewrite Hv, Hn. set (I := fun t => t = t0).
  set (J := confined (tree_within (grants view) view new_root) Anywhere).
  apply (safe_bind _ _ I).
  { destruct (ch_lo half); [|apply safe_ret]. apply (safe_bind _ _ I); [apply safe_syscall|intros _; apply keeps_syscalls]. }
  intros lo. apply (safe_bind _ _ I).
  { destruct (ch_hostname half); [|apply safe_ret]. apply (safe_bind _ _ I); [apply safe_syscall|intros _; apply safe_ret]. }
  intros h. apply (safe_bind _ _ I).
  { destruct (ch_tun half); [|apply safe_ret]. do 2 (apply (safe_bind _ _ I); [apply safe_syscall|intros _]). apply keeps_syscalls. }
  intros tun. apply (safe_bind _ _ I); [apply safe_syscall|]. intros _.
  apply (safe_bind _ _ J); [|intros owned; apply safe_ret].
  apply (safe_bind _ _ J); [apply run_serves; assumption|]. intros _.
  apply (safe_bind _ _ J); [intros s; apply keeps_home|]. intros owned.
  apply (safe_bind _ _ J); [apply safe_syscall|]. intros _.
  apply (safe_bind _ _ J); [destruct (sv_binder view); [apply safe_syscall|apply safe_ret]|]. intros _. apply safe_ret.
Qed.

(** From the factory to the view: when the init of a kennel runs, the trees it is served are what the view
    in the request the helper received allows: the host at or below a grant, something fresh, or the
    image's overlay. *)
Theorem kennel_view_granted c0 s r view new_root :
  factory_creds c0 -> reach c0 s -> s_cc s = Running -> factory_receive data fds = Ok r ->
  ch_view (rc_half r) = Some view -> ch_new_root (rc_half r) = Some new_root -> abs new_root <> [] ->
  host_table t0 (abs new_root) -> plain_image view new_root ->
  exists k v, s_kennel s = Some (k, v) /\
    forall p f q ro, place (st_table v) p = Some (f, q, ro) -> tree_within (grants view) view new_root f q.
Proof.
  intros Hc Hr Hrun Hrx Hv Hn Hne Ht Hpl. destruct (good_reach c0 s Hc Hr). rewrite Hrun in *.
  destruct (g_kennel0 eq_refl) as (r' & k & v & io & Hrx' & Hk & Hb). apply g_rx0 in Hrx'.
  rewrite Hrx in Hrx'. injection Hrx' as <-. exists k, v. split; [exact Hk|]. intros p f q ro Hp.
  destruct (run_build_kennel io (rc_half r) view new_root Hv Hn Hne Ht Hpl (start t0) _ _ eq_refl ltac:(intros ? x _; constructor) Hb) as [_ H].
  apply (confined_place _ Anywhere _ _ _ _ _ (tree_within_app _ _ _) (fun _ _ _ _ => Logic.I) (H k eq_refl) Hp).
Qed.
End kennel.

(** * A run *)

Definition ex_half : ConstructionHalf :=
  {| ch_namespaces := 0; ch_cgroup := ascii_bytes "/sys/fs/cgroup/k/7"; ch_cgroup_join := true; ch_view := Some ex_view;
     ch_new_root := Some ex_root; ch_file_binds := []; ch_granted_gids := [27]; ch_lo := true; ch_ctx := 7;
     ch_loopback := []; ch_tun := false; ch_hostname := None; ch_pty_fd_present := false; ch_workload_fd_present := false;
     ch_stdio_present := false |}.
Definition ex_data : bytes := construct_data (encode_construction ex_half) None.
Definition ex_home : tree := Node 9 0 KDir [(ascii_bytes ".ssh", Node 9 0 KDir [(ascii_bytes "key", Node 9 0 KFile [])]);
                                             (ascii_bytes "w", Node 4 1000 KDir [(ascii_bytes "x", Node 4 1000 KFile [])]);
                                             (ascii_bytes "l", Node 9 0 KLink [])].
Definition ex_inp : inp := {| in_ok := true; in_meta := {| im_file := true; im_uid := 0; im_mode := 33261 |}; in_io := fun _ => None;
  in_pin_dir := true; in_is_bpffs := false |}.
Definition ex_creds : Creds :=
  {| c_ruid := 1000; c_euid := 1000; c_suid := 1000; c_rgid := 1000; c_egid := 1000; c_sgid := 1000;
     c_permitted := true; c_effective := true |}.
Abbreviation pstep := (parent_step (F := Z) ex_data [] 1000 1000).
Abbreviation cstep := (child_step (F := Z) (fun _ _ => Some ex_home) 1000 1000 ex_host).
Abbreviation reaches := (reach (F := Z) (fun _ _ => Some ex_home)
  ex_data [] 1000 1000 ex_host ex_creds).
Fixpoint schedule (l : list bool) (s : Sys) : option Sys :=
  match l with
  | [] => Some s
  | b :: l => match (if b then pstep ex_inp s else cstep ex_inp s) with Some s => schedule l s | None => None end
  end.
Lemma schedule_reaches l s s' : reaches s -> schedule l s = Some s' -> reaches s'.
Proof.
  revert s. induction l as [|b l IH]; intros s Hr; [intros [= <-]; exact Hr|]. cbn [schedule].
  destruct b.
  - destruct (pstep ex_inp s) as [s1|] eqn:E; [|discriminate]. apply IH. eapply reach_step; [exact Hr|]. eapply step_parent. exact E.
  - destruct (cstep ex_inp s) as [s1|] eqn:E; [|discriminate]. apply IH. eapply reach_step; [exact Hr|]. eapply step_child. exact E.
Qed.
(** The helper up to the acknowledgement, the child to the end, then the helper to its end. *)
Definition ex_schedule : list bool := repeat true 17 ++ repeat false 8 ++ repeat true 3.
Definition ex_end : option Sys := schedule ex_schedule (init_sys ex_creds).
Lemma ex_factory_creds : factory_creds 1000 1000 ex_creds.
Proof. repeat split. left. split; reflexivity. Qed.

(** The home of the example: the directory, the key's directory and the key, and neither the bind nor the link. *)
Example ex_home_given : below 9 [] ex_home = [[ascii_bytes ".ssh"]; [ascii_bytes ".ssh"; ascii_bytes "key"]].
Proof. reflexivity. Qed.
Example ex_runs : option_map (fun s => (s_pp s, s_cc s)) ex_end = Some (Exited 0, Running).
Proof. vm_compute. reflexivity. Qed.
Lemma ex_reached : exists s, reaches s /\ ex_end = Some s.
Proof.
  unfold ex_end. destruct (schedule ex_schedule (init_sys ex_creds)) as [s|] eqn:E; [|vm_compute in E; discriminate].
  exists s. split; [|reflexivity]. eapply schedule_reaches; [|exact E]. apply reach_init.
Qed.
Lemma ex_running s : ex_end = Some s -> s_pp s = Exited 0 /\ s_cc s = Running.
Proof. intros E. pose proof ex_runs as H. rewrite E in H. injection H as -> ->. split; reflexivity. Qed.

Lemma init_runs_whole_witness : exists s m,
  ex_end = Some s /\ s_init s = Some m /\ verify_trusted_init m = true /\ exists c, (SentAck, c) ∈ s_log s.
Proof.
  destruct ex_reached as (s & Hr & E). destruct (ex_running s E) as [_ Hc].
  destruct (init_runs_whole _ _ _ _ _ _ _ s ex_factory_creds Hr) as [Hb Hrun].
  destruct (Hrun Hc) as (r & m & k & v & io & _ & Hm & Ht & _ & _ & _ & Ha & _). exists s, m.
  split; [exact E|]. split; [exact Hm|]. split; [exact Ht|].
  destruct Hb as (r' & b & a & c & c' & _ & Hl & _); [rewrite Ha; discriminate|]. rewrite Hl. exists c.
  apply elem_of_app. right. by left.
Defined.
Lemma factory_identities_witness : exists s, ex_end = Some s /\ operator 1000 1000 (s_creds s).
Proof.
  destruct ex_reached as (s & Hr & E). destruct (ex_running s E) as [Hp _]. exists s. split; [exact E|].
  apply (factory_identities _ _ _ _ _ _ _ s ex_factory_creds Hr). exact Hp.
Defined.
Lemma factory_ends_witness : exists s',
  pstep ex_inp (init_sys ex_creds) = Some s' \/ cstep ex_inp (init_sys ex_creds) = Some s'.
Proof.
  destruct (factory_ends _ _ _ _ _ _ _ (init_sys ex_creds) ex_factory_creds
    (reach_init (F := Z) (fun _ _ => Some ex_home) ex_data [] 1000 1000 ex_host ex_creds))
    as [_ [[H _]|H]]; [discriminate H|].
  exact (H ex_inp eq_refl).
Defined.
Lemma kennel_view_granted_witness :
  exists s k v, ex_end = Some s /\ s_kennel s = Some (k, v) /\
    forall p f q ro, place (st_table v) p = Some (f, q, ro) -> tree_within (grants ex_view) ex_view ex_root f q.
Proof.
  destruct ex_reached as (s & Hr & E). destruct (ex_running s E) as [_ Hc].
  assert (Hrx : factory_receive (A := Z) ex_data [] = Ok {| rc_half := ex_half; rc_egress := []; rc_pty := None;
      rc_workload := None; rc_stdio := None; rc_left := [] |}) by (vm_compute; reflexivity).
  destruct (kennel_view_granted _ _ _ _ _ _ _ s _ ex_view ex_root ex_factory_creds Hr Hc Hrx eq_refl eq_refl) as (k & v & Hk & Hv).
  - discriminate.
  - apply ex_host_ok.
  - intros img [=].
  - exists s, k, v. auto.
Defined.
