(* ===== verification/Init.v ===== *)
(** The init of a kennel ([kennel-bin-init/src/main.rs], [kennel-lib-syscall/src/spawn.rs]).

    PID 1 checks that it is in a kennel's user namespace, places the mesh mounts, forks the facades and
    the workload, and supervises them.  The forked child is a machine over what the kernel keeps of
    a process: its credentials (as in [Construct]), groups, working directory, SELinux exec context,
    [no_new_privs], seccomp filters, Landlock layers and limits; every system call may fail, [io]
    being a function of the number of the step.  A system call the installed filter denies is such a
    failure; the Landlock ruleset is that of [Landlock].  The supervise loop is a function of what each
    iteration sees: the alarm with the reply of the daemon, an interruption, a reaped child with the
    answer of a fork and the times read.
    The bus itself and tracing are left out; what is sent on it is the log of the loop.

    Theorems: a workload runs only fully sealed, and does if nothing fails ([workload_sealed]); a
    facade is dropped and not sealed ([facade_dropped]); the init accepts the map the factory writes
    ([init_accepts_factory_map]); a facade is never started more than five times in ten seconds
    ([facade_starts_bounded]); how the loop ends ([supervise_ends_with]); which program a bare name
    is ([resolve_program_exact]); what the rendezvous adds to the rules ([mesh_rules_exact]). *)

From stdpp Require Import gmap.
From S2P Require Import Prelude Bytes Str Paths IpText Plan Settled PlanBuild Landlock Factory Verify Patch Construct Substitute.
Open Scope Z_scope.

(** * The process machine *)

Inductive Tty : Type := NoTty | ViewPty | StdinTty.
Record Proc : Type := {
  p_step : nat; p_creds : Creds; p_groups : option (list Z); p_cwd : option bytes; p_exec_context : option bytes;
  p_tty : Tty; p_nnp : bool; p_filters : list (list Z * Action);
  p_landlock : list Layer; p_limits : list (Resource * Z * Z); p_stdio : bool;
}.
Definition with_proc_creds (c : Creds) (p : Proc) : Proc :=
  {| p_step := p_step p; p_creds := c; p_groups := p_groups p; p_cwd := p_cwd p; p_exec_context := p_exec_context p;
     p_tty := p_tty p; p_nnp := p_nnp p; p_filters := p_filters p; p_landlock := p_landlock p; p_limits := p_limits p;
     p_stdio := p_stdio p |}.
Definition with_groups (g : list Z) (p : Proc) : Proc :=
  {| p_step := p_step p; p_creds := p_creds p; p_groups := Some g; p_cwd := p_cwd p; p_exec_context := p_exec_context p;
     p_tty := p_tty p; p_nnp := p_nnp p; p_filters := p_filters p; p_landlock := p_landlock p; p_limits := p_limits p;
     p_stdio := p_stdio p |}.
Definition with_cwd (d : bytes) (p : Proc) : Proc :=
  {| p_step := p_step p; p_creds := p_creds p; p_groups := p_groups p; p_cwd := Some d; p_exec_context := p_exec_context p;
     p_tty := p_tty p; p_nnp := p_nnp p; p_filters := p_filters p; p_landlock := p_landlock p; p_limits := p_limits p;
     p_stdio := p_stdio p |}.
Definition with_context (c : bytes) (p : Proc) : Proc :=
  {| p_step := p_step p; p_creds := p_creds p; p_groups := p_groups p; p_cwd := p_cwd p; p_exec_context := Some c;
     p_tty := p_tty p; p_nnp := p_nnp p; p_filters := p_filters p; p_landlock := p_landlock p; p_limits := p_limits p;
     p_stdio := p_stdio p |}.
Definition with_tty (t : Tty) (p : Proc) : Proc :=
  {| p_step := p_step p; p_creds := p_creds p; p_groups := p_groups p; p_cwd := p_cwd p; p_exec_context := p_exec_context p;
     p_tty := t; p_nnp := p_nnp p; p_filters := p_filters p; p_landlock := p_landlock p; p_limits := p_limits p;
     p_stdio := p_stdio p |}.
Definition with_nnp (p : Proc) : Proc :=
  {| p_step := p_step p; p_creds := p_creds p; p_groups := p_groups p; p_cwd := p_cwd p; p_exec_context := p_exec_context p;
     p_tty := p_tty p; p_nnp := true; p_filters := p_filters p; p_landlock := p_landlock p; p_limits := p_limits p;
     p_stdio := p_stdio p |}.
Definition with_filter (f : list Z * Action) (p : Proc) : Proc :=
  {| p_step := p_step p; p_creds := p_creds p; p_groups := p_groups p; p_cwd := p_cwd p; p_exec_context := p_exec_context p;
     p_tty := p_tty p; p_nnp := p_nnp p; p_filters := p_filters p ++ [f]; p_landlock := p_landlock p; p_limits := p_limits p;
     p_stdio := p_stdio p |}.
Definition with_layer (l : Layer) (p : Proc) : Proc :=
  {| p_step := p_step p; p_creds := p_creds p; p_groups := p_groups p; p_cwd := p_cwd p; p_exec_context := p_exec_context p;
     p_tty := p_tty p; p_nnp := p_nnp p; p_filters := p_filters p; p_landlock := p_landlock p ++ [l]; p_limits := p_limits p;
     p_stdio := p_stdio p |}.
Definition with_limit (l : Resource * Z * Z) (p : Proc) : Proc :=
  {| p_step := p_step p; p_creds := p_creds p; p_groups := p_groups p; p_cwd := p_cwd p; p_exec_context := p_exec_context p;
     p_tty := p_tty p; p_nnp := p_nnp p; p_filters := p_filters p; p_landlock := p_landlock p; p_limits := p_limits p ++ [l];
     p_stdio := p_stdio p |}.
Definition with_stdio (p : Proc) : Proc :=
  {| p_step := p_step p; p_creds := p_creds p; p_groups := p_groups p; p_cwd := p_cwd p; p_exec_context := p_exec_context p;
     p_tty := p_tty p; p_nnp := p_nnp p; p_filters := p_filters p; p_landlock := p_landlock p; p_limits := p_limits p;
     p_stdio := true |}.
Definition tick (p : Proc) : Proc :=
  {| p_step := S (p_step p); p_creds := p_creds p; p_groups := p_groups p; p_cwd := p_cwd p; p_exec_context := p_exec_context p;
     p_tty := p_tty p; p_nnp := p_nnp p; p_filters := p_filters p; p_landlock := p_landlock p; p_limits := p_limits p;
     p_stdio := p_stdio p |}.

(** A step of the seal: the process after it, or a failure. *)
Definition seal_m : Type := Proc -> option Proc.
Definition andthen (a b : seal_m) : seal_m := fun p => match a p with Some p => b p | None => None end.
Declare Scope seal_scope.
Notation "a ;; b" := (andthen a b) (at level 100, b at level 200, right associativity) : seal_scope.
Local Open Scope seal_scope.
Definition skip : seal_m := Some.

Inductive Target : Type := ByFd (fd : Z) | ByPath (path : bytes).
Inductive Outcome : Type := Execed (t : Target) (p : Proc) | ExitCode (code : Z).

Section process.
Context (io : nat -> bool).

Definition call (f : Proc -> option Proc) : seal_m := fun p =>
  if io (p_step p) then match f (tick p) with Some p => Some p | None => None end else None.
Definition can (f : Proc -> Proc) : seal_m := call (fun p => Some (f p)).
Definition identity (f : Creds -> option Creds) : seal_m :=
  call (fun p => match f (p_creds p) with Some c => Some (with_proc_creds c p) | None => None end).
Definition guard (b : Proc -> bool) : seal_m := fun p => if b p then Some p else None.
Fixpoint all_of {A} (f : A -> seal_m) (l : list A) : seal_m :=
  match l with [] => skip | a :: l => f a ;; all_of f l end.

(** ** [spawn.rs] *)

Definition drop_identity (gid : Z) (groups : option (list Z)) (uid : Z) : seal_m :=
  identity (set_gid gid) ;;
  match groups with Some g => can (with_groups g) | None => skip end ;;
  identity (set_uid uid) ;;
  guard (fun p => negb (c_euid (p_creds p) =? 0)).
Definition fork_drop_exec_confined (path : bytes) (exec_fd : option Z) (gid : Z) (groups : option (list Z)) (uid : Z)
    (seal : seal_m) (p : Proc) : Outcome :=
  match (drop_identity gid groups uid ;; seal) p with
  | None => ExitCode 126
  | Some p => if io (p_step p) then Execed (match exec_fd with Some fd => ByFd fd | None => ByPath path end) (tick p) else ExitCode 127
  end.
Definition fork_drop_exec (path : bytes) (gid : Z) (groups : option (list Z)) (uid : Z) (p : Proc) : Outcome :=
  fork_drop_exec_confined path None gid groups uid skip p.

(** ** The seal, [main.rs] *)

Definition SELINUX_WORKLOAD_TYPE : bytes := ascii_bytes "kennel_workload_t".
Definition SELINUX_TCB_TYPE : bytes := ascii_bytes "kennel_t".
(** The context to ask for; [None] leaves it. *)
Definition workload_context (current : option bytes) : option bytes :=
  match current with
  | None => None
  | Some current =>
      let fields := split_on COLON (trim_end_matches (fun c => (c =? 0) || (c =? 10)) current) in
      if bool_decide (fields !! 2%nat = Some SELINUX_TCB_TYPE)
      then Some (join_with COLON (<[2%nat := SELINUX_WORKLOAD_TYPE]> fields)) else None
  end.
Definition request_selinux_workload_domain (current : option bytes) : seal_m :=
  match workload_context current with Some c => can (with_context c) | None => skip end.

(** [Ruleset::build_fd] and [restrict_current_process]: the ruleset is created, its rules that are not empty
    are added one by one, each a call the kernel may refuse, and the process is restricted to it. *)
Definition build_fd (r : Ruleset) : seal_m :=
  can (fun p => p) ;;
  all_of (fun x => call (fun p => if kernel_accepts_path (lr_fs r) x then Some p else None)) (installed_paths r) ;;
  all_of (fun x => call (fun p => if kernel_accepts_port (lr_net r) x then Some p else None)) (installed_ports r).
Definition restrict_current_process (r : Ruleset) : seal_m :=
  build_fd r ;; can with_nnp ;; can (with_layer (layer_of r)).

Definition workload_cwd (is_dir : bytes -> bool) (sup : Supervision) : bytes :=
  let home := match List.find (fun kv => bool_decide (kv.1 = ascii_bytes "HOME")) (su_env sup) with Some kv => Some kv.2 | None => None end in
  match su_cwd sup with
  | Some c => if is_dir c then c
              else match home with Some h => if is_dir h then h else ascii_bytes "/" | None => ascii_bytes "/" end
  | None => match home with Some h => if is_dir h then h else ascii_bytes "/" | None => ascii_bytes "/" end
  end.

Definition seal (current : option bytes) (is_dir : bytes -> bool) (h : LandlockHost) (sup : Supervision) : seal_m :=
  request_selinux_workload_domain current ;;
  can (with_cwd (workload_cwd is_dir sup)) ;;
  (if su_interactive sup then can (with_tty ViewPty)
   else if negb (su_stdio_injected sup) then fun p => Some (with_tty StdinTty p) else skip) ;;
  can with_nnp ;;
  (if is_nil (su_seccomp_deny sup) then skip else can (with_filter (su_seccomp_deny sup, su_seccomp_deny_action sup))) ;;
  match build_ruleset h (su_landlock_fs sup) (su_landlock_net sup) true with
  | Some r => restrict_current_process r
  | None => fun _ => None
  end ;;
  all_of (fun l => can (with_limit l)) (su_ulimits sup) ;;
  (if su_stdio_injected sup then can with_stdio else skip).

(** [resolve_program]; [metadata] is the mode of a regular file. *)
Definition resolve_program (metadata : bytes -> option Z) (program : bytes) (env : list (bytes * bytes)) : bytes :=
  if has_byte SLASH program then program
  else
    let path := match List.find (fun kv => bool_decide (kv.1 = ascii_bytes "PATH")) env with Some kv => kv.2 | None => [] end in
    match List.find (fun c => match metadata c with Some mode => negb (Z.land mode 73 =? 0) | None => false end)
            (map (fun dir => path_join dir program) (List.filter (fun d => negb (is_nil d)) (split_on COLON path))) with
    | Some c => c
    | None => program
    end.

Definition spawn_workload (metadata : bytes -> option Z) (current : option bytes) (is_dir : bytes -> bool)
    (h : LandlockHost) (sup : Supervision) (p : Proc) : Outcome :=
  fork_drop_exec_confined (resolve_program metadata (su_program sup) (su_env sup))
    (if su_workload_fd_pinned sup then Some WORKLOAD_FD else None)
    (su_drop_gid sup) (su_groups sup) (su_drop_uid sup) (seal current is_dir h sup) p.
Definition fork_facade (facade : AuxProcess) (sup : Supervision) (p : Proc) : Outcome :=
  fork_drop_exec (aux_path facade) (su_drop_gid sup) (su_groups sup) (su_drop_uid sup) p.
End process.

(** PID 1 as the factory leaves it: the kennel's root, with the capabilities of its user namespace. *)
Definition init_proc : Proc :=
  {| p_step := 0; p_creds := {| c_ruid := 0; c_euid := 0; c_suid := 0; c_rgid := 0; c_egid := 0; c_sgid := 0;
                                c_permitted := true; c_effective := true |};
     p_groups := None; p_cwd := None; p_exec_context := None; p_tty := NoTty; p_nnp := false; p_filters := [];
     p_landlock := []; p_limits := []; p_stdio := false |}.

(** * Before the fork *)

Definition require_kennel_userns (uid_map : bytes) : bool :=
  bool_decide (take 3 (split_whitespace uid_map) = [ascii_bytes "0"; ascii_bytes "0"; ascii_bytes "1"]).
(** An interior NUL cannot cross [execve]. *)
Definition cstring (bs : bytes) : option bytes := if has_byte 0 bs then None else Some bs.
Definition to_cstrings (l : list bytes) : option (list bytes) := mapM cstring l.
Definition EQUALS : Z := 61.
Definition env_cstrings (env : list (bytes * bytes)) : option (list bytes) :=
  mapM (fun kv => cstring (kv.1 ++ [EQUALS] ++ kv.2)) env.
Definition facade_argv (f : AuxProcess) : option (list bytes) := mapM cstring (aux_path f :: aux_args f).
Definition pids_payload (pids : list Z) : bytes :=
  le_bytes 4 (Z.min (blen pids) (2 ^ 32 - 1)) ++ flat_map (le_bytes 4) pids.

(** The rendezvous: each mount is moved to its target, which is added to the rules with its device. *)
Definition BINDER : bytes := ascii_bytes "binder".
Definition mesh_rules (target : bytes) : list (bytes * Z) := [(target, FS_READ_DIR); (path_join target BINDER, dev_access)].
Definition with_landlock_fs (fs : list (bytes * Z)) (sup : Supervision) : Supervision :=
  {| su_program := su_program sup; su_argv := su_argv sup; su_env := su_env sup; su_cwd := su_cwd sup;
     su_drop_uid := su_drop_uid sup; su_drop_gid := su_drop_gid sup; su_groups := su_groups sup; su_landlock_fs := fs;
     su_landlock_net := su_landlock_net sup; su_seccomp_deny := su_seccomp_deny sup;
     su_seccomp_deny_action := su_seccomp_deny_action sup; su_ulimits := su_ulimits sup; su_aux := su_aux sup;
     su_interactive := su_interactive sup; su_workload_fd_pinned := su_workload_fd_pinned sup;
     su_stdio_injected := su_stdio_injected sup; su_ttl_seconds := su_ttl_seconds sup; su_log_level := su_log_level sup |}.
(** [moved] is the answer of [create_dir_all] and [move_mount] for a target. *)
Fixpoint place_mounts (moved : Z -> bytes -> bool) (mounts : list (Z * bytes)) (sup : Supervision) : option Supervision :=
  match mounts with
  | [] => Some sup
  | (fd, target) :: mounts =>
      if moved fd target then place_mounts moved mounts (with_landlock_fs (su_landlock_fs sup ++ mesh_rules target) sup) else None
  end.
Definition place_mesh_mounts (moved : Z -> bytes -> bool) (data : bytes) (fds : list Z) (sup : Supervision) : option Supervision :=
  place_mounts moved (decode_mounts (take (Z.to_nat 4096) data) fds) sup.

(** * The supervise loop *)

(** Milliseconds. *)
Definition RESTART_DELAY : Z := 100.
Definition START_LIMIT_BURST : nat := 5.
Definition START_LIMIT_INTERVAL : Z := 10000.
Definition recent (now t : Z) : bool := now - t <? START_LIMIT_INTERVAL.
Definition may_restart (starts : list Z) (now : Z) : bool * list Z :=
  let starts := List.filter (recent now) starts in (bool_decide (length starts < START_LIMIT_BURST)%nat, starts).

Record FacadeState : Type := { fa_aux : nat; fa_starts : list Z }.
(** What an iteration sees: the alarm with the reply of the daemon, [EINTR], an error of [wait], a reaped
    child with the time read, the answer of the fork and the time read after it, or no children. *)
Inductive Wake : Type :=
  | WakeAlarm (reply : option bytes) | WakeInterrupted | WakeError
  | WakeExited (pid code now : Z) (forked : option Z) (after : Z) | WakeNoChildren.
Inductive Sent : Type := SentCrash (pid : Z) | SentRestart (pid : Z) | SentTtl.
Record Loop : Type := {
  lo_facades : gmap Z FacadeState; lo_armed : list Z; lo_sent : list Sent; lo_started : list (nat * Z);
}.
Definition TTL_RENEW : Z := 2.
(** The alarm of a time to live that fits in 32 bits. *)
Definition arm_ttl (sup : Supervision) : list Z :=
  match su_ttl_seconds sup with Some secs => if secs <? 2 ^ 32 then [secs] else [] | None => [] end.
Definition sent (m : Sent) (l : Loop) : Loop :=
  {| lo_facades := lo_facades l; lo_armed := lo_armed l; lo_sent := lo_sent l ++ [m]; lo_started := lo_started l |}.
Definition with_facades (f : gmap Z FacadeState) (l : Loop) : Loop :=
  {| lo_facades := f; lo_armed := lo_armed l; lo_sent := lo_sent l; lo_started := lo_started l |}.
Definition started (aux : nat) (t : Z) (l : Loop) : Loop :=
  {| lo_facades := lo_facades l; lo_armed := lo_armed l; lo_sent := lo_sent l; lo_started := lo_started l ++ [(aux, t)] |}.
Definition armed (a : list Z) (l : Loop) : Loop :=
  {| lo_facades := lo_facades l; lo_armed := lo_armed l ++ a; lo_sent := lo_sent l; lo_started := lo_started l |}.

Definition facade_exited (sup : Supervision) (pid now : Z) (forked : option Z) (after : Z) (l : Loop) : Loop :=
  let l := sent (SentCrash pid) l in
  match lo_facades l !! pid with
  | None => l
  | Some st =>
      let l := with_facades (delete pid (lo_facades l)) l in
      match su_aux sup !! fa_aux st with
      | None => l
      | Some _ =>
          let (may, starts) := may_restart (fa_starts st) now in
          if negb may then l
          else match forked with
               | None => l
               | Some new_pid =>
                   sent (SentRestart new_pid)
                     (started (fa_aux st) after
                        (with_facades (<[new_pid := {| fa_aux := fa_aux st; fa_starts := starts ++ [after] |}]> (lo_facades l)) l))
               end
      end
  end.
Definition supervise_step (workload_pid : Z) (sup : Supervision) (w : Wake) (l : Loop) : Loop + result unit Z :=
  match w with
  | WakeAlarm reply =>
      let l := sent SentTtl l in
      inl (match reply with Some (b :: _) => if b =? TTL_RENEW then armed (arm_ttl sup) l else l | _ => l end)
  | WakeInterrupted => inl l
  | WakeError => inr (Err tt)
  | WakeExited pid code now forked after =>
      if pid =? workload_pid then inr (Ok (Z.land code 255)) else inl (facade_exited sup pid now forked after l)
  | WakeNoChildren => inr (Ok 1)
  end.
Fixpoint supervise_loop (workload_pid : Z) (sup : Supervision) (ws : list Wake) (l : Loop) : Loop * option (result unit Z) :=
  match ws with
  | [] => (l, None)
  | w :: ws => match supervise_step workload_pid sup w l with
               | inl l => supervise_loop workload_pid sup ws l
               | inr r => (l, Some r)
               end
  end.
(** The boot start counts. *)
Fixpoint boot (pids : list Z) (aux : nat) (now : Z) (l : Loop) : Loop :=
  match pids with
  | [] => l
  | pid :: pids =>
      boot pids (S aux) now (started aux now (with_facades (<[pid := {| fa_aux := aux; fa_starts := [now] |}]> (lo_facades l)) l))
  end.
Definition supervise (workload_pid : Z) (sup : Supervision) (facade_pids : list Z) (now : Z) (ws : list Wake) : Loop * option (result unit Z) :=
  supervise_loop workload_pid sup ws
    (armed (arm_ttl sup) (boot facade_pids 0 now {| lo_facades := ∅; lo_armed := []; lo_sent := []; lo_started := [] |})).

(** * The supervision half, [kenneld/src/lib.rs] *)

Record Command : Type := {
  cm_program : bytes; cm_args : list bytes; cm_envs : list (bytes * option bytes); cm_current_dir : option bytes;
}.
Definition supervision_from (plan : Plan) (command : Command) (drop_uid drop_gid log_level : Z) : Supervision :=
  {| su_program := cm_program command;
     su_argv := to_string_lossy (cm_program command) :: map to_string_lossy (cm_args command);
     su_env := omap (fun kv => match kv.2 with Some v => Some (to_string_lossy kv.1, to_string_lossy v) | None => None end) (cm_envs command);
     su_cwd := cm_current_dir command; su_drop_uid := drop_uid; su_drop_gid := drop_gid;
     su_groups := pl_supplementary_groups plan; su_landlock_fs := pl_landlock_fs plan; su_landlock_net := pl_landlock_net plan;
     su_seccomp_deny := pl_seccomp_deny plan; su_seccomp_deny_action := pl_seccomp_deny_action plan;
     su_ulimits := pl_ulimits plan; su_aux := pl_aux plan; su_interactive := negb (is_none (pl_interactive_return_fd plan));
     su_workload_fd_pinned := negb (is_none (pl_workload_fd plan)); su_stdio_injected := negb (is_none (pl_stdio_fds plan));
     su_ttl_seconds := pl_ttl_seconds plan; su_log_level := log_level |}.

(** * The sealed workload *)

Lemma can_inv io f p p' : can io f p = Some p' -> p' = f (tick p).
Proof. unfold can, call. destruct (io _); [intros [= <-]; reflexivity|discriminate]. Qed.
Lemma identity_inv io f p p' : identity io f p = Some p' -> exists c, f (p_creds p) = Some c /\ p' = with_proc_creds c (tick p).
Proof.
  unfold identity, call. destruct (io _); [|discriminate]. cbn. destruct (f (p_creds p)) as [c|]; [|discriminate].
  intros [= <-]. eauto.
Qed.
Lemma andthen_inv a b p p' : andthen a b p = Some p' -> exists q, a p = Some q /\ b q = Some p'.
Proof. unfold andthen. destruct (a p) as [q|]; [eauto|discriminate]. Qed.
Definition same_but_step (p q : Proc) : Prop :=
  (p_creds q, p_groups q, p_cwd q, p_exec_context q, p_tty q, p_nnp q, p_filters q, p_landlock q, p_limits q, p_stdio q) =
  (p_creds p, p_groups p, p_cwd p, p_exec_context p, p_tty p, p_nnp p, p_filters p, p_landlock p, p_limits p, p_stdio p).
Lemma checks_inv io {A} (ok : A -> bool) l p p' :
  all_of (fun x => call io (fun p => if ok x then Some p else None)) l p = Some p' -> same_but_step p p'.
Proof.
  revert p. induction l as [|x l IH]; intros p; [by intros [= <-]|].
  intros (q & Hq & H%IH)%andthen_inv. unfold call in Hq. destruct (io _); [|discriminate]. cbn in Hq.
  destruct (ok x); [|discriminate]. injection Hq as <-. exact H.
Qed.
Lemma build_fd_inv io r p p' : build_fd io r p = Some p' -> same_but_step p p'.
Proof.
  intros (p1 & ->%can_inv & (p2 & H2%checks_inv & H3%checks_inv)%andthen_inv)%andthen_inv.
  unfold same_but_step in *. rewrite H3, H2. reflexivity.
Qed.
Lemma checks_ok {A} (ok : A -> bool) l p :
  forallb ok l = true -> exists p', all_of (fun x => call (fun _ => true) (fun p => if ok x then Some p else None)) l p = Some p'.
Proof.
  revert p. induction l as [|x l IH]; intros p; [eexists; reflexivity|]. intros [Hx Hl]%andb_true_iff.
  destruct (IH (tick p) Hl) as [p' Hp]. exists p'. cbn [all_of]. unfold andthen, call. rewrite Hx. exact Hp.
Qed.
Lemma build_fd_ok h fs net r p : build_ruleset h fs net true = Some r -> exists p', build_fd (fun _ => true) r p = Some p'.
Proof.
  intros [H1 H2]%rules_accepted. unfold build_fd, andthen at 1. cbn.
  destruct (checks_ok _ _ (tick p) H1) as [p1 E1]. destruct (checks_ok _ _ p1 H2) as [p2 E2].
  exists p2. unfold andthen. rewrite E1. exact E2.
Qed.
Lemma limits_inv io l p p' :
  all_of (fun x => can io (with_limit x)) l p = Some p' ->
  p_limits p' = p_limits p ++ l /\
  (p_creds p', p_groups p', p_cwd p', p_exec_context p', p_tty p', p_nnp p', p_filters p', p_landlock p', p_stdio p') =
  (p_creds p, p_groups p, p_cwd p, p_exec_context p, p_tty p, p_nnp p, p_filters p, p_landlock p, p_stdio p).
Proof.
  revert p. induction l as [|x l IH]; intros p.
  - intros [= <-]. rewrite app_nil_r. auto.
  - intros (q & ->%can_inv & [H1 H2]%IH)%andthen_inv. cbn in H1, H2. rewrite H1, H2, <- app_assoc. auto.
Qed.
Lemma can_ok f p : can (fun _ => true) f p = Some (f (tick p)).
Proof. reflexivity. Qed.
Lemma limits_ok l p : exists p', all_of (fun x => can (fun _ => true) (with_limit x)) l p = Some p'.
Proof. revert p. induction l as [|x l IH]; intros p; [eexists; reflexivity|]. apply (IH (with_limit x (tick p))). Qed.

Definition operator_creds (sup : Supervision) (c : Creds) : Prop :=
  c = {| c_ruid := su_drop_uid sup; c_euid := su_drop_uid sup; c_suid := su_drop_uid sup;
         c_rgid := su_drop_gid sup; c_egid := su_drop_gid sup; c_sgid := su_drop_gid sup;
         c_permitted := false; c_effective := false |}.
Lemma drop_inv io sup p :
  drop_identity io (su_drop_gid sup) (su_groups sup) (su_drop_uid sup) init_proc = Some p ->
  su_drop_uid sup <> 0 /\ operator_creds sup (p_creds p) /\ p_groups p = su_groups sup /\
  (p_cwd p, p_exec_context p, p_tty p, p_nnp p, p_filters p, p_landlock p, p_limits p, p_stdio p) =
  (None, None, NoTty, false, [], [], [], false).
Proof.
  intros (p1 & (c1 & [= <-] & ->)%identity_inv & (p2 & H2 & (p3 & (c3 & E3 & ->)%identity_inv & H4)%andthen_inv)%andthen_inv)%andthen_inv.
  assert (Hp2 : p_creds p2 = with_gids (su_drop_gid sup) (su_drop_gid sup) (su_drop_gid sup) (p_creds init_proc) /\
                p_groups p2 = su_groups sup /\
                (p_cwd p2, p_exec_context p2, p_tty p2, p_nnp p2, p_filters p2, p_landlock p2, p_limits p2, p_stdio p2) =
                (None, None, NoTty, false, [], [], [], false)).
  { destruct (su_groups sup) as [g|]; [apply can_inv in H2 as ->|injection H2 as <-]; auto. }
  destruct Hp2 as (Hc & Hg & Hr). rewrite Hc in E3. injection E3 as <-. unfold guard in H4. cbn in H4.
  destruct (Z.eqb_spec (su_drop_uid sup) 0) as [E|E]; [discriminate|]. injection H4 as <-. cbn.
  split; [exact E|]. split; [|split; [exact Hg|exact Hr]]. unfold operator_creds, with_uids. cbn.
  apply Z.eqb_neq in E. rewrite !E. reflexivity.
Qed.

(** The Landlock layer of a workload: it handles what the kernel's ABI defines; its path rules are those of
    the policy whose path the view has, masked to the ABI and off directories to the rights of files, and not
    left empty; its ports those of the policy, masked to the ABI; and no path of a rule was refused. *)
Definition layer_ok (h : LandlockHost) (sup : Supervision) (l : Layer) : Prop :=
  exists abi, lh_abi h = Some abi /\
    ly_fs l = supported_fs abi /\ ly_net l = supported_net abi /\ ly_scope l = supported_scope abi /\
    (forall x, x ∈ ly_paths l <-> pr_access x <> 0 /\ lh_open h (pr_path x) = Opened (pr_dir x) /\
       exists access, (pr_path x, access) ∈ su_landlock_fs sup /\ pr_access x = mask abi (pr_dir x) access) /\
    (forall port a, (port, a) ∈ ly_ports l <-> a <> 0 /\
       exists access, (port, access) ∈ su_landlock_net sup /\ a = Z.land access (supported_net abi)) /\
    (forall path access, (path, access) ∈ su_landlock_fs sup -> lh_open h path <> OpenRefused).
Lemma build_layer_ok h sup r :
  build_ruleset h (su_landlock_fs sup) (su_landlock_net sup) true = Some r -> layer_ok h sup (layer_of r).
Proof.
  intros H. destruct (layer_exact h (su_landlock_fs sup) (su_landlock_net sup)) as [Hx Hn].
  destruct (Hx r H) as (abi & Ha & Hf & Hnet & Hsc & Hp & Hpo). exists abi. split_and!; try assumption.
  intros path access Hin Hr. assert (build_ruleset h (su_landlock_fs sup) (su_landlock_net sup) true = None); [|congruence].
  apply Hn. right. eauto.
Qed.
Definition sealed (current : option bytes) (is_dir : bytes -> bool) (h : LandlockHost) (sup : Supervision) (p : Proc) : Prop :=
  su_drop_uid sup <> 0 /\ operator_creds sup (p_creds p) /\ p_groups p = su_groups sup /\
  p_cwd p = Some (workload_cwd is_dir sup) /\ p_exec_context p = workload_context current /\ p_nnp p = true /\
  p_filters p = (if is_nil (su_seccomp_deny sup) then [] else [(su_seccomp_deny sup, su_seccomp_deny_action sup)]) /\
  (exists l, p_landlock p = [l] /\ layer_ok h sup l) /\
  p_limits p = su_ulimits sup /\ p_stdio p = su_stdio_injected sup.

Lemma seal_inv io current is_dir h sup p p' :
  seal io current is_dir h sup p = Some p' ->
  (p_exec_context p, p_nnp p, p_filters p, p_landlock p, p_limits p, p_stdio p) = (None, false, [], [], [], false) ->
  p_creds p' = p_creds p /\ p_groups p' = p_groups p /\
  p_cwd p' = Some (workload_cwd is_dir sup) /\ p_exec_context p' = workload_context current /\ p_nnp p' = true /\
  p_filters p' = (if is_nil (su_seccomp_deny sup) then [] else [(su_seccomp_deny sup, su_seccomp_deny_action sup)]) /\
  (exists l, p_landlock p' = [l] /\ layer_ok h sup l) /\
  p_limits p' = su_ulimits sup /\ p_stdio p' = su_stdio_injected sup.
Proof.
  unfold seal. intros (p1 & H1 & (p2 & ->%can_inv & (p3 & H3 & (p4 & ->%can_inv & (p5 & H5 & (p6 & H6 & (p7 & H7 & H8)
    %andthen_inv)%andthen_inv)%andthen_inv)%andthen_inv)%andthen_inv)%andthen_inv)%andthen_inv [= Hx Hn Hf Hl Hm Hs].
  assert (E1 : p_exec_context p1 = workload_context current /\
    (p_creds p1, p_groups p1, p_filters p1, p_landlock p1, p_limits p1, p_stdio p1) = (p_creds p, p_groups p, [], [], [], false)).
  { unfold request_selinux_workload_domain in H1. destruct (workload_context current);
      [apply can_inv in H1 as ->|injection H1 as <-]; cbn; rewrite ?Hx, ?Hf, ?Hl, ?Hm, ?Hs; auto. }
  assert (E3 : (p_creds p3, p_groups p3, p_cwd p3, p_exec_context p3, p_filters p3, p_landlock p3, p_limits p3, p_stdio p3) =
    (p_creds p1, p_groups p1, Some (workload_cwd is_dir sup), p_exec_context p1, p_filters p1, p_landlock p1, p_limits p1, p_stdio p1)).
  { destruct (su_interactive sup); [apply can_inv in H3 as ->; reflexivity|].
    destruct (negb (su_stdio_injected sup)); injection H3 as <-; reflexivity. }
  destruct E1 as [Ex [= Ec Eg Ef El Em Es]]. injection E3 as Fc Fg Fw Fx Ff Fl Fm Fs.
  destruct (build_ruleset h (su_landlock_fs sup) (su_landlock_net sup) true) as [r|] eqn:Er; [|discriminate].
  apply build_layer_ok in Er.
  apply andthen_inv in H6 as (p5' & [= N1 N2 N3 N4 N5 N6 N7 N8 N9 N10]%build_fd_inv & (p6' & ->%can_inv & ->%can_inv)%andthen_inv).
  apply limits_inv in H7 as [G1 G2]. cbn in G1, G2. injection G2 as G2 G3 G4 G5 G6 G7 G8 G9 G10.
  assert (Hcommon : p_creds p5 = p_creds p /\ p_groups p5 = p_groups p /\ p_cwd p5 = Some (workload_cwd is_dir sup) /\
     p_exec_context p5 = workload_context current /\ p_landlock p5 = [] /\ p_limits p5 = [] /\ p_stdio p5 = false /\
     p_filters p5 = (if is_nil (su_seccomp_deny sup) then [] else [(su_seccomp_deny sup, su_seccomp_deny_action sup)])).
  { destruct (is_nil (su_seccomp_deny sup)); [injection H5 as <-|apply can_inv in H5 as ->]; cbn;
      rewrite ?Fc, ?Fg, ?Fw, ?Fx, ?Ff, ?Fl, ?Fm, ?Fs, ?Ec, ?Eg, ?Ex, ?Ef, ?El, ?Em, ?Es; auto 10. }
  destruct Hcommon as (K1 & K2 & K3 & K4 & K5 & K6 & K7 & K8).
  assert (Hlast : p_stdio p' = su_stdio_injected sup /\
     (p_creds p', p_groups p', p_cwd p', p_exec_context p', p_nnp p', p_filters p', p_landlock p', p_limits p') =
     (p_creds p7, p_groups p7, p_cwd p7, p_exec_context p7, p_nnp p7, p_filters p7, p_landlock p7, p_limits p7)).
  { destruct (su_stdio_injected sup); [apply can_inv in H8 as ->; auto|]. injection H8 as <-. split; [congruence|reflexivity]. }
  destruct Hlast as [L0 [= L1 L2 L3 L4 L5 L6 L7 L8]].
  rewrite L0, L1, L2, L3, L4, L5, L6, L7, L8, G1, G2, G3, G4, G5, G7, G8, G9, N1, N2, N3, N4, N7, N8, N9, K1, K2, K3, K4, K5, K6, K8. cbn. eauto 15.
Qed.

(** C11: A workload that runs is sealed whole: it has the masked operator's ids and groups, not uid 0, and no
    capability; its directory is in the view; [no_new_privs] is set; exactly the policy's seccomp filter is on,
    every limit, and the injected standard streams if there are any; under SELinux it goes to the bounded domain.
    One Landlock layer is on.  It handles all the rights, and has all the scopes, of the running kernel's ABI; its
    rules are those of the policy whose path the view has, each masked to the ABI and, on what is not a
    directory, to the rights of files, the empty ones dropped; its ports are the policy's where the ABI has
    ports (from 4).  A failure of any step, and a request to run as uid 0, ends the child before the program.  What
    runs is the descriptor the daemon hashed, if it pinned one.  And if the kernel has Landlock, no path is refused
    and no other call fails, it runs: no rule is one that the kernel rejects. *)
Theorem workload_sealed metadata current is_dir h sup :
  (forall io t p, spawn_workload io metadata current is_dir h sup init_proc = Execed t p ->
     sealed current is_dir h sup p /\
     t = if su_workload_fd_pinned sup then ByFd WORKLOAD_FD else ByPath (resolve_program metadata (su_program sup) (su_env sup))) /\
  (su_drop_uid sup <> 0 -> lh_abi h <> None ->
     (forall path access, (path, access) ∈ su_landlock_fs sup -> lh_open h path <> OpenRefused) ->
     exists t p, spawn_workload (fun _ => true) metadata current is_dir h sup init_proc = Execed t p).
Proof.
  split.
  - intros io t p. unfold spawn_workload, fork_drop_exec_confined.
    destruct (andthen _ _ init_proc) as [q|] eqn:E; [|discriminate]. destruct (io (p_step q)); [|discriminate].
    intros [= <- <-]. split; [|destruct (su_workload_fd_pinned sup); reflexivity].
    apply andthen_inv in E as (q1 & (Hu & Hc & Hg & [= Hw Hx Ht Hn Hf Hl Hm Hs])%drop_inv & H).
    apply seal_inv in H; [|congruence]. destruct H as (A1 & A2 & A3). unfold sealed. cbn.
    rewrite A1, A2. auto.
  - intros Hu Ha Hr. unfold spawn_workload, fork_drop_exec_confined.
    assert (Hd : exists q, drop_identity (fun _ => true) (su_drop_gid sup) (su_groups sup) (su_drop_uid sup) init_proc = Some q).
    { unfold drop_identity, andthen, identity, call, guard. cbn. apply Z.eqb_neq in Hu.
      destruct (su_groups sup); cbn; rewrite Hu; eauto. }
    destruct Hd as [q Hq]. unfold andthen at 1. rewrite Hq.
    assert (Hs : exists q', seal (fun _ => true) current is_dir h sup q = Some q'); [|destruct Hs as [q' ->]; eauto].
    unfold seal, request_selinux_workload_domain.
    destruct (build_ruleset h (su_landlock_fs sup) (su_landlock_net sup) true) as [r|] eqn:Er.
    2: { apply layer_exact in Er as [?|(path & access & Hin & Hx)]; [contradiction|]. destruct (Hr path access Hin Hx). }
    unfold restrict_current_process.
    destruct (workload_context current), (su_interactive sup), (su_stdio_injected sup), (is_nil (su_seccomp_deny sup));
      unfold andthen, skip; cbn -[all_of build_fd];
      (match goal with |- context [build_fd _ _ ?z] => destruct (build_fd_ok h _ _ r z Er) as [z0 ->] end); cbn -[all_of];
      (match goal with |- context [all_of _ _ ?z] => destruct (limits_ok (su_ulimits sup) z) as [z' ->] end); eauto.
Qed.

(** A facade that runs has the operator's ids, is not root, and is not sealed: it has to reach the bus. *)
Theorem facade_dropped io facade sup t p :
  fork_facade io facade sup init_proc = Execed t p ->
  t = ByPath (aux_path facade) /\ su_drop_uid sup <> 0 /\ operator_creds sup (p_creds p) /\ p_groups p = su_groups sup /\
  p_nnp p = false /\ p_filters p = [] /\ p_landlock p = [].
Proof.
  unfold fork_facade, fork_drop_exec, fork_drop_exec_confined. destruct (andthen _ _ init_proc) as [q|] eqn:E; [|discriminate].
  destruct (io (p_step q)); [|discriminate]. intros [= <- <-].
  apply andthen_inv in E as (q1 & (Hu & Hc & Hg & [= Hw Hx Ht Hn Hf Hl Hm Hs])%drop_inv & [= <-]). cbn. auto 10.
Qed.

(** * The namespace check *)

(** The map the factory writes passes the check, whoever the operator is; the initial namespace's does not. *)
Theorem init_accepts_factory_map uid gid granted :
  require_kennel_userns (build_identity_maps uid gid granted).1 = true /\
  require_kennel_userns (ascii_bytes "         0          0 4294967295") = false.
Proof.
  split; [|vm_compute; reflexivity]. unfold build_identity_maps. cbn [fst]. apply bool_decide_eq_true.
  destruct (negb (uid =? 0)); [|reflexivity]. destruct (map_line uid); reflexivity.
Qed.

(** * Starts of a facade *)

Definition times (aux : nat) (started : list (nat * Z)) : list Z :=
  map snd (List.filter (fun x => Nat.eqb x.1 aux) started).
(** The starts in the ten seconds that end at [x]. *)
Definition in_window (x t : Z) : bool := (x - START_LIMIT_INTERVAL <? t) && (t <=? x).
Definition starts_in (aux : nat) (x : Z) (started : list (nat * Z)) : nat := length (List.filter (in_window x) (times aux started)).
(** The clock does not go back. *)
Fixpoint clocked (clock : Z) (ws : list Wake) : Prop :=
  match ws with
  | [] => True
  | WakeExited _ _ now _ after :: ws => clock <= now <= after /\ clocked after ws
  | _ :: ws => clocked clock ws
  end.

Record Counted (clock : Z) (l : Loop) : Prop := {
  ct_one : forall p1 p2 s1 s2, lo_facades l !! p1 = Some s1 -> lo_facades l !! p2 = Some s2 -> fa_aux s1 = fa_aux s2 -> p1 = p2;
  ct_starts : forall pid st, lo_facades l !! pid = Some st -> forall now, clock <= now ->
     List.filter (recent now) (fa_starts st) = List.filter (recent now) (times (fa_aux st) (lo_started l));
  ct_bound : forall aux x, (starts_in aux x (lo_started l) <= START_LIMIT_BURST)%nat;
  ct_past : Forall (fun x => x.2 <= clock) (lo_started l);
}.

Lemma times_snoc aux a t L : times aux (L ++ [(a, t)]) = times aux L ++ (if Nat.eqb a aux then [t] else []).
Proof. unfold times. rewrite List.filter_app, map_app. cbn. destruct (Nat.eqb a aux); reflexivity. Qed.
Lemma filter_le {A} (f g : A -> bool) l : (forall a, f a = true -> g a = true) -> (length (List.filter f l) <= length (List.filter g l))%nat.
Proof.
  intros H. induction l as [|a l IH]; [reflexivity|]. cbn. destruct (f a) eqn:E; [rewrite (H a E); cbn; lia|].
  destruct (g a); cbn; lia.
Qed.
Lemma filter_twice now now' l : now <= now' -> List.filter (recent now') (List.filter (recent now) l) = List.filter (recent now') l.
Proof.
  intros H. induction l as [|a l IH]; [reflexivity|]. cbn. destruct (recent now a) eqn:E; cbn; rewrite IH; [reflexivity|].
  replace (recent now' a) with false; [reflexivity|]. symmetry. unfold recent in *. apply Z.ltb_ge in E. apply Z.ltb_ge. lia.
Qed.

Lemma counted_later clock clock' l : clock <= clock' -> Counted clock l -> Counted clock' l.
Proof.
  intros Hc []. constructor; auto.
  - intros pid st Hl now Hn. apply (ct_starts0 pid st Hl). lia.
  - apply (Forall_impl _ _ _ ct_past0). intros x. lia.
Qed.
Lemma counted_sent clock m l : Counted clock l -> Counted clock (sent m l).
Proof. intros []. constructor; auto. Qed.
Lemma counted_delete clock pid l : Counted clock l -> Counted clock (with_facades (delete pid (lo_facades l)) l).
Proof.
  intros []. constructor; cbn; auto.
  - intros p1 p2 s1 s2 [_ H1]%lookup_delete_Some [_ H2]%lookup_delete_Some. apply ct_one0; assumption.
  - intros p st [_ H]%lookup_delete_Some. apply (ct_starts0 p st H).
Qed.
(** A start that [may_restart] allowed. *)
Lemma counted_start clock now after pid st np l :
  Counted clock l -> clock <= now <= after -> lo_facades l !! pid = Some st ->
  (length (List.filter (recent now) (fa_starts st)) < START_LIMIT_BURST)%nat ->
  Counted after (started (fa_aux st) after (with_facades
    (<[np := {| fa_aux := fa_aux st; fa_starts := List.filter (recent now) (fa_starts st) ++ [after] |}]> (delete pid (lo_facades l))) l)).
Proof.
  intros [] Hc Hl Hlt. rewrite (ct_starts0 pid st Hl) in Hlt by lia. constructor; cbn [started with_facades lo_started lo_facades].
  - intros p1 p2 s1 s2 [[<- <-]|[N1 [Q1 H1]%lookup_delete_Some]]%lookup_insert_Some [[<- <-]|[N2 [Q2 H2]%lookup_delete_Some]]%lookup_insert_Some; cbn [fa_aux].
    + reflexivity.
    + intros E. destruct Q2. apply (ct_one0 _ _ _ _ Hl H2 E).
    + intros E. destruct Q1. apply (ct_one0 _ _ _ _ Hl H1). congruence.
    + apply ct_one0; assumption.
  - intros p s [[<- <-]|[N [Q H]%lookup_delete_Some]]%lookup_insert_Some x Hx; cbn [fa_aux fa_starts].
    + rewrite times_snoc, Nat.eqb_refl, !List.filter_app, filter_twice, (ct_starts0 pid st Hl) by lia. reflexivity.
    + rewrite times_snoc. replace (Nat.eqb (fa_aux st) (fa_aux s)) with false.
      * rewrite app_nil_r. apply (ct_starts0 p s H). lia.
      * symmetry. apply Nat.eqb_neq. intros E. apply Q. apply (ct_one0 _ _ _ _ Hl H E).
  - intros aux x. unfold starts_in. rewrite times_snoc. destruct (Nat.eqb_spec (fa_aux st) aux) as [<-|]; [|rewrite app_nil_r; apply ct_bound0].
    rewrite List.filter_app, length_app. cbn. destruct (in_window x after) eqn:Ew; cbn; [|rewrite Nat.add_0_r; apply ct_bound0].
    enough (length (List.filter (in_window x) (times (fa_aux st) (lo_started l))) <= length (List.filter (recent now) (times (fa_aux st) (lo_started l))))%nat by lia.
    apply filter_le. unfold in_window, recent in *. intros a. rewrite !andb_true_iff, !Z.ltb_lt, Z.leb_le in *. lia.
  - apply Forall_app. split; [apply (Forall_impl _ _ _ ct_past0); intros x; lia|]. constructor; [cbn; lia|constructor].
Qed.

Lemma counted_exited sup pid now forked after clock l :
  Counted clock l -> clock <= now <= after -> Counted after (facade_exited sup pid now forked after l).
Proof.
  intros HC Hc. assert (HL : Counted after l) by (apply (counted_later clock); [lia|exact HC]). unfold facade_exited. cbn [sent lo_facades].
  destruct (lo_facades l !! pid) as [st|] eqn:El; [|apply counted_sent; exact HL].
  assert (HD : Counted after (with_facades (delete pid (lo_facades l)) (sent (SentCrash pid) l)))
    by (apply (counted_delete after pid (sent (SentCrash pid) l)), counted_sent; exact HL).
  destruct (su_aux sup !! fa_aux st); [|exact HD]. unfold may_restart.
  destruct (bool_decide_reflect (length (List.filter (recent now) (fa_starts st)) < START_LIMIT_BURST)%nat) as [Hlt|]; cbn [negb]; [|exact HD].
  destruct forked as [np|]; [|exact HD]. apply counted_sent.
  apply (counted_start clock now after pid st np (sent (SentCrash pid) l)); auto using counted_sent.
Qed.
Lemma counted_loop wp sup ws : forall clock l l' r,
  Counted clock l -> clocked clock ws -> supervise_loop wp sup ws l = (l', r) -> exists clock', Counted clock' l'.
Proof.
  induction ws as [|w ws IH]; intros clock l l' r HC Hw; cbn [supervise_loop]; [intros [= <- _]; eauto|].
  destruct w as [reply| | |pid code now forked after|]; cbn [supervise_step clocked] in *.
  - apply (IH clock); [|exact Hw].
    destruct reply as [[|b bs]|]; [apply counted_sent; exact HC| |apply counted_sent; exact HC].
    destruct (b =? TTL_RENEW); [|apply counted_sent; exact HC]. destruct HC. constructor; auto.
  - apply (IH clock); assumption.
  - intros [= <- _]. eauto.
  - destruct (pid =? wp); [intros [= <- _]; eauto|]. apply (IH after); [apply (counted_exited _ _ _ _ _ clock); tauto|tauto].
  - intros [= <- _]. eauto.
Qed.
Lemma counted_boot pids : forall aux now l,
  (forall pid st, lo_facades l !! pid = Some st -> (fa_aux st < aux)%nat /\ fa_starts st = [now] /\ times (fa_aux st) (lo_started l) = [now]) ->
  (forall p1 p2 s1 s2, lo_facades l !! p1 = Some s1 -> lo_facades l !! p2 = Some s2 -> fa_aux s1 = fa_aux s2 -> p1 = p2) ->
  (forall a, (a < aux)%nat -> (length (times a (lo_started l)) <= 1)%nat) -> (forall a, (aux <= a)%nat -> times a (lo_started l) = []) ->
  Forall (fun x => x.2 <= now) (lo_started l) -> Counted now (boot pids aux now l).
Proof.
  induction pids as [|pid pids IH]; intros aux now l Hs H1 Hlt Hge Hp; cbn [boot].
  - constructor; auto.
    + intros p st H x _. destruct (Hs p st H) as (_ & -> & ->). reflexivity.
    + intros a x. unfold starts_in. assert (length (times a (lo_started l)) <= 1)%nat.
      { destruct (le_lt_dec aux a) as [Ha|Ha]; [rewrite Hge by exact Ha; cbn; lia|auto]. }
      pose proof (filter_le (in_window x) (fun _ => true) (times a (lo_started l)) ltac:(auto)).
      assert (E : forall k : list Z, List.filter (fun _ => true) k = k) by (induction k; cbn; congruence).
      rewrite E in H0. unfold START_LIMIT_BURST. lia.
  - apply IH; cbn [started with_facades lo_started lo_facades].
    + intros p st [[<- <-]|[N H]]%lookup_insert_Some; cbn [fa_aux fa_starts]; rewrite times_snoc.
      * rewrite Nat.eqb_refl, Hge by lia. auto.
      * destruct (Hs p st H) as (Ha & Hst & Ht). rewrite Hst, Ht. replace (Nat.eqb aux (fa_aux st)) with false; [auto|].
        symmetry. apply Nat.eqb_neq. lia.
    + intros p1 p2 s1 s2 [[<- <-]|[N1 Q1]]%lookup_insert_Some [[<- <-]|[N2 Q2]]%lookup_insert_Some; cbn; [reflexivity| | |apply H1; assumption].
      * destruct (Hs p2 s2 Q2). lia.
      * destruct (Hs p1 s1 Q1). lia.
    + intros a Ha. rewrite times_snoc. destruct (Nat.eqb_spec aux a) as [<-|]; [rewrite Hge by lia; cbn; lia|].
      rewrite app_nil_r. apply Hlt. lia.
    + intros a Ha. rewrite times_snoc. destruct (Nat.eqb_spec aux a); [lia|]. rewrite app_nil_r. apply Hge. lia.
    + apply Forall_app. split; [exact Hp|]. constructor; [cbn; lia|constructor].
Qed.

(** C37: No facade is started more than five times in any ten seconds, the start at boot included, whatever
    crashes, forks that fail and interruptions the loop sees, and for however long it runs. *)
Theorem facade_starts_bounded wp sup pids now ws l r aux x :
  clocked now ws -> supervise wp sup pids now ws = (l, r) -> (starts_in aux x (lo_started l) <= 5)%nat.
Proof.
  intros Hw E. unfold supervise in E. apply counted_loop with (clock := now) in E as [c HC]; [apply (ct_bound _ _ HC)| |exact Hw].
  set (l0 := {| lo_facades := ∅; lo_armed := []; lo_sent := []; lo_started := [] |}).
  assert (HB : Counted now (boot pids 0 now l0)).
  { apply counted_boot; cbn; try (intros ? ? H; rewrite lookup_empty in H; discriminate); auto; try lia.
    intros p1 p2 s1 s2 H. rewrite lookup_empty in H. discriminate. }
  destruct HB. constructor; auto.
Qed.

(** * How the loop ends *)

Definition ending (workload_pid : Z) (w : Wake) : option (result unit Z) :=
  match w with
  | WakeError => Some (Err tt)
  | WakeExited pid code _ _ _ => if pid =? workload_pid then Some (Ok (Z.land code 255)) else None
  | WakeNoChildren => Some (Ok 1)
  | _ => None
  end.
(** The loop returns at the first of the workload's exit, with its status, the last child gone, with 1, and an
    error of [wait]; no crash of a facade, no alarm and no interruption ends it, and until then it goes on. *)
Theorem supervise_ends_with wp sup pids now ws :
  (supervise wp sup pids now ws).2 = head (omap (ending wp) ws).
Proof.
  unfold supervise. generalize (armed (arm_ttl sup) (boot pids 0 now {| lo_facades := ∅; lo_armed := []; lo_sent := []; lo_started := [] |})).
  induction ws as [|w ws IH]; intros l; [reflexivity|]. cbn.
  destruct w as [reply| | |pid code t forked after|]; cbn; try apply IH; try reflexivity. destruct (pid =? wp); [reflexivity|apply IH].
Qed.

(** * The deadline *)

(** The alarm that [alarm(2)] leaves pending: zero cancels it. *)
Definition deadline (sup : Supervision) : option Z :=
  match arm_ttl sup with [secs] => if 0 <? secs then Some secs else None | _ => None end.
Definition with_ttl (secs : Z) (ep : EffectivePolicy) : EffectivePolicy :=
  {| ep_net := ep_net ep; ep_fs := ep_fs ep; ep_exec := ep_exec ep; ep_proc := ep_proc ep; ep_cap := ep_cap ep;
     ep_seccomp := ep_seccomp ep;
     ep_lifecycle := {| lc_ttl_seconds := Some secs; lc_ttl_action := lc_ttl_action (ep_lifecycle ep) |};
     ep_tty := ep_tty ep; ep_trust := ep_trust ep |}.

Lemma plan_ttl en SYS RL policy ctx ns home plan :
  from_policy en SYS RL policy ctx ns home = Ok plan ->
  pl_ttl_seconds plan = lc_ttl_seconds (ep_lifecycle (sp_effective_policy policy)).
Proof.
  unfold from_policy. destruct (grant_block _ _ _ _) as [rules binds].
  intros (x & _ & ([y z] & _ & H)%bind_Ok)%bind_Ok. destruct (mask_blocks policy binds).
  apply bind_Ok in H as (u & _ & (a & _ & [= <-])%bind_Ok). reflexivity.
Qed.
(** C29: The deadline of a kennel is the policy's time to live if it is at least a second and fits in 32 bits;
    the gate on spawn targets, which makes a time to live mandatory, accepts any: a target whose time to
    live is zero or too long passes it, and the init then runs it with no deadline at all. *)
Theorem eligible_without_deadline en SYS RL template secs ctx ns home plan command u g level :
  spawn_eligible template = Ok tt ->
  from_policy en SYS RL (set_effective (with_ttl secs) template) ctx ns home = Ok plan ->
  spawn_eligible (set_effective (with_ttl secs) template) = Ok tt /\
  deadline (supervision_from plan command u g level) = if (0 <? secs) && (secs <? 2 ^ 32) then Some secs else None.
Proof.
  intros He Hp. split.
  - revert He. unfold spawn_eligible. cbn. destruct (negb _); [discriminate|]. destruct (is_none _); [discriminate|]. auto.
  - unfold deadline, arm_ttl. cbn. rewrite (plan_ttl _ _ _ _ _ _ _ _ Hp). cbn. destruct (secs <? 2 ^ 32); [|rewrite andb_false_r; reflexivity].
    rewrite andb_true_r. reflexivity.
Qed.

(** * The program and the rendezvous *)

Definition executable (metadata : bytes -> option Z) (c : bytes) : bool :=
  match metadata c with Some mode => negb (Z.land mode 73 =? 0) | None => false end.
Lemma find_first {A} (f : A -> bool) l a :
  List.find f l = Some a -> exists l1 l2, l = l1 ++ a :: l2 /\ f a = true /\ forall b, In b l1 -> f b = false.
Proof.
  induction l as [|b l IH]; [discriminate|]. cbn. destruct (f b) eqn:E.
  - intros [= <-]. exists [], l. cbn. tauto.
  - intros (l1 & l2 & -> & Ha & H)%IH. exists (b :: l1), l2. split; [reflexivity|]. split; [exact Ha|]. intros c [<-|Hc]; auto.
Qed.
(** A name with a slash is the program.  A bare name is the first executable of that name along the non-empty
    entries of [PATH], and itself if there is none. *)
Theorem resolve_program_exact metadata program path env :
  List.find (fun kv => bool_decide (kv.1 = ascii_bytes "PATH")) env = Some (ascii_bytes "PATH", path) ->
  let c := resolve_program metadata program env in
  if has_byte SLASH program then c = program
  else (c = program /\ forall d, In d (split_on COLON path) -> d <> [] -> executable metadata (path_join d program) = false) \/
       (exists d1 d d2, List.filter (fun d => negb (is_nil d)) (split_on COLON path) = d1 ++ d :: d2 /\
          c = path_join d program /\ executable metadata c = true /\
          forall d', In d' d1 -> executable metadata (path_join d' program) = false).
Proof.
  intros E. unfold resolve_program. destruct (has_byte SLASH program); [reflexivity|]. rewrite E. cbn [snd].
  destruct (List.find _ (map _ _)) as [c|] eqn:Ef.
  - right. apply find_first in Ef as (l1 & l2 & Hl & Hc & Hb). apply map_eq_app in Hl as (d1 & ds & Hd & <- & Hd2).
    destruct ds as [|d d2]; [discriminate|]. injection Hd2 as <- <-. exists d1, d, d2. split; [exact Hd|]. split; [reflexivity|].
    split; [exact Hc|]. intros d' Hin. apply Hb. apply (in_map (fun dir => path_join dir program)). exact Hin.
  - left. split; [reflexivity|]. intros d Hin Hne. apply (find_none _ _ Ef).
    apply (in_map (fun dir => path_join dir program)). apply filter_In. split; [exact Hin|]. destruct d; [contradiction|reflexivity].
Qed.

Lemma place_mounts_rules moved mounts : forall sup sup',
  place_mounts moved mounts sup = Some sup' ->
  sup' = with_landlock_fs (su_landlock_fs sup ++ flat_map (fun m => mesh_rules m.2) mounts) sup /\
  forall m, In m mounts -> moved m.1 m.2 = true.
Proof.
  induction mounts as [|[fd target] mounts IH]; intros sup sup'; cbn.
  - intros [= <-]. split; [|contradiction]. rewrite app_nil_r. destruct sup. reflexivity.
  - destruct (moved fd target) eqn:E; [|discriminate]. intros [-> Hm]%IH. split; [|intros m [<-|Hin]; auto].
    cbn. rewrite <- app_assoc. reflexivity.
Qed.
(** The mounts the daemon sends add, in order, the right to list each target and to use its device, and nothing
    else; every mount was moved to its own target. *)
Theorem mesh_rules_exact moved mounts sup sup' :
  blen mounts <= u8_max -> Forall (fun m => blen m.2 <= u16_max) mounts -> blen (encode_mounts mounts).1 <= 4096 ->
  place_mesh_mounts moved (encode_mounts mounts).1 (encode_mounts mounts).2 sup = Some sup' ->
  sup' = with_landlock_fs (su_landlock_fs sup ++ flat_map (fun m => mesh_rules m.2) mounts) sup /\
  forall m, In m mounts -> moved m.1 m.2 = true.
Proof.
  intros Hn Hp Hl. unfold place_mesh_mounts. rewrite take_ge by (apply (Nat2Z.inj_le _ _); rewrite Z2Nat.id by lia; exact Hl).
  rewrite rendezvous_round_trip by assumption. apply place_mounts_rules.
Qed.

(** * Examples *)

(** A facade that crashes every second is started five times, and then left down. *)
Definition ex_sup : Supervision :=
  {| su_program := ascii_bytes "sh"; su_argv := [ascii_bytes "sh"]; su_env := [(ascii_bytes "PATH", ascii_bytes "/usr/bin:/bin")];
     su_cwd := None; su_drop_uid := 1000; su_drop_gid := 1000; su_groups := Some []; su_landlock_fs := [(ascii_bytes "/usr", 13)];
     su_landlock_net := []; su_seccomp_deny := [101]; su_seccomp_deny_action := Act_KillProcess; su_ulimits := [];
     su_aux := [{| aux_path := ascii_bytes "/f"; aux_args := [] |}]; su_interactive := false; su_workload_fd_pinned := false;
     su_stdio_injected := false; su_ttl_seconds := Some 60; su_log_level := 0 |}.
Definition crash (n : Z) : Wake := WakeExited (100 + n) 1 (1000 * n) (Some (101 + n)) (1000 * n + 100).
Definition ex_crashes : list Wake := map crash [0; 1; 2; 3; 4; 5].
Example five_starts : starts_in 0 9000 (lo_started (supervise 7 ex_sup [100] 0 ex_crashes).1) = 5%nat.
Proof. reflexivity. Qed.
Example workload_status : (supervise 7 ex_sup [100] 0 (ex_crashes ++ [WakeAlarm None; WakeExited 7 259 9000 None 9000])).2 = Some (Ok 3).
Proof. reflexivity. Qed.
Example bare_name : resolve_program (fun p => if bool_decide (p = ascii_bytes "/bin/sh") then Some 493 else None) (ascii_bytes "sh") (su_env ex_sup)
  = ascii_bytes "/bin/sh".
Proof. reflexivity. Qed.
Example to_workload_domain : workload_context (Some (ascii_bytes "unconfined_u:unconfined_r:kennel_t:s0-s0:c0.c1023" ++ [0]))
  = Some (ascii_bytes "unconfined_u:unconfined_r:kennel_workload_t:s0-s0:c0.c1023").
Proof. reflexivity. Qed.
(** On a kernel of ABI 5 the workload runs, under one layer with its one rule. *)
Example workload_runs :
  match spawn_workload (fun _ => true) (fun _ => None) None (fun _ => false) ex_kernel ex_sup init_proc with
  | Execed _ p => map (fun l => (ly_scope l, ly_paths l)) (p_landlock p) =
      [(0, [{| pr_path := ascii_bytes "/usr"; pr_dir := true; pr_access := 13 |}])]
  | ExitCode _ => False
  end.
Proof. vm_compute. reflexivity. Qed.
(** A limit that is refused ends the child; no program runs. *)
Example refused_limit : spawn_workload (fun n => negb (Nat.eqb n 10)) (fun _ => None) None (fun _ => false) ex_kernel
  (with_landlock_fs [] {| su_program := su_program ex_sup; su_argv := su_argv ex_sup; su_env := su_env ex_sup; su_cwd := None;
     su_drop_uid := 1000; su_drop_gid := 1000; su_groups := Some []; su_landlock_fs := []; su_landlock_net := []; su_seccomp_deny := [101];
     su_seccomp_deny_action := Act_KillProcess; su_ulimits := [(RLIMIT_NPROC, 1, 1); (RLIMIT_AS, 1, 1)]; su_aux := []; su_interactive := false;
     su_workload_fd_pinned := false; su_stdio_injected := false; su_ttl_seconds := None; su_log_level := 0 |}) init_proc = ExitCode 126.
Proof. reflexivity. Qed.

Lemma facade_starts_bounded_witness : le (starts_in 0 9000 (lo_started (supervise 7 ex_sup [100] 0 ex_crashes).1)) 5.
Proof.
  destruct (supervise 7 ex_sup [100] 0 ex_crashes) as [l r] eqn:E.
  apply (facade_starts_bounded 7 ex_sup [100] 0 ex_crashes l r 0 9000); [cbn; lia|exact E].
Defined.
Definition ex_target : SettledPolicy :=
  let p := usr_policy in {|
  sp_settled_schema_version := sp_settled_schema_version p; sp_name := sp_name p;
  sp_deferred_substitutions := sp_deferred_substitutions p;
  sp_framework_invariants_asserted := sp_framework_invariants_asserted p;
  sp_effective_policy := sp_effective_policy p; sp_provenance := sp_provenance p;
  sp_ssh := sp_ssh p; sp_unix := sp_unix p; sp_identity := sp_identity p; sp_mesh := sp_mesh p;
  sp_service := sp_service p; sp_dbus := sp_dbus p; sp_audit := sp_audit p; sp_env := sp_env p;
  sp_ulimits := {| ul_limits := map (fun k => (k, ascii_bytes "64")) REQUIRED_CEILINGS |};
  sp_workload := sp_workload p; sp_rootfs := sp_rootfs p; sp_spawn := None; sp_manifest := sp_manifest p |}.
Lemma eligible_without_deadline_witness :
  exists plan, from_policy LittleEndian (fun _ => 0) (2 ^ 64 - 1) (set_effective (with_ttl 0) ex_target) 7 [] (ascii_bytes "/home/a") = Ok plan /\
    spawn_eligible (set_effective (with_ttl 0) ex_target) = Ok tt /\
    deadline (supervision_from plan {| cm_program := []; cm_args := []; cm_envs := []; cm_current_dir := None |} 1000 1000 0) = None.
Proof.
  destruct (from_policy LittleEndian (fun _ => 0) (2 ^ 64 - 1) (set_effective (with_ttl 0) ex_target) 7 [] (ascii_bytes "/home/a")) as [plan|e] eqn:E;
    [|vm_compute in E; discriminate].
  exists plan. split; [reflexivity|].
  apply (eligible_without_deadline LittleEndian (fun _ => 0) (2 ^ 64 - 1) ex_target 0 7 [] (ascii_bytes "/home/a") plan
    {| cm_program := []; cm_args := []; cm_envs := []; cm_current_dir := None |} 1000 1000 0); [vm_compute; reflexivity|exact E].
Defined.
