(* ===== verification/Config.v ===== *)
(** Layered configuration ([kennel-lib-config/src/lib.rs]), the trust context the command line builds
    from it ([kennel-cli/src/shared.rs]) and the enablement scan ([kenneld/src/enablement.rs]).

    A [Machine] is what the code can ask the machine: an environment variable, the length and the text of
    a file, the names in a directory.  The TOML reader is third-party code: the two schemas it fills are
    parameters.  A config file that is absent is a skipped layer; one that cannot be read, is too large
    or does not parse is an error.

    Theorems: the deployment of a set of layers is, per key, what the last layer that sets it says, and
    its reserved namespaces are the last declaration of each prefix; the namespace found for a name is
    the one with the longest matching prefix; the daemon's deployment depends on one root-owned file
    only; the `/etc` subtrees are the lines added and not pruned since; the enabled providers are, per
    name, the first link that verifies.  The keys a user configures become template-signing keys and
    host-tier keys. *)

From stdpp Require Import sorting.
From S2P Require Import Prelude Bytes Str Paths Plan Settled B64 Sshsig Verify Source SourceSig Mesh Registry.

(** ** The machine *)

Inductive MetaAnswer : Type := MetaLen (len : Z) | MetaNotFound | MetaFailed.
Record Machine : Type := {
  h_env : bytes -> option bytes;
  h_meta : bytes -> MetaAnswer;
  (** [read_to_string(path).ok()] and [read(path).ok()]. *)
  h_text : bytes -> option bytes;
  h_bytes : bytes -> option bytes;
  h_exists : bytes -> bool;
  (** [read_dir(path)]: the names, in the order the directory gives them. *)
  h_dir : bytes -> option (list bytes);
}.

Definition VENDOR_DIR : bytes := ascii_bytes "/usr/lib/kennel".
Definition SYSTEM_DIR : bytes := ascii_bytes "/etc/kennel".
Definition SYSTEM_FILE : bytes := ascii_bytes "system.toml".
Definition USER_FILE : bytes := ascii_bytes "config.toml".
Definition DEFAULT_LIBEXEC_DIR : bytes := ascii_bytes "/usr/libexec/kennel".
Definition DEFAULT_FACADES_DIR : bytes := ascii_bytes "/usr/libexec/kennel-facades".
Definition DEFAULT_TRUST_DIR : bytes := ascii_bytes "/etc/kennel/keys".
Definition DEFAULT_SSHD : bytes := ascii_bytes "/usr/sbin/sshd".
Definition MAX_CONFIG : Z := 262144.

Inductive ConfigError : Type :=
  | CfgRead (path : bytes) | CfgTooLarge (path : bytes) (size : Z) | CfgParse (path : bytes).

Definition read_layer {T} (from_str : bytes -> option T) (h : Machine) (path : bytes) :
    result ConfigError (option T) :=
  match h_meta h path with
  | MetaNotFound => Ok None
  | MetaFailed => Err (CfgRead path)
  | MetaLen len =>
      if MAX_CONFIG <? len then Err (CfgTooLarge path len)
      else match h_text h path with
           | None => Err (CfgRead path)
           | Some text => match from_str text with Some t => Ok (Some t) | None => Err (CfgParse path) end
           end
  end.

Definition user_config_dir (h : Machine) : option bytes :=
  match h_env h (ascii_bytes "XDG_CONFIG_HOME") with
  | Some xdg => Some (path_join xdg (ascii_bytes "kennel"))
  | None => option_map (fun home => path_join home (ascii_bytes ".config/kennel")) (h_env h (ascii_bytes "HOME"))
  end.

(** ** Deployment *)

Inductive LogLevel : Type := LogInfo | LogDebug | LogTrace.
Definition level_u8 (l : LogLevel) : Z := match l with LogInfo => 0 | LogDebug => 1 | LogTrace => 2 end.
Definition verbose (l : LogLevel) : bool := 1 <=? level_u8 l.

(** The keys of [system.toml] that name a path. *)
Inductive Key : Type :=
  | KLibexecDir | KFacadesDir | KTrustDir | KSshd | KPrivhelper | KNetproxy | KSsh | KAkc | KAfunix | KSocks5 | KInetd
  | KFacadeClient | KFacadeDbus | KFacadeTun | KInit | KOciEntry.

Record RawDeployment : Type := {
  rd_key : Key -> option bytes;
  rd_log_level : option LogLevel;
  rd_reserved : list ReservedNamespace;
}.
Definition raw_default : RawDeployment :=
  {| rd_key := fun _ => None; rd_log_level := None; rd_reserved := [] |}.

(** [v.retain(|e| e.prefix != ns.prefix); v.push(ns)]. *)
Definition push_reserved (v : list ReservedNamespace) (ns : ReservedNamespace) : list ReservedNamespace :=
  List.filter (fun e => negb (bool_decide (rn_prefix e = rn_prefix ns))) v ++ [ns].
Definition overlay (self higher : RawDeployment) : RawDeployment := {|
  rd_key := fun k => or_else (rd_key higher k) (rd_key self k);
  rd_log_level := or_else (rd_log_level higher) (rd_log_level self);
  rd_reserved := fold_left push_reserved (rd_reserved higher) (rd_reserved self) |}.

Record Deployment : Type := {
  dp_libexec_dir : bytes; dp_facades_dir : bytes; dp_trust_dir : bytes; dp_sshd : bytes;
  dp_override : Key -> option bytes;
  dp_log_level : LogLevel; dp_reserved : list ReservedNamespace;
}.
Definition resolve (r : RawDeployment) : Deployment := {|
  dp_libexec_dir := default DEFAULT_LIBEXEC_DIR (rd_key r KLibexecDir);
  dp_facades_dir := default DEFAULT_FACADES_DIR (rd_key r KFacadesDir);
  dp_trust_dir := default DEFAULT_TRUST_DIR (rd_key r KTrustDir);
  dp_sshd := default DEFAULT_SSHD (rd_key r KSshd);
  dp_override := rd_key r;
  dp_log_level := default LogInfo (rd_log_level r); dp_reserved := rd_reserved r |}.
Definition defaults : Deployment := resolve raw_default.

Section deployment.
(** [basic_toml::from_str::<RawDeployment>]. *)
Context (from_str : bytes -> option RawDeployment) (h : Machine).

Fixpoint merge_layers (raw : RawDeployment) (dirs : list bytes) : result ConfigError RawDeployment :=
  match dirs with
  | [] => Ok raw
  | dir :: dirs =>
      layer ← read_layer from_str h (path_join dir SYSTEM_FILE);
      merge_layers (match layer with Some l => overlay raw l | None => raw end) dirs
  end.
Definition load_from_dirs (dirs : list bytes) : result ConfigError Deployment :=
  raw ← merge_layers raw_default dirs; Ok (resolve raw).
Definition load : result ConfigError Deployment := load_from_dirs [SYSTEM_DIR].
End deployment.

Definition resolve_bin (d : Deployment) (override : option bytes) (name : bytes) : bytes :=
  match override with Some p => p | None => path_join (dp_libexec_dir d) name end.
Definition resolve_facade (d : Deployment) (override : option bytes) (name : bytes) : bytes :=
  match override with Some p => p | None => path_join (dp_facades_dir d) name end.

Definition privhelper d := resolve_bin d (dp_override d KPrivhelper) (ascii_bytes "kennel-privhelper").
Definition privhelper_net d := resolve_bin d None (ascii_bytes "kennel-privhelper-net").
Definition privhelper_bpf d := resolve_bin d None (ascii_bytes "kennel-privhelper-bpf").
Definition privhelper_mounts d := resolve_bin d None (ascii_bytes "kennel-privhelper-mounts").
Definition netproxy d := resolve_bin d (dp_override d KNetproxy) (ascii_bytes "host-netproxy").
Definition ssh d := resolve_facade d (dp_override d KSsh) (ascii_bytes "facade-ssh").
Definition akc d := resolve_bin d (dp_override d KAkc) (ascii_bytes "kennel-akc").
Definition afunix d := resolve_facade d (dp_override d KAfunix) (ascii_bytes "facade-afunix").
Definition socks5 d := resolve_facade d (dp_override d KSocks5) (ascii_bytes "facade-socks5").
Definition inetd d := resolve_bin d (dp_override d KInetd) (ascii_bytes "host-inetd").
Definition facade_client d := resolve_facade d (dp_override d KFacadeClient) (ascii_bytes "facade-client").
Definition facade_dbus d := resolve_facade d (dp_override d KFacadeDbus) (ascii_bytes "facade-dbus").
Definition facade_tun d := resolve_facade d (dp_override d KFacadeTun) (ascii_bytes "facade-tun").
Definition kennel_bin_init d := resolve_bin d (dp_override d KInit) (ascii_bytes "kennel-bin-init").
Definition oci_entry d := resolve_facade d (dp_override d KOciEntry) (ascii_bytes "kennel-bin-oci-entry").

(** [max_by_key] keeps the last of the maxima. *)
Fixpoint max_by_len (best : option ReservedNamespace) (l : list ReservedNamespace) : option ReservedNamespace :=
  match l with
  | [] => best
  | ns :: l =>
      max_by_len (match best with
                  | Some b => if (length (rn_prefix b) <=? length (rn_prefix ns))%nat then Some ns else best
                  | None => Some ns
                  end) l
  end.
Definition reserved_namespace (d : Deployment) (name : bytes) : option ReservedNamespace :=
  max_by_len None (List.filter (fun ns => starts_with (rn_prefix ns) name) (dp_reserved d)).

(** ** The user's configuration *)

Record RawUser : Type := {
  ru_template_dirs : option (list bytes); ru_key_dirs : option (list bytes); ru_policy_dirs : option (list bytes);
}.
Definition user_default : RawUser := {| ru_template_dirs := None; ru_key_dirs := None; ru_policy_dirs := None |}.
Definition overlay_user (self higher : RawUser) : RawUser := {|
  ru_template_dirs := or_else (ru_template_dirs higher) (ru_template_dirs self);
  ru_key_dirs := or_else (ru_key_dirs higher) (ru_key_dirs self);
  ru_policy_dirs := or_else (ru_policy_dirs higher) (ru_policy_dirs self) |}.

Definition system_search_dirs (leaf : bytes) : list bytes := [path_join SYSTEM_DIR leaf; path_join VENDOR_DIR leaf].
Definition default_search_dirs (h : Machine) (leaf : bytes) : list bytes :=
  match user_config_dir h with Some user => [path_join user leaf] | None => [] end ++ system_search_dirs leaf.
Definition KEYS : bytes := ascii_bytes "keys".

Definition template_dirs (h : Machine) (u : RawUser) : list bytes :=
  default (default_search_dirs h (ascii_bytes "templates")) (ru_template_dirs u).
Definition key_dirs (h : Machine) (u : RawUser) : list bytes := default (default_search_dirs h KEYS) (ru_key_dirs u).
Definition system_key_dirs (u : RawUser) : list bytes := default (system_search_dirs KEYS) (ru_key_dirs u).
Definition policy_dirs (h : Machine) (u : RawUser) : list bytes :=
  default (default_search_dirs h (ascii_bytes "policies")) (ru_policy_dirs u).

Definition read_system_config (h : Machine) (leaf : bytes) : option bytes := find_map (h_text h) (system_search_dirs leaf).
Definition user_key_dir (h : Machine) : option bytes := option_map (fun d => path_join d KEYS) (user_config_dir h).
Definition vendor_key_dir : bytes := path_join VENDOR_DIR KEYS.

Section user.
(** [basic_toml::from_str::<RawUser>]. *)
Context (from_str : bytes -> option RawUser) (h : Machine).

Fixpoint merge_user (raw : RawUser) (dirs : list bytes) : result ConfigError RawUser :=
  match dirs with
  | [] => Ok raw
  | dir :: dirs =>
      layer ← read_layer from_str h (path_join dir USER_FILE);
      merge_user (match layer with Some l => overlay_user raw l | None => raw end) dirs
  end.
Definition load_user : result ConfigError RawUser :=
  merge_user user_default (SYSTEM_DIR :: match user_config_dir h with Some user => [user] | None => [] end).
(** [User::load().unwrap_or_default()]. *)
Definition user_or_default : RawUser := default user_default (result_ok load_user).
End user.

(** ** The etc-binds catalogue *)

Definition HASH : Z := 35.
Definition DASH : Z := 45.
Definition ETC_BINDS_FILENAME : bytes := ascii_bytes "etc-binds.catalog".
Definition SYNTHETIC_ETC_FILES : list bytes :=
  map ascii_bytes ["hostname"; "hosts"; "resolv.conf"; "nsswitch.conf"; "services"; "protocols"; "passwd"; "group";
                   "host.conf"; "profile"; "bash.bashrc"]%string.

Definition apply_etc_line (set : list bytes) (raw : bytes) : list bytes :=
  let line := trim (default [] (head (split_on HASH raw))) in
  if is_nil line then set
  else match strip_prefix [DASH] line with
       | Some rest => List.filter (fun p => negb (bool_decide (p = trim rest))) set
       | None => if bool_decide (line ∈ set) then set else set ++ [line]
       end.
Definition apply_etc_binds_layer (set : list bytes) (text : bytes) : list bytes :=
  fold_left apply_etc_line (lines text) set.
Definition etc_binds_layer_paths (h : Machine) : list bytes :=
  [path_join (default VENDOR_DIR (h_env h (ascii_bytes "KENNEL_VENDOR_DIR"))) ETC_BINDS_FILENAME;
   path_join (default SYSTEM_DIR (h_env h (ascii_bytes "KENNEL_ETC_DIR"))) ETC_BINDS_FILENAME].
Definition essential_etc_subtrees_from (h : Machine) (layer_paths : list bytes) : list bytes :=
  List.filter (h_exists h)
    (fold_left (fun set path => match h_text h path with Some text => apply_etc_binds_layer set text | None => set end)
       layer_paths []).
Definition essential_etc_subtrees (h : Machine) : list bytes := essential_etc_subtrees_from h (etc_binds_layer_paths h).

(** [grant.find(['*', '?', '['])]: what is before the first of them. *)
Fixpoint literal_prefix (grant : bytes) : bytes :=
  match grant with
  | [] => []
  | b :: g => if (b =? STAR) || (b =? 63) || (b =? 91) then [] else b :: literal_prefix g
  end.
Definition trim_slashes : bytes -> bytes := trim_end_matches (Z.eqb SLASH).
Definition ETC : bytes := ascii_bytes "/etc".
Definition etc_intersects (literal sub : bytes) : bool :=
  let sub := trim_slashes sub in
  bool_decide (literal = sub) || starts_with (sub ++ [SLASH]) literal || starts_with (literal ++ [SLASH]) sub.
Definition etc_covered (subtrees served : list bytes) (grant : bytes) : bool :=
  let literal := trim_slashes (literal_prefix grant) in
  if bool_decide (literal = ETC) || is_nil literal then true
  else if existsb (fun f => bool_decide (literal = ETC ++ SLASH :: f)) SYNTHETIC_ETC_FILES then true
  else existsb (fun sub => etc_intersects literal (to_string_lossy sub)) subtrees || existsb (etc_intersects literal) served.
Definition uncatalogued_etc_grants (paths subtrees served : list bytes) : list bytes :=
  List.filter (fun p => negb (etc_covered subtrees served p))
    (List.filter (fun p => starts_with (ETC ++ [SLASH]) p || bool_decide (p = ETC)) paths).

(** ** The enablement directories and their scan ([enablement.rs]) *)

Record EnablementDir : Type := { ed_path : bytes; ed_per_user : bool; ed_eager : bool }.
Definition enablement_pair (base : bytes) (per_user : bool) : list EnablementDir :=
  [ {| ed_path := path_join base (ascii_bytes "autorun"); ed_per_user := per_user; ed_eager := true |};
    {| ed_path := path_join base (ascii_bytes "ondemand"); ed_per_user := per_user; ed_eager := false |} ].
Definition enablement_dirs (h : Machine) : list EnablementDir :=
  match user_config_dir h with Some user => enablement_pair user true | None => [] end ++ enablement_pair SYSTEM_DIR false.

(** [Path]'s order on two names of one directory. *)
Fixpoint bytes_leb (a b : bytes) : bool :=
  match a, b with
  | [], _ => true
  | _ :: _, [] => false
  | x :: a, y :: b => if x =? y then bytes_leb a b else x <? y
  end.
Definition bytes_le (a b : bytes) : Prop := bytes_leb a b = true.
Global Instance bytes_le_dec : RelDecision bytes_le := fun a b => bool_eq_dec (bytes_leb a b) true.

Definition DEFAULT_SERVICE : ServiceRuntime := {| sv_restart := OnFailure; sv_backoff_ms := 500; sv_max_attempts := 5 |}.

(** A provider of the scan: the catalogue's record, the link and the supervision. *)
Record Enabled : Type := { en_provider : EnabledProvider; en_policy_path : bytes; en_service : ServiceRuntime }.
Definition en_name (e : Enabled) : bytes := ep_provider (en_provider e).
Record Scan : Type := { sc_seen : list bytes; sc_out : list Enabled; sc_warned : list bytes }.

Section scan.
Context {C : Crypto} {L : Toml} (h : Machine) (keys : KeySet).

(** [Err] is a message. *)
Definition load_provider (link : bytes) : result unit (option (bytes * list ProvideRuntime * ServiceRuntime)) :=
  bs ← ok_or tt (h_bytes h link);
  match verify_settled_signed bs keys with
  | Err _ => Err tt
  | Ok (settled, key_id) =>
      if is_nil (mr_provides (sp_mesh settled)) then Ok None
      else Ok (Some (key_id, mr_provides (sp_mesh settled), default DEFAULT_SERVICE (sp_service settled)))
  end.

Definition enabled_of (dir : EnablementDir) (name : bytes) (p : bytes * list ProvideRuntime * ServiceRuntime) : Enabled := {|
  en_provider := {| ep_provider := name; ep_signing_key_id := p.1.1;
                    ep_tier := if ed_per_user dir then User else Host;
                    ep_enablement := if ed_eager dir then Autorun else Ondemand; ep_provides := p.1.2 |};
  en_policy_path := path_join (ed_path dir) name; en_service := p.2 |}.

Definition scan_link (st : Scan) (at_ : EnablementDir * bytes) : Scan :=
  let '(dir, name) := at_ in
  if negb (utf8_ok name) then st
  else if bool_decide (name ∈ sc_seen st) then st
  else match load_provider (path_join (ed_path dir) name) with
       | Ok (Some p) => {| sc_seen := name :: sc_seen st; sc_out := sc_out st ++ [enabled_of dir name p];
                           sc_warned := sc_warned st |}
       | _ => {| sc_seen := sc_seen st; sc_out := sc_out st;
                 sc_warned := sc_warned st ++ [path_join (ed_path dir) name] |}
       end.
Definition dir_links (dir : EnablementDir) : list (EnablementDir * bytes) :=
  match h_dir h (ed_path dir) with
  | Some names => map (pair dir) (merge_sort bytes_le names)
  | None => []
  end.
Definition scan (dirs : list EnablementDir) : Scan :=
  fold_left scan_link (flat_map dir_links dirs) {| sc_seen := []; sc_out := []; sc_warned := [] |}.
End scan.

(** ** The command line's trust context ([shared.rs]) *)

(** [Path::file_stem] and [Path::extension] of a file name. *)
Definition file_split (name : bytes) : option bytes * option bytes :=
  if bool_decide (name = [DOT; DOT]) then (Some name, None)
  else match rsplit_once DOT name with
       | None => (Some name, None)
       | Some (before, after) => if is_nil before then (Some name, None) else (Some before, Some after)
       end.
Definition PUB : bytes := ascii_bytes "pub".
(** The key id of a [<id>.pub] file, where both parts are text. *)
Definition pub_stem (name : bytes) : option bytes :=
  match file_split name with
  | (Some stem, Some ext) => if bool_decide (ext = PUB) && utf8_ok stem then Some stem else None
  | _ => None
  end.

Inductive StoreError : Type := StUnreadable (path : bytes) | StKey (path : bytes) | StLegacy (path : bytes) | StNotOpenssh (path : bytes).

Definition is_legacy_raw_b64 (text : bytes) : bool :=
  match b64_decode (trim text) with Some b => (length b =? 32)%nat | None => false end.

Section trust.
Context {C : Crypto} (h : Machine).

Definition load_key (keys : KeySet) (path key_id : bytes) : result StoreError KeySet :=
  contents ← ok_or (StUnreadable path) (h_text h path);
  if is_openssh_public contents
  then match openssh_public_key contents with
       | Err _ => Err (StKey path)
       | Ok (pubkey, _) => match keys_insert keys key_id pubkey with Ok keys => Ok keys | Err _ => Err (StKey path) end
       end
  else if is_legacy_raw_b64 contents then Err (StLegacy path) else Err (StNotOpenssh path).
Fixpoint load_dir (dir : bytes) (names : list bytes) (keys : KeySet) : result StoreError KeySet :=
  match names with
  | [] => Ok keys
  | name :: names =>
      keys ← match pub_stem name with
             | None => Ok keys
             | Some key_id => load_key keys (path_join dir name) key_id
             end;
      load_dir dir names keys
  end.
Fixpoint load_dirs (dirs : list bytes) (keys : KeySet) : result StoreError KeySet :=
  match dirs with
  | [] => Ok keys
  | dir :: dirs => keys ← load_dir dir (default [] (h_dir h dir)) keys; load_dirs dirs keys
  end.
Definition load_trust_store (dirs : list bytes) : result StoreError KeySet := load_dirs dirs [].

Definition key_ids_in (dir : bytes) : list bytes := omap pub_stem (default [] (h_dir h dir)).
Definition trust_tier_sets (u : RawUser) : list bytes * list bytes :=
  (key_ids_in vendor_key_dir,
   match List.find (fun d => negb (path_eqb d vendor_key_dir)) (system_key_dirs u) with
   | Some d => key_ids_in d
   | None => []
   end).

Record TrustContext : Type := {
  tx_keys : KeySet; tx_vendor : list bytes; tx_host : list bytes; tx_reserved : list ReservedNamespace;
  tx_signing_key_id : option bytes;
}.
Definition trust_load (deployment_toml : bytes -> option RawDeployment) (user_toml : bytes -> option RawUser)
    (dirs : list bytes) : result StoreError TrustContext :=
  keys ← load_trust_store dirs;
  let '(vendor, host) := trust_tier_sets (user_or_default user_toml h) in
  Ok {| tx_keys := keys; tx_vendor := vendor; tx_host := host;
        tx_reserved := match load deployment_toml h with Ok d => dp_reserved d | Err _ => [] end; tx_signing_key_id := None |}.
Definition with_signing_key_id (x : TrustContext) (key_id : option bytes) : TrustContext :=
  {| tx_keys := tx_keys x; tx_vendor := tx_vendor x; tx_host := tx_host x; tx_reserved := tx_reserved x;
     tx_signing_key_id := key_id |}.
Definition tiered (x : TrustContext) (base : Trust) : Trust :=
  with_signing_key (with_reserved (with_tiers base (tx_vendor x) (tx_host x)) (tx_reserved x)) (tx_signing_key_id x).
Definition tx_require (x : TrustContext) : Trust := tiered x (trust_require (tx_keys x)).
Definition tx_allow_unsigned (x : TrustContext) : Trust := tiered x (trust_allow_unsigned (Some (tx_keys x))).
(** [add_default_template_dirs], [add_system_trust_dirs]. *)
Definition add_default_template_dirs (user_toml : bytes -> option RawUser) (dirs : list bytes) : list bytes :=
  dirs ++ template_dirs h (user_or_default user_toml h).
Definition add_system_trust_dirs (user_toml : bytes -> option RawUser) (dirs : list bytes) : list bytes :=
  dirs ++ system_key_dirs (user_or_default user_toml h).

(** [resolve_key_id]: the first match in directory order, by name within a directory. *)
Definition resolve_key_id (dirs : list bytes) (pubkey : bytes) : option bytes :=
  find_map (fun dir =>
    find_map (fun name =>
      stem ← pub_stem name;
      contents ← h_text h (path_join dir name);
      '(pk, _) ← result_ok (openssh_public_key contents);
      if bool_decide (pk = pubkey) then Some stem else None)
      (merge_sort bytes_le (default [] (h_dir h dir)))) dirs.
End trust.

(** * The layers *)

(** What the last layer that sets something says. *)
Fixpoint last_set {A B} (f : A -> option B) (ls : list A) : option B :=
  match ls with [] => None | a :: ls => or_else (last_set f ls) (f a) end.
(** The declarations that no later one of the same prefix replaces. *)
Definition standing (entries : list ReservedNamespace) (ns : ReservedNamespace) : Prop :=
  exists l r, entries = l ++ ns :: r /\ Forall (fun e => rn_prefix e <> rn_prefix ns) r.

Lemma or_else_assoc {A} (a b c : option A) : or_else a (or_else b c) = or_else (or_else a b) c.
Proof. by destruct a. Qed.
Lemma or_else_none {A} (a : option A) : or_else a None = a.
Proof. by destruct a. Qed.
Lemma last_set_snoc {A B} (f : A -> option B) ls a : last_set f (ls ++ [a]) = or_else (f a) (last_set f ls).
Proof.
  induction ls as [|x ls IH]; cbn; [by rewrite or_else_none|]. by rewrite IH, or_else_assoc.
Qed.

Lemma standing_snoc entries e ns :
  standing (entries ++ [e]) ns <-> ns = e \/ (rn_prefix e <> rn_prefix ns /\ standing entries ns).
Proof.
  split.
  - intros (l & r & E & Hr). destruct r as [|x r _] using rev_ind.
    + left. apply app_inj_tail in E as [_ <-]. done.
    + right. rewrite app_comm_cons, app_assoc in E. apply app_inj_tail in E as [-> <-].
      apply Forall_app in Hr as [Hr Hx]. split; [by inversion Hx|]. by exists l, r.
  - intros [->|[Hne (l & r & -> & Hr)]].
    + exists entries, []. split; [done|constructor].
    + exists l, (r ++ [e]). rewrite <- app_assoc. split; [done|]. apply Forall_app. split; [done|]. by constructor.
Qed.

Lemma push_standing entries : forall ns, ns ∈ fold_left push_reserved entries [] <-> standing entries ns.
Proof.
  induction entries as [|e entries IH] using rev_ind; intros ns.
  - cbn. split; [by intros ?%elem_of_nil|]. intros (l & r & E & _). by destruct l.
  - rewrite fold_left_app, standing_snoc. cbn [fold_left]. unfold push_reserved at 1.
    rewrite elem_of_app, list_elem_of_singleton, <- IH, list_elem_of_In, filter_In, <- list_elem_of_In.
    rewrite negb_true_iff, bool_decide_eq_false. split; intros [?|?]; destruct_and?; auto.
Qed.
Lemma push_nodup entries : NoDup (map rn_prefix (fold_left push_reserved entries [])).
Proof.
  induction entries as [|e entries IH] using rev_ind; [constructor|]. rewrite fold_left_app. cbn [fold_left].
  unfold push_reserved at 1. rewrite map_app. cbn [map]. apply NoDup_app. split_and!.
  - revert IH. generalize (fold_left push_reserved entries []). intros v. induction v as [|x v IHv]; cbn [map List.filter]; [done|].
    intros Hn%NoDup_cons. destruct Hn as [Hx Hn]. destruct (negb _); [|by apply IHv]. cbn [map]. constructor; [|by apply IHv].
    intros Hin. apply Hx. apply list_elem_of_In, in_map_iff in Hin as (y & <- & Hy). apply list_elem_of_In, in_map_iff.
    exists y. split; [done|]. by apply filter_In in Hy as [Hy _].
  - intros p Hp. rewrite list_elem_of_singleton. intros ->. apply list_elem_of_In, in_map_iff in Hp as (y & E & Hy).
    apply filter_In in Hy as [_ Hy]. apply negb_true_iff, bool_decide_eq_false in Hy. congruence.
  - constructor; [by intros ?%elem_of_nil|constructor].
Qed.

Section layers.
Context (from_str : bytes -> option RawDeployment) (h : Machine).

(** The layers present, lowest first. *)
Fixpoint layers_of (dirs : list bytes) : result ConfigError (list RawDeployment) :=
  match dirs with
  | [] => Ok []
  | dir :: dirs =>
      layer ← read_layer from_str h (path_join dir SYSTEM_FILE);
      ls ← layers_of dirs; Ok (option_list layer ++ ls)
  end.

Lemma merge_fold dirs : forall raw,
  merge_layers from_str h raw dirs = (ls ← layers_of dirs; Ok (fold_left overlay ls raw)).
Proof.
  induction dirs as [|dir dirs IH]; intros raw; [done|]. cbn [merge_layers layers_of].
  destruct (read_layer _ _ _) as [layer|]; cbn; [|done]. rewrite IH.
  destruct (layers_of dirs); cbn; [|done]. by destruct layer.
Qed.
Lemma fold_overlay ls :
  (forall k, rd_key (fold_left overlay ls raw_default) k = last_set (fun l => rd_key l k) ls) /\
  rd_log_level (fold_left overlay ls raw_default) = last_set rd_log_level ls /\
  rd_reserved (fold_left overlay ls raw_default) = fold_left push_reserved (flat_map rd_reserved ls) [].
Proof.
  induction ls as [|l ls (IHk & IHl & IHr)] using rev_ind; [done|]. rewrite fold_left_app. cbn [fold_left overlay rd_key rd_log_level rd_reserved].
  rewrite flat_map_app, fold_left_app. cbn [flat_map]. rewrite app_nil_r, IHr, IHl, !last_set_snoc. split_and!; [|done..].
  intros k. by rewrite IHk, last_set_snoc.
Qed.
Lemma load_nodup dirs d : load_from_dirs from_str h dirs = Ok d -> NoDup (map rn_prefix (dp_reserved d)).
Proof.
  unfold load_from_dirs. rewrite merge_fold. destruct (layers_of dirs) as [ls|]; cbn; [|done]. intros [= <-]. cbn.
  destruct (fold_overlay ls) as (_ & _ & ->). apply push_nodup.
Qed.
End layers.

Lemma nodup_map_eq {A B} (f : A -> B) l x y : NoDup (map f l) -> x ∈ l -> y ∈ l -> f x = f y -> x = y.
Proof.
  induction l as [|a l IH]; cbn [map]; [by intros _ ?%elem_of_nil|].
  intros [Ha Hn]%NoDup_cons Hx Hy E. apply elem_of_cons in Hx as [->|Hx], Hy as [->|Hy]; [done|..|by apply IH]; exfalso; apply Ha;
    apply list_elem_of_In, in_map_iff; [exists y|exists x]; (split; [done|by apply list_elem_of_In]).
Qed.

(** The deployment of a list of directories: a layer that is present and bad is the error, in order;
    else each key is the one of the last layer that sets it or its compiled default, and the reserved
    namespaces are the last declaration of each prefix, once each. *)
Theorem deployment_layers (from_str : bytes -> option RawDeployment) (h : Machine) (dirs : list bytes) :
  match layers_of from_str h dirs, load_from_dirs from_str h dirs with
  | Err e, Err e' => e' = e
  | Ok ls, Ok d =>
      dp_libexec_dir d = default DEFAULT_LIBEXEC_DIR (last_set (fun l => rd_key l KLibexecDir) ls) /\
      dp_facades_dir d = default DEFAULT_FACADES_DIR (last_set (fun l => rd_key l KFacadesDir) ls) /\
      dp_trust_dir d = default DEFAULT_TRUST_DIR (last_set (fun l => rd_key l KTrustDir) ls) /\
      dp_sshd d = default DEFAULT_SSHD (last_set (fun l => rd_key l KSshd) ls) /\
      (forall k, dp_override d k = last_set (fun l => rd_key l k) ls) /\
      dp_log_level d = default LogInfo (last_set rd_log_level ls) /\
      NoDup (map rn_prefix (dp_reserved d)) /\
      (forall ns, ns ∈ dp_reserved d <-> standing (flat_map rd_reserved ls) ns)
  | _, _ => False
  end.
Proof.
  unfold load_from_dirs. rewrite merge_fold. destruct (layers_of from_str h dirs) as [ls|e]; cbn; [|done].
  destruct (fold_overlay ls) as (Hk & Hl & Hr). rewrite !Hk, Hl, Hr.
  split_and!; try done; [apply push_nodup|apply push_standing].
Qed.

(** The daemon's deployment, the trust store and the helper binaries with it, is decided by one
    root-owned file: two machines that agree on [/etc/kennel/system.toml] have the same one, whatever
    their environment, their users' files and the vendor tree. *)
Theorem deployment_root_owned (from_str : bytes -> option RawDeployment) (h h' : Machine) :
  let file := ascii_bytes "/etc/kennel/system.toml" in
  h_meta h file = h_meta h' file -> h_text h file = h_text h' file ->
  load from_str h = load from_str h'.
Proof.
  intros file Hm Ht. unfold load, load_from_dirs. cbn [merge_layers].
  replace (path_join SYSTEM_DIR SYSTEM_FILE) with file by reflexivity. unfold read_layer. by rewrite Hm, Ht.
Qed.

(** * Reserved namespaces *)

Lemma max_by_len_spec l : forall best r, max_by_len best l = r ->
  match r with
  | None => best = None /\ l = []
  | Some ns => (best = Some ns \/ ns ∈ l) /\
      (forall b, best = Some b -> (length (rn_prefix b) <= length (rn_prefix ns))%nat) /\
      Forall (fun e => (length (rn_prefix e) <= length (rn_prefix ns))%nat) l
  end.
Proof.
  induction l as [|x l IH]; intros best r; cbn [max_by_len].
  - intros <-. destruct best as [b|]; [|done]. split_and!; [by left|by intros ? [= ->]|constructor].
  - intros E. specialize (IH _ _ E). destruct r as [ns|].
    + destruct IH as (H1 & H2 & H3).
      destruct best as [b|].
      * destruct (Nat.leb_spec (length (rn_prefix b)) (length (rn_prefix x))).
        -- specialize (H2 x eq_refl). split_and!.
           ++ right. destruct H1 as [[= ->]|?]; [by left|by right].
           ++ intros ? [= <-]. lia.
           ++ by constructor.
        -- specialize (H2 b eq_refl). split_and!.
           ++ destruct H1 as [?|?]; [by left|by right; right].
           ++ intros ? [= <-]. done.
           ++ constructor; [lia|done].
      * specialize (H2 x eq_refl). split_and!; [|done|by constructor].
        right. destruct H1 as [[= ->]|?]; [by left|by right].
    + destruct IH as [IH _]. destruct best as [b|]; [|done]. by destruct (_ <=? _)%nat.
Qed.

(** The namespace that governs a name is, among the declarations left after the layers, the one with
    the longest prefix of the name, and there is one unless no declared prefix matches. *)
Theorem longest_namespace_governs (from_str : bytes -> option RawDeployment) (h : Machine) (dirs : list bytes) d name ns :
  load_from_dirs from_str h dirs = Ok d ->
  (reserved_namespace d name = Some ns <->
     ns ∈ dp_reserved d /\ starts_with (rn_prefix ns) name = true /\
     forall ns', ns' ∈ dp_reserved d -> starts_with (rn_prefix ns') name = true ->
       (length (rn_prefix ns') <= length (rn_prefix ns))%nat) /\
  (reserved_namespace d name = None <-> forall ns', ns' ∈ dp_reserved d -> starts_with (rn_prefix ns') name = false).
Proof.
  intros Hd. pose proof (load_nodup _ _ _ _ Hd) as Hnd.
  unfold reserved_namespace. set (l := List.filter _ _).
  assert (Hl : forall x, x ∈ l <-> x ∈ dp_reserved d /\ starts_with (rn_prefix x) name = true).
  { intros x. unfold l. by rewrite !list_elem_of_In, filter_In. }
  pose proof (max_by_len_spec l None _ eq_refl) as HM. destruct (max_by_len None l) as [m|].
  - destruct HM as ([?|Hm] & _ & Hle); [done|]. rewrite Forall_forall in Hle. apply Hl in Hm as [Hm1 Hm2]. split.
    + split.
      * intros [= ->]. split_and!; [done..|]. intros ns' H1 H2. apply Hle, Hl. done.
      * intros (H1 & H2 & H3). f_equal. specialize (H3 m Hm1 Hm2). specialize (Hle ns (proj2 (Hl ns) (conj H1 H2))).
        apply (nodup_map_eq rn_prefix (dp_reserved d)); [done..|].
        apply starts_with_true in H2 as [r Er], Hm2 as [r' Er']. rewrite Er in Er'. symmetry.
        apply (app_inj_1 (rn_prefix ns) (rn_prefix m) r r'); [lia|done].
    + split; [done|]. intros H. exfalso. specialize (H m Hm1). congruence.
  - destruct HM as [_ HM]. split.
    + split; [done|]. intros (H1 & H2 & _). specialize (proj2 (Hl ns) (conj H1 H2)). rewrite HM. by intros ?%elem_of_nil.
    + split; [|done]. intros _ ns' H1. destruct (starts_with _ name) eqn:E; [|done].
      specialize (proj2 (Hl ns') (conj H1 E)). rewrite HM. by intros ?%elem_of_nil.
Qed.

(** * The etc-binds catalogue *)

Inductive EtcOp : Type := EAdd (p : bytes) | EPrune (p : bytes).
Definition etc_op (raw : bytes) : option EtcOp :=
  let line := trim (default [] (head (split_on HASH raw))) in
  if is_nil line then None
  else Some match strip_prefix [DASH] line with Some rest => EPrune (trim rest) | None => EAdd line end.
Definition do_op (set : list bytes) (op : EtcOp) : list bytes :=
  match op with
  | EAdd p => if bool_decide (p ∈ set) then set else set ++ [p]
  | EPrune p => List.filter (fun q => negb (bool_decide (q = p))) set
  end.
(** Added by a line that no later line prunes. *)
Definition added (ops : list EtcOp) (p : bytes) : Prop := exists l r, ops = l ++ EAdd p :: r /\ EPrune p ∉ r.
(** The lines of the layers that can be read, in order. *)
Definition catalogue_ops (h : Machine) (paths : list bytes) : list EtcOp :=
  flat_map (fun path => match h_text h path with Some text => omap etc_op (lines text) | None => [] end) paths.

Lemma apply_line_op set raw : apply_etc_line set raw = match etc_op raw with Some op => do_op set op | None => set end.
Proof.
  unfold apply_etc_line, etc_op. set (line := trim _). destruct (is_nil line); [done|]. by destruct (strip_prefix [DASH] line).
Qed.
Lemma fold_omap {A B S} (g : S -> B -> S) (f : A -> option B) (k : S -> A -> S) l :
  (forall s a, k s a = match f a with Some b => g s b | None => s end) -> forall s, fold_left k l s = fold_left g (omap f l) s.
Proof. intros H. induction l as [|a l IH]; intros s; cbn; [done|]. rewrite IH, H. by destruct (f a). Qed.
Lemma subtrees_ops h paths : forall set,
  fold_left (fun set path => match h_text h path with Some text => apply_etc_binds_layer set text | None => set end) paths set =
  fold_left do_op (catalogue_ops h paths) set.
Proof.
  induction paths as [|path paths IH]; intros set; [done|]. cbn [fold_left catalogue_ops flat_map]. rewrite IH, fold_left_app.
  unfold catalogue_ops. f_equal. destruct (h_text h path) as [text|]; [|done]. unfold apply_etc_binds_layer.
  apply fold_omap, apply_line_op.
Qed.
Lemma added_snoc ops op p : added (ops ++ [op]) p <-> op = EAdd p \/ (op <> EPrune p /\ added ops p).
Proof.
  split.
  - intros (l & r & E & Hr). destruct r as [|x r _] using rev_ind.
    + left. apply app_inj_tail in E as [_ ->]. done.
    + right. rewrite app_comm_cons, app_assoc in E. apply app_inj_tail in E as [-> ->].
      apply not_elem_of_app in Hr as [Hr Hx]. split; [intros ->; apply Hx; by left|]. by exists l, r.
  - intros [->|[Hne (l & r & -> & Hr)]].
    + exists ops, []. split; [done|]. by intros ?%elem_of_nil.
    + exists l, (r ++ [op]). rewrite <- app_assoc. split; [done|]. apply not_elem_of_app. split; [done|].
      rewrite list_elem_of_singleton. congruence.
Qed.
Lemma do_op_elem set op p : p ∈ do_op set op <-> op = EAdd p \/ (op <> EPrune p /\ p ∈ set).
Proof.
  destruct op as [q|q]; cbn [do_op].
  - case_bool_decide as Hq.
    + split; [by right|]. intros [[= ->]|[_ ?]]; done.
    + rewrite elem_of_app, list_elem_of_singleton. split; [intros [?| ->]; [by right|by left]|].
      intros [[= ->]|[_ ?]]; [by right|by left].
  - rewrite !list_elem_of_In, filter_In, negb_true_iff, bool_decide_eq_false. split.
    + intros [? Hne]. right. split; [congruence|done].
    + intros [?|[Hne ?]]; [done|]. split; [done|]. by intros ->.
Qed.
Lemma filter_nodup {A} (f : A -> bool) l : NoDup l -> NoDup (List.filter f l).
Proof. rewrite !NoDup_ListNoDup. apply List.NoDup_filter. Qed.
Lemma do_op_nodup set op : NoDup set -> NoDup (do_op set op).
Proof.
  intros H. destruct op as [q|q]; cbn [do_op]; [|by apply filter_nodup].
  case_bool_decide as Hq; [done|]. apply NoDup_app. split_and!; [done| |apply NoDup_singleton].
  intros x Hx ->%list_elem_of_singleton. done.
Qed.

(** The host subtrees a constructed [/etc] binds are those of the catalogue: the paths of this host
    that some line of a layer adds and no later line prunes, once each. *)
Theorem etc_subtrees_exact (h : Machine) (paths : list bytes) :
  NoDup (essential_etc_subtrees_from h paths) /\
  forall p, p ∈ essential_etc_subtrees_from h paths <-> added (catalogue_ops h paths) p /\ h_exists h p = true.
Proof.
  unfold essential_etc_subtrees_from. rewrite subtrees_ops.
  assert (H : NoDup (fold_left do_op (catalogue_ops h paths) []) /\
              forall p, p ∈ fold_left do_op (catalogue_ops h paths) [] <-> added (catalogue_ops h paths) p).
  { generalize (catalogue_ops h paths). intros ops. induction ops as [|op ops [IHn IH]] using rev_ind.
    - cbn. split; [constructor|]. intros p. split; [by intros ?%elem_of_nil|]. intros (l & r & E & _). by destruct l.
    - rewrite fold_left_app. cbn [fold_left]. split; [by apply do_op_nodup|]. intros p.
      by rewrite do_op_elem, added_snoc, IH. }
  destruct H as [Hn H]. split; [by apply filter_nodup|]. intros p. by rewrite list_elem_of_In, filter_In, <- list_elem_of_In, H.
Qed.

(** * The enablement scan *)

Section scan_spec.
Context {C : Crypto} {L : Toml} (h : Machine) (keys : KeySet).

(** What a link gives: a provider, where it verifies and offers something. *)
Definition attempt (dir : EnablementDir) (name : bytes) : option Enabled :=
  if negb (utf8_ok name) then None
  else match load_provider h keys (path_join (ed_path dir) name) with
       | Ok (Some p) => Some (enabled_of dir name p)
       | _ => None
       end.
(** The first directory in which the name is a link that gives a provider. *)
Definition first_enabled (dirs : list EnablementDir) (name : bytes) : option Enabled :=
  find_map (fun dir => if bool_decide (name ∈ default [] (h_dir h (ed_path dir))) then attempt dir name else None) dirs.

Definition named (name : bytes) (at_ : EnablementDir * bytes) : option Enabled :=
  if bool_decide (at_.2 = name) then attempt at_.1 at_.2 else None.
Lemma attempt_name dir name e : attempt dir name = Some e -> en_name e = name.
Proof. unfold attempt. destruct (negb _); [done|]. destruct (load_provider _ _ _) as [[p|]|]; [|done..]. by intros [= <-]. Qed.
Lemma find_named dir name ns :
  find_map (named name) (map (pair dir) ns) = if bool_decide (name ∈ ns) then attempt dir name else None.
Proof.
  induction ns as [|n ns IH]; cbn [map find_map]; [by rewrite bool_decide_eq_false_2 by apply not_elem_of_nil|].
  unfold named at 1. cbn. destruct (decide (n = name)) as [->|Hne].
  - rewrite (bool_decide_eq_true_2 (name = name)) by done. rewrite (bool_decide_eq_true_2 (name ∈ name :: ns)) by by left.
    rewrite IH. destruct (attempt dir name); [done|]. by destruct (bool_decide _).
  - rewrite (bool_decide_eq_false_2 (n = name)) by done. rewrite IH.
    assert (bool_decide (name ∈ n :: ns) = bool_decide (name ∈ ns)) as -> by (apply bool_decide_ext; set_solver). done.
Qed.
Lemma find_links name dirs : find_map (named name) (flat_map (dir_links h) dirs) = first_enabled dirs name.
Proof.
  induction dirs as [|dir dirs IH]; [done|]. cbn [flat_map first_enabled find_map]. rewrite find_map_app, IH.
  unfold dir_links. destruct (h_dir h (ed_path dir)) as [ns|]; cbn [default from_option].
  - rewrite find_named.
    assert (bool_decide (name ∈ merge_sort bytes_le ns) = bool_decide (name ∈ ns)) as ->
      by (apply bool_decide_ext; by rewrite merge_sort_Permutation).
    unfold first_enabled. by destruct (bool_decide _), (attempt dir name).
  - by rewrite bool_decide_eq_false_2 by apply not_elem_of_nil.
Qed.

Lemma find_named_name n ps e : find_map (named n) ps = Some e -> en_name e = n.
Proof.
  induction ps as [|[dir name] ps IH]; cbn; [done|]. destruct (named n (dir, name)) eqn:E; [|done]. intros [= ->].
  unfold named in E. cbn in E. case_bool_decide as En; [|done]. subst. by apply attempt_name in E.
Qed.

Lemma scan_inv ps :
  let st := fold_left (scan_link h keys) ps {| sc_seen := []; sc_out := []; sc_warned := [] |} in
  (forall n, n ∈ sc_seen st <-> n ∈ map en_name (sc_out st)) /\ NoDup (map en_name (sc_out st)) /\
  (forall e, e ∈ sc_out st <-> find_map (named (en_name e)) ps = Some e).
Proof.
  induction ps as [|[dir name] ps IH] using rev_ind; cbn zeta.
  - cbn. split_and!; [done|constructor|]. intros e. split; [by intros ?%elem_of_nil|done].
  - cbn zeta in IH. rewrite fold_left_app. cbn [fold_left]. revert IH. generalize (fold_left (scan_link h keys) ps {| sc_seen := []; sc_out := []; sc_warned := [] |}).
    intros st (Hs & Hn & Hf).
    assert (Hstep : forall n, find_map (named n) (ps ++ [(dir, name)]) = or_else (find_map (named n) ps) (named n (dir, name))).
    { intros n. rewrite find_map_app. cbn [find_map]. unfold or_else. by destruct (find_map (named n) ps), (named n (dir, name)). }
    assert (Hout : forall n, n ∈ map en_name (sc_out st) -> exists e, find_map (named n) ps = Some e).
    { intros n Hin. apply list_elem_of_In, in_map_iff in Hin as (e & <- & He). exists e. by apply Hf, list_elem_of_In. }
    assert (Hskip : (forall n e, find_map (named n) ps = None -> named n (dir, name) = Some e -> False) ->
      (forall n, n ∈ sc_seen st <-> n ∈ map en_name (sc_out st)) /\ NoDup (map en_name (sc_out st)) /\
      (forall e, e ∈ sc_out st <-> find_map (named (en_name e)) (ps ++ [(dir, name)]) = Some e)).
    { intros H. split_and!; [done..|]. intros e. rewrite Hstep, Hf. specialize (H (en_name e)).
      destruct (find_map (named (en_name e)) ps) as [e'|]; [done|]. cbn. destruct (named (en_name e) (dir, name)) as [e'|]; [|done].
      by destruct (H e'). }
    assert (Hat : forall n e, named n (dir, name) = Some e -> n = name /\ attempt dir name = Some e).
    { intros n e. unfold named. cbn. case_bool_decide as E; [by subst|done]. }
    unfold scan_link. destruct (utf8_ok name) eqn:Hu; cbn [negb].
    2: { apply Hskip. intros n e _ [_ Ha]%Hat. unfold attempt in Ha. by rewrite Hu in Ha. }
    case_bool_decide as Hseen.
    { apply Hskip. intros n e Hno [-> _]%Hat. apply Hs, Hout in Hseen as [e' He']. congruence. }
    assert (Hload : attempt dir name = match load_provider h keys (path_join (ed_path dir) name) with
                                       | Ok (Some p) => Some (enabled_of dir name p) | _ => None end)
      by (unfold attempt; by rewrite Hu).
    destruct (load_provider h keys (path_join (ed_path dir) name)) as [[p|]|];
      [|apply Hskip; intros n0 e0 _ [_ Ha]%Hat; congruence..].
    cbn [sc_seen sc_out]. rewrite map_app. cbn [map]. change (en_name (enabled_of dir name p)) with name.
    assert (Hno : find_map (named name) ps = None).
    { destruct (find_map (named name) ps) as [e|] eqn:E; [|done]. exfalso. apply Hseen, Hs.
      pose proof (find_named_name _ _ _ E) as En. rewrite <- En in E |- *. apply Hf in E.
      apply list_elem_of_In, in_map_iff. exists e. split; [done|by apply list_elem_of_In]. }
    split_and!.
    + intros n. rewrite elem_of_cons, elem_of_app, list_elem_of_singleton, Hs. tauto.
    + apply NoDup_app. split_and!; [done| |apply NoDup_singleton]. intros n Hin ->%list_elem_of_singleton. apply Hseen, Hs, Hin.
    + intros e. rewrite elem_of_app, list_elem_of_singleton, Hf, Hstep.
      destruct (decide (en_name e = name)) as [En|En].
      * rewrite En, Hno. unfold named. cbn. rewrite bool_decide_eq_true_2 by done. rewrite Hload. split; [intros [?| ->]; done|].
        intros [= <-]. by right.
      * unfold named at 3. cbn. rewrite bool_decide_eq_false_2 by congruence. rewrite or_else_none. split; [|by left].
        intros [?| ->]; [done|]. by destruct En.
Qed.
End scan_spec.

(** The scan enables a provider once per name, from the first of its directories in which the name is a
    link to a policy that verifies and offers something: a link that does not verify hides none of a
    later directory. *)
Theorem scan_first_valid {C : Crypto} {L : Toml} (h : Machine) (keys : KeySet) (dirs : list EnablementDir) :
  NoDup (map en_name (sc_out (scan h keys dirs))) /\
  forall e, e ∈ sc_out (scan h keys dirs) <-> first_enabled h keys dirs (en_name e) = Some e.
Proof.
  destruct (scan_inv h keys (flat_map (dir_links h) dirs)) as (_ & Hn & Hf). split; [exact Hn|].
  intros e. unfold scan. by rewrite Hf, find_links.
Qed.

(** * Trust *)

Section trust_spec.
Context {C : Crypto} (h : Machine).

(** The key a directory has under an id: the one of its first [<id>.pub]. *)
Definition file_key (path : bytes) : option bytes :=
  contents ← h_text h path; '(pk, _) ← result_ok (openssh_public_key contents); pk_from_slice pk.
Definition key_at (id dir : bytes) : option bytes :=
  find_map (fun name => if bool_decide (pub_stem name = Some id) then file_key (path_join dir name) else None)
    (default [] (h_dir h dir)).

Lemma keys_get_snoc keys k pk id :
  keys_get (keys ++ [(k, pk)]) id = or_else (keys_get keys id) (if bool_decide (k = id) then Some pk else None).
Proof.
  unfold keys_get. induction keys as [|[k' pk'] keys IH]; cbn [app List.find fst]; [by destruct (bool_decide (k = id))|].
  by destruct (bool_decide (k' = id)).
Qed.
Lemma load_key_get keys path k keys' id :
  load_key h keys path k = Ok keys' ->
  keys_get keys' id = or_else (keys_get keys id) (if bool_decide (k = id) then file_key path else None).
Proof.
  unfold load_key, file_key. destruct (h_text h path) as [contents|]; cbn; [|done].
  destruct (is_openssh_public contents); [|by destruct (is_legacy_raw_b64 contents)].
  destruct (openssh_public_key contents) as [[pk c]|]; cbn; [|done]. unfold keys_insert.
  destruct (pk_from_slice pk); [|done]. intros [= <-]. apply keys_get_snoc.
Qed.
Lemma load_dir_get dir names id : forall keys keys', load_dir h dir names keys = Ok keys' ->
  keys_get keys' id = or_else (keys_get keys id)
    (find_map (fun name => if bool_decide (pub_stem name = Some id) then file_key (path_join dir name) else None) names).
Proof.
  induction names as [|name names IH]; intros keys keys'; cbn [load_dir find_map].
  - intros [= <-]. by rewrite or_else_none.
  - destruct (pub_stem name) as [k|] eqn:E.
    + destruct (load_key h keys (path_join dir name) k) as [k1|] eqn:Ek; cbn; [|done]. intros H. rewrite (IH _ _ H).
      rewrite (load_key_get _ _ _ _ id Ek), <- or_else_assoc. f_equal.
      destruct (decide (k = id)) as [->|Hne].
      * rewrite !bool_decide_eq_true_2 by done. by destruct (file_key _).
      * by rewrite !bool_decide_eq_false_2 by congruence.
    + cbn. intros H. rewrite (IH _ _ H). by rewrite bool_decide_eq_false_2 by done.
Qed.
Lemma store_get dirs id : forall keys keys', load_dirs h dirs keys = Ok keys' ->
  keys_get keys' id = or_else (keys_get keys id) (find_map (key_at id) dirs).
Proof.
  induction dirs as [|dir dirs IH]; intros keys keys'; cbn [load_dirs find_map].
  - intros [= <-]. by rewrite or_else_none.
  - destruct (load_dir h dir _ keys) as [k1|] eqn:E; cbn; [|done]. intros H. rewrite (IH _ _ H), (load_dir_get _ _ id _ _ E).
    rewrite <- or_else_assoc. f_equal. change (or_else (key_at id dir) (find_map (key_at id) dirs) = match key_at id dir with Some y => Some y | None => find_map (key_at id) dirs end). by destruct (key_at id dir).
Qed.
Lemma trust_load_inv dt ut dirs x : trust_load h dt ut dirs = Ok x ->
  load_trust_store h dirs = Ok (tx_keys x) /\ (tx_vendor x, tx_host x) = trust_tier_sets h (user_or_default ut h).
Proof. unfold trust_load. destruct (load_trust_store h dirs); cbn; [|done]. by intros [= <-]. Qed.
Lemma tier_require x id : tier_of (tx_require x) id =
  if bool_decide (id ∈ tx_vendor x) then STVendor else if bool_decide (id ∈ tx_host x) then STHost else STUser.
Proof. done. Qed.
End trust_spec.

(** The key of an id is the one of the first directory that has it; its tier goes by the id alone.  So
    where the system's key directory, searched first, has a file of the same name as a vendor key, the
    key the host put there verifies artefacts at the vendor tier. *)
Theorem shadowed_key_vendor_tier {C : Crypto} (h : Machine) dt ut x (id pk : bytes) :
  trust_load h dt ut (system_search_dirs KEYS) = Ok x ->
  key_at h id (path_join SYSTEM_DIR KEYS) = Some pk ->
  id ∈ key_ids_in h vendor_key_dir ->
  keys_get (tx_keys x) id = Some pk /\ tier_of (tx_require x) id = STVendor.
Proof.
  intros [Hk Ht]%trust_load_inv Hpk Hid. split.
  - unfold load_trust_store, system_search_dirs in Hk. rewrite (store_get h _ id _ _ Hk). change (keys_get [] id) with (@None bytes). cbn [or_else find_map]. by rewrite Hpk.
  - rewrite tier_require. injection Ht as -> _. by rewrite bool_decide_eq_true_2.
Qed.


(** Without a configured list the directories are the two that root owns, and a key is of the host tier
    exactly when [/etc/kennel/keys] has it and the vendor's directory does not: a key of the user's own
    directory is of neither tier. *)
Theorem default_tiers_root_owned {C : Crypto} (h : Machine) dt ut x (dirs : list bytes) (id : bytes) :
  ru_key_dirs (user_or_default ut h) = None -> trust_load h dt ut dirs = Ok x ->
  add_system_trust_dirs h ut [] = [ascii_bytes "/etc/kennel/keys"; ascii_bytes "/usr/lib/kennel/keys"] /\
  tier_of (tx_require x) id =
    if bool_decide (id ∈ key_ids_in h (ascii_bytes "/usr/lib/kennel/keys")) then STVendor
    else if bool_decide (id ∈ key_ids_in h (ascii_bytes "/etc/kennel/keys")) then STHost else STUser.
Proof.
  intros Hn [_ Ht]%trust_load_inv. unfold trust_tier_sets, system_key_dirs in Ht. rewrite Hn in Ht.
  injection Ht as Ev Eh. split; [unfold add_system_trust_dirs, system_key_dirs; by rewrite Hn|].
  rewrite tier_require, Ev, Eh. reflexivity.
Qed.

(** * Examples *)

Definition alice_key : bytes := ascii_bytes "ssh-ed25519 AAAAC3NzaC1lZDI1NTE5AAAAIHBwcHBwcHBwcHBwcHBwcHBwcHBwcHBwcHBwcHBwcHBw alice".
Definition mallory_key : bytes := ascii_bytes "ssh-ed25519 AAAAC3NzaC1lZDI1NTE5AAAAIHFxcXFxcXFxcXFxcXFxcXFxcXFxcXFxcXFxcXFxcXFx mallory".
Definition ex_files (files : list (string * bytes)) (path : bytes) : option bytes :=
  option_map snd (List.find (fun f => bool_decide (ascii_bytes f.1 = path)) files).
Definition ex_machine (files : list (string * bytes)) (dirs : list (string * list string)) : Machine := {|
  h_env v := if bool_decide (v = ascii_bytes "HOME") then Some (ascii_bytes "/home/alice") else None;
  h_meta p := match ex_files files p with Some t => MetaLen (blen t) | None => MetaNotFound end;
  h_text := ex_files files; h_bytes := ex_files files; h_exists p := negb (is_none (ex_files files p));
  h_dir p := option_map (fun d => map ascii_bytes d.2) (List.find (fun d => bool_decide (ascii_bytes d.1 = p)) dirs) |}.
Definition ex_shadow : Machine := ex_machine
  [("/etc/kennel/keys/maintainer.pub", mallory_key); ("/usr/lib/kennel/keys/maintainer.pub", alice_key)]%string
  [("/etc/kennel/keys", ["maintainer.pub"]); ("/usr/lib/kennel/keys", ["maintainer.pub"])]%string.
Definition no_toml {T} (_ : bytes) : option T := None.

Lemma shadowed_key_vendor_tier_witness : exists x,
  trust_load (C := toy_crypto) ex_shadow no_toml no_toml (system_search_dirs KEYS) = Ok x /\
  keys_get (tx_keys x) (ascii_bytes "maintainer") = Some (replicate 32 113) /\
  tier_of (tx_require x) (ascii_bytes "maintainer") = STVendor.
Proof.
  destruct (trust_load (C := toy_crypto) ex_shadow no_toml no_toml (system_search_dirs KEYS)) as [x|] eqn:E;
    [|vm_compute in E; discriminate E].
  exists x. split; [reflexivity|].
  apply (shadowed_key_vendor_tier (C := toy_crypto) ex_shadow no_toml no_toml x (ascii_bytes "maintainer") (replicate 32 113) E).
  - vm_compute. reflexivity.
  - apply list_elem_of_In. vm_compute. left. reflexivity.
Defined.

Definition ex_user : Machine := ex_machine
  [("/home/alice/.config/kennel/config.toml", ascii_bytes "keys"); ("/home/alice/k/mine.pub", alice_key);
   ("/usr/lib/kennel/keys/maintainer.pub", mallory_key)]%string
  [("/home/alice/k", ["mine.pub"]); ("/usr/lib/kennel/keys", ["maintainer.pub"])]%string.
Definition ex_user_dirs : list bytes := [ascii_bytes "/usr/lib/kennel/keys"; ascii_bytes "/home/alice/k"].
Definition ex_user_toml (_ : bytes) : option RawUser :=
  Some {| ru_template_dirs := None; ru_key_dirs := Some ex_user_dirs; ru_policy_dirs := None |}.

Definition ex_reserved : RawDeployment := {|
  rd_key k := match k with KTrustDir => Some (ascii_bytes "/srv/keys") | _ => None end; rd_log_level := None;
  rd_reserved := [ {| rn_prefix := ascii_bytes "com.acme."; rn_keys := [] |};
                   {| rn_prefix := ascii_bytes "com.acme.db."; rn_keys := [ascii_bytes "dba"] |};
                   {| rn_prefix := ascii_bytes "com.acme."; rn_keys := [ascii_bytes "acme"] |} ] |}.
Definition ex_host : Machine := ex_machine [("/etc/kennel/system.toml", ascii_bytes "reserved")]%string [].
Lemma longest_namespace_governs_witness : exists d,
  load_from_dirs (fun _ => Some ex_reserved) ex_host [SYSTEM_DIR] = Ok d /\
  dp_trust_dir d = ascii_bytes "/srv/keys" /\ length (dp_reserved d) = 2%nat /\
  {| rn_prefix := ascii_bytes "com.acme.db."; rn_keys := [ascii_bytes "dba"] |} ∈ dp_reserved d.
Proof.
  destruct (load_from_dirs (fun _ => Some ex_reserved) ex_host [SYSTEM_DIR]) as [d|] eqn:E; [|vm_compute in E; discriminate E].
  pose proof (longest_namespace_governs _ _ _ d (ascii_bytes "com.acme.db.main")
    {| rn_prefix := ascii_bytes "com.acme.db."; rn_keys := [ascii_bytes "dba"] |} E) as [[H _] _].
  vm_compute in E. injection E as <-. destruct (H eq_refl) as [Hin _].
  eexists. split; [reflexivity|]. split; [reflexivity|]. split; [reflexivity|]. exact Hin.
Defined.

(** A grant whose glob starts inside a name is compared by the part of the name before the glob: the
    pattern [/etc/ss*] is reported as served by nothing where [/etc/ssl] is catalogued. *)
Example glob_inside_a_name :
  uncatalogued_etc_grants [ascii_bytes "/etc/ss*"; ascii_bytes "/etc/ssl/*"; ascii_bytes "/etc/passwd"]
    [ascii_bytes "/etc/ssl"] [] = [ascii_bytes "/etc/ss*"].
Proof. vm_compute. reflexivity. Qed.

Example ex_catalogue :
  fold_left apply_etc_line (lines (ascii_bytes "/etc/ssl # tls
/etc/pki
- /etc/ssl
/etc/ld.so.conf
/etc/pki
")) [] = [ascii_bytes "/etc/pki"; ascii_bytes "/etc/ld.so.conf"].
Proof. vm_compute. reflexivity. Qed.
