(* ===== verification/EtcFiles.v ===== *)
(** The synthetic [/etc] of a kennel ([kenneld/src/etc.rs]) and the resolution of the loaders of a
    binary ([kennel-lib-policy/src/libresolve.rs]).

    A rendered file is its text; what a program of the kennel gets out of it is stated with readers of
    the file formats: the account of a uid, the name of a gid, the addresses of a host name, the name
    servers.  Writing the files is a list of writes, cut short by a call that fails.  The ELF reader is
    third-party code: a parameter gives the [.interp] section of a file it can parse.

    Theorems: the accounts, groups, host names and name servers a kennel sees are exactly the masked
    ones; the renderer knows exactly the files of the floor, and materialising them either binds each
    over its name in [/etc] or fails; the loaders granted are those of the concrete binaries. *)

From stdpp Require Import sorting.
From S2P Require Import Prelude Bytes Str Paths Plan Settled Cursor IpText Sshsig Registry Proxy SourceSig Config.

(** ** Texts *)

Definition TAB : Z := 9.
Definition SPACE : Z := 32.
Definition text_of (ls : list bytes) : bytes := flat_map (fun l => l ++ [NL]) ls.
Definition ip_text (a : ip_addr) : bytes := match a with V4 o => ipv4_text o | V6 o => ipv6_text o end.
Definition V4_LOCALHOST : bytes := [127; 0; 0; 1].
Definition V6_LOCALHOST : bytes := replicate 15 0 ++ [1].
Abbreviation lit := ascii_bytes.

Record EtcParams : Type := {
  et_hostname : bytes; et_user : bytes; et_group : bytes; et_uid : Z; et_gid : Z; et_home : bytes;
  et_groups : list (bytes * Z); et_shell : bytes; et_v4 : option bytes; et_v6 : bytes; et_udp_resolver : option bytes;
}.
Definition primary (p : EtcParams) : ip_addr := match et_v4 p with Some a => V4 a | None => V6 (et_v6 p) end.

Definition hosts (p : EtcParams) : bytes := text_of
  [ipv4_text (default V4_LOCALHOST (et_v4 p)) ++ [TAB] ++ lit "localhost " ++ et_hostname p;
   ipv6_text (et_v6 p) ++ [TAB] ++ lit "localhost ip6-localhost ip6-loopback " ++ et_hostname p].

(** The comment lines above the two that are read; the dash and the arrows of the first text are the
    UTF-8 of the source. *)
Definition EM_DASH : bytes := [226; 128; 148].
Definition ARROW : bytes := [226; 134; 146].
Definition udp_comment : list bytes :=
  [lit "# Project Kennel: UDP egress ([net.udp]) " ++ EM_DASH ++ lit " names resolve at the tun broker's naming";
   lit "# shim (allowed " ++ ARROW ++ lit " synthetic AAAA, denied " ++ ARROW ++ lit " NODATA, zero wire); direct DNS off the tun";
   lit "# is denied by the cgroup BPF."].
Definition proxy_comment : list bytes :=
  [lit "# Project Kennel: names resolve through the egress proxy (socks5h); direct";
   lit "# DNS is denied by cgroup BPF. Pointed at the proxy so a stray query fails";
   lit "# fast rather than hanging on a host resolver."].
Definition resolv_conf (p : EtcParams) : bytes :=
  match et_udp_resolver p with
  | Some resolver =>
      text_of (udp_comment ++ [lit "nameserver " ++ ipv6_text resolver; lit "options timeout:1 attempts:1"])
  | None =>
      text_of (proxy_comment ++ [lit "nameserver " ++ ip_text (primary p); lit "options timeout:1 attempts:1"])
  end.

Definition nsswitch_conf : bytes := text_of
  [lit "passwd:     files"; lit "group:      files"; lit "shadow:     files"; lit "hosts:      files dns";
   lit "networks:   files"; lit "protocols:  files"; lit "services:   files"; lit "ethers:     files";
   lit "rpc:        files"; lit "netgroup:   files"].

Definition X : bytes := lit "x".
Definition root_line : bytes := lit "root:x:0:0:root:/root:/usr/sbin/nologin".
Definition nobody_line : bytes := lit "nobody:x:65534:65534:nobody:/nonexistent:/usr/sbin/nologin".
Definition passwd (p : EtcParams) : bytes := text_of
  [root_line;
   join_with COLON [et_user p; X; dec (et_uid p); dec (et_gid p); lit "Kennel user"; to_string_lossy (et_home p); et_shell p];
   nobody_line].
Definition group_line (p : EtcParams) (g : bytes * Z) : bytes := join_with COLON [g.1; X; dec g.2; et_user p].
Definition group (p : EtcParams) : bytes := text_of
  ([lit "root:x:0:"; join_with COLON [et_group p; X; dec (et_gid p); []]] ++
   map (group_line p) (List.filter (fun g => negb (g.2 =? et_gid p)) (et_groups p)) ++ [lit "nogroup:x:65534:"]).

Definition host_conf : bytes := text_of [lit "multi on"].
Definition protocols : bytes := text_of
  [lit "ip      0   IP"; lit "icmp    1   ICMP"; lit "igmp    2   IGMP"; lit "tcp     6   TCP"; lit "udp     17  UDP";
   lit "ipv6    41  IPv6"; lit "ipv6-icmp 58 IPv6-ICMP"; lit "ipv6-frag 44 IPv6-Frag"; lit "gre     47  GRE";
   lit "esp     50  IPSEC-ESP"; lit "ah      51  IPSEC-AH"; lit "sctp    132 SCTP"].
Definition services : bytes := text_of
  [lit "ftp-data    20/tcp"; lit "ftp         21/tcp"; lit "ssh         22/tcp"; lit "telnet      23/tcp";
   lit "smtp        25/tcp      mail"; lit "domain      53/tcp"; lit "domain      53/udp"; lit "http        80/tcp      www";
   lit "pop3        110/tcp"; lit "ntp         123/udp"; lit "imap        143/tcp"; lit "snmp        161/udp";
   lit "ldap        389/tcp"; lit "https       443/tcp"; lit "submission  587/tcp"; lit "ldaps       636/tcp";
   lit "imaps       993/tcp"; lit "pop3s       995/tcp"; lit "socks       1080/tcp"; lit "mysql       3306/tcp";
   lit "postgresql  5432/tcp"; lit "redis       6379/tcp"; lit "http-alt    8080/tcp"; lit "https-alt   8443/tcp"].

(** The section sign and the double quote, which a string here cannot hold. *)
Definition SECTION : bytes := [194; 167].
Definition QUOTE : bytes := [34].
Definition synthesised (where_ : bytes) (rest : bytes) : bytes :=
  lit "# Synthesised by Project Kennel (07-9-other.md " ++ SECTION ++ where_ ++ rest.
Definition profile : bytes := text_of
  [synthesised (lit "7.9.2a). ") (lit "Read-only; rebuilt each spawn."); lit "umask 022";
   lit "if [ -n " ++ QUOTE ++ lit "${BASH_VERSION-}" ++ QUOTE ++ lit " ] && [ -r /etc/bash.bashrc ]; then";
   [TAB] ++ lit ". /etc/bash.bashrc"; lit "fi"].
Definition bash_bashrc (p : EtcParams) : bytes := text_of
  [synthesised (lit "7.9.2a). ") (lit "Read-only; rebuilt each spawn."); lit "case $- in *i*) ;; *) return ;; esac";
   lit "PS1='[kennel:" ++ et_hostname p ++ lit " \w]\$ '"].

Definition FILES : list bytes := SYNTHETIC_ETC_FILES.
Definition render (name : bytes) (p : EtcParams) : option bytes :=
  if bool_decide (name = lit "hosts") then Some (hosts p)
  else if bool_decide (name = lit "resolv.conf") then Some (resolv_conf p)
  else if bool_decide (name = lit "nsswitch.conf") then Some nsswitch_conf
  else if bool_decide (name = lit "services") then Some services
  else if bool_decide (name = lit "protocols") then Some protocols
  else if bool_decide (name = lit "passwd") then Some (passwd p)
  else if bool_decide (name = lit "group") then Some (group p)
  else if bool_decide (name = lit "host.conf") then Some host_conf
  else if bool_decide (name = lit "profile") then Some profile
  else if bool_decide (name = lit "bash.bashrc") then Some (bash_bashrc p)
  else if bool_decide (name = lit "hostname") then Some (et_hostname p ++ [NL])
  else None.

(** ** Writing them *)

Definition ETC_DIR : bytes := lit "/etc".
Definition HOME_DOTFILES : list (bytes * bytes) :=
  [(lit ".profile", text_of [synthesised (lit "7.9.2a). ") (lit "Rebuilt each spawn."); lit "[ -r /etc/profile ] && . /etc/profile"]);
   (lit ".bashrc", text_of [synthesised (lit "7.9.2a). ") (lit "Rebuilt each spawn."); lit "[ -r /etc/bash.bashrc ] && . /etc/bash.bashrc"])].

Section materialize.
(** Whether [create_dir_all] and [write] of a path succeed. *)
Context (made written : bytes -> bool).

(** The writes done, and the binds unless a call failed. *)
Fixpoint write_files (dir : bytes) (target : bytes) (files : list (bytes * option bytes)) :
    list (bytes * bytes) * option (list (bytes * bytes)) :=
  match files with
  | [] => ([], Some [])
  | (_, None) :: _ => ([], None)
  | (name, Some body) :: files =>
      let source := path_join dir name in
      if written source then
        let '(done_, binds) := write_files dir target files in
        ((source, body) :: done_, option_map (cons (source, path_join target name)) binds)
      else ([], None)
  end.
Definition materialize (dir : bytes) (p : EtcParams) : list (bytes * bytes) * option (list (bytes * bytes)) :=
  if made dir then write_files dir ETC_DIR (map (fun name => (name, render name p)) FILES) else ([], None).
Definition materialize_home_dotfiles (dir home : bytes) (persist : list bytes) :
    list (bytes * bytes) * option (list (bytes * bytes)) :=
  if made dir
  then write_files dir home
         (map (fun d => (d.1, Some d.2)) (List.filter (fun d => negb (bool_decide (d.1 ∈ persist))) HOME_DOTFILES))
  else ([], None).
End materialize.

(** ** Loaders ([libresolve.rs]) *)

Inductive Kind : Type := KElf (loader : option bytes) | KScript (interp : bytes) | KOpaque.
Record LoaderResolution : Type := {
  lr_loaders : list bytes;
  (** The script and the interpreter each warning names. *)
  lr_warnings : list (bytes * bytes);
}.
(** The iteration of a [BTreeSet<String>] built from a list. *)
Definition btree (l : list bytes) : list bytes := merge_sort bytes_le (remove_dups l).

Section loaders.
(** [object::File::parse], as what the section [.interp] of the file holds; and [std::fs::read]. *)
Context (elf : bytes -> option (option bytes)) (read : bytes -> option bytes).

Definition interp_of_elf (section : option bytes) : option bytes :=
  data ← section;
  let path := to_string_lossy (default data (head (split_on 0 data))) in
  if is_nil path then None else Some path.
Definition classify_bytes (data : bytes) : Kind :=
  match strip_prefix (lit "#!") data with
  | Some rest =>
      let line := default rest (head (split_on NL rest)) in
      let token := default [] (head (split_whitespace (to_string_lossy line))) in
      if starts_with [SLASH] token then KScript token else KOpaque
  | None => match elf data with Some section => KElf (interp_of_elf section) | None => KOpaque end
  end.
Definition classify (path : bytes) : Kind := match read path with Some data => classify_bytes data | None => KOpaque end.
(** A single binary to look at. *)
Definition concrete (binary : bytes) : bool := negb (has_byte STAR binary) && starts_with [SLASH] binary.
Definition resolve_loaders (binaries : list bytes) : LoaderResolution := {|
  lr_loaders := btree (omap (fun b => if concrete b then match classify b with KElf l => option_map to_string_lossy l | _ => None end else None) binaries);
  lr_warnings := omap (fun b => if concrete b then
      match classify b with
      | KScript i => if bool_decide (to_string_lossy i ∈ binaries) then None else Some (b, to_string_lossy i)
      | _ => None
      end else None) binaries |}.
End loaders.

(** * What a program of the kennel reads *)

(** No character that ends a field or a line. *)
Definition plain (s : bytes) : Prop := Forall (fun b => b <> NL /\ b <> CR /\ b <> COLON) s.

Record Account : Type := { ac_name : bytes; ac_uid : Z; ac_gid : Z; ac_home : bytes; ac_shell : bytes }.
(** [getpwuid]: the first line of seven fields with that uid. *)
Definition pw_entry (line : bytes) : option Account :=
  match split_on COLON line with
  | [name; _; uid; gid; _; home; shell] =>
      uid ← parse_uint u32_max uid; gid ← parse_uint u32_max gid;
      Some {| ac_name := name; ac_uid := uid; ac_gid := gid; ac_home := home; ac_shell := shell |}
  | _ => None
  end.
Definition getpwuid (text : bytes) (uid : Z) : option Account :=
  find_map (fun l => a ← pw_entry l; if ac_uid a =? uid then Some a else None) (lines text).
(** [getgrgid]: the name of the first line of four fields with that gid. *)
Definition gr_entry (line : bytes) : option (bytes * Z) :=
  match split_on COLON line with
  | [name; _; gid; _] => gid ← parse_uint u32_max gid; Some (name, gid)
  | _ => None
  end.
Definition getgrgid (text : bytes) (gid : Z) : option bytes :=
  find_map (fun l => g ← gr_entry l; if g.2 =? gid then Some g.1 else None) (lines text).
(** The addresses the lines of [hosts] give a name, and the servers of [resolv.conf]. *)
Definition host_addrs (text name : bytes) : list bytes :=
  omap (fun l => match split_once TAB l with
                 | Some (addr, names) => if bool_decide (name ∈ split_on SPACE names) then Some addr else None
                 | None => None
                 end) (lines text).
Definition nameservers (text : bytes) : list bytes := omap (strip_prefix (lit "nameserver ")) (lines text).

Lemma has_byte_Forall c s : has_byte c s = false <-> Forall (fun b => b <> c) s.
Proof.
  unfold has_byte. induction s as [|b s IH]; cbn; [by split|]. rewrite orb_false_iff, IH, Z.eqb_neq. split.
  - intros [? ?]. constructor; [congruence|done].
  - intros H. inversion H. split; [congruence|done].
Qed.
Lemma split_text ls : Forall (fun l => has_byte NL l = false) ls -> split_on NL (text_of ls) = ls ++ [[]].
Proof.
  induction 1 as [|l ls Hl _ IH]; [done|]. cbn [text_of flat_map]. rewrite <- app_assoc. cbn [app]. rewrite split_on_app by done.
  unfold text_of in IH. by rewrite IH.
Qed.
Lemma lines_text ls : Forall (fun l => has_byte NL l = false /\ has_byte CR l = false) ls -> lines (text_of ls) = ls.
Proof.
  intros H. unfold lines. rewrite split_text by (eapply Forall_impl; [exact H|]; by intros l [? _]).
  rewrite last_snoc, length_app, Nat.add_sub, take_app_length. rewrite <- (map_id ls) at 2. apply map_ext_in. intros l Hl.
  rewrite List.Forall_forall in H. destruct (H l Hl) as [_ Hc]. destruct (strip_suffix [CR] l) as [r|] eqn:E; [|done].
  apply strip_suffix_Some in E as ->. rewrite has_byte_app in Hc. cbn in Hc. by rewrite orb_true_r in Hc.
Qed.
Lemma plain_dec n : 0 <= n -> plain (dec n).
Proof.
  intros Hn. unfold plain, dec. eapply Forall_impl; [apply (dec_digits_ascii 20 n Hn)|]. intros b Hb. unfold is_digit in Hb.
  unfold NL, CR, COLON. zbool. lia.
Qed.
Lemma plain_lit s : forallb (fun b => negb ((b =? NL) || (b =? CR) || (b =? COLON))) s = true -> plain s.
Proof.
  intros H. apply List.Forall_forall. intros b Hb. rewrite forallb_forall in H. specialize (H b Hb). zbool. done.
Qed.
Lemma plain_bytes c s : (c = NL \/ c = CR \/ c = COLON) -> plain s -> has_byte c s = false.
Proof.
  intros Hc H. apply has_byte_Forall. eapply Forall_impl; [exact H|]. cbn. intros b (? & ? & ?). by destruct Hc as [-> | [-> | ->]].
Qed.
Lemma join_bytes c sep ps : c <> sep -> Forall (fun s => has_byte c s = false) ps -> has_byte c (join_with sep ps) = false.
Proof.
  intros Hne H. induction H as [|s ps Hs Hps IH]; [done|]. cbn [join_with]. destruct ps; [done|]. rewrite has_byte_app.
  rewrite Hs. unfold has_byte in *. cbn [existsb orb]. rewrite IH, orb_false_r. by apply Z.eqb_neq.
Qed.
Lemma join_line ps : Forall plain ps -> has_byte NL (join_with COLON ps) = false /\ has_byte CR (join_with COLON ps) = false.
Proof.
  intros H. split; (apply join_bytes; [done|]; eapply Forall_impl; [exact H|]; intros s Hs; apply plain_bytes; tauto).
Qed.
Lemma split_fields ps : ps <> [] -> Forall plain ps -> split_on COLON (join_with COLON ps) = ps.
Proof.
  intros Hne H. apply split_join; [done|]. eapply Forall_impl; [exact H|]. intros s Hs. apply plain_bytes; tauto.
Qed.

Definition root_account : Account :=
  {| ac_name := lit "root"; ac_uid := 0; ac_gid := 0; ac_home := lit "/root"; ac_shell := lit "/usr/sbin/nologin" |}.
Definition nobody_account : Account :=
  {| ac_name := lit "nobody"; ac_uid := 65534; ac_gid := 65534; ac_home := lit "/nonexistent"; ac_shell := lit "/usr/sbin/nologin" |}.
Definition kennel_account (p : EtcParams) : Account :=
  {| ac_name := et_user p; ac_uid := et_uid p; ac_gid := et_gid p; ac_home := to_string_lossy (et_home p); ac_shell := et_shell p |}.

(** The accounts of a kennel are three: [getpwuid] answers the masked account, with the home inside the
    kennel and the shell of the policy, for the workload's uid, the two fixed ones for theirs, and none
    for any other uid of the host. *)
Theorem passwd_accounts (p : EtcParams) (uid : Z) :
  plain (et_user p) -> plain (to_string_lossy (et_home p)) -> plain (et_shell p) ->
  in_u32 (et_uid p) -> in_u32 (et_gid p) ->
  getpwuid (passwd p) uid =
    if uid =? 0 then Some root_account
    else if uid =? et_uid p then Some (kennel_account p)
    else if uid =? 65534 then Some nobody_account else None.
Proof.
  intros Hu Hh Hs Hi Hg. unfold in_u32 in *.
  assert (HP : Forall plain [et_user p; X; dec (et_uid p); dec (et_gid p); lit "Kennel user"; to_string_lossy (et_home p); et_shell p]).
  { repeat constructor; try done; try (apply plain_dec; lia); by repeat constructor. }
  unfold getpwuid, passwd. rewrite lines_text.
  2: { constructor; [by split|]. constructor; [by apply join_line|]. constructor; [by split|constructor]. }
  cbn [find_map].
  replace (pw_entry root_line) with (Some root_account) by reflexivity.
  replace (pw_entry nobody_line) with (Some nobody_account) by reflexivity.
  unfold pw_entry at 1. rewrite split_fields by done. rewrite !parse_uint_dec by (unfold u32_max, u64_max in *; lia).
  cbn [mbind option_bind root_account nobody_account ac_uid]. fold (kennel_account p).
  rewrite (Z.eqb_sym 0), (Z.eqb_sym (et_uid p)), (Z.eqb_sym 65534).
  by destruct (uid =? 0), (uid =? et_uid p), (uid =? 65534).
Qed.

Lemma gr_fields name x gid tail : plain name -> plain x -> plain tail -> in_u32 gid ->
  gr_entry (join_with COLON [name; x; dec gid; tail]) = Some (name, gid).
Proof.
  intros. unfold gr_entry, in_u32 in *. rewrite split_fields; [|done|repeat constructor; try done; apply plain_dec; lia].
  by rewrite parse_uint_dec by (unfold u32_max, u64_max in *; lia).
Qed.
Lemma find_groups p g gs : plain (et_user p) -> Forall (fun x => plain x.1 /\ in_u32 x.2) gs ->
  find_map (fun l => e ← gr_entry l; if e.2 =? g then Some e.1 else None)
    (map (group_line p) (List.filter (fun x => negb (x.2 =? et_gid p)) gs)) =
  option_map fst (List.find (fun x => (x.2 =? g) && negb (x.2 =? et_gid p)) gs).
Proof.
  intros Hu H. induction H as [|x gs [Hx Hi] _ IH]; [done|]. cbn [List.filter List.find].
  destruct (negb (x.2 =? et_gid p)) eqn:E; cbn [map find_map].
  - unfold group_line at 1. rewrite gr_fields by (done || by repeat constructor). cbn [mbind option_bind fst snd].
    rewrite IH. by destruct (x.2 =? g).
  - rewrite IH. by rewrite andb_false_r.
Qed.
Lemma find_other gid g (gs : list (bytes * Z)) : g <> gid ->
  List.find (fun x => (x.2 =? g) && negb (x.2 =? gid)) gs = List.find (fun x => x.2 =? g) gs.
Proof.
  intros Hne. induction gs as [|x gs IH]; [done|]. cbn [List.find]. rewrite IH.
  destruct (Z.eqb_spec x.2 g) as [->|]; [|done]. by rewrite (proj2 (Z.eqb_neq g gid) Hne).
Qed.

(** The group names a kennel sees: the masked name for the primary gid, the granted name for a granted
    gid, and of the host's other groups none. *)
Theorem group_names (p : EtcParams) (gid : Z) :
  plain (et_user p) -> plain (et_group p) -> in_u32 (et_gid p) ->
  Forall (fun g => plain g.1 /\ in_u32 g.2) (et_groups p) ->
  getgrgid (group p) gid =
    if gid =? 0 then Some (lit "root")
    else if gid =? et_gid p then Some (et_group p)
    else match List.find (fun g => g.2 =? gid) (et_groups p) with
         | Some g => Some g.1
         | None => if gid =? 65534 then Some (lit "nogroup") else None
         end.
Proof.
  intros Hu Hg Hi Hgs. unfold getgrgid, group. rewrite lines_text.
  - rewrite !find_map_app. cbn [find_map]. replace (gr_entry (lit "root:x:0:")) with (Some (lit "root", 0)) by reflexivity.
    replace (gr_entry (lit "nogroup:x:65534:")) with (Some (lit "nogroup", 65534)) by reflexivity.
    rewrite gr_fields by (done || by repeat constructor). rewrite find_groups by done. cbn [mbind option_bind fst snd].
    rewrite (Z.eqb_sym 0), (Z.eqb_sym (et_gid p)), (Z.eqb_sym 65534).
    destruct (gid =? 0); [done|]. destruct (Z.eqb_spec gid (et_gid p)) as [->|Hne]; [done|]. rewrite find_other by done.
    destruct (List.find _ _); [done|]. cbn. by destruct (gid =? 65534).
  - rewrite !Forall_app. unfold in_u32 in *. split_and!.
    + constructor; [by split|]. constructor; [|constructor]. apply join_line. repeat constructor; try done. apply plain_dec. lia.
    + apply Forall_map. apply List.Forall_forall. intros x Hx. apply filter_In in Hx as [Hx _]. rewrite List.Forall_forall in Hgs.
      destruct (Hgs x Hx) as [H1 H2]. apply join_line. repeat constructor; try done. apply plain_dec. lia.
    + constructor; [by split|constructor].
Qed.

(** ** Addresses *)

Definition addr_char (b : Z) : Prop := 48 <= b <= 57 \/ 97 <= b <= 102 \/ b = COLON \/ b = DOT.
Lemma addr_lit s : forallb (fun b => ((48 <=? b) && (b <=? 57)) || ((97 <=? b) && (b <=? 102)) || (b =? COLON) || (b =? DOT)) s = true ->
  Forall addr_char s.
Proof.
  intros H. apply List.Forall_forall. intros b Hb. rewrite forallb_forall in H. specialize (H b Hb). unfold addr_char.
  zbool; lia.
Qed.
Lemma hex_chars fuel n : 0 <= n -> Forall addr_char (hex_digits6 fuel n).
Proof.
  revert n. induction fuel as [|fuel IH]; intros n Hn; cbn [hex_digits6]; [constructor|]. apply Forall_app. split.
  - destruct (n <? 16); [constructor|]. apply IH. apply Z.div_pos; lia.
  - constructor; [|constructor]. pose proof (Z.mod_pos_bound n 16 ltac:(lia)). unfold addr_char.
    destruct (Z.ltb_spec (n mod 16) 10); lia.
Qed.
Lemma join_chars (P : Z -> Prop) sep ps : P sep -> Forall (Forall P) ps -> Forall P (join_with sep ps).
Proof.
  intros Hs H. induction H as [|s ps Hp Hps IH]; [constructor|]. cbn [join_with]. destruct ps; [done|].
  apply Forall_app. split; [done|]. by constructor.
Qed.
Lemma ipv4_chars o : bytes_ok o -> Forall addr_char (ipv4_text o).
Proof.
  intros H. apply join_chars; [unfold addr_char; tauto|]. apply Forall_map. eapply Forall_impl; [exact H|]. intros b Hb.
  unfold byte_ok in Hb. eapply Forall_impl; [apply (dec_digits_ascii 20); lia|]. intros c Hc. unfold is_digit, addr_char in *. zbool. lia.
Qed.
Lemma segments_pos o : bytes_ok o -> Forall (fun s => 0 <= s) (segments o).
Proof.
  assert (H : forall n o, (length o <= n)%nat -> bytes_ok o -> Forall (fun s => 0 <= s) (segments o)).
  { clear o. induction n as [|n IH]; intros [|a [|b o]] Hl Ho; cbn [segments length] in *; try constructor; try lia.
    - inversion Ho as [|? ? Ha H2]. inversion H2 as [|? ? Hb _]. unfold byte_ok in *. lia.
    - inversion Ho as [|? ? _ H2]. inversion H2. apply IH; [lia|done]. }
  by apply (H (length o)).
Qed.
Lemma segs_chars segs : Forall (fun s => 0 <= s) segs -> Forall addr_char (segs_text segs).
Proof.
  intros H. apply join_chars; [unfold addr_char; tauto|]. apply Forall_map. eapply Forall_impl; [exact H|]. intros s Hs. by apply hex_chars.
Qed.
Lemma ipv6_general o : Forall (fun s => 0 <= s) (segments o) ->
  let segs := segments o in let run := longest_run 0 (0%nat, 0%nat) (0%nat, 0%nat) segs in
  Forall addr_char (if (1 <? run.2)%nat
      then segs_text (take run.1 segs) ++ ascii_bytes "::" ++ segs_text (drop (run.1 + run.2) segs)
      else segs_text segs).
Proof.
  intros H segs run. destruct (1 <? run.2)%nat; [|by apply segs_chars]. rewrite !Forall_app. split_and!.
  - apply segs_chars. by apply Forall_take.
  - apply addr_lit. reflexivity.
  - apply segs_chars. by apply Forall_drop.
Qed.
Lemma ipv6_chars o : bytes_ok o -> Forall addr_char (ipv6_text o).
Proof.
  intros Ho. pose proof (ipv6_general o (segments_pos o Ho)) as H. unfold ipv6_text.
  repeat (case_match; try exact H). rewrite Forall_app. split; [apply addr_lit; reflexivity|].
  subst. apply ipv4_chars. do 12 (inversion Ho as [|? ? _ Ho']; subst; clear Ho; rename Ho' into Ho). exact Ho.
Qed.

Lemma addr_free c s : Forall addr_char s -> (c = NL \/ c = CR \/ c = TAB \/ c = SPACE) -> has_byte c s = false.
Proof.
  intros H Hc. apply has_byte_Forall. eapply Forall_impl; [exact H|]. unfold addr_char, NL, CR, TAB, SPACE, COLON, DOT in *. cbn. lia.
Qed.
Lemma split_once_here c s t : has_byte c s = false -> split_once c (s ++ c :: t) = Some (s, t).
Proof.
  unfold has_byte. induction s as [|b s IH]; cbn [app split_once existsb].
  - intros _. by rewrite Z.eqb_refl.
  - intros [Hb Hs]%orb_false_iff. rewrite Z.eqb_sym, Hb. by rewrite (IH Hs).
Qed.

(** A host name, plain and of one word. *)
Definition word (s : bytes) : Prop := has_byte NL s = false /\ has_byte CR s = false /\ has_byte SPACE s = false.


Definition host_line (addr : bytes) (names : list bytes) : bytes := addr ++ TAB :: join_with SPACE names.
Lemma hosts_lines p : hosts p = text_of
  [host_line (ipv4_text (default V4_LOCALHOST (et_v4 p))) [lit "localhost"; et_hostname p];
   host_line (ipv6_text (et_v6 p)) [lit "localhost"; lit "ip6-localhost"; lit "ip6-loopback"; et_hostname p]].
Proof. reflexivity. Qed.
Lemma host_line_ok addr names : Forall addr_char addr -> Forall word names ->
  has_byte NL (host_line addr names) = false /\ has_byte CR (host_line addr names) = false.
Proof.
  intros Ha Hw. unfold host_line. rewrite !has_byte_app, !(addr_free _ addr Ha) by tauto.
  assert (forall c, c <> SPACE -> c <> TAB -> Forall (fun s => has_byte c s = false) names -> has_byte c (TAB :: join_with SPACE names) = false) as Hj.
  { intros c H1 H2 Hf. pose proof (join_bytes c SPACE names H1 Hf) as H. unfold has_byte in *. cbn [existsb]. rewrite H, orb_false_r.
    by apply Z.eqb_neq. }
  split; cbn [orb]; (apply Hj; [done|done|]; eapply Forall_impl; [exact Hw|]; intros s; unfold word; tauto).
Qed.
Lemma host_line_split addr names : Forall addr_char addr -> Forall word names -> names <> [] ->
  exists ns, split_once TAB (host_line addr names) = Some (addr, ns) /\ split_on SPACE ns = names.
Proof.
  intros Ha Hw Hne. exists (join_with SPACE names). split; [apply split_once_here, addr_free; tauto|]. apply split_join; [done|].
  eapply Forall_impl; [exact Hw|]. intros s; unfold word; tauto.
Qed.
Lemma nameservers_of comment addr : nameservers (text_of comment) = [] ->
  Forall (fun l => has_byte NL l = false /\ has_byte CR l = false) comment -> Forall addr_char addr ->
  nameservers (text_of (comment ++ [lit "nameserver " ++ addr; lit "options timeout:1 attempts:1"])) = [addr].
Proof.
  intros Hno Hc Ha. unfold nameservers in *. rewrite lines_text in Hno by done. rewrite lines_text.
  - rewrite omap_app, Hno. reflexivity.
  - apply Forall_app. split; [done|]. constructor; [|constructor; [by split|constructor]].
    rewrite !has_byte_app, !(addr_free _ addr Ha) by tauto. by split.
Qed.

(** [localhost] and the kennel's name are the kennel's own addresses, and no name of the host resolves;
    the one name server is the tun broker's resolver where there is one, else the kennel's own address. *)
Theorem names_resolve_inside (p : EtcParams) (name : bytes) :
  word (et_hostname p) -> bytes_ok (default V4_LOCALHOST (et_v4 p)) -> bytes_ok (et_v6 p) -> bytes_ok (default [] (et_udp_resolver p)) ->
  host_addrs (hosts p) name =
    (if bool_decide (name ∈ [lit "localhost"; et_hostname p]) then [ipv4_text (default V4_LOCALHOST (et_v4 p))] else []) ++
    (if bool_decide (name ∈ [lit "localhost"; lit "ip6-localhost"; lit "ip6-loopback"; et_hostname p])
     then [ipv6_text (et_v6 p)] else []) /\
  nameservers (resolv_conf p) =
    [match et_udp_resolver p with Some r => ipv6_text r | None => ip_text (primary p) end].
Proof.
  intros Hw H4 H6 Hr. pose proof (ipv4_chars _ H4) as C4. pose proof (ipv6_chars _ H6) as C6.
  assert (W1 : Forall word [lit "localhost"; et_hostname p]) by (constructor; [done|by constructor]).
  assert (W2 : Forall word [lit "localhost"; lit "ip6-localhost"; lit "ip6-loopback"; et_hostname p])
    by (do 3 (constructor; [done|]); by constructor).
  split.
  - rewrite hosts_lines. unfold host_addrs. rewrite lines_text by (constructor; [by apply host_line_ok|]; constructor; [by apply host_line_ok|constructor]).
    destruct (host_line_split _ _ C4 W1 ltac:(done)) as (n1 & E1 & S1). destruct (host_line_split _ _ C6 W2 ltac:(done)) as (n2 & E2 & S2).
    cbn [omap list_omap]. rewrite E1, E2, S1, S2. by destruct (bool_decide _), (bool_decide _).
  - unfold resolv_conf, primary. destruct (et_udp_resolver p) as [r|].
    + apply nameservers_of; [reflexivity|by repeat constructor|by apply ipv6_chars].
    + apply nameservers_of; [reflexivity|by repeat constructor|]. destruct (et_v4 p); [exact C4|exact C6].
Qed.

(** ** The floor *)

(** The renderer knows exactly the files of the floor. *)
Theorem floor_rendered (p : EtcParams) (name : bytes) : name ∈ FILES <-> exists body, render name p = Some body.
Proof.
  unfold render, FILES, SYNTHETIC_ETC_FILES. cbn [map]. split.
  - intros H. repeat case_bool_decide; eauto. exfalso. set_solver.
  - intros [body H]. repeat case_bool_decide; simplify_eq; subst; set_solver.
Qed.

Lemma write_files_ok written dir target files : forallb (fun f => negb (is_none f.2) && written (path_join dir f.1)) files = true ->
  write_files written dir target files =
    (map (fun f => (path_join dir f.1, default [] (f.2))) files, Some (map (fun f => (path_join dir f.1, path_join target f.1)) files)).
Proof.
  induction files as [|[name [body|]] files IH]; cbn; [done| |done]. intros [Hw H]%andb_true_iff. rewrite Hw, (IH H). done.
Qed.
Lemma write_files_binds written dir target files ws binds : write_files written dir target files = (ws, Some binds) ->
  binds = map (fun f => (path_join dir f.1, path_join target f.1)) files /\
  ws = map (fun f => (path_join dir f.1, default [] (f.2))) files.
Proof.
  revert ws binds. induction files as [|[name [body|]] files IH]; cbn; intros ws binds; [by intros [= <- <-]| |done].
  destruct (written _); [|done]. destruct (write_files written dir target files) as [ws' [b|]]; [|done]. cbn. intros [= <- <-].
  destruct (IH _ _ eq_refl) as [-> ->]. done.
Qed.

(** Materialising the floor does it whole or fails: where it returns, every file of the floor is written
    with its rendering in the staging directory and bound over its name in [/etc], and nothing else; and it
    returns when the calls succeed, no file being without a renderer. *)
Theorem materialize_whole (made written : bytes -> bool) (dir : bytes) (p : EtcParams) :
  (forall ws binds, materialize made written dir p = (ws, Some binds) ->
     binds = map (fun name => (path_join dir name, path_join ETC_DIR name)) FILES /\
     ws = map (fun name => (path_join dir name, default [] (render name p))) FILES) /\
  (made dir = true -> (forall name, name ∈ FILES -> written (path_join dir name) = true) ->
     exists ws binds, materialize made written dir p = (ws, Some binds)).
Proof.
  unfold materialize. split.
  - intros ws binds. destruct (made dir); [|done]. intros [-> ->]%write_files_binds. by rewrite !map_map.
  - intros -> Hw. rewrite write_files_ok; [by eexists _, _|]. apply forallb_forall. intros [name body] Hin.
    apply in_map_iff in Hin as (n & [= <- <-] & Hn%list_elem_of_In). cbn. rewrite Hw by done.
    destruct (proj1 (floor_rendered p n) Hn) as [body ->]. done.
Qed.

(** A dotfile of the home is reconstructed unless the policy persists it. *)
Theorem dotfiles_exact (made written : bytes -> bool) (dir home : bytes) (persist : list bytes) ws binds :
  materialize_home_dotfiles made written dir home persist = (ws, Some binds) ->
  forall src tgt, (src, tgt) ∈ binds <->
    exists name, name ∈ [lit ".profile"; lit ".bashrc"] /\ name ∉ persist /\ src = path_join dir name /\ tgt = path_join home name.
Proof.
  unfold materialize_home_dotfiles. destruct (made dir); [|done]. intros [-> _]%write_files_binds. intros src tgt.
  rewrite map_map. cbn [fst]. rewrite list_elem_of_In, in_map_iff. split.
  - intros ([name body] & [= <- <-] & Hin). apply filter_In in Hin as [Hin Hp]. apply negb_true_iff, bool_decide_eq_false in Hp.
    exists name. split_and!; [|done..]. destruct Hin as [[= <- _]|[[= <- _]|[]]]; set_solver.
  - intros (name & Hn & Hp & -> & ->).
    assert (exists d, In d HOME_DOTFILES /\ d.1 = name) as (d & Hd & <-).
    { apply elem_of_cons in Hn as [->|Hn]; [eexists; split; [by left|done]|]. apply list_elem_of_singleton in Hn as ->.
      eexists; split; [right; by left|done]. }
    exists d. split; [done|]. apply filter_In. split; [done|]. by apply negb_true_iff, bool_decide_eq_false.
Qed.

(** ** Loaders *)

Lemma btree_elem l x : x ∈ btree l <-> x ∈ l.
Proof. unfold btree. by rewrite merge_sort_Permutation, elem_of_remove_dups. Qed.
Lemma btree_nodup l : NoDup (btree l).
Proof. unfold btree. rewrite merge_sort_Permutation. apply NoDup_remove_dups. Qed.

(** The loaders are those of the concrete binaries that are dynamic ELF files on this host, once each; a
    warning names a concrete script whose interpreter is not in the list. *)
Theorem loaders_exact (elf : bytes -> option (option bytes)) (read : bytes -> option bytes) (binaries : list bytes) :
  NoDup (lr_loaders (resolve_loaders elf read binaries)) /\
  (forall l, l ∈ lr_loaders (resolve_loaders elf read binaries) <->
     exists b l', b ∈ binaries /\ concrete b = true /\ classify elf read b = KElf (Some l') /\ l = to_string_lossy l') /\
  (forall b i, (b, i) ∈ lr_warnings (resolve_loaders elf read binaries) <->
     exists i', b ∈ binaries /\ concrete b = true /\ classify elf read b = KScript i' /\ i = to_string_lossy i' /\ i ∉ binaries).
Proof.
  unfold resolve_loaders. cbn [lr_loaders lr_warnings]. split_and!; [apply btree_nodup| |].
  - intros l. rewrite btree_elem, list_elem_of_omap. split.
    + intros (b & Hb & E). destruct (concrete b) eqn:Ec; [|done]. destruct (classify elf read b) as [[l'|]| |] eqn:Ek; try done.
      injection E as <-. eauto 10.
    + intros (b & l' & Hb & Hc & Hk & ->). exists b. split; [done|]. by rewrite Hc, Hk.
  - intros b i. rewrite list_elem_of_omap. split.
    + intros (b' & Hb & E). destruct (concrete b') eqn:Ec; [|done]. destruct (classify elf read b') as [|i'|] eqn:Ek; try done.
      case_bool_decide as Hi; [done|]. injection E as -> <-. eauto 10.
    + intros (i' & Hb & Hc & Hk & -> & Hi). exists b. split; [done|]. rewrite Hc, Hk. by rewrite bool_decide_eq_false_2.
Qed.

(** * Examples *)

Definition ex_params : EtcParams := {|
  et_hostname := lit "agent"; et_user := lit "kennel"; et_group := lit "kennel"; et_uid := 1000; et_gid := 1000;
  et_home := lit "/run/kennel/agent/home"; et_groups := [(lit "dialout", 20)]; et_shell := lit "/bin/sh"; et_v4 := None;
  et_v6 := [253; 0; 0; 0; 0; 1; 0; 1; 0; 0; 0; 0; 0; 0; 0; 1]; et_udp_resolver := None |}.
Example ex_passwd : getpwuid (passwd ex_params) 1000 = Some (kennel_account ex_params) /\ getpwuid (passwd ex_params) 1001 = None.
Proof. vm_compute. done. Qed.
Example ex_hosts : hosts ex_params = text_of
  [lit "127.0.0.1" ++ [TAB] ++ lit "localhost agent"; lit "fd00:0:1:1::1" ++ [TAB] ++ lit "localhost ip6-localhost ip6-loopback agent"].
Proof. vm_compute. reflexivity. Qed.
Lemma passwd_accounts_witness : getpwuid (passwd ex_params) 1000 = Some (kennel_account ex_params).
Proof.
  rewrite (passwd_accounts ex_params 1000); [reflexivity| | | |split; done|split; done]; apply plain_lit; vm_compute; reflexivity.
Defined.
Lemma names_resolve_inside_witness :
  host_addrs (hosts ex_params) (lit "agent") = [lit "127.0.0.1"; lit "fd00:0:1:1::1"] /\ nameservers (resolv_conf ex_params) = [lit "fd00:0:1:1::1"].
Proof.
  destruct (names_resolve_inside ex_params (lit "agent")) as [H1 H2]; [done|by repeat constructor..|]. rewrite H1, H2. by vm_compute.
Defined.
