(* ===== verification/BringUp.v ===== *)
(** Bringing a kennel up and tearing it down ([kenneld/src/lib.rs]).

    [bring_up] completes the plan with what the deployment adds (the synthetic [/etc], the facades, the
    wiring of the view), has the factory construct the kennel, and starts what serves it before the init
    is told to go on.  It runs in a monad of the events it makes and of the provisions that [start] takes
    back when it fails; the answer of each call that can fail is a parameter.  The binaries and the
    directories are the ones [Spec] holds; the plan, the halves, the egress payload and the manager's
    state are the definitions of the components that use them.

    Theorems: the ports mirrored on the host are exactly the declared ones; a kennel gets one address, and
    then one the helper accepts, if it is proxied and has a mirrored port; the bring-up adds only read-only binds and no rule that lets the workload both write and
    execute; an image keeps its own system directories; the init is released last, with everything that
    serves it in place; a failed start takes back what it provisioned, except that it leaves the init of a
    constructed kennel and its helper unreaped; a stop that cannot wait takes nothing back. *)

From stdpp Require Import sorting.
From S2P Require Import Prelude Bytes Str Paths Plan Settled Cursor IpText Sshsig PlanWire PrivAddr Factory Registry Proxy Egress.
From S2P Require Import PlanBuild BpfAcl BinderWire SpawnVerb Node0 Substitute Init SourceSig Config EtcFiles.

(** ** What a kennel is brought up from *)

Record ProxySetup : Type := {
  ps_binary : bytes; ps_config_dir : bytes; ps_socks5 : bytes; ps_inetd : bytes; ps_facade_client : bytes }.
Record EtcSetup : Type := {
  es_staging_dir : bytes; es_account : bytes; es_account_group : bytes; es_hostname : bytes; es_uid : Z; es_gid : Z;
  es_home : bytes; es_groups : list (bytes * Z); es_shell : bytes; es_home_persist : list bytes }.
Record UnixShim : Type := { us_name : bytes; us_shim_path : bytes }.
Record UnixPrep : Type := { up_shims : list UnixShim; up_env : list (bytes * bytes); up_afunix_bin : option bytes }.
(** The session and the system bus, as the path of the socket the facade presents. *)
Record DbusPrep : Type := { db_session : option bytes; db_system : option bytes; db_facade_bin : option bytes }.
Record SshPrep : Type := { sh_file_binds : list (bytes * bytes); sh_host_service : option (ip_addr * Z); sh_ssh_bin : option bytes }.
Record OciPrep : Type := { oc_launcher_bin : option bytes; oc_config_src : option bytes }.
(** Of the manager's inputs, those that [Node0.Kennel] has. *)
Record BinderPrep : Type := {
  bp_unix : UnixRuntime; bp_prompt : bool; bp_spawn : option SpawnRuntime; bp_consumes : list ConsumeRuntime; bp_brokered_dbus : bool }.
Record Spec : Type := {
  sp_id : bytes; sp_cgroup : bytes; sp_ctx : Z; sp_uid : Z; sp_plan : Plan; sp_network : NetPolicy; sp_proxy : option ProxySetup;
  sp_etc : option EtcSetup; sp_view_root : option bytes; sp_ssh_prep : SshPrep; sp_unix_prep : UnixPrep; sp_dbus_prep : DbusPrep;
  sp_facade_tun : option bytes; sp_binder : option BinderPrep; sp_oci : OciPrep; sp_mesh_mounts : list (Z * bytes);
  sp_level : LogLevel }.

(** [mirror_bind_ports]. *)
Definition push_port (ports : list Z) (p : Z) : list Z :=
  if negb (p =? 0) && negb (bool_decide (p ∈ ports)) then ports ++ [p] else ports.
Definition mirror_bind_ports (net : NetPolicy) : list Z :=
  fold_left push_port
    (np_bind_allowed_ports net ++
     omap (fun r => if nr_port_min r =? nr_port_max r then Some (nr_port_min r) else None) (np_bpf_bind_allow net)) [].

(** [is_image_owned_system_path]. *)
Definition IMAGE_ROOTS : list bytes := map ascii_bytes ["usr"; "bin"; "sbin"; "lib"; "lib64"; "lib32"; "libx32"]%string.
Definition is_image_owned_system_path (target : bytes) : bool :=
  match components target with
  | RootDir :: Normal c :: _ => bool_decide (c ∈ IMAGE_ROOTS)
  | _ => false
  end.

(** [Path::parent]. *)
Definition path_parent (p : bytes) : option bytes :=
  let up ss := match trim_right ss with [] => None | ss => Some (join_with SLASH (trim_right (removelast ss))) end in
  if is_absolute p then option_map (cons SLASH) (up (split_on SLASH (tail p)))
  else match split_on SLASH p with
       | s :: ss => if leading_dot p
                    then Some match trim_right ss with [] => [] | ss => join_with SLASH (s :: trim_right (removelast ss)) end
                    else up (s :: ss)
       | [] => None
       end.
Example parents : path_parent (ascii_bytes "/etc/passwd") = Some (ascii_bytes "/etc") /\ path_parent (ascii_bytes "/a//b/.//c/") = Some (ascii_bytes "/a//b") /\
  path_parent (ascii_bytes "/etc") = Some [SLASH] /\ path_parent [SLASH] = None /\ path_parent (ascii_bytes "a") = Some [] /\
  path_parent (ascii_bytes "./a") = Some [DOT] /\ path_parent [DOT] = Some [] /\ path_parent [] = None.
Proof. vm_compute. done. Qed.

(** ** Editing the plan *)

(** The plan with the fields the bring-up assigns. *)
Definition plan_edit (p : Plan) (cgroup : bytes) (view : option ShimView) (new_root : option bytes) (fs : list (bytes * Z))
    (net : list (Z * Z)) (file_binds : list (bytes * bytes)) (aux : list AuxProcess) : Plan := {|
  pl_namespaces := pl_namespaces p; pl_cgroup := cgroup; pl_cgroup_join := pl_cgroup_join p;
  pl_view := view; pl_new_root := new_root; pl_landlock_fs := fs; pl_landlock_net := net;
  pl_seccomp_deny := pl_seccomp_deny p; pl_seccomp_deny_action := pl_seccomp_deny_action p;
  pl_bpf_allow_v4 := pl_bpf_allow_v4 p; pl_bpf_deny_v4 := pl_bpf_deny_v4 p;
  pl_bpf_allow_v6 := pl_bpf_allow_v6 p; pl_bpf_deny_v6 := pl_bpf_deny_v6 p;
  pl_bpf_bind_allow_v4 := pl_bpf_bind_allow_v4 p; pl_bpf_bind_deny_v4 := pl_bpf_bind_deny_v4 p;
  pl_bpf_bind_allow_v6 := pl_bpf_bind_allow_v6 p; pl_bpf_bind_deny_v6 := pl_bpf_bind_deny_v6 p;
  pl_bpf_meta := pl_bpf_meta p; pl_bind_allowed_ports := pl_bind_allowed_ports p;
  pl_file_binds := file_binds; pl_supplementary_groups := pl_supplementary_groups p;
  pl_ulimits := pl_ulimits p; pl_interactive_return_fd := pl_interactive_return_fd p;
  pl_workload_fd := pl_workload_fd p; pl_stdio_fds := pl_stdio_fds p; pl_aux := aux;
  pl_ttl_seconds := pl_ttl_seconds p; pl_ttl_action := pl_ttl_action p; pl_hostname := pl_hostname p |}.
Definition add_rules (rules : list (bytes * Z)) (p : Plan) : Plan :=
  plan_edit p (pl_cgroup p) (pl_view p) (pl_new_root p) (pl_landlock_fs p ++ rules) (pl_landlock_net p) (pl_file_binds p) (pl_aux p).
Definition add_net (rules : list (Z * Z)) (p : Plan) : Plan :=
  plan_edit p (pl_cgroup p) (pl_view p) (pl_new_root p) (pl_landlock_fs p) (pl_landlock_net p ++ rules) (pl_file_binds p) (pl_aux p).
Definition add_aux (a : AuxProcess) (p : Plan) : Plan :=
  plan_edit p (pl_cgroup p) (pl_view p) (pl_new_root p) (pl_landlock_fs p) (pl_landlock_net p) (pl_file_binds p) (pl_aux p ++ [a]).
Definition set_file_binds (l : list (bytes * bytes)) (p : Plan) : Plan :=
  plan_edit p (pl_cgroup p) (pl_view p) (pl_new_root p) (pl_landlock_fs p) (pl_landlock_net p) l (pl_aux p).
Definition map_view (f : ShimView -> ShimView) (p : Plan) : Plan :=
  plan_edit p (pl_cgroup p) (option_map f (pl_view p)) (pl_new_root p) (pl_landlock_fs p) (pl_landlock_net p) (pl_file_binds p) (pl_aux p).
Definition set_new_root (d : bytes) (p : Plan) : Plan :=
  plan_edit p (pl_cgroup p) (pl_view p) (Some d) (pl_landlock_fs p) (pl_landlock_net p) (pl_file_binds p) (pl_aux p).
Definition set_cgroup (c : bytes) (p : Plan) : Plan :=
  plan_edit p c (pl_view p) (pl_new_root p) (pl_landlock_fs p) (pl_landlock_net p) (pl_file_binds p) (pl_aux p).

Definition ro_bind (source target : bytes) : BindMount :=
  {| bm_source := source; bm_target := target; bm_writable := false; bm_exclusive := false; bm_redirected := false |}.
Definition view_binds (f : list BindMount -> list BindMount) (v : ShimView) : ShimView := {|
  sv_shim_root := sv_shim_root v; sv_binds := f (sv_binds v); sv_dev_allow := sv_dev_allow v;
  sv_tmp_size_mib := sv_tmp_size_mib v; sv_proc_hidepid := sv_proc_hidepid v; sv_binder := sv_binder v;
  sv_mask_paths := sv_mask_paths v; sv_mask_dir_paths := sv_mask_dir_paths v; sv_image := sv_image v;
  sv_etc_overlays := sv_etc_overlays v |}.
Definition add_binds (l : list BindMount) (p : Plan) : Plan := map_view (view_binds (fun bs => bs ++ l)) p.

(** [Command::env]: the environment is a map in the order of the names. *)
Fixpoint env_set (k v : bytes) (l : list (bytes * option bytes)) : list (bytes * option bytes) :=
  match l with
  | [] => [(k, Some v)]
  | (k', v') :: l' =>
      if bool_decide (k = k') then (k, Some v) :: l'
      else if bytes_leb k k' then (k, Some v) :: l else (k', v') :: env_set k v l'
  end.
Definition set_env (kv : bytes * bytes) (c : Command) : Command := {|
  cm_program := cm_program c; cm_args := cm_args c; cm_envs := env_set kv.1 kv.2 (cm_envs c); cm_current_dir := cm_current_dir c |}.
Definition set_envs (l : list (bytes * bytes)) (c : Command) : Command := fold_left (fun c kv => set_env kv c) l c.

(** ** The facades *)

Definition IN_VIEW_BINDER_DEVICE : bytes := ascii_bytes "/dev/binderfs/binder".
Definition OCI_CONFIG_VIEW_PATH : bytes := ascii_bytes "/run/kennel/oci-config.json".
Definition dir_read : Z := flags [FS_READ_FILE; FS_READ_DIR].
(** The directories of the targets of some binds, with read access. *)
Definition parent_rules (binds : list (bytes * bytes)) : list (bytes * Z) :=
  map (fun d => (d, dir_read)) (btree (omap (fun b => path_parent b.2) binds)).
Definition sock_access : Z := flags [FS_READ_FILE; FS_WRITE_FILE; FS_READ_DIR; FS_MAKE_SOCK; FS_REMOVE_FILE].
Definition dbus_access : Z := flags [FS_READ_FILE; FS_WRITE_FILE; FS_READ_DIR; FS_MAKE_DIR; FS_MAKE_SOCK; FS_REMOVE_FILE].
Definition assign (path name : bytes) : bytes := to_string_lossy path ++ EQUALS :: name.

Section facades.
Context (elf : bytes -> option (option bytes)) (h : Machine).

(** Execute on a binary and on its loader. *)
Definition exec_rules (bin : bytes) : list (bytes * Z) :=
  (bin, exec_access) ::
  map (fun l => (l, exec_access)) (lr_loaders (resolve_loaders elf (h_bytes h) [to_string_lossy bin])).
(** The binary in the view at its own path, its rules, and the process of the seal. *)
Definition install (bin : bytes) (args : list bytes) (p : Plan) : Plan :=
  add_aux {| aux_path := bin; aux_args := args |} (add_rules (exec_rules bin) (add_binds [ro_bind bin bin] p)).

Definition apply_afunix (u : UnixPrep) (pivoting : bool) (pc : Plan * Command) : Plan * Command :=
  let '(p, c) := pc in
  if is_nil (up_shims u) || negb pivoting then (p, c)
  else match up_afunix_bin u with
       | None => (p, c)
       | Some bin =>
           (install bin (IN_VIEW_BINDER_DEVICE :: map (fun s => assign (us_shim_path s) (us_name s)) (up_shims u))
              (add_rules (omap (fun s => option_map (fun d => (d, sock_access)) (path_parent (us_shim_path s))) (up_shims u)) p),
            set_envs (up_env u) c)
       end.

Definition apply_tun (facade_tun : option bytes) (addr : bytes) (pivoting : bool) (p : Plan) : Plan :=
  if negb pivoting then p
  else match facade_tun with
       | None => p
       | Some bin => install bin [IN_VIEW_BINDER_DEVICE; ipv6_text addr] p
       end.

Definition listen_text (port : Z) : bytes := ipv4_text V4_LOCALHOST ++ COLON :: dec port.
Definition apply_socks5 (bin : bytes) (port : Z) (pc : Plan * Command) : Plan * Command :=
  let '(p, c) := pc in
  let http_url := ascii_bytes "http://" ++ listen_text port in
  let socks_url := ascii_bytes "socks5h://" ++ listen_text port in
  (install bin [IN_VIEW_BINDER_DEVICE; listen_text port] p,
   set_envs (map (fun v => (ascii_bytes v, http_url)) ["HTTP_PROXY"; "HTTPS_PROXY"; "http_proxy"; "https_proxy"]%string ++
             map (fun v => (ascii_bytes v, socks_url)) ["ALL_PROXY"; "all_proxy"]%string) c).

Definition apply_facade_client (bin : bytes) (ports : list Z) (p : Plan) : Plan :=
  add_aux {| aux_path := bin; aux_args := IN_VIEW_BINDER_DEVICE :: ipv4_text V4_LOCALHOST :: map dec ports |}
    (add_net (map (fun port => (port, NET_CONNECT_TCP)) ports) (add_rules (exec_rules bin) (add_binds [ro_bind bin bin] p))).

Definition dbus_buses (d : DbusPrep) : list (option bytes * bytes * bytes) :=
  [(db_session d, ascii_bytes "DBUS_SESSION_BUS_ADDRESS", ascii_bytes "session");
   (db_system d, ascii_bytes "DBUS_SYSTEM_BUS_ADDRESS", ascii_bytes "system")].
(** Of the buses enabled: the socket, the variable, the name. *)
Definition dbus_enabled (d : DbusPrep) : list (bytes * bytes * bytes) :=
  omap (fun b => option_map (fun path => (path, b.1.2, b.2)) b.1.1) (dbus_buses d).
Definition apply_dbus (d : DbusPrep) (pivoting : bool) (pc : Plan * Command) : Plan * Command :=
  let '(p, c) := pc in
  if negb pivoting || is_nil (dbus_enabled d) then (p, c)
  else match db_facade_bin d with
       | None => (p, c)
       | Some bin =>
           (install bin (IN_VIEW_BINDER_DEVICE :: map (fun b => assign b.1.1 b.2) (dbus_enabled d))
              (add_rules (map (fun dir => (dir, dbus_access))
                            (btree (omap (fun b => path_parent b.1.1 ≫= path_parent) (dbus_enabled d)))) p),
            set_envs (map (fun b => (b.1.2, ascii_bytes "unix:path=" ++ to_string_lossy b.1.1)) (dbus_enabled d)) c)
       end.

(** 3d: the binds of the view, and the variable [HOME]. *)
Definition oci_view (p : Plan) : bool := match pl_view p with Some v => negb (is_none (sv_image v)) | None => false end.
Definition bind_of (o : option bytes) : list BindMount := match o with Some b => [ro_bind b b] | None => [] end.
Definition own_binds (ssh : SshPrep) (oci : OciPrep) : list BindMount :=
  bind_of (sh_ssh_bin ssh) ++ bind_of (oc_launcher_bin oci) ++
  match oc_config_src oci with Some cfg => [ro_bind cfg OCI_CONFIG_VIEW_PATH] | None => [] end.
Definition substrate_binds (image : bool) (oci : OciPrep) (bs : list BindMount) : list BindMount :=
  if image
  then List.filter (fun b => negb (is_image_owned_system_path (bm_target b))) bs ++
       match oc_launcher_bin oci ≫= path_parent with Some dir => [ro_bind dir dir] | None => [] end
  else bs ++ map (fun s => ro_bind s s) (essential_etc_subtrees h).
Definition wire_view (ssh : SshPrep) (oci : OciPrep) (pc : Plan * Command) : Plan * Command :=
  let '(p, c) := pc in
  match pl_view p with
  | None => (p, c)
  | Some v =>
      (add_rules (match sh_ssh_bin ssh with Some bin => exec_rules bin | None => [] end ++
                  match oc_launcher_bin oci with Some bin => exec_rules bin ++ [(OCI_CONFIG_VIEW_PATH, FS_READ_FILE)] | None => [] end)
         (map_view (view_binds (fun bs => substrate_binds (oci_view p) oci bs ++ own_binds ssh oci)) p),
       set_env (ascii_bytes "HOME", sv_shim_root v) c)
  end.
End facades.

(** ** The bring-up *)

Inductive BringError : Type := BeIo | BeSpawn | BeProxy.
Inductive Delegate : Type := DProxy | DInetd.
Inductive Ev : Type :=
  | EMkdir (dir : bytes)
  | EWrite (file body : bytes)
  | EConstruct (half egress : bytes) (pty workload : option Z) (stdio : option (Z * Z * Z))
  | EReady
  | ERendezvous (sock data : bytes) (fds : list Z)
  | ESpawn (d : Delegate) (binary sock : bytes)
  | EBind (sock : bytes) (addr : ip_addr) (port : Z)
  | ENode0 (k : Node0.Kennel) (ports : list Z)
  | EBusLive
  | EReapHelper
  | EStopManager
  | EKill (d : Delegate)
  | EDelAddress (ctx : Z) (addr : ip_addr) (prefix : Z)
  | ERmdir (dir : bytes)
  | EWait (pid : Z).

(** [Provision]; a delegate and the manager are there or not. *)
Record Provision : Type := {
  pr_made_cgroup : bool; pr_v6 : option bytes; pr_proxy : bool; pr_inetd : bool; pr_view_root : option bytes; pr_binder : bool;
  pr_factory : bool }.
Definition no_provision : Provision := {|
  pr_made_cgroup := false; pr_v6 := None; pr_proxy := false; pr_inetd := false; pr_view_root := None; pr_binder := false;
  pr_factory := false |}.
Definition prov (s : Provision) (cg : bool) (v6 : option bytes) (px inetd : bool) (vr : option bytes) (b f : bool) : Provision := {|
  pr_made_cgroup := pr_made_cgroup s || cg; pr_v6 := or_else v6 (pr_v6 s); pr_proxy := pr_proxy s || px; pr_inetd := pr_inetd s || inetd;
  pr_view_root := or_else vr (pr_view_root s); pr_binder := pr_binder s || b; pr_factory := pr_factory s || f |}.

(** What the calls answer: directories, files, the factory's pid, the boot-sync byte, the datagram, a
    delegate started, a port bound by the delegate, node 0 taken, the release written. *)
Record Answers : Type := {
  an_mkdir : bytes -> bool; an_write : bytes -> bool; an_construct : option Z; an_ready : bool; an_sent : bool;
  an_spawn : bytes -> bool; an_bind : Z -> bool; an_node0 : bool; an_live : bool }.

Record St : Type := { st_events : list Ev; st_prov : Provision }.
Definition M (A : Type) : Type := St -> St * result BringError A.
Global Instance M_ret : MRet M := fun A a s => (s, Ok a).
Global Instance M_bind : MBind M := fun A B f m s => match m s with (s, Ok a) => f a s | (s, Err e) => (s, Err e) end.
Definition emit (e : Ev) : M unit := fun s => ({| st_events := st_events s ++ [e]; st_prov := st_prov s |}, Ok tt).
Definition emits (l : list Ev) : M unit := fun s => ({| st_events := st_events s ++ l; st_prov := st_prov s |}, Ok tt).
Definition provide (f : Provision -> Provision) : M unit := fun s => ({| st_events := st_events s; st_prov := f (st_prov s) |}, Ok tt).
Definition failing {A} (e : BringError) : M A := fun s => (s, Err e).
(** A call: its event where it succeeds, else the error. *)
Definition try_ (ok : bool) (err : BringError) (e : Ev) : M unit := if ok then emit e else failing err.
(** The same, recording what it provisions in the same statement. *)
Definition acquire (ok : bool) (err : BringError) (e : Ev) (f : Provision -> Provision) : M unit :=
  if ok then fun s => ({| st_events := st_events s ++ [e]; st_prov := f (st_prov s) |}, Ok tt) else failing err.
Definition when (b : bool) (m : M unit) : M unit := if b then m else mret tt.
Definition get_v6 : M (option bytes) := fun s => (s, Ok (pr_v6 (st_prov s))).

Definition DEFAULT_PIDS_MAX : Z := 4096.
Definition PIDS_MAX : bytes := ascii_bytes "pids.max".
Definition proxied (net : NetPolicy) : bool := match np_mode net with PmConstrained | PmUnconstrained => true | _ => false end.
Definition tun_active (net : NetPolicy) (b : option BinderPrep) : bool :=
  np_udp net && match b with Some b => existsb (fun c => bool_decide (cn_name c = TUN_CAPABILITY)) (bp_consumes b) | None => false end.
Definition protocol_ordinal (p : Settled.Protocol) : Z := match p with ProtoAny => 0 | ProtoTcp => 1 | ProtoUdp => 2 end.
Definition encode_tun_session (addr : bytes) (names : list NameRule) : bytes :=
  tun_encode_accept {| at_tun_addr := addr;
    at_grants := map (fun r => {| gr_name := nn_name r; gr_ports := nn_ports r; gr_protocol := protocol_ordinal (nn_protocol r) |}) names |}.
Definition cmd_socket (dir : bytes) (name : string) (ctx : Z) : bytes :=
  path_join dir (ascii_bytes name ++ dec ctx ++ ascii_bytes ".sock").

Section bring_up.
Context (en : endian) (elf : bytes -> option (option bytes)) (h : Machine) (an : Answers) (uid gid : Z).

Definition etc_params (e : EtcSetup) (v6 udp_resolver : option bytes) : EtcParams := {|
  et_hostname := es_hostname e; et_user := es_account e; et_group := es_account_group e; et_uid := es_uid e; et_gid := es_gid e;
  et_home := es_home e; et_groups := es_groups e; et_shell := es_shell e; et_v4 := None; et_v6 := default V6_LOCALHOST v6;
  et_udp_resolver := udp_resolver |}.
(** A materialisation: its writes are made, and its binds are the answer. *)
Definition materialized (r : list (bytes * bytes) * option (list (bytes * bytes))) : M (list (bytes * bytes)) :=
  _ ← emits (map (fun w => EWrite w.1 w.2) r.1); match r.2 with Some binds => mret binds | None => failing BeIo end.
(** 3c: the synthetic [/etc] and the dotfiles. *)
Definition etc_files (etc : option EtcSetup) (resolver : option bytes) (p : Plan) : M Plan :=
  match etc with
  | None => mret p
  | Some e =>
      v6 ← get_v6;
      binds ← materialized (materialize (an_mkdir an) (an_write an) (es_staging_dir e) (etc_params e v6 resolver));
      let p := add_rules (parent_rules binds) (set_file_binds binds p) in
      dots ← materialized (materialize_home_dotfiles (an_mkdir an) (an_write an) (path_join (es_staging_dir e) (ascii_bytes "home"))
               (es_home e) (es_home_persist e));
      mret (if is_nil dots then p else set_file_binds (pl_file_binds p ++ dots) (add_rules (parent_rules dots) p))
  end.
Definition ssh_files (ssh : SshPrep) (p : Plan) : Plan :=
  if is_nil (sh_file_binds ssh) then p
  else set_file_binds (pl_file_binds p ++ sh_file_binds ssh) (add_rules (parent_rules (sh_file_binds ssh)) p).

(** 3c to 3d on the plan and the command, which no call of the host can stop. *)
Definition pivoting (s : Spec) (p : Plan) : bool := negb (is_none (sp_view_root s)) && negb (is_none (pl_view p)).
Definition net_facades (s : Spec) (sock : option bytes) (ports : list Z) (pc : Plan * Command) : Plan * Command :=
  match sp_proxy s with
  | Some setup =>
      if pivoting s pc.1 && negb (is_none sock) then
        let pc := apply_socks5 elf h (ps_socks5 setup) (px_port (np_proxy (sp_network s))) pc in
        if is_nil ports then pc else (apply_facade_client elf h (ps_facade_client setup) ports pc.1, pc.2)
      else pc
  | None => pc
  end.
Definition tun_facade (s : Spec) (pivots : bool) (pc : Plan * Command) : Plan * Command :=
  if tun_active (sp_network s) (sp_binder s)
  then (apply_tun elf h (sp_facade_tun s) (tun_addr (sp_uid s) (sp_ctx s)) pivots pc.1, pc.2) else pc.
Definition facade_plan (s : Spec) (sock : option bytes) (ports : list Z) (pc : Plan * Command) : Plan * Command :=
  let pc := net_facades s sock ports (ssh_files (sp_ssh_prep s) pc.1, pc.2) in
  let pivots := pivoting s pc.1 in
  let pc := tun_facade s pivots (apply_dbus elf h (sp_dbus_prep s) pivots (apply_afunix elf h (sp_unix_prep s) pivots pc)) in
  if is_none (sp_view_root s) then pc else wire_view elf h (sp_ssh_prep s) (sp_oci s) pc.

Fixpoint bind_ports (sock : bytes) (addr : ip_addr) (ports : list Z) : M unit :=
  match ports with
  | [] => mret tt
  | port :: ports => _ ← when (an_bind an port) (emit (EBind sock addr port)); bind_ports sock addr ports
  end.

(** The delegates and node 0, between the boot-sync and the release. *)
Definition serve (s : Spec) (sock : option bytes) (ports : list Z) (p : Plan) (prep : BinderPrep) (pid : Z)
    (supervision : bytes) (net_runtime : NetRuntime) (session : option bytes) : M unit :=
  _ ← match sp_proxy s, sock with
      | Some setup, Some sock =>
          acquire (an_spawn an (ps_binary setup)) BeProxy (ESpawn DProxy (ps_binary setup) sock)
            (fun st => prov st false None true false None false false)
      | _, _ => mret tt
      end;
  v6 ← get_v6;
  _ ← match sp_proxy s, v6 with
      | Some setup, Some addr =>
          if is_nil ports then mret tt
          else
            let inetd_sock := cmd_socket (ps_config_dir setup) "inetd-cmd-" (sp_ctx s) in
            _ ← try_ (an_mkdir an (ps_config_dir setup)) BeIo (EMkdir (ps_config_dir setup));
            _ ← acquire (an_spawn an (ps_inetd setup)) BeProxy (ESpawn DInetd (ps_inetd setup) inetd_sock)
                  (fun st => prov st false None false true None false false);
            bind_ports inetd_sock (V6 addr) ports
      | _, _ => mret tt
      end;
  when (match pl_view p with Some v => sv_binder v | None => false end && an_node0 an)
    (acquire true BeIo (ENode0 {| nk_ctx := sp_ctx s; nk_unix := bp_unix prep; nk_net := net_runtime;
                         nk_command_socket := negb (is_none sock);
                         nk_lifecycle := {| lf_init_host_pid := Some pid; lf_supervision := supervision;
                                            lf_ttl_action := pl_ttl_action p; lf_name := sp_id s; lf_prompt := bp_prompt prep |};
                         nk_dbus_mesh := bp_brokered_dbus prep; nk_spawn := bp_spawn prep; nk_consumes := bp_consumes prep;
                         nk_tun_session := session |} ports)
       (fun st => prov st false None false false None true false)).

(** Whether the kennel has an address of its own, and which. *)
Definition aliased (s : Spec) : bool := proxied (sp_network s) && negb (is_nil (mirror_bind_ports (sp_network s))).
Definition own_addr (s : Spec) : bytes := loopback_v6 (sp_uid s) (sp_ctx s) (px_offset (np_proxy (sp_network s))).
Definition own_loopback (s : Spec) : list LoopbackAddr :=
  if aliased s then [ {| lb_addr := V6 (own_addr s); lb_prefix := V6_PREFIX |} ] else [].
Definition stamped_plan (s : Spec) : Plan := daemon_plan en (negb (is_none (sp_proxy s))) (sp_network s) (sp_plan s).

(** Steps 1 to 3d: the plan and the command completed, and the socket of the egress delegate. *)
Definition prepare_up (s : Spec) (command : Command) : M (Plan * Command * option bytes) :=
  let net := sp_network s in
  _ ← acquire (an_mkdir an (sp_cgroup s)) BeIo (EMkdir (sp_cgroup s)) (fun st => prov st true None false false None false false);
  _ ← when (an_write an (path_join (sp_cgroup s) PIDS_MAX)) (emit (EWrite (path_join (sp_cgroup s) PIDS_MAX) (dec DEFAULT_PIDS_MAX)));
  _ ← when (aliased s) (provide (fun st => prov st false (Some (own_addr s)) false false None false false));
  sock ← match sp_proxy s with
         | Some setup =>
             if proxied net
             then _ ← try_ (an_mkdir an (ps_config_dir setup)) BeIo (EMkdir (ps_config_dir setup));
                  mret (Some (cmd_socket (ps_config_dir setup) "netproxy-cmd-" (sp_ctx s)))
             else mret None
         | None => mret None
         end;
  p ← etc_files (sp_etc s) (if tun_active net (sp_binder s) then Some (tun_resolver_addr (sp_uid s) (sp_ctx s)) else None) (stamped_plan s);
  let '(p, command) := facade_plan s sock (mirror_bind_ports net) (p, command) in
  p ← match sp_view_root s, pl_view p with
      | Some vr, Some _ =>
          _ ← acquire (an_mkdir an vr) BeIo (EMkdir vr) (fun st => prov st false None false false (Some vr) false false);
          mret (set_new_root vr p)
      | _, _ => mret p
      end;
  mret (set_cgroup (sp_cgroup s) p, command, sock).

(** Step 4 on: the kennel constructed, served and released. *)
Definition proc_root (pid : Z) : bytes := ascii_bytes "/proc/" ++ dec pid ++ ascii_bytes "/root".
Definition construct_event (s : Spec) (p : Plan) : Ev :=
  let lo_up := negb (Z.land (pl_namespaces p) NS_NET =? 0) && proxied (sp_network s) in
  EConstruct (encode_construction (construction_half_from p (sp_ctx s) (own_loopback s) lo_up (np_udp (sp_network s))))
    (egress_bytes en (np_mode (sp_network s)) (stamped_plan s) (sp_id s))
    (pl_interactive_return_fd p) (pl_workload_fd p) (pl_stdio_fds p).
Definition rendezvous_event (s : Spec) (pid : Z) : Ev :=
  let '(data, fds) := encode_mounts (sp_mesh_mounts s) in
  ERendezvous (path_join (proc_root pid) (trim_start_matches (Z.eqb SLASH) RENDEZVOUS_SOCK)) data fds.
Definition build_up (s : Spec) (x : Plan * Command * option bytes) : M Z :=
  let '(p, command, sock) := x in
  let net := sp_network s in
  match sp_binder s with
  | None => failing BeIo
  | Some prep =>
      let supervision := encode_supervision (supervision_from p command uid gid (level_u8 (sp_level s))) in
      let net_runtime := if is_none sock then Egress.denied else Egress.from_policy parse_ip net (option_list (sh_host_service (sp_ssh_prep s))) in
      let session := if tun_active net (sp_binder s)
                     then Some (encode_tun_session (tun_addr (sp_uid s) (sp_ctx s)) (np_udp_allow_names net)) else None in
      match an_construct an with
      | None => failing BeIo
      | Some pid =>
          _ ← acquire true BeIo (construct_event s p) (fun st => prov st false None false false None false true);
          _ ← try_ (an_ready an) BeIo EReady;
          _ ← try_ (an_sent an) BeIo (rendezvous_event s pid);
          _ ← serve s sock (mirror_bind_ports net) p prep pid supervision net_runtime session;
          _ ← try_ (an_live an) BeIo EBusLive;
          _ ← emit EReapHelper;
          mret pid
      end
  end.
Definition bring_up (s : Spec) (command : Command) : M Z := x ← prepare_up s command; build_up s x.

(** [teardown], and what [start] does with a failed bring-up. *)
Definition teardown (ctx : Z) (cgroup : option bytes) (v6 : option bytes) (proxy inetd : bool) (view_root : option bytes) : list Ev :=
  (if proxy then [EKill DProxy] else []) ++ (if inetd then [EKill DInetd] else []) ++
  (match v6 with Some a => [EDelAddress ctx (V6 a) V6_PREFIX] | None => [] end) ++
  (match cgroup with Some c => [ERmdir c] | None => [] end) ++ (match view_root with Some d => [ERmdir d] | None => [] end).
Definition unwind (s : Spec) (p : Provision) : list Ev :=
  (if pr_binder p then [EStopManager] else []) ++
  teardown (sp_ctx s) (if pr_made_cgroup p then Some (sp_cgroup s) else None) (pr_v6 p) (pr_proxy p) (pr_inetd p) (pr_view_root p).

(** A running kennel. *)
Record Running : Type := { rk_init_pid : Z; rk_cgroup : bytes; rk_ctx : Z; rk_v6 : option bytes; rk_proxy : bool; rk_inetd : bool;
  rk_view_root : option bytes; rk_binder : bool }.
Definition start (s : Spec) (command : Command) : list Ev * result BringError Running :=
  match bring_up s command {| st_events := []; st_prov := no_provision |} with
  | (st, Ok pid) =>
      let p := st_prov st in
      (st_events st, Ok {| rk_init_pid := pid; rk_cgroup := sp_cgroup s; rk_ctx := sp_ctx s; rk_v6 := pr_v6 p; rk_proxy := pr_proxy p;
                           rk_inetd := pr_inetd p; rk_view_root := pr_view_root p; rk_binder := pr_binder p |})
  | (st, Err e) => (st_events st ++ unwind s (st_prov st), Err e)
  end.

(** [Kennel::stop]: [status] is what waiting for the init returns. *)
Definition stop (k : Running) (status : option Z) : list Ev * option Z :=
  match status with
  | None => ([], None)
  | Some code =>
      ([EWait (rk_init_pid k)] ++ (if rk_binder k then [EStopManager] else []) ++
         teardown (rk_ctx k) (Some (rk_cgroup k)) (rk_v6 k) (rk_proxy k) (rk_inetd k) (rk_view_root k), Some code)
  end.
(** [Kennel::terminate]: killing the cgroup, then the init; the second may fail when the first did not. *)
Definition terminate (cgroup_killed pid_killed : bool) : bool := pid_killed || cgroup_killed.
End bring_up.

(** * Ports and addresses *)

Lemma push_ports l : forall ports, NoDup ports -> 
  NoDup (fold_left push_port l ports) /\ forall p, p ∈ fold_left push_port l ports <-> p ∈ ports \/ (p <> 0 /\ p ∈ l).
Proof.
  induction l as [|q l IH]; intros ports Hn; cbn [fold_left].
  - split; [done|]. set_solver.
  - unfold push_port at 2 4. destruct (Z.eqb_spec q 0) as [->|Hq]; cbn [negb andb].
    + destruct (IH ports Hn) as [H1 H2]. split; [done|]. intros p. rewrite H2. set_solver.
    + case_bool_decide as Hin; cbn [negb].
      * destruct (IH ports Hn) as [H1 H2]. split; [done|]. intros p. rewrite H2. set_solver.
      * destruct (IH (ports ++ [q])) as [H1 H2].
        { apply NoDup_app. split_and!; [done|set_solver|apply NoDup_singleton]. }
        split; [done|]. intros p. rewrite H2. set_solver.
Qed.

(** The ports mirrored on the host are the declared ones, once each: the explicit list and the rules for
    one port; port zero is none of them, and neither is a port of a range. *)
Theorem mirror_ports_exact (net : NetPolicy) :
  NoDup (mirror_bind_ports net) /\
  forall p, p ∈ mirror_bind_ports net <->
    p <> 0 /\ (p ∈ np_bind_allowed_ports net \/ exists r, r ∈ np_bpf_bind_allow net /\ nr_port_min r = p /\ nr_port_max r = p).
Proof.
  unfold mirror_bind_ports. destruct (push_ports (np_bind_allowed_ports net ++
     omap (fun r => if nr_port_min r =? nr_port_max r then Some (nr_port_min r) else None) (np_bpf_bind_allow net)) [] (NoDup_nil_2)) as [H1 H2].
  split; [done|]. intros p. rewrite H2, elem_of_app, list_elem_of_omap.
  assert ((exists r, r ∈ np_bpf_bind_allow net /\ (if nr_port_min r =? nr_port_max r then Some (nr_port_min r) else None) = Some p) <->
          (exists r, r ∈ np_bpf_bind_allow net /\ nr_port_min r = p /\ nr_port_max r = p)) as ->.
  { split; intros (r & Hr & E); exists r; (split; [done|]).
    - destruct (Z.eqb_spec (nr_port_min r) (nr_port_max r)); [|done]. injection E as <-. done.
    - destruct E as [<- E]. by rewrite E, Z.eqb_refl. }
  set_solver.
Qed.

(** A kennel has an address of its own if it is proxied and mirrors a port, and then one, which the
    address authority of the helper accepts for the caller; else none. *)
Theorem own_address_accepted (s : Spec) :
  in_u16 (sp_ctx s) -> in_u64 (px_offset (np_proxy (sp_network s))) ->
  (own_loopback s <> [] <-> proxied (sp_network s) = true /\ mirror_bind_ports (sp_network s) <> []) /\
  forall l, l ∈ own_loopback s ->
    validate_addr {| ar_ctx := sp_ctx s; ar_interface := ascii_bytes "lo"; ar_addr := lb_addr l; ar_prefix := lb_prefix l |} (sp_uid s) = Ok tt.
Proof.
  intros Hc Ho. unfold own_loopback, aliased. split.
  - destruct (proxied (sp_network s)), (mirror_bind_ports (sp_network s)); cbn; intuition congruence.
  - intros l. destruct (_ && _); [|by intros ?%elem_of_nil]. intros ->%list_elem_of_singleton. cbn [lb_addr lb_prefix].
    apply validate_addr_ok; cbn; [apply loopback_v6_ok; done|done|]. split_and!; [by left|done|]. eexists. split; [exact Ho|done].
Qed.

(** * What the bring-up adds to a plan *)

(** A rule that lets the workload read and execute, or that lets it execute nothing. *)
Definition harmless (r : bytes * Z) : Prop := r.2 = exec_access \/ Z.land r.2 FS_EXECUTE = 0.
Definition read_only (b : BindMount) : Prop := bm_writable b = false /\ bm_exclusive b = false /\ bm_redirected b = false.
Definition view_grows (v v' : ShimView) : Prop :=
  v' = view_binds (fun _ => sv_binds v') v /\ forall b, b ∈ sv_binds v' -> b ∈ sv_binds v \/ read_only b.

Record extends (p p' : Plan) : Prop := {
  ex_same : p' = plan_edit p (pl_cgroup p') (pl_view p') (pl_new_root p') (pl_landlock_fs p') (pl_landlock_net p') (pl_file_binds p') (pl_aux p');
  ex_rules : exists rs, pl_landlock_fs p' = pl_landlock_fs p ++ rs /\ Forall harmless rs;
  ex_net : exists ns, pl_landlock_net p' = pl_landlock_net p ++ ns /\ Forall (fun r => r.2 = NET_CONNECT_TCP) ns;
  ex_view : match pl_view p, pl_view p' with Some v, Some v' => view_grows v v' | None, None => True | _, _ => False end;
}.

Lemma plan_edit_same p : p = plan_edit p (pl_cgroup p) (pl_view p) (pl_new_root p) (pl_landlock_fs p) (pl_landlock_net p) (pl_file_binds p) (pl_aux p).
Proof. by destruct p. Qed.
Lemma view_grows_refl v : view_grows v v.
Proof. split; [by destruct v|by left]. Qed.
Lemma view_grows_trans u v w : view_grows u v -> view_grows v w -> view_grows u w.
Proof.
  intros [E1 H1] [E2 H2]. split; [rewrite E2 at 1; rewrite E1; done|]. intros b Hb. destruct (H2 b Hb) as [Hv|?]; [|by right]. by apply H1.
Qed.
Lemma extends_refl p : extends p p.
Proof.
  split; [apply plan_edit_same|exists []; by rewrite app_nil_r|exists []; by rewrite app_nil_r|].
  destruct (pl_view p); [apply view_grows_refl|done].
Qed.
Lemma extends_trans p q r : extends p q -> extends q r -> extends p r.
Proof.
  intros [S1 (r1 & R1 & F1) (n1 & N1 & G1) V1] [S2 (r2 & R2 & F2) (n2 & N2 & G2) V2]. split.
  - rewrite S2 at 1. rewrite S1. done.
  - exists (r1 ++ r2). rewrite R2, R1, app_assoc. split; [done|]. by apply Forall_app.
  - exists (n1 ++ n2). rewrite N2, N1, app_assoc. split; [done|]. by apply Forall_app.
  - destruct (pl_view p), (pl_view q), (pl_view r); try done. by eapply view_grows_trans.
Qed.

(** An edit of some fields, with what it must satisfy. *)
Lemma extends_edit p cg vw nr rs ns fb ax :
  Forall harmless rs -> Forall (fun r => r.2 = NET_CONNECT_TCP) ns ->
  match pl_view p, vw with Some v, Some v' => view_grows v v' | None, None => True | _, _ => False end ->
  extends p (plan_edit p cg vw nr (pl_landlock_fs p ++ rs) (pl_landlock_net p ++ ns) fb ax).
Proof. intros Hr Hn Hv. split; [done|by exists rs|by exists ns|exact Hv]. Qed.
Lemma view_same p : match pl_view p, pl_view p with Some v, Some v' => view_grows v v' | None, None => True | _, _ => False end.
Proof. destruct (pl_view p); [apply view_grows_refl|done]. Qed.

Lemma extends_rules rs p : Forall harmless rs -> extends p (add_rules rs p).
Proof.
  intros H. pose proof (extends_edit p (pl_cgroup p) (pl_view p) (pl_new_root p) rs [] (pl_file_binds p) (pl_aux p) H (List.Forall_nil _) (view_same p)) as HE.
  rewrite app_nil_r in HE. exact HE.
Qed.
Lemma extends_net ns p : Forall (fun r => r.2 = NET_CONNECT_TCP) ns -> extends p (add_net ns p).
Proof.
  intros H. pose proof (extends_edit p (pl_cgroup p) (pl_view p) (pl_new_root p) [] ns (pl_file_binds p) (pl_aux p) (List.Forall_nil _) H (view_same p)) as HE.
  rewrite app_nil_r in HE. exact HE.
Qed.
Lemma extends_fields p cg nr fb ax : extends p (plan_edit p cg (pl_view p) nr (pl_landlock_fs p) (pl_landlock_net p) fb ax).
Proof.
  pose proof (extends_edit p cg (pl_view p) nr [] [] fb ax (List.Forall_nil _) (List.Forall_nil _) (view_same p)) as HE.
  rewrite !app_nil_r in HE. exact HE.
Qed.
Lemma extends_view f p : (forall bs b, b ∈ f bs -> b ∈ bs \/ read_only b) -> extends p (map_view (view_binds f) p).
Proof.
  intros H. pose proof (extends_edit p (pl_cgroup p) (option_map (view_binds f) (pl_view p)) (pl_new_root p) [] [] (pl_file_binds p) (pl_aux p)
    (List.Forall_nil _) (List.Forall_nil _)) as HE. rewrite !app_nil_r in HE. apply HE.
  destruct (pl_view p) as [v|]; cbn; [|done]. split; [done|]. apply H.
Qed.
Lemma extends_binds l p : Forall read_only l -> extends p (add_binds l p).
Proof. intros H. apply extends_view. intros bs b [?|Hb]%elem_of_app; [by left|]. right. rewrite Forall_forall in H. by apply H. Qed.
Lemma ro_bind_ro a b : read_only (ro_bind a b).
Proof. done. Qed.

#[local] Hint Resolve extends_refl extends_rules extends_net extends_binds ro_bind_ro : core.

Lemma exec_harmless elf h bin : Forall harmless (exec_rules elf h bin).
Proof. constructor; [by left|]. apply Forall_map, List.Forall_forall. intros l _. by left. Qed.
Lemma same_access_harmless (a : Z) (l : list bytes) : Z.land a FS_EXECUTE = 0 -> Forall harmless (map (fun d => (d, a)) l).
Proof. intros H. apply Forall_map, List.Forall_forall. intros d _. by right. Qed.
Lemma install_extends elf h bin args p : extends p (install elf h bin args p).
Proof.
  unfold install. eapply extends_trans; [apply (extends_binds [ro_bind bin bin]); by constructor|].
  eapply extends_trans; [apply extends_rules, exec_harmless|]. apply extends_fields.
Qed.
Lemma afunix_extends elf h u pv pc : extends pc.1 (apply_afunix elf h u pv pc).1.
Proof.
  destruct pc as [p c]. unfold apply_afunix. destruct (_ || _); [done|]. destruct (up_afunix_bin u) as [bin|]; [|done]. cbn [fst].
  eapply extends_trans; [|apply install_extends]. apply extends_rules. apply List.Forall_forall. intros r Hr%list_elem_of_In.
  apply list_elem_of_omap in Hr as (sh & _ & E). destruct (path_parent _); [|done]. injection E as <-. by right.
Qed.
Lemma tun_extends elf h t a pv p : extends p (apply_tun elf h t a pv p).
Proof. unfold apply_tun. destruct (negb pv); [done|]. destruct t; [apply install_extends|done]. Qed.
Lemma socks5_extends elf h bin port pc : extends pc.1 (apply_socks5 elf h bin port pc).1.
Proof. destruct pc. apply install_extends. Qed.
Lemma client_extends elf h bin ports p : extends p (apply_facade_client elf h bin ports p).
Proof.
  unfold apply_facade_client. eapply extends_trans; [apply (extends_binds [ro_bind bin bin]); by constructor|].
  eapply extends_trans; [apply extends_rules, (exec_harmless elf h bin)|].
  eapply extends_trans; [apply (extends_net (map (fun port => (port, NET_CONNECT_TCP)) ports))|apply extends_fields].
  apply Forall_map, List.Forall_forall. done.
Qed.
Lemma dbus_extends elf h d pv pc : extends pc.1 (apply_dbus elf h d pv pc).1.
Proof.
  destruct pc as [p c]. unfold apply_dbus. destruct (_ || _); [done|]. destruct (db_facade_bin d) as [bin|]; [|done]. cbn [fst].
  eapply extends_trans; [|apply install_extends]. by apply extends_rules, same_access_harmless.
Qed.
Lemma own_binds_ro ssh oci : Forall read_only (own_binds ssh oci).
Proof.
  unfold own_binds, bind_of. rewrite !Forall_app. split_and!; repeat case_match; repeat constructor.
Qed.
Lemma substrate_ro h image oci bs b : b ∈ substrate_binds h image oci bs -> b ∈ bs \/ read_only b.
Proof.
  unfold substrate_binds. destruct image; intros [Hb|Hb]%elem_of_app.
  - left. apply list_elem_of_In, filter_In in Hb as [Hb _]. by apply list_elem_of_In.
  - right. destruct (_ ≫= _); [|by apply elem_of_nil in Hb]. apply list_elem_of_singleton in Hb as ->. done.
  - by left.
  - right. apply list_elem_of_In, in_map_iff in Hb as (s & <- & _). done.
Qed.
Lemma wire_extends elf h ssh oci pc : extends pc.1 (wire_view elf h ssh oci pc).1.
Proof.
  destruct pc as [p c]. unfold wire_view. destruct (pl_view p) as [v|]; [|done]. cbn [fst].
  eapply extends_trans; [apply extends_view|apply extends_rules].
  - intros bs b [Hb|Hb]%elem_of_app; [by apply substrate_ro in Hb|]. right. pose proof (own_binds_ro ssh oci) as Ho.
    rewrite Forall_forall in Ho. by apply Ho.
  - apply Forall_app. split; [destruct (sh_ssh_bin ssh); [apply exec_harmless|constructor]|].
    destruct (oc_launcher_bin oci); [|constructor]. apply Forall_app. split; [apply exec_harmless|]. constructor; [by right|constructor].
Qed.
Lemma parents_harmless binds : Forall harmless (parent_rules binds).
Proof. by apply same_access_harmless. Qed.
Lemma ssh_files_extends ssh p : extends p (ssh_files ssh p).
Proof.
  unfold ssh_files. destruct (is_nil _); [done|]. eapply extends_trans; [apply extends_rules, parents_harmless|apply extends_fields].
Qed.
Lemma net_facades_extends elf h s sock ports pc : extends pc.1 (net_facades elf h s sock ports pc).1.
Proof.
  unfold net_facades. destruct (sp_proxy s); [|done]. destruct (_ && _); [|done]. cbn zeta.
  destruct (is_nil ports); [apply socks5_extends|]. eapply extends_trans; [apply socks5_extends|apply client_extends].
Qed.
Lemma tun_facade_extends elf h s pv pc : extends pc.1 (tun_facade elf h s pv pc).1.
Proof. unfold tun_facade. destruct (tun_active _ _); [apply tun_extends|done]. Qed.
Lemma facade_extends elf h s sock ports pc : extends pc.1 (facade_plan elf h s sock ports pc).1.
Proof.
  unfold facade_plan. cbn zeta. set (pc1 := net_facades _ _ _ _ _ _). set (pc2 := tun_facade _ _ _ _ _).
  assert (H : extends pc.1 pc2.1).
  { eapply extends_trans; [apply ssh_files_extends|].
    eapply extends_trans; [apply (net_facades_extends elf h s sock ports (ssh_files (sp_ssh_prep s) pc.1, pc.2))|].
    eapply extends_trans; [apply afunix_extends|]. eapply extends_trans; [apply dbus_extends|apply tun_facade_extends]. }
  destruct (is_none (sp_view_root s)); [exact H|]. eapply extends_trans; [exact H|apply wire_extends].
Qed.

(** * The order of the bring-up and its undoing *)

(** From a state of [P], a computation ends in [Q] of its result or fails in [E]. *)
Definition hoare {A} (P : St -> Prop) (m : M A) (Q : A -> St -> Prop) (E : St -> Prop) : Prop :=
  forall st, P st -> match m st with (st', Ok a) => Q a st' | (st', Err _) => E st' end.
Lemma hoare_bind {A B} P (m : M A) Q E (f : A -> M B) R :
  hoare P m Q E -> (forall a, hoare (Q a) (f a) R E) -> hoare P (m ≫= f) R E.
Proof.
  intros Hm Hf st Hst. specialize (Hm st Hst). unfold mbind, M_bind. destruct (m st) as [st' [a|e]]; [by apply Hf|done].
Qed.
Lemma hoare_ret {A} (a : A) (Q : A -> St -> Prop) E : hoare (Q a) (mret a) Q E.
Proof. by intros st H. Qed.

Lemma hoare_post {A} P (m : M A) Q E (R : A -> St -> Prop) :
  hoare P m Q E -> (forall a st, Q a st -> R a st) -> hoare P m R E.
Proof. intros H HR st Hst. specialize (H st Hst). destruct (m st) as [st' [a|]]; [by apply HR|done]. Qed.

(** Before the factory runs: directories and files only, and the provisions. *)
Definition simple (e : Ev) : Prop := match e with EMkdir _ | EWrite _ _ => True | _ => False end.
Definition at_prov (p : Provision) (st : St) : Prop := Forall simple (st_events st) /\ st_prov st = p.
Definition early (st : St) : Prop :=
  Forall simple (st_events st) /\ (st_events st = [] \/ pr_made_cgroup (st_prov st) = true) /\
  pr_proxy (st_prov st) = false /\ pr_inetd (st_prov st) = false /\ pr_binder (st_prov st) = false /\ pr_factory (st_prov st) = false.
(** The provisions of a kennel up to the factory: its cgroup, an address, the directory of its view. *)
Definition before_factory (v6 vr : option bytes) : Provision := {|
  pr_made_cgroup := true; pr_v6 := v6; pr_proxy := false; pr_inetd := false; pr_view_root := vr; pr_binder := false; pr_factory := false |}.
Lemma at_early v6 vr st : at_prov (before_factory v6 vr) st -> early st.
Proof. intros [H E]. unfold early. rewrite E. by split_and!; [|right|..]. Qed.

Lemma try_hoare v6 vr ok err e : simple e ->
  hoare (at_prov (before_factory v6 vr)) (try_ ok err e) (fun _ => at_prov (before_factory v6 vr)) early.
Proof.
  intros He st Hst. unfold try_. destruct ok; [|by eapply at_early]. destruct Hst as [H E]. split; [|done]. cbn.
  apply Forall_app. split; [done|by constructor].
Qed.
Lemma emits_hoare v6 vr l : Forall simple l ->
  hoare (at_prov (before_factory v6 vr)) (emits l) (fun _ => at_prov (before_factory v6 vr)) early.
Proof. intros Hl st [H E]. split; [by apply Forall_app|done]. Qed.
Lemma materialized_hoare v6 vr r :
  hoare (at_prov (before_factory v6 vr)) (materialized r) (fun _ => at_prov (before_factory v6 vr)) early.
Proof.
  eapply hoare_bind; [apply emits_hoare; apply Forall_map, List.Forall_forall; by intros [??]|].
  intros _ st Hst. destruct (r.2); [done|]. by eapply at_early.
Qed.
Lemma etc_hoare an etc rs v6 vr p :
  hoare (at_prov (before_factory v6 vr)) (etc_files an etc rs p)
    (fun p' st => at_prov (before_factory v6 vr) st /\ extends p p') early.
Proof.
  unfold etc_files. destruct etc as [e|]; [|intros st H; split; [exact H|apply extends_refl]].
  eapply (hoare_bind _ _ (fun _ => at_prov (before_factory v6 vr))); [by intros st H|]. intros a.
  eapply hoare_bind; [apply materialized_hoare|]. intros binds.
  eapply hoare_bind; [apply materialized_hoare|]. intros dots st Hst. split; [exact Hst|].
  assert (extends p (add_rules (parent_rules binds) (set_file_binds binds p))) as H1.
  { eapply extends_trans; [apply extends_fields|apply extends_rules, parents_harmless]. }
  destruct (is_nil dots); [exact H1|]. eapply extends_trans; [exact H1|].
  eapply extends_trans; [apply extends_rules, parents_harmless|apply extends_fields].
Qed.

Section order.
Context (en : endian) (elf : bytes -> option (option bytes)) (h : Machine) (an : Answers) (uid gid : Z).

(** The socket of the egress delegate: there is one for a proxied kennel. *)
Definition egress_sock (s : Spec) : option bytes :=
  match sp_proxy s with
  | Some setup => if proxied (sp_network s) then Some (cmd_socket (ps_config_dir setup) "netproxy-cmd-" (sp_ctx s)) else None
  | None => None
  end.
Definition own_v6 (s : Spec) : option bytes := if aliased s then Some (own_addr s) else None.
(** The staging directory of a constructed view. *)
Definition own_view (s : Spec) : option bytes := if is_none (pl_view (sp_plan s)) then None else sp_view_root s.
Lemma own_view_of s p : extends (stamped_plan en s) p -> (if is_none (pl_view p) then None else sp_view_root s) = own_view s.
Proof.
  intros [_ _ _ Hv]. unfold own_view.
  assert (pl_view (stamped_plan en s) = pl_view (sp_plan s)) as Es by (unfold stamped_plan, daemon_plan; by destruct (_ && _)).
  rewrite Es in Hv. by destruct (pl_view (sp_plan s)), (pl_view p).
Qed.

Lemma prepare_hoare s command :
  hoare (fun st => st = {| st_events := []; st_prov := no_provision |}) (prepare_up en elf h an s command)
    (fun x st => at_prov (before_factory (own_v6 s) (if is_none (pl_view x.1.1) then None else sp_view_root s)) st /\
       extends (stamped_plan en s) x.1.1 /\ x.2 = egress_sock s /\ pl_cgroup x.1.1 = sp_cgroup s /\
       (pl_view x.1.1 <> None -> sp_view_root s <> None -> pl_new_root x.1.1 = sp_view_root s)) early.
Proof.
  unfold prepare_up.
  eapply (hoare_bind _ _ (fun _ => at_prov (before_factory None None))).
  { intros st ->. unfold acquire. destruct (an_mkdir an (sp_cgroup s)); cbn; [|split; [constructor|]; split; [by left|done]].
    split; [by constructor|done]. }
  intros []. eapply (hoare_bind _ _ (fun _ => at_prov (before_factory None None))).
  { intros st [H E]. unfold when. destruct (an_write an _); [|by split]. split; [|done]. cbn. apply Forall_app. split; [done|by constructor]. }
  intros []. eapply (hoare_bind _ _ (fun _ => at_prov (before_factory (own_v6 s) None))).
  { intros st [H E]. unfold when, own_v6. destruct (aliased s); [|by split]. split; [done|]. cbn. by rewrite E. }
  intros []. eapply (hoare_bind _ _ (fun sock st => at_prov (before_factory (own_v6 s) None) st /\ sock = egress_sock s)).
  { unfold egress_sock. destruct (sp_proxy s) as [setup|]; [|by intros st H]. destruct (proxied (sp_network s)); [|by intros st H].
    eapply hoare_bind; [by apply try_hoare|]. by intros [] st H. }
  intros sock. eapply (hoare_bind _ _ (fun p st => at_prov (before_factory (own_v6 s) None) st /\ sock = egress_sock s /\ extends (stamped_plan en s) p)).
  { intros st [Hst Hs]. pose proof (etc_hoare an (sp_etc s) (if tun_active (sp_network s) (sp_binder s) then Some (tun_resolver_addr (sp_uid s) (sp_ctx s)) else None)
      (own_v6 s) None (stamped_plan en s) st Hst) as H.
    destruct (etc_files _ _ _ _ st) as [st' [p|]]; [|done]. destruct H. done. }
  intros p. pose proof (facade_extends elf h s sock (mirror_bind_ports (sp_network s)) (p, command)) as HF.
  destruct (facade_plan elf h s sock (mirror_bind_ports (sp_network s)) (p, command)) as [p1 c1]. cbn [fst] in HF.
  eapply (hoare_bind _ _ (fun p2 st => at_prov (before_factory (own_v6 s) (if is_none (pl_view p2) then None else sp_view_root s)) st /\
    sock = egress_sock s /\ extends (stamped_plan en s) p2 /\ (pl_view p2 <> None -> sp_view_root s <> None -> pl_new_root p2 = sp_view_root s))).
  - intros st (Hst & Hs & Hp). pose proof (extends_trans _ _ _ Hp HF) as Hp1.
    destruct (sp_view_root s) as [vr|]; [|cbn; destruct (is_none (pl_view p1)); (split_and!; [exact Hst|exact Hs|exact Hp1|done])].
    destruct (pl_view p1) as [v|] eqn:Ev.
    + unfold mbind, M_bind, acquire. destruct (an_mkdir an vr).
      * destruct Hst as [H E]. cbn. rewrite Ev. cbn. split_and!; [|done| |done].
        -- split; [apply Forall_app; split; [done|by constructor]|]. cbn. by rewrite E.
        -- eapply extends_trans; [exact Hp1|apply extends_fields].
      * by eapply at_early.
    + cbn. rewrite Ev. cbn. split_and!; [exact Hst|exact Hs|exact Hp1|done].
  - intros p2 st (Hst & Hs & Hp & Hn). unfold mret, M_ret. cbn [fst snd set_cgroup plan_edit pl_view pl_cgroup pl_new_root].
    split_and!; [exact Hst| |done|done|done]. eapply extends_trans; [exact Hp|apply extends_fields].
Qed.
End order.

(** What serves a constructed kennel, and what of it is on record. *)
Definition serving (e : Ev) : Prop := match e with EMkdir _ | ESpawn _ _ _ | EBind _ _ _ | ENode0 _ _ => True | _ => False end.
Definition on_record (p : Provision) (e : Ev) : Prop :=
  match e with
  | ESpawn DProxy _ _ => pr_proxy p = true
  | ESpawn DInetd _ _ => pr_inetd p = true
  | ENode0 _ _ => pr_binder p = true
  | EConstruct _ _ _ _ _ => pr_factory p = true
  | _ => True
  end.
Definition same_host (p q : Provision) : Prop :=
  pr_made_cgroup q = pr_made_cgroup p /\ pr_v6 q = pr_v6 p /\ pr_view_root q = pr_view_root p /\ pr_factory q = pr_factory p.
(** After [mid], from the events [ev] and the provisions [p]. *)
Definition grown (ev : list Ev) (p : Provision) (mid : list Ev) (st : St) : Prop :=
  st_events st = ev ++ mid /\ Forall serving mid /\ Forall (on_record (st_prov st)) mid /\ same_host p (st_prov st).
Definition stopped (ev : list Ev) (p : Provision) (st : St) : Prop := exists mid, grown ev p mid st.

Lemma acquire_grown ev p mid ok err e f : serving e ->
  (forall q, on_record (f q) e /\ same_host q (f q) /\ forall e', serving e' -> on_record q e' -> on_record (f q) e') ->
  hoare (grown ev p mid) (acquire ok err e f) (fun _ => grown ev p (mid ++ [e])) (stopped ev p).
Proof.
  intros He Hf st Hst. unfold acquire. destruct ok; [|by exists mid]. destruct Hst as (H1 & H2 & H3 & H4).
  destruct (Hf (st_prov st)) as (F1 & F2 & F3). split_and!; cbn.
  - by rewrite H1, app_assoc.
  - apply Forall_app. split; [done|by constructor].
  - apply Forall_app. split; [|by constructor]. rewrite Forall_forall in H2, H3 |- *. intros x Hx. apply F3; auto.
  - unfold same_host in *. destruct_and!. split_and!; congruence.
Qed.
Lemma try_grown ev p mid ok err e : serving e -> (forall q, on_record q e) ->
  hoare (grown ev p mid) (try_ ok err e) (fun _ => grown ev p (mid ++ [e])) (stopped ev p).
Proof.
  intros He Hr st Hst. unfold try_. destruct ok; [|by exists mid]. destruct Hst as (H1 & H2 & H3 & H4). split_and!; cbn.
  - by rewrite H1, app_assoc.
  - apply Forall_app. split; [done|by constructor].
  - apply Forall_app. split; [done|by constructor].
  - done.
Qed.
Lemma bind_ports_grown an ev p sock addr ports : forall mid,
  hoare (grown ev p mid) (bind_ports an sock addr ports) (fun _ st => exists more, grown ev p (mid ++ more) st) (stopped ev p).
Proof.
  induction ports as [|port ports IH]; intros mid; cbn [bind_ports]; [intros st H; exists []; by rewrite app_nil_r|].
  destruct (an_bind an port); cbn [when].
  - eapply (hoare_bind _ _ (fun _ => grown ev p (mid ++ [EBind sock addr port]))).
    + intros st Hst. apply (try_grown ev p mid true BeIo (EBind sock addr port)); done.
    + intros [] st Hst. specialize (IH _ st Hst). destruct (bind_ports an sock addr ports st) as [st' [[]|e]]; [|done].
      destruct IH as [more IH]. rewrite <- app_assoc in IH. by eexists.
  - intros st Hst. apply (IH mid st Hst).
Qed.
Lemma prov_ok q px inetd b : forall e', serving e' -> on_record q e' -> on_record (prov q false None px inetd None b false) e'.
Proof. intros [] Hs; cbn; try done; try (destruct d); cbn; intros ->; done. Qed.
Lemma prov_host q px inetd b : same_host q (prov q false None px inetd None b false).
Proof. unfold same_host, prov. cbn. by rewrite !orb_false_r. Qed.

Section served.
Context (an : Answers).

(** What is in place when the init is released: the delegates of a proxied kennel, and node 0 with the
    manager of this kennel where it was taken. *)
Definition in_place (s : Spec) (sock : option bytes) (v6 : option bytes) (p : Plan) (prep : BinderPrep) (pid : Z)
    (supervision : bytes) (net_runtime : NetRuntime) (session : option bytes) (mid : list Ev) : Prop :=
  (forall setup k, sp_proxy s = Some setup -> sock = Some k -> ESpawn DProxy (ps_binary setup) k ∈ mid) /\
  (forall setup a, sp_proxy s = Some setup -> v6 = Some a -> mirror_bind_ports (sp_network s) <> [] ->
     ESpawn DInetd (ps_inetd setup) (cmd_socket (ps_config_dir setup) "inetd-cmd-" (sp_ctx s)) ∈ mid) /\
  (forall v, pl_view p = Some v -> sv_binder v = true -> an_node0 an = true ->
     exists k, ENode0 k (mirror_bind_ports (sp_network s)) ∈ mid /\ nk_ctx k = sp_ctx s /\ nk_net k = net_runtime /\
       nk_tun_session k = session /\ lf_init_host_pid (nk_lifecycle k) = Some pid /\ lf_supervision (nk_lifecycle k) = supervision).

Lemma serve_hoare s sock p prep pid supervision nr session ev pr v6 :
  pr_v6 pr = v6 ->
  hoare (grown ev pr []) (serve an s sock (mirror_bind_ports (sp_network s)) p prep pid supervision nr session)
    (fun _ st => exists mid, grown ev pr mid st /\ in_place s sock v6 p prep pid supervision nr session mid) (stopped ev pr).
Proof.
  intros Hv. unfold serve.
  eapply (hoare_bind _ _ (fun _ st => exists m1, grown ev pr m1 st /\
    forall setup k, sp_proxy s = Some setup -> sock = Some k -> ESpawn DProxy (ps_binary setup) k ∈ m1)).
  { intros st Hst. destruct (sp_proxy s) as [setup|], sock as [k|]; try (exists []; by split; [exact Hst|]).
    pose proof (acquire_grown ev pr [] (an_spawn an (ps_binary setup)) BeProxy (ESpawn DProxy (ps_binary setup) k)
      (fun st => prov st false None true false None false false) I) as HA. specialize (HA ltac:(intros q; split_and!;
      [cbn; by rewrite orb_true_r|apply prov_host|apply prov_ok]) st Hst).
    destruct (acquire _ _ _ _ st) as [st' [[]|]]; [|done]. eexists. split; [exact HA|]. intros ? ? [= <-] [= <-]. set_solver. }
  intros []. eapply (hoare_bind _ _ (fun a st => a = v6 /\ exists m1, grown ev pr m1 st /\
    forall setup k, sp_proxy s = Some setup -> sock = Some k -> ESpawn DProxy (ps_binary setup) k ∈ m1)).
  { intros st (m1 & Hg & Hm). cbn. split; [|by exists m1]. destruct Hg as (_ & _ & _ & (_ & -> & _)). done. }
  intros a. eapply (hoare_bind _ _ (fun _ st => exists m2, grown ev pr m2 st /\
    (forall setup k, sp_proxy s = Some setup -> sock = Some k -> ESpawn DProxy (ps_binary setup) k ∈ m2) /\
    (forall setup a, sp_proxy s = Some setup -> v6 = Some a -> mirror_bind_ports (sp_network s) <> [] ->
       ESpawn DInetd (ps_inetd setup) (cmd_socket (ps_config_dir setup) "inetd-cmd-" (sp_ctx s)) ∈ m2))).
  { intros st [-> (m1 & Hg & Hm)]. destruct (sp_proxy s) as [setup|]; [|by exists m1].
    destruct v6 as [addr|]; [|by exists m1]. destruct (mirror_bind_ports (sp_network s)) as [|q qs] eqn:Eq; cbn [is_nil]; [by exists m1|].
    rewrite <- Eq. set (isock := cmd_socket _ _ _).
    assert (HB : hoare (grown ev pr m1)
      (_ ← try_ (an_mkdir an (ps_config_dir setup)) BeIo (EMkdir (ps_config_dir setup));
       _ ← acquire (an_spawn an (ps_inetd setup)) BeProxy (ESpawn DInetd (ps_inetd setup) isock)
             (fun st => prov st false None false true None false false);
       bind_ports an isock (V6 addr) (mirror_bind_ports (sp_network s)))
      (fun _ st => exists more, grown ev pr (((m1 ++ [EMkdir (ps_config_dir setup)]) ++ [ESpawn DInetd (ps_inetd setup) isock]) ++ more) st) (stopped ev pr)).
    { eapply hoare_bind; [by apply try_grown|]. intros []. eapply hoare_bind; [apply acquire_grown; [done|]|].
      - intros q'. split_and!; [cbn; by rewrite orb_true_r|apply prov_host|apply prov_ok].
      - intros []. apply bind_ports_grown. }
    refine (hoare_post _ _ _ _ _ HB _ st Hg). intros [] st' [more Hg']. eexists. split; [exact Hg'|]. split.
    - intros setup' k E1 E2. specialize (Hm setup' k E1 E2). set_solver.
    - intros setup' a' [= <-] _ _. set_solver. }
  intros [] st (m2 & Hg & H1 & H2). unfold when. destruct (pl_view p) as [v|] eqn:Ev; cbn [andb].
  2: { exists m2. split; [exact Hg|]. split_and!; [exact H1|exact H2|congruence]. }
  destruct (sv_binder v && an_node0 an) eqn:Eb.
  2: { exists m2. split; [exact Hg|]. split_and!; [exact H1|exact H2|]. intros v' Ev' Hb Hn.
    rewrite Ev in Ev'. injection Ev' as <-. by rewrite Hb, Hn in Eb. }
  match goal with |- context [acquire true BeIo (ENode0 ?k ?ps) _] =>
    pose proof (acquire_grown ev pr m2 true BeIo (ENode0 k ps) (fun st => prov st false None false false None true false) I) as HA; set (kk := k) in * end.
  specialize (HA ltac:(intros q; split_and!; [cbn; by rewrite orb_true_r|apply prov_host|apply prov_ok]) st Hg).
  cbn [acquire] in HA |- *. eexists. split; [exact HA|]. split_and!.
  - intros. apply elem_of_app. left. by eapply H1.
  - intros. apply elem_of_app. left. by eapply H2.
  - intros. exists kk. split_and!; [set_solver|done..].
Qed.
End served.

(** Every event of the run is one of the bring-up, and what holds a resource is on record. *)
Definition forward (e : Ev) : Prop :=
  match e with EReapHelper | EStopManager | EKill _ | EDelAddress _ _ _ | ERmdir _ | EWait _ => False | _ => True end.
Definition recorded (s : Spec) (st : St) : Prop :=
  Forall (on_record (st_prov st)) (st_events st) /\ (st_events st = [] \/ pr_made_cgroup (st_prov st) = true) /\
  (pr_factory (st_prov st) = true -> pr_v6 (st_prov st) = own_v6 s /\ pr_view_root (st_prov st) = own_view s).
Definition accounted (s : Spec) (st : St) : Prop := Forall forward (st_events st) /\ recorded s st.

Lemma early_accounted s st : early st -> accounted s st.
Proof.
  intros (H1 & H2 & _ & _ & _ & H6). unfold accounted, recorded. split_and!; [| |done|congruence]; (eapply Forall_impl; [exact H1|]); by intros [].
Qed.

Section start_spec.
Context (en : endian) (elf : bytes -> option (option bytes)) (h : Machine) (an : Answers) (uid gid : Z).

Definition runtime_of (s : Spec) : NetRuntime :=
  if is_none (egress_sock s) then Egress.denied
  else Egress.from_policy parse_ip (sp_network s) (option_list (sh_host_service (sp_ssh_prep s))).
Definition session_of (s : Spec) : option bytes :=
  if tun_active (sp_network s) (sp_binder s)
  then Some (encode_tun_session (tun_addr (sp_uid s) (sp_ctx s)) (np_udp_allow_names (sp_network s))) else None.
Definition supervision_of (s : Spec) (p : Plan) (c : Command) : bytes :=
  encode_supervision (supervision_from p c uid gid (level_u8 (sp_level s))).

(** The events of a bring-up that returns. *)
Definition ordered (s : Spec) (p : Plan) (c : Command) (pid : Z) (evs : list Ev) : Prop :=
  exists pre mid prep, sp_binder s = Some prep /\ an_construct an = Some pid /\
    evs = pre ++ [construct_event en s p; EReady; rendezvous_event s pid] ++ mid ++ [EBusLive; EReapHelper] /\
    Forall simple pre /\ Forall serving mid /\
    in_place an s (egress_sock s) (own_v6 s) p prep pid (supervision_of s p c) (runtime_of s) (session_of s) mid.

Lemma build_hoare s p c :
  hoare (at_prov (before_factory (own_v6 s) (own_view s))) (build_up en an uid gid s (p, c, egress_sock s))
    (fun pid st => ordered s p c pid (st_events st) /\ recorded s st) (accounted s).
Proof.
  intros st Hst. pose proof (at_early _ _ _ Hst) as He. apply (early_accounted s) in He. unfold build_up.
  destruct (sp_binder s) as [prep|] eqn:Eb; [|exact He]. destruct (an_construct an) as [pid|] eqn:Ec; [|exact He].
  destruct Hst as [Hs Hp]. set (pr := {| pr_made_cgroup := true; pr_v6 := own_v6 s; pr_proxy := false; pr_inetd := false; pr_view_root := own_view s;
    pr_binder := false; pr_factory := true |}).
  assert (Hacc : forall ev q, Forall simple (st_events st) -> Forall forward ev -> Forall (on_record q) ev -> same_host pr q ->
    accounted s {| st_events := st_events st ++ ev; st_prov := q |}).
  { intros ev q Hsm Hf Hr (S1 & S2 & S3 & S4). unfold accounted, recorded. split_and!; cbn.
    - apply Forall_app. split; [|done]. eapply Forall_impl; [exact Hsm|]. by intros [].
    - apply Forall_app. split; [|done]. eapply Forall_impl; [exact Hsm|]. by intros [].
    - right. by rewrite S1.
    - by rewrite S2, S3. }
  assert (Hhost : same_host pr pr) by done.
  unfold mbind, M_bind, acquire at 1. rewrite Hp. change (prov (before_factory (own_v6 s) (own_view s)) false None false false None false true) with pr.
  unfold try_ at 1. destruct (an_ready an); cbn [emit failing]; [|apply Hacc; [done|by constructor|by constructor|done]].
  unfold try_ at 1. destruct (an_sent an); cbn [emit failing st_events st_prov]; rewrite <- ?app_assoc; cbn [app].
  2: { apply Hacc; [done|by repeat constructor|by repeat constructor|done]. }
  set (ev := st_events st ++ [construct_event en s p; EReady; rendezvous_event s pid]).
  pose proof (serve_hoare an s (egress_sock s) p prep pid (supervision_of s p c) (runtime_of s) (session_of s) ev pr (own_v6 s) eq_refl
    {| st_events := ev; st_prov := pr |}) as HS.
  assert (Hfw : forall mid, Forall serving mid -> Forall forward ([construct_event en s p; EReady; rendezvous_event s pid] ++ mid)).
  { intros mid Hm. repeat (constructor; [done|]). eapply Forall_impl; [exact Hm|]. by intros []. }
  assert (Hrec : forall q mid, same_host pr q -> Forall (on_record q) mid ->
    Forall (on_record q) ([construct_event en s p; EReady; rendezvous_event s pid] ++ mid)).
  { intros q mid (_ & _ & _ & Hq) Hm. constructor; [exact Hq|]. do 2 (constructor; [done|]). exact Hm. }
  specialize (HS ltac:(split_and!; [by rewrite app_nil_r|constructor|constructor|done])).
  unfold session_of in HS. rewrite Eb in HS. fold (runtime_of s). fold (supervision_of s p c).
  destruct (serve an s _ _ _ _ _ _ _ _ _) as [st' [[]|e]].
  - destruct HS as (mid & (G1 & G2 & G3 & G4) & Hin). unfold try_. destruct (an_live an); cbn.
    + split.
      * exists (st_events st), mid, prep. split_and!; try done; [rewrite G1; unfold ev; by rewrite <- !app_assoc|].
        unfold session_of. by rewrite Eb.
      * destruct (Hacc ([construct_event en s p; EReady; rendezvous_event s pid] ++ mid) (st_prov st') Hs (Hfw mid G2) (Hrec _ mid G4 G3) G4)
          as (_ & R1 & _ & R3). cbn [st_events st_prov] in R1, R3. split_and!.
        -- cbn [st_events st_prov]. rewrite G1. unfold ev. rewrite <- app_assoc, <- (app_assoc (st_events st)). apply Forall_app in R1 as [R1 R2].
           rewrite !Forall_app. apply Forall_app in R2 as [R2 R2']. split_and!; try done; by repeat constructor.
        -- right. cbn. destruct G4 as (-> & _). done.
        -- exact R3.
    + destruct st' as [evs q]. cbn [st_events st_prov] in G1, G3, G4.
      rewrite G1. unfold ev. rewrite <- app_assoc. apply Hacc; [done|by apply Hfw|by apply Hrec|done].
  - destruct HS as (mid & (G1 & G2 & G3 & G4)). destruct st' as [evs q]. cbn [st_events st_prov] in G1, G3, G4.
      rewrite G1. unfold ev. rewrite <- app_assoc. apply Hacc; [done|by apply Hfw|by apply Hrec|done].
Qed.

Lemma bring_up_hoare s c :
  hoare (fun st => st = {| st_events := []; st_prov := no_provision |}) (bring_up en elf h an uid gid s c)
    (fun pid st => exists p c', extends (stamped_plan en s) p /\ pl_cgroup p = sp_cgroup s /\
       (pl_view p <> None -> sp_view_root s <> None -> pl_new_root p = sp_view_root s) /\ ordered s p c' pid (st_events st) /\ recorded s st) (accounted s).
Proof.
  unfold bring_up. intros st Hst. pose proof (prepare_hoare en elf h an s c st Hst) as HP. unfold mbind, M_bind.
  destruct (prepare_up en elf h an s c st) as [st1 [[[p c'] sock]|e]]; [|by apply early_accounted].
  destruct HP as (Hat & Hext & Hsock & Hcg & Hnr). cbn [fst snd] in *. subst sock.
  rewrite (own_view_of en s p Hext) in Hat. pose proof (build_hoare s p c' st1 Hat) as HB. destruct (build_up _ _ _ _ _ _ st1) as [st2 [pid|e]]; [|exact HB]. by exists p, c'.
Qed.
End start_spec.

(** * Theorems *)

(** What gives an event back. *)
Definition given_back (s : Spec) (rel : list Ev) (e : Ev) : Prop :=
  match e with
  | ESpawn d _ _ => EKill d ∈ rel
  | ENode0 _ _ => EStopManager ∈ rel
  | EConstruct _ _ _ _ _ =>
      (forall a, own_v6 s = Some a -> EDelAddress (sp_ctx s) (V6 a) V6_PREFIX ∈ rel) /\
      (forall d, own_view s = Some d -> ERmdir d ∈ rel)
  | _ => True
  end.
Lemma teardown_gives s p e :
  on_record p e -> (pr_factory p = true -> pr_v6 p = own_v6 s /\ pr_view_root p = own_view s) -> given_back s (unwind s p) e.
Proof.
  intros Hr Hf. unfold unwind, teardown. destruct e; try done; cbn in *.
  - destruct (Hf Hr) as [-> ->]. split; intros ? ->; set_solver.
  - destruct d; rewrite Hr; set_solver.
  - rewrite Hr. set_solver.
Qed.


(** C16: A start that succeeds did things in order: nothing but directories and files before the factory is
    called, with a plan that extends the one given; then the init's announcement, the mesh mounts, the
    delegates and node 0; and the release of the init after all of them. *)
Theorem started_in_order en elf h an uid gid (s : Spec) (c : Command) evs k :
  start en elf h an uid gid s c = (evs, Ok k) ->
  exists p c', extends (stamped_plan en s) p /\ pl_cgroup p = sp_cgroup s /\
    (pl_view p <> None -> sp_view_root s <> None -> pl_new_root p = sp_view_root s) /\
    ordered en an uid gid s p c' (rk_init_pid k) evs.
Proof.
  unfold start. pose proof (bring_up_hoare en elf h an uid gid s c _ eq_refl) as HB.
  destruct (bring_up _ _ _ _ _ _ s c _) as [st [pid|e']]; [|done]. intros [= <- <-]. destruct HB as (p & c' & H1 & H2 & H3 & H4 & _).
  by exists p, c'.
Qed.

(** A kennel that ran and was waited for is given back whole by the stop; a stop whose wait fails gives
    nothing back. *)
Theorem stop_gives_back en elf h an uid gid (s : Spec) (c : Command) evs k code :
  start en elf h an uid gid s c = (evs, Ok k) ->
  Forall (given_back s (stop k (Some code)).1) evs /\ ERmdir (sp_cgroup s) ∈ (stop k (Some code)).1 /\ (stop k None).1 = [].
Proof.
  unfold start. pose proof (bring_up_hoare en elf h an uid gid s c _ eq_refl) as HB.
  destruct (bring_up _ _ _ _ _ _ s c _) as [st [pid|e']]; [|done]. intros [= <- <-]. destruct HB as (p & c' & _ & _ & _ & Ho & Hrec & Hcg & Hf).
  assert (Hm : pr_made_cgroup (st_prov st) = true).
  { destruct Hcg as [E|?]; [|done]. destruct Ho as (pre & mid & prep & _ & _ & E' & _). rewrite E in E'. by destruct pre. }
  split_and!; [| |done].
  - eapply Forall_impl; [exact Hrec|]. intros ev Hev. pose proof (teardown_gives s _ ev Hev Hf) as Hg. unfold unwind in Hg. rewrite Hm in Hg.
    cbn. destruct ev; try done; cbn in *.
    + destruct Hg as [G1 G2]. split; intros; right; auto.
    + by right.
    + by right.
  - cbn. unfold teardown. set_solver.
Qed.

(** In an image, no grant of the policy lands on the image's own system directories: what does is one of
    the binaries kennel puts there itself, read-only and at its own path, or their directory, which is
    always there with the launcher. *)
Theorem image_keeps_system_dirs elf h (s : Spec) sock ports (p : Plan) (c : Command) v' :
  sp_view_root s <> None -> pl_view (facade_plan elf h s sock ports (p, c)).1 = Some v' -> sv_image v' <> None ->
  (forall b, b ∈ sv_binds v' -> is_image_owned_system_path (bm_target b) = true ->
     read_only b /\ bm_source b = bm_target b /\
     (oc_launcher_bin (sp_oci s) = Some (bm_target b) \/ oc_launcher_bin (sp_oci s) ≫= path_parent = Some (bm_target b) \/
      sh_ssh_bin (sp_ssh_prep s) = Some (bm_target b))) /\
  (forall l dir, oc_launcher_bin (sp_oci s) = Some l -> path_parent l = Some dir -> ro_bind dir dir ∈ sv_binds v').
Proof.
  intros Hvr. unfold facade_plan. cbn zeta. destruct (sp_view_root s) as [vr|]; [|done]. cbn [is_none].
  generalize (tun_facade elf h s (pivoting s (net_facades elf h s sock ports (ssh_files (sp_ssh_prep s) (p, c).1, (p, c).2)).1)
    (apply_dbus elf h (sp_dbus_prep s) (pivoting s (net_facades elf h s sock ports (ssh_files (sp_ssh_prep s) (p, c).1, (p, c).2)).1)
      (apply_afunix elf h (sp_unix_prep s) (pivoting s (net_facades elf h s sock ports (ssh_files (sp_ssh_prep s) (p, c).1, (p, c).2)).1)
        (net_facades elf h s sock ports (ssh_files (sp_ssh_prep s) (p, c).1, (p, c).2))))).
  intros [q d]. unfold wire_view. destruct (pl_view q) as [v|] eqn:Ev; cbn; [|by rewrite Ev]. rewrite Ev. cbn.
  intros [= <-] Hi. cbn [sv_image view_binds] in Hi. assert (oci_view q = true) as -> by (unfold oci_view; rewrite Ev; by destruct (sv_image v)).
  cbn [sv_binds view_binds substrate_binds]. split.
  - intros b Hb Ho. unfold own_binds, bind_of in Hb. rewrite !elem_of_app in Hb.
    destruct Hb as [[Hb|Hb]|[Hb|[Hb|Hb]]].
    + apply list_elem_of_In, filter_In in Hb as [_ Hb]. by rewrite Ho in Hb.
    + destruct (oc_launcher_bin (sp_oci s) ≫= path_parent) as [dir|] eqn:Ed; [|by apply elem_of_nil in Hb].
      apply list_elem_of_singleton in Hb as ->. cbn. split_and!; auto.
    + destruct (sh_ssh_bin (sp_ssh_prep s)); [|by apply elem_of_nil in Hb]. apply list_elem_of_singleton in Hb as ->. cbn. split_and!; auto.
    + destruct (oc_launcher_bin (sp_oci s)); [|by apply elem_of_nil in Hb]. apply list_elem_of_singleton in Hb as ->. cbn. split_and!; auto.
    + destruct (oc_config_src (sp_oci s)); [|by apply elem_of_nil in Hb]. apply list_elem_of_singleton in Hb as ->. by vm_compute in Ho.
  - intros l dir Hl Hd. rewrite Hl. cbn. rewrite Hd. set_solver.
Qed.

Lemma materialized_ok st ws binds : materialized (ws, Some binds) st = ({| st_events := st_events st ++ map (fun w => EWrite w.1 w.2) ws; st_prov := st_prov st |}, Ok binds).
Proof. done. Qed.
Lemma bind_ports_ok an sock addr ports : forall st, exists st', bind_ports an sock addr ports st = (st', Ok tt).
Proof.
  induction ports as [|port ports IH]; intros st; cbn [bind_ports]; [by eexists|]. unfold mbind, M_bind, when.
  destruct (an_bind an port); [apply IH|apply IH].
Qed.

(** A computation that returns from every state. *)
Definition returns {A} (m : M A) : Prop := forall st, exists st' a, m st = (st', Ok a).
Lemma returns_bind {A B} (m : M A) (f : A -> M B) : returns m -> (forall a, returns (f a)) -> returns (m ≫= f).
Proof. intros Hm Hf st. destruct (Hm st) as (st' & a & E). unfold mbind, M_bind. rewrite E. apply Hf. Qed.
Lemma returns_ret {A} (a : A) : returns (mret a).
Proof. intros st. by eexists _, _. Qed.
Lemma returns_acquire ok e err f : ok = true -> returns (acquire ok err e f).
Proof. intros -> st. by eexists _, _. Qed.
Lemma returns_try ok err e : ok = true -> returns (try_ ok err e).
Proof. intros -> st. by eexists _, _. Qed.
Lemma returns_when b m : returns m -> returns (when b m).
Proof. intros H. destruct b; [exact H|apply returns_ret]. Qed.
Lemma returns_etc an etc rs p : (forall d, an_mkdir an d = true) -> (forall f, an_write an f = true) -> returns (etc_files an etc rs p).
Proof.
  intros Hd Hw. unfold etc_files. destruct etc as [e|]; [|apply returns_ret].
  apply returns_bind; [intros st; by eexists _, _|]. intros v6.
  assert (exists ws binds, materialize (an_mkdir an) (an_write an) (es_staging_dir e) (etc_params e v6 rs) = (ws, Some binds)) as (ws & binds & ->).
  { apply materialize_whole; [apply Hd|]. intros. apply Hw. }
  apply returns_bind; [intros st; by eexists _, _|]. intros binds'.
  assert (exists ws binds, materialize_home_dotfiles (an_mkdir an) (an_write an) (path_join (es_staging_dir e) (ascii_bytes "home"))
    (es_home e) (es_home_persist e) = (ws, Some binds)) as (ws2 & dots & ->).
  { unfold materialize_home_dotfiles. rewrite Hd. rewrite write_files_ok; [by eexists _, _|]. apply forallb_forall. intros [n b] Hin.
    apply in_map_iff in Hin as (x & [= <- <-] & _). cbn. apply Hw. }
  apply returns_bind; [intros st; by eexists _, _|]. intros dots'. apply returns_ret.
Qed.

(** A bring-up whose calls succeed returns: it needs a binder context and nothing else of the
    specification, and a manager or a mirrored port that does not come up does not stop it. *)
Theorem start_succeeds en elf h an uid gid (s : Spec) (c : Command) prep pid :
  sp_binder s = Some prep -> an_construct an = Some pid ->
  (forall d, an_mkdir an d = true) -> (forall f, an_write an f = true) -> (forall b, an_spawn an b = true) ->
  an_ready an = true -> an_sent an = true -> an_live an = true ->
  exists evs k, start en elf h an uid gid s c = (evs, Ok k).
Proof.
  intros Hb Hc Hd Hw Hs Hr Hse Hl. unfold start.
  assert (H : returns (bring_up en elf h an uid gid s c)).
  { unfold bring_up, prepare_up. apply returns_bind; [|intros [[p c'] sock]].
    - apply returns_bind; [by apply returns_acquire|intros _]. apply returns_bind; [apply returns_when; intros st; by eexists _, _|intros _].
      apply returns_bind; [apply returns_when; intros st; by eexists _, _|intros _].
      apply returns_bind; [|intros sock].
      { destruct (sp_proxy s); [|apply returns_ret]. destruct (proxied _); [|apply returns_ret].
        apply returns_bind; [by apply returns_try|intros _; apply returns_ret]. }
      apply returns_bind; [by apply returns_etc|intros p]. destruct (facade_plan _ _ _ _ _ _) as [p1 c1].
      apply returns_bind; [|intros p2; apply returns_ret].
      destruct (sp_view_root s), (pl_view p1); try apply returns_ret. apply returns_bind; [by apply returns_acquire|intros _; apply returns_ret].
    - unfold build_up. rewrite Hb, Hc. apply returns_bind; [by apply returns_acquire|intros _].
      apply returns_bind; [by apply returns_try|intros _]. apply returns_bind; [by apply returns_try|intros _].
      apply returns_bind; [|intros _]. 
      + unfold serve. apply returns_bind; [|intros _].
        { destruct (sp_proxy s), sock; try apply returns_ret. by apply returns_acquire. }
        apply returns_bind; [intros st; by eexists _, _|intros v6]. apply returns_bind; [|intros _; by apply returns_when, returns_acquire].
        destruct (sp_proxy s) as [setup|], v6 as [addr|]; try apply returns_ret. destruct (is_nil _); [apply returns_ret|]. apply returns_bind; [by apply returns_try|intros _]. apply returns_bind; [by apply returns_acquire|intros _].
        intros st. destruct (bind_ports_ok an (cmd_socket (ps_config_dir setup) "inetd-cmd-" (sp_ctx s)) (V6 addr) (mirror_bind_ports (sp_network s)) st) as [st' E].
        by exists st', tt.
      + apply returns_bind; [by apply returns_try|intros _]. apply returns_bind; [intros st; by eexists _, _|intros _; apply returns_ret]. }
  destruct (H {| st_events := []; st_prov := no_provision |}) as (st & pid' & ->). by eexists _, _.
Qed.

(** * Examples *)

(** A proxied kennel that publishes two ports, with a view, an [/etc], a socket and the session bus. *)
Definition ex_ports : NetPolicy := {|
  np_mode := PmConstrained; np_udp := false; np_bind_port_min := 0; np_bind_allowed_ports := [8080; 0; 8080];
  np_proxy := proxy_default; np_allow := []; np_allow_names := []; np_udp_allow_names := [];
  np_deny_invariant := []; np_deny_author := []; np_bpf_connect_allow := []; np_bpf_connect_deny := [];
  np_bpf_bind_allow := [{| nr_cidr := ascii_bytes "127.0.0.1"; nr_prefix_len := 32; nr_port_min := 9090; nr_port_max := 9090;
                           nr_protocol := ProtoTcp |}]; np_bpf_bind_deny := [] |}.
Definition ex_spec (binder : option BinderPrep) : Spec := {|
  sp_id := ascii_bytes "dev"; sp_cgroup := ascii_bytes "/sys/fs/cgroup/kennel/7"; sp_ctx := 7; sp_uid := 1000; sp_plan := PlanWire.sample_plan;
  sp_network := ex_ports;
  sp_proxy := Some {| ps_binary := ascii_bytes "/usr/libexec/kennel/netproxy"; ps_config_dir := ascii_bytes "/run/kennel";
                      ps_socks5 := ascii_bytes "/usr/libexec/kennel/socks5"; ps_inetd := ascii_bytes "/usr/libexec/kennel/inetd";
                      ps_facade_client := ascii_bytes "/usr/libexec/kennel/client" |};
  sp_etc := Some {| es_staging_dir := ascii_bytes "/run/kennel/etc-7"; es_account := ascii_bytes "dev"; es_account_group := ascii_bytes "dev";
                    es_hostname := ascii_bytes "kennel"; es_uid := 1000; es_gid := 1000; es_home := ascii_bytes "/home/dev"; es_groups := [];
                    es_shell := ascii_bytes "/bin/sh"; es_home_persist := [] |};
  sp_view_root := Some (ascii_bytes "/run/kennel/root-7");
  sp_ssh_prep := {| sh_file_binds := []; sh_host_service := None; sh_ssh_bin := None |};
  sp_unix_prep := {| up_shims := [{| us_name := ascii_bytes "agent"; us_shim_path := ascii_bytes "/run/agent/sock" |}];
                     up_env := [(ascii_bytes "SSH_AUTH_SOCK", ascii_bytes "/run/agent/sock")];
                     up_afunix_bin := Some (ascii_bytes "/usr/libexec/kennel/afunix") |};
  sp_dbus_prep := {| db_session := Some (ascii_bytes "/run/user/1000/bus"); db_system := None;
                     db_facade_bin := Some (ascii_bytes "/usr/libexec/kennel/dbus") |};
  sp_facade_tun := None; sp_binder := binder;
  sp_oci := {| oc_launcher_bin := None; oc_config_src := None |}; sp_mesh_mounts := [(3, ascii_bytes "/run/mesh")];
  sp_level := LogInfo |}.
Definition ex_prep : BinderPrep :=
  {| bp_unix := {| ur_sockets := [] |}; bp_prompt := false; bp_spawn := None; bp_consumes := []; bp_brokered_dbus := false |}.
Definition ex_command : Command :=
  {| cm_program := ascii_bytes "/bin/sh"; cm_args := []; cm_envs := [(ascii_bytes "HOME", None)]; cm_current_dir := None |}.
Definition ex_answers (spawned live : bool) : Answers := {|
  an_mkdir := fun _ => true; an_write := fun _ => true; an_construct := Some 4242; an_ready := true; an_sent := true;
  an_spawn := fun b => spawned || negb (bool_decide (b = ascii_bytes "/usr/libexec/kennel/inetd")); an_bind := fun p => p =? 9090;
  an_node0 := true; an_live := live |}.
Definition ex_start (spawned live : bool) (binder : option BinderPrep) : list Ev * result BringError Running :=
  start LittleEndian (fun _ => None) ex_user (ex_answers spawned live) 1000 1000 (ex_spec binder) ex_command.

(** The published port that is refused is not an error, and the other is bound on the kennel's address;
    the delegates and node 0 come before the release. *)
Example ex_started :
  mirror_bind_ports ex_ports = [8080; 9090] /\
  option_map (fun e => match e with EBind _ a p => Some (a, p) | _ => None end)
    (head (List.filter (fun e => match e with EBind _ _ _ => true | _ => false end) (ex_start true true (Some ex_prep)).1)) =
    Some (Some (V6 (own_addr (ex_spec None)), 9090)) /\
  map (fun e => match e with EConstruct _ _ _ _ _ => 1 | EReady => 2 | ERendezvous _ _ _ => 3 | ESpawn DProxy _ _ => 4 | ESpawn DInetd _ _ => 5
    | EBind _ _ _ => 6 | ENode0 _ _ => 7 | EBusLive => 8 | EReapHelper => 9 | _ => 0 end)
    (List.filter (fun e => match e with EWrite _ _ => false | _ => true end) (ex_start true true (Some ex_prep)).1) =
    [0; 0; 0; 1; 2; 3; 4; 0; 5; 6; 7; 8; 9].
Proof. vm_compute. done. Qed.
(** A bring-up that cannot start the second delegate kills the first, and leaves the init it constructed. *)
Example ex_failed :
  List.filter (fun e => match e with EKill _ | EDelAddress _ _ _ | ERmdir _ | EStopManager | EWait _ | EReapHelper => true | _ => false end)
    (ex_start false true (Some ex_prep)).1 =
  [EKill DProxy; EDelAddress 7 (V6 (own_addr (ex_spec None))) V6_PREFIX; ERmdir (ascii_bytes "/sys/fs/cgroup/kennel/7");
   ERmdir (ascii_bytes "/run/kennel/root-7")].
Proof. vm_compute. done. Qed.

Lemma started_in_order_witness :
  exists p c', extends (stamped_plan LittleEndian (ex_spec (Some ex_prep))) p /\ pl_cgroup p = sp_cgroup (ex_spec (Some ex_prep)) /\
    (pl_view p <> None -> sp_view_root (ex_spec (Some ex_prep)) <> None -> pl_new_root p = sp_view_root (ex_spec (Some ex_prep))) /\
    ordered LittleEndian (ex_answers true true) 1000 1000 (ex_spec (Some ex_prep)) p c' 4242 (ex_start true true (Some ex_prep)).1.
Proof.
  apply (started_in_order LittleEndian (fun _ => None) ex_user (ex_answers true true) 1000 1000 (ex_spec (Some ex_prep)) ex_command
    (ex_start true true (Some ex_prep)).1
    {| rk_init_pid := 4242; rk_cgroup := ascii_bytes "/sys/fs/cgroup/kennel/7"; rk_ctx := 7; rk_v6 := Some (own_addr (ex_spec None));
       rk_proxy := true; rk_inetd := true; rk_view_root := Some (ascii_bytes "/run/kennel/root-7"); rk_binder := true |}).
  vm_compute. reflexivity.
Defined.
